(* ===== verification/_CoqProject ===== *)
-Q . S2P
Prelude.v
CxxInt.v
CxxString.v
CxxFloat.v
CxxPath.v
Sha256.v
Scoring.v
TypeSystem.v
Ast.v
AiTypes.v
JsonText.v
HardwareRouting.v
AiBackends.v
AiRuntime.v
HardwareRoutingFacts.v
AiRuntimeFacts.v
NativeRuntime.v
NativeRuntimeFacts.v
NativeReports.v
Diagnostics.v
ParserGuard.v
AnalyzerState.v
C3EcoSemantics.v
C3EcoFacts.v
SemanticAnalyzer.v
Checker.v
CheckerFacts.v
AnalyzerFacts.v
AnalyzerSound.v
AnalyzerProgram.v
AnalyzerComplete.v
Interpreter.v
InterpreterFacts.v
RuntimeTyping.v
TypeSafety.v
Termination.v
Soundness.v
Serving.v
ServingFacts.v
ServingSafety.v
ModuleResolver.v
ModuleOrder.v
ModuleFacts.v
ModuleLock.v
SemanticIR.v
SemanticIRFacts.v
SemanticIRExact.v
SemanticIRProgram.v
SemanticIRBuilder.v
SemanticIRSound.v
SemanticIRLowering.v
OnnxEnvelope.v
OnnxEnvelopeFacts.v
ImmutableModel.v
Facade.v
ImmutableFacts.v
FacadeFacts.v
EnterpriseLanguage.v
EnterpriseFacts.v
EnterpriseValues.v
EnterpriseValuesFacts.v
EnterpriseValuesLedger.v
EnterpriseValuesRules.v
FloatOrder.v
Energy.v
EnergyCollectors.v
EnergyFacts.v
ExecutionPlan.v
ExecutionPlanFacts.v
SourceTools.v
ScannerText.v
SourceToolsFacts.v
