(* ===== verification/Prelude.v ===== *)
(** * ShortHand compiler: a verification library

    ShortHand is a small imperative language with AI and energy-evidence
    declarations.  Its compiler (src/Compiler_new_ws/Short_Hand/src, called
    [src] below, and src/mlir) is written in C++: a guarded parser builds a tree,
    semantic analysis accepts or refuses it, and an accepted program is
    interpreted or lowered through a semantic IR.  Around that core stand a
    module system with lock files, a serving runtime that runs inference
    requests on worker threads, a runtime type and memory model, the native
    runtime library that compiled programs link, which routes inference to a
    device and runs it, the scoring of C3-ECO assessments, and a formatter and
    linter of sources.  This library models those parts and proves what they
    promise.

    ** How the parts interact

    The parser asks ParserGuard before it takes more input; the tree of Ast goes
    to SemanticAnalyzer, which reports through Diagnostics and calls the C3-ECO
    checks; an accepted tree is run by Interpreter, which calls the AI runtime
    through the class [AIRuntimeInterface], or is turned into IR by
    SemanticIRBuilder, checked by SemanticIR's verifier and handed to MLIR.
    ModuleResolver finds the units of a package, orders them by import and pins
    them with digests of Sha256.  Serving is a separate process component that
    hosts a handler.  A compiled program calls NativeRuntime, which keeps the
    declared models, asks AiRuntime to route and run an inference, and reports
    what happened; AiRuntime asks HardwareRouting what the host has and which
    route is qualified, and AiBackends to execute.  OnnxEnvelope checks the bytes
    of a model before they are trusted; ImmutableModel binds such a model to a
    slot that is never rebound in place, and Facade puts it beside NativeRuntime
    under one lock.  EnterpriseLanguage checks sources of type and ownership
    declarations with TypeSystem; EnterpriseValues parses executable sources of
    that kind, checks every use of a value with the ownership tracker of
    TypeSystem and lowers them to the IR that SemanticIR's verifier checks.
    EnergyCollectors measures the energy of a run, and
    ExecutionPlan chooses among qualified candidates by such measurements.
    SourceTools rewrites and checks the layout of a source before any of this;
    ScannerText says which of its characters the scanner would read as tokens.
    The interpreter is proved against any [AIRuntimeInterface]; the native runtime
    is proved over AiRuntime itself, with ONNX Runtime as the class [OrtApi] and
    what is documented of its buffers as the laws [OrtLaws].

    ** Conventions

    A C++ object is a record, a method a computation of the state monad [SM]
    (undefined behaviour and exhausted fuel are outcomes) or [ST] (methods that
    always return), defined below.  Integers are [Z] at their width, with the
    wrap-around written out (CxxInt); doubles are IEEE values (CxxFloat);
    strings are [string] (CxxString, CxxPath).  A vector used as a stack keeps
    its back at the head of the list.  File systems, clocks, environments, input
    and the inference engine (ONNX Runtime) are arguments.

    ** Files and sources

    - Prelude, CxxInt, CxxString, CxxFloat, CxxPath: outcomes and monads, and
      what the sources use of the C++ standard library.
    - Ast, Diagnostics, AiTypes: [src]/ast/AST.*, ast/SourceRange.*,
      visitors/Diagnostics.*, visitors/DiagnosticCodes.h, ai_runtime/AI_Types.*.
    - ParserGuard: parser/ParserLimits.h.
    - AnalyzerState, C3EcoSemantics, SemanticAnalyzer: visitors/SemanticAnalyzer.*
      (state, C3-ECO declarations, every visit method).
    - Checker: the specification of semantic analysis, a declarative type system.
      CheckerFacts, AnalyzerFacts, AnalyzerSound, AnalyzerProgram: semantic
      analysis implements it.  AnalyzerComplete: it accepts every core program
      the checker accepts.  C3EcoFacts: dates and validity windows.
    - Interpreter: visitors/Interpreter.*.  InterpreterFacts, RuntimeTyping,
      TypeSafety, Termination: its store, its typing invariant, its errors, its
      termination.  Soundness: the main theorems and the programs that show
      where they stop.
    - SemanticIR: mlir/include/ShortHand/SemanticIR.h and
      mlir/lib/SemanticVerifier.cpp.  SemanticIRFacts, SemanticIRExact,
      SemanticIRProgram: the verifier decides a declarative type system.
      SemanticIRBuilder: semantic_ir/SemanticIRBuilder.*.  SemanticIRSound,
      SemanticIRLowering: what semantic analysis accepts, the builder builds and
      the verifier accepts, up to the stated restrictions.
    - TypeSystem: type_system/ProductionTypeSystem.* (descriptors, layout,
      conversions, ownership).
    - Sha256: module/Sha256.*.  ModuleResolver, ModuleOrder, ModuleFacts,
      ModuleLock: module/ModuleResolver.*.
    - Serving, ServingFacts, ServingSafety: serving/ServingRuntime.*.
    - JsonText: the JSON text the runtime writes.  HardwareRouting:
      ai_runtime/HardwareDiscovery.h, ProductionBackendQualification.h.
      AiBackends: ai_runtime/AI_Telemetry.h and the backends.  AiRuntime:
      ai_runtime/AI_Runtime.*.  HardwareRoutingFacts, AiRuntimeFacts: theirs.
    - NativeRuntime: runtime/ShorthandRuntime.cpp, AIRuntimeBridgeAdapter.cpp.
      NativeRuntimeFacts: inference.  NativeReports: declarations and reports.
    - OnnxEnvelope, OnnxEnvelopeFacts: runtime/ImmutableOnnxEnvelope.h.
    - ImmutableModel, Facade: runtime/RuntimeThreadSafeFacade.cpp and
      ImmutableModelInternal.h.  ImmutableFacts, FacadeFacts: theirs.
    - EnterpriseLanguage, EnterpriseFacts: enterprise/EnterpriseLanguage.*.
      EnterpriseValues: enterprise/EnterpriseValues.*.  EnterpriseValuesFacts:
      it always ends.  EnterpriseValuesLedger, EnterpriseValuesRules: the
      ownership rules, read from the tokens of a source, and that accepted sources
      obey them.
    - SourceTools: tooling/SourceTools.*, tooling/SourceToolMain.cpp.  ScannerText:
      the rules of scanner_parser/scanner.ll for white space, comments and string
      literals.  SourceToolsFacts: theirs.
    - FloatOrder: the order of IEEE values.  Energy, EnergyCollectors, EnergyFacts:
      ai_runtime/energy.  ExecutionPlan, ExecutionPlanFacts:
      ai_runtime/ExecutionPlan.*.
    - Scoring: evidence/C3EcoAssessment.h, C3EcoAssessmentScoring.cpp.

    ** What the theorems show

    - Front end (Soundness, AnalyzerFacts, InterpreterFacts).  These theorems are
      about programs whose tree has the shape the grammar builds ([program_ok])
      and in which no local or parameter has the name of a global
      ([locals_apart]).  Semantic analysis refines the checker, and decides it on
      programs without declarations of the AI and C3-ECO extensions; an accepted
      program, on any input, reports only the errors of [log_ok] and has defined
      behaviour except at two named AI statements; without loops it ends.  When a
      local hides a global that can fail ([hiding_a_global_breaks_safety]).
      For every program, every statement restores the frame stack, the frame stack
      is one typed store, and arithmetic is that of 32 bits.
    - Lowering (SemanticIRProgram, SemanticIRLowering): the verifier always
      returns and accepts exactly the well-typed IR within its limits; an
      accepted program of the kind above whose models name known backends builds,
      alone, without unresolved names, and its IR is refused only for the
      restrictions that [supported] lists or for size.
    - Serving (ServingSafety): over every interleaving, limits hold, every
      request is accounted for, shutdown is complete and always possible, results
      are final; two schedules that go wrong are exhibited.
    - Modules (ModuleOrder, ModuleFacts, ModuleLock, Sha256): the import order is
      exactly a topological order of the reachable modules; an accepted package
      is sound; a lock file round-trips and pins the graph, when its names have no
      spaces and its texts no line breaks ([lockable]); the streaming digest is
      the digest of the padded message.
    - Native runtime (NativeRuntimeFacts, NativeReports, AiRuntimeFacts,
      HardwareRoutingFacts): while the memory size of the host and the
      qualification override stay the same over the whole history
      ([at_conditions]), an inference depends on the declaration and the input and
      not on the calls before it, the counters count the answers and the caches
      of the runtime are transparent, and not beyond
      ([withdrawn_override_still_executes]); a refused inference leaves the
      caller's buffer alone, whatever happens to the environment; reports do not
      change the state; the selected route is the first qualified one.
    - Model bytes (OnnxEnvelopeFacts): the envelope check accepts exactly the
      encodings of a declarative grammar within its limits.
    - Immutable models (FacadeFacts): binding accepts exactly the snapshots with
      the promised digest and envelope; a handle names one binding; inference is
      transactional, and under fixed conditions, as above, agrees with the bound
      bytes; a held report is stable.
    - Enterprise language (EnterpriseFacts): the validator accepts exactly the
      sources of a line grammar that obey the type and ownership rules.
    - Value sources (EnterpriseValuesFacts, EnterpriseValuesRules): lowering ends
      with a program or a diagnostic and never leaves its vectors and tables; each
      statement of an accepted source, read from its tokens, is one that the rules
      on a ledger of values, moves and borrows allow, and the lowered statements
      read and write exactly what it mentions; two sources that are accepted
      against the contract are exhibited.
    - Source tools (SourceToolsFacts): formatting reaches a normal form and stops
      there, the linter recognises that form up to one blank line, and the
      tokens of a source stay the same unless it breaks lines inside string
      literals or comments.
    - Energy and plans (EnergyFacts, ExecutionPlanFacts): a measurement is complete or
      empty and reads wrapping counters exactly; the walk of the power-cap tree ends on
      every file system; the selected plan is the one a specification determines; an
      energy claim rests on eligible measurements of every trial.
    - Types, parser guard, scoring, AI types: the ownership tracker refines a
      borrow discipline; layouts and conversions are exact or refused; the guard
      records exactly the first violated limit; the recommended level and the
      permitted claims are justified; shapes are validated up to wrap-around.

    ** Bounds and fuel

    The interpreter takes fuel, one unit per visit; [fuel_does_not_matter] shows
    that more fuel does not change a finished run, and loop-free programs have
    enough.  The walk of the power-cap tree takes one unit per turn of its loop, and
    [powercap_reading_ends_and_is_sound] shows that some number is enough.  [find_manifest] has one unit per component of the path and
    [topologicalOrder] one per unit and two more, and both are proved to suffice;
    the envelope check has one unit per byte and one more, and [memory_loop] one
    per character of its text, and both suffice ([envelope_exact],
    [memory_loop_fuel]); [format_g] of CxxFloat has 400 digits, more than a double
    needs.  The parser of EnterpriseValues has 129 levels for nested expressions,
    257 turns for members (the code's limits and one more) and one turn per token
    for statements, names and printed values; [value_source_lowering_ends] shows that
    they are enough.  All other definitions are structural.

    ** Not modelled

    The scanner but for what ScannerText says of it, the grammar (generated
    tables), LLVM and MLIR emission (C++
    APIs of other projects), ONNX Runtime itself, the profiling clocks of the
    native runtime, its locks (a call under the facade's lock is one atomic step), the command line drivers, process and network
    adapters, and the evidence tools that only copy files.  Left out as well: the
    measurement workbook (a reader beside the modelled ones) and the language
    server (the loop of an editor around the source tools).  Semantic analysis is complete for the checker only on the
    executable core: the checker does not describe the AI and C3-ECO
    declarations. *)
From Stdlib Require Export Ascii String.
From stdpp Require Export prelude gmap strings pretty.

(** * Notations *)

Declare Scope shorthand_scope.
Delimit Scope shorthand_scope with sh.

(** * Outcomes of C++ code

    [Done] is a normal return, [Undefined] stands for undefined behaviour or
    an exception that nothing catches, with the reason, and [OutOfFuel] says
    that the bound given to the model was too small for the run. *)
Inductive outcome (A : Type) :=
| Done (a : A)
| Undefined (reason : string)
| OutOfFuel.
Arguments Done {A} a.
Arguments Undefined {A} reason.
Arguments OutOfFuel {A}.

(** The state monad of a C++ object with fields [S]: a method reads and
    writes the fields and returns a value, unless its behaviour is undefined. *)
Definition SM (S A : Type) : Type := S → outcome (A * S).

Global Instance SM_ret {S} : MRet (SM S) := λ A a s, Done (a, s).
Global Instance SM_bind {S} : MBind (SM S) := λ A B k m s,
  match m s with
  | Done (a, s') => k a s'
  | Undefined r => Undefined r
  | OutOfFuel => OutOfFuel
  end.

Definition gets {S A} (f : S → A) : SM S A := λ s, Done (f s, s).
Definition modify {S} (f : S → S) : SM S unit := λ s, Done (tt, f s).
Definition undefined {S A} (r : string) : SM S A := λ _, Undefined r.
Definition out_of_fuel {S A} : SM S A := λ _, OutOfFuel.

(** A computation that returns hands its value and state on. *)
Lemma bind_done {S A B} (m : SM S A) (k : A → SM S B) s a s' : m s = Done (a, s') → (m ≫= k) s = k a s'.
Proof. intros H. unfold mbind, SM_bind. by rewrite H. Qed.

(** A function that can throw: the text of the exception, or its value. *)
Definition Ex (A : Type) : Type := string + A.

Global Instance Ex_ret : MRet Ex := λ A a, inr a.
Global Instance Ex_bind : MBind Ex := λ A B k m,
  match m with
  | inl why => inl why
  | inr a => k a
  end.

Definition throw {A} (why : string) : Ex A := inl why.
Definition throw_if (b : bool) (why : string) : Ex unit := if b then inl why else inr tt.

Lemma Ex_bind_inr {A B} (m : Ex A) (k : A → Ex B) b :
  (m ≫= k) = inr b ↔ ∃ a, m = inr a ∧ k a = inr b.
Proof. destruct m; naive_solver. Qed.

Lemma throw_if_inr {A} b why (k : Ex A) r : (throw_if b why ≫= λ _, k) = inr r ↔ b = false ∧ k = inr r.
Proof. destruct b; naive_solver. Qed.

(** [wp U m Q s]: when [m] runs from [s] and returns, the value and the new
    state satisfy [Q]; when it is undefined the reason satisfies [U]. *)
Definition wp {S A} (U : string → Prop) (m : SM S A) (Q : A → S → Prop) (s : S) : Prop :=
  match m s with
  | Done (a, s') => Q a s'
  | Undefined r => U r
  | OutOfFuel => True
  end.

Section wp_rules.
Context {S : Type} (U : string → Prop).

Lemma wp_ret {A} (a : A) (Q : A → S → Prop) s : Q a s → wp U (mret a) Q s.
Proof. done. Qed.

Lemma wp_bind {A B} (m : SM S A) (k : A → SM S B) (Q : B → S → Prop) s :
  wp U m (λ a s', wp U (k a) Q s') s → wp U (m ≫= k) Q s.
Proof.
  unfold wp, mbind, SM_bind. by destruct (m s) as [[a s']| |].
Qed.

Lemma wp_mono {A} (m : SM S A) (Q R : A → S → Prop) s :
  wp U m Q s → (∀ a s', Q a s' → R a s') → wp U m R s.
Proof. unfold wp. destruct (m s) as [[a s']| |]; auto. Qed.

Lemma wp_gets {A} (f : S → A) (Q : A → S → Prop) s : Q (f s) s → wp U (gets f) Q s.
Proof. done. Qed.

Lemma wp_modify (f : S → S) (Q : unit → S → Prop) s : Q tt (f s) → wp U (modify f) Q s.
Proof. done. Qed.

Lemma wp_out_of_fuel {A} (Q : A → S → Prop) s : wp U out_of_fuel Q s.
Proof. done. Qed.

Lemma wp_undefined {A} r (Q : A → S → Prop) s : U r → wp U (undefined r) Q s.
Proof. done. Qed.

Lemma wp_conj {A} (m : SM S A) (Q R : A → S → Prop) s :
  wp U m Q s → wp U m R s → wp U m (λ a s', Q a s' ∧ R a s') s.
Proof. unfold wp. destruct (m s) as [[a s']| |]; auto. Qed.
End wp_rules.

(** The state monad of a C++ object whose methods always return. *)
Definition ST (S A : Type) : Type := S → A * S.

Global Instance ST_ret {S} : MRet (ST S) := λ A a s, (a, s).
Global Instance ST_bind {S} : MBind (ST S) := λ A B k m s, let r := m s in k r.1 r.2.

Definition reads {S A} (f : S → A) : ST S A := λ s, (f s, s).
Definition update {S} (f : S → S) : ST S unit := λ s, (tt, f s).
