(* ===== verification/CxxInt.v ===== *)
(** Integers at their C++ width.

    An integer object is a [Z] inside the range of its type; the arithmetic of
    the source is written with the wrap-around it has.  The width of [size_t]
    is the one of the qualified platform (linux-x64): 64 bits. *)
From S2P Require Import Prelude.
Open Scope Z_scope.

(** Conversion to an unsigned type reduces modulo its cardinality. *)
Definition u32 (z : Z) : Z := z mod 2 ^ 32.
Definition u64 (z : Z) : Z := z mod 2 ^ 64.

(** Two's complement reading of the low bits. *)
Definition s32 (z : Z) : Z := (z + 2 ^ 31) mod 2 ^ 32 - 2 ^ 31.
Definition s64 (z : Z) : Z := (z + 2 ^ 63) mod 2 ^ 64 - 2 ^ 63.

Definition INT32_MIN : Z := - 2 ^ 31.
Definition INT32_MAX : Z := 2 ^ 31 - 1.
Definition UINT32_MAX : Z := 2 ^ 32 - 1.
Definition INT64_MIN : Z := - 2 ^ 63.
Definition INT64_MAX : Z := 2 ^ 63 - 1.
Definition SIZE_MAX : Z := 2 ^ 64 - 1.

Definition is_int32 (z : Z) : Prop := INT32_MIN ≤ z ≤ INT32_MAX.
Definition is_uint32 (z : Z) : Prop := 0 ≤ z ≤ UINT32_MAX.
Definition is_int64 (z : Z) : Prop := INT64_MIN ≤ z ≤ INT64_MAX.
Definition is_size (z : Z) : Prop := 0 ≤ z ≤ SIZE_MAX.

(** Turns the powers of two of the ranges into numerals so that [lia] sees
    constants. *)
Ltac unfold_ranges :=
  unfold is_int32, is_uint32, is_int64, is_size, INT32_MIN, INT32_MAX, UINT32_MAX,
    INT64_MIN, INT64_MAX, SIZE_MAX, u32, u64, s32, s64 in *;
  change (2 ^ 31) with 2147483648 in *; change (2 ^ 32) with 4294967296 in *;
  change (2 ^ 63) with 9223372036854775808 in *;
  change (2 ^ 64) with 18446744073709551616 in *.

Ltac width := unfold_ranges; Z.to_euclidean_division_equations; lia.

Create HintDb cxx_int.
Create Rewrite HintDb cxx_int.

Lemma u32_range z : is_uint32 (u32 z).
Proof. width. Qed.

Lemma u64_range z : is_size (u64 z).
Proof. width. Qed.

Lemma s32_range z : is_int32 (s32 z).
Proof. width. Qed.

Lemma s64_range z : is_int64 (s64 z).
Proof. width. Qed.

Lemma u32_id z : is_uint32 z → u32 z = z.
Proof. width. Qed.

Lemma u64_id z : is_size z → u64 z = z.
Proof. width. Qed.

Lemma s32_id z : is_int32 z → s32 z = z.
Proof. width. Qed.

Lemma s64_id z : is_int64 z → s64 z = z.
Proof. width. Qed.

(** [s32] only depends on the residue modulo 2^32. *)
Lemma s32_u32 z : s32 (u32 z) = s32 z.
Proof. unfold s32, u32. by rewrite Z.add_mod_idemp_l by lia. Qed.

Lemma s32_congruent z : (s32 z) mod 2 ^ 32 = z mod 2 ^ 32.
Proof. width. Qed.

#[export] Hint Resolve u32_range u64_range s32_range s64_range : cxx_int.
#[export] Hint Rewrite u32_id u64_id s32_id s64_id using (first [assumption | width]) : cxx_int.
