(* ===== verification/CxxString.v ===== *)
(** The string functions of the C and C++ standard libraries that the sources
    call: character classes, searching, trimming, splitting and the
    [strtoll] family.  A [std::string] is a [string]. *)
From S2P Require Import Prelude CxxInt.
Open Scope Z_scope.

Create HintDb cxx_string.

(** * Character classes of the C locale *)

Definition code (c : ascii) : N := N_of_ascii c.

Definition between (lo hi : N) (c : ascii) : bool := (lo <=? code c)%N && (code c <=? hi)%N.

Definition isdigit (c : ascii) : bool := between 48 57 c.
Definition isupper (c : ascii) : bool := between 65 90 c.
Definition islower (c : ascii) : bool := between 97 122 c.
Definition isalpha (c : ascii) : bool := isupper c || islower c.
Definition isalnum (c : ascii) : bool := isalpha c || isdigit c.
(** space, tab, newline, vertical tab, form feed, carriage return *)
Definition isspace (c : ascii) : bool := between 9 13 c || (code c =? 32)%N.

Definition tolower (c : ascii) : ascii :=
  if isupper c then ascii_of_N (code c + 32) else c.

Definition digit_value (c : ascii) : Z := Z.of_N (code c) - 48.

Definition chr_newline : ascii := "010"%char.
Definition chr_quote : ascii := "034"%char.
Definition chr_nul : ascii := "000"%char.

(** * Whole strings *)

Fixpoint string_map (f : ascii → ascii) (s : string) : string :=
  match s with
  | EmptyString => EmptyString
  | String c r => String (f c) (string_map f r)
  end.

Fixpoint string_forallb (p : ascii → bool) (s : string) : bool :=
  match s with
  | EmptyString => true
  | String c r => p c && string_forallb p r
  end.

Definition str_size (s : string) : Z := Z.of_nat (String.length s).

Definition is_empty (s : string) : bool :=
  match s with EmptyString => true | String _ _ => false end.

Definition front (s : string) : option ascii := String.get 0 s.
Definition back (s : string) : option ascii := String.get (String.length s - 1) s.

(** [c_str] seen as a C string: the characters before the first NUL. *)
Fixpoint c_str (s : string) : string :=
  match s with
  | EmptyString => EmptyString
  | String c r => if (c =? chr_nul)%char then EmptyString else String c (c_str r)
  end.

(** [s.find(needle) != npos] *)
Fixpoint contains (needle s : string) : bool :=
  String.prefix needle s ||
  match s with
  | EmptyString => false
  | String _ r => contains needle r
  end.

Fixpoint drop_while (p : ascii → bool) (s : string) : string :=
  match s with
  | EmptyString => EmptyString
  | String c r => if p c then drop_while p r else s
  end.

Fixpoint drop_while_end (p : ascii → bool) (s : string) : string :=
  match s with
  | EmptyString => EmptyString
  | String c r =>
      match drop_while_end p r with
      | EmptyString => if p c then EmptyString else String c EmptyString
      | r' => String c r'
      end
  end.

(** The tokens [while (getline(ss, t, sep))] reads from a string stream: the
    text after the last separator is a token only when it is not empty. *)
Fixpoint getline_aux (sep : ascii) (acc s : string) (started : bool) : list string :=
  match s with
  | EmptyString => if started then [acc] else []
  | String c r =>
      if (c =? sep)%char then acc :: getline_aux sep EmptyString r false
      else getline_aux sep (acc ++ String c EmptyString)%string r true
  end.

Definition getline_split (sep : ascii) (s : string) : list string :=
  getline_aux sep EmptyString s false.

(** * The strtoll family *)

(** Result of a conversion: the value, the unread suffix, whether any digit
    was read ([end != start]) and whether [errno] is ERANGE. *)
Record strto_result := {
  st_value : Z;
  st_rest : string;
  st_converted : bool;
  st_erange : bool;
}.

Fixpoint take_digits (acc : Z) (seen : bool) (s : string) : Z * bool * string :=
  match s with
  | String c r =>
      if isdigit c then take_digits (10 * acc + digit_value c) true r else (acc, seen, s)
  | EmptyString => (acc, seen, s)
  end.

Definition take_sign (s : string) : bool * string :=
  match s with
  | String "+" r => (false, r)
  | String "-" r => (true, r)
  | _ => (false, s)
  end.

Definition strtoll (s : string) : strto_result :=
  let '(neg, s1) := take_sign (drop_while isspace s) in
  let '(v, seen, rest) := take_digits 0 false s1 in
  if seen then
    let v := if neg then - v else v in
    if v <? INT64_MIN then {| st_value := INT64_MIN; st_rest := rest; st_converted := true; st_erange := true |}
    else if INT64_MAX <? v then {| st_value := INT64_MAX; st_rest := rest; st_converted := true; st_erange := true |}
    else {| st_value := v; st_rest := rest; st_converted := true; st_erange := false |}
  else {| st_value := 0; st_rest := s; st_converted := false; st_erange := false |}.

(** [strtoull] negates the unsigned value of a text with a minus sign. *)
Definition strtoull (s : string) : strto_result :=
  let '(neg, s1) := take_sign (drop_while isspace s) in
  let '(v, seen, rest) := take_digits 0 false s1 in
  if seen then
    if SIZE_MAX <? v then {| st_value := SIZE_MAX; st_rest := rest; st_converted := true; st_erange := true |}
    else {| st_value := if neg then u64 (- v) else v; st_rest := rest; st_converted := true; st_erange := false |}
  else {| st_value := 0; st_rest := s; st_converted := false; st_erange := false |}.

(** [atoi] is [(int) strtol(s, nullptr, 10)]. *)
Definition atoi (s : string) : Z := s32 (st_value (strtoll s)).

(** * Facts *)

Lemma getline_aux_nil sep acc s : getline_aux sep acc s true ≠ [].
Proof.
  revert acc. induction s as [|c r IH]; intros acc; simpl; [done|].
  by destruct (c =? sep)%char.
Qed.

Lemma getline_split_nil sep s : getline_split sep s = [] ↔ s = EmptyString.
Proof.
  unfold getline_split. destruct s as [|c r]; simpl; [done|].
  destruct (c =? sep)%char; [done|].
  split; [intros H; by apply getline_aux_nil in H | done].
Qed.

Lemma strtoll_range s : is_int64 (st_value (strtoll s)).
Proof.
  unfold strtoll. destruct (take_sign _) as [neg s1].
  destruct (take_digits 0 false s1) as [[v seen] rest].
  destruct seen; [|simpl; width].
  repeat case_match; simpl; try width.
  all: repeat match goal with
       | H : (_ <? _) = false |- _ => apply Z.ltb_ge in H
       end; width.
Qed.

Lemma take_digits_nonneg acc seen s : 0 ≤ acc → 0 ≤ (take_digits acc seen s).1.1.
Proof.
  revert acc seen. induction s as [|c r IH]; intros acc seen Hacc; simpl; [done|].
  destruct (isdigit c) eqn:Hd; [|done]. apply IH.
  apply andb_true_iff in Hd as [?%N.leb_le ?%N.leb_le]. unfold digit_value. lia.
Qed.

Lemma strtoull_range s : is_size (st_value (strtoull s)).
Proof.
  unfold strtoull. destruct (take_sign _) as [neg s1].
  pose proof (take_digits_nonneg 0 false s1 ltac:(lia)) as Hv.
  destruct (take_digits 0 false s1) as [[v seen] rest]; simpl in Hv.
  destruct seen; [|simpl; width].
  destruct (SIZE_MAX <? v) eqn:Hlt; simpl; [width|].
  apply Z.ltb_ge in Hlt. destruct neg; [apply u64_range | width].
Qed.

Lemma string_app_length s t : String.length (s +:+ t) = (String.length s + String.length t)%nat.
Proof. induction s; simpl; auto. Qed.

Lemma string_map_length f s : String.length (string_map f s) = String.length s.
Proof. induction s; simpl; auto. Qed.

#[export] Hint Resolve strtoll_range strtoull_range : cxx_int.

(** What is left of a string is the string itself or shorter. *)
Lemma drop_while_end_shorter p s :
  drop_while_end p s = s ∨ (String.length (drop_while_end p s) < String.length s)%nat.
Proof.
  induction s as [|c r IH]; simpl; [by left|].
  destruct (drop_while_end p r) as [|d r'] eqn:E; simpl in *.
  - destruct (p c); simpl; [right; lia|]. destruct IH as [<-|]; [by left|right; lia].
  - destruct IH as [<-|]; [by left|right; lia].
Qed.

Lemma string_length_zero s : String.length s = 0%nat → s = EmptyString.
Proof. by destruct s. Qed.
