(* ===== verification/CxxFloat.v ===== *)
(** IEEE 754 [double] and [float] values and the conversions the sources use.

    A [double] is a [spec_float] of the Standard Library with 53 bits of
    precision; the operators are the correctly rounded ones, so the model of
    an arithmetic expression computes the value the processor computes. *)
From Stdlib Require Import SpecFloat.
From S2P Require Import Prelude CxxInt CxxString.
Open Scope Z_scope.

Abbreviation double := spec_float.

Definition dadd : double → double → double := SFadd 53 1024.
Definition dsub : double → double → double := SFsub 53 1024.
Definition dmul : double → double → double := SFmul 53 1024.
Definition ddiv : double → double → double := SFdiv 53 1024.
Definition dneg : double → double := SFopp.
Definition deqb : double → double → bool := SFeqb.
Definition dltb : double → double → bool := SFltb.
Definition dleb : double → double → bool := SFleb.

Definition dzero : double := S754_zero false.

(** [static_cast<double>(z)] *)
Definition double_of_Z (z : Z) : double := binary_normalize 53 1024 z 0 false.

Definition isfinite (d : double) : bool :=
  match d with
  | S754_zero _ | S754_finite _ _ _ => true
  | _ => false
  end.

(** Truncation toward zero of a finite value. *)
Definition dtrunc (d : double) : Z :=
  match d with
  | S754_finite s m e =>
      let q := if 0 <=? e then Z.pos m * 2 ^ e else Z.pos m / 2 ^ (- e) in
      if s then - q else q
  | _ => 0
  end.

(** The correctly rounded value of [num / den]. *)
Definition round_ratio (prec emax : Z) (s : bool) (num den : positive) : spec_float :=
  let '(mz, ez, lz) := SFdiv_core_binary prec emax (Z.pos num) 0 (Z.pos den) 0 in
  binary_round_aux prec emax s mz ez lz.

(** The correctly rounded value of [m * 10 ^ e]. *)
Definition round_decimal (prec emax : Z) (s : bool) (m : Z) (e : Z) : spec_float :=
  match m with
  | Zpos p =>
      if 0 <=? e then binary_round prec emax s (p * Z.to_pos (10 ^ e)) 0
      else round_ratio prec emax s p (Z.to_pos (10 ^ (- e)))
  | _ => S754_zero s
  end.

(** * Decimal text *)

(** The digits of a mantissa: value, number of digits read, rest. *)
Fixpoint scan_digits (acc n : Z) (s : string) : Z * Z * string :=
  match s with
  | String c r =>
      if isdigit c then scan_digits (10 * acc + digit_value c) (n + 1) r else (acc, n, s)
  | EmptyString => (acc, n, s)
  end.

(** The exponent part [e[+-]digits]; absent when no digit follows. *)
Definition scan_exponent (s : string) : Z * string :=
  match s with
  | String c r =>
      if ((c =? "e") || (c =? "E"))%char then
        let '(neg, r1) := take_sign r in
        let '(v, n, r2) := scan_digits 0 0 r1 in
        if n =? 0 then (0, s) else (if neg then - v else v, r2)
      else (0, s)
  | EmptyString => (0, s)
  end.

(** A non-zero text whose value overflows, or is zero or subnormal after
    rounding, sets [errno] to ERANGE. *)
Definition erange (prec : Z) (m : Z) (v : spec_float) : bool :=
  negb (m =? 0) &&
  match v with
  | S754_finite _ d _ => Z.pos d <? 2 ^ (prec - 1)
  | _ => true
  end.

Record strtod_result := { sd_value : spec_float; sd_rest : string; sd_erange : bool }.

(** [strtod]/[strtof] on decimal text: the value, the unread suffix and the
    error indicator, [None] when no conversion is performed. *)
Definition scan_decimal (prec emax : Z) (s : string) : option strtod_result :=
  let '(neg, s1) := take_sign (drop_while isspace s) in
  let '(ip, ni, s2) := scan_digits 0 0 s1 in
  let '(m, nf, s3) :=
    match s2 with
    | String "." r =>
        let '(fp, nf, r2) := scan_digits ip 0 r in
        if (ni + nf =? 0) then (ip, 0, s2) else (fp, nf, r2)
    | _ => (ip, 0, s2)
    end in
  if ni + nf =? 0 then None
  else
    let '(ex, s4) := scan_exponent s3 in
    let v := round_decimal prec emax neg m (ex - nf) in
    Some {| sd_value := v; sd_rest := s4; sd_erange := erange prec m v |}.

Definition strtod (s : string) : option strtod_result := scan_decimal 53 1024 s.
Definition strtof (s : string) : option strtod_result := scan_decimal 24 128 s.

(** * Formatted input

    [std::cin] as the unread characters; [None] when the stream fails. *)

(** [cin >> int32]: white space, an optional sign and decimal digits; a value
    outside the type sets the failure bit. *)
Definition cin_int32 (s : string) : option (Z * string) :=
  let '(neg, s1) := take_sign (drop_while isspace s) in
  let '(v, n, rest) := scan_digits 0 0 s1 in
  let v := if neg then - v else v in
  if n =? 0 then None
  else if (INT32_MIN <=? v) && (v <=? INT32_MAX) then Some (v, rest) else None.

(** The characters [num_get] accumulates for a floating-point value. *)
Definition float_prefix_ok (s : string) : bool :=
  match s with
  | String c _ => negb ((c =? "e") || (c =? "E"))%char
  | EmptyString => true
  end.

(** [cin >> double]: decimal text; an exponent letter without digits and an
    overflow set the failure bit. *)
Definition cin_double (s : string) : option (double * string) :=
  match strtod s with
  | Some r =>
      if float_prefix_ok (sd_rest r) && isfinite (sd_value r) then Some (sd_value r, sd_rest r) else None
  | None => None
  end.

(** * Facts *)

Lemma cin_int32_range s v rest : cin_int32 s = Some (v, rest) → is_int32 v.
Proof.
  unfold cin_int32. intros H. repeat case_match; simplify_eq.
  all: match goal with
       | H : (_ && _) = true |- _ => apply andb_true_iff in H as [?%Z.leb_le ?%Z.leb_le]
       end; done.
Qed.

Lemma digits2_pos_size m : digits2_pos m = Pos.size m.
Proof. induction m; simpl; congruence. Qed.

Lemma digits2_pos_bounds m :
  2 ^ (Z.pos (digits2_pos m) - 1) ≤ Z.pos m < 2 ^ Z.pos (digits2_pos m).
Proof.
  rewrite digits2_pos_size. pose proof (Pos.size_gt m) as Hgt. pose proof (Pos.size_le m) as Hle.
  split.
  - assert (2 * 2 ^ (Z.pos (Pos.size m) - 1) ≤ 2 * Z.pos m); [|lia].
    rewrite <- Z.pow_succ_r by lia. replace (Z.succ (Z.pos (Pos.size m) - 1)) with (Z.pos (Pos.size m)) by lia.
    rewrite <- Pos2Z.inj_pow. lia.
  - rewrite <- Pos2Z.inj_pow. lia.
Qed.

(** The mantissa of a finite [double] has 53 bits unless it is subnormal. *)
Lemma valid_double_mantissa s m e :
  valid_binary 53 1024 (S754_finite s m e) = true →
  Z.pos m < 2 ^ 53 ∧ (e ≠ -1074 → 2 ^ 52 ≤ Z.pos m).
Proof.
  simpl. unfold bounded, canonical_mantissa, fexp, emin.
  intros [Hc%Z.eqb_eq _]%andb_true_iff.
  pose proof (digits2_pos_bounds m) as [Hlo Hhi].
  set (n := Z.pos (digits2_pos m)) in *.
  split.
  - eapply Z.lt_le_trans; [exact Hhi|]. apply Z.pow_le_mono_r; lia.
  - intros He. eapply Z.le_trans; [|exact Hlo]. apply Z.pow_le_mono_r; lia.
Qed.

Example strtod_tenth :
  strtod "0.1 x" = Some {| sd_value := S754_finite false 7205759403792794 (-56); sd_rest := " x"%string; sd_erange := false |}.
Proof. vm_compute. reflexivity. Qed.

Example strtod_exponent :
  strtod "-12.5e1" = Some {| sd_value := double_of_Z (-125); sd_rest := EmptyString; sd_erange := false |}.
Proof. vm_compute. reflexivity. Qed.

Example strtod_underflow : sd_erange <$> strtod "1e-320" = Some true.
Proof. vm_compute. reflexivity. Qed.

(** * Formatted output

    [out << std::setprecision(p) << d]: the conversion [%.{p}g]. *)

(** The exponent of the first digit of [num / den], found by scaling. *)
Fixpoint digits_above (fuel : nat) (num den : Z) : Z :=
  match fuel with
  | O => 0
  | S fuel => if num <? 10 * den then 0 else 1 + digits_above fuel num (10 * den)
  end.

Fixpoint digits_below (fuel : nat) (num den : Z) : Z :=
  match fuel with
  | O => 0
  | S fuel => if den <=? num then 0 else 1 + digits_below fuel (10 * num) den
  end.

Definition decimal_exponent (num den : Z) : Z :=
  if den <=? num then digits_above 400 num den else - digits_below 400 num den.

(** [num / den] to the nearest integer, ties to even. *)
Definition round_half_even (num den : Z) : Z :=
  let q := num / den in
  let r := 2 * (num mod den) in
  if r <? den then q else if den <? r then q + 1 else if Z.even q then q else q + 1.

Fixpoint zeros (n : nat) : string := match n with O => EmptyString | S n => String "0" (zeros n) end.

Definition is_zero_char (c : ascii) : bool := (c =? "0")%char.

Definition point_fraction (fraction : string) : string :=
  let f := drop_while_end is_zero_char fraction in
  if is_empty f then EmptyString else String "." f.

Definition exponent_text (x : Z) : string :=
  let digits := pretty (Z.abs x) in
  String "e" (String (if x <? 0 then "-"%char else "+"%char)
    (if Z.abs x <? 10 then String "0" digits else digits)).

(** The digits [d] (a number of [p] digits) with the exponent [x]. *)
Definition layout_g (p x d : Z) : string :=
  let ds := pretty d in
  if (x <? -4) || (p <=? x) then
    String.substring 0 1 ds +:+ point_fraction (String.substring 1 (Z.to_nat (p - 1)) ds) +:+ exponent_text x
  else if 0 <=? x then
    String.substring 0 (Z.to_nat (x + 1)) ds +:+ point_fraction (String.substring (Z.to_nat (x + 1)) (Z.to_nat p) ds)
  else String "0" (point_fraction (zeros (Z.to_nat (- x - 1)) +:+ ds)).

Definition format_g (p : Z) (d : double) : string :=
  match d with
  | S754_nan => "nan"%string
  | S754_infinity s => if s then "-inf"%string else "inf"%string
  | S754_zero s => if s then "-0"%string else "0"%string
  | S754_finite s m e =>
      let num := if 0 <=? e then Z.pos m * 2 ^ e else Z.pos m in
      let den := if 0 <=? e then 1 else 2 ^ (- e) in
      let x := decimal_exponent num den in
      let k := p - 1 - x in
      let r := if 0 <=? k then round_half_even (num * 10 ^ k) den else round_half_even num (den * 10 ^ (- k)) in
      let text := if r =? 10 ^ p then layout_g p (x + 1) (10 ^ (p - 1)) else layout_g p x r in
      if s then String "-" text else text
  end.

Definition decimal (s : string) : double := match strtod s with Some r => sd_value r | None => dzero end.

Example format_g_examples :
  map (λ s, format_g 17 (decimal s)) ["0.95"; "1"; "-2.5"; "1e300"; "0.0001"; "0.00001"; "123456789012345678"; "100"; "0.1"]%string =
  ["0.94999999999999996"; "1"; "-2.5"; "1.0000000000000001e+300"; "0.0001"; "1.0000000000000001e-05";
   "1.2345678901234568e+17"; "100"; "0.10000000000000001"]%string.
Proof. vm_compute. reflexivity. Qed.
