(* ===== verification/CxxPath.v ===== *)
(** The lexical part of [std::filesystem::path] on POSIX that the sources use,
    the iteration order of [std::map], and splitting of strings.  A path is its
    text; the generic format is the native one. *)
From stdpp Require Import sorting.
From S2P Require Import Prelude CxxInt CxxString.
Open Scope string_scope.
Open Scope Z_scope.

(** * Splitting *)

(** The parts of [s] between the occurrences of [sep], empty ones included. *)
Fixpoint split_at (sep : ascii) (s : string) : list string :=
  match s with
  | EmptyString => [EmptyString]
  | String c r =>
      if (c =? sep)%char then EmptyString :: split_at sep r
      else match split_at sep r with
           | part :: parts => String c part :: parts
           | [] => [String c EmptyString]
           end
  end.

Fixpoint join_with (sep : string) (parts : list string) : string :=
  match parts with
  | [] => EmptyString
  | [part] => part
  | part :: rest => part +:+ sep +:+ join_with sep rest
  end.

(** The text before the first [c]. *)
Fixpoint before_char (c : ascii) (s : string) : string :=
  match s with
  | EmptyString => EmptyString
  | String d r => if (d =? c)%char then EmptyString else String d (before_char c r)
  end.

(** The text after the first [c], if there is one. *)
Fixpoint after_char (c : ascii) (s : string) : option string :=
  match s with
  | EmptyString => None
  | String d r => if (d =? c)%char then Some r else after_char c r
  end.

(** * Paths *)

Definition slash : ascii := "/"%char.

Definition is_absolute (p : string) : bool := bool_decide (front p = Some slash).

(** The elements of a path as its iterators give them: the root directory, the
    names, and an empty element after a trailing separator. *)
Definition path_elements (p : string) : list string :=
  let names := filter (λ n, n ≠ EmptyString) (split_at slash p) in
  ((if is_absolute p then ["/"] else []) ++ names ++
   (if bool_decide (back p = Some slash) && negb (bool_decide (names = [])) then [EmptyString] else []))%list.

(** [lhs / rhs] *)
Definition path_join (lhs rhs : string) : string :=
  if is_absolute rhs then rhs
  else if is_empty lhs || bool_decide (back lhs = Some slash) then lhs +:+ rhs
  else lhs +:+ String slash rhs.

Definition filename (p : string) : string := default EmptyString (last (split_at slash p)).

(** The text from the last dot of a name, unless the name starts there. *)
Definition name_extension (n : string) : string :=
  if String.eqb n "." || String.eqb n ".." then EmptyString
  else match rev (split_at "." n) with
       | suffix :: _ :: rest => if bool_decide (rest = []) && String.eqb (before_char "." n) "" then EmptyString
                                else String "." suffix
       | _ => EmptyString
       end.

(** One name of the normal form; [acc] holds the names so far, last first. *)
Definition normal_step (absolute : bool) (acc : list string) (n : string) : list string :=
  if String.eqb n "" || String.eqb n "." then acc
  else if String.eqb n ".." then
    match acc with
    | top :: rest => if String.eqb top ".." then n :: acc else rest
    | [] => if absolute then [] else [n]
    end
  else n :: acc.

Definition lexically_normal (p : string) : string :=
  if is_empty p then EmptyString
  else
    let names := foldl (normal_step (is_absolute p)) [] (split_at slash p) in
    let body := join_with "/" (rev names) in
    let trailing :=
      match names with
      | top :: _ => existsb (String.eqb (filename p)) [""; "."; ".."] && negb (String.eqb top "..")
      | [] => false
      end in
    let body := if trailing then body +:+ "/" else body in
    if is_absolute p then String slash body else if is_empty body then "." else body.

(** The text up to the last separator, without trailing separators. *)
Definition strip_filename (p : string) : string :=
  drop_while_end (λ c, (c =? slash)%char) (drop_while_end (λ c, negb (c =? slash)%char) p).

Definition parent_path (p : string) : string :=
  let parent := strip_filename p in
  if is_empty parent && is_absolute p then "/" else parent.

(** * Maps in the order of their keys *)

Definition key_le {A} (x y : string * A) : Prop := String.leb x.1 y.1 = true.
#[export] Instance key_le_dec {A} : RelDecision (@key_le A).
Proof. intros x y. unfold key_le. apply _. Defined.

(** The entries of a [std::map] as its iterators give them. *)
Definition items {A} (m : gmap string A) : list (string * A) := merge_sort key_le (map_to_list m).

Definition string_le (x y : string) : Prop := String.leb x y = true.
#[export] Instance string_le_dec : RelDecision string_le.
Proof. intros x y. unfold string_le. apply _. Defined.

(** [std::sort] on strings. *)
Definition sort_strings (l : list string) : list string := merge_sort string_le l.

(** * Facts *)

Lemma items_elem {A} (m : gmap string A) k v : (k, v) ∈ items m ↔ m !! k = Some v.
Proof. unfold items. rewrite merge_sort_Permutation. apply elem_of_map_to_list. Qed.

Lemma sort_strings_elem l x : x ∈ sort_strings l ↔ x ∈ l.
Proof. unfold sort_strings. by rewrite merge_sort_Permutation. Qed.

Lemma strip_filename_shorter p :
  strip_filename p = p ∨ (String.length (strip_filename p) < String.length p)%nat.
Proof.
  unfold strip_filename.
  destruct (drop_while_end_shorter (λ c, negb (c =? slash)%char) p) as [->|H];
    [apply drop_while_end_shorter|].
  destruct (drop_while_end_shorter (λ c, (c =? slash)%char) (drop_while_end (λ c, negb (c =? slash)%char) p)) as [->|];
    right; lia.
Qed.

Lemma parent_path_shorter p : parent_path p = p ∨ (String.length (parent_path p) < String.length p)%nat.
Proof.
  unfold parent_path. destruct (is_empty (strip_filename p) && is_absolute p) eqn:E; [|apply strip_filename_shorter].
  apply andb_true_iff in E as [_ E%bool_decide_eq_true]. destruct p as [|c [|d r]]; simpl in *; [done|left; by injection E as ->|right; lia].
Qed.

Example normal_forms :
  map lexically_normal ["a/./b"; "a//b/"; "./"; "a/.."; "a/b/.."; "/.."; "../x"; "vendor/lib/."] =
    ["a/b"; "a/b/"; "."; "."; "a/"; "/"; "../x"; "vendor/lib/"] ∧
  map parent_path ["/a/b"; "/a"; "/"; "a"; "a/b/"] = ["/a"; "/"; "/"; ""; "a/b"] ∧
  map name_extension ["m.short"; ".short"; "a.b.c"; "a"; ".."; ".a.b"; "a."] = [".short"; ""; ".c"; ""; ""; ".b"; "."].
Proof. split_and!; vm_compute; reflexivity. Qed.
