(* ===== verification/Sha256.v ===== *)
(** Component: the SHA-256 digest of module sources (module/Sha256.cpp).

    [Sha256Context] is the streaming implementation: a block of 64 bytes that
    fills up, the eight words of state and the number of bytes seen.  Bytes and
    words are [Z] at their width.  The reference is the digest of the whole
    message, padded at once and cut into blocks; the streaming context computes
    it however the input is split. *)
From S2P Require Import Prelude CxxInt CxxString.
Open Scope Z_scope.

(** * The implementation *)

Definition kRoundConstants : list Z :=
  [1116352408; 1899447441; 3049323471; 3921009573; 961987163; 1508970993; 2453635748; 2870763221;
   3624381080; 310598401; 607225278; 1426881987; 1925078388; 2162078206; 2614888103; 3248222580;
   3835390401; 4022224774; 264347078; 604807628; 770255983; 1249150122; 1555081692; 1996064986;
   2554220882; 2821834349; 2952996808; 3210313671; 3336571891; 3584528711; 113926993; 338241895;
   666307205; 773529912; 1294757372; 1396182291; 1695183700; 1986661051; 2177026350; 2456956037;
   2730485921; 2820302411; 3259730800; 3345764771; 3516065817; 3600352804; 4094571909; 275423344;
   430227734; 506948616; 659060556; 883997877; 958139571; 1322822218; 1537002063; 1747873779;
   1955562222; 2024104815; 2227730452; 2361852424; 2428436474; 2756734187; 3204031479; 3329325298].

Definition initial_state : list Z :=
  [1779033703; 3144134277; 1013904242; 2773480762;
   1359893119; 2600822924; 528734635; 1541459225].

Definition rotateRight (value count : Z) : Z :=
  Z.lor (Z.shiftr value count) (u32 (Z.shiftl value (32 - count))).

Record Sha256Context := {
  state_ : list Z; block_ : list Z; block_size_ : nat; total_bytes_ : Z;
}.

Definition new_context : Sha256Context :=
  {| state_ := initial_state; block_ := replicate 64 0; block_size_ := 0; total_bytes_ := 0 |}.

(** ** The compression of one block *)

Definition at_ (l : list Z) (i : nat) : Z := default 0 (l !! i).

(** Four bytes, the most significant first. *)
Definition word_at (block : list Z) (i : nat) : Z :=
  let index := (i * 4)%nat in
  Z.lor (Z.lor (Z.lor (Z.shiftl (at_ block index) 24) (Z.shiftl (at_ block (index + 1)) 16))
           (Z.shiftl (at_ block (index + 2)) 8)) (at_ block (index + 3)).

Definition next_word (words : list Z) : Z :=
  let i := length words in
  let w15 := at_ words (i - 15) in
  let w2 := at_ words (i - 2) in
  let s0 := Z.lxor (Z.lxor (rotateRight w15 7) (rotateRight w15 18)) (Z.shiftr w15 3) in
  let s1 := Z.lxor (Z.lxor (rotateRight w2 17) (rotateRight w2 19)) (Z.shiftr w2 10) in
  u32 (u32 (u32 (at_ words (i - 16) + s0) + at_ words (i - 7)) + s1).

Fixpoint extend_words (n : nat) (words : list Z) : list Z :=
  match n with
  | O => words
  | S n => extend_words n (words ++ [next_word words])
  end.

Definition words_of (block : list Z) : list Z := extend_words 48 (map (word_at block) (seq 0 16)).

(** The eight variables of a round, and the round itself. *)
Record registers := { ra : Z; rb : Z; rc : Z; rd : Z; re : Z; rf : Z; rg : Z; rh : Z }.

Definition round (r : registers) (kw : Z * Z) : registers :=
  let sum1 := Z.lxor (Z.lxor (rotateRight (re r) 6) (rotateRight (re r) 11)) (rotateRight (re r) 25) in
  let choose := Z.lxor (Z.land (re r) (rf r)) (Z.land (u32 (Z.lnot (re r))) (rg r)) in
  let temp1 := u32 (u32 (u32 (u32 (rh r + sum1) + choose) + kw.1) + kw.2) in
  let sum0 := Z.lxor (Z.lxor (rotateRight (ra r) 2) (rotateRight (ra r) 13)) (rotateRight (ra r) 22) in
  let majority := Z.lxor (Z.lxor (Z.land (ra r) (rb r)) (Z.land (ra r) (rc r))) (Z.land (rb r) (rc r)) in
  let temp2 := u32 (sum0 + majority) in
  {| ra := u32 (temp1 + temp2); rb := ra r; rc := rb r; rd := rc r;
     re := u32 (rd r + temp1); rf := re r; rg := rf r; rh := rg r |}.

Definition load (s : list Z) : registers :=
  {| ra := at_ s 0; rb := at_ s 1; rc := at_ s 2; rd := at_ s 3;
     re := at_ s 4; rf := at_ s 5; rg := at_ s 6; rh := at_ s 7 |}.

Definition transform (state block : list Z) : list Z :=
  let r := foldl round (load state) (zip kRoundConstants (words_of block)) in
  [u32 (at_ state 0 + ra r); u32 (at_ state 1 + rb r); u32 (at_ state 2 + rc r); u32 (at_ state 3 + rd r);
   u32 (at_ state 4 + re r); u32 (at_ state 5 + rf r); u32 (at_ state 6 + rg r); u32 (at_ state 7 + rh r)].

(** ** Input *)

Definition UINT64_MAX : Z := 2 ^ 64 - 1.

(** Bytes copied into the block at [block_size_]. *)
Definition copy_in (block : list Z) (position : nat) (bytes : list Z) : list Z :=
  (take position block ++ bytes ++ drop (position + length bytes) block)%list.

(** One pass of the [while] of [update]: as many bytes as the block takes. *)
Definition update_step (bytes : list Z) (c : Sha256Context) : list Z * Sha256Context :=
  let available := (64 - block_size_ c)%nat in
  let count := if (length bytes <? available)%nat then length bytes else available in
  let block := copy_in (block_ c) (block_size_ c) (take count bytes) in
  let size := (block_size_ c + count)%nat in
  (drop count bytes,
   if (size =? 64)%nat then
     {| state_ := transform (state_ c) block; block_ := block; block_size_ := 0; total_bytes_ := total_bytes_ c |}
   else {| state_ := state_ c; block_ := block; block_size_ := size; total_bytes_ := total_bytes_ c |}).

(** The [while (length != 0)]; [None] when the bound on the passes is too small. *)
Fixpoint update_loop (fuel : nat) (bytes : list Z) (c : Sha256Context) : option Sha256Context :=
  match bytes with
  | [] => Some c
  | _ :: _ =>
      match fuel with
      | O => None
      | S fuel => let '(rest, c') := update_step bytes c in update_loop fuel rest c'
      end
  end.

(** [None] is the return value [false]. *)
Definition update (bytes : list Z) (c : Sha256Context) : option Sha256Context :=
  if UINT64_MAX - total_bytes_ c <? Z.of_nat (length bytes) then None
  else
    update_loop (length bytes) bytes
      {| state_ := state_ c; block_ := block_ c; block_size_ := block_size_ c;
         total_bytes_ := u64 (total_bytes_ c + Z.of_nat (length bytes)) |}.

(** ** Output *)

(** The eight bytes of the bit count, the most significant first. *)
Definition count_bytes (bit_count : Z) : list Z :=
  map (λ i, Z.land (Z.shiftr bit_count (56 - Z.of_nat i * 8)) 255) (seq 0 8).

(** [while (block_size_ < n) block_[block_size_++] = 0U;] *)
Definition zero_to (n : nat) (block : list Z) (size : nat) : list Z :=
  copy_in block size (replicate (n - size) 0).

Definition hex_digit (d : Z) : ascii := default "0"%char (String.get (Z.to_nat d) "0123456789abcdef").

(** [std::hex] with [setw(8)] and fill ['0'] for a 32-bit value. *)
Definition hex_word (w : Z) : string :=
  fold_right (λ i s, String (hex_digit (Z.land (Z.shiftr w (28 - Z.of_nat i * 4)) 15)) s) EmptyString (seq 0 8).

Definition hex_state (s : list Z) : string := fold_right (λ w t, (hex_word w +:+ t)) EmptyString s.

(** The block and the state once the message has been closed. *)
Definition close_block (c : Sha256Context) (bit_count : Z) : list Z :=
  let block := copy_in (block_ c) (block_size_ c) [128] in
  let size := S (block_size_ c) in
  let '(state, block, size) :=
    if (56 <? size)%nat then (transform (state_ c) (zero_to 64 block size), zero_to 64 block size, O)
    else (state_ c, block, size) in
  transform state (copy_in (zero_to 56 block size) 56 (count_bytes bit_count)).

(** [None] is the return value [false]. *)
Definition finish (c : Sha256Context) : option string :=
  if UINT64_MAX / 8 <? total_bytes_ c then None
  else Some (hex_state (close_block c (u64 (total_bytes_ c * 8)))).

Definition sha256 (bytes : list Z) : string :=
  match update bytes new_context with
  | Some c => match finish c with Some digest => digest | None => EmptyString end
  | None => EmptyString
  end.

(** A file: whether it opens, what the successive reads of the buffer return,
    and whether the stream is bad at the end. *)
Fixpoint update_all (reads : list (list Z)) (c : Sha256Context) : option Sha256Context :=
  match reads with
  | [] => Some c
  | bytes :: rest =>
      if (0 <? length bytes)%nat then
        match update bytes c with Some c' => update_all rest c' | None => None end
      else update_all rest c
  end.

Definition sha256File (opened : bool) (reads : list (list Z)) (bad : bool) : option string :=
  if opened then
    match update_all reads new_context with
    | Some c => if bad then None else finish c
    | None => None
    end
  else None.

(** * The reference *)

(** The message followed by the byte 128, zeros up to 56 modulo 64, and the
    number of bits in eight bytes. *)
Definition padding_zeros (n : nat) : nat := ((119 - n mod 64) mod 64)%nat.

Definition pad (message : list Z) : list Z :=
  (message ++ [128] ++ replicate (padding_zeros (length message)) 0 ++
   count_bytes (Z.of_nat (length message) * 8))%list.

(** The state after the first [n] blocks of a message, and what is left of it. *)
Fixpoint absorb (n : nat) (state message : list Z) : list Z * list Z :=
  match n with
  | O => (state, message)
  | S n => absorb n (transform state (take 64 message)) (drop 64 message)
  end.

Definition digest (message : list Z) : string :=
  hex_state (absorb (length (pad message) / 64) initial_state (pad message)).1.

(** * The streaming context computes the reference *)

(** The context holds the state after the full blocks of the message and its
    last, incomplete block. *)
Definition holds (c : Sha256Context) (message : list Z) : Prop :=
  length (block_ c) = 64%nat ∧
  block_size_ c = (length message mod 64)%nat ∧
  total_bytes_ c = Z.of_nat (length message) ∧
  absorb (length message / 64) initial_state message = (state_ c, take (block_size_ c) (block_ c)).

Lemma absorb_add n m state message :
  absorb (n + m) state message = absorb m (absorb n state message).1 (absorb n state message).2.
Proof. revert state message. induction n as [|n IH]; intros; simpl; [done|apply IH]. Qed.

Lemma absorb_app n state a b :
  (64 * n ≤ length a)%nat →
  absorb n state (a ++ b) = ((absorb n state a).1, (absorb n state a).2 ++ b)%list.
Proof.
  revert state a. induction n as [|n IH]; intros state a Hn; simpl; [done|].
  rewrite take_app_le, drop_app_le by lia. apply IH. rewrite length_drop. lia.
Qed.

Lemma absorb_rest n state message : length (absorb n state message).2 = (length message - 64 * n)%nat.
Proof.
  revert state message. induction n as [|n IH]; intros; simpl; [lia|]. rewrite IH, length_drop. lia.
Qed.

Lemma length_copy_in block position bytes :
  (position + length bytes ≤ length block)%nat → length (copy_in block position bytes) = length block.
Proof. intros Hl. unfold copy_in. rewrite !length_app, length_take, length_drop. lia. Qed.

Lemma take_copy_in block position bytes :
  (position ≤ length block)%nat →
  take (position + length bytes) (copy_in block position bytes) = (take position block ++ bytes)%list.
Proof.
  intros Hl. unfold copy_in. rewrite app_assoc.
  rewrite take_app_length'; [done|]. rewrite length_app, length_take. lia.
Qed.

(** A part of the input that stays inside the block. *)
Lemma holds_partial c message bytes :
  holds c message → (block_size_ c + length bytes < 64)%nat →
  holds {| state_ := state_ c; block_ := copy_in (block_ c) (block_size_ c) bytes;
           block_size_ := block_size_ c + length bytes;
           total_bytes_ := total_bytes_ c + Z.of_nat (length bytes) |} (message ++ bytes).
Proof.
  intros (Hb & Hs & Ht & Ha) Hlt. unfold holds. cbn [state_ block_ block_size_ total_bytes_]. rewrite length_app.
  assert ((length message + length bytes) `div` 64 = length message `div` 64 ∧
          (length message + length bytes) `mod` 64 = length message `mod` 64 + length bytes)%nat as [-> ->].
  { rewrite Hs in Hlt. pose proof (Nat.div_mod_eq (length message) 64).
    assert (length message + length bytes = 64 * (length message / 64) + (length message mod 64 + length bytes))%nat
      as E by lia.
    split; [symmetry; by apply (Nat.div_unique _ _ _ _ Hlt E)|symmetry; by apply (Nat.mod_unique _ _ _ _ Hlt E)]. }
  split_and!; [rewrite length_copy_in; lia|lia|lia|].
  rewrite absorb_app by (pose proof (Nat.div_mod_eq (length message) 64); lia). rewrite Ha. simpl.
  by rewrite take_copy_in by lia.
Qed.

(** A part that fills the block. *)
Lemma holds_full c message bytes :
  holds c message → (block_size_ c + length bytes = 64)%nat →
  holds {| state_ := transform (state_ c) (copy_in (block_ c) (block_size_ c) bytes);
           block_ := copy_in (block_ c) (block_size_ c) bytes; block_size_ := 0;
           total_bytes_ := total_bytes_ c + Z.of_nat (length bytes) |} (message ++ bytes).
Proof.
  intros (Hb & Hs & Ht & Ha) Hlt. unfold holds. cbn [state_ block_ block_size_ total_bytes_]. rewrite length_app.
  pose proof (Nat.div_mod_eq (length message) 64).
  assert ((length message + length bytes) = (length message `div` 64 + 1) * 64)%nat as E by lia.
  rewrite E, Nat.div_mul, Nat.Div0.mod_mul by lia.
  split_and!; [rewrite length_copy_in; lia|done|lia|].
  rewrite absorb_add, absorb_app by lia. rewrite Ha. simpl.
  rewrite <- (take_copy_in _ _ bytes) by lia. rewrite Hlt.
  rewrite !take_ge, drop_ge by (rewrite ?length_take, ?length_copy_in; lia). done.
Qed.

Lemma update_loop_holds bytes : ∀ fuel c message,
  (length bytes ≤ fuel)%nat → holds c message →
  ∃ c', update_loop fuel bytes {| state_ := state_ c; block_ := block_ c; block_size_ := block_size_ c;
                                  total_bytes_ := total_bytes_ c + Z.of_nat (length bytes) |} = Some c' ∧
        holds c' (message ++ bytes).
Proof.
  induction bytes as [bytes IH] using (induction_ltof1 _ length). intros fuel c message Hf Hc.
  destruct bytes as [|b0 bs] eqn:Hbytes.
  { exists c. rewrite app_nil_r. split; [|done]. simpl. rewrite Z.add_0_r. by destruct fuel, c. }
  rewrite <- Hbytes in *. assert (0 < length bytes)%nat as Hpos by (rewrite Hbytes; simpl; lia).
  destruct fuel as [|fuel]; [lia|]. destruct Hc as (Hb & Hs & Ht & Ha).
  assert (block_size_ c < 64)%nat as Hlt by (rewrite Hs; by apply Nat.mod_upper_bound).
  set (count := if (length bytes <? 64 - block_size_ c)%nat then length bytes else (64 - block_size_ c)%nat).
  assert (count ≤ length bytes ∧ 0 < count ∧ block_size_ c + count ≤ 64)%nat as (Hc1 & Hc2 & Hc3).
  { unfold count. destruct (Nat.ltb_spec (length bytes) (64 - block_size_ c)); lia. }
  assert (length (take count bytes) = count) as Hlc by (rewrite length_take; lia).
  replace (update_loop (S fuel) bytes _) with
    (let '(rest, c') := update_step bytes
       {| state_ := state_ c; block_ := block_ c; block_size_ := block_size_ c;
          total_bytes_ := total_bytes_ c + Z.of_nat (length bytes) |} in update_loop fuel rest c')
    by (rewrite Hbytes; reflexivity).
  unfold update_step. simpl. fold count.
  assert (total_bytes_ c + Z.of_nat (length bytes) =
          total_bytes_ c + Z.of_nat (length (take count bytes)) + Z.of_nat (length (drop count bytes))) as ->
    by (rewrite Hlc, length_drop; lia).
  assert (message ++ bytes = (message ++ take count bytes) ++ drop count bytes)%list as ->
    by (by rewrite <- app_assoc, take_drop).
  destruct (Nat.eqb_spec (block_size_ c + count) 64) as [He|He].
  - apply (IH (drop count bytes)) with (c := {| state_ := _; block_ := _; block_size_ := 0; total_bytes_ := _ |});
      [unfold ltof; rewrite length_drop; lia|rewrite length_drop; lia|].
    apply holds_full; [done|lia].
  - apply (IH (drop count bytes)) with (c := {| state_ := _; block_ := _; block_size_ := _; total_bytes_ := _ |});
      [unfold ltof; rewrite length_drop; lia|rewrite length_drop; lia|].
    rewrite <- Hlc at 3. apply holds_partial; [done|lia].
Qed.

Lemma update_holds c message bytes :
  holds c message → Z.of_nat (length message + length bytes) ≤ UINT64_MAX →
  ∃ c', update bytes c = Some c' ∧ holds c' (message ++ bytes).
Proof.
  intros Hc Hl. pose proof Hc as (_ & _ & Ht & _). unfold update. rewrite Ht.
  destruct (Z.ltb_spec (UINT64_MAX - Z.of_nat (length message)) (Z.of_nat (length bytes))); [lia|].
  rewrite u64_id by (unfold UINT64_MAX in *; unfold_ranges; lia). rewrite <- Ht.
  by apply update_loop_holds.
Qed.

Lemma holds_new : holds new_context [].
Proof. done. Qed.

(** ** Closing the message *)

Lemma take_zero_to n block size :
  (size ≤ n)%nat → (n ≤ length block)%nat →
  take n (zero_to n block size) = (take size block ++ replicate (n - size) 0)%list.
Proof.
  intros Hs Hn. unfold zero_to. rewrite <- take_copy_in by lia. f_equal. rewrite length_replicate. lia.
Qed.

Lemma length_zero_to n block size :
  (size ≤ n)%nat → (n ≤ length block)%nat → length (zero_to n block size) = length block.
Proof. intros Hs Hn. apply length_copy_in. rewrite length_replicate. lia. Qed.

Lemma length_count_bytes z : length (count_bytes z) = 8%nat.
Proof. done. Qed.

(** The last block, built in place, is the text before it, zeros and the count. *)
Lemma last_block block size z :
  length block = 64%nat → (size ≤ 56)%nat →
  copy_in (zero_to 56 block size) 56 (count_bytes z) =
  (take size block ++ replicate (56 - size) 0 ++ count_bytes z)%list.
Proof.
  intros Hb Hs. rewrite app_assoc, <- (take_zero_to 56) by lia.
  rewrite <- (take_copy_in _ 56 (count_bytes z)) by (rewrite length_zero_to; lia).
  rewrite take_ge; [done|]. rewrite length_copy_in, length_zero_to; rewrite ?length_zero_to, ?length_count_bytes; lia.
Qed.

Lemma length_pad_tail n z : length ([128] ++ replicate n 0 ++ count_bytes z)%list = (n + 9)%nat.
Proof. rewrite !length_app, length_replicate, length_count_bytes. simpl. lia. Qed.

Section Close.
Context (c : Sha256Context) (message : list Z).
Hypothesis held : holds c message.

Lemma closing_byte :
  length (copy_in (block_ c) (block_size_ c) [128]) = 64%nat ∧ (block_size_ c < 64)%nat ∧
  length message = (64 * (length message / 64) + block_size_ c)%nat ∧
  take (S (block_size_ c)) (copy_in (block_ c) (block_size_ c) [128]) =
    (take (block_size_ c) (block_ c) ++ [128])%list.
Proof using held.
  destruct held as (Hb & Hs & _). pose proof (Nat.mod_upper_bound (length message) 64 ltac:(lia)) as Hr.
  rewrite <- Hs in Hr. split_and!; [rewrite length_copy_in; simpl; lia|done| |].
  - rewrite Hs at 1. apply Nat.div_mod_eq.
  - rewrite <- take_copy_in by lia. f_equal. simpl. lia.
Qed.

(** The state after the full blocks, and after [k] blocks of padding. *)
Lemma absorb_padding k tail :
  absorb (length message / 64 + k) initial_state (message ++ tail) =
  absorb k (state_ c) (take (block_size_ c) (block_ c) ++ tail).
Proof using held.
  destruct held as (_ & _ & _ & Ha). rewrite absorb_add, absorb_app, Ha by (destruct closing_byte; lia). done.
Qed.

Lemma close_in_two z :
  (56 < S (block_size_ c))%nat →
  close_block c z =
  (absorb 2 (state_ c)
     (take (block_size_ c) (block_ c) ++ [128] ++ replicate (119 - block_size_ c) 0 ++ count_bytes z)).1.
Proof using held.
  intros H56. destruct closing_byte as (Hlb & Hr & _ & Hp). destruct held as (Hb & _). unfold close_block.
  destruct (Nat.ltb_spec 56 (S (block_size_ c))); [|lia]. rewrite last_block by (rewrite ?length_zero_to; lia).
  set (first := (take (block_size_ c) (block_ c) ++ [128] ++ replicate (63 - block_size_ c) 0)%list).
  assert (zero_to 64 (copy_in (block_ c) (block_size_ c) [128]) (S (block_size_ c)) = first) as ->.
  { unfold first. rewrite app_assoc, <- Hp, <- (take_zero_to 64) by lia.
    rewrite take_ge; [done|]. rewrite length_zero_to; lia. }
  assert (length first = 64%nat) as Hfirst
    by (unfold first; rewrite !length_app, length_take, length_replicate; simpl; lia).
  assert (take (block_size_ c) (block_ c) ++ [128] ++ replicate (119 - block_size_ c) 0 ++ count_bytes z =
          first ++ replicate 56 0 ++ count_bytes z)%list as ->.
  { unfold first. replace (119 - block_size_ c)%nat with (63 - block_size_ c + 56)%nat by lia.
    rewrite replicate_add, <- !app_assoc. done. }
  cbn [absorb fst snd]. rewrite take_app_length', drop_app_length' by done.
  rewrite (take_ge (replicate 56 0 ++ count_bytes z)); [done|].
  rewrite length_app, length_replicate, length_count_bytes. lia.
Qed.

Lemma close_in_one z :
  (S (block_size_ c) ≤ 56)%nat →
  close_block c z =
  (absorb 1 (state_ c)
     (take (block_size_ c) (block_ c) ++ [128] ++ replicate (55 - block_size_ c) 0 ++ count_bytes z)).1.
Proof using held.
  intros H56. destruct closing_byte as (Hlb & Hr & _ & Hp). destruct held as (Hb & _). unfold close_block.
  destruct (Nat.ltb_spec 56 (S (block_size_ c))); [lia|]. cbn [absorb fst snd].
  rewrite last_block by lia. rewrite Hp, <- app_assoc.
  replace (56 - S (block_size_ c))%nat with (55 - block_size_ c)%nat by lia.
  rewrite (take_ge (take _ _ ++ _)); [done|]. rewrite length_app, length_take, length_pad_tail. lia.
Qed.

Lemma close_block_digest :
  close_block c (Z.of_nat (length message) * 8) =
  (absorb (length (pad message) / 64) initial_state (pad message)).1.
Proof using held.
  destruct closing_byte as (_ & Hr & Hdm & _). pose proof held as (_ & Hs & _).
  unfold pad. rewrite length_app, length_pad_tail. unfold padding_zeros. rewrite <- Hs.
  destruct (Nat.ltb_spec 56 (S (block_size_ c))) as [H56|H56].
  - rewrite close_in_two, <- absorb_padding, (Nat.mod_small (119 - block_size_ c)) by lia.
    do 2 f_equal. apply (Nat.div_unique _ _ _ 0); lia.
  - replace ((119 - block_size_ c) mod 64)%nat with (55 - block_size_ c)%nat by (apply (Nat.mod_unique _ _ 1); lia).
    rewrite close_in_one, <- absorb_padding by lia. do 2 f_equal. apply (Nat.div_unique _ _ _ 0); lia.
Qed.
End Close.

Lemma finish_holds c message :
  holds c message → Z.of_nat (length message) ≤ UINT64_MAX / 8 → finish c = Some (digest message).
Proof.
  intros Hc Hl. pose proof Hc as (_ & _ & Ht & _). unfold finish, digest. rewrite Ht.
  destruct (Z.ltb_spec (UINT64_MAX / 8) (Z.of_nat (length message))); [lia|].
  rewrite u64_id by (unfold UINT64_MAX in *; width). by rewrite close_block_digest.
Qed.

Lemma update_too_long c message bytes :
  holds c message → UINT64_MAX < Z.of_nat (length message + length bytes) → update bytes c = None.
Proof.
  intros (_ & _ & Ht & _) Hl. unfold update. rewrite Ht.
  destruct (Z.ltb_spec (UINT64_MAX - Z.of_nat (length message)) (Z.of_nat (length bytes))); [done|lia].
Qed.

Lemma finish_too_long c message :
  holds c message → UINT64_MAX / 8 < Z.of_nat (length message) → finish c = None.
Proof.
  intros (_ & _ & Ht & _) Hl. unfold finish. rewrite Ht.
  by destruct (Z.ltb_spec (UINT64_MAX / 8) (Z.of_nat (length message))); [|lia].
Qed.

Lemma update_all_holds reads : ∀ c message,
  holds c message → Z.of_nat (length message) ≤ UINT64_MAX →
  if Z.of_nat (length message + length (concat reads)) <=? UINT64_MAX
  then ∃ c', update_all reads c = Some c' ∧ holds c' (message ++ concat reads)
  else update_all reads c = None.
Proof.
  induction reads as [|bytes reads IH]; intros c message Hc Hl; simpl.
  { rewrite app_nil_r, Nat.add_0_r. destruct (Z.leb_spec (Z.of_nat (length message)) UINT64_MAX); [eauto|lia]. }
  destruct (Nat.ltb_spec 0 (length bytes)) as [Hpos|Hz].
  2:{ destruct bytes; [|simpl in Hz; lia]. by apply IH. }
  destruct (Z.le_gt_cases (Z.of_nat (length message + length bytes)) UINT64_MAX) as [Hle|Hgt].
  - destruct (update_holds c message bytes Hc Hle) as (c' & -> & Hc'). specialize (IH c' _ Hc').
    rewrite length_app, <- app_assoc, <- Nat.add_assoc in IH. rewrite length_app. by apply IH.
  - rewrite (update_too_long c message bytes Hc Hgt), length_app.
    destruct (Z.leb_spec (Z.of_nat (length message + (length bytes + length (concat reads)))) UINT64_MAX); [lia|done].
Qed.

Lemma sha256_short bytes : Z.of_nat (length bytes) ≤ UINT64_MAX / 8 → sha256 bytes = digest bytes.
Proof.
  intros Hle. unfold sha256. destruct (update_holds new_context [] bytes holds_new) as (c & -> & Hc);
    [simpl; unfold UINT64_MAX in *; width|]. by rewrite (finish_holds c bytes Hc Hle).
Qed.

Lemma length_absorb n state message : length state = 8%nat → length (absorb n state message).1 = 8%nat.
Proof. revert state message. induction n as [|n IH]; intros state message Hs; simpl; [done|]. by apply IH. Qed.

(** * Properties *)

(** C28.  The digest of a byte string is the SHA-256 digest of the padded message
    for every input whose bit count fits in 64 bits, and the empty string for a
    longer one: filling the block piece by piece and padding in place give what
    padding the whole message first gives. *)
Theorem sha256_is_reference bytes :
  sha256 bytes = if Z.of_nat (length bytes) <=? UINT64_MAX / 8 then digest bytes else EmptyString.
Proof.
  destruct (Z.leb_spec (Z.of_nat (length bytes)) (UINT64_MAX / 8)) as [Hle|Hgt].
  - by apply sha256_short.
  - unfold sha256. destruct (Z.le_gt_cases (Z.of_nat (length bytes)) UINT64_MAX) as [Hl|Hl].
    + destruct (update_holds new_context [] bytes holds_new Hl) as (c & -> & Hc).
      by rewrite (finish_too_long c bytes Hc Hgt).
    + by rewrite (update_too_long new_context [] bytes holds_new Hl).
Qed.

(** The digest of a file does not depend on how the reads split it: it is
    the digest of the concatenated bytes, and the call fails exactly when the
    file does not open, the stream is bad at the end, or the bit count does not
    fit in 64 bits. *)
Theorem sha256File_is_digest_of_content opened reads bad :
  sha256File opened reads bad =
  if opened && negb bad && (Z.of_nat (length (concat reads)) <=? UINT64_MAX / 8)
  then Some (digest (concat reads)) else None.
Proof.
  unfold sha256File. destruct opened; [|done].
  pose proof (update_all_holds reads new_context [] holds_new ltac:(done)) as Ha. simpl in Ha |- *.
  destruct (Z.leb_spec (Z.of_nat (length (concat reads))) UINT64_MAX) as [Hl|Hl].
  - destruct Ha as (c & -> & Hc). destruct bad; [done|]. simpl.
    destruct (Z.leb_spec (Z.of_nat (length (concat reads))) (UINT64_MAX / 8)) as [Hle|Hgt].
    + by rewrite (finish_holds c _ Hc Hle).
    + by rewrite (finish_too_long c _ Hc Hgt).
  - rewrite Ha. destruct (Z.leb_spec (Z.of_nat (length (concat reads))) (UINT64_MAX / 8)) as [Hle|Hgt];
      [unfold UINT64_MAX in *; width|]. by rewrite andb_false_r.
Qed.

(** ** The text of a digest *)

(** Reading a word back from its eight digits. *)
Definition hex_value (c : ascii) : Z :=
  let n := Z.of_nat (nat_of_ascii c) in if n <? 58 then n - 48 else n - 87.

Fixpoint read_hex (acc : Z) (s : string) : Z :=
  match s with
  | EmptyString => acc
  | String c s => read_hex (acc * 16 + hex_value c) s
  end.

Lemma hex_value_digit d : 0 ≤ d < 16 → hex_value (hex_digit d) = d.
Proof.
  intros Hd. assert (forallb (λ d, hex_value (hex_digit d) =? d) (seqZ 0 16) = true) as Hall by (vm_compute; reflexivity).
  rewrite forallb_forall in Hall. apply Z.eqb_eq, Hall, list_elem_of_In, elem_of_seqZ. lia.
Qed.

Lemma nibble_value w k : 0 ≤ k → hex_value (hex_digit (Z.land (Z.shiftr w k) 15)) = (w / 2 ^ k) mod 16.
Proof.
  intros Hk. rewrite Z.shiftr_div_pow2 by done. change 15 with (Z.ones 4). rewrite Z.land_ones by lia.
  change (2 ^ 4) with 16. apply hex_value_digit. apply Z.mod_pos_bound. lia.
Qed.

Lemma hex_word_value w : 0 ≤ w < 2 ^ 32 → read_hex 0 (hex_word w) = w.
Proof.
  intros Hw. unfold hex_word. cbn [seq fold_right read_hex]. rewrite !nibble_value by lia.
  cbn [Z.of_nat Pos.of_succ_nat Pos.succ]. width.
Qed.

Lemma append_inj s1 : ∀ s2 t1 t2,
  String.length s1 = String.length s2 → (s1 +:+ t1 = s2 +:+ t2)%string → s1 = s2 ∧ t1 = t2.
Proof.
  induction s1 as [|c s1 IH]; intros [|d s2] t1 t2 Hl Ht; simplify_eq/=; [done|].
  destruct (IH s2 t1 t2) as [-> ->]; done.
Qed.

(** The text of a digest names its state: on states of 32-bit words, equal
    texts come from equal states, so two sources with the same recorded digest
    have the same SHA-256 state. *)
Theorem hex_state_injective s1 s2 :
  Forall (λ w, 0 ≤ w < 2 ^ 32) s1 → Forall (λ w, 0 ≤ w < 2 ^ 32) s2 → hex_state s1 = hex_state s2 → s1 = s2.
Proof.
  intros H1. revert s2. induction H1 as [|w1 s1 Hw1 H1 IH]; intros [|w2 s2] H2 He; [done..|].
  apply Forall_cons in H2 as [Hw2 H2]. apply append_inj in He as [Hw He]; [|done].
  rewrite <- (hex_word_value w1), <- (hex_word_value w2), Hw by done. f_equal. by apply IH.
Qed.

Lemma hex_state_injective_witness :
  hex_state initial_state = hex_state [1779033703; 3144134277; 1013904242; 2773480762; 1359893119; 2600822924; 528734635; 1541459225] ∧
  initial_state = [1779033703; 3144134277; 1013904242; 2773480762; 1359893119; 2600822924; 528734635; 1541459225].
Proof.
  split; [reflexivity|].
  apply hex_state_injective; [repeat constructor; lia..|reflexivity].
Defined.

Example sha256_abc :
  sha256 (map (λ c, Z.of_nat (nat_of_ascii c)) ["a"; "b"; "c"]%char) =
  "ba7816bf8f01cfea414140de5dae2223b00361a396177a9cb410ff61f20015ad"%string.
Proof. vm_compute. reflexivity. Qed.
Example sha256_empty :
  sha256 [] = "e3b0c44298fc1c149afbf4c8996fb92427ae41e4649b934ca495991b7852b855"%string.
Proof. vm_compute. reflexivity. Qed.
