(* ===== verification/Scoring.v ===== *)
(** Component: the C3-ECO assessment (evidence/C3EcoAssessmentScoring.cpp): the
    scores of the domains, the recommended level and the claims it permits.

    An exception ([require] or [std::map::at]) is the result [None].  Scores are
    IEEE doubles with the rounding of the source. *)
From Stdlib Require Import SpecFloat.
From S2P Require Import Prelude CxxInt CxxString CxxFloat.
Open Scope string_scope.
Open Scope Z_scope.

(** * Data *)

Record Metadata := {
  productName : string; productVersion : string; softwareClass : string; functionalUnit : string;
  boundary : string; workload : string;
  measurementQuality : Z; dataQuality : Z; uncertaintyPercent : double; penaltyPoints : double;
  aiInScope : bool; aiRole : string; trainingBoundaryDeclared : bool; inferenceBoundaryDeclared : bool;
  tokenOrInferenceMetricDeclared : bool; aiExclusionsDeclared : bool; qualityEnergyFrontierOptions : Z;
  clientDeviceImpact : bool; ecoRegressionControlDefined : bool; independentReview : bool;
  publicReport : bool; continuousTelemetry : bool; publicEvidence : bool; highSeverityClaimRisk : bool;
  highScaleSaas : bool;
}.

Record Gate := { g_id : string; inputPass : bool; effectivePass : bool; g_evidence : string }.

Record Criterion := {
  cr_id : string; cr_domain : ascii; rawScore : Z; effectiveScore : Z; weight : double;
  evidenceStatus : string; cr_applicable : bool; approval : string; cr_evidence : string;
}.

Record MaterialityComponent := {
  component : string; sharePercent : double; disposition : string; mc_evidence : string;
}.

Record MaterialityResult := {
  m_components : list MaterialityComponent; declaredSharePercent : double; omittedSharePercent : double;
  individualMaterialOmission : bool; cumulativeOmissionExceeded : bool;
}.

Record Regression := {
  rg_id : string; rg_kind : string; baseline : double; current : double; lowerIsBetter : bool;
  explanation : string; correctiveAction : string; rg_evidence : string; deteriorationPercent : double;
  thresholdExceeded : bool; unresolved : bool;
}.

Record Claim := {
  cl_id : string; cl_type : string; cl_text : string; scopeMatches : bool; functionalUnitEquivalent : bool;
  boundaryEquivalent : bool; qualityEquivalent : bool; methodEquivalent : bool;
  legalTechnicalEvidence : bool; cl_evidence : string; permitted : bool; reasons : list string;
}.

Record DomainScore := {
  domain : ascii; normativeWeight : double; adjustedWeight : double; applicable : bool; percent : double;
  points : double; criterionCount : Z;
}.

Inductive Level := LNone | Candidate | Bronze | Silver | Gold | Platinum | Diamond.

#[export] Instance Level_eq_dec : EqDecision Level.
Proof. solve_decision. Defined.

(** [static_cast<int>(level)] *)
Definition level_int (l : Level) : Z :=
  match l with
  | LNone => 0 | Candidate => 1 | Bronze => 2 | Silver => 3 | Gold => 4 | Platinum => 5 | Diamond => 6
  end.

Record AssessmentDecision := {
  totalScore : double; scoreCeiling : Level; recommendation : Level; eligible : bool;
  unresolvedEcoRegression : bool; ecoRegressionTriggered : bool; qualityRegression : bool;
  failedGates : list string; evidenceCaps : list string; decisionReasons : list string;
}.

(** * Scores *)

Definition num (z : Z) : double := double_of_Z z.

(** The literal [1e-9]. *)
Definition kEpsilon : double := round_decimal 53 1024 false 1 (-9).

(** [x + kEpsilon >= bound] *)
Definition at_least (x : double) (bound : Z) : bool := dleb (num bound) (dadd x kEpsilon).

Definition normativeDomainWeights : list (ascii * double) :=
  [("A"%char, num 12); ("B"%char, num 12); ("C"%char, num 12); ("D"%char, num 12); ("E"%char, num 8);
   ("F"%char, num 10); ("G"%char, num 10); ("H"%char, num 6); ("I"%char, num 6); ("J"%char, num 4);
   ("K"%char, num 8)].

(** The sums of one domain: weighted scores, weights, number of criteria. *)
Definition domain_sums (d : ascii) (criteria : list Criterion) : double * double * Z :=
  foldl (λ '(numerator, denominator, count) c,
    if (cr_domain c =? d)%char && cr_applicable c then
      (dadd numerator (dmul (num (effectiveScore c)) (weight c)), dadd denominator (weight c), count + 1)
    else (numerator, denominator, count)) (dzero, dzero, 0) criteria.

Definition domain_score (criteria : list Criterion) (entry : ascii * double) : DomainScore :=
  let '(numerator, denominator, count) := domain_sums entry.1 criteria in
  let used := negb (count =? 0) in
  {| domain := entry.1; normativeWeight := entry.2; adjustedWeight := dzero; applicable := used;
     percent := if used then ddiv (dmul (num 100) numerator) (dmul (num 5) denominator) else dzero;
     points := dzero; criterionCount := count |}.

Definition applicable_weight (domains : list DomainScore) : double :=
  foldl (λ total d, if applicable d then dadd total (normativeWeight d) else total) dzero domains.

Definition adjust (total : double) (d : DomainScore) : DomainScore :=
  if applicable d then
    let adjusted := ddiv (dmul (normativeWeight d) (num 100)) total in
    {| domain := domain d; normativeWeight := normativeWeight d; adjustedWeight := adjusted;
       applicable := true; percent := percent d;
       points := ddiv (dmul adjusted (percent d)) (num 100); criterionCount := criterionCount d |}
  else d.

(** The loop over the domains visits [A] to [K], the keys of the weights. *)
Definition scoreDomains (criteria : list Criterion) : option (list DomainScore) :=
  let domains := map (domain_score criteria) normativeDomainWeights in
  let total := applicable_weight domains in
  if dltb dzero total then Some (map (adjust total) domains) else None.

Definition levelName (l : Level) : string :=
  match l with
  | Candidate => "candidate" | Bronze => "bronze" | Silver => "silver" | Gold => "gold"
  | Platinum => "platinum" | Diamond => "diamond" | LNone => "none"
  end.

Definition scoreBand (total : double) : Level :=
  if at_least total 95 then Diamond
  else if at_least total 90 then Platinum
  else if at_least total 80 then Gold
  else if at_least total 65 then Silver
  else if at_least total 50 then Bronze
  else if at_least total 40 then Candidate
  else LNone.

Definition domainPercentOrZero (domains : list DomainScore) (id : ascii) : option double :=
  match List.find (λ d, (domain d =? id)%char) domains with
  | Some d => Some (if applicable d then percent d else dzero)
  | None => None
  end.

Definition allApplicableDomainsAtLeast (domains : list DomainScore) (minimum : Z) : bool :=
  forallb (λ d, negb (applicable d) || at_least (percent d) minimum) domains.

(** * The decision *)

(** [gates.at(id).effectivePass = false] *)
Definition fail_gate (id : string) (gates : gmap string Gate) : option (gmap string Gate) :=
  match gates !! id with
  | Some g => Some (<[id := {| g_id := g_id g; inputPass := inputPass g; effectivePass := false;
                               g_evidence := g_evidence g |}]> gates)
  | None => None
  end.

Definition gate_id (n : Z) : string := "G" +:+ pretty n.

(** The identifiers of the failed gates; [None] when one of them is missing. *)
Fixpoint failed_gates (ns : list Z) (gates : gmap string Gate) : option (list string) :=
  match ns with
  | [] => Some []
  | n :: rest =>
      match gates !! gate_id n with
      | None => None
      | Some g =>
          match failed_gates rest gates with
          | Some failed => Some (if effectivePass g then failed else gate_id n :: failed)
          | None => None
          end
      end
  end.

Definition gate_numbers : list Z := seqZ 1 14.

Definition any_regression (kind : string) (f : Regression → bool) (rs : list Regression) : bool :=
  existsb (λ r, String.eqb (rg_kind r) kind && f r) rs.

(** [decision.totalScore] after the sum, the clean-up of a zero and the penalty. *)
Definition total_score (m : Metadata) (domains : list DomainScore) : double :=
  let total := foldl (λ total d, dadd total (points d)) dzero domains in
  let magnitude := match total with
                   | S754_finite _ x e => S754_finite false x e
                   | S754_zero _ => S754_zero false
                   | S754_infinity _ => S754_infinity false
                   | S754_nan => S754_nan
                   end in
  let total := if dltb magnitude kEpsilon then dzero else total in
  let rest := dsub total (penaltyPoints m) in
  if dltb dzero rest then rest else dzero.

(** The prerequisites of each level, over those of the level below it. *)
Record percents := { pa : double; pb : double; pc : double; pd : double; pk : double }.

(** [metadata.uncertaintyPercent <= bound + kEpsilon] *)
Definition uncertain_at_most (m : Metadata) (bound : Z) : bool :=
  dleb (uncertaintyPercent m) (dadd (num bound) kEpsilon).

Definition bronze_met (ok : bool) (m : Metadata) (total : double) (domainFloor : bool) (p : percents) : bool :=
  ok && at_least total 50 && domainFloor && at_least (pa p) 40 && at_least (pb p) 35 && at_least (pk p) 40 &&
  uncertain_at_most m 30.

Definition silver_met (bronze : bool) (m : Metadata) (total : double) (p : percents) : bool :=
  bronze && at_least total 65 && at_least (pa p) 50 && at_least (pb p) 50 && at_least (pk p) 50 &&
  (2 <=? measurementQuality m) && (2 <=? dataQuality m) && ecoRegressionControlDefined m &&
  uncertain_at_most m 20.

Definition gold_met (silver : bool) (m : Metadata) (total : double) (p : percents) : bool :=
  silver && at_least total 80 && at_least (pa p) 65 && at_least (pb p) 65 && at_least (pk p) 65 &&
  at_least (pc p) 60 && at_least (pd p) 60 && (3 <=? measurementQuality m) && (3 <=? dataQuality m) &&
  negb (highSeverityClaimRisk m) && uncertain_at_most m 12 &&
  (negb (aiInScope m) || (2 <=? qualityEnergyFrontierOptions m)).

Definition platinum_met (gold : bool) (m : Metadata) (total : double) (p : percents) : bool :=
  gold && at_least total 90 && at_least (pa p) 80 && at_least (pb p) 75 && at_least (pk p) 80 &&
  independentReview m && publicReport m && continuousTelemetry m && uncertain_at_most m 8.

Definition diamond_met (platinum : bool) (m : Metadata) (total : double) (p : percents) : bool :=
  platinum && at_least total 95 && at_least (pa p) 90 && at_least (pb p) 85 && at_least (pk p) 90 &&
  (4 <=? measurementQuality m) && (4 <=? dataQuality m) && continuousTelemetry m && publicEvidence m &&
  uncertain_at_most m 5.

(** The level before the cap of an unresolved regression, and whether bronze is met. *)
Definition recommend (ok : bool) (m : Metadata) (total : double) (domainFloor : bool) (p : percents) : Level * bool :=
  let bronze := bronze_met ok m total domainFloor p in
  let silver := silver_met bronze m total p in
  let gold := gold_met silver m total p in
  let platinum := platinum_met gold m total p in
  let diamond := diamond_met platinum m total p in
  (if diamond then Diamond
   else if platinum then Platinum
   else if gold then Gold
   else if silver then Silver
   else if bronze then Bronze
   else if ok && at_least total 40 then Candidate
   else LNone, bronze).

Definition domain_percents (domains : list DomainScore) : option percents :=
  match domainPercentOrZero domains "A", domainPercentOrZero domains "B", domainPercentOrZero domains "C",
        domainPercentOrZero domains "D", domainPercentOrZero domains "K" with
  | Some a, Some b, Some c, Some d, Some k => Some {| pa := a; pb := b; pc := c; pd := d; pk := k |}
  | _, _, _, _, _ => None
  end.

(** The reasons in the order they are appended. *)
Definition decision_reasons (ok capped : bool) (recommended ceiling : Level) (caps : list string) : list string :=
  let r := if capped then ["unresolved_eco_regression_caps_recommendation_at_bronze"] else [] in
  let r := (r ++ (if ok then [] else ["mandatory_gate_failure_precedes_scoring"]))%list in
  let r := (r ++ (if negb (bool_decide (recommended = ceiling)) && ok && bool_decide (r = [])
                  then ["level_prerequisites_lower_than_score_band"] else []))%list in
  let r := (r ++ (if bool_decide (caps = []) then [] else ["insufficient_evidence_caps_criteria_at_one"]))%list in
  if bool_decide (r = []) then ["all_recommendation_prerequisites_met"] else r.

(** The gates after the two that regressions and omissions fail. *)
Definition effective_gates (gates : gmap string Gate) (materiality : MaterialityResult) (regressions : list Regression)
    : option (gmap string Gate) :=
  gates ← (if any_regression "quality" thresholdExceeded regressions then fail_gate "G13" gates else Some gates);
  if individualMaterialOmission materiality || cumulativeOmissionExceeded materiality
  then fail_gate "G14" gates else Some gates.

Definition cap_applies (unresolved_eco : bool) (recommended : Level) : bool :=
  unresolved_eco && (level_int Bronze <? level_int recommended).

(** The decision and the gates as the call leaves them. *)
Definition decide_level (m : Metadata) (gates : gmap string Gate) (criteria : list Criterion)
    (domains : list DomainScore) (materiality : MaterialityResult) (regressions : list Regression)
    : option (AssessmentDecision * gmap string Gate) :=
  let caps := map cr_id (filter (λ c, Is_true (cr_applicable c && negb (effectiveScore c =? rawScore c))) criteria) in
  let unresolved_eco := any_regression "eco" unresolved regressions in
  gates ← effective_gates gates materiality regressions;
  failed ← failed_gates gate_numbers gates;
  let ok := bool_decide (failed = []) in
  let total := total_score m domains in
  p ← domain_percents domains;
  let '(recommended, bronze) := recommend ok m total (allApplicableDomainsAtLeast domains 30) p in
  let capped := cap_applies unresolved_eco recommended in
  let recommended := if capped then (if bronze then Bronze else Candidate) else recommended in
  Some ({| totalScore := total; scoreCeiling := scoreBand total; recommendation := recommended; eligible := ok;
           unresolvedEcoRegression := unresolved_eco;
           ecoRegressionTriggered := any_regression "eco" thresholdExceeded regressions;
           qualityRegression := any_regression "quality" thresholdExceeded regressions;
           failedGates := failed; evidenceCaps := caps;
           decisionReasons := decision_reasons ok capped recommended (scoreBand total) caps |}, gates).

(** * Claims *)

Definition lowerAscii (value : string) : string := string_map tolower value.

Definition containsAny (value : string) (needles : list string) : bool := existsb (λ n, contains n value) needles.

Definition unsafeCandidateTerms : list string :=
  ["official"; "certified"; "bronze"; "silver"; "gold"; "platinum"; "diamond"; "less energy"; "more efficient";
   "most efficient"; "best"; "zero carbon"; "carbon neutral"; "climate positive"; "net positive"; "offset"].

Definition when (condition : bool) (reason : string) : list string := if condition then [reason] else [].

Definition is_type (c : Claim) (ts : list string) : bool := existsb (String.eqb (cl_type c)) ts.

Definition ai_reasons (m : Metadata) (d : AssessmentDecision) : list string :=
  (when (level_int (recommendation d) <? level_int Gold) "green_ai_requires_gold_candidate_evidence" ++
   when (negb (aiInScope m)) "AI_not_in_scope" ++
   when (String.eqb (aiRole m) "not_applicable") "AI_role_not_declared" ++
   when (negb (trainingBoundaryDeclared m)) "training_boundary_not_declared" ++
   when (negb (inferenceBoundaryDeclared m)) "inference_boundary_not_declared" ++
   when (negb (tokenOrInferenceMetricDeclared m)) "token_or_inference_metric_not_declared" ++
   when (negb (aiExclusionsDeclared m)) "AI_exclusions_not_declared")%list.

Definition comparative_reasons (c : Claim) : list string :=
  ("comparative_qualification_deferred_pr95" ::
   when (negb (functionalUnitEquivalent c)) "functional_unit_not_equivalent" ++
   when (negb (boundaryEquivalent c)) "boundary_not_equivalent" ++
   when (negb (qualityEquivalent c)) "quality_not_equivalent" ++
   when (negb (methodEquivalent c)) "method_not_equivalent")%list.

Definition claim_reasons (m : Metadata) (d : AssessmentDecision) (c : Claim) : list string :=
  let text := lowerAscii (cl_text c) in
  (when (negb (scopeMatches c)) "claim_scope_does_not_match_assessment" ++
   when (highSeverityClaimRisk m && negb (is_type c ["candidate_assessment"])) "high_severity_claim_risk" ++
   (if is_type c ["certified"; "level"] then ["external_certification_authority_required"]
    else if is_type c ["offsets_only"] then ["offsets_cannot_replace_base_footprint_reduction"]
    else if is_type c ["candidate_assessment"] then
      when (negb (String.prefix "candidate " text) || containsAny text unsafeCandidateTerms)
        "candidate_claim_text_is_not_claim_safe"
    else
      when (negb (eligible d)) "mandatory_gates_not_satisfied" ++
      (if is_type c ["comparative"; "best"] then comparative_reasons c else []) ++
      (if is_type c ["green_ai"] then ai_reasons m d else []) ++
      (if is_type c ["zero"; "best"; "climate_positive"; "net_positive"; "comparative"]
       then when (negb (legalTechnicalEvidence c)) "legal_and_technical_evidence_required" else []) ++
      (if is_type c ["zero"; "climate_positive"; "net_positive"]
       then ["restricted_claim_requires_external_review"] else [])))%list.

Definition evaluate_claim (m : Metadata) (d : AssessmentDecision) (c : Claim) : Claim :=
  let r := claim_reasons m d c in
  {| cl_id := cl_id c; cl_type := cl_type c; cl_text := cl_text c; scopeMatches := scopeMatches c;
     functionalUnitEquivalent := functionalUnitEquivalent c; boundaryEquivalent := boundaryEquivalent c;
     qualityEquivalent := qualityEquivalent c; methodEquivalent := methodEquivalent c;
     legalTechnicalEvidence := legalTechnicalEvidence c; cl_evidence := cl_evidence c;
     permitted := bool_decide (r = []); reasons := r |}.

Definition evaluateClaims (claims : list Claim) (m : Metadata) (d : AssessmentDecision) : list Claim :=
  map (evaluate_claim m d) claims.

(** * Facts *)

Lemma failed_gates_none ns gates :
  failed_gates ns gates = Some [] →
  ∀ n, n ∈ ns → ∃ g, gates !! gate_id n = Some g ∧ effectivePass g = true.
Proof.
  induction ns as [|k ns IH]; simpl; [set_solver|]. intros Hf n.
  destruct (gates !! gate_id k) as [g|] eqn:Hg; [|done]. destruct (failed_gates ns gates) as [failed|]; [|done].
  destruct (effectivePass g) eqn:He; [|done]. simplify_eq. rewrite elem_of_cons. intros [->|Hin]; eauto.
Qed.

(** A failed gate of the list is in the result. *)
Lemma failed_gates_elem ns gates failed n g :
  failed_gates ns gates = Some failed → n ∈ ns → gates !! gate_id n = Some g → effectivePass g = false → failed ≠ [].
Proof.
  revert failed. induction ns as [|k ns IH]; intros failed Hf Hin Hg He; [set_solver|]. simpl in Hf.
  destruct (gates !! gate_id k) as [g'|] eqn:Hg'; [|done]. destruct (failed_gates ns gates) as [rest|]; [|done].
  simplify_eq. apply elem_of_cons in Hin as [->|Hin].
  - rewrite Hg in Hg'. simplify_eq. by rewrite He.
  - destruct (effectivePass g'); [|done]. by apply (IH rest).
Qed.

Lemma fail_gate_lookup id gates gates' :
  fail_gate id gates = Some gates' →
  (∃ g, gates' !! id = Some g ∧ effectivePass g = false) ∧
  ∀ id', id' ≠ id → gates' !! id' = gates !! id'.
Proof.
  unfold fail_gate. destruct (gates !! id) as [g|]; [|done]. intros [= <-]. split.
  - rewrite lookup_insert_eq. eauto.
  - intros id' Hne. by rewrite lookup_insert_ne.
Qed.

Lemma gate_13 : gate_id 13 = "G13" ∧ 13 ∈ gate_numbers.
Proof. split; [reflexivity|]. apply elem_of_seqZ. lia. Qed.
Lemma gate_14 : gate_id 14 = "G14" ∧ 14 ∈ gate_numbers.
Proof. split; [reflexivity|]. apply elem_of_seqZ. lia. Qed.

(** A quality regression or a material omission leaves a mandatory gate failed. *)
Lemma effective_gates_fail gates mat regs gates' :
  effective_gates gates mat regs = Some gates' →
  any_regression "quality" thresholdExceeded regs || individualMaterialOmission mat || cumulativeOmissionExceeded mat = true →
  ∃ n g, n ∈ gate_numbers ∧ gates' !! gate_id n = Some g ∧ effectivePass g = false.
Proof.
  destruct gate_13 as [E13 H13], gate_14 as [E14 H14].
  unfold effective_gates. rewrite <- orb_assoc. destruct (any_regression _ _ _); simpl.
  - destruct (fail_gate "G13" gates) as [g1|] eqn:H1; simpl; [|done]. intros H2 _.
    apply fail_gate_lookup in H1 as [(g & Hg & He) _]. exists 13, g. rewrite E13. split_and!; [done| |done].
    destruct (_ || _); [|congruence]. apply fail_gate_lookup in H2 as [_ Hk]. by rewrite Hk.
  - intros H2 Hx. rewrite Hx in H2. apply fail_gate_lookup in H2 as [(g & Hg & He) _]. exists 14, g. by rewrite E14.
Qed.

(** ** Levels *)

#[local] Opaque at_least uncertain_at_most.

Lemma met_bronze ok m total fl p : bronze_met ok m total fl p = true → ok = true ∧ at_least total 50 = true.
Proof. unfold bronze_met. rewrite !andb_true_iff. tauto. Qed.
Lemma met_silver b m total p : silver_met b m total p = true → b = true ∧ at_least total 65 = true.
Proof. unfold silver_met. rewrite !andb_true_iff. tauto. Qed.
Lemma met_gold b m total p : gold_met b m total p = true → b = true ∧ at_least total 80 = true.
Proof. unfold gold_met. rewrite !andb_true_iff. tauto. Qed.
Lemma met_platinum b m total p : platinum_met b m total p = true → b = true ∧ at_least total 90 = true.
Proof. unfold platinum_met. rewrite !andb_true_iff. tauto. Qed.
Lemma met_diamond b m total p : diamond_met b m total p = true → b = true ∧ at_least total 95 = true.
Proof. unfold diamond_met. rewrite !andb_true_iff. tauto. Qed.

(** A level is at most the band of the score, and needs the gates; bronze is
    met by every level from bronze on. *)
Lemma recommend_band ok m total fl p l bronze :
  recommend ok m total fl p = (l, bronze) →
  level_int l ≤ level_int (scoreBand total) ∧ (l ≠ LNone → ok = true) ∧ (level_int Bronze < level_int l → bronze = true) ∧
  (bronze = true → level_int Bronze ≤ level_int (scoreBand total)).
Proof.
  unfold recommend. intros Hr. apply pair_equal_spec in Hr as [<- <-]. unfold scoreBand.
  destruct (bronze_met _ _ _ _ _) eqn:Hb; [apply met_bronze in Hb as [-> H50]|]; last first.
  { unfold silver_met, gold_met, platinum_met, diamond_met. simpl. destruct ok; simpl; [|repeat case_match; simpl; split_and!; (done || lia)].
    destruct (at_least total 40); repeat case_match; simpl; split_and!; (done || lia). }
  destruct (diamond_met _ _ _ _) eqn:Hd; [apply met_diamond in Hd as [Hp H95]; rewrite H95; simpl; split_and!; (done || lia)|].
  destruct (platinum_met _ _ _ _) eqn:Hp; [apply met_platinum in Hp as [_ H90]; rewrite H90; case_match; simpl; split_and!; (done || lia)|].
  destruct (gold_met _ _ _ _) eqn:Hg; [apply met_gold in Hg as [_ H80]; rewrite H80; repeat case_match; simpl; split_and!; (done || lia)|].
  destruct (silver_met _ _ _ _) eqn:Hs; [apply met_silver in Hs as [_ H65]; rewrite H65; repeat case_match; simpl; split_and!; (done || lia)|].
  rewrite H50. repeat case_match; simpl; split_and!; (done || lia).
Qed.

(** The level after the cap of an unresolved regression. *)
Lemma cap_band ok m total fl p l bronze eco :
  recommend ok m total fl p = (l, bronze) →
  let l' := if cap_applies eco l then (if bronze then Bronze else Candidate) else l in
  level_int l' ≤ level_int (scoreBand total) ∧ (l' ≠ LNone → ok = true) ∧
  (eco = true → level_int l' ≤ level_int Bronze).
Proof.
  intros (Hband & Hok & Hbr & Hbb)%recommend_band. unfold cap_applies.
  destruct eco; simpl; [|done]. destruct (Z.ltb_spec 2 (level_int l)) as [Hlt|Hge]; [|done].
  rewrite (Hbr Hlt). split_and!; [by apply Hbb, Hbr| |done]. intros _. apply Hok. by intros ->.
Qed.

(** * Properties *)

(** C36.  The recommended level is justified.  It never exceeds the band of the
    total score; any recommendation at all needs the fourteen mandatory gates to
    pass in the gates as the assessment leaves them; an unresolved eco regression
    caps it at bronze; and a quality regression or a material omission leaves no
    recommendation. *)
Theorem recommendation_is_justified m gates criteria domains mat regs d gates' :
  decide_level m gates criteria domains mat regs = Some (d, gates') →
  level_int (recommendation d) ≤ level_int (scoreCeiling d) ∧
  (recommendation d ≠ LNone → ∀ n, 1 ≤ n ≤ 14 → ∃ g, gates' !! gate_id n = Some g ∧ effectivePass g = true) ∧
  (any_regression "eco" unresolved regs = true → level_int (recommendation d) ≤ level_int Bronze) ∧
  (any_regression "quality" thresholdExceeded regs || individualMaterialOmission mat || cumulativeOmissionExceeded mat = true →
   recommendation d = LNone).
Proof.
  unfold decide_level. intros (gs & Hg & (failed & Hf & (p & _ & Heq)%bind_Some)%bind_Some)%bind_Some.
  revert Heq. generalize (total_score m domains) (allApplicableDomainsAtLeast domains 30). intros total fl.
  destruct (recommend _ _ _ _ _) as [l bronze] eqn:Hr.
  apply (cap_band _ _ _ _ _ _ _ (any_regression "eco" unresolved regs)) in Hr as (Hband & Hok & Heco).
  intros Heq. apply (inj Some), pair_equal_spec in Heq as [<- <-]. cbn [recommendation scoreCeiling].
  set (l' := if cap_applies _ _ then _ else _) in *. split_and!; [done| |done|].
  - intros Hne n Hn. apply Hok, bool_decide_eq_true in Hne. subst failed.
    eapply failed_gates_none; [done|]. apply elem_of_seqZ. lia.
  - intros Hbad. destruct (effective_gates_fail _ _ _ _ Hg Hbad) as (n & g & Hin & Hlk & He).
    pose proof (failed_gates_elem _ _ _ _ _ Hf Hin Hlk He) as Hne.
    destruct (decide (l' = LNone)) as [|Hx]; [done|]. by apply Hok, bool_decide_eq_true in Hx.
Qed.

Definition sample_metadata : Metadata :=
  {| productName := "p"; productVersion := "1"; softwareClass := "S6"; functionalUnit := "inference";
     boundary := "service"; workload := "steady"; measurementQuality := 4; dataQuality := 4;
     uncertaintyPercent := num 4; penaltyPoints := num 3; aiInScope := true; aiRole := "trainer";
     trainingBoundaryDeclared := true; inferenceBoundaryDeclared := true;
     tokenOrInferenceMetricDeclared := true; aiExclusionsDeclared := true; qualityEnergyFrontierOptions := 2;
     clientDeviceImpact := false; ecoRegressionControlDefined := true; independentReview := true;
     publicReport := true; continuousTelemetry := true; publicEvidence := true; highSeverityClaimRisk := false;
     highScaleSaas := false |}.

Definition sample_gates : gmap string Gate :=
  list_to_map (map (λ n, (gate_id n, {| g_id := gate_id n; inputPass := true; effectivePass := true; g_evidence := "" |}))
                 gate_numbers).

(** Full marks in every domain. *)
Definition sample_criteria : list Criterion :=
  map (λ e : ascii * double, {| cr_id := String e.1 "1"; cr_domain := e.1; rawScore := 5; effectiveScore := 5;
     weight := num 1; evidenceStatus := "complete"; cr_applicable := true; approval := ""; cr_evidence := "" |})
    normativeDomainWeights.

Definition sample_domains : list DomainScore := default [] (scoreDomains sample_criteria).

Definition no_omission : MaterialityResult :=
  {| m_components := []; declaredSharePercent := num 100; omittedSharePercent := dzero;
     individualMaterialOmission := false; cumulativeOmissionExceeded := false |}.

Definition eco_regression : Regression :=
  {| rg_id := "r"; rg_kind := "eco"; baseline := num 10; current := num 12; lowerIsBetter := true; explanation := "";
     correctiveAction := ""; rg_evidence := ""; deteriorationPercent := num 20; thresholdExceeded := true;
     unresolved := true |}.

(** An assessment with full marks, a penalty of three points and one unresolved
    regression: the band is diamond and the recommendation bronze. *)
Definition sample_decision : AssessmentDecision :=
  match decide_level sample_metadata sample_gates sample_criteria sample_domains no_omission [eco_regression] with
  | Some (d, _) => d
  | None => {| totalScore := dzero; scoreCeiling := LNone; recommendation := LNone; eligible := false;
               unresolvedEcoRegression := false; ecoRegressionTriggered := false; qualityRegression := false;
               failedGates := []; evidenceCaps := []; decisionReasons := [] |}
  end.

Lemma recommendation_is_justified_witness :
  scoreCeiling sample_decision = Diamond ∧ recommendation sample_decision = Bronze ∧
  level_int (recommendation sample_decision) ≤ level_int Bronze.
Proof.
  split; [vm_compute; reflexivity|]. split; [vm_compute; reflexivity|].
  destruct (decide_level sample_metadata sample_gates sample_criteria sample_domains no_omission [eco_regression])
    as [[d gates']|] eqn:Hd; [|vm_compute in Hd; discriminate Hd].
  assert (sample_decision = d) as -> by (unfold sample_decision; by rewrite Hd).
  apply (recommendation_is_justified _ _ _ _ _ _ _ _ Hd). reflexivity.
Defined.

(** What a claim needs, by its type. *)
Definition claim_allowed (m : Metadata) (d : AssessmentDecision) (c : Claim) : bool :=
  scopeMatches c &&
  if String.eqb (cl_type c) "candidate_assessment" then
    String.prefix "candidate " (lowerAscii (cl_text c)) &&
    forallb (λ term, negb (contains term (lowerAscii (cl_text c)))) unsafeCandidateTerms
  else
    negb (highSeverityClaimRisk m) && eligible d &&
    negb (is_type c ["certified"; "level"; "offsets_only"; "comparative"; "best"; "zero"; "climate_positive";
                     "net_positive"]) &&
    (if String.eqb (cl_type c) "green_ai" then
       (level_int Gold <=? level_int (recommendation d)) && aiInScope m &&
       negb (String.eqb (aiRole m) "not_applicable") && trainingBoundaryDeclared m && inferenceBoundaryDeclared m &&
       tokenOrInferenceMetricDeclared m && aiExclusionsDeclared m
     else true).

Lemma no_reasons_app (l1 l2 : list string) :
  bool_decide ((l1 ++ l2)%list = []) = bool_decide (l1 = []) && bool_decide (l2 = []).
Proof.
  destruct l1 as [|x l1]; [done|]. rewrite (bool_decide_eq_false_2 (x :: l1 = [])) by done.
  by apply bool_decide_eq_false_2.
Qed.

Lemma no_reasons_when b r : bool_decide (when b r = []) = negb b.
Proof. by destruct b. Qed.

Lemma no_reasons_cons (r : string) l : bool_decide (r :: l = []) = false.
Proof. by apply bool_decide_eq_false_2. Qed.

Lemma no_reasons_nil : bool_decide (([] : list string) = []) = true.
Proof. done. Qed.

Lemma no_reasons_comparative c : bool_decide (comparative_reasons c = []) = false.
Proof. apply no_reasons_cons. Qed.

(** A type that always has a reason against it. *)
Ltac refused :=
  cbn [orb andb negb]; rewrite ?no_reasons_comparative, ?no_reasons_cons, ?andb_false_r; reflexivity.

Lemma contains_none text terms : negb (containsAny text terms) = forallb (λ t, negb (contains t text)) terms.
Proof. unfold containsAny. induction terms as [|t terms IH]; simpl; [done|]. by rewrite negb_orb, IH. Qed.

(** A claim is permitted exactly when its type allows it.  Claims of
    certification or of a level, offset-only, comparative, best, zero,
    climate-positive and net-positive claims are never permitted; a candidate
    claim needs a safe text; a green AI claim needs a gold recommendation and the
    declared AI boundaries; every claim but a candidate one needs an eligible
    assessment without a high claim risk; and every claim must match the scope.
    A permitted claim has no recorded reason and a refused one has. *)
Theorem claims_are_permitted_exactly claims m d :
  map permitted (evaluateClaims claims m d) = map (claim_allowed m d) claims ∧
  Forall (λ c, permitted c = bool_decide (reasons c = [])) (evaluateClaims claims m d).
Proof.
  unfold evaluateClaims. split; [|apply Forall_map, Forall_true; intros c; reflexivity].
  rewrite map_map. apply map_ext. intros c.
  unfold evaluate_claim, claim_allowed, claim_reasons. cbn [permitted]. rewrite !no_reasons_app, !no_reasons_when.
  unfold is_type. cbn [existsb].
  destruct (String.eqb_spec (cl_type c) "candidate_assessment") as [->|Hca].
  { cbn [String.eqb Ascii.eqb Bool.eqb orb andb negb]. rewrite no_reasons_when, negb_orb, negb_involutive, contains_none.
    by rewrite negb_involutive, andb_false_r. }
  cbn [orb andb negb]. rewrite !negb_involutive, !andb_true_r.
  destruct (String.eqb_spec (cl_type c) "certified"); [refused|].
  destruct (cl_type c =? "level")%string; [refused|].
  destruct (cl_type c =? "offsets_only")%string; [refused|].
  cbn [orb]. rewrite !no_reasons_app, no_reasons_when, negb_involutive.
  destruct (cl_type c =? "comparative")%string; [refused|].
  destruct (cl_type c =? "best")%string; [refused|].
  destruct (cl_type c =? "zero")%string; [refused|].
  destruct (cl_type c =? "climate_positive")%string; [refused|].
  destruct (cl_type c =? "net_positive")%string; [refused|].
  cbn [orb negb]. rewrite no_reasons_nil, !andb_true_r. f_equal. rewrite <- !andb_assoc. do 2 f_equal.
  destruct (cl_type c =? "green_ai")%string; [|done]. cbn [orb]. unfold ai_reasons.
  rewrite !no_reasons_app, !no_reasons_when, !negb_involutive, Z.leb_antisym. done.
Qed.

(** ** Domains *)

Definition scored_in (criteria : list Criterion) (d : ascii) : bool :=
  existsb (λ c, (cr_domain c =? d)%char && cr_applicable c) criteria.

Lemma domain_sums_count d criteria : ∀ n1 n2 k,
  0 ≤ k →
  let r := foldl (λ '(numerator, denominator, count) c,
    if (cr_domain c =? d)%char && cr_applicable c then
      (dadd numerator (dmul (num (effectiveScore c)) (weight c)), dadd denominator (weight c), count + 1)
    else (numerator, denominator, count)) (n1, n2, k) criteria in
  r.2 = k + Z.of_nat (length (filter (λ c, Is_true ((cr_domain c =? d)%char && cr_applicable c)) criteria)).
Proof.
  induction criteria as [|c criteria IH]; intros n1 n2 k Hk; cbn [foldl]; [simpl; lia|].
  rewrite filter_cons. destruct ((cr_domain c =? d)%char && cr_applicable c); simpl in *; rewrite IH; simpl; lia.
Qed.

Lemma domain_score_used criteria e :
  criterionCount (domain_score criteria e) =
    Z.of_nat (length (filter (λ c, Is_true ((cr_domain c =? e.1)%char && cr_applicable c)) criteria)) ∧
  applicable (domain_score criteria e) = scored_in criteria e.1 ∧
  domain (domain_score criteria e) = e.1 ∧ normativeWeight (domain_score criteria e) = e.2.
Proof.
  unfold domain_score, domain_sums. pose proof (domain_sums_count e.1 criteria dzero dzero 0 ltac:(lia)) as Hc.
  cbv zeta in Hc. destruct (foldl _ (dzero, dzero, 0) criteria) as [[a b] k]. simpl in Hc |- *. rewrite Hc.
  split_and!; try done. clear. unfold scored_in. induction criteria as [|c criteria IH]; [done|].
  rewrite filter_cons. simpl. destruct ((cr_domain c =? e.1)%char && cr_applicable c); simpl; [done|exact IH].
Qed.

(** The sum of the weights of the used domains, for every choice of them. *)
Definition weight_of (used : list bool) : double :=
  foldl (λ total (p : bool * double), if p.1 then dadd total p.2 else total) dzero (zip used (map snd normativeDomainWeights)).

Fixpoint choices (n : nat) : list (list bool) :=
  match n with O => [[]] | S n => (map (cons true) (choices n) ++ map (cons false) (choices n))%list end.

Lemma choices_all l : l ∈ choices (length l).
Proof.
  induction l as [|b l IH]; simpl; [set_solver|]. apply elem_of_app.
  destruct b; [left|right]; apply list_elem_of_fmap; eauto.
Qed.

Lemma weight_positive used :
  length used = 11%nat → dltb dzero (weight_of used) = existsb (λ b, b) used.
Proof.
  intros Hl. assert (forallb (λ u, eqb (dltb dzero (weight_of u)) (existsb (λ b, b) u)) (choices 11) = true) as Hall
    by (vm_compute; reflexivity).
  rewrite forallb_forall in Hall. apply eqb_prop, Hall, list_elem_of_In. rewrite <- Hl. apply choices_all.
Qed.

Lemma applicable_weight_used criteria entries : ∀ acc,
  foldl (λ total d, if applicable d then dadd total (normativeWeight d) else total) acc
    (map (domain_score criteria) entries) =
  foldl (λ total (p : bool * double), if p.1 then dadd total p.2 else total) acc
    (zip (map (λ e : ascii * double, scored_in criteria e.1) entries) (map snd entries)).
Proof.
  induction entries as [|e entries IH]; intros acc; [done|]. cbn [map zip zip_with foldl].
  destruct (domain_score_used criteria e) as (_ & -> & _ & ->). cbn [fst snd]. apply IH.
Qed.

Lemma adjust_same total d :
  domain (adjust total d) = domain d ∧ applicable (adjust total d) = applicable d ∧
  criterionCount (adjust total d) = criterionCount d.
Proof. unfold adjust. by destruct (applicable d) eqn:Ha; simpl; rewrite ?Ha. Qed.

(** Scoring fails exactly when no criterion applies in any of the eleven
    domains; otherwise it gives one score per domain, in the order A to K, whose
    count is the number of its applicable criteria and which applies exactly
    when there is one. *)
Theorem scoreDomains_defined criteria :
  match scoreDomains criteria with
  | None => ∀ d, d ∈ map fst normativeDomainWeights → scored_in criteria d = false
  | Some ds =>
      map domain ds = map fst normativeDomainWeights ∧
      (∃ d, d ∈ map fst normativeDomainWeights ∧ scored_in criteria d = true) ∧
      Forall (λ s, applicable s = scored_in criteria (domain s) ∧
                   criterionCount s = Z.of_nat (length (filter (λ c, Is_true ((cr_domain c =? domain s)%char && cr_applicable c)) criteria))) ds
  end.
Proof.
  unfold scoreDomains. assert (applicable_weight (map (domain_score criteria) normativeDomainWeights) =
    weight_of (map (λ e : ascii * double, scored_in criteria e.1) normativeDomainWeights)) as ->
    by apply applicable_weight_used.
  rewrite weight_positive by done. generalize (weight_of (map (λ e : ascii * double, scored_in criteria e.1) normativeDomainWeights)).
  intros total. destruct (existsb _ _) eqn:Hex.
  - split_and!.
    + rewrite !map_map. apply map_ext. intros e. rewrite (proj1 (adjust_same total _)). apply domain_score_used.
    + apply existsb_exists in Hex as (b & Hin%list_elem_of_In & ->).
      apply list_elem_of_fmap in Hin as (e & -> & Hin). exists e.1. split; [|done]. apply list_elem_of_fmap. eauto.
    + apply Forall_map, Forall_map, Forall_true. intros e. cbv beta.
      destruct (adjust_same total (domain_score criteria e)) as (-> & -> & ->).
      destruct (domain_score_used criteria e) as (-> & -> & -> & _). done.
  - intros d Hd. apply list_elem_of_fmap in Hd as (e & -> & Hin).
    destruct (scored_in criteria e.1) eqn:Hs; [|done]. rewrite <- Hex. symmetry. apply existsb_exists.
    exists true. split; [|done]. apply list_elem_of_In, list_elem_of_fmap. exists e. done.
Qed.
