(* ===== verification/TypeSystem.v ===== *)
(** Component: the production type and memory model
    (type_system/ProductionTypeSystem.h and .cpp).

    [Module Descriptors] models type descriptors, their validation, storage
    layout, canonical names and assignability, and the checked conversions.
    [Module Ownership] models the [OwnershipTracker] state machine.
    A function with a [std::string &diagnostic] out-parameter returns the pair
    of its result and the text it leaves in the diagnostic. *)
From Stdlib Require Import SpecFloat.
From S2P Require Import Prelude CxxInt CxxString CxxFloat.
Open Scope string_scope.
Open Scope Z_scope.

Module Descriptors.

Inductive TypeKind :=
| KVoid | KBool | KInt32 | KFloat64 | KString | KArray | KSlice | KRecord | KEnum | KOption | KResult.

#[export] Instance TypeKind_eq_dec : EqDecision TypeKind.
Proof. solve_decision. Defined.

Record Field := { field_name : string; field_kind : TypeKind }.

#[export] Instance Field_eq_dec : EqDecision Field.
Proof. solve_decision. Defined.

Record TypeDescriptor := {
  kind : TypeKind;
  name : string;
  element : TypeKind;
  extent : Z;
  fields : list Field;
  variants : list string;
  ok : TypeKind;
  error : TypeKind;
}.

Definition default_descriptor : TypeDescriptor :=
  {| kind := KVoid; name := ""; element := KVoid; extent := 0; fields := []; variants := [];
     ok := KVoid; error := KVoid |}.

Definition scalar (value : TypeKind) : TypeDescriptor :=
  {| kind := value; name := ""; element := KVoid; extent := 0; fields := []; variants := [];
     ok := KVoid; error := KVoid |}.

Definition array (value : TypeKind) (value_extent : Z) : TypeDescriptor :=
  {| kind := KArray; name := ""; element := value; extent := value_extent; fields := [];
     variants := []; ok := KVoid; error := KVoid |}.

Definition slice (value : TypeKind) : TypeDescriptor :=
  {| kind := KSlice; name := ""; element := value; extent := 0; fields := []; variants := [];
     ok := KVoid; error := KVoid |}.

Definition record (value_name : string) (value_fields : list Field) : TypeDescriptor :=
  {| kind := KRecord; name := value_name; element := KVoid; extent := 0; fields := value_fields;
     variants := []; ok := KVoid; error := KVoid |}.

Definition enumeration (value_name : string) (value_variants : list string) : TypeDescriptor :=
  {| kind := KEnum; name := value_name; element := KVoid; extent := 0; fields := [];
     variants := value_variants; ok := KVoid; error := KVoid |}.

Definition option_ (payload : TypeKind) : TypeDescriptor :=
  {| kind := KOption; name := ""; element := payload; extent := 0; fields := []; variants := [];
     ok := KVoid; error := KVoid |}.

Definition result_ (value_ok value_error : TypeKind) : TypeDescriptor :=
  {| kind := KResult; name := ""; element := KVoid; extent := 0; fields := []; variants := [];
     ok := value_ok; error := value_error |}.

Definition fail (message : string) : bool * string := (false, message).

Definition validPayload (k : TypeKind) : bool :=
  bool_decide (k ≠ KVoid) && bool_decide (k ≠ KArray) && bool_decide (k ≠ KSlice) &&
  bool_decide (k ≠ KRecord) && bool_decide (k ≠ KEnum) && bool_decide (k ≠ KOption) &&
  bool_decide (k ≠ KResult).

(** A pointer occupies 8 bytes on the qualified platform. *)
Definition scalarBytes (k : TypeKind) : Z :=
  match k with
  | KBool => 1
  | KInt32 => 4
  | KFloat64 => 8
  | KString => 8
  | _ => 0
  end.

Definition typeKindName (k : TypeKind) : string :=
  match k with
  | KVoid => "void"
  | KBool => "bool"
  | KInt32 => "int32"
  | KFloat64 => "float64"
  | KString => "string"
  | KArray => "array"
  | KSlice => "slice"
  | KRecord => "record"
  | KEnum => "enum"
  | KOption => "option"
  | KResult => "result"
  end.

Definition isScalar (k : TypeKind) : bool :=
  bool_decide (k = KBool) || bool_decide (k = KInt32) || bool_decide (k = KFloat64) ||
  bool_decide (k = KString).

Definition isNumeric (k : TypeKind) : bool :=
  bool_decide (k = KInt32) || bool_decide (k = KFloat64).

(** The result, the [bytes] out-parameter and the diagnostic. *)
Definition checkedArrayBytes (extent element_bytes : Z) : bool * Z * string :=
  if (extent =? 0) || (element_bytes =? 0) then
    (false, 0, "SHD3011 array storage requires non-zero extent and element size")
  else if SIZE_MAX / element_bytes <? extent then
    (false, 0, "SHD3011 array storage size overflows size_t")
  else (true, u64 (extent * element_bytes), "").

(** The loop over the fields of a record with the set of names seen. *)
Fixpoint validate_fields (names : gset string) (fs : list Field) : bool * string :=
  match fs with
  | [] => (true, "")
  | f :: rest =>
      if is_empty (field_name f) || bool_decide (field_name f ∈ names) then
        fail "SHD3010 record field names must be non-empty and unique"
      else if negb (validPayload (field_kind f)) then
        fail "SHD3010 record field must use a scalar value type"
      else validate_fields ({[field_name f]} ∪ names) rest
  end.

Fixpoint validate_variants (names : gset string) (vs : list string) : bool * string :=
  match vs with
  | [] => (true, "")
  | v :: rest =>
      if is_empty v || bool_decide (v ∈ names) then
        fail "SHD3010 enum variants must be non-empty and unique"
      else validate_variants ({[v]} ∪ names) rest
  end.

Definition validate (d : TypeDescriptor) : bool * string :=
  if isScalar (kind d) || bool_decide (kind d = KVoid) then (true, "")
  else match kind d with
  | KArray =>
      if negb (validPayload (element d)) then fail "SHD3010 array element type is not a scalar value"
      else if extent d =? 0 then fail "SHD3010 array extent must be greater than zero"
      else let '(r, _, diagnostic) := checkedArrayBytes (extent d) (scalarBytes (element d)) in
           (r, diagnostic)
  | KSlice =>
      if negb (validPayload (element d)) then fail "SHD3010 slice element type is not a scalar value"
      else (true, "")
  | KRecord =>
      if is_empty (name d) then fail "SHD3010 record requires a stable name"
      else match fields d with
      | [] => fail "SHD3010 record requires at least one field"
      | fs => validate_fields ∅ fs
      end
  | KEnum =>
      if is_empty (name d) then fail "SHD3010 enum requires a stable name"
      else match variants d with
      | [] => fail "SHD3010 enum requires at least one variant"
      | vs => validate_variants ∅ vs
      end
  | KOption =>
      if negb (validPayload (element d)) then fail "SHD3010 option payload must be a scalar value type"
      else (true, "")
  | KResult =>
      if negb (validPayload (ok d)) || negb (validPayload (error d)) then
        fail "SHD3010 result payloads must be scalar value types"
      else (true, "")
  | _ => fail "SHD3010 unknown production type descriptor"
  end.

(** The accumulation over the fields of a record. *)
Fixpoint record_bytes (bytes : Z) (fs : list Field) : bool * Z * string :=
  match fs with
  | [] => (true, bytes, "")
  | f :: rest =>
      let field_bytes := scalarBytes (field_kind f) in
      if SIZE_MAX - field_bytes <? bytes then
        (false, bytes, "SHD3011 record storage size overflows size_t")
      else record_bytes (u64 (bytes + field_bytes)) rest
  end.

Definition storageBytes (d : TypeDescriptor) : bool * Z * string :=
  let '(valid, diagnostic) := validate d in
  if negb valid then (false, 0, diagnostic)
  else if bool_decide (kind d = KVoid) then (true, 0, diagnostic)
  else if isScalar (kind d) then (true, scalarBytes (kind d), diagnostic)
  else match kind d with
  | KArray => checkedArrayBytes (extent d) (scalarBytes (element d))
  | KSlice => (true, 8 + 8, diagnostic)
  | KEnum => (true, 4, diagnostic)
  | KOption => (true, 1 + scalarBytes (element d), diagnostic)
  | KResult =>
      (true, 1 + (if scalarBytes (error d) <? scalarBytes (ok d) then scalarBytes (ok d)
                  else scalarBytes (error d)), diagnostic)
  | KRecord => record_bytes 0 (fields d)
  | _ => (false, 0, "SHD3011 storage layout is unavailable")
  end.

Definition canonicalName (d : TypeDescriptor) : string :=
  if isScalar (kind d) || bool_decide (kind d = KVoid) then typeKindName (kind d)
  else match kind d with
  | KArray => "array<" +:+ typeKindName (element d) +:+ "," +:+ pretty (extent d) +:+ ">"
  | KSlice => "slice<" +:+ typeKindName (element d) +:+ ">"
  | KRecord | KEnum => typeKindName (kind d) +:+ "<" +:+ name d +:+ ">"
  | KOption => "option<" +:+ typeKindName (element d) +:+ ">"
  | KResult => "result<" +:+ typeKindName (ok d) +:+ "," +:+ typeKindName (error d) +:+ ">"
  | _ => "unknown"
  end.

(** The field-by-field comparison of two records of the same length. *)
Fixpoint same_fields (target source : list Field) : bool :=
  match target, source with
  | t :: ts, s :: ss =>
      if bool_decide (field_name t ≠ field_name s) || bool_decide (field_kind t ≠ field_kind s)
      then false else same_fields ts ss
  | _, _ => true
  end.

Definition isAssignable (target source : TypeDescriptor) : bool :=
  if negb (validate target).1 || negb (validate source).1 then false
  else if bool_decide (kind target ≠ kind source) then false
  else if isScalar (kind target) || bool_decide (kind target = KVoid) then true
  else match kind target with
  | KArray => bool_decide (element target = element source) && (extent target =? extent source)
  | KSlice => bool_decide (element target = element source)
  | KRecord =>
      if is_empty (name target) || bool_decide (name target ≠ name source) ||
         bool_decide (length (fields target) ≠ length (fields source)) then false
      else same_fields (fields target) (fields source)
  | KEnum =>
      negb (is_empty (name target)) && bool_decide (name target = name source) &&
      bool_decide (variants target = variants source)
  | KOption => bool_decide (element target = element source)
  | KResult => bool_decide (ok target = ok source) && bool_decide (error target = error source)
  | _ => false
  end.

(** [None] leaves the [result] out-parameter unwritten. *)
Definition checkedFloatToInt (value : double) : option Z * string :=
  if negb (isfinite value) then (None, "SHD3012 cannot convert NaN or infinity to int32")
  else if dltb value (double_of_Z INT32_MIN) || dltb (double_of_Z INT32_MAX) value then
    (None, "SHD3012 float64 value is outside int32 range")
  else (Some (dtrunc value), "").

Definition checkedSliceRange (owner_extent offset length : Z) : bool * string :=
  if (owner_extent <? offset) || (u64 (owner_extent - offset) <? length) then
    fail "SHD7002 slice range is outside owner bounds"
  else (true, "").

End Descriptors.

Module Ownership.

Inductive OwnershipState := Uninitialized | Owned | SharedBorrowed | MutablyBorrowed | Moved.

#[export] Instance OwnershipState_eq_dec : EqDecision OwnershipState.
Proof. solve_decision. Defined.

Definition ownershipStateName (state : OwnershipState) : string :=
  match state with
  | Uninitialized => "uninitialized"
  | Owned => "owned"
  | SharedBorrowed => "shared_borrowed"
  | MutablyBorrowed => "mutably_borrowed"
  | Moved => "moved"
  end.

Record OwnershipSnapshot := { state : OwnershipState; shared_borrows : Z }.

Definition fresh_snapshot : OwnershipSnapshot := {| state := Uninitialized; shared_borrows := 0 |}.

(** The field [values_] of the tracker. *)
Abbreviation OwnershipTracker := (gmap string OwnershipSnapshot).

(** What an operation returns: its result, the diagnostic and the tracker. *)
Abbreviation op_result := (bool * string * OwnershipTracker)%type.

Definition undeclared (name : string) : string :=
  "SHD3016 ownership operation references undeclared value `" +:+ name +:+ "`".

(** [findValue] followed by the operation on the entry it points to. *)
Definition with_value (name : string) (values : OwnershipTracker)
    (f : OwnershipSnapshot → bool * string * OwnershipSnapshot) : op_result :=
  match values !! name with
  | None => (false, undeclared name, values)
  | Some value =>
      let '(r, diagnostic, value') := f value in (r, diagnostic, <[name := value']> values)
  end.

Definition declareValue (name : string) (values : OwnershipTracker) : op_result :=
  if is_empty name then (false, "SHD3016 ownership value name must not be empty", values)
  else match values !! name with
  | Some _ => (false, "SHD3016 ownership value is already declared: `" +:+ name +:+ "`", values)
  | None => (true, "", <[name := fresh_snapshot]> values)
  end.

Definition initialize (name : string) (values : OwnershipTracker) : op_result :=
  with_value name values (λ value,
    if bool_decide (state value ≠ Uninitialized) && bool_decide (state value ≠ Moved) then
      (false, "SHD3016 initialize requires uninitialized or moved state", value)
    else (true, "", {| state := Owned; shared_borrows := 0 |})).

Definition read (name : string) (values : OwnershipTracker) : op_result :=
  match values !! name with
  | None => (false, "SHD3016 read references undeclared value `" +:+ name +:+ "`", values)
  | Some found =>
      match state found with
      | Uninitialized => (false, "SHD3016 read of uninitialized value `" +:+ name +:+ "`", values)
      | Moved => (false, "SHD3016 use after move of value `" +:+ name +:+ "`", values)
      | MutablyBorrowed =>
          (false, "SHD3016 owner read is forbidden during a mutable borrow of `" +:+ name +:+ "`", values)
      | _ => (true, "", values)
      end
  end.

Definition moveValue (name : string) (values : OwnershipTracker) : op_result :=
  with_value name values (λ value,
    if bool_decide (state value ≠ Owned) then
      (false, "SHD3016 move requires an owned value with no active borrow", value)
    else (true, "", {| state := Moved; shared_borrows := shared_borrows value |})).

Definition assign (name : string) (values : OwnershipTracker) : op_result :=
  with_value name values (λ value,
    if bool_decide (state value = SharedBorrowed) || bool_decide (state value = MutablyBorrowed) then
      (false, "SHD3016 assignment is forbidden while value is borrowed", value)
    else (true, "", {| state := Owned; shared_borrows := 0 |})).

Definition borrowShared (name : string) (values : OwnershipTracker) : op_result :=
  with_value name values (λ value,
    if bool_decide (state value ≠ Owned) && bool_decide (state value ≠ SharedBorrowed) then
      (false, "SHD3016 shared borrow requires an initialized, non-moved owner", value)
    else (true, "", {| state := SharedBorrowed; shared_borrows := u64 (shared_borrows value + 1) |})).

Definition releaseShared (name : string) (values : OwnershipTracker) : op_result :=
  with_value name values (λ value,
    if bool_decide (state value ≠ SharedBorrowed) || (shared_borrows value =? 0) then
      (false, "SHD3016 releaseShared requires an active shared borrow", value)
    else
      let n := u64 (shared_borrows value - 1) in
      (true, "", {| state := if n =? 0 then Owned else state value; shared_borrows := n |})).

Definition borrowMutable (name : string) (values : OwnershipTracker) : op_result :=
  with_value name values (λ value,
    if bool_decide (state value ≠ Owned) then
      (false, "SHD3016 mutable borrow requires exclusive ownership", value)
    else (true, "", {| state := MutablyBorrowed; shared_borrows := shared_borrows value |})).

Definition releaseMutable (name : string) (values : OwnershipTracker) : op_result :=
  with_value name values (λ value,
    if bool_decide (state value ≠ MutablyBorrowed) then
      (false, "SHD3016 releaseMutable requires an active mutable borrow", value)
    else (true, "", {| state := Owned; shared_borrows := shared_borrows value |})).

Definition snapshot (name : string) (values : OwnershipTracker) : option OwnershipSnapshot :=
  values !! name.

(** ** Traces of operations *)

Inductive action :=
| DeclareNew | Initialize | Read | Move | Assign
| BorrowShared | ReleaseShared | BorrowMutable | ReleaseMutable.

#[export] Instance action_eq_dec : EqDecision action.
Proof. solve_decision. Defined.

Definition perform (a : action) : string → OwnershipTracker → op_result :=
  match a with
  | DeclareNew => declareValue
  | Initialize => initialize
  | Read => read
  | Move => moveValue
  | Assign => assign
  | BorrowShared => borrowShared
  | ReleaseShared => releaseShared
  | BorrowMutable => borrowMutable
  | ReleaseMutable => releaseMutable
  end.

(** The results and the final tracker of a sequence of calls. *)
Fixpoint run (trace : list (action * string)) (t : OwnershipTracker) : list bool * OwnershipTracker :=
  match trace with
  | [] => ([], t)
  | (a, name) :: rest =>
      let '(r, _, t') := perform a name t in
      let '(rs, t'') := run rest t' in (r :: rs, t'')
  end.

(** ** The abstract borrow discipline

    A value is fresh, owned, shared by a number of readers, lent to one
    writer, or moved out; [discipline] is the partial transition function. *)
Inductive loan := Fresh | Own | Shared (readers : positive) | Exclusive | Gone.

Definition discipline (a : action) (l : option loan) : option (option loan) :=
  match a, l with
  | DeclareNew, None => Some (Some Fresh)
  | Initialize, Some (Fresh | Gone) => Some (Some Own)
  | Read, Some Own => Some (Some Own)
  | Read, Some (Shared n) => Some (Some (Shared n))
  | Move, Some Own => Some (Some Gone)
  | Assign, Some (Fresh | Own | Gone) => Some (Some Own)
  | BorrowShared, Some Own => Some (Some (Shared 1))
  | BorrowShared, Some (Shared n) => Some (Some (Shared (n + 1)))
  | ReleaseShared, Some (Shared n) =>
      Some (Some (if bool_decide (n = 1%positive) then Own else Shared (Pos.pred n)))
  | BorrowMutable, Some Own => Some (Some Exclusive)
  | ReleaseMutable, Some Exclusive => Some (Some Own)
  | _, _ => None
  end.

Definition loan_of (s : OwnershipSnapshot) : loan :=
  match state s with
  | Uninitialized => Fresh
  | Owned => Own
  | SharedBorrowed => Shared (Z.to_pos (shared_borrows s))
  | MutablyBorrowed => Exclusive
  | Moved => Gone
  end.

Definition abstraction (t : OwnershipTracker) : gmap string loan := loan_of <$> t.

(** The abstract machine on a trace; a refused action changes nothing. The
    empty name is never declared. *)
Definition abstract_step (a : action) (name : string) (m : gmap string loan) : bool * gmap string loan :=
  match (if is_empty name then None else discipline a (m !! name)) with
  | Some (Some l) => (true, <[name := l]> m)
  | _ => (false, m)
  end.

Fixpoint abstract_run (trace : list (action * string)) (m : gmap string loan) : list bool * gmap string loan :=
  match trace with
  | [] => ([], m)
  | (a, name) :: rest =>
      let '(r, m') := abstract_step a name m in
      let '(rs, m'') := abstract_run rest m' in (r :: rs, m'')
  end.

(** ** Invariant

    The borrow counter is positive exactly in the shared state, is at most the
    number [k] of operations performed, and no value has the empty name. *)
Definition snapshot_ok (k : Z) (s : OwnershipSnapshot) : Prop :=
  match state s with
  | SharedBorrowed => 0 < shared_borrows s ≤ k
  | _ => shared_borrows s = 0
  end.

Definition tracker_ok (k : Z) (t : OwnershipTracker) : Prop :=
  t !! "" = None ∧ map_Forall (λ _, snapshot_ok k) t.

Lemma tracker_ok_empty k : tracker_ok k ∅.
Proof. split; [done | apply map_Forall_empty]. Qed.

Lemma snapshot_ok_mono k k' s : k ≤ k' → snapshot_ok k s → snapshot_ok k' s.
Proof. unfold snapshot_ok. destruct (state s); lia. Qed.

Lemma tracker_ok_mono k k' t : k ≤ k' → tracker_ok k t → tracker_ok k' t.
Proof.
  intros Hk [Hn Ht]. split; [done|].
  intros i s Hs. eapply snapshot_ok_mono; eauto.
Qed.

Lemma tracker_ok_insert k t name s :
  name ≠ "" → snapshot_ok k s → tracker_ok k t → tracker_ok k (<[name := s]> t).
Proof.
  intros Hne Hs [Hn Ht]. split; [by rewrite lookup_insert_ne|].
  by apply map_Forall_insert_2.
Qed.

Ltac unfold_ops :=
  unfold declareValue, initialize, read, moveValue, assign, borrowShared, releaseShared,
    borrowMutable, releaseMutable, with_value.

(** One call either refines one step of the discipline or is refused by both
    and leaves the tracker as it was. *)
Lemma perform_refines k t a name :
  0 ≤ k < SIZE_MAX → tracker_ok k t →
  let '(r, _, t') := perform a name t in
  abstract_step a name (abstraction t) = (r, abstraction t') ∧ tracker_ok (k + 1) t'.
Proof.
  intros Hk Hok. pose proof (tracker_ok_mono k (k + 1) t ltac:(lia) Hok) as Hok1.
  destruct Hok as [Hempty Hall].
  unfold abstract_step, abstraction. rewrite lookup_fmap.
  destruct (decide (name = "")) as [->|Hne].
  { destruct a; simpl; unfold_ops; simpl; rewrite ?Hempty; done. }
  assert (is_empty name = false) as Hie by (destruct name; done). rewrite Hie.
  destruct (t !! name) as [[s b]|] eqn:Hl; simpl.
  - specialize (Hall _ _ Hl). unfold snapshot_ok in Hall; simpl in Hall.
    destruct a, s; simpl; unfold_ops; rewrite ?Hie, Hl; simpl;
      rewrite ?insert_id by done;
      rewrite ?(insert_id (loan_of <$> t)) by (rewrite lookup_fmap, Hl; done);
      try done; rewrite ?fmap_insert.
    all: try (split; [done|]; apply tracker_ok_insert; [done| |done]; unfold snapshot_ok; simpl; lia).
    + rewrite insert_id by (rewrite lookup_fmap, Hl; done). split; [done|].
      by apply tracker_ok_insert.
    + subst b. split; [done|]. apply tracker_ok_insert; [done| |done].
      unfold snapshot_ok; simpl. width.
    + rewrite u64_id by width. split.
      * do 2 f_equal. unfold loan_of; simpl. by rewrite Z2Pos.inj_add by lia.
      * apply tracker_ok_insert; [done| |done]. unfold snapshot_ok; simpl. lia.
    + destruct (Z.eqb_spec b 0) as [|Hb]; [lia|]. simpl. rewrite u64_id by width.
      rewrite fmap_insert. split.
      * do 2 f_equal. case_bool_decide as Hp; destruct (Z.eqb_spec (b - 1) 0); simpl; try lia; [done|].
        unfold loan_of; simpl. f_equal. rewrite <- Z2Pos.inj_pred by lia. done.
      * apply tracker_ok_insert; [done| |done]. unfold snapshot_ok; simpl.
        destruct (Z.eqb_spec (b - 1) 0); simpl; lia.
  - destruct a; simpl; unfold_ops; rewrite ?Hie, Hl; simpl; try done.
    rewrite fmap_insert. split; [done|]. apply tracker_ok_insert; [done|done|done].
Qed.

Lemma run_refines k t trace :
  0 ≤ k → k + Z.of_nat (length trace) ≤ SIZE_MAX → tracker_ok k t →
  let '(rs, t') := run trace t in
  abstract_run trace (abstraction t) = (rs, abstraction t') ∧
  tracker_ok (k + Z.of_nat (length trace)) t'.
Proof.
  revert k t. induction trace as [|[a name] rest IH]; intros k t Hk Hlen Hok; simpl in *.
  { by rewrite Z.add_0_r. }
  pose proof (perform_refines k t a name ltac:(lia) Hok) as Hstep.
  destruct (perform a name t) as [[r d] t']. destruct Hstep as [-> Hok'].
  specialize (IH (k + 1) t' ltac:(lia) ltac:(lia) Hok').
  destruct (run rest t') as [rs t'']. destruct IH as [-> Hok''].
  split; [done|]. by replace (k + Z.of_nat (S (length rest))) with (k + 1 + Z.of_nat (length rest)) by lia.
Qed.

(** C23.  Refinement of the abstract borrow discipline.  For every sequence of at most 2^64 - 1
    calls on a new tracker, the results the tracker returns are those of the
    abstract machine, the abstraction of its final state is the abstract final
    state, and the borrow counter of every value is positive exactly when the
    value is in the shared state. *)
Theorem tracker_refines_discipline trace :
  Z.of_nat (length trace) ≤ SIZE_MAX →
  let '(rs, t) := run trace ∅ in
  abstract_run trace ∅ = (rs, abstraction t) ∧ tracker_ok (Z.of_nat (length trace)) t.
Proof.
  intros Hlen. pose proof (run_refines 0 ∅ trace ltac:(lia) ltac:(lia) (tracker_ok_empty 0)) as H.
  destruct (run trace ∅) as [rs t]. unfold abstraction in H at 1. by rewrite fmap_empty in H.
Qed.

Definition sample_trace : list (action * string) :=
  [(DeclareNew, "x"); (Read, "x"); (Initialize, "x"); (BorrowShared, "x"); (BorrowShared, "x");
   (BorrowMutable, "x"); (ReleaseShared, "x"); (Assign, "x"); (ReleaseShared, "x");
   (BorrowMutable, "x"); (Read, "x"); (ReleaseMutable, "x"); (Move, "x"); (Read, "x")].

Lemma tracker_refines_discipline_witness :
  Z.of_nat (length sample_trace) ≤ SIZE_MAX ∧
  (abstract_run sample_trace ∅).1 = (run sample_trace ∅).1 ∧
  (run sample_trace ∅).1 =
    [true; false; true; true; true; false; true; false; true; true; false; true; true; false].
Proof.
  split; [vm_compute; congruence|].
  pose proof (tracker_refines_discipline sample_trace ltac:(vm_compute; congruence)) as H.
  destruct (run sample_trace ∅) as [rs t] eqn:Hrun. destruct H as [H _]. rewrite H.
  split; [done|]. assert (rs = (run sample_trace ∅).1) as -> by (by rewrite Hrun).
  vm_compute. reflexivity.
Defined.

(** Exclusivity: while a value is mutably borrowed, every operation on it other
    than releasing that borrow (reading, moving, assigning, initialising,
    declaring or borrowing it again) is refused and leaves the tracker as it
    was, and an operation on another value leaves the loan in place. *)
Theorem mutable_borrow_is_exclusive t name s a other :
  t !! name = Some s → state s = MutablyBorrowed →
  (a ≠ ReleaseMutable → ∃ d, perform a name t = (false, d, t)) ∧
  (other ≠ name → (perform a other t).2 !! name = Some s).
Proof.
  intros Hl Hs. destruct s as [s b]; simpl in Hs; subst s. split.
  - intros Ha. destruct a; try done; simpl; unfold_ops; rewrite Hl; simpl;
      rewrite ?insert_id by done; try (by eexists).
    destruct (is_empty name); by eexists.
  - intros Hne. destruct a; simpl; unfold_ops;
      repeat (case_match; simplify_eq; simpl); rewrite ?lookup_insert_ne by done; done.
Qed.

Lemma mutable_borrow_is_exclusive_witness :
  ∃ t, t !! "x" = Some {| state := MutablyBorrowed; shared_borrows := 0 |} ∧
       ∃ d, perform Read "x" t = (false, d, t).
Proof.
  exists {[ "x" := {| state := MutablyBorrowed; shared_borrows := 0 |} ]}. split; [reflexivity|].
  apply (mutable_borrow_is_exclusive _ "x" {| state := MutablyBorrowed; shared_borrows := 0 |} Read "y");
    [reflexivity|reflexivity|discriminate].
Defined.

End Ownership.

Module DescriptorFacts.
Import Descriptors.

(** The size of a value of a valid type, as a mathematical integer. *)
Definition layout (d : TypeDescriptor) : Z :=
  match kind d with
  | KArray => extent d * scalarBytes (element d)
  | KSlice => 16
  | KEnum => 4
  | KOption => 1 + scalarBytes (element d)
  | KResult => 1 + Z.max (scalarBytes (ok d)) (scalarBytes (error d))
  | KRecord => foldr (λ f n, scalarBytes (field_kind f) + n) 0 (fields d)
  | k => scalarBytes k
  end.

Lemma scalarBytes_bounds k : 0 ≤ scalarBytes k ≤ 8.
Proof. destruct k; simpl; lia. Qed.

Lemma validPayload_scalar k : validPayload k = isScalar k.
Proof. by destruct k. Qed.

Lemma scalarBytes_pos k : isScalar k = true → 0 < scalarBytes k.
Proof. by destruct k. Qed.

Lemma checkedArrayBytes_spec n b :
  is_size n → 0 < n → 0 < b →
  checkedArrayBytes n b =
    if n * b <=? SIZE_MAX then (true, n * b, "")
    else (false, 0, "SHD3011 array storage size overflows size_t").
Proof.
  intros Hn Hn0 Hb. unfold checkedArrayBytes.
  destruct (Z.eqb_spec n 0); [lia|]. destruct (Z.eqb_spec b 0); [lia|]. simpl.
  destruct (Z.ltb_spec (SIZE_MAX / b) n) as [Hlt|Hge], (Z.leb_spec (n * b) SIZE_MAX) as [Hle|Hgt]; try done.
  - exfalso. assert (n ≤ SIZE_MAX / b) by (apply Z.div_le_lower_bound; lia). lia.
  - rewrite u64_id; [done|]. split; [nia|done].
  - exfalso. assert (b * (SIZE_MAX / b) ≤ SIZE_MAX) by (apply Z.mul_div_le; lia). nia.
Qed.

Lemma validate_fields_scalar names fs :
  (validate_fields names fs).1 = true → Forall (λ f, isScalar (field_kind f) = true) fs.
Proof.
  revert names. induction fs as [|f fs IH]; intros names; simpl; [constructor|].
  destruct (is_empty _ || _); [done|]. rewrite validPayload_scalar.
  destruct (isScalar (field_kind f)) eqn:Hs; simpl; [|done].
  intros H. constructor; [done|]. by eapply IH.
Qed.

Lemma validate_variants_diag names vs diag :
  validate_variants names vs = (true, diag) → diag = "".
Proof.
  revert names. induction vs as [|v vs IH]; intros names; simpl; [by intros [= <-]|].
  destruct (is_empty v || _); [done|]. apply IH.
Qed.

Lemma sum_fields_nonneg fs : 0 ≤ foldr (λ f n, scalarBytes (field_kind f) + n) 0 fs.
Proof. induction fs as [|f fs IH]; simpl; [lia|]. pose proof (scalarBytes_bounds (field_kind f)). lia. Qed.

Lemma record_bytes_spec bytes fs :
  is_size bytes →
  let n := bytes + foldr (λ f n, scalarBytes (field_kind f) + n) 0 fs in
  if n <=? SIZE_MAX then record_bytes bytes fs = (true, n, "")
  else (record_bytes bytes fs).1.1 = false ∧
       (record_bytes bytes fs).2 = "SHD3011 record storage size overflows size_t".
Proof.
  revert bytes. induction fs as [|f fs IH]; intros bytes Hb; simpl.
  { rewrite Z.add_0_r. destruct (Z.leb_spec bytes SIZE_MAX); [done|]. width. }
  pose proof (scalarBytes_bounds (field_kind f)) as Hf. pose proof (sum_fields_nonneg fs) as Hs.
  destruct (Z.ltb_spec (SIZE_MAX - scalarBytes (field_kind f)) bytes) as [Hlt|Hge].
  - destruct (Z.leb_spec (bytes + (scalarBytes (field_kind f) + foldr (λ f n, scalarBytes (field_kind f) + n) 0 fs)) SIZE_MAX);
      [lia|done].
  - rewrite u64_id by width. specialize (IH (bytes + scalarBytes (field_kind f)) ltac:(width)).
    by rewrite <- Z.add_assoc in IH.
Qed.

(** C27.  Storage layout is exact or refused: for a valid descriptor,
    [storageBytes] succeeds with the mathematical size of the type whenever
    that size fits [size_t]; otherwise (only a record can be so large) it
    fails with SHD3011, so no wrapped size is ever returned. *)
Theorem storageBytes_exact d :
  is_size (extent d) → (validate d).1 = true →
  if layout d <=? SIZE_MAX then storageBytes d = (true, layout d, "")
  else (storageBytes d).1.1 = false ∧
       (storageBytes d).2 = "SHD3011 record storage size overflows size_t".
Proof.
  intros Hext Hv. unfold storageBytes.
  destruct (validate d) as [valid diag] eqn:Hval; simpl in Hv; subst valid; simpl.
  unfold validate in Hval. unfold layout.
  destruct (kind d) eqn:Hk; simpl in *; simplify_eq; try done.
  - destruct (validPayload (element d)) eqn:Hp; simplify_eq/=.
    rewrite validPayload_scalar in Hp. apply scalarBytes_pos in Hp.
    destruct (Z.eqb_spec (extent d) 0); [done|].
    rewrite checkedArrayBytes_spec in * by (unfold is_size in *; lia).
    by destruct (Z.leb_spec (extent d * scalarBytes (element d)) SIZE_MAX).
  - by destruct (validPayload (element d)); simplify_eq/=.
  - destruct (is_empty (name d)); [done|]. destruct (fields d) as [|f fs] eqn:Hfs; [done|].
    pose proof (record_bytes_spec 0 (f :: fs) ltac:(width)) as Hr. exact Hr.
  - destruct (is_empty (name d)); [done|]. destruct (variants d) as [|v vs]; [done|].
    by rewrite (validate_variants_diag ∅ (v :: vs) _ Hval).
  - destruct (validPayload (element d)); simplify_eq/=. pose proof (scalarBytes_bounds (element d)).
    destruct (Z.leb_spec (1 + scalarBytes (element d)) SIZE_MAX); [done|width].
  - destruct (negb (validPayload (ok d)) || negb (validPayload (error d))); simplify_eq/=.
    pose proof (scalarBytes_bounds (ok d)). pose proof (scalarBytes_bounds (error d)).
    destruct (Z.leb_spec (1 + Z.max (scalarBytes (ok d)) (scalarBytes (error d))) SIZE_MAX); [|width].
    do 3 f_equal. destruct (Z.ltb_spec (scalarBytes (error d)) (scalarBytes (ok d))); lia.
Qed.

Definition wide_record : TypeDescriptor :=
  record "sample" [{| field_name := "a"; field_kind := KInt32 |}; {| field_name := "b"; field_kind := KFloat64 |}].

Lemma storageBytes_exact_witness :
  is_size (extent wide_record) ∧ (validate wide_record).1 = true ∧ storageBytes wide_record = (true, 12, "").
Proof.
  split; [vm_compute; split; congruence|]. split; [reflexivity|].
  apply (storageBytes_exact wide_record); [vm_compute; split; congruence | reflexivity].
Defined.

(** ** Assignability *)

Lemma same_fields_eq ts ss : length ts = length ss → (same_fields ts ss = true ↔ ts = ss).
Proof.
  revert ss. induction ts as [|[tn tk] ts IH]; intros [|[sn sk] ss]; simpl; try done.
  intros [= Hlen]. specialize (IH ss Hlen).
  destruct (decide (tn = sn)) as [->|]; [|rewrite bool_decide_eq_true_2 by done; split; [done|congruence]].
  destruct (decide (tk = sk)) as [->|];
    [|rewrite (bool_decide_eq_true_2 (tk ≠ sk)) by done; rewrite orb_true_r; split; [done|congruence]].
  rewrite !bool_decide_eq_false_2 by tauto. simpl. rewrite IH. split; congruence.
Qed.

(** Two valid descriptors describe the same type when the parts that the kind
    gives a meaning to agree. *)
Definition same_type (t s : TypeDescriptor) : Prop :=
  kind t = kind s ∧
  match kind t with
  | KArray => element t = element s ∧ extent t = extent s
  | KSlice | KOption => element t = element s
  | KRecord => name t = name s ∧ fields t = fields s
  | KEnum => name t = name s ∧ variants t = variants s
  | KResult => ok t = ok s ∧ error t = error s
  | _ => True
  end.

Lemma validate_named d :
  (validate d).1 = true → kind d = KRecord ∨ kind d = KEnum → is_empty (name d) = false.
Proof.
  unfold validate. intros Hv [Hk|Hk]; rewrite Hk in Hv; simpl in Hv; by destruct (is_empty (name d)).
Qed.

Lemma assignable_records (n1 n2 : string) fs1 fs2 :
  (if bool_decide (n1 ≠ n2) || bool_decide (length fs1 ≠ length fs2) then false
   else same_fields fs1 fs2) = true ↔ n1 = n2 ∧ fs1 = fs2.
Proof.
  destruct (decide (n1 = n2)) as [->|Hn].
  - rewrite (bool_decide_eq_false_2 (n2 ≠ n2)) by tauto. simpl.
    destruct (decide (length fs1 = length fs2)) as [Hl|Hl].
    + rewrite bool_decide_eq_false_2 by tauto. rewrite same_fields_eq by done. tauto.
    + rewrite bool_decide_eq_true_2 by done. split; [done|]. by intros [_ ->].
  - rewrite bool_decide_eq_true_2 by done. simpl. split; [done|]. tauto.
Qed.

Lemma isAssignable_spec t s :
  isAssignable t s = true ↔ (validate t).1 = true ∧ (validate s).1 = true ∧ same_type t s.
Proof.
  unfold isAssignable, same_type.
  pose proof (validate_named t) as Hname.
  destruct (validate t).1 eqn:Ht, (validate s).1 eqn:Hs; simpl; try (split; [done|tauto]).
  destruct (decide (kind t = kind s)) as [Hk|Hk].
  2: { rewrite bool_decide_eq_true_2 by done. split; [done|tauto]. }
  rewrite bool_decide_eq_false_2 by tauto. rewrite <- Hk.
  assert (∀ b P, (b = true ↔ P) → (b = true ↔ true = true ∧ true = true ∧ kind t = kind t ∧ P)) as Hsplit by tauto.
  apply Hsplit. destruct (kind t); simpl; rewrite ?Hname by auto; simpl;
    rewrite ?andb_true_iff, ?bool_decide_eq_true, ?Z.eqb_eq; try tauto.
  apply assignable_records.
Qed.

Lemma same_type_layout t s : same_type t s → layout t = layout s ∧ canonicalName t = canonicalName s.
Proof.
  unfold same_type, layout, canonicalName. intros [Hk H]. rewrite <- Hk.
  destruct (kind t); simpl; destruct_and?; split; congruence.
Qed.

Lemma same_type_sym t s : same_type t s → same_type s t.
Proof.
  unfold same_type. intros [Hk H]. split; [done|]. rewrite <- Hk.
  destruct (kind t); destruct_and?; split_and?; (done || congruence).
Qed.

Lemma same_type_trans t s r : same_type t s → same_type s r → same_type t r.
Proof.
  unfold same_type. intros [Hk H] [Hk' H']. split; [congruence|]. rewrite Hk in *.
  destruct (kind s); destruct_and?; split_and?; (done || congruence).
Qed.

(** Assignability is exactly agreement of valid types: it is reflexive on
    valid descriptors, symmetric and transitive, and two assignable types have
    the same canonical name and the same storage size, so an assignment the
    type system admits never copies between different layouts. *)
Theorem isAssignable_equivalence :
  (∀ d, isAssignable d d = (validate d).1) ∧
  (∀ t s, isAssignable t s = isAssignable s t) ∧
  (∀ t s r, isAssignable t s = true → isAssignable s r = true → isAssignable t r = true) ∧
  (∀ t s, isAssignable t s = true → canonicalName t = canonicalName s ∧ layout t = layout s).
Proof.
  split_and!.
  - intros d. apply eq_bool_prop_intro. rewrite !Is_true_true, isAssignable_spec.
    unfold same_type. destruct (kind d); tauto.
  - intros t s. apply eq_bool_prop_intro. rewrite !Is_true_true, !isAssignable_spec.
    pose proof (same_type_sym t s). pose proof (same_type_sym s t). tauto.
  - intros t s r. rewrite !isAssignable_spec. intros (? & ? & Hts) (? & ? & Hsr).
    split_and!; [done|done|]. by eapply same_type_trans.
  - intros t s. rewrite isAssignable_spec. intros (_ & _ & H). apply same_type_layout in H. tauto.
Qed.

(** The slice check is the mathematical bound: with [size_t] arguments,
    [checkedSliceRange] accepts exactly when [offset + length] does not exceed
    the owner, with no wrap-around in either direction. *)
Theorem checkedSliceRange_exact owner_extent offset len :
  is_size owner_extent → is_size offset → is_size len →
  (checkedSliceRange owner_extent offset len).1 = bool_decide (offset + len ≤ owner_extent).
Proof.
  intros Ho Hf Hl. unfold checkedSliceRange.
  destruct (Z.ltb_spec owner_extent offset); simpl.
  { rewrite bool_decide_eq_false_2; [done|]. unfold is_size in *. lia. }
  rewrite u64_id by (unfold is_size in *; lia).
  destruct (Z.ltb_spec (owner_extent - offset) len); case_bool_decide; simpl; lia || done.
Qed.

Lemma checkedSliceRange_exact_witness :
  is_size 10 ∧ is_size 4 ∧ (checkedSliceRange 10 4 6).1 = true ∧
  (checkedSliceRange 10 4 SIZE_MAX).1 = false.
Proof.
  split_and!; [vm_compute; split; congruence|vm_compute; split; congruence| |];
    (rewrite checkedSliceRange_exact; [reflexivity|vm_compute; split; congruence ..]).
Defined.

(** ** Checked conversion *)

(** The real number a finite [double] denotes lies in the range of int32. *)
Definition in_int32_interval (d : double) : Prop :=
  match d with
  | S754_zero _ => True
  | S754_finite s m e =>
      let v := if s then - Z.pos m else Z.pos m in
      INT32_MIN * 2 ^ (Z.max 0 (- e)) ≤ v * 2 ^ (Z.max 0 e) ≤ INT32_MAX * 2 ^ (Z.max 0 (- e))
  | _ => False
  end.

Lemma double_INT32_MAX : double_of_Z INT32_MAX = S754_finite false 9007199250546688 (-22).
Proof. vm_compute. reflexivity. Qed.

Lemma double_INT32_MIN : double_of_Z INT32_MIN = S754_finite true 4503599627370496 (-21).
Proof. vm_compute. reflexivity. Qed.

Ltac scale e :=
  first [ replace (Z.max 0 (- e)) with 0 by lia | replace (Z.max 0 (- e)) with (- e) by lia ];
  first [ replace (Z.max 0 e) with 0 by lia | replace (Z.max 0 e) with e by lia ];
  rewrite ?Z.pow_0_r, ?Z.mul_1_r.

(** Above the exponent of the largest int32 a normal value is too large, below
    it is small enough, whatever the mantissa. *)
Lemma magnitude_above m e k :
  2 ^ 52 ≤ Z.pos m → - 22 < k → k ≤ e →
  2 ^ (52 + k) * 2 ^ (Z.max 0 (- e)) ≤ Z.pos m * 2 ^ (Z.max 0 e).
Proof.
  intros Hm Hk He.
  rewrite <- Z.pow_add_r by lia.
  apply Z.le_trans with (2 ^ 52 * 2 ^ (Z.max 0 e)); [|apply Z.mul_le_mono_nonneg_r; lia].
  rewrite <- Z.pow_add_r by lia. apply Z.pow_le_mono_r; lia.
Qed.

Lemma magnitude_below m e k :
  Z.pos m < 2 ^ 53 → e ≤ k → k < 0 → - 53 ≤ k →
  Z.pos m * 2 ^ (Z.max 0 e) < 2 ^ (53 + k) * 2 ^ (Z.max 0 (- e)).
Proof.
  intros Hm He Hk Hk'. rewrite <- Z.pow_add_r by lia.
  replace (Z.max 0 e) with 0 by lia. rewrite Z.pow_0_r, Z.mul_1_r.
  eapply Z.lt_le_trans; [exact Hm|]. apply Z.pow_le_mono_r; lia.
Qed.

Lemma compare_cont_Z a b : Pos.compare_cont Eq a b = Z.compare (Z.pos a) (Z.pos b).
Proof. reflexivity. Qed.

Lemma float_range_check d :
  valid_binary 53 1024 d = true → isfinite d = true →
  dltb d (double_of_Z INT32_MIN) || dltb (double_of_Z INT32_MAX) d = false ↔ in_int32_interval d.
Proof.
  intros Hv Hf. rewrite double_INT32_MAX, double_INT32_MIN.
  destruct d as [s|s| |s m e]; try done.
  apply valid_double_mantissa in Hv as [Hhi Hlo].
  unfold dltb, SFltb, in_int32_interval, SFcompare; cbv beta iota.
  pose proof (Z.pow_pos_nonneg 2 (Z.max 0 (- e)) ltac:(lia) ltac:(lia)) as Hp1.
  pose proof (Z.pow_pos_nonneg 2 (Z.max 0 e) ltac:(lia) ltac:(lia)) as Hp2.
  destruct s; cbv beta iota; rewrite ?orb_false_r.
  - destruct (Z.compare_spec e (-21)) as [->|Hlt|Hgt]; cbn [orb].
    + replace (2 ^ Z.max 0 (- -21)) with 2097152 by reflexivity.
      replace (2 ^ Z.max 0 (-21)) with 1 by reflexivity.
      rewrite compare_cont_Z. unfold_ranges.
      destruct (Z.compare_spec (Z.pos m) 4503599627370496); simpl CompOpp; cbv iota; split; intros; lia.
    + pose proof (magnitude_below m e (-22) Hhi ltac:(lia) ltac:(lia) ltac:(lia)) as Hb.
      change (2 ^ (53 + -22)) with 2147483648 in Hb.
      unfold_ranges. split; [intros _; nia | reflexivity].
    + pose proof (magnitude_above m e (-20) (Hlo ltac:(lia)) ltac:(lia) ltac:(lia)) as Hb.
      change (2 ^ (52 + -20)) with 4294967296 in Hb.
      unfold_ranges. split; [discriminate | nia].
  - destruct (Z.compare_spec (-22) e) as [<-|Hlt|Hgt]; cbn [orb].
    + replace (2 ^ Z.max 0 (- -22)) with 4194304 by reflexivity.
      replace (2 ^ Z.max 0 (-22)) with 1 by reflexivity.
      rewrite compare_cont_Z. unfold_ranges.
      destruct (Z.compare_spec 9007199250546688 (Z.pos m)); cbv iota; split; intros; lia.
    + pose proof (magnitude_above m e (-21) (Hlo ltac:(lia)) ltac:(lia) ltac:(lia)) as Hb.
      change (2 ^ (52 + -21)) with 2147483648 in Hb.
      unfold_ranges. split; [discriminate | nia].
    + pose proof (magnitude_below m e (-23) Hhi ltac:(lia) ltac:(lia) ltac:(lia)) as Hb.
      change (2 ^ (53 + -23)) with 1073741824 in Hb.
      unfold_ranges. split; [intros _; nia | reflexivity].
Qed.

Lemma trunc_bounds s m e :
  in_int32_interval (S754_finite s m e) → is_int32 (dtrunc (S754_finite s m e)).
Proof.
  unfold in_int32_interval, dtrunc, is_int32. destruct (Z.leb_spec 0 e) as [He|He].
  - replace (Z.max 0 (- e)) with 0 by lia. replace (Z.max 0 e) with e by lia.
    rewrite Z.pow_0_r, !Z.mul_1_r. destruct s; lia.
  - replace (Z.max 0 (- e)) with (- e) by lia. replace (Z.max 0 e) with 0 by lia.
    rewrite Z.pow_0_r, Z.mul_1_r.
    pose proof (Z.pow_pos_nonneg 2 (- e) ltac:(lia) ltac:(lia)) as Hp.
    set (p := 2 ^ (- e)) in *. clearbody p.
    destruct s; intros [Hlo Hhi].
    + assert (Z.pos m / p ≤ - INT32_MIN) by (apply Z.div_le_upper_bound; lia).
      assert (0 ≤ Z.pos m / p) by (apply Z.div_pos; lia). unfold_ranges. lia.
    + assert (Z.pos m / p ≤ INT32_MAX) by (apply Z.div_le_upper_bound; lia).
      assert (0 ≤ Z.pos m / p) by (apply Z.div_pos; lia). unfold_ranges. lia.
Qed.

(** The checked conversion from [double] succeeds exactly on the finite
    values whose real number lies in the int32 range, and then returns the
    value truncated toward zero, which is an int32: the cast the code performs
    is always defined. *)
Theorem checkedFloatToInt_exact d :
  valid_binary 53 1024 d = true →
  (in_int32_interval d → checkedFloatToInt d = (Some (dtrunc d), "") ∧ is_int32 (dtrunc d)) ∧
  (¬ in_int32_interval d → (checkedFloatToInt d).1 = None).
Proof.
  intros Hv. unfold checkedFloatToInt. destruct (isfinite d) eqn:Hf; cbn [negb].
  - pose proof (float_range_check d Hv Hf) as Hr. split; intros Hin.
    + rewrite (proj2 Hr Hin). split; [reflexivity|].
      destruct d as [s|s| |s m e]; try discriminate; [split; vm_compute; congruence|]. by apply trunc_bounds.
    + destruct (dltb _ _ || dltb _ _); [reflexivity|]. tauto.
  - split; intros Hin; [|reflexivity]. destruct d; simpl in *; try discriminate; contradiction.
Qed.

Lemma checkedFloatToInt_exact_witness :
  valid_binary 53 1024 (ddiv (double_of_Z (-7)) (double_of_Z 2)) = true ∧
  (checkedFloatToInt (ddiv (double_of_Z (-7)) (double_of_Z 2))).1 = Some (-3).
Proof.
  split; [vm_compute; reflexivity|].
  destruct (checkedFloatToInt_exact (ddiv (double_of_Z (-7)) (double_of_Z 2))) as [H _];
    [vm_compute; reflexivity|].
  destruct H as [-> _]; [vm_compute; split; congruence | vm_compute; reflexivity].
Defined.

End DescriptorFacts.
