(* ===== verification/Ast.v ===== *)
(** Component: the abstract syntax tree (ast/AST.h and ast/AST.cpp).

    A C++ node is a constructor that carries the address of the node as a
    [node] (the key of the source-range table) and the fields of the class.
    A pointer field that the grammar always fills is a plain field; one that
    it can leave null is an [option]. *)
From S2P Require Import Prelude CxxInt CxxString CxxFloat.
Open Scope string_scope.
Open Scope Z_scope.

Abbreviation node := N (only parsing).

(** * Types and declarations *)

Inductive ShortType := TInt | TString | TVoid | TBoolean | TFloat.

#[export] Instance ShortType_eq_dec : EqDecision ShortType.
Proof. solve_decision. Defined.

Record AST_TYPED_SCALAR_DECLARATION := { ts_name : string; ts_type : ShortType }.

Record AST_TYPED_ARRAY_DECLARATION := { ta_name : string; ta_size : Z; ta_type : ShortType }.

Record AST_DATA_DECLARATION_BLOCK := {
  decl_node : node;
  single_ints : list string;
  array_ints : list (string * Z);
  typed_scalars : list AST_TYPED_SCALAR_DECLARATION;
  typed_arrays : list AST_TYPED_ARRAY_DECLARATION;
}.

(** [new AST_DATA_DECLARATION_BLOCK()] *)
Definition empty_decl_block (n : node) : AST_DATA_DECLARATION_BLOCK :=
  {| decl_node := n; single_ints := []; array_ints := []; typed_scalars := []; typed_arrays := [] |}.

Definition push_back_scalar (name : string) (b : AST_DATA_DECLARATION_BLOCK) : AST_DATA_DECLARATION_BLOCK :=
  {| decl_node := decl_node b;
     single_ints := single_ints b ++ [name];
     array_ints := array_ints b;
     typed_scalars := typed_scalars b ++ [{| ts_name := name; ts_type := TInt |}];
     typed_arrays := typed_arrays b |}.

Definition push_back_array (name : string) (size : Z) (b : AST_DATA_DECLARATION_BLOCK) : AST_DATA_DECLARATION_BLOCK :=
  {| decl_node := decl_node b;
     single_ints := single_ints b;
     array_ints := array_ints b ++ [(name, size)];
     typed_scalars := typed_scalars b;
     typed_arrays := typed_arrays b ++ [{| ta_name := name; ta_size := size; ta_type := TInt |}] |}.

Definition push_back_block (d b : AST_DATA_DECLARATION_BLOCK) : AST_DATA_DECLARATION_BLOCK :=
  {| decl_node := decl_node b;
     single_ints := single_ints b ++ single_ints d;
     array_ints := array_ints b ++ array_ints d;
     typed_scalars := typed_scalars b ++ typed_scalars d;
     typed_arrays := typed_arrays b ++ typed_arrays d |}.

Definition setType (type : ShortType) (b : AST_DATA_DECLARATION_BLOCK) : AST_DATA_DECLARATION_BLOCK :=
  {| decl_node := decl_node b;
     single_ints := single_ints b;
     array_ints := array_ints b;
     typed_scalars := map (λ e, {| ts_name := ts_name e; ts_type := type |}) (typed_scalars b);
     typed_arrays := map (λ e, {| ta_name := ta_name e; ta_size := ta_size e; ta_type := type |}) (typed_arrays b) |}.

(** * Expressions *)

Inductive binary_op :=
| B_ERROR | PLUS | MINUS | MULTIPLY | DIVIDE | MODULO | LESS | GREATER
| LESS_OR_EQUAL | GREATER_OR_EQUAL | EQUAL | NOT_EQUAL | OR | AND.

Inductive unary_op := U_ERROR | UMINUS.

#[export] Instance binary_op_eq_dec : EqDecision binary_op.
Proof. solve_decision. Defined.
#[export] Instance unary_op_eq_dec : EqDecision unary_op.
Proof. solve_decision. Defined.

(** The operator text the grammar passes to the constructors. *)
Definition binary_op_of_string (op : string) : binary_op :=
  if String.eqb op "+" then PLUS
  else if String.eqb op "-" then MINUS
  else if String.eqb op "/" then DIVIDE
  else if String.eqb op "*" then MULTIPLY
  else if String.eqb op "%" then MODULO
  else if String.eqb op "<" then LESS
  else if String.eqb op ">" then GREATER
  else if String.eqb op ">=" then GREATER_OR_EQUAL
  else if String.eqb op "<=" then LESS_OR_EQUAL
  else if String.eqb op "==" then EQUAL
  else if String.eqb op "!=" then NOT_EQUAL
  else if String.eqb op "||" then OR
  else if String.eqb op "&&" then AND
  else B_ERROR.

Definition unary_op_of_string (op : string) : unary_op :=
  if String.eqb op "-" then UMINUS else U_ERROR.

Inductive AST_EXPRESSION_RULE :=
| AST_LITERAL (n : node) (int_literal : Z)
| AST_BOOL_LITERAL (n : node) (value : bool)
| AST_FLOAT_LITERAL (n : node) (value : double)
| AST_STRING_LITERAL (n : node) (string_literal : string)
| AST_SIMPLE_VARIABLE (n : node) (variable_name : string)
| AST_ARRAY_VARIABLE (n : node) (array_name : string) (index : AST_EXPRESSION_RULE)
| AST_UNARY_EXPRESSION_RULE (n : node) (expression : AST_EXPRESSION_RULE) (op : unary_op)
| AST_BINARY_EXPRESSION_RULE (n : node) (left right : AST_EXPRESSION_RULE) (op : binary_op)
| AST_FUNCTION_CALL_EXPRESSION (n : node) (function_name : string) (arguments : list AST_EXPRESSION_RULE).

(** The subclass [AST_VARIABLE_RULE]: what can be assigned or read into. *)
Inductive AST_VARIABLE_RULE :=
| V_SIMPLE (n : node) (variable_name : string)
| V_ARRAY (n : node) (array_name : string) (index : AST_EXPRESSION_RULE).

Definition var_expression (v : AST_VARIABLE_RULE) : AST_EXPRESSION_RULE :=
  match v with
  | V_SIMPLE n x => AST_SIMPLE_VARIABLE n x
  | V_ARRAY n x i => AST_ARRAY_VARIABLE n x i
  end.

(** [variable->type == array] *)
Definition var_is_array (v : AST_VARIABLE_RULE) : bool :=
  match v with V_SIMPLE _ _ => false | V_ARRAY _ _ _ => true end.

Definition expression_node (e : AST_EXPRESSION_RULE) : node :=
  match e with
  | AST_LITERAL n _ | AST_BOOL_LITERAL n _ | AST_FLOAT_LITERAL n _ | AST_STRING_LITERAL n _
  | AST_SIMPLE_VARIABLE n _ | AST_ARRAY_VARIABLE n _ _ | AST_UNARY_EXPRESSION_RULE n _ _
  | AST_BINARY_EXPRESSION_RULE n _ _ _ | AST_FUNCTION_CALL_EXPRESSION n _ _ => n
  end.

(** * Payloads of the AI and Green AI declarations *)

Record QualityGuardrail := { qg_metric : string; qg_op : string; qg_threshold : double }.

Record ModelDeclarationData := {
  md_name : string; md_format : string; md_path : string; md_task : string;
  md_precision : string; md_input_shape : string; md_output_shape : string;
  md_backend_preference : list string;
  md_compact : bool;
  md_quality_guardrail : option QualityGuardrail;
}.

Record TensorDeclarationData := {
  td_name : string; td_element_type : string; td_shape_csv : string;
  td_dynamic : bool; td_rank : Z; td_total_elements : Z;
}.

Record GreenAIContractData := {
  gc_name : string; gc_functional_unit : string; gc_success_criteria : string;
  gc_measurement_quality : string; gc_data_quality : string; gc_carbon_factor_scope : string;
  gc_evidence_retention : string; gc_claims_mode : string;
  gc_boundary : list string;
  gc_carbon_factor : double; gc_energy_budget_j : double; gc_carbon_budget_gco2e : double;
  gc_has_functional_unit : bool; gc_has_success_criteria : bool; gc_has_boundary : bool;
  gc_has_mq : bool; gc_has_dq : bool; gc_has_carbon_factor : bool;
  gc_quality_guardrail : option QualityGuardrail;
}.

Record GreenAIMeasurementData := {
  gm_workload : string; gm_backend : string; gm_inferences : Z; gm_watts : double; gm_seconds : double;
}.

Inductive C3EcoDeclarationKind :=
| CertificationProfile | Certification | FunctionalUnit | Workload | Boundary | MeasurementPlan
| AILifecycle | RAGPipeline | TokenBudget | ModelRouting | Guardrails.

#[export] Instance C3EcoDeclarationKind_eq_dec : EqDecision C3EcoDeclarationKind.
Proof. solve_decision. Defined.

Definition c3EcoDeclarationKindName (k : C3EcoDeclarationKind) : string :=
  match k with
  | CertificationProfile => "certification_profile"
  | Certification => "certification"
  | FunctionalUnit => "functional_unit"
  | Workload => "workload"
  | Boundary => "boundary"
  | MeasurementPlan => "measurement_plan"
  | AILifecycle => "ai_lifecycle"
  | RAGPipeline => "rag_pipeline"
  | TokenBudget => "token_budget"
  | ModelRouting => "model_routing"
  | Guardrails => "guardrails"
  end.

Inductive C3EcoValueKind := VString | VIdentifier | VInteger | VDecimal | VBoolean.

#[export] Instance C3EcoValueKind_eq_dec : EqDecision C3EcoValueKind.
Proof. solve_decision. Defined.

Definition c3EcoValueKindName (k : C3EcoValueKind) : string :=
  match k with
  | VString => "string"
  | VIdentifier => "identifier"
  | VInteger => "integer"
  | VDecimal => "decimal"
  | VBoolean => "boolean"
  end.

Record C3EcoValueData := { cv_kind : C3EcoValueKind; cv_text : string }.

Record C3EcoFieldData := { cf_name : string; cf_values : list C3EcoValueData }.

Record C3EcoDeclarationData := {
  cd_kind : C3EcoDeclarationKind; cd_name : string; cd_fields : list C3EcoFieldData;
}.

(** * Statements *)

Inductive AST_PRINTABLE_ITEM :=
| PrintString (n : node) (string_literal : string)
| PrintExpression (expression : AST_EXPRESSION_RULE).

Inductive AST_STATEMENT_RULE :=
| AST_DECLARATION_STATEMENT (decl : AST_DATA_DECLARATION_BLOCK)
| AST_EXPRESSION_STATEMENT_RULE (n : node) (expression : AST_EXPRESSION_RULE)
| AST_FUNCTION_CALL_RULE (n : node) (function_name : string) (parameters : list AST_VARIABLE_RULE)
| AST_BREAK (n : node)
| AST_CONTINUE (n : node)
| AST_RETURN_STATEMENT (n : node) (expression : option AST_EXPRESSION_RULE)
| AST_ASSIGNMENT_RULE (n : node) (variable : AST_VARIABLE_RULE) (expression : AST_EXPRESSION_RULE)
| AST_BLOCK_STATEMENT (block : AST_STATEMENTS_BLOCK)
| AST_IF_STATEMENT (n : node) (condition : AST_EXPRESSION_RULE) (if_block : AST_STATEMENTS_BLOCK)
| AST_IF_ELSE_STATEMENT (n : node) (condition : AST_EXPRESSION_RULE) (if_block else_block : AST_STATEMENTS_BLOCK)
| AST_FOR_LOOP_STATEMENT_RULE (n : node) (variable : AST_VARIABLE_RULE)
    (from step to : AST_EXPRESSION_RULE) (for_block : AST_STATEMENTS_BLOCK)
| AST_WHILE_LOOP_STATEMENT_RULE (n : node) (condition : AST_EXPRESSION_RULE) (while_block : AST_STATEMENTS_BLOCK)
| AST_GOTO_STATEMENT_RULE (n : node) (condition : option AST_EXPRESSION_RULE) (label : string)
| AST_READ_RULE (n : node) (variables : list AST_VARIABLE_RULE)
| AST_PRINT_RULE (n : node) (printables : list AST_PRINTABLE_ITEM)
| AST_LABEL_RULE (n : node) (label : string)
| AST_GREENAI_REPORT_RULE (n : node) (workload_name : string) (inferences watts seconds : AST_EXPRESSION_RULE)
| AST_AI_INFER_RULE (n : node) (model_path shape_csv input_csv : string)
| AST_MODEL_DECLARATION (n : node) (data : ModelDeclarationData)
| AST_TENSOR_DECLARATION (n : node) (data : TensorDeclarationData)
| AST_GREENAI_CONTRACT (n : node) (data : GreenAIContractData)
| AST_GREENAI_MEASUREMENT (n : node) (data : GreenAIMeasurementData)
| AST_C3ECO_DECLARATION (n : node) (data : C3EcoDeclarationData)
| AST_INFER_STATEMENT (n : node) (model_name input_name output_name : string)
with AST_STATEMENTS_BLOCK :=
| Block (n : node) (lexical_scope : bool) (statements : list AST_STATEMENT_RULE).

Definition statements (b : AST_STATEMENTS_BLOCK) : list AST_STATEMENT_RULE :=
  match b with Block _ _ ss => ss end.
Definition lexical_scope (b : AST_STATEMENTS_BLOCK) : bool :=
  match b with Block _ l _ => l end.

(** [dynamic_cast<AST_LABEL_RULE *>] *)
Definition as_label (s : AST_STATEMENT_RULE) : option string :=
  match s with AST_LABEL_RULE _ l => Some l | _ => None end.

Definition statement_node (s : AST_STATEMENT_RULE) : node :=
  match s with
  | AST_DECLARATION_STATEMENT d => decl_node d
  | AST_EXPRESSION_STATEMENT_RULE n _ | AST_FUNCTION_CALL_RULE n _ _ | AST_BREAK n | AST_CONTINUE n
  | AST_RETURN_STATEMENT n _ | AST_ASSIGNMENT_RULE n _ _ | AST_IF_STATEMENT n _ _
  | AST_IF_ELSE_STATEMENT n _ _ _ | AST_FOR_LOOP_STATEMENT_RULE n _ _ _ _ _
  | AST_WHILE_LOOP_STATEMENT_RULE n _ _ | AST_GOTO_STATEMENT_RULE n _ _ | AST_READ_RULE n _
  | AST_PRINT_RULE n _ | AST_LABEL_RULE n _ | AST_GREENAI_REPORT_RULE n _ _ _ _
  | AST_AI_INFER_RULE n _ _ _ | AST_MODEL_DECLARATION n _ | AST_TENSOR_DECLARATION n _
  | AST_GREENAI_CONTRACT n _ | AST_GREENAI_MEASUREMENT n _ | AST_C3ECO_DECLARATION n _
  | AST_INFER_STATEMENT n _ _ _ => n
  | AST_BLOCK_STATEMENT (Block n _ _) => n
  end.

(** * Programs *)

Record AST_FUNCTION_RULE := {
  fn_node : node;
  function_name : string;
  fn_type : ShortType;
  parameters : AST_DATA_DECLARATION_BLOCK;
  block_statement : AST_STATEMENTS_BLOCK;
}.

Record AST_PROGRAM := {
  prog_node : node;
  decl_block : AST_DATA_DECLARATION_BLOCK;
  functions : list AST_FUNCTION_RULE;
  code_block : AST_STATEMENTS_BLOCK;
}.

(** The counted loop without a step: [implicit_step_one] is a static literal
    that the parser never locates. *)
Definition implicit_step_node : node := 0%N.
Definition for_loop_without_step (n : node) (variable : AST_VARIABLE_RULE)
    (from to : AST_EXPRESSION_RULE) (b : AST_STATEMENTS_BLOCK) : AST_STATEMENT_RULE :=
  AST_FOR_LOOP_STATEMENT_RULE n variable from (AST_LITERAL implicit_step_node 1) to b.

(** * Induction over the tree *)

Section ExpressionInduction.
Context (P : AST_EXPRESSION_RULE → Prop).
Hypothesis literal : ∀ n z, P (AST_LITERAL n z).
Hypothesis bool_literal : ∀ n b, P (AST_BOOL_LITERAL n b).
Hypothesis float_literal : ∀ n d, P (AST_FLOAT_LITERAL n d).
Hypothesis string_literal : ∀ n s, P (AST_STRING_LITERAL n s).
Hypothesis simple_variable : ∀ n x, P (AST_SIMPLE_VARIABLE n x).
Hypothesis array_variable : ∀ n x i, P i → P (AST_ARRAY_VARIABLE n x i).
Hypothesis unary : ∀ n e op, P e → P (AST_UNARY_EXPRESSION_RULE n e op).
Hypothesis binary : ∀ n e1 e2 op, P e1 → P e2 → P (AST_BINARY_EXPRESSION_RULE n e1 e2 op).
Hypothesis call : ∀ n f args, Forall P args → P (AST_FUNCTION_CALL_EXPRESSION n f args).

Lemma expression_induction e : P e.
Proof using All.
  revert e. fix IH 1. intros [n z|n b|n d|n s|n x|n x i|n e op|n e1 e2 op|n f args].
  - apply literal.
  - apply bool_literal.
  - apply float_literal.
  - apply string_literal.
  - apply simple_variable.
  - apply array_variable, IH.
  - apply unary, IH.
  - apply binary; apply IH.
  - apply call. induction args as [|a args IHargs]; constructor; [apply IH|exact IHargs].
Qed.
End ExpressionInduction.

Section StatementInduction.
Context (P : AST_STATEMENT_RULE → Prop) (Q : AST_STATEMENTS_BLOCK → Prop).
(** The statements with no block inside. *)
Definition atomic (s : AST_STATEMENT_RULE) : bool :=
  match s with
  | AST_BLOCK_STATEMENT _ | AST_IF_STATEMENT _ _ _ | AST_IF_ELSE_STATEMENT _ _ _ _
  | AST_FOR_LOOP_STATEMENT_RULE _ _ _ _ _ _ | AST_WHILE_LOOP_STATEMENT_RULE _ _ _ => false
  | _ => true
  end.
Hypothesis atom : ∀ s, atomic s = true → P s.
Hypothesis block_case : ∀ b, Q b → P (AST_BLOCK_STATEMENT b).
Hypothesis if_case : ∀ n c b, Q b → P (AST_IF_STATEMENT n c b).
Hypothesis if_else_case : ∀ n c b1 b2, Q b1 → Q b2 → P (AST_IF_ELSE_STATEMENT n c b1 b2).
Hypothesis for_case : ∀ n v from step to b, Q b → P (AST_FOR_LOOP_STATEMENT_RULE n v from step to b).
Hypothesis while_case : ∀ n c b, Q b → P (AST_WHILE_LOOP_STATEMENT_RULE n c b).
Hypothesis statements_case : ∀ n l ss, Forall P ss → Q (Block n l ss).

Lemma statement_block_induction : (∀ s, P s) ∧ (∀ b, Q b).
Proof using All.
  assert (∀ s, P s) as HP.
  { fix IH 1.
    assert (∀ b, Q b) as IHb.
    { intros [n l ss]. apply statements_case. induction ss as [|s ss IHss]; constructor; [apply IH|exact IHss]. }
    intros s. destruct s.
    all: first [apply block_case, IHb | apply if_case, IHb | apply if_else_case; apply IHb
               | apply for_case, IHb | apply while_case, IHb | apply atom; reflexivity]. }
  split; [exact HP|]. intros [n l ss]. apply statements_case. induction ss; constructor; auto.
Qed.
End StatementInduction.

(** * The declaration block invariant

    Semantic analysis and the interpreter read the legacy vectors
    [single_ints]/[array_ints] in some places and the typed ones in others;
    they agree because every operation keeps them in step. *)
Definition decl_block_ok (b : AST_DATA_DECLARATION_BLOCK) : Prop :=
  single_ints b = map ts_name (typed_scalars b) ∧
  array_ints b = map (λ e, (ta_name e, ta_size e)) (typed_arrays b).

Definition decl_block_okb (b : AST_DATA_DECLARATION_BLOCK) : bool :=
  bool_decide (single_ints b = map ts_name (typed_scalars b)) &&
  bool_decide (array_ints b = map (λ e, (ta_name e, ta_size e)) (typed_arrays b)).

Lemma decl_block_okb_spec b : decl_block_okb b = true ↔ decl_block_ok b.
Proof. unfold decl_block_okb, decl_block_ok. rewrite andb_true_iff, !bool_decide_eq_true. done. Qed.

(** The operations of the grammar actions on a declaration block. *)
Inductive decl_built : AST_DATA_DECLARATION_BLOCK → Prop :=
| built_new n : decl_built (empty_decl_block n)
| built_scalar b x : decl_built b → decl_built (push_back_scalar x b)
| built_array b x k : decl_built b → decl_built (push_back_array x k b)
| built_block b d : decl_built b → decl_built d → decl_built (push_back_block d b)
| built_type b t : decl_built b → decl_built (setType t b).

(** Every declaration block that the grammar actions can build keeps the
    legacy name vectors and the typed vectors in step: same names, same order,
    same sizes. *)
Theorem decl_block_vectors_agree b : decl_built b → decl_block_ok b.
Proof.
  unfold decl_block_ok.
  induction 1 as [n|b x _ [Hs Ha]|b x k _ [Hs Ha]|b d _ [Hs Ha] _ [Hs' Ha']|b t _ [Hs Ha]]; simpl.
  - done.
  - rewrite map_app, Hs. done.
  - rewrite map_app, Ha. done.
  - rewrite !map_app, Hs, Ha, Hs', Ha'. done.
  - rewrite !map_map. done.
Qed.

Lemma decl_block_vectors_agree_witness :
  let b := setType TFloat (push_back_array "a" 3 (push_back_scalar "x" (empty_decl_block 1%N))) in
  decl_built b ∧ decl_block_ok b.
Proof.
  split; [|apply decl_block_vectors_agree]; repeat constructor.
Defined.
