(* ===== verification/AiTypes.v ===== *)
(** Component: the shared AI runtime types (ai_runtime/AI_Types.h and .cpp):
    names of formats, precisions and backends, tensor shapes and buffers. *)
From Stdlib Require Import SpecFloat.
From S2P Require Import Prelude CxxInt CxxString CxxFloat.
Open Scope string_scope.
Open Scope Z_scope.

Inductive ElementType :=
| Float32 | Float16 | BFloat16 | Int8 | Int4 | Int32 | ElementUnknown.
Inductive ModelFormat := Onnx | TensorRTEngine | TorchScript | OpenVINOIR | GGUF | FormatUnknown.
Inductive BackendKind :=
| TensorRT | OnnxRuntimeTensorRT | OnnxRuntimeCUDA | OnnxRuntimeCPU | OpenVINO | LibTorch | LlamaCpp | Fallback.
Inductive InferenceStatus := Success | NotExecuted | BackendUnavailable | InvalidInput | RuntimeError.

#[export] Instance ElementType_eq_dec : EqDecision ElementType.
Proof. solve_decision. Defined.
#[export] Instance ModelFormat_eq_dec : EqDecision ModelFormat.
Proof. solve_decision. Defined.
#[export] Instance BackendKind_eq_dec : EqDecision BackendKind.
Proof. solve_decision. Defined.
#[export] Instance InferenceStatus_eq_dec : EqDecision InferenceStatus.
Proof. solve_decision. Defined.

Record TensorSpec := {
  tn_name : string; element_type : ElementType; shape : list Z; dynamic : bool; element_count : Z;
}.

(** [external_f32_data] is [None] for a null pointer. *)
Record TensorBuffer := {
  spec : TensorSpec;
  f32_data : list spec_float;
  i8_data : list Z;
  external_f32_data : option (list spec_float);
  external_f32_count : Z;
  external_f32_bound : bool;
}.

Definition bindExternalF32 (data : option (list spec_float)) (count : Z) (b : TensorBuffer) : TensorBuffer :=
  {| spec := spec b; f32_data := []; i8_data := i8_data b;
     external_f32_data := data; external_f32_count := count; external_f32_bound := true |}.

Definition clearExternalF32 (b : TensorBuffer) : TensorBuffer :=
  {| spec := spec b; f32_data := f32_data b; i8_data := i8_data b;
     external_f32_data := None; external_f32_count := 0; external_f32_bound := false |}.

Definition hasF32 (b : TensorBuffer) : bool :=
  external_f32_bound b || negb (bool_decide (f32_data b = [])).

Definition f32Data (b : TensorBuffer) : option (list spec_float) :=
  if external_f32_bound b then external_f32_data b else Some (f32_data b).

Definition f32Size (b : TensorBuffer) : Z :=
  if external_f32_bound b then external_f32_count b else Z.of_nat (length (f32_data b)).

Record ModelSpec := {
  ms_name : string; ms_path : string; ms_format : ModelFormat; ms_task : string; ms_precision : string;
  ms_input : TensorSpec; ms_output : TensorSpec;
  ms_backend_preference : list BackendKind;
  ms_compact : bool; ms_allow_fallback : bool;
  ms_quality_metric : string; ms_quality_op : string; ms_quality_threshold : double;
}.

Record BackendCapabilities := {
  bc_kind : BackendKind; bc_name : string; bc_available : bool;
  supports_onnx : bool; supports_engine : bool; supports_torchscript : bool;
  supports_openvino_ir : bool; supports_gguf : bool;
  supported_precisions : list string; unavailable_reason : string;
}.

Record InferenceResult := {
  ir_status : InferenceStatus; ir_backend : BackendKind;
  backend_name : string; provider_name : string; reason : string;
  output_f32 : list spec_float;
  evidence_json_fragment : string; telemetry_json_fragment : string;
  hardware_inventory_json : string; hardware_selection_json : string;
  selected_device_class : string; selected_device_id : string;
  latency_ns : Z; input_elements : Z; output_elements : Z;
  measured_energy_kwh : double; measured_energy_available : bool;
}.

(** The member initialisers. *)
Definition no_inference : InferenceResult := {|
  ir_status := NotExecuted; ir_backend := Fallback; backend_name := "fallback"; provider_name := "none";
  reason := "backend_not_available"; output_f32 := [];
  evidence_json_fragment := ""; telemetry_json_fragment := "";
  hardware_inventory_json := "{}"; hardware_selection_json := "{}";
  selected_device_class := "none"; selected_device_id := "none";
  latency_ns := 0; input_elements := 0; output_elements := 0;
  measured_energy_kwh := dzero; measured_energy_available := false |}.

Definition no_tensor_spec : TensorSpec :=
  {| tn_name := ""; element_type := ElementUnknown; shape := []; dynamic := false; element_count := 0 |}.

Definition no_model_spec : ModelSpec := {|
  ms_name := ""; ms_path := ""; ms_format := FormatUnknown; ms_task := ""; ms_precision := "";
  ms_input := no_tensor_spec; ms_output := no_tensor_spec; ms_backend_preference := [];
  ms_compact := false; ms_allow_fallback := true;
  ms_quality_metric := ""; ms_quality_op := ""; ms_quality_threshold := dzero |}.

Definition no_tensor_buffer : TensorBuffer := {|
  spec := no_tensor_spec; f32_data := []; i8_data := [];
  external_f32_data := None; external_f32_count := 0; external_f32_bound := false |}.

(** * Names *)

Definition norm (s : string) : string :=
  string_map (λ c, if (c =? "-")%char then "_"%char else tolower c) s.

Definition is_blank (c : ascii) : bool :=
  ((c =? " ") || (c =? "009") || (c =? "013") || (c =? "010"))%char.

Definition trim (s : string) : string := drop_while_end is_blank (drop_while is_blank s).

Definition parseInt64NoThrow (token : string) : option Z :=
  let t := trim token in
  if is_empty t then None
  else
    let r := strtoll (c_str t) in
    if st_erange r || negb (st_converted r) || negb (is_empty (st_rest r)) then None
    else Some (st_value r).

Definition parseElementType (v : string) : ElementType :=
  let s := norm v in
  if String.eqb s "float" || String.eqb s "float32" || String.eqb s "f32" then Float32
  else if String.eqb s "float16" || String.eqb s "fp16" || String.eqb s "f16" then Float16
  else if String.eqb s "bfloat16" || String.eqb s "bf16" then BFloat16
  else if String.eqb s "int8" then Int8
  else if String.eqb s "int4" then Int4
  else if String.eqb s "int32" || String.eqb s "int" then Int32
  else ElementUnknown.

Definition parseModelFormat (v : string) : ModelFormat :=
  let s := norm v in
  if String.eqb s "onnx" then Onnx
  else if String.eqb s "engine" || String.eqb s "tensorrt" || String.eqb s "tensorrt_engine" then TensorRTEngine
  else if String.eqb s "torchscript" || String.eqb s "torch" then TorchScript
  else if String.eqb s "openvino_ir" || String.eqb s "openvino" then OpenVINOIR
  else if String.eqb s "gguf" then GGUF
  else FormatUnknown.

Definition parseBackendKind (v : string) : BackendKind :=
  let s := norm v in
  if String.eqb s "tensorrt" then TensorRT
  else if String.eqb s "onnxruntime_tensorrt" then OnnxRuntimeTensorRT
  else if String.eqb s "onnxruntime_cuda" then OnnxRuntimeCUDA
  else if String.eqb s "onnxruntime" || String.eqb s "onnxruntime_cpu" then OnnxRuntimeCPU
  else if String.eqb s "openvino" then OpenVINO
  else if String.eqb s "libtorch" then LibTorch
  else if String.eqb s "llamacpp" || String.eqb s "llama_cpp" || String.eqb s "llama.cpp" then LlamaCpp
  else Fallback.

Definition backendKindToString (k : BackendKind) : string :=
  match k with
  | TensorRT => "tensorrt"
  | OnnxRuntimeTensorRT => "onnxruntime_tensorrt"
  | OnnxRuntimeCUDA => "onnxruntime_cuda"
  | OnnxRuntimeCPU => "onnxruntime_cpu"
  | OpenVINO => "openvino"
  | LibTorch => "libtorch"
  | LlamaCpp => "llamacpp"
  | Fallback => "fallback"
  end.

Definition modelFormatToString (f : ModelFormat) : string :=
  match f with
  | Onnx => "onnx"
  | TensorRTEngine => "engine"
  | TorchScript => "torchscript"
  | OpenVINOIR => "openvino_ir"
  | GGUF => "gguf"
  | FormatUnknown => "unknown"
  end.

Definition inferenceStatusToString (s : InferenceStatus) : string :=
  match s with
  | Success => "success"
  | NotExecuted => "not_executed"
  | BackendUnavailable => "backend_unavailable"
  | InvalidInput => "invalid_input"
  | RuntimeError => "runtime_error"
  end.

(** * Shapes *)

Fixpoint parse_dims (tokens : list string) : option (list Z) :=
  match tokens with
  | [] => Some []
  | t :: rest =>
      match parseInt64NoThrow t with
      | None => None
      | Some value => match parse_dims rest with None => None | Some r => Some (value :: r) end
      end
  end.

Definition parseShapeCsv (csv : string) : list Z :=
  if String.eqb (norm (trim csv)) "dynamic" then []
  else match parse_dims (getline_split "," csv) with
  | None => []
  | Some r => r
  end.

(** The loop of [productOfShape] with the accumulator [p] of type [size_t]. *)
Fixpoint product_loop (p : Z) (s : list Z) : Z :=
  match s with
  | [] => p
  | d :: rest => if d <=? 0 then 0 else product_loop (u64 (p * u64 d)) rest
  end.

Definition productOfShape (s : list Z) : Z :=
  match s with [] => 0 | _ => product_loop 1 s end.

Definition validateShape (s : list Z) : bool :=
  negb (bool_decide (s = [])) && (0 <? productOfShape s).

Definition validateInputMatchesShape (i : TensorBuffer) : bool :=
  let n := productOfShape (shape (spec i)) in
  if n =? 0 then false
  else if hasF32 i then bool_decide (f32Data i ≠ None) && (f32Size i =? n)
  else if negb (bool_decide (i8_data i = [])) then Z.of_nat (length (i8_data i)) =? n
  else true.

Definition backendSupportsFormat (c : BackendCapabilities) (f : ModelFormat) : bool :=
  match f with
  | Onnx => supports_onnx c
  | TensorRTEngine => supports_engine c
  | TorchScript => supports_torchscript c
  | OpenVINOIR => supports_openvino_ir c
  | GGUF => supports_gguf c
  | FormatUnknown => false
  end.

(** * Theorems *)

(** Names survive a round trip: the parser of backend names inverts the
    printer on every backend, the parser of formats inverts its printer on
    every format, and parsing ignores the case of the letters and treats a dash as an
    underscore (it factors through [norm], which is idempotent). *)
Theorem backend_and_format_names_roundtrip :
  (∀ k, parseBackendKind (backendKindToString k) = k) ∧
  (∀ f, parseModelFormat (modelFormatToString f) = f) ∧
  (∀ s, norm (norm s) = norm s) ∧
  (∀ s, parseBackendKind (norm s) = parseBackendKind s ∧ parseModelFormat (norm s) = parseModelFormat s ∧
        parseElementType (norm s) = parseElementType s).
Proof.
  assert (∀ s, norm (norm s) = norm s) as Hidem.
  { assert (∀ c, (λ c, if (c =? "-")%char then "_"%char else tolower c)
                 ((λ c, if (c =? "-")%char then "_"%char else tolower c) c) =
                 (λ c, if (c =? "-")%char then "_"%char else tolower c) c) as Hc.
    { intros [[] [] [] [] [] [] [] []]; vm_compute; reflexivity. }
    unfold norm. induction s as [|c s IH]; simpl; [done|]. rewrite IH. f_equal. apply Hc. }
  split_and!; [by intros []|by intros []|done|].
  intros s. unfold parseBackendKind, parseModelFormat, parseElementType. by rewrite Hidem.
Qed.

Definition product (s : list Z) : Z := foldr Z.mul 1 s.

Lemma product_loop_spec p s :
  is_size p → product_loop p s = if forallb (Z.ltb 0) s then u64 (p * product s) else 0.
Proof.
  revert p. induction s as [|d s IH]; intros p Hp; simpl.
  { by rewrite Z.mul_1_r, u64_id. }
  destruct (Z.leb_spec d 0), (Z.ltb_spec 0 d); try lia; [done|]. simpl.
  rewrite IH by apply u64_range. destruct (forallb (Z.ltb 0) s); [|done].
  unfold u64. rewrite Z.mul_mod_idemp_l by lia.
  replace (p * (d mod 2 ^ 64) * product s) with ((p * product s) * (d mod 2 ^ 64)) by lia.
  rewrite Z.mul_mod_idemp_r by lia. f_equal. simpl. lia.
Qed.

(** What shape validation accepts: a non-empty list of positive
    dimensions whose product is not a multiple of 2^64, and the element count
    it computes is the true product reduced modulo 2^64; it is the true
    product whenever that product fits [size_t]. *)
Theorem productOfShape_exact s :
  (validateShape s = true ↔
     s ≠ [] ∧ Forall (λ d, 0 < d) s ∧ (product s) mod 2 ^ 64 ≠ 0) ∧
  (Forall (λ d, 0 < d) s → s ≠ [] → is_size (product s) → productOfShape s = product s).
Proof.
  assert (forallb (Z.ltb 0) s = true ↔ Forall (λ d, 0 < d) s) as Hpos.
  { rewrite forallb_forall, List.Forall_forall. setoid_rewrite Z.ltb_lt. done. }
  assert (s ≠ [] → productOfShape s = if forallb (Z.ltb 0) s then u64 (product s) else 0) as Hprod.
  { intros Hne. unfold productOfShape. destruct s as [|d s]; [done|].
    rewrite product_loop_spec by width. by rewrite Z.mul_1_l. }
  split.
  - unfold validateShape. rewrite andb_true_iff, negb_true_iff, bool_decide_eq_false, Z.ltb_lt.
    split.
    + intros [Hne Hlt]. rewrite Hprod in Hlt by done. rewrite <- Hpos.
      destruct (forallb (Z.ltb 0) s); [|lia]. unfold u64 in Hlt. split_and!; [done|done|lia].
    + intros (Hne & HF & Hm). split; [done|]. rewrite Hprod by done. rewrite <- Hpos in HF.
      rewrite HF. unfold u64. pose proof (Z.mod_pos_bound (product s) (2 ^ 64) ltac:(lia)). lia.
  - intros HF Hne Hsz. rewrite Hprod by done. rewrite <- Hpos in HF. rewrite HF. by apply u64_id.
Qed.

Lemma productOfShape_exact_witness :
  Forall (λ d, 0 < d) [1; 3; 224; 224] ∧ productOfShape [1; 3; 224; 224] = 150528.
Proof.
  split; [repeat constructor; lia|].
  apply (productOfShape_exact [1; 3; 224; 224]); [repeat constructor; lia|congruence|].
  vm_compute; split; congruence.
Defined.

(** A shape of 2^64 + 2^32 elements passes validation with the element count
    2^32: the multiplication has no overflow check. *)
Theorem validateShape_accepts_wrapped_product :
  validateShape (parseShapeCsv "4294967296,4294967297") = true ∧
  productOfShape (parseShapeCsv "4294967296,4294967297") = 2 ^ 32 ∧
  product (parseShapeCsv "4294967296,4294967297") = 2 ^ 64 + 2 ^ 32.
Proof. vm_compute. split_and!; reflexivity. Qed.

(** A blank text, a text that is not a list of integers and the word dynamic
    all have the empty shape; a trailing comma is accepted. *)
Example parseShapeCsv_samples :
  parseShapeCsv " 1, 3 ,224" = [1; 3; 224] ∧ parseShapeCsv "1,2," = [1; 2] ∧
  parseShapeCsv "1,,2" = [] ∧ parseShapeCsv "Dynamic" = [] ∧ parseShapeCsv "1,x" = [].
Proof. vm_compute. split_and!; reflexivity. Qed.
