(* ===== verification/JsonText.v ===== *)
(** Text that the runtime libraries write: JSON fragments with the short
    escaping that runtime/ShorthandRuntime.cpp, ai_runtime/HardwareDiscovery.h
    and ai_runtime/AI_Telemetry.cpp share, and the pieces of the standard
    library they print with. *)
From S2P Require Import Prelude CxxInt CxxString.
Open Scope string_scope.
Open Scope Z_scope.

(** A C++ literal with escaped double quotes, written here with single quotes. *)
Definition dq (s : string) : string :=
  string_map (λ c, if (c =? "'")%char then chr_quote else c) s.

Definition chr_bslash : ascii := "092"%char.

Definition short_escape_char (c : ascii) : string :=
  if (c =? chr_quote)%char || (c =? chr_bslash)%char then String chr_bslash (String c "")
  else if (c =? chr_newline)%char then String chr_bslash "n"
  else String c "".

Fixpoint short_escape (s : string) : string :=
  match s with
  | EmptyString => ""
  | String c r => short_escape_char c +:+ short_escape r
  end.

Definition true_false (b : bool) : string := if b then "true" else "false".

Definition endl : string := String chr_newline "".

(** * Reading back *)

(** The reader of a quoted text: it stops at the first quote that is not
    escaped, and knows the three escapes above.  Raw control characters are
    left as they are, as lenient readers do. *)
Fixpoint read_quoted (s : string) : option (string * string) :=
  match s with
  | EmptyString => None
  | String c r =>
      if (c =? chr_quote)%char then Some ("", r)
      else if (c =? chr_bslash)%char then
        match r with
        | EmptyString => None
        | String e r' =>
            if (e =? chr_quote)%char || (e =? chr_bslash)%char then
              match read_quoted r' with Some (t, u) => Some (String e t, u) | None => None end
            else if (e =? "n")%char then
              match read_quoted r' with Some (t, u) => Some (String chr_newline t, u) | None => None end
            else None
        end
      else match read_quoted r with Some (t, u) => Some (String c t, u) | None => None end
  end.

Ltac drop_empty := repeat match goal with |- context [String.append EmptyString ?x] => change (String.append EmptyString x) with x end.

Lemma short_escape_roundtrip s rest :
  read_quoted (short_escape s +:+ String chr_quote rest) = Some (s, rest).
Proof.
  induction s as [|c r IH]; [done|]. simpl. unfold short_escape_char.
  destruct (c =? chr_quote)%char eqn:E1; [apply Ascii.eqb_eq in E1 as ->; simpl; drop_empty; by rewrite IH|].
  destruct (c =? chr_bslash)%char eqn:E2; [apply Ascii.eqb_eq in E2 as ->; simpl; drop_empty; by rewrite IH|].
  destruct (c =? chr_newline)%char eqn:E3; [apply Ascii.eqb_eq in E3 as ->; simpl; drop_empty; by rewrite IH|].
  simpl. drop_empty. by rewrite E1, E2, IH.
Qed.

(** * Formatted input of a stream *)

Fixpoint take_while (p : ascii → bool) (s : string) : string :=
  match s with
  | EmptyString => ""
  | String c r => if p c then String c (take_while p r) else ""
  end.

(** [stream >> word], [None] when the stream fails. *)
Definition stream_word (s : string) : option (string * string) :=
  let s := drop_while isspace s in
  if is_empty s then None
  else Some (take_while (λ c, negb (isspace c)) s, drop_while (λ c, negb (isspace c)) s).

(** [stream >> n] for a [size_t]. *)
Definition stream_size (s : string) : option (Z * string) :=
  let r := strtoull s in
  if st_converted r && negb (st_erange r) then Some (st_value r, st_rest r) else None.
