(* ===== verification/HardwareRouting.v ===== *)
(** Component: hardware discovery and routing (ai_runtime/HardwareDiscovery.h)
    and the production qualification of backends
    (ai_runtime/ProductionBackendQualification.h).

    A probe lists the devices, the policy read from the environment orders them,
    and [selectHardwareRoute] takes the first device for which some backend is
    ready to run the model.  Environment variables, device nodes and files are
    the fields of a [World]; what the preprocessor decides is [Platform]. *)
From Stdlib Require Import Strings.Byte.
From S2P Require Import Prelude CxxInt CxxString CxxFloat AiTypes JsonText.
Open Scope string_scope.
Open Scope Z_scope.

(** What the code sees of the machine during one call.  [open_file] is what an
    input stream finds: the size reported at the end of the file and the bytes
    that the reads after it deliver, which differ when the file changes between
    the two.  [elapsed_ns] is the time a telemetry timer measures. *)
Record World := {
  getenv : string → option string;
  path_exists : string → bool;
  meminfo : string;
  open_file : string → option (Z * list byte);
  elapsed_ns : Z;
}.

Class Platform := {
  linux_x86_64 : bool;
  apple_arm64 : bool;
  has_onnxruntime : bool;
  has_tensorrt : bool;
  has_openvino : bool;
  has_libtorch : bool;
  has_llamacpp : bool;
}.

(** * Devices, policies and routes *)

Inductive DeviceClass := CPU | GPU | TPU | NPU | DeviceUnknown.
#[export] Instance DeviceClass_eq_dec : EqDecision DeviceClass.
Proof. solve_decision. Defined.
#[export] Instance DeviceClass_countable : Countable DeviceClass.
Proof.
  refine (inj_countable' (λ d, match d with CPU => 0 | GPU => 1 | TPU => 2 | NPU => 3 | DeviceUnknown => 4 end)
            (λ n, match n with 0 => CPU | 1 => GPU | 2 => TPU | 3 => NPU | _ => DeviceUnknown end) _). by intros [].
Defined.

Record HardwareDeviceCapability := {
  device_class : DeviceClass; device_id : string; provider : string;
  detected : bool; accessible : bool; memory_mb : Z; device_reason : string;
}.

Record HardwareRoutingPolicy := {
  preference : list DeviceClass;
  override_device : option DeviceClass;
  deny_list : gset DeviceClass;
  allow_cpu_fallback : bool;
  minimum_memory_mb : Z;
}.

Definition default_policy : HardwareRoutingPolicy := {|
  preference := [GPU; NPU; TPU; CPU]; override_device := None; deny_list := ∅;
  allow_cpu_fallback := true; minimum_memory_mb := 0 |}.

Record HardwareRoute := {
  selected : bool; route_device_class : DeviceClass; route_device_id : string;
  route_backend : BackendKind; route_backend_name : string; route_reason : string;
  inventory_json : string; selection_json : string;
}.

Definition no_route : HardwareRoute := {|
  selected := false; route_device_class := DeviceUnknown; route_device_id := "none";
  route_backend := Fallback; route_backend_name := "none";
  route_reason := "no_execution_ready_hardware_backend";
  inventory_json := "{}"; selection_json := "{}" |}.

(** * Helpers *)

Definition normalize (value : string) : string :=
  string_map (λ c, if (c =? "-")%char then "_"%char else tolower c) value.

Definition hardware_json_escape (value : string) : string := short_escape value.

Definition environment (w : World) (name : string) : string := default "" (getenv w name).

Definition environmentTrue (w : World) (name : string) : bool :=
  let value := normalize (environment w name) in
  negb (is_empty value) && negb (bool_decide (value ∈ ["0"; "false"; "no"; "off"])).

(** [normalize] turns the minus sign of -1 into an underscore, as written. *)
Definition environmentHasDeviceValue (w : World) (name : string) : bool :=
  let value := normalize (environment w name) in
  negb (is_empty value) && negb (bool_decide (value ∈ ["-1"; "none"; "void"; "false"])).

Fixpoint memory_loop (fuel : nat) (input : string) : Z :=
  match fuel with
  | O => 0
  | S fuel =>
      match stream_word input with
      | None => 0
      | Some (key, input) =>
          match stream_size input with
          | None => 0
          | Some (value_kb, input) =>
              match stream_word input with
              | None => 0
              | Some (_, input) => if bool_decide (key = "MemTotal:") then value_kb / 1024 else memory_loop fuel input
              end
          end
      end
  end.

Definition hostMemoryMb (w : World) : Z := memory_loop (String.length (meminfo w)) (meminfo w).

Definition precisionSupported (capability : BackendCapabilities) (precision : string) : bool :=
  is_empty precision || bool_decide (supported_precisions capability = []) ||
  existsb (λ candidate, bool_decide (normalize candidate = normalize precision)) (supported_precisions capability).

Definition modelAllowsBackend (model : ModelSpec) (backend : BackendKind) : bool :=
  bool_decide (ms_backend_preference model = []) || bool_decide (backend ∈ ms_backend_preference model).

Definition backendSupportsDevice (backend : BackendKind) (device : DeviceClass) : bool :=
  match backend with
  | TensorRT | OnnxRuntimeTensorRT | OnnxRuntimeCUDA => bool_decide (device = GPU)
  | OnnxRuntimeCPU => bool_decide (device = CPU)
  | OpenVINO => bool_decide (device = CPU) || bool_decide (device = GPU) || bool_decide (device = NPU)
  | LibTorch | LlamaCpp => bool_decide (device = CPU) || bool_decide (device = GPU)
  | Fallback => false
  end.

Definition policyAllowsDevice (policy : HardwareRoutingPolicy) (device : HardwareDeviceCapability) : bool :=
  negb (bool_decide (device_class device ∈ deny_list policy)) &&
  negb ((0 <? minimum_memory_mb policy) && (memory_mb device <? minimum_memory_mb policy)).

Fixpoint backendCompatible (device : HardwareDeviceCapability) (capabilities : list BackendCapabilities)
    (model : ModelSpec) : bool :=
  match capabilities with
  | [] => false
  | capability :: rest =>
      if bool_decide (bc_kind capability = Fallback) then backendCompatible device rest model
      else if negb (modelAllowsBackend model (bc_kind capability)) then backendCompatible device rest model
      else if negb (backendSupportsDevice (bc_kind capability) (device_class device)) then backendCompatible device rest model
      else if negb (backendSupportsFormat capability (ms_format model)) then backendCompatible device rest model
      else if negb (precisionSupported capability (ms_precision model)) then backendCompatible device rest model
      else true
  end.

Fixpoint ready_loop (device : HardwareDeviceCapability) (capabilities : list BackendCapabilities)
    (model : ModelSpec) : option BackendCapabilities :=
  match capabilities with
  | [] => None
  | capability :: rest =>
      if negb (bc_available capability) || bool_decide (bc_kind capability = Fallback) then ready_loop device rest model
      else if negb (modelAllowsBackend model (bc_kind capability)) then ready_loop device rest model
      else if negb (backendSupportsDevice (bc_kind capability) (device_class device)) then ready_loop device rest model
      else if negb (backendSupportsFormat capability (ms_format model)) then ready_loop device rest model
      else if negb (precisionSupported capability (ms_precision model)) then ready_loop device rest model
      else Some capability
  end.

Definition executionReadyBackend (device : HardwareDeviceCapability) (capabilities : list BackendCapabilities)
    (model : ModelSpec) (policy : HardwareRoutingPolicy) : option BackendCapabilities :=
  if negb (detected device) || negb (accessible device) || negb (policyAllowsDevice policy device) then None
  else ready_loop device capabilities model.

(** [std::find] before [push_back]: the first occurrences, in order. *)
Definition push_unique (unique : list DeviceClass) (device : DeviceClass) : list DeviceClass :=
  if bool_decide (device ∈ unique) then unique else (unique ++ [device])%list.

Definition routingOrder (policy : HardwareRoutingPolicy) : list DeviceClass :=
  let order :=
    match override_device policy with
    | Some d => (d :: (if allow_cpu_fallback policy && negb (bool_decide (d = CPU)) then [CPU] else []))
    | None =>
        if allow_cpu_fallback policy && negb (bool_decide (CPU ∈ preference policy))
        then (preference policy ++ [CPU])%list else preference policy
    end in
  let order := if allow_cpu_fallback policy then order else filter (λ d, d ≠ CPU) order in
  fold_left push_unique order [].

Definition deviceClassToString (device : DeviceClass) : string :=
  match device with CPU => "cpu" | GPU => "gpu" | TPU => "tpu" | NPU => "npu" | DeviceUnknown => "unknown" end.

Definition parseDeviceClass (value : string) : DeviceClass :=
  let normalized := normalize value in
  if bool_decide (normalized = "cpu") then CPU
  else if bool_decide (normalized = "gpu") then GPU
  else if bool_decide (normalized = "tpu") then TPU
  else if bool_decide (normalized = "npu") then NPU
  else DeviceUnknown.

(** * Probes *)

Definition signal_paths : list string :=
  ["/dev/nvidia0"; "/dev/nvidiactl"; "/dev/kfd"; "/dev/dri/renderD128";
   "/dev/accel0"; "/dev/accel/accel0"; "/dev/apex_0"].

Definition signal_names : list string :=
  ["NVIDIA_VISIBLE_DEVICES"; "CUDA_VISIBLE_DEVICES"; "SHORTHAND_GPU_DETECTED"; "SHORTHAND_GPU_ACCESSIBLE";
   "TPU_NAME"; "COLAB_TPU_ADDR"; "XRT_TPU_CONFIG"; "SHORTHAND_TPU_DETECTED"; "SHORTHAND_TPU_ACCESSIBLE";
   "SHORTHAND_NPU_DETECTED"; "SHORTHAND_NPU_ACCESSIBLE"].

(** The generation state that the copies of a system probe share. *)
Record GenerationState := {
  initialized : bool; device_signal_bits : Z; gs_environment : list string; generation : Z;
}.

Definition new_generation_state : GenerationState := {|
  initialized := false; device_signal_bits := 0; gs_environment := repeat "" 11; generation := 1 |}.

Fixpoint signal_bits (w : World) (paths : list string) (i : Z) : Z :=
  match paths with
  | [] => 0
  | p :: rest => Z.lor (if path_exists w p then Z.shiftl 1 i else 0) (signal_bits w rest (i + 1))
  end.

Definition signal_environment (w : World) : list string := map (environment w) signal_names.

(** [++generation], with zero skipped. *)
Definition next_generation (g : Z) : Z :=
  let g := u64 (g + 1) in if g =? 0 then 1 else g.

(** [SystemHardwareProbe::generationToken] *)
Definition system_generation_token (w : World) (state : GenerationState) : Z * GenerationState :=
  let bits := signal_bits w signal_paths 0 in
  let changed := negb (initialized state) || negb (bits =? device_signal_bits state) ||
                 negb (bool_decide (gs_environment state = signal_environment w)) in
  let state :=
    if changed then
      {| initialized := true; device_signal_bits := bits; gs_environment := signal_environment w;
         generation := if initialized state then next_generation (generation state) else generation state |}
    else state in
  (generation state, state).

(** [SystemHardwareProbe::probe] *)
Definition cpu_device (w : World) : HardwareDeviceCapability := {|
  device_class := CPU; device_id := "cpu:0"; provider := "host"; detected := true; accessible := true;
  memory_mb := hostMemoryMb w; device_reason := "host_cpu_available" |}.

Definition gpu_device (w : World) : HardwareDeviceCapability :=
  let nvidia_node := path_exists w "/dev/nvidia0" || path_exists w "/dev/nvidiactl" in
  let amd_node := path_exists w "/dev/kfd" in
  let render_node := path_exists w "/dev/dri/renderD128" in
  let gpu_environment := environmentHasDeviceValue w "NVIDIA_VISIBLE_DEVICES" ||
                         environmentHasDeviceValue w "CUDA_VISIBLE_DEVICES" ||
                         environmentTrue w "SHORTHAND_GPU_DETECTED" in
  let gpu_detected := nvidia_node || amd_node || render_node || gpu_environment in
  let gpu_accessible := nvidia_node || amd_node || render_node || environmentTrue w "SHORTHAND_GPU_ACCESSIBLE" in
  {| device_class := GPU; device_id := "gpu:0";
     provider := if nvidia_node || environmentHasDeviceValue w "NVIDIA_VISIBLE_DEVICES" then "nvidia"
                 else if amd_node then "amd" else if render_node then "drm" else "unknown";
     detected := gpu_detected; accessible := gpu_accessible; memory_mb := 0;
     device_reason := if gpu_accessible then "accelerator_device_accessible_backend_probe_required"
                      else if gpu_detected then "accelerator_signal_detected_but_not_accessible"
                      else "no_gpu_signal_detected" |}.

Definition tpu_device (w : World) : HardwareDeviceCapability :=
  let tpu_node := path_exists w "/dev/accel0" in
  let tpu_environment := environmentHasDeviceValue w "TPU_NAME" || environmentHasDeviceValue w "COLAB_TPU_ADDR" ||
                         environmentHasDeviceValue w "XRT_TPU_CONFIG" || environmentTrue w "SHORTHAND_TPU_DETECTED" in
  let tpu_detected := tpu_node || tpu_environment in
  let tpu_accessible := tpu_node || environmentTrue w "SHORTHAND_TPU_ACCESSIBLE" in
  {| device_class := TPU; device_id := "tpu:0"; provider := "google";
     detected := tpu_detected; accessible := tpu_accessible; memory_mb := 0;
     device_reason := if tpu_accessible then "tpu_accessible_backend_probe_required"
                      else if tpu_detected then "tpu_signal_detected_but_not_accessible"
                      else "no_tpu_signal_detected" |}.

Definition npu_device `{Platform} (w : World) : HardwareDeviceCapability :=
  let npu_node := path_exists w "/dev/accel/accel0" || path_exists w "/dev/apex_0" in
  let npu_detected := apple_arm64 || npu_node || environmentTrue w "SHORTHAND_NPU_DETECTED" in
  let npu_accessible := npu_node || environmentTrue w "SHORTHAND_NPU_ACCESSIBLE" in
  {| device_class := NPU; device_id := "npu:0";
     provider := if apple_arm64 && negb npu_accessible then "apple"
                 else if npu_node then "system_accelerator" else "unknown";
     detected := npu_detected; accessible := npu_accessible; memory_mb := 0;
     device_reason := if npu_accessible then "npu_accessible_backend_probe_required"
                      else if npu_detected then "npu_detected_but_backend_access_not_confirmed"
                      else "no_npu_signal_detected" |}.

Definition system_probe `{Platform} (w : World) : list HardwareDeviceCapability :=
  [cpu_device w; gpu_device w; tpu_device w; npu_device w].

(** The probes of the library: the system, or a fixed list. *)
Inductive HardwareProbe :=
| SystemHardwareProbe (generation_state_ : GenerationState)
| StaticHardwareProbe (devices_ : list HardwareDeviceCapability).

Definition generationToken (w : World) (probe : HardwareProbe) : Z * HardwareProbe :=
  match probe with
  | SystemHardwareProbe state => let r := system_generation_token w state in (r.1, SystemHardwareProbe r.2)
  | StaticHardwareProbe devices => (1, probe)
  end.

Definition probe_devices `{Platform} (w : World) (probe : HardwareProbe) : list HardwareDeviceCapability :=
  match probe with
  | SystemHardwareProbe _ => system_probe w
  | StaticHardwareProbe devices => devices
  end.

(** * Policy from the environment *)

Definition hardwareRoutingPolicyEnvironmentNames : list string :=
  ["SHORTHAND_DEVICE_PREFERENCE"; "SHORTHAND_DEVICE_OVERRIDE"; "SHORTHAND_DEVICE_DENY";
   "SHORTHAND_ALLOW_CPU_FALLBACK"; "SHORTHAND_MIN_DEVICE_MEMORY_MB"].

Definition captureHardwareRoutingPolicyEnvironment (w : World) : list string :=
  map (environment w) hardwareRoutingPolicyEnvironmentNames.

Definition hardwareRoutingPolicyEnvironmentMatches (w : World) (state : list string) : bool :=
  bool_decide (state = captureHardwareRoutingPolicyEnvironment w).

(** The device classes a comma-separated list names. *)
Definition device_tokens (text : string) : list DeviceClass :=
  filter (λ d, d ≠ DeviceUnknown) (map parseDeviceClass (getline_split "," text)).

Definition minimum_memory (text : string) : Z :=
  if is_empty text then 0
  else let r := strtoull text in if st_converted r && is_empty (st_rest r) then st_value r else 0.

Definition hardwareRoutingPolicyFromEnvironment (w : World) : HardwareRoutingPolicy := {|
  preference :=
    let preference := environment w "SHORTHAND_DEVICE_PREFERENCE" in
    if is_empty preference then [GPU; NPU; TPU; CPU] else device_tokens preference;
  override_device :=
    let override_device := parseDeviceClass (environment w "SHORTHAND_DEVICE_OVERRIDE") in
    if bool_decide (override_device = DeviceUnknown) then None else Some override_device;
  deny_list := list_to_set (device_tokens (environment w "SHORTHAND_DEVICE_DENY"));
  allow_cpu_fallback :=
    if is_empty (environment w "SHORTHAND_ALLOW_CPU_FALLBACK") then true
    else environmentTrue w "SHORTHAND_ALLOW_CPU_FALLBACK";
  minimum_memory_mb := minimum_memory (environment w "SHORTHAND_MIN_DEVICE_MEMORY_MB");
|}.

(** * Selection *)

Fixpoint first_ready (wanted : DeviceClass) (devices : list HardwareDeviceCapability)
    (capabilities : list BackendCapabilities) (model : ModelSpec) (policy : HardwareRoutingPolicy)
    : option (HardwareDeviceCapability * BackendCapabilities) :=
  match devices with
  | [] => None
  | device :: rest =>
      if bool_decide (device_class device = wanted) then
        match executionReadyBackend device capabilities model policy with
        | Some backend => Some (device, backend)
        | None => first_ready wanted rest capabilities model policy
        end
      else first_ready wanted rest capabilities model policy
  end.

Fixpoint select_loop (order : list DeviceClass) (devices : list HardwareDeviceCapability)
    (capabilities : list BackendCapabilities) (model : ModelSpec) (policy : HardwareRoutingPolicy)
    : option (HardwareDeviceCapability * BackendCapabilities) :=
  match order with
  | [] => None
  | wanted :: rest =>
      match first_ready wanted devices capabilities model policy with
      | Some r => Some r
      | None => select_loop rest devices capabilities model policy
      end
  end.

Definition inventory_device (capabilities : list BackendCapabilities) (model : ModelSpec)
    (policy : HardwareRoutingPolicy) (device : HardwareDeviceCapability) : string :=
  let compatible := backendCompatible device capabilities model in
  let execution_ready := bool_decide (is_Some (executionReadyBackend device capabilities model policy)) in
  dq "{'class':'" +:+ deviceClassToString (device_class device) +:+
  dq "','id':'" +:+ hardware_json_escape (device_id device) +:+
  dq "','provider':'" +:+ hardware_json_escape (provider device) +:+
  dq "','detected':" +:+ true_false (detected device) +:+
  dq ",'accessible':" +:+ true_false (accessible device) +:+
  dq ",'backend_compatible':" +:+ true_false compatible +:+
  dq ",'execution_ready':" +:+ true_false execution_ready +:+
  dq ",'memory_mb':" +:+ pretty (memory_mb device) +:+
  dq ",'reason':'" +:+ hardware_json_escape (device_reason device) +:+ dq "'}".

Fixpoint comma_joined (items : list string) : string :=
  match items with
  | [] => ""
  | [item] => item
  | item :: rest => item +:+ "," +:+ comma_joined rest
  end.

Definition inventory_text (devices : list HardwareDeviceCapability) (capabilities : list BackendCapabilities)
    (model : ModelSpec) (policy : HardwareRoutingPolicy) : string :=
  dq "{'schema':'shorthand.hardware.inventory.v1','devices':[" +:+
  comma_joined (map (inventory_device capabilities model policy) devices) +:+ "]}".

Definition selection_text (route : HardwareRoute) (policy : HardwareRoutingPolicy) : string :=
  dq "{'schema':'shorthand.hardware.selection.v1'" +:+
  dq ",'selected':" +:+ true_false (selected route) +:+
  dq ",'device_class':'" +:+
    (if selected route then deviceClassToString (route_device_class route) else "none") +:+ dq "'" +:+
  dq ",'device_id':'" +:+ hardware_json_escape (route_device_id route) +:+ dq "'" +:+
  dq ",'backend':'" +:+ hardware_json_escape (route_backend_name route) +:+ dq "'" +:+
  dq ",'reason':'" +:+ hardware_json_escape (route_reason route) +:+ dq "'" +:+
  dq ",'allow_cpu_fallback':" +:+ true_false (allow_cpu_fallback policy) +:+
  dq ",'minimum_memory_mb':" +:+ pretty (minimum_memory_mb policy) +:+ "}".

Definition chosen_route (choice : option (HardwareDeviceCapability * BackendCapabilities)) : HardwareRoute :=
  match choice with
  | None => no_route
  | Some (device, backend) => {|
      selected := true; route_device_class := device_class device;
      route_device_id := if is_empty (device_id device) then deviceClassToString (device_class device) +:+ ":0"
                         else device_id device;
      route_backend := bc_kind backend;
      route_backend_name := if is_empty (bc_name backend) then backendKindToString (bc_kind backend) else bc_name backend;
      route_reason := "selected_execution_ready_backend";
      inventory_json := "{}"; selection_json := "{}" |}
  end.

Definition with_json (inventory selection : string) (route : HardwareRoute) : HardwareRoute := {|
  selected := selected route; route_device_class := route_device_class route;
  route_device_id := route_device_id route; route_backend := route_backend route;
  route_backend_name := route_backend_name route; route_reason := route_reason route;
  inventory_json := inventory; selection_json := selection |}.

Definition selectHardwareRoute (devices : list HardwareDeviceCapability) (capabilities : list BackendCapabilities)
    (model : ModelSpec) (policy : HardwareRoutingPolicy) : HardwareRoute :=
  let route := chosen_route (select_loop (routingOrder policy) devices capabilities model policy) in
  with_json (inventory_text devices capabilities model policy) (selection_text route policy) route.

(** * Production qualification *)

Definition kProductionBackendQualificationSchema : string := "shorthand.backend_hardware_qualification.v1".

Definition productionBackendPlatformQualified `{Platform} : bool := linux_x86_64.

Definition productionBackendDeviceQualified `{Platform} (backend : BackendKind) (device : DeviceClass) : bool :=
  productionBackendPlatformQualified && bool_decide (backend = OnnxRuntimeCPU) && bool_decide (device = CPU).

Definition kAllowUnqualified : string := "SHORTHAND_ALLOW_UNQUALIFIED_BACKEND_HARDWARE".

Definition allowUnqualifiedBackendHardwareFromEnvironment (w : World) : bool :=
  match getenv w kAllowUnqualified with
  | None => false
  | Some raw => bool_decide (string_map tolower raw ∈ ["1"; "true"; "yes"; "on"])
  end.

Definition refused_route (inventory : string) : HardwareRoute := {|
  selected := false; route_device_class := DeviceUnknown; route_device_id := "none";
  route_backend := Fallback; route_backend_name := "none";
  route_reason := "backend_device_not_production_qualified";
  inventory_json := inventory; selection_json := "{}" |}.

Definition enforceProductionBackendQualification `{Platform} (w : World) (original : HardwareRoute) : HardwareRoute :=
  let experimental_override := allowUnqualifiedBackendHardwareFromEnvironment w in
  let qualified := selected original && productionBackendDeviceQualified (route_backend original) (route_device_class original) in
  let route := if selected original && negb qualified && negb experimental_override
               then refused_route (inventory_json original) else original in
  let selection :=
    dq "{'schema':'shorthand.hardware.selection.v1'" +:+
    dq ",'qualification_schema':'" +:+ kProductionBackendQualificationSchema +:+ dq "'" +:+
    dq ",'platform_qualified':" +:+ true_false productionBackendPlatformQualified +:+
    dq ",'selected':" +:+ true_false (selected route) +:+
    dq ",'device_class':'" +:+
      (if selected route then deviceClassToString (route_device_class route) else "none") +:+ dq "'" +:+
    dq ",'device_id':'" +:+ hardware_json_escape (route_device_id route) +:+ dq "'" +:+
    dq ",'backend':'" +:+ hardware_json_escape (route_backend_name route) +:+ dq "'" +:+
    dq ",'production_qualified':" +:+ true_false qualified +:+
    dq ",'experimental_override':" +:+ true_false experimental_override +:+
    dq ",'reason':'" +:+ hardware_json_escape (route_reason route) +:+ dq "'" +:+
    (if negb qualified && negb (bool_decide (route_backend_name original = "none")) then
       dq ",'rejected_device_class':'" +:+
         hardware_json_escape (if selected original then deviceClassToString (route_device_class original) else "none") +:+ dq "'" +:+
       dq ",'rejected_device_id':'" +:+ hardware_json_escape (route_device_id original) +:+ dq "'" +:+
       dq ",'rejected_backend':'" +:+ hardware_json_escape (route_backend_name original) +:+ dq "'"
     else "") +:+ "}" in
  with_json (inventory_json route) selection route.

Definition productionBackendHardwareSupportMatrixJson : string :=
  dq "{'schema':'" +:+ kProductionBackendQualificationSchema +:+
  dq "','production_scope':'linux-x64-cpu-v1','rows':[" +:+
  dq "{'backend':'onnxruntime_cpu','device_class':'cpu','platform':'linux-x64','status':'production_supported_live_qualification_required'}," +:+
  dq "{'backend':'onnxruntime_cuda','device_class':'gpu','status':'not_production_supported_live_fixture_required'}," +:+
  dq "{'backend':'onnxruntime_tensorrt','device_class':'gpu','status':'not_production_supported_live_fixture_required'}," +:+
  dq "{'backend':'tensorrt','device_class':'gpu','status':'not_production_supported_live_fixture_required'}," +:+
  dq "{'backend':'openvino','device_class':'npu','status':'not_production_supported_live_fixture_required'}," +:+
  dq "{'backend':'libtorch','device_class':'gpu','status':'not_production_supported_live_fixture_required'}," +:+
  dq "{'backend':'llamacpp','device_class':'gpu','status':'not_production_supported_live_fixture_required'}," +:+
  dq "{'backend':'none','device_class':'tpu','status':'not_production_supported_no_backend'}]}".
