(* ===== verification/AiBackends.v ===== *)
(** Component: the inference backends (ai_runtime/AI_Backend.h and .cpp, the
    classes under ai_runtime/backends/) and their telemetry
    (ai_runtime/AI_Telemetry.cpp).

    ONNX Runtime is a library outside the repository: the class [OrtApi] names
    the calls the backend makes.  Everything around them is modelled: what is
    checked before a call, what is checked of its result, which errors become
    which reasons.  Reading a borrowed input past the memory the caller owns is
    undefined. *)
From Stdlib Require Import SpecFloat Strings.Byte.
From S2P Require Import Prelude CxxInt CxxString CxxFloat AiTypes JsonText HardwareRouting.
Open Scope string_scope.
Open Scope Z_scope.

(** * Telemetry *)

Record TelemetryRecord := {
  tr_component : string; tr_backend : string; tr_model : string; tr_status : string; tr_reason : string;
  tr_latency_ns : Z; tr_input_elements : Z; tr_output_elements : Z;
  tr_measured_energy_kwh : double; tr_measured_energy_available : bool;
}.

Definition appendDefaultDouble (value : double) : string :=
  if deqb value dzero then "0" else format_g 6 value.

Definition appendKeyString (key value : string) : string :=
  dq "'" +:+ key +:+ dq "':'" +:+ short_escape value +:+ dq "',".

Definition appendKeyInteger (key : string) (value : Z) : string :=
  dq "'" +:+ key +:+ dq "':" +:+ pretty value +:+ ",".

Definition appendKeyBool (key : string) (value : bool) : string :=
  dq "'" +:+ key +:+ dq "':" +:+ true_false value +:+ ",".

(** [TelemetryTimer::finish] *)
Definition finish (w : World) (backend model status reason : string) (input_elements output_elements : Z) : TelemetryRecord := {|
  tr_component := "shorthand.ai_runtime"; tr_backend := backend; tr_model := model;
  tr_status := status; tr_reason := reason; tr_latency_ns := elapsed_ns w;
  tr_input_elements := input_elements; tr_output_elements := output_elements;
  tr_measured_energy_kwh := dzero; tr_measured_energy_available := false |}.

Definition telemetryToJson (record : TelemetryRecord) : string :=
  "{" +:+ appendKeyString "component" (tr_component record) +:+
  appendKeyString "backend" (tr_backend record) +:+
  appendKeyString "model" (tr_model record) +:+
  appendKeyString "status" (tr_status record) +:+
  appendKeyString "reason" (tr_reason record) +:+
  appendKeyInteger "latency_ns" (tr_latency_ns record) +:+
  appendKeyInteger "input_elements" (tr_input_elements record) +:+
  appendKeyInteger "output_elements" (tr_output_elements record) +:+
  appendKeyBool "measured_energy_available" (tr_measured_energy_available record) +:+
  dq "'measured_energy_kwh':" +:+ appendDefaultDouble (tr_measured_energy_kwh record) +:+ "}".

Definition telemetryToOtlpLikeSpanJson (record : TelemetryRecord) : string :=
  dq "{'name':'shorthand.ai.infer','kind':'SPAN_KIND_INTERNAL','attributes':{" +:+
  appendKeyString "ai.system" "shorthand" +:+
  appendKeyString "ai.backend" (tr_backend record) +:+
  appendKeyString "ai.model.name" (tr_model record) +:+
  appendKeyString "ai.inference.status" (tr_status record) +:+
  appendKeyString "ai.inference.reason" (tr_reason record) +:+
  appendKeyInteger "ai.input.elements" (tr_input_elements record) +:+
  appendKeyInteger "ai.output.elements" (tr_output_elements record) +:+
  appendKeyInteger "ai.latency.ns" (tr_latency_ns record) +:+
  appendKeyBool "ai.energy.measured" (tr_measured_energy_available record) +:+
  dq "'ai.energy.kwh':" +:+ appendDefaultDouble (tr_measured_energy_kwh record) +:+ "}}".

(** * Updates of a result *)

Definition with_status (status : InferenceStatus) (why : string) (r : InferenceResult) : InferenceResult := {|
  ir_status := status; ir_backend := ir_backend r; backend_name := backend_name r; provider_name := provider_name r;
  reason := why; output_f32 := output_f32 r;
  evidence_json_fragment := evidence_json_fragment r; telemetry_json_fragment := telemetry_json_fragment r;
  hardware_inventory_json := hardware_inventory_json r; hardware_selection_json := hardware_selection_json r;
  selected_device_class := selected_device_class r; selected_device_id := selected_device_id r;
  latency_ns := latency_ns r; input_elements := input_elements r; output_elements := output_elements r;
  measured_energy_kwh := measured_energy_kwh r; measured_energy_available := measured_energy_available r |}.

Definition with_source (k : BackendKind) (name provider : string) (r : InferenceResult) : InferenceResult := {|
  ir_status := ir_status r; ir_backend := k; backend_name := name; provider_name := provider;
  reason := reason r; output_f32 := output_f32 r;
  evidence_json_fragment := evidence_json_fragment r; telemetry_json_fragment := telemetry_json_fragment r;
  hardware_inventory_json := hardware_inventory_json r; hardware_selection_json := hardware_selection_json r;
  selected_device_class := selected_device_class r; selected_device_id := selected_device_id r;
  latency_ns := latency_ns r; input_elements := input_elements r; output_elements := output_elements r;
  measured_energy_kwh := measured_energy_kwh r; measured_energy_available := measured_energy_available r |}.

Definition with_output (data : list spec_float) (r : InferenceResult) : InferenceResult := {|
  ir_status := ir_status r; ir_backend := ir_backend r; backend_name := backend_name r; provider_name := provider_name r;
  reason := reason r; output_f32 := data;
  evidence_json_fragment := evidence_json_fragment r; telemetry_json_fragment := telemetry_json_fragment r;
  hardware_inventory_json := hardware_inventory_json r; hardware_selection_json := hardware_selection_json r;
  selected_device_class := selected_device_class r; selected_device_id := selected_device_id r;
  latency_ns := latency_ns r; input_elements := input_elements r; output_elements := output_elements r;
  measured_energy_kwh := measured_energy_kwh r; measured_energy_available := measured_energy_available r |}.

Definition with_output_elements (n : Z) (r : InferenceResult) : InferenceResult := {|
  ir_status := ir_status r; ir_backend := ir_backend r; backend_name := backend_name r; provider_name := provider_name r;
  reason := reason r; output_f32 := output_f32 r;
  evidence_json_fragment := evidence_json_fragment r; telemetry_json_fragment := telemetry_json_fragment r;
  hardware_inventory_json := hardware_inventory_json r; hardware_selection_json := hardware_selection_json r;
  selected_device_class := selected_device_class r; selected_device_id := selected_device_id r;
  latency_ns := latency_ns r; input_elements := input_elements r; output_elements := n;
  measured_energy_kwh := measured_energy_kwh r; measured_energy_available := measured_energy_available r |}.

Definition with_device (class id : string) (r : InferenceResult) : InferenceResult := {|
  ir_status := ir_status r; ir_backend := ir_backend r; backend_name := backend_name r; provider_name := provider_name r;
  reason := reason r; output_f32 := output_f32 r;
  evidence_json_fragment := evidence_json_fragment r; telemetry_json_fragment := telemetry_json_fragment r;
  hardware_inventory_json := hardware_inventory_json r; hardware_selection_json := hardware_selection_json r;
  selected_device_class := class; selected_device_id := id;
  latency_ns := latency_ns r; input_elements := input_elements r; output_elements := output_elements r;
  measured_energy_kwh := measured_energy_kwh r; measured_energy_available := measured_energy_available r |}.

Definition with_evidence (evidence : string) (r : InferenceResult) : InferenceResult := {|
  ir_status := ir_status r; ir_backend := ir_backend r; backend_name := backend_name r; provider_name := provider_name r;
  reason := reason r; output_f32 := output_f32 r;
  evidence_json_fragment := evidence; telemetry_json_fragment := telemetry_json_fragment r;
  hardware_inventory_json := hardware_inventory_json r; hardware_selection_json := hardware_selection_json r;
  selected_device_class := selected_device_class r; selected_device_id := selected_device_id r;
  latency_ns := latency_ns r; input_elements := input_elements r; output_elements := output_elements r;
  measured_energy_kwh := measured_energy_kwh r; measured_energy_available := measured_energy_available r |}.

Definition with_telemetry (telemetry : string) (r : InferenceResult) : InferenceResult := {|
  ir_status := ir_status r; ir_backend := ir_backend r; backend_name := backend_name r; provider_name := provider_name r;
  reason := reason r; output_f32 := output_f32 r;
  evidence_json_fragment := evidence_json_fragment r; telemetry_json_fragment := telemetry;
  hardware_inventory_json := hardware_inventory_json r; hardware_selection_json := hardware_selection_json r;
  selected_device_class := selected_device_class r; selected_device_id := selected_device_id r;
  latency_ns := latency_ns r; input_elements := input_elements r; output_elements := output_elements r;
  measured_energy_kwh := measured_energy_kwh r; measured_energy_available := measured_energy_available r |}.

Definition with_hardware (inventory selection : string) (r : InferenceResult) : InferenceResult := {|
  ir_status := ir_status r; ir_backend := ir_backend r; backend_name := backend_name r; provider_name := provider_name r;
  reason := reason r; output_f32 := output_f32 r;
  evidence_json_fragment := evidence_json_fragment r; telemetry_json_fragment := telemetry_json_fragment r;
  hardware_inventory_json := inventory; hardware_selection_json := selection;
  selected_device_class := selected_device_class r; selected_device_id := selected_device_id r;
  latency_ns := latency_ns r; input_elements := input_elements r; output_elements := output_elements r;
  measured_energy_kwh := measured_energy_kwh r; measured_energy_available := measured_energy_available r |}.

Definition attachTelemetryScalars (record : TelemetryRecord) (r : InferenceResult) : InferenceResult := {|
  ir_status := ir_status r; ir_backend := ir_backend r; backend_name := backend_name r; provider_name := provider_name r;
  reason := reason r; output_f32 := output_f32 r;
  evidence_json_fragment := evidence_json_fragment r; telemetry_json_fragment := telemetry_json_fragment r;
  hardware_inventory_json := hardware_inventory_json r; hardware_selection_json := hardware_selection_json r;
  selected_device_class := selected_device_class r; selected_device_id := selected_device_id r;
  latency_ns := tr_latency_ns record; input_elements := tr_input_elements record; output_elements := tr_output_elements record;
  measured_energy_kwh := tr_measured_energy_kwh record; measured_energy_available := tr_measured_energy_available record |}.

Definition attachTelemetry (record : TelemetryRecord) (r : InferenceResult) : InferenceResult :=
  with_telemetry (telemetryToJson record) (attachTelemetryScalars record r).

(** * ONNX Runtime *)

(** A failed call: the library's own exception or a standard one. *)
Inductive exn := OrtException (what : string) | StdException (what : string).
Definition what (e : exn) : string := match e with OrtException t | StdException t => t end.

Record TensorInfo := { ti_float : bool; ti_shape : list Z; ti_count : Z }.
Record OrtValue := { ov_tensor : bool; ov_info : TensorInfo; ov_data : list spec_float }.

(** The session options the backends set; the graph optimisation level is
    always the basic one. *)
Record SessionOptions := {
  intra_op_threads : Z; inter_op_threads : option Z; sequential : bool; config_entries : list (string * string);
}.

Class OrtApi := {
  OrtSession : Type;
  ort_telemetry_disabled : bool;
  ort_version : string;
  hardware_concurrency : Z;
  ort_open_path : World → string → SessionOptions → exn + OrtSession;
  ort_open_bytes : list byte → SessionOptions → exn + OrtSession;
  ort_input_count : OrtSession → Z;
  ort_output_count : OrtSession → Z;
  ort_input_name : OrtSession → string;
  ort_output_name : OrtSession → string;
  ort_input_info : OrtSession → exn + TensorInfo;
  ort_output_info : OrtSession → exn + TensorInfo;
  ort_run : OrtSession → string → list spec_float → list Z → string → exn + list OrtValue;
  (** with a destination: the memory holds what was written, also on failure *)
  ort_run_into : OrtSession → string → list spec_float → list Z → string → list spec_float → list Z →
                 (exn + OrtValue) * list spec_float;
}.

(** * Prepared sessions *)

Record InferenceConfiguration := { threads : Z; maximum_tensor_elements : Z; model_bytes : list byte }.
Definition default_configuration : InferenceConfiguration :=
  {| threads := 1; maximum_tensor_elements := 16 * 1024 * 1024; model_bytes := [] |}.

(** The floats a buffer gives access to, when the memory is there. *)
Definition f32_values (b : TensorBuffer) : option (list spec_float) :=
  match f32Data b with
  | None => None
  | Some d => if f32Size b <=? Z.of_nat (length d) then Some (take (Z.to_nat (f32Size b)) d) else None
  end.

Section Backends.
Context `{Platform} `{OrtApi}.

Record PreparedInference := {
  session_ : OrtSession; maximum_ : Z; in_ : TensorSpec; out_ : TensorSpec; in_name_ : string; out_name_ : string;
}.

Definition ortEnv : option exn :=
  if ort_telemetry_disabled then None else Some (StdException "onnx_vendor_telemetry_opt_out_failed").

Fixpoint spec_loop (maximum count : Z) (has_declared : bool) (shape declared : list Z) : string + (list Z * Z) :=
  match shape with
  | [] => inr ([], count)
  | s :: rest =>
      let d := hd 0 declared in
      match (if s <=? 0 then (if has_declared && (0 <? d) then Some d else None) else Some s) with
      | None => inl "dynamic_shape_requires_concrete_workload"
      | Some s =>
          if has_declared && negb (d =? s) then inl "declared_model_shape_mismatch"
          else if maximum / count <? u64 s then inl "prepared_tensor_size_limit"
          else match spec_loop maximum (u64 (count * s)) has_declared rest (tl declared) with
               | inl e => inl e
               | inr (shape, count) => inr (s :: shape, count)
               end
      end
  end.

Definition session_spec (maximum : Z) (info : TensorInfo) (name : string) (declared : TensorSpec) : string + TensorSpec :=
  if negb (ti_float info) then inl "prepared_tensor_precision_not_float32"
  else if bool_decide (ti_shape info = []) ||
          (negb (bool_decide (shape declared = [])) && negb (Nat.eqb (length (shape declared)) (length (ti_shape info))))
  then inl "declared_model_rank_mismatch"
  else match spec_loop maximum 1 (negb (bool_decide (shape declared = []))) (ti_shape info) (shape declared) with
       | inl e => inl e
       | inr (dims, count) =>
           inr {| tn_name := name; element_type := Float32; shape := dims; dynamic := false; element_count := count |}
       end.

Definition prepared_options (n : Z) : SessionOptions := {|
  intra_op_threads := n; inter_op_threads := Some 1; sequential := true;
  config_entries := [("session.intra_op.allow_spinning", "0"); ("session.inter_op.allow_spinning", "0")] |}.

(** [OnnxPreparedSession::OnnxPreparedSession], with the text of the exception. *)
Definition new_prepared_session (w : World) (m : ModelSpec) (c : InferenceConfiguration) : string + PreparedInference :=
  let maximum := maximum_tensor_elements c in
  if negb (bool_decide (ms_format m = Onnx)) || negb (bool_decide (ms_precision m = "float32"))
  then inl "prepared_execution_requires_onnx_float32"
  else if (threads c =? 0) || (Z.max 1 hardware_concurrency <? threads c) || (256 <? threads c) ||
          (maximum =? 0) || (16 * 1024 * 1024 <? maximum)
  then inl "invalid_prepared_configuration"
  else if is_empty (ms_path m) then inl "missing_model_path"
  else match ortEnv with
  | Some e => inl (what e)
  | None =>
    match (if bool_decide (model_bytes c = []) then ort_open_path w (ms_path m) (prepared_options (threads c))
           else ort_open_bytes (model_bytes c) (prepared_options (threads c))) with
    | inl e => inl (what e)
    | inr session =>
        if negb (ort_input_count session =? 1) || negb (ort_output_count session =? 1)
        then inl "prepared_execution_requires_single_input_and_output"
        else match ort_input_info session, ort_output_info session with
        | inl e, _ => inl (what e)
        | inr it, o =>
            match session_spec maximum it (ort_input_name session) (ms_input m), o with
            | inl e, _ => inl e
            | inr _, inl e => inl (what e)
            | inr i, inr ot =>
                match session_spec maximum ot (ort_output_name session) (ms_output m) with
                | inl e => inl e
                | inr o => inr {| session_ := session; maximum_ := maximum; in_ := i; out_ := o;
                                  in_name_ := ort_input_name session; out_name_ := ort_output_name session |}
                end
            end
        end
    end
  end.

Definition inputSpec (p : PreparedInference) : TensorSpec := in_ p.
Definition outputSpec (p : PreparedInference) : TensorSpec := out_ p.
Definition runtimeVersion (p : PreparedInference) : string := ort_version.

(** The result both run methods start from. *)
Definition prepared_result : InferenceResult :=
  with_device "cpu" "cpu:0" (with_source OnnxRuntimeCPU "onnxruntime_cpu" "onnxruntime_cpu" no_inference).

Definition attach_prepared (application_validated : bool) (w : World) (status : string) (input : TensorBuffer)
    (n : Z) (r : InferenceResult) : InferenceResult :=
  let record := finish w "onnxruntime_cpu" "prepared_inference" status (reason r) (f32Size input) n in
  if application_validated then attachTelemetryScalars record r else attachTelemetry record r.

(** The handler of both run methods. *)
Definition prepared_failure (application_validated : bool) (w : World) (input : TensorBuffer) (why : string) : InferenceResult :=
  attach_prepared application_validated w "runtime_error" input 0
    (with_output [] (with_status RuntimeError why prepared_result)).

(** The checks of the input; [inr] holds the floats, [None] that the memory
    behind the pointer is shorter than the buffer says. *)
Definition check_prepared_input (application_validated : bool) (p : PreparedInference) (input : TensorBuffer)
    : option (string + list spec_float) :=
  if bool_decide (f32Data input = None) || negb (bool_decide (element_type (spec input) = Float32)) ||
     negb (bool_decide (shape (spec input) = shape (in_ p))) || negb (f32Size input =? element_count (in_ p))
  then Some (inl "prepared_input_shape_or_dtype_mismatch")
  else match f32_values input with
       | None => None
       | Some values =>
           if negb application_validated && negb (forallb isfinite values) then Some (inl "nonfinite_prepared_input")
           else Some (inr values)
       end.

(** [runIntoImpl]: the result and the destination afterwards. *)
Definition runIntoImpl (application_validated : bool) (w : World) (p : PreparedInference) (input : TensorBuffer)
    (output : option (list spec_float)) (n : Z) : outcome (InferenceResult * option (list spec_float)) :=
  let failed why mem := Done (prepared_failure application_validated w input why, mem) in
  match output with
  | None => failed "invalid_preallocated_output" None
  | Some memory =>
      if negb (n =? element_count (out_ p)) then failed "invalid_preallocated_output" output
      else match check_prepared_input application_validated p input with
      | None => Undefined "input read past its memory"
      | Some (inl why) => failed why output
      | Some (inr values) =>
          if Z.of_nat (length memory) <? n then Undefined "output written past its memory"
          else
          let r := ort_run_into (session_ p) (in_name_ p) values (shape (in_ p)) (out_name_ p)
                     (take (Z.to_nat n) memory) (shape (out_ p)) in
          let memory := (r.2 ++ drop (Z.to_nat n) memory)%list in
          match r.1 with
          | inl e => failed (what e) (Some memory)
          | inr value =>
              if negb (ov_tensor value) then failed "prepared_output_not_tensor" (Some memory)
              else let info := ov_info value in
              if negb (ti_float info) || negb (bool_decide (ti_shape info = shape (out_ p))) ||
                 negb (ti_count info =? element_count (out_ p))
              then failed "prepared_output_shape_or_dtype_mismatch" (Some memory)
              else Done (attach_prepared application_validated w "success" input n
                           (with_output_elements n (with_status Success "executed" prepared_result)), Some memory)
          end
      end
  end.

(** [runImpl] *)
Definition runImpl (application_validated : bool) (w : World) (p : PreparedInference) (input : TensorBuffer)
    : outcome InferenceResult :=
  let failed why := Done (prepared_failure application_validated w input why) in
  match check_prepared_input application_validated p input with
  | None => Undefined "input read past its memory"
  | Some (inl why) => failed why
  | Some (inr values) =>
      match ort_run (session_ p) (in_name_ p) values (shape (in_ p)) (out_name_ p) with
      | inl e => failed (what e)
      | inr [value] =>
          if negb (ov_tensor value) then failed "prepared_output_not_tensor"
          else let info := ov_info value in
          if negb (ti_float info) || negb (bool_decide (ti_shape info = shape (out_ p))) ||
             negb (ti_count info =? element_count (out_ p))
          then failed "prepared_output_shape_or_dtype_mismatch"
          else
            let data := take (Z.to_nat (element_count (out_ p))) (ov_data value) in
            Done (attach_prepared application_validated w "success" input (Z.of_nat (length data))
                    (with_status Success "executed" (with_output data prepared_result)))
      | inr _ => failed "prepared_output_not_tensor"
      end
  end.

Definition run (w : World) (p : PreparedInference) (input : TensorBuffer) : outcome InferenceResult := runImpl false w p input.
Definition runInto (w : World) (p : PreparedInference) (input : TensorBuffer) (output : option (list spec_float)) (n : Z)
    : outcome (InferenceResult * option (list spec_float)) := runIntoImpl false w p input output n.
Definition runApplicationValidated (w : World) (p : PreparedInference) (input : TensorBuffer) : outcome InferenceResult :=
  runImpl true w p input.
Definition runApplicationValidatedInto (w : World) (p : PreparedInference) (input : TensorBuffer)
    (output : option (list spec_float)) (n : Z) : outcome (InferenceResult * option (list spec_float)) :=
  runIntoImpl true w p input output n.

(** * Backends *)

(** The classes derived from [AIBackend]. *)
Inductive AIBackend :=
| TensorRTBackend | OnnxRuntimeBackend | OpenVINOBackend | LibTorchBackend | LlamaCppBackend | FallbackBackend.

Definition kind (b : AIBackend) : BackendKind :=
  match b with
  | TensorRTBackend => TensorRT
  | OnnxRuntimeBackend => OnnxRuntimeCPU
  | OpenVINOBackend => OpenVINO
  | LibTorchBackend => LibTorch
  | LlamaCppBackend => LlamaCpp
  | FallbackBackend => Fallback
  end.

Definition name (b : AIBackend) : string :=
  match b with
  | TensorRTBackend => "tensorrt"
  | OnnxRuntimeBackend => "onnxruntime_cpu"
  | OpenVINOBackend => "openvino"
  | LibTorchBackend => "libtorch"
  | LlamaCppBackend => "llamacpp"
  | FallbackBackend => "fallback"
  end.

(** The capabilities of a backend whose SDK calls are not written yet. *)
Definition pending (k : BackendKind) (n sdk : string) (built engine torchscript openvino gguf : bool) : BackendCapabilities := {|
  bc_kind := k; bc_name := n; bc_available := false; supports_onnx := false; supports_engine := engine;
  supports_torchscript := torchscript; supports_openvino_ir := openvino; supports_gguf := gguf;
  supported_precisions := ["float32"; "float16"; "int8"];
  unavailable_reason := if built then sdk +:+ " SDK detected but direct execution is not yet enabled"
                        else n +:+ " backend not built. Set SDK root and enable the matching SHORTHAND_ENABLE option." |}.

Definition capabilities (b : AIBackend) : BackendCapabilities :=
  match b with
  | TensorRTBackend => pending TensorRT "tensorrt" "TensorRT" has_tensorrt true false false false
  | OpenVINOBackend => pending OpenVINO "openvino" "OpenVINO" has_openvino false false true false
  | LibTorchBackend => pending LibTorch "libtorch" "LibTorch" has_libtorch false true false false
  | LlamaCppBackend => pending LlamaCpp "llamacpp" "llama.cpp" has_llamacpp false false false true
  | OnnxRuntimeBackend => {|
      bc_kind := OnnxRuntimeCPU; bc_name := "onnxruntime_cpu"; bc_available := has_onnxruntime; supports_onnx := true;
      supports_engine := false; supports_torchscript := false; supports_openvino_ir := false; supports_gguf := false;
      supported_precisions := ["float32"; "float16"; "int8"; "int32"];
      unavailable_reason := if has_onnxruntime then "" else
        "ONNX Runtime backend not built. Set ONNXRUNTIME_ROOT and enable SHORTHAND_ENABLE_ONNXRUNTIME." |}
  | FallbackBackend => {|
      bc_kind := Fallback; bc_name := "fallback"; bc_available := true; supports_onnx := true; supports_engine := true;
      supports_torchscript := true; supports_openvino_ir := true; supports_gguf := true;
      supported_precisions := []; unavailable_reason := "" |}
  end.

Definition canLoad (b : AIBackend) (m : ModelSpec) : bool :=
  match b with
  | FallbackBackend => ms_allow_fallback m
  | _ => bc_available (capabilities b) && backendSupportsFormat (capabilities b) (ms_format m)
  end.

Definition stripQuotes (value : string) : string :=
  if (2 <=? str_size value) && bool_decide (front value = Some chr_quote) && bool_decide (back value = Some chr_quote)
  then String.substring 1 (String.length value - 2) value else value.

Definition shapeToString (dims : list Z) : string := comma_joined (map pretty dims).

(** The rest of [OnnxRuntimeBackend::infer] once a session is open. *)
Definition onnx_session_infer (model : ModelSpec) (input : TensorBuffer) (session : OrtSession)
    (finished : InferenceStatus → string → string → Z → InferenceResult → InferenceResult) (r : InferenceResult)
    : outcome (exn + InferenceResult) :=
  let stop why := Done (inr (finished RuntimeError "runtime_error" why 0 r)) in
  if (ort_input_count session =? 0) || (ort_output_count session =? 0) then stop "onnx_model_missing_input_or_output"
  else if is_empty (ort_input_name session) || is_empty (ort_output_name session) then stop "onnxruntime_failed_to_read_io_names"
  else match f32_values input with
  | None => Undefined "input read past its memory"
  | Some values =>
  match ort_run session (ort_input_name session) values (shape (spec input)) (ort_output_name session) with
  | inl e => Done (inl e)
  | inr [] => stop "onnxruntime_output_not_tensor"
  | inr (value :: _) =>
      let info := ov_info value in
      if negb (ov_tensor value) then stop "onnxruntime_output_not_tensor"
      else if negb (ti_float info) then stop "onnxruntime_output_not_float32"
      else if validateShape (shape (ms_output model)) && negb (bool_decide (ti_shape info = shape (ms_output model)))
      then stop "onnxruntime_output_shape_mismatch"
      else
        let r := finished Success "success" "executed" (ti_count info)
                   (with_output (take (Z.to_nat (ti_count info)) (ov_data value)) r) in
        Done (inr (with_evidence
               (dq "{'runtime_backend':'onnxruntime_cpu','provider':'CPUExecutionProvider','inference_status':'success','input_shape':'" +:+
                shapeToString (shape (spec input)) +:+ dq "','output_elements':" +:+ pretty (ti_count info) +:+
                dq ",'telemetry':" +:+ telemetry_json_fragment r +:+ "}") r))
  end
  end.

(** [OnnxRuntimeBackend::infer] *)
Definition onnx_infer (w : World) (model : ModelSpec) (input : TensorBuffer) : outcome InferenceResult :=
  let r := with_source OnnxRuntimeCPU "onnxruntime_cpu" "onnxruntime_cpu" no_inference in
  let finished status text why n r :=
    let r := with_status status why r in
    attachTelemetry (finish w "onnxruntime_cpu" (if is_empty (ms_name model) then stripQuotes (ms_path model) else ms_name model)
                       text why (f32Size input) n) r in
  let invalid why := Done (finished InvalidInput "invalid_input" why 0 r) in
  if negb (validateInputMatchesShape input) then invalid "input_shape_mismatch"
  else if negb (bool_decide (ms_format model = Onnx)) then invalid "onnxruntime_cpu_requires_onnx_model"
  else if bool_decide (f32Data input = None) || (f32Size input =? 0)
  then invalid "onnxruntime_cpu_currently_requires_float32_input"
  else if negb has_onnxruntime then
    Done (finished BackendUnavailable "backend_unavailable" (unavailable_reason (capabilities OnnxRuntimeBackend)) 0 r)
  else if is_empty (stripQuotes (ms_path model)) then invalid "missing_model_path"
  else
    let opened := match ortEnv with
                  | Some e => inl e
                  | None => ort_open_path w (stripQuotes (ms_path model))
                              {| intra_op_threads := 1; inter_op_threads := None; sequential := false; config_entries := [] |}
                  end in
    match (match opened with inl e => Done (inl e) | inr session => onnx_session_infer model input session finished r end) with
    | Done (inr r) => Done r
    | Done (inl (OrtException t)) => Done (finished RuntimeError "runtime_error" ("onnxruntime_exception:" +:+ t) 0 r)
    | Done (inl (StdException t)) => Done (finished RuntimeError "runtime_error" ("std_exception:" +:+ t) 0 r)
    | Undefined e => Undefined e
    | OutOfFuel => OutOfFuel
    end.

Definition backend_infer (b : AIBackend) (w : World) (model : ModelSpec) (input : TensorBuffer) : outcome InferenceResult :=
  match b with
  | OnnxRuntimeBackend => onnx_infer w model input
  | FallbackBackend => Done no_inference
  | _ => Done (with_status BackendUnavailable (unavailable_reason (capabilities b))
                 (with_source (kind b) (name b) "none" no_inference))
  end.

Definition backend_prepare (b : AIBackend) (w : World) (model : ModelSpec) (c : InferenceConfiguration) : string + PreparedInference :=
  match b with
  | OnnxRuntimeBackend => if has_onnxruntime then new_prepared_session w model c else inl "onnxruntime_sdk_unavailable"
  | _ => inl "prepared_execution_unavailable"
  end.

(** * The registry *)

(** The backends [registerBackends] creates, in order. *)
Definition registered_backends : list AIBackend :=
  [TensorRTBackend; OnnxRuntimeBackend; OpenVINOBackend; LibTorchBackend; LlamaCppBackend; FallbackBackend].

Definition registry_capabilities (registry : list AIBackend) : list BackendCapabilities := map capabilities registry.

Fixpoint select_backend (want : BackendKind) (model : ModelSpec) (registry : list AIBackend) : option AIBackend :=
  match registry with
  | [] => None
  | backend :: rest =>
      if negb (bool_decide (kind backend = want)) then select_backend want model rest
      else if negb (bc_available (capabilities backend)) && negb (bool_decide (want = Fallback)) then select_backend want model rest
      else if negb (canLoad backend model) && negb (bool_decide (want = Fallback)) then select_backend want model rest
      else if bool_decide (want = Fallback) && (negb (ms_allow_fallback model) &&
              negb (bool_decide (Fallback ∈ ms_backend_preference model))) then select_backend want model rest
      else Some backend
  end.

Fixpoint select_preferred (pref : list BackendKind) (model : ModelSpec) (registry : list AIBackend) : option AIBackend :=
  match pref with
  | [] => None
  | want :: rest =>
      match select_backend want model registry with
      | Some b => Some b
      | None => select_preferred rest model registry
      end
  end.

(** [BackendRegistry::select] *)
Definition select (registry : list AIBackend) (model : ModelSpec) : option AIBackend :=
  let pref := if bool_decide (ms_backend_preference model = []) then [OnnxRuntimeCPU; Fallback] else ms_backend_preference model in
  let pref := if ms_allow_fallback model && negb (bool_decide (Fallback ∈ pref)) then (pref ++ [Fallback])%list else pref in
  select_preferred pref model registry.
End Backends.
