(* ===== verification/AiRuntime.v ===== *)
(** Component: the AI runtime (ai_runtime/AI_Runtime.h and .cpp).

    [AIRuntime] routes a model to a device and a backend and runs it.  It keeps
    the device inventory while the probe reports the same generation, and the
    last route while the same model asks again; the caller owns a cache with one
    prepared session, reused while the model and the bytes of its file are the
    same.  The runtime is the state of the monad, the cache and the destination
    of the outputs are passed and returned. *)
From Stdlib Require Import SpecFloat Strings.Byte.
From S2P Require Import Prelude CxxInt CxxString CxxFloat AiTypes JsonText HardwareRouting AiBackends.
Open Scope string_scope.
Open Scope Z_scope.

(** * Model identity and snapshots *)

#[export] Instance byte_eq_dec : EqDecision byte := Byte.byte_eq_dec.

Definition sameTensor (a b : TensorSpec) : bool :=
  bool_decide (tn_name a = tn_name b) && bool_decide (element_type a = element_type b) &&
  bool_decide (shape a = shape b) && Bool.eqb (dynamic a) (dynamic b) && (element_count a =? element_count b).

Definition sameModel (a b : ModelSpec) : bool :=
  bool_decide (ms_name a = ms_name b) && bool_decide (ms_path a = ms_path b) &&
  bool_decide (ms_format a = ms_format b) && bool_decide (ms_task a = ms_task b) &&
  bool_decide (ms_precision a = ms_precision b) && sameTensor (ms_input a) (ms_input b) &&
  sameTensor (ms_output a) (ms_output b) &&
  bool_decide (ms_backend_preference a = ms_backend_preference b) && Bool.eqb (ms_compact a) (ms_compact b) &&
  Bool.eqb (ms_allow_fallback a) (ms_allow_fallback b) && bool_decide (ms_quality_metric a = ms_quality_metric b) &&
  bool_decide (ms_quality_op a = ms_quality_op b) && deqb (ms_quality_threshold a) (ms_quality_threshold b).

(** The bytes of a model that may be cached; on [None] the callers clear the
    buffer the code reads into. *)
Definition readCacheableSnapshot (w : World) (model : ModelSpec) : option (list byte) :=
  if negb (bool_decide (ms_format model = Onnx)) || negb (bool_decide (ms_precision model = "float32")) then None
  else match open_file w (ms_path model) with
  | None => None
  | Some (size, bytes) =>
      if (size <=? 0) || (16 * 1024 * 1024 <? size) then None
      else if Z.of_nat (length bytes) =? size then Some bytes else None
  end.

(** * Results *)

Definition attachHardwareEvidence (result : InferenceResult) (route : HardwareRoute) : InferenceResult :=
  let result := with_hardware (inventory_json route) (selection_json route) result in
  let result := with_device (if selected route then deviceClassToString (route_device_class route) else "none")
                            (if selected route then route_device_id route else "none") result in
  with_telemetry
    (dq "{'schema':'shorthand.ai_runtime.telemetry.v2'" +:+
     dq ",'hardware_inventory':" +:+ inventory_json route +:+
     dq ",'hardware_selection':" +:+ selection_json route +:+
     (if negb (is_empty (telemetry_json_fragment result)) && negb (bool_decide (telemetry_json_fragment result = "{}"))
      then dq ",'backend_telemetry':" +:+ telemetry_json_fragment result else "") +:+
     (if negb (is_empty (evidence_json_fragment result))
      then dq ",'execution_evidence':" +:+ evidence_json_fragment result else "") +:+ "}") result.

Definition writeRequestedOutput (result : InferenceResult) (output : option (list spec_float)) (n : Z)
    : outcome (InferenceResult * option (list spec_float)) :=
  match output with
  | None => Done (result, None)
  | Some memory =>
      if negb (bool_decide (ir_status result = Success)) then Done (result, output)
      else if (n =? 0) || negb (Z.of_nat (length (output_f32 result)) =? n) then
        Done (with_output_elements 0 (with_output [] (with_status RuntimeError "runtime_output_size_mismatch" result)), output)
      else if Z.of_nat (length memory) <? n then Undefined "output written past its memory"
      else Done (with_output_elements n (with_output [] result),
                 Some (output_f32 result ++ drop (length (output_f32 result)) memory)%list)
  end.

Definition unavailableResult (why : string) : InferenceResult :=
  with_output [] (with_status BackendUnavailable why (with_source Fallback "none" "none" no_inference)).

Definition input_mismatch_result : InferenceResult :=
  with_status InvalidInput "input_shape_mismatch" (with_source Fallback "none" "none" no_inference).

Section Runtime.
Context `{Platform} `{OrtApi}.

(** * The session cache *)

Record PreparedInferenceCache := {
  pc_model : ModelSpec; pc_snapshot : list byte; pc_candidate : list byte;
  pc_session : option PreparedInference; preparations : Z;
}.

Definition new_cache : PreparedInferenceCache :=
  {| pc_model := no_model_spec; pc_snapshot := []; pc_candidate := []; pc_session := None; preparations := 0 |}.

Definition clear (c : PreparedInferenceCache) : PreparedInferenceCache :=
  {| pc_model := no_model_spec; pc_snapshot := []; pc_candidate := []; pc_session := None; preparations := preparations c |}.

Definition with_candidate (bytes : list byte) (c : PreparedInferenceCache) : PreparedInferenceCache :=
  {| pc_model := pc_model c; pc_snapshot := pc_snapshot c; pc_candidate := bytes; pc_session := pc_session c;
     preparations := preparations c |}.

(** * The runtime *)

Record AIRuntime := {
  registry : list AIBackend;
  hardware_probe_ : HardwareProbe;
  hardware_policy_ : HardwareRoutingPolicy;
  policy_environment_state_ : list string;
  policy_environment_state_valid_ : bool;
  hardware_generation_token_ : Z;
  hardware_devices_ : list HardwareDeviceCapability;
  hardware_inventory_valid_ : bool;
  route_model_ : ModelSpec;
  route_cache_ : option HardwareRoute;
  hardware_probe_count_ : Z;
}.

(** [AIRuntime(probe, policy)] *)
Definition runtime_with (probe : HardwareProbe) (policy : HardwareRoutingPolicy) : AIRuntime := {|
  registry := registered_backends; hardware_probe_ := probe; hardware_policy_ := policy;
  policy_environment_state_ := repeat "" 5; policy_environment_state_valid_ := false;
  hardware_generation_token_ := 0; hardware_devices_ := []; hardware_inventory_valid_ := false;
  route_model_ := no_model_spec; route_cache_ := None; hardware_probe_count_ := 0 |}.

Definition with_policy (policy : HardwareRoutingPolicy) (state : list string) (route : option HardwareRoute)
    (r : AIRuntime) : AIRuntime := {|
  registry := registry r; hardware_probe_ := hardware_probe_ r; hardware_policy_ := policy;
  policy_environment_state_ := state; policy_environment_state_valid_ := true;
  hardware_generation_token_ := hardware_generation_token_ r; hardware_devices_ := hardware_devices_ r;
  hardware_inventory_valid_ := hardware_inventory_valid_ r; route_model_ := route_model_ r;
  route_cache_ := route; hardware_probe_count_ := hardware_probe_count_ r |}.

(** [AIRuntime()] *)
Definition new_runtime (w : World) : AIRuntime :=
  let policy := hardwareRoutingPolicyFromEnvironment w in
  with_policy policy (captureHardwareRoutingPolicyEnvironment w) None
    (runtime_with (SystemHardwareProbe new_generation_state) policy).

Definition runtime_capabilities (r : AIRuntime) : list BackendCapabilities := registry_capabilities (registry r).

Definition refreshPolicyFromEnvironment (w : World) (r : AIRuntime) : AIRuntime :=
  if policy_environment_state_valid_ r && hardwareRoutingPolicyEnvironmentMatches w (policy_environment_state_ r) then r
  else with_policy (hardwareRoutingPolicyFromEnvironment w) (captureHardwareRoutingPolicyEnvironment w) None r.

Definition with_inventory (probe : HardwareProbe) (token : Z) (devices : list HardwareDeviceCapability) (r : AIRuntime)
    : AIRuntime := {|
  registry := registry r; hardware_probe_ := probe; hardware_policy_ := hardware_policy_ r;
  policy_environment_state_ := policy_environment_state_ r;
  policy_environment_state_valid_ := policy_environment_state_valid_ r;
  hardware_generation_token_ := token; hardware_devices_ := devices; hardware_inventory_valid_ := true;
  route_model_ := route_model_ r; route_cache_ := None; hardware_probe_count_ := u64 (hardware_probe_count_ r + 1) |}.

Definition with_probe (probe : HardwareProbe) (r : AIRuntime) : AIRuntime := {|
  registry := registry r; hardware_probe_ := probe; hardware_policy_ := hardware_policy_ r;
  policy_environment_state_ := policy_environment_state_ r;
  policy_environment_state_valid_ := policy_environment_state_valid_ r;
  hardware_generation_token_ := hardware_generation_token_ r; hardware_devices_ := hardware_devices_ r;
  hardware_inventory_valid_ := hardware_inventory_valid_ r;
  route_model_ := route_model_ r; route_cache_ := route_cache_ r; hardware_probe_count_ := hardware_probe_count_ r |}.

Definition with_route (model : ModelSpec) (route : HardwareRoute) (r : AIRuntime) : AIRuntime := {|
  registry := registry r; hardware_probe_ := hardware_probe_ r; hardware_policy_ := hardware_policy_ r;
  policy_environment_state_ := policy_environment_state_ r;
  policy_environment_state_valid_ := policy_environment_state_valid_ r;
  hardware_generation_token_ := hardware_generation_token_ r; hardware_devices_ := hardware_devices_ r;
  hardware_inventory_valid_ := hardware_inventory_valid_ r;
  route_model_ := model; route_cache_ := Some route; hardware_probe_count_ := hardware_probe_count_ r |}.

Record ResolvedRoute := { route : HardwareRoute; cache_hit : bool; hardware_probes : Z }.

Definition refresh_inventory (w : World) (r : AIRuntime) : AIRuntime :=
  let '(token, probe) := generationToken w (hardware_probe_ r) in
  if (token =? 0) || negb (hardware_inventory_valid_ r) || negb (token =? hardware_generation_token_ r)
  then with_inventory probe token (probe_devices w probe) r
  else with_probe probe r.

Definition computed_route (w : World) (r : AIRuntime) (model : ModelSpec) : HardwareRoute :=
  enforceProductionBackendQualification w
    (selectHardwareRoute (hardware_devices_ r) (registry_capabilities (registry r)) model (hardware_policy_ r)).

Definition routeForModel (w : World) (model : ModelSpec) (r : AIRuntime) : ResolvedRoute * AIRuntime :=
  let r := refresh_inventory w r in
  match route_cache_ r with
  | Some cached =>
      if sameModel (route_model_ r) model then
        ({| route := cached; cache_hit := true; hardware_probes := hardware_probe_count_ r |}, r)
      else
        let fresh := computed_route w r model in
        ({| route := fresh; cache_hit := false; hardware_probes := hardware_probe_count_ r |}, with_route model fresh r)
  | None =>
      let fresh := computed_route w r model in
      ({| route := fresh; cache_hit := false; hardware_probes := hardware_probe_count_ r |}, with_route model fresh r)
  end.

Definition restrict (model : ModelSpec) (backend : BackendKind) (fallback : bool) : ModelSpec := {|
  ms_name := ms_name model; ms_path := ms_path model; ms_format := ms_format model; ms_task := ms_task model;
  ms_precision := ms_precision model; ms_input := ms_input model; ms_output := ms_output model;
  ms_backend_preference := [backend]; ms_compact := ms_compact model; ms_allow_fallback := fallback;
  ms_quality_metric := ms_quality_metric model; ms_quality_op := ms_quality_op model;
  ms_quality_threshold := ms_quality_threshold model |}.

(** [AIRuntime::prepare], with the error text. *)
Definition prepare (w : World) (model : ModelSpec) (c : InferenceConfiguration) (r : AIRuntime)
    : (string + PreparedInference) * AIRuntime :=
  let '(resolved, r) := routeForModel w model r in
  let rt := route resolved in
  if negb (selected rt) then (inl (route_reason rt), r)
  else
    let routed := restrict model (route_backend rt) false in
    match select (registry r) routed with
    | None => (inl "prepared_backend_unavailable", r)
    | Some backend => (backend_prepare backend w routed c, r)
    end.

Definition cache_evidence (hit : bool) (resolved : ResolvedRoute) (c : PreparedInferenceCache) (preallocated : bool) : string :=
  dq "{'schema':'shorthand.prepared_cache.v1','hit':" +:+ true_false hit +:+
  dq ",'preparations':" +:+ pretty (preparations c) +:+
  dq ",'route_cache_hit':" +:+ true_false (cache_hit resolved) +:+
  dq ",'hardware_probes':" +:+ pretty (hardware_probes resolved) +:+
  dq ",'preallocated_output':" +:+ true_false preallocated +:+ "}".

(** Whether the cached session serves the bytes just read. *)
Definition session_hit (c : PreparedInferenceCache) (routed : ModelSpec) : bool :=
  bool_decide (is_Some (pc_session c)) && sameModel (pc_model c) routed && bool_decide (pc_snapshot c = pc_candidate c).

(** A miss: the candidate bytes move into the configuration, the cache is
    cleared, and a session that can be prepared takes their place. *)
Definition refill (w : World) (backend : AIBackend) (routed : ModelSpec) (c : PreparedInferenceCache) : PreparedInferenceCache :=
  let configuration := {| threads := threads default_configuration;
                          maximum_tensor_elements := maximum_tensor_elements default_configuration;
                          model_bytes := pc_candidate c |} in
  let c := clear c in
  match backend_prepare backend w routed configuration with
  | inl _ => c
  | inr session => {| pc_model := routed; pc_snapshot := model_bytes configuration; pc_candidate := [];
                      pc_session := Some session; preparations := u64 (preparations c + 1) |}
  end.

(** [output ? session->runInto(...) : session->run(...)] *)
Definition session_run (w : World) (session : PreparedInference) (input : TensorBuffer)
    (output : option (list spec_float)) (n : Z) : outcome (InferenceResult * option (list spec_float)) :=
  match output with
  | Some _ => runInto w session input output n
  | None => match run w session input with
            | Done r => Done (r, None)
            | Undefined e => Undefined e
            | OutOfFuel => OutOfFuel
            end
  end.

(** The branch without a cached session. *)
Definition backend_run (w : World) (backend : AIBackend) (routed : ModelSpec) (input : TensorBuffer)
    (output : option (list spec_float)) (n : Z) : outcome (InferenceResult * option (list spec_float)) :=
  match backend_infer backend w routed input with
  | Done r => writeRequestedOutput r output n
  | Undefined e => Undefined e
  | OutOfFuel => OutOfFuel
  end.

Definition call_result : Type := InferenceResult * option PreparedInferenceCache * option (list spec_float).

(** Inference on the selected backend. *)
Definition routed_infer (w : World) (backend : AIBackend) (resolved : ResolvedRoute) (routed : ModelSpec) (input : TensorBuffer)
    (cache : option PreparedInferenceCache) (output : option (list spec_float)) (n : Z) : outcome call_result :=
  let rt := route resolved in
  let uncached cache :=
    match backend_run w backend routed input output n with
    | Done (r, output) => Done (attachHardwareEvidence r rt, cache, output)
    | Undefined e => Undefined e
    | OutOfFuel => OutOfFuel
    end in
  match cache with
  | None => uncached None
  | Some c =>
      if negb (bool_decide (route_backend rt = OnnxRuntimeCPU)) then uncached (Some (clear c))
      else match readCacheableSnapshot w routed with
      | None => uncached (Some (clear c))
      | Some bytes =>
          let c := with_candidate bytes c in
          let hit := session_hit c routed in
          let c := if hit then c else refill w backend routed c in
          match pc_session c with
          | None => uncached (Some c)
          | Some session =>
              match session_run w session input output n with
              | Done (r, written) =>
                  let r := with_evidence (cache_evidence hit resolved c (bool_decide (is_Some output))) r in
                  let c := if bool_decide (ir_status r = Success) then c else clear c in
                  Done (attachHardwareEvidence r rt, Some c, written)
              | Undefined e => Undefined e
              | OutOfFuel => OutOfFuel
              end
          end
      end
  end.

(** The end of [inferImpl], when no backend was selected. *)
Definition unrouted_infer (w : World) (r : AIRuntime) (rt : HardwareRoute) (model : ModelSpec) (input : TensorBuffer)
    : outcome InferenceResult :=
  let unqualified := bool_decide (route_reason rt = "backend_device_not_production_qualified") in
  let unavailable := Done (attachHardwareEvidence
    (unavailableResult (if unqualified then route_reason rt else "no_execution_ready_hardware_backend")) rt) in
  if ms_allow_fallback model then
    let fallback_model := restrict model Fallback true in
    match select (registry r) fallback_model with
    | Some backend =>
        match backend_infer backend w fallback_model input with
        | Done res =>
            Done (attachHardwareEvidence
              (with_output []
                (with_status NotExecuted (if unqualified then route_reason rt else "backend_not_available")
                  (with_source Fallback "fallback" "none" res))) rt)
        | Undefined e => Undefined e
        | OutOfFuel => OutOfFuel
        end
    | None => unavailable
    end
  else unavailable.

Definition inferImpl (w : World) (model : ModelSpec) (input : TensorBuffer) (cache : option PreparedInferenceCache)
    (output : option (list spec_float)) (n : Z) : SM AIRuntime call_result := λ r,
  let '(resolved, r) := routeForModel w model r in
  let rt := route resolved in
  let returned o := match o with
                    | Done v => Done (v, r)
                    | Undefined e => Undefined e
                    | OutOfFuel => OutOfFuel
                    end in
  let unrouted := match unrouted_infer w r rt model input with
                  | Done res => Done (res, option_map clear cache, output)
                  | Undefined e => Undefined e
                  | OutOfFuel => OutOfFuel
                  end in
  if negb (validateInputMatchesShape input) then
    Done (attachHardwareEvidence input_mismatch_result rt, cache, output, r)
  else if selected rt then
    let routed := restrict model (route_backend rt) false in
    match select (registry r) routed with
    | Some backend => returned (routed_infer w backend resolved routed input cache output n)
    | None => returned unrouted
    end
  else returned unrouted.

Definition infer (w : World) (model : ModelSpec) (input : TensorBuffer) : SM AIRuntime InferenceResult :=
  v ← inferImpl w model input None None 0; mret v.1.1.

Definition inferCached (w : World) (model : ModelSpec) (input : TensorBuffer) (cache : PreparedInferenceCache)
    : SM AIRuntime (InferenceResult * option PreparedInferenceCache) :=
  v ← inferImpl w model input (Some cache) None 0; mret v.1.

Definition inferCachedInto (w : World) (model : ModelSpec) (input : TensorBuffer) (cache : PreparedInferenceCache)
    (output : option (list spec_float)) (n : Z) : SM AIRuntime call_result :=
  if bool_decide (output = None) || (n =? 0) then
    mret (with_status InvalidInput "invalid_preallocated_output" no_inference, Some cache, output)
  else inferImpl w model input (Some cache) output n.

Definition inferPreparedCPUInto (w : World) (model : ModelSpec) (input : TensorBuffer) (session : PreparedInference)
    (output : option (list spec_float)) (n : Z) : SM AIRuntime (InferenceResult * option (list spec_float)) := λ r,
  let '(resolved, r) := routeForModel w model r in
  let rt := route resolved in
  if negb (selected rt) || negb (bool_decide (route_backend rt = OnnxRuntimeCPU)) then
    Done (attachHardwareEvidence (unavailableResult (route_reason rt)) rt, output, r)
  else if negb (validateInputMatchesShape input) then
    Done (attachHardwareEvidence (with_status InvalidInput "input_shape_mismatch" no_inference) rt, output, r)
  else match runInto w session input output n with
       | Done (res, written) => Done (attachHardwareEvidence res rt, written, r)
       | Undefined e => Undefined e
       | OutOfFuel => OutOfFuel
       end.

(** * The legacy interface *)

Record AI_Runtime := { model_path_ : string; last_error_ : string }.

Definition loadModel (model_path : string) (s : AI_Runtime) : bool * AI_Runtime :=
  if is_empty model_path then (false, {| model_path_ := model_path; last_error_ := "missing_model_path" |})
  else (true, {| model_path_ := model_path; last_error_ := "" |}).

Definition legacy_input (dims : list Z) (data : list spec_float) : TensorBuffer := {|
  spec := {| tn_name := "input"; element_type := Float32; shape := dims; dynamic := false; element_count := productOfShape dims |};
  f32_data := data; i8_data := []; external_f32_data := None; external_f32_count := 0; external_f32_bound := false |}.

Definition legacy_model (path : string) (input : TensorBuffer) : ModelSpec := {|
  ms_name := "legacy_onnx_model"; ms_path := path; ms_format := Onnx; ms_task := "inference"; ms_precision := "float32";
  ms_input := spec input;
  ms_output := {| tn_name := "output"; element_type := Float32; shape := []; dynamic := false; element_count := 0 |};
  ms_backend_preference := [OnnxRuntimeCPU]; ms_compact := false; ms_allow_fallback := false;
  ms_quality_metric := ""; ms_quality_op := ""; ms_quality_threshold := dzero |}.

(** [AI_Runtime::run]: whether it succeeded, and the output. *)
Definition legacy_run (w : World) (dims : list Z) (data : list spec_float) (s : AI_Runtime)
    : outcome (bool * list spec_float * AI_Runtime) :=
  let input := legacy_input dims data in
  match infer w (legacy_model (model_path_ s) input) input (new_runtime w) with
  | Done (result, _) =>
      if bool_decide (ir_status result = Success) then
        Done (true, output_f32 result, {| model_path_ := model_path_ s; last_error_ := "" |})
      else Done (false, [], {| model_path_ := model_path_ s;
                               last_error_ := backend_name result +:+ ":" +:+ inferenceStatusToString (ir_status result) +:+ ":" +:+
                                              reason result |})
  | Undefined e => Undefined e
  | OutOfFuel => OutOfFuel
  end.

Definition getLastError (s : AI_Runtime) : string := last_error_ s.
End Runtime.
