(* ===== verification/HardwareRoutingFacts.v ===== *)
(** Routing takes the first admissible device and backend in policy order, the
    production qualification lets only one tuple through, and what a probe or a
    policy reads of the world is exactly what the code compares to keep it. *)
From S2P Require Import Prelude CxxInt CxxString CxxFloat AiTypes JsonText HardwareRouting AiBackends.
Open Scope string_scope.
Open Scope Z_scope.

(** * Selection *)

(** The backend may run the model on the device, by the tests of the loops. *)
Definition suitable (model : ModelSpec) (class : DeviceClass) (b : BackendCapabilities) : Prop :=
  bc_available b = true ∧ bc_kind b ≠ Fallback ∧
  (ms_backend_preference model = [] ∨ bc_kind b ∈ ms_backend_preference model) ∧
  backendSupportsDevice (bc_kind b) class = true ∧ backendSupportsFormat b (ms_format model) = true ∧
  precisionSupported b (ms_precision model) = true.

(** The device is there and the policy admits it. *)
Definition usable (policy : HardwareRoutingPolicy) (d : HardwareDeviceCapability) : Prop :=
  detected d = true ∧ accessible d = true ∧ device_class d ∉ deny_list policy ∧
  (minimum_memory_mb policy ≤ 0 ∨ minimum_memory_mb policy ≤ memory_mb d).

(** [l] starts with elements that fail [P], and [x] is the first that meets it. *)
Definition first_of {A} (P : A → Prop) (l : list A) (x : A) : Prop :=
  ∃ before after, l = (before ++ x :: after)%list ∧ P x ∧ Forall (λ y, ¬ P y) before.

Lemma first_of_cons {A} (P : A → Prop) l x y : ¬ P y → first_of P l x → first_of P (y :: l) x.
Proof.
  intros Hy (before & after & -> & Hx & Hb). exists (y :: before), after. split_and!; [done|done|]. by constructor.
Qed.

Lemma first_of_here {A} (P : A → Prop) l x : P x → first_of P (x :: l) x.
Proof. intros Hx. exists [], l. split_and!; [done|done|constructor]. Qed.

Lemma first_of_unique {A} (P : A → Prop) l x y : first_of P l x → first_of P l y → x = y.
Proof.
  intros (b1 & a1 & -> & Hx & H1) (b2 & a2 & E & Hy & H2). revert b2 E H2.
  induction b1 as [|z b1 IH]; intros [|z' b2] E H2; simplify_eq/=; auto.
  - inversion H2; subst. by destruct H3.
  - inversion H1; subst. by destruct H3.
  - inversion H1; inversion H2; subst. eauto.
Qed.

Lemma suitable_dec model class b :
  suitable model class b ↔
  negb (bc_available b) || bool_decide (bc_kind b = Fallback) = false ∧
  negb (modelAllowsBackend model (bc_kind b)) = false ∧
  negb (backendSupportsDevice (bc_kind b) class) = false ∧
  negb (backendSupportsFormat b (ms_format model)) = false ∧
  negb (precisionSupported b (ms_precision model)) = false.
Proof.
  unfold suitable, modelAllowsBackend.
  rewrite orb_false_iff, !negb_false_iff, orb_true_iff, bool_decide_eq_false, !bool_decide_eq_true. tauto.
Qed.

Lemma ready_loop_spec model device caps :
  match ready_loop device caps model with
  | Some b => first_of (suitable model (device_class device)) caps b
  | None => Forall (λ b, ¬ suitable model (device_class device) b) caps
  end.
Proof.
  induction caps as [|b caps IH]; simpl; [constructor|].
  pose proof (suitable_dec model (device_class device) b) as D.
  assert (¬ suitable model (device_class device) b →
    match ready_loop device caps model with
    | Some x => first_of (suitable model (device_class device)) (b :: caps) x
    | None => Forall (λ b, ¬ suitable model (device_class device) b) (b :: caps)
    end) as Hskip.
  { intros Hn. destruct (ready_loop device caps model); [by apply first_of_cons|by constructor]. }
  destruct (negb (bc_available b) || bool_decide (bc_kind b = Fallback)) eqn:E1; [apply Hskip; rewrite D; naive_solver|].
  destruct (negb (modelAllowsBackend model (bc_kind b))) eqn:E2; [apply Hskip; rewrite D; naive_solver|].
  destruct (negb (backendSupportsDevice (bc_kind b) (device_class device))) eqn:E3; [apply Hskip; rewrite D; naive_solver|].
  destruct (negb (backendSupportsFormat b (ms_format model))) eqn:E4; [apply Hskip; rewrite D; naive_solver|].
  destruct (negb (precisionSupported b (ms_precision model))) eqn:E5; [apply Hskip; rewrite D; naive_solver|].
  apply first_of_here, D. done.
Qed.

Lemma usable_dec policy d :
  usable policy d ↔ negb (detected d) || negb (accessible d) || negb (policyAllowsDevice policy d) = false.
Proof.
  unfold usable, policyAllowsDevice.
  rewrite !orb_false_iff, !negb_false_iff, andb_true_iff, !negb_true_iff, bool_decide_eq_false, andb_false_iff, Z.ltb_ge, Z.ltb_ge.
  tauto.
Qed.

(** A usable device with a suitable backend. *)
Definition serves (caps : list BackendCapabilities) (model : ModelSpec) (policy : HardwareRoutingPolicy)
    (d : HardwareDeviceCapability) : Prop :=
  usable policy d ∧ ∃ b, b ∈ caps ∧ suitable model (device_class d) b.

Lemma first_of_elem {A} (P : A → Prop) l x : first_of P l x → x ∈ l ∧ P x.
Proof. intros (b & a & -> & Hx & _). split; [set_solver|done]. Qed.

Lemma executionReadyBackend_spec device caps model policy :
  match executionReadyBackend device caps model policy with
  | Some b => usable policy device ∧ first_of (suitable model (device_class device)) caps b
  | None => ¬ serves caps model policy device
  end.
Proof.
  unfold executionReadyBackend. pose proof (usable_dec policy device) as D.
  destruct (_ || negb (policyAllowsDevice policy device)) eqn:E.
  - intros [Hu _]. by apply D in Hu.
  - pose proof (ready_loop_spec model device caps) as H. destruct (ready_loop device caps model); [by rewrite D|].
    intros (_ & b & Hb & Hs). rewrite Forall_forall in H. by apply (H b).
Qed.

Lemma first_ready_spec wanted devices caps model policy :
  match first_ready wanted devices caps model policy with
  | Some (d, b) => first_of (λ d, device_class d = wanted ∧ serves caps model policy d) devices d ∧
                   first_of (suitable model wanted) caps b
  | None => Forall (λ d, ¬ (device_class d = wanted ∧ serves caps model policy d)) devices
  end.
Proof.
  induction devices as [|d devices IH]; simpl; [constructor|].
  assert (¬ (device_class d = wanted ∧ serves caps model policy d) →
    match first_ready wanted devices caps model policy with
    | Some (x, b) => first_of (λ d, device_class d = wanted ∧ serves caps model policy d) (d :: devices) x ∧
                     first_of (suitable model wanted) caps b
    | None => Forall (λ d, ¬ (device_class d = wanted ∧ serves caps model policy d)) (d :: devices)
    end) as Hskip.
  { intros Hn. destruct (first_ready _ _ _ _ _) as [[x b]|]; [|by constructor].
    destruct IH. split; [by apply first_of_cons|done]. }
  case_bool_decide as Hc; [|apply Hskip; tauto].
  pose proof (executionReadyBackend_spec d caps model policy) as He.
  destruct (executionReadyBackend d caps model policy) as [b|]; [|apply Hskip; tauto].
  destruct He as [Hu Hb]. destruct (first_of_elem _ _ _ Hb) as [Hin Hs]. subst wanted. split; [|done].
  apply first_of_here. split; [done|]. split; [done|]. by exists b.
Qed.

(** Some device of the class serves. *)
Definition class_serves (devices : list HardwareDeviceCapability) (caps : list BackendCapabilities) (model : ModelSpec)
    (policy : HardwareRoutingPolicy) (c : DeviceClass) : Prop :=
  ∃ d, d ∈ devices ∧ device_class d = c ∧ serves caps model policy d.

Lemma select_loop_spec order devices caps model policy :
  match select_loop order devices caps model policy with
  | Some (d, b) =>
      first_of (class_serves devices caps model policy) order (device_class d) ∧
      first_of (λ x, device_class x = device_class d ∧ serves caps model policy x) devices d ∧
      first_of (suitable model (device_class d)) caps b
  | None => Forall (λ c, ¬ class_serves devices caps model policy c) order
  end.
Proof.
  induction order as [|c order IH]; simpl; [constructor|].
  pose proof (first_ready_spec c devices caps model policy) as Hf.
  destruct (first_ready c devices caps model policy) as [[d b]|].
  - destruct Hf as [Hd Hb]. destruct (first_of_elem _ _ _ Hd) as [Hin [<- Hs]].
    split_and!; [|done|done]. apply first_of_here. by exists d.
  - assert (¬ class_serves devices caps model policy c) as Hn.
    { intros (d & Hin & Hc & Hs). rewrite Forall_forall in Hf. by apply (Hf d). }
    destruct (select_loop _ _ _ _ _) as [[d b]|]; [|by constructor].
    destruct IH as (? & ? & ?). split_and!; [by apply first_of_cons|done|done].
Qed.

(** The classes of the routing order. *)
Lemma push_unique_elem order acc c : c ∈ fold_left push_unique order acc ↔ c ∈ acc ∨ c ∈ order.
Proof.
  revert acc. induction order as [|d order IH]; intros acc; simpl; [set_solver|]. rewrite IH.
  unfold push_unique. case_bool_decide; set_solver.
Qed.

Lemma push_unique_nodup order acc : NoDup acc → NoDup (fold_left push_unique order acc).
Proof.
  revert acc. induction order as [|d order IH]; intros acc Hn; simpl; [done|]. apply IH.
  unfold push_unique. case_bool_decide; [done|]. apply NoDup_app. split_and!; [done|set_solver|apply NoDup_singleton].
Qed.

Lemma routingOrder_spec policy :
  NoDup (routingOrder policy) ∧
  ∀ c, c ∈ routingOrder policy ↔
    if allow_cpu_fallback policy then c = CPU ∨ match override_device policy with Some d => c = d | None => c ∈ preference policy end
    else c ≠ CPU ∧ match override_device policy with Some d => c = d | None => c ∈ preference policy end.
Proof.
  unfold routingOrder. split; [apply push_unique_nodup, NoDup_nil_2|]. intros c. rewrite push_unique_elem.
  destruct (allow_cpu_fallback policy), (override_device policy) as [d|]; simpl.
  - case_bool_decide; subst; simpl; set_solver.
  - case_bool_decide; simpl; set_solver.
  - rewrite list_elem_of_filter. set_solver.
  - rewrite list_elem_of_filter. set_solver.
Qed.

(** Routing is exact.  A route is selected exactly when some device class
    the policy orders has a device that is detected, accessible, not denied and
    large enough, with an available backend the model allows and that supports
    the device, the format and the precision; the selected class is then the
    first such class in policy order, with the first such device of it and the
    first such backend. *)
Theorem route_selection_exact devices caps model policy :
  let r := selectHardwareRoute devices caps model policy in
  (selected r = true ↔ ∃ c, c ∈ routingOrder policy ∧ class_serves devices caps model policy c) ∧
  (selected r = true → ∃ d b,
     first_of (class_serves devices caps model policy) (routingOrder policy) (route_device_class r) ∧
     first_of (λ x, device_class x = route_device_class r ∧ serves caps model policy x) devices d ∧
     first_of (suitable model (route_device_class r)) caps b ∧ route_backend r = bc_kind b).
Proof.
  unfold selectHardwareRoute. pose proof (select_loop_spec (routingOrder policy) devices caps model policy) as Hs.
  destruct (select_loop _ _ _ _ _) as [[d b]|]; simpl.
  - destruct Hs as (H1 & H2 & H3). split; [|intros _; by exists d, b]. split; [|done]. intros _.
    exists (device_class d). by apply first_of_elem.
  - split; [|done]. split; [done|]. intros (c & Hc & Hs'). rewrite Forall_forall in Hs. by apply Hs in Hc.
Qed.

(** * Qualification *)

Section Qualification.
Context `{Platform}.

(** A backend of the registry that is available runs on the processor only. *)
Lemma available_backend_is_onnx class model b :
  b ∈ registry_capabilities registered_backends → suitable model class b →
  bc_kind b = OnnxRuntimeCPU ∧ class = CPU ∧ has_onnxruntime = true ∧ ms_format model = Onnx.
Proof.
  intros Hb (Ha & Hk & _ & Hd & Hf & _). apply list_elem_of_In in Hb. simpl in Hb.
  destruct Hb as [<-|[<-|[<-|[<-|[<-|[<-|[]]]]]]]; simpl in *; try done.
  split_and!; [done| |done|].
  - by apply bool_decide_eq_true in Hd.
  - unfold backendSupportsFormat in Hf. by destruct (ms_format model).
Qed.

(** C26.  Only the qualified tuple executes.  Whatever the devices and the policy
    are, a route that is still selected after the production check runs ONNX
    Runtime on a processor the policy admits, for a model in ONNX format, in a
    build with ONNX Runtime, and either the platform is Linux on x86-64 or the
    environment asks for unqualified hardware. *)
Theorem selected_route_is_qualified w devices model policy :
  let r := enforceProductionBackendQualification w
             (selectHardwareRoute devices (registry_capabilities registered_backends) model policy) in
  selected r = true →
  route_backend r = OnnxRuntimeCPU ∧ route_device_class r = CPU ∧ has_onnxruntime = true ∧ ms_format model = Onnx ∧
  (linux_x86_64 = true ∨ allowUnqualifiedBackendHardwareFromEnvironment w = true) ∧
  ∃ d, d ∈ devices ∧ device_class d = CPU ∧ usable policy d.
Proof.
  unfold selectHardwareRoute.
  pose proof (select_loop_spec (routingOrder policy) devices (registry_capabilities registered_backends) model policy) as Hs.
  destruct (select_loop _ _ _ _ _) as [[d b]|]; [|done].
  destruct Hs as (_ & Hd & Hb). apply first_of_elem in Hd as [Hd [_ [Hu _]]], Hb as [Hb Hsu].
  destruct (available_backend_is_onnx _ _ _ Hb Hsu) as (Hk & Hc & Ho & Hf).
  unfold enforceProductionBackendQualification, productionBackendDeviceQualified, productionBackendPlatformQualified. simpl.
  rewrite Hk, Hc. simpl. destruct linux_x86_64, (allowUnqualifiedBackendHardwareFromEnvironment w); simpl; try done;
    intros _; rewrite ?Hk, ?Hc; split_and!; try done; try tauto; by exists d.
Qed.
End Qualification.

(** A build with ONNX Runtime on a qualified platform. *)
Definition linux_build : Platform := {|
  linux_x86_64 := true; apple_arm64 := false; has_onnxruntime := true; has_tensorrt := false; has_openvino := false;
  has_libtorch := false; has_llamacpp := false |}.

(** The same build for another platform. *)
Definition other_build : Platform := {|
  linux_x86_64 := false; apple_arm64 := false; has_onnxruntime := true; has_tensorrt := false; has_openvino := false;
  has_libtorch := false; has_llamacpp := false |}.

Definition quiet_world : World :=
  {| getenv := λ _, None; path_exists := λ _, false; meminfo := ""; open_file := λ _, None; elapsed_ns := 0 |}.

Definition onnx_model : ModelSpec := {|
  ms_name := "m"; ms_path := "m.onnx"; ms_format := Onnx; ms_task := ""; ms_precision := "float32";
  ms_input := no_tensor_spec; ms_output := no_tensor_spec; ms_backend_preference := [OnnxRuntimeCPU];
  ms_compact := false; ms_allow_fallback := true; ms_quality_metric := ""; ms_quality_op := "";
  ms_quality_threshold := dzero |}.

Lemma selected_route_is_qualified_witness :
  let r := enforceProductionBackendQualification (H := linux_build) quiet_world
             (selectHardwareRoute (system_probe (H := linux_build) quiet_world)
                (registry_capabilities (H := linux_build) registered_backends) onnx_model default_policy) in
  selected r = true ∧ route_backend r = OnnxRuntimeCPU.
Proof.
  intros r. assert (selected r = true) as E by (vm_compute; reflexivity). split; [exact E|].
  exact (proj1 (selected_route_is_qualified (H := linux_build) quiet_world (system_probe (H := linux_build) quiet_world)
           onnx_model default_policy E)).
Defined.

(** * What the probe and the policy read *)

Lemma signal_bits_low w ps i j : 0 ≤ i → j < i → Z.testbit (signal_bits w ps i) j = false.
Proof.
  revert i. induction ps as [|p ps IH]; intros i Hi Hj; simpl; [apply Z.testbit_0_l|].
  rewrite Z.lor_spec, IH by lia. destruct (path_exists w p); [|by rewrite Z.testbit_0_l].
  rewrite Z.shiftl_1_l. rewrite Z.pow2_bits_false by lia. done.
Qed.

Lemma signal_bits_lookup w ps i k p :
  0 ≤ i → ps !! k = Some p → Z.testbit (signal_bits w ps i) (i + Z.of_nat k) = path_exists w p.
Proof.
  revert i k. induction ps as [|q ps IH]; intros i [|k] Hi Hk; simplify_eq/=.
  - rewrite Z.add_0_r, Z.lor_spec, signal_bits_low by lia. rewrite orb_false_r.
    destruct (path_exists w p); [rewrite Z.shiftl_1_l; by apply Z.pow2_bits_true|apply Z.testbit_0_l].
  - rewrite Z.lor_spec. replace (i + Z.of_nat (S k)) with (i + 1 + Z.of_nat k) by lia. rewrite (IH (i + 1) k) by (lia || done).
    destruct (path_exists w q); [|by rewrite Z.testbit_0_l].
    rewrite Z.shiftl_1_l, Z.pow2_bits_false by lia. done.
Qed.

Lemma signals_determine_paths w w' p :
  signal_bits w signal_paths 0 = signal_bits w' signal_paths 0 → p ∈ signal_paths → path_exists w p = path_exists w' p.
Proof.
  intros E Hp. apply list_elem_of_lookup in Hp as [k Hk].
  rewrite <- (signal_bits_lookup w _ 0 k p), <- (signal_bits_lookup w' _ 0 k p) by done. by rewrite E.
Qed.

Lemma map_determines {A B} (f g : A → B) l x : map f l = map g l → x ∈ l → f x = g x.
Proof.
  induction l as [|y l IH]; intros E Hx; [set_solver|]. simplify_eq/=. apply elem_of_cons in Hx as [->|Hx]; auto.
Qed.

Ltac listed := rewrite list_elem_of_In; simpl; tauto.

(** The inventory is a function of the signals the generation token compares
    and of the size of the memory. *)
Lemma system_probe_depends `{Platform} w w' :
  signal_bits w signal_paths 0 = signal_bits w' signal_paths 0 →
  signal_environment w = signal_environment w' → meminfo w = meminfo w' →
  system_probe w = system_probe w'.
Proof.
  intros Hb He Hm. pose proof (λ p, signals_determine_paths w w' p Hb) as Hp.
  pose proof (λ n, map_determines _ _ _ n He) as Hn.
  unfold system_probe, cpu_device, gpu_device, tpu_device, npu_device, hostMemoryMb, environmentHasDeviceValue, environmentTrue.
  rewrite Hm. rewrite !Hp by listed. rewrite !Hn by listed. done.
Qed.

Lemma policy_depends w w' :
  captureHardwareRoutingPolicyEnvironment w = captureHardwareRoutingPolicyEnvironment w' →
  hardwareRoutingPolicyFromEnvironment w = hardwareRoutingPolicyFromEnvironment w'.
Proof.
  intros He. pose proof (λ n, map_determines _ _ _ n He) as Hn.
  unfold hardwareRoutingPolicyFromEnvironment, environmentTrue. rewrite !Hn by listed. done.
Qed.

Lemma qualification_depends `{Platform} w w' r :
  allowUnqualifiedBackendHardwareFromEnvironment w = allowUnqualifiedBackendHardwareFromEnvironment w' →
  enforceProductionBackendQualification w r = enforceProductionBackendQualification w' r.
Proof. intros E. unfold enforceProductionBackendQualification. by rewrite E. Qed.

Lemma next_generation_changes g : 0 < g < 2 ^ 64 → next_generation g ≠ g ∧ 0 < next_generation g < 2 ^ 64.
Proof.
  intros Hg. unfold next_generation, u64. pose proof (Z.mod_pos_bound (g + 1) (2 ^ 64) ltac:(lia)).
  destruct ((g + 1) mod 2 ^ 64 =? 0) eqn:E.
  - split; [|lia]. apply Z.eqb_eq in E. intros <-. vm_compute in E. done.
  - apply Z.eqb_neq in E. assert (g + 1 < 2 ^ 64) by (assert (g + 1 ≠ 2 ^ 64); [intros Hx; rewrite Hx, Z.mod_same in E|]; lia).
    rewrite Z.mod_small by lia. lia.
Qed.

(** * The fuel of the memory scan *)

Lemma drop_while_length p s : (String.length (drop_while p s) ≤ String.length s)%nat.
Proof. induction s as [|c s IH]; simpl; [done|]. destruct (p c); simpl; lia. Qed.

Lemma stream_word_shrinks s t rest : stream_word s = Some (t, rest) → (String.length rest < String.length s)%nat.
Proof.
  unfold stream_word. pose proof (drop_while_length isspace s) as H1.
  destruct (drop_while isspace s) as [|c r] eqn:E; [done|]. simpl. intros [= _ <-].
  assert (isspace c = false) as Hc.
  { clear -E. induction s as [|x s IH]; simpl in E; [done|]. destruct (isspace x) eqn:Ex; [by apply IH|by simplify_eq]. }
  rewrite Hc. simpl. pose proof (drop_while_length (λ c, negb (isspace c)) r). simpl in H1. lia.
Qed.

Lemma take_digits_length acc seen s : (String.length (take_digits acc seen s).2 ≤ String.length s)%nat.
Proof.
  revert acc seen. induction s as [|c s IH]; intros acc seen; simpl; [done|].
  destruct (isdigit c); simpl; [|lia]. specialize (IH (10 * acc + digit_value c) true). lia.
Qed.

Lemma stream_size_shrinks s v rest : stream_size s = Some (v, rest) → (String.length rest ≤ String.length s)%nat.
Proof.
  unfold stream_size, strtoull. destruct (take_sign (drop_while isspace s)) as [neg s1] eqn:Es.
  assert (String.length s1 ≤ String.length s)%nat as H1.
  { pose proof (drop_while_length isspace s). unfold take_sign in Es.
    destruct (drop_while isspace s) as [|[[] [] [] [] [] [] [] []] r]; simplify_eq/=; lia. }
  pose proof (take_digits_length 0 false s1) as H2. destruct (take_digits 0 false s1) as [[x seen] r]. simpl in H2.
  destruct seen; [|done]. destruct (SIZE_MAX <? x); simpl; [done|]. intros [= _ <-]. lia.
Qed.

(** The scan of the memory file never needs more steps than the text has
    characters. *)
Lemma memory_loop_fuel n m s :
  (String.length s ≤ n)%nat → (String.length s ≤ m)%nat → memory_loop n s = memory_loop m s.
Proof.
  revert m s. induction n as [|n IH]; intros m s Hn Hm.
  - assert (s = "") as -> by (destruct s; [done|simpl in Hn; lia]). by destruct m.
  - destruct m as [|m]; [assert (s = "") as -> by (destruct s; [done|simpl in Hm; lia]); done|]. simpl.
    destruct (stream_word s) as [[key s1]|] eqn:E1; [|done]. apply stream_word_shrinks in E1.
    destruct (stream_size s1) as [[v s2]|] eqn:E2; [|done]. apply stream_size_shrinks in E2.
    destruct (stream_word s2) as [[u s3]|] eqn:E3; [|done]. apply stream_word_shrinks in E3.
    case_bool_decide; [done|]. apply IH; lia.
Qed.
