(* ===== verification/AiRuntimeFacts.v ===== *)
(** The caches of the AI runtime are transparent.

    The specification has no state: a request is routed by the devices and the
    policy of its own moment, and a model that may be cached is prepared from
    the bytes its file has at that moment.  A runtime that serves requests one
    after the other, with its inventory, its route and its prepared session kept
    from one request to the next, answers every one of them as the specification
    does, as long as the size of the memory and the qualification override do
    not change; without the second condition it does not. *)
From Stdlib Require Import SpecFloat Strings.Byte.
From S2P Require Import Prelude CxxInt CxxString CxxFloat AiTypes JsonText HardwareRouting AiBackends AiRuntime HardwareRoutingFacts.
Open Scope string_scope.
Open Scope Z_scope.

(** * Equal models *)

Definition set_threshold (t : double) (m : ModelSpec) : ModelSpec := {|
  ms_name := ms_name m; ms_path := ms_path m; ms_format := ms_format m; ms_task := ms_task m;
  ms_precision := ms_precision m; ms_input := ms_input m; ms_output := ms_output m;
  ms_backend_preference := ms_backend_preference m; ms_compact := ms_compact m;
  ms_allow_fallback := ms_allow_fallback m; ms_quality_metric := ms_quality_metric m;
  ms_quality_op := ms_quality_op m; ms_quality_threshold := t |}.

Lemma sameTensor_eq a b : sameTensor a b = true → a = b.
Proof.
  unfold sameTensor. rewrite !andb_true_iff, !bool_decide_eq_true, Bool.eqb_true_iff, Z.eqb_eq.
  destruct a, b; simpl. intros [[[[-> ->] ->] ->] ->]. done.
Qed.

(** Models that compare equal differ in the quality threshold only: zeros of
    either sign compare equal. *)
Lemma sameModel_eq a b : sameModel a b = true → b = set_threshold (ms_quality_threshold b) a.
Proof.
  unfold sameModel. rewrite !andb_true_iff, !bool_decide_eq_true, !Bool.eqb_true_iff.
  intros [[[[[[[[[[[[E1 E2] E3] E4] E5] E6] E7] E8] E9] E10] E11] E12] _].
  apply sameTensor_eq in E6, E7. destruct a, b; simpl in *. unfold set_threshold. simpl. by subst.
Qed.

(** * The specification *)

Section Spec.
Context `{Platform} `{OrtApi}.

(** The route a model gets in a world, from scratch. *)
Definition route_now (w : World) (model : ModelSpec) : HardwareRoute :=
  enforceProductionBackendQualification w
    (selectHardwareRoute (system_probe w) (registry_capabilities registered_backends) model
       (hardwareRoutingPolicyFromEnvironment w)).

(** What a result says apart from the evidence about caches. *)
Definition answer (r : InferenceResult) : InferenceResult := with_telemetry "" (with_evidence "" r).

Definition reply : Type := InferenceResult * option (list spec_float).

Definition snapshot_configuration (bytes : list byte) : InferenceConfiguration :=
  {| threads := 1; maximum_tensor_elements := 16 * 1024 * 1024; model_bytes := bytes |}.

Definition reported (rt : HardwareRoute) (o : outcome reply) : outcome reply :=
  match o with
  | Done (r, output) => Done (answer (attachHardwareEvidence r rt), output)
  | Undefined e => Undefined e
  | OutOfFuel => OutOfFuel
  end.

(** Inference without any cache: the session is prepared from the bytes of the
    file when they can be read and the runtime accepts them, else the backend
    opens the path. *)
Definition reference_infer (w : World) (model : ModelSpec) (input : TensorBuffer) (output : option (list spec_float)) (n : Z)
    : outcome reply :=
  let rt := route_now w model in
  let unrouted := match unrouted_infer w (new_runtime w) rt model input with
                  | Done r => Done (answer r, output)
                  | Undefined e => Undefined e
                  | OutOfFuel => OutOfFuel
                  end in
  if bool_decide (output = None) || (n =? 0) then
    Done (answer (with_status InvalidInput "invalid_preallocated_output" no_inference), output)
  else if negb (validateInputMatchesShape input) then Done (answer (attachHardwareEvidence input_mismatch_result rt), output)
  else if selected rt then
    let routed := restrict model (route_backend rt) false in
    match select registered_backends routed with
    | None => unrouted
    | Some backend =>
        reported rt
          (match readCacheableSnapshot w routed with
           | Some bytes =>
               if bool_decide (route_backend rt = OnnxRuntimeCPU) then
                 match backend_prepare backend w routed (snapshot_configuration bytes) with
                 | inr session => session_run w session input output n
                 | inl _ => backend_run w backend routed input output n
                 end
               else backend_run w backend routed input output n
           | None => backend_run w backend routed input output n
           end)
    end
  else unrouted.

(** * The invariant *)

(** A world in which the host has this memory and the override this value. *)
Definition at_conditions (memory : string) (override : bool) (w : World) : Prop :=
  meminfo w = memory ∧ allowUnqualifiedBackendHardwareFromEnvironment w = override.

Definition signals (w : World) (gs : GenerationState) : Prop :=
  initialized gs = true ∧ device_signal_bits gs = signal_bits w signal_paths 0 ∧ gs_environment gs = signal_environment w.

Record runtime_ok (memory : string) (override : bool) (r : AIRuntime) : Prop := {
  ok_registry : registry r = registered_backends;
  ok_probe : ∃ gs, hardware_probe_ r = SystemHardwareProbe gs ∧ 0 < generation gs < 2 ^ 64 ∧
               (hardware_inventory_valid_ r = true → hardware_generation_token_ r = generation gs ∧
                  ∃ w, meminfo w = memory ∧ signals w gs ∧ hardware_devices_ r = system_probe w);
  ok_policy : policy_environment_state_valid_ r = true →
              ∃ w, policy_environment_state_ r = captureHardwareRoutingPolicyEnvironment w ∧
                   hardware_policy_ r = hardwareRoutingPolicyFromEnvironment w;
  ok_route : ∀ rt, route_cache_ r = Some rt → hardware_inventory_valid_ r = true ∧
              ∃ w, allowUnqualifiedBackendHardwareFromEnvironment w = override ∧ rt = computed_route w r (route_model_ r);
}.

(** The session is the one its model and its bytes give. *)
Definition cache_ok (c : PreparedInferenceCache) : Prop :=
  ∀ session, pc_session c = Some session →
    pc_snapshot c ≠ [] ∧ ∃ w, backend_prepare OnnxRuntimeBackend w (pc_model c) (snapshot_configuration (pc_snapshot c)) = inr session.

Lemma new_runtime_ok memory override w : runtime_ok memory override (new_runtime w).
Proof.
  split; simpl; try done.
  - exists new_generation_state. split_and!; [done|simpl; lia|simpl; lia|done].
  - intros _. by exists w.
Qed.

Lemma cache_ok_empty c : pc_session c = None → cache_ok c.
Proof. intros E session Hs. by rewrite E in Hs. Qed.

(** * Routes *)

Lemma refresh_policy_ok memory override w r :
  runtime_ok memory override r →
  let r' := refreshPolicyFromEnvironment w r in
  runtime_ok memory override r' ∧ hardware_policy_ r' = hardwareRoutingPolicyFromEnvironment w.
Proof.
  intros [Hr Hp Hpol Hrt]. unfold refreshPolicyFromEnvironment, hardwareRoutingPolicyEnvironmentMatches. cbv zeta.
  destruct (policy_environment_state_valid_ r && bool_decide _) eqn:E.
  - apply andb_true_iff in E as [E1 E2%bool_decide_eq_true]. split; [by split|].
    destruct (Hpol E1) as (w' & Hs & ->). apply policy_depends. congruence.
  - split; [|done]. split; simpl; try done. intros _. by exists w.
Qed.

Lemma system_token_spec w gs :
  0 < generation gs < 2 ^ 64 →
  let r := system_generation_token w gs in
  signals w r.2 ∧ r.1 = generation r.2 ∧ 0 < generation r.2 < 2 ^ 64 ∧
  (initialized gs = true → generation r.2 = generation gs → r.2 = gs).
Proof.
  intros Hg. unfold system_generation_token. cbv zeta.
  destruct (negb (initialized gs) || negb (signal_bits w signal_paths 0 =? device_signal_bits gs) || _) eqn:E; simpl.
  - split; [done|]. split; [done|]. destruct (next_generation_changes _ Hg) as [Hne Hr].
    destruct (initialized gs); split; [done|by intros _ ?|done|done].
  - apply orb_false_iff in E as [E E3%negb_false_iff%bool_decide_eq_true].
    apply orb_false_iff in E as [E1%negb_false_iff E2%negb_false_iff%Z.eqb_eq]. split; [|done]. by split.
Qed.

Lemma refresh_inventory_ok memory override w r :
  runtime_ok memory override r → at_conditions memory override w →
  let r' := refresh_inventory w r in
  runtime_ok memory override r' ∧ hardware_inventory_valid_ r' = true ∧ hardware_devices_ r' = system_probe w ∧
  hardware_policy_ r' = hardware_policy_ r.
Proof.
  intros [Hr (gs & Hgs & Hgen & Hinv) Hpol Hrt] [Hm Ho]. unfold refresh_inventory. rewrite Hgs. cbn [generationToken].
  destruct (system_token_spec w gs Hgen) as (Hsig & Htok & Hgen' & Hsame).
  destruct (system_generation_token w gs) as [token gs'] eqn:Eg. cbn [fst snd] in *. cbv zeta.
  destruct ((token =? 0) || negb (hardware_inventory_valid_ r) || negb (token =? hardware_generation_token_ r)) eqn:E.
  - split; [|done]. split; simpl; try done. exists gs'. split_and!; [done|lia|lia|]. intros _. split; [done|]. by exists w.
  - apply orb_false_iff in E as [E E3%negb_false_iff%Z.eqb_eq]. apply orb_false_iff in E as [_ E2%negb_false_iff].
    destruct (Hinv E2) as (Ht & w' & Hm' & (Hi & Hb & He) & Hd).
    assert (gs' = gs) as -> by (apply Hsame; [done|congruence]).
    assert (system_probe w' = system_probe w) as Hw.
    { destruct Hsig as (_ & Hb' & He'). apply system_probe_depends; congruence. }
    split; [|split_and!; [done|simpl; congruence|done]]. split; simpl; try done.
    exists gs. split_and!; [done|lia|lia|]. intros _. split; [done|]. exists w'. by split_and!.
Qed.

Lemma computed_route_depends w w' r r' m :
  allowUnqualifiedBackendHardwareFromEnvironment w = allowUnqualifiedBackendHardwareFromEnvironment w' →
  hardware_devices_ r = hardware_devices_ r' → registry r = registry r' → hardware_policy_ r = hardware_policy_ r' →
  computed_route w r m = computed_route w' r' m.
Proof. intros Hw Hd Hr Hp. unfold computed_route. rewrite Hd, Hr, Hp. by apply qualification_depends. Qed.

Lemma computed_route_threshold w r t m : computed_route w r (set_threshold t m) = computed_route w r m.
Proof.
  unfold computed_route, selectHardwareRoute.
  assert (∀ o d c p, select_loop o d c (set_threshold t m) p = select_loop o d c m p) as E.
  { intros o d c p.
    assert (∀ dv, ready_loop dv c (set_threshold t m) = ready_loop dv c m) as E1 by (intros dv; induction c as [|b c IH]; simpl; [done|by rewrite IH]).
    assert (∀ x, first_ready x d c (set_threshold t m) p = first_ready x d c m p) as E2.
    { intros x. induction d as [|dv d IH]; simpl; [done|]. unfold executionReadyBackend. by rewrite E1, IH. }
    induction o as [|x o IH]; simpl; [done|]. by rewrite E2, IH. }
  rewrite E.
  assert (∀ c dv p, executionReadyBackend dv c (set_threshold t m) p = executionReadyBackend dv c m p) as E3.
  { intros c dv p. unfold executionReadyBackend. case_match; [done|]. induction c as [|b c IH]; simpl; [done|by rewrite IH]. }
  assert (∀ c dv, backendCompatible dv c (set_threshold t m) = backendCompatible dv c m) as E4.
  { intros c dv. induction c as [|b c IH]; simpl; [done|by rewrite IH]. }
  unfold inventory_text.
  rewrite (map_ext (inventory_device _ (set_threshold t m) _) (inventory_device (registry_capabilities (registry r)) m (hardware_policy_ r)));
    [done|]. intros dv. unfold inventory_device. by rewrite E3, E4.
Qed.

Lemma routeForModel_ok memory override w r model :
  runtime_ok memory override r → at_conditions memory override w →
  hardware_policy_ r = hardwareRoutingPolicyFromEnvironment w →
  let res := routeForModel w model r in
  runtime_ok memory override res.2 ∧ route res.1 = route_now w model.
Proof.
  intros Hok Hw Hpol. destruct (refresh_inventory_ok _ _ _ _ Hok Hw) as (Hok1 & Hv & Hd & Hp). unfold routeForModel.
  set (r1 := refresh_inventory w r) in *. cbv zeta.
  assert (∀ m, computed_route w r1 m = route_now w m) as Hnow.
  { intros m. unfold computed_route, route_now. by rewrite Hd, (ok_registry _ _ _ Hok1), Hp, Hpol. }
  assert (runtime_ok memory override (with_route model (computed_route w r1 model) r1)) as Hfresh.
  { destruct Hok1 as [A1 A2 A3 A4]. split; simpl; try done. intros rt [= <-]. split; [done|]. exists w. split; [apply Hw|done]. }
  destruct (route_cache_ r1) as [cached|] eqn:Ec; [|by split; [|apply Hnow]].
  destruct (sameModel (route_model_ r1) model) eqn:Es; [|by split; [|apply Hnow]]. split; [done|]. simpl.
  destruct (ok_route _ _ _ Hok1 _ Ec) as (_ & w' & Ho & ->). destruct Hw as [_ Hw]. rewrite <- Hnow.
  apply sameModel_eq in Es. rewrite Es, computed_route_threshold. apply computed_route_depends; congruence.
Qed.

(** * Sessions *)

Lemma snapshot_nonempty w m bytes : readCacheableSnapshot w m = Some bytes → bytes ≠ [].
Proof.
  unfold readCacheableSnapshot. destruct (_ || _); [done|]. destruct (open_file w (ms_path m)) as [[size bs]|]; [|done].
  destruct ((size <=? 0) || _) eqn:E; [done|]. apply orb_false_iff in E as [E%Z.leb_gt _].
  destruct (Z.of_nat (length bs) =? size) eqn:E2; [|done]. apply Z.eqb_eq in E2. intros [= <-] ->. simpl in E2. lia.
Qed.

(** Preparing from bytes opens no file, and ignores the quality threshold. *)
Lemma prepare_depends w w' t m bytes :
  bytes ≠ [] →
  backend_prepare OnnxRuntimeBackend w (set_threshold t m) (snapshot_configuration bytes) =
  backend_prepare OnnxRuntimeBackend w' m (snapshot_configuration bytes).
Proof.
  intros Hb. unfold backend_prepare. destruct has_onnxruntime; [|done]. unfold new_prepared_session. simpl.
  rewrite (bool_decide_false (bytes = [])) by done. done.
Qed.

Lemma select_onnx m b : select registered_backends (restrict m OnnxRuntimeCPU false) = Some b → b = OnnxRuntimeBackend.
Proof.
  unfold select, registered_backends. simpl. destruct has_onnxruntime; simpl; [|done].
  destruct (backendSupportsFormat _ _); simpl; [by intros [= <-]|done].
Qed.

Lemma answer_evidence e r rt : answer (attachHardwareEvidence (with_evidence e r) rt) = answer (attachHardwareEvidence r rt).
Proof. done. Qed.

Lemma clear_ok c : cache_ok (clear c).
Proof. by apply cache_ok_empty. Qed.

(** After the comparison with the bytes just read, a session in the cache is
    the one these bytes give; without one, these bytes give none. *)
Lemma session_fresh w routed bytes c :
  cache_ok c → bytes ≠ [] →
  let c1 := with_candidate bytes c in
  let c2 := if session_hit c1 routed then c1 else refill w OnnxRuntimeBackend routed c1 in
  cache_ok c2 ∧
  match pc_session c2 with
  | Some session => backend_prepare OnnxRuntimeBackend w routed (snapshot_configuration bytes) = inr session
  | None => ∃ e, backend_prepare OnnxRuntimeBackend w routed (snapshot_configuration bytes) = inl e
  end.
Proof.
  intros Hc Hb. cbv zeta. destruct (session_hit (with_candidate bytes c) routed) eqn:E.
  - unfold session_hit in E. apply andb_true_iff in E as [E E3%bool_decide_eq_true].
    apply andb_true_iff in E as [E1%bool_decide_eq_true E2].
    cbn [with_candidate pc_session pc_model pc_snapshot pc_candidate] in *. subst bytes. split; [done|].
    destruct E1 as [session Hs]. rewrite Hs. destruct (Hc _ Hs) as (_ & w' & Hp).
    apply sameModel_eq in E2. rewrite E2, (prepare_depends w w'); done.
  - unfold refill. cbn [with_candidate pc_candidate model_bytes].
    change {| threads := threads default_configuration; maximum_tensor_elements := maximum_tensor_elements default_configuration;
              model_bytes := bytes |} with (snapshot_configuration bytes).
    destruct (backend_prepare OnnxRuntimeBackend w routed (snapshot_configuration bytes)) as [e|session] eqn:Ep.
    + split; [apply clear_ok|]. by exists e.
    + split; [|done]. intros s' [= <-]. split; [done|]. by exists w.
Qed.

Definition answered (o : outcome call_result) : outcome reply :=
  match o with
  | Done (r, _, output) => Done (answer r, output)
  | Undefined e => Undefined e
  | OutOfFuel => OutOfFuel
  end.

Definition cache_after (P : PreparedInferenceCache → Prop) (o : outcome call_result) : Prop :=
  match o with Done (_, Some c, _) => P c | Done (_, None, _) => False | _ => True end.

Lemma uncached_answer rt o (c : PreparedInferenceCache) :
  answered (match o with
            | Done (r, output) => Done (attachHardwareEvidence r rt, Some c, output)
            | Undefined e => Undefined e
            | OutOfFuel => OutOfFuel
            end) = reported rt o.
Proof. by destruct o as [[r output]| |]. Qed.

Lemma uncached_cache rt (o : outcome reply) (c : PreparedInferenceCache) :
  cache_ok c →
  cache_after cache_ok (match o with
                        | Done (r, output) => Done (attachHardwareEvidence r rt, Some c, output)
                        | Undefined e => Undefined e
                        | OutOfFuel => OutOfFuel
                        end).
Proof. by destruct o as [[r output]| |]. Qed.

Lemma routed_infer_ok w backend resolved m input c output n :
  cache_ok c →
  select registered_backends (restrict m (route_backend (route resolved)) false) = Some backend →
  let routed := restrict m (route_backend (route resolved)) false in
  let o := routed_infer w backend resolved routed input (Some c) output n in
  cache_after cache_ok o ∧
  answered o = reported (route resolved)
    (match readCacheableSnapshot w routed with
     | Some bytes =>
         if bool_decide (route_backend (route resolved) = OnnxRuntimeCPU) then
           match backend_prepare backend w routed (snapshot_configuration bytes) with
           | inr session => session_run w session input output n
           | inl _ => backend_run w backend routed input output n
           end
         else backend_run w backend routed input output n
     | None => backend_run w backend routed input output n
     end).
Proof.
  intros Hc Hsel. cbv zeta. unfold routed_infer. cbv zeta. set (routed := restrict m _ false) in *.
  case_bool_decide as Hk; cbn [negb].
  2:{ rewrite uncached_answer. split; [apply uncached_cache, clear_ok|]. by destruct (readCacheableSnapshot w routed). }
  destruct (readCacheableSnapshot w routed) as [bytes|] eqn:Eb.
  2:{ rewrite uncached_answer. split; [apply uncached_cache, clear_ok|done]. }
  assert (backend = OnnxRuntimeBackend) as -> by (unfold routed in Hsel; rewrite Hk in Hsel; by eapply select_onnx).
  destruct (session_fresh w routed bytes c Hc (snapshot_nonempty _ _ _ Eb)) as [Hc2 Hp].
  set (c2 := if session_hit (with_candidate bytes c) routed then _ else _) in *.
  destruct (pc_session c2) as [session|].
  - rewrite Hp. destruct (session_run w session input output n) as [[r written]| |]; [|done|done].
    split; [|done]. simpl. case_bool_decide; [done|apply clear_ok].
  - destruct Hp as [e ->]. rewrite uncached_answer. split; [by apply uncached_cache|done].
Qed.

(** * Requests *)

Record Request := { rq_model : ModelSpec; rq_input : TensorBuffer; rq_output : option (list spec_float); rq_count : Z }.

(** One request of the C bridge: the policy is refreshed and the cached path is
    taken, with the runtime and the cache the last request left. *)
Definition serve (w : World) (q : Request) (st : AIRuntime * PreparedInferenceCache)
    : outcome (reply * (AIRuntime * PreparedInferenceCache)) :=
  match inferCachedInto w (rq_model q) (rq_input q) st.2 (rq_output q) (rq_count q) (refreshPolicyFromEnvironment w st.1) with
  | Done (r, cache, output, rt) => Done (answer r, output, (rt, default new_cache cache))
  | Undefined e => Undefined e
  | OutOfFuel => OutOfFuel
  end.

Fixpoint serve_all (qs : list (World * Request)) (st : AIRuntime * PreparedInferenceCache) : outcome (list reply) :=
  match qs with
  | [] => Done []
  | (w, q) :: rest =>
      match serve w q st with
      | Done (a, st) => match serve_all rest st with
                        | Done l => Done (a :: l)
                        | Undefined e => Undefined e
                        | OutOfFuel => OutOfFuel
                        end
      | Undefined e => Undefined e
      | OutOfFuel => OutOfFuel
      end
  end.

Fixpoint reference_all (qs : list (World * Request)) : outcome (list reply) :=
  match qs with
  | [] => Done []
  | (w, q) :: rest =>
      match reference_infer w (rq_model q) (rq_input q) (rq_output q) (rq_count q) with
      | Done a => match reference_all rest with
                  | Done l => Done (a :: l)
                  | Undefined e => Undefined e
                  | OutOfFuel => OutOfFuel
                  end
      | Undefined e => Undefined e
      | OutOfFuel => OutOfFuel
      end
  end.

Lemma unrouted_depends w r r' rt m input :
  registry r = registry r' → unrouted_infer w r rt m input = unrouted_infer w r' rt m input.
Proof. intros E. unfold unrouted_infer. by rewrite E. Qed.

(** What one request leaves and says. *)
Definition served (memory : string) (override : bool) (o : outcome (reply * (AIRuntime * PreparedInferenceCache)))
    (ref : outcome reply) : Prop :=
  match o with
  | Done (a, (r, c)) => ref = Done a ∧ runtime_ok memory override r ∧ cache_ok c
  | Undefined e => ref = Undefined e
  | OutOfFuel => ref = OutOfFuel
  end.

Lemma serve_ok memory override w q r c :
  runtime_ok memory override r → cache_ok c → at_conditions memory override w →
  served memory override (serve w q (r, c)) (reference_infer w (rq_model q) (rq_input q) (rq_output q) (rq_count q)).
Proof.
  intros Hr Hc Hw. destruct q as [m input output n]. unfold serve. cbn [rq_model rq_input rq_output rq_count fst snd].
  destruct (refresh_policy_ok _ _ w _ Hr) as [Hr1 Hp]. set (r1 := refreshPolicyFromEnvironment w r) in *.
  unfold inferCachedInto, reference_infer. cbv zeta.
  destruct (bool_decide (output = None) || (n =? 0)); [by split_and!|].
  destruct (routeForModel_ok _ _ _ _ m Hr1 Hw Hp) as [Hr2 Hroute]. unfold inferImpl.
  destruct (routeForModel w m r1) as [resolved r2]. cbn [fst snd] in *. rewrite <- Hroute.
  destruct (validateInputMatchesShape input); cbn [negb]; [|by split_and!].
  rewrite (unrouted_depends w (new_runtime w) r2) by (by rewrite (ok_registry _ _ _ Hr2)).
  rewrite (ok_registry _ _ _ Hr2).
  assert (served memory override
            (match (match (match unrouted_infer w r2 (route resolved) m input with
                           | Done res => Done (res, option_map clear (Some c), output)
                           | Undefined e => Undefined e
                           | OutOfFuel => OutOfFuel
                           end) with
                    | Done v => Done (v, r2)
                    | Undefined e => Undefined e
                    | OutOfFuel => OutOfFuel
                    end) with
             | Done (r, cache, output, rt) => Done (answer r, output, (rt, default new_cache cache))
             | Undefined e => Undefined e
             | OutOfFuel => OutOfFuel
             end)
            (match unrouted_infer w r2 (route resolved) m input with
             | Done r => Done (answer r, output)
             | Undefined e => Undefined e
             | OutOfFuel => OutOfFuel
             end)) as Hun.
  { destruct (unrouted_infer w r2 (route resolved) m input); [|done|done]. split_and!; [done|done|apply clear_ok]. }
  destruct (selected (route resolved)); [|exact Hun].
  destruct (select registered_backends (restrict m (route_backend (route resolved)) false)) as [backend|] eqn:Esel; [|exact Hun].
  destruct (routed_infer_ok w backend resolved m input c output n Hc Esel) as [Hcache Hans].
  rewrite <- Hans. destruct (routed_infer w backend resolved _ input (Some c) output n) as [[[res [c2|]] out]| |]; done.
Qed.

(** C25.  The caches of the AI runtime cannot be observed.  Whatever requests are
    served, in whatever worlds with the same memory size and the same
    qualification override, each gets the answer that routing and preparing it
    from scratch would give: the same status, backend, reason, outputs and
    device evidence, and the same contents of the destination buffer; only the
    evidence about the caches themselves differs.  No request is served by a
    session of an older version of its model file, nor routed by devices or a
    policy that have changed. *)
Theorem caches_are_transparent memory override w0 qs :
  Forall (λ q, at_conditions memory override q.1) qs → serve_all qs (new_runtime w0, new_cache) = reference_all qs.
Proof.
  assert (∀ r c, runtime_ok memory override r → cache_ok c → Forall (λ q, at_conditions memory override q.1) qs →
                 serve_all qs (r, c) = reference_all qs) as Hgen.
  { induction qs as [|[w q] qs IH]; intros r c Hr Hc Hq; [done|]. inversion Hq as [|? ? Hw Hrest]; subst. simpl in Hw |- *.
    pose proof (serve_ok _ _ w q r c Hr Hc Hw) as Hs. unfold served in Hs.
    destruct (serve w q (r, c)) as [[a [r' c']]| |]; [|by rewrite Hs|by rewrite Hs].
    destruct Hs as (-> & Hr' & Hc'). by rewrite IH. }
  apply Hgen; [apply new_runtime_ok|by apply cache_ok_empty].
Qed.
End Spec.

(** * Examples *)

(** A runtime that accepts every file and doubles its input; the session keeps
    the bytes. *)
Definition doubling (values : list spec_float) : list spec_float := map (λ v, SFadd 24 128 v v) values.
Definition one_float : TensorInfo := {| ti_float := true; ti_shape := [1]; ti_count := 1 |}.

Definition toy_ort : OrtApi := {|
  OrtSession := list byte; ort_telemetry_disabled := true; ort_version := "toy"; hardware_concurrency := 4;
  ort_open_path _ _ _ := inr []; ort_open_bytes bytes _ := inr bytes;
  ort_input_count _ := 1; ort_output_count _ := 1; ort_input_name _ := "x"; ort_output_name _ := "y";
  ort_input_info _ := inr one_float; ort_output_info _ := inr one_float;
  ort_run _ _ values _ _ := inr [{| ov_tensor := true; ov_info := one_float; ov_data := doubling values |}];
  ort_run_into _ _ values _ _ memory _ :=
    (inr {| ov_tensor := true; ov_info := one_float; ov_data := doubling values |},
     map (λ _, hd (S754_zero false) (doubling values)) memory);
|}.

Definition one_tensor (n : string) : TensorSpec :=
  {| tn_name := n; element_type := Float32; shape := [1]; dynamic := false; element_count := 1 |}.
Definition float_one : spec_float := S754_finite false 8388608 (-23).
Definition float_two : spec_float := S754_finite false 8388608 (-22).

Definition toy_model : ModelSpec := {|
  ms_name := "m"; ms_path := "m.onnx"; ms_format := Onnx; ms_task := ""; ms_precision := "float32";
  ms_input := one_tensor "x"; ms_output := one_tensor "y"; ms_backend_preference := [OnnxRuntimeCPU];
  ms_compact := false; ms_allow_fallback := true; ms_quality_metric := ""; ms_quality_op := "";
  ms_quality_threshold := dzero |}.

Definition toy_request : Request := {|
  rq_model := toy_model;
  rq_input := {| spec := one_tensor "x"; f32_data := [float_one]; i8_data := []; external_f32_data := None;
                 external_f32_count := 0; external_f32_bound := false |};
  rq_output := Some [S754_zero false]; rq_count := 1 |}.

(** A host whose model file has the given bytes and whose environment may ask
    for unqualified hardware. *)
Definition toy_world (bytes : list byte) (unqualified : bool) : World := {|
  getenv n := if bool_decide (n = kAllowUnqualified) && unqualified then Some "1" else None;
  path_exists _ := false; meminfo := "MemTotal: 2048 kB";
  open_file _ := Some (Z.of_nat (length bytes), bytes); elapsed_ns := 7 |}.

Lemma caches_are_transparent_witness :
  Forall (λ q : World * Request, at_conditions "MemTotal: 2048 kB" false q.1)
    [(toy_world [x01]%byte false, toy_request); (toy_world [x01]%byte false, toy_request); (toy_world [x02]%byte false, toy_request)] ∧
  serve_all (H := linux_build) (H0 := toy_ort)
    [(toy_world [x01]%byte false, toy_request); (toy_world [x01]%byte false, toy_request); (toy_world [x02]%byte false, toy_request)]
    (new_runtime (toy_world [] false), new_cache) =
  reference_all (H := linux_build) (H0 := toy_ort)
    [(toy_world [x01]%byte false, toy_request); (toy_world [x01]%byte false, toy_request); (toy_world [x02]%byte false, toy_request)].
Proof.
  assert (Forall (λ q : World * Request, at_conditions "MemTotal: 2048 kB" false q.1)
    [(toy_world [x01]%byte false, toy_request); (toy_world [x01]%byte false, toy_request);
     (toy_world [x02]%byte false, toy_request)]) as Hq by (repeat constructor; vm_compute; reflexivity).
  split; [exact Hq|].
  exact (caches_are_transparent (H := linux_build) (H0 := toy_ort) "MemTotal: 2048 kB" false (toy_world [] false) _ Hq).
Defined.

(** The qualification override is not part of what the route cache compares:
    on a platform that is not qualified, a request made while the override is set
    keeps its route, so the same model still executes after the override has been
    withdrawn, although its route would now be refused. *)
Theorem withdrawn_override_still_executes :
  ∃ a b, serve_all (H := other_build) (H0 := toy_ort)
           [(toy_world [x01]%byte true, toy_request); (toy_world [x01]%byte false, toy_request)]
           (new_runtime (toy_world [x01]%byte true), new_cache) = Done [a; b] ∧
         ir_status a.1 = Success ∧ ir_status b.1 = Success ∧ b.2 = Some [float_two] ∧
         selected (route_now (H := other_build) (toy_world [x01]%byte false) toy_model) = false ∧
         allowUnqualifiedBackendHardwareFromEnvironment (toy_world [x01]%byte false) = false.
Proof.
  eexists _, _. split; [vm_compute; reflexivity|]. split_and!; vm_compute; reflexivity.
Qed.
