(* ===== verification/NativeRuntime.v ===== *)
(** Component: the native runtime library behind the C interface
    (runtime/ShorthandRuntime.cpp, runtime/AIRuntimeBridgeAdapter.cpp).

    Programs register models, tensors and contracts by name, record
    measurements and ask for inferences; the library answers with status codes
    and keeps counters, the last result and reports in JSON.  The variables at
    file scope are the record [Native].  A pointer to characters is an
    [option string], [None] being null; a pointer to floats is the memory behind
    it.  Signed overflow and accesses outside that memory are undefined.
    [bridge_enabled] is SHORTHAND_RUNTIME_ENABLE_AI_RUNTIME_BRIDGE. *)
From Stdlib Require Import SpecFloat.
From S2P Require Import Prelude CxxInt CxxString CxxFloat AiTypes JsonText HardwareRouting AiBackends AiRuntime.
Open Scope string_scope.
Open Scope Z_scope.

(** * Status codes *)

Definition SHORTHAND_RUNTIME_OK : Z := 0.
Definition SHORTHAND_RUNTIME_INVALID_ARGUMENT : Z := 1.
Definition SHORTHAND_RUNTIME_MODEL_NOT_FOUND : Z := 2.
Definition SHORTHAND_RUNTIME_TENSOR_NOT_FOUND : Z := 3.
Definition SHORTHAND_RUNTIME_OUTPUT_TENSOR_NOT_FOUND : Z := 4.
Definition SHORTHAND_RUNTIME_BACKEND_UNAVAILABLE : Z := 5.
Definition SHORTHAND_RUNTIME_NOT_EXECUTED : Z := 6.
Definition SHORTHAND_RUNTIME_INVALID_INPUT : Z := 7.
Definition SHORTHAND_RUNTIME_RUNTIME_ERROR : Z := 8.

Definition short_runtime_is_abi_compatible (requested_major requested_minor : Z) : bool :=
  (requested_major =? 1) && (0 <=? requested_minor) && (requested_minor <=? 0).

(** * Records *)

Record ModelRecord := {
  md_name : string; md_format : string; md_path : string; md_task : string; md_precision : string;
  md_input_shape : string; md_output_shape : string; md_backend_preference : string;
}.
Record TensorRecord := {
  td_name : string; td_element_type : string; td_shape : string; td_rank : string; td_total_elements : string;
}.
Record ContractRecord := {
  ct_name : string; ct_functional_unit : string; ct_success_criteria : string; ct_boundary : string;
  ct_measurement_quality : string; ct_data_quality : string; ct_carbon_factor : string; ct_claims_mode : string;
}.
Record MeasurementRecord := {
  me_workload : string; me_backend : string; me_inferences : string; me_watts : string; me_seconds : string;
}.
#[export] Instance ModelRecord_eq_dec : EqDecision ModelRecord.
Proof. solve_decision. Defined.
#[export] Instance TensorRecord_eq_dec : EqDecision TensorRecord.
Proof. solve_decision. Defined.

Definition no_model : ModelRecord := {|
  md_name := ""; md_format := ""; md_path := ""; md_task := ""; md_precision := "";
  md_input_shape := ""; md_output_shape := ""; md_backend_preference := "" |}.
Definition no_tensor : TensorRecord :=
  {| td_name := ""; td_element_type := ""; td_shape := ""; td_rank := ""; td_total_elements := "" |}.

Record RuntimeStats := {
  infer_calls : Z; infer_success : Z; infer_not_executed : Z; infer_backend_unavailable : Z; infer_invalid_input : Z;
}.
Definition no_stats : RuntimeStats :=
  {| infer_calls := 0; infer_success := 0; infer_not_executed := 0; infer_backend_unavailable := 0; infer_invalid_input := 0 |}.

(** [++] on an [int], [None] on overflow. *)
Definition bump (n : Z) : option Z := if n =? INT32_MAX then None else Some (n + 1).

(** The counters after a call that ended with a status. *)
Definition bumped (status : Z) (s : RuntimeStats) : option RuntimeStats :=
  match bump (infer_calls s) with
  | None => None
  | Some calls =>
      if status =? SHORTHAND_RUNTIME_OK then
        (λ v, {| infer_calls := calls; infer_success := v; infer_not_executed := infer_not_executed s;
                 infer_backend_unavailable := infer_backend_unavailable s; infer_invalid_input := infer_invalid_input s |})
          <$> bump (infer_success s)
      else if status =? SHORTHAND_RUNTIME_NOT_EXECUTED then
        (λ v, {| infer_calls := calls; infer_success := infer_success s; infer_not_executed := v;
                 infer_backend_unavailable := infer_backend_unavailable s; infer_invalid_input := infer_invalid_input s |})
          <$> bump (infer_not_executed s)
      else if status =? SHORTHAND_RUNTIME_BACKEND_UNAVAILABLE then
        (λ v, {| infer_calls := calls; infer_success := infer_success s; infer_not_executed := infer_not_executed s;
                 infer_backend_unavailable := v; infer_invalid_input := infer_invalid_input s |})
          <$> bump (infer_backend_unavailable s)
      else if (status =? SHORTHAND_RUNTIME_INVALID_INPUT) || (status =? SHORTHAND_RUNTIME_INVALID_ARGUMENT) then
        (λ v, {| infer_calls := calls; infer_success := infer_success s; infer_not_executed := infer_not_executed s;
                 infer_backend_unavailable := infer_backend_unavailable s; infer_invalid_input := v |})
          <$> bump (infer_invalid_input s)
      else Some {| infer_calls := calls; infer_success := infer_success s; infer_not_executed := infer_not_executed s;
                   infer_backend_unavailable := infer_backend_unavailable s; infer_invalid_input := infer_invalid_input s |}
  end.

Inductive LazyBridgeRequestKind := LazyNone | CompiledMetadataOnly | TypedBuffer.

Record LazyBridgeRequestState := {
  lz_kind : LazyBridgeRequestKind; lz_model : ModelRecord; lz_input : TensorRecord; lz_output : TensorRecord;
  lz_backend : string; lz_status : Z; lz_reason : string; lz_input_count : Z; lz_output_capacity : Z;
  lz_expected_input_elements : Z; lz_expected_output_elements : Z; lz_output_count : Z; lz_dirty : bool;
}.
Definition no_lazy_request : LazyBridgeRequestState := {|
  lz_kind := LazyNone; lz_model := no_model; lz_input := no_tensor; lz_output := no_tensor; lz_backend := "";
  lz_status := SHORTHAND_RUNTIME_NOT_EXECUTED; lz_reason := ""; lz_input_count := 0; lz_output_capacity := 0;
  lz_expected_input_elements := 0; lz_expected_output_elements := 0; lz_output_count := 0; lz_dirty := false |}.

(** * The bridge adapter *)

Record RuntimeBridgeModelInput := {
  bm_name : option string; bm_format : option string; bm_path : option string; bm_task : option string;
  bm_precision : option string; bm_input_shape : option string; bm_output_shape : option string;
  bm_backend_preference : option string; bm_allow_fallback : bool;
}.
Record RuntimeBridgeTensorInput := {
  bt_name : option string; bt_element_type : option string; bt_shape : option string; bt_rank : option string;
  bt_total_elements : option string;
}.

(** [safe] and [s]: a null pointer is the empty string. *)
Definition safe (value : option string) : string := default "" value.
Definition blank (value : option string) : bool := is_empty (safe value).

Definition bridgeAdapterContractVersion : string := "shorthand.runtime.ai_runtime_execution_adapter.v1".

Definition buildTensorSpec (input : RuntimeBridgeTensorInput) : TensorSpec :=
  let dims := parseShapeCsv (safe (bt_shape input)) in
  {| tn_name := safe (bt_name input); element_type := parseElementType (safe (bt_element_type input)); shape := dims;
     dynamic := bool_decide (dims = []); element_count := productOfShape dims |}.

Definition buildModelSpec (model : RuntimeBridgeModelInput) (input output : RuntimeBridgeTensorInput) : ModelSpec :=
  let backend := safe (bm_backend_preference model) in
  let pref := if is_empty backend then [] else [parseBackendKind backend] in
  let pref := if bool_decide (pref = []) && bm_allow_fallback model then [Fallback] else pref in
  {| ms_name := safe (bm_name model); ms_path := safe (bm_path model); ms_format := parseModelFormat (safe (bm_format model));
     ms_task := safe (bm_task model); ms_precision := safe (bm_precision model);
     ms_input := buildTensorSpec input; ms_output := buildTensorSpec output; ms_backend_preference := pref;
     ms_compact := false; ms_allow_fallback := bm_allow_fallback model;
     ms_quality_metric := ""; ms_quality_op := ""; ms_quality_threshold := dzero |}.

Definition buildInputTensorBuffer (input : RuntimeBridgeTensorInput) (input_values : option (list spec_float)) (input_count : Z)
    : outcome TensorBuffer :=
  let buffer data := {| spec := buildTensorSpec input; f32_data := data; i8_data := []; external_f32_data := None;
                        external_f32_count := 0; external_f32_bound := false |} in
  match input_values with
  | Some values =>
      if 0 <? input_count then
        if input_count <=? Z.of_nat (length values) then Done (buffer (take (Z.to_nat input_count) values))
        else Undefined "input read past its memory"
      else Done (buffer [])
  | None => Done (buffer [])
  end.

Definition runtimeStatusFromInferenceStatus (status : InferenceStatus) : Z :=
  match status with
  | Success => SHORTHAND_RUNTIME_OK
  | BackendUnavailable => SHORTHAND_RUNTIME_BACKEND_UNAVAILABLE
  | InvalidInput => SHORTHAND_RUNTIME_INVALID_INPUT
  | RuntimeError => SHORTHAND_RUNTIME_RUNTIME_ERROR
  | NotExecuted => SHORTHAND_RUNTIME_NOT_EXECUTED
  end.

Definition bridgeRequestIsExecutionReady (model : ModelSpec) (input : TensorBuffer) (output_capacity : Z) : bool :=
  if is_empty (ms_name model) || is_empty (ms_path model) then false
  else if bool_decide (ms_format model = FormatUnknown) then false
  else if negb (bool_decide (element_type (ms_input model) = Float32)) then false
  else if negb (bool_decide (element_type (ms_output model) = Float32)) then false
  else if negb (validateShape (shape (ms_input model))) || negb (validateShape (shape (ms_output model))) then false
  else if negb (validateInputMatchesShape input) then false
  else if bool_decide (f32Data input = None) || (f32Size input =? 0) then false
  else if output_capacity <=? 0 then false
  else element_count (ms_output model) <=? output_capacity.

(** * Shapes *)

Fixpoint parse_shape_tokens (tokens : list string) : option (list Z) :=
  match tokens with
  | [] => Some []
  | token :: rest =>
      let r := strtoll (c_str token) in
      if negb (st_converted r) || (st_value r <=? 0) then None
      else match parse_shape_tokens rest with Some out => Some (st_value r :: out) | None => None end
  end.

Definition parse_shape (csv : string) : list Z := default [] (parse_shape_tokens (getline_split "," csv)).

Definition shape_is_valid (csv : string) : bool := negb (bool_decide (parse_shape csv = [])).

Fixpoint shape_product_loop (product : Z) (dims : list Z) : outcome Z :=
  match dims with
  | [] => Done product
  | dim :: rest =>
      if dim <=? 0 then Done 0
      else if INT64_MAX <? product * dim then Undefined "signed overflow of the element count"
      else shape_product_loop (product * dim) rest
  end.

Definition shape_product (dims : list Z) : outcome Z :=
  if bool_decide (dims = []) then Done 0 else shape_product_loop 1 dims.

Definition declared_element_count (tensor : TensorRecord) : outcome Z :=
  let r := strtoll (c_str (td_total_elements tensor)) in
  if negb (is_empty (td_total_elements tensor)) && st_converted r && (0 <? st_value r) then Done (st_value r)
  else shape_product (parse_shape (td_shape tensor)).

Definition status_name (status : Z) : string :=
  if status =? SHORTHAND_RUNTIME_OK then "success"
  else if status =? SHORTHAND_RUNTIME_INVALID_ARGUMENT then "invalid_argument"
  else if status =? SHORTHAND_RUNTIME_MODEL_NOT_FOUND then "model_not_found"
  else if status =? SHORTHAND_RUNTIME_TENSOR_NOT_FOUND then "tensor_not_found"
  else if status =? SHORTHAND_RUNTIME_OUTPUT_TENSOR_NOT_FOUND then "output_tensor_not_found"
  else if status =? SHORTHAND_RUNTIME_BACKEND_UNAVAILABLE then "backend_unavailable"
  else if status =? SHORTHAND_RUNTIME_NOT_EXECUTED then "not_executed"
  else if status =? SHORTHAND_RUNTIME_INVALID_INPUT then "invalid_input"
  else "runtime_error".

Definition json_escape (value : string) : string := short_escape value.
Definition prometheus_label_escape (value : string) : string := short_escape value.

Definition infer_logging_enabled (w : World) : bool :=
  match getenv w "SHORTHAND_RUNTIME_INFER_LOG" with
  | None => false
  | Some value => negb (is_empty value) && negb (bool_decide (value ∈ ["0"; "false"; "no"; "off"]))
  end.

(** * The reports of one request *)

Definition build_compiled_infer_bridge_request (model : ModelRecord) (input output : TensorRecord) (backend : string)
    (status : Z) (why : string) : string :=
  dq "{'schema':'shorthand.runtime.compiled_infer_bridge_request.v1'" +:+
  dq ",'status':'" +:+ json_escape (status_name status) +:+ dq "'" +:+
  dq ",'bridge_status':'candidate_request_only'" +:+
  dq ",'execution_ready':false" +:+
  dq ",'reason':'" +:+ json_escape why +:+ dq "'" +:+
  dq ",'runtime_target':'AI_Runtime'" +:+
  dq ",'input_buffer_required':true" +:+
  dq ",'model':{'name':'" +:+ json_escape (md_name model) +:+
  dq "','format':'" +:+ json_escape (md_format model) +:+
  dq "','path':'" +:+ json_escape (md_path model) +:+
  dq "','task':'" +:+ json_escape (md_task model) +:+
  dq "','precision':'" +:+ json_escape (md_precision model) +:+
  dq "','input_shape':'" +:+ json_escape (md_input_shape model) +:+
  dq "','output_shape':'" +:+ json_escape (md_output_shape model) +:+
  dq "','backend_preference':'" +:+ json_escape backend +:+ dq "'}" +:+
  dq ",'input':{'name':'" +:+ json_escape (td_name input) +:+
  dq "','element_type':'" +:+ json_escape (td_element_type input) +:+
  dq "','shape':'" +:+ json_escape (td_shape input) +:+
  dq "','rank':'" +:+ json_escape (td_rank input) +:+
  dq "','total_elements':'" +:+ json_escape (td_total_elements input) +:+ dq "'}" +:+
  dq ",'output':{'name':'" +:+ json_escape (td_name output) +:+
  dq "','element_type':'" +:+ json_escape (td_element_type output) +:+
  dq "','shape':'" +:+ json_escape (td_shape output) +:+
  dq "','rank':'" +:+ json_escape (td_rank output) +:+
  dq "','total_elements':'" +:+ json_escape (td_total_elements output) +:+ dq "'}}".

Definition build_typed_buffer_bridge_request (model : ModelRecord) (input output : TensorRecord) (backend : string)
    (status : Z) (why : string)
    (input_count output_capacity expected_input_elements expected_output_elements output_count : Z) : string :=
  let pending := bool_decide (why = "ai_runtime_typed_buffer_bridge_pending") in
  let rejected := bool_decide (why = "ai_runtime_adapter_request_not_execution_ready") in
  let execution_ready := negb pending && negb rejected in
  let bridge_status :=
    if pending then "typed_buffer_received_execution_pending"
    else if rejected then "typed_buffer_received_execution_rejected"
    else if status =? SHORTHAND_RUNTIME_OK then "ai_runtime_execution_succeeded" else "ai_runtime_execution_attempted" in
  dq "{'schema':'shorthand.runtime.typed_infer_buffer_bridge_request.v1'" +:+
  dq ",'parent_schema':'shorthand.runtime.compiled_infer_bridge_request.v1'" +:+
  dq ",'status':'" +:+ json_escape (status_name status) +:+ dq "'" +:+
  dq ",'bridge_status':'" +:+ bridge_status +:+ dq "'" +:+
  dq ",'execution_ready':" +:+ true_false execution_ready +:+
  dq ",'runtime_target':'AI_Runtime'" +:+
  dq ",'input_buffer_available':true" +:+
  dq ",'input_element_count':" +:+ pretty input_count +:+
  dq ",'expected_input_elements':" +:+ pretty expected_input_elements +:+
  dq ",'output_capacity':" +:+ pretty output_capacity +:+
  dq ",'expected_output_elements':" +:+ pretty expected_output_elements +:+
  dq ",'output_count':" +:+ pretty output_count +:+
  dq ",'reason':'" +:+ json_escape why +:+ dq "'" +:+
  dq ",'model':{'name':'" +:+ json_escape (md_name model) +:+
  dq "','format':'" +:+ json_escape (md_format model) +:+
  dq "','path':'" +:+ json_escape (md_path model) +:+
  dq "','task':'" +:+ json_escape (md_task model) +:+
  dq "','precision':'" +:+ json_escape (md_precision model) +:+
  dq "','backend_preference':'" +:+ json_escape backend +:+ dq "'}" +:+
  dq ",'input':{'name':'" +:+ json_escape (td_name input) +:+
  dq "','element_type':'" +:+ json_escape (td_element_type input) +:+
  dq "','shape':'" +:+ json_escape (td_shape input) +:+ dq "'}" +:+
  dq ",'output':{'name':'" +:+ json_escape (td_name output) +:+
  dq "','element_type':'" +:+ json_escape (td_element_type output) +:+
  dq "','shape':'" +:+ json_escape (td_shape output) +:+ dq "'}}".

Section Native.
Context `{Platform} `{OrtApi} (bridge_enabled : bool).

(** * State *)

Record BridgeDescriptor := { bd_model_name : string; bd_input_name : string; bd_output_name : string; bd_spec : ModelSpec }.

Record Registrations := {
  models : gmap string ModelRecord; tensors : gmap string TensorRecord; contracts : gmap string ContractRecord;
  measurements : list MeasurementRecord;
}.

Record Bridge := {
  prepared_cache : PreparedInferenceCache; bridge_buffer : TensorBuffer; bridge_output_buffer : list spec_float;
  bridge_runtime : option AIRuntime; bridge_descriptor : option BridgeDescriptor;
}.

Record LastInfer := {
  last_infer_status : Z; last_infer_backend : string; last_infer_reason : string;
  last_infer_ai_telemetry_fragment : string; last_infer_telemetry_dirty : bool; last_infer_telemetry_json : string;
}.

Record Native := {
  registrations : Registrations; bridge : Bridge; stats : RuntimeStats; last_infer : LastInfer;
  lazy_bridge_request : LazyBridgeRequestState; infer_bridge_request_json_cache : string;
  observability_json_cache : string; prometheus_metrics_cache : string; otlp_spans_json_cache : string;
  stderr_lines : list string;
}.

Definition no_bridge : Bridge := {|
  prepared_cache := new_cache; bridge_buffer := no_tensor_buffer; bridge_output_buffer := []; bridge_runtime := None;
  bridge_descriptor := None |}.

Definition not_run : LastInfer := {|
  last_infer_status := SHORTHAND_RUNTIME_NOT_EXECUTED; last_infer_backend := "none"; last_infer_reason := "not_run";
  last_infer_ai_telemetry_fragment := ""; last_infer_telemetry_dirty := false; last_infer_telemetry_json := "{}" |}.

(** The initial values of the variables. *)
Definition new_native : Native := {|
  registrations := {| models := ∅; tensors := ∅; contracts := ∅; measurements := [] |};
  bridge := no_bridge; stats := no_stats; last_infer := not_run; lazy_bridge_request := no_lazy_request;
  infer_bridge_request_json_cache := "{}"; observability_json_cache := "{}"; prometheus_metrics_cache := "";
  otlp_spans_json_cache := "{}"; stderr_lines := [] |}.

Definition set_registrations (v : Registrations) (s : Native) : Native := {|
  registrations := v; bridge := bridge s; stats := stats s; last_infer := last_infer s;
  lazy_bridge_request := lazy_bridge_request s; infer_bridge_request_json_cache := infer_bridge_request_json_cache s;
  observability_json_cache := observability_json_cache s; prometheus_metrics_cache := prometheus_metrics_cache s;
  otlp_spans_json_cache := otlp_spans_json_cache s; stderr_lines := stderr_lines s |}.
Definition set_bridge (v : Bridge) (s : Native) : Native := {|
  registrations := registrations s; bridge := v; stats := stats s; last_infer := last_infer s;
  lazy_bridge_request := lazy_bridge_request s; infer_bridge_request_json_cache := infer_bridge_request_json_cache s;
  observability_json_cache := observability_json_cache s; prometheus_metrics_cache := prometheus_metrics_cache s;
  otlp_spans_json_cache := otlp_spans_json_cache s; stderr_lines := stderr_lines s |}.
Definition set_stats (v : RuntimeStats) (s : Native) : Native := {|
  registrations := registrations s; bridge := bridge s; stats := v; last_infer := last_infer s;
  lazy_bridge_request := lazy_bridge_request s; infer_bridge_request_json_cache := infer_bridge_request_json_cache s;
  observability_json_cache := observability_json_cache s; prometheus_metrics_cache := prometheus_metrics_cache s;
  otlp_spans_json_cache := otlp_spans_json_cache s; stderr_lines := stderr_lines s |}.
Definition set_last (v : LastInfer) (s : Native) : Native := {|
  registrations := registrations s; bridge := bridge s; stats := stats s; last_infer := v;
  lazy_bridge_request := lazy_bridge_request s; infer_bridge_request_json_cache := infer_bridge_request_json_cache s;
  observability_json_cache := observability_json_cache s; prometheus_metrics_cache := prometheus_metrics_cache s;
  otlp_spans_json_cache := otlp_spans_json_cache s; stderr_lines := stderr_lines s |}.
Definition set_lazy (v : LazyBridgeRequestState) (json : string) (s : Native) : Native := {|
  registrations := registrations s; bridge := bridge s; stats := stats s; last_infer := last_infer s;
  lazy_bridge_request := v; infer_bridge_request_json_cache := json;
  observability_json_cache := observability_json_cache s; prometheus_metrics_cache := prometheus_metrics_cache s;
  otlp_spans_json_cache := otlp_spans_json_cache s; stderr_lines := stderr_lines s |}.
Definition set_reports (observability prometheus otlp : string) (s : Native) : Native := {|
  registrations := registrations s; bridge := bridge s; stats := stats s; last_infer := last_infer s;
  lazy_bridge_request := lazy_bridge_request s; infer_bridge_request_json_cache := infer_bridge_request_json_cache s;
  observability_json_cache := observability; prometheus_metrics_cache := prometheus;
  otlp_spans_json_cache := otlp; stderr_lines := stderr_lines s |}.
Definition print_line (line : string) (s : Native) : Native := {|
  registrations := registrations s; bridge := bridge s; stats := stats s; last_infer := last_infer s;
  lazy_bridge_request := lazy_bridge_request s; infer_bridge_request_json_cache := infer_bridge_request_json_cache s;
  observability_json_cache := observability_json_cache s; prometheus_metrics_cache := prometheus_metrics_cache s;
  otlp_spans_json_cache := otlp_spans_json_cache s; stderr_lines := (stderr_lines s ++ [line])%list |}.

Definition with_descriptor (d : option BridgeDescriptor) (cache : PreparedInferenceCache) (b : Bridge) : Bridge := {|
  prepared_cache := cache; bridge_buffer := bridge_buffer b; bridge_output_buffer := bridge_output_buffer b;
  bridge_runtime := bridge_runtime b; bridge_descriptor := d |}.
Definition with_input_buffer (t : TensorBuffer) (b : Bridge) : Bridge := {|
  prepared_cache := prepared_cache b; bridge_buffer := t; bridge_output_buffer := bridge_output_buffer b;
  bridge_runtime := bridge_runtime b; bridge_descriptor := bridge_descriptor b |}.
Definition with_output_buffer (data : list spec_float) (b : Bridge) : Bridge := {|
  prepared_cache := prepared_cache b; bridge_buffer := bridge_buffer b; bridge_output_buffer := data;
  bridge_runtime := bridge_runtime b; bridge_descriptor := bridge_descriptor b |}.
Definition with_session (cache : PreparedInferenceCache) (runtime : AIRuntime) (b : Bridge) : Bridge := {|
  prepared_cache := cache; bridge_buffer := bridge_buffer b; bridge_output_buffer := bridge_output_buffer b;
  bridge_runtime := Some runtime; bridge_descriptor := bridge_descriptor b |}.

Definition NM : Type → Type := SM Native.
Notation "'let!' x := m 'in' k" := (mbind (λ x, k) m) (at level 200, x binder).

Definition print (line : string) : NM unit := modify (print_line line).

Definition log_status (operation : string) (status : Z) (message : string) : NM unit :=
  print ("[shorthand-runtime] " +:+ operation +:+ " status=" +:+ pretty status +:+ " " +:+ message).

(** * Bookkeeping *)

Definition update_stats (status : Z) : NM unit :=
  let! s := gets stats in
  match bumped status s with
  | Some s => modify (set_stats s)
  | None => undefined "signed overflow of a counter"
  end.

Definition drop_lazy (l : LazyBridgeRequestState) : LazyBridgeRequestState := {|
  lz_kind := LazyNone; lz_model := lz_model l; lz_input := lz_input l; lz_output := lz_output l; lz_backend := lz_backend l;
  lz_status := lz_status l; lz_reason := lz_reason l; lz_input_count := lz_input_count l;
  lz_output_capacity := lz_output_capacity l; lz_expected_input_elements := lz_expected_input_elements l;
  lz_expected_output_elements := lz_expected_output_elements l; lz_output_count := lz_output_count l; lz_dirty := false |}.

Definition set_last_infer (status : Z) (backend why : string) : NM unit :=
  let! old := gets last_infer in
  let! _ := modify (set_last {|
    last_infer_status := status; last_infer_backend := if is_empty backend then "none" else backend;
    last_infer_reason := if is_empty why then "unspecified" else why;
    last_infer_ai_telemetry_fragment := ""; last_infer_telemetry_dirty := true;
    last_infer_telemetry_json := last_infer_telemetry_json old |}) in
  let! l := gets lazy_bridge_request in
  let! _ := modify (set_lazy (drop_lazy l) "{}") in
  update_stats status.

Definition telemetry_text (l : LastInfer) : string :=
  dq "{'schema':'shorthand.runtime.infer_telemetry.v1','status':'" +:+ json_escape (status_name (last_infer_status l)) +:+
  dq "','backend':'" +:+ json_escape (last_infer_backend l) +:+
  dq "','reason':'" +:+ json_escape (last_infer_reason l) +:+
  (if negb (is_empty (last_infer_ai_telemetry_fragment l)) then
     dq "','ai_runtime_telemetry':" +:+ last_infer_ai_telemetry_fragment l +:+ "}"
   else dq "'}").

Definition with_json_text (text : string) (l : LastInfer) : LastInfer := {|
  last_infer_status := last_infer_status l; last_infer_backend := last_infer_backend l;
  last_infer_reason := last_infer_reason l; last_infer_ai_telemetry_fragment := last_infer_ai_telemetry_fragment l;
  last_infer_telemetry_dirty := false; last_infer_telemetry_json := text |}.

Definition materialize_last_infer_telemetry_json : NM string :=
  let! l := gets last_infer in
  if last_infer_telemetry_dirty l then
    let! _ := modify (set_last (with_json_text (telemetry_text l) l)) in
    mret (telemetry_text l)
  else mret (last_infer_telemetry_json l).

Definition clean_lazy (l : LazyBridgeRequestState) : LazyBridgeRequestState := {|
  lz_kind := lz_kind l; lz_model := lz_model l; lz_input := lz_input l; lz_output := lz_output l; lz_backend := lz_backend l;
  lz_status := lz_status l; lz_reason := lz_reason l; lz_input_count := lz_input_count l;
  lz_output_capacity := lz_output_capacity l; lz_expected_input_elements := lz_expected_input_elements l;
  lz_expected_output_elements := lz_expected_output_elements l; lz_output_count := lz_output_count l; lz_dirty := false |}.

Definition request_text (l : LazyBridgeRequestState) (old : string) : string :=
  match lz_kind l with
  | CompiledMetadataOnly =>
      build_compiled_infer_bridge_request (lz_model l) (lz_input l) (lz_output l) (lz_backend l) (lz_status l) (lz_reason l)
  | TypedBuffer =>
      build_typed_buffer_bridge_request (lz_model l) (lz_input l) (lz_output l) (lz_backend l) (lz_status l) (lz_reason l)
        (lz_input_count l) (lz_output_capacity l) (lz_expected_input_elements l) (lz_expected_output_elements l)
        (lz_output_count l)
  | LazyNone => old
  end.

Definition materialize_infer_bridge_request_json : NM string :=
  let! l := gets lazy_bridge_request in
  let! old := gets infer_bridge_request_json_cache in
  if lz_dirty l then
    let! _ := modify (set_lazy (clean_lazy l) (request_text l old)) in
    mret (request_text l old)
  else mret old.

Definition record_lazy_typed_buffer_bridge_request (model : ModelRecord) (input output : TensorRecord) (backend : string)
    (status : Z) (why : string)
    (input_count output_capacity expected_input_elements expected_output_elements output_count : Z) : NM unit :=
  let! old := gets infer_bridge_request_json_cache in
  modify (set_lazy {|
    lz_kind := TypedBuffer; lz_model := model; lz_input := input; lz_output := output; lz_backend := backend;
    lz_status := status; lz_reason := why; lz_input_count := input_count; lz_output_capacity := output_capacity;
    lz_expected_input_elements := expected_input_elements; lz_expected_output_elements := expected_output_elements;
    lz_output_count := output_count; lz_dirty := true |} old).

(** * Registration *)

Definition invalidate_bridge_registration : NM unit :=
  let! b := gets bridge in
  modify (set_bridge (with_descriptor None (clear (prepared_cache b)) b)).

Definition short_runtime_reset : NM Z :=
  let! _ := modify (λ s, {|
    registrations := {| models := ∅; tensors := ∅; contracts := ∅; measurements := [] |};
    bridge := if bridge_enabled then no_bridge else bridge s;
    stats := no_stats; last_infer := not_run; lazy_bridge_request := no_lazy_request;
    infer_bridge_request_json_cache := "{}"; observability_json_cache := "{}"; prometheus_metrics_cache := "";
    otlp_spans_json_cache := "{}"; stderr_lines := stderr_lines s |}) in
  mret SHORTHAND_RUNTIME_OK.

Definition short_ai_register_model (name format path task precision input_shape output_shape backend_preference : option string)
    : NM Z :=
  if blank name then
    let! _ := log_status "model" SHORTHAND_RUNTIME_INVALID_ARGUMENT "reason=missing_name" in
    mret SHORTHAND_RUNTIME_INVALID_ARGUMENT
  else
    let record := {| md_name := safe name; md_format := safe format; md_path := safe path; md_task := safe task;
                     md_precision := safe precision; md_input_shape := safe input_shape;
                     md_output_shape := safe output_shape; md_backend_preference := safe backend_preference |} in
    let! r := gets registrations in
    if bool_decide (models r !! md_name record = Some record) then mret SHORTHAND_RUNTIME_OK
    else
      let! _ := (if bridge_enabled then invalidate_bridge_registration else mret tt) in
      let! _ := modify (set_registrations {| models := <[md_name record := record]> (models r); tensors := tensors r;
                                              contracts := contracts r; measurements := measurements r |}) in
      let! _ := print ("[shorthand-runtime] model name=" +:+ md_name record +:+ " format=" +:+ md_format record +:+
                       " path=" +:+ md_path record +:+ " task=" +:+ md_task record +:+ " precision=" +:+ md_precision record +:+
                       " input_shape=" +:+ md_input_shape record +:+ " output_shape=" +:+ md_output_shape record +:+
                       " backend_preference=" +:+ md_backend_preference record +:+ " status=registered") in
      mret SHORTHAND_RUNTIME_OK.

Definition short_ai_register_tensor (name element_type shape rank total_elements : option string) : NM Z :=
  if blank name then
    let! _ := log_status "tensor" SHORTHAND_RUNTIME_INVALID_ARGUMENT "reason=missing_name" in
    mret SHORTHAND_RUNTIME_INVALID_ARGUMENT
  else
    let record := {| td_name := safe name; td_element_type := safe element_type; td_shape := safe shape;
                     td_rank := safe rank; td_total_elements := safe total_elements |} in
    let! r := gets registrations in
    if bool_decide (tensors r !! td_name record = Some record) then mret SHORTHAND_RUNTIME_OK
    else
      let! _ := (if bridge_enabled then invalidate_bridge_registration else mret tt) in
      let! _ := modify (set_registrations {| models := models r; tensors := <[td_name record := record]> (tensors r);
                                              contracts := contracts r; measurements := measurements r |}) in
      let! _ := print ("[shorthand-runtime] tensor name=" +:+ td_name record +:+ " element_type=" +:+ td_element_type record +:+
                       " shape=" +:+ td_shape record +:+ " rank=" +:+ td_rank record +:+
                       " total_elements=" +:+ td_total_elements record +:+ " status=registered") in
      mret SHORTHAND_RUNTIME_OK.

Definition short_greenai_register_contract
    (name functional_unit success_criteria boundary measurement_quality data_quality carbon_factor claims_mode : option string)
    : NM Z :=
  if blank name then
    let! _ := log_status "greenai_contract" SHORTHAND_RUNTIME_INVALID_ARGUMENT "reason=missing_name" in
    mret SHORTHAND_RUNTIME_INVALID_ARGUMENT
  else
    let record := {| ct_name := safe name; ct_functional_unit := safe functional_unit;
                     ct_success_criteria := safe success_criteria; ct_boundary := safe boundary;
                     ct_measurement_quality := safe measurement_quality; ct_data_quality := safe data_quality;
                     ct_carbon_factor := safe carbon_factor; ct_claims_mode := safe claims_mode |} in
    let! r := gets registrations in
    let! _ := modify (set_registrations {| models := models r; tensors := tensors r;
                                            contracts := <[ct_name record := record]> (contracts r);
                                            measurements := measurements r |}) in
    let! _ := print ("[shorthand-runtime] greenai_contract name=" +:+ ct_name record +:+
                     " functional_unit=" +:+ ct_functional_unit record +:+ " success_criteria=" +:+ ct_success_criteria record +:+
                     " boundary=" +:+ ct_boundary record +:+ " measurement_quality=" +:+ ct_measurement_quality record +:+
                     " data_quality=" +:+ ct_data_quality record +:+ " carbon_factor=" +:+ ct_carbon_factor record +:+
                     " claims_mode=" +:+ ct_claims_mode record +:+ " status=registered") in
    mret SHORTHAND_RUNTIME_OK.

Definition short_greenai_record_measurement (workload backend inferences watts seconds : option string) : NM Z :=
  if blank workload then
    let! _ := log_status "greenai_measure" SHORTHAND_RUNTIME_INVALID_ARGUMENT "reason=missing_workload" in
    mret SHORTHAND_RUNTIME_INVALID_ARGUMENT
  else
    let record := {| me_workload := safe workload; me_backend := safe backend; me_inferences := safe inferences;
                     me_watts := safe watts; me_seconds := safe seconds |} in
    let! r := gets registrations in
    let! _ := modify (set_registrations {| models := models r; tensors := tensors r; contracts := contracts r;
                                            measurements := (measurements r ++ [record])%list |}) in
    let! _ := print ("[shorthand-runtime] greenai_measure workload=" +:+ me_workload record +:+ " backend=" +:+ me_backend record +:+
                     " inferences=" +:+ me_inferences record +:+ " watts=" +:+ me_watts record +:+
                     " seconds=" +:+ me_seconds record +:+ " status=recorded") in
    mret SHORTHAND_RUNTIME_OK.

(** * Counters and the last result *)

Definition short_runtime_model_count : NM Z := gets (λ s, s32 (Z.of_nat (size (models (registrations s))))).
Definition short_runtime_tensor_count : NM Z := gets (λ s, s32 (Z.of_nat (size (tensors (registrations s))))).
Definition short_runtime_contract_count : NM Z := gets (λ s, s32 (Z.of_nat (size (contracts (registrations s))))).
Definition short_runtime_measurement_count : NM Z := gets (λ s, s32 (Z.of_nat (length (measurements (registrations s))))).
Definition short_runtime_infer_count : NM Z := gets (λ s, infer_calls (stats s)).
Definition short_runtime_infer_success_count : NM Z := gets (λ s, infer_success (stats s)).
Definition short_runtime_infer_not_executed_count : NM Z := gets (λ s, infer_not_executed (stats s)).
Definition short_runtime_infer_backend_unavailable_count : NM Z := gets (λ s, infer_backend_unavailable (stats s)).
Definition short_runtime_infer_invalid_input_count : NM Z := gets (λ s, infer_invalid_input (stats s)).
Definition short_runtime_last_infer_status : NM Z := gets (λ s, last_infer_status (last_infer s)).
Definition short_runtime_last_infer_backend : NM string := gets (λ s, last_infer_backend (last_infer s)).
Definition short_runtime_last_infer_reason : NM string := gets (λ s, last_infer_reason (last_infer s)).
Definition short_runtime_last_infer_telemetry_json : NM string := materialize_last_infer_telemetry_json.
Definition short_runtime_infer_bridge_request_json : NM string := materialize_infer_bridge_request_json.

Definition count_text (n : nat) : string := pretty (Z.of_nat n).

Definition observability_text (s : Native) (bridge_json : string) : string :=
  let r := registrations s in let l := last_infer s in
  dq "{'schema':'shorthand.runtime.observability.v1'" +:+
  dq ",'models':" +:+ count_text (size (models r)) +:+
  dq ",'tensors':" +:+ count_text (size (tensors r)) +:+
  dq ",'contracts':" +:+ count_text (size (contracts r)) +:+
  dq ",'measurements':" +:+ count_text (length (measurements r)) +:+
  dq ",'infer_calls':" +:+ pretty (infer_calls (stats s)) +:+
  dq ",'infer_success':" +:+ pretty (infer_success (stats s)) +:+
  dq ",'infer_not_executed':" +:+ pretty (infer_not_executed (stats s)) +:+
  dq ",'infer_backend_unavailable':" +:+ pretty (infer_backend_unavailable (stats s)) +:+
  dq ",'infer_invalid_input':" +:+ pretty (infer_invalid_input (stats s)) +:+
  dq ",'last_status':'" +:+ json_escape (status_name (last_infer_status l)) +:+ dq "'" +:+
  dq ",'last_backend':'" +:+ json_escape (last_infer_backend l) +:+ dq "'" +:+
  dq ",'last_reason':'" +:+ json_escape (last_infer_reason l) +:+ dq "'" +:+
  dq ",'infer_bridge_request':" +:+ bridge_json +:+ "}".

Definition short_runtime_observability_json : NM string :=
  let! bridge_json := materialize_infer_bridge_request_json in
  let! text := gets (λ s, observability_text s bridge_json) in
  let! _ := modify (λ s, set_reports text (prometheus_metrics_cache s) (otlp_spans_json_cache s) s) in
  mret text.

Definition prometheus_text (s : Native) : string :=
  let r := registrations s in let l := last_infer s in
  "# HELP shorthand_runtime_models Registered model count" +:+ endl +:+
  "# TYPE shorthand_runtime_models gauge" +:+ endl +:+
  "shorthand_runtime_models " +:+ count_text (size (models r)) +:+ endl +:+
  "# HELP shorthand_runtime_tensors Registered tensor count" +:+ endl +:+
  "# TYPE shorthand_runtime_tensors gauge" +:+ endl +:+
  "shorthand_runtime_tensors " +:+ count_text (size (tensors r)) +:+ endl +:+
  "# HELP shorthand_runtime_contracts Registered GreenAI contract count" +:+ endl +:+
  "# TYPE shorthand_runtime_contracts gauge" +:+ endl +:+
  "shorthand_runtime_contracts " +:+ count_text (size (contracts r)) +:+ endl +:+
  "# HELP shorthand_runtime_measurements Recorded GreenAI measurement count" +:+ endl +:+
  "# TYPE shorthand_runtime_measurements gauge" +:+ endl +:+
  "shorthand_runtime_measurements " +:+ count_text (length (measurements r)) +:+ endl +:+
  "# HELP shorthand_runtime_infer_total Total infer calls observed by the runtime hook" +:+ endl +:+
  "# TYPE shorthand_runtime_infer_total counter" +:+ endl +:+
  "shorthand_runtime_infer_total " +:+ pretty (infer_calls (stats s)) +:+ endl +:+
  "shorthand_runtime_infer_success_total " +:+ pretty (infer_success (stats s)) +:+ endl +:+
  "shorthand_runtime_infer_not_executed_total " +:+ pretty (infer_not_executed (stats s)) +:+ endl +:+
  "shorthand_runtime_infer_backend_unavailable_total " +:+ pretty (infer_backend_unavailable (stats s)) +:+ endl +:+
  "shorthand_runtime_infer_invalid_input_total " +:+ pretty (infer_invalid_input (stats s)) +:+ endl +:+
  "# HELP shorthand_runtime_last_infer_info Last infer status labels; value is always 1" +:+ endl +:+
  "# TYPE shorthand_runtime_last_infer_info gauge" +:+ endl +:+
  dq "shorthand_runtime_last_infer_info{status='" +:+ prometheus_label_escape (status_name (last_infer_status l)) +:+
  dq "',backend='" +:+ prometheus_label_escape (last_infer_backend l) +:+
  dq "',reason='" +:+ prometheus_label_escape (last_infer_reason l) +:+ dq "'} 1" +:+ endl.

Definition short_runtime_prometheus_metrics : NM string :=
  let! text := gets prometheus_text in
  let! _ := modify (λ s, set_reports (observability_json_cache s) text (otlp_spans_json_cache s) s) in
  mret text.

Definition otlp_text (s : Native) (telemetry_json bridge_json : string) : string :=
  let r := registrations s in let l := last_infer s in
  dq "{'schema':'shorthand.runtime.otlp_spans.v1'" +:+
  dq ",'resource':{'service.name':'shorthand-runtime'}" +:+
  dq ",'spans':[{'name':'short_ai_infer'" +:+
  dq ",'kind':'INTERNAL'" +:+
  dq ",'status':'" +:+ json_escape (status_name (last_infer_status l)) +:+ dq "'" +:+
  dq ",'attributes':{" +:+
  dq "'runtime.models':" +:+ count_text (size (models r)) +:+
  dq ",'runtime.tensors':" +:+ count_text (size (tensors r)) +:+
  dq ",'runtime.contracts':" +:+ count_text (size (contracts r)) +:+
  dq ",'runtime.measurements':" +:+ count_text (length (measurements r)) +:+
  dq ",'runtime.infer.calls':" +:+ pretty (infer_calls (stats s)) +:+
  dq ",'runtime.infer.success':" +:+ pretty (infer_success (stats s)) +:+
  dq ",'runtime.infer.not_executed':" +:+ pretty (infer_not_executed (stats s)) +:+
  dq ",'runtime.infer.backend_unavailable':" +:+ pretty (infer_backend_unavailable (stats s)) +:+
  dq ",'runtime.infer.invalid_input':" +:+ pretty (infer_invalid_input (stats s)) +:+
  dq ",'runtime.last_backend':'" +:+ json_escape (last_infer_backend l) +:+ dq "'" +:+
  dq ",'runtime.last_reason':'" +:+ json_escape (last_infer_reason l) +:+ dq "'}" +:+
  dq ",'last_infer_telemetry':" +:+ telemetry_json +:+
  dq ",'infer_bridge_request':" +:+ bridge_json +:+
  dq "}]}".

Definition short_runtime_otlp_spans_json : NM string :=
  let! telemetry_json := materialize_last_infer_telemetry_json in
  let! bridge_json := materialize_infer_bridge_request_json in
  let! text := gets (λ s, otlp_text s telemetry_json bridge_json) in
  let! _ := modify (λ s, set_reports (observability_json_cache s) (prometheus_metrics_cache s) text s) in
  mret text.

(** * Inference *)

Definition preferred_backend (model : ModelRecord) : string :=
  if is_empty (md_backend_preference model) then "fallback" else md_backend_preference model.

(** A refusal: the status is recorded, logged and returned. *)
Definition refuse_infer (operation : string) (status : Z) (why message : string) : NM Z :=
  let! _ := set_last_infer status "none" why in
  let! _ := log_status operation status message in
  mret status.

Definition short_ai_infer (model_name input_name output_name : option string) : NM Z :=
  if blank model_name || blank input_name || blank output_name then
    refuse_infer "infer" SHORTHAND_RUNTIME_INVALID_ARGUMENT "missing_model_input_or_output" "reason=missing_model_input_or_output"
  else
  let model_key := safe model_name in let input_key := safe input_name in let output_key := safe output_name in
  let! r := gets registrations in
  match models r !! model_key with
  | None => refuse_infer "infer" SHORTHAND_RUNTIME_MODEL_NOT_FOUND "model_not_registered"
              ("model=" +:+ model_key +:+ " reason=model_not_registered")
  | Some model =>
  match tensors r !! input_key with
  | None => refuse_infer "infer" SHORTHAND_RUNTIME_TENSOR_NOT_FOUND "input_tensor_not_registered"
              ("model=" +:+ model_key +:+ " input=" +:+ input_key +:+ " reason=input_tensor_not_registered")
  | Some input =>
  match tensors r !! output_key with
  | None => refuse_infer "infer" SHORTHAND_RUNTIME_OUTPUT_TENSOR_NOT_FOUND "output_tensor_not_registered"
              ("model=" +:+ model_key +:+ " output=" +:+ output_key +:+ " reason=output_tensor_not_registered")
  | Some output =>
  if negb (shape_is_valid (td_shape input)) || negb (shape_is_valid (td_shape output)) then
    let status := SHORTHAND_RUNTIME_INVALID_INPUT in
    let! _ := set_last_infer status "none" "registered_tensor_shape_invalid" in
    let! _ := print ("[shorthand-runtime] infer model=" +:+ model_key +:+ " input=" +:+ input_key +:+ " output=" +:+ output_key +:+
                     " status=invalid_input reason=registered_tensor_shape_invalid") in
    mret status
  else
    let status := SHORTHAND_RUNTIME_NOT_EXECUTED in
    let backend := preferred_backend model in
    let why := "ai_runtime_execution_bridge_pending" in
    let! _ := set_last_infer status backend why in
    let! l := gets lazy_bridge_request in
    let! old := gets infer_bridge_request_json_cache in
    let! _ := modify (set_lazy {|
      lz_kind := CompiledMetadataOnly; lz_model := model; lz_input := input; lz_output := output; lz_backend := backend;
      lz_status := status; lz_reason := "input_buffer_required_for_ai_runtime_execution";
      lz_input_count := lz_input_count l; lz_output_capacity := lz_output_capacity l;
      lz_expected_input_elements := lz_expected_input_elements l;
      lz_expected_output_elements := lz_expected_output_elements l; lz_output_count := lz_output_count l;
      lz_dirty := true |} old) in
    let! _ := print ("[shorthand-runtime] infer model=" +:+ model_key +:+ " input=" +:+ input_key +:+ " output=" +:+ output_key +:+
                     " status=not_executed backend_preference=" +:+ backend +:+ " reason=" +:+ why +:+ " bridge_request=created") in
    mret status
  end end end.

Definition bridge_model_input (model : ModelRecord) : RuntimeBridgeModelInput := {|
  bm_name := Some (md_name model); bm_format := Some (md_format model); bm_path := Some (md_path model);
  bm_task := Some (md_task model); bm_precision := Some (md_precision model);
  bm_input_shape := Some (md_input_shape model); bm_output_shape := Some (md_output_shape model);
  bm_backend_preference := Some (md_backend_preference model); bm_allow_fallback := true |}.

Definition bridge_tensor_input (tensor : TensorRecord) : RuntimeBridgeTensorInput := {|
  bt_name := Some (td_name tensor); bt_element_type := Some (td_element_type tensor); bt_shape := Some (td_shape tensor);
  bt_rank := Some (td_rank tensor); bt_total_elements := Some (td_total_elements tensor) |}.

Definition attach_ai_runtime_telemetry_if_available (result : InferenceResult) : NM unit :=
  if is_empty (telemetry_json_fragment result) then mret tt
  else
    let! l := gets last_infer in
    modify (set_last {|
      last_infer_status := last_infer_status l; last_infer_backend := last_infer_backend l;
      last_infer_reason := last_infer_reason l; last_infer_ai_telemetry_fragment := telemetry_json_fragment result;
      last_infer_telemetry_dirty := true; last_infer_telemetry_json := last_infer_telemetry_json l |}).

(** What the caller gets: the status, its output memory and the element count. *)
Record InferReturn := { ret_status : Z; ret_output : option (list spec_float); ret_count : option Z }.

(** The descriptor of the request, kept from the last one when the names match. *)
Definition request_descriptor (model : ModelRecord) (input output : TensorRecord) (b : Bridge) : BridgeDescriptor :=
  let fresh := {| bd_model_name := md_name model; bd_input_name := td_name input; bd_output_name := td_name output;
                  bd_spec := buildModelSpec (bridge_model_input model) (bridge_tensor_input input) (bridge_tensor_input output) |} in
  match bridge_descriptor b with
  | Some d =>
      if negb (bool_decide (bd_model_name d = md_name model)) || negb (bool_decide (bd_input_name d = td_name input)) ||
         negb (bool_decide (bd_output_name d = td_name output)) then fresh else d
  | None => fresh
  end.

Definition resized (n : Z) (buffer : list spec_float) : list spec_float :=
  if Z.of_nat (length buffer) <? n then (buffer ++ repeat (S754_zero false) (Z.to_nat n - length buffer))%list else buffer.

(** The call of the AI runtime, with the policy refreshed and the scratch buffer
    as destination. *)
Definition bridge_infer (w : World) (model_spec : ModelSpec) (input_buffer : TensorBuffer) (scratch_count : Z)
    : NM (InferenceResult * list spec_float) := λ s,
  let b := bridge s in
  let runtime := refreshPolicyFromEnvironment w (default (new_runtime w) (bridge_runtime b)) in
  let pooled := scratch_count <=? 65536 in
  let output_buffer := resized scratch_count (if pooled then bridge_output_buffer b else []) in
  match inferCachedInto w model_spec input_buffer (prepared_cache b) (Some output_buffer) scratch_count runtime with
  | Done (result, cache, written, runtime) =>
      let written := default output_buffer written in
      let b := with_session (default new_cache cache) runtime b in
      let b := if pooled then with_output_buffer written b else b in
      Done (result, written, set_bridge b s)
  | Undefined e => Undefined e
  | OutOfFuel => OutOfFuel
  end.

(** The destructor of [InputBorrow]. *)
Definition end_borrow (pooled : bool) (input_buffer : TensorBuffer) : NM unit :=
  if pooled then
    let! b := gets bridge in modify (set_bridge (with_input_buffer (clearExternalF32 input_buffer) b))
  else mret tt.

(** [memcpy(output_values, output_buffer.data(), n * sizeof(float))] *)
Definition copy_output (n : Z) (output_buffer : list spec_float) (output_values : list spec_float) : NM (list spec_float) :=
  if (Z.of_nat (length output_values) <? n) || (Z.of_nat (length output_buffer) <? n)
  then undefined "output written past its memory"
  else mret (take (Z.to_nat n) output_buffer ++ drop (Z.to_nat n) output_values)%list.

(** The commit: the status and reason to report, the caller's memory and the
    count, from the result and the scratch buffer. *)
Definition commit_output (result : InferenceResult) (output_buffer output_values : list spec_float) (scratch_count output_capacity : Z)
    : NM (Z * string * list spec_float * Z) :=
  let status := runtimeStatusFromInferenceStatus (ir_status result) in
  let why := if is_empty (reason result) then inferenceStatusToString (ir_status result) else reason result in
  if status =? SHORTHAND_RUNTIME_OK then
    if negb (output_elements result =? scratch_count) || (u64 output_capacity <? output_elements result) then
      mret (SHORTHAND_RUNTIME_RUNTIME_ERROR, "ai_runtime_output_exceeds_registered_capacity", output_values, 0)
    else
      let! out := copy_output (output_elements result) output_buffer output_values in
      mret (status, why, out, s32 (output_elements result))
  else mret (status, why, output_values, 0).

(** The request once its descriptor and its input buffer are there. *)
Definition execute_request (w : World) (model : ModelRecord) (input output : TensorRecord) (model_spec : ModelSpec)
    (input_buffer : TensorBuffer) (input_count : Z) (output_values : list spec_float) (output_capacity : Z)
    (expected_input expected_output : Z) : NM InferReturn :=
  let pooled := input_count <=? 65536 in
  let requested_backend := preferred_backend model in
  if negb (bridgeRequestIsExecutionReady model_spec input_buffer output_capacity) then
    let status := SHORTHAND_RUNTIME_INVALID_INPUT in
    let why := "ai_runtime_adapter_request_not_execution_ready" in
    let! _ := set_last_infer status requested_backend why in
    let! _ := record_lazy_typed_buffer_bridge_request model input output requested_backend status why input_count
                output_capacity expected_input expected_output 0 in
    let! _ := (if infer_logging_enabled w then
                 print ("[shorthand-runtime] infer_f32 model=" +:+ md_name model +:+ " input=" +:+ td_name input +:+
                        " output=" +:+ td_name output +:+ " status=invalid_input backend_preference=" +:+ requested_backend +:+
                        " reason=" +:+ why +:+ " ai_runtime_bridge=rejected")
               else mret tt) in
    let! _ := end_borrow pooled input_buffer in
    mret {| ret_status := status; ret_output := Some output_values; ret_count := Some 0 |}
  else
    let scratch_count := u64 expected_output in
    let! called := bridge_infer w model_spec input_buffer scratch_count in
    let result := called.1 in
    let backend := if is_empty (backend_name result) then backendKindToString (ir_backend result) else backend_name result in
    let! committed := commit_output result called.2 output_values scratch_count output_capacity in
    let '(status, why, out, count) := committed in
    let! _ := set_last_infer status backend why in
    let! _ := attach_ai_runtime_telemetry_if_available result in
    let! _ := record_lazy_typed_buffer_bridge_request model input output backend status why input_count output_capacity
                expected_input expected_output count in
    let! _ := (if infer_logging_enabled w then
                 print ("[shorthand-runtime] infer_f32 model=" +:+ md_name model +:+ " input=" +:+ td_name input +:+
                        " output=" +:+ td_name output +:+ " status=" +:+ status_name status +:+ " backend=" +:+ backend +:+
                        " reason=" +:+ why +:+ " ai_runtime_bridge=attempted output_count=" +:+ pretty count)
               else mret tt) in
    let! _ := end_borrow pooled input_buffer in
    mret {| ret_status := status; ret_output := Some out; ret_count := Some count |}.

Definition execute_typed_buffer_through_ai_runtime (w : World) (model : ModelRecord) (input output : TensorRecord)
    (input_values : list spec_float) (input_count : Z) (output_values : list spec_float) (output_capacity : Z)
    (expected_input expected_output : Z) : NM InferReturn :=
  let! b := gets bridge in
  let descriptor := request_descriptor model input output b in
  let! _ := modify (set_bridge (with_descriptor (Some descriptor) (prepared_cache b) b)) in
  let model_spec := bd_spec descriptor in
  let base := if input_count <=? 65536 then bridge_buffer b else no_tensor_buffer in
  let input_buffer := bindExternalF32 (Some input_values) (u64 input_count)
    {| spec := ms_input model_spec; f32_data := f32_data base; i8_data := i8_data base;
       external_f32_data := external_f32_data base; external_f32_count := external_f32_count base;
       external_f32_bound := external_f32_bound base |} in
  execute_request w model input output model_spec input_buffer input_count output_values output_capacity
    expected_input expected_output.

(** A computation that may be undefined, in the monad. *)
Definition lift {A} (o : outcome A) : NM A := λ s,
  match o with Done a => Done (a, s) | Undefined e => Undefined e | OutOfFuel => OutOfFuel end.

(** [has_count] says whether the pointer to the element count is not null. *)
Definition short_ai_infer_f32 (w : World) (model_name input_name : option string) (input_values : option (list spec_float))
    (input_count : Z) (output_name : option string) (output_values : option (list spec_float)) (output_capacity : Z)
    (has_count : bool) : NM InferReturn :=
  let returned status := {| ret_status := status; ret_output := output_values; ret_count := if has_count then Some 0 else None |} in
  let refused status why message :=
    let! status := refuse_infer "infer_f32" status why message in mret (returned status) in
  match input_values, output_values with
  | Some in_values, Some out_values =>
      if blank model_name || blank input_name || blank output_name || negb has_count || (input_count <=? 0) || (output_capacity <=? 0)
      then refused SHORTHAND_RUNTIME_INVALID_ARGUMENT "missing_or_invalid_typed_buffer_arguments"
             "reason=missing_or_invalid_typed_buffer_arguments"
      else
      let model_key := safe model_name in let input_key := safe input_name in let output_key := safe output_name in
      let! r := gets registrations in
      match models r !! model_key with
      | None => refused SHORTHAND_RUNTIME_MODEL_NOT_FOUND "model_not_registered"
                  ("model=" +:+ model_key +:+ " reason=model_not_registered")
      | Some model =>
      match tensors r !! input_key with
      | None => refused SHORTHAND_RUNTIME_TENSOR_NOT_FOUND "input_tensor_not_registered"
                  ("model=" +:+ model_key +:+ " input=" +:+ input_key +:+ " reason=input_tensor_not_registered")
      | Some input =>
      match tensors r !! output_key with
      | None => refused SHORTHAND_RUNTIME_OUTPUT_TENSOR_NOT_FOUND "output_tensor_not_registered"
                  ("model=" +:+ model_key +:+ " output=" +:+ output_key +:+ " reason=output_tensor_not_registered")
      | Some output =>
      let! expected_input := lift (declared_element_count input) in
      let! expected_output := lift (declared_element_count output) in
      if (expected_input <=? 0) || (expected_output <=? 0) || negb (input_count =? expected_input) ||
         (output_capacity <? expected_output) then
        let status := SHORTHAND_RUNTIME_INVALID_INPUT in
        let! _ := set_last_infer status "none" "typed_buffer_shape_or_capacity_mismatch" in
        let! _ := print ("[shorthand-runtime] infer_f32 model=" +:+ model_key +:+ " input=" +:+ input_key +:+ " output=" +:+ output_key +:+
                         " status=invalid_input reason=typed_buffer_shape_or_capacity_mismatch input_count=" +:+ pretty input_count +:+
                         " expected_input=" +:+ pretty expected_input +:+ " output_capacity=" +:+ pretty output_capacity +:+
                         " expected_output=" +:+ pretty expected_output) in
        mret (returned status)
      else if bridge_enabled then
        execute_typed_buffer_through_ai_runtime w model input output in_values input_count out_values output_capacity
          expected_input expected_output
      else
        let status := SHORTHAND_RUNTIME_NOT_EXECUTED in
        let backend := preferred_backend model in
        let why := "ai_runtime_typed_buffer_bridge_pending" in
        let! _ := set_last_infer status backend why in
        let! _ := record_lazy_typed_buffer_bridge_request model input output backend status why input_count output_capacity
                    expected_input expected_output 0 in
        let! _ := print ("[shorthand-runtime] infer_f32 model=" +:+ model_key +:+ " input=" +:+ input_key +:+ " output=" +:+ output_key +:+
                         " status=not_executed backend_preference=" +:+ backend +:+ " reason=" +:+ why +:+ " typed_buffer_bridge=created") in
        mret (returned status)
      end end end
  | _, _ => refused SHORTHAND_RUNTIME_INVALID_ARGUMENT "missing_or_invalid_typed_buffer_arguments"
              "reason=missing_or_invalid_typed_buffer_arguments"
  end.

Definition short_ai_infer_legacy (model_path shape_csv input_csv : option string) : NM Z :=
  if blank model_path || blank shape_csv || blank input_csv then
    refuse_infer "infer_legacy" SHORTHAND_RUNTIME_INVALID_ARGUMENT "missing_model_shape_or_input" "reason=missing_model_shape_or_input"
  else
    let status := SHORTHAND_RUNTIME_NOT_EXECUTED in
    let! _ := set_last_infer status "legacy" "legacy_runtime_bridge_pending" in
    let! _ := print ("[shorthand-runtime] infer_legacy model_path=" +:+ safe model_path +:+ " shape=" +:+ safe shape_csv +:+
                     " input=" +:+ safe input_csv +:+ " status=not_executed reason=legacy_runtime_bridge_pending") in
    mret status.
End Native.
