(* ===== verification/NativeRuntimeFacts.v ===== *)
(** The native runtime library refines a specification without hidden state.

    Reports are built lazily, the descriptor of a request, the prepared session,
    the route and the scratch buffers are kept between calls.  While the memory
    size of the host and the qualification override stay the same none of this can
    be observed: an inference answers as a function of the registrations and of
    the moment it is made, and the counters count the answers.  Whatever changes,
    its output memory changes only on success and no pointer of a caller is
    kept. *)
From Stdlib Require Import SpecFloat.
From S2P Require Import Prelude CxxInt CxxString CxxFloat AiTypes JsonText HardwareRouting AiBackends AiRuntime HardwareRoutingFacts AiRuntimeFacts NativeRuntime.
Open Scope string_scope.
Open Scope Z_scope.

(** * What ONNX Runtime promises of a destination buffer

    A run with a destination keeps the size of the buffer, does not depend on
    what the buffer held, and fills all of it when it succeeds. *)
Class OrtLaws `{OrtApi} : Prop := {
  into_length : ∀ s i v d o m e, length (ort_run_into s i v d o m e).2 = length m;
  into_result : ∀ s i v d o m m' e, length m = length m' → (ort_run_into s i v d o m e).1 = (ort_run_into s i v d o m' e).1;
  into_fills : ∀ s i v d o m m' e x, length m = length m' → (ort_run_into s i v d o m e).1 = inr x →
                 (ort_run_into s i v d o m e).2 = (ort_run_into s i v d o m' e).2;
}.

Section Native.
Context `{Platform} `{OrtApi} {laws : OrtLaws} (bridge_enabled : bool).

(** * Running the bookkeeping *)

(** The state after [set_last_infer], with the counters given. *)
Definition after_infer (status : Z) (backend why : string) (st : RuntimeStats) (s : Native) : Native :=
  set_stats st
    (set_lazy (drop_lazy (lazy_bridge_request s)) "{}"
      (set_last {|
        last_infer_status := status; last_infer_backend := if is_empty backend then "none" else backend;
        last_infer_reason := if is_empty why then "unspecified" else why;
        last_infer_ai_telemetry_fragment := ""; last_infer_telemetry_dirty := true;
        last_infer_telemetry_json := last_infer_telemetry_json (last_infer s) |} s)).

Definition counter_overflow : string := "signed overflow of a counter".

Lemma run_set_last_infer status backend why s :
  set_last_infer status backend why s =
  match bumped status (stats s) with
  | Some st => Done (tt, after_infer status backend why st s)
  | None => Undefined counter_overflow
  end.
Proof.
  unfold set_last_infer, update_stats, mbind, SM_bind, gets, modify. cbn. by destruct (bumped status (stats s)).
Qed.

Lemma run_refuse_infer operation status why message s :
  refuse_infer operation status why message s =
  match bumped status (stats s) with
  | Some st => Done (status, print_line ("[shorthand-runtime] " +:+ operation +:+ " status=" +:+ pretty status +:+ " " +:+ message)
                               (after_infer status "none" why st s))
  | None => Undefined counter_overflow
  end.
Proof.
  unfold refuse_infer, mbind, SM_bind at 1. rewrite run_set_last_infer. by destruct (bumped status (stats s)).
Qed.

(** * Destinations *)

(** Two runs that differ in the destination say the same, and agree on the
    elements written when they succeed. *)
Definition same_reply (n : Z) (o o' : outcome reply) : Prop :=
  match o, o' with
  | Done (r, Some m), Done (r', Some m') =>
      r = r' ∧ (ir_status r = Success → take (Z.to_nat n) m = take (Z.to_nat n) m' ∧
                  (Z.to_nat n ≤ length m)%nat ∧ (Z.to_nat n ≤ length m')%nat)
  | Undefined e, Undefined e' => e = e'
  | OutOfFuel, OutOfFuel => True
  | _, _ => False
  end.

Lemma prepared_failure_status b w i why : ir_status (prepared_failure b w i why) = RuntimeError.
Proof. by destruct b. Qed.

Lemma same_failure n b w i why m m' :
  same_reply n (Done (prepared_failure b w i why, Some m)) (Done (prepared_failure b w i why, Some m')).
Proof. split; [done|]. by rewrite prepared_failure_status. Qed.

Lemma runInto_destination w p input m m' n :
  n ≤ Z.of_nat (length m) → n ≤ Z.of_nat (length m') →
  same_reply n (runInto w p input (Some m) n) (runInto w p input (Some m') n).
Proof.
  intros Hm Hm'. unfold runInto, runIntoImpl. destruct (negb (n =? element_count (out_ p))); [apply same_failure|].
  destruct (check_prepared_input false p input) as [[why|values]|]; [apply same_failure| |done].
  rewrite !(proj2 (Z.ltb_ge _ _)) by lia. set (t := take (Z.to_nat n) m). set (t' := take (Z.to_nat n) m').
  assert (length t = length t') as Hlen by (unfold t, t'; rewrite !length_take; lia).
  assert (length t = Z.to_nat n) as Hn by (unfold t; rewrite length_take; lia).
  pose proof (into_result (session_ p) (in_name_ p) values (shape (in_ p)) (out_name_ p) t t' (shape (out_ p)) Hlen) as Hr.
  pose proof (into_fills (session_ p) (in_name_ p) values (shape (in_ p)) (out_name_ p) t t' (shape (out_ p))) as Hf.
  pose proof (into_length (session_ p) (in_name_ p) values (shape (in_ p)) (out_name_ p) t (shape (out_ p))) as Hl.
  destruct (ort_run_into (session_ p) (in_name_ p) values (shape (in_ p)) (out_name_ p) t (shape (out_ p))) as [[e|v] out] eqn:E;
  destruct (ort_run_into (session_ p) (in_name_ p) values (shape (in_ p)) (out_name_ p) t' (shape (out_ p))) as [r' out'] eqn:E';
  cbn [fst snd] in *; subst r'; [apply same_failure|].
  specialize (Hf v Hlen eq_refl). subst out'.
  destruct (negb (ov_tensor v)); [apply same_failure|]. destruct (negb (ti_float (ov_info v)) || _ || _); [apply same_failure|].
  split; [done|]. intros _. rewrite !take_app_le, !length_app by lia. split; [done|lia].
Qed.

Lemma writeRequestedOutput_destination r m m' n :
  0 ≤ n → n ≤ Z.of_nat (length m) → n ≤ Z.of_nat (length m') →
  same_reply n (writeRequestedOutput r (Some m) n) (writeRequestedOutput r (Some m') n).
Proof.
  intros Hn Hm Hm'. unfold writeRequestedOutput. case_bool_decide as Hs; cbn [negb]; [|by split].
  destruct ((n =? 0) || negb (Z.of_nat (length (output_f32 r)) =? n)) eqn:E; [by split|].
  apply orb_false_iff in E as [_ E%negb_false_iff%Z.eqb_eq]. rewrite !(proj2 (Z.ltb_ge _ _)) by lia.
  split; [done|]. intros _. rewrite !take_app_le, !length_app by lia. split; [done|lia].
Qed.

Lemma backend_run_destination w b m0 input m m' n :
  0 ≤ n → n ≤ Z.of_nat (length m) → n ≤ Z.of_nat (length m') →
  same_reply n (backend_run w b m0 input (Some m) n) (backend_run w b m0 input (Some m') n).
Proof.
  intros. unfold backend_run. destruct (backend_infer b w m0 input); [|done|done]. by apply writeRequestedOutput_destination.
Qed.

Lemma reported_destination n rt o o' : same_reply n o o' → same_reply n (reported rt o) (reported rt o').
Proof.
  destruct o as [[r [m|]]| |], o' as [[r' [m'|]]| |]; try done. simpl. intros [-> Hs]. split; [done|]. exact Hs.
Qed.

Lemma unrouted_status w r rt m input res : unrouted_infer w r rt m input = Done res → ir_status res ≠ Success.
Proof.
  unfold unrouted_infer. destruct (ms_allow_fallback m); [|by intros [= <-]].
  destruct (select (registry r) (restrict m Fallback true)) as [b|]; [|by intros [= <-]].
  by destruct (backend_infer b w (restrict m Fallback true) input); [intros [= <-]| |].
Qed.

Lemma reference_destination w model input m m' n :
  0 < n → n ≤ Z.of_nat (length m) → n ≤ Z.of_nat (length m') →
  same_reply n (reference_infer w model input (Some m) n) (reference_infer w model input (Some m') n).
Proof.
  intros Hn Hm Hm'. unfold reference_infer. cbv zeta. rewrite !bool_decide_false by done.
  rewrite (proj2 (Z.eqb_neq n 0)) by lia. cbn [orb].
  destruct (negb (validateInputMatchesShape input)); [by split|].
  assert (same_reply n
    (match unrouted_infer w (new_runtime w) (route_now w model) model input with
     | Done r => Done (answer r, Some m) | Undefined e => Undefined e | OutOfFuel => OutOfFuel end)
    (match unrouted_infer w (new_runtime w) (route_now w model) model input with
     | Done r => Done (answer r, Some m') | Undefined e => Undefined e | OutOfFuel => OutOfFuel end)) as Hun.
  { destruct (unrouted_infer w (new_runtime w) (route_now w model) model input) as [r| |] eqn:E; [|done|done].
    split; [done|]. apply unrouted_status in E. by intros. }
  destruct (selected (route_now w model)); [|exact Hun].
  destruct (select registered_backends _) as [backend|]; [|exact Hun]. apply reported_destination.
  destruct (readCacheableSnapshot w _) as [bytes|]; [|apply backend_run_destination; lia].
  case_bool_decide; [|apply backend_run_destination; lia].
  destruct (backend_prepare backend w _ _) as [e|session]; [apply backend_run_destination; lia|].
  by apply runInto_destination.
Qed.

(** * The specification of a typed inference *)

Record F32Call := {
  fc_model : option string; fc_input : option string; fc_values : option (list spec_float); fc_input_count : Z;
  fc_output : option string; fc_memory : option (list spec_float); fc_capacity : Z; fc_has_count : bool;
}.

(** The answer, and the backend and reason that are reported. *)
Definition f32_answer : Type := InferReturn * string * string.

(** The input buffer of a request, from scratch. *)
Definition borrowed (m : ModelSpec) (values : list spec_float) (count : Z) : TensorBuffer := {|
  spec := ms_input m; f32_data := []; i8_data := []; external_f32_data := Some values;
  external_f32_count := u64 count; external_f32_bound := true |}.

Definition untouched (status : Z) (c : F32Call) : InferReturn :=
  {| ret_status := status; ret_output := fc_memory c; ret_count := if fc_has_count c then Some 0 else None |}.

(** The execution of a request that passed the checks of the C interface. *)
Definition execution_spec (w : World) (model : ModelRecord) (input output : TensorRecord) (values : list spec_float)
    (input_count : Z) (memory : list spec_float) (capacity expected_output : Z) : outcome f32_answer :=
  let unchanged status := {| ret_status := status; ret_output := Some memory; ret_count := Some 0 |} in
  let m := buildModelSpec (bridge_model_input model) (bridge_tensor_input input) (bridge_tensor_input output) in
  let n := expected_output in
  if negb (bridgeRequestIsExecutionReady m (borrowed m values input_count) capacity) then
    Done (unchanged SHORTHAND_RUNTIME_INVALID_INPUT, preferred_backend model, "ai_runtime_adapter_request_not_execution_ready")
  else
    match reference_infer w m (borrowed m values input_count) (Some (repeat (S754_zero false) (Z.to_nat n))) n with
    | Done (r, written) =>
        let backend := if is_empty (backend_name r) then backendKindToString (ir_backend r) else backend_name r in
        let why := if is_empty (reason r) then inferenceStatusToString (ir_status r) else reason r in
        if bool_decide (ir_status r = Success) then
          if negb (output_elements r =? n) then
            Done (unchanged SHORTHAND_RUNTIME_RUNTIME_ERROR, backend, "ai_runtime_output_exceeds_registered_capacity")
          else if Z.of_nat (length memory) <? n then Undefined "output written past its memory"
          else Done ({| ret_status := SHORTHAND_RUNTIME_OK;
                        ret_output := Some (take (Z.to_nat n) (default [] written) ++ drop (Z.to_nat n) memory)%list;
                        ret_count := Some n |}, backend, why)
        else Done (unchanged (runtimeStatusFromInferenceStatus (ir_status r)), backend, why)
    | Undefined e => Undefined e
    | OutOfFuel => OutOfFuel
    end.

Definition f32_spec (r : Registrations) (w : World) (c : F32Call) : outcome f32_answer :=
  let refused status why := Done (untouched status c, "none", why) in
  match fc_values c, fc_memory c with
  | Some values, Some memory =>
      if blank (fc_model c) || blank (fc_input c) || blank (fc_output c) || negb (fc_has_count c) ||
         (fc_input_count c <=? 0) || (fc_capacity c <=? 0)
      then refused SHORTHAND_RUNTIME_INVALID_ARGUMENT "missing_or_invalid_typed_buffer_arguments"
      else match models r !! safe (fc_model c), tensors r !! safe (fc_input c), tensors r !! safe (fc_output c) with
      | None, _, _ => refused SHORTHAND_RUNTIME_MODEL_NOT_FOUND "model_not_registered"
      | Some _, None, _ => refused SHORTHAND_RUNTIME_TENSOR_NOT_FOUND "input_tensor_not_registered"
      | Some _, Some _, None => refused SHORTHAND_RUNTIME_OUTPUT_TENSOR_NOT_FOUND "output_tensor_not_registered"
      | Some model, Some input, Some output =>
          match declared_element_count input with
          | Undefined e => Undefined e
          | OutOfFuel => OutOfFuel
          | Done ei =>
              match declared_element_count output with
              | Undefined e => Undefined e
              | OutOfFuel => OutOfFuel
              | Done eo =>
                  if (ei <=? 0) || (eo <=? 0) || negb (fc_input_count c =? ei) || (fc_capacity c <? eo)
                  then refused SHORTHAND_RUNTIME_INVALID_INPUT "typed_buffer_shape_or_capacity_mismatch"
                  else if bridge_enabled then
                    execution_spec w model input output values (fc_input_count c) memory (fc_capacity c) eo
                  else Done (untouched SHORTHAND_RUNTIME_NOT_EXECUTED c, preferred_backend model,
                             "ai_runtime_typed_buffer_bridge_pending")
              end
          end
      end
  | _, _ => refused SHORTHAND_RUNTIME_INVALID_ARGUMENT "missing_or_invalid_typed_buffer_arguments"
  end.

(** * The invariant *)

(** What is kept for the next request is what the next request would compute. *)
Record native_ok (memory : string) (override : bool) (s : Native) : Prop := {
  ok_model_names : ∀ k m, models (registrations s) !! k = Some m → md_name m = k;
  ok_tensor_names : ∀ k t, tensors (registrations s) !! k = Some t → td_name t = k;
  ok_cache : cache_ok (prepared_cache (bridge s));
  ok_runtime : ∀ r, bridge_runtime (bridge s) = Some r → runtime_ok memory override r;
  ok_buffer : i8_data (bridge_buffer (bridge s)) = [] ∧ external_f32_bound (bridge_buffer (bridge s)) = false ∧
              external_f32_data (bridge_buffer (bridge s)) = None;
  ok_descriptor : ∀ d, bridge_descriptor (bridge s) = Some d → ∃ m i o,
    models (registrations s) !! bd_model_name d = Some m ∧ tensors (registrations s) !! bd_input_name d = Some i ∧
    tensors (registrations s) !! bd_output_name d = Some o ∧
    bd_spec d = buildModelSpec (bridge_model_input m) (bridge_tensor_input i) (bridge_tensor_input o);
}.

(** The invariant reads the registrations and the bridge only. *)
Lemma native_ok_depends memory override s s' :
  registrations s' = registrations s → bridge s' = bridge s → native_ok memory override s → native_ok memory override s'.
Proof. intros Hr Hb [A1 A2 A3 A4 A5 A6]. split; rewrite ?Hr, ?Hb; done. Qed.

Lemma new_native_ok memory override : native_ok memory override new_native.
Proof.
  split; simpl; done.
Qed.

(** The call answers as specified: the status is counted and reported, the
    registrations stay, and the invariant holds again. *)
Definition settles (memory : string) (override : bool) (m : NM InferReturn) (s : Native) (a : outcome f32_answer) : Prop :=
  match a with
  | Done (ret, backend, why) =>
      match bumped (ret_status ret) (stats s) with
      | None => m s = Undefined counter_overflow
      | Some st => ∃ s', m s = Done (ret, s') ∧ native_ok memory override s' ∧
          registrations s' = registrations s ∧ stats s' = st ∧
          last_infer_status (last_infer s') = ret_status ret ∧
          last_infer_backend (last_infer s') = (if is_empty backend then "none" else backend) ∧
          last_infer_reason (last_infer s') = (if is_empty why then "unspecified" else why)
      end
  | Undefined e => m s = Undefined e
  | OutOfFuel => m s = OutOfFuel
  end.

(** A refusal settles. *)
Lemma refusal_settles memory override c operation status why message s :
  native_ok memory override s →
  settles memory override (refuse_infer operation status why message ≫= λ status, mret (untouched status c)) s
    (Done (untouched status c, "none", why)).
Proof.
  intros Hok. unfold settles, mbind, SM_bind. rewrite run_refuse_infer. cbn [ret_status untouched].
  destruct (bumped status (stats s)) as [st|]; [|done]. eexists. split; [reflexivity|]. split_and!; try done.
  by apply (native_ok_depends _ _ s).
Qed.

(** * Steps that only report *)

(** The two states differ in reports only. *)
Definition reports_only (s s' : Native) : Prop :=
  registrations s' = registrations s ∧ bridge s' = bridge s ∧ stats s' = stats s ∧
  last_infer_status (last_infer s') = last_infer_status (last_infer s) ∧
  last_infer_backend (last_infer s') = last_infer_backend (last_infer s) ∧
  last_infer_reason (last_infer s') = last_infer_reason (last_infer s).

Definition quiet (q : NM unit) : Prop := ∀ s, ∃ s', q s = Done (tt, s') ∧ reports_only s s'.

Lemma quiet_ret : quiet (mret tt).
Proof. intros s. by exists s. Qed.

Lemma quiet_print b line : quiet (if (b : bool) then print line else mret tt).
Proof. destruct b; [|apply quiet_ret]. intros s. by eexists. Qed.

Lemma quiet_attach r : quiet (attach_ai_runtime_telemetry_if_available r).
Proof.
  unfold attach_ai_runtime_telemetry_if_available. destruct (is_empty (telemetry_json_fragment r)); [apply quiet_ret|].
  intros s. by eexists.
Qed.

Lemma quiet_record m i o b st why a1 a2 a3 a4 a5 :
  quiet (record_lazy_typed_buffer_bridge_request m i o b st why a1 a2 a3 a4 a5).
Proof. intros s. by eexists. Qed.

(** The end of a request: reports, then the borrow ends. *)
Definition ends (memory : string) (override : bool) (m : NM InferReturn) (ret : InferReturn) : Prop :=
  ∀ s, native_ok memory override s → ∃ s', m s = Done (ret, s') ∧ native_ok memory override s' ∧
    registrations s' = registrations s ∧ stats s' = stats s ∧ last_infer_status (last_infer s') = last_infer_status (last_infer s) ∧
    last_infer_backend (last_infer s') = last_infer_backend (last_infer s) ∧
    last_infer_reason (last_infer s') = last_infer_reason (last_infer s).

Lemma ends_quiet memory override q m ret : quiet q → ends memory override m ret → ends memory override (q ≫= λ _, m) ret.
Proof.
  intros Hq Hm s Hok. destruct (Hq s) as (s1 & E & R1 & R2 & R3 & R4 & R5 & R6).
  destruct (Hm s1) as (s2 & E2 & Hok2 & S1 & S2 & S3 & S4 & S5); [by apply (native_ok_depends _ _ s)|].
  exists s2. split; [unfold mbind, SM_bind; by rewrite E|]. split_and!; [done|congruence..].
Qed.

Lemma ends_borrow memory override pooled buffer ret :
  i8_data buffer = [] → ends memory override (end_borrow pooled buffer ≫= λ _, mret ret) ret.
Proof.
  intros Hb s Hok. unfold end_borrow. destruct pooled; [|by exists s]. eexists. split; [reflexivity|].
  split_and!; try done. destruct Hok as [A1 A2 A3 A4 A5 A6]. split; try done.
Qed.

Lemma ends_settle memory override status backend why m ret s :
  native_ok memory override s → ends memory override m ret → ret_status ret = status →
  settles memory override (set_last_infer status backend why ≫= λ _, m) s (Done (ret, backend, why)).
Proof.
  intros Hok Hm <-. unfold settles, mbind, SM_bind. rewrite run_set_last_infer.
  destruct (bumped (ret_status ret) (stats s)) as [st|]; [|done].
  destruct (Hm (after_infer (ret_status ret) backend why st s)) as (s' & E & Hok' & S1 & S2 & S3 & S4 & S5);
    [by apply (native_ok_depends _ _ s)|].
  exists s'. by split_and!.
Qed.

(** A step that returns and keeps registrations and counters comes first. *)
Lemma settles_run {A} memory override (m : NM A) (k : A → NM InferReturn) s x s' a :
  m s = Done (x, s') → registrations s' = registrations s → stats s' = stats s →
  settles memory override (k x) s' a → settles memory override (m ≫= k) s a.
Proof.
  intros E Hr Hs. unfold settles, mbind, SM_bind. rewrite E.
  destruct a as [[[ret backend] why]| |]; [|done|done]. rewrite Hs.
  destruct (bumped (ret_status ret) (stats s)) as [st|]; [|done].
  intros (s'' & E' & Hok & S1 & S2). exists s''. split_and!; try done; [congruence|apply S2..].
Qed.

(** * The call of the AI runtime *)

Lemma bridge_infer_ok memory override w m buffer n s :
  native_ok memory override s → at_conditions memory override w → 0 < n →
  match reference_infer w m buffer (Some (repeat (S754_zero false) (Z.to_nat n))) n with
  | Done (r, written) => ∃ res out s',
      bridge_infer w m buffer n s = Done (res, out, s') ∧ answer res = r ∧
      (ir_status r = Success → take (Z.to_nat n) out = take (Z.to_nat n) (default [] written) ∧ (Z.to_nat n ≤ length out)%nat) ∧
      native_ok memory override s' ∧ registrations s' = registrations s ∧ stats s' = stats s
  | Undefined e => bridge_infer w m buffer n s = Undefined e
  | OutOfFuel => bridge_infer w m buffer n s = OutOfFuel
  end.
Proof.
  intros Hok Hw Hn. unfold bridge_infer. cbv zeta.
  set (out := resized n _). assert (n ≤ Z.of_nat (length out)) as Hout.
  { unfold out, resized. destruct (Z.ltb_spec (Z.of_nat (length (if n <=? 65536 then bridge_output_buffer (bridge s) else []))) n);
      [rewrite length_app, repeat_length|]; lia. }
  set (rt := default (new_runtime w) (bridge_runtime (bridge s))).
  assert (runtime_ok memory override rt) as Hrt.
  { unfold rt. destruct (bridge_runtime (bridge s)) as [r|] eqn:E; [by apply (ok_runtime _ _ _ Hok)|apply new_runtime_ok]. }
  pose proof (serve_ok memory override w {| rq_model := m; rq_input := buffer; rq_output := Some out; rq_count := n |}
                rt (prepared_cache (bridge s)) Hrt (ok_cache _ _ _ Hok) Hw) as Hs.
  unfold served, serve in Hs. cbn [rq_model rq_input rq_output rq_count fst snd] in Hs.
  pose proof (reference_destination w m buffer out (repeat (S754_zero false) (Z.to_nat n)) n Hn Hout
                ltac:(rewrite repeat_length; lia)) as Hd.
  destruct (inferCachedInto w m buffer (prepared_cache (bridge s)) (Some out) n (refreshPolicyFromEnvironment w rt))
    as [[[[res cache] written] rt']| |].
  - destruct Hs as (Hs & Hrt' & Hc'). rewrite Hs in Hd. unfold same_reply in Hd.
    destruct written as [mem|]; [|done].
    destruct (reference_infer w m buffer (Some (repeat _ _)) n) as [[r' [mem'|]]| |]; try done.
    destruct Hd as [<- Hd]. eexists _, _, _. split; [reflexivity|]. split; [done|]. split; [intros Hst; naive_solver|].
    split_and!; try done. destruct Hok as [A1 A2 A3 A4 A5 A6]. destruct (n <=? 65536); split; simpl; try done; by intros ? [= <-].
  - rewrite Hs in Hd. by destruct (reference_infer w m buffer (Some (repeat _ _)) n) as [[? []]| |]; simpl in Hd; subst.
  - rewrite Hs in Hd. by destruct (reference_infer w m buffer (Some (repeat _ _)) n) as [[? []]| |].
Qed.

(** * Typed inference *)

(** The descriptor that is kept or made is the one of the current registrations. *)
Lemma descriptor_ok memory override model input output s :
  native_ok memory override s →
  models (registrations s) !! md_name model = Some model → tensors (registrations s) !! td_name input = Some input →
  tensors (registrations s) !! td_name output = Some output →
  let d := request_descriptor model input output (bridge s) in
  bd_spec d = buildModelSpec (bridge_model_input model) (bridge_tensor_input input) (bridge_tensor_input output) ∧
  native_ok memory override (set_bridge (with_descriptor (Some d) (prepared_cache (bridge s)) (bridge s)) s).
Proof.
  intros Hok Hm Hi Ho. cbv zeta. set (d := request_descriptor model input output (bridge s)).
  assert (bd_spec d = buildModelSpec (bridge_model_input model) (bridge_tensor_input input) (bridge_tensor_input output) ∧
          bd_model_name d = md_name model ∧ bd_input_name d = td_name input ∧ bd_output_name d = td_name output) as (Hd & N1 & N2 & N3).
  { unfold d, request_descriptor. destruct (bridge_descriptor (bridge s)) as [d0|] eqn:E; [|done].
    destruct (_ || negb (bool_decide (bd_output_name d0 = td_name output))) eqn:E2; [done|].
    apply orb_false_iff in E2 as [E2 E3%negb_false_iff%bool_decide_eq_true].
    apply orb_false_iff in E2 as [E1%negb_false_iff%bool_decide_eq_true E2%negb_false_iff%bool_decide_eq_true].
    destruct (ok_descriptor _ _ _ Hok _ E) as (m & i & o & L1 & L2 & L3 & ->). split_and!; [|done..]. congruence. }
  split; [done|]. destruct Hok as [A1 A2 A3 A4 A5 A6]. split; simpl; try done.
  intros d' [= <-]. exists model, input, output. split_and!; [by rewrite N1|by rewrite N2|by rewrite N3|done].
Qed.

Lemma status_ok_iff st : (runtimeStatusFromInferenceStatus st =? SHORTHAND_RUNTIME_OK) = bool_decide (st = Success).
Proof. by destruct st. Qed.

Lemma request_settles memory override w model input output values input_count mem capacity expected_input n s :
  native_ok memory override s → at_conditions memory override w → 0 < n ≤ capacity → capacity ≤ INT32_MAX →
  let spec := buildModelSpec (bridge_model_input model) (bridge_tensor_input input) (bridge_tensor_input output) in
  settles memory override
    (execute_request w model input output spec (borrowed spec values input_count) input_count mem capacity expected_input n) s
    (execution_spec w model input output values input_count mem capacity n).
Proof.
  intros Hok Hw Hn Hcap. unfold INT32_MAX in Hcap. cbv zeta. set (spec := buildModelSpec _ _ _).
  unfold execute_request, execution_spec. cbv zeta. fold spec.
  destruct (negb (bridgeRequestIsExecutionReady spec (borrowed spec values input_count) capacity)).
  { apply ends_settle; [done| |done]. apply ends_quiet; [apply quiet_record|]. apply ends_quiet; [apply quiet_print|]. by apply ends_borrow. }
  rewrite (u64_id n) by (unfold is_size, SIZE_MAX; lia).
  pose proof (bridge_infer_ok memory override w spec (borrowed spec values input_count) n s Hok Hw ltac:(lia)) as Hb.
  destruct (reference_infer w spec (borrowed spec values input_count) (Some (repeat (S754_zero false) (Z.to_nat n))) n)
    as [[r written]| |]; [|unfold settles, mbind, SM_bind at 1; by rewrite Hb|unfold settles, mbind, SM_bind at 1; by rewrite Hb].
  destruct Hb as (res & out & s2 & Hb & Hr & Hsucc & Hok2 & Hreg2 & Hst2). subst r.
  apply (settles_run _ _ _ _ _ (res, out) s2 _ Hb Hreg2 Hst2). cbn [fst snd].
  change (backend_name (answer res)) with (backend_name res). change (ir_backend (answer res)) with (ir_backend res).
  change (reason (answer res)) with (reason res). change (ir_status (answer res)) with (ir_status res) in *.
  change (output_elements (answer res)) with (output_elements res).
  set (backend := if is_empty (backend_name res) then _ else _). set (why := if is_empty (reason res) then _ else _).
  assert (∀ st wy o c, settles memory override
     (set_last_infer st backend wy ≫= λ _, attach_ai_runtime_telemetry_if_available res ≫= λ _,
        record_lazy_typed_buffer_bridge_request model input output backend st wy input_count capacity expected_input n c ≫= λ _,
        (if infer_logging_enabled w then
           print ("[shorthand-runtime] infer_f32 model=" +:+ md_name model +:+ " input=" +:+ td_name input +:+
                  " output=" +:+ td_name output +:+ " status=" +:+ status_name st +:+ " backend=" +:+ backend +:+
                  " reason=" +:+ wy +:+ " ai_runtime_bridge=attempted output_count=" +:+ pretty c)
         else mret tt) ≫= λ _, end_borrow (input_count <=? 65536) (borrowed spec values input_count) ≫= λ _,
        mret {| ret_status := st; ret_output := Some o; ret_count := Some c |}) s2
     (Done ({| ret_status := st; ret_output := Some o; ret_count := Some c |}, backend, wy))) as Hend.
  { intros. apply ends_settle; [done| |done]. apply ends_quiet; [apply quiet_attach|].
    apply ends_quiet; [apply quiet_record|]. apply ends_quiet; [apply quiet_print|]. by apply ends_borrow. }
  unfold commit_output. cbv zeta. rewrite status_ok_iff. fold why. case_bool_decide as Hs; [|apply Hend].
  destruct (Hsucc Hs) as [Hout Hlen].
  destruct (Z.eqb_spec (output_elements res) n) as [->|]; cbn [negb orb]; [|apply Hend].
  rewrite (u64_id capacity) by (unfold is_size, SIZE_MAX; lia). rewrite (proj2 (Z.ltb_ge _ _)) by lia.
  unfold copy_output. rewrite (proj2 (Z.ltb_ge (Z.of_nat (length out)) _)) by lia. rewrite orb_false_r.
  destruct (Z.of_nat (length mem) <? n); [done|]. rewrite <- Hout, Hs, s32_id by (unfold is_int32, INT32_MIN, INT32_MAX; lia).
  apply Hend.
Qed.

Lemma execute_settles memory override w model input output values input_count mem capacity expected_input n s :
  native_ok memory override s → at_conditions memory override w →
  models (registrations s) !! md_name model = Some model → tensors (registrations s) !! td_name input = Some input →
  tensors (registrations s) !! td_name output = Some output →
  0 < n ≤ capacity → capacity ≤ INT32_MAX →
  settles memory override
    (execute_typed_buffer_through_ai_runtime w model input output values input_count mem capacity expected_input n) s
    (execution_spec w model input output values input_count mem capacity n).
Proof.
  intros Hok Hw Hm Hi Ho Hn Hcap. destruct (descriptor_ok _ _ _ _ _ _ Hok Hm Hi Ho) as [Hspec Hok1].
  unfold execute_typed_buffer_through_ai_runtime.
  apply (settles_run _ _ _ _ _ (bridge s) s); [done..|]. cbv beta zeta.
  set (d := request_descriptor model input output (bridge s)) in *.
  set (s1 := set_bridge (with_descriptor (Some d) (prepared_cache (bridge s)) (bridge s)) s) in *.
  apply (settles_run _ _ _ _ _ tt s1); [done..|]. rewrite Hspec.
  pose proof (request_settles memory override w model input output values input_count mem capacity expected_input n s1 Hok1 Hw Hn Hcap) as Hreq.
  cbv zeta in Hreq. set (spec := buildModelSpec _ _ _) in *.
  assert (∀ base, i8_data base = [] →
    bindExternalF32 (Some values) (u64 input_count)
      {| AiTypes.spec := ms_input spec; f32_data := f32_data base; i8_data := i8_data base;
         external_f32_data := external_f32_data base; external_f32_count := external_f32_count base;
         external_f32_bound := external_f32_bound base |} = borrowed spec values input_count) as Hbuf.
  { intros base Hb. unfold bindExternalF32, borrowed. simpl. by rewrite Hb. }
  rewrite Hbuf; [exact Hreq|]. destruct (input_count <=? 65536); [apply (ok_buffer _ _ _ Hok)|done].
Qed.

Definition infer_f32 (w : World) (c : F32Call) : NM InferReturn :=
  short_ai_infer_f32 bridge_enabled w (fc_model c) (fc_input c) (fc_values c) (fc_input_count c) (fc_output c) (fc_memory c)
    (fc_capacity c) (fc_has_count c).

Lemma lift_settles memory override {A} (o : outcome A) (k : A → NM InferReturn) s (a : A → outcome f32_answer) :
  (∀ x, o = Done x → settles memory override (k x) s (a x)) →
  settles memory override (lift o ≫= k) s (match o with Done x => a x | Undefined e => Undefined e | OutOfFuel => OutOfFuel end).
Proof. destruct o as [x| |]; intros Hk; [|done|done]. by apply (settles_run _ _ _ _ _ x s), Hk. Qed.

Lemma infer_f32_settles memory override w c s :
  native_ok memory override s → at_conditions memory override w → fc_capacity c ≤ INT32_MAX →
  settles memory override (infer_f32 w c) s (f32_spec (registrations s) w c).
Proof.
  intros Hok Hw Hcap. destruct c as [mn inn values ic on mem cap hc]. cbn [fc_capacity] in Hcap.
  unfold infer_f32, short_ai_infer_f32, f32_spec. cbn [fc_model fc_input fc_values fc_input_count fc_output fc_memory fc_capacity fc_has_count].
  set (c := {| fc_model := mn; fc_input := inn; fc_values := values; fc_input_count := ic; fc_output := on; fc_memory := mem;
               fc_capacity := cap; fc_has_count := hc |}).
  destruct values as [values|]; [|apply (refusal_settles _ _ c); done].
  destruct mem as [mem|]; [|apply (refusal_settles _ _ c); done].
  destruct (_ || (cap <=? 0)) eqn:Eargs; [apply (refusal_settles _ _ c); done|].
  apply (settles_run _ _ _ _ _ (registrations s) s); [done..|].
  destruct (models (registrations s) !! safe mn) as [model|] eqn:Em; [|apply (refusal_settles _ _ c); done].
  destruct (tensors (registrations s) !! safe inn) as [input|] eqn:Ei; [|apply (refusal_settles _ _ c); done].
  destruct (tensors (registrations s) !! safe on) as [output|] eqn:Eo; [|apply (refusal_settles _ _ c); done].
  apply lift_settles. intros ei _. apply lift_settles. intros eo _.
  destruct ((ei <=? 0) || (eo <=? 0) || negb (ic =? ei) || (cap <? eo)) eqn:Esize.
  { apply ends_settle; [done| |done]. apply ends_quiet; [apply (quiet_print true)|]. intros s' Hs'. by exists s'. }
  apply orb_false_iff in Esize as [Esize Ecap%Z.ltb_ge]. apply orb_false_iff in Esize as [Esize _].
  apply orb_false_iff in Esize as [_ Eeo%Z.leb_gt].
  destruct bridge_enabled.
  - rewrite <- (ok_model_names _ _ _ Hok _ _ Em) in Em. rewrite <- (ok_tensor_names _ _ _ Hok _ _ Ei) in Ei.
    rewrite <- (ok_tensor_names _ _ _ Hok _ _ Eo) in Eo. by apply execute_settles.
  - apply ends_settle; [done| |done]. apply ends_quiet; [apply quiet_record|]. apply ends_quiet; [apply (quiet_print true)|].
    intros s' Hs'. by exists s'.
Qed.

(** * Histories *)

(** The calls of the C interface. *)
Inductive Call :=
| CReset
| CRegisterModel (name format path task precision input_shape output_shape backend_preference : option string)
| CRegisterTensor (name element_type shape rank total_elements : option string)
| CRegisterContract (a1 a2 a3 a4 a5 a6 a7 a8 : option string)
| CRecordMeasurement (a1 a2 a3 a4 a5 : option string)
| CInfer (model input output : option string)
| CInferF32 (c : F32Call)
| CInferLegacy (path shape input : option string)
| CTelemetryJson | CRequestJson | CObservabilityJson | CPrometheus | COtlpJson.

Inductive Answer := AStatus (z : Z) | AReturn (r : InferReturn) | AText (t : string).

Definition call (w : World) (c : Call) : NM Answer :=
  match c with
  | CReset => z ← short_runtime_reset bridge_enabled; mret (AStatus z)
  | CRegisterModel a1 a2 a3 a4 a5 a6 a7 a8 => z ← short_ai_register_model bridge_enabled a1 a2 a3 a4 a5 a6 a7 a8; mret (AStatus z)
  | CRegisterTensor a1 a2 a3 a4 a5 => z ← short_ai_register_tensor bridge_enabled a1 a2 a3 a4 a5; mret (AStatus z)
  | CRegisterContract a1 a2 a3 a4 a5 a6 a7 a8 => z ← short_greenai_register_contract a1 a2 a3 a4 a5 a6 a7 a8; mret (AStatus z)
  | CRecordMeasurement a1 a2 a3 a4 a5 => z ← short_greenai_record_measurement a1 a2 a3 a4 a5; mret (AStatus z)
  | CInfer m i o => z ← short_ai_infer m i o; mret (AStatus z)
  | CInferF32 c => r ← infer_f32 w c; mret (AReturn r)
  | CInferLegacy p x i => z ← short_ai_infer_legacy p x i; mret (AStatus z)
  | CTelemetryJson => t ← short_runtime_last_infer_telemetry_json; mret (AText t)
  | CRequestJson => t ← short_runtime_infer_bridge_request_json; mret (AText t)
  | CObservabilityJson => t ← short_runtime_observability_json; mret (AText t)
  | CPrometheus => t ← short_runtime_prometheus_metrics; mret (AText t)
  | COtlpJson => t ← short_runtime_otlp_spans_json; mret (AText t)
  end.

Fixpoint exec (h : list (World * Call)) : NM (list Answer) :=
  match h with
  | [] => mret []
  | (w, c) :: h => a ← call w c; l ← exec h; mret (a :: l)
  end.

(** The arguments of a call are representable: an [int] is at most INT_MAX. *)
Definition call_ok (c : Call) : Prop := match c with CInferF32 c => fc_capacity c ≤ INT32_MAX | _ => True end.

(** A history in worlds with the same memory size and override. *)
Definition history_ok (memory : string) (override : bool) (h : list (World * Call)) : Prop :=
  Forall (λ x, at_conditions memory override x.1 ∧ call_ok x.2) h.

(** * Calls that keep registrations, bridge and counters *)

Definition silent {A} (m : NM A) : Prop := ∀ s a s', m s = Done (a, s') →
  registrations s' = registrations s ∧ bridge s' = bridge s ∧ stats s' = stats s.

Lemma silent_ret {A} (a : A) : silent (mret a).
Proof. by intros s x s' [= <- <-]. Qed.

Lemma silent_gets {A} (f : Native → A) : silent (gets f).
Proof. by intros s x s' [= <- <-]. Qed.

Lemma silent_modify f :
  (∀ s, registrations (f s) = registrations s ∧ bridge (f s) = bridge s ∧ stats (f s) = stats s) → silent (modify f).
Proof. intros Hf s x s' [= <- <-]. apply Hf. Qed.

Lemma silent_bind {A B} (m : NM A) (k : A → NM B) : silent m → (∀ a, silent (k a)) → silent (m ≫= k).
Proof.
  intros Hm Hk s b s2. unfold mbind, SM_bind. destruct (m s) as [[a s1]| |] eqn:E; [|done|done]. intros E2.
  destruct (Hm _ _ _ E) as (A1 & A2 & A3), (Hk _ _ _ _ E2) as (B1 & B2 & B3). split_and!; congruence.
Qed.

Lemma silent_if {A} (b : bool) (m1 m2 : NM A) : silent m1 → silent m2 → silent (if b then m1 else m2).
Proof. by destruct b. Qed.
End Native.

Create HintDb native.
#[export] Hint Resolve silent_ret silent_gets silent_bind silent_if : native.
#[export] Hint Extern 1 (silent (modify _)) => apply silent_modify; intros; done : native.
#[export] Hint Extern 2 (silent (print _)) => apply silent_modify; intros; done : native.

Section Calls.
Context `{Platform} `{OrtApi} {laws : OrtLaws} (bridge_enabled : bool).

Lemma silent_telemetry : silent materialize_last_infer_telemetry_json.
Proof. unfold materialize_last_infer_telemetry_json. auto 8 with native. Qed.

Lemma silent_request : silent materialize_infer_bridge_request_json.
Proof. unfold materialize_infer_bridge_request_json. auto 8 with native. Qed.

(** A computation that returns this status and is silent. *)
Definition yields (status : Z) (m : NM Z) : Prop := silent m ∧ ∀ s a s', m s = Done (a, s') → a = status.

Lemma yields_ret status : yields status (mret status).
Proof. split; [apply silent_ret|]. by intros s a s' [= <- <-]. Qed.

Lemma yields_bind {A} status (m : NM A) k : silent m → (∀ x, yields status (k x)) → yields status (m ≫= k).
Proof.
  intros Hm Hk. split; [apply silent_bind; [done|intros; apply Hk]|]. intros s a s2. unfold mbind, SM_bind.
  destruct (m s) as [[x s1]| |]; [|done|done]. apply Hk.
Qed.

(** An inference call: its status is counted. *)
Definition counted (m : NM Z) : Prop := ∀ s z s', m s = Done (z, s') →
  bumped z (stats s) = Some (stats s') ∧ registrations s' = registrations s ∧ bridge s' = bridge s.

Lemma counted_tail status backend why m : yields status m → counted (set_last_infer status backend why ≫= λ _, m).
Proof.
  intros [Hs Hy] s z s'. unfold mbind, SM_bind. rewrite run_set_last_infer.
  destruct (bumped status (stats s)) as [st|] eqn:E; [|done]. intros Hm. rewrite (Hy _ _ _ Hm), E.
  destruct (Hs _ _ _ Hm) as (-> & -> & ->). done.
Qed.

Lemma counted_refuse operation status why message : counted (refuse_infer operation status why message).
Proof. apply counted_tail, yields_bind; [unfold log_status; auto with native|]. intros _. apply yields_ret. Qed.

Lemma counted_gets {A} (f : Native → A) k : (∀ x, counted (k x)) → counted (gets f ≫= k).
Proof. intros Hk s z s'. apply Hk. Qed.

Lemma counted_infer m i o : counted (short_ai_infer m i o).
Proof.
  unfold short_ai_infer. destruct (blank m || blank i || blank o); [apply counted_refuse|]. apply counted_gets. intros r.
  destruct (models r !! safe m); [|apply counted_refuse]. destruct (tensors r !! safe i); [|apply counted_refuse].
  destruct (tensors r !! safe o); [|apply counted_refuse].
  destruct (_ || _); apply counted_tail; repeat (apply yields_bind; [auto with native|intros ?]); apply yields_ret.
Qed.

Lemma counted_legacy p x i : counted (short_ai_infer_legacy p x i).
Proof.
  unfold short_ai_infer_legacy. destruct (_ || _); [apply counted_refuse|].
  apply counted_tail, yields_bind; [auto with native|]. intros _. apply yields_ret.
Qed.

(** * The invariant over a history *)

Lemma silent_ok memory override {A} (m : NM A) s a s' :
  silent m → m s = Done (a, s') → native_ok memory override s → native_ok memory override s'.
Proof. intros Hm E. destruct (Hm _ _ _ E) as (A1 & A2 & _). by apply native_ok_depends. Qed.

Definition disabled_ok (s : Native) : Prop := bridge_enabled = false → bridge s = no_bridge.

Lemma reset_ok memory override s z s' :
  disabled_ok s → short_runtime_reset bridge_enabled s = Done (z, s') → native_ok memory override s' ∧ disabled_ok s' ∧ stats s' = no_stats.
Proof.
  intros Hd [= _ <-]. unfold disabled_ok in *. destruct bridge_enabled; simpl; [|rewrite Hd by done]; (split; [|done]); by split.
Qed.

(** Changed registrations, after the bridge has forgotten its descriptor. *)
Definition forgotten (s : Native) : Native :=
  if bridge_enabled then set_bridge (with_descriptor None (clear (prepared_cache (bridge s))) (bridge s)) s else s.

Lemma registered_ok memory override s r line :
  native_ok memory override s → disabled_ok s →
  (∀ k m, models r !! k = Some m → md_name m = k) → (∀ k t, tensors r !! k = Some t → td_name t = k) →
  let s' := print_line line (set_registrations r (forgotten s)) in native_ok memory override s' ∧ disabled_ok s' ∧ stats s' = stats s.
Proof.
  intros [A1 A2 A3 A4 A5 A6] Hd Hm Ht. cbv zeta. unfold disabled_ok, forgotten in *. destruct bridge_enabled.
  - split; [|done]. by split.
  - split; [|done]. split; simpl; try done. by rewrite Hd.
Qed.

Lemma register_model_ok memory override a1 a2 a3 a4 a5 a6 a7 a8 s z s' :
  native_ok memory override s → disabled_ok s →
  short_ai_register_model bridge_enabled a1 a2 a3 a4 a5 a6 a7 a8 s = Done (z, s') →
  native_ok memory override s' ∧ disabled_ok s' ∧ stats s' = stats s.
Proof.
  intros Hok Hd. unfold short_ai_register_model. destruct (blank a1).
  { intros [= _ <-]. split; [by apply (native_ok_depends _ _ s)|done]. }
  set (record := Build_ModelRecord _ _ _ _ _ _ _ _). unfold mbind at 1, SM_bind at 1, gets at 1. case_bool_decide; [by intros [= _ <-]|].
  intros E. pose proof (registered_ok memory override s
    {| models := <[md_name record := record]> (models (registrations s)); tensors := tensors (registrations s);
       contracts := contracts (registrations s); measurements := measurements (registrations s) |}) as Hr.
  unfold forgotten in Hr. destruct bridge_enabled; injection E as _ <-; apply Hr; try done; try apply (ok_tensor_names _ _ _ Hok);
    intros k m Hk; cbn [models tensors] in Hk; apply lookup_insert_Some in Hk as [[<- <-]|[_ Hk]]; [done|by apply (ok_model_names _ _ _ Hok)|done|by apply (ok_model_names _ _ _ Hok)].
Qed.

Lemma register_tensor_ok memory override a1 a2 a3 a4 a5 s z s' :
  native_ok memory override s → disabled_ok s →
  short_ai_register_tensor bridge_enabled a1 a2 a3 a4 a5 s = Done (z, s') →
  native_ok memory override s' ∧ disabled_ok s' ∧ stats s' = stats s.
Proof.
  intros Hok Hd. unfold short_ai_register_tensor. destruct (blank a1).
  { intros [= _ <-]. split; [by apply (native_ok_depends _ _ s)|done]. }
  set (record := Build_TensorRecord _ _ _ _ _). unfold mbind at 1, SM_bind at 1, gets at 1. case_bool_decide; [by intros [= _ <-]|].
  intros E. pose proof (registered_ok memory override s
    {| models := models (registrations s); tensors := <[td_name record := record]> (tensors (registrations s));
       contracts := contracts (registrations s); measurements := measurements (registrations s) |}) as Hr.
  unfold forgotten in Hr. destruct bridge_enabled; injection E as _ <-; apply Hr; try done; try apply (ok_model_names _ _ _ Hok);
    intros k m Hk; cbn [models tensors] in Hk; apply lookup_insert_Some in Hk as [[<- <-]|[_ Hk]]; [done|by apply (ok_tensor_names _ _ _ Hok)|done|by apply (ok_tensor_names _ _ _ Hok)].
Qed.

(** * Counters *)

Definition hit (b : bool) : Z := if b then 1 else 0.

(** The counters after an answered inference, as numbers. *)
Definition tallied_status (z : Z) (st : RuntimeStats) : RuntimeStats := {|
  infer_calls := infer_calls st + 1;
  infer_success := infer_success st + hit (z =? SHORTHAND_RUNTIME_OK);
  infer_not_executed := infer_not_executed st + hit (z =? SHORTHAND_RUNTIME_NOT_EXECUTED);
  infer_backend_unavailable := infer_backend_unavailable st + hit (z =? SHORTHAND_RUNTIME_BACKEND_UNAVAILABLE);
  infer_invalid_input := infer_invalid_input st +
    hit ((z =? SHORTHAND_RUNTIME_INVALID_INPUT) || (z =? SHORTHAND_RUNTIME_INVALID_ARGUMENT)) |}.

Definition tallied (c : Call) (a : Answer) (st : RuntimeStats) : RuntimeStats :=
  match c, a with
  | CReset, _ => no_stats
  | (CInfer _ _ _ | CInferLegacy _ _ _), AStatus z => tallied_status z st
  | CInferF32 _, AReturn r => tallied_status (ret_status r) st
  | _, _ => st
  end.

Lemma bump_spec n m : bump n = Some m → m = n + 1.
Proof. unfold bump. case_match; [done|]. by intros [= <-]. Qed.

Lemma bumped_tallied z st st' : bumped z st = Some st' → st' = tallied_status z st.
Proof.
  unfold bumped, tallied_status, hit. destruct (bump (infer_calls st)) as [calls|] eqn:E; [|done]. apply bump_spec in E as ->.
  destruct (z =? SHORTHAND_RUNTIME_OK) eqn:E0; [apply Z.eqb_eq in E0 as ->|].
  { intros (v & Hv & ->)%fmap_Some. apply bump_spec in Hv as ->. simpl. f_equal; lia. }
  destruct (z =? SHORTHAND_RUNTIME_NOT_EXECUTED) eqn:E1; [apply Z.eqb_eq in E1 as ->|].
  { intros (v & Hv & ->)%fmap_Some. apply bump_spec in Hv as ->. simpl. f_equal; lia. }
  destruct (z =? SHORTHAND_RUNTIME_BACKEND_UNAVAILABLE) eqn:E2; [apply Z.eqb_eq in E2 as ->|].
  { intros (v & Hv & ->)%fmap_Some. apply bump_spec in Hv as ->. simpl. f_equal; lia. }
  destruct (_ || _).
  { intros (v & Hv & ->)%fmap_Some. apply bump_spec in Hv as ->. f_equal; lia. }
  intros [= <-]. f_equal; lia.
Qed.

(** * One call *)

Lemma counted_ok memory override m s z s' :
  counted m → m s = Done (z, s') → native_ok memory override s → disabled_ok s →
  native_ok memory override s' ∧ disabled_ok s' ∧ stats s' = tallied_status z (stats s).
Proof.
  intros Hm E Hok Hd. destruct (Hm _ _ _ E) as (Hb & Hr & Hbr). split_and!.
  - by apply (native_ok_depends _ _ s).
  - intros Hf. rewrite Hbr. by apply Hd.
  - by apply bumped_tallied.
Qed.

Definition keeps_bridge {A} (m : NM A) : Prop := ∀ s a s', m s = Done (a, s') → bridge s' = bridge s.

Lemma keeps_bridge_bind {A B} (m : NM A) (k : A → NM B) : keeps_bridge m → (∀ a, keeps_bridge (k a)) → keeps_bridge (m ≫= k).
Proof.
  intros Hm Hk s b s2. unfold mbind, SM_bind. destruct (m s) as [[a s1]| |] eqn:E; [|done|done]. intros E2.
  rewrite (Hk _ _ _ _ E2). by apply (Hm _ _ _ E).
Qed.

Lemma keeps_silent {A} (m : NM A) : silent m → keeps_bridge m.
Proof. intros Hm s a s' E. apply (Hm _ _ _ E). Qed.

Lemma keeps_last status backend why : keeps_bridge (set_last_infer status backend why).
Proof. intros s a s'. rewrite run_set_last_infer. destruct (bumped status (stats s)); [by intros [= _ <-]|done]. Qed.

Lemma keeps_lift {A} (o : outcome A) : keeps_bridge (lift o).
Proof. intros s a s'. unfold lift. destruct o; [by intros [= _ <-]|done|done]. Qed.

Lemma disabled_infer w c : keeps_bridge (infer_f32 false w c).
Proof.
  assert (∀ o st why m, keeps_bridge (refuse_infer o st why m ≫= λ z, mret (untouched z c))) as Hre.
  { intros. apply keeps_bridge_bind; [|intros; by apply keeps_silent, silent_ret]. intros s a s' E. by apply counted_refuse in E as (_ & _ & ->). }
  unfold infer_f32, short_ai_infer_f32. destruct (fc_values c); [|apply Hre]. destruct (fc_memory c) eqn:Em; [|rewrite <- Em; apply Hre].
  rewrite <- Em. destruct (_ || (fc_capacity c <=? 0)); [apply Hre|]. apply keeps_bridge_bind; [apply keeps_silent, silent_gets|]. intros r.
  destruct (models r !! _); [|apply Hre]. destruct (tensors r !! safe (fc_input c)); [|apply Hre].
  destruct (tensors r !! safe (fc_output c)); [|apply Hre].
  do 2 (apply keeps_bridge_bind; [apply keeps_lift|intros ?]).
  destruct (_ || _); (apply keeps_bridge_bind; [apply keeps_last|intros ?]); apply keeps_silent; unfold record_lazy_typed_buffer_bridge_request;
    auto 8 with native.
Qed.

Lemma f32_ok memory override w c s r s' :
  native_ok memory override s → disabled_ok s → at_conditions memory override w → fc_capacity c ≤ INT32_MAX →
  infer_f32 bridge_enabled w c s = Done (r, s') →
  native_ok memory override s' ∧ disabled_ok s' ∧ stats s' = tallied_status (ret_status r) (stats s).
Proof.
  intros Hok Hd Hw Hc E. pose proof (infer_f32_settles bridge_enabled memory override w c s Hok Hw Hc) as Hs. unfold settles in Hs.
  destruct (f32_spec bridge_enabled (registrations s) w c) as [[[ret b] why]| |]; [|congruence|congruence].
  destruct (bumped (ret_status ret) (stats s)) as [st|] eqn:Eb; [|congruence].
  destruct Hs as (s'' & E' & Hok' & _ & <- & _). rewrite E in E'. injection E' as <- <-. split_and!; [done| |by apply bumped_tallied].
  intros Hf. rewrite <- (Hd Hf). clear -E Hf. subst bridge_enabled. by apply (disabled_infer w c) in E.
Qed.

Lemma native_read_ok memory override (m : NM string) s t s' :
  silent m → m s = Done (t, s') → native_ok memory override s → disabled_ok s →
  native_ok memory override s' ∧ disabled_ok s' ∧ stats s' = stats s.
Proof.
  intros Hm E Hok Hd. destruct (Hm _ _ _ E) as (A1 & A2 & A3). split_and!; [by apply (native_ok_depends _ _ s)| |done].
  intros Hf. rewrite A2. by apply Hd.
Qed.

Lemma silent_observability : silent short_runtime_observability_json.
Proof. unfold short_runtime_observability_json. pose proof silent_request. auto 8 with native. Qed.
Lemma silent_prometheus : silent short_runtime_prometheus_metrics.
Proof. unfold short_runtime_prometheus_metrics. auto 8 with native. Qed.
Lemma silent_otlp : silent short_runtime_otlp_spans_json.
Proof. unfold short_runtime_otlp_spans_json. pose proof silent_request. pose proof silent_telemetry. auto 8 with native. Qed.

Lemma contract_ok memory override a1 a2 a3 a4 a5 a6 a7 a8 s z s' :
  native_ok memory override s → disabled_ok s → short_greenai_register_contract a1 a2 a3 a4 a5 a6 a7 a8 s = Done (z, s') →
  native_ok memory override s' ∧ disabled_ok s' ∧ stats s' = stats s.
Proof.
  intros Hok Hd. unfold short_greenai_register_contract.
  destruct (blank a1); intros [= _ <-]; (split; [|done]); destruct Hok; by split.
Qed.

Lemma measurement_ok memory override a1 a2 a3 a4 a5 s z s' :
  native_ok memory override s → disabled_ok s → short_greenai_record_measurement a1 a2 a3 a4 a5 s = Done (z, s') →
  native_ok memory override s' ∧ disabled_ok s' ∧ stats s' = stats s.
Proof.
  intros Hok Hd. unfold short_greenai_record_measurement.
  destruct (blank a1); intros [= _ <-]; (split; [|done]); destruct Hok; by split.
Qed.

Lemma bind_inv {A B} (m : NM A) (f : A → B) s b s' :
  (m ≫= λ x, mret (f x)) s = Done (b, s') → ∃ a, m s = Done (a, s') ∧ b = f a.
Proof. unfold mbind, SM_bind. destruct (m s) as [[a s1]| |]; [|done|done]. intros [= <- <-]. by exists a. Qed.

Lemma call_step memory override w c s a s' :
  native_ok memory override s → disabled_ok s → at_conditions memory override w → call_ok c →
  call bridge_enabled w c s = Done (a, s') →
  native_ok memory override s' ∧ disabled_ok s' ∧ stats s' = tallied c a (stats s).
Proof.
  intros Hok Hd Hw Hc E. destruct c; apply bind_inv in E as (x & E & ->); cbn [tallied].
  - by eapply reset_ok.
  - by eapply register_model_ok.
  - by eapply register_tensor_ok.
  - by eapply contract_ok.
  - by eapply measurement_ok.
  - eapply counted_ok; [apply counted_infer|done..].
  - by eapply f32_ok.
  - eapply counted_ok; [apply counted_legacy|done..].
  - eapply native_read_ok; [apply silent_telemetry|done..].
  - eapply native_read_ok; [apply silent_request|done..].
  - eapply native_read_ok; [apply silent_observability|done..].
  - eapply native_read_ok; [apply silent_prometheus|done..].
  - eapply native_read_ok; [apply silent_otlp|done..].
Qed.

Definition tally_history (h : list (World * Call)) (answers : list Answer) (st : RuntimeStats) : RuntimeStats :=
  foldl (λ st x, tallied x.1.2 x.2 st) st (zip h answers).

Lemma exec_ok memory override h s answers s' :
  native_ok memory override s → disabled_ok s → history_ok memory override h → exec bridge_enabled h s = Done (answers, s') →
  native_ok memory override s' ∧ disabled_ok s' ∧ stats s' = tally_history h answers (stats s) ∧ length answers = length h.
Proof.
  revert s answers. induction h as [|[w c] h IH]; intros s answers Hok Hd Hh E; [by injection E as <- <-|].
  inversion Hh as [|? ? [Hw Hc] Hh']; subst. cbn [exec] in E. unfold mbind at 1, SM_bind at 1 in E.
  destruct (call bridge_enabled w c s) as [[a s1]| |] eqn:E1; [|done|done].
  apply bind_inv in E as (l & E & ->). destruct (call_step _ _ _ _ _ _ _ Hok Hd Hw Hc E1) as (Hok1 & Hd1 & Hst).
  destruct (IH _ _ Hok1 Hd1 Hh' E) as (? & ? & Hs & Hl). split_and!; [done|done| |simpl; lia]. by rewrite Hs, Hst.
Qed.

(** * The theorems *)

(** C11.  Typed inference depends on the registrations and the moment only, while
    the memory size of the host and the qualification override stay the same.
    After any history of calls under one memory size and one value of the override
    ([history_ok], [at_conditions]; devices, files and the rest of the environment
    may change, [int] arguments are at most INT_MAX, and ONNX Runtime writes the
    buffer it is given whatever it held before, [OrtLaws]),
    [short_ai_infer_f32] under the same two answers as the specification without
    state does on the current registrations: the same status, output memory and
    element count, the same backend and reason reported, one more call counted; or
    it is undefined where the specification is, or where a counter would overflow.
    So under that condition the descriptor, the session, the route, the inventory
    and the scratch buffers kept from earlier calls are not stale; without it a
    route can be ([withdrawn_override_still_executes] of AiRuntimeFacts). *)
Theorem native_inference_refines memory override h answers s w c :
  history_ok memory override h → exec bridge_enabled h new_native = Done (answers, s) →
  at_conditions memory override w → fc_capacity c ≤ INT32_MAX →
  settles memory override (infer_f32 bridge_enabled w c) s (f32_spec bridge_enabled (registrations s) w c).
Proof.
  intros Hh E Hw Hc. apply infer_f32_settles; [|done|done].
  destruct (exec_ok memory override h new_native answers s) as [Hok _]; try done; apply new_native_ok.
Qed.

(** ** Transactions *)

(** The runtime keeps no pointer to the memory of a caller. *)
Definition borrowless (s : Native) : Prop := external_f32_data (bridge_buffer (bridge s)) = None.

Notation returns := (wp (λ _, True)).

Lemma returns_done {A} (m : NM A) (Q : A → Native → Prop) s a s' : returns m Q s → m s = Done (a, s') → Q a s'.
Proof. unfold wp. by intros Hm E; rewrite E in Hm. Qed.

Lemma returns_keeping {A} (m : NM A) (Q : A → Native → Prop) s :
  keeps_bridge m → (∀ a s', bridge s' = bridge s → Q a s') → returns m Q s.
Proof. intros Hm HQ. unfold wp. destruct (m s) as [[a s']| |] eqn:E; [|done..]. by eapply HQ, Hm. Qed.

Lemma keeps_quiet {A} (m : NM A) : (∀ s, ∃ a s', m s = Done (a, s') ∧ bridge s' = bridge s) → keeps_bridge m.
Proof. intros Hm s a s' E. destruct (Hm s) as (b & s2 & E2 & Hb). rewrite E in E2. by injection E2 as -> ->. Qed.

Lemma keeps_attach r : keeps_bridge (attach_ai_runtime_telemetry_if_available r).
Proof. apply keeps_quiet. intros s. destruct (quiet_attach r s) as (s' & E & Hq). eexists _, _. split; [exact E|]. apply Hq. Qed.
Lemma keeps_record m i o b st why a1 a2 a3 a4 a5 : keeps_bridge (record_lazy_typed_buffer_bridge_request m i o b st why a1 a2 a3 a4 a5).
Proof. intros s a s' [= _ <-]. done. Qed.
Lemma bridge_kept_by_print (log : bool) line : keeps_bridge (if log then print line else mret tt).
Proof. by destruct log; intros s a s' [= _ <-]. Qed.

Lemma returns_end_borrow pooled buffer (Q : unit → Native → Prop) s :
  borrowless s → (∀ s', borrowless s' → Q tt s') → returns (end_borrow pooled buffer) Q s.
Proof. intros Hs HQ. unfold end_borrow. destruct pooled; by apply HQ. Qed.

Lemma bridge_infer_buffer w m buffer n s (Q : InferenceResult * list spec_float → Native → Prop) :
  borrowless s → (∀ a s', borrowless s' → Q a s') → returns (bridge_infer w m buffer n) Q s.
Proof.
  intros Hs HQ. unfold wp, bridge_infer. destruct (inferCachedInto _ _ _ _ _ _ _) as [[[[res cache] written] rt]| |]; [|done..].
  apply HQ. unfold borrowless in *. by destruct (n <=? 65536).
Qed.

(** What a request for [n] elements of output does for its caller. *)
Definition transaction (mem : list spec_float) (n : Z) (ret : InferReturn) : Prop :=
  (ret_status ret = SHORTHAND_RUNTIME_OK ∧ n ≤ Z.of_nat (length mem) ∧ ret_count ret = Some n ∧
   ∃ written, length written = Z.to_nat n ∧ ret_output ret = Some (written ++ drop (Z.to_nat n) mem)%list) ∨
  (ret_status ret ≠ SHORTHAND_RUNTIME_OK ∧ ret_output ret = Some mem ∧ ret_count ret = Some 0).

Lemma commit_transaction result buffer mem n capacity s (Q : Z * string * list spec_float * Z → Native → Prop) :
  0 ≤ n ≤ INT32_MAX →
  (∀ st why out count, transaction mem n {| ret_status := st; ret_output := Some out; ret_count := Some count |} → Q (st, why, out, count) s) →
  returns (commit_output result buffer mem n capacity) Q s.
Proof.
  intros Hn HQ. unfold commit_output. cbv zeta. destruct (Z.eqb_spec (runtimeStatusFromInferenceStatus (ir_status result)) SHORTHAND_RUNTIME_OK) as [Hs|Hs].
  2: { apply wp_ret, HQ. right. by split_and!. }
  destruct (Z.eqb_spec (output_elements result) n) as [->|]; cbn [negb orb].
  2: { apply wp_ret, HQ. right. by split_and!. }
  destruct (_ <? n). { apply wp_ret, HQ. right. by split_and!. }
  apply wp_bind. unfold copy_output. destruct (Z.ltb_spec (Z.of_nat (length mem)) n) as [|Hm]; [done|].
  destruct (Z.ltb_spec (Z.of_nat (length buffer)) n) as [|Hb]; [done|]. cbn [orb]. apply wp_ret, wp_ret.
  rewrite s32_id by (unfold is_int32, INT32_MIN; lia). apply HQ. left. split_and!; [done|done|done|].
  exists (take (Z.to_nat n) buffer). split; [rewrite length_take; lia|done].
Qed.

Lemma request_transaction w model input output spec buffer input_count mem capacity expected_input n s :
  borrowless s → 0 < n ≤ INT32_MAX →
  returns (execute_request w model input output spec buffer input_count mem capacity expected_input n)
    (λ ret s', borrowless s' ∧ transaction mem n ret) s.
Proof.
  intros Hs Hn. unfold execute_request. cbv zeta.
  assert (∀ (st : Z) q1 q2 out count s, borrowless s → keeps_bridge q1 → keeps_bridge q2 →
    transaction mem n {| ret_status := st; ret_output := Some out; ret_count := Some count |} →
    returns (q1 ≫= λ _ : unit, q2 ≫= λ _ : unit,
             end_borrow (input_count <=? 65536) buffer ≫= λ _, mret {| ret_status := st; ret_output := Some out; ret_count := Some count |})
      (λ ret s', borrowless s' ∧ transaction mem n ret) s) as Hend.
  { intros st q1 q2 out count s0 Hs0 K1 K2 Ht.
    apply wp_bind, (returns_keeping _ _ _ K1). intros _ s1 E1. apply wp_bind, (returns_keeping _ _ _ K2). intros _ s2 E2.
    apply wp_bind, returns_end_borrow; [unfold borrowless in *; congruence|]. intros s5 H5. by apply wp_ret. }
  destruct (negb (bridgeRequestIsExecutionReady _ _ _)).
  { apply wp_bind, (returns_keeping _ _ _ (keeps_last _ _ _)). intros _ s1 E1.
    apply Hend; [unfold borrowless in *; congruence|apply keeps_record|apply bridge_kept_by_print|]. right. by split_and!. }
  rewrite (u64_id n) by (unfold is_size, SIZE_MAX, INT32_MAX in *; lia). apply wp_bind, bridge_infer_buffer; [done|]. intros [res out] s1 H1.
  apply wp_bind. cbn [fst snd]. apply commit_transaction; [lia|]. intros st why out' count Ht. cbv beta iota.
  apply wp_bind, (returns_keeping _ _ _ (keeps_last _ _ _)). intros _ s2 E2. apply wp_bind, (returns_keeping _ _ _ (keeps_attach _)). intros _ s3 E3.
  apply Hend; [unfold borrowless in *; congruence|apply keeps_record|apply bridge_kept_by_print|done].
Qed.

Lemma f32_transactional w c s :
  borrowless s → fc_capacity c ≤ INT32_MAX →
  returns (infer_f32 bridge_enabled w c) (λ ret s', borrowless s' ∧
    ((ret_status ret = SHORTHAND_RUNTIME_OK ∧ ∃ n mem written,
        fc_memory c = Some mem ∧ 0 < n ≤ fc_capacity c ∧ n ≤ Z.of_nat (length mem) ∧ ret_count ret = Some n ∧
        length written = Z.to_nat n ∧ ret_output ret = Some (written ++ drop (Z.to_nat n) mem)%list) ∨
     (ret_status ret ≠ SHORTHAND_RUNTIME_OK ∧ ret_output ret = fc_memory c ∧
        ret_count ret = if fc_has_count c then Some 0 else None))) s.
Proof.
  intros Hs Hc. unfold infer_f32, short_ai_infer_f32.
  assert (∀ operation st why message, st ≠ SHORTHAND_RUNTIME_OK →
    returns (refuse_infer operation st why message ≫= λ z, mret (untouched z c)) (λ ret s', borrowless s' ∧
    ((ret_status ret = SHORTHAND_RUNTIME_OK ∧ ∃ n mem written,
        fc_memory c = Some mem ∧ 0 < n ≤ fc_capacity c ∧ n ≤ Z.of_nat (length mem) ∧ ret_count ret = Some n ∧
        length written = Z.to_nat n ∧ ret_output ret = Some (written ++ drop (Z.to_nat n) mem)%list) ∨
     (ret_status ret ≠ SHORTHAND_RUNTIME_OK ∧ ret_output ret = fc_memory c ∧
        ret_count ret = if fc_has_count c then Some 0 else None))) s) as Hre.
  { intros operation st why message Hst. unfold wp, mbind at 1, SM_bind at 1.
    destruct (refuse_infer operation st why message s) as [[z s1]| |] eqn:E; [|done..].
    assert (z = st) as ->.
    { unfold refuse_infer in E. unfold mbind at 1, SM_bind at 1 in E. destruct (set_last_infer _ _ _ _) as [[? s2]| |]; [|done..].
      unfold mbind, SM_bind in E. destruct (log_status _ _ _ s2) as [[? s3]| |]; [|done..]. by injection E as <- <-. }
    apply counted_refuse in E as (_ & _ & Hb). simpl. split; [unfold borrowless; by rewrite Hb|right; by split_and!]. }
  unfold untouched in Hre.
  destruct (fc_values c) as [values|]; [|by apply Hre]. destruct (fc_memory c) as [mem|] eqn:Em; [|by apply Hre].
  destruct (_ || (fc_capacity c <=? 0)) eqn:Eargs; [by apply Hre|].
  apply orb_false_iff in Eargs as [Eargs _]. apply orb_false_iff in Eargs as [Eargs _]. apply orb_false_iff in Eargs as [_ Ecnt%negb_false_iff].
  apply wp_bind, wp_gets. destruct (models _ !! _) as [model|]; [|by apply Hre].
  destruct (tensors _ !! safe (fc_input c)) as [input|]; [|by apply Hre].
  destruct (tensors _ !! safe (fc_output c)) as [output|]; [|by apply Hre].
  apply wp_bind, (returns_keeping _ _ _ (keeps_lift _)). intros ei s1 E1. apply wp_bind, (returns_keeping _ _ _ (keeps_lift _)). intros n s2 E2.
  assert (borrowless s2) as H2 by (unfold borrowless in *; congruence). clear E1 E2.
  destruct (_ || _) eqn:Esize.
  { apply wp_bind, (returns_keeping _ _ _ (keeps_last _ _ _)). intros _ s3 E3. apply wp_bind, (returns_keeping _ _ _ (bridge_kept_by_print true _)).
    intros _ s4 E4. apply wp_ret. split; [unfold borrowless in *; congruence|right; by split_and!]. }
  apply orb_false_iff in Esize as [Esize Ecap%Z.ltb_ge]. apply orb_false_iff in Esize as [Esize _].
  apply orb_false_iff in Esize as [_ Hn%Z.leb_gt].
  destruct bridge_enabled.
  - unfold execute_typed_buffer_through_ai_runtime. apply wp_bind, wp_gets, wp_bind, wp_modify.
    eapply wp_mono; [apply request_transaction; [done|lia]|]. cbv beta. intros ret s3 [H3 [(A1 & A2 & A3 & written & A4 & A5)|(A1 & A2 & A3)]]; (split; [done|]).
    + left. split; [done|]. exists n, mem, written. split_and!; done || lia.
    + right. rewrite Ecnt. by split_and!.
  - apply wp_bind, (returns_keeping _ _ _ (keeps_last _ _ _)). intros _ s3 E3. apply wp_bind, (returns_keeping _ _ _ (keeps_record _ _ _ _ _ _ _ _ _ _ _)).
    intros _ s4 E4. apply wp_bind, (returns_keeping _ _ _ (bridge_kept_by_print true _)). intros _ s5 E5. apply wp_ret.
    split; [unfold borrowless in *; congruence|right; by split_and!].
Qed.

(** Every call leaves the runtime without a pointer of its caller. *)
Lemma call_borrowless w c s a s' :
  call_ok c → borrowless s → call bridge_enabled w c s = Done (a, s') → borrowless s'.
Proof.
  intros Hc Hs E.
  assert (∀ s1, bridge s1 = bridge s → borrowless s1) as Hk by (intros s1 E1; unfold borrowless; by rewrite E1).
  destruct c; apply bind_inv in E as (x & E & ->).
  - unfold short_runtime_reset in E. injection E as _ <-. unfold borrowless in *. by destruct bridge_enabled.
  - unfold short_ai_register_model in E. destruct (blank _); [by injection E as _ <-|]. unfold mbind at 1, SM_bind at 1, gets at 1 in E.
    case_bool_decide; [by injection E as _ <-|]. unfold borrowless in *. by destruct bridge_enabled; injection E as _ <-.
  - unfold short_ai_register_tensor in E. destruct (blank _); [by injection E as _ <-|]. unfold mbind at 1, SM_bind at 1, gets at 1 in E.
    case_bool_decide; [by injection E as _ <-|]. unfold borrowless in *. by destruct bridge_enabled; injection E as _ <-.
  - unfold short_greenai_register_contract in E. destruct (blank _); by injection E as _ <-.
  - unfold short_greenai_record_measurement in E. destruct (blank _); by injection E as _ <-.
  - apply counted_infer in E as (_ & _ & Hb). by apply Hk.
  - by apply (returns_done _ _ _ _ _ (f32_transactional w c s Hs Hc)) in E as [? _].
  - apply counted_legacy in E as (_ & _ & Hb). by apply Hk.
  - apply Hk, (keeps_silent _ silent_telemetry _ _ _ E).
  - apply Hk, (keeps_silent _ silent_request _ _ _ E).
  - apply Hk, (keeps_silent _ silent_observability _ _ _ E).
  - apply Hk, (keeps_silent _ silent_prometheus _ _ _ E).
  - apply Hk, (keeps_silent _ silent_otlp _ _ _ E).
Qed.

Lemma exec_borrowless h s answers s' :
  Forall (λ x, call_ok x.2) h → borrowless s → exec bridge_enabled h s = Done (answers, s') → borrowless s'.
Proof.
  intros Hh. revert s answers. induction Hh as [|[w c] h Hc Hh IH]; intros s answers Hs E; [by injection E as _ <-|].
  cbn [exec] in E. unfold mbind at 1, SM_bind at 1 in E. destruct (call bridge_enabled w c s) as [[a s1]| |] eqn:E1; [|done..].
  apply bind_inv in E as (l & E & _). eapply IH; [|exact E]. by eapply call_borrowless.
Qed.

(** C12.  Typed inference is transactional.  After any history of calls that
    returned, whatever the hosts were like and however the inference engine
    behaves (every [int] argument at most INT_MAX): when [short_ai_infer_f32]
    returns success, the first elements of the caller's memory, as many as the
    registered output has and no more than the capacity, hold the result and the
    rest is as before, and the count says how many; with any other status the
    memory is untouched and the count is zero.  In both cases no pointer of the
    caller is kept. *)
Theorem native_inference_is_transactional h answers s w c ret s' :
  Forall (λ x, call_ok x.2) h → exec bridge_enabled h new_native = Done (answers, s) →
  fc_capacity c ≤ INT32_MAX → infer_f32 bridge_enabled w c s = Done (ret, s') →
  external_f32_data (bridge_buffer (bridge s')) = None ∧
  ((ret_status ret = SHORTHAND_RUNTIME_OK ∧ ∃ n mem written,
      fc_memory c = Some mem ∧ 0 < n ≤ fc_capacity c ∧ n ≤ Z.of_nat (length mem) ∧ ret_count ret = Some n ∧
      length written = Z.to_nat n ∧ ret_output ret = Some (written ++ drop (Z.to_nat n) mem)%list) ∨
   (ret_status ret ≠ SHORTHAND_RUNTIME_OK ∧ ret_output ret = fc_memory c ∧
      ret_count ret = if fc_has_count c then Some 0 else None)).
Proof.
  intros Hh E Hc. apply (returns_done _ _ _ _ _ (f32_transactional w c s (exec_borrowless h new_native answers s Hh eq_refl E) Hc)).
Qed.

(** The counters count the answers: after any history they hold, since the
    last reset, the number of inference calls and the numbers of those that were
    answered with success, not executed, backend unavailable and invalid input or
    argument; a counter that would pass INT_MAX is undefined behaviour, so a
    history that returns has not wrapped any. *)
Theorem native_counters_count_answers memory override h answers s :
  history_ok memory override h → exec bridge_enabled h new_native = Done (answers, s) →
  length answers = length h ∧ stats s = tally_history h answers no_stats.
Proof.
  intros Hh E. destruct (exec_ok memory override h new_native answers s) as (_ & _ & Hst & Hl); try done; apply new_native_ok.
Qed.
End Calls.

(** * Witnesses *)

Lemma toy_laws : OrtLaws (H := toy_ort).
Proof.
  split; [intros; apply length_map|done|]. intros s i v d o m m' e x E _. simpl. revert m' E.
  induction m as [|y m IH]; intros [|y' m'] E; try done. simpl in *. f_equal. apply IH. lia.
Qed.

Definition toy_history : list (World * Call) :=
  map (λ c, (toy_world [Byte.x01] false, c))
    [CRegisterModel (Some "m") (Some "onnx") (Some "m.onnx") None (Some "float32") None None (Some "onnxruntime_cpu");
     CRegisterTensor (Some "x") (Some "float32") (Some "1") None None;
     CRegisterTensor (Some "y") (Some "float32") (Some "1") None None;
     CInfer (Some "m") (Some "x") (Some "y")].

Definition toy_call : F32Call := {|
  fc_model := Some "m"; fc_input := Some "x"; fc_values := Some [float_one]; fc_input_count := 1; fc_output := Some "y";
  fc_memory := Some [S754_zero false; float_one]; fc_capacity := 2; fc_has_count := true |}.

Lemma toy_history_ok : history_ok "MemTotal: 2048 kB" false toy_history.
Proof. repeat constructor. Qed.

Definition returned {A} (o : outcome A) : bool := match o with Done _ => true | _ => false end.

Lemma native_inference_refines_witness :
  ∃ answers s, exec (H := linux_build) (H0 := toy_ort) true toy_history new_native = Done (answers, s) ∧
    settles (H := linux_build) (H0 := toy_ort) "MemTotal: 2048 kB" false
      (infer_f32 (H := linux_build) (H0 := toy_ort) true (toy_world [Byte.x01] false) toy_call) s
      (f32_spec (H := linux_build) (H0 := toy_ort) true (registrations s) (toy_world [Byte.x01] false) toy_call).
Proof.
  assert (returned (exec (H := linux_build) (H0 := toy_ort) true toy_history new_native) = true) as D by (vm_compute; reflexivity).
  destruct (exec (H := linux_build) (H0 := toy_ort) true toy_history new_native) as [[answers s]| |] eqn:E;
    [|discriminate D|discriminate D].
  exists answers, s. split; [reflexivity|].
  refine (native_inference_refines (H := linux_build) (H0 := toy_ort) (laws := toy_laws) true "MemTotal: 2048 kB" false
            toy_history answers s (toy_world [Byte.x01] false) toy_call toy_history_ok E _ _).
  - split; vm_compute; reflexivity.
  - vm_compute. discriminate.
Defined.

(** The inference runs with another override than the history. *)
Lemma native_inference_is_transactional_witness :
  ∃ answers s ret s', exec (H := linux_build) (H0 := toy_ort) true toy_history new_native = Done (answers, s) ∧
    infer_f32 (H := linux_build) (H0 := toy_ort) true (toy_world [Byte.x01] true) toy_call s = Done (ret, s') ∧
    ret_status ret = SHORTHAND_RUNTIME_OK ∧ ∃ n mem written,
      fc_memory toy_call = Some mem ∧ ret_count ret = Some n ∧ length written = Z.to_nat n ∧
      ret_output ret = Some (written ++ drop (Z.to_nat n) mem)%list.
Proof.
  assert (match exec (H := linux_build) (H0 := toy_ort) true toy_history new_native with
          | Done (_, s) => match infer_f32 (H := linux_build) (H0 := toy_ort) true (toy_world [Byte.x01] true) toy_call s with
                           | Done (ret, _) => ret_status ret = SHORTHAND_RUNTIME_OK
                           | _ => False
                           end
          | _ => False
          end) as D by (vm_compute; reflexivity).
  destruct (exec (H := linux_build) (H0 := toy_ort) true toy_history new_native) as [[answers s]| |] eqn:E; [|destruct D..].
  destruct (infer_f32 (H := linux_build) (H0 := toy_ort) true (toy_world [Byte.x01] true) toy_call s) as [[ret s']| |] eqn:E'; [|destruct D..].
  exists answers, s, ret, s'. split; [reflexivity|]. split; [exact E'|]. split; [exact D|].
  assert (Forall (λ x, call_ok x.2) toy_history) as Hc by repeat constructor.
  destruct (native_inference_is_transactional (H := linux_build) (H0 := toy_ort) true
            toy_history answers s (toy_world [Byte.x01] true) toy_call ret s' Hc E ltac:(vm_compute; discriminate) E')
    as [_ [(_ & n & mem & written & Hm & _ & _ & Hn & Hl & Ho)|[Hs _]]]; [|destruct (Hs D)].
  exists n, mem, written. split; [exact Hm|]. split; [exact Hn|]. split; [exact Hl|exact Ho].
Defined.

Lemma native_counters_count_answers_witness :
  ∃ answers s, exec (H := linux_build) (H0 := toy_ort) true toy_history new_native = Done (answers, s) ∧
    stats s = tally_history toy_history answers no_stats.
Proof.
  assert (returned (exec (H := linux_build) (H0 := toy_ort) true toy_history new_native) = true) as D by (vm_compute; reflexivity).
  destruct (exec (H := linux_build) (H0 := toy_ort) true toy_history new_native) as [[answers s]| |] eqn:E;
    [|discriminate D|discriminate D].
  exists answers, s. split; [reflexivity|].
  exact (proj2 (native_counters_count_answers (H := linux_build) (H0 := toy_ort) (laws := toy_laws) true "MemTotal: 2048 kB" false
            toy_history answers s toy_history_ok E)).
Defined.

(** The example end to end: the output is the doubled input, the second element
    of the memory stays. *)
Example toy_inference_runs :
  match exec (H := linux_build) (H0 := toy_ort) true toy_history new_native with
  | Done (_, s) =>
      match infer_f32 (H := linux_build) (H0 := toy_ort) true (toy_world [Byte.x01] false) toy_call s with
      | Done (ret, _) => (ret_status ret, ret_output ret, ret_count ret)
      | _ => (8, None, None)
      end
  | _ => (8, None, None)
  end = (0, Some [float_two; float_one], Some 1).
Proof. vm_compute. reflexivity. Qed.

(** A tensor registered with two dimensions of 2 to the 32 and no element count:
    the product of the dimensions overflows a signed integer. *)
Example shape_overflow_is_undefined :
  match exec (H := linux_build) (H0 := toy_ort) true
          (map (λ c, (quiet_world, c))
             [CRegisterModel (Some "m") (Some "onnx") (Some "m.onnx") None (Some "float32") None None (Some "onnxruntime_cpu");
              CRegisterTensor (Some "x") (Some "float32") (Some "4294967296,4294967296") None None]) new_native with
  | Done (_, s) =>
      infer_f32 (H := linux_build) (H0 := toy_ort) true quiet_world
        {| fc_model := Some "m"; fc_input := Some "x"; fc_values := Some [float_one]; fc_input_count := 1; fc_output := Some "x";
           fc_memory := Some [float_one]; fc_capacity := 1; fc_has_count := true |} s
  | _ => OutOfFuel
  end = Undefined "signed overflow of the element count".
Proof. vm_compute. reflexivity. Qed.
