(* ===== verification/NativeReports.v ===== *)
(** Reports of the native runtime library are built when they are read.  Reading
    them changes nothing that can be seen later: a history with its reads left
    out gives the same answers to all the other calls. *)
From Stdlib Require Import SpecFloat.
From S2P Require Import Prelude CxxInt CxxString CxxFloat AiTypes JsonText HardwareRouting AiBackends AiRuntime HardwareRoutingFacts AiRuntimeFacts NativeRuntime NativeRuntimeFacts.
Open Scope string_scope.
Open Scope Z_scope.

Section Reports.
Context `{Platform} `{OrtApi} (bridge_enabled : bool).

(** * What can be seen of a state *)

(** The reports as a read would give them. *)
Definition telemetry_report (s : Native) : string :=
  if last_infer_telemetry_dirty (last_infer s) then telemetry_text (last_infer s) else last_infer_telemetry_json (last_infer s).
Definition request_report (s : Native) : string :=
  if lz_dirty (lazy_bridge_request s) then request_text (lazy_bridge_request s) (infer_bridge_request_json_cache s)
  else infer_bridge_request_json_cache s.

Record seen : Type := {
  sn_registrations : Registrations; sn_bridge : Bridge; sn_stats : RuntimeStats; sn_status : Z; sn_backend : string;
  sn_reason : string; sn_fragment : string; sn_telemetry : string; sn_request : string; sn_stderr : list string;
}.

Definition view (s : Native) : seen := {|
  sn_registrations := registrations s; sn_bridge := bridge s; sn_stats := stats s;
  sn_status := last_infer_status (last_infer s); sn_backend := last_infer_backend (last_infer s);
  sn_reason := last_infer_reason (last_infer s); sn_fragment := last_infer_ai_telemetry_fragment (last_infer s);
  sn_telemetry := telemetry_report s; sn_request := request_report s; sn_stderr := stderr_lines s |}.

(** States that look the same: they differ in which reports have been built. *)
#[global] Instance native_equiv : Equiv Native := λ s s', view s = view s'.

#[global] Instance native_equivalence : Equivalence (≡@{Native}).
Proof.
  unfold equiv, native_equiv. split; [done|by intros s s'|]. intros s1 s2 s3 ? ?. by etransitivity.
Qed.

(** The outcomes of two runs look the same. *)
Definition same {A} (o o' : outcome (A * Native)) : Prop :=
  match o, o' with
  | Done (a, s), Done (a', s') => a = a' ∧ s ≡ s'
  | Undefined e, Undefined e' => e = e'
  | OutOfFuel, OutOfFuel => True
  | _, _ => False
  end.

(** A computation that cannot tell such states apart. *)
Definition blind {A} (m : NM A) : Prop := Proper ((≡) ==> same) m.

Lemma blind_ret {A} (a : A) : blind (mret a).
Proof. intros s s' Hs. by split. Qed.

Lemma blind_bind {A B} (m : NM A) (k : A → NM B) : blind m → (∀ a, blind (k a)) → blind (m ≫= k).
Proof.
  intros Hm Hk s s' Hs. unfold mbind, SM_bind. specialize (Hm s s' Hs). unfold same in Hm.
  destruct (m s) as [[a t]| |], (m s') as [[a' t']| |]; try done. destruct Hm as [<- Ht]. by apply Hk.
Qed.

Lemma blind_gets {A} (f : Native → A) : (∀ s s', s ≡ s' → f s = f s') → blind (gets f).
Proof. intros Hf s s' Hs. split; [by apply Hf|done]. Qed.

Lemma blind_modify f : (∀ s s', s ≡ s' → f s ≡ f s') → blind (modify f).
Proof. intros Hf s s' Hs. split; [done|]. by apply Hf. Qed.

Lemma blind_undefined {A} e : blind (undefined e : NM A).
Proof. by intros s s' Hs. Qed.

Lemma blind_lift {A} (o : outcome A) : blind (lift o).
Proof. intros s s' Hs. unfold lift. by destruct o. Qed.

Lemma blind_if {A} (b : bool) (m1 m2 : NM A) : blind m1 → blind m2 → blind (if b then m1 else m2).
Proof. by destruct b. Qed.

(** The fields every computation may read. *)
Lemma seen_registrations s s' : s ≡ s' → registrations s = registrations s'.
Proof. by intros [=]. Qed.
Lemma seen_bridge s s' : s ≡ s' → bridge s = bridge s'.
Proof. by intros [=]. Qed.
Lemma seen_stats s s' : s ≡ s' → stats s = stats s'.
Proof. by intros [=]. Qed.

(** Both views, field by field. *)
Ltac same_view Hs :=
  injection Hs as ? ? ? ? ? ? ? ? ? ?; unfold equiv, native_equiv, view, telemetry_report, request_report in *;
  cbn [registrations bridge stats last_infer lazy_bridge_request infer_bridge_request_json_cache stderr_lines
       set_registrations set_bridge set_stats set_last set_lazy set_reports print_line
       last_infer_status last_infer_backend last_infer_reason last_infer_ai_telemetry_fragment last_infer_telemetry_dirty
       last_infer_telemetry_json lz_dirty lz_kind drop_lazy clean_lazy with_json_text] in *;
  unfold telemetry_text in *;
  cbn [last_infer_status last_infer_backend last_infer_reason last_infer_ai_telemetry_fragment] in *;
  f_equal; congruence.

Lemma blind_print line : blind (print line).
Proof. apply blind_modify. intros s s' Hs. same_view Hs. Qed.

Lemma blind_set_bridge b : blind (modify (set_bridge b)).
Proof. apply blind_modify. intros s s' Hs. same_view Hs. Qed.

Lemma blind_set_registrations r : blind (modify (set_registrations r)).
Proof. apply blind_modify. intros s s' Hs. same_view Hs. Qed.

Lemma blind_log operation status message : blind (log_status operation status message).
Proof. apply blind_print. Qed.

Lemma blind_last status backend why : blind (set_last_infer status backend why).
Proof.
  intros s s' Hs. rewrite !run_set_last_infer, <- (seen_stats _ _ Hs). destruct (bumped status (stats s)) as [st|]; [|done].
  split; [done|]. unfold after_infer. same_view Hs.
Qed.

Lemma blind_attach r : blind (attach_ai_runtime_telemetry_if_available r).
Proof.
  unfold attach_ai_runtime_telemetry_if_available. apply blind_if; [apply blind_ret|].
  intros s s' Hs. split; [done|]. same_view Hs.
Qed.

Lemma blind_record m i o b st why a1 a2 a3 a4 a5 :
  blind (record_lazy_typed_buffer_bridge_request m i o b st why a1 a2 a3 a4 a5).
Proof. intros s s' Hs. split; [done|]. unfold request_text. same_view Hs. Qed.

(** A compiled request is recorded over whatever the last one left. *)
Lemma blind_compiled {A} (F : LazyBridgeRequestState → LazyBridgeRequestState) (k : NM A) :
  (∀ l, lz_dirty (F l) = true) → (∀ l l' old old', request_text (F l) old = request_text (F l') old') → blind k →
  blind (gets lazy_bridge_request ≫= λ l, gets infer_bridge_request_json_cache ≫= λ old, modify (set_lazy (F l) old) ≫= λ _, k).
Proof.
  intros Hd Ht Hk s s' Hs. apply Hk. injection Hs as ? ? ? ? ? ? ? ? ? ?. unfold equiv, native_equiv, view, telemetry_report, request_report in *.
  cbn. rewrite !Hd. f_equal; auto.
Qed.

(** Building a report that is due leaves the state looking as it did. *)
Lemma telemetry_run s : ∃ s', materialize_last_infer_telemetry_json s = Done (telemetry_report s, s') ∧ s' ≡ s.
Proof.
  unfold materialize_last_infer_telemetry_json, telemetry_report, mbind, SM_bind, gets.
  destruct (last_infer_telemetry_dirty (last_infer s)) eqn:E; [|by exists s]. eexists. split; [reflexivity|].
  unfold equiv, native_equiv, view, telemetry_report, request_report. cbn. by rewrite E.
Qed.

Lemma request_run s : ∃ s', materialize_infer_bridge_request_json s = Done (request_report s, s') ∧ s' ≡ s.
Proof.
  unfold materialize_infer_bridge_request_json, request_report, mbind, SM_bind, gets.
  destruct (lz_dirty (lazy_bridge_request s)) eqn:E; [|by exists s]. eexists. split; [reflexivity|].
  unfold equiv, native_equiv, view, telemetry_report, request_report. cbn. by rewrite E.
Qed.

(** A read: it returns a text that is a function of the view, and leaves the
    view as it was. *)
Definition reader (m : NM string) (f : Native → string) : Prop :=
  (∀ s s', s ≡ s' → f s = f s') ∧ ∀ s, ∃ s', m s = Done (f s, s') ∧ s' ≡ s.

Lemma reader_telemetry : reader short_runtime_last_infer_telemetry_json telemetry_report.
Proof. split; [by intros s s' [=]|apply telemetry_run]. Qed.

Lemma reader_request : reader short_runtime_infer_bridge_request_json request_report.
Proof. split; [by intros s s' [=]|apply request_run]. Qed.

Lemma reports_look_same o p t s : set_reports o p t s ≡ s.
Proof. done. Qed.

Lemma text_of_view s s' : s ≡ s' →
  (∀ j, observability_text s j = observability_text s' j) ∧ prometheus_text s = prometheus_text s' ∧
  (∀ t j, otlp_text s t j = otlp_text s' t j).
Proof.
  intros Hs. injection Hs as E1 E2 E3 E4 E5 E6 E7 E8 E9 E10. unfold observability_text, prometheus_text, otlp_text.
  rewrite E1, E3, E4, E5, E6. done.
Qed.

Lemma reader_observability : reader short_runtime_observability_json (λ s, observability_text s (request_report s)).
Proof.
  split. { intros s s' Hs. rewrite (proj1 (reader_request) _ _ Hs). by apply text_of_view. }
  intros s. unfold short_runtime_observability_json, mbind, SM_bind. destruct (request_run s) as (s1 & -> & Hs1).
  destruct (text_of_view _ _ Hs1) as [Ht _]. eexists. cbn. rewrite Ht. split; [reflexivity|]. by rewrite reports_look_same.
Qed.

Lemma reader_prometheus : reader short_runtime_prometheus_metrics prometheus_text.
Proof. split; [intros s s' Hs; by apply text_of_view|]. intros s. eexists. split; [reflexivity|]. apply reports_look_same. Qed.

Lemma reader_otlp : reader short_runtime_otlp_spans_json (λ s, otlp_text s (telemetry_report s) (request_report s)).
Proof.
  split. { intros s s' Hs. rewrite (proj1 reader_request _ _ Hs), (proj1 reader_telemetry _ _ Hs). by apply text_of_view. }
  intros s. unfold short_runtime_otlp_spans_json, mbind, SM_bind. destruct (telemetry_run s) as (s1 & -> & Hs1).
  destruct (request_run s1) as (s2 & -> & Hs2). assert (s2 ≡ s) as Hs by (by rewrite Hs2).
  destruct (text_of_view _ _ Hs) as (_ & _ & Ht). rewrite (proj1 reader_request _ _ Hs1). eexists. cbn. rewrite Ht.
  split; [reflexivity|]. by rewrite reports_look_same.
Qed.

Lemma blind_reader m f : reader m f → blind m.
Proof.
  intros [Hf Hm] s s' Hs. destruct (Hm s) as (t & -> & Ht), (Hm s') as (t' & -> & Ht').
  split; [by apply Hf|]. by rewrite Ht, Ht'.
Qed.

(** * Every call is blind *)

Lemma blind_registrations {A} (k : Registrations → NM A) : (∀ r, blind (k r)) → blind (gets registrations ≫= k).
Proof. intros Hk. apply blind_bind; [apply blind_gets, seen_registrations|done]. Qed.

Lemma blind_bridge {A} (k : Bridge → NM A) : (∀ r, blind (k r)) → blind (gets bridge ≫= k).
Proof. intros Hk. apply blind_bind; [apply blind_gets, seen_bridge|done]. Qed.

Lemma blind_invalidate : blind (if bridge_enabled then invalidate_bridge_registration else mret tt).
Proof. apply blind_if; [|apply blind_ret]. apply blind_bridge. intros b. apply blind_set_bridge. Qed.
End Reports.

Create HintDb blind.
#[export] Hint Resolve blind_ret blind_bind blind_if blind_print blind_set_bridge blind_set_registrations blind_log blind_last
  blind_attach blind_record blind_lift blind_undefined blind_registrations blind_bridge blind_invalidate : blind.

Section Calls.
Context `{Platform} `{OrtApi} (bridge_enabled : bool).

Lemma blind_refuse operation status why message : blind (refuse_infer operation status why message).
Proof. unfold refuse_infer. auto 8 with blind. Qed.

Lemma blind_reset : blind (short_runtime_reset bridge_enabled).
Proof.
  apply blind_bind; [|intros; apply blind_ret]. apply blind_modify. intros s s' Hs. injection Hs as E1 E2 E3 E4 E5 E6 E7 E8 E9 E10.
  unfold equiv, native_equiv, view. cbn. by rewrite E2, E10.
Qed.

Lemma blind_register_model a1 a2 a3 a4 a5 a6 a7 a8 : blind (short_ai_register_model bridge_enabled a1 a2 a3 a4 a5 a6 a7 a8).
Proof. unfold short_ai_register_model. auto 12 with blind. Qed.

Lemma blind_register_tensor a1 a2 a3 a4 a5 : blind (short_ai_register_tensor bridge_enabled a1 a2 a3 a4 a5).
Proof. unfold short_ai_register_tensor. auto 12 with blind. Qed.

Lemma blind_contract a1 a2 a3 a4 a5 a6 a7 a8 : blind (short_greenai_register_contract a1 a2 a3 a4 a5 a6 a7 a8).
Proof. unfold short_greenai_register_contract. auto 12 with blind. Qed.

Lemma blind_measurement a1 a2 a3 a4 a5 : blind (short_greenai_record_measurement a1 a2 a3 a4 a5).
Proof. unfold short_greenai_record_measurement. auto 12 with blind. Qed.

Lemma blind_infer m i o : blind (short_ai_infer m i o).
Proof.
  unfold short_ai_infer. apply blind_if; [apply blind_refuse|]. apply blind_registrations. intros r.
  destruct (models r !! safe m) as [model|]; [|apply blind_refuse]. destruct (tensors r !! safe i) as [input|]; [|apply blind_refuse].
  destruct (tensors r !! safe o) as [output|]; [|apply blind_refuse]. apply blind_if; [auto 8 with blind|].
  apply blind_bind; [apply blind_last|]. intros _. apply blind_compiled; [done|done|auto 8 with blind].
Qed.

Lemma blind_legacy p x i : blind (short_ai_infer_legacy p x i).
Proof. unfold short_ai_infer_legacy. apply blind_if; [apply blind_refuse|auto 8 with blind]. Qed.

Lemma blind_bridge_infer w m buffer n : blind (bridge_infer w m buffer n).
Proof.
  intros s s' Hs. unfold bridge_infer. rewrite <- (seen_bridge _ _ Hs). cbv zeta.
  destruct (inferCachedInto _ _ _ _ _ _ _) as [[[[result cache] written] runtime]| |]; [|done|done]. split; [done|].
  by apply (blind_set_bridge _ s s' Hs).
Qed.

Lemma blind_commit result buffer values n cap : blind (commit_output result buffer values n cap).
Proof. unfold commit_output, copy_output. auto 12 with blind. Qed.

Lemma blind_execute w model input output spec buffer ic values cap ei eo :
  blind (execute_request w model input output spec buffer ic values cap ei eo).
Proof.
  unfold execute_request, end_borrow. apply blind_if; [auto 16 with blind|].
  apply blind_bind; [apply blind_bridge_infer|]. intros called. apply blind_bind; [apply blind_commit|]. intros [[[st why] out] count].
  auto 16 with blind.
Qed.

Lemma blind_infer_f32 w c : blind (infer_f32 bridge_enabled w c).
Proof.
  assert (∀ o st why m, blind (refuse_infer o st why m ≫= λ z, mret (untouched z c))) as Hre.
  { intros. apply blind_bind; [apply blind_refuse|intros; apply blind_ret]. }
  unfold infer_f32, short_ai_infer_f32. destruct (fc_values c) as [values|]; [|apply Hre].
  destruct (fc_memory c) as [mem|] eqn:Em; [|rewrite <- Em; apply Hre]. rewrite <- Em. apply blind_if; [apply Hre|].
  apply blind_registrations. intros r. destruct (models r !! _); [|apply Hre].
  destruct (tensors r !! safe (fc_input c)); [|apply Hre]. destruct (tensors r !! safe (fc_output c)); [|apply Hre].
  apply blind_bind; [apply blind_lift|]. intros ei. apply blind_bind; [apply blind_lift|]. intros eo.
  apply blind_if; [auto 8 with blind|]. apply blind_if; [|auto 8 with blind].
  unfold execute_typed_buffer_through_ai_runtime. apply blind_bridge. intros b. apply blind_bind; [apply blind_set_bridge|].
  intros _. apply blind_execute.
Qed.

Lemma blind_call w c : blind (call bridge_enabled w c).
Proof.
  destruct c; (apply blind_bind; [|intros; apply blind_ret]);
    eauto using blind_reset, blind_register_model, blind_register_tensor, blind_contract, blind_measurement, blind_infer,
      blind_infer_f32, blind_legacy, blind_reader, reader_telemetry, reader_request, reader_observability, reader_prometheus, reader_otlp.
Qed.

(** * Histories without their reads *)

Definition is_read (c : Call) : bool :=
  match c with CTelemetryJson | CRequestJson | CObservabilityJson | CPrometheus | COtlpJson => true | _ => false end.

Definition without_reads (h : list (World * Call)) : list (World * Call) := filter (λ x, is_read x.2 = false) h.

(** The answers of the calls that are not reads. *)
Definition other_answers (h : list (World * Call)) (answers : list Answer) : list Answer :=
  (filter (λ x, is_read x.1.2 = false) (zip h answers)).*2.

Lemma read_call w c s : is_read c = true → ∃ t s', call bridge_enabled w c s = Done (t, s') ∧ s' ≡ s.
Proof.
  assert (∀ m f, reader m f → ∃ t s', (m ≫= λ t, mret (AText t)) s = Done (t, s') ∧ s' ≡ s) as Hr.
  { intros m f [_ Hm]. destruct (Hm s) as (s' & E & Hs). exists (AText (f s)), s'. unfold mbind, SM_bind. by rewrite E. }
  destruct c; try done; intros _;
    eauto using reader_telemetry, reader_request, reader_observability, reader_prometheus, reader_otlp.
Qed.

Lemma exec_without_reads h s1 s2 answers s1' :
  s1 ≡ s2 → exec bridge_enabled h s1 = Done (answers, s1') →
  ∃ s2', exec bridge_enabled (without_reads h) s2 = Done (other_answers h answers, s2') ∧ s1' ≡ s2'.
Proof.
  revert s1 s2 answers. induction h as [|[w c] h IH]; intros s1 s2 answers Hs E; [injection E as <- <-; by exists s2|].
  cbn [exec] in E. unfold mbind at 1, SM_bind at 1 in E.
  destruct (call bridge_enabled w c s1) as [[a t1]| |] eqn:E1; [|done|done]. apply bind_inv in E as (l & E & ->).
  destruct (is_read c) eqn:Ec.
  - destruct (read_call w c s1 Ec) as (a' & t' & E1' & Ht). rewrite E1 in E1'. injection E1' as <- <-.
    destruct (IH t1 s2 l) as (s2' & E2 & Hs2); [by rewrite Ht|done|]. exists s2'.
    unfold without_reads, other_answers. cbn [zip_with zip]. rewrite !filter_cons_False by (simpl; congruence). done.
  - pose proof (blind_call w c s1 s2 Hs) as Hb. rewrite E1 in Hb. unfold same in Hb.
    destruct (call bridge_enabled w c s2) as [[a' t2]| |] eqn:E2; [|done|done]. destruct Hb as [<- Ht].
    destruct (IH t1 t2 l Ht E) as (s2' & E3 & Hs2). exists s2'. split; [|done].
    unfold without_reads, other_answers. cbn [zip_with zip]. rewrite !filter_cons_True by (simpl; congruence).
    cbn [exec fmap list_fmap fst snd]. unfold mbind at 1, SM_bind at 1. rewrite E2. unfold mbind, SM_bind.
    unfold without_reads in E3. rewrite E3. done.
Qed.

(** Reading a report changes nothing else.  A history of calls from a new
    process and the same history without its reads of reports give the same
    answers to all the other calls, and leave states with the same
    registrations, counters, last result, pending reports and bridge: that
    reports are built lazily cannot be observed. *)
Theorem native_reads_are_pure h answers s :
  exec bridge_enabled h new_native = Done (answers, s) →
  ∃ s', exec bridge_enabled (without_reads h) new_native = Done (other_answers h answers, s') ∧ s ≡ s'.
Proof. by apply exec_without_reads. Qed.
End Calls.

Lemma native_reads_are_pure_witness :
  ∃ answers s, exec (H := linux_build) (H0 := toy_ort) true
                 (toy_history ++ [(quiet_world, CRequestJson); (quiet_world, COtlpJson)])%list new_native = Done (answers, s) ∧
    ∃ s', exec (H := linux_build) (H0 := toy_ort) true
            (without_reads (toy_history ++ [(quiet_world, CRequestJson); (quiet_world, COtlpJson)])%list) new_native =
          Done (other_answers (toy_history ++ [(quiet_world, CRequestJson); (quiet_world, COtlpJson)])%list answers, s') ∧ s ≡ s'.
Proof.
  assert (returned (exec (H := linux_build) (H0 := toy_ort) true
            (toy_history ++ [(quiet_world, CRequestJson); (quiet_world, COtlpJson)])%list new_native) = true) as D
    by (vm_compute; reflexivity).
  destruct (exec (H := linux_build) (H0 := toy_ort) true
              (toy_history ++ [(quiet_world, CRequestJson); (quiet_world, COtlpJson)])%list new_native) as [[answers s]| |] eqn:E;
    [|discriminate D|discriminate D].
  exists answers, s. split; [reflexivity|].
  exact (native_reads_are_pure (H := linux_build) (H0 := toy_ort) true _ answers s E).
Defined.
