(* ===== verification/Diagnostics.v ===== *)
(** Component: source ranges and diagnostics (ast/SourceRange.h and .cpp,
    visitors/Diagnostics.h and .cpp, visitors/DiagnosticCodes.h). *)
From S2P Require Import Prelude CxxInt CxxString Ast.
Open Scope string_scope.
Open Scope Z_scope.

(** * Source ranges *)

Record SourcePosition := { line : Z; column : Z; offset : Z }.

Definition position_valid (p : SourcePosition) : bool := (0 <? line p) && (0 <? column p).

Record SourceRange := { begin_ : SourcePosition; end_ : SourcePosition }.

Definition no_position : SourcePosition := {| line := 0; column := 0; offset := 0 |}.
Definition no_range : SourceRange := {| begin_ := no_position; end_ := no_position |}.

Definition range_valid (r : SourceRange) : bool :=
  position_valid (begin_ r) && position_valid (end_ r) &&
  ((line (begin_ r) <? line (end_ r)) ||
   ((line (end_ r) =? line (begin_ r)) && (column (begin_ r) <=? column (end_ r)))).

(** [begin.line:begin.column-end.line:end.column] *)
Definition range_text (r : SourceRange) : string :=
  pretty (line (begin_ r)) +:+ ":" +:+ pretty (column (begin_ r)) +:+ "-" +:+
  pretty (line (end_ r)) +:+ ":" +:+ pretty (column (end_ r)).

Definition toString (r : SourceRange) : string :=
  if negb (range_valid r) then "<unknown>" else range_text r.

(** The process-wide table from node addresses to ranges; the null pointer is
    [None]. *)
Abbreviation range_table := (gmap N SourceRange).

Definition shorthand_set_ast_source_range (n : option N) (r : SourceRange) (t : range_table) : range_table :=
  match n with
  | None => t
  | Some n => if negb (range_valid r) then t else <[n := r]> t
  end.

Definition shorthand_get_ast_source_range (n : option N) (t : range_table) : SourceRange :=
  match n with
  | None => no_range
  | Some n => default no_range (t !! n)
  end.

Definition shorthand_has_ast_source_range (n : option N) (t : range_table) : bool :=
  range_valid (shorthand_get_ast_source_range n t).

Definition shorthand_erase_ast_source_range (n : N) (t : range_table) : range_table := delete n t.

Definition shorthand_ast_source_range_count (t : range_table) : Z := Z.of_nat (base.size t).

Definition shorthand_clear_ast_source_ranges (t : range_table) : range_table := ∅.

(** * Codes *)

Module Codes.
Definition SemanticBreakOutsideLoop := "SHD3001".
Definition SemanticContinueOutsideLoop := "SHD3002".
Definition SemanticUnsupportedExecutableType := "SHD3003".
Definition SemanticFunctionArityMismatch := "SHD3004".
Definition SemanticReturnOutsideFunction := "SHD3005".
Definition SemanticReturnTypeMismatch := "SHD3007".
Definition SemanticUndeclaredVariable := "SHD3008".
Definition SemanticDuplicateFunction := "SHD3009".
Definition SemanticInvalidType := "SHD3010".
Definition SemanticTypeMismatch := "SHD3013".
Definition SemanticInvalidOperator := "SHD3014".
Definition SemanticInvalidCondition := "SHD3015".
Definition SemanticDuplicateLabel := "SHD3017".
Definition SemanticUndefinedLabel := "SHD3018".
Definition SemanticInvalidGotoScope := "SHD3019".
Definition SemanticMissingReturn := "SHD3020".
Definition SemanticDuplicateDeclaration := "SHD3021".
Definition SemanticVoidValueUsed := "SHD3022".
Definition SemanticUndefinedFunction := "SHD3023".
Definition ModuleManifestNotFound := "SHD2020".
Definition ModuleManifestInvalid := "SHD2021".
Definition ModuleNotFound := "SHD2022".
Definition ModulePathEscape := "SHD2023".
Definition ModuleIdentityMismatch := "SHD2024".
Definition ModuleImportCycle := "SHD2025".
Definition ModuleAmbiguousMapping := "SHD2026".
Definition ModulePackageMismatch := "SHD2027".
Definition ModuleLockfileMismatch := "SHD2028".
Definition ModuleSymbolCollision := "SHD2029".
Definition ModuleDependencyIntegrity := "SHD2031".
Definition ModuleLicensePolicy := "SHD2032".
Definition ModuleVersionPolicy := "SHD2033".
Definition ModuleSbomReproducibility := "SHD2034".
Definition ModuleExternalRunUnsupported := "SHD2030".
Definition ParserSyntaxError := "SHD2001".
Definition ParserSourceLimitExceeded := "SHD2004".
Definition ParserTokenLimitExceeded := "SHD2005".
Definition ParserScannerBudgetExceeded := "SHD2006".
Definition ParserNestingLimitExceeded := "SHD2007".
Definition AIModelRedeclared := "SHD4001".
Definition AIModelInvalidFormat := "SHD4002".
Definition AIModelInvalidPrecision := "SHD4003".
Definition AIModelInvalidInputShape := "SHD4004".
Definition AIModelInvalidOutputShape := "SHD4005".
Definition AIModelMissingQualityGuardrail := "SHD4006".
Definition AIModelIncompatibleBackend := "SHD4007".
Definition AIModelMissingBackendPreference := "SHD4008".
Definition AIModelNoCompatibleBackend := "SHD4009".
Definition AITensorRedeclared := "SHD4010".
Definition AITensorInvalidShape := "SHD4011".
Definition AIInferUnknownModel := "SHD4012".
Definition AIInferUnknownInputTensor := "SHD4013".
Definition AIInferInputShapeMismatch := "SHD4014".
Definition AIInferOutputShapeMismatch := "SHD4015".
Definition AIInferImplicitOutput := "SHD4016".
Definition GreenAIMissingFunctionalUnit := "SHD5001".
Definition GreenAIMissingSuccessCriteria := "SHD5002".
Definition GreenAIMissingBoundary := "SHD5003".
Definition GreenAIMissingMeasurementOrDataQuality := "SHD5004".
Definition GreenAIInvalidCarbonFactor := "SHD5005".
Definition GreenAIMissingQualityGuardrail := "SHD5006".
Definition GreenAIInvalidClaimsMode := "SHD5007".
Definition GreenAIInvalidBudget := "SHD5008".
Definition GreenAIMeasureUnknownContract := "SHD5009".
Definition GreenAIMeasureExternalBackend := "SHD5010".
Definition C3EcoDuplicateDeclaration := "SHD5101".
Definition C3EcoMissingRequiredField := "SHD5102".
Definition C3EcoInvalidField := "SHD5103".
Definition C3EcoUnsafeCertificationClaim := "SHD5104".
Definition C3EcoInvalidTypedLiteral := "SHD5201".
Definition C3EcoInvalidDomainValue := "SHD5202".
Definition C3EcoValueOutOfRange := "SHD5203".
Definition C3EcoUnknownReference := "SHD5204".
Definition C3EcoReferenceKindMismatch := "SHD5205".
Definition C3EcoInvalidValidityWindow := "SHD5206".
Definition C3EcoMaterialityViolation := "SHD5207".
Definition C3EcoProfileIncomplete := "SHD5208".
Definition RuntimeArithmeticDomainError := "SHD7001".
Definition RuntimeArrayBounds := "SHD7002".
Definition RuntimeLoopStepZero := "SHD7003".
Definition RuntimeInvalidState := "SHD7004".
End Codes.

(** * The collector *)

Inductive Severity := Warning | Error.

#[export] Instance Severity_eq_dec : EqDecision Severity.
Proof. solve_decision. Defined.

Record DiagnosticRecord := {
  dr_severity : Severity; dr_code : string; dr_message : string; dr_range : SourceRange;
}.

Record Diagnostics := {
  source_file_ : string;
  source_lines_ : list string;
  records_ : list DiagnosticRecord;
  has_errors_ : bool;
  has_warnings_ : bool;
}.

Definition empty_diagnostics : Diagnostics :=
  {| source_file_ := ""; source_lines_ := []; records_ := []; has_errors_ := false; has_warnings_ := false |}.

(** [content] is what the file holds, read line by line. *)
Definition setSourceFile (path content : string) (d : Diagnostics) : Diagnostics :=
  {| source_file_ := path; source_lines_ := getline_split chr_newline content;
     records_ := records_ d; has_errors_ := has_errors_ d; has_warnings_ := has_warnings_ d |}.

Definition add (severity : Severity) (code message : string) (range : SourceRange) (d : Diagnostics) : Diagnostics :=
  {| source_file_ := source_file_ d; source_lines_ := source_lines_ d;
     records_ := records_ d ++ [{| dr_severity := severity; dr_code := code; dr_message := message; dr_range := range |}];
     has_errors_ := if decide (severity = Error) then true else has_errors_ d;
     has_warnings_ := if decide (severity = Warning) then true else has_warnings_ d |}.

Definition errorAtRange (range : SourceRange) (code message : string) : Diagnostics → Diagnostics :=
  add Error code message range.
Definition warningAtRange (range : SourceRange) (code message : string) : Diagnostics → Diagnostics :=
  add Warning code message range.

Definition errorAtNode (t : range_table) (n : option N) (code message : string) : Diagnostics → Diagnostics :=
  errorAtRange (shorthand_get_ast_source_range n t) code message.
Definition warningAtNode (t : range_table) (n : option N) (code message : string) : Diagnostics → Diagnostics :=
  warningAtRange (shorthand_get_ast_source_range n t) code message.

Definition hasErrors (d : Diagnostics) : bool := has_errors_ d.
Definition hasWarnings (d : Diagnostics) : bool := has_warnings_ d.
Definition hasDiagnostics (d : Diagnostics) : bool := negb (bool_decide (records_ d = [])).

(** ** Anchors found by searching the source text *)

Definition line_contains (l needle : string) : bool := negb (is_empty needle) && contains needle l.

Fixpoint first_non_space (i : Z) (l : string) : Z :=
  match l with
  | EmptyString => 1
  | String c r => if isspace c then first_non_space (i + 1) r else i + 1
  end.

Definition firstNonSpaceColumn (l : string) : Z := first_non_space 0 l.

Definition pointRange (ln col : Z) : SourceRange :=
  let p := {| line := ln; column := col; offset := 0 |} in {| begin_ := p; end_ := p |}.

Definition anchor_patterns (anchor_kind anchor_name : string) : list string :=
  if String.eqb anchor_kind "model" then ["model " +:+ anchor_name]
  else if String.eqb anchor_kind "tensor" then ["tensor " +:+ anchor_name]
  else if String.eqb anchor_kind "infer" then ["infer " +:+ anchor_name +:+ "("; "infer "]
  else if String.eqb anchor_kind "greenai_contract" then ["greenai_contract " +:+ anchor_name]
  else if String.eqb anchor_kind "greenai_measure" then ["greenai_measure " +:+ anchor_name]
  else if String.eqb anchor_kind "keyword" then [anchor_name]
  else [].

Fixpoint locate_in_lines (i : Z) (patterns lines : list string) : Z * Z :=
  match lines with
  | [] => (0, 0)
  | l :: rest =>
      if existsb (line_contains l) patterns then (i + 1, firstNonSpaceColumn l)
      else locate_in_lines (i + 1) patterns rest
  end.

Definition locateAnchor (anchor_kind anchor_name : string) (d : Diagnostics) : Z * Z :=
  locate_in_lines 0 (anchor_patterns anchor_kind anchor_name) (source_lines_ d).

Definition errorAt (anchor_kind anchor_name message : string) (d : Diagnostics) : Diagnostics :=
  let '(l, c) := locateAnchor anchor_kind anchor_name d in add Error "" message (pointRange l c) d.
Definition warningAt (anchor_kind anchor_name message : string) (d : Diagnostics) : Diagnostics :=
  let '(l, c) := locateAnchor anchor_kind anchor_name d in add Warning "" message (pointRange l c) d.

(** * Facts *)

(** Calls that add a diagnostic, in the order they are made. *)
Inductive report :=
| Report (severity : Severity) (code message : string) (range : SourceRange).

Definition apply_report (d : Diagnostics) (r : report) : Diagnostics :=
  match r with Report s c m g => add s c m g d end.

Definition flags_ok (d : Diagnostics) : Prop :=
  (has_errors_ d = true ↔ Exists (λ r, dr_severity r = Error) (records_ d)) ∧
  (has_warnings_ d = true ↔ Exists (λ r, dr_severity r = Warning) (records_ d)).

Lemma flags_ok_add s c m g d : flags_ok d → flags_ok (add s c m g d).
Proof.
  unfold flags_ok. simpl. rewrite !Exists_app, !Exists_cons, !Exists_nil; simpl.
  intros [He Hw]. destruct s; simpl; rewrite ?He, ?Hw; naive_solver.
Qed.

(** The summary flags are exact: after any sequence of reports on a new
    collector, an error is signalled exactly when a record of severity error
    was stored, a warning exactly when a warning was stored, and every report
    was stored, in order. *)
Theorem diagnostics_flags_exact (rs : list report) :
  let d := foldl apply_report empty_diagnostics rs in
  flags_ok d ∧
  records_ d = map (λ '(Report s c m g),
    {| dr_severity := s; dr_code := c; dr_message := m; dr_range := g |}) rs.
Proof.
  assert (∀ d0, flags_ok d0 →
    flags_ok (foldl apply_report d0 rs) ∧
    records_ (foldl apply_report d0 rs) = (records_ d0 ++ map (λ '(Report s c m g),
    {| dr_severity := s; dr_code := c; dr_message := m; dr_range := g |}) rs)%list) as H.
  { induction rs as [|[s c m g] rs IH]; intros d0 Hd; simpl; [by rewrite app_nil_r|].
    destruct (IH (add s c m g d0) (flags_ok_add _ _ _ _ _ Hd)) as [H1 H2]. split; [done|].
    rewrite H2. simpl. by rewrite <- app_assoc. }
  apply (H empty_diagnostics). split; simpl; rewrite Exists_nil; done.
Qed.

(** The range table only ever holds valid ranges, and what was stored for a
    node is what is read back until the node is erased. *)
Lemma range_table_valid n r t :
  map_Forall (λ _ r, range_valid r = true) t →
  map_Forall (λ _ r, range_valid r = true) (shorthand_set_ast_source_range n r t).
Proof.
  intros H. destruct n as [n|]; simpl; [|done].
  destruct (range_valid r) eqn:Hr; simpl; [|done]. by apply map_Forall_insert_2.
Qed.
