(* ===== verification/ParserGuard.v ===== *)
(** Component: the resource limits of the parser (parser/ParserLimits.h).

    The guard is one global object that the scanner and the compiler driver
    consult: it counts scanner matches, measures tokens and delimiters, and
    records the first limit that is exceeded.  The limits come from the
    environment, which can lower the production ceilings but not raise them;
    the environment is the argument [getenv].  The methods are computations of
    the total state monad over [ParserGuardState]. *)
From S2P Require Import Prelude CxxInt CxxString Diagnostics.
Open Scope string_scope.
Open Scope Z_scope.

(** * State *)

Record ParserLimits := {
  max_source_bytes : Z; max_scanner_matches : Z; max_token_bytes : Z; max_nesting_depth : Z;
}.

Definition MaxSourceBytes : Z := 4 * 1024 * 1024.
Definition MaxScannerMatches : Z := 250000.
Definition MaxTokenBytes : Z := 16 * 1024.
Definition MaxNestingDepth : Z := 256.

Record ParserGuardState := {
  limits : ParserLimits; scanner_matches : Z; nesting_depth : Z;
  failure_code : string; failure_message : string; emitted : bool;
}.

Definition fresh_guard : ParserGuardState :=
  {| limits := {| max_source_bytes := MaxSourceBytes; max_scanner_matches := MaxScannerMatches;
                  max_token_bytes := MaxTokenBytes; max_nesting_depth := MaxNestingDepth |};
     scanner_matches := 0; nesting_depth := 0; failure_code := ""; failure_message := ""; emitted := false |}.

Definition set_limits (l : ParserLimits) (g : ParserGuardState) : ParserGuardState :=
  {| limits := l; scanner_matches := scanner_matches g; nesting_depth := nesting_depth g;
     failure_code := failure_code g; failure_message := failure_message g; emitted := emitted g |}.
Definition set_scanner_matches (n : Z) (g : ParserGuardState) : ParserGuardState :=
  {| limits := limits g; scanner_matches := n; nesting_depth := nesting_depth g;
     failure_code := failure_code g; failure_message := failure_message g; emitted := emitted g |}.
Definition set_nesting_depth (n : Z) (g : ParserGuardState) : ParserGuardState :=
  {| limits := limits g; scanner_matches := scanner_matches g; nesting_depth := n;
     failure_code := failure_code g; failure_message := failure_message g; emitted := emitted g |}.
Definition set_failure (code message : string) (g : ParserGuardState) : ParserGuardState :=
  {| limits := limits g; scanner_matches := scanner_matches g; nesting_depth := nesting_depth g;
     failure_code := code; failure_message := message; emitted := emitted g |}.
Definition set_emitted (b : bool) (g : ParserGuardState) : ParserGuardState :=
  {| limits := limits g; scanner_matches := scanner_matches g; nesting_depth := nesting_depth g;
     failure_code := failure_code g; failure_message := failure_message g; emitted := b |}.

Abbreviation Guard := (ST ParserGuardState).

(** * Operations *)

Section Operations.
(** The process environment: [None] for a variable that is not set. *)
Context (getenv : string → option string).

Definition lowerOnlyEnvironmentLimit (name : string) (production_ceiling : Z) : Z :=
  match getenv name with
  | None => production_ceiling
  | Some raw =>
      let raw := c_str raw in
      if is_empty raw then production_ceiling
      else
        let r := strtoull raw in
        if st_erange r || negb (st_converted r) || negb (is_empty (st_rest r)) || (st_value r =? 0)
        then production_ceiling
        else Z.min (st_value r) production_ceiling
  end.

Definition limitMessage (subject : string) (observed maximum : Z) : string :=
  subject +:+ " " +:+ pretty observed +:+ " exceeds maximum " +:+ pretty maximum.

Definition environment_limits : ParserLimits :=
  {| max_source_bytes := lowerOnlyEnvironmentLimit "SHORTHAND_MAX_SOURCE_BYTES" MaxSourceBytes;
     max_scanner_matches := lowerOnlyEnvironmentLimit "SHORTHAND_MAX_SCANNER_MATCHES" MaxScannerMatches;
     max_token_bytes := lowerOnlyEnvironmentLimit "SHORTHAND_MAX_TOKEN_BYTES" MaxTokenBytes;
     max_nesting_depth := lowerOnlyEnvironmentLimit "SHORTHAND_MAX_NESTING_DEPTH" MaxNestingDepth |}.

Definition resetParserGuard : Guard unit := update (λ _, set_limits environment_limits fresh_guard).

Definition currentParserLimits : Guard ParserLimits := reads limits.

(** The first failure is kept; [code] is never null here. *)
Definition recordParserGuardFailure (code message : string) : Guard unit :=
  update (λ g, if is_empty (failure_code g) then set_failure code message g else g).

Definition hasParserGuardFailure : Guard bool := reads (λ g, negb (is_empty (failure_code g))).

Definition validateSourceBytes (source_bytes : Z) : Guard bool :=
  let ceiling := lowerOnlyEnvironmentLimit "SHORTHAND_MAX_SOURCE_BYTES" MaxSourceBytes in
  update (λ g, set_limits {| max_source_bytes := ceiling; max_scanner_matches := max_scanner_matches (limits g);
                             max_token_bytes := max_token_bytes (limits g);
                             max_nesting_depth := max_nesting_depth (limits g) |} g);;
  if source_bytes <=? ceiling then mret true
  else
    recordParserGuardFailure Codes.ParserSourceLimitExceeded (limitMessage "source bytes" source_bytes ceiling);;
    mret false.

Definition noteScannerMatch (token_bytes : Z) : Guard bool :=
  failed ← hasParserGuardFailure;
  if (failed : bool) then mret false
  else
    update (λ g, set_scanner_matches (u64 (scanner_matches g + 1)) g);;
    g ← reads id;
    if scanner_matches g <=? max_scanner_matches (limits g) then mret true
    else
      recordParserGuardFailure Codes.ParserScannerBudgetExceeded
        (limitMessage "scanner matches" (scanner_matches g) (max_scanner_matches (limits g)));;
      mret false.

Definition noteTokenBytes (token_bytes : Z) : Guard bool :=
  failed ← hasParserGuardFailure;
  if (failed : bool) then mret false
  else
    g ← reads id;
    if token_bytes <=? max_token_bytes (limits g) then mret true
    else
      recordParserGuardFailure Codes.ParserTokenLimitExceeded
        (limitMessage "token bytes" token_bytes (max_token_bytes (limits g)));;
      mret false.

Definition enterDelimiter : Guard bool :=
  failed ← hasParserGuardFailure;
  if (failed : bool) then mret false
  else
    g ← reads id;
    if max_nesting_depth (limits g) <=? nesting_depth g then
      recordParserGuardFailure Codes.ParserNestingLimitExceeded
        (limitMessage "delimiter nesting depth" (u64 (nesting_depth g + 1)) (max_nesting_depth (limits g)));;
      mret false
    else
      update (λ g, set_nesting_depth (u64 (nesting_depth g + 1)) g);;
      mret true.

Definition leaveDelimiter : Guard unit :=
  update (λ g, if 0 <? nesting_depth g then set_nesting_depth (nesting_depth g - 1) g else g).

Definition parserGuardFailureCode (g : ParserGuardState) : string :=
  if is_empty (failure_code g) then Codes.ParserSyntaxError else failure_code g.

Definition parserGuardFailureMessage (g : ParserGuardState) : string :=
  if is_empty (failure_message g) then "parser guard failure" else failure_message g.

(** The lines written on standard error. *)
Definition emitParserGuardFailure (source_path : option string) (first_line first_column last_line last_column : Z)
    : Guard (list string) :=
  g ← reads id;
  if emitted g || is_empty (failure_code g) then mret []
  else
    update (set_emitted true);;
    mret ["----------------ERROR----------------";
          default "<input>" source_path +:+ ":" +:+ pretty first_line +:+ ":" +:+ pretty first_column +:+
          ": error: [" +:+ parserGuardFailureCode g +:+ "] " +:+ parserGuardFailureMessage g +:+
          " [range " +:+ pretty first_line +:+ ":" +:+ pretty first_column +:+ "-" +:+
          pretty last_line +:+ ":" +:+ pretty last_column +:+ "]"].

(** * Runs of the scanner *)

(** The calls of the driver (source size) and of the scanner actions. *)
Inductive event :=
| Source (bytes : Z) | Match (bytes : Z) | Token (bytes : Z) | Open | Close
| Emit (source_path : option string) (first_line first_column last_line last_column : Z).

(** The answer is [true] when the caller may go on. *)
Definition perform (e : event) : Guard bool :=
  match e with
  | Source b => validateSourceBytes b
  | Match b => noteScannerMatch b
  | Token b => noteTokenBytes b
  | Open => enterDelimiter
  | Close => leaveDelimiter;; mret true
  | Emit p a b c d => emitParserGuardFailure p a b c d;; mret true
  end.

Definition guard_after (es : list event) : ParserGuardState :=
  foldl (λ g e, (perform e g).2) (resetParserGuard fresh_guard).2 es.
End Operations.

(** * What the guard promises *)

(** Scanner matches and open delimiters in a run; a closing delimiter too many
    is not counted. *)
Definition matches (es : list event) : Z :=
  foldl (λ n e, match e with Match _ => n + 1 | _ => n end) 0 es.

Definition depth (es : list event) : Z :=
  foldl (λ n e, match e with Open => n + 1 | Close => Z.max 0 (n - 1) | _ => n end) 0 es.

(** The limit that an event exceeds after the events [before]. *)
Definition violation (L : ParserLimits) (before : list event) (e : event) : option string :=
  match e with
  | Source b => if max_source_bytes L <? b then Some Codes.ParserSourceLimitExceeded else None
  | Match _ => if max_scanner_matches L <? matches before + 1 then Some Codes.ParserScannerBudgetExceeded else None
  | Token b => if max_token_bytes L <? b then Some Codes.ParserTokenLimitExceeded else None
  | Open => if max_nesting_depth L <? depth before + 1 then Some Codes.ParserNestingLimitExceeded else None
  | Close | Emit _ _ _ _ _ => None
  end.

Fixpoint first_violation (L : ParserLimits) (before es : list event) : option string :=
  match es with
  | [] => None
  | e :: rest =>
      match violation L before e with
      | Some code => Some code
      | None => first_violation L (before ++ [e]) rest
      end
  end.

Section Facts.
Context (getenv : string → option string).
#[local] Notation L := (environment_limits getenv).
#[local] Arguments environment_limits : simpl never.

Lemma lower_only name ceiling : 0 < ceiling → 0 < lowerOnlyEnvironmentLimit getenv name ceiling ≤ ceiling.
Proof.
  intros Hc. unfold lowerOnlyEnvironmentLimit. destruct (getenv name) as [raw|]; [|lia].
  destruct (is_empty _); [lia|]. pose proof (strtoull_range (c_str raw)) as Hr.
  destruct (_ || _ || _ || _) eqn:Ho; [lia|]. apply orb_false_iff in Ho as [_ Hz%Z.eqb_neq].
  unfold is_size in Hr. lia.
Qed.

Lemma limits_small :
  0 < max_source_bytes L ≤ MaxSourceBytes ∧ 0 < max_scanner_matches L ≤ MaxScannerMatches ∧
  0 < max_token_bytes L ≤ MaxTokenBytes ∧ 0 < max_nesting_depth L ≤ MaxNestingDepth.
Proof. split_and!; by apply lower_only. Qed.

(** While nothing has been exceeded the counters are the counts of the run. *)
Record counting (before : list event) (g : ParserGuardState) : Prop := {
  counting_limits : limits g = L;
  counting_code : failure_code g = "";
  counting_matches : scanner_matches g = matches before;
  counting_depth : nesting_depth g = depth before;
  counting_bounds : 0 ≤ matches before ≤ max_scanner_matches L ∧ 0 ≤ depth before ≤ max_nesting_depth L;
}.

Lemma matches_app es e : matches (es ++ [e]) = match e with Match _ => matches es + 1 | _ => matches es end.
Proof. unfold matches. by rewrite foldl_app. Qed.

Lemma depth_app es e :
  depth (es ++ [e]) =
  match e with Open => depth es + 1 | Close => Z.max 0 (depth es - 1) | _ => depth es end.
Proof. unfold depth. by rewrite foldl_app. Qed.

(** One event: it is refused and recorded, or it is counted. *)
Lemma perform_counting before e g :
  counting before g →
  match violation L before e with
  | Some code => failure_code (perform getenv e g).2 = code ∧ (perform getenv e g).1 = false
  | None => counting (before ++ [e]) (perform getenv e g).2 ∧ (perform getenv e g).1 = true
  end.
Proof.
  intros [Hl Hc Hm Hd Hb]. pose proof limits_small as (_ & Hsm & _ & Hsd).
  assert (lowerOnlyEnvironmentLimit getenv "SHORTHAND_MAX_SOURCE_BYTES" MaxSourceBytes = max_source_bytes L) as Hsrc
    by reflexivity.
  unfold MaxScannerMatches, MaxNestingDepth in *.
  destruct g as [gl gm gd gc gt ge]. simpl in Hl, Hc, Hm, Hd. subst gl gc gm gd.
  remember L as K eqn:HK.
  assert (matches before < 2 ^ 64 - 1 ∧ depth before < 2 ^ 64 - 1) as [Hbm Hbd] by lia.
  destruct e; simpl.
  - unfold validateSourceBytes, mbind, ST_bind. simpl. rewrite Hsrc, Z.ltb_antisym. destruct (bytes <=? max_source_bytes K); simpl; [|done].
    split; [|done]. split; rewrite <- ?HK; simpl; rewrite ?matches_app, ?depth_app; try done.
    by destruct K.
  - unfold noteScannerMatch, mbind, ST_bind. simpl. rewrite u64_id by (unfold is_size, SIZE_MAX; lia).
    rewrite Z.ltb_antisym. destruct (Z.leb_spec (matches before + 1) (max_scanner_matches K)); simpl; [|done].
    split; [|done]. split; rewrite <- ?HK; simpl; rewrite ?matches_app, ?depth_app; try done. lia.
  - unfold noteTokenBytes, mbind, ST_bind. simpl.
    rewrite Z.ltb_antisym. destruct (bytes <=? max_token_bytes K); simpl; [|done].
    split; [|done]. split; rewrite <- ?HK; simpl; rewrite ?matches_app, ?depth_app; done.
  - unfold enterDelimiter, mbind, ST_bind. simpl.
    destruct (Z.leb_spec (max_nesting_depth K) (depth before)), (Z.ltb_spec (max_nesting_depth K) (depth before + 1));
      try lia; simpl; [done|].
    split; [|done]. split; rewrite <- ?HK; simpl; rewrite ?matches_app, ?depth_app; try done; [|lia].
    apply u64_id. unfold is_size, SIZE_MAX. lia.
  - destruct (Z.ltb_spec 0 (depth before)); (split; [|done]; split; rewrite <- ?HK; simpl; rewrite ?matches_app, ?depth_app; try done; lia).
  - unfold emitParserGuardFailure, mbind, ST_bind. simpl. rewrite orb_true_r. simpl.
    split; [|done]. split; rewrite <- ?HK; simpl; rewrite ?matches_app, ?depth_app; done.
Qed.

(** A recorded failure stays, and the scanner is refused from then on. *)
Lemma perform_failed e g :
  failure_code g ≠ "" →
  failure_code (perform getenv e g).2 = failure_code g ∧
  failure_message (perform getenv e g).2 = failure_message g ∧
  (match e with Match _ | Token _ | Open => (perform getenv e g).1 = false | _ => True end).
Proof.
  intros Hf. assert (is_empty (failure_code g) = false) as He by by destruct (failure_code g).
  destruct e; simpl; unfold validateSourceBytes, noteScannerMatch, noteTokenBytes, enterDelimiter,
    emitParserGuardFailure, mbind, ST_bind; simpl; rewrite ?He; simpl; try done.
  - by destruct (_ <=? _); simpl; rewrite ?He.
  - by destruct (0 <? nesting_depth g).
  - by destruct (emitted g); simpl; rewrite ?He.
Qed.

Lemma failed_for_good es g :
  failure_code g ≠ "" → failure_code (foldl (λ g e, (perform getenv e g).2) g es) = failure_code g.
Proof.
  revert g. induction es as [|e es IH]; intros g Hf; simpl; [done|].
  destruct (perform_failed e g Hf) as (Hc & _). rewrite IH; [done|]. by rewrite Hc.
Qed.

Lemma violation_code before e code : violation L before e = Some code → code ≠ "".
Proof. destruct e; simpl; repeat case_match; intros; by simplify_eq. Qed.

Lemma run_counting es : ∀ before g,
  counting before g →
  match first_violation L before es with
  | Some code => failure_code (foldl (λ g e, (perform getenv e g).2) g es) = code
  | None => counting (before ++ es) (foldl (λ g e, (perform getenv e g).2) g es)
  end.
Proof.
  induction es as [|e es IH]; intros before g Hg; simpl; [by rewrite app_nil_r|].
  pose proof (perform_counting before e g Hg) as Hp. destruct (violation L before e) as [code|] eqn:Hv.
  - destruct Hp as [Hc _]. rewrite failed_for_good; rewrite Hc; [done|]. by eapply violation_code.
  - destruct Hp as [Hc _]. specialize (IH _ _ Hc). by rewrite <- app_assoc in IH.
Qed.

Lemma reset_counting : counting [] (resetParserGuard getenv fresh_guard).2.
Proof. pose proof limits_small as (_ & ? & _ & ?). split; try done. change (matches []) with 0. change (depth []) with 0. lia. Qed.

Lemma perform_limits e g : limits g = L → limits (perform getenv e g).2 = L.
Proof.
  intros Hl. destruct e; simpl; unfold validateSourceBytes, noteScannerMatch, noteTokenBytes, enterDelimiter,
    emitParserGuardFailure, recordParserGuardFailure, mbind, ST_bind; simpl.
  - rewrite Hl. by destruct (_ <=? _); simpl; [|destruct (is_empty _)].
  - destruct (negb _); [done|]. simpl. destruct (_ <=? _); simpl; [done|]. by destruct (is_empty _).
  - destruct (negb _); [done|]. simpl. destruct (_ <=? _); simpl; [done|]. by destruct (is_empty _).
  - destruct (negb _); [done|]. simpl. destruct (_ <=? _); simpl; [|done]. by destruct (is_empty _).
  - by destruct (0 <? nesting_depth g).
  - by destruct (_ || _).
Qed.
End Facts.

(** * Properties *)

(** The guard stops the parser at the first limit that is exceeded.  After
    a reset, for every environment and every sequence of calls, the recorded
    failure is that of the first event that exceeds a limit (source size, number
    of scanner matches, token length, open delimiters); when no event does, there
    is no failure and the counters are the number of matches and of open
    delimiters, both inside their limits. *)
Theorem guard_records_first_violation getenv es :
  let g := guard_after getenv es in
  let L := environment_limits getenv in
  match first_violation L [] es with
  | Some code => failure_code g = code
  | None =>
      failure_code g = "" ∧ scanner_matches g = matches es ∧ nesting_depth g = depth es ∧
      matches es ≤ max_scanner_matches L ∧ depth es ≤ max_nesting_depth L
  end.
Proof.
  pose proof (run_counting getenv es [] _ (reset_counting getenv)) as Hr. simpl in *. unfold guard_after.
  destruct (first_violation _ _ _); [done|]. destruct Hr as [_ ? ? ? Hb]. simpl in *. split_and!; try done; apply Hb.
Qed.

(** The environment can only lower the limits: whatever the variables hold,
    and whatever calls follow the reset, the limits in force are positive and at
    most the production ceilings. *)
Theorem environment_only_lowers_limits getenv es :
  let L := limits (guard_after getenv es) in
  0 < max_source_bytes L ≤ MaxSourceBytes ∧ 0 < max_scanner_matches L ≤ MaxScannerMatches ∧
  0 < max_token_bytes L ≤ MaxTokenBytes ∧ 0 < max_nesting_depth L ≤ MaxNestingDepth.
Proof.
  assert (limits (guard_after getenv es) = environment_limits getenv) as ->; [|apply limits_small].
  unfold guard_after. induction es as [|e es IH] using rev_ind; [done|].
  rewrite foldl_app. by apply perform_limits.
Qed.

(** A failure is final: once a limit has been exceeded, no later call
    changes the recorded code and message, and every later match, token and
    opening delimiter is refused, until the next reset. *)
Theorem guard_failure_is_final getenv es e :
  failure_code (guard_after getenv es) ≠ "" →
  let g := guard_after getenv es in
  let g' := guard_after getenv (es ++ [e]) in
  failure_code g' = failure_code g ∧ failure_message g' = failure_message g ∧
  (match e with Match _ | Token _ | Open => (perform getenv e g).1 = false | _ => True end).
Proof.
  intros Hf g g'. unfold g', guard_after. rewrite foldl_app. simpl. by apply perform_failed.
Qed.

Lemma guard_failure_is_final_witness :
  let getenv name := if String.eqb name "SHORTHAND_MAX_NESTING_DEPTH" then Some "1" else None in
  failure_code (guard_after getenv [Open; Open]) = Codes.ParserNestingLimitExceeded ∧
  failure_code (guard_after getenv [Open; Open; Token 20000]) = Codes.ParserNestingLimitExceeded.
Proof.
  intros getenv. split; [vm_compute; reflexivity|].
  assert (failure_code (guard_after getenv [Open; Open]) ≠ "") as Hf by (vm_compute; discriminate).
  destruct (guard_failure_is_final getenv [Open; Open] (Token 20000) Hf) as (Hc & _ & _).
  transitivity (failure_code (guard_after getenv [Open; Open])); [exact Hc|vm_compute; reflexivity].
Defined.
