(* ===== verification/AnalyzerState.v ===== *)
(** Component: the state of semantic analysis (visitors/SemanticAnalyzer.h) and
    the operations of the analyser that every visit uses: the diagnostics at a
    node, the lookups of names and types, and the static tables of a program.

    The object is the record [SemanticAnalyzer] and a method is a computation
    of the state monad [SA].  The vectors used as stacks ([local_scopes],
    [block_label_scopes], [return_types]) keep the back of the C++ vector at
    the head of the list.  The table of source ranges is the one the parser
    filled. *)
From S2P Require Import Prelude CxxInt CxxString CxxFloat TypeSystem Ast AiTypes Diagnostics.
Open Scope string_scope.
Open Scope Z_scope.

(** * State *)

Record FunctionSignature := { return_type : ShortType; parameter_types : list ShortType }.

Record VariableInfo := { vi_type : ShortType; is_array : bool }.

Record SemanticAnalyzer := {
  diagnostics : Diagnostics;
  models : gmap string ModelDeclarationData;
  tensors : gmap string TensorDeclarationData;
  contracts : gmap string GreenAIContractData;
  c3eco_declarations : gset string;
  c3eco_profile_nodes : list (N * C3EcoDeclarationData);
  functions_ : gset string;
  function_arity : gmap string Z;
  imported_functions : gset string;
  globals : gset string;
  global_types : gmap string ShortType;
  global_array_types : gmap string ShortType;
  local_scopes : list (gmap string VariableInfo);
  block_label_scopes : list (gset string);
  function_return_types : gmap string ShortType;
  function_parameter_types : gmap string (list ShortType);
  return_types : list ShortType;
  allow_external_function_calls : bool;
  loopDepth : Z;
  ranges : range_table;
}.

Definition set_diagnostics (v : Diagnostics) (a : SemanticAnalyzer) : SemanticAnalyzer :=
  {| diagnostics := v; models := models a; tensors := tensors a; contracts := contracts a;
     c3eco_declarations := c3eco_declarations a; c3eco_profile_nodes := c3eco_profile_nodes a;
     functions_ := functions_ a; function_arity := function_arity a; imported_functions :=
     imported_functions a; globals := globals a; global_types := global_types a; global_array_types
     := global_array_types a; local_scopes := local_scopes a; block_label_scopes :=
     block_label_scopes a; function_return_types := function_return_types a; function_parameter_types
     := function_parameter_types a; return_types := return_types a; allow_external_function_calls :=
     allow_external_function_calls a; loopDepth := loopDepth a; ranges := ranges a |}.

Definition set_models (v : gmap string ModelDeclarationData) (a : SemanticAnalyzer) : SemanticAnalyzer :=
  {| diagnostics := diagnostics a; models := v; tensors := tensors a; contracts := contracts a;
     c3eco_declarations := c3eco_declarations a; c3eco_profile_nodes := c3eco_profile_nodes a;
     functions_ := functions_ a; function_arity := function_arity a; imported_functions :=
     imported_functions a; globals := globals a; global_types := global_types a; global_array_types
     := global_array_types a; local_scopes := local_scopes a; block_label_scopes :=
     block_label_scopes a; function_return_types := function_return_types a; function_parameter_types
     := function_parameter_types a; return_types := return_types a; allow_external_function_calls :=
     allow_external_function_calls a; loopDepth := loopDepth a; ranges := ranges a |}.

Definition set_tensors (v : gmap string TensorDeclarationData) (a : SemanticAnalyzer) : SemanticAnalyzer :=
  {| diagnostics := diagnostics a; models := models a; tensors := v; contracts := contracts a;
     c3eco_declarations := c3eco_declarations a; c3eco_profile_nodes := c3eco_profile_nodes a;
     functions_ := functions_ a; function_arity := function_arity a; imported_functions :=
     imported_functions a; globals := globals a; global_types := global_types a; global_array_types
     := global_array_types a; local_scopes := local_scopes a; block_label_scopes :=
     block_label_scopes a; function_return_types := function_return_types a; function_parameter_types
     := function_parameter_types a; return_types := return_types a; allow_external_function_calls :=
     allow_external_function_calls a; loopDepth := loopDepth a; ranges := ranges a |}.

Definition set_contracts (v : gmap string GreenAIContractData) (a : SemanticAnalyzer) : SemanticAnalyzer :=
  {| diagnostics := diagnostics a; models := models a; tensors := tensors a; contracts := v;
     c3eco_declarations := c3eco_declarations a; c3eco_profile_nodes := c3eco_profile_nodes a;
     functions_ := functions_ a; function_arity := function_arity a; imported_functions :=
     imported_functions a; globals := globals a; global_types := global_types a; global_array_types
     := global_array_types a; local_scopes := local_scopes a; block_label_scopes :=
     block_label_scopes a; function_return_types := function_return_types a; function_parameter_types
     := function_parameter_types a; return_types := return_types a; allow_external_function_calls :=
     allow_external_function_calls a; loopDepth := loopDepth a; ranges := ranges a |}.

Definition set_c3eco_declarations (v : gset string) (a : SemanticAnalyzer) : SemanticAnalyzer :=
  {| diagnostics := diagnostics a; models := models a; tensors := tensors a; contracts := contracts
     a; c3eco_declarations := v; c3eco_profile_nodes := c3eco_profile_nodes a; functions_ :=
     functions_ a; function_arity := function_arity a; imported_functions := imported_functions a;
     globals := globals a; global_types := global_types a; global_array_types := global_array_types
     a; local_scopes := local_scopes a; block_label_scopes := block_label_scopes a;
     function_return_types := function_return_types a; function_parameter_types :=
     function_parameter_types a; return_types := return_types a; allow_external_function_calls :=
     allow_external_function_calls a; loopDepth := loopDepth a; ranges := ranges a |}.

Definition set_c3eco_profile_nodes (v : list (N * C3EcoDeclarationData)) (a : SemanticAnalyzer) : SemanticAnalyzer :=
  {| diagnostics := diagnostics a; models := models a; tensors := tensors a; contracts := contracts
     a; c3eco_declarations := c3eco_declarations a; c3eco_profile_nodes := v; functions_ :=
     functions_ a; function_arity := function_arity a; imported_functions := imported_functions a;
     globals := globals a; global_types := global_types a; global_array_types := global_array_types
     a; local_scopes := local_scopes a; block_label_scopes := block_label_scopes a;
     function_return_types := function_return_types a; function_parameter_types :=
     function_parameter_types a; return_types := return_types a; allow_external_function_calls :=
     allow_external_function_calls a; loopDepth := loopDepth a; ranges := ranges a |}.

Definition set_functions_ (v : gset string) (a : SemanticAnalyzer) : SemanticAnalyzer :=
  {| diagnostics := diagnostics a; models := models a; tensors := tensors a; contracts := contracts
     a; c3eco_declarations := c3eco_declarations a; c3eco_profile_nodes := c3eco_profile_nodes a;
     functions_ := v; function_arity := function_arity a; imported_functions := imported_functions a;
     globals := globals a; global_types := global_types a; global_array_types := global_array_types
     a; local_scopes := local_scopes a; block_label_scopes := block_label_scopes a;
     function_return_types := function_return_types a; function_parameter_types :=
     function_parameter_types a; return_types := return_types a; allow_external_function_calls :=
     allow_external_function_calls a; loopDepth := loopDepth a; ranges := ranges a |}.

Definition set_function_arity (v : gmap string Z) (a : SemanticAnalyzer) : SemanticAnalyzer :=
  {| diagnostics := diagnostics a; models := models a; tensors := tensors a; contracts := contracts
     a; c3eco_declarations := c3eco_declarations a; c3eco_profile_nodes := c3eco_profile_nodes a;
     functions_ := functions_ a; function_arity := v; imported_functions := imported_functions a;
     globals := globals a; global_types := global_types a; global_array_types := global_array_types
     a; local_scopes := local_scopes a; block_label_scopes := block_label_scopes a;
     function_return_types := function_return_types a; function_parameter_types :=
     function_parameter_types a; return_types := return_types a; allow_external_function_calls :=
     allow_external_function_calls a; loopDepth := loopDepth a; ranges := ranges a |}.

Definition set_imported_functions (v : gset string) (a : SemanticAnalyzer) : SemanticAnalyzer :=
  {| diagnostics := diagnostics a; models := models a; tensors := tensors a; contracts := contracts
     a; c3eco_declarations := c3eco_declarations a; c3eco_profile_nodes := c3eco_profile_nodes a;
     functions_ := functions_ a; function_arity := function_arity a; imported_functions := v; globals
     := globals a; global_types := global_types a; global_array_types := global_array_types a;
     local_scopes := local_scopes a; block_label_scopes := block_label_scopes a;
     function_return_types := function_return_types a; function_parameter_types :=
     function_parameter_types a; return_types := return_types a; allow_external_function_calls :=
     allow_external_function_calls a; loopDepth := loopDepth a; ranges := ranges a |}.

Definition set_globals (v : gset string) (a : SemanticAnalyzer) : SemanticAnalyzer :=
  {| diagnostics := diagnostics a; models := models a; tensors := tensors a; contracts := contracts
     a; c3eco_declarations := c3eco_declarations a; c3eco_profile_nodes := c3eco_profile_nodes a;
     functions_ := functions_ a; function_arity := function_arity a; imported_functions :=
     imported_functions a; globals := v; global_types := global_types a; global_array_types :=
     global_array_types a; local_scopes := local_scopes a; block_label_scopes := block_label_scopes
     a; function_return_types := function_return_types a; function_parameter_types :=
     function_parameter_types a; return_types := return_types a; allow_external_function_calls :=
     allow_external_function_calls a; loopDepth := loopDepth a; ranges := ranges a |}.

Definition set_global_types (v : gmap string ShortType) (a : SemanticAnalyzer) : SemanticAnalyzer :=
  {| diagnostics := diagnostics a; models := models a; tensors := tensors a; contracts := contracts
     a; c3eco_declarations := c3eco_declarations a; c3eco_profile_nodes := c3eco_profile_nodes a;
     functions_ := functions_ a; function_arity := function_arity a; imported_functions :=
     imported_functions a; globals := globals a; global_types := v; global_array_types :=
     global_array_types a; local_scopes := local_scopes a; block_label_scopes := block_label_scopes
     a; function_return_types := function_return_types a; function_parameter_types :=
     function_parameter_types a; return_types := return_types a; allow_external_function_calls :=
     allow_external_function_calls a; loopDepth := loopDepth a; ranges := ranges a |}.

Definition set_global_array_types (v : gmap string ShortType) (a : SemanticAnalyzer) : SemanticAnalyzer :=
  {| diagnostics := diagnostics a; models := models a; tensors := tensors a; contracts := contracts
     a; c3eco_declarations := c3eco_declarations a; c3eco_profile_nodes := c3eco_profile_nodes a;
     functions_ := functions_ a; function_arity := function_arity a; imported_functions :=
     imported_functions a; globals := globals a; global_types := global_types a; global_array_types
     := v; local_scopes := local_scopes a; block_label_scopes := block_label_scopes a;
     function_return_types := function_return_types a; function_parameter_types :=
     function_parameter_types a; return_types := return_types a; allow_external_function_calls :=
     allow_external_function_calls a; loopDepth := loopDepth a; ranges := ranges a |}.

Definition set_local_scopes (v : list (gmap string VariableInfo)) (a : SemanticAnalyzer) : SemanticAnalyzer :=
  {| diagnostics := diagnostics a; models := models a; tensors := tensors a; contracts := contracts
     a; c3eco_declarations := c3eco_declarations a; c3eco_profile_nodes := c3eco_profile_nodes a;
     functions_ := functions_ a; function_arity := function_arity a; imported_functions :=
     imported_functions a; globals := globals a; global_types := global_types a; global_array_types
     := global_array_types a; local_scopes := v; block_label_scopes := block_label_scopes a;
     function_return_types := function_return_types a; function_parameter_types :=
     function_parameter_types a; return_types := return_types a; allow_external_function_calls :=
     allow_external_function_calls a; loopDepth := loopDepth a; ranges := ranges a |}.

Definition set_block_label_scopes (v : list (gset string)) (a : SemanticAnalyzer) : SemanticAnalyzer :=
  {| diagnostics := diagnostics a; models := models a; tensors := tensors a; contracts := contracts
     a; c3eco_declarations := c3eco_declarations a; c3eco_profile_nodes := c3eco_profile_nodes a;
     functions_ := functions_ a; function_arity := function_arity a; imported_functions :=
     imported_functions a; globals := globals a; global_types := global_types a; global_array_types
     := global_array_types a; local_scopes := local_scopes a; block_label_scopes := v;
     function_return_types := function_return_types a; function_parameter_types :=
     function_parameter_types a; return_types := return_types a; allow_external_function_calls :=
     allow_external_function_calls a; loopDepth := loopDepth a; ranges := ranges a |}.

Definition set_function_return_types (v : gmap string ShortType) (a : SemanticAnalyzer) : SemanticAnalyzer :=
  {| diagnostics := diagnostics a; models := models a; tensors := tensors a; contracts := contracts
     a; c3eco_declarations := c3eco_declarations a; c3eco_profile_nodes := c3eco_profile_nodes a;
     functions_ := functions_ a; function_arity := function_arity a; imported_functions :=
     imported_functions a; globals := globals a; global_types := global_types a; global_array_types
     := global_array_types a; local_scopes := local_scopes a; block_label_scopes :=
     block_label_scopes a; function_return_types := v; function_parameter_types :=
     function_parameter_types a; return_types := return_types a; allow_external_function_calls :=
     allow_external_function_calls a; loopDepth := loopDepth a; ranges := ranges a |}.

Definition set_function_parameter_types (v : gmap string (list ShortType)) (a : SemanticAnalyzer) : SemanticAnalyzer :=
  {| diagnostics := diagnostics a; models := models a; tensors := tensors a; contracts := contracts
     a; c3eco_declarations := c3eco_declarations a; c3eco_profile_nodes := c3eco_profile_nodes a;
     functions_ := functions_ a; function_arity := function_arity a; imported_functions :=
     imported_functions a; globals := globals a; global_types := global_types a; global_array_types
     := global_array_types a; local_scopes := local_scopes a; block_label_scopes :=
     block_label_scopes a; function_return_types := function_return_types a; function_parameter_types
     := v; return_types := return_types a; allow_external_function_calls :=
     allow_external_function_calls a; loopDepth := loopDepth a; ranges := ranges a |}.

Definition set_return_types (v : list ShortType) (a : SemanticAnalyzer) : SemanticAnalyzer :=
  {| diagnostics := diagnostics a; models := models a; tensors := tensors a; contracts := contracts
     a; c3eco_declarations := c3eco_declarations a; c3eco_profile_nodes := c3eco_profile_nodes a;
     functions_ := functions_ a; function_arity := function_arity a; imported_functions :=
     imported_functions a; globals := globals a; global_types := global_types a; global_array_types
     := global_array_types a; local_scopes := local_scopes a; block_label_scopes :=
     block_label_scopes a; function_return_types := function_return_types a; function_parameter_types
     := function_parameter_types a; return_types := v; allow_external_function_calls :=
     allow_external_function_calls a; loopDepth := loopDepth a; ranges := ranges a |}.

Definition set_allow_external_function_calls (v : bool) (a : SemanticAnalyzer) : SemanticAnalyzer :=
  {| diagnostics := diagnostics a; models := models a; tensors := tensors a; contracts := contracts
     a; c3eco_declarations := c3eco_declarations a; c3eco_profile_nodes := c3eco_profile_nodes a;
     functions_ := functions_ a; function_arity := function_arity a; imported_functions :=
     imported_functions a; globals := globals a; global_types := global_types a; global_array_types
     := global_array_types a; local_scopes := local_scopes a; block_label_scopes :=
     block_label_scopes a; function_return_types := function_return_types a; function_parameter_types
     := function_parameter_types a; return_types := return_types a; allow_external_function_calls :=
     v; loopDepth := loopDepth a; ranges := ranges a |}.

Definition set_loopDepth (v : Z) (a : SemanticAnalyzer) : SemanticAnalyzer :=
  {| diagnostics := diagnostics a; models := models a; tensors := tensors a; contracts := contracts
     a; c3eco_declarations := c3eco_declarations a; c3eco_profile_nodes := c3eco_profile_nodes a;
     functions_ := functions_ a; function_arity := function_arity a; imported_functions :=
     imported_functions a; globals := globals a; global_types := global_types a; global_array_types
     := global_array_types a; local_scopes := local_scopes a; block_label_scopes :=
     block_label_scopes a; function_return_types := function_return_types a; function_parameter_types
     := function_parameter_types a; return_types := return_types a; allow_external_function_calls :=
     allow_external_function_calls a; loopDepth := v; ranges := ranges a |}.

Abbreviation SA := (ST SemanticAnalyzer).

(** A new analyser: no imported functions, external calls allowed. *)
Definition new_analyzer (t : range_table) : SemanticAnalyzer :=
  {| diagnostics := empty_diagnostics; models := ∅; tensors := ∅; contracts := ∅;
     c3eco_declarations := ∅; c3eco_profile_nodes := []; functions_ := ∅; function_arity := ∅;
     imported_functions := ∅; globals := ∅; global_types := ∅; global_array_types := ∅;
     local_scopes := []; block_label_scopes := []; function_return_types := ∅;
     function_parameter_types := ∅; return_types := []; allow_external_function_calls := true;
     loopDepth := 0; ranges := t |}.

(** [diagnostics.errorAtNode] and [diagnostics.warningAtNode] *)
Definition error_at (n : N) (code message : string) : SA unit :=
  update (λ a, set_diagnostics (errorAtNode (ranges a) (Some n) code message (diagnostics a)) a).

Definition warning_at (n : N) (code message : string) : SA unit :=
  update (λ a, set_diagnostics (warningAtNode (ranges a) (Some n) code message (diagnostics a)) a).

(** [if (condition) diagnostics.errorAtNode(...)] *)
Definition error_if (condition : bool) (n : N) (code message : string) : SA unit :=
  if condition then error_at n code message else mret tt.

(** [for (const auto &x : xs) body(x);] *)
Fixpoint for_each {A} (body : A → SA unit) (xs : list A) : SA unit :=
  match xs with
  | [] => mret tt
  | x :: rest => body x;; for_each body rest
  end.

(** * Static helpers *)

Definition validShape (s : string) : bool :=
  if String.eqb s "dynamic" then true else validateShape (parseShapeCsv s).

Definition shapeCompatible (modelShape tensorShape : string) : bool :=
  if is_empty modelShape || is_empty tensorShape then true
  else if String.eqb modelShape "dynamic" || String.eqb tensorShape "dynamic" then true
  else bool_decide (parseShapeCsv modelShape = parseShapeCsv tensorShape).

Definition backendCompatibleWithFormat (format : ModelFormat) (backend : BackendKind) : bool :=
  if bool_decide (backend = Fallback) then true
  else match format with
  | Onnx => bool_decide (backend = OnnxRuntimeCPU) || bool_decide (backend = OnnxRuntimeCUDA) ||
            bool_decide (backend = OnnxRuntimeTensorRT) || bool_decide (backend = TensorRT)
  | TensorRTEngine => bool_decide (backend = TensorRT) || bool_decide (backend = OnnxRuntimeTensorRT)
  | TorchScript => bool_decide (backend = LibTorch)
  | OpenVINOIR => bool_decide (backend = OpenVINO)
  | GGUF => bool_decide (backend = LlamaCpp)
  | FormatUnknown => false
  end.

Definition shortTypeName (type : ShortType) : string :=
  match type with
  | TInt => "int"
  | TBoolean => "bool"
  | TFloat => "float/double"
  | TString => "string"
  | TVoid => "void"
  end.

Definition productionTypeKind (type : ShortType) : Descriptors.TypeKind :=
  match type with
  | TInt => Descriptors.KInt32
  | TBoolean => Descriptors.KBool
  | TFloat => Descriptors.KFloat64
  | TString => Descriptors.KString
  | TVoid => Descriptors.KVoid
  end.

Definition isExecutableScalarType (type : ShortType) : bool :=
  bool_decide (type = TInt) || bool_decide (type = TBoolean) ||
  bool_decide (type = TFloat) || bool_decide (type = TString).

(** * Tables of a program *)

Definition functionNames (p : AST_PROGRAM) : gset string := list_to_set (map function_name (functions p)).

(** [single_ints.size() + array_ints.size()] *)
Definition parameter_count (d : AST_DATA_DECLARATION_BLOCK) : Z :=
  Z.of_nat (length (single_ints d)) + Z.of_nat (length (array_ints d)).

Definition parameter_type_list (d : AST_DATA_DECLARATION_BLOCK) : list ShortType :=
  (map ts_type (typed_scalars d) ++ map ta_type (typed_arrays d))%list.

Definition functionArities (p : AST_PROGRAM) : gmap string Z :=
  foldl (λ m f, <[function_name f := parameter_count (parameters f)]> m) ∅ (functions p).

Definition functionSignatures (p : AST_PROGRAM) : gmap string FunctionSignature :=
  foldl (λ m f, <[function_name f := {| return_type := fn_type f;
                                        parameter_types := parameter_type_list (parameters f) |}]> m)
    ∅ (functions p).

Definition globalNames (p : AST_PROGRAM) : gset string :=
  list_to_set (single_ints (decl_block p)) ∪ list_to_set (map fst (array_ints (decl_block p))).

(** The two overloads of [setImportedFunctions]. *)
Definition setImportedArities (arities : gmap string Z) (allow_external_calls : bool) : SA unit :=
  update (λ a,
    set_allow_external_function_calls allow_external_calls
      (set_function_arity (arities ∪ function_arity a)
         (set_functions_ (functions_ a ∪ dom arities)
            (set_imported_functions (dom arities) a)))).

Definition setImportedFunctions (signatures : gmap string FunctionSignature) (allow_external_calls : bool) : SA unit :=
  update (λ a,
    set_allow_external_function_calls allow_external_calls
      (set_function_parameter_types ((parameter_types <$> signatures) ∪ function_parameter_types a)
         (set_function_return_types ((return_type <$> signatures) ∪ function_return_types a)
            (set_function_arity (((λ s, Z.of_nat (length (parameter_types s))) <$> signatures) ∪ function_arity a)
               (set_functions_ (functions_ a ∪ dom signatures)
                  (set_imported_functions (dom signatures) a)))))).

(** * Names in scope *)

Definition isDeclared (name : string) (a : SemanticAnalyzer) : bool :=
  existsb (λ scope, bool_decide (name ∈ dom scope)) (local_scopes a) || bool_decide (name ∈ globals a).

Fixpoint lookup_scopes (name : string) (scopes : list (gmap string VariableInfo)) : option VariableInfo :=
  match scopes with
  | [] => None
  | scope :: rest =>
      match scope !! name with
      | Some found => Some found
      | None => lookup_scopes name rest
      end
  end.

(** The out-parameters [type] and [is_array], when the result is true. *)
Definition lookupType (name : string) (a : SemanticAnalyzer) : option VariableInfo :=
  match lookup_scopes name (local_scopes a) with
  | Some found => Some found
  | None =>
      match global_types a !! name with
      | Some t => Some {| vi_type := t; is_array := false |}
      | None =>
          match global_array_types a !! name with
          | Some t => Some {| vi_type := t; is_array := true |}
          | None => None
          end
      end
  end.
