(* ===== verification/C3EcoSemantics.v ===== *)
(** Component: the C3-ECO declarations of semantic analysis
    (visitors/SemanticAnalyzer.cpp: the [c3Eco*] helpers, the visit of a
    declaration, [validateC3EcoTypedDeclaration] and [validateC3EcoProfiles]).

    A declaration node is the pair of its address and its data. *)
From stdpp Require Import sorting.
From S2P Require Import Prelude CxxInt CxxString CxxFloat Ast Diagnostics AnalyzerState.
Open Scope string_scope.
Open Scope Z_scope.

(** * Tables of fields *)

(** A [std::set<std::string>] in iteration order. *)
Definition string_le (a b : string) : Prop := String.leb a b = true.
#[export] Instance string_le_dec a b : Decision (string_le a b).
Proof. unfold string_le. apply _. Defined.

Definition std_set (l : list string) : list string := merge_sort string_le (remove_dups l).

Definition count (name : string) (l : list string) : bool := bool_decide (name ∈ l).

Definition c3EcoRequiredFields (kind : C3EcoDeclarationKind) : list string :=
  std_set match kind with
  | CertificationProfile =>
      ["profile_version"; "certification"; "functional_unit"; "workload"; "boundary";
       "ai_lifecycle"; "guardrails"; "valid_from"; "valid_until"]
  | Certification =>
      ["version"; "owner"; "software_class"; "deployment_mode"; "geography"; "validity_period"]
  | FunctionalUnit => ["denominator"; "success_condition"; "quality_threshold"]
  | Workload => ["traffic_profile"; "batch_size"; "concurrency"; "warmup_runs"; "measured_runs"; "cache_state"]
  | Boundary => ["include"]
  | MeasurementPlan => ["instrument"; "carbon_factor"; "sampling"; "uncertainty"; "retention"]
  | AILifecycle =>
      ["role"; "model_provider"; "lifecycle_scope"; "training_included"; "fine_tuning_included"; "evaluation_included"]
  | RAGPipeline => ["embedding_model"; "vector_db"; "retrieval_top_k"; "cache_policy"]
  | TokenBudget => ["input_tokens_p95"; "output_tokens_p95"; "cache_hit_rate_min_percent"]
  | ModelRouting => ["route"; "fallback"]
  | Guardrails =>
      ["functional_tests"; "accuracy"; "p95_latency_ms"; "error_rate_percent"; "security_scan"; "accessibility";
       "privacy_telemetry"]
  end.

Definition c3EcoAllowedFields (kind : C3EcoDeclarationKind) : list string :=
  (c3EcoRequiredFields kind ++
   match kind with
   | Certification => ["release_date"; "cloud_region"]
   | FunctionalUnit => ["unit"; "quality_metric"; "latency_slo_ms"; "error_rate_slo_percent"]
   | Boundary =>
       ["exclude"; "evidence"; "exclusion_reason"; "exclusion_materiality_percent";
        "materiality_threshold_percent"; "opaque_provider_treatment"]
   | _ => []
   end)%list.

Definition c3EcoHasField (data : C3EcoDeclarationData) (name : string) : bool :=
  existsb (λ f, String.eqb (cf_name f) name) (cd_fields data).

Definition append_value (text : string) (v : C3EcoValueData) : string :=
  (if is_empty text then text else text +:+ " ") +:+ cv_text v.

Definition c3EcoFieldText (data : C3EcoDeclarationData) (name : string) : string :=
  foldl (λ text f, if String.eqb (cf_name f) name then foldl append_value text (cf_values f) else text)
    "" (cd_fields data).

Definition c3EcoField (data : C3EcoDeclarationData) (name : string) : option C3EcoFieldData :=
  List.find (λ f, String.eqb (cf_name f) name) (cd_fields data).

(** * Literals *)

Definition c3EcoParseInteger (text : string) : option Z :=
  if is_empty text then None
  else let r := strtoll (c_str text) in
  if st_erange r || negb (st_converted r) || negb (is_empty (st_rest r)) then None else Some (st_value r).

Definition c3EcoParseDecimal (text : string) : option double :=
  if is_empty text then None
  else match strtod (c_str text) with
  | None => None
  | Some r =>
      if sd_erange r || negb (is_empty (sd_rest r)) || negb (isfinite (sd_value r)) then None
      else Some (sd_value r)
  end.

Definition c3EcoLeapYear (year : Z) : bool :=
  (Z.rem year 4 =? 0) && (negb (Z.rem year 100 =? 0) || (Z.rem year 400 =? 0)).

Definition month_days : list Z := [31; 28; 31; 30; 31; 30; 31; 31; 30; 31; 30; 31].

(** All characters but those at positions 4 and 7 are digits. *)
Fixpoint date_digits (i : nat) (text : string) : bool :=
  match text with
  | EmptyString => true
  | String c r => (bool_decide (i = 4%nat) || bool_decide (i = 7%nat) || isdigit c) && date_digits (S i) r
  end.

Definition c3EcoIsoDate (text : string) : bool :=
  if negb (str_size text =? 10) || negb (bool_decide (String.get 4 text = Some "-"%char)) ||
     negb (bool_decide (String.get 7 text = Some "-"%char)) then false
  else if negb (date_digits 0 text) then false
  else
    let year := atoi (String.substring 0 4 text) in
    let month := atoi (String.substring 5 2 text) in
    let day := atoi (String.substring 8 2 text) in
    if (year <? 2000) || (month <? 1) || (12 <? month) || (day <? 1) then false
    else
      let limit := if (month =? 2) && c3EcoLeapYear year then 29
                   else default 0 (month_days !! Z.to_nat (month - 1)) in
      day <=? limit.

(** The scan of [c3EcoSemver] with its two locals. *)
Fixpoint semver_scan (dots : Z) (digit_in_part : bool) (text : string) : bool :=
  match text with
  | EmptyString => (dots =? 2) && digit_in_part
  | String c r =>
      if isdigit c then semver_scan dots true r
      else if (c =? ".")%char && digit_in_part && (dots <? 2) then semver_scan (dots + 1) false r
      else false
  end.

Definition c3EcoSemver (text : string) : bool := semver_scan 0 false text.

(** * The visit of a declaration *)

Definition unsafe_fields : list string :=
  ["official_certification_granted"; "certified_level"; "certificate_id"; "certified"].

Definition check_field (n : N) (kind : C3EcoDeclarationKind) (f : C3EcoFieldData) : SA unit :=
  if count (cf_name f) unsafe_fields then
    error_at n Codes.C3EcoUnsafeCertificationClaim
      ("C3-ECO declaration must not self-assert certification field `" +:+ cf_name f +:+ "`")
  else
    error_if (negb (count (cf_name f) (c3EcoAllowedFields kind))) n Codes.C3EcoInvalidField
      ("invalid field `" +:+ cf_name f +:+ "` for C3-ECO " +:+ c3EcoDeclarationKindName kind +:+ " declaration").

Definition visit_AST_C3ECO_DECLARATION (n : N) (data : C3EcoDeclarationData) : SA unit :=
  update (λ a, set_c3eco_profile_nodes (c3eco_profile_nodes a ++ [(n, data)])%list a);;
  let kind := c3EcoDeclarationKindName (cd_kind data) in
  let key := kind +:+ ":" +:+ cd_name data in
  seen ← reads c3eco_declarations;
  error_if (bool_decide (key ∈ seen)) n Codes.C3EcoDuplicateDeclaration
    ("duplicate C3-ECO declaration: " +:+ key);;
  update (λ a, set_c3eco_declarations ({[key]} ∪ c3eco_declarations a) a);;
  for_each (check_field n (cd_kind data)) (cd_fields data);;
  for_each (λ field,
    error_if (negb (c3EcoHasField data field)) n Codes.C3EcoMissingRequiredField
      ("C3-ECO " +:+ kind +:+ " declaration `" +:+ cd_name data +:+ "` missing required field `" +:+ field +:+ "`"))
    (c3EcoRequiredFields (cd_kind data));;
  (let carbon := c3EcoFieldText data "carbon_factor" in
   error_if (bool_decide (cd_kind data = MeasurementPlan) && c3EcoHasField data "carbon_factor" &&
             (negb (contains "source" carbon) || negb (contains "unit" carbon)))
     n Codes.C3EcoInvalidField "measurement_plan carbon_factor must name both source and unit");;
  (let evidence := c3EcoFieldText data "evidence" in
   error_if (bool_decide (cd_kind data = Boundary) && c3EcoHasField data "exclude" &&
             negb (c3EcoHasField data "exclusion_reason") &&
             (negb (contains "component" evidence) || negb (contains "reason" evidence) ||
              negb (contains "materiality" evidence)))
     n Codes.C3EcoInvalidField "boundary exclusions require evidence naming component, reason and materiality").

(** * Typed declarations of profile version 2 *)

Section Typed.
Context (node : N) (data : C3EcoDeclarationData).

Definition declaration : string :=
  c3EcoDeclarationKindName (cd_kind data) +:+ " `" +:+ cd_name data +:+ "`".

Definition single (name : string) (kind : C3EcoValueKind) : SA (option C3EcoValueData) :=
  match c3EcoField data name with
  | None => mret None
  | Some field =>
      match cf_values field with
      | [v] =>
          if decide (cv_kind v = kind) then mret (Some v)
          else
            error_at node Codes.C3EcoInvalidTypedLiteral
              (declaration +:+ " field `" +:+ name +:+ "` requires exactly one " +:+
               c3EcoValueKindName kind +:+ " literal");;
            mret None
      | _ =>
          error_at node Codes.C3EcoInvalidTypedLiteral
            (declaration +:+ " field `" +:+ name +:+ "` requires exactly one " +:+
             c3EcoValueKindName kind +:+ " literal");;
          mret None
      end
  end.

Definition requireV2Field (name : string) : SA unit :=
  error_if (negb (c3EcoHasField data name)) node Codes.C3EcoProfileIncomplete
    (declaration +:+ " is linked by profile v2 and requires field `" +:+ name +:+ "`").

Definition enumValue (name : string) (allowed : list string) : SA unit :=
  value ← single name VIdentifier;
  match value with
  | Some v =>
      error_if (negb (count (cv_text v) allowed)) node Codes.C3EcoInvalidDomainValue
        (declaration +:+ " field `" +:+ name +:+ "` has unsupported domain value `" +:+ cv_text v +:+ "`")
  | None => mret tt
  end.

Definition integerRange (name : string) (minimum maximum : Z) : SA unit :=
  value ← single name VInteger;
  match value with
  | None => mret tt
  | Some v =>
      match c3EcoParseInteger (cv_text v) with
      | None =>
          error_at node Codes.C3EcoInvalidTypedLiteral
            (declaration +:+ " field `" +:+ name +:+ "` is not a valid integer")
      | Some parsed =>
          error_if ((parsed <? minimum) || (maximum <? parsed)) node Codes.C3EcoValueOutOfRange
            (declaration +:+ " field `" +:+ name +:+ "` is outside the allowed range")
      end
  end.

Definition decimalRange (name : string) (minimum maximum : double) : SA unit :=
  value ← single name VDecimal;
  match value with
  | None => mret tt
  | Some v =>
      match c3EcoParseDecimal (cv_text v) with
      | None =>
          error_at node Codes.C3EcoInvalidTypedLiteral
            (declaration +:+ " field `" +:+ name +:+ "` is not a valid decimal")
      | Some parsed =>
          error_if (dltb parsed minimum || dltb maximum parsed) node Codes.C3EcoValueOutOfRange
            (declaration +:+ " field `" +:+ name +:+ "` is outside the allowed range")
      end
  end.

Definition nonEmptyString (name : string) : SA (option C3EcoValueData) :=
  value ← single name VString;
  (match value with
   | Some v =>
       error_if (is_empty (cv_text v)) node Codes.C3EcoInvalidDomainValue
         (declaration +:+ " field `" +:+ name +:+ "` must not be empty")
   | None => mret tt
   end);;
  mret value.

Definition requiredBoolean (name : string) : SA unit :=
  value ← single name VBoolean;
  match value with
  | Some v =>
      error_if (negb (String.eqb (cv_text v) "true")) node Codes.C3EcoInvalidDomainValue
        (declaration +:+ " safeguard field `" +:+ name +:+ "` must be true in profile v2")
  | None => mret tt
  end.

(** [if (value != nullptr && bad(value->text)) ... InvalidDomainValue ...] *)
Definition domain_check (value : option C3EcoValueData) (bad : string → bool) (message : string) : SA unit :=
  match value with
  | Some v => error_if (bad (cv_text v)) node Codes.C3EcoInvalidDomainValue (declaration +:+ message)
  | None => mret tt
  end.

Definition geography_code (code : string) : bool :=
  ((str_size code =? 2) || (str_size code =? 3)) && string_forallb isupper code.

Definition zero : double := dzero.
Definition one : double := double_of_Z 1.
Definition hundred : double := double_of_Z 100.

Definition typed_certification : SA unit :=
  version ← nonEmptyString "version";
  nonEmptyString "owner";;
  geography ← nonEmptyString "geography";
  requireV2Field "release_date";;
  release ← nonEmptyString "release_date";
  (if c3EcoHasField data "cloud_region" then nonEmptyString "cloud_region";; mret tt else mret tt);;
  domain_check version (λ t, negb (c3EcoSemver t)) " version must use numeric MAJOR.MINOR.PATCH form";;
  domain_check release (λ t, negb (c3EcoIsoDate t)) " release_date must be a valid YYYY-MM-DD date";;
  domain_check geography (λ t, negb (geography_code t))
    " geography must be a two- or three-letter uppercase code";;
  enumValue "software_class"
    ["S1"; "S2"; "S3"; "S4"; "S5"; "S6"; "S7"; "S8"; "S9"; "S10"; "S11"; "S12"; "S13"; "S14";
     "S6_AI_GENAI"; "S9_DEVELOPER_TOOLS_CI_CD"; "S12_INFRASTRUCTURE_PLATFORM"];;
  enumValue "deployment_mode"
    ["kubernetes"; "container"; "vm"; "bare_metal"; "edge"; "serverless"; "hybrid"];;
  integerRange "validity_period" 1 366.

Definition typed_functional_unit : SA unit :=
  requireV2Field "unit";;
  requireV2Field "quality_metric";;
  integerRange "denominator" 1 1000000000000;;
  nonEmptyString "success_condition";;
  decimalRange "quality_threshold" zero one;;
  enumValue "unit"
    ["inference"; "successful_inference"; "request"; "successful_request"; "training_run"; "token";
     "document"; "gb_processed"; "build"];;
  enumValue "quality_metric" ["accuracy"; "f1"; "precision"; "recall"; "pass_rate"; "quality_score"];;
  (if c3EcoHasField data "latency_slo_ms" then integerRange "latency_slo_ms" 1 86400000 else mret tt);;
  (if c3EcoHasField data "error_rate_slo_percent" then decimalRange "error_rate_slo_percent" zero hundred
   else mret tt).

Definition typed_workload : SA unit :=
  enumValue "traffic_profile" ["production_representative"; "steady"; "bursty"; "trace_replay"];;
  integerRange "batch_size" 1 1000000;;
  integerRange "concurrency" 1 1000000;;
  integerRange "warmup_runs" 0 1000000000;;
  integerRange "measured_runs" 1 1000000000;;
  enumValue "cache_state" ["cold"; "warm"; "mixed"; "disabled"; "declared"].

Definition components : list string :=
  ["compute"; "accelerator"; "memory"; "storage"; "network"; "ci_cd"; "thirdparty";
   "thirdparty_ai_api"; "client_device"; "training"; "fine_tuning"].

Definition check_include (v : C3EcoValueData) : SA unit :=
  if negb (bool_decide (cv_kind v = VIdentifier)) then
    error_at node Codes.C3EcoInvalidTypedLiteral (declaration +:+ " include entries must be identifiers")
  else
    error_if (negb (count (cv_text v) components)) node Codes.C3EcoInvalidDomainValue
      (declaration +:+ " includes unknown component `" +:+ cv_text v +:+ "`").

(** The loop over the exclusions, with the running [total]. *)
Fixpoint sum_exclusions (total : double) (es rs ms : list C3EcoValueData) : SA double :=
  match es, rs, ms with
  | e :: es, r :: rs, m :: ms =>
      if negb (bool_decide (cv_kind e = VIdentifier)) || negb (count (cv_text e) components) ||
         negb (bool_decide (cv_kind r = VString)) || negb (bool_decide (cv_kind m = VDecimal)) then
        error_at node Codes.C3EcoInvalidTypedLiteral (declaration +:+ " has an invalid typed exclusion entry");;
        sum_exclusions total es rs ms
      else
        match c3EcoParseDecimal (cv_text m) with
        | Some amount =>
            if dltb amount zero || dltb hundred amount then
              error_at node Codes.C3EcoValueOutOfRange
                (declaration +:+ " exclusion materiality is outside 0..100 percent");;
              sum_exclusions total es rs ms
            else sum_exclusions (dadd total amount) es rs ms
        | None =>
            error_at node Codes.C3EcoValueOutOfRange
              (declaration +:+ " exclusion materiality is outside 0..100 percent");;
            sum_exclusions total es rs ms
        end
  | _, _, _ => mret total
  end.

Definition check_exclusions (exclude : C3EcoFieldData) : SA unit :=
  (match c3EcoField data "exclusion_reason", c3EcoField data "exclusion_materiality_percent" with
   | Some reasons, Some materiality =>
       if negb (bool_decide (length (cf_values reasons) = length (cf_values exclude))) ||
          negb (bool_decide (length (cf_values materiality) = length (cf_values exclude))) then
         error_at node Codes.C3EcoMaterialityViolation
           (declaration +:+ " requires one string reason and decimal materiality for every exclusion")
       else
         total ← sum_exclusions zero (cf_values exclude) (cf_values reasons) (cf_values materiality);
         threshold ← single "materiality_threshold_percent" VDecimal;
         match threshold with
         | Some t =>
             match c3EcoParseDecimal (cv_text t) with
             | Some maximum =>
                 error_if (dltb maximum total) node Codes.C3EcoMaterialityViolation
                   (declaration +:+ " cumulative exclusions exceed materiality_threshold_percent")
             | None => mret tt
             end
         | None => mret tt
         end
   | _, _ =>
       error_at node Codes.C3EcoMaterialityViolation
         (declaration +:+ " requires one string reason and decimal materiality for every exclusion")
   end);;
  if existsb (λ v, String.eqb (cv_text v) "thirdparty_ai_api") (cf_values exclude) then
    requireV2Field "opaque_provider_treatment";;
    enumValue "opaque_provider_treatment" ["conservative_estimate"; "included"; "provider_evidence"]
  else mret tt.

Definition typed_boundary : SA unit :=
  requireV2Field "materiality_threshold_percent";;
  (match c3EcoField data "include" with
   | Some include => for_each check_include (cf_values include)
   | None => mret tt
   end);;
  decimalRange "materiality_threshold_percent" zero hundred;;
  match c3EcoField data "exclude" with
  | Some exclude => check_exclusions exclude
  | None => mret tt
  end.

Definition typed_ai_lifecycle : SA unit :=
  enumValue "role"
    ["application_provider"; "model_provider"; "hosted_model_consumer"; "trainer"; "fine_tuner"; "inference_operator"];;
  nonEmptyString "model_provider";;
  enumValue "lifecycle_scope" ["inference"; "training"; "fine_tuning"; "end_to_end"];;
  training ← single "training_included" VBoolean;
  fine_tuning ← single "fine_tuning_included" VBoolean;
  requiredBoolean "evaluation_included";;
  role ← single "role" VIdentifier;
  let named text := match role with Some r => String.eqb (cv_text r) text | None => false end in
  (if named "trainer" then
     domain_check training (λ t, negb (String.eqb t "true")) " trainer role must include training lifecycle evidence"
   else mret tt);;
  if named "fine_tuner" then
    domain_check fine_tuning (λ t, negb (String.eqb t "true"))
      " fine_tuner role must include fine-tuning lifecycle evidence"
  else mret tt.

Definition validateC3EcoTypedDeclaration : SA unit :=
  match cd_kind data with
  | CertificationProfile =>
      integerRange "profile_version" 2 2;;
      nonEmptyString "valid_from";;
      nonEmptyString "valid_until";;
      mret tt
  | Certification => typed_certification
  | FunctionalUnit => typed_functional_unit
  | Workload => typed_workload
  | Boundary => typed_boundary
  | AILifecycle => typed_ai_lifecycle
  | Guardrails =>
      requiredBoolean "functional_tests";;
      decimalRange "accuracy" zero one;;
      integerRange "p95_latency_ms" 1 86400000;;
      decimalRange "error_rate_percent" zero hundred;;
      requiredBoolean "security_scan";;
      requiredBoolean "accessibility";;
      requiredBoolean "privacy_telemetry"
  | MeasurementPlan | RAGPipeline | TokenBudget | ModelRouting => mret tt
  end.
End Typed.

(** * Profiles *)

(** The first declaration of a kind and name, and whether a name is declared
    at all: the lookups in the two maps built from the visited nodes. *)
Definition find_declaration (kind : C3EcoDeclarationKind) (name : string)
    (nodes : list (N * C3EcoDeclarationData)) : option (N * C3EcoDeclarationData) :=
  List.find (λ d, bool_decide (cd_kind d.2 = kind) && String.eqb (cd_name d.2) name) nodes.

Definition name_declared (name : string) (nodes : list (N * C3EcoDeclarationData)) : bool :=
  existsb (λ d, String.eqb (cd_name d.2) name) nodes.

Definition references : list (string * C3EcoDeclarationKind) :=
  [("certification", Certification); ("functional_unit", FunctionalUnit); ("workload", Workload);
   ("boundary", Boundary); ("ai_lifecycle", AILifecycle); ("guardrails", Guardrails)].

(** The one string literal of a field, if it is that. *)
Definition single_text (data : C3EcoDeclarationData) (kind : C3EcoValueKind) (name : string) : option string :=
  match c3EcoField data name with
  | Some f =>
      match cf_values f with
      | [v] => if decide (cv_kind v = kind) then Some (cv_text v) else None
      | _ => None
      end
  | None => None
  end.

(** One reference of a profile, with the set of validated nodes. *)
Definition check_reference (nodes : list (N * C3EcoDeclarationData)) (profile : N * C3EcoDeclarationData)
    (validated : gset N) (reference : string * C3EcoDeclarationKind) : SA (gset N) :=
  let where_ := "certification_profile `" +:+ cd_name profile.2 +:+ "` field `" +:+ reference.1 +:+ "` " in
  match single_text profile.2 VIdentifier reference.1 with
  | None =>
      error_if (c3EcoHasField profile.2 reference.1) profile.1 Codes.C3EcoInvalidTypedLiteral
        (where_ +:+ "requires exactly one identifier reference");;
      mret validated
  | Some name =>
      match find_declaration reference.2 name nodes with
      | None =>
          (if name_declared name nodes then
             error_at profile.1 Codes.C3EcoReferenceKindMismatch
               (where_ +:+ "references `" +:+ name +:+ "` with the wrong declaration kind")
           else
             error_at profile.1 Codes.C3EcoUnknownReference
               (where_ +:+ "references unknown declaration `" +:+ name +:+ "`"));;
          mret validated
      | Some target =>
          if decide (target.1 ∈ validated) then mret validated
          else
            validateC3EcoTypedDeclaration target.1 target.2;;
            mret ({[target.1]} ∪ validated)
      end
  end.

Fixpoint check_references (nodes : list (N * C3EcoDeclarationData)) (profile : N * C3EcoDeclarationData)
    (validated : gset N) (rs : list (string * C3EcoDeclarationKind)) : SA (gset N) :=
  match rs with
  | [] => mret validated
  | r :: rest =>
      v ← check_reference nodes profile validated r;
      check_references nodes profile v rest
  end.

(** The dates of a profile are refused. *)
Definition invalid_window (from until : string) : bool :=
  negb (c3EcoIsoDate from) || negb (c3EcoIsoDate until) || negb (String.ltb from until).

Definition check_profile (nodes : list (N * C3EcoDeclarationData)) (profile : N * C3EcoDeclarationData)
    (validated : gset N) : SA (gset N) :=
  validateC3EcoTypedDeclaration profile.1 profile.2;;
  (match single_text profile.2 VString "valid_from", single_text profile.2 VString "valid_until" with
   | Some from, Some until =>
       error_if (invalid_window from until) profile.1 Codes.C3EcoInvalidValidityWindow
         ("certification_profile `" +:+ cd_name profile.2 +:+
          "` requires valid YYYY-MM-DD dates with valid_from before valid_until")
   | _, _ => mret tt
   end);;
  check_references nodes profile validated references.

Fixpoint check_profiles (nodes profiles : list (N * C3EcoDeclarationData)) (validated : gset N) : SA unit :=
  match profiles with
  | [] => mret tt
  | p :: rest =>
      v ← check_profile nodes p validated;
      check_profiles nodes rest v
  end.

Definition validateC3EcoProfiles : SA unit :=
  nodes ← reads c3eco_profile_nodes;
  check_profiles nodes (filter (λ d, cd_kind d.2 = CertificationProfile) nodes) ∅.
