(* ===== verification/C3EcoFacts.v ===== *)
(** What the lexical checks of the C3-ECO declarations decide: the calendar
    dates, the order of the validity window and the version numbers. *)
From S2P Require Import Prelude CxxInt CxxString Ast Diagnostics AnalyzerState C3EcoSemantics.
Open Scope string_scope.
Open Scope Z_scope.

(** * Texts of digits *)

Notation digits s := (string_forallb isdigit s = true).

(** The number a text of digits writes, after the digits of [acc]. *)
Fixpoint number (acc : Z) (s : string) : Z :=
  match s with
  | EmptyString => acc
  | String c r => number (10 * acc + digit_value c) r
  end.

Definition digit (v : Z) : ascii := ascii_of_N (48 + Z.to_N v).

(** [v] in [n] digits. *)
Fixpoint padded (n : nat) (v : Z) : string :=
  match n with
  | O => EmptyString
  | S k => padded k (v / 10) +:+ String (digit (v mod 10)) EmptyString
  end.

Lemma isdigit_value c : isdigit c = true → 0 ≤ digit_value c ≤ 9.
Proof. intros [?%N.leb_le ?%N.leb_le]%andb_true_iff. unfold digit_value. lia. Qed.

Lemma digit_value_inv c : isdigit c = true → digit (digit_value c) = c.
Proof.
  intros [Hlo%N.leb_le Hhi%N.leb_le]%andb_true_iff. unfold digit, digit_value, code in *.
  replace (48 + Z.to_N (Z.of_N (N_of_ascii c) - 48))%N with (N_of_ascii c) by lia. apply ascii_N_embedding.
Qed.

Lemma code_digit v : 0 ≤ v ≤ 9 → code (digit v) = (48 + Z.to_N v)%N.
Proof. intros Hv. unfold code, digit. rewrite N_ascii_embedding; lia. Qed.

Lemma value_of_digit v : 0 ≤ v ≤ 9 → digit_value (digit v) = v.
Proof. intros Hv. unfold digit_value. rewrite code_digit by done. lia. Qed.

Lemma isdigit_digit v : 0 ≤ v ≤ 9 → isdigit (digit v) = true.
Proof.
  intros Hv. unfold isdigit, between. rewrite code_digit by done.
  apply andb_true_iff. rewrite !N.leb_le. lia.
Qed.

Lemma forallb_app p s t : string_forallb p (s +:+ t) = string_forallb p s && string_forallb p t.
Proof. induction s as [|c r IH]; simpl; [done|]. by rewrite IH, andb_assoc. Qed.

Lemma number_app acc s t : number acc (s +:+ t) = number (number acc s) t.
Proof. revert acc. induction s as [|c r IH]; intros acc; simpl; auto. Qed.

Lemma number_bounds acc s : digits s →
  acc * 10 ^ str_size s ≤ number acc s < (acc + 1) * 10 ^ str_size s.
Proof.
  revert acc. induction s as [|c r IH]; intros acc; [unfold str_size; cbn; lia|].
  intros [Hc%isdigit_value Hr]%andb_true_iff. cbn [number]. specialize (IH (10 * acc + digit_value c) Hr).
  unfold str_size in *. cbn [String.length]. rewrite Nat2Z.inj_succ, Z.pow_succ_r by lia.
  assert (0 < 10 ^ Z.of_nat (String.length r)) by lia. nia.
Qed.

Lemma padded_length n v : String.length (padded n v) = n.
Proof.
  revert v. induction n as [|n IH]; intros v; [done|]. cbn [padded].
  rewrite string_app_length, IH. simpl. lia.
Qed.

Lemma padded_digits n v : digits (padded n v).
Proof.
  revert v. induction n as [|n IH]; intros v; [done|]. cbn [padded]. rewrite forallb_app, IH. simpl.
  rewrite isdigit_digit; [done|]. pose proof (Z.mod_pos_bound v 10). lia.
Qed.

Lemma number_padded n v : 0 ≤ v < 10 ^ Z.of_nat n → number 0 (padded n v) = v.
Proof.
  revert v. induction n as [|n IH]; intros v Hv; [simpl in *; lia|]. cbn [padded].
  rewrite Nat2Z.inj_succ, Z.pow_succ_r in Hv by lia.
  assert (0 ≤ v mod 10 < 10) as Hm by (apply Z.mod_pos_bound; lia).
  rewrite number_app, IH by (split; [apply Z.div_pos | apply Z.div_lt_upper_bound]; lia).
  cbn [number]. rewrite value_of_digit by lia. pose proof (Z.div_mod v 10). lia.
Qed.

(** Texts of digits of the same length are ordered as their numbers. *)
Lemma compare_digits acc s t : digits s → digits t → String.length s = String.length t →
  String.compare s t = (number acc s ?= number acc t).
Proof.
  revert acc t. induction s as [|c r IH]; intros acc [|d t]; try done; [by rewrite Z.compare_refl|].
  intros [Hc Hr]%andb_true_iff [Hd Ht]%andb_true_iff [= Hl]. cbn [String.compare number].
  pose proof (number_bounds (10 * acc + digit_value c) r Hr) as Hbr.
  pose proof (number_bounds (10 * acc + digit_value d) t Ht) as Hbt.
  unfold str_size in *. rewrite <- Hl in Hbt. assert (0 < 10 ^ Z.of_nat (String.length r)) by lia.
  unfold Ascii.compare. destruct (N.compare_spec (N_of_ascii c) (N_of_ascii d)) as [He|Hlt|Hgt].
  - assert (digit_value c = digit_value d) as -> by (unfold digit_value, code; by rewrite He). auto.
  - symmetry. apply Z.compare_lt_iff. assert (digit_value c < digit_value d) by (unfold digit_value, code; lia). nia.
  - symmetry. apply Z.compare_gt_iff. assert (digit_value d < digit_value c) by (unfold digit_value, code; lia). nia.
Qed.

Lemma digits_inj s t : digits s → digits t → String.length s = String.length t →
  number 0 s = number 0 t → s = t.
Proof.
  intros Hs Ht Hl He. apply String.compare_eq_iff. rewrite (compare_digits 0) by done. by rewrite He, Z.compare_refl.
Qed.

Lemma padded_number s : digits s → padded (String.length s) (number 0 s) = s.
Proof.
  intros Hs. apply digits_inj; [apply padded_digits|done|apply padded_length|].
  pose proof (number_bounds 0 s Hs). apply number_padded. unfold str_size in *. lia.
Qed.

Lemma take_digits_all acc seen s : digits s →
  take_digits acc seen s = (number acc s, seen || negb (is_empty s), EmptyString).
Proof.
  revert acc seen. induction s as [|c r IH]; intros acc seen; simpl; [by rewrite orb_false_r|].
  intros [-> Hr]%andb_true_iff. rewrite IH by done. simpl. by rewrite orb_true_r.
Qed.

Lemma digit_is_no_sign c r : isdigit c = true →
  take_sign (drop_while isspace (String c r)) = (false, String c r).
Proof. destruct c as [[] [] [] [] [] [] [] []]; done. Qed.

Lemma atoi_digits s : s ≠ EmptyString → digits s → str_size s ≤ 9 → atoi s = number 0 s.
Proof.
  intros Hne Hs Hl. destruct s as [|c r]; [done|].
  pose proof (number_bounds 0 _ Hs) as Hb.
  assert (10 ^ str_size (String c r) ≤ 10 ^ 9) by (apply Z.pow_le_mono_r; lia).
  unfold atoi, strtoll. pose proof Hs as [Hc _]%andb_true_iff.
  rewrite digit_is_no_sign by done. rewrite take_digits_all by done. cbn [orb negb is_empty].
  generalize dependent (number 0 (String c r)). intros v Hv.
  change (10 ^ 9) with 1000000000 in *.
  destruct (Z.ltb_spec v INT64_MIN); [width|]. destruct (Z.ltb_spec INT64_MAX v); [width|]. cbn [st_value]. width.
Qed.

(** * Calendar dates *)

Record date := { d_year : Z; d_month : Z; d_day : Z }.

(** The Gregorian calendar. *)
Definition leap (y : Z) : Prop := (4 | y) ∧ (¬ (100 | y) ∨ (400 | y)).

Definition month_length (y m len : Z) : Prop :=
  (m = 2 ∧ ((leap y ∧ len = 29) ∨ (¬ leap y ∧ len = 28))) ∨
  (m ∈ [4; 6; 9; 11] ∧ len = 30) ∨ (m ∈ [1; 3; 5; 7; 8; 10; 12] ∧ len = 31).

Definition valid_date (d : date) : Prop :=
  2000 ≤ d_year d ≤ 9999 ∧ ∃ len, month_length (d_year d) (d_month d) len ∧ 1 ≤ d_day d ≤ len.

Definition date_text (d : date) : string :=
  padded 4 (d_year d) +:+ "-" +:+ padded 2 (d_month d) +:+ "-" +:+ padded 2 (d_day d).

(** [d] is an earlier day than [e]. *)
Definition earlier (d e : date) : Prop :=
  d_year d < d_year e ∨ (d_year d = d_year e ∧
    (d_month d < d_month e ∨ (d_month d = d_month e ∧ d_day d < d_day e))).

Lemma leap_exact y : 0 ≤ y → c3EcoLeapYear y = true ↔ leap y.
Proof.
  intros Hy. unfold c3EcoLeapYear, leap. rewrite !Z.rem_mod_nonneg by lia.
  rewrite andb_true_iff, orb_true_iff, negb_true_iff, Z.eqb_neq, !Z.eqb_eq.
  rewrite <- !Z.mod_divide by lia. done.
Qed.

(** The limit [c3EcoIsoDate] computes for a month. *)
Definition limit_of (y m : Z) : Z :=
  if (m =? 2) && c3EcoLeapYear y then 29 else default 0 (month_days !! Z.to_nat (m - 1)).

Lemma limit_exact y m len : 0 ≤ y → 1 ≤ m ≤ 12 → month_length y m len ↔ len = limit_of y m.
Proof.
  intros Hy Hm. pose proof (leap_exact y Hy) as Hl. unfold month_length, limit_of.
  assert (m = 1 ∨ m = 2 ∨ m = 3 ∨ m = 4 ∨ m = 5 ∨ m = 6 ∨ m = 7 ∨ m = 8 ∨ m = 9 ∨ m = 10 ∨ m = 11 ∨ m = 12)
    as Hcase by lia.
  rewrite !elem_of_cons, elem_of_nil.
  destruct Hcase as [->|[->|[->|[->|[->|[->|[->|[->|[->|[->|[->| ->]]]]]]]]]]]; cbn -[c3EcoLeapYear].
  2: { destruct (c3EcoLeapYear y); [assert (leap y) by (by apply Hl)|assert (¬ leap y) by (by intros ?%Hl)]; intuition lia. }
  all: intuition lia.
Qed.

Lemma month_range y m len : month_length y m len → 1 ≤ m ≤ 12 ∧ len ≤ 31.
Proof. unfold month_length. rewrite !elem_of_cons, elem_of_nil. lia. Qed.

(** The three fields of a text with the layout of a date. *)
Lemma date_layout text : str_size text = 10 → String.get 4 text = Some "-"%char → String.get 7 text = Some "-"%char →
  date_digits 0 text = true →
  ∃ a b c, text = a +:+ "-" +:+ b +:+ "-" +:+ c ∧ String.substring 0 4 text = a ∧ String.substring 5 2 text = b ∧
    String.substring 8 2 text = c ∧ digits a ∧ digits b ∧ digits c ∧
    String.length a = 4%nat ∧ String.length b = 2%nat ∧ String.length c = 2%nat.
Proof.
  intros Hl H4 H7 Hd.
  do 10 (destruct text as [|? text]; [done|]). destruct text; [|unfold str_size in Hl; cbn [String.length] in Hl; lia].
  simpl in H4, H7. injection H4 as ->. injection H7 as ->.
  cbn -[isdigit] in Hd. rewrite ?andb_true_r in Hd.
  repeat match type of Hd with _ && _ = true => apply andb_true_iff in Hd as [? Hd] end.
  eexists (String _ (String _ (String _ (String _ EmptyString)))), (String _ (String _ EmptyString)), (String _ (String _ EmptyString)).
  split_and!; cbn -[isdigit]; try reflexivity; rewrite ?andb_true_iff; auto.
Qed.

(** The test of [c3EcoIsoDate] on the three fields of a date. *)
Definition fields_ok (y m d : Z) : bool :=
  negb ((y <? 2000) || (m <? 1) || (12 <? m) || (d <? 1)) && (d <=? limit_of y m).

Lemma fields_exact y m d : 0 ≤ y ≤ 9999 →
  fields_ok y m d = true ↔ valid_date {| d_year := y; d_month := m; d_day := d |}.
Proof.
  intros Hy. unfold fields_ok, valid_date. cbn [d_year d_month d_day].
  rewrite andb_true_iff, negb_true_iff, !orb_false_iff, !Z.ltb_ge, Z.leb_le. split.
  - intros [[[[? ?] ?] ?] ?]. split; [lia|]. exists (limit_of y m). split; [|lia]. by apply limit_exact; [lia..|].
  - intros [? (len & Hm & ?)]. pose proof (month_range _ _ _ Hm). apply limit_exact in Hm; lia.
Qed.

Lemma isoDate_fields a b c : digits a → digits b → digits c →
  String.length a = 4%nat → String.length b = 2%nat → String.length c = 2%nat →
  c3EcoIsoDate (a +:+ "-" +:+ b +:+ "-" +:+ c) = fields_ok (number 0 a) (number 0 b) (number 0 c).
Proof.
  intros Ha Hb Hc La Lb Lc.
  rewrite <- (atoi_digits a), <- (atoi_digits b), <- (atoi_digits c)
    by (done || (unfold str_size; lia) || by intros ->).
  do 4 (destruct a as [|? a]; [done|]). destruct a; [|done].
  do 2 (destruct b as [|? b]; [done|]). destruct b; [|done].
  do 2 (destruct c as [|? c]; [done|]). destruct c; [|done].
  cbn -[isdigit] in Ha, Hb, Hc. cbv [String.append]. unfold c3EcoIsoDate.
  cbn -[atoi isdigit c3EcoLeapYear Z.ltb Z.leb month_days].
  repeat match goal with H : _ && _ = true |- _ => let H' := fresh in apply andb_true_iff in H as [H' H]; rewrite H'; clear H' end.
  generalize (atoi (String a0 (String a1 (String a2 (String a3 ""))))), (atoi (String a (String a4 ""))),
    (atoi (String a5 (String a6 ""))). intros y m d. unfold fields_ok, limit_of.
  destruct ((y <? 2000) || (m <? 1) || (12 <? m) || (d <? 1)); reflexivity.
Qed.

Lemma valid_ranges d : valid_date d → 0 ≤ d_year d < 10 ^ 4 ∧ 0 ≤ d_month d < 10 ^ 2 ∧ 0 ≤ d_day d < 10 ^ 2.
Proof. intros [Hy (len & Hm%month_range & Hd)]. lia. Qed.

Lemma isoDate_sound text : c3EcoIsoDate text = true → ∃ d, valid_date d ∧ text = date_text d.
Proof.
  intros H. pose proof H as Hok. unfold c3EcoIsoDate in H.
  destruct (_ || _) eqn:Hlayout in H; [done|]. destruct (date_digits 0 text) eqn:Hd; [clear H|done].
  apply orb_false_iff in Hlayout as [[Hl%negb_false_iff H4%negb_false_iff]%orb_false_iff H7%negb_false_iff].
  apply Z.eqb_eq in Hl. apply bool_decide_eq_true in H4, H7.
  destruct (date_layout text Hl H4 H7 Hd) as (a & b & c & -> & _ & _ & _ & Ha & Hb & Hc & La & Lb & Lc).
  rewrite isoDate_fields in Hok by done. pose proof (number_bounds 0 a Ha) as Hy.
  apply fields_exact in Hok; [|unfold str_size in Hy; rewrite La in Hy; lia].
  eexists. split; [exact Hok|]. unfold date_text. cbn [d_year d_month d_day].
  rewrite <- La at 1. rewrite <- Lb at 1. rewrite <- Lc at 1. by rewrite !padded_number.
Qed.

Lemma isoDate_complete d : valid_date d → c3EcoIsoDate (date_text d) = true.
Proof.
  intros Hv. pose proof (valid_ranges d Hv) as (Hy & Hm & Hd). unfold date_text.
  rewrite isoDate_fields by (apply padded_digits || apply padded_length).
  rewrite !number_padded by done. apply fields_exact; [lia|]. by destruct d.
Qed.

(** The date check of the C3-ECO declarations accepts exactly the texts
    YYYY-MM-DD of the days of the Gregorian calendar from the year 2000 on,
    leap years included, and nothing else. *)
Theorem c3EcoIsoDate_exact text :
  c3EcoIsoDate text = true ↔ ∃ d, valid_date d ∧ text = date_text d.
Proof.
  split; [apply isoDate_sound|]. intros (d & Hv & ->). by apply isoDate_complete.
Qed.

(** * The order of two dates *)

Lemma compare_app s t s' t' : String.length s = String.length t →
  String.compare (s +:+ s') (t +:+ t') =
  match String.compare s t with Eq => String.compare s' t' | o => o end.
Proof.
  revert t. induction s as [|c r IH]; intros [|d t]; try done. intros [= Hl].
  change (String c r +:+ s') with (String c (r +:+ s')). change (String d t +:+ t') with (String d (t +:+ t')).
  cbn [String.compare]. rewrite IH by done. by destruct (Ascii.compare c d).
Qed.

Lemma compare_padded n v w : 0 ≤ v < 10 ^ Z.of_nat n → 0 ≤ w < 10 ^ Z.of_nat n →
  String.compare (padded n v) (padded n w) = (v ?= w).
Proof.
  intros Hv Hw. rewrite (compare_digits 0) by (apply padded_digits || by rewrite !padded_length).
  by rewrite !number_padded.
Qed.

Lemma text_order d e : valid_date d → valid_date e →
  String.ltb (date_text d) (date_text e) = true ↔ earlier d e.
Proof.
  intros (Hy & Hm & Hd)%valid_ranges (Hy' & Hm' & Hd')%valid_ranges. unfold String.ltb, date_text, earlier.
  repeat (rewrite compare_app by (done || by rewrite !padded_length)). rewrite !compare_padded by done.
  destruct (Z.compare_spec (d_year d) (d_year e)); [|naive_solver lia..].
  change (String.compare "-" "-") with Eq.
  destruct (Z.compare_spec (d_month d) (d_month e)); [|naive_solver lia..].
  destruct (Z.compare_spec (d_day d) (d_day e)); naive_solver lia.
Qed.

(** A certification profile's validity window passes exactly when its two
    texts are calendar dates and the first day is earlier than the second: the
    comparison of the texts as strings is the comparison of the days. *)
Theorem validity_window_exact from until :
  invalid_window from until = false ↔
  ∃ d e, valid_date d ∧ valid_date e ∧ from = date_text d ∧ until = date_text e ∧ earlier d e.
Proof.
  unfold invalid_window. rewrite !orb_false_iff, !negb_false_iff. split.
  - intros [[(d & Hd & ->)%isoDate_sound (e & He & ->)%isoDate_sound] Hlt]. exists d, e. by rewrite <- text_order.
  - intros (d & e & Hd & He & -> & -> & Hlt). by rewrite !isoDate_complete, text_order.
Qed.

(** * Version numbers *)

Lemma string_app_nil_r s : s +:+ EmptyString = s.
Proof. induction s as [|c r IH]; [done|]. change (String c r +:+ "") with (String c (r +:+ "")). by rewrite IH. Qed.

Lemma digits_not_dot c : isdigit c = true → (c =? ".")%char = false.
Proof. by destruct c as [[] [] [] [] [] [] [] []]. Qed.

(** One group of digits of the scan and what follows it. *)
Lemma semver_group dots seen text : 
  semver_scan dots seen text = true ↔
  ∃ group rest, text = group +:+ rest ∧ digits group ∧ (seen = true ∨ group ≠ EmptyString) ∧
    ((dots = 2 ∧ rest = EmptyString) ∨
     (dots < 2 ∧ ∃ more, rest = "." +:+ more ∧ semver_scan (dots + 1) false more = true)).
Proof.
  revert seen. induction text as [|c r IH]; intros seen; cbn [semver_scan].
  - rewrite andb_true_iff, Z.eqb_eq. split; [intros [-> ->]; exists "", ""; split_and!; auto|].
    intros ([|] & [|] & ? & ? & [->|?] & [[-> ?]|(? & more & ? & ?)]); done.
  - destruct (isdigit c) eqn:Hc.
    + rewrite IH. split.
      * intros (g & rest & -> & Hg & _ & Hrest). exists (String c g), rest. simpl. rewrite Hc. auto.
      * intros ([|c' g] & rest & Heq & Hg & Hs & Hrest).
        -- destruct Hrest as [[_ ->]|(_ & more & -> & _)]; [done|]. injection Heq as -> _. done.
        -- injection Heq as -> ->. simpl in Hg. apply andb_true_iff in Hg as [_ Hg]. exists g, rest. auto.
    + split.
      * destruct ((c =? ".")%char && seen && (dots <? 2)) eqn:Hdot; [|done]. intros Hscan.
        apply andb_true_iff in Hdot as [[->%Ascii.eqb_eq ->]%andb_true_iff Hlt%Z.ltb_lt].
        exists "", (String "." r). simpl. split_and!; auto. right. eauto.
      * intros ([|c' g] & rest & Heq & Hg & Hs & Hrest).
        -- destruct Hrest as [[_ ->]|(Hlt%Z.ltb_lt & more & -> & Hscan)]; [done|]. injection Heq as -> ->.
           destruct Hs as [->|?]; [|done]. by rewrite Hlt.
        -- injection Heq as -> _. simpl in Hg. by rewrite Hc in Hg.
Qed.

(** The version check accepts exactly MAJOR.MINOR.PATCH with three
    non-empty groups of digits. *)
Theorem c3EcoSemver_exact text :
  c3EcoSemver text = true ↔
  ∃ major minor patch, text = major +:+ "." +:+ minor +:+ "." +:+ patch ∧
    Forall (λ part, part ≠ EmptyString ∧ digits part) [major; minor; patch].
Proof.
  unfold c3EcoSemver. split.
  - intros (a & ? & -> & Ha & [?|Hna] & [[? ?]|(_ & t & -> & Ht)])%semver_group; try done.
    apply semver_group in Ht as (b & ? & -> & Hb & [?|Hnb] & [[? ?]|(_ & u & -> & Hu)]); try done.
    apply semver_group in Hu as (c & ? & -> & Hc & [?|Hnc] & [[_ ->]|(? & _)]); try done.
    exists a, b, c. rewrite string_app_nil_r. repeat constructor; auto.
  - intros (a & b & c & -> & H). rewrite !Forall_cons in H. destruct H as ((Hna & Ha) & (Hnb & Hb) & (Hnc & Hc) & _).
    apply semver_group. exists a, ("." +:+ b +:+ "." +:+ c). split_and!; auto. right. split; [lia|]. eexists; split; [done|].
    apply semver_group. exists b, ("." +:+ c). split_and!; auto. right. split; [lia|]. eexists; split; [done|].
    apply semver_group. exists c, "". rewrite string_app_nil_r. split_and!; auto.
Qed.
