(* ===== verification/SemanticAnalyzer.v ===== *)
(** Component: semantic analysis (visitors/SemanticAnalyzer.cpp).

    [expressionType] and the visits of statements are computations of the
    state monad [SA] over the analyser object; they recurse on the tree, so
    they are total.  A visit of a statement class is a definition of its own,
    written against the visits of its children, and [visit_statement] is the
    virtual dispatch that ties them together. *)
From S2P Require Import Prelude CxxInt CxxString CxxFloat TypeSystem Ast AiTypes Diagnostics.
From S2P Require Import AnalyzerState C3EcoSemantics.
Open Scope string_scope.
Open Scope Z_scope.

(** * Calls *)

Definition validateCall (n : N) (name : string) (arity : Z) : SA unit :=
  a ← reads id;
  match (if is_empty name then None else function_arity a !! name) with
  | None => error_at n Codes.SemanticUndefinedFunction ("undefined function: " +:+ name)
  | Some expected =>
      error_if (negb (expected =? arity)) n Codes.SemanticFunctionArityMismatch
        ("function " +:+ name +:+ " expects " +:+ pretty expected +:+ " argument(s), got " +:+ pretty arity);;
      error_if (negb (allow_external_function_calls a) && bool_decide (name ∈ imported_functions a))
        n Codes.ModuleExternalRunUnsupported
        ("interpreter execution of imported function is disabled by this execution profile: " +:+ name)
  end.

Section Calls.
Context (expressionType : AST_EXPRESSION_RULE → SA ShortType).

(** The loop over the arguments from position [i]. *)
Fixpoint check_arguments (name : string) (i : Z) (expected : list ShortType)
    (arguments : list AST_EXPRESSION_RULE) {struct arguments} : SA unit :=
  match arguments, expected with
  | argument :: arguments, t :: expected =>
      actual ← expressionType argument;
      (if decide (actual = TVoid) then
         error_at (expression_node argument) Codes.SemanticVoidValueUsed
           ("function " +:+ name +:+ " argument " +:+ pretty (i + 1) +:+ " requires a value but received void")
       else
         error_if (negb (bool_decide (actual = t))) (expression_node argument) Codes.SemanticTypeMismatch
           ("function " +:+ name +:+ " argument " +:+ pretty (i + 1) +:+ " expects " +:+
            shortTypeName t +:+ " but received " +:+ shortTypeName actual));;
      check_arguments name (i + 1) expected arguments
  | _, _ => mret tt
  end.

Definition validateCallTypes (n : N) (name : string) (arguments : list AST_EXPRESSION_RULE) : SA unit :=
  validateCall n name (Z.of_nat (length arguments));;
  types ← reads function_parameter_types;
  match types !! name with
  | None => mret tt
  | Some expected =>
      if negb (bool_decide (length expected = length arguments)) then mret tt
      else check_arguments name 0 expected arguments
  end.
End Calls.

(** * Types of expressions *)

Inductive op_class := Arithmetic | Equality | Ordering | Logical | UnknownOp.

Definition classify (op : binary_op) : op_class :=
  match op with
  | PLUS | MINUS | MULTIPLY | DIVIDE | MODULO => Arithmetic
  | EQUAL | NOT_EQUAL => Equality
  | LESS | GREATER | LESS_OR_EQUAL | GREATER_OR_EQUAL => Ordering
  | OR | AND => Logical
  | B_ERROR => UnknownOp
  end.

Definition numeric (t : ShortType) : bool := bool_decide (t = TInt) || bool_decide (t = TFloat).

(** An error, then the type [Void]. *)
Definition type_error (n : N) (code message : string) : SA ShortType :=
  error_at n code message;; mret TVoid.

Definition binary_type (n : N) (op : binary_op) (left right : ShortType) : SA ShortType :=
  if bool_decide (left = TVoid) || bool_decide (right = TVoid) then
    type_error n Codes.SemanticVoidValueUsed "binary operator requires value operands and cannot consume void"
  else if negb (bool_decide (left = right)) then
    type_error n Codes.SemanticTypeMismatch
      ("operator operands must have the same type; left=" +:+ shortTypeName left +:+ " right=" +:+
       shortTypeName right)
  else match classify op with
  | Arithmetic =>
      if negb (numeric left) then
        type_error n Codes.SemanticInvalidOperator "arithmetic operators require int or float operands"
      else if bool_decide (op = MODULO) && negb (bool_decide (left = TInt)) then
        type_error n Codes.SemanticInvalidOperator "modulo requires int operands"
      else mret left
  | Equality => mret TBoolean
  | Ordering =>
      if negb (numeric left) then
        type_error n Codes.SemanticInvalidOperator "ordering operators require int or float operands"
      else mret TBoolean
  | Logical =>
      if negb (bool_decide (left = TBoolean)) && negb (bool_decide (left = TInt)) then
        type_error n Codes.SemanticInvalidOperator "logical operators require bool or int operands"
      else mret TBoolean
  | UnknownOp => type_error n Codes.SemanticInvalidOperator "unknown expression operator"
  end.

Definition simple_variable_type (n : N) (name : string) : SA ShortType :=
  found ← reads (lookupType name);
  match found with
  | None => type_error n Codes.SemanticUndeclaredVariable ("undeclared variable: " +:+ name)
  | Some v =>
      if is_array v then
        type_error n Codes.SemanticTypeMismatch
          ("fixed array `" +:+ name +:+ "` requires an index before use as a scalar value")
      else mret (vi_type v)
  end.

Fixpoint expressionType (e : AST_EXPRESSION_RULE) : SA ShortType :=
  match e with
  | AST_LITERAL _ _ => mret TInt
  | AST_BOOL_LITERAL _ _ => mret TBoolean
  | AST_FLOAT_LITERAL _ _ => mret TFloat
  | AST_STRING_LITERAL _ _ => mret TString
  | AST_SIMPLE_VARIABLE n name => simple_variable_type n name
  | AST_ARRAY_VARIABLE n name index =>
      found ← reads (lookupType name);
      match found with
      | None => type_error n Codes.SemanticUndeclaredVariable ("undeclared array: " +:+ name)
      | Some v =>
          if negb (is_array v) then
            type_error n Codes.SemanticTypeMismatch ("scalar `" +:+ name +:+ "` cannot be indexed")
          else
            index_type ← expressionType index;
            error_if (negb (bool_decide (index_type = TInt))) (expression_node index)
              Codes.SemanticTypeMismatch "array index must have type int";;
            mret (vi_type v)
      end
  | AST_UNARY_EXPRESSION_RULE n operand _ =>
      t ← expressionType operand;
      if negb (numeric t) then
        type_error n Codes.SemanticInvalidOperator "unary minus requires int or float operand"
      else mret t
  | AST_BINARY_EXPRESSION_RULE n e1 e2 op =>
      l ← expressionType e1;
      r ← expressionType e2;
      binary_type n op l r
  | AST_FUNCTION_CALL_EXPRESSION n name arguments =>
      validateCallTypes expressionType n name arguments;;
      returns ← reads function_return_types;
      mret (default TVoid (returns !! name))
  end.

Definition requireConditionType (n : N) (e : AST_EXPRESSION_RULE) : SA bool :=
  t ← expressionType e;
  if bool_decide (t = TBoolean) || bool_decide (t = TInt) then mret true
  else error_at n Codes.SemanticInvalidCondition "condition must have type bool or int";; mret false.

(** * Definite return *)

Definition is_transfer (s : AST_STATEMENT_RULE) : bool :=
  match s with AST_LABEL_RULE _ _ | AST_GOTO_STATEMENT_RULE _ _ _ => true | _ => false end.

(** [!ss.empty() && p(ss.back())] *)
Fixpoint back_satisfies (p : AST_STATEMENT_RULE → bool) (ss : list AST_STATEMENT_RULE) : bool :=
  match ss with
  | [] => false
  | s :: rest => match rest with [] => p s | _ => back_satisfies p rest end
  end.

Fixpoint definitelyReturns (s : AST_STATEMENT_RULE) : bool :=
  match s with
  | AST_RETURN_STATEMENT _ _ => true
  | AST_IF_ELSE_STATEMENT _ _ b1 b2 => definitelyReturns_block b1 && definitelyReturns_block b2
  | AST_BLOCK_STATEMENT b => definitelyReturns_block b
  | _ => false
  end
with definitelyReturns_block (b : AST_STATEMENTS_BLOCK) : bool :=
  match b with
  | Block _ _ ss =>
      if existsb is_transfer ss then back_satisfies definitelyReturns ss
      else existsb definitelyReturns ss
  end.

(** * Declarations *)

(** [scope.emplace(name, info)] on the innermost scope, with the error when
    the name was there. *)
Definition declare_name (n : N) (name : string) (info : VariableInfo) : SA unit :=
  a ← reads id;
  match local_scopes a with
  | [] => mret tt
  | scope :: rest =>
      match scope !! name with
      | Some _ =>
          error_at n Codes.SemanticDuplicateDeclaration ("duplicate declaration in lexical scope: " +:+ name)
      | None => update (set_local_scopes (<[name := info]> scope :: rest))
      end
  end.

Definition declareInCurrentScope (d : AST_DATA_DECLARATION_BLOCK) : SA unit :=
  for_each (λ e, declare_name (decl_node d) (ts_name e) {| vi_type := ts_type e; is_array := false |})
    (typed_scalars d);;
  for_each (λ e, declare_name (decl_node d) (ta_name e) {| vi_type := ta_type e; is_array := true |})
    (typed_arrays d).

(** [local_scopes.empty() && !names.insert(name).second] reported, and the
    set of names after it. *)
Definition check_unique (n : N) (name : string) (names : gset string) : SA (gset string) :=
  scopes ← reads local_scopes;
  match scopes with
  | [] =>
      error_if (bool_decide (name ∈ names)) n Codes.SemanticDuplicateDeclaration
        ("duplicate declaration: " +:+ name);;
      mret ({[name]} ∪ names)
  | _ => mret names
  end.

Definition check_descriptor (n : N) (d : Descriptors.TypeDescriptor) : SA unit :=
  let '(valid, type_diagnostic) := Descriptors.validate d in
  error_if (negb valid) n Codes.SemanticInvalidType type_diagnostic.

Definition check_scalar_type (n : N) (e : AST_TYPED_SCALAR_DECLARATION) : SA unit :=
  error_if (negb (isExecutableScalarType (ts_type e))) n Codes.SemanticUnsupportedExecutableType
    ("production executable semantics do not accept " +:+ shortTypeName (ts_type e) +:+ " declaration `" +:+
     ts_name e +:+ "`");;
  check_descriptor n (Descriptors.scalar (productionTypeKind (ts_type e))).

Fixpoint check_scalars (n : N) (names : gset string) (es : list AST_TYPED_SCALAR_DECLARATION) : SA (gset string) :=
  match es with
  | [] => mret names
  | e :: rest =>
      names' ← check_unique n (ts_name e) names;
      check_scalar_type n e;;
      check_scalars n names' rest
  end.

Definition check_array_type (n : N) (e : AST_TYPED_ARRAY_DECLARATION) : SA unit :=
  error_if (negb (isExecutableScalarType (ta_type e))) n Codes.SemanticUnsupportedExecutableType
    ("production executable semantics do not accept " +:+ shortTypeName (ta_type e) +:+ " array `" +:+
     ta_name e +:+ "`");;
  error_if (bool_decide (ta_type e = TString)) n Codes.SemanticUnsupportedExecutableType
    "string arrays require owned element destruction and are reserved by shorthand.type_memory.v1";;
  check_descriptor n
    (Descriptors.array (productionTypeKind (ta_type e)) (if ta_size e <? 0 then 0 else u64 (ta_size e))).

Fixpoint check_arrays (n : N) (names : gset string) (es : list AST_TYPED_ARRAY_DECLARATION) : SA (gset string) :=
  match es with
  | [] => mret names
  | e :: rest =>
      names' ← check_unique n (ta_name e) names;
      check_array_type n e;;
      check_arrays n names' rest
  end.

Definition visit_AST_DATA_DECLARATION_BLOCK (d : AST_DATA_DECLARATION_BLOCK) : SA unit :=
  names ← check_scalars (decl_node d) ∅ (typed_scalars d);
  check_arrays (decl_node d) names (typed_arrays d);;
  declareInCurrentScope d.

(** * Statements *)

Definition push_scope (scope : gmap string VariableInfo) : SA unit :=
  update (λ a, set_local_scopes (scope :: local_scopes a) a).
Definition pop_scope : SA unit := update (λ a, set_local_scopes (tail (local_scopes a)) a).

(** The labels of a block, with the first position of each. *)
Fixpoint scan_labels (i : nat) (ss : list AST_STATEMENT_RULE) (positions : gmap string nat) : SA (gmap string nat) :=
  match ss with
  | [] => mret positions
  | AST_LABEL_RULE n l :: rest =>
      match positions !! l with
      | Some _ =>
          error_at n Codes.SemanticDuplicateLabel ("duplicate label in lexical block: " +:+ l);;
          scan_labels (S i) rest positions
      | None => scan_labels (S i) rest (<[l := i]> positions)
      end
  | _ :: rest => scan_labels (S i) rest positions
  end.

Definition is_declaration (s : AST_STATEMENT_RULE) : bool :=
  match s with AST_DECLARATION_STATEMENT _ => true | _ => false end.

(** A declaration strictly between positions [i] and [j]. *)
Definition crosses_declaration (ss : list AST_STATEMENT_RULE) (i j : nat) : bool :=
  let low := Nat.min i j in
  let high := Nat.max i j in
  existsb is_declaration (take (high - S low) (drop (S low) ss)).

Definition check_jump (ss : list AST_STATEMENT_RULE) (positions : gmap string nat) (i : nat)
    (s : AST_STATEMENT_RULE) : SA unit :=
  match s with
  | AST_GOTO_STATEMENT_RULE n _ l =>
      match positions !! l with
      | Some target =>
          error_if (crosses_declaration ss i target) n Codes.SemanticInvalidGotoScope
            ("goto cannot cross a lexical declaration boundary: " +:+ l)
      | None => mret tt
      end
  | _ => mret tt
  end.

Section Statements.
Context (accept_statement : AST_STATEMENT_RULE → SA unit).

Fixpoint accept_statements (all : list AST_STATEMENT_RULE) (positions : gmap string nat) (i : nat)
    (ss : list AST_STATEMENT_RULE) : SA unit :=
  match ss with
  | [] => mret tt
  | s :: rest =>
      check_jump all positions i s;;
      accept_statement s;;
      accept_statements all positions (S i) rest
  end.

Definition visit_AST_STATEMENTS_BLOCK (lexical : bool) (ss : list AST_STATEMENT_RULE) : SA unit :=
  (if lexical then push_scope ∅ else mret tt);;
  positions ← scan_labels 0 ss ∅;
  update (λ a, set_block_label_scopes (dom positions :: block_label_scopes a) a);;
  accept_statements ss positions 0 ss;;
  update (λ a, set_block_label_scopes (tail (block_label_scopes a)) a);;
  (if lexical then pop_scope else mret tt).
End Statements.

(** The visit of an expression: only the composite ones are typed. *)
Definition accept_expression (e : AST_EXPRESSION_RULE) : SA unit :=
  match e with
  | AST_LITERAL _ _ | AST_BOOL_LITERAL _ _ | AST_FLOAT_LITERAL _ _ | AST_STRING_LITERAL _ _ => mret tt
  | AST_FUNCTION_CALL_EXPRESSION n name arguments => validateCallTypes expressionType n name arguments
  | _ => expressionType e;; mret tt
  end.

Definition visit_AST_FUNCTION_CALL_RULE (n : N) (name : string) (parameters : list AST_VARIABLE_RULE) : SA unit :=
  validateCallTypes expressionType n name (map var_expression parameters).

Definition visit_AST_ASSIGNMENT_RULE (n : N) (variable : AST_VARIABLE_RULE) (e : AST_EXPRESSION_RULE) : SA unit :=
  target ← expressionType (var_expression variable);
  source ← expressionType e;
  if negb (bool_decide (target = TVoid)) && bool_decide (source = TVoid) then
    error_at (expression_node e) Codes.SemanticVoidValueUsed
      "assignment source requires a value but received void"
  else
    error_if (negb (bool_decide (target = TVoid)) && negb (bool_decide (target = source))) n
      Codes.SemanticTypeMismatch
      ("assignment requires identical types; target=" +:+ shortTypeName target +:+ " source=" +:+
       shortTypeName source +:+ ". Use an explicit checked conversion when conversion syntax is available.").

Definition visit_AST_MODEL_DECLARATION (n : N) (d : ModelDeclarationData) : SA unit :=
  known ← reads models;
  error_if (bool_decide (md_name d ∈ dom known)) n Codes.AIModelRedeclared ("model redeclared: " +:+ md_name d);;
  update (λ a, set_models (<[md_name d := d]> (models a)) a);;
  let format := parseModelFormat (md_format d) in
  error_if (is_empty (md_format d) || bool_decide (format = FormatUnknown)) n Codes.AIModelInvalidFormat
    ("model " +:+ md_name d +:+ " missing or invalid format");;
  error_if (bool_decide (parseElementType (md_precision d) = ElementUnknown)) n Codes.AIModelInvalidPrecision
    ("model " +:+ md_name d +:+ " has invalid precision");;
  error_if (is_empty (md_input_shape d) || negb (validShape (md_input_shape d))) n
    Codes.AIModelInvalidInputShape ("model " +:+ md_name d +:+ " has invalid input_shape");;
  error_if (negb (is_empty (md_output_shape d)) && negb (validShape (md_output_shape d))) n
    Codes.AIModelInvalidOutputShape ("model " +:+ md_name d +:+ " has invalid output_shape");;
  error_if (bool_decide (md_quality_guardrail d = None)) n Codes.AIModelMissingQualityGuardrail
    ("model " +:+ md_name d +:+ " requires quality_guardrail");;
  for_each (λ backend,
    let kind := parseBackendKind backend in
    if bool_decide (kind = Fallback) || backendCompatibleWithFormat format kind then mret tt
    else
      warning_at n Codes.AIModelIncompatibleBackend
        ("model " +:+ md_name d +:+ " backend_preference " +:+ backend +:+ " is not compatible with format " +:+
         md_format d))
    (md_backend_preference d);;
  let kinds := map parseBackendKind (md_backend_preference d) in
  let hasFallback := existsb (λ k, bool_decide (k = Fallback)) kinds in
  let hasCompatibleRealBackend :=
    existsb (λ k, negb (bool_decide (k = Fallback)) && backendCompatibleWithFormat format k) kinds in
  (if bool_decide (md_backend_preference d = []) then
     warning_at n Codes.AIModelMissingBackendPreference
       ("model " +:+ md_name d +:+ " has no backend_preference; fallback will be used if allowed")
   else mret tt);;
  error_if (negb (bool_decide (md_backend_preference d = [])) && negb hasCompatibleRealBackend &&
            negb hasFallback) n Codes.AIModelNoCompatibleBackend
    ("model " +:+ md_name d +:+ " has no compatible backend_preference for format " +:+ md_format d).

Definition visit_AST_TENSOR_DECLARATION (n : N) (d : TensorDeclarationData) : SA unit :=
  known ← reads tensors;
  error_if (bool_decide (td_name d ∈ dom known)) n Codes.AITensorRedeclared ("tensor redeclared: " +:+ td_name d);;
  update (λ a, set_tensors (<[td_name d := d]> (tensors a)) a);;
  error_if (negb (validShape (td_shape_csv d))) n Codes.AITensorInvalidShape
    ("invalid tensor shape for " +:+ td_name d).

Definition visit_AST_GREENAI_CONTRACT (n : N) (d : GreenAIContractData) : SA unit :=
  update (λ a, set_contracts (<[gc_name d := d]> (contracts a)) a);;
  let name := "greenai_contract " +:+ gc_name d in
  error_if (negb (gc_has_functional_unit d)) n Codes.GreenAIMissingFunctionalUnit
    (name +:+ " missing functional_unit");;
  error_if (negb (gc_has_success_criteria d)) n Codes.GreenAIMissingSuccessCriteria
    (name +:+ " missing success_criteria");;
  error_if (negb (gc_has_boundary d)) n Codes.GreenAIMissingBoundary (name +:+ " missing boundary");;
  error_if (negb (gc_has_mq d) || negb (gc_has_dq d)) n Codes.GreenAIMissingMeasurementOrDataQuality
    (name +:+ " requires MQ/DQ");;
  error_if (negb (gc_has_carbon_factor d) || dleb (gc_carbon_factor d) dzero) n Codes.GreenAIInvalidCarbonFactor
    (name +:+ " requires positive carbon_factor");;
  error_if (bool_decide (gc_quality_guardrail d = None)) n Codes.GreenAIMissingQualityGuardrail
    (name +:+ " requires quality_guardrail");;
  error_if (negb (String.eqb (gc_claims_mode d) "evidence_only")) n Codes.GreenAIInvalidClaimsMode
    "claims_mode must be evidence_only";;
  error_if (dltb (gc_energy_budget_j d) dzero || dltb (gc_carbon_budget_gco2e d) dzero) n
    Codes.GreenAIInvalidBudget "budgets must be non-negative".

Definition visit_AST_GREENAI_MEASUREMENT (n : N) (d : GreenAIMeasurementData) : SA unit :=
  a ← reads id;
  error_if (negb (bool_decide (contracts a = ∅)) && negb (bool_decide (gm_workload d ∈ dom (contracts a)))) n
    Codes.GreenAIMeasureUnknownContract
    ("greenai_measure references unknown contract: " +:+ gm_workload d);;
  if negb (bool_decide (models a = ∅)) && negb (bool_decide (gm_backend d ∈ dom (models a))) then
    warning_at n Codes.GreenAIMeasureExternalBackend
      ("greenai_measure backend " +:+ gm_backend d +:+
       " is not a declared model; treating as external measurement source")
  else mret tt.

Definition visit_AST_INFER_STATEMENT (n : N) (model_name input_name output_name : string) : SA unit :=
  a ← reads id;
  error_if (negb (bool_decide (model_name ∈ dom (models a)))) n Codes.AIInferUnknownModel
    ("infer references unknown model: " +:+ model_name);;
  error_if (negb (bool_decide (tensors a = ∅)) && negb (bool_decide (input_name ∈ dom (tensors a)))) n
    Codes.AIInferUnknownInputTensor ("infer references unknown input tensor: " +:+ input_name);;
  match models a !! model_name, tensors a !! input_name with
  | Some model, Some tensor =>
      error_if (negb (shapeCompatible (md_input_shape model) (td_shape_csv tensor))) n
        Codes.AIInferInputShapeMismatch
        ("infer input tensor shape " +:+ td_shape_csv tensor +:+ " does not match model " +:+ md_name model +:+
         " input_shape " +:+ md_input_shape model);;
      match tensors a !! output_name with
      | Some outTensor =>
          error_if (negb (is_empty (md_output_shape model)) &&
                    negb (shapeCompatible (md_output_shape model) (td_shape_csv outTensor))) n
            Codes.AIInferOutputShapeMismatch
            ("infer output tensor shape " +:+ td_shape_csv outTensor +:+ " does not match model " +:+
             md_name model +:+ " output_shape " +:+ md_output_shape model)
      | None =>
          warning_at n Codes.AIInferImplicitOutput
            ("infer output " +:+ output_name +:+
             " is implicit; declare a tensor to enable output_shape validation")
      end
  | _, _ => mret tt
  end.

Definition visit_AST_BREAK (n : N) : SA unit :=
  depth ← reads loopDepth;
  error_if (depth =? 0) n Codes.SemanticBreakOutsideLoop "break outside loop".

Definition visit_AST_CONTINUE (n : N) : SA unit :=
  depth ← reads loopDepth;
  error_if (depth =? 0) n Codes.SemanticContinueOutsideLoop "continue outside loop".

Definition enter_loop : SA unit := update (λ a, set_loopDepth (loopDepth a + 1) a).
Definition leave_loop : SA unit := update (λ a, set_loopDepth (loopDepth a - 1) a).

Definition check_counted_loop (n : N) (variable : AST_VARIABLE_RULE) (from step to : AST_EXPRESSION_RULE) : SA unit :=
  v ← expressionType (var_expression variable);
  f ← expressionType from;
  s ← expressionType step;
  t ← expressionType to;
  error_if (negb (bool_decide (v = TInt)) || negb (bool_decide (f = TInt)) ||
            negb (bool_decide (s = TInt)) || negb (bool_decide (t = TInt))) n Codes.SemanticTypeMismatch
    "counted loop variable, start, step and bound must all have type int".

Definition visit_AST_GOTO_STATEMENT_RULE (n : N) (condition : option AST_EXPRESSION_RULE) (label : string) : SA unit :=
  scopes ← reads block_label_scopes;
  (if match scopes with labels :: _ => bool_decide (label ∈ labels) | [] => false end then mret tt
   else if existsb (λ labels, bool_decide (label ∈ labels)) (tail scopes) then
     error_at n Codes.SemanticInvalidGotoScope ("goto cannot leave its lexical block: " +:+ label)
   else
     error_at n Codes.SemanticUndefinedLabel
       ("goto target is not defined in the current lexical block: " +:+ label));;
  match condition with
  | Some c => requireConditionType n c;; mret tt
  | None => mret tt
  end.

Definition visit_AST_READ_RULE (variables : list AST_VARIABLE_RULE) : SA unit :=
  for_each (λ variable,
    t ← expressionType (var_expression variable);
    error_if (bool_decide (t = TString)) (expression_node (var_expression variable))
      Codes.SemanticUnsupportedExecutableType
      "read into string is unavailable until a bounded input-capacity syntax is declared") variables.

Definition visit_AST_PRINT_RULE (printables : list AST_PRINTABLE_ITEM) : SA unit :=
  for_each (λ item,
    match item with
    | PrintExpression e =>
        t ← expressionType e;
        error_if (bool_decide (t = TVoid)) (expression_node e) Codes.SemanticVoidValueUsed
          "print requires a value and cannot consume void"
    | PrintString n text => expressionType (AST_STRING_LITERAL n text);; mret tt
    end) printables.

Definition visit_AST_GREENAI_REPORT_RULE (n : N) (inferences watts seconds : AST_EXPRESSION_RULE) : SA unit :=
  i ← expressionType inferences;
  w ← expressionType watts;
  s ← expressionType seconds;
  error_if (negb (bool_decide (i = TInt)) || negb (bool_decide (w = TInt)) || negb (bool_decide (s = TInt))) n
    Codes.SemanticTypeMismatch
    "greenai report inferences, watts and seconds require exact int values; implicit measurement conversion is forbidden".

(** The type of a returned expression against the one declared. *)
Definition check_returned (n : N) (declared : ShortType) (e : AST_EXPRESSION_RULE) : SA unit :=
  actual ← expressionType e;
  if bool_decide (actual = TVoid) then
    error_at (expression_node e) Codes.SemanticVoidValueUsed
      "return expression requires a value but received void"
  else
    error_if (negb (bool_decide (actual = declared))) n Codes.SemanticReturnTypeMismatch
      ("return expression has type " +:+ shortTypeName actual +:+ " but function returns " +:+
       shortTypeName declared).

Definition visit_AST_RETURN_STATEMENT (n : N) (expression : option AST_EXPRESSION_RULE) : SA unit :=
  types ← reads return_types;
  match types with
  | [] =>
      error_at n Codes.SemanticReturnOutsideFunction "return outside function";;
      match expression with Some e => expressionType e;; mret tt | None => mret tt end
  | declared :: _ =>
      match expression with
      | Some e =>
          if bool_decide (declared = TVoid) then
            error_at n Codes.SemanticReturnTypeMismatch "void function cannot return a value"
          else check_returned n declared e
      | None =>
          error_if (negb (bool_decide (declared = TVoid))) n Codes.SemanticReturnTypeMismatch
            "non-void function must return a value"
      end
  end.

Fixpoint visit_statement (st : AST_STATEMENT_RULE) : SA unit :=
  match st with
  | AST_DECLARATION_STATEMENT d => visit_AST_DATA_DECLARATION_BLOCK d
  | AST_EXPRESSION_STATEMENT_RULE _ e => accept_expression e
  | AST_FUNCTION_CALL_RULE n f args => visit_AST_FUNCTION_CALL_RULE n f args
  | AST_BREAK n => visit_AST_BREAK n
  | AST_CONTINUE n => visit_AST_CONTINUE n
  | AST_RETURN_STATEMENT n e => visit_AST_RETURN_STATEMENT n e
  | AST_ASSIGNMENT_RULE n v e => visit_AST_ASSIGNMENT_RULE n v e
  | AST_BLOCK_STATEMENT b => visit_block b
  | AST_IF_STATEMENT n c b => requireConditionType n c;; visit_block b
  | AST_IF_ELSE_STATEMENT n c b1 b2 => requireConditionType n c;; visit_block b1;; visit_block b2
  | AST_FOR_LOOP_STATEMENT_RULE n v from step to b =>
      check_counted_loop n v from step to;; enter_loop;; visit_block b;; leave_loop
  | AST_WHILE_LOOP_STATEMENT_RULE n c b =>
      requireConditionType n c;; enter_loop;; visit_block b;; leave_loop
  | AST_GOTO_STATEMENT_RULE n c l => visit_AST_GOTO_STATEMENT_RULE n c l
  | AST_READ_RULE _ vs => visit_AST_READ_RULE vs
  | AST_PRINT_RULE _ ps => visit_AST_PRINT_RULE ps
  | AST_LABEL_RULE _ _ => mret tt
  | AST_GREENAI_REPORT_RULE n _ i w s => visit_AST_GREENAI_REPORT_RULE n i w s
  | AST_AI_INFER_RULE _ _ _ _ => mret tt
  | AST_MODEL_DECLARATION n d => visit_AST_MODEL_DECLARATION n d
  | AST_TENSOR_DECLARATION n d => visit_AST_TENSOR_DECLARATION n d
  | AST_GREENAI_CONTRACT n d => visit_AST_GREENAI_CONTRACT n d
  | AST_GREENAI_MEASUREMENT n d => visit_AST_GREENAI_MEASUREMENT n d
  | AST_C3ECO_DECLARATION n d => visit_AST_C3ECO_DECLARATION n d
  | AST_INFER_STATEMENT n m i o => visit_AST_INFER_STATEMENT n m i o
  end
with visit_block (b : AST_STATEMENTS_BLOCK) : SA unit :=
  match b with Block _ lexical ss => visit_AST_STATEMENTS_BLOCK visit_statement lexical ss end.

(** * Functions and programs *)

(** [scope.emplace] over the parameters: the first declaration of a name. *)
Definition parameter_scope (d : AST_DATA_DECLARATION_BLOCK) : gmap string VariableInfo :=
  let add scope (x : string * VariableInfo) :=
    match scope !! x.1 with Some _ => scope | None => <[x.1 := x.2]> scope end in
  foldl add ∅
    (map (λ e, (ts_name e, {| vi_type := ts_type e; is_array := false |})) (typed_scalars d) ++
     map (λ e, (ta_name e, {| vi_type := ta_type e; is_array := true |})) (typed_arrays d))%list.

Definition visit_AST_FUNCTION_RULE (f : AST_FUNCTION_RULE) : SA unit :=
  visit_AST_DATA_DECLARATION_BLOCK (parameters f);;
  error_if (negb (bool_decide (array_ints (parameters f) = []))) (fn_node f)
    Codes.SemanticUnsupportedExecutableType
    "array parameters are not part of the beta-0.4 executable function contract";;
  push_scope (parameter_scope (parameters f));;
  update (λ a, set_return_types (fn_type f :: return_types a) a);;
  saved_loop_depth ← reads loopDepth;
  update (set_loopDepth 0);;
  visit_block (block_statement f);;
  error_if (negb (bool_decide (fn_type f = TVoid)) && negb (definitelyReturns_block (block_statement f)))
    (fn_node f) Codes.SemanticMissingReturn
    ("non-void function `" +:+ function_name f +:+ "` does not return a value on every structured path");;
  update (set_loopDepth saved_loop_depth);;
  update (λ a, set_return_types (tail (return_types a)) a);;
  pop_scope.

(** The first loop of the function list, with the names seen. *)
Fixpoint declare_functions (local_names : gset string) (fs : list AST_FUNCTION_RULE) : SA unit :=
  match fs with
  | [] => mret tt
  | f :: rest =>
      let name := function_name f in
      imported ← reads imported_functions;
      error_if (bool_decide (name ∈ local_names) || bool_decide (name ∈ imported)) (fn_node f)
        Codes.SemanticDuplicateFunction ("duplicate function definition: " +:+ name);;
      update (λ a,
        set_function_parameter_types (<[name := parameter_type_list (parameters f)]> (function_parameter_types a))
          (set_function_return_types (<[name := fn_type f]> (function_return_types a))
             (set_function_arity (<[name := parameter_count (parameters f)]> (function_arity a))
                (set_functions_ ({[name]} ∪ functions_ a) a))));;
      declare_functions ({[name]} ∪ local_names) rest
  end.

Definition visit_AST_FUNCTION_LIST_RULE (fs : list AST_FUNCTION_RULE) : SA unit :=
  declare_functions ∅ fs;;
  for_each visit_AST_FUNCTION_RULE fs.

Definition visit_AST_LOGIC_BLOCK (b : AST_STATEMENTS_BLOCK) : SA unit :=
  push_scope ∅;; visit_block b;; pop_scope.

Definition enter_program (p : AST_PROGRAM) (a : SemanticAnalyzer) : SemanticAnalyzer :=
  set_global_array_types (foldl (λ m e, <[ta_name e := ta_type e]> m) ∅ (typed_arrays (decl_block p)))
    (set_global_types (foldl (λ m e, <[ts_name e := ts_type e]> m) ∅ (typed_scalars (decl_block p)))
       (set_globals (globalNames p)
          (set_c3eco_profile_nodes [] (set_c3eco_declarations ∅ a)))).

(** The exit status of the visit is 1 when an error was reported. *)
Definition visit_AST_PROGRAM (p : AST_PROGRAM) : SA Z :=
  update (enter_program p);;
  visit_AST_DATA_DECLARATION_BLOCK (decl_block p);;
  visit_AST_FUNCTION_LIST_RULE (functions p);;
  visit_AST_LOGIC_BLOCK (code_block p);;
  validateC3EcoProfiles;;
  d ← reads diagnostics;
  mret (if hasErrors d then 1 else 0).

(** A program that semantic analysis accepts. *)
Definition accepted (t : range_table) (p : AST_PROGRAM) : bool :=
  let '(status, _) := visit_AST_PROGRAM p (new_analyzer t) in status =? 0.
