(* ===== verification/Checker.v ===== *)
(** The reference type system of the executable language.

    This is the specification that semantic analysis implements and that the
    interpreter relies on: a declarative checker without diagnostics, counters
    or mutable scopes.  [type_of] gives the type of an expression, if it has
    one; [check_statement] checks a statement in a context and returns the
    scopes after it; [check_program] checks a program.  The local scopes are a
    list with the innermost first, and the scope of the globals comes last. *)
From S2P Require Import Prelude CxxInt CxxString CxxFloat TypeSystem Ast AiTypes Diagnostics.
From S2P Require Import AnalyzerState SemanticAnalyzer.
Open Scope string_scope.
Open Scope Z_scope.

Abbreviation scope := (gmap string VariableInfo).
Abbreviation signatures := (gmap string (list ShortType * ShortType)).

(** * Trees the parser builds *)

Fixpoint expression_ok (e : AST_EXPRESSION_RULE) : bool :=
  match e with
  | AST_LITERAL _ z => (INT32_MIN <=? z) && (z <=? INT32_MAX)
  | AST_BOOL_LITERAL _ _ | AST_FLOAT_LITERAL _ _ | AST_STRING_LITERAL _ _ | AST_SIMPLE_VARIABLE _ _ => true
  | AST_ARRAY_VARIABLE _ _ i => expression_ok i
  | AST_UNARY_EXPRESSION_RULE _ e op => bool_decide (op = UMINUS) && expression_ok e
  | AST_BINARY_EXPRESSION_RULE _ e1 e2 _ => expression_ok e1 && expression_ok e2
  | AST_FUNCTION_CALL_EXPRESSION _ f args => forallb expression_ok args
  end.

Definition variable_ok (v : AST_VARIABLE_RULE) : bool := expression_ok (var_expression v).

Definition option_ok (e : option AST_EXPRESSION_RULE) : bool :=
  match e with Some e => expression_ok e | None => true end.

Definition printable_ok (i : AST_PRINTABLE_ITEM) : bool :=
  match i with PrintExpression e => expression_ok e | PrintString _ _ => true end.

(** Every block inside a statement opens a lexical scope, as the braces of the
    grammar make it, and the operands of every node are well formed. *)
Fixpoint statement_ok (s : AST_STATEMENT_RULE) : bool :=
  match s with
  | AST_DECLARATION_STATEMENT d => decl_block_okb d
  | AST_EXPRESSION_STATEMENT_RULE _ e => expression_ok e
  | AST_FUNCTION_CALL_RULE _ _ vs => forallb variable_ok vs
  | AST_RETURN_STATEMENT _ e => option_ok e
  | AST_ASSIGNMENT_RULE _ v e => variable_ok v && expression_ok e
  | AST_BLOCK_STATEMENT b => block_ok b
  | AST_IF_STATEMENT _ c b => expression_ok c && block_ok b
  | AST_IF_ELSE_STATEMENT _ c b1 b2 => expression_ok c && block_ok b1 && block_ok b2
  | AST_FOR_LOOP_STATEMENT_RULE _ v from step to b =>
      variable_ok v && expression_ok from && expression_ok step && expression_ok to && block_ok b
  | AST_WHILE_LOOP_STATEMENT_RULE _ c b => expression_ok c && block_ok b
  | AST_GOTO_STATEMENT_RULE _ c _ => option_ok c
  | AST_READ_RULE _ vs => forallb variable_ok vs
  | AST_PRINT_RULE _ ps => forallb printable_ok ps
  | AST_GREENAI_REPORT_RULE _ _ i w t => expression_ok i && expression_ok w && expression_ok t
  | _ => true
  end
with block_ok (b : AST_STATEMENTS_BLOCK) : bool :=
  match b with Block _ lexical ss => lexical && forallb statement_ok ss end.

Definition function_ok (f : AST_FUNCTION_RULE) : bool :=
  decl_block_okb (parameters f) && negb (lexical_scope (block_statement f)) &&
  negb (is_empty (function_name f)) && forallb statement_ok (statements (block_statement f)).

(** The unbraced logic block holds no declaration of its own. *)
Definition program_ok (p : AST_PROGRAM) : bool :=
  decl_block_okb (decl_block p) && forallb function_ok (functions p) &&
  negb (lexical_scope (code_block p)) && forallb statement_ok (statements (code_block p)) &&
  negb (existsb is_declaration (statements (code_block p))).

(** * Expressions *)

Definition op_type (op : binary_op) (t : ShortType) : option ShortType :=
  match classify op with
  | Arithmetic =>
      if numeric t && negb (bool_decide (op = MODULO) && negb (bool_decide (t = TInt))) then Some t else None
  | Equality => Some TBoolean
  | Ordering => if numeric t then Some TBoolean else None
  | Logical => if bool_decide (t = TBoolean) || bool_decide (t = TInt) then Some TBoolean else None
  | UnknownOp => None
  end.

Section Arguments.
Context (type_of : AST_EXPRESSION_RULE → option ShortType).
Fixpoint arguments_match (ps : list ShortType) (args : list AST_EXPRESSION_RULE) {struct args} : bool :=
  match args, ps with
  | [], [] => true
  | a :: args, p :: ps =>
      match type_of a with
      | Some t => negb (bool_decide (t = TVoid)) && bool_decide (t = p) && arguments_match ps args
      | None => false
      end
  | _, _ => false
  end.
End Arguments.

Section Checker.
Context (F : signatures) (G : scope).

Definition lookup_variable (L : list scope) (x : string) : option VariableInfo :=
  match lookup_scopes x L with Some v => Some v | None => G !! x end.

Fixpoint type_of (L : list scope) (e : AST_EXPRESSION_RULE) : option ShortType :=
  match e with
  | AST_LITERAL _ _ => Some TInt
  | AST_BOOL_LITERAL _ _ => Some TBoolean
  | AST_FLOAT_LITERAL _ _ => Some TFloat
  | AST_STRING_LITERAL _ _ => Some TString
  | AST_SIMPLE_VARIABLE _ x =>
      match lookup_variable L x with
      | Some v => if is_array v then None else Some (vi_type v)
      | None => None
      end
  | AST_ARRAY_VARIABLE _ x i =>
      match lookup_variable L x with
      | Some v => if is_array v && bool_decide (type_of L i = Some TInt) then Some (vi_type v) else None
      | None => None
      end
  | AST_UNARY_EXPRESSION_RULE _ e _ =>
      match type_of L e with
      | Some t => if numeric t then Some t else None
      | None => None
      end
  | AST_BINARY_EXPRESSION_RULE _ e1 e2 op =>
      match type_of L e1, type_of L e2 with
      | Some l, Some r =>
          if negb (bool_decide (l = TVoid)) && bool_decide (l = r) then op_type op l else None
      | _, _ => None
      end
  | AST_FUNCTION_CALL_EXPRESSION _ f args =>
      match F !! f with
      | Some (ps, r) => if arguments_match (type_of L) ps args then Some r else None
      | None => None
      end
  end.

Definition has_type (L : list scope) (e : AST_EXPRESSION_RULE) (t : ShortType) : bool :=
  bool_decide (type_of L e = Some t).

Definition condition_ok (L : list scope) (e : AST_EXPRESSION_RULE) : bool :=
  has_type L e TBoolean || has_type L e TInt.

(** * Declarations *)

Definition declared_entries (d : AST_DATA_DECLARATION_BLOCK) : list (string * VariableInfo) :=
  (map (λ e, (ts_name e, {| vi_type := ts_type e; is_array := false |})) (typed_scalars d) ++
   map (λ e, (ta_name e, {| vi_type := ta_type e; is_array := true |})) (typed_arrays d))%list.

(** New names only. *)
Fixpoint declare_entries (es : list (string * VariableInfo)) (l : scope) : option scope :=
  match es with
  | [] => Some l
  | (x, v) :: rest =>
      match l !! x with
      | Some _ => None
      | None => declare_entries rest (<[x := v]> l)
      end
  end.

Definition declaration_types_ok (d : AST_DATA_DECLARATION_BLOCK) : bool :=
  forallb (λ e, isExecutableScalarType (ts_type e)) (typed_scalars d) &&
  forallb (λ e, isExecutableScalarType (ta_type e) && negb (bool_decide (ta_type e = TString)) && (0 <? ta_size e))
    (typed_arrays d).

(** No name of a declaration is the name of a global. *)
Definition avoids_globals (d : AST_DATA_DECLARATION_BLOCK) : bool :=
  forallb (λ e : string * VariableInfo, bool_decide (G !! e.1 = None)) (declared_entries d).

Definition check_declaration (L : list scope) (d : AST_DATA_DECLARATION_BLOCK) : option (list scope) :=
  match L with
  | [] => None
  | l :: rest =>
      if declaration_types_ok d && avoids_globals d then
        match declare_entries (declared_entries d) l with
        | Some l' => Some (l' :: rest)
        | None => None
        end
      else None
  end.

(** * Statements *)

Record context := { c_return : option ShortType; c_loop : bool; c_labels : gset string }.

Definition in_loop (C : context) : context :=
  {| c_return := c_return C; c_loop := true; c_labels := c_labels C |}.

Definition return_ok (C : context) (L : list scope) (e : option AST_EXPRESSION_RULE) : bool :=
  match c_return C with
  | None => false
  | Some t =>
      match e with
      | None => bool_decide (t = TVoid)
      | Some e => negb (bool_decide (t = TVoid)) && has_type L e t
      end
  end.

Definition assignable (L : list scope) (v : AST_VARIABLE_RULE) (e : AST_EXPRESSION_RULE) : bool :=
  match type_of L (var_expression v) with
  | Some t => negb (bool_decide (t = TVoid)) && has_type L e t
  | None => false
  end.

Definition readable (L : list scope) (v : AST_VARIABLE_RULE) : bool :=
  match type_of L (var_expression v) with
  | Some t => negb (bool_decide (t = TVoid)) && negb (bool_decide (t = TString))
  | None => false
  end.

Definition printable (L : list scope) (i : AST_PRINTABLE_ITEM) : bool :=
  match i with
  | PrintExpression e => match type_of L e with Some t => negb (bool_decide (t = TVoid)) | None => false end
  | PrintString _ _ => true
  end.

Definition call_ok (L : list scope) (f : string) (args : list AST_EXPRESSION_RULE) : bool :=
  match F !! f with
  | Some (ps, _) => arguments_match (type_of L) ps args
  | None => false
  end.

Definition counted_ok (L : list scope) (v : AST_VARIABLE_RULE) (from step to : AST_EXPRESSION_RULE) : bool :=
  has_type L (var_expression v) TInt && has_type L from TInt && has_type L step TInt && has_type L to TInt.

(** The first position of every label of a block. *)
Fixpoint label_positions (i : nat) (ss : list AST_STATEMENT_RULE) (m : gmap string nat) : gmap string nat :=
  match ss with
  | [] => m
  | s :: rest =>
      label_positions (S i) rest
        (match as_label s with
         | Some l => match m !! l with Some _ => m | None => <[l := i]> m end
         | None => m
         end)
  end.

Definition block_labels (ss : list AST_STATEMENT_RULE) : gmap string nat := label_positions 0 ss ∅.

(** No jump between statements of the list crosses a declaration. *)
Fixpoint jumps_ok (all : list AST_STATEMENT_RULE) (i : nat) (ss : list AST_STATEMENT_RULE) : bool :=
  match ss with
  | [] => true
  | s :: rest =>
      (match s with
       | AST_GOTO_STATEMENT_RULE _ _ l =>
           match block_labels all !! l with
           | Some target => negb (crosses_declaration all i target)
           | None => true
           end
       | _ => true
       end) && jumps_ok all (S i) rest
  end.

Definition keep (b : bool) (L : list scope) : option (list scope) := if b then Some L else None.

Section Statements.
Context (check_statement : list scope → AST_STATEMENT_RULE → option (list scope)).
Fixpoint check_statements (L : list scope) (ss : list AST_STATEMENT_RULE) {struct ss} : option (list scope) :=
  match ss with
  | [] => Some L
  | s :: rest =>
      match check_statement L s with
      | Some L' => check_statements L' rest
      | None => None
      end
  end.
End Statements.

Definition block_context (C : context) (ss : list AST_STATEMENT_RULE) : context :=
  {| c_return := c_return C; c_loop := c_loop C; c_labels := dom (block_labels ss) |}.

Fixpoint check_statement (C : context) (L : list scope) (s : AST_STATEMENT_RULE) {struct s} : option (list scope) :=
  match s with
  | AST_DECLARATION_STATEMENT d => check_declaration L d
  | AST_EXPRESSION_STATEMENT_RULE _ e => keep (bool_decide (type_of L e ≠ None)) L
  | AST_FUNCTION_CALL_RULE _ f vs => keep (call_ok L f (map var_expression vs)) L
  | AST_BREAK _ | AST_CONTINUE _ => keep (c_loop C) L
  | AST_RETURN_STATEMENT _ e => keep (return_ok C L e) L
  | AST_ASSIGNMENT_RULE _ v e => keep (assignable L v e) L
  | AST_BLOCK_STATEMENT b => keep (check_block C L b) L
  | AST_IF_STATEMENT _ c b => keep (condition_ok L c && check_block C L b) L
  | AST_IF_ELSE_STATEMENT _ c b1 b2 => keep (condition_ok L c && check_block C L b1 && check_block C L b2) L
  | AST_FOR_LOOP_STATEMENT_RULE _ v from step to b =>
      keep (counted_ok L v from step to && check_block (in_loop C) L b) L
  | AST_WHILE_LOOP_STATEMENT_RULE _ c b => keep (condition_ok L c && check_block (in_loop C) L b) L
  | AST_GOTO_STATEMENT_RULE _ c l =>
      keep (bool_decide (l ∈ c_labels C) && match c with Some c => condition_ok L c | None => true end) L
  | AST_READ_RULE _ vs => keep (forallb (readable L) vs) L
  | AST_PRINT_RULE _ ps => keep (forallb (printable L) ps) L
  | AST_GREENAI_REPORT_RULE _ _ i w t => keep (has_type L i TInt && has_type L w TInt && has_type L t TInt) L
  | _ => Some L
  end
with check_block (C : context) (L : list scope) (b : AST_STATEMENTS_BLOCK) {struct b} : bool :=
  match b with
  | Block _ lexical ss =>
      lexical && jumps_ok ss 0 ss &&
      match check_statements (check_statement (block_context C ss)) (∅ :: L) ss with
      | Some _ => true
      | None => false
      end
  end.

(** A list of statements run in the scopes [L] themselves: the body of a
    function or the logic block. *)
Definition check_body (ret : option ShortType) (L : list scope) (ss : list AST_STATEMENT_RULE) : bool :=
  let C := {| c_return := ret; c_loop := false; c_labels := dom (block_labels ss) |} in
  jumps_ok ss 0 ss && bool_decide (check_statements (check_statement C) L ss ≠ None).

Definition check_function (f : AST_FUNCTION_RULE) : bool :=
  declaration_types_ok (parameters f) && avoids_globals (parameters f) &&
  bool_decide (typed_arrays (parameters f) = []) &&
  match declare_entries (declared_entries (parameters f)) ∅ with
  | Some l => check_body (Some (fn_type f)) [l] (statements (block_statement f))
  | None => false
  end &&
  (bool_decide (fn_type f = TVoid) || definitelyReturns_block (block_statement f)).
End Checker.

(** * Locals and globals

    The interpreter looks a name up in the frames of all active calls, so a
    local that hides a global is visible to the functions it calls.  The type
    system is sound for programs whose locals and parameters do not reuse the
    name of a global. *)
Fixpoint statement_avoids (G : scope) (s : AST_STATEMENT_RULE) : bool :=
  match s with
  | AST_DECLARATION_STATEMENT d => avoids_globals G d
  | AST_BLOCK_STATEMENT b => block_avoids G b
  | AST_IF_STATEMENT _ _ b => block_avoids G b
  | AST_IF_ELSE_STATEMENT _ _ b1 b2 => block_avoids G b1 && block_avoids G b2
  | AST_FOR_LOOP_STATEMENT_RULE _ _ _ _ _ b => block_avoids G b
  | AST_WHILE_LOOP_STATEMENT_RULE _ _ b => block_avoids G b
  | _ => true
  end
with block_avoids (G : scope) (b : AST_STATEMENTS_BLOCK) : bool :=
  match b with Block _ _ ss => forallb (statement_avoids G) ss end.

Definition global_scope (p : AST_PROGRAM) : scope :=
  default ∅ (declare_entries (declared_entries (decl_block p)) ∅).

Definition locals_apart (p : AST_PROGRAM) : bool :=
  forallb (λ f, avoids_globals (global_scope p) (parameters f) && block_avoids (global_scope p) (block_statement f))
    (functions p) &&
  block_avoids (global_scope p) (code_block p).

(** * Programs *)

Definition program_signatures (p : AST_PROGRAM) : signatures :=
  foldl (λ m f, <[function_name f := (parameter_type_list (parameters f), fn_type f)]> m) ∅ (functions p).

Definition check_program (p : AST_PROGRAM) : bool :=
  declaration_types_ok (decl_block p) &&
  match declare_entries (declared_entries (decl_block p)) ∅ with
  | Some G =>
      bool_decide (NoDup (map function_name (functions p))) &&
      forallb (check_function (program_signatures p) G) (functions p) &&
      check_body (program_signatures p) G None [] (statements (code_block p))
  | None => false
  end.
