(* ===== verification/CheckerFacts.v ===== *)
(** Facts about the reference checker that both sides use: what checking
    a statement does to the scopes, the scopes at each position of a block and
    after a jump, and what definite return excludes. *)
From S2P Require Import Prelude CxxInt CxxString CxxFloat TypeSystem Ast AiTypes Diagnostics.
From S2P Require Import AnalyzerState SemanticAnalyzer Checker.
Open Scope string_scope.
Open Scope Z_scope.

(** * Scopes and declarations *)

(** Empty scopes at the end change nothing. *)
Lemma lookup_scopes_app x (L X : list scope) :
  Forall (λ l, l = ∅) X → lookup_scopes x (L ++ X) = lookup_scopes x L.
Proof.
  intros HX. induction L as [|l L IH]; simpl; [|by destruct (l !! x)].
  induction HX as [|l X -> HX IH]; simpl; [done|]. by rewrite lookup_empty.
Qed.

Lemma lookup_variable_cons G l L x :
  lookup_variable G (l :: L) x = match l !! x with Some v => Some v | None => lookup_variable G L x end.
Proof. unfold lookup_variable. simpl. by destruct (l !! x). Qed.

Lemma declare_entries_app es1 es2 l l' :
  declare_entries (es1 ++ es2) l = Some l' ↔
  ∃ l1, declare_entries es1 l = Some l1 ∧ declare_entries es2 l1 = Some l'.
Proof.
  revert l. induction es1 as [|[x v] es1 IH]; intros l; simpl; [naive_solver|].
  destruct (l !! x); [naive_solver|]. apply IH.
Qed.

Lemma declare_entries_lookup es l l' x v :
  declare_entries es l = Some l' → l' !! x = Some v → l !! x = Some v ∨ (x, v) ∈ es.
Proof.
  revert l. induction es as [|[y w] es IH]; intros l; simpl; [naive_solver|].
  destruct (l !! y) eqn:Hy; [done|]. intros Hd Hx. apply (IH _ Hd) in Hx as [Hx|Hx]; [|set_solver].
  apply lookup_insert_Some in Hx as [[-> ->]|[_ Hx]]; set_solver.
Qed.

Lemma declare_entries_preserves es l l' x v :
  declare_entries es l = Some l' → l !! x = Some v → l' !! x = Some v.
Proof.
  revert l. induction es as [|[y w] es IH]; intros l; simpl; [naive_solver|].
  destruct (l !! y) eqn:Hy; [done|]. intros Hd Hx. apply (IH _ Hd). rewrite lookup_insert_ne; congruence.
Qed.

(** The types of declared names are types of values. *)
Lemma declared_values d x v :
  declaration_types_ok d = true → (x, v) ∈ declared_entries d → vi_type v ≠ TVoid.
Proof.
  unfold declaration_types_ok, declared_entries. intros [Hs Ha]%andb_true_iff Hin.
  rewrite forallb_forall in Hs, Ha. apply elem_of_app in Hin as [Hin|Hin].
  - apply list_elem_of_fmap in Hin as (e & [= -> ->] & He%list_elem_of_In). apply Hs in He. simpl.
    by destruct (ts_type e).
  - apply list_elem_of_fmap in Hin as (e & [= -> ->] & He%list_elem_of_In). apply Ha in He. simpl.
    apply andb_true_iff in He as [[He _]%andb_true_iff _]. by destruct (ta_type e).
Qed.

Lemma declaration_sizes d : declaration_types_ok d = true → Forall (λ e, 0 ≤ ta_size e) (typed_arrays d).
Proof.
  unfold declaration_types_ok. intros [_ H]%andb_true_iff. apply Forall_forall. intros e He.
  rewrite forallb_forall in H. specialize (H e (proj1 (list_elem_of_In _ _) He)).
  apply andb_true_iff in H as [_ H%Z.ltb_lt]. lia.
Qed.

(** * Positions in a block *)

Section Positions.
Context (F : signatures) (G : scope) (K : context).

Lemma check_statement_keeps L s L' :
  check_statement F G K L s = Some L' → is_declaration s = false → L' = L.
Proof. destruct s; simpl; try done; unfold keep; repeat case_match; naive_solver. Qed.

Lemma check_statement_tail L s L' :
  check_statement F G K L s = Some L' → length L' = length L ∧ tail L' = tail L.
Proof.
  intros Hc. destruct (is_declaration s) eqn:Hd; [|by rewrite (check_statement_keeps _ _ _ Hc Hd)].
  destruct s; try done. simpl in Hc. unfold check_declaration in Hc. destruct L as [|l L]; [done|].
  repeat case_match; naive_solver.
Qed.

Lemma check_statements_app L ss1 ss2 L' :
  check_statements (check_statement F G K) L (ss1 ++ ss2) = Some L' ↔
  ∃ L1, check_statements (check_statement F G K) L ss1 = Some L1 ∧
        check_statements (check_statement F G K) L1 ss2 = Some L'.
Proof.
  revert L. induction ss1 as [|s ss1 IH]; intros L; simpl; [naive_solver|].
  destruct (check_statement F G K L s); [apply IH|naive_solver].
Qed.

Lemma check_statements_keeps L ss L' :
  check_statements (check_statement F G K) L ss = Some L' → existsb is_declaration ss = false → L' = L.
Proof.
  revert L. induction ss as [|s ss IH]; intros L; simpl; [naive_solver|].
  destruct (check_statement F G K L s) as [L1|] eqn:Hs; [|done]. intros Hc [Hd Hds]%orb_false_iff.
  apply check_statement_keeps in Hs as ->; auto.
Qed.

Lemma check_statements_tail L ss L' :
  check_statements (check_statement F G K) L ss = Some L' → length L' = length L ∧ tail L' = tail L.
Proof.
  revert L. induction ss as [|s ss IH]; intros L; simpl; [naive_solver|].
  destruct (check_statement F G K L s) as [L1|] eqn:Hs; [|done]. intros Hc.
  apply check_statement_tail in Hs as [H1 H2]. apply IH in Hc as [H3 H4]. split; congruence.
Qed.

(** The labels of a block are where they say. *)
Lemma label_positions_lookup l t ss i m :
  label_positions i ss m !! l = Some t →
  m !! l = Some t ∨ (i ≤ t ∧ ∃ n, ss !! (t - i) = Some (AST_LABEL_RULE n l))%nat.
Proof.
  revert i m. induction ss as [|s ss IH]; intros i m; simpl; [auto|]. intros Hl. apply IH in Hl as [Hl|Hl].
  - destruct (as_label s) as [l'|] eqn:Hs; [|auto]. destruct (m !! l') eqn:Hm; [auto|].
    destruct (decide (l' = l)) as [->|Hne]; [|rewrite lookup_insert_ne in Hl; auto].
    rewrite lookup_insert_eq in Hl. injection Hl as ->. right. split; [lia|]. rewrite Nat.sub_diag.
    destruct s; try done. simpl in Hs. naive_solver.
  - right. destruct Hl as (Hle & n & Hn). split; [lia|]. exists n.
    by replace (t - i)%nat with (S (t - S i)) by lia.
Qed.

Lemma block_labels_lookup ss l t :
  block_labels ss !! l = Some t → ∃ n, ss !! t = Some (AST_LABEL_RULE n l).
Proof.
  intros [Hl|(_ & n & Hn)]%label_positions_lookup; [by rewrite lookup_empty in Hl|].
  exists n. by rewrite Nat.sub_0_r in Hn.
Qed.

Lemma jumps_ok_lookup all i ss j n c l t :
  jumps_ok all i ss = true → ss !! j = Some (AST_GOTO_STATEMENT_RULE n c l) →
  block_labels all !! l = Some t → crosses_declaration all (i + j) t = false.
Proof.
  revert i j. induction ss as [|s ss IH]; intros i j; [done|]. simpl.
  intros [Hs Hss]%andb_true_iff Hj Hl. destruct j as [|j].
  - simpl in Hj. injection Hj as ->. rewrite Hl in Hs. rewrite Nat.add_0_r. by apply negb_true_iff.
  - replace (i + S j)%nat with (S i + j)%nat by lia. by eapply IH.
Qed.

Section Block.
Context (ss : list AST_STATEMENT_RULE) (L0 Lend : list scope).
Hypothesis checked : check_statements (check_statement F G K) L0 ss = Some Lend.
Hypothesis jumps : jumps_ok ss 0 ss = true.

(** The scopes before the statement at a position. *)
Definition at_pc (pc : nat) (L : list scope) : Prop :=
  check_statements (check_statement F G K) L0 (take pc ss) = Some L.

Lemma at_pc_total pc : ∃ L, at_pc pc L.
Proof using checked.
  unfold at_pc. rewrite <- (take_drop pc ss) in checked.
  apply check_statements_app in checked as (L & ? & _). eauto.
Qed.

Lemma at_pc_segment j k L1 L2 :
  (j ≤ k)%nat → at_pc j L1 → at_pc k L2 → existsb is_declaration (take (k - j) (drop j ss)) = false → L2 = L1.
Proof.
  unfold at_pc. intros Hle H1 H2 Hd. replace k with (j + (k - j))%nat in H2 by lia.
  rewrite <- take_take_drop in H2. apply check_statements_app in H2 as (L & H3 & H4).
  rewrite H1 in H3. injection H3 as <-. by apply check_statements_keeps in H4.
Qed.

Lemma at_pc_step pc s L :
  ss !! pc = Some s → at_pc pc L → ∃ L', check_statement F G K L s = Some L' ∧ at_pc (S pc) L'.
Proof using checked.
  intros Hs Hp. destruct (at_pc_total (S pc)) as [L' HL']. unfold at_pc in *.
  erewrite take_S_r in HL' by done. apply check_statements_app in HL' as (L1 & H1 & H2).
  rewrite Hp in H1. injection H1 as <-. simpl in H2.
  destruct (check_statement F G K L s) as [L1|] eqn:Hc; [|done]. injection H2 as ->.
  exists L'. split; [done|]. erewrite take_S_r by done. apply check_statements_app.
  exists L. simpl. by rewrite Hc.
Qed.

(** A jump lands where the same names are in scope. *)
Lemma at_pc_jump i n c l t L :
  ss !! i = Some (AST_GOTO_STATEMENT_RULE n c l) → block_labels ss !! l = Some t →
  at_pc i L → at_pc (S t) L.
Proof using checked jumps.
  intros Hi Hl HL. pose proof (jumps_ok_lookup _ _ _ _ _ _ _ _ jumps Hi Hl) as Hc. simpl in Hc.
  unfold crosses_declaration in Hc. destruct (block_labels_lookup _ _ _ Hl) as [m Hm].
  destruct (decide (t < i)%nat) as [Hlt|Hge].
  - rewrite Nat.min_r, Nat.max_l in Hc by lia. destruct (at_pc_total (S t)) as [L1 H1].
    by rewrite (at_pc_segment (S t) i L1 L ltac:(lia) H1 HL Hc).
  - assert (i < t)%nat by (destruct (decide (i = t)); [naive_solver|lia]).
    rewrite Nat.min_l, Nat.max_r in Hc by lia.
    destruct (at_pc_step i _ _ Hi HL) as (L1 & Hk & H1). apply check_statement_keeps in Hk as ->; [|done].
    destruct (at_pc_total t) as [L2 H2]. rewrite (at_pc_segment (S i) t L L2 ltac:(lia) H1 H2 Hc) in H2.
    destruct (at_pc_step t _ _ Hm H2) as (L3 & Hk & H3). by apply check_statement_keeps in Hk as ->.
Qed.

Lemma at_pc_tail pc L : at_pc pc L → length L = length L0 ∧ tail L = tail L0.
Proof. apply check_statements_tail. Qed.

(** ** Definite return *)

(** What is known when the statement at [pc] is reached with a normal signal. *)
Definition reached (pc : nat) : Prop :=
  (pc ≤ length ss)%nat ∧
  (∀ s, (0 < pc)%nat → ss !! pred pc = Some s → definitelyReturns s = false) ∧
  (existsb is_transfer ss = false → existsb definitelyReturns (take pc ss) = false).

Lemma reached_0 : reached 0.
Proof. split_and!; [lia|lia|done]. Qed.

Lemma reached_step pc s : reached pc → ss !! pc = Some s → definitelyReturns s = false → reached (S pc).
Proof.
  intros (_ & _ & H3) Hs Hd. pose proof (lookup_lt_Some _ _ _ Hs).
  split_and!; [lia|simpl; naive_solver|]. intros Ht. erewrite take_S_r by done.
  rewrite existsb_app, H3 by done. simpl. by rewrite Hd.
Qed.

Lemma reached_jump i n c l t :
  ss !! i = Some (AST_GOTO_STATEMENT_RULE n c l) → block_labels ss !! l = Some t → reached (S t).
Proof.
  intros Hi [m Hm]%block_labels_lookup. pose proof (lookup_lt_Some _ _ _ Hm).
  split_and!; [lia|simpl; naive_solver|]. intros Ht. exfalso.
  assert (existsb is_transfer ss = true); [|congruence]. apply existsb_exists.
  exists (AST_GOTO_STATEMENT_RULE n c l). split; [|done]. by apply list_elem_of_In, list_elem_of_lookup_2 with i.
Qed.

Lemma back_satisfies_last p : back_satisfies p ss = true → ∃ s, ss !! pred (length ss) = Some s ∧ p s = true.
Proof.
  clear. induction ss as [|s rest IH]; simpl; [done|]. destruct rest as [|s' rest]; [eauto|]. exact IH.
Qed.

(** The end of a block that definitely returns is not reached. *)
Lemma reached_end n b : reached (length ss) → definitelyReturns_block (Block n b ss) = false.
Proof using ss.
  intros (_ & H2 & H3). simpl. destruct (existsb is_transfer ss) eqn:Ht.
  - destruct (back_satisfies definitelyReturns ss) eqn:Hb; [|done].
    apply back_satisfies_last in Hb as (s & Hs & Hd). rewrite (H2 s) in Hd; [done| |done].
    apply lookup_lt_Some in Hs. lia.
  - by rewrite <- (H3 eq_refl), firstn_all.
Qed.
End Block.
End Positions.

