(* ===== verification/AnalyzerFacts.v ===== *)
(** Facts about semantic analysis: an error is never taken back, what each
    visit leaves alone, and the types it computes for expressions are those of
    the reference checker. *)
From S2P Require Import Prelude CxxInt CxxString CxxFloat TypeSystem Ast AiTypes Diagnostics.
From S2P Require Import AnalyzerState C3EcoSemantics SemanticAnalyzer Checker.
Open Scope string_scope.
Open Scope Z_scope.

(** * Relations between the states before and after *)

(** No error has been reported. *)
Definition clean (a : SemanticAnalyzer) : Prop := hasErrors (diagnostics a) = false.

(** [Pres R m]: every run of [m] relates its first and last state by [R]. *)
Definition Pres (R : relation SemanticAnalyzer) {A} (m : SA A) : Prop := ∀ a, R a (m a).2.

(** Errors stay. *)
Definition grows : relation SemanticAnalyzer := λ a a', clean a' → clean a.

(** The fields that the rules of expressions and statements read. *)
Definition tables (a : SemanticAnalyzer) :=
  (block_label_scopes a, return_types a, loopDepth a, global_types a, global_array_types a,
   (function_arity a, function_parameter_types a, function_return_types a),
   (imported_functions a, allow_external_function_calls a)).

(** Errors stay, and only the declarations of the AI extension and the
    diagnostics change. *)
Definition plain : relation SemanticAnalyzer := λ a a',
  grows a a' ∧ local_scopes a' = local_scopes a ∧ tables a' = tables a.

#[export] Instance grows_preorder : PreOrder grows.
Proof. split; unfold grows; [by intros a|intros a b c; auto]. Qed.
#[export] Instance plain_preorder : PreOrder plain.
Proof.
  split; [done|]. intros a b c (H1 & H2 & H3) (H4 & H5 & H6).
  split; [by transitivity b|]. split; congruence.
Qed.

(** The relations of this file: at least what reporting does. *)
Class Reporting (R : relation SemanticAnalyzer) := {
  reporting_preorder :: PreOrder R;
  reporting_plain a a' : plain a a' → R a a';
}.
#[export] Instance grows_reporting : Reporting grows.
Proof. split; [apply _|]. by intros a a' [? _]. Qed.
#[export] Instance plain_reporting : Reporting plain.
Proof. split; [apply _|done]. Qed.

Section Pres.
Context (R : relation SemanticAnalyzer) `{!Reporting R}.

Lemma pres_ret {A} (x : A) : Pres R (mret x).
Proof. intros a. reflexivity. Qed.

Lemma pres_bind {A B} (m : SA A) (k : A → SA B) : Pres R m → (∀ x, Pres R (k x)) → Pres R (m ≫= k).
Proof. intros Hm Hk a. unfold mbind, ST_bind. etransitivity; [apply Hm|apply Hk]. Qed.

Lemma pres_reads {A} (f : SemanticAnalyzer → A) : Pres R (reads f).
Proof. intros a. reflexivity. Qed.

Lemma pres_error_at n c m : Pres R (error_at n c m).
Proof. intros a. apply reporting_plain. split; [intros Hc; discriminate Hc|done]. Qed.

Lemma pres_warning_at n c m : Pres R (warning_at n c m).
Proof. intros a. apply reporting_plain. split; [intros Hc; exact Hc|done]. Qed.

Lemma pres_error_if b n c m : Pres R (error_if b n c m).
Proof. destruct b; [apply pres_error_at|apply pres_ret]. Qed.

Lemma pres_update (f : SemanticAnalyzer → SemanticAnalyzer) : (∀ a, R a (f a)) → Pres R (update f).
Proof. intros Hf a. apply Hf. Qed.

Lemma pres_for_each {A} (body : A → SA unit) xs : (∀ x, Pres R (body x)) → Pres R (for_each body xs).
Proof using Type*.
  intros Hb. induction xs as [|x xs IH]; simpl; [apply pres_ret|]. apply pres_bind; [apply Hb|done].
Qed.
End Pres.

Create HintDb pres discriminated.
#[export] Hint Constants Opaque : pres.
#[export] Hint Resolve grows_reporting plain_reporting : pres.
#[export] Hint Resolve pres_ret pres_reads pres_error_at pres_warning_at pres_error_if : pres.

(** Follows the structure of a method. *)
Ltac pres :=
  repeat first
    [ progress cbv zeta
    | lazymatch goal with
      | |- Pres _ (mbind _ _) => apply pres_bind; [apply _| |intros ?]
      | |- Pres _ (for_each _ _) => apply pres_for_each; [apply _|intros ?]
      | |- Pres _ (update _) =>
          apply pres_update; intros ?;
          first [solve [let H := fresh in intros H; exact H]
                | apply reporting_plain; split; [let H := fresh in intros H; exact H|done]]
      | |- Pres _ (match _ with _ => _ end) => case_match
      | |- Pres _ _ => solve [eauto 3 with pres nocore]
      end ].

(** ** Expressions *)

Section ExpressionPres.
Context (R : relation SemanticAnalyzer) `{!Reporting R}.

Lemma pres_validateCall n f k : Pres R (validateCall n f k).
Proof using Type*. unfold validateCall. pres. Qed.

Lemma pres_check_arguments et f args :
  Forall (λ e, Pres R (et e)) args → ∀ i ts, Pres R (check_arguments et f i ts args).
Proof using Type*.
  induction 1 as [|e args He Hargs IH]; intros i [|t ts]; simpl; pres.
Qed.

Lemma pres_validateCallTypes et n f args :
  Forall (λ e, Pres R (et e)) args → Pres R (validateCallTypes et n f args).
Proof using Type*.
  intros Hargs. pose proof (pres_check_arguments et f args Hargs). pose proof pres_validateCall.
  unfold validateCallTypes. pres.
Qed.

Lemma pres_type_error n c m : Pres R (type_error n c m).
Proof using Type*. unfold type_error. pres. Qed.

Lemma pres_binary_type n op l r : Pres R (binary_type n op l r).
Proof using Type*. unfold binary_type, type_error. pres. Qed.

Lemma pres_expressionType e : Pres R (expressionType e).
Proof using Type*.
  pose proof pres_binary_type.
  induction e using expression_induction; simpl; unfold simple_variable_type, type_error;
    try match goal with H : Forall _ _ |- _ => pose proof (pres_validateCallTypes _ n f args H) end; pres.
Qed.

Lemma pres_arguments f i ts args : Pres R (check_arguments expressionType f i ts args).
Proof using Type*. apply pres_check_arguments, Forall_true. apply pres_expressionType. Qed.

Lemma pres_call n f args : Pres R (validateCallTypes expressionType n f args).
Proof using Type*. apply pres_validateCallTypes, Forall_true. apply pres_expressionType. Qed.
End ExpressionPres.
#[export] Hint Resolve pres_validateCall pres_type_error pres_binary_type pres_expressionType pres_arguments pres_call : pres.

(** * Runs without an error *)

(** [ok m a Q]: when [m] ends without an error, [Q] holds of its result. *)
Definition ok {A} (m : SA A) (a : SemanticAnalyzer) (Q : A → SemanticAnalyzer → Prop) : Prop :=
  clean (m a).2 → Q (m a).1 (m a).2.

Lemma ok_ret {A} (x : A) a (Q : A → SemanticAnalyzer → Prop) : Q x a → ok (mret x) a Q.
Proof. by intros HQ _. Qed.

Lemma ok_bind {A B} (m : SA A) (k : A → SA B) a (Q : B → SemanticAnalyzer → Prop) :
  (∀ x, Pres grows (k x)) → ok m a (λ x a', ok (k x) a' Q) → ok (m ≫= k) a Q.
Proof. unfold ok, mbind, ST_bind. intros Hk Hm Hc. apply Hm; [|done]. by apply (Hk (m a).1 (m a).2). Qed.

Lemma ok_reads {A} (f : SemanticAnalyzer → A) a (Q : A → SemanticAnalyzer → Prop) : Q (f a) a → ok (reads f) a Q.
Proof. by intros HQ _. Qed.

Lemma ok_update f a (Q : unit → SemanticAnalyzer → Prop) : Q tt (f a) → ok (update f) a Q.
Proof. by intros HQ _. Qed.

Lemma ok_error_at n c m a (Q : unit → SemanticAnalyzer → Prop) : ok (error_at n c m) a Q.
Proof. intros Hc. discriminate Hc. Qed.

Lemma ok_type_error n c m a (Q : ShortType → SemanticAnalyzer → Prop) : ok (type_error n c m) a Q.
Proof. intros Hc. discriminate Hc. Qed.

Lemma ok_error_if b n c m a (Q : unit → SemanticAnalyzer → Prop) :
  (b = false → Q tt a) → ok (error_if b n c m) a Q.
Proof. destruct b; intros HQ; [apply ok_error_at|by apply ok_ret, HQ]. Qed.

Lemma ok_mono {A} (m : SA A) a (Q Q' : A → SemanticAnalyzer → Prop) :
  ok m a Q → (∀ x a', Q x a' → Q' x a') → ok m a Q'.
Proof. intros H1 H2 Hc. by apply H2, H1. Qed.

(** Splits the run of a method at its first step; the rest of the method
    keeps errors. *)
Ltac ok_step :=
  lazymatch goal with
  | |- ok (mbind _ _) _ _ => apply ok_bind; [intros ?; pres|]
  | |- ok (mret _) _ _ => apply ok_ret
  | |- ok (reads _) _ _ => apply ok_reads
  | |- ok (update _) _ _ => apply ok_update
  | |- ok (error_at _ _ _) _ _ => apply ok_error_at
  | |- ok (type_error _ _ _) _ _ => apply ok_type_error
  | |- ok (error_if _ _ _ _) _ _ => apply ok_error_if; intros ?
  end.

(** * Expressions *)

(** The state of the analyser agrees with the environment of the checker. *)
Record env (F : signatures) (G : scope) (L : list scope) (a : SemanticAnalyzer) : Prop := {
  env_lookup : ∀ x, lookupType x a = lookup_variable G L x;
  env_functions : ∀ f,
    match F !! f with
    | Some (ps, r) =>
        function_arity a !! f = Some (Z.of_nat (length ps)) ∧
        function_parameter_types a !! f = Some ps ∧ function_return_types a !! f = Some r
    | None => function_arity a !! f = None
    end;
  env_callable : ∀ f, is_Some (F !! f) →
    is_empty f = false ∧ (allow_external_function_calls a = true ∨ f ∉ imported_functions a);
}.

Section Expressions.
Context (F : signatures) (G : scope) (L : list scope) (a : SemanticAnalyzer).
Hypothesis environment : env F G L a.

(** Accepting an expression keeps the state and finds the type. *)
Definition typed (e : AST_EXPRESSION_RULE) : Prop :=
  ok (expressionType e) a (λ t a', a' = a ∧ type_of F G L e = Some t).

Lemma ok_arguments name args i ps :
  Forall typed args → length ps = length args →
  ok (check_arguments expressionType name i ps args) a
    (λ _ a', a' = a ∧ arguments_match (type_of F G L) ps args = true).
Proof using.
  intros Hargs. revert i ps. induction Hargs as [|e args He Hargs IH]; intros i [|p ps] Hlen; simplify_eq/=.
  { by apply ok_ret. }
  ok_step. eapply ok_mono; [apply He|]. intros t a' [-> Ht]. rewrite Ht.
  ok_step. case_decide as Hv; [ok_step|]. rewrite (bool_decide_eq_false_2 _ Hv).
  ok_step. case_bool_decide as Hp; [|done]. simpl. apply IH. congruence.
Qed.

Lemma ok_call n f args :
  Forall typed args →
  ok (validateCallTypes expressionType n f args) a
    (λ _ a', a' = a ∧ ∃ ps r, F !! f = Some (ps, r) ∧ function_return_types a !! f = Some r ∧
                              arguments_match (type_of F G L) ps args = true).
Proof using environment.
  intros Hargs. pose proof (env_functions _ _ _ _ environment f) as Hf.
  unfold validateCallTypes, validateCall. ok_step. ok_step. ok_step. simpl.
  destruct (is_empty f); [ok_step|]. destruct (F !! f) as [[ps r]|]; [|rewrite Hf; ok_step].
  destruct Hf as (-> & Hps & Hr). ok_step. ok_step. ok_step. ok_step. ok_step.
  rewrite Hps. assert (length ps = length args) as Hlen.
  { match goal with H : negb (_ =? _) = false |- _ => apply negb_false_iff, Z.eqb_eq in H end. lia. }
  rewrite bool_decide_eq_true_2 by done. simpl.
  eapply ok_mono; [by apply ok_arguments|]. intros _ a' [-> Hm]. eauto 10.
Qed.

Lemma ok_binary_type n op l r (Q : ShortType → SemanticAnalyzer → Prop) :
  (∀ t, negb (bool_decide (l = TVoid)) && bool_decide (l = r) = true → op_type op l = Some t → Q t a) →
  ok (binary_type n op l r) a Q.
Proof using.
  unfold binary_type, op_type. intros HQ.
  destruct (bool_decide (l = TVoid)) eqn:Hl; simpl; [ok_step|].
  destruct (bool_decide (r = TVoid)); simpl; [ok_step|].
  destruct (bool_decide (l = r)) eqn:Hr; simpl in *; [|ok_step].
  destruct (classify op) eqn:Hop; repeat case_match; try ok_step; apply HQ; auto;
    repeat match goal with H : negb ?b = _ |- _ => destruct b eqn:?; simpl in H; try discriminate H end;
    repeat match goal with H : (negb ?b && negb ?c) = _ |- _ => destruct b eqn:?, c eqn:?; simpl in H; try discriminate H end;
    repeat match goal with H : (?b && negb ?c) = _ |- _ => destruct b eqn:?, c eqn:?; simpl in H; try discriminate H end;
    try done.
Qed.

Lemma ok_expressionType e : typed e.
Proof using environment.
  induction e using expression_induction; unfold typed; simpl; try by apply ok_ret.
  - unfold simple_variable_type. ok_step. ok_step. rewrite (env_lookup _ _ _ _ environment).
    destruct (lookup_variable G L x) as [v|]; [|ok_step]. destruct (is_array v); [ok_step|by ok_step].
  - ok_step. ok_step. rewrite (env_lookup _ _ _ _ environment).
    destruct (lookup_variable G L x) as [v|]; [|ok_step]. destruct (is_array v); simpl; [|ok_step].
    ok_step. eapply ok_mono; [apply IHe|]. intros t a' [-> Ht]. ok_step. ok_step. ok_step. split; [done|].
    rewrite Ht. by case_bool_decide; simplify_eq.
  - ok_step. eapply ok_mono; [apply IHe|]. intros t a' [-> ->]. destruct (numeric t); simpl; [by ok_step|ok_step].
  - ok_step. eapply ok_mono; [apply IHe1|]. intros l a' [-> ->].
    ok_step. eapply ok_mono; [apply IHe2|]. intros r a' [-> ->].
    apply ok_binary_type. intros t -> ->. done.
  - ok_step. eapply ok_mono; [by apply ok_call|]. intros _ a' (-> & ps & r & -> & Hr & ->).
    ok_step. ok_step. ok_step. by rewrite Hr.
Qed.

(** ** The converse: what the checker accepts is accepted silently *)

Definition silent (e : AST_EXPRESSION_RULE) : Prop :=
  ∀ t, type_of F G L e = Some t → expressionType e a = (t, a).

Lemma run_bind {A B} (m : SA A) (k : A → SA B) x : m a = (x, a) → (m ≫= k) a = k x a.
Proof using. intros Hm. unfold mbind, ST_bind. by rewrite Hm. Qed.

Lemma silent_arguments name args i ps :
  Forall silent args → arguments_match (type_of F G L) ps args = true →
  check_arguments expressionType name i ps args a = (tt, a).
Proof using.
  intros Hargs. revert i ps. induction Hargs as [|e args He Hargs IH]; intros i [|p ps] Hm; try done.
  simpl in *. destruct (type_of F G L e) as [t|] eqn:Ht; [|done].
  apply andb_true_iff in Hm as [[Hv%negb_true_iff%bool_decide_eq_false ->%bool_decide_eq_true]%andb_true_iff Hm].
  rewrite (run_bind _ _ _ (He _ Ht)). rewrite decide_False by done.
  rewrite bool_decide_eq_true_2 by done. by apply IH.
Qed.

Lemma arguments_match_length f ps args : arguments_match f ps args = true → length ps = length args.
Proof using.
  revert ps. induction args as [|e args IH]; intros [|p ps] Hm; try done. simpl in *.
  destruct (f e); [|done]. apply andb_true_iff in Hm as [_ Hm]. f_equal. auto.
Qed.

Lemma silent_call n f args ps r :
  Forall silent args → F !! f = Some (ps, r) → arguments_match (type_of F G L) ps args = true →
  validateCallTypes expressionType n f args a = (tt, a).
Proof using environment.
  intros Hargs Hf Hm. pose proof (env_functions _ _ _ _ environment f) as Hfn. rewrite Hf in Hfn.
  destruct Hfn as (Har & Hps & _). destruct (env_callable _ _ _ _ environment f) as [Hne Hal]; [eauto|].
  pose proof (arguments_match_length _ _ _ Hm) as Hlen.
  assert (validateCall n f (Z.of_nat (length args)) a = (tt, a)) as Hv.
  { unfold validateCall, mbind, ST_bind, reads. simpl. rewrite Hne, Har, Hlen, Z.eqb_refl. simpl.
    destruct Hal as [->|Hal]; [done|]. rewrite (bool_decide_eq_false_2 _ Hal), andb_false_r. done. }
  unfold validateCallTypes. rewrite (run_bind _ _ _ Hv). unfold mbind, ST_bind, reads. simpl.
  rewrite Hps, bool_decide_eq_true_2 by done. by apply silent_arguments.
Qed.

Lemma silent_binary n op l r t :
  negb (bool_decide (l = TVoid)) && bool_decide (l = r) = true → op_type op l = Some t →
  binary_type n op l r a = (t, a).
Proof using.
  intros [Hl%negb_true_iff%bool_decide_eq_false <-%bool_decide_eq_true]%andb_true_iff.
  unfold binary_type, op_type. rewrite !(bool_decide_eq_false_2 (l = TVoid)) by done.
  rewrite (bool_decide_eq_true_2 (l = l)) by done. simpl.
  destruct (classify op), (numeric l) eqn:?; simpl; try (intros [= <-]; done); try done.
  - destruct (bool_decide (op = MODULO) && negb (bool_decide (l = TInt))); by intros [= <-].
  - destruct (bool_decide (l = TBoolean)), (bool_decide (l = TInt)); simpl; by intros [= <-].
  - destruct (bool_decide (l = TBoolean)), (bool_decide (l = TInt)); simpl; by intros [= <-].
Qed.

Lemma silent_expressionType e : silent e.
Proof using environment.
  induction e using expression_induction; intros t Ht; simpl in Ht |- *; try by injection Ht as <-.
  - unfold simple_variable_type, mbind, ST_bind, reads. simpl. rewrite (env_lookup _ _ _ _ environment).
    destruct (lookup_variable G L x) as [v|]; [|done]. destruct (is_array v); by simplify_eq.
  - unfold mbind at 1, ST_bind at 1, reads. simpl. rewrite (env_lookup _ _ _ _ environment).
    destruct (lookup_variable G L x) as [v|]; [|done]. destruct (is_array v); [|done]. simpl in *.
    case_bool_decide as Hi; [|done]. injection Ht as <-. by rewrite (run_bind _ _ _ (IHe _ Hi)).
  - destruct (type_of F G L e) as [u|] eqn:He; [|done]. rewrite (run_bind _ _ _ (IHe _ He)).
    destruct (numeric u); by simplify_eq.
  - destruct (type_of F G L e1) as [l|] eqn:H1; [|done]. destruct (type_of F G L e2) as [r|] eqn:H2; [|done].
    rewrite (run_bind _ _ _ (IHe1 _ H1)), (run_bind _ _ _ (IHe2 _ H2)).
    destruct (_ && _) eqn:Hb; [|done]. by apply silent_binary.
  - destruct (F !! f) as [[ps r]|] eqn:Hf; [|done]. destruct (arguments_match _ _ _) eqn:Hm; [|done].
    injection Ht as <-. rewrite (run_bind _ _ _ (silent_call _ _ _ _ _ H Hf Hm)).
    pose proof (env_functions _ _ _ _ environment f) as Hfn. rewrite Hf in Hfn. destruct Hfn as (_ & _ & Hr).
    unfold mbind, ST_bind, reads. simpl. by rewrite Hr.
Qed.
End Expressions.

(** Type inference of semantic analysis is exactly the reference type
    system.  In a state that agrees with an environment of the checker,
    [expressionType] reports an error exactly when the expression has no type,
    and otherwise it returns the type of the expression and leaves the
    analyser as it was, with no diagnostic of any kind. *)
Theorem expressionType_is_reference F G L a e :
  env F G L a → clean a →
  (∀ t, type_of F G L e = Some t ↔ expressionType e a = (t, a)) ∧
  (type_of F G L e = None ↔ hasErrors (diagnostics (expressionType e a).2) = true).
Proof.
  intros He Hc. assert (∀ t, expressionType e a = (t, a) → type_of F G L e = Some t) as Hto.
  { intros t Ht. pose proof (ok_expressionType F G L a He e) as Ho. unfold typed, ok in Ho.
    rewrite Ht in Ho. simpl in Ho. by destruct Ho. }
  split.
  - intros t. split; [by apply silent_expressionType|apply Hto].
  - split.
    + intros Hn. destruct (hasErrors _) eqn:Herr; [done|].
      destruct (ok_expressionType F G L a He e Herr) as [_ Hs]. congruence.
    + intros Herr. destruct (type_of F G L e) as [t|] eqn:Ht; [|done].
      rewrite (silent_expressionType F G L a He e t Ht) in Herr. unfold clean in Hc. simpl in Herr. congruence.
Qed.

(** A call of a function of two parameters among globals, in the analyser and
    in the checker. *)
Definition sample_scope : scope :=
  {[ "x" := {| vi_type := TInt; is_array := false |}; "v" := {| vi_type := TFloat; is_array := true |} ]}.
Definition sample_signatures : signatures := {[ "f" := ([TInt; TFloat], TBoolean) ]}.
Definition sample_analyzer : SemanticAnalyzer :=
  set_function_return_types {[ "f" := TBoolean ]}
    (set_function_parameter_types {[ "f" := [TInt; TFloat] ]}
       (set_function_arity {[ "f" := 2 ]} (set_local_scopes [sample_scope] (new_analyzer ∅)))).
Definition sample_call : AST_EXPRESSION_RULE :=
  AST_FUNCTION_CALL_EXPRESSION 1 "f"
    [AST_SIMPLE_VARIABLE 2 "x"; AST_ARRAY_VARIABLE 3 "v" (AST_SIMPLE_VARIABLE 4 "x")].

Lemma sample_env : env sample_signatures ∅ [sample_scope] sample_analyzer.
Proof.
  split.
  - intros x. unfold lookupType, lookup_variable. simpl. by destruct (sample_scope !! x).
  - intros f. unfold sample_signatures, sample_analyzer. simpl. destruct (decide (f = "f")) as [->|Hne].
    + by rewrite !lookup_singleton_eq.
    + by rewrite !lookup_singleton_ne.
  - intros f [v Hv]. unfold sample_signatures in Hv. apply lookup_singleton_Some in Hv as [<- _]. split; [done|by left].
Qed.

Lemma expressionType_is_reference_witness :
  env sample_signatures ∅ [sample_scope] sample_analyzer ∧ clean sample_analyzer ∧
  expressionType sample_call sample_analyzer = (TBoolean, sample_analyzer).
Proof.
  split; [exact sample_env|]. split; [reflexivity|].
  apply (expressionType_is_reference _ _ _ _ sample_call sample_env eq_refl). vm_compute. reflexivity.
Defined.
