(* ===== verification/AnalyzerSound.v ===== *)
(** Semantic analysis implements the reference checker: a program it accepts
    passes [check_program], when the tree has the shape the grammar gives it and
    its locals do not hide globals. *)
From S2P Require Import Prelude CxxInt CxxString CxxFloat TypeSystem Ast AiTypes Diagnostics.
From S2P Require Import AnalyzerState C3EcoSemantics SemanticAnalyzer Checker CheckerFacts AnalyzerFacts.
Open Scope string_scope.
Open Scope Z_scope.

(** * Errors stay *)

Section VisitPres.
Context (R : relation SemanticAnalyzer) `{!Reporting R}.

Lemma pres_requireConditionType n e : Pres R (requireConditionType n e).
Proof using Type*. unfold requireConditionType. pres. Qed.

Lemma pres_c3eco_declaration n d : Pres R (visit_AST_C3ECO_DECLARATION n d).
Proof using Type*. unfold visit_AST_C3ECO_DECLARATION, check_field. pres. Qed.

Lemma pres_model n d : Pres R (visit_AST_MODEL_DECLARATION n d).
Proof using Type*. unfold visit_AST_MODEL_DECLARATION. pres. Qed.

Lemma pres_tensor n d : Pres R (visit_AST_TENSOR_DECLARATION n d).
Proof using Type*. unfold visit_AST_TENSOR_DECLARATION. pres. Qed.

Lemma pres_contract n d : Pres R (visit_AST_GREENAI_CONTRACT n d).
Proof using Type*. unfold visit_AST_GREENAI_CONTRACT. pres. Qed.

Lemma pres_measurement n d : Pres R (visit_AST_GREENAI_MEASUREMENT n d).
Proof using Type*. unfold visit_AST_GREENAI_MEASUREMENT. pres. Qed.

Lemma pres_infer n m i o : Pres R (visit_AST_INFER_STATEMENT n m i o).
Proof using Type*. unfold visit_AST_INFER_STATEMENT. pres. Qed.

Lemma pres_check_returned n t e : Pres R (check_returned n t e).
Proof using Type*. unfold check_returned. pres. Qed.

Lemma pres_scan_labels i ss m : Pres R (scan_labels i ss m).
Proof using Type*. revert i m. induction ss as [|s ss IH]; intros i m; simpl; [pres|]. destruct s; pres. Qed.

Lemma pres_check_jump ss m i s : Pres R (check_jump ss m i s).
Proof using Type*. destruct s; simpl; pres. Qed.
End VisitPres.
#[export] Hint Resolve pres_requireConditionType pres_c3eco_declaration pres_model pres_tensor pres_contract
  pres_measurement pres_infer pres_check_returned pres_scan_labels pres_check_jump : pres.

Lemma pres_check_unique n x names : Pres grows (check_unique n x names).
Proof. unfold check_unique. pres. Qed.
Lemma pres_check_scalar_type n e : Pres grows (check_scalar_type n e).
Proof. unfold check_scalar_type, check_descriptor. pres. Qed.
Lemma pres_check_array_type n e : Pres grows (check_array_type n e).
Proof. unfold check_array_type, check_descriptor. pres. Qed.
#[export] Hint Resolve pres_check_unique pres_check_scalar_type pres_check_array_type : pres.

Lemma pres_declare_name n x v : Pres grows (declare_name n x v).
Proof. unfold declare_name. pres. Qed.
#[export] Hint Resolve pres_declare_name : pres.

Lemma pres_declareInCurrentScope d : Pres grows (declareInCurrentScope d).
Proof. unfold declareInCurrentScope. pres. Qed.

Lemma pres_check_scalars n names es : Pres grows (check_scalars n names es).
Proof.
  revert names. induction es as [|e es IH]; intros names; simpl; [pres|].
  pres.
Qed.

Lemma pres_check_arrays n names es : Pres grows (check_arrays n names es).
Proof.
  revert names. induction es as [|e es IH]; intros names; simpl; [pres|].
  pres.
Qed.
#[export] Hint Resolve pres_declareInCurrentScope pres_check_scalars pres_check_arrays : pres.

Lemma pres_declaration d : Pres grows (visit_AST_DATA_DECLARATION_BLOCK d).
Proof. unfold visit_AST_DATA_DECLARATION_BLOCK. pres. Qed.
#[export] Hint Resolve pres_declaration : pres.

Lemma pres_accept_statements acc all m i ss :
  Forall (λ s, Pres grows (acc s)) ss → Pres grows (accept_statements acc all m i ss).
Proof. intros Hss. revert i. induction Hss as [|s ss Hs Hss IH]; intros i; simpl; pres. Qed.

Lemma pres_visits : (∀ s, Pres grows (visit_statement s)) ∧ (∀ b, Pres grows (visit_block b)).
Proof.
  apply statement_block_induction; intros.
  - destruct s; try done; simpl; unfold accept_expression, visit_AST_RETURN_STATEMENT, check_returned,
      visit_AST_ASSIGNMENT_RULE, visit_AST_GOTO_STATEMENT_RULE, visit_AST_READ_RULE, visit_AST_PRINT_RULE,
      visit_AST_GREENAI_REPORT_RULE, visit_AST_BREAK, visit_AST_CONTINUE, visit_AST_FUNCTION_CALL_RULE; pres.
  - done.
  - simpl. pres.
  - simpl. pres.
  - simpl. unfold check_counted_loop, enter_loop, leave_loop. pres.
  - simpl. unfold enter_loop, leave_loop. pres.
  - simpl. unfold visit_AST_STATEMENTS_BLOCK, push_scope, pop_scope.
    pose proof (λ m i, pres_accept_statements visit_statement ss m i ss H). pres.
Qed.

Lemma pres_statement s : Pres grows (visit_statement s).
Proof. apply pres_visits. Qed.
Lemma pres_block b : Pres grows (visit_block b).
Proof. apply pres_visits. Qed.
Lemma pres_statements all m i ss : Pres grows (accept_statements visit_statement all m i ss).
Proof. apply pres_accept_statements, Forall_true, pres_statement. Qed.
#[export] Hint Resolve pres_statement pres_block pres_statements : pres.

(** * The simulation *)

Section Sound.
Context (F : signatures) (G : scope).

(** The state of the analyser at a statement checked in context [K] with the
    local scopes [L]; [X] are the empty scopes below them (the one of the
    logic block). *)
Record sim (K : context) (L X : list scope) (a : SemanticAnalyzer) : Prop := {
  sim_scopes : local_scopes a = (L ++ X)%list;
  sim_empty : Forall (λ l, l = ∅) X;
  sim_globals : ∀ x,
    match global_types a !! x with
    | Some t => Some {| vi_type := t; is_array := false |}
    | None => match global_array_types a !! x with
              | Some t => Some {| vi_type := t; is_array := true |}
              | None => None
              end
    end = G !! x;
  sim_functions : ∀ f,
    match F !! f with
    | Some (ps, r) =>
        function_arity a !! f = Some (Z.of_nat (length ps)) ∧
        function_parameter_types a !! f = Some ps ∧ function_return_types a !! f = Some r
    | None => function_arity a !! f = None
    end;
  sim_callable : ∀ f, is_Some (F !! f) →
    is_empty f = false ∧ (allow_external_function_calls a = true ∨ f ∉ imported_functions a);
  sim_return : head (return_types a) = c_return K;
  sim_loop : 0 ≤ loopDepth a ∧ c_loop K = negb (loopDepth a =? 0);
  sim_labels : ∃ rest, block_label_scopes a = c_labels K :: rest;
  sim_values : ∀ x v, lookup_variable G L x = Some v → vi_type v ≠ TVoid;
}.

Lemma sim_env K L X a : sim K L X a → env F G L a.
Proof.
  intros [H1 H2 H3 H4 H5 _ _ _ _]. split; [|done..].
  intros x. unfold lookupType, lookup_variable. rewrite H1, lookup_scopes_app by done.
  by destruct (lookup_scopes x L).
Qed.

Lemma sim_plain K L X a a' : plain a a' → sim K L X a → sim K L X a'.
Proof.
  intros (_ & Hs & Ht) [? ? ? ? ? ? ? ? ?]. unfold tables in Ht. injection Ht as E1 E2 E3 E4 E5 E6 E7 E8 E9 E10.
  split; by rewrite ?Hs, ?E1, ?E2, ?E3, ?E4, ?E5, ?E6, ?E7, ?E8, ?E9, ?E10.
Qed.

(** What accepting a statement gives. *)
Definition accepted_as (K : context) (L X : list scope) (s : AST_STATEMENT_RULE) (a a' : SemanticAnalyzer) : Prop :=
  ∃ L', check_statement F G K L s = Some L' ∧ sim K L' X a' ∧ tables a' = tables a.

Definition sound (s : AST_STATEMENT_RULE) : Prop :=
  ∀ K L X a, statement_ok s = true → statement_avoids G s = true → (is_declaration s = true → L ≠ []) →
  sim K L X a → ok (visit_statement s) a (λ _ a', accepted_as K L X s a a').

Definition sound_block (b : AST_STATEMENTS_BLOCK) : Prop :=
  ∀ K L X a, block_ok b = true → block_avoids G b = true →
  sim K L X a → ok (visit_block b) a (λ _ a', check_block F G K L b = true ∧ sim K L X a' ∧ tables a' = tables a).

(** ** Expressions in statements *)

Lemma ok_typed K L X a e (Q : ShortType → SemanticAnalyzer → Prop) :
  sim K L X a → (∀ t, type_of F G L e = Some t → Q t a) → ok (expressionType e) a Q.
Proof.
  intros Hs HQ. eapply ok_mono; [by eapply ok_expressionType, sim_env|]. intros t a' [-> Ht]. auto.
Qed.

Lemma ok_condition K L X a n e (Q : bool → SemanticAnalyzer → Prop) :
  sim K L X a → (condition_ok F G L e = true → ∀ b, Q b a) → ok (requireConditionType n e) a Q.
Proof.
  intros Hs HQ. unfold requireConditionType. ok_step. eapply ok_typed; [done|]. intros t Ht.
  unfold condition_ok, has_type in HQ. rewrite Ht in HQ.
  destruct (bool_decide (t = TBoolean)) eqn:Hb, (bool_decide (t = TInt)) eqn:Hi; simpl; try (ok_step; try ok_step).
  all: apply HQ, orb_true_iff; rewrite ?bool_decide_eq_true in *; naive_solver.
Qed.

Lemma ok_call_statement K L X a n f args (Q : unit → SemanticAnalyzer → Prop) :
  sim K L X a → (call_ok F G L f args = true → Q tt a) →
  ok (validateCallTypes expressionType n f args) a Q.
Proof.
  intros Hs HQ. eapply ok_mono.
  - eapply ok_call; [by eapply sim_env|]. apply Forall_true. intros e. by eapply ok_expressionType, sim_env.
  - intros [] a' (-> & ps & r & Hf & _ & Hm). apply HQ. unfold call_ok. by rewrite Hf.
Qed.

(** A statement that changes neither the state nor the scopes. *)
Lemma accepted_keep K L X s a : sim K L X a → check_statement F G K L s = Some L → accepted_as K L X s a a.
Proof. intros Hs Hc. exists L. done. Qed.

(** ** Statements without a block *)

(** The declarations of the AI extension are checked on their own. *)
Lemma ok_extension {A} K L X s (m : SA A) a :
  Pres plain m → check_statement F G K L s = Some L → sim K L X a →
  ok m a (λ _ a', accepted_as K L X s a a').
Proof.
  intros Hm Hc Hs _. destruct (Hm a) as (Hg & Hl & Ht). exists L. split_and!; [done| |done].
  eapply sim_plain; [apply Hm|done].
Qed.

Lemma type_of_variable K L X a v t :
  sim K L X a → type_of F G L (var_expression v) = Some t → t ≠ TVoid.
Proof.
  intros Hs Ht. destruct v as [n x|n x i]; simpl in Ht; destruct (lookup_variable G L x) as [w|] eqn:Hx; try done.
  - destruct (is_array w); [done|]. injection Ht as <-. by eapply sim_values.
  - destruct (_ && _); [|done]. injection Ht as <-. by eapply sim_values.
Qed.

Lemma ok_assignment K L X a n v e :
  sim K L X a →
  ok (visit_AST_ASSIGNMENT_RULE n v e) a (λ _ a', accepted_as K L X (AST_ASSIGNMENT_RULE n v e) a a').
Proof.
  intros Hs. unfold visit_AST_ASSIGNMENT_RULE. ok_step. eapply ok_typed; [done|]. intros t Ht.
  ok_step. eapply ok_typed; [done|]. intros u Hu. pose proof (type_of_variable _ _ _ _ _ _ Hs Ht) as Hv.
  rewrite (bool_decide_eq_false_2 _ Hv). simpl. case_bool_decide; [ok_step|]. ok_step.
  case_bool_decide; [|done]. subst u. apply accepted_keep; [done|]. simpl. unfold keep, assignable, has_type.
  rewrite Ht, Hu. rewrite (bool_decide_eq_false_2 _ Hv). simpl. by rewrite bool_decide_eq_true_2.
Qed.

Lemma ok_return K L X a n e :
  sim K L X a →
  ok (visit_AST_RETURN_STATEMENT n e) a (λ _ a', accepted_as K L X (AST_RETURN_STATEMENT n e) a a').
Proof.
  intros Hs. unfold visit_AST_RETURN_STATEMENT. ok_step. ok_step. pose proof (sim_return _ _ _ _ Hs) as Hr. destruct (return_types a) as [|t types].
  { ok_step. ok_step. }
  simpl in Hr. destruct e as [e|].
  - destruct (bool_decide (t = TVoid)) eqn:Ht; [ok_step|]. unfold check_returned.
    ok_step. eapply ok_typed; [done|]. intros u Hu. destruct (bool_decide (u = TVoid)); [ok_step|].
    ok_step. case_bool_decide; [|done]. subst u. apply accepted_keep; [done|].
    simpl. unfold keep, return_ok, has_type. rewrite <- Hr, Ht, Hu. by rewrite bool_decide_eq_true_2.
  - ok_step. case_bool_decide as Ht; [|done]. apply accepted_keep; [done|].
    simpl. unfold keep, return_ok. rewrite <- Hr. by rewrite bool_decide_eq_true_2.
Qed.

Lemma ok_goto K L X a n c l :
  sim K L X a →
  ok (visit_AST_GOTO_STATEMENT_RULE n c l) a (λ _ a', accepted_as K L X (AST_GOTO_STATEMENT_RULE n c l) a a').
Proof.
  intros Hs. unfold visit_AST_GOTO_STATEMENT_RULE. ok_step. ok_step.
  destruct (sim_labels _ _ _ _ Hs) as [rest ->]. ok_step.
  destruct (bool_decide (l ∈ c_labels K)) eqn:Hl; [|case_match; ok_step].
  ok_step. destruct c as [c|].
  - ok_step. eapply ok_condition; [done|]. intros Hc _. ok_step. apply accepted_keep; [done|].
    simpl. by rewrite Hl, Hc.
  - ok_step. apply accepted_keep; [done|]. simpl. by rewrite Hl.
Qed.

(** A loop over the items of a statement, each checked on its own. *)
Lemma ok_for_each {A} (body : A → SA unit) (p : A → bool) xs a :
  (∀ x, Pres grows (body x)) → (∀ x, x ∈ xs → ok (body x) a (λ _ a', a' = a ∧ p x = true)) →
  ok (for_each body xs) a (λ _ a', a' = a ∧ forallb p xs = true).
Proof.
  intros Hb. induction xs as [|x xs IH]; intros Hx; simpl; [by apply ok_ret|].
  ok_step. eapply ok_mono; [apply Hx; set_solver|]. intros [] a' [-> ->]. simpl.
  apply IH. set_solver.
Qed.

Lemma ok_read K L X a n vs :
  sim K L X a → ok (visit_AST_READ_RULE vs) a (λ _ a', accepted_as K L X (AST_READ_RULE n vs) a a').
Proof.
  intros Hs. eapply ok_mono; [apply (ok_for_each _ (readable F G L))|].
  - intros v. pres.
  - intros v _. ok_step. eapply ok_typed; [done|]. intros t Ht. ok_step. split; [done|]. unfold readable.
    pose proof (type_of_variable _ _ _ _ _ _ Hs Ht) as Hv. rewrite Ht, (bool_decide_eq_false_2 _ Hv). simpl.
    by apply negb_true_iff.
  - intros [] a' [-> Hp]. apply accepted_keep; [done|]. simpl. by rewrite Hp.
Qed.

Lemma ok_print K L X a n ps :
  sim K L X a → ok (visit_AST_PRINT_RULE ps) a (λ _ a', accepted_as K L X (AST_PRINT_RULE n ps) a a').
Proof.
  intros Hs. eapply ok_mono; [apply (ok_for_each _ (printable F G L))|].
  - intros v. pres.
  - intros [m text|e] _; ok_step; (eapply ok_typed; [done|]); intros t Ht; ok_step; split; try done.
    unfold printable. rewrite Ht. by apply negb_true_iff.
  - intros [] a' [-> Hp]. apply accepted_keep; [done|]. simpl. by rewrite Hp.
Qed.

Lemma ok_report K L X a n w e1 e2 e3 :
  sim K L X a →
  ok (visit_AST_GREENAI_REPORT_RULE n e1 e2 e3) a
    (λ _ a', accepted_as K L X (AST_GREENAI_REPORT_RULE n w e1 e2 e3) a a').
Proof.
  intros Hs. unfold visit_AST_GREENAI_REPORT_RULE. ok_step. eapply ok_typed; [done|]. intros t1 H1.
  ok_step. eapply ok_typed; [done|]. intros t2 H2. ok_step. eapply ok_typed; [done|]. intros t3 H3.
  ok_step. apply accepted_keep; [done|]. simpl. unfold has_type. rewrite H1, H2, H3.
  repeat case_bool_decide; simplify_eq/=; done.
Qed.

Lemma ok_counted K L X a n v from step to (Q : unit → SemanticAnalyzer → Prop) :
  sim K L X a → (counted_ok F G L v from step to = true → Q tt a) →
  ok (check_counted_loop n v from step to) a Q.
Proof.
  intros Hs HQ. unfold check_counted_loop. ok_step. eapply ok_typed; [done|]. intros t1 H1.
  ok_step. eapply ok_typed; [done|]. intros t2 H2. ok_step. eapply ok_typed; [done|]. intros t3 H3.
  ok_step. eapply ok_typed; [done|]. intros t4 H4. ok_step. apply HQ. unfold counted_ok, has_type.
  rewrite H1, H2, H3, H4. repeat case_bool_decide; simplify_eq/=; done.
Qed.

Lemma ok_expression K L X a n e :
  sim K L X a → ok (accept_expression e) a (λ _ a', accepted_as K L X (AST_EXPRESSION_STATEMENT_RULE n e) a a').
Proof.
  intros Hs.
  assert (∀ t, type_of F G L e = Some t → accepted_as K L X (AST_EXPRESSION_STATEMENT_RULE n e) a a) as Hk.
  { intros t Ht. apply accepted_keep; [done|]. simpl. by rewrite Ht. }
  destruct e; cbv beta iota delta [accept_expression]; try (by eapply ok_ret, Hk); try (ok_step; eapply ok_typed; [done|]; intros; ok_step; eauto).
  eapply ok_call_statement; [done|]. unfold call_ok. simpl in Hk.
  destruct (F !! _) as [[ps r]|]; [|done]. intros Hm. rewrite Hm in Hk. eauto.
Qed.
End Sound.

(** * Declarations *)

Lemma ok_scalar_type n e a (Q : unit → SemanticAnalyzer → Prop) :
  (isExecutableScalarType (ts_type e) = true → Q tt a) → ok (check_scalar_type n e) a Q.
Proof.
  intros HQ. unfold check_scalar_type, check_descriptor. ok_step.
  ok_step. case_match. ok_step. apply HQ. by apply negb_false_iff.
Qed.

Lemma ok_array_type n e a (Q : unit → SemanticAnalyzer → Prop) :
  (isExecutableScalarType (ta_type e) && negb (bool_decide (ta_type e = TString)) && (0 <? ta_size e) = true → Q tt a) →
  ok (check_array_type n e) a Q.
Proof.
  intros HQ. unfold check_array_type, check_descriptor.
  ok_step. ok_step.
  ok_step. ok_step.
  destruct (Descriptors.validate _) as [valid diag] eqn:Hv. ok_step. apply HQ.
  assert (valid = true) as -> by by apply negb_false_iff.
  repeat match goal with H : negb _ = false |- _ => apply negb_false_iff in H; rewrite H end.
  match goal with H : bool_decide _ = false |- _ => rewrite H end. simpl.
  destruct (0 <? ta_size e) eqn:Hz; [done|]. exfalso. apply Z.ltb_ge in Hz.
  assert ((if ta_size e <? 0 then 0 else u64 (ta_size e)) = 0) as Hext.
  { destruct (Z.ltb_spec (ta_size e) 0); [done|]. by replace (ta_size e) with 0 by lia. }
  rewrite Hext in Hv. unfold Descriptors.validate in Hv. simpl in Hv.
  by destruct (Descriptors.validPayload _).
Qed.

(** ** In a local scope *)

Lemma ok_local_scalars n names es a :
  local_scopes a ≠ [] →
  ok (check_scalars n names es) a
    (λ _ a', a' = a ∧ forallb (λ e, isExecutableScalarType (ts_type e)) es = true).
Proof.
  intros Hl. revert names. induction es as [|e es IH]; intros names; simpl; [by apply ok_ret|].
  unfold check_unique. ok_step. ok_step. ok_step. destruct (local_scopes a); [done|].
  ok_step. ok_step. apply ok_scalar_type. intros He. eapply ok_mono; [by apply IH|].
  intros _ a' [-> ->]. by rewrite He.
Qed.

Lemma ok_local_arrays n names es a :
  local_scopes a ≠ [] →
  ok (check_arrays n names es) a
    (λ _ a', a' = a ∧ forallb (λ e, isExecutableScalarType (ta_type e) && negb (bool_decide (ta_type e = TString)) &&
                                    (0 <? ta_size e)) es = true).
Proof.
  intros Hl. revert names. induction es as [|e es IH]; intros names; simpl; [by apply ok_ret|].
  unfold check_unique. ok_step. ok_step. ok_step. destruct (local_scopes a); [done|].
  ok_step. ok_step. apply ok_array_type. intros He. eapply ok_mono; [by apply IH|].
  intros _ a' [-> ->]. by rewrite He.
Qed.

Lemma ok_declare_names n es l rest a :
  local_scopes a = l :: rest →
  ok (for_each (λ e : string * VariableInfo, declare_name n e.1 e.2) es) a
    (λ _ a', ∃ l', declare_entries es l = Some l' ∧ a' = set_local_scopes (l' :: rest) a).
Proof.
  revert l a. induction es as [|[x v] es IH]; intros l a Hl; simpl.
  { apply ok_ret. exists l. split; [done|]. rewrite <- Hl. by destruct a. }
  ok_step. unfold declare_name. ok_step. ok_step. simpl. rewrite Hl.
  destruct (l !! x); [ok_step|]. ok_step. eapply ok_mono; [by apply IH|]. done.
Qed.

Lemma for_each_map {A B} (f : A → B) (body : B → SA unit) xs :
  for_each (λ x, body (f x)) xs = for_each body (map f xs).
Proof. induction xs as [|x xs IH]; simpl; [done|]. by rewrite IH. Qed.

Lemma ok_local_declaration d l rest a :
  local_scopes a = l :: rest →
  ok (visit_AST_DATA_DECLARATION_BLOCK d) a
    (λ _ a', declaration_types_ok d = true ∧
       ∃ l', declare_entries (declared_entries d) l = Some l' ∧ a' = set_local_scopes (l' :: rest) a).
Proof.
  intros Hl. assert (local_scopes a ≠ []) as Hne by by rewrite Hl.
  unfold visit_AST_DATA_DECLARATION_BLOCK, declaration_types_ok, declared_entries.
  ok_step. eapply ok_mono; [by apply ok_local_scalars|]. intros names a' [-> ->].
  ok_step. eapply ok_mono; [by apply ok_local_arrays|]. intros _ a' [-> ->].
  unfold declareInCurrentScope.
  pose (name_scalar e := (ts_name e, {| vi_type := ts_type e; is_array := false |})).
  pose (name_array e := (ta_name e, {| vi_type := ta_type e; is_array := true |})).
  ok_step. change (for_each _ (typed_scalars d)) with
    (for_each (λ e, (λ p : string * VariableInfo, declare_name (decl_node d) p.1 p.2) (name_scalar e)) (typed_scalars d)).
  rewrite for_each_map. eapply ok_mono; [by apply ok_declare_names|]. intros _ a' (l1 & H1 & ->).
  change (for_each _ (typed_arrays d)) with
    (for_each (λ e, (λ p : string * VariableInfo, declare_name (decl_node d) p.1 p.2) (name_array e)) (typed_arrays d)).
  rewrite for_each_map. eapply ok_mono; [by apply ok_declare_names|]. intros _ a' (l2 & H2 & ->).
  split; [done|]. exists l2. split; [|done]. apply declare_entries_app. eauto.
Qed.

(** * Blocks *)

Section Blocks.
Context (F : signatures) (G : scope).

(** Declaring names keeps the simulation. *)
Lemma sim_declared K d l l' L X a :
  sim F G K (l :: L) X a → declaration_types_ok d = true → declare_entries (declared_entries d) l = Some l' →
  sim F G K (l' :: L) X (set_local_scopes (l' :: L ++ X) a).
Proof.
  intros [? ? ? ? ? ? ? ? Hv] Ht Hd. split; try done.
  intros x v. rewrite lookup_variable_cons. destruct (l' !! x) as [w|] eqn:Hx.
  - intros [= ->]. destruct (declare_entries_lookup _ _ _ _ _ Hd Hx) as [Hl|Hin].
    + apply (Hv x). by rewrite lookup_variable_cons, Hl.
    + by eapply declared_values.
  - intros Hg. apply (Hv x). rewrite lookup_variable_cons.
    destruct (l !! x) eqn:Hl; [|done]. rewrite (declare_entries_preserves _ _ _ _ _ Hd Hl) in Hx. done.
Qed.

Lemma sound_declaration d : sound F G (AST_DECLARATION_STATEMENT d).
Proof.
  intros K L X a Ho Ha Hne Hs. simpl in *. destruct L as [|l L]; [by destruct Hne|].
  pose proof (sim_scopes _ _ _ _ _ _ Hs) as Hl. simpl in Hl.
  eapply ok_mono; [by eapply ok_local_declaration|]. intros [] a' (Ht & l' & Hd & ->).
  exists (l' :: L). simpl. rewrite Ht, Ha, Hd. split_and!; [done| |done]. by eapply sim_declared.
Qed.

Lemma sound_atomic s : atomic s = true → sound F G s.
Proof.
  intros Hat. destruct s; try done; try apply sound_declaration; intros K L X a Ho Ha Hne Hs.
  - by apply ok_expression.
  - eapply ok_call_statement; [done|]. intros Hc. apply accepted_keep; [done|]. simpl. by rewrite Hc.
  - simpl. unfold visit_AST_BREAK. ok_step. ok_step. ok_step. apply accepted_keep; [done|]. simpl.
    destruct (sim_loop _ _ _ _ _ _ Hs) as [_ ->]. by match goal with H : _ = false |- _ => rewrite H end.
  - simpl. unfold visit_AST_CONTINUE. ok_step. ok_step. ok_step. apply accepted_keep; [done|]. simpl.
    destruct (sim_loop _ _ _ _ _ _ Hs) as [_ ->]. by match goal with H : _ = false |- _ => rewrite H end.
  - by apply ok_return.
  - by apply ok_assignment.
  - by apply ok_goto.
  - by apply ok_read.
  - by apply ok_print.
  - apply ok_ret, accepted_keep; done.
  - by apply ok_report.
  - apply ok_ret, accepted_keep; done.
  - eapply ok_extension; [|done..]. simpl. pres.
  - eapply ok_extension; [|done..]. simpl. pres.
  - eapply ok_extension; [|done..]. simpl. pres.
  - eapply ok_extension; [|done..]. simpl. pres.
  - eapply ok_extension; [|done..]. simpl. pres.
  - eapply ok_extension; [|done..]. simpl. pres.
Qed.

Lemma ok_scan_labels i ss m a (Q : gmap string nat → SemanticAnalyzer → Prop) :
  Q (label_positions i ss m) a → ok (scan_labels i ss m) a Q.
Proof.
  revert i m. induction ss as [|s ss IH]; intros i m HQ; simpl in *; [by apply ok_ret|].
  destruct s; simpl in HQ; try by apply IH. destruct (m !! label) eqn:Hm; [ok_step; ok_step|by apply IH].
Qed.

Lemma ok_check_jump all i s a (Q : unit → SemanticAnalyzer → Prop) :
  (match s with
   | AST_GOTO_STATEMENT_RULE _ _ l =>
       match block_labels all !! l with Some t => negb (crosses_declaration all i t) | None => true end
   | _ => true
   end = true → Q tt a) → ok (check_jump all (block_labels all) i s) a Q.
Proof.
  intros HQ. destruct s; simpl; try by apply ok_ret, HQ.
  destruct (block_labels all !! label); [|by apply ok_ret, HQ]. ok_step. apply HQ. by apply negb_true_iff.
Qed.

Lemma sound_statements all ss K X :
  Forall (sound F G) ss → ∀ i L a,
  forallb statement_ok ss = true → forallb (statement_avoids G) ss = true →
  (existsb is_declaration ss = true → L ≠ []) → sim F G K L X a →
  ok (accept_statements visit_statement all (block_labels all) i ss) a
    (λ _ a', jumps_ok all i ss = true ∧
       ∃ L', check_statements (check_statement F G K) L ss = Some L' ∧ sim F G K L' X a' ∧ tables a' = tables a).
Proof.
  induction 1 as [|s ss Hsound Hss IH]; intros i L a Ho Ha Hne Hs; simpl in *.
  { apply ok_ret. split; [done|]. exists L. done. }
  apply andb_true_iff in Ho as [Hos Ho]. apply andb_true_iff in Ha as [Has Ha]. rewrite orb_true_iff in Hne.
  ok_step. apply ok_check_jump. intros Hj. rewrite Hj.
  ok_step. eapply ok_mono; [eapply (Hsound K L X a); auto|]. intros [] a1 (L1 & Hc & Hs1 & Ht1). rewrite Hc.
  eapply ok_mono; [apply (IH (S i) L1 a1); auto|].
  - intros Hd. apply check_statement_tail in Hc as [Hlen _]. destruct L; [by destruct Hne; auto|]. by destruct L1.
  - intros [] a2 (-> & L2 & Hc2 & Hs2 & Ht2). split; [done|]. exists L2. split_and!; [done..|congruence].
Qed.

(** The labels of a block entered in the state, and taken out. *)
Lemma sim_enter_labels K L X a labels :
  sim F G K L X a →
  sim F G {| c_return := c_return K; c_loop := c_loop K; c_labels := labels |} L X
    (set_block_label_scopes (labels :: block_label_scopes a) a).
Proof. intros [? ? ? ? ? ? ? ? ?]. split; try done. simpl. eauto. Qed.

Lemma sim_push K L X a : sim F G K L X a → sim F G K (∅ :: L) X (set_local_scopes (∅ :: local_scopes a) a).
Proof.
  intros [Hl ? ? ? ? ? ? ? Hv]. by split; simpl; rewrite ?Hl.
Qed.

(** Leaving a block restores the state up to diagnostics and declarations of
    the AI extension. *)
Lemma sim_leave K L X a a' :
  sim F G K L X a → tables a' = tables a → local_scopes a' = local_scopes a → sim F G K L X a'.
Proof.
  intros [? ? ? ? ? ? ? ? ?] Ht Hl. unfold tables in Ht. injection Ht as E1 E2 E3 E4 E5 E6 E7 E8 E9 E10.
  split; by rewrite ?Hl, ?E1, ?E2, ?E3, ?E4, ?E5, ?E6, ?E7, ?E8, ?E9, ?E10.
Qed.

Lemma sound_block_case n l ss : Forall (sound F G) ss → sound_block F G (Block n l ss).
Proof.
  intros Hss K L X a [-> Ho]%andb_true_iff Ha Hs. simpl in *. unfold visit_AST_STATEMENTS_BLOCK, push_scope, pop_scope.
  ok_step. ok_step. ok_step. apply ok_scan_labels. ok_step. ok_step.
  set (a1 := set_block_label_scopes _ _).
  assert (sim F G (block_context K ss) (∅ :: L) X a1) as Hs1 by by apply (sim_enter_labels K), sim_push.
  ok_step. eapply ok_mono; [by apply (sound_statements ss ss (block_context K ss) X Hss 0 (∅ :: L) a1)|].
  intros [] a2 (Hj & L2 & Hc & Hs2 & Ht2). ok_step. ok_step. ok_step.
  apply check_statements_tail in Hc as Hc'. destruct Hc' as [Hlen Htl]. destruct L2 as [|l2 L2]; [done|]. simpl in Htl.
  rewrite Hj, Hc. split; [done|].
  pose proof (sim_scopes _ _ _ _ _ _ Hs2) as Hl2. pose proof (sim_scopes _ _ _ _ _ _ Hs) as Hl.
  assert (tables (set_local_scopes (tail (local_scopes a2)) (set_block_label_scopes (tail (block_label_scopes a2)) a2)) =
          tables a) as Ht.
  { unfold tables in *. simpl in *. injection Ht2 as E1 E2 E3 E4 E5 E6 E7 E8 E9 E10. rewrite E1. simpl. congruence. }
  split; [|done]. apply (sim_leave K L X a); [done..|]. simpl. rewrite Hl2, Hl. simpl. congruence.
Qed.

(** A block inside a statement. *)
Lemma ok_inner_block K K' b L X a (Q : unit → SemanticAnalyzer → Prop) :
  sound_block F G b → block_ok b = true → block_avoids G b = true → sim F G K L X a → K' = K →
  (check_block F G K' L b = true → ∀ a', sim F G K L X a' → tables a' = tables a → Q tt a') →
  ok (visit_block b) a Q.
Proof.
  intros Hb Ho Ha Hs -> HQ. eapply ok_mono; [by apply (Hb K L X a)|].
  intros [] a' (Hc & Hs' & Ht). auto.
Qed.

(** The depth of the loops around a statement. *)
Lemma sim_enter_loop K L X a :
  sim F G K L X a → sim F G (in_loop K) L X (set_loopDepth (loopDepth a + 1) a).
Proof.
  intros [? ? ? ? ? ? [Hd _] ? ?]. split; try done. simpl. split; [lia|].
  by rewrite (proj2 (Z.eqb_neq _ _)) by lia.
Qed.

Lemma sim_leave_loop K L X a a' :
  sim F G K L X a → sim F G (in_loop K) L X a' → tables a' = tables (set_loopDepth (loopDepth a + 1) a) →
  let a'' := set_loopDepth (loopDepth a' - 1) a' in sim F G K L X a'' ∧ tables a'' = tables a.
Proof.
  intros Hs Hs' Ht a''. assert (tables a'' = tables a) as Ht'.
  { unfold tables in *. simpl in *. injection Ht as E1 E2 E3 E4 E5 E6 E7 E8 E9 E10. rewrite E3.
    replace (loopDepth a + 1 - 1) with (loopDepth a) by lia. congruence. }
  split; [|done]. apply (sim_leave K L X a); [done..|]. simpl.
  by rewrite (sim_scopes _ _ _ _ _ _ Hs), (sim_scopes _ _ _ _ _ _ Hs').
Qed.

Lemma sound_all : (∀ s, sound F G s) ∧ (∀ b, sound_block F G b).
Proof.
  apply statement_block_induction.
  - apply sound_atomic.
  - intros b Hb K L X a Ho Ha _ Hs. simpl in *. eapply ok_inner_block; [done..|]. intros Hc a' Hs' Ht.
    exists L. simpl. by rewrite Hc.
  - intros n c b Hb K L X a Ho Ha _ Hs. simpl in *. apply andb_true_iff in Ho as [_ Ho].
    ok_step. eapply ok_condition; [done|]. intros Hcond _. eapply ok_inner_block; [done..|].
    intros Hc a' Hs' Ht. exists L. simpl. by rewrite Hcond, Hc.
  - intros n c b1 b2 Hb1 Hb2 K L X a Ho Ha _ Hs. simpl in *. apply andb_true_iff in Ho as [[_ Ho1]%andb_true_iff Ho2].
    apply andb_true_iff in Ha as [Ha1 Ha2].
    ok_step. eapply ok_condition; [done|]. intros Hcond _. ok_step. eapply ok_inner_block; [done..|].
    intros Hc1 a1 Hs1 Ht1. eapply ok_inner_block; [done..|].
    intros Hc2 a2 Hs2 Ht2. exists L. simpl. rewrite Hcond, Hc1, Hc2. split_and!; [done..|congruence].
  - intros n v from step to b Hb K L X a Ho Ha _ Hs. simpl in *. apply andb_true_iff in Ho as [_ Ho].
    unfold enter_loop, leave_loop. ok_step. eapply ok_counted; [done|]. intros Hcount.
    ok_step. ok_step. ok_step. eapply ok_inner_block; [done..|by apply sim_enter_loop|done|].
    intros Hc a1 Hs1 Ht1. ok_step. destruct (sim_leave_loop K L X a a1) as [? ?]; [done..|].
    exists L. simpl. by rewrite Hcount, Hc.
  - intros n c b Hb K L X a Ho Ha _ Hs. simpl in *. apply andb_true_iff in Ho as [_ Ho].
    unfold enter_loop, leave_loop. ok_step. eapply ok_condition; [done|]. intros Hcond _.
    ok_step. ok_step. ok_step. eapply ok_inner_block; [done..|by apply sim_enter_loop|done|].
    intros Hc a1 Hs1 Ht1. ok_step. destruct (sim_leave_loop K L X a a1) as [? ?]; [done..|].
    exists L. simpl. by rewrite Hcond, Hc.
  - apply sound_block_case.
Qed.

(** The body of a function or the logic block. *)
Lemma sound_body n ret ss L X a :
  forallb statement_ok ss = true → forallb (statement_avoids G) ss = true →
  (existsb is_declaration ss = true → L ≠ []) → loopDepth a = 0 →
  (∀ labels rest, sim F G {| c_return := ret; c_loop := false; c_labels := labels |} L X
     (set_block_label_scopes (labels :: rest) a)) →
  ok (visit_block (Block n false ss)) a
    (λ _ a', check_body F G ret L ss = true ∧ tables a' = tables a ∧ length (local_scopes a') = length (local_scopes a) ∧
             tail (local_scopes a') = tail (local_scopes a)).
Proof.
  intros Ho Ha Hne Hd Hs. simpl. unfold visit_AST_STATEMENTS_BLOCK.
  ok_step. ok_step. ok_step. apply ok_scan_labels. ok_step. ok_step.
  specialize (Hs (dom (block_labels ss)) (block_label_scopes a)).
  ok_step. eapply ok_mono.
  { apply (sound_statements ss ss _ X (Forall_true _ _ (proj1 sound_all)) 0 L _ Ho Ha Hne Hs). }
  intros [] a2 (Hj & L2 & Hc & Hs2 & Ht2). ok_step. ok_step. ok_step.
  unfold check_body. rewrite Hj, Hc. split; [done|].
  apply check_statements_tail in Hc as [Hlen Htl].
  pose proof (sim_scopes _ _ _ _ _ _ Hs2) as Hl2. pose proof (sim_scopes _ _ _ _ _ _ Hs) as Hl. simpl in *.
  rewrite Hl2, Hl. split_and!.
  - unfold tables in *. simpl in *. injection Ht2 as E1 E2 E3 E4 E5 E6 E7 E8 E9 E10. rewrite E1. simpl. congruence.
  - rewrite !length_app. congruence.
  - destruct L, L2; try done. simpl in *. congruence.
Qed.
End Blocks.

(** * Globals and parameters *)

(** Outside every scope, the names of a block are checked for duplicates. *)
Lemma ok_global_scalars n es a :
  local_scopes a = [] → ∀ names,
  ok (check_scalars n names es) a
    (λ names' a', a' = a ∧ forallb (λ e, isExecutableScalarType (ts_type e)) es = true ∧
       ∀ l, dom l = names → ∃ l', dom l' = names' ∧
         declare_entries (map (λ e, (ts_name e, {| vi_type := ts_type e; is_array := false |})) es) l = Some l').
Proof.
  intros Hl. induction es as [|e es IH]; intros names; simpl.
  { apply ok_ret. naive_solver. }
  unfold check_unique. ok_step. ok_step. ok_step. rewrite Hl. ok_step. ok_step. ok_step.
  ok_step. apply ok_scalar_type. intros He. eapply ok_mono; [by apply IH|].
  intros names' a' (-> & Ht & Hd). rewrite He, Ht. split_and!; [done..|]. intros l <-.
  match goal with H : bool_decide _ = false |- _ => apply bool_decide_eq_false in H as Hn end.
  rewrite (not_elem_of_dom_1 _ _ Hn). apply Hd. by rewrite dom_insert_L.
Qed.

Lemma ok_global_arrays n es a :
  local_scopes a = [] → ∀ names,
  ok (check_arrays n names es) a
    (λ names' a', a' = a ∧
       forallb (λ e, isExecutableScalarType (ta_type e) && negb (bool_decide (ta_type e = TString)) &&
                     (0 <? ta_size e)) es = true ∧
       ∀ l, dom l = names → ∃ l', dom l' = names' ∧
         declare_entries (map (λ e, (ta_name e, {| vi_type := ta_type e; is_array := true |})) es) l = Some l').
Proof.
  intros Hl. induction es as [|e es IH]; intros names; simpl.
  { apply ok_ret. naive_solver. }
  unfold check_unique. ok_step. ok_step. ok_step. rewrite Hl. ok_step. ok_step. ok_step.
  ok_step. apply ok_array_type. intros He. eapply ok_mono; [by apply IH|].
  intros names' a' (-> & Ht & Hd). rewrite He, Ht. split_and!; [done..|]. intros l <-.
  match goal with H : bool_decide _ = false |- _ => apply bool_decide_eq_false in H as Hn end.
  rewrite (not_elem_of_dom_1 _ _ Hn). apply Hd. by rewrite dom_insert_L.
Qed.

Lemma no_scope_declares {A} (f : A → SA unit) xs a :
  (∀ x, f x a = (tt, a)) → for_each f xs a = (tt, a).
Proof. intros Hf. induction xs as [|x xs IH]; simpl; [done|]. unfold mbind, ST_bind. by rewrite Hf. Qed.

Lemma ok_global_declaration d a (Q : unit → SemanticAnalyzer → Prop) :
  local_scopes a = [] →
  (declaration_types_ok d = true → (∃ l, declare_entries (declared_entries d) ∅ = Some l) → Q tt a) →
  ok (visit_AST_DATA_DECLARATION_BLOCK d) a Q.
Proof.
  intros Hl HQ. unfold visit_AST_DATA_DECLARATION_BLOCK, declaration_types_ok, declared_entries in *.
  ok_step. eapply ok_mono; [by apply ok_global_scalars|]. intros names a' (-> & Ht1 & Hd1).
  ok_step. eapply ok_mono; [by apply ok_global_arrays|]. intros names' a' (-> & Ht2 & Hd2).
  rewrite Ht1, Ht2 in HQ.
  assert (declareInCurrentScope d a = (tt, a)) as Hrun.
  { assert (∀ n x v, declare_name n x v a = (tt, a)) as Hname.
    { intros n x v. unfold declare_name, mbind, ST_bind, reads. simpl. by rewrite Hl. }
    unfold declareInCurrentScope, mbind, ST_bind.
    rewrite (no_scope_declares _ (typed_scalars d) a); [|done]. by apply no_scope_declares. }
  unfold ok. rewrite Hrun. intros _. apply HQ; [done|].
  destruct (Hd1 ∅) as (l1 & <- & H1); [by rewrite dom_empty_L|].
  destruct (Hd2 l1 eq_refl) as (l2 & _ & H2). exists l2. apply declare_entries_app. eauto.
Qed.

(** The scope of the parameters is the one the checker builds. *)
Lemma parameter_scope_entries d l :
  declare_entries (declared_entries d) ∅ = Some l → parameter_scope d = l.
Proof.
  unfold parameter_scope, declared_entries. generalize (∅ : scope).
  induction (map _ (typed_scalars d) ++ map _ (typed_arrays d))%list as [|[x v] es IH]; intros l0; simpl; [congruence|].
  destruct (l0 !! x); [done|]. apply IH.
Qed.

(** The global tables of the analyser are the global scope of the checker. *)
Lemma agree_scalars es (m : gmap string ShortType) (l0 l l' : scope) :
  (∀ x, l !! x = match m !! x with Some t => Some {| vi_type := t; is_array := false |} | None => l0 !! x end) →
  declare_entries (map (λ e, (ts_name e, {| vi_type := ts_type e; is_array := false |})) es) l = Some l' →
  ∀ x, l' !! x = match foldl (λ m e, <[ts_name e := ts_type e]> m) m es !! x with
                 | Some t => Some {| vi_type := t; is_array := false |} | None => l0 !! x end.
Proof.
  revert m l. induction es as [|e es IH]; intros m l Hm; simpl; [intros [= <-]; exact Hm|].
  destruct (l !! ts_name e); [done|]. apply IH. intros x. destruct (decide (ts_name e = x)) as [<-|Hne].
  - by rewrite !lookup_insert_eq.
  - by rewrite !lookup_insert_ne.
Qed.

Lemma agree_arrays es (m : gmap string ShortType) (l0 l l' : scope) :
  (∀ x, l !! x = match m !! x with Some t => Some {| vi_type := t; is_array := true |} | None => l0 !! x end) →
  declare_entries (map (λ e, (ta_name e, {| vi_type := ta_type e; is_array := true |})) es) l = Some l' →
  ∀ x, l' !! x = match foldl (λ m e, <[ta_name e := ta_type e]> m) m es !! x with
                 | Some t => Some {| vi_type := t; is_array := true |} | None => l0 !! x end.
Proof.
  revert m l. induction es as [|e es IH]; intros m l Hm; simpl; [intros [= <-]; exact Hm|].
  destruct (l !! ta_name e); [done|]. apply IH. intros x. destruct (decide (ta_name e = x)) as [<-|Hne].
  - by rewrite !lookup_insert_eq.
  - by rewrite !lookup_insert_ne.
Qed.

Lemma global_tables p a (G : scope) x :
  declare_entries (declared_entries (decl_block p)) ∅ = Some G →
  match global_types (enter_program p a) !! x with
  | Some t => Some {| vi_type := t; is_array := false |}
  | None => match global_array_types (enter_program p a) !! x with
            | Some t => Some {| vi_type := t; is_array := true |}
            | None => None
            end
  end = G !! x.
Proof.
  intros (l1 & H1 & H2)%declare_entries_app. simpl.
  pose proof (agree_scalars _ ∅ ∅ _ _ (λ x, eq_refl) H1 x) as Hs.
  pose proof (agree_arrays _ ∅ l1 _ _ (λ x, eq_refl) H2 x) as Ha. rewrite !lookup_empty in Hs.
  destruct (foldl _ ∅ (typed_scalars (decl_block p)) !! x).
  - symmetry. by eapply declare_entries_preserves.
  - rewrite Ha, Hs. done.
Qed.
