(* ===== verification/AnalyzerProgram.v ===== *)
(** Functions and whole programs: what semantic analysis accepts, the
    reference checker accepts. *)
From S2P Require Import Prelude CxxInt CxxString CxxFloat TypeSystem Ast AiTypes Diagnostics.
From S2P Require Import AnalyzerState C3EcoSemantics SemanticAnalyzer Checker CheckerFacts AnalyzerFacts AnalyzerSound.
Open Scope string_scope.
Open Scope Z_scope.

(** * The C3-ECO validation only reports *)

Section C3EcoPres.
Context (R : relation SemanticAnalyzer) `{!Reporting R}.

Lemma pres_single n d x k : Pres R (single n d x k).
Proof using Type*. unfold single. pres. Qed.
#[local] Hint Resolve pres_single : pres.

Lemma pres_nonEmptyString n d x : Pres R (nonEmptyString n d x).
Proof using Type*. unfold nonEmptyString. pres. Qed.

Lemma pres_requiredBoolean n d x : Pres R (requiredBoolean n d x).
Proof using Type*. unfold requiredBoolean. pres. Qed.

Lemma pres_requireV2Field n d x : Pres R (requireV2Field n d x).
Proof using Type*. unfold requireV2Field. pres. Qed.

Lemma pres_enumValue n d x l : Pres R (enumValue n d x l).
Proof using Type*. unfold enumValue. pres. Qed.

Lemma pres_integerRange n d x lo hi : Pres R (integerRange n d x lo hi).
Proof using Type*. unfold integerRange. pres. Qed.

Lemma pres_decimalRange n d x lo hi : Pres R (decimalRange n d x lo hi).
Proof using Type*. unfold decimalRange. pres. Qed.

Lemma pres_domain_check n d v bad m : Pres R (domain_check n d v bad m).
Proof using Type*. unfold domain_check. pres. Qed.
#[local] Hint Resolve pres_nonEmptyString pres_requiredBoolean pres_requireV2Field pres_enumValue
  pres_integerRange pres_decimalRange pres_domain_check : pres.

Lemma pres_sum_exclusions n d es : ∀ total rs ms, Pres R (sum_exclusions n d total es rs ms).
Proof using Type*.
  induction es as [|e es IH]; intros total rs ms; simpl; [pres|].
  destruct rs as [|r rs]; [pres|]. destruct ms as [|m ms]; pres.
Qed.
#[local] Hint Resolve pres_sum_exclusions : pres.

Lemma pres_typed_declaration n d : Pres R (validateC3EcoTypedDeclaration n d).
Proof using Type*.
  unfold validateC3EcoTypedDeclaration, typed_certification, typed_functional_unit, typed_workload,
    typed_boundary, check_include, check_exclusions, typed_ai_lifecycle. pres.
Qed.
#[local] Hint Resolve pres_typed_declaration : pres.

Lemma pres_check_references nodes p rs : ∀ v, Pres R (check_references nodes p v rs).
Proof using Type*.
  induction rs as [|r rs IH]; intros v; simpl; unfold check_reference; pres.
Qed.
#[local] Hint Resolve pres_check_references : pres.

Lemma pres_check_profiles nodes ps : ∀ v, Pres R (check_profiles nodes ps v).
Proof using Type*.
  induction ps as [|p ps IH]; intros v; simpl; unfold check_profile; pres.
Qed.
#[local] Hint Resolve pres_check_profiles : pres.

Lemma pres_profiles : Pres R validateC3EcoProfiles.
Proof using Type*. unfold validateC3EcoProfiles. pres. Qed.
End C3EcoPres.
#[export] Hint Resolve pres_profiles : pres.

(** * Functions *)

Lemma pres_function f : Pres grows (visit_AST_FUNCTION_RULE f).
Proof. unfold visit_AST_FUNCTION_RULE, push_scope, pop_scope. pres. Qed.
#[export] Hint Resolve pres_function : pres.

Lemma pres_declare_functions fs : ∀ names, Pres grows (declare_functions names fs).
Proof. induction fs as [|f fs IH]; intros names; simpl; pres. Qed.
#[export] Hint Resolve pres_declare_functions : pres.

Lemma pres_function_list fs : Pres grows (visit_AST_FUNCTION_LIST_RULE fs).
Proof. unfold visit_AST_FUNCTION_LIST_RULE. pres. Qed.

Lemma pres_logic_block b : Pres grows (visit_AST_LOGIC_BLOCK b).
Proof. unfold visit_AST_LOGIC_BLOCK, push_scope, pop_scope. pres. Qed.
#[export] Hint Resolve pres_function_list pres_logic_block : pres.

(** The analyser between two functions: no scope is open and its tables are
    those of the program. *)
Record ready (F : signatures) (G : scope) (a : SemanticAnalyzer) : Prop := {
  ready_scopes : local_scopes a = [];
  ready_returns : return_types a = [];
  ready_loop : loopDepth a = 0;
  ready_sim : ∀ ret labels rest L X,
    Forall (λ l, l = ∅) X → (∀ x v, lookup_variable G L x = Some v → vi_type v ≠ TVoid) →
    ∀ types, head types = ret →
    sim F G {| c_return := ret; c_loop := false; c_labels := labels |} L X
      (set_block_label_scopes (labels :: rest)
         (set_loopDepth 0 (set_return_types types (set_local_scopes (L ++ X)%list a))));
}.

Lemma ready_tables F G a a' :
  tables a' = tables a → local_scopes a' = [] → ready F G a → ready F G a'.
Proof.
  intros Ht Hl [H1 H2 H3 H4]. unfold tables in Ht. injection Ht as E1 E2 E3 E4 E5 E6 E7 E8 E9 E10.
  split; [done|congruence|congruence|]. intros ret labels rest L X HX Hv types Hr.
  apply (sim_leave F G _ _ _ _ _ (H4 ret labels rest L X HX Hv types Hr)); [|done].
  unfold tables. simpl. congruence.
Qed.

(** The names in scope in the body of a function have types of values. *)
Lemma parameter_values G d l :
  (∀ x v, G !! x = Some v → vi_type v ≠ TVoid) → declaration_types_ok d = true →
  declare_entries (declared_entries d) ∅ = Some l → ∀ x v, lookup_variable G [l] x = Some v → vi_type v ≠ TVoid.
Proof.
  intros HG Ht Hl x v. rewrite lookup_variable_cons. destruct (l !! x) as [w|] eqn:Hx; [|apply HG].
  intros [= ->]. destruct (declare_entries_lookup _ _ _ _ _ Hl Hx) as [He|Hin]; [by apply lookup_empty_Some in He|].
  by eapply declared_values.
Qed.

(** A function of the list, visited with no scope open. *)
Lemma ok_function F G f a :
  (∀ x v, G !! x = Some v → vi_type v ≠ TVoid) → ready F G a → function_ok f = true →
  avoids_globals G (parameters f) = true → block_avoids G (block_statement f) = true →
  ok (visit_AST_FUNCTION_RULE f) a (λ _ a', check_function F G f = true ∧ ready F G a').
Proof.
  intros HG Hr Ho Hp Hb. unfold function_ok in Ho.
  apply andb_true_iff in Ho as [[[Hd Hlex]%andb_true_iff _]%andb_true_iff Hss].
  apply decl_block_okb_spec in Hd as [_ Harr].
  unfold visit_AST_FUNCTION_RULE, push_scope, pop_scope.
  ok_step. apply ok_global_declaration; [apply Hr|]. intros Ht [l Hl].
  ok_step. ok_step. ok_step. ok_step. ok_step. ok_step. ok_step. ok_step. ok_step. ok_step. ok_step.
  cbn [return_types local_scopes loopDepth set_local_scopes set_return_types].
  rewrite (parameter_scope_entries _ _ Hl), (ready_scopes _ _ _ Hr), (ready_returns _ _ _ Hr).
  destruct (block_statement f) as [n lexical ss] eqn:Hblock. destruct lexical; [done|]. simpl in Hb, Hss.
  eapply ok_mono.
  { apply (sound_body F G n (Some (fn_type f)) ss [l] [] _ Hss Hb); [done|done|].
    intros labels rest. apply (ready_sim _ _ _ Hr _ labels rest [l] []); [done| |done].
    by eapply parameter_values. }
  intros [] a' (Hbody & Htab & Hlen & Htl). do 7 ok_step. split.
  - unfold check_function. rewrite Ht, Hp, Hl, Hblock. simpl. rewrite Hbody.
    match goal with H : negb (bool_decide (array_ints _ = [])) = false |- _ =>
      apply negb_false_iff, bool_decide_eq_true in H as Ha end.
    rewrite bool_decide_eq_true_2 by (rewrite Ha in Harr; by destruct (typed_arrays _)). simpl.
    match goal with H : negb (bool_decide (fn_type f = _)) && _ = false |- _ => revert H end.
    simpl. destruct (bool_decide (fn_type f = TVoid)); [done|]. simpl.
    match goal with |- negb ?b = false → _ => by destruct b end.
  - apply (ready_tables F G a); [|simpl; by rewrite Htl|done]. unfold tables in *. simpl in *.
    injection Htab as E1 E2 E3 E4 E5 E6 E7 E8 E9 E10. rewrite E2. simpl.
    rewrite (ready_returns _ _ _ Hr), (ready_loop _ _ _ Hr). congruence.
Qed.

Lemma ok_functions F G fs a :
  (∀ x v, G !! x = Some v → vi_type v ≠ TVoid) → ready F G a → forallb function_ok fs = true →
  forallb (λ f, avoids_globals G (parameters f) && block_avoids G (block_statement f)) fs = true →
  ok (for_each visit_AST_FUNCTION_RULE fs) a (λ _ a', forallb (check_function F G) fs = true ∧ ready F G a').
Proof.
  intros HG. revert a. induction fs as [|f fs IH]; intros a Hr Ho Ha; simpl in *; [by apply ok_ret|].
  apply andb_true_iff in Ho as [Ho Hos]. apply andb_true_iff in Ha as [[Hp Hb]%andb_true_iff Has].
  ok_step. eapply ok_mono; [by apply ok_function|]. intros _ a' [-> Hr'].
  eapply ok_mono; [by apply IH|]. intros _ a'' [-> ?]. done.
Qed.

(** * The table of functions *)

Definition add_signature (m : signatures) (f : AST_FUNCTION_RULE) : signatures :=
  <[function_name f := (parameter_type_list (parameters f), fn_type f)]> m.

(** The function tables of the analyser are the signatures [F]. *)
Definition declares (F : signatures) (a : SemanticAnalyzer) : Prop :=
  (∀ f, match F !! f with
        | Some (ps, r) =>
            function_arity a !! f = Some (Z.of_nat (length ps)) ∧
            function_parameter_types a !! f = Some ps ∧ function_return_types a !! f = Some r
        | None => function_arity a !! f = None
        end) ∧
  (∀ f, is_Some (F !! f) → is_empty f = false).

Lemma parameter_count_types d : decl_block_ok d → parameter_count d = Z.of_nat (length (parameter_type_list d)).
Proof.
  intros [Hs Ha]. unfold parameter_count, parameter_type_list. rewrite Hs, Ha, length_app, !length_map. lia.
Qed.

Lemma ok_declare_functions fs : ∀ names F a,
  forallb function_ok fs = true → declares F a → imported_functions a = ∅ →
  ok (declare_functions names fs) a
    (λ _ a', NoDup (map function_name fs) ∧ (∀ f, f ∈ map function_name fs → f ∉ names) ∧
       declares (foldl add_signature F fs) a' ∧
       ∃ xs ys zs fns, a' = set_function_parameter_types xs (set_function_return_types ys
                              (set_function_arity zs (set_functions_ fns a)))).
Proof.
  induction fs as [|f fs IH]; intros names F a Ho HF Hi; simpl in *.
  { apply ok_ret. split_and!; [constructor|set_solver|done|]. by destruct a; repeat eexists. }
  apply andb_true_iff in Ho as [Hf Ho]. unfold function_ok in Hf.
  apply andb_true_iff in Hf as [[[Hd%decl_block_okb_spec _]%andb_true_iff Hn%negb_true_iff]%andb_true_iff _].
  ok_step. ok_step. ok_step. ok_step. ok_step. ok_step.
  eapply ok_mono; [apply (IH _ (add_signature F f)); [done| |done]|].
  - destruct HF as [HF1 HF2]. split; intros g; unfold add_signature; simpl.
    + destruct (decide (function_name f = g)) as [<-|Hne].
      * rewrite !lookup_insert_eq. by rewrite parameter_count_types.
      * rewrite !lookup_insert_ne by done. apply HF1.
    + destruct (decide (function_name f = g)) as [<-|Hne]; [done|]. rewrite lookup_insert_ne by done. apply HF2.
  - intros _ a' (Hnd & Hout & HF' & xs & ys & zs & fns & ->).
    match goal with H : bool_decide _ || _ = false |- _ =>
      apply orb_false_iff in H as [Hx%bool_decide_eq_false _] end.
    split_and!; [|set_solver|done|by repeat eexists].
    constructor; [|done]. intros Hin. apply (Hout _ Hin). set_solver.
Qed.

(** * Programs *)

Lemma ready_intro F G a :
  local_scopes a = [] → return_types a = [] → loopDepth a = 0 → allow_external_function_calls a = true →
  (∀ x, match global_types a !! x with
        | Some t => Some {| vi_type := t; is_array := false |}
        | None => match global_array_types a !! x with
                  | Some t => Some {| vi_type := t; is_array := true |}
                  | None => None
                  end
        end = G !! x) →
  declares F a → ready F G a.
Proof.
  intros H1 H2 H3 H4 H5 [H6 H7]. split; [done..|]. intros ret labels rest L X HX Hv types Hr. split; simpl.
  - reflexivity.
  - exact HX.
  - exact H5.
  - exact H6.
  - intros f Hf. split; [by apply H7|by left].
  - exact Hr.
  - by split.
  - by exists rest.
  - exact Hv.
Qed.

Lemma ready_program p t G xs ys zs fns :
  declare_entries (declared_entries (decl_block p)) ∅ = Some G →
  let a := set_function_parameter_types xs (set_function_return_types ys
             (set_function_arity zs (set_functions_ fns (enter_program p (new_analyzer t))))) in
  declares (program_signatures p) a → ready (program_signatures p) G a.
Proof.
  intros HG a Hd. apply ready_intro; [reflexivity..| |exact Hd].
  intros x. exact (global_tables p (new_analyzer t) G x HG).
Qed.

Lemma ok_logic_block F G b a :
  (∀ x v, G !! x = Some v → vi_type v ≠ TVoid) → ready F G a →
  lexical_scope b = false → forallb statement_ok (statements b) = true →
  existsb is_declaration (statements b) = false → block_avoids G b = true →
  ok (visit_AST_LOGIC_BLOCK b) a (λ _ _, check_body F G None [] (statements b) = true).
Proof.
  intros HG Hr Hlex Hss Hd Hb. destruct b as [n lexical ss]. simpl in Hlex, Hss, Hd, Hb |- *. subst lexical.
  unfold visit_AST_LOGIC_BLOCK, push_scope, pop_scope. ok_step. ok_step. ok_step. eapply ok_mono.
  { apply (sound_body F G n None ss [] [∅] _ Hss Hb); [congruence|apply Hr|]. intros labels rest.
    eapply sim_leave; [apply (ready_sim _ _ _ Hr None labels rest [] [∅]) with (types := []);
                        [by repeat constructor|apply HG|done]| |].
    - unfold tables. simpl. by rewrite (ready_loop _ _ _ Hr), (ready_returns _ _ _ Hr).
    - simpl. by rewrite (ready_scopes _ _ _ Hr). }
  intros [] a' (Hbody & _). by ok_step.
Qed.

Lemma accepted_checks t p :
  accepted t p = true → program_ok p = true → locals_apart p = true → check_program p = true.
Proof.
  intros Hacc Ho Hap.
  assert (ok (visit_AST_PROGRAM p) (new_analyzer t) (λ _ _, check_program p = true)) as Hok.
  2:{ apply Hok. unfold accepted in Hacc. revert Hacc. unfold visit_AST_PROGRAM at 1, mbind, ST_bind. simpl.
      repeat case_match; simpl; try done. }
  unfold program_ok in Ho.
  apply andb_true_iff in Ho as [[[[Hd Hfs]%andb_true_iff Hlex%negb_true_iff]%andb_true_iff Hss]%andb_true_iff Hnd%negb_true_iff].
  apply andb_true_iff in Hap as [Hap Hlog]. unfold visit_AST_PROGRAM, visit_AST_FUNCTION_LIST_RULE.
  ok_step. ok_step. ok_step. apply ok_global_declaration; [done|]. intros Ht [G HG].
  assert (global_scope p = G) as HGp by (unfold global_scope; by rewrite HG). rewrite HGp in Hap, Hlog.
  assert (∀ x v, G !! x = Some v → vi_type v ≠ TVoid) as Hvoid.
  { intros x v Hx. destruct (declare_entries_lookup _ _ _ _ _ HG Hx) as [He|Hin];
      [by apply lookup_empty_Some in He|by eapply declared_values]. }
  ok_step. ok_step. eapply ok_mono.
  { apply (ok_declare_functions (functions p) ∅ ∅); [done| |done]. split; [done|]. by intros f [? []%lookup_empty_Some]. }
  intros _ a (Hdup & _ & HF & xs & ys & zs & fns & ->). apply (ready_program p t G) in HF as Hr; [|done].
  eapply ok_mono; [by apply ok_functions|]. intros _ a [Hcf Hr'].
  ok_step. eapply ok_mono; [by apply ok_logic_block|]. intros [] a' Hcb. simpl in Hcb.
  unfold check_program. intros _. rewrite Ht, HG, Hcf, Hcb, bool_decide_eq_true_2 by done. done.
Qed.
