(* ===== verification/AnalyzerComplete.v ===== *)
(** Semantic analysis is complete for the executable core: a program without
    declarations of the AI and C3-ECO extensions that passes the reference checker,
    and has no label twice in a block, is accepted, and the analyser is left as it
    was by every statement.  With AnalyzerProgram, semantic analysis decides the
    type system. *)
From S2P Require Import Prelude CxxInt CxxString CxxFloat TypeSystem Ast AiTypes Diagnostics.
From S2P Require Import AnalyzerState C3EcoSemantics SemanticAnalyzer Checker CheckerFacts AnalyzerFacts AnalyzerSound AnalyzerProgram.
Open Scope string_scope.
Open Scope Z_scope.

(** * The executable core *)

(** The sizes of arrays are [int]s. *)
Definition sizes_fit (d : AST_DATA_DECLARATION_BLOCK) : bool := forallb (λ e, ta_size e <=? INT32_MAX) (typed_arrays d).

(** No declaration of the AI or C3-ECO extension. *)
Fixpoint core_statement (s : AST_STATEMENT_RULE) : bool :=
  match s with
  | AST_DECLARATION_STATEMENT d => sizes_fit d
  | AST_BLOCK_STATEMENT b => core_block b
  | AST_IF_STATEMENT _ _ b => core_block b
  | AST_IF_ELSE_STATEMENT _ _ b1 b2 => core_block b1 && core_block b2
  | AST_FOR_LOOP_STATEMENT_RULE _ _ _ _ _ b => core_block b
  | AST_WHILE_LOOP_STATEMENT_RULE _ _ b => core_block b
  | AST_MODEL_DECLARATION _ _ | AST_TENSOR_DECLARATION _ _ | AST_GREENAI_CONTRACT _ _ | AST_GREENAI_MEASUREMENT _ _
  | AST_C3ECO_DECLARATION _ _ | AST_INFER_STATEMENT _ _ _ _ => false
  | _ => true
  end
with core_block (b : AST_STATEMENTS_BLOCK) : bool :=
  match b with Block _ _ ss => forallb core_statement ss end.

Definition core_program (p : AST_PROGRAM) : bool :=
  sizes_fit (decl_block p) && forallb (λ f, sizes_fit (parameters f) && core_block (block_statement f)) (functions p) &&
  core_block (code_block p).

(** No block has a label twice. *)
Definition distinct (ss : list AST_STATEMENT_RULE) : bool := bool_decide (NoDup (omap as_label ss)).

Fixpoint labels_distinct (s : AST_STATEMENT_RULE) : bool :=
  match s with
  | AST_BLOCK_STATEMENT b => block_distinct b
  | AST_IF_STATEMENT _ _ b => block_distinct b
  | AST_IF_ELSE_STATEMENT _ _ b1 b2 => block_distinct b1 && block_distinct b2
  | AST_FOR_LOOP_STATEMENT_RULE _ _ _ _ _ b => block_distinct b
  | AST_WHILE_LOOP_STATEMENT_RULE _ _ b => block_distinct b
  | _ => true
  end
with block_distinct (b : AST_STATEMENTS_BLOCK) : bool :=
  match b with Block _ _ ss => distinct ss && forallb labels_distinct ss end.

Definition program_distinct (p : AST_PROGRAM) : bool :=
  forallb (λ f, block_distinct (block_statement f)) (functions p) && block_distinct (code_block p).

(** * Accepted programs have distinct labels *)

Lemma ok_scan_distinct i ss m a :
  ok (scan_labels i ss m) a (λ _ _, NoDup (omap as_label ss) ∧ ∀ l, l ∈ omap as_label ss → m !! l = None).
Proof.
  revert i m. induction ss as [|s ss IH]; intros i m; simpl; [apply ok_ret; split; [constructor|by intros l ?%elem_of_nil]|].
  destruct s; simpl; try apply IH. destruct (m !! label) eqn:Hm; [ok_step; ok_step|].
  eapply ok_mono; [apply IH|]. cbn. intros _ a' [Hnd Hl]. split.
  - constructor; [|done]. intros Hin. apply Hl in Hin. by rewrite lookup_insert_eq in Hin.
  - intros l [->|Hin]%elem_of_cons; [done|]. apply Hl in Hin. by apply lookup_insert_None in Hin as [? _].
Qed.

Definition ok_distinct (s : AST_STATEMENT_RULE) : Prop := ∀ a, ok (visit_statement s) a (λ _ _, labels_distinct s = true).
Definition ok_block_distinct (b : AST_STATEMENTS_BLOCK) : Prop := ∀ a, ok (visit_block b) a (λ _ _, block_distinct b = true).

(** A step whose result does not matter. *)
Lemma ok_true {A} (m : SA A) a : ok m a (λ _ _, True).
Proof. by intros _. Qed.

Lemma ok_distinct_statements all m i ss a : Forall ok_distinct ss →
  ok (accept_statements visit_statement all m i ss) a (λ _ _, forallb labels_distinct ss = true).
Proof.
  intros Hss. revert i a. induction Hss as [|s ss Hs Hss IH]; intros i a; simpl; [by apply ok_ret|].
  ok_step. eapply ok_mono; [apply ok_true|]. intros _ a1 _. ok_step. eapply ok_mono; [apply Hs|]. intros _ a2 ->.
  eapply ok_mono; [apply IH|]. intros _ a3 ->. done.
Qed.

Ltac skip_step := ok_step; eapply ok_mono; [apply ok_true|]; intros ? ? _.

Lemma ok_distinct_all : (∀ s, ok_distinct s) ∧ (∀ b, ok_block_distinct b).
Proof.
  apply statement_block_induction.
  - intros s Hat a _. by destruct s.
  - intros b Hb a. apply Hb.
  - intros n c b Hb a. simpl. skip_step. apply Hb.
  - intros n c b1 b2 Hb1 Hb2 a. simpl. skip_step. ok_step. eapply ok_mono; [apply Hb1|]. intros _ a1 ->.
    eapply ok_mono; [apply Hb2|]. intros _ a2 ->. done.
  - intros n v from step to b Hb a. simpl. unfold enter_loop, leave_loop. skip_step. skip_step. ok_step.
    eapply ok_mono; [apply Hb|]. intros _ a1 ->. by intros _.
  - intros n c b Hb a. simpl. unfold enter_loop, leave_loop. skip_step. skip_step. ok_step.
    eapply ok_mono; [apply Hb|]. intros _ a1 ->. by intros _.
  - intros n l ss Hss a. simpl. unfold visit_AST_STATEMENTS_BLOCK, push_scope, pop_scope. skip_step. ok_step.
    eapply ok_mono; [apply ok_scan_distinct|]. intros m a1 [Hnd _]. skip_step. ok_step.
    eapply ok_mono; [by apply ok_distinct_statements|]. intros _ a2 ->. simpl. unfold distinct. rewrite bool_decide_eq_true_2 by done.
    by intros _.
Qed.

(** Distinct labels of a whole program, from the same visits. *)
Lemma ok_body_distinct b a : ok (visit_block b) a (λ _ _, block_distinct b = true).
Proof. apply (proj2 ok_distinct_all). Qed.

Lemma ok_function_distinct f a : ok (visit_AST_FUNCTION_RULE f) a (λ _ _, block_distinct (block_statement f) = true).
Proof.
  unfold visit_AST_FUNCTION_RULE, push_scope, pop_scope. do 6 skip_step. ok_step. eapply ok_mono; [apply ok_body_distinct|].
  intros ? ? Hd _. exact Hd.
Qed.

Lemma ok_functions_distinct fs a :
  ok (for_each visit_AST_FUNCTION_RULE fs) a (λ _ _, forallb (λ f, block_distinct (block_statement f)) fs = true).
Proof.
  revert a. induction fs as [|f fs IH]; intros a; simpl; [by apply ok_ret|]. ok_step.
  eapply ok_mono; [apply ok_function_distinct|]. intros _ a1 ->. eapply ok_mono; [apply IH|]. by intros _ a2 ->.
Qed.

Lemma accepted_distinct t p : accepted t p = true → program_distinct p = true.
Proof.
  intros Hacc. assert (ok (visit_AST_PROGRAM p) (new_analyzer t) (λ _ _, program_distinct p = true)) as Hok.
  2:{ apply Hok. revert Hacc. unfold accepted. unfold visit_AST_PROGRAM at 1, mbind, ST_bind. simpl.
      repeat case_match; simpl; try done. }
  unfold visit_AST_PROGRAM, visit_AST_FUNCTION_LIST_RULE, visit_AST_LOGIC_BLOCK, push_scope, pop_scope, program_distinct.
  skip_step. skip_step. ok_step. skip_step. eapply ok_mono; [apply ok_functions_distinct|]. intros _ a1 ->.
  ok_step. skip_step. ok_step. eapply ok_mono; [apply ok_body_distinct|]. intros _ a2 ->. by intros _ _.
Qed.

(** * Statements the checker accepts run silently *)

Section Silent.
Context (F : signatures) (G : scope).

Lemma silent_typed K L X a e t : sim F G K L X a → type_of F G L e = Some t → expressionType e a = (t, a).
Proof. intros Hs. by eapply silent_expressionType, sim_env. Qed.

Lemma silent_has_type K L X a e t : sim F G K L X a → has_type F G L e t = true → expressionType e a = (t, a).
Proof. intros Hs Ht%bool_decide_eq_true. by eapply silent_typed. Qed.

Lemma silent_condition K L X a n e :
  sim F G K L X a → condition_ok F G L e = true → requireConditionType n e a = (true, a).
Proof.
  intros Hs [Ht|Ht]%orb_true_iff; unfold requireConditionType; by rewrite (run_bind _ _ _ _ (silent_has_type _ _ _ _ _ _ Hs Ht)).
Qed.

Lemma silent_call_ok K L X a n f args :
  sim F G K L X a → call_ok F G L f args = true → validateCallTypes expressionType n f args a = (tt, a).
Proof.
  unfold call_ok. intros Hs Hc. destruct (F !! f) as [[ps r]|] eqn:Hf; [|done].
  eapply silent_call; [by eapply sim_env| |exact Hf|exact Hc]. apply Forall_true. intros e. by eapply silent_expressionType, sim_env.
Qed.

Lemma silent_for_each {A} (body : A → SA unit) xs a :
  (∀ x, x ∈ xs → body x a = (tt, a)) → for_each body xs a = (tt, a).
Proof.
  induction xs as [|x xs IH]; intros Hx; simpl; [done|]. rewrite (run_bind _ _ _ _ (Hx x ltac:(set_solver))). apply IH. set_solver.
Qed.

Lemma silent_counted K L X a n v from step to :
  sim F G K L X a → counted_ok F G L v from step to = true → check_counted_loop n v from step to a = (tt, a).
Proof.
  intros Hs. unfold counted_ok. intros [[[H1 H2]%andb_true_iff H3]%andb_true_iff H4]%andb_true_iff. unfold check_counted_loop.
  rewrite (run_bind _ _ _ _ (silent_has_type _ _ _ _ _ _ Hs H1)), (run_bind _ _ _ _ (silent_has_type _ _ _ _ _ _ Hs H2)),
    (run_bind _ _ _ _ (silent_has_type _ _ _ _ _ _ Hs H3)), (run_bind _ _ _ _ (silent_has_type _ _ _ _ _ _ Hs H4)).
  done.
Qed.

(** ** Statements without a block *)

Lemma silent_assignment K L X a n v e :
  sim F G K L X a → assignable F G L v e = true → visit_AST_ASSIGNMENT_RULE n v e a = (tt, a).
Proof.
  unfold assignable, visit_AST_ASSIGNMENT_RULE. intros Hs Ha. destruct (type_of F G L (var_expression v)) as [t|] eqn:Ht; [|done].
  apply andb_true_iff in Ha as [Hv%negb_true_iff He].
  rewrite (run_bind _ _ _ _ (silent_typed _ _ _ _ _ _ Hs Ht)), (run_bind _ _ _ _ (silent_has_type _ _ _ _ _ _ Hs He)), Hv.
  by rewrite bool_decide_eq_true_2.
Qed.

Lemma silent_return K L X a n e :
  sim F G K L X a → return_ok F G K L e = true → visit_AST_RETURN_STATEMENT n e a = (tt, a).
Proof.
  unfold return_ok, visit_AST_RETURN_STATEMENT. intros Hs. pose proof (sim_return _ _ _ _ _ _ Hs) as Hr.
  rewrite <- Hr. unfold mbind, ST_bind, reads. cbn. destruct (return_types a) as [|t types]; [done|]. simpl.
  destruct e as [e|].
  - intros [Hv%negb_true_iff He]%andb_true_iff. rewrite Hv. unfold check_returned.
    rewrite (run_bind _ _ _ _ (silent_has_type _ _ _ _ _ _ Hs He)), Hv. by rewrite bool_decide_eq_true_2.
  - by intros ->.
Qed.

Lemma silent_goto K L X a n c l :
  sim F G K L X a →
  bool_decide (l ∈ c_labels K) && match c with Some c => condition_ok F G L c | None => true end = true →
  visit_AST_GOTO_STATEMENT_RULE n c l a = (tt, a).
Proof.
  unfold visit_AST_GOTO_STATEMENT_RULE. intros Hs [Hl Hc]%andb_true_iff. destruct (sim_labels _ _ _ _ _ _ Hs) as [rest Hb].
  unfold mbind at 1, ST_bind at 1, reads. cbn. rewrite Hb, Hl. unfold mbind at 1, ST_bind at 1. simpl.
  destruct c as [c|]; [|done]. by rewrite (run_bind _ _ _ _ (silent_condition _ _ _ _ n _ Hs Hc)).
Qed.

Lemma silent_read K L X a vs : sim F G K L X a → forallb (readable F G L) vs = true → visit_AST_READ_RULE vs a = (tt, a).
Proof.
  intros Hs Hvs. apply silent_for_each. intros v Hv. rewrite forallb_forall in Hvs.
  specialize (Hvs v (proj1 (list_elem_of_In _ _) Hv)). unfold readable in Hvs.
  destruct (type_of F G L (var_expression v)) as [t|] eqn:Ht; [|done]. apply andb_true_iff in Hvs as [_ Hn%negb_true_iff].
  rewrite (run_bind _ _ _ _ (silent_typed _ _ _ _ _ _ Hs Ht)). by rewrite Hn.
Qed.

Lemma silent_print K L X a ps : sim F G K L X a → forallb (printable F G L) ps = true → visit_AST_PRINT_RULE ps a = (tt, a).
Proof.
  intros Hs Hps. apply silent_for_each. intros [n text|e] Hp; [done|]. rewrite forallb_forall in Hps.
  specialize (Hps _ (proj1 (list_elem_of_In _ _) Hp)). simpl in Hps.
  destruct (type_of F G L e) as [t|] eqn:Ht; [|done]. apply negb_true_iff in Hps.
  rewrite (run_bind _ _ _ _ (silent_typed _ _ _ _ _ _ Hs Ht)). by rewrite Hps.
Qed.

Lemma silent_report K L X a n i w t :
  sim F G K L X a → has_type F G L i TInt && has_type F G L w TInt && has_type F G L t TInt = true →
  visit_AST_GREENAI_REPORT_RULE n i w t a = (tt, a).
Proof.
  intros Hs [[H1 H2]%andb_true_iff H3]%andb_true_iff. unfold visit_AST_GREENAI_REPORT_RULE.
  by rewrite (run_bind _ _ _ _ (silent_has_type _ _ _ _ _ _ Hs H1)), (run_bind _ _ _ _ (silent_has_type _ _ _ _ _ _ Hs H2)),
    (run_bind _ _ _ _ (silent_has_type _ _ _ _ _ _ Hs H3)).
Qed.

Lemma silent_expression K L X a e :
  sim F G K L X a → type_of F G L e ≠ None → accept_expression e a = (tt, a).
Proof.
  intros Hs He. destruct (type_of F G L e) as [t|] eqn:Ht; [|done].
  pose proof (silent_typed _ _ _ _ _ _ Hs Ht) as Hrun.
  destruct e; try done; cbv beta iota delta [accept_expression]; try by rewrite (run_bind _ _ _ _ Hrun).
  eapply silent_call_ok; [done|]. unfold call_ok. simpl in Ht. destruct (F !! _) as [[ps r]|]; [|done].
  by destruct (arguments_match _ _ _).
Qed.
End Silent.

(** * Declarations *)

Lemma silent_scalar_type n e a : isExecutableScalarType (ts_type e) = true → check_scalar_type n e a = (tt, a).
Proof. intros He. unfold check_scalar_type, mbind, ST_bind. rewrite He. by destruct (ts_type e). Qed.

Lemma array_descriptor_valid t k : isExecutableScalarType t = true → 0 < k ≤ INT32_MAX →
  ∃ m, Descriptors.validate (Descriptors.array (productionTypeKind t) (if k <? 0 then 0 else u64 k)) = (true, m).
Proof.
  intros Ht Hk. change INT32_MAX with 2147483647 in Hk. rewrite (proj2 (Z.ltb_ge k 0)), u64_id by (unfold_ranges; lia). unfold Descriptors.validate. simpl.
  assert (Descriptors.validPayload (productionTypeKind t) = true) as -> by by destruct t.
  rewrite (proj2 (Z.eqb_neq k 0)) by lia. unfold Descriptors.checkedArrayBytes. rewrite (proj2 (Z.eqb_neq k 0)) by lia.
  assert (∃ b, Descriptors.scalarBytes (productionTypeKind t) = b ∧ 0 < b ≤ 16) as (b & -> & Hb) by (destruct t; try done; eexists; split; try reflexivity; done).
  rewrite (proj2 (Z.eqb_neq b 0)) by lia. simpl.
  assert (SIZE_MAX / 16 ≤ SIZE_MAX / b) as Hdiv by (apply Z.div_le_compat_l; unfold_ranges; lia).
  change (SIZE_MAX / 16) with 1152921504606846975 in Hdiv. rewrite (proj2 (Z.ltb_ge _ _)) by lia. by eexists.
Qed.

Definition array_entry_ok (e : AST_TYPED_ARRAY_DECLARATION) : bool :=
  isExecutableScalarType (ta_type e) && negb (bool_decide (ta_type e = TString)) && (0 <? ta_size e).

Lemma silent_array_type n e a : array_entry_ok e = true → ta_size e ≤ INT32_MAX → check_array_type n e a = (tt, a).
Proof.
  intros [[He Hs%negb_true_iff]%andb_true_iff Hz%Z.ltb_lt]%andb_true_iff Hm.
  destruct (array_descriptor_valid (ta_type e) (ta_size e)) as [m Hd]; [done|lia|].
  unfold check_array_type, check_descriptor, mbind, ST_bind. by rewrite He, Hs, Hd.
Qed.

Lemma silent_unique n x names a :
  local_scopes a ≠ [] ∨ x ∉ names →
  check_unique n x names a = (match local_scopes a with [] => {[x]} ∪ names | _ => names end, a).
Proof.
  intros Hx. unfold check_unique, mbind, ST_bind, reads. cbn. destruct (local_scopes a); [|done].
  destruct Hx as [Hx|Hx]; [done|]. by rewrite bool_decide_eq_false_2.
Qed.

(** The names of a declaration are new: in a local scope they are checked when
    they are added to it, outside of scopes against the names before them. *)
Definition fresh_names (a : SemanticAnalyzer) (names : gset string) (es : list (string * VariableInfo)) (l l' : scope) : Prop :=
  local_scopes a ≠ [] ∨ (dom l = names ∧ declare_entries es l = Some l').

Lemma fresh_names_step a names x v es l l' : fresh_names a names ((x, v) :: es) l l' →
  (local_scopes a ≠ [] ∨ x ∉ names) ∧
  fresh_names a (match local_scopes a with [] => {[x]} ∪ names | _ => names end) es (<[x:=v]> l) l'.
Proof.
  intros [Hl|[<- Hd]]; [split; by left|]. simpl in Hd. destruct (l !! x) eqn:Hx; [done|].
  split; [right; by apply not_elem_of_dom|]. unfold fresh_names. destruct (local_scopes a); [right|by left].
  split; [by rewrite dom_insert_L|done].
Qed.

Lemma silent_scalars n es a l l' : ∀ names,
  forallb (λ e, isExecutableScalarType (ts_type e)) es = true →
  fresh_names a names (map (λ e, (ts_name e, {| vi_type := ts_type e; is_array := false |})) es) l l' →
  ∃ names', check_scalars n names es a = (names', a) ∧ (local_scopes a ≠ [] ∨ dom l' = names').
Proof.
  revert l. induction es as [|e es IH]; intros l names Hes Hf; simpl in *.
  { exists names. split; [done|]. destruct Hf as [?|[<- [= ->]]]; auto. }
  apply andb_true_iff in Hes as [He Hes]. apply fresh_names_step in Hf as [Hx Hf].
  rewrite (run_bind _ _ _ _ (silent_unique n (ts_name e) names a Hx)), (run_bind _ _ _ _ (silent_scalar_type n e a He)).
  by eapply IH.
Qed.

Lemma silent_arrays n es a l l' : ∀ names,
  forallb array_entry_ok es = true → forallb (λ e, ta_size e <=? INT32_MAX) es = true →
  fresh_names a names (map (λ e, (ta_name e, {| vi_type := ta_type e; is_array := true |})) es) l l' →
  ∃ names', check_arrays n names es a = (names', a).
Proof.
  revert l. induction es as [|e es IH]; intros l names Hes Hm Hf; simpl in *; [by exists names|].
  apply andb_true_iff in Hes as [He Hes]. apply andb_true_iff in Hm as [Hme%Z.leb_le Hm]. apply fresh_names_step in Hf as [Hx Hf].
  rewrite (run_bind _ _ _ _ (silent_unique n (ta_name e) names a Hx)), (run_bind _ _ _ _ (silent_array_type n e a He Hme)).
  by eapply IH.
Qed.

Lemma run_step {A B} (m : SA A) (k : A → SA B) a x a' : m a = (x, a') → (m ≫= k) a = k x a'.
Proof. intros Hm. unfold mbind, ST_bind. by rewrite Hm. Qed.

Lemma silent_declare_names n es l l' rest a :
  local_scopes a = l :: rest → declare_entries es l = Some l' →
  for_each (λ e : string * VariableInfo, declare_name n e.1 e.2) es a = (tt, set_local_scopes (l' :: rest) a).
Proof.
  revert l a. induction es as [|[x v] es IH]; intros l a Hl Hd; simpl in *.
  { injection Hd as <-. rewrite <- Hl. by destruct a. }
  destruct (l !! x) eqn:Hx; [done|].
  assert (declare_name n x v a = (tt, set_local_scopes (<[x:=v]> l :: rest) a)) as Hn.
  { unfold declare_name, mbind, ST_bind, reads. simpl. by rewrite Hl, Hx. }
  rewrite (run_step _ _ _ _ _ Hn). by erewrite IH.
Qed.

Lemma for_each_app {A} (body : A → SA unit) xs ys a :
  for_each body (xs ++ ys) a = (for_each body xs;; for_each body ys) a.
Proof.
  revert a. induction xs as [|x xs IH]; intros a; simpl; [done|]. unfold mbind, ST_bind in *.
  destruct (body x a) as [u b]. apply IH.
Qed.

Lemma declareInCurrentScope_entries d a :
  declareInCurrentScope d a = for_each (λ e : string * VariableInfo, declare_name (decl_node d) e.1 e.2) (declared_entries d) a.
Proof.
  unfold declareInCurrentScope, declared_entries. rewrite for_each_app. unfold mbind, ST_bind. by rewrite <- !for_each_map.
Qed.

Lemma types_and_sizes d : declaration_types_ok d = true →
  forallb (λ e, isExecutableScalarType (ts_type e)) (typed_scalars d) = true ∧ forallb array_entry_ok (typed_arrays d) = true.
Proof. by intros ?%andb_true_iff. Qed.

(** A declaration in a scope, and one outside of every scope. *)
Lemma silent_local_declaration d l l' rest a :
  local_scopes a = l :: rest → declaration_types_ok d = true → sizes_fit d = true →
  declare_entries (declared_entries d) l = Some l' →
  visit_AST_DATA_DECLARATION_BLOCK d a = (tt, set_local_scopes (l' :: rest) a).
Proof.
  intros Hl [Hs Ha]%types_and_sizes Hm Hd. assert (local_scopes a ≠ []) as Hne by by rewrite Hl.
  unfold visit_AST_DATA_DECLARATION_BLOCK.
  destruct (silent_scalars (decl_node d) _ a ∅ ∅ ∅ Hs (or_introl Hne)) as (n1 & H1 & _). rewrite (run_bind _ _ _ _ H1).
  destruct (silent_arrays (decl_node d) _ a ∅ ∅ n1 Ha Hm (or_introl Hne)) as (n2 & H2). rewrite (run_bind _ _ _ _ H2).
  rewrite declareInCurrentScope_entries. by eapply silent_declare_names.
Qed.

Lemma silent_global_declaration d l a :
  local_scopes a = [] → declaration_types_ok d = true → sizes_fit d = true →
  declare_entries (declared_entries d) ∅ = Some l →
  visit_AST_DATA_DECLARATION_BLOCK d a = (tt, a).
Proof.
  intros Hl [Hs Ha]%types_and_sizes Hm (l1 & Hd1 & Hd2)%declare_entries_app. unfold visit_AST_DATA_DECLARATION_BLOCK.
  destruct (silent_scalars (decl_node d) _ a ∅ l1 ∅ Hs) as (n1 & H1 & [?|Hn]); [by right|done|]. rewrite (run_bind _ _ _ _ H1).
  destruct (silent_arrays (decl_node d) _ a l1 l n1 Ha Hm) as (n2 & H2); [by right|]. rewrite (run_bind _ _ _ _ H2).
  rewrite declareInCurrentScope_entries. apply no_scope_declares. intros [x v]. simpl.
  unfold declare_name, mbind, ST_bind, reads. simpl. by rewrite Hl.
Qed.

(** * Blocks *)

Lemma silent_scan_labels i ss m a :
  NoDup (omap as_label ss) → (∀ l, l ∈ omap as_label ss → m !! l = None) →
  scan_labels i ss m a = (label_positions i ss m, a).
Proof.
  revert i m. induction ss as [|s ss IH]; intros i m Hnd Hm; simpl in *; [done|].
  destruct s; simpl in *; try by apply IH. apply NoDup_cons in Hnd as [Hl Hnd]. rewrite (Hm label) by set_solver.
  apply IH; [done|]. intros l Hin. rewrite lookup_insert_ne by set_solver. set_solver.
Qed.

Section Blocks.
Context (F : signatures) (G : scope).

(** A statement the checker accepts reports nothing and only changes the
    scopes, the way the checker says. *)
Definition silent_statement (s : AST_STATEMENT_RULE) : Prop :=
  ∀ K L X a L', sim F G K L X a → core_statement s = true → labels_distinct s = true →
  check_statement F G K L s = Some L' →
  visit_statement s a = (tt, set_local_scopes (L' ++ X)%list a) ∧ sim F G K L' X (set_local_scopes (L' ++ X)%list a).

Definition silent_block (b : AST_STATEMENTS_BLOCK) : Prop :=
  ∀ K L X a, sim F G K L X a → core_block b = true → block_distinct b = true →
  check_block F G K L b = true → visit_block b a = (tt, a).

Lemma sim_same_scopes K L X a : sim F G K L X a → set_local_scopes (L ++ X)%list a = a.
Proof. intros Hs. rewrite <- (sim_scopes _ _ _ _ _ _ Hs). by destruct a. Qed.

(** A statement that keeps the scopes. *)
Lemma silent_kept K L X a L' (b : bool) (m : SA unit) :
  sim F G K L X a → keep b L = Some L' → (b = true → m a = (tt, a)) →
  m a = (tt, set_local_scopes (L' ++ X)%list a) ∧ sim F G K L' X (set_local_scopes (L' ++ X)%list a).
Proof.
  intros Hs Hk Hm. unfold keep in Hk. destruct b; [|done]. injection Hk as <-.
  rewrite (sim_same_scopes _ _ _ _ Hs). auto.
Qed.

Lemma silent_jump_out K L X a n (code message : string) :
  sim F G K L X a → c_loop K = true → (depth ← reads loopDepth; error_if (depth =? 0) n code message) a = (tt, a).
Proof.
  intros Hs Hk. destruct (sim_loop _ _ _ _ _ _ Hs) as [_ Hd]. rewrite Hk in Hd. unfold mbind, ST_bind, reads. simpl.
  by destruct (loopDepth a =? 0).
Qed.

Lemma silent_atomic s : atomic s = true → silent_statement s.
Proof.
  intros Hat. destruct s; try done; intros K L X a L' Hs Hcore _ Hc; try discriminate Hcore; cbn [check_statement] in Hc.
  - unfold check_declaration in Hc. destruct L as [|l L]; [done|].
    destruct (declaration_types_ok _ && _) eqn:Hd; [|done]. apply andb_true_iff in Hd as [Ht _].
    destruct (declare_entries _ l) as [l'|] eqn:He; [|done]. injection Hc as <-. split; [|by eapply sim_declared].
    pose proof (sim_scopes _ _ _ _ _ _ Hs) as Hl. by eapply silent_local_declaration.
  - eapply silent_kept; [done..|]. intros He%bool_decide_eq_true. by eapply silent_expression.
  - eapply silent_kept; [done..|]. intros He. by eapply silent_call_ok.
  - eapply silent_kept; [done..|]. intros He. by eapply silent_jump_out.
  - eapply silent_kept; [done..|]. intros He. by eapply silent_jump_out.
  - eapply silent_kept; [done..|]. intros He. by eapply silent_return.
  - eapply silent_kept; [done..|]. intros He. by eapply silent_assignment.
  - eapply silent_kept; [done..|]. intros He. by eapply silent_goto.
  - eapply silent_kept; [done..|]. intros He. by eapply silent_read.
  - eapply silent_kept; [done..|]. intros He. by eapply silent_print.
  - by eapply (silent_kept _ _ _ _ _ true).
  - eapply silent_kept; [done..|]. intros He. by eapply silent_report.
  - by eapply (silent_kept _ _ _ _ _ true).
Qed.

Lemma silent_check_jump all i s a :
  (match s with
   | AST_GOTO_STATEMENT_RULE _ _ l =>
       match block_labels all !! l with Some t => negb (crosses_declaration all i t) | None => true end
   | _ => true
   end = true) → check_jump all (block_labels all) i s a = (tt, a).
Proof. destruct s; try done. simpl. destruct (block_labels all !! label); [|done]. by intros ->%negb_true_iff. Qed.

Lemma silent_statements all ss K X :
  Forall silent_statement ss → ∀ i L a L',
  sim F G K L X a → forallb core_statement ss = true → forallb labels_distinct ss = true →
  jumps_ok all i ss = true → check_statements (check_statement F G K) L ss = Some L' →
  accept_statements visit_statement all (block_labels all) i ss a = (tt, set_local_scopes (L' ++ X)%list a).
Proof.
  induction 1 as [|s ss Hsilent Hss IH]; intros i L a L' Hs Hc Hd Hj Hk; simpl in *.
  { injection Hk as <-. by rewrite (sim_same_scopes _ _ _ _ Hs). }
  apply andb_true_iff in Hc as [Hc1 Hc]. apply andb_true_iff in Hd as [Hd1 Hd]. apply andb_true_iff in Hj as [Hj1 Hj].
  destruct (check_statement F G K L s) as [L1|] eqn:Hk1; [|done].
  destruct (Hsilent K L X a L1) as [Hrun Hs1]; [done..|].
  rewrite (run_step _ _ _ _ _ (silent_check_jump all i s a Hj1)), (run_step _ _ _ _ _ Hrun). by erewrite IH.
Qed.

(** A block from its scopes [L0] at the first statement to [L'] at the end. *)
Lemma silent_visit_block (lexical : bool) ss K L X L' a :
  let L0 := if lexical then ∅ :: L else L in
  Forall silent_statement ss →
  sim F G (block_context K ss) L0 X
    (set_block_label_scopes (dom (block_labels ss) :: block_label_scopes a) (set_local_scopes (L0 ++ X)%list a)) →
  local_scopes a = (L ++ X)%list → distinct ss = true →
  forallb core_statement ss = true → forallb labels_distinct ss = true → jumps_ok ss 0 ss = true →
  check_statements (check_statement F G (block_context K ss)) L0 ss = Some L' →
  visit_AST_STATEMENTS_BLOCK visit_statement lexical ss a =
    (tt, set_local_scopes (if lexical then tail (L' ++ X) else L' ++ X)%list a).
Proof.
  intros L0 Hss Hs Hl Hd%bool_decide_eq_true Hc Hld Hj Hk. unfold visit_AST_STATEMENTS_BLOCK.
  rewrite (run_step _ _ a tt (set_local_scopes (L0 ++ X)%list a)).
  2:{ unfold L0. destruct lexical; simpl; rewrite <- Hl; by destruct a. }
  rewrite (run_step _ _ _ (block_labels ss) (set_local_scopes (L0 ++ X)%list a))
    by (apply silent_scan_labels; [done|intros; apply lookup_empty]).
  erewrite run_step by reflexivity.
  erewrite run_step by (by eapply silent_statements).
  by destruct lexical.
Qed.

Lemma silent_block_case n l ss : Forall silent_statement ss → silent_block (Block n l ss).
Proof.
  intros Hss K L X a Hs Hc [Hd Hld]%andb_true_iff Hk. cbn [check_block] in Hk.
  apply andb_true_iff in Hk as [[-> Hj]%andb_true_iff Hk].
  destruct (check_statements _ (∅ :: L) ss) as [L'|] eqn:HL; [|done].
  change (visit_block (Block n true ss)) with (visit_AST_STATEMENTS_BLOCK visit_statement true ss).
  pose proof (sim_scopes _ _ _ _ _ _ Hs) as Hl.
  erewrite (silent_visit_block true ss K L X L'); [|try done..].
  - apply check_statements_tail in HL as [Hlen Htl]. destruct L' as [|l' L']; [done|]. simpl in *. subst L'.
    by rewrite (sim_same_scopes _ _ _ _ Hs).
  - simpl. rewrite <- Hl. apply (sim_enter_labels F G K (∅ :: L) X (set_local_scopes (∅ :: local_scopes a) a)).
    by apply sim_push.
Qed.

Lemma silent_loop K L X a b :
  silent_block b → sim F G K L X a → core_block b = true → block_distinct b = true → check_block F G (in_loop K) L b = true →
  (enter_loop;; visit_block b;; leave_loop) a = (tt, a).
Proof.
  intros Hb Hs Hc Hd Hk. rewrite (run_step _ _ _ tt (set_loopDepth (loopDepth a + 1) a)) by done.
  erewrite run_step by (eapply (Hb (in_loop K) L X); [by apply sim_enter_loop|done..]).
  unfold leave_loop, update. f_equal. destruct a. unfold set_loopDepth. simpl. f_equal. lia.
Qed.

Lemma silent_all : (∀ s, silent_statement s) ∧ (∀ b, silent_block b).
Proof.
  apply statement_block_induction.
  - apply silent_atomic.
  - intros b Hb K L X a L' Hs Hc Hd Hk. eapply (silent_kept _ _ _ _ _ _ (visit_block b)); [done..|]. intros Hcb.
    by apply (Hb K L X).
  - intros n c b Hb K L X a L' Hs Hc Hd Hk. eapply (silent_kept _ _ _ _ _ _ (requireConditionType n c;; visit_block b)); [done..|].
    intros [Hcond Hcb]%andb_true_iff. rewrite (run_step _ _ _ _ _ (silent_condition _ _ _ _ _ _ n _ Hs Hcond)).
    by apply (Hb K L X).
  - intros n c b1 b2 Hb1 Hb2 K L X a L' Hs [Hc1 Hc2]%andb_true_iff [Hd1 Hd2]%andb_true_iff Hk.
    eapply (silent_kept _ _ _ _ _ _ (requireConditionType n c;; visit_block b1;; visit_block b2)); [done..|].
    intros [[Hcond Hcb1]%andb_true_iff Hcb2]%andb_true_iff.
    rewrite (run_step _ _ _ _ _ (silent_condition _ _ _ _ _ _ n _ Hs Hcond)), (run_step _ _ _ _ _ (Hb1 K L X a Hs Hc1 Hd1 Hcb1)).
    by apply (Hb2 K L X).
  - intros n v from step to b Hb K L X a L' Hs Hc Hd Hk.
    eapply (silent_kept _ _ _ _ _ _ (check_counted_loop n v from step to;; enter_loop;; visit_block b;; leave_loop)); [done..|].
    intros [Hcount Hcb]%andb_true_iff. rewrite (run_step _ _ _ _ _ (silent_counted _ _ _ _ _ _ n _ _ _ _ Hs Hcount)).
    by eapply silent_loop.
  - intros n c b Hb K L X a L' Hs Hc Hd Hk.
    eapply (silent_kept _ _ _ _ _ _ (requireConditionType n c;; enter_loop;; visit_block b;; leave_loop)); [done..|].
    intros [Hcond Hcb]%andb_true_iff. rewrite (run_step _ _ _ _ _ (silent_condition _ _ _ _ _ _ n _ Hs Hcond)).
    by eapply silent_loop.
  - apply silent_block_case.
Qed.

End Blocks.

(** * Functions and programs *)

Definition core_function (f : AST_FUNCTION_RULE) : bool := sizes_fit (parameters f) && core_block (block_statement f).

(** A body of a function or the logic block, in the scopes it is entered with. *)
Lemma silent_body F G ret n ss L X a :
  core_block (Block n false ss) = true → block_distinct (Block n false ss) = true → check_body F G ret L ss = true →
  (∀ labels rest, sim F G {| c_return := ret; c_loop := false; c_labels := labels |} L X
     (set_block_label_scopes (labels :: rest) (set_local_scopes (L ++ X)%list a))) →
  local_scopes a = (L ++ X)%list →
  ∃ L', length L' = length L ∧ tail L' = tail L ∧
    visit_block (Block n false ss) a = (tt, set_local_scopes (L' ++ X)%list a).
Proof.
  intros Hc [Hd Hld]%andb_true_iff [Hj Hk%bool_decide_eq_true]%andb_true_iff Hs Hl.
  destruct (check_statements _ L ss) as [L'|] eqn:HL; [|done].
  exists L'. destruct (check_statements_tail _ _ _ _ _ _ HL) as [Hlen Htl]. split_and!; [done..|].
  change (visit_block (Block n false ss)) with (visit_AST_STATEMENTS_BLOCK visit_statement false ss).
  set (K := {| c_return := ret; c_loop := false; c_labels := dom (block_labels ss) |}) in *.
  eapply (silent_visit_block F G false ss K L X L'); try done; [by apply Forall_true, silent_all|apply Hs].
Qed.

Lemma silent_function F G f a :
  (∀ x v, G !! x = Some v → vi_type v ≠ TVoid) → ready F G a → function_ok f = true → core_function f = true → block_distinct (block_statement f) = true →
  check_function F G f = true → visit_AST_FUNCTION_RULE f a = (tt, a).
Proof.
  intros HG Hr Ho [Hm Hc]%andb_true_iff Hd Hk. unfold function_ok in Ho.
  apply andb_true_iff in Ho as [[[Hdb%decl_block_okb_spec Hlex%negb_true_iff]%andb_true_iff _]%andb_true_iff _].
  unfold check_function in Hk.
  apply andb_true_iff in Hk as [[[[Ht _]%andb_true_iff Ha%bool_decide_eq_true]%andb_true_iff Hk]%andb_true_iff Hret].
  destruct (declare_entries _ ∅) as [l|] eqn:Hl; [|done].
  destruct (block_statement f) as [n lexical ss] eqn:Hblock. simpl in Hlex, Hk. subst lexical.
  destruct Hdb as [_ Harr]. rewrite Ha in Harr. simpl in Harr.
  unfold visit_AST_FUNCTION_RULE, push_scope, pop_scope. rewrite Hblock.
  rewrite (run_step _ _ _ _ _ (silent_global_declaration _ l a (ready_scopes _ _ _ Hr) Ht Hm Hl)).
  rewrite Harr, (parameter_scope_entries _ _ Hl). do 5 erewrite run_step by reflexivity.
  set (a2 := set_loopDepth 0 _).
  destruct (silent_body F G (Some (fn_type f)) n ss [l] [] a2) as (L' & Hlen & Htl & Hrun); [done..| | |].
  { intros labels rest. eapply (ready_sim _ _ _ Hr (Some (fn_type f)) labels rest [l] []); [done| |done].
    by eapply parameter_values. }
  { simpl. by rewrite (ready_scopes _ _ _ Hr). }
  rewrite (run_step _ _ _ _ _ Hrun).
  replace (negb (bool_decide (fn_type f = TVoid)) && negb (definitelyReturns_block (Block n false ss))) with false
    by (symmetry; by rewrite <- negb_orb, Hret).
  do 3 erewrite run_step by reflexivity. unfold update. f_equal. subst a2. destruct L' as [|l' [|? ?]]; try done.
  pose proof (ready_scopes _ _ _ Hr) as E1. pose proof (ready_returns _ _ _ Hr) as E2. destruct a. simpl in *. by subst.
Qed.

Lemma silent_functions F G fs a :
  (∀ x v, G !! x = Some v → vi_type v ≠ TVoid) → ready F G a → forallb function_ok fs = true → forallb core_function fs = true →
  forallb (λ f, block_distinct (block_statement f)) fs = true → forallb (check_function F G) fs = true →
  for_each visit_AST_FUNCTION_RULE fs a = (tt, a).
Proof.
  intros HG Hr. rewrite !forallb_forall. intros Ho Hc Hd Hk. apply silent_for_each. intros f Hf%list_elem_of_In.
  eapply silent_function; eauto.
Qed.

(** The table of functions is filled without a diagnostic. *)
Lemma silent_declare_functions fs : ∀ names a,
  NoDup (map function_name fs) → (∀ f, f ∈ map function_name fs → f ∉ names) → imported_functions a = ∅ →
  ∃ a', declare_functions names fs a = (tt, a') ∧ diagnostics a' = diagnostics a.
Proof.
  induction fs as [|f fs IH]; intros names a Hnd Hout Hi; simpl in *; [by exists a|].
  apply NoDup_cons in Hnd as [Hf Hnd]. erewrite run_step by reflexivity. rewrite Hi.
  rewrite (bool_decide_eq_false_2 (function_name f ∈ names)) by set_solver.
  rewrite bool_decide_eq_false_2 by set_solver. do 2 erewrite run_step by reflexivity.
  match goal with |- ∃ _, declare_functions ?names' _ ?b = _ ∧ _ =>
    destruct (IH names' b Hnd) as (a' & Hrun & Hdiag); [set_solver|exact Hi|] end.
  exists a'. split; [exact Hrun|]. by rewrite Hdiag.
Qed.

Lemma silent_logic_block F G b a :
  (∀ x v, G !! x = Some v → vi_type v ≠ TVoid) → ready F G a → lexical_scope b = false →
  core_block b = true → block_distinct b = true → check_body F G None [] (statements b) = true →
  visit_AST_LOGIC_BLOCK b a = (tt, a).
Proof.
  intros HG Hr Hlex Hc Hd Hk. destruct b as [n lexical ss]. simpl in Hlex, Hk. subst lexical.
  unfold visit_AST_LOGIC_BLOCK, push_scope, pop_scope. erewrite run_step by reflexivity.
  pose proof (ready_scopes _ _ _ Hr) as E1. pose proof (ready_returns _ _ _ Hr) as E2. pose proof (ready_loop _ _ _ Hr) as E3.
  destruct (silent_body F G None n ss [] [∅] (set_local_scopes (∅ :: local_scopes a) a)) as (L' & Hlen & _ & Hrun); [done..| | |].
  - intros labels rest. eapply sim_leave; [apply (ready_sim _ _ _ Hr None labels rest [] [∅]) with (types := []);
      [by repeat constructor|apply HG|done]| |done]. unfold tables. simpl. by rewrite E2, E3.
  - simpl. by rewrite E1.
  - rewrite (run_step _ _ _ _ _ Hrun). destruct L'; [|done]. unfold update. f_equal. destruct a. simpl in *. by subst.
Qed.

(** A program of the executable core that passes the checker is accepted
    without a diagnostic of any kind. *)
Lemma checked_accepted t p :
  program_ok p = true → core_program p = true → check_program p = true → program_distinct p = true →
  ∃ a, visit_AST_PROGRAM p (new_analyzer t) = (0, a) ∧ diagnostics a = empty_diagnostics.
Proof.
  intros Ho Hcore Hk Hd. unfold program_ok in Ho.
  apply andb_true_iff in Ho as [[[[_ Hfs]%andb_true_iff Hlex%negb_true_iff]%andb_true_iff _]%andb_true_iff _].
  apply andb_true_iff in Hcore as [[Hm Hcf]%andb_true_iff Hcb]. apply andb_true_iff in Hd as [Hdf Hdb].
  apply andb_true_iff in Hk as [Ht Hk]. destruct (declare_entries _ ∅) as [G|] eqn:HG; [|done].
  apply andb_true_iff in Hk as [[Hnd%bool_decide_eq_true Hkf]%andb_true_iff Hkb].
  assert (∀ x v, G !! x = Some v → vi_type v ≠ TVoid) as HGv.
  { intros x v Hx. eapply (parameter_values ∅ (decl_block p) G); [by intros ? ? ?%lookup_empty_Some|done..|].
    by rewrite lookup_variable_cons, Hx. }
  unfold visit_AST_PROGRAM, visit_AST_FUNCTION_LIST_RULE. erewrite run_step by reflexivity.
  set (a0 := enter_program p (new_analyzer t)).
  rewrite (run_step _ _ _ _ _ (silent_global_declaration _ G a0 eq_refl Ht Hm HG)).
  destruct (silent_declare_functions (functions p) ∅ a0 Hnd) as (a1 & Hrun & Hdiag); [set_solver|done|].
  assert (ready (program_signatures p) G a1 ∧ c3eco_profile_nodes a1 = []) as [Hr Hn].
  { assert (declares ∅ a0) as Hd0 by (split; [done|by intros f [? []%lookup_empty_Some]]).
    pose proof (ok_declare_functions (functions p) ∅ ∅ a0 Hfs Hd0 eq_refl) as Hok. unfold ok in Hok. rewrite Hrun in Hok. simpl in Hok.
    destruct Hok as (_ & _ & HF & xs & ys & zs & fns & ->); [unfold clean; by rewrite Hdiag|].
    split; [by apply ready_program|done]. }
  erewrite (run_step _ _ a0 tt a1).
  2:{ rewrite (run_step _ _ _ _ _ Hrun). by eapply silent_functions. }
  erewrite (run_step _ _ a1 tt a1) by by eapply silent_logic_block.
  unfold validateC3EcoProfiles, mbind, ST_bind, reads. cbn. rewrite Hn. cbn. rewrite Hdiag. exists a1. done.
Qed.
