(* ===== verification/Interpreter.v ===== *)
(** Component: the interpreter (visitors/Interpreter.h and .cpp).

    The object is the record [Interpreter]; every method is a computation of
    the state monad [Interp] over it, so reads and writes of the fields happen
    in the order of the source.  The stack [frames] keeps the back of the C++
    vector at the head of the list.  Standard input is the unread text, standard
    output the list of inserted items and standard error the list of runtime
    errors; the table of source ranges is the one the parser filled.
    The methods are written against [accept], the virtual dispatch of a node,
    and tied together by recursion on a fuel at the end of the file: a visit
    at fuel [n + 1] visits its children, and iterates its loops, at fuel [n]. *)
From Stdlib Require Import SpecFloat.
From S2P Require Import Prelude CxxInt CxxString CxxFloat Ast AiTypes Diagnostics.
Open Scope string_scope.
Open Scope Z_scope.

(** * State *)

Record RuntimeValue := {
  type : ShortType; int_value : Z; float_value : double; string_value : string;
}.

Record Frame := { scalars : gmap string RuntimeValue; arrays : gmap string (list RuntimeValue) }.

Definition empty_frame : Frame := {| scalars := ∅; arrays := ∅ |}.

Inductive FlowSignal := FlowNormal | FlowReturn | FlowBreak | FlowContinue | FlowGoto.

#[export] Instance FlowSignal_eq_dec : EqDecision FlowSignal.
Proof. solve_decision. Defined.

(** Items inserted in standard output: text, an integer, a [double] printed with
    17 significant digits, a [float] of an inference result, the end of line. *)
Inductive out_item :=
| OutText (s : string) | OutInt (z : Z) | OutDouble (d : double) | OutFloat (f : spec_float) | OutEndl.

(** A line of [runtimeError] on standard error. *)
Record runtime_error := {
  re_source : string; re_range : SourceRange; re_code : string; re_message : string;
}.

Definition runtime_error_text (e : runtime_error) : string :=
  re_source e +:+ ":" +:+ pretty (line (begin_ (re_range e))) +:+ ":" +:+
  pretty (column (begin_ (re_range e))) +:+ ": error: [" +:+ re_code e +:+ "] " +:+ re_message e +:+
  " [range " +:+ range_text (re_range e) +:+ "]".

Record Interpreter := {
  frames : list Frame;
  functions_ : gmap string AST_FUNCTION_RULE;
  function_sources : gmap N string;
  aiModels : gmap string ModelDeclarationData;
  aiTensors : gmap string TensorDeclarationData;
  entry_source : string;
  active_source : string;
  str : string;
  num : Z;
  current_value : RuntimeValue;
  flow : FlowSignal;
  goto_target : string;
  return_value : RuntimeValue;
  runtime_failed : bool;
  call_depth : Z;
  goto_transfers : Z;
  ranges : range_table;
  cin : option string;
  cout : list out_item;
  cerr : list runtime_error;
}.

Definition set_frames (v : list Frame) (s : Interpreter) : Interpreter :=
  {| frames := v; functions_ := functions_ s; function_sources := function_sources s;
     aiModels := aiModels s; aiTensors := aiTensors s; entry_source := entry_source s;
     active_source := active_source s; str := str s; num := num s;
     current_value := current_value s; flow := flow s; goto_target := goto_target s;
     return_value := return_value s; runtime_failed := runtime_failed s;
     call_depth := call_depth s; goto_transfers := goto_transfers s; ranges := ranges s;
     cin := cin s; cout := cout s; cerr := cerr s |}.

Definition set_functions_ (v : gmap string AST_FUNCTION_RULE) (s : Interpreter) : Interpreter :=
  {| frames := frames s; functions_ := v; function_sources := function_sources s;
     aiModels := aiModels s; aiTensors := aiTensors s; entry_source := entry_source s;
     active_source := active_source s; str := str s; num := num s;
     current_value := current_value s; flow := flow s; goto_target := goto_target s;
     return_value := return_value s; runtime_failed := runtime_failed s;
     call_depth := call_depth s; goto_transfers := goto_transfers s; ranges := ranges s;
     cin := cin s; cout := cout s; cerr := cerr s |}.

Definition set_function_sources (v : gmap N string) (s : Interpreter) : Interpreter :=
  {| frames := frames s; functions_ := functions_ s; function_sources := v; aiModels := aiModels s;
     aiTensors := aiTensors s; entry_source := entry_source s; active_source := active_source s;
     str := str s; num := num s; current_value := current_value s; flow := flow s;
     goto_target := goto_target s; return_value := return_value s;
     runtime_failed := runtime_failed s; call_depth := call_depth s;
     goto_transfers := goto_transfers s; ranges := ranges s; cin := cin s; cout := cout s;
     cerr := cerr s |}.

Definition set_aiModels (v : gmap string ModelDeclarationData) (s : Interpreter) : Interpreter :=
  {| frames := frames s; functions_ := functions_ s; function_sources := function_sources s;
     aiModels := v; aiTensors := aiTensors s; entry_source := entry_source s;
     active_source := active_source s; str := str s; num := num s;
     current_value := current_value s; flow := flow s; goto_target := goto_target s;
     return_value := return_value s; runtime_failed := runtime_failed s;
     call_depth := call_depth s; goto_transfers := goto_transfers s; ranges := ranges s;
     cin := cin s; cout := cout s; cerr := cerr s |}.

Definition set_aiTensors (v : gmap string TensorDeclarationData) (s : Interpreter) : Interpreter :=
  {| frames := frames s; functions_ := functions_ s; function_sources := function_sources s;
     aiModels := aiModels s; aiTensors := v; entry_source := entry_source s;
     active_source := active_source s; str := str s; num := num s;
     current_value := current_value s; flow := flow s; goto_target := goto_target s;
     return_value := return_value s; runtime_failed := runtime_failed s;
     call_depth := call_depth s; goto_transfers := goto_transfers s; ranges := ranges s;
     cin := cin s; cout := cout s; cerr := cerr s |}.

Definition set_active_source (v : string) (s : Interpreter) : Interpreter :=
  {| frames := frames s; functions_ := functions_ s; function_sources := function_sources s;
     aiModels := aiModels s; aiTensors := aiTensors s; entry_source := entry_source s;
     active_source := v; str := str s; num := num s; current_value := current_value s;
     flow := flow s; goto_target := goto_target s; return_value := return_value s;
     runtime_failed := runtime_failed s; call_depth := call_depth s;
     goto_transfers := goto_transfers s; ranges := ranges s; cin := cin s; cout := cout s;
     cerr := cerr s |}.

Definition set_str (v : string) (s : Interpreter) : Interpreter :=
  {| frames := frames s; functions_ := functions_ s; function_sources := function_sources s;
     aiModels := aiModels s; aiTensors := aiTensors s; entry_source := entry_source s;
     active_source := active_source s; str := v; num := num s; current_value := current_value s;
     flow := flow s; goto_target := goto_target s; return_value := return_value s;
     runtime_failed := runtime_failed s; call_depth := call_depth s;
     goto_transfers := goto_transfers s; ranges := ranges s; cin := cin s; cout := cout s;
     cerr := cerr s |}.

Definition set_num (v : Z) (s : Interpreter) : Interpreter :=
  {| frames := frames s; functions_ := functions_ s; function_sources := function_sources s;
     aiModels := aiModels s; aiTensors := aiTensors s; entry_source := entry_source s;
     active_source := active_source s; str := str s; num := v; current_value := current_value s;
     flow := flow s; goto_target := goto_target s; return_value := return_value s;
     runtime_failed := runtime_failed s; call_depth := call_depth s;
     goto_transfers := goto_transfers s; ranges := ranges s; cin := cin s; cout := cout s;
     cerr := cerr s |}.

Definition set_current_value (v : RuntimeValue) (s : Interpreter) : Interpreter :=
  {| frames := frames s; functions_ := functions_ s; function_sources := function_sources s;
     aiModels := aiModels s; aiTensors := aiTensors s; entry_source := entry_source s;
     active_source := active_source s; str := str s; num := num s; current_value := v;
     flow := flow s; goto_target := goto_target s; return_value := return_value s;
     runtime_failed := runtime_failed s; call_depth := call_depth s;
     goto_transfers := goto_transfers s; ranges := ranges s; cin := cin s; cout := cout s;
     cerr := cerr s |}.

Definition set_flow (v : FlowSignal) (s : Interpreter) : Interpreter :=
  {| frames := frames s; functions_ := functions_ s; function_sources := function_sources s;
     aiModels := aiModels s; aiTensors := aiTensors s; entry_source := entry_source s;
     active_source := active_source s; str := str s; num := num s;
     current_value := current_value s; flow := v; goto_target := goto_target s;
     return_value := return_value s; runtime_failed := runtime_failed s;
     call_depth := call_depth s; goto_transfers := goto_transfers s; ranges := ranges s;
     cin := cin s; cout := cout s; cerr := cerr s |}.

Definition set_goto_target (v : string) (s : Interpreter) : Interpreter :=
  {| frames := frames s; functions_ := functions_ s; function_sources := function_sources s;
     aiModels := aiModels s; aiTensors := aiTensors s; entry_source := entry_source s;
     active_source := active_source s; str := str s; num := num s;
     current_value := current_value s; flow := flow s; goto_target := v;
     return_value := return_value s; runtime_failed := runtime_failed s;
     call_depth := call_depth s; goto_transfers := goto_transfers s; ranges := ranges s;
     cin := cin s; cout := cout s; cerr := cerr s |}.

Definition set_return_value (v : RuntimeValue) (s : Interpreter) : Interpreter :=
  {| frames := frames s; functions_ := functions_ s; function_sources := function_sources s;
     aiModels := aiModels s; aiTensors := aiTensors s; entry_source := entry_source s;
     active_source := active_source s; str := str s; num := num s;
     current_value := current_value s; flow := flow s; goto_target := goto_target s;
     return_value := v; runtime_failed := runtime_failed s; call_depth := call_depth s;
     goto_transfers := goto_transfers s; ranges := ranges s; cin := cin s; cout := cout s;
     cerr := cerr s |}.

Definition set_runtime_failed (v : bool) (s : Interpreter) : Interpreter :=
  {| frames := frames s; functions_ := functions_ s; function_sources := function_sources s;
     aiModels := aiModels s; aiTensors := aiTensors s; entry_source := entry_source s;
     active_source := active_source s; str := str s; num := num s;
     current_value := current_value s; flow := flow s; goto_target := goto_target s;
     return_value := return_value s; runtime_failed := v; call_depth := call_depth s;
     goto_transfers := goto_transfers s; ranges := ranges s; cin := cin s; cout := cout s;
     cerr := cerr s |}.

Definition set_call_depth (v : Z) (s : Interpreter) : Interpreter :=
  {| frames := frames s; functions_ := functions_ s; function_sources := function_sources s;
     aiModels := aiModels s; aiTensors := aiTensors s; entry_source := entry_source s;
     active_source := active_source s; str := str s; num := num s;
     current_value := current_value s; flow := flow s; goto_target := goto_target s;
     return_value := return_value s; runtime_failed := runtime_failed s; call_depth := v;
     goto_transfers := goto_transfers s; ranges := ranges s; cin := cin s; cout := cout s;
     cerr := cerr s |}.

Definition set_goto_transfers (v : Z) (s : Interpreter) : Interpreter :=
  {| frames := frames s; functions_ := functions_ s; function_sources := function_sources s;
     aiModels := aiModels s; aiTensors := aiTensors s; entry_source := entry_source s;
     active_source := active_source s; str := str s; num := num s;
     current_value := current_value s; flow := flow s; goto_target := goto_target s;
     return_value := return_value s; runtime_failed := runtime_failed s;
     call_depth := call_depth s; goto_transfers := v; ranges := ranges s; cin := cin s;
     cout := cout s; cerr := cerr s |}.

Definition set_cin (v : option string) (s : Interpreter) : Interpreter :=
  {| frames := frames s; functions_ := functions_ s; function_sources := function_sources s;
     aiModels := aiModels s; aiTensors := aiTensors s; entry_source := entry_source s;
     active_source := active_source s; str := str s; num := num s;
     current_value := current_value s; flow := flow s; goto_target := goto_target s;
     return_value := return_value s; runtime_failed := runtime_failed s;
     call_depth := call_depth s; goto_transfers := goto_transfers s; ranges := ranges s; cin := v;
     cout := cout s; cerr := cerr s |}.

Definition set_cout (v : list out_item) (s : Interpreter) : Interpreter :=
  {| frames := frames s; functions_ := functions_ s; function_sources := function_sources s;
     aiModels := aiModels s; aiTensors := aiTensors s; entry_source := entry_source s;
     active_source := active_source s; str := str s; num := num s;
     current_value := current_value s; flow := flow s; goto_target := goto_target s;
     return_value := return_value s; runtime_failed := runtime_failed s;
     call_depth := call_depth s; goto_transfers := goto_transfers s; ranges := ranges s;
     cin := cin s; cout := v; cerr := cerr s |}.

Definition set_cerr (v : list runtime_error) (s : Interpreter) : Interpreter :=
  {| frames := frames s; functions_ := functions_ s; function_sources := function_sources s;
     aiModels := aiModels s; aiTensors := aiTensors s; entry_source := entry_source s;
     active_source := active_source s; str := str s; num := num s;
     current_value := current_value s; flow := flow s; goto_target := goto_target s;
     return_value := return_value s; runtime_failed := runtime_failed s;
     call_depth := call_depth s; goto_transfers := goto_transfers s; ranges := ranges s;
     cin := cin s; cout := cout s; cerr := v |}.

Abbreviation Interp := (SM Interpreter).

Definition kMaxCallDepth : Z := 256.
Definition kMaxGotoTransfers : Z := 1000000.

(** * The AI runtime the interpreter calls

    What the interpreter needs of ai_runtime/AI_Runtime.h: inference on a
    model specification, and the legacy load-and-run of a model path, which
    fails with the text of [getLastError]. *)
Class AIRuntimeInterface := {
  air_infer : ModelSpec → TensorBuffer → InferenceResult;
  air_load_and_run : string → list Z → list spec_float → string + list spec_float;
}.

(** * Static helpers *)

(** C++ strings are quoted by the scanner; the quotes are removed here. *)
Definition unquoteShortString (value : string) : string :=
  if (2 <=? str_size value) && bool_decide (front value = Some chr_quote) &&
     bool_decide (back value = Some chr_quote)
  then String.substring 1 (String.length value - 2) value
  else value.

(** [stof] throws when no conversion is performed or [errno] is ERANGE; [None] stands for the exception. *)
Definition stof (token : string) : option spec_float :=
  match strtof (c_str token) with
  | Some r => if sd_erange r then None else Some (sd_value r)
  | None => None
  end.

Fixpoint parse_float_tokens (tokens : list string) : option (list spec_float) :=
  match tokens with
  | [] => Some []
  | t :: rest =>
      if is_empty t then parse_float_tokens rest
      else match stof t with
      | None => None
      | Some v => match parse_float_tokens rest with None => None | Some r => Some (v :: r) end
      end
  end.

Definition parseShortFloatCsv (csv : string) : option (list spec_float) :=
  parse_float_tokens (getline_split "," csv).

Definition parseShortShapeCsv (csv : string) : list Z := parseShapeCsv csv.

Definition toModelSpec (d : ModelDeclarationData) : ModelSpec :=
  let tensor name csv :=
    {| tn_name := name; element_type := parseElementType (md_precision d);
       shape := parseShapeCsv csv; dynamic := false;
       element_count := productOfShape (parseShapeCsv csv) |} in
  {| ms_name := md_name d; ms_path := md_path d; ms_format := parseModelFormat (md_format d);
     ms_task := md_task d; ms_precision := md_precision d;
     ms_input := tensor "input" (md_input_shape d);
     ms_output := tensor "output" (md_output_shape d);
     ms_backend_preference := map parseBackendKind (md_backend_preference d);
     ms_compact := md_compact d; ms_allow_fallback := true;
     ms_quality_metric := match md_quality_guardrail d with Some g => qg_metric g | None => "" end;
     ms_quality_op := match md_quality_guardrail d with Some g => qg_op g | None => "" end;
     ms_quality_threshold := match md_quality_guardrail d with Some g => qg_threshold g | None => dzero end |}.

Definition defaultValue (t : ShortType) : RuntimeValue :=
  {| type := t; int_value := 0; float_value := dzero; string_value := "" |}.

Definition int_runtime (z : Z) : RuntimeValue :=
  {| type := TInt; int_value := z; float_value := dzero; string_value := "" |}.

Definition bool_runtime (b : bool) : RuntimeValue :=
  {| type := TBoolean; int_value := if b then 1 else 0; float_value := dzero; string_value := "" |}.

Definition float_runtime (d : double) : RuntimeValue :=
  {| type := TFloat; int_value := 0; float_value := d; string_value := "" |}.

Definition truthy (value : RuntimeValue) : bool :=
  if decide (type value = TFloat) then negb (deqb (float_value value) dzero)
  else if decide (type value = TString) then negb (is_empty (string_value value))
  else negb (int_value value =? 0).

(** [fromUnsigned32] maps 0..2^32-1 to int32 without a signed overflow. *)
Definition fromUnsigned32 (value : Z) : Z :=
  if value <=? u32 INT32_MAX then value
  else let distance := u32 (UINT32_MAX - value) in -1 - distance.

Definition wrapAdd (left right : Z) : Z := fromUnsigned32 (u32 (u32 left + u32 right)).
Definition wrapSub (left right : Z) : Z := fromUnsigned32 (u32 (u32 left - u32 right)).
Definition wrapMul (left right : Z) : Z := fromUnsigned32 (u32 (u32 left * u32 right)).

(** * Frames *)

Fixpoint readScalar (name : string) (fs : list Frame) : option RuntimeValue :=
  match fs with
  | [] => None
  | f :: rest =>
      match scalars f !! name with
      | Some value => Some value
      | None => readScalar name rest
      end
  end.

Fixpoint writeScalar (name : string) (value : RuntimeValue) (fs : list Frame) : option (list Frame) :=
  match fs with
  | [] => None
  | f :: rest =>
      match scalars f !! name with
      | Some found =>
          if decide (type found = type value) then
            Some ({| scalars := <[name := value]> (scalars f); arrays := arrays f |} :: rest)
          else None
      | None => match writeScalar name value rest with Some rest' => Some (f :: rest') | None => None end
      end
  end.

Definition in_bounds (index : Z) (found : list RuntimeValue) : bool :=
  negb ((index <? 0) || (Z.of_nat (length found) <=? u64 index)).

Fixpoint readArray (name : string) (index : Z) (fs : list Frame) : option RuntimeValue :=
  match fs with
  | [] => None
  | f :: rest =>
      match arrays f !! name with
      | None => readArray name index rest
      | Some found => if in_bounds index found then found !! Z.to_nat index else None
      end
  end.

Fixpoint writeArray (name : string) (index : Z) (value : RuntimeValue) (fs : list Frame) : option (list Frame) :=
  match fs with
  | [] => None
  | f :: rest =>
      match arrays f !! name with
      | None => match writeArray name index value rest with Some rest' => Some (f :: rest') | None => None end
      | Some found =>
          if in_bounds index found then
            match found !! Z.to_nat index with
            | Some old =>
                if decide (type old = type value) then
                  Some ({| scalars := scalars f;
                           arrays := <[name := <[Z.to_nat index := value]> found]> (arrays f) |} :: rest)
                else None
            | None => None
            end
          else None
      end
  end.

(** [runtimeError]: the failure flag and one line on standard error. *)
Definition runtimeError (n : N) (code message : string) : Interp unit :=
  modify (λ s,
    let range := shorthand_get_ast_source_range (Some n) (ranges s) in
    let range := if range_valid range then range else pointRange 1 1 in
    let source := if is_empty (active_source s) then
                    (if is_empty (entry_source s) then "<runtime>" else entry_source s)
                  else active_source s in
    set_runtime_failed true
      (set_cerr (cerr s ++ [{| re_source := source; re_range := range; re_code := code;
                               re_message := message |}]) s)).

Definition print_items (items : list out_item) : Interp unit :=
  modify (λ s, set_cout (cout s ++ items) s).

(** The rest of a method after [if (runtime_failed) return]. *)
Definition unless_failed (k : Interp unit) : Interp unit :=
  failed ← gets runtime_failed; if (failed : bool) then mret tt else k.

(** * Declarations *)

(** The scalars of a block entered in a frame, with the name of the first one
    that was there already. *)
Fixpoint declare_scalars (entries : list AST_TYPED_SCALAR_DECLARATION) (f : Frame) : Frame * option string :=
  match entries with
  | [] => (f, None)
  | e :: rest =>
      match scalars f !! ts_name e with
      | Some _ => (f, Some (ts_name e))
      | None =>
          declare_scalars rest
            {| scalars := <[ts_name e := defaultValue (ts_type e)]> (scalars f); arrays := arrays f |}
      end
  end.

(** The arrays; a negative size makes the vector constructor throw. *)
Fixpoint declare_arrays (entries : list AST_TYPED_ARRAY_DECLARATION) (f : Frame) : option (Frame * option string) :=
  match entries with
  | [] => Some (f, None)
  | e :: rest =>
      if ta_size e <? 0 then None
      else match arrays f !! ta_name e with
      | Some _ => Some (f, Some (ta_name e))
      | None =>
          declare_arrays rest
            {| scalars := scalars f;
               arrays := <[ta_name e := replicate (Z.to_nat (ta_size e)) (defaultValue (ta_type e))]> (arrays f) |}
      end
  end.

(** [write] stores the frame back where it came from. *)
Definition initializeDeclarationsInto (d : AST_DATA_DECLARATION_BLOCK) (f : Frame)
    (write : Frame → Interpreter → Interpreter) : Interp unit :=
  match declare_scalars (typed_scalars d) f with
  | (f1, Some name) =>
      modify (write f1);;
      runtimeError (decl_node d) Codes.RuntimeInvalidState
        ("duplicate scalar declaration reached runtime: `" +:+ name +:+ "`")
  | (f1, None) =>
      match declare_arrays (typed_arrays d) f1 with
      | None => undefined "std::length_error"
      | Some (f2, Some name) =>
          modify (write f2);;
          runtimeError (decl_node d) Codes.RuntimeInvalidState
            ("duplicate array declaration reached runtime: `" +:+ name +:+ "`")
      | Some (f2, None) => modify (write f2)
      end
  end.

Definition write_top (f : Frame) (s : Interpreter) : Interpreter := set_frames (f :: tail (frames s)) s.

Definition initializeDeclarations (d : AST_DATA_DECLARATION_BLOCK) : Interp unit :=
  fs ← gets frames;
  initializeDeclarationsInto d (default empty_frame (head fs)) write_top.

Definition write_global (f : Frame) (s : Interpreter) : Interpreter :=
  set_frames (removelast (frames s) ++ [f]) s.

Definition globalFrame (s : Interpreter) : Frame := default empty_frame (last (frames s)).

Definition registerFunctions (list : list AST_FUNCTION_RULE) (source_path : string) : Interp unit :=
  modify (λ s,
    set_function_sources (foldl (λ m f, <[fn_node f := source_path]> m) (function_sources s) list)
      (set_functions_ (foldl (λ m f, <[function_name f := f]> m) (functions_ s) list) s)).

Definition addLibraryProgram (p : AST_PROGRAM) (source_path : string) : Interp unit :=
  g ← gets globalFrame;
  initializeDeclarationsInto (decl_block p) g write_global;;
  registerFunctions (functions p) source_path.

(** The constructor. *)
Definition new_interpreter (source_path : string) (t : range_table) (input : string) : Interpreter :=
  {| frames := [empty_frame]; functions_ := ∅; function_sources := ∅; aiModels := ∅; aiTensors := ∅;
     entry_source := source_path; active_source := source_path; str := ""; num := 0;
     current_value := defaultValue TInt; flow := FlowNormal; goto_target := "";
     return_value := defaultValue TInt; runtime_failed := false; call_depth := 0; goto_transfers := 0;
     ranges := t; cin := Some input; cout := []; cerr := [] |}.

(** * Visits *)

Section Visits.
Context `{AIRuntimeInterface}.
(** [node->accept( *this )] for expressions and statements, and the number of
    iterations a loop may take. *)
Context (accept : AST_EXPRESSION_RULE → Interp unit).
Context (accept_statement : AST_STATEMENT_RULE → Interp unit).
Context (fuel : nat).

Definition evaluate (e : AST_EXPRESSION_RULE) : Interp RuntimeValue :=
  modify (set_current_value (defaultValue TInt));;
  accept e;;
  gets current_value.

(** [if (variable->type == array) writeArray(str, num, v) else writeScalar(str, v)] *)
Definition store (is_array : bool) (value : RuntimeValue) : Interp bool :=
  s ← gets id;
  match (if is_array then writeArray (str s) (num s) value (frames s)
         else writeScalar (str s) value (frames s)) with
  | Some fs => modify (set_frames fs);; mret true
  | None => mret false
  end.

(** ** Expressions *)

Definition float_comparison (op : binary_op) (left right : double) : bool :=
  match op with
  | LESS => dltb left right
  | GREATER => dltb right left
  | LESS_OR_EQUAL => dleb left right
  | GREATER_OR_EQUAL => dleb right left
  | EQUAL => deqb left right
  | NOT_EQUAL => negb (deqb left right)
  | _ => false
  end.

Definition string_comparison (op : binary_op) (left right : string) : bool :=
  match op with
  | EQUAL => String.eqb left right
  | NOT_EQUAL => negb (String.eqb left right)
  | _ => false
  end.

Definition set_value (v : RuntimeValue) : Interp unit := modify (set_current_value v).

Definition binary_float (n : N) (op : binary_op) (left right : double) : Interp unit :=
  match op with
  | PLUS => set_value (float_runtime (dadd left right))
  | MINUS => set_value (float_runtime (dsub left right))
  | MULTIPLY => set_value (float_runtime (dmul left right))
  | DIVIDE =>
      if deqb right dzero then
        runtimeError n Codes.RuntimeArithmeticDomainError
          "float division by zero is forbidden by shorthand.type_memory.v1"
      else set_value (float_runtime (ddiv left right))
  | _ => set_value (bool_runtime (float_comparison op left right))
  end.

Definition bad_divisor (left right : Z) : bool :=
  (right =? 0) || ((left =? INT32_MIN) && (right =? -1)).

Definition binary_int (n : N) (op : binary_op) (left right : Z) : Interp unit :=
  match op with
  | PLUS => set_value (int_runtime (wrapAdd left right))
  | MINUS => set_value (int_runtime (wrapSub left right))
  | MULTIPLY => set_value (int_runtime (wrapMul left right))
  | DIVIDE =>
      if bad_divisor left right then
        runtimeError n Codes.RuntimeArithmeticDomainError
          "integer division has an invalid divisor or overflow case"
      else set_value (int_runtime (Z.quot left right))
  | MODULO =>
      if bad_divisor left right then
        runtimeError n Codes.RuntimeArithmeticDomainError
          "integer remainder has an invalid divisor or overflow case"
      else set_value (int_runtime (Z.rem left right))
  | LESS => set_value (bool_runtime (left <? right))
  | GREATER => set_value (bool_runtime (right <? left))
  | LESS_OR_EQUAL => set_value (bool_runtime (left <=? right))
  | GREATER_OR_EQUAL => set_value (bool_runtime (right <=? left))
  | EQUAL => set_value (bool_runtime (left =? right))
  | NOT_EQUAL => set_value (bool_runtime (negb (left =? right)))
  | OR => set_value (bool_runtime (negb (left =? 0) || negb (right =? 0)))
  | AND => set_value (bool_runtime (negb (left =? 0) && negb (right =? 0)))
  | B_ERROR => runtimeError n Codes.RuntimeInvalidState "unsupported binary operator reached runtime"
  end.

Definition visit_AST_BINARY_EXPRESSION_RULE (n : N) (left right : AST_EXPRESSION_RULE) (op : binary_op) : Interp unit :=
  left_value ← evaluate left;
  unless_failed (
    right_value ← evaluate right;
    unless_failed (
      set_value (defaultValue TBoolean);;
      match type left_value with
      | TFloat => binary_float n op (float_value left_value) (float_value right_value)
      | TString => set_value (bool_runtime (string_comparison op (string_value left_value) (string_value right_value)))
      | _ => binary_int n op (int_value left_value) (int_value right_value)
      end)).

Definition visit_AST_UNARY_EXPRESSION_RULE (n : N) (e : AST_EXPRESSION_RULE) (op : unary_op) : Interp unit :=
  value ← evaluate e;
  unless_failed (
    match op with
    | UMINUS =>
        match type value with
        | TFloat =>
            set_value {| type := type value; int_value := int_value value;
                         float_value := dneg (float_value value); string_value := string_value value |}
        | _ =>
            set_value {| type := type value; int_value := wrapSub 0 (int_value value);
                         float_value := float_value value; string_value := string_value value |}
        end
    | U_ERROR => runtimeError n Codes.RuntimeInvalidState "unsupported unary operator reached runtime"
    end).

Definition visit_AST_SIMPLE_VARIABLE (n : N) (variable_name : string) : Interp unit :=
  modify (set_str variable_name);;
  s ← gets id;
  match readScalar (str s) (frames s) with
  | None => runtimeError n Codes.RuntimeInvalidState ("scalar is not declared: `" +:+ str s +:+ "`")
  | Some value => set_value value
  end.

Definition visit_AST_ARRAY_VARIABLE (n : N) (array_name : string) (index : AST_EXPRESSION_RULE) : Interp unit :=
  i ← evaluate index;
  modify (set_num (int_value i));;
  modify (set_str array_name);;
  unless_failed (
    s ← gets id;
    match readArray (str s) (num s) (frames s) with
    | None =>
        runtimeError n Codes.RuntimeArrayBounds
          ("array index is outside declared bounds for `" +:+ str s +:+ "`")
    | Some value => set_value value
    end).

(** The arguments of a call, left to right; [None] when one of them failed. *)
Fixpoint evaluate_arguments (es : list AST_EXPRESSION_RULE) : Interp (option (list RuntimeValue)) :=
  match es with
  | [] => mret (Some [])
  | e :: rest =>
      v ← evaluate e;
      failed ← gets runtime_failed;
      if (failed : bool) then mret None
      else
        vs ← evaluate_arguments rest;
        mret (match vs with Some vs => Some (v :: vs) | None => None end)
  end.

(** The frame of a call: [None] when an argument type differs from the
    declared one. *)
Fixpoint bind_parameters (params : list AST_TYPED_SCALAR_DECLARATION) (arguments : list RuntimeValue)
    (f : gmap string RuntimeValue) : option (gmap string RuntimeValue) :=
  match arguments with
  | [] => Some f
  | a :: rest =>
      match params with
      | [] => None
      | p :: params' =>
          if decide (ts_type p = type a) then bind_parameters params' rest (<[ts_name p := a]> f) else None
      end
  end.

(** The state in which the body of a function starts. *)
Definition enter_function (f : AST_FUNCTION_RULE) (frame : Frame) (s : Interpreter) : Interpreter :=
  let s := set_frames (frame :: frames s) s in
  let s := set_call_depth (call_depth s + 1) s in
  let s := set_flow FlowNormal s in
  let s := set_goto_target "" s in
  let s := set_return_value (defaultValue (fn_type f)) s in
  match function_sources s !! fn_node f with
  | Some source => set_active_source source s
  | None => s
  end.

(** The fields restored when it ends. *)
Definition leave_function (caller s : Interpreter) : Interpreter :=
  let s := set_call_depth (call_depth s - 1) s in
  let s := set_frames (tail (frames s)) s in
  let s := set_active_source (active_source caller) s in
  let s := set_flow (flow caller) s in
  let s := set_goto_target (goto_target caller) s in
  set_return_value (return_value caller) s.

(** The end of [invokeFunction]: the value, the restored fields, the status. *)
Definition return_to_caller (f : AST_FUNCTION_RULE) (fl : FlowSignal) (caller : Interpreter) : Interp (Z * RuntimeValue) :=
  returned ← gets return_value;
  modify (leave_function caller);;
  failed ← gets runtime_failed;
  mret (if (failed : bool) then 1 else 0,
        if decide (fl = FlowReturn) then returned else defaultValue (fn_type f)).

(** The result code (0 for success) and the out-parameter [result]. *)
Definition invokeFunction (call_node : N) (name : string) (arguments : list RuntimeValue)
    (result : RuntimeValue) : Interp (Z * RuntimeValue) :=
  caller ← gets id;
  match functions_ caller !! name with
  | None =>
      runtimeError call_node Codes.RuntimeInvalidState ("function registry missing `" +:+ name +:+ "`");;
      mret (1, result)
  | Some f =>
      if negb (bool_decide (array_ints (parameters f) = [])) then
        runtimeError call_node Codes.RuntimeInvalidState
          ("unsupported function parameter layout for `" +:+ name +:+ "`");;
        mret (1, result)
      else if negb (bool_decide (length (single_ints (parameters f)) = length arguments)) then
        runtimeError call_node Codes.SemanticFunctionArityMismatch
          ("function " +:+ name +:+ " arity changed after semantic validation");;
        mret (1, result)
      else if kMaxCallDepth <=? call_depth caller then
        runtimeError call_node Codes.RuntimeInvalidState
          "maximum deterministic function call depth exceeded";;
        mret (1, result)
      else
        match bind_parameters (typed_scalars (parameters f)) arguments ∅ with
        | None =>
            runtimeError call_node Codes.RuntimeInvalidState
              "function argument type mismatch reached runtime after semantic validation";;
            mret (1, result)
        | Some locals =>
            modify (enter_function f {| scalars := locals; arrays := ∅ |});;
            accept_statement (AST_BLOCK_STATEMENT (block_statement f));;
            fl ← gets flow;
            (match fl with
             | FlowBreak | FlowContinue | FlowGoto =>
                 runtimeError (fn_node f) Codes.RuntimeInvalidState
                   ("control-flow signal escaped function `" +:+ name +:+ "`")
             | _ => mret tt
             end);;
            failed ← gets runtime_failed;
            (if negb failed && bool_decide (fn_type f ≠ TVoid) && bool_decide (fl ≠ FlowReturn) then
               runtimeError (fn_node f) Codes.RuntimeInvalidState
                 ("non-void function completed without a return value: `" +:+ name +:+ "`")
             else mret tt);;
            return_to_caller f fl caller
        end
  end.

Definition visit_AST_FUNCTION_CALL_EXPRESSION (n : N) (name : string) (arguments : list AST_EXPRESSION_RULE) : Interp unit :=
  vs ← evaluate_arguments arguments;
  match vs with
  | None => mret tt
  | Some vs =>
      r ← invokeFunction n name vs (defaultValue TVoid);
      if r.1 =? 0 then set_value r.2 else mret tt
  end.

Definition visit_expression (e : AST_EXPRESSION_RULE) : Interp unit :=
  match e with
  | AST_LITERAL _ z => set_value (int_runtime z)
  | AST_BOOL_LITERAL _ b => set_value (bool_runtime b)
  | AST_FLOAT_LITERAL _ d => set_value (float_runtime d)
  | AST_STRING_LITERAL _ text =>
      modify (set_str text);;
      set_value {| type := TString; int_value := 0; float_value := dzero;
                   string_value := unquoteShortString text |}
  | AST_SIMPLE_VARIABLE n x => visit_AST_SIMPLE_VARIABLE n x
  | AST_ARRAY_VARIABLE n x i => visit_AST_ARRAY_VARIABLE n x i
  | AST_UNARY_EXPRESSION_RULE n e op => visit_AST_UNARY_EXPRESSION_RULE n e op
  | AST_BINARY_EXPRESSION_RULE n l r op => visit_AST_BINARY_EXPRESSION_RULE n l r op
  | AST_FUNCTION_CALL_EXPRESSION n f args => visit_AST_FUNCTION_CALL_EXPRESSION n f args
  end.

(** ** Statements *)

Definition visit_AST_FUNCTION_CALL_RULE (n : N) (name : string) (parameters : list AST_VARIABLE_RULE) : Interp unit :=
  vs ← evaluate_arguments (map var_expression parameters);
  match vs with
  | None => mret tt
  | Some vs => invokeFunction n name vs (defaultValue TVoid);; mret tt
  end.

Definition visit_AST_EXPRESSION_STATEMENT_RULE (e : AST_EXPRESSION_RULE) : Interp unit :=
  evaluate e;; mret tt.

Definition visit_AST_ASSIGNMENT_RULE (n : N) (variable : AST_VARIABLE_RULE) (e : AST_EXPRESSION_RULE) : Interp unit :=
  value ← evaluate e;
  unless_failed (
    accept (var_expression variable);;
    unless_failed (
      written ← store (var_is_array variable) value;
      name ← gets str;
      if (written : bool) then mret tt
      else if var_is_array variable then
        runtimeError n Codes.RuntimeArrayBounds
          ("array write is outside declared bounds for `" +:+ name +:+ "`")
      else
        runtimeError n Codes.RuntimeInvalidState ("assignment target is not declared: `" +:+ name +:+ "`"))).

(** The labels of a block: the first position of each name. *)
Fixpoint collect_labels (i : nat) (ss : list AST_STATEMENT_RULE) (labels : gmap string nat) : gmap string nat :=
  match ss with
  | [] => labels
  | st :: rest =>
      collect_labels (S i) rest
        (match as_label st with
         | Some l => match labels !! l with None => <[l := i]> labels | Some _ => labels end
         | None => labels
         end)
  end.

(** The [while] of a block, from the statement at position [pc]. *)
Fixpoint block_loop (k : nat) (labels : gmap string nat) (ss : list AST_STATEMENT_RULE) (pc : nat) : Interp unit :=
  match k with
  | O => out_of_fuel
  | S k =>
      s ← gets id;
      match ss !! pc with
      | None => mret tt
      | Some st =>
          if runtime_failed s then mret tt
          else if negb (bool_decide (flow s = FlowNormal)) then mret tt
          else
            accept_statement st;;
            unless_failed (
              s ← gets id;
              match flow s with
              | FlowGoto =>
                  match labels !! goto_target s with
                  | None =>
                      runtimeError (statement_node st) Codes.RuntimeInvalidState
                        ("goto target escaped its validated lexical block: `" +:+ goto_target s +:+ "`")
                  | Some target =>
                      modify (set_goto_transfers (goto_transfers s + 1));;
                      if kMaxGotoTransfers <? goto_transfers s + 1 then
                        runtimeError (statement_node st) Codes.RuntimeInvalidState
                          "maximum deterministic goto transfer budget exceeded"
                      else
                        modify (set_flow FlowNormal);;
                        modify (set_goto_target "");;
                        block_loop k labels ss (S target)
                  end
              | FlowNormal => block_loop k labels ss (S pc)
              | _ => mret tt
              end)
      end
  end.

Definition push_frame : Interp unit := modify (λ s, set_frames (empty_frame :: frames s) s).
Definition pop_frame : Interp unit := modify (λ s, set_frames (tail (frames s)) s).

Definition visit_AST_STATEMENTS_BLOCK (b : AST_STATEMENTS_BLOCK) : Interp unit :=
  (if lexical_scope b then push_frame else mret tt);;
  block_loop fuel (collect_labels 0 (statements b) ∅) (statements b) 0;;
  (if lexical_scope b then pop_frame else mret tt).

Definition accept_block (b : AST_STATEMENTS_BLOCK) : Interp unit :=
  accept_statement (AST_BLOCK_STATEMENT b).

Definition visit_AST_IF_STATEMENT (condition : AST_EXPRESSION_RULE) (if_block : AST_STATEMENTS_BLOCK) : Interp unit :=
  value ← evaluate condition;
  unless_failed (if truthy value then accept_block if_block else mret tt).

Definition visit_AST_IF_ELSE_STATEMENT (condition : AST_EXPRESSION_RULE)
    (if_block else_block : AST_STATEMENTS_BLOCK) : Interp unit :=
  value ← evaluate condition;
  unless_failed (if truthy value then accept_block if_block else accept_block else_block).

(** The loop variable assigned; [false] when it cannot be. *)
Definition store_loop_variable (n : N) (variable : AST_VARIABLE_RULE) (value : Z) : Interp bool :=
  written ← store (var_is_array variable) (int_runtime value);
  (if (written : bool) then mret tt
   else if var_is_array variable then
     runtimeError n Codes.RuntimeArrayBounds "loop variable array index out of bounds"
   else runtimeError n Codes.RuntimeInvalidState "loop variable is not declared");;
  mret written.

(** What a loop does with the signal its body left: [true] to iterate. *)
Definition after_body : Interp bool :=
  s ← gets id;
  if runtime_failed s then mret false
  else match flow s with
  | FlowReturn => mret false
  | FlowBreak => modify (set_flow FlowNormal);; mret false
  | FlowContinue => modify (set_flow FlowNormal);; mret true
  | FlowNormal | FlowGoto => mret true
  end.

Fixpoint for_loop (k : nat) (n : N) (variable : AST_VARIABLE_RULE)
    (step to : AST_EXPRESSION_RULE) (for_block : AST_STATEMENTS_BLOCK) : Interp unit :=
  match k with
  | O => out_of_fuel
  | S k =>
      unless_failed (
        current ← evaluate (var_expression variable);
        unless_failed (
          step_value ← evaluate step;
          unless_failed (
            if int_value step_value =? 0 then
              runtimeError (expression_node step) Codes.RuntimeLoopStepZero "loop step must be non-zero"
            else
              limit ← evaluate to;
              unless_failed (
                let in_range := if 0 <? int_value step_value
                                then int_value current <? int_value limit
                                else int_value limit <? int_value current in
                if negb in_range then mret tt
                else
                  accept_block for_block;;
                  go_on ← after_body;
                  if negb go_on then mret tt
                  else
                    reached ← evaluate (var_expression variable);
                    unless_failed (
                      written ← store_loop_variable n variable
                                  (wrapAdd (int_value reached) (int_value step_value));
                      if (written : bool) then for_loop k n variable step to for_block else mret tt)))))
  end.

Definition visit_AST_FOR_LOOP_STATEMENT_RULE (n : N) (variable : AST_VARIABLE_RULE)
    (from step to : AST_EXPRESSION_RULE) (for_block : AST_STATEMENTS_BLOCK) : Interp unit :=
  initial ← evaluate from;
  unless_failed (
    accept (var_expression variable);;
    unless_failed (
      written ← store_loop_variable n variable (int_value initial);
      if (written : bool) then for_loop fuel n variable step to for_block else mret tt)).

Fixpoint while_loop (k : nat) (condition : AST_EXPRESSION_RULE) (while_block : AST_STATEMENTS_BLOCK) : Interp unit :=
  match k with
  | O => out_of_fuel
  | S k =>
      unless_failed (
        value ← evaluate condition;
        unless_failed (
          if truthy value then
            accept_block while_block;;
            go_on ← after_body;
            if (go_on : bool) then while_loop k condition while_block else mret tt
          else mret tt))
  end.

Definition visit_AST_GOTO_STATEMENT_RULE (condition : option AST_EXPRESSION_RULE) (label : string) : Interp unit :=
  let jump := modify (set_goto_target label);; modify (set_flow FlowGoto) in
  match condition with
  | None => jump
  | Some c =>
      value ← evaluate c;
      unless_failed (if truthy value then jump else mret tt)
  end.

Definition visit_AST_RETURN_STATEMENT (n : N) (e : option AST_EXPRESSION_RULE) : Interp unit :=
  depth ← gets call_depth;
  if depth =? 0 then runtimeError n Codes.RuntimeInvalidState "return reached top-level runtime"
  else
    (match e with
     | Some e => value ← evaluate e; modify (set_return_value value)
     | None => mret tt
     end);;
    unless_failed (modify (set_flow FlowReturn)).

(** [cin >> v.float_value] or [cin >> v.int_value]; [None] when the stream
    fails, now or earlier. *)
Definition extract (value : RuntimeValue) : Interp (option RuntimeValue) :=
  input ← gets cin;
  match input with
  | None => mret None
  | Some text =>
      match type value with
      | TFloat =>
          match cin_double text with
          | Some (d, rest) =>
              modify (set_cin (Some rest));;
              mret (Some {| type := type value; int_value := int_value value; float_value := d;
                            string_value := string_value value |})
          | None => modify (set_cin None);; mret None
          end
      | _ =>
          match cin_int32 text with
          | Some (z, rest) =>
              modify (set_cin (Some rest));;
              mret (Some {| type := type value; int_value := z; float_value := float_value value;
                            string_value := string_value value |})
          | None => modify (set_cin None);; mret None
          end
      end
  end.

Fixpoint visit_AST_READ_RULE (n : N) (variables : list AST_VARIABLE_RULE) : Interp unit :=
  match variables with
  | [] => mret tt
  | variable :: rest =>
      accept (var_expression variable);;
      unless_failed (
        current ← gets current_value;
        extracted ← extract current;
        match extracted with
        | None => runtimeError n Codes.RuntimeInvalidState "read failed to parse typed input"
        | Some value =>
            written ← store (var_is_array variable) value;
            if (written : bool) then visit_AST_READ_RULE n rest
            else if var_is_array variable then
              runtimeError n Codes.RuntimeArrayBounds "read target array index out of bounds"
            else runtimeError n Codes.RuntimeInvalidState "read target is not declared"
        end)
  end.

Definition printed_value (value : RuntimeValue) : out_item :=
  match type value with
  | TFloat => OutDouble (float_value value)
  | TString => OutText (string_value value)
  | _ => OutInt (int_value value)
  end.

Fixpoint visit_AST_PRINT_RULE (first : bool) (printables : list AST_PRINTABLE_ITEM) : Interp unit :=
  match printables with
  | [] => print_items [OutEndl]
  | item :: rest =>
      (if first then mret tt else print_items [OutText " "]);;
      match item with
      | PrintExpression e =>
          value ← evaluate e;
          unless_failed (print_items [printed_value value];; visit_AST_PRINT_RULE false rest)
      | PrintString m text =>
          value ← evaluate (AST_STRING_LITERAL m text);
          print_items [OutText (string_value value)];;
          visit_AST_PRINT_RULE false rest
      end
  end.

(** The quotient of two [int32] values; the most negative one by -1 overflows. *)
Definition int_quotient (left right : Z) : Interp Z :=
  if (left =? INT32_MIN) && (right =? -1) then undefined "signed overflow in a division"
  else mret (Z.quot left right).

Definition visit_AST_GREENAI_REPORT_RULE (workload_name : string)
    (inferences watts seconds : AST_EXPRESSION_RULE) : Interp unit :=
  inferences ← evaluate inferences;
  watts ← evaluate watts;
  seconds ← evaluate seconds;
  unless_failed (
    let energy_joules := wrapMul (int_value watts) (int_value seconds) in
    inferences_per_joule ←
      (if energy_joules =? 0 then mret 0 else int_quotient (int_value inferences) energy_joules);
    print_items
      [OutText "GreenAI workload "; OutText (unquoteShortString workload_name);
       OutText ": inferences="; OutInt (int_value inferences);
       OutText " energy_j="; OutInt energy_joules;
       OutText " inf_per_j="; OutInt inferences_per_joule; OutEndl]).

Definition visit_AST_AI_INFER_RULE (model_path shape_csv input_csv : string) : Interp unit :=
  match parseShortFloatCsv (unquoteShortString input_csv) with
  | None => undefined "std::stof exception"
  | Some data =>
      match air_load_and_run (unquoteShortString model_path)
              (parseShortShapeCsv (unquoteShortString shape_csv)) data with
      | inl last_error => print_items [OutText "AI inference error: "; OutText last_error; OutEndl]
      | inr output =>
          print_items (OutText "AI inference output:" ::
                       concat (map (λ v, [OutText " "; OutFloat v]) output) ++ [OutEndl])
      end
  end.

Definition visit_AST_MODEL_DECLARATION (d : ModelDeclarationData) : Interp unit :=
  modify (λ s, set_aiModels (<[md_name d := d]> (aiModels s)) s);;
  print_items [OutText "Registered model "; OutText (md_name d); OutText " (fallback-capable)"; OutEndl].

Definition visit_AST_TENSOR_DECLARATION (d : TensorDeclarationData) : Interp unit :=
  modify (λ s, set_aiTensors (<[td_name d := d]> (aiTensors s)) s).

Definition visit_AST_GREENAI_CONTRACT (d : GreenAIContractData) : Interp unit :=
  print_items [OutText "GreenAI contract "; OutText (gc_name d); OutText " evidence_only"; OutEndl].

Definition visit_AST_GREENAI_MEASUREMENT (d : GreenAIMeasurementData) : Interp unit :=
  print_items [OutText "GreenAI workload "; OutText (gm_workload d);
               OutText " measurement_status=declared_budget_only"; OutEndl].

(** The tensor an inference reads: zeros of the declared shape. *)
Definition zero_tensor (d : TensorDeclarationData) : TensorBuffer :=
  let shape := parseShapeCsv (td_shape_csv d) in
  {| spec := {| tn_name := td_name d; element_type := parseElementType (td_element_type d);
                shape := shape; dynamic := false; element_count := productOfShape shape |};
     f32_data := replicate (Z.to_nat (productOfShape shape)) (S754_zero false);
     i8_data := []; external_f32_data := None; external_f32_count := 0; external_f32_bound := false |}.

Definition infer_report (model_name : string) (result : InferenceResult) : list out_item :=
  if decide (ir_status result = Success) then
    [OutText "AI inference success: model="; OutText model_name;
     OutText " runtime_backend="; OutText (backend_name result);
     OutText " provider="; OutText (provider_name result);
     OutText " outputs="; OutInt (Z.of_nat (length (output_f32 result))); OutEndl]
  else if decide (ir_backend result = Fallback ∨ ir_status result = NotExecuted) then
    [OutText "AI inference fallback: model="; OutText model_name;
     OutText " runtime_backend=fallback inference_status=";
     OutText (inferenceStatusToString (ir_status result));
     OutText " reason="; OutText (reason result); OutEndl]
  else
    [OutText "AI inference error: model="; OutText model_name;
     OutText " runtime_backend="; OutText (backend_name result);
     OutText " reason="; OutText (reason result); OutEndl].

Definition visit_AST_INFER_STATEMENT (model_name input_name : string) : Interp unit :=
  s ← gets id;
  match aiModels s !! model_name, aiTensors s !! input_name with
  | None, _ =>
      print_items [OutText "AI inference error: model="; OutText model_name;
                   OutText " runtime_backend=fallback reason=unknown_model"; OutEndl]
  | Some _, None =>
      print_items [OutText "AI inference error: model="; OutText model_name;
                   OutText " runtime_backend=fallback reason=unknown_tensor"; OutEndl]
  | Some model, Some tensor =>
      print_items (infer_report model_name (air_infer (toModelSpec model) (zero_tensor tensor)))
  end.

Definition visit_statement (st : AST_STATEMENT_RULE) : Interp unit :=
  match st with
  | AST_DECLARATION_STATEMENT d => initializeDeclarations d
  | AST_EXPRESSION_STATEMENT_RULE _ e => visit_AST_EXPRESSION_STATEMENT_RULE e
  | AST_FUNCTION_CALL_RULE n f args => visit_AST_FUNCTION_CALL_RULE n f args
  | AST_BREAK _ => modify (set_flow FlowBreak)
  | AST_CONTINUE _ => modify (set_flow FlowContinue)
  | AST_RETURN_STATEMENT n e => visit_AST_RETURN_STATEMENT n e
  | AST_ASSIGNMENT_RULE n v e => visit_AST_ASSIGNMENT_RULE n v e
  | AST_BLOCK_STATEMENT b => visit_AST_STATEMENTS_BLOCK b
  | AST_IF_STATEMENT _ c b => visit_AST_IF_STATEMENT c b
  | AST_IF_ELSE_STATEMENT _ c b1 b2 => visit_AST_IF_ELSE_STATEMENT c b1 b2
  | AST_FOR_LOOP_STATEMENT_RULE n v from step to b => visit_AST_FOR_LOOP_STATEMENT_RULE n v from step to b
  | AST_WHILE_LOOP_STATEMENT_RULE _ c b => while_loop fuel c b
  | AST_GOTO_STATEMENT_RULE _ c l => visit_AST_GOTO_STATEMENT_RULE c l
  | AST_READ_RULE n vs => visit_AST_READ_RULE n vs
  | AST_PRINT_RULE _ ps => visit_AST_PRINT_RULE true ps
  | AST_LABEL_RULE _ _ => mret tt
  | AST_GREENAI_REPORT_RULE _ w i p t => visit_AST_GREENAI_REPORT_RULE w i p t
  | AST_AI_INFER_RULE _ m s i => visit_AST_AI_INFER_RULE m s i
  | AST_MODEL_DECLARATION _ d => visit_AST_MODEL_DECLARATION d
  | AST_TENSOR_DECLARATION _ d => visit_AST_TENSOR_DECLARATION d
  | AST_GREENAI_CONTRACT _ d => visit_AST_GREENAI_CONTRACT d
  | AST_GREENAI_MEASUREMENT _ d => visit_AST_GREENAI_MEASUREMENT d
  | AST_C3ECO_DECLARATION _ _ => mret tt
  | AST_INFER_STATEMENT _ m i _ => visit_AST_INFER_STATEMENT m i
  end.
End Visits.

(** * The recursion *)

Section Run.
Context `{AIRuntimeInterface}.

Fixpoint accept_expression (fuel : nat) (e : AST_EXPRESSION_RULE) : Interp unit :=
  match fuel with
  | O => out_of_fuel
  | S fuel => visit_expression (accept_expression fuel) (accept_statement fuel) e
  end
with accept_statement (fuel : nat) (st : AST_STATEMENT_RULE) : Interp unit :=
  match fuel with
  | O => out_of_fuel
  | S fuel => visit_statement (accept_expression fuel) (accept_statement fuel) fuel st
  end.

(** The visit of a program; the logic block is its statements block.  The
    result is the exit status. *)
Definition visit_AST_PROGRAM (fuel : nat) (p : AST_PROGRAM) : Interp Z :=
  initializeDeclarations (decl_block p);;
  source ← gets entry_source;
  registerFunctions (functions p) source;;
  accept_statement fuel (AST_BLOCK_STATEMENT (code_block p));;
  s ← gets id;
  (if negb (runtime_failed s) && bool_decide (flow s ≠ FlowNormal) then
     runtimeError (prog_node p) Codes.RuntimeInvalidState "control-flow signal escaped the top-level program"
   else mret tt);;
  failed ← gets runtime_failed;
  mret (if (failed : bool) then 1 else 0).
End Run.
