(* ===== verification/InterpreterFacts.v ===== *)
(** Facts about the interpreter that need no typing: the machine arithmetic,
    the registry of functions. *)
From Stdlib Require Import SpecFloat.
From S2P Require Import Prelude CxxInt CxxString CxxFloat Ast AiTypes Diagnostics Interpreter.
Open Scope string_scope.
Open Scope Z_scope.

(** * Machine arithmetic *)

Lemma fromUnsigned32_s32 z : 0 ≤ z < 2 ^ 32 → fromUnsigned32 z = s32 z.
Proof.
  intros Hz. unfold fromUnsigned32. destruct (Z.leb_spec z (u32 INT32_MAX)); width.
Qed.

Lemma wrapAdd_s32 a b : wrapAdd a b = s32 (a + b).
Proof.
  unfold wrapAdd. rewrite fromUnsigned32_s32 by width.
  rewrite s32_u32. unfold s32, u32. f_equal. rewrite <- Z.add_assoc, (Z.add_comm (b mod _)), Z.add_assoc.
  rewrite Zplus_mod_idemp_r. rewrite <- (Z.add_assoc _ _ b), Zplus_mod_idemp_l. f_equal. lia.
Qed.

Lemma wrapSub_s32 a b : wrapSub a b = s32 (a - b).
Proof.
  unfold wrapSub. rewrite fromUnsigned32_s32 by width.
  rewrite s32_u32. unfold s32, u32. f_equal. width.
Qed.

Lemma wrapMul_s32 a b : wrapMul a b = s32 (a * b).
Proof.
  unfold wrapMul. rewrite fromUnsigned32_s32 by width.
  unfold u32. rewrite <- Zmult_mod. apply s32_u32.
Qed.

Lemma quot_int32 a b : is_int32 a → is_int32 b → bad_divisor a b = false → is_int32 (Z.quot a b).
Proof.
  unfold bad_divisor. intros Ha Hb [Hz%Z.eqb_neq Ho]%orb_false_iff.
  apply andb_false_iff in Ho. rewrite !Z.eqb_neq in Ho.
  assert (Z.abs (Z.quot a b) ≤ Z.abs a) as Hq.
  { rewrite <- Z.quot_abs by done. apply Z.quot_le_upper_bound; [lia|]. nia. }
  destruct (decide (Z.quot a b = 2147483648)) as [He|He]; [|width].
  exfalso. assert (Z.abs a = 2147483648) as Habs by width.
  assert (a = INT32_MIN) as -> by width.
  assert (Z.abs b = 1) as Hb1.
  { pose proof (Z.quot_rem' INT32_MIN b) as Heq. rewrite He in Heq.
    pose proof (Z.rem_bound_abs INT32_MIN b Hz). unfold_ranges. nia. }
  assert (b = 1) as -> by (unfold_ranges; lia). rewrite Z.quot_1_r in He. unfold_ranges. lia.
Qed.

Lemma rem_int32 a b : is_int32 a → is_int32 b → b ≠ 0 → is_int32 (Z.rem a b).
Proof.
  intros Ha Hb Hz. pose proof (Z.rem_bound_abs a b Hz). unfold_ranges. lia.
Qed.

(** The integer arithmetic of the interpreter is the two's complement
    arithmetic of 32 bits: addition, subtraction and multiplication return the
    representative of the exact result in the range of [int32], whatever the
    operands, and they are exact whenever the result fits. *)
Theorem wrap_arithmetic_exact a b :
  (wrapAdd a b = s32 (a + b) ∧ wrapSub a b = s32 (a - b) ∧ wrapMul a b = s32 (a * b)) ∧
  (is_int32 (wrapAdd a b) ∧ is_int32 (wrapSub a b) ∧ is_int32 (wrapMul a b)) ∧
  (is_int32 (a + b) → wrapAdd a b = a + b) ∧
  (is_int32 (a - b) → wrapSub a b = a - b) ∧
  (is_int32 (a * b) → wrapMul a b = a * b) ∧
  (2 ^ 32 | wrapAdd a b - (a + b)) ∧ (2 ^ 32 | wrapMul a b - a * b).
Proof.
  rewrite wrapAdd_s32, wrapSub_s32, wrapMul_s32.
  split_and!; auto using s32_range, s32_id.
  all: match goal with |- (_ | s32 ?z - _) => exists (- ((z + 2 ^ 31) / 2 ^ 32)) end; width.
Qed.

(** * Storage *)

Lemma writeScalar_length x v fs fs' : writeScalar x v fs = Some fs' → length fs' = length fs.
Proof.
  revert fs'. induction fs as [|f fs IH]; intros fs'; simpl; [done|].
  destruct (scalars f !! x); [destruct (decide _); by intros [= <-]|].
  destruct (writeScalar x v fs) as [r|]; [|done]. intros [= <-]. simpl. by rewrite (IH r).
Qed.

Lemma writeArray_length x i v fs fs' : writeArray x i v fs = Some fs' → length fs' = length fs.
Proof.
  revert fs'. induction fs as [|f fs IH]; intros fs'; simpl; [done|].
  destruct (arrays f !! x) as [found|].
  - destruct (in_bounds i found); [|done]. destruct (found !! Z.to_nat i); [|done].
    destruct (decide _); by intros [= <-].
  - destruct (writeArray x i v fs) as [r|]; [|done]. intros [= <-]. simpl. by rewrite (IH r).
Qed.

(** The scalars of the frame stack behave as one store of typed cells.  A
    write succeeds exactly when the name is visible with the type of the value;
    then reading the name gives the value, every other scalar and every array
    element reads as before, and no frame is added or removed. *)
Theorem scalar_store_exact x v fs :
  match writeScalar x v fs with
  | Some fs' =>
      (∃ old, readScalar x fs = Some old ∧ type old = type v) ∧ readScalar x fs' = Some v ∧
      (∀ y, y ≠ x → readScalar y fs' = readScalar y fs) ∧ (∀ y i, readArray y i fs' = readArray y i fs) ∧
      length fs' = length fs
  | None => ∀ old, readScalar x fs = Some old → type old ≠ type v
  end.
Proof.
  induction fs as [|f fs IH]; simpl; [done|]. destruct (scalars f !! x) as [found|] eqn:Hx.
  - destruct (decide (type found = type v)) as [Ht|Ht]; [|by intros old [= <-]].
    split_and!; simpl; [eauto|by rewrite lookup_insert_eq| |done|done].
    intros y Hy. by rewrite lookup_insert_ne.
  - destruct (writeScalar x v fs) as [fs'|]; [|done]. destruct IH as (Hold & Hr & Ho & Ha & Hl). simpl.
    rewrite Hx. split_and!; [done|done| | |by rewrite Hl]; intros; destruct (_ !! y); auto.
Qed.

(** The arrays of the frame stack behave as one store of typed cells.  A
    write succeeds exactly when the element can be read and has the type of the
    value; then reading that element gives the value, every other element and
    every scalar reads as before, and no frame is added or removed. *)
Theorem array_store_exact x i v fs :
  match writeArray x i v fs with
  | Some fs' =>
      (∃ old, readArray x i fs = Some old ∧ type old = type v) ∧ readArray x i fs' = Some v ∧
      (∀ y j, y ≠ x ∨ j ≠ i → readArray y j fs' = readArray y j fs) ∧
      (∀ y, readScalar y fs' = readScalar y fs) ∧ length fs' = length fs
  | None => ∀ old, readArray x i fs = Some old → type old ≠ type v
  end.
Proof.
  induction fs as [|f fs IH]; simpl; [done|]. destruct (arrays f !! x) as [found|] eqn:Hx.
  - destruct (in_bounds i found) eqn:Hb; [|done]. destruct (found !! Z.to_nat i) as [old|] eqn:Hi; [|done].
    destruct (decide (type old = type v)) as [Ht|Ht]; [|by intros ? [= <-]].
    assert (∀ j, in_bounds j (<[Z.to_nat i := v]> found) = in_bounds j found) as Hsame
      by (intros j; unfold in_bounds; by rewrite length_insert).
    split_and!; simpl; [eauto| | |done|done].
    + rewrite lookup_insert_eq, Hsame, Hb. apply list_lookup_insert_eq. by eapply lookup_lt_Some.
    + intros y j Hne. destruct (decide (y = x)) as [->|Hy]; [|by rewrite lookup_insert_ne].
      rewrite lookup_insert_eq, Hx, Hsame. destruct (in_bounds j found) eqn:Hj; [|done].
      apply list_lookup_insert_ne. unfold in_bounds in Hb, Hj.
      apply negb_true_iff, orb_false_iff in Hb as [?%Z.ltb_ge _]. apply negb_true_iff, orb_false_iff in Hj as [?%Z.ltb_ge _].
      destruct Hne as [?|Hne]; [done|]. intros E. apply Hne. lia.
  - destruct (writeArray x i v fs) as [fs'|]; [|done]. destruct IH as (Hold & Hr & Ho & Ha & Hl). simpl.
    rewrite Hx. split_and!; [done|done| | |by rewrite Hl]; intros; [destruct (_ !! y); auto|].
    destruct (_ !! y); auto.
Qed.

(** * The registry of functions *)

(** What [registerFunctions] enters for a list of functions. *)
Definition registry (fs : list AST_FUNCTION_RULE) : gmap string AST_FUNCTION_RULE :=
  foldl (λ m f, <[function_name f := f]> m) ∅ fs.

Lemma registry_elem fs x f : registry fs !! x = Some f → f ∈ fs.
Proof.
  unfold registry. induction fs as [|g fs IH] using rev_ind; [intros Hl; simpl in Hl; by apply lookup_empty_Some in Hl|].
  rewrite foldl_app. simpl. intros [[_ ->]|[_ Hl]]%lookup_insert_Some; set_solver.
Qed.
