(* ===== verification/RuntimeTyping.v ===== *)
(** Run-time states against the scopes of the checker: values and types, frames
    and scopes, and the stack of frames of the running function, its callers
    and the globals.  Reading and writing a variable that the checker knows
    succeeds and keeps the stack typed. *)
From S2P Require Import Prelude CxxInt CxxString CxxFloat TypeSystem Ast AiTypes Diagnostics.
From S2P Require Import AnalyzerState SemanticAnalyzer Checker CheckerFacts Interpreter.
Open Scope string_scope.
Open Scope Z_scope.

(** * Values and frames against types and scopes *)

Definition value_ok (t : ShortType) (v : RuntimeValue) : Prop := type v = t ∧ is_int32 (int_value v).

Definition entry_ok (v : option VariableInfo) (s : option RuntimeValue) (a : option (list RuntimeValue)) : Prop :=
  match v with
  | Some v =>
      if is_array v then s = None ∧ ∃ vs, a = Some vs ∧ Forall (value_ok (vi_type v)) vs
      else a = None ∧ ∃ u, s = Some u ∧ value_ok (vi_type v) u
  | None => s = None ∧ a = None
  end.

Definition frame_ok (l : scope) (f : Frame) : Prop := ∀ x, entry_ok (l !! x) (scalars f !! x) (arrays f !! x).

Lemma frame_ok_empty : frame_ok ∅ empty_frame.
Proof. intros x. by rewrite lookup_empty. Qed.

Lemma frame_ok_scalar l f x v u :
  frame_ok l f → l !! x = Some v → is_array v = false → value_ok (vi_type v) u →
  frame_ok l {| scalars := <[x := u]> (scalars f); arrays := arrays f |}.
Proof.
  intros Hf Hx Hv Hu y. specialize (Hf y). simpl.
  destruct (decide (x = y)) as [<-|Hne].
  - rewrite lookup_insert_eq, Hx in *. simpl in *. rewrite Hv in *. naive_solver.
  - by rewrite lookup_insert_ne.
Qed.

Lemma frame_ok_array l f x v vs :
  frame_ok l f → l !! x = Some v → is_array v = true → Forall (value_ok (vi_type v)) vs →
  frame_ok l {| scalars := scalars f; arrays := <[x := vs]> (arrays f) |}.
Proof.
  intros Hf Hx Hv Hu y. specialize (Hf y). simpl.
  destruct (decide (x = y)) as [<-|Hne].
  - rewrite lookup_insert_eq, Hx in *. simpl in *. rewrite Hv in *. naive_solver.
  - by rewrite lookup_insert_ne.
Qed.

(** Declaring a new name in the scope and in the frame. *)
Lemma frame_ok_new_scalar l f x t u :
  frame_ok l f → l !! x = None → value_ok t u →
  frame_ok (<[x := {| vi_type := t; is_array := false |}]> l)
    {| scalars := <[x := u]> (scalars f); arrays := arrays f |}.
Proof.
  intros Hf Hx Hu y. specialize (Hf y). simpl.
  destruct (decide (x = y)) as [<-|Hne].
  - rewrite !lookup_insert_eq. rewrite Hx in Hf. simpl in *. naive_solver.
  - by rewrite !lookup_insert_ne.
Qed.

Lemma frame_ok_new_array l f x t vs :
  frame_ok l f → l !! x = None → Forall (value_ok t) vs →
  frame_ok (<[x := {| vi_type := t; is_array := true |}]> l)
    {| scalars := scalars f; arrays := <[x := vs]> (arrays f) |}.
Proof.
  intros Hf Hx Hu y. specialize (Hf y). simpl.
  destruct (decide (x = y)) as [<-|Hne].
  - rewrite !lookup_insert_eq. rewrite Hx in Hf. simpl in *. naive_solver.
  - by rewrite !lookup_insert_ne.
Qed.

Lemma value_ok_default t : value_ok t (defaultValue t).
Proof. split; [done|]. simpl. width. Qed.

(** ** Declarations *)

Lemma declare_scalars_ok es l f l' :
  frame_ok l f →
  declare_entries (map (λ e, (ts_name e, {| vi_type := ts_type e; is_array := false |})) es) l = Some l' →
  ∃ f', declare_scalars es f = (f', None) ∧ frame_ok l' f'.
Proof.
  revert l f. induction es as [|e es IH]; intros l f Hf; simpl; [naive_solver|].
  destruct (l !! ts_name e) eqn:Hx; [done|]. intros Hd.
  pose proof (Hf (ts_name e)) as He. rewrite Hx in He. destruct He as [-> _].
  refine (IH _ _ _ Hd). apply frame_ok_new_scalar; auto using value_ok_default.
Qed.

Lemma declare_arrays_ok es l f l' :
  frame_ok l f → Forall (λ e, 0 ≤ ta_size e) es →
  declare_entries (map (λ e, (ta_name e, {| vi_type := ta_type e; is_array := true |})) es) l = Some l' →
  ∃ f', declare_arrays es f = Some (f', None) ∧ frame_ok l' f'.
Proof.
  intros Hf Hs. revert l f Hf. induction Hs as [|e es He Hs IH]; intros l f Hf; simpl; [naive_solver|].
  destruct (l !! ta_name e) eqn:Hx; [done|]. intros Hd.
  rewrite (proj2 (Z.ltb_ge _ _) He).
  pose proof (Hf (ta_name e)) as Hn. rewrite Hx in Hn. destruct Hn as [_ ->].
  refine (IH _ _ _ Hd). apply frame_ok_new_array; [done..|].
  apply Forall_replicate, value_ok_default.
Qed.

Lemma declare_block_ok d l f l' :
  frame_ok l f → declaration_types_ok d = true → declare_entries (declared_entries d) l = Some l' →
  ∃ f1 f2, declare_scalars (typed_scalars d) f = (f1, None) ∧
           declare_arrays (typed_arrays d) f1 = Some (f2, None) ∧ frame_ok l' f2.
Proof.
  intros Hf Ht Hd. apply declare_entries_app in Hd as (l1 & H1 & H2).
  destruct (declare_scalars_ok _ _ _ _ Hf H1) as (f1 & E1 & Hf1).
  destruct (declare_arrays_ok _ _ _ _ Hf1 (declaration_sizes _ Ht) H2) as (f2 & E2 & Hf2). eauto.
Qed.

(** * The stack of frames *)

Section Stack.
Context (G : scope).

(** A frame, or a scope, that holds no name of a global. *)
Definition frame_apart (f : Frame) : Prop :=
  ∀ x, is_Some (G !! x) → scalars f !! x = None ∧ arrays f !! x = None.
Definition scope_apart (l : scope) : Prop := ∀ x, is_Some (G !! x) → l !! x = None.

Lemma scope_apart_frame l f : scope_apart l → frame_ok l f → frame_apart f.
Proof. intros Hl Hf x Hx. specialize (Hf x). by rewrite (Hl x Hx) in Hf. Qed.

(** The frames of the running function match its scopes, the frames of the
    callers are below them and the frame of the globals is at the bottom. *)
Definition stack_ok (L : list scope) (C fs : list Frame) : Prop :=
  ∃ ls g, fs = (ls ++ C ++ [g])%list ∧ Forall2 frame_ok L ls ∧ frame_ok G g ∧
          Forall frame_apart C ∧ Forall scope_apart L.

(** Induction over the local scopes, with the callers and the globals as the
    base. *)
Lemma stack_ok_cons l L C fs :
  stack_ok (l :: L) C fs ↔
  ∃ f fs', fs = f :: fs' ∧ frame_ok l f ∧ scope_apart l ∧ stack_ok L C fs'.
Proof.
  split.
  - intros (ls & g & -> & H2 & Hg & HC & HL). inv H2. inv HL. eexists _, _. split; [done|].
    split_and!; [done..|]. eexists _, _. eauto 10.
  - intros (f & fs' & -> & Hf & Hl & ls & g & -> & H2 & Hg & HC & HL).
    eexists (f :: ls), g. split_and!; eauto.
Qed.

Lemma stack_ok_nil C fs :
  stack_ok [] C fs ↔ ∃ g, fs = (C ++ [g])%list ∧ frame_ok G g ∧ Forall frame_apart C.
Proof.
  split.
  - intros (ls & g & -> & H2 & Hg & HC & HL). inv H2. eauto.
  - intros (g & -> & Hg & HC). eexists [], g. split_and!; eauto.
Qed.

Lemma stack_ok_length L C fs : stack_ok L C fs → length fs = (length L + length C + 1)%nat.
Proof.
  intros (ls & g & -> & H2%Forall2_length & _). rewrite !length_app. simpl. lia.
Qed.

(** The frames of a caller become frames below those of the callee, which
    can change no more than the globals. *)
Lemma stack_ok_call L C fs :
  stack_ok L C fs → ∃ C', stack_ok [] C' fs ∧ ∀ fs', stack_ok [] C' fs' → stack_ok L C fs'.
Proof.
  intros (ls & g & -> & H2 & Hg & HC & HL). exists (ls ++ C)%list. split.
  - apply stack_ok_nil. exists g. rewrite app_assoc. split_and!; [done..|]. apply Forall_app. split; [|done].
    clear -H2 HL. induction H2; inv HL; constructor; eauto using scope_apart_frame.
  - intros fs' (g' & -> & Hg' & _)%stack_ok_nil. exists ls, g'. rewrite <- app_assoc. auto.
Qed.

Lemma stack_ok_push L C fs : stack_ok L C fs → stack_ok (∅ :: L) C (empty_frame :: fs).
Proof.
  intros H. apply stack_ok_cons. eexists _, _. split_and!; eauto using frame_ok_empty.
  intros x _. apply lookup_empty.
Qed.

Lemma stack_ok_pop l L C fs : stack_ok (l :: L) C fs → stack_ok L C (tail fs).
Proof. by intros (f & fs' & -> & _ & _ & H)%stack_ok_cons. Qed.

(** Scopes that declarations build hold no name of a global. *)
Lemma declared_apart es l l' :
  declare_entries es l = Some l' → forallb (λ e : string * VariableInfo, bool_decide (G !! e.1 = None)) es = true →
  scope_apart l → scope_apart l'.
Proof.
  revert l. induction es as [|[x v] es IH]; intros l; simpl; [naive_solver|].
  destruct (l !! x); [done|]. intros Hd [Hx%bool_decide_eq_true Hes]%andb_true_iff Hl.
  apply (IH _ Hd Hes). intros y [w Hy]. destruct (decide (x = y)) as [->|]; [congruence|].
  rewrite lookup_insert_ne by done. apply Hl. eauto.
Qed.

(** ** Variables *)

Lemma readScalar_skip C x fs :
  Forall frame_apart C → is_Some (G !! x) → readScalar x (C ++ fs) = readScalar x fs.
Proof. intros HC Hx. induction HC as [|f C Hf HC IH]; simpl; [done|]. by rewrite (proj1 (Hf x Hx)). Qed.

Lemma readArray_skip C x i fs :
  Forall frame_apart C → is_Some (G !! x) → readArray x i (C ++ fs) = readArray x i fs.
Proof. intros HC Hx. induction HC as [|f C Hf HC IH]; simpl; [done|]. by rewrite (proj2 (Hf x Hx)). Qed.

Lemma writeScalar_skip C x v fs fs' :
  Forall frame_apart C → is_Some (G !! x) → writeScalar x v fs = Some fs' →
  writeScalar x v (C ++ fs) = Some (C ++ fs')%list.
Proof.
  intros HC Hx Hw. induction HC as [|f C Hf HC IH]; simpl; [done|].
  by rewrite (proj1 (Hf x Hx)), IH.
Qed.

Lemma writeArray_skip C x i v fs fs' :
  Forall frame_apart C → is_Some (G !! x) → writeArray x i v fs = Some fs' →
  writeArray x i v (C ++ fs) = Some (C ++ fs')%list.
Proof.
  intros HC Hx Hw. induction HC as [|f C Hf HC IH]; simpl; [done|].
  by rewrite (proj2 (Hf x Hx)), IH.
Qed.

Lemma readScalar_ok L C fs x v :
  stack_ok L C fs → lookup_variable G L x = Some v → is_array v = false →
  ∃ u, readScalar x fs = Some u ∧ value_ok (vi_type v) u.
Proof.
  revert fs. induction L as [|l L IH]; intros fs Hs Hx Ha.
  - apply stack_ok_nil in Hs as (g & -> & Hg & HC). unfold lookup_variable in Hx. simpl in Hx.
    rewrite readScalar_skip by eauto. specialize (Hg x). rewrite Hx in Hg. simpl in *. rewrite Ha in Hg.
    destruct Hg as [_ (u & -> & Hu)]. eauto.
  - apply stack_ok_cons in Hs as (f & fs' & -> & Hf & _ & Hs). rewrite lookup_variable_cons in Hx.
    specialize (Hf x). simpl. destruct (l !! x) as [w|]; simpl in Hf.
    + injection Hx as ->. rewrite Ha in Hf. destruct Hf as [_ (u & -> & Hu)]. eauto.
    + destruct Hf as [-> _]. eauto.
Qed.

Lemma writeScalar_ok L C fs x v u :
  stack_ok L C fs → lookup_variable G L x = Some v → is_array v = false → value_ok (vi_type v) u →
  ∃ fs', writeScalar x u fs = Some fs' ∧ stack_ok L C fs'.
Proof.
  revert fs. induction L as [|l L IH]; intros fs Hs Hx Ha Hu.
  - apply stack_ok_nil in Hs as (g & -> & Hg & HC). unfold lookup_variable in Hx. simpl in Hx.
    pose proof (Hg x) as Hgx. rewrite Hx in Hgx. simpl in Hgx. rewrite Ha in Hgx.
    destruct Hgx as [_ (w & Hw & Hwt)].
    eexists. split.
    + apply writeScalar_skip; [done|eauto|]. simpl. rewrite Hw. rewrite decide_True; [done|].
      destruct Hu, Hwt; congruence.
    + apply stack_ok_nil. eexists. split_and!; [done| |done]. by apply (frame_ok_scalar _ _ _ v).
  - apply stack_ok_cons in Hs as (f & fs' & -> & Hf & Hl & Hs). rewrite lookup_variable_cons in Hx.
    pose proof (Hf x) as Hfx. simpl. destruct (l !! x) as [w|] eqn:Hlx; simpl in Hfx.
    + injection Hx as ->. rewrite Ha in Hfx. destruct Hfx as [_ (w & -> & Hwt)].
      rewrite decide_True by (destruct Hu, Hwt; congruence). eexists. split; [done|].
      apply stack_ok_cons. eexists _, _. split_and!; [done| |done..]. by apply (frame_ok_scalar _ _ _ v).
    + destruct Hfx as [-> _]. destruct (IH fs' Hs Hx Ha Hu) as (fs'' & -> & Hs''). eexists. split; [done|].
      apply stack_ok_cons. eauto 10.
Qed.

(** What the lookup of an element finds when it succeeds. *)
Lemma readArray_ok L C fs x v i u :
  stack_ok L C fs → lookup_variable G L x = Some v → is_array v = true →
  readArray x i fs = Some u → value_ok (vi_type v) u.
Proof.
  assert (∀ f w, w = Some v → is_array v = true → entry_ok w (scalars f !! x) (arrays f !! x) →
    ∀ rest, readArray x i (f :: rest) = Some u → value_ok (vi_type v) u) as Hhere.
  { intros f w -> Ha Hf rest. simpl in *. rewrite Ha in Hf. destruct Hf as [_ (vs & -> & Hvs)].
    destruct (in_bounds i vs); [|done]. intros Hu. by eapply (Forall_lookup_1 _ vs). }
  revert fs. induction L as [|l L IH]; intros fs Hs Hx Ha.
  - apply stack_ok_nil in Hs as (g & -> & Hg & HC). unfold lookup_variable in Hx. simpl in Hx.
    rewrite readArray_skip by eauto. eauto.
  - apply stack_ok_cons in Hs as (f & fs' & -> & Hf & _ & Hs). rewrite lookup_variable_cons in Hx.
    specialize (Hf x). destruct (l !! x) as [w|]; [eauto|].
    destruct Hf as [_ Hn]. simpl. rewrite Hn. eauto.
Qed.

(** Writing an element that was just read. *)
Lemma writeArray_ok L C fs x v i u w :
  stack_ok L C fs → lookup_variable G L x = Some v → is_array v = true →
  readArray x i fs = Some w → value_ok (vi_type v) u →
  ∃ fs', writeArray x i u fs = Some fs' ∧ stack_ok L C fs'.
Proof.
  assert (∀ l f, l !! x = Some v → is_array v = true → frame_ok l f → value_ok (vi_type v) u →
    ∀ rest, readArray x i (f :: rest) = Some w →
    ∃ f', writeArray x i u (f :: rest) = Some (f' :: rest) ∧ frame_ok l f') as Hhere.
  { intros l f Hlx Ha Hf Hu rest. pose proof (Hf x) as Hfx. rewrite Hlx in Hfx. simpl in *.
    rewrite Ha in Hfx. destruct Hfx as [_ (vs & -> & Hvs)]. destruct (in_bounds i vs); [|done].
    intros Hw. rewrite Hw. pose proof (Forall_lookup_1 _ _ _ _ Hvs Hw) as [Hw1 _].
    rewrite decide_True by (destruct Hu; congruence). eexists. split; [done|].
    apply (frame_ok_array _ _ _ v); auto. by apply Forall_insert. }
  revert fs. induction L as [|l L IH]; intros fs Hs Hx Ha Hr Hu.
  - apply stack_ok_nil in Hs as (g & -> & Hg & HC). unfold lookup_variable in Hx. simpl in Hx.
    rewrite readArray_skip in Hr by eauto. destruct (Hhere _ _ Hx Ha Hg Hu _ Hr) as (g' & Hw & Hg').
    eexists. split; [apply writeArray_skip; eauto|]. apply stack_ok_nil. eauto.
  - apply stack_ok_cons in Hs as (f & fs' & -> & Hf & Hl & Hs). rewrite lookup_variable_cons in Hx.
    destruct (l !! x) as [y|] eqn:Hlx.
    + injection Hx as ->. destruct (Hhere _ _ Hlx Ha Hf Hu _ Hr) as (f' & Hw & Hf').
      eexists. split; [done|]. apply stack_ok_cons. eauto 10.
    + pose proof (Hf x) as Hfx. rewrite Hlx in Hfx. destruct Hfx as [_ Hn]. simpl in *. rewrite Hn in *.
      destruct (IH fs' Hs Hx Ha Hr Hu) as (fs'' & -> & Hs''). eexists. split; [done|].
      apply stack_ok_cons. eauto 10.
Qed.
End Stack.

