(* ===== verification/TypeSafety.v ===== *)
(** Type safety of the interpreter.

    A program that passes the reference checker of Checker.v runs without any
    error that the type system is there to exclude: the interpreter reports at
    most the errors of [permitted] (a division outside its domain, an array
    index out of bounds, a loop step of zero, an exhausted call or jump budget,
    input that does not parse).  The proof is by induction on the fuel, with
    one lemma per visit; [inv] is the invariant that the frames at run time
    are the scopes of the checker, value by value. *)
From S2P Require Import Prelude CxxInt CxxString CxxFloat TypeSystem Ast AiTypes Diagnostics.
From S2P Require Import AnalyzerState SemanticAnalyzer Checker CheckerFacts Interpreter InterpreterFacts RuntimeTyping.
Open Scope string_scope.
Open Scope Z_scope.

(** * What may go wrong *)

(** The errors that a checked program can still report. *)
Inductive permitted : string → string → Prop :=
| permitted_float_division :
    permitted Codes.RuntimeArithmeticDomainError
      "float division by zero is forbidden by shorthand.type_memory.v1"
| permitted_division :
    permitted Codes.RuntimeArithmeticDomainError "integer division has an invalid divisor or overflow case"
| permitted_remainder :
    permitted Codes.RuntimeArithmeticDomainError "integer remainder has an invalid divisor or overflow case"
| permitted_bounds x :
    permitted Codes.RuntimeArrayBounds ("array index is outside declared bounds for `" +:+ x +:+ "`")
| permitted_step : permitted Codes.RuntimeLoopStepZero "loop step must be non-zero"
| permitted_depth : permitted Codes.RuntimeInvalidState "maximum deterministic function call depth exceeded"
| permitted_jumps : permitted Codes.RuntimeInvalidState "maximum deterministic goto transfer budget exceeded"
| permitted_input : permitted Codes.RuntimeInvalidState "read failed to parse typed input".

Definition budget_error (e : runtime_error) : Prop :=
  re_code e = Codes.RuntimeInvalidState ∧ re_message e = "maximum deterministic goto transfer budget exceeded".

(** The errors in the order they are reported.  A function whose jumps exhaust
    the budget is left with the signal of the last jump, and reports that as
    well. *)
Inductive log_ok : list runtime_error → Prop :=
| log_nil : log_ok []
| log_error es e : log_ok es → permitted (re_code e) (re_message e) → log_ok (es ++ [e])
| log_escape es e f :
    log_ok es → Exists budget_error es → re_code e = Codes.RuntimeInvalidState →
    re_message e = "control-flow signal escaped function `" +:+ f +:+ "`" → log_ok (es ++ [e]).

(** The undefined behaviour and the uncaught exception it can still have, in
    the statements of the AI extension. *)
Inductive permitted_undefined : string → Prop :=
| undefined_report : permitted_undefined "signed overflow in a division"
| undefined_stof : permitted_undefined "std::stof exception".

Abbreviation safe := (wp permitted_undefined).

Create HintDb safety.
#[export] Hint Constructors permitted permitted_undefined : safety.

Lemma safe_unless_failed k (Q : unit → Interpreter → Prop) σ :
  (runtime_failed σ = true → Q tt σ) → (runtime_failed σ = false → safe k Q σ) →
  safe (unless_failed k) Q σ.
Proof.
  intros Ht Hf. apply wp_bind, wp_gets. destruct (runtime_failed σ); auto using wp_ret.
Qed.

Section Safety.
Context `{AIRuntimeInterface} (F : signatures) (G : scope) (Fs : gmap string AST_FUNCTION_RULE).

(** * The invariant *)

Record inv (L : list scope) (C : list Frame) (σ : Interpreter) : Prop := {
  inv_stack : stack_ok G L C (frames σ);
  inv_functions : functions_ σ = Fs;
  inv_errors : log_ok (cerr σ);
  inv_depth : 0 ≤ call_depth σ;
  inv_failed : runtime_failed σ = true ↔ cerr σ ≠ [];
}.

(** The fields that an expression leaves as they were. *)
Definition control (σ : Interpreter) : FlowSignal * string * RuntimeValue * Z :=
  (flow σ, goto_target σ, return_value σ, call_depth σ).

Lemma inv_same L C σ σ' :
  frames σ' = frames σ → functions_ σ' = functions_ σ → cerr σ' = cerr σ → call_depth σ' = call_depth σ →
  runtime_failed σ' = runtime_failed σ → inv L C σ → inv L C σ'.
Proof. intros H1 H2 H3 H4 H5 [? ? ? ? ?]. split; by rewrite ?H1, ?H2, ?H3, ?H4, ?H5. Qed.

Lemma safe_runtimeError L C n code message (Q : unit → Interpreter → Prop) σ :
  permitted code message → inv L C σ →
  (∀ σ', inv L C σ' → control σ' = control σ → runtime_failed σ' = true → Q tt σ') →
  safe (runtimeError n code message) Q σ.
Proof.
  intros Hp [? ? ? ? ?] HQ. apply wp_modify, HQ; [|done..].
  split; simpl; [done..| |done|by destruct (cerr σ)]. by constructor.
Qed.

(** ** Expressions *)

(** Where the visit of a variable leaves its name and index. *)
Definition located (e : AST_EXPRESSION_RULE) (σ : Interpreter) : Prop :=
  match e with
  | AST_SIMPLE_VARIABLE _ x => str σ = x
  | AST_ARRAY_VARIABLE _ x _ => str σ = x ∧ is_Some (readArray x (num σ) (frames σ))
  | _ => True
  end.

Record expr_post (e : AST_EXPRESSION_RULE) (L : list scope) (C : list Frame) (t : ShortType)
    (σ σ' : Interpreter) : Prop := {
  ep_inv : inv L C σ';
  ep_control : control σ' = control σ;
  ep_ok : runtime_failed σ' = false →
          runtime_failed σ = false ∧ value_ok t (current_value σ') ∧ located e σ';
}.

Definition expr_spec (accept : AST_EXPRESSION_RULE → Interp unit) : Prop :=
  ∀ e L C t σ, type_of F G L e = Some t → expression_ok e = true → inv L C σ →
  safe (accept e) (λ _ σ', expr_post e L C t σ σ') σ.

(** ** Statements *)

(** Inside a function the value to return has the declared type, until the
    run fails. *)
Definition ret_inv (ret : option ShortType) (σ : Interpreter) : Prop :=
  ∀ t, ret = Some t → 0 < call_depth σ ∧ (runtime_failed σ = false → value_ok t (return_value σ)).

(** A failed run leaves the normal signal, or that of the jump for which the
    budget was exceeded. *)
Definition settled (σ : Interpreter) : Prop :=
  runtime_failed σ = true → flow σ = FlowNormal ∨ (flow σ = FlowGoto ∧ Exists budget_error (cerr σ)).

Definition jump_label (s : AST_STATEMENT_RULE) : option string :=
  match s with AST_GOTO_STATEMENT_RULE _ _ l => Some l | _ => None end.

(** The signals a statement may leave. *)
Definition flow_ok (K : context) (jump : option string) (σ : Interpreter) : Prop :=
  match flow σ with
  | FlowNormal => True
  | FlowReturn => is_Some (c_return K)
  | FlowBreak | FlowContinue => c_loop K = true
  | FlowGoto => jump = Some (goto_target σ)
  end.

Record stmt_post (K : context) (returns : bool) (jump : option string) (L : list scope) (C : list Frame)
    (σ σ' : Interpreter) : Prop := {
  sp_inv : inv L C σ';
  sp_ret : ret_inv (c_return K) σ';
  sp_settled : settled σ';
  sp_depth : call_depth σ' = call_depth σ;
  sp_ok : runtime_failed σ' = false →
          runtime_failed σ = false ∧ flow_ok K jump σ' ∧ (returns = true → flow σ' ≠ FlowNormal);
}.

Definition stmt_spec (accept_statement : AST_STATEMENT_RULE → Interp unit) : Prop :=
  ∀ s K L L' C σ, check_statement F G K L s = Some L' → statement_ok s = true → inv L C σ →
  ret_inv (c_return K) σ → runtime_failed σ = false → flow σ = FlowNormal →
  safe (accept_statement s)
    (λ _ σ', stmt_post K (definitelyReturns s) (jump_label s) L' C σ σ') σ.

Definition same_tail (L L' : list scope) : Prop := length L' = length L ∧ tail L' = tail L.

Definition body_context (ret : option ShortType) : context :=
  {| c_return := ret; c_loop := false; c_labels := ∅ |}.

(** A block that opens no scope: the body of a function or the logic block. *)
Definition body_spec (accept_statement : AST_STATEMENT_RULE → Interp unit) : Prop :=
  ∀ n ss ret L C σ, check_body F G ret L ss = true → forallb statement_ok ss = true → inv L C σ →
  ret_inv ret σ → flow σ = FlowNormal →
  safe (accept_statement (AST_BLOCK_STATEMENT (Block n false ss)))
    (λ _ σ', ∃ L', same_tail L L' ∧
       stmt_post (body_context ret) (definitelyReturns_block (Block n false ss)) None L' C σ σ') σ.

Section Expressions.
Context (accept : AST_EXPRESSION_RULE → Interp unit) (accept_statement : AST_STATEMENT_RULE → Interp unit).
Hypothesis accept_ok : expr_spec accept.

Lemma evaluate_ok e L C t σ (Q : RuntimeValue → Interpreter → Prop) :
  type_of F G L e = Some t → expression_ok e = true → inv L C σ →
  (∀ σ', expr_post e L C t σ σ' → Q (current_value σ') σ') →
  safe (evaluate accept e) Q σ.
Proof using accept_ok.
  intros Ht He Hi HQ. unfold evaluate. apply wp_bind, wp_modify, wp_bind.
  eapply wp_mono; [apply (accept_ok e L C t); [done..|]|].
  { by apply (inv_same _ _ σ). }
  intros _ σ' [H1 H2 H3]. apply wp_gets, HQ. split; auto.
Qed.

(** After a visit that failed, nothing is claimed of the value. *)
Lemma expr_failed e L C t σ σ' :
  inv L C σ' → control σ' = control σ → runtime_failed σ' = true → expr_post e L C t σ σ'.
Proof. intros H1 H2 H3. split; [done..|]. congruence. Qed.

Lemma set_value_ok e L C t σ0 σ v :
  inv L C σ → control σ = control σ0 → (runtime_failed σ = false → runtime_failed σ0 = false) →
  value_ok t v → located e (set_current_value v σ) →
  safe (set_value v) (λ _ σ', expr_post e L C t σ0 σ') σ.
Proof.
  intros Hi Hc Hf Hv Hl. apply wp_modify. split; [by apply (inv_same _ _ σ)|done|]. auto.
Qed.

Lemma value_ok_bool b : value_ok TBoolean (bool_runtime b).
Proof. split; [done|]. destruct b; simpl; width. Qed.
Lemma value_ok_int z : is_int32 z → value_ok TInt (int_runtime z).
Proof. done. Qed.
Lemma value_ok_float d : value_ok TFloat (float_runtime d).
Proof. split; [done|]. simpl. width. Qed.

#[local] Hint Resolve value_ok_bool value_ok_float quot_int32 : safety.

(** The state the operator starts from: the operands are evaluated. *)
Lemma operator_ok n e L C t l op v1 v2 σ0 σ :
  inv L C σ → control σ = control σ0 → runtime_failed σ = false → runtime_failed σ0 = false →
  value_ok l v1 → value_ok l v2 → l ≠ TVoid → op_type op l = Some t → (∀ σ', located e σ') →
  safe (set_value (defaultValue TBoolean);;
        match type v1 with
        | TFloat => binary_float n op (float_value v1) (float_value v2)
        | TString => set_value (bool_runtime (string_comparison op (string_value v1) (string_value v2)))
        | _ => binary_int n op (int_value v1) (int_value v2)
        end) (λ _ σ', expr_post e L C t σ0 σ') σ.
Proof.
  intros Hi Hc Hf Hf0 [<- Hv1] [H2 Hv2] Hl Ht He. apply wp_bind, wp_modify.
  set (σ1 := set_current_value _ σ).
  assert (inv L C σ1) as Hi1 by by apply (inv_same _ _ σ).
  assert (control σ1 = control σ0) as Hc1 by done.
  assert (∀ v, value_ok t v → safe (set_value v) (λ _ σ', expr_post e L C t σ0 σ') σ1) as Hset.
  { intros v Hv. apply set_value_ok; auto. }
  assert (∀ code m, permitted code m →
    safe (runtimeError n code m) (λ _ σ', expr_post e L C t σ0 σ') σ1) as Herr.
  { intros code m Hp. apply (safe_runtimeError L C); [done..|]. intros σ' ? ? ?. apply expr_failed; congruence. }
  clearbody σ1. destruct (type v1) eqn:Hty; [| |done| |]; destruct op; cbv in Ht;
    try discriminate Ht; try (injection Ht as <-); unfold binary_float, binary_int; repeat case_match; eauto with safety;
    apply Hset; split; simpl; try done; rewrite ?wrapAdd_s32, ?wrapSub_s32, ?wrapMul_s32;
    eauto using s32_range, quot_int32.
  all: apply rem_int32; [done..|].
  all: match goal with H : bad_divisor _ ?z = false |- ?z ≠ 0 =>
         intros Hz; rewrite Hz in H; discriminate end.
Qed.

Lemma binary_ok n e1 e2 op L C t σ :
  type_of F G L (AST_BINARY_EXPRESSION_RULE n e1 e2 op) = Some t →
  expression_ok (AST_BINARY_EXPRESSION_RULE n e1 e2 op) = true → inv L C σ →
  safe (visit_AST_BINARY_EXPRESSION_RULE accept n e1 e2 op)
    (λ _ σ', expr_post (AST_BINARY_EXPRESSION_RULE n e1 e2 op) L C t σ σ') σ.
Proof using accept_ok.
  simpl. intros Ht [He1 He2]%andb_true_iff Hi.
  destruct (type_of F G L e1) as [l|] eqn:H1; [|done].
  destruct (type_of F G L e2) as [r|] eqn:H2; [|done].
  destruct (negb (bool_decide (l = TVoid)) && bool_decide (l = r)) eqn:Hb; [|done].
  apply andb_true_iff in Hb as [Hl%negb_true_iff%bool_decide_eq_false <-%bool_decide_eq_true].
  apply wp_bind. eapply evaluate_ok; [done..|]. intros σ1 [Hi1 Hc1 Hok1].
  apply safe_unless_failed; [intros; by apply expr_failed|]. intros Hf1.
  destruct (Hok1 Hf1) as (Hf & Hv1 & _).
  apply wp_bind. eapply evaluate_ok; [done..|]. intros σ2 [Hi2 Hc2 Hok2].
  apply safe_unless_failed; [intros; apply expr_failed; congruence|]. intros Hf2.
  destruct (Hok2 Hf2) as (_ & Hv2 & _).
  eapply operator_ok; eauto; [congruence|done].
Qed.

Lemma unary_ok n e1 op L C t σ :
  type_of F G L (AST_UNARY_EXPRESSION_RULE n e1 op) = Some t →
  expression_ok (AST_UNARY_EXPRESSION_RULE n e1 op) = true → inv L C σ →
  safe (visit_AST_UNARY_EXPRESSION_RULE accept n e1 op)
    (λ _ σ', expr_post (AST_UNARY_EXPRESSION_RULE n e1 op) L C t σ σ') σ.
Proof using accept_ok.
  simpl. intros Ht [->%bool_decide_eq_true He]%andb_true_iff Hi.
  destruct (type_of F G L e1) as [l|] eqn:H1; [|done].
  destruct (numeric l) eqn:Hn; [|done]. injection Ht as <-.
  apply wp_bind. eapply evaluate_ok; [done..|]. intros σ1 [Hi1 Hc1 Hok1].
  apply safe_unless_failed; [intros; by apply expr_failed|]. intros Hf1.
  destruct (Hok1 Hf1) as (Hf & [Hty Hr] & _).
  destruct (type (current_value σ1)) eqn:E; apply set_value_ok; auto; subst; split; simpl; try done.
  all: rewrite wrapSub_s32; apply s32_range.
Qed.

Lemma simple_variable_ok n x L C t σ :
  type_of F G L (AST_SIMPLE_VARIABLE n x) = Some t → inv L C σ →
  safe (visit_AST_SIMPLE_VARIABLE n x) (λ _ σ', expr_post (AST_SIMPLE_VARIABLE n x) L C t σ σ') σ.
Proof.
  simpl. intros Ht Hi. destruct (lookup_variable G L x) as [v|] eqn:Hx; [|done].
  destruct (is_array v) eqn:Ha; [done|]. injection Ht as <-.
  destruct (readScalar_ok _ _ _ _ _ _ (inv_stack _ _ _ Hi) Hx Ha) as (u & Hr & Hu).
  apply wp_bind, wp_modify, wp_bind, wp_gets. simpl. rewrite Hr.
  apply set_value_ok; [by apply (inv_same _ _ σ)|done..].
Qed.

Lemma array_variable_ok n x i L C t σ :
  type_of F G L (AST_ARRAY_VARIABLE n x i) = Some t → expression_ok i = true → inv L C σ →
  safe (visit_AST_ARRAY_VARIABLE accept n x i) (λ _ σ', expr_post (AST_ARRAY_VARIABLE n x i) L C t σ σ') σ.
Proof using accept_ok.
  simpl. intros Ht He Hi. destruct (lookup_variable G L x) as [v|] eqn:Hx; [|done].
  destruct (is_array v) eqn:Ha; [|done]. simpl in Ht.
  case_bool_decide as Hit; [|done]. injection Ht as <-.
  apply wp_bind. eapply evaluate_ok; [done..|]. intros σ1 [Hi1 Hc1 Hok1].
  apply wp_bind, wp_modify, wp_bind, wp_modify.
  set (σ2 := set_str x _). assert (inv L C σ2) as Hi2 by by apply (inv_same _ _ σ1).
  apply safe_unless_failed; [intros; by apply expr_failed|]. intros Hf1.
  destruct (Hok1 Hf1) as (Hf & Hv1 & _).
  apply wp_bind, wp_gets. change (id σ2) with σ2.
  destruct (readArray (str σ2) (num σ2) (frames σ2)) as [u|] eqn:Hr.
  - apply set_value_ok; [done..| |]. { by eapply (readArray_ok _ _ _ _ _ _ _ _ (inv_stack _ _ _ Hi2)). }
    simpl. split; [done|]. by eexists.
  - apply (safe_runtimeError L C); [constructor|done|]. intros σ' ? Hc' ?. apply expr_failed; [done| |done].
    rewrite Hc'. done.
Qed.

(** ** Calls *)

Hypothesis accept_body : body_spec accept_statement.
Hypothesis functions_ok : ∀ f ps r, F !! f = Some (ps, r) →
  ∃ fn, Fs !! f = Some fn ∧ ps = parameter_type_list (parameters fn) ∧ r = fn_type fn ∧
        check_function F G fn = true ∧ function_ok fn = true.

Lemma evaluate_arguments_ok args ps L C σ (Q : option (list RuntimeValue) → Interpreter → Prop) :
  arguments_match (type_of F G L) ps args = true → forallb expression_ok args = true → inv L C σ →
  (∀ vs σ', inv L C σ' → control σ' = control σ → (runtime_failed σ' = false → runtime_failed σ = false) →
    (match vs with Some vs => Forall2 value_ok ps vs | None => runtime_failed σ' = true end) → Q vs σ') →
  safe (evaluate_arguments accept args) Q σ.
Proof using accept_ok.
  revert ps σ Q. induction args as [|a args IH]; intros [|p ps] σ Q Hm Ho Hi HQ; simpl in *; try done.
  { apply wp_ret, HQ; auto. }
  destruct (type_of F G L a) as [t|] eqn:Ha; [|done].
  apply andb_true_iff in Hm as [[_ <-%bool_decide_eq_true]%andb_true_iff Hm].
  apply andb_true_iff in Ho as [Hoa Ho].
  apply wp_bind. eapply evaluate_ok; [done..|]. intros σ1 [Hi1 Hc1 Hok1].
  apply wp_bind, wp_gets. destruct (runtime_failed σ1) eqn:Hf1.
  { apply wp_ret, HQ; auto. congruence. }
  destruct (Hok1 eq_refl) as (Hf & Hv & _).
  apply wp_bind, (IH ps); [done..|]. intros vs σ2 Hi2 Hc2 Hm2 Hvs. apply wp_ret, HQ; [done|congruence|auto|].
  destruct vs; auto.
Qed.

Lemma bind_parameters_ok params vs m l l' :
  frame_ok l {| scalars := m; arrays := ∅ |} → Forall2 value_ok (map ts_type params) vs →
  declare_entries (map (λ e, (ts_name e, {| vi_type := ts_type e; is_array := false |})) params) l = Some l' →
  ∃ m', bind_parameters params vs m = Some m' ∧ frame_ok l' {| scalars := m'; arrays := ∅ |}.
Proof.
  revert vs m l. induction params as [|p params IH]; intros vs m l Hf Hv; inv Hv; simpl; [naive_solver|].
  destruct (l !! ts_name p) eqn:Hx; [done|]. intros Hd.
  match goal with H : value_ok _ _ |- _ => pose proof H as [Hty _] end.
  rewrite decide_True by done. eapply IH; [|done..].
  by apply (frame_ok_new_scalar _ _ _ _ _ Hf).
Qed.

(** What the checker says of a function that is called. *)
Lemma called_function f ps r :
  F !! f = Some (ps, r) →
  ∃ fn l n ss, Fs !! f = Some fn ∧ ps = map ts_type (typed_scalars (parameters fn)) ∧ r = fn_type fn ∧
    array_ints (parameters fn) = [] ∧
    length (single_ints (parameters fn)) = length (typed_scalars (parameters fn)) ∧
    declare_entries (map (λ e, (ts_name e, {| vi_type := ts_type e; is_array := false |}))
      (typed_scalars (parameters fn))) ∅ = Some l ∧
    scope_apart G l ∧ block_statement fn = Block n false ss ∧ forallb statement_ok ss = true ∧
    check_body F G (Some (fn_type fn)) [l] ss = true ∧
    (fn_type fn = TVoid ∨ definitelyReturns_block (Block n false ss) = true).
Proof using functions_ok.
  intros Hf. destruct (functions_ok _ _ _ Hf) as (fn & HFs & -> & -> & Hc & Ho).
  unfold check_function in Hc. unfold function_ok in Ho.
  destruct (block_statement fn) as [n lex ss] eqn:Hb. simpl in *.
  apply andb_true_iff in Ho as [[[Hd%decl_block_okb_spec Hlex%negb_true_iff]%andb_true_iff _]%andb_true_iff Hss].
  destruct Hd as [Hd1 Hd2]. subst lex.
  apply andb_true_iff in Hc as [Hc Hr]. apply andb_true_iff in Hc as [Hc Hbody].
  apply andb_true_iff in Hc as [[Ht Hav]%andb_true_iff Hta%bool_decide_eq_true].
  destruct (declare_entries _ ∅) as [l|] eqn:Hl; [|done].
  exists fn, l, n, ss. unfold parameter_type_list. unfold avoids_globals, declared_entries in *. rewrite Hta in *. simpl in *.
  rewrite app_nil_r in *. split_and!; try done.
  - by rewrite Hd1, length_map.
  - apply (declared_apart _ _ _ _ Hl); [|intros x _; apply lookup_empty]. done.
  - rewrite orb_true_iff, bool_decide_eq_true in Hr. done.
Qed.

Definition call_post (r : ShortType) (L : list scope) (C : list Frame) (σ : Interpreter)
    (out : Z * RuntimeValue) (σ' : Interpreter) : Prop :=
  inv L C σ' ∧ control σ' = control σ ∧
  (runtime_failed σ' = false → runtime_failed σ = false ∧ out.1 = 0 ∧ value_ok r out.2) ∧
  (runtime_failed σ' = true → out.1 = 1).

(** The state in which the body of a called function starts. *)
Lemma enter_function_ok fn l m C σ :
  stack_ok G [] C (frames σ) → functions_ σ = Fs → log_ok (cerr σ) → 0 ≤ call_depth σ →
  (runtime_failed σ = true ↔ cerr σ ≠ []) →
  scope_apart G l → frame_ok l {| scalars := m; arrays := ∅ |} →
  let σ' := enter_function fn {| scalars := m; arrays := ∅ |} σ in
  inv [l] C σ' ∧ ret_inv (Some (fn_type fn)) σ' ∧ flow σ' = FlowNormal ∧
  runtime_failed σ' = runtime_failed σ.
Proof.
  intros Hs HF He Hd Hx Hl Hf.
  assert (stack_ok G [l] C ({| scalars := m; arrays := ∅ |} :: frames σ)) as Hst.
  { apply stack_ok_cons. eauto 10. }
  unfold enter_function. simpl. destruct (function_sources σ !! fn_node fn); simpl.
  all: split_and!; [split; simpl; auto; lia| |done..].
  all: intros t [= <-]; simpl; auto using value_ok_default with lia.
Qed.

Lemma leave_function_ok L C C' caller σ :
  (∀ fs', stack_ok G [] C' fs' → stack_ok G L C fs') → 0 ≤ call_depth caller →
  call_depth σ = call_depth caller + 1 → ∀ l, inv [l] C' σ →
  inv L C (leave_function caller σ) ∧ control (leave_function caller σ) = control caller.
Proof.
  intros Hback Hd0 Hd l [Hs HF He _ ?]. split.
  - split; simpl; auto; [|lia]. by apply Hback, (stack_ok_pop _ l).
  - unfold control. simpl. f_equal. lia.
Qed.

(** The second report of a function left by an exhausted jump budget. *)
Lemma safe_escape L C n f (Q : unit → Interpreter → Prop) σ :
  Exists budget_error (cerr σ) → inv L C σ →
  (∀ σ', inv L C σ' → control σ' = control σ → runtime_failed σ' = true → Q tt σ') →
  safe (runtimeError n Codes.RuntimeInvalidState ("control-flow signal escaped function `" +:+ f +:+ "`")) Q σ.
Proof.
  intros Hp [? ? ? ? ?] HQ. apply wp_modify, HQ; [|done..].
  split; simpl; [done..| |done|by destruct (cerr σ)]. by apply (log_escape _ _ f).
Qed.

(** The end of a call. *)
Lemma return_to_caller_ok fn fl L C C' l caller σ :
  (∀ fs', stack_ok G [] C' fs' → stack_ok G L C fs') → inv L C caller → inv [l] C' σ →
  call_depth σ = call_depth caller + 1 →
  (runtime_failed σ = false →
   runtime_failed caller = false ∧ (fl = FlowReturn → value_ok (fn_type fn) (return_value σ))) →
  safe (return_to_caller fn fl caller) (call_post (fn_type fn) L C caller) σ.
Proof.
  intros Hback Hi Hl Hd Hok.
  destruct (leave_function_ok L C C' caller σ Hback (inv_depth _ _ _ Hi) Hd l Hl) as [? ?].
  apply wp_bind, wp_gets, wp_bind, wp_modify, wp_bind, wp_gets, wp_ret. simpl.
  destruct (runtime_failed σ) eqn:Hf.
  - split_and!; simpl; try done. congruence.
  - split_and!; simpl; try congruence. intros _. destruct (Hok eq_refl) as [? ?].
    split_and!; [done..|]. destruct (decide (fl = FlowReturn)); auto using value_ok_default.
Qed.

(** The checks after the body: a signal that escapes is that of an exhausted
    jump budget, and a function with a result has returned one. *)
Lemma invokeFunction_ok n name ps r vs res L C σ :
  F !! name = Some (ps, r) → Forall2 value_ok ps vs → inv L C σ →
  safe (invokeFunction accept_statement n name vs res) (call_post r L C σ) σ.
Proof using accept_body functions_ok.
  intros HF Hvs Hi.
  destruct (called_function _ _ _ HF) as (fn & l & bn & ss & HFs & -> & -> & Har & Hlen & Hl & Hap & Hb & Hss & Hck & Hret).
  unfold invokeFunction. apply wp_bind, wp_gets. simpl. rewrite (inv_functions _ _ _ Hi), HFs.
  rewrite Har. simpl. pose proof (Forall2_length _ _ _ Hvs) as Hlv. rewrite length_map in Hlv.
  rewrite bool_decide_eq_true_2 by congruence. simpl.
  destruct (kMaxCallDepth <=? call_depth σ).
  { apply wp_bind, (safe_runtimeError L C); [constructor|done|]. intros σ' ? ? ?. apply wp_ret.
    split_and!; [done..|congruence|done]. }
  destruct (bind_parameters_ok _ _ _ _ _ frame_ok_empty Hvs Hl) as (m & Hm & Hfm).
  simpl in Hm. rewrite Hm.
  destruct (stack_ok_call _ _ _ _ (inv_stack _ _ _ Hi)) as (C' & Hs & Hback).
  destruct (enter_function_ok fn l m C' σ) as (Hi1 & Hr1 & Hfl1 & Hff1); [by destruct Hi..|done|done|].
  apply wp_bind, wp_modify, wp_bind. rewrite Hb. eapply wp_mono; [by eapply accept_body|].
  intros _ σ1 (L' & [HL' _] & [Hi2 Hr2 Hs2 Hd2 Hok]).
  destruct L' as [|l' [|]]; [done| |done].
  assert (call_depth σ1 = call_depth σ + 1) as Hd.
  { rewrite Hd2. unfold enter_function. simpl. by destruct (function_sources σ !! fn_node fn). }
  apply wp_bind, wp_gets. destruct (runtime_failed σ1) eqn:Hf1.
  - destruct (Hs2 Hf1) as [Hfl|[Hfl Hbudget]]; rewrite Hfl; apply wp_bind.
    + apply wp_ret, wp_bind, wp_gets. rewrite Hf1. apply wp_bind, wp_ret.
      apply (return_to_caller_ok _ _ _ _ C' l'); try done; congruence.
    + apply (safe_escape [l'] C'); [done..|]. intros σ2 ? Hc2 Hf2.
      apply wp_bind, wp_gets. rewrite Hf2. apply wp_bind, wp_ret.
      unfold control in Hc2. apply (return_to_caller_ok _ _ _ _ C' l'); try done; congruence.
  - destruct (Hok eq_refl) as (Hf & Hflow & Hdr). unfold flow_ok in Hflow. simpl in Hflow.
    destruct (Hr2 _ eq_refl) as [_ Hrv]. rewrite Hff1 in Hf.
    assert (fn_type fn ≠ TVoid → flow σ1 ≠ FlowNormal) as Hreturns by naive_solver.
    destruct (flow σ1) eqn:Hfl; try done; apply wp_bind, wp_ret, wp_bind, wp_gets; rewrite Hf1.
    + rewrite (bool_decide_eq_false_2 (fn_type fn ≠ TVoid)) by naive_solver. apply wp_bind, wp_ret.
      apply (return_to_caller_ok _ _ _ _ C' l'); auto.
    + rewrite andb_false_r. apply wp_bind, wp_ret.
      apply (return_to_caller_ok _ _ _ _ C' l'); auto.
Qed.

Lemma call_expression_ok n f args L C t σ :
  type_of F G L (AST_FUNCTION_CALL_EXPRESSION n f args) = Some t → forallb expression_ok args = true →
  inv L C σ →
  safe (visit_AST_FUNCTION_CALL_EXPRESSION accept accept_statement n f args)
    (λ _ σ', expr_post (AST_FUNCTION_CALL_EXPRESSION n f args) L C t σ σ') σ.
Proof using All.
  simpl. intros Ht Ho Hi. destruct (F !! f) as [[ps r]|] eqn:Hf; [|done].
  destruct (arguments_match _ _ _) eqn:Hm; [|done]. injection Ht as ->.
  apply wp_bind. eapply evaluate_arguments_ok; [done..|]. intros [vs|] σ1 Hi1 Hc1 Hm1 Hvs.
  2: { apply wp_ret, expr_failed; done. }
  apply wp_bind. eapply wp_mono; [by eapply invokeFunction_ok|].
  intros out σ2 (Hi2 & Hc2 & Hok & Hbad). destruct (runtime_failed σ2) eqn:Hf2.
  - rewrite (Hbad eq_refl). apply wp_ret, expr_failed; congruence.
  - destruct (Hok eq_refl) as (Hf1 & -> & Hv). apply set_value_ok; auto; try done. congruence.
Qed.

Lemma visit_expression_ok : expr_spec (visit_expression accept accept_statement).
Proof using All.
  intros e L C t σ Ht He Hi. destruct e as [n z|n b|n d|n s|n x|n x i|n e op|n e1 e2 op|n f args].
  - simpl in *. injection Ht as <-. apply set_value_ok; auto; try done. split; [done|]. simpl.
    apply andb_true_iff in He as [?%Z.leb_le ?%Z.leb_le]. done.
  - simpl in *. injection Ht as <-. apply set_value_ok; auto using value_ok_bool; done.
  - simpl in *. injection Ht as <-. apply set_value_ok; auto using value_ok_float; done.
  - simpl in *. injection Ht as <-. apply wp_bind, wp_modify. apply set_value_ok; auto; [|split; [done|]|done].
    + by apply (inv_same _ _ σ).
    + simpl. width.
  - by apply simple_variable_ok.
  - by apply array_variable_ok.
  - by apply unary_ok.
  - by apply binary_ok.
  - by apply call_expression_ok.
Qed.
End Expressions.

(** * Statements *)

Section Statements.
Context (accept : AST_EXPRESSION_RULE → Interp unit) (accept_statement : AST_STATEMENT_RULE → Interp unit).
Context (fuel : nat).
Hypothesis accept_ok : expr_spec accept.
Hypothesis accept_statement_ok : stmt_spec accept_statement.

(** The control fields after an expression. *)
Lemma control_eq σ σ' :
  control σ' = control σ →
  flow σ' = flow σ ∧ goto_target σ' = goto_target σ ∧ return_value σ' = return_value σ ∧
  call_depth σ' = call_depth σ.
Proof. unfold control. naive_solver. Qed.

Lemma ret_inv_control ret σ σ' :
  control σ' = control σ → (runtime_failed σ' = false → runtime_failed σ = false) →
  ret_inv ret σ → ret_inv ret σ'.
Proof.
  intros (_ & _ & Hr & Hd)%control_eq Hf Hri t Ht. destruct (Hri t Ht) as [H1 H2]. rewrite Hr, Hd. auto.
Qed.

(** A statement that leaves the control fields alone. *)
Lemma stmt_plain K jump L C σ σ' :
  inv L C σ' → control σ' = control σ → ret_inv (c_return K) σ → flow σ = FlowNormal →
  (runtime_failed σ' = false → runtime_failed σ = false) →
  stmt_post K false jump L C σ σ'.
Proof.
  intros Hi Hc Hr Hn Hf. pose proof (control_eq _ _ Hc) as (Hfl & _ & _ & Hd).
  split; [done|by eapply ret_inv_control| |done|].
  - intros _. left. congruence.
  - intros H'. split_and!; [auto| |done]. unfold flow_ok. by rewrite Hfl, Hn.
Qed.

Lemma plain_expression_ok K e t L C jump σ :
  type_of F G L e = Some t → expression_ok e = true → inv L C σ → ret_inv (c_return K) σ →
  flow σ = FlowNormal →
  safe (visit_AST_EXPRESSION_STATEMENT_RULE accept e) (λ _ σ', stmt_post K false jump L C σ σ') σ.
Proof using accept_ok.
  intros Ht He Hi Hr Hn. apply wp_bind. eapply evaluate_ok; [done..|]. intros σ1 [Hi1 Hc1 Hok1].
  apply wp_ret, stmt_plain; auto. naive_solver.
Qed.

(** Storing in a variable that was just visited succeeds. *)
Lemma store_ok v value L C t σ (Q : bool → Interpreter → Prop) :
  type_of F G L (var_expression v) = Some t → located (var_expression v) σ → inv L C σ → value_ok t value →
  (∀ σ', inv L C σ' → control σ' = control σ → runtime_failed σ' = runtime_failed σ → Q true σ') →
  safe (store (var_is_array v) value) Q σ.
Proof.
  intros Ht Hl Hi Hv HQ. apply wp_bind, wp_gets. change (id σ) with σ.
  assert (∃ fs, (if var_is_array v then writeArray (str σ) (num σ) value (frames σ)
                 else writeScalar (str σ) value (frames σ)) = Some fs ∧ stack_ok G L C fs) as (fs & -> & Hfs).
  { destruct v as [n x|n x i]; simpl in *; destruct (lookup_variable G L x) as [w|] eqn:Hx; try done.
    - destruct (is_array w) eqn:Ha; [done|]. injection Ht as <-. subst x.
      by eapply writeScalar_ok; [apply Hi|..].
    - destruct (is_array w) eqn:Ha; [|done]. simpl in Ht. case_bool_decide; [|done]. injection Ht as <-.
      destruct Hl as [-> [u Hu]]. by eapply writeArray_ok; [apply Hi|..]. }
  apply wp_bind, wp_modify, wp_ret, HQ; [|done..]. destruct Hi. by split.
Qed.

Lemma assignment_ok K n v e L C σ :
  assignable F G L v e = true → variable_ok v = true → expression_ok e = true →
  inv L C σ → ret_inv (c_return K) σ → flow σ = FlowNormal →
  safe (visit_AST_ASSIGNMENT_RULE accept n v e) (λ _ σ', stmt_post K false None L C σ σ') σ.
Proof using accept_ok.
  unfold assignable, variable_ok. intros Ha Hv He Hi Hr Hn.
  destruct (type_of F G L (var_expression v)) as [t|] eqn:Ht; [|done].
  apply andb_true_iff in Ha as [_ Ha%bool_decide_eq_true].
  apply wp_bind. eapply evaluate_ok; [done..|]. intros σ1 [Hi1 Hc1 Hok1].
  apply safe_unless_failed; [intros; apply stmt_plain; auto; congruence|]. intros Hf1.
  destruct (Hok1 Hf1) as (Hf & Hv1 & _).
  apply wp_bind. eapply wp_mono; [by eapply accept_ok|]. intros _ σ2 [Hi2 Hc2 Hok2].
  apply safe_unless_failed; [intros; apply stmt_plain; auto; congruence|]. intros Hf2.
  destruct (Hok2 Hf2) as (_ & _ & Hloc).
  apply wp_bind. eapply store_ok; [done..|]. intros σ3 Hi3 Hc3 Hf3.
  apply wp_bind, wp_gets, wp_ret, stmt_plain; auto. congruence.
Qed.

Lemma function_call_ok K n f vs L C σ :
  body_spec accept_statement →
  (∀ f ps r, F !! f = Some (ps, r) →
    ∃ fn, Fs !! f = Some fn ∧ ps = parameter_type_list (parameters fn) ∧ r = fn_type fn ∧
          check_function F G fn = true ∧ function_ok fn = true) →
  call_ok F G L f (map var_expression vs) = true → forallb variable_ok vs = true →
  inv L C σ → ret_inv (c_return K) σ → flow σ = FlowNormal →
  safe (visit_AST_FUNCTION_CALL_RULE accept accept_statement n f vs) (λ _ σ', stmt_post K false None L C σ σ') σ.
Proof using accept_ok.
  unfold call_ok. intros Hbody Hfs Hc Hv Hi Hr Hn. destruct (F !! f) as [[ps r]|] eqn:Hf; [|done].
  assert (forallb expression_ok (map var_expression vs) = true) as Ho.
  { rewrite forallb_forall in *. intros e (v & <- & Hin)%in_map_iff. by apply Hv. }
  apply wp_bind. eapply evaluate_arguments_ok; [done..|]. intros [vals|] σ1 Hi1 Hc1 Hm1 Hvs.
  2: { apply wp_ret, stmt_plain; auto. }
  apply wp_bind. eapply wp_mono; [by eapply invokeFunction_ok|].
  intros out σ2 (Hi2 & Hc2 & Hok & _). apply wp_ret, stmt_plain; auto; [congruence|naive_solver].
Qed.

Lemma return_statement_ok K n e L C σ :
  return_ok F G K L e = true → option_ok e = true →
  inv L C σ → ret_inv (c_return K) σ → runtime_failed σ = false → flow σ = FlowNormal →
  safe (visit_AST_RETURN_STATEMENT accept n e) (λ _ σ', stmt_post K true None L C σ σ') σ.
Proof using accept_ok.
  unfold return_ok. intros Hc Ho Hi Hr Hf Hn. destruct (c_return K) as [t|] eqn:HK; [|done].
  destruct (Hr t eq_refl) as [Hd Hrv].
  assert (∀ σ', inv L C σ' → call_depth σ' = call_depth σ → (runtime_failed σ' = false → value_ok t (return_value σ')) →
    flow σ' = FlowNormal →
    safe (unless_failed (modify (set_flow FlowReturn))) (λ _ σ'', stmt_post K true None L C σ σ'') σ') as Hend.
  { intros σ' Hi' Hd' Hv' Hn'.
    assert (∀ τ, call_depth τ = call_depth σ' → runtime_failed τ = runtime_failed σ' → return_value τ = return_value σ' →
      ret_inv (c_return K) τ) as Hri.
    { intros τ E1 E2 E3. rewrite HK. intros ? [= <-]. rewrite E1, E2, E3. split; [lia|done]. }
    apply safe_unless_failed; intros Hf'.
    - split; [done|by apply Hri|by intros _; left|done|congruence].
    - apply wp_modify. split; [by apply (inv_same _ _ σ')|by apply Hri| |done|].
      + intros Hx. simpl in Hx. congruence.
      + intros _. split_and!; [done| |done]. unfold flow_ok. simpl. by rewrite HK. }
  apply wp_bind, wp_gets. rewrite (proj2 (Z.eqb_neq _ _)) by lia. apply wp_bind.
  destruct e as [e|]; [|by apply wp_ret, Hend; auto].
  apply andb_true_iff in Hc as [_ Hc%bool_decide_eq_true].
  apply wp_bind. eapply evaluate_ok; [done..|]. intros σ1 [Hi1 Hc1 Hok1].
  apply control_eq in Hc1 as (Hfl1 & _ & _ & Hd1).
  apply wp_modify, Hend; simpl; [by apply (inv_same _ _ σ1)|done| |congruence].
  by intros (_ & ? & _)%Hok1.
Qed.

Lemma condition_type L c : condition_ok F G L c = true → ∃ t, type_of F G L c = Some t.
Proof. unfold condition_ok, has_type. rewrite orb_true_iff, !bool_decide_eq_true. naive_solver. Qed.

Lemma goto_ok K n c l L C σ :
  match c with Some c => condition_ok F G L c | None => true end = true → option_ok c = true →
  inv L C σ → ret_inv (c_return K) σ → runtime_failed σ = false → flow σ = FlowNormal →
  safe (visit_AST_GOTO_STATEMENT_RULE accept c l)
    (λ _ σ', stmt_post K false (jump_label (AST_GOTO_STATEMENT_RULE n c l)) L C σ σ') σ.
Proof using accept_ok.
  intros Hc Ho Hi Hr Hf Hn.
  assert (∀ σ', inv L C σ' → control σ' = control σ → runtime_failed σ' = false →
    safe (modify (set_goto_target l);; modify (set_flow FlowGoto))
      (λ _ σ'', stmt_post K false (Some l) L C σ σ'') σ') as Hjump.
  { intros σ' Hi' Hc' Hf'. apply wp_bind, wp_modify, wp_modify.
    pose proof (control_eq _ _ Hc') as (Hfl & _ & Hrv & Hd).
    split; [by apply (inv_same _ _ σ')| | |done|].
    - intros t Ht. destruct (Hr t Ht). simpl. rewrite Hd, Hrv. auto.
    - intros Hx. simpl in Hx. congruence.
    - done. }
  destruct c as [c|]; [|by apply Hjump].
  destruct (condition_type _ _ Hc) as [t Ht].
  apply wp_bind. eapply evaluate_ok; [done..|]. intros σ1 [Hi1 Hc1 Hok1].
  apply safe_unless_failed; [intros; apply stmt_plain; auto; congruence|]. intros Hf1.
  destruct (truthy _); [by apply Hjump|]. apply wp_ret, stmt_plain; auto.
Qed.

(** ** Input and output *)

Lemma extract_ok v t L C σ (Q : option RuntimeValue → Interpreter → Prop) :
  value_ok t v → inv L C σ →
  (∀ r σ', inv L C σ' → control σ' = control σ → runtime_failed σ' = runtime_failed σ →
    frames σ' = frames σ → str σ' = str σ → num σ' = num σ →
    (∀ u, r = Some u → value_ok t u) → Q r σ') →
  safe (extract v) Q σ.
Proof.
  intros [Ht Hr] Hi HQ. apply wp_bind, wp_gets.
  destruct (cin σ) as [text|]; [|by apply wp_ret, HQ].
  destruct (type v) eqn:Hv; (destruct (cin_double text) as [[d rest]|] eqn:Hd || idtac);
    (destruct (cin_int32 text) as [[z rest']|] eqn:Hz || idtac).
  all: apply wp_bind, wp_modify, wp_ret, HQ; try done; try by apply (inv_same _ _ σ).
  all: intros u [= <-]; split; simpl; try done; by eapply cin_int32_range.
Qed.

Lemma located_same e σ σ' :
  frames σ' = frames σ → str σ' = str σ → num σ' = num σ → located e σ → located e σ'.
Proof. intros H1 H2 H3. destruct e; simpl; rewrite ?H1, ?H2, ?H3; auto. Qed.

Lemma read_ok K n vs L C σ0 σ :
  forallb (readable F G L) vs = true → forallb variable_ok vs = true →
  inv L C σ → ret_inv (c_return K) σ0 → flow σ0 = FlowNormal → control σ = control σ0 →
  runtime_failed σ = false → runtime_failed σ0 = false →
  safe (visit_AST_READ_RULE accept n vs) (λ _ σ', stmt_post K false None L C σ0 σ') σ.
Proof using accept_ok.
  revert σ. induction vs as [|v vs IH]; intros σ Hc Hv Hi Hr Hn Hct Hf Hf0; simpl in *.
  { apply wp_ret, stmt_plain; auto. }
  apply andb_true_iff in Hc as [Hc Hcs]. apply andb_true_iff in Hv as [Hv Hvs].
  unfold readable in Hc. destruct (type_of F G L (var_expression v)) as [t|] eqn:Ht; [|done].
  apply wp_bind. eapply wp_mono; [by eapply accept_ok|]. intros _ σ1 [Hi1 Hc1 Hok1].
  apply safe_unless_failed; [intros; apply stmt_plain; auto; congruence|]. intros Hf1.
  destruct (Hok1 Hf1) as (_ & Hval & Hloc).
  apply wp_bind, wp_gets, wp_bind. eapply extract_ok; [done..|].
  intros [u|] σ2 Hi2 Hc2 Hf2 E1 E2 E3 Hu.
  - apply wp_bind. eapply store_ok; [done|by eapply located_same|done|by apply Hu|].
    intros σ3 Hi3 Hc3 Hf3. apply IH; auto; congruence.
  - apply (safe_runtimeError L C); [constructor|done|]. intros σ3 ? ? ?. apply stmt_plain; auto; congruence.
Qed.

Lemma print_items_ok items L C σ (Q : unit → Interpreter → Prop) :
  inv L C σ →
  (∀ σ', inv L C σ' → control σ' = control σ → runtime_failed σ' = runtime_failed σ → Q tt σ') →
  safe (print_items items) Q σ.
Proof. intros Hi HQ. apply wp_modify, HQ; [|done..]. by apply (inv_same _ _ σ). Qed.

Lemma print_ok K first ps L C σ0 σ :
  forallb (printable F G L) ps = true → forallb printable_ok ps = true →
  inv L C σ → ret_inv (c_return K) σ0 → flow σ0 = FlowNormal → control σ = control σ0 →
  runtime_failed σ0 = false →
  safe (visit_AST_PRINT_RULE accept first ps) (λ _ σ', stmt_post K false None L C σ0 σ') σ.
Proof using accept_ok.
  revert first σ. induction ps as [|p ps IH]; intros first σ Hc Hv Hi Hr Hn Hct Hf0; simpl in *.
  { eapply print_items_ok; [done|]. intros. apply stmt_plain; auto; congruence. }
  apply andb_true_iff in Hc as [Hc Hcs]. apply andb_true_iff in Hv as [Hv Hvs].
  apply wp_bind, (wp_mono _ _ (λ _ σ', inv L C σ' ∧ control σ' = control σ0)).
  { destruct first; [by apply wp_ret|]. eapply print_items_ok; [done|]. intros. split; congruence. }
  intros _ σ1 [Hi1 Hc1].
  assert (∃ e t, type_of F G L e = Some t ∧ expression_ok e = true ∧
    e = match p with PrintString m text => AST_STRING_LITERAL m text | PrintExpression e => e end) as (e & t & Ht & He & Hp).
  { destruct p as [m text|e]; simpl in *; [by exists (AST_STRING_LITERAL m text), TString|].
    destruct (type_of F G L e) as [t|] eqn:E; [|done]. eauto. }
  destruct p as [m text|e']; simpl in Hp; subst e; apply wp_bind; (eapply evaluate_ok; [done..|]); intros σ2 [Hi2 Hc2 Hok2].
  - apply wp_bind. eapply print_items_ok; [done|]. intros σ3 ? ? ?. apply IH; auto; congruence.
  - apply safe_unless_failed; [intros; apply stmt_plain; auto; congruence|]. intros Hf2.
    apply wp_bind. eapply print_items_ok; [done|]. intros σ3 ? ? ?. apply IH; auto; congruence.
Qed.

Lemma report_ok K w e1 e2 e3 L C σ :
  has_type F G L e1 TInt && has_type F G L e2 TInt && has_type F G L e3 TInt = true →
  expression_ok e1 && expression_ok e2 && expression_ok e3 = true →
  inv L C σ → ret_inv (c_return K) σ → flow σ = FlowNormal → runtime_failed σ = false →
  safe (visit_AST_GREENAI_REPORT_RULE accept w e1 e2 e3) (λ _ σ', stmt_post K false None L C σ σ') σ.
Proof using accept_ok.
  unfold has_type. rewrite !andb_true_iff, !bool_decide_eq_true.
  intros [[H1 H2] H3] [[E1 E2] E3] Hi Hr Hn Hf.
  apply wp_bind. eapply evaluate_ok; [done..|]. intros σ1 [Hi1 Hc1 _].
  apply wp_bind. eapply evaluate_ok; [done..|]. intros σ2 [Hi2 Hc2 _].
  apply wp_bind. eapply evaluate_ok; [done..|]. intros σ3 [Hi3 Hc3 _].
  apply safe_unless_failed; intros Hf3; [apply stmt_plain; auto; congruence|].
  apply wp_bind, (wp_mono _ _ (λ _ σ', σ' = σ3)).
  { destruct (wrapMul _ _ =? 0); [by apply wp_ret|]. unfold int_quotient.
    destruct (_ && _); [apply wp_undefined; constructor|by apply wp_ret]. }
  intros q ? ->. eapply print_items_ok; [done|]. intros. apply stmt_plain; auto; congruence.
Qed.

(** ** Declarations and blocks *)

Lemma declaration_ok K d L L' C σ :
  check_declaration G L d = Some L' → inv L C σ → ret_inv (c_return K) σ → flow σ = FlowNormal →
  safe (initializeDeclarations d) (λ _ σ', stmt_post K false None L' C σ σ') σ.
Proof.
  unfold check_declaration. intros Hc Hi Hr Hn. destruct L as [|l L]; [done|].
  destruct (declaration_types_ok d && avoids_globals G d) eqn:Hb; [|done].
  apply andb_true_iff in Hb as [Ht Ha]. destruct (declare_entries _ l) as [l'|] eqn:Hd; [|done].
  injection Hc as <-. pose proof (inv_stack _ _ _ Hi) as Hs.
  apply stack_ok_cons in Hs as (f & fs & Hfs & Hf & Hl & Hs).
  destruct (declare_block_ok _ _ _ _ Hf Ht Hd) as (f1 & f2 & E1 & E2 & Hf2).
  apply wp_bind, wp_gets. rewrite Hfs. unfold initializeDeclarationsInto. simpl. rewrite E1, E2.
  apply wp_modify, stmt_plain; auto. destruct Hi as [_ ? ? ? ?]. split; [|done..].
  simpl. rewrite Hfs. apply stack_ok_cons. eexists _, _. split_and!; [done..| |done].
  by apply (declared_apart _ _ _ _ Hd).
Qed.

Lemma safe_budget L C n (Q : unit → Interpreter → Prop) σ :
  inv L C σ →
  (∀ σ', inv L C σ' → control σ' = control σ → runtime_failed σ' = true → Exists budget_error (cerr σ') → Q tt σ') →
  safe (runtimeError n Codes.RuntimeInvalidState "maximum deterministic goto transfer budget exceeded") Q σ.
Proof.
  intros [? ? ? ? ?] HQ. apply wp_modify, HQ; [|done..|].
  - split; simpl; [done..| |done|by destruct (cerr σ)]. constructor; [done|constructor].
  - simpl. apply Exists_app. right. by constructor.
Qed.

(** One statement after another. *)
Lemma stmt_post_trans K r r' j j' L L' C σ0 σ σ' :
  call_depth σ = call_depth σ0 → (runtime_failed σ = false → runtime_failed σ0 = false) →
  stmt_post K r j L C σ σ' → (r' = true → r = true ∨ (runtime_failed σ' = false → flow σ' ≠ FlowNormal)) →
  (flow σ' = FlowGoto → j = Some (goto_target σ') → j' = j) → L' = L →
  stmt_post K r' j' L' C σ0 σ'.
Proof.
  intros Hd Hf [H1 H2 H3 H4 H5] Hr Hj ->. split; [done..|congruence|].
  intros Hf'. destruct (H5 Hf') as (Hf1 & Hfl & Hn). split_and!; [auto| |naive_solver].
  unfold flow_ok in *. destruct (flow σ'); try done. rewrite Hj; auto.
Qed.

Section Loop.
Context (K : context) (ss : list AST_STATEMENT_RULE) (L0 Lend : list scope) (C : list Frame) (bn : N) (bl : bool).
Hypothesis checked : check_statements (check_statement F G K) L0 ss = Some Lend.
Hypothesis jumps : jumps_ok ss 0 ss = true.
Hypothesis labels : c_labels K = dom (block_labels ss).
Hypothesis shapes : forallb statement_ok ss = true.

Definition block_post (σ σ' : Interpreter) : Prop :=
  ∃ L', same_tail L0 L' ∧ stmt_post K (definitelyReturns_block (Block bn bl ss)) None L' C σ σ'.

Lemma block_loop_ok k pc L σ0 σ :
  at_pc F G K ss L0 pc L → reached ss pc → inv L C σ → ret_inv (c_return K) σ → flow σ = FlowNormal →
  call_depth σ = call_depth σ0 → (runtime_failed σ = false → runtime_failed σ0 = false) →
  safe (block_loop accept_statement k (block_labels ss) ss pc) (λ _ σ', block_post σ0 σ') σ.
Proof using accept_statement_ok checked jumps labels shapes.
  revert pc L σ. induction k as [|k IH]; intros pc L σ Hpc Hre Hi Hr Hn Hd Hf0; [apply wp_out_of_fuel|].
  assert (∀ σ', stmt_post K (definitelyReturns_block (Block bn bl ss)) None L C σ0 σ' → block_post σ0 σ') as Hpost.
  { intros σ' Hp. exists L. split; [|done]. by eapply at_pc_tail. }
  simpl. apply wp_bind, wp_gets. destruct (ss !! pc) as [st|] eqn:Hst.
  2: { apply wp_ret, Hpost. apply lookup_ge_None in Hst. split; [done..|by intros _; left|done|].
       intros Hf. split_and!; [auto|unfold flow_ok; by rewrite Hn|].
       rewrite reached_end; [done|]. destruct Hre as (Hle & ?).
       by replace (length ss) with pc by lia. }
  change (id σ) with σ. destruct (runtime_failed σ) eqn:Hf.
  { apply wp_ret, Hpost. split; [done..|by intros _; left|done|congruence]. }
  rewrite bool_decide_eq_true_2 by done. simpl.
  destruct (at_pc_step _ _ _ _ _ _ checked _ _ _ Hst Hpc) as (L' & Hc & Hpc').
  assert (statement_ok st = true) as Hok.
  { rewrite forallb_forall in shapes. by apply shapes, list_elem_of_In, list_elem_of_lookup_2 with pc. }
  apply wp_bind. eapply wp_mono; [by eapply accept_statement_ok|]. intros [] σ1 Hp1.
  pose proof Hp1 as [Hi1 Hr1 Hs1 Hd1 Hok1].
  assert (same_tail L0 L') as HL' by by eapply at_pc_tail.
  apply safe_unless_failed; intros Hf1.
  { exists L'. split; [done|]. split; [done..|congruence|congruence]. }
  destruct (Hok1 Hf1) as (_ & Hfl & Hdr). unfold flow_ok in Hfl.
  apply wp_bind, wp_gets. change (id σ1) with σ1.
  destruct (flow σ1) eqn:Hflow.
  - eapply IH; eauto; [|congruence]. eapply reached_step; eauto.
    destruct (definitelyReturns st); [by destruct Hdr|done].
  - apply wp_ret. exists L'. split; [done|]. eapply stmt_post_trans; eauto; try congruence; right; congruence.
  - apply wp_ret. exists L'. split; [done|]. eapply stmt_post_trans; eauto; try congruence; right; congruence.
  - apply wp_ret. exists L'. split; [done|]. eapply stmt_post_trans; eauto; try congruence; right; congruence.
  - destruct st; try done. simpl in Hfl. injection Hfl as <-. simpl in Hc. unfold keep in Hc.
    destruct (_ && _) eqn:Hb; [|done]. injection Hc as ->.
    apply andb_true_iff in Hb as [Hl%bool_decide_eq_true _]. rewrite labels in Hl.
    apply elem_of_dom in Hl as [t Ht]. rewrite Ht.
    apply wp_bind, wp_modify. destruct (kMaxGotoTransfers <? goto_transfers σ1 + 1).
    + apply (safe_budget L' C); [by apply (inv_same _ _ σ1)|]. intros σ2 Hi2 Hc2 Hf2 Hb2.
      exists L'. split; [done|]. apply control_eq in Hc2 as (Hfl2 & _ & Hrv2 & Hd2). simpl in *.
      split; [done| |by intros _; right; split; [congruence|]|congruence|congruence].
      intros t' Ht'. destruct (Hr1 t' Ht') as [? ?]. rewrite Hd2, Hf2. done.
    + apply wp_bind, wp_modify, wp_bind, wp_modify.
      eapply IH; [by eapply at_pc_jump|by eapply reached_jump|by apply (inv_same _ _ σ1)|done..|simpl; congruence|].
      auto.
Qed.
End Loop.

Lemma collect_labels_positions i ss m : collect_labels i ss m = label_positions i ss m.
Proof.
  revert i m. induction ss as [|s ss IH]; intros i m; simpl; [done|].
  destruct (as_label s) as [l|]; [|done]. by destruct (m !! l).
Qed.

Lemma visit_body_ok : body_spec (λ st, visit_statement accept accept_statement fuel st).
Proof using accept_statement_ok.
  unfold body_spec, check_body. intros n ss ret L C σ [Hj Hc%bool_decide_eq_true]%andb_true_iff Hss Hi Hr Hn.
  destruct (check_statements _ L ss) as [Lend|] eqn:Hck; [|done].
  apply wp_bind, wp_ret, wp_bind. rewrite collect_labels_positions. simpl.
  eapply wp_mono.
  - by apply (block_loop_ok _ ss L Lend C n false Hck Hj eq_refl Hss fuel 0 L σ σ); auto using reached_0.
  - intros [] σ' (L' & HL & [H1 H2 H3 H4 H5]). apply wp_ret. exists L'. split; [done|].
    split; done.
Qed.

Lemma block_statement_ok K b L C σ :
  check_block F G K L b = true → block_ok b = true → inv L C σ → ret_inv (c_return K) σ →
  runtime_failed σ = false → flow σ = FlowNormal →
  safe (visit_AST_STATEMENTS_BLOCK accept_statement fuel b)
    (λ _ σ', stmt_post K (definitelyReturns_block b) None L C σ σ') σ.
Proof using accept_statement_ok.
  destruct b as [n l ss]. simpl check_block. simpl block_ok.
  intros [[-> Hj]%andb_true_iff Hc]%andb_true_iff [_ Hss]%andb_true_iff Hi Hr Hf Hn.
  destruct (check_statements _ (∅ :: L) ss) as [Lend|] eqn:Hck; [|done].
  apply wp_bind, wp_modify, wp_bind. simpl. rewrite collect_labels_positions.
  eapply wp_mono.
  - apply (block_loop_ok (block_context K ss) ss (∅ :: L) Lend C n true Hck Hj eq_refl Hss fuel 0 (∅ :: L) σ);
      [done|apply reached_0| |done..].
    destruct Hi. split; [|done..]. by apply stack_ok_push.
  - intros [] σ' (L' & [HL1 HL2] & [H1 H2 H3 H4 H5]). destruct L' as [|l' L']; [done|]. simpl in HL2. subst L'.
    apply wp_modify. split; [|done..]. destruct H1. split; [|done..]. by apply (stack_ok_pop _ l').
Qed.

(** ** Loops *)

(** A state between the iterations of a loop that started in [σ0]. *)
Record running (K : context) (L : list scope) (C : list Frame) (σ0 σ : Interpreter) : Prop := {
  run_inv : inv L C σ;
  run_ret : ret_inv (c_return K) σ;
  run_flow : flow σ = FlowNormal;
  run_depth : call_depth σ = call_depth σ0;
  run_failed : runtime_failed σ = false → runtime_failed σ0 = false;
}.

Lemma running_stop K jump L C σ0 σ : running K L C σ0 σ → stmt_post K false jump L C σ0 σ.
Proof.
  intros [? ? Hn ? ?]. split; [done..|by intros _; left|done|].
  intros Hf. split_and!; auto. unfold flow_ok. by rewrite Hn.
Qed.

Lemma running_expr K e t L C σ0 σ σ' : running K L C σ0 σ → expr_post e L C t σ σ' → running K L C σ0 σ'.
Proof.
  intros [? ? ? ? ?] [? Hc Hok]. pose proof (control_eq _ _ Hc) as (? & ? & ? & ?).
  split; try congruence; [|naive_solver]. eapply ret_inv_control; eauto. naive_solver.
Qed.

Lemma running_same K L C σ0 σ σ' :
  running K L C σ0 σ → inv L C σ' → control σ' = control σ → (runtime_failed σ' = false → runtime_failed σ = false) →
  running K L C σ0 σ'.
Proof.
  intros [? ? ? ? ?] ? Hc ?. pose proof (control_eq _ _ Hc) as (? & ? & ? & ?).
  split; try congruence; auto. by eapply ret_inv_control.
Qed.

Lemma after_body_ok K r L C σ0 σ σ' (Q : bool → Interpreter → Prop) :
  running K L C σ0 σ → stmt_post (in_loop K) r None L C σ σ' →
  (∀ τ, stmt_post K false None L C σ0 τ → Q false τ) → (∀ τ, running K L C σ0 τ → Q true τ) →
  safe after_body Q σ'.
Proof.
  intros [? ? ? Hd0 Hf0] [Hi Hr Hs Hd Hok] Hstop Hgo. simpl in Hr.
  apply wp_bind, wp_gets. change (id σ') with σ'. destruct (runtime_failed σ') eqn:Hf.
  { apply wp_ret, Hstop. split; [done..|congruence|congruence]. }
  destruct (Hok eq_refl) as (Hf1 & Hfl & _). unfold flow_ok in Hfl.
  assert (∀ τ, frames τ = frames σ' → functions_ τ = functions_ σ' → cerr τ = cerr σ' →
    call_depth τ = call_depth σ' → return_value τ = return_value σ' → runtime_failed τ = false →
    flow τ = FlowNormal → running K L C σ0 τ) as Hrun.
  { intros τ E1 E2 E3 E4 E5 E6 E7. split; [apply (inv_same _ _ σ'); congruence| |done|congruence|auto].
    intros t Ht. destruct (Hr t Ht). rewrite E4, E5. auto. }
  destruct (flow σ') eqn:Hflow; try done.
  - apply wp_ret, Hgo, Hrun; done.
  - apply wp_ret, Hstop. split; [done..|congruence|]. intros _. split_and!; auto.
    unfold flow_ok. by rewrite Hflow.
  - apply wp_bind, wp_modify, wp_ret, Hstop, running_stop, Hrun; done.
  - apply wp_bind, wp_modify, wp_ret, Hgo, Hrun; done.
Qed.

Lemma accept_block_ok K b L C σ0 σ (Q : unit → Interpreter → Prop) :
  check_block F G K L b = true → block_ok b = true → running K L C σ0 σ → runtime_failed σ = false →
  (∀ σ', stmt_post K (definitelyReturns_block b) None L C σ σ' → Q tt σ') →
  safe (accept_block accept_statement b) Q σ.
Proof using accept_statement_ok.
  intros Hc Hb [? ? ? ? ?] Hf HQ. eapply wp_mono; [eapply (accept_statement_ok _ K L L)|]; eauto.
  { simpl. by rewrite Hc. }
  intros [] σ' Hp. by apply HQ.
Qed.

Lemma while_loop_ok K c b k L C σ0 σ :
  condition_ok F G L c = true → expression_ok c = true →
  check_block F G (in_loop K) L b = true → block_ok b = true → running K L C σ0 σ →
  safe (while_loop accept accept_statement k c b) (λ _ σ', stmt_post K false None L C σ0 σ') σ.
Proof using accept_ok accept_statement_ok.
  intros Hc Hco Hb Hbo. destruct (condition_type _ _ Hc) as [t Ht].
  revert σ. induction k as [|k IH]; intros σ Hrun; [apply wp_out_of_fuel|]. simpl.
  apply safe_unless_failed; intros Hf; [by apply running_stop|].
  apply wp_bind. eapply evaluate_ok; [done..|apply Hrun|]. intros σ1 Hp1.
  pose proof (running_expr _ _ _ _ _ _ _ _ Hrun Hp1) as Hrun1.
  apply safe_unless_failed; intros Hf1; [by apply running_stop|].
  destruct (truthy _); [|by apply wp_ret, running_stop].
  apply wp_bind. eapply accept_block_ok; [done..|by destruct Hrun1; split|done|]. intros σ2 Hp2.
  apply wp_bind. eapply after_body_ok; [done..| |].
  - intros τ Hτ. by apply wp_ret.
  - intros τ Hτ. by apply IH.
Qed.

Lemma store_loop_variable_ok K n v z L C σ0 σ (Q : bool → Interpreter → Prop) :
  type_of F G L (var_expression v) = Some TInt → located (var_expression v) σ → running K L C σ0 σ →
  is_int32 z → (∀ σ', running K L C σ0 σ' → Q true σ') →
  safe (store_loop_variable n v z) Q σ.
Proof.
  intros Ht Hl Hrun Hz HQ. apply wp_bind. eapply store_ok; [done..|apply Hrun|done|].
  intros σ' Hi' Hc' Hf'. apply wp_bind, wp_ret, wp_ret, HQ. eapply running_same; eauto; congruence.
Qed.

Section Counted.
Context (K : context) (n : N) (v : AST_VARIABLE_RULE) (from step to : AST_EXPRESSION_RULE).
Context (b : AST_STATEMENTS_BLOCK) (L : list scope) (C : list Frame).
Hypothesis types : counted_ok F G L v from step to = true.
Hypothesis shapes : variable_ok v && expression_ok from && expression_ok step && expression_ok to && block_ok b = true.
Hypothesis body : check_block F G (in_loop K) L b = true.

Lemma counted_types :
  (type_of F G L (var_expression v) = Some TInt ∧ type_of F G L from = Some TInt ∧
   type_of F G L step = Some TInt ∧ type_of F G L to = Some TInt) ∧
  (expression_ok (var_expression v) = true ∧ expression_ok from = true ∧ expression_ok step = true ∧
   expression_ok to = true ∧ block_ok b = true).
Proof using types shapes.
  unfold counted_ok, has_type in types. unfold variable_ok in shapes.
  rewrite !andb_true_iff, ?bool_decide_eq_true in *. naive_solver.
Qed.

Lemma for_loop_ok k σ0 σ :
  running K L C σ0 σ →
  safe (for_loop accept accept_statement k n v step to b) (λ _ σ', stmt_post K false None L C σ0 σ') σ.
Proof using All.
  destruct counted_types as [(Tv & _ & Ts & Tt) (Ov & _ & Os & Ot & Ob)].
  revert σ. induction k as [|k IH]; intros σ Hrun; [apply wp_out_of_fuel|]. simpl.
  apply safe_unless_failed; intros Hf; [by apply running_stop|].
  apply wp_bind. eapply evaluate_ok; [done..|apply Hrun|]. intros σ1 Hp1.
  pose proof (running_expr _ _ _ _ _ _ _ _ Hrun Hp1) as Hrun1.
  apply safe_unless_failed; intros Hf1; [by apply running_stop|].
  apply wp_bind. eapply evaluate_ok; [done..|apply Hrun1|]. intros σ2 Hp2.
  pose proof (running_expr _ _ _ _ _ _ _ _ Hrun1 Hp2) as Hrun2.
  apply safe_unless_failed; intros Hf2; [by apply running_stop|].
  destruct (int_value (current_value σ2) =? 0).
  { apply (safe_runtimeError L C); [constructor|apply Hrun2|]. intros σ3 ? ? ?.
    apply running_stop. eapply running_same; eauto; congruence. }
  apply wp_bind. eapply evaluate_ok; [done..|apply Hrun2|]. intros σ3 Hp3.
  pose proof (running_expr _ _ _ _ _ _ _ _ Hrun2 Hp3) as Hrun3.
  apply safe_unless_failed; intros Hf3; [by apply running_stop|].
  destruct (negb _); [by apply wp_ret, running_stop|].
  apply wp_bind. eapply accept_block_ok; [done..|by destruct Hrun3; split|done|]. intros σ4 Hp4.
  apply wp_bind. eapply after_body_ok; [done..| |].
  { intros τ Hτ. by apply wp_ret. }
  intros τ Hτ. simpl. apply wp_bind. eapply evaluate_ok; [done..|apply Hτ|]. intros σ5 Hp5.
  pose proof (running_expr _ _ _ _ _ _ _ _ Hτ Hp5) as Hrun5.
  apply safe_unless_failed; intros Hf5; [by apply running_stop|].
  destruct (ep_ok _ _ _ _ _ _ Hp5 Hf5) as (_ & _ & Hloc).
  apply wp_bind. eapply store_loop_variable_ok; [done..| |].
  - rewrite wrapAdd_s32. apply s32_range.
  - intros σ6 Hrun6. by apply IH.
Qed.

Lemma counted_loop_ok σ :
  inv L C σ → ret_inv (c_return K) σ → flow σ = FlowNormal →
  safe (visit_AST_FOR_LOOP_STATEMENT_RULE accept accept_statement fuel n v from step to b)
    (λ _ σ', stmt_post K false None L C σ σ') σ.
Proof using All.
  intros Hi Hr Hn. destruct counted_types as [(Tv & Tf & _) (Ov & Of & _)].
  assert (running K L C σ σ) as Hrun by by split.
  apply wp_bind. eapply evaluate_ok; [done..|]. intros σ1 Hp1.
  pose proof (running_expr _ _ _ _ _ _ _ _ Hrun Hp1) as Hrun1.
  apply safe_unless_failed; intros Hf1; [by apply running_stop|].
  destruct (ep_ok _ _ _ _ _ _ Hp1 Hf1) as (_ & [_ Hz] & _).
  apply wp_bind. eapply wp_mono; [by eapply accept_ok; [..|apply Hrun1]|]. intros [] σ2 Hp2.
  pose proof (running_expr _ _ _ _ _ _ _ _ Hrun1 Hp2) as Hrun2.
  apply safe_unless_failed; intros Hf2; [by apply running_stop|].
  destruct (ep_ok _ _ _ _ _ _ Hp2 Hf2) as (_ & _ & Hloc).
  apply wp_bind. eapply store_loop_variable_ok; [done..|]. intros σ3 Hrun3. by apply for_loop_ok.
Qed.
End Counted.

(** ** The dispatch *)

Hypothesis accept_body : body_spec accept_statement.
Hypothesis functions_ok : ∀ f ps r, F !! f = Some (ps, r) →
  ∃ fn, Fs !! f = Some fn ∧ ps = parameter_type_list (parameters fn) ∧ r = fn_type fn ∧
        check_function F G fn = true ∧ function_ok fn = true.

Lemma print_statement_ok K items L C σ :
  inv L C σ → ret_inv (c_return K) σ → flow σ = FlowNormal →
  safe (print_items items) (λ _ σ', stmt_post K false None L C σ σ') σ.
Proof. intros. eapply print_items_ok; [done|]. intros. apply stmt_plain; auto. congruence. Qed.

Lemma ai_statement_ok K s L C σ :
  match s with
  | AST_AI_INFER_RULE _ _ _ _ | AST_MODEL_DECLARATION _ _ | AST_TENSOR_DECLARATION _ _
  | AST_GREENAI_CONTRACT _ _ | AST_GREENAI_MEASUREMENT _ _ | AST_C3ECO_DECLARATION _ _
  | AST_INFER_STATEMENT _ _ _ _ | AST_LABEL_RULE _ _ => True
  | _ => False
  end → inv L C σ → ret_inv (c_return K) σ → flow σ = FlowNormal →
  safe (visit_statement accept accept_statement fuel s) (λ _ σ', stmt_post K false None L C σ σ') σ.
Proof.
  intros Hs Hi Hr Hn. destruct s; try done; simpl.
  - apply wp_ret, stmt_plain; auto.
  - unfold visit_AST_AI_INFER_RULE. case_match; [|apply wp_undefined; constructor].
    case_match; by apply print_statement_ok.
  - apply wp_bind, wp_modify. eapply print_items_ok; [by apply (inv_same _ _ σ)|].
    intros. apply stmt_plain; auto. simpl in *. congruence.
  - apply wp_modify, stmt_plain; auto. by apply (inv_same _ _ σ).
  - by apply print_statement_ok.
  - by apply print_statement_ok.
  - apply wp_ret, stmt_plain; auto.
  - apply wp_bind, wp_gets. repeat case_match; by apply print_statement_ok.
Qed.

Lemma signal_ok K f L C σ :
  c_loop K = true → f = FlowBreak ∨ f = FlowContinue →
  inv L C σ → ret_inv (c_return K) σ → runtime_failed σ = false →
  stmt_post K false None L C σ (set_flow f σ).
Proof.
  intros Hl Hfl Hi Hr Hf. split; [by apply (inv_same _ _ σ)|done| |done|].
  - intros Hx. simpl in Hx. congruence.
  - intros _. split_and!; [done| |done]. unfold flow_ok. simpl. destruct Hfl as [->| ->]; done.
Qed.

Lemma visit_statement_ok : stmt_spec (visit_statement accept accept_statement fuel).
Proof using All.
  intros s K L L' C σ Hc Ho Hi Hr Hf Hn.
  assert (∀ b, (if b : bool then Some L else None) = Some L' → b = true ∧ L' = L) as Hkeep.
  { intros [] Hb; [|done]. injection Hb as <-. done. }
  assert (running K L C σ σ) as Hrun by by split.
  destruct s; simpl in Hc, Ho; unfold keep in Hc; try (apply Hkeep in Hc as [Hc ->]);
    try (injection Hc as <-; by apply (ai_statement_ok K)); simpl;
    rewrite ?andb_true_iff in Hc; rewrite ?andb_true_iff in Ho.
  - by eapply declaration_ok.
  - apply bool_decide_eq_true in Hc. destruct (type_of F G L expression) eqn:Ht; [|done].
    by eapply plain_expression_ok.
  - by apply function_call_ok.
  - apply wp_modify. apply signal_ok; auto.
  - apply wp_modify. apply signal_ok; auto.
  - by apply return_statement_ok.
  - by destruct Ho; apply assignment_ok.
  - by apply block_statement_ok.
  - destruct Hc as [Hc Hb], Ho as [Hco Hbo]. destruct (condition_type _ _ Hc) as [t Ht].
    apply wp_bind. eapply evaluate_ok; [done..|]. intros σ1 Hp1.
    pose proof (running_expr _ _ _ _ _ _ _ _ Hrun Hp1) as Hrun1.
    apply safe_unless_failed; intros Hf1; [by apply running_stop|].
    destruct (truthy _); [|by apply wp_ret, running_stop].
    eapply accept_block_ok; [done..|]. intros σ2 Hp2. destruct Hrun1. by eapply stmt_post_trans.
  - destruct Hc as [[Hc Hb1] Hb2], Ho as [[Hco Hbo1] Hbo2]. destruct (condition_type _ _ Hc) as [t Ht].
    apply wp_bind. eapply evaluate_ok; [done..|]. intros σ1 Hp1.
    pose proof (running_expr _ _ _ _ _ _ _ _ Hrun Hp1) as Hrun1.
    apply safe_unless_failed; intros Hf1; [split; try apply Hrun1; try congruence; by intros _; left; apply Hrun1|].
    destruct (truthy _); (eapply accept_block_ok; [done..|]); intros σ2 Hp2; destruct Hrun1;
      (eapply stmt_post_trans; eauto; intros [? ?]%andb_true_iff; auto).
  - destruct Hc. by apply counted_loop_ok; rewrite ?andb_true_iff.
  - destruct Hc, Ho. by apply while_loop_ok.
  - destruct Hc. by apply (goto_ok K n).
  - by apply read_ok.
  - by apply print_ok.
  - apply report_ok; rewrite ?andb_true_iff; auto.
Qed.
End Statements.

(** * All the fuel *)

Lemma accept_safe :
  (∀ f ps r, F !! f = Some (ps, r) →
    ∃ fn, Fs !! f = Some fn ∧ ps = parameter_type_list (parameters fn) ∧ r = fn_type fn ∧
          check_function F G fn = true ∧ function_ok fn = true) →
  ∀ n, expr_spec (accept_expression n) ∧ stmt_spec (accept_statement n) ∧ body_spec (accept_statement n).
Proof.
  intros Hfs n. induction n as [|n (He & Hs & Hb)].
  - split_and!; repeat intro; apply wp_out_of_fuel.
  - split_and!; [by apply visit_expression_ok|by apply visit_statement_ok|].
    by apply (visit_body_ok (accept_expression n) (accept_statement n) n).
Qed.
End Safety.

(** * Programs *)

Lemma registry_signatures p :
  program_signatures p =
  (λ f, (parameter_type_list (parameters f), fn_type f)) <$> registry (functions p).
Proof.
  unfold program_signatures, registry.
  induction (functions p) as [|f fs IH] using rev_ind; [symmetry; apply fmap_empty|].
  rewrite !foldl_app, IH. simpl. by rewrite fmap_insert.
Qed.

Section Program.
Context `{AIRuntimeInterface} (p : AST_PROGRAM).
Hypothesis shape : program_ok p = true.
Hypothesis checked : check_program p = true.

Lemma program_checked :
  ∃ G, declaration_types_ok (decl_block p) = true ∧
       declare_entries (declared_entries (decl_block p)) ∅ = Some G ∧
       (∀ f, f ∈ functions p → check_function (program_signatures p) G f = true ∧ function_ok f = true) ∧
       check_body (program_signatures p) G None [] (statements (code_block p)) = true ∧
       (∃ n, code_block p = Block n false (statements (code_block p))) ∧
       forallb statement_ok (statements (code_block p)) = true.
Proof using shape checked.
  unfold check_program in checked. unfold program_ok in shape. rewrite !andb_true_iff in *.
  destruct shape as [[[[_ Hf] Hl%negb_true_iff] Hs] _], checked as [Ht Hc].
  destruct (declare_entries _ ∅) as [G|]; [|done]. rewrite !andb_true_iff in Hc. destruct Hc as [[_ Hcf] Hb].
  exists G. split_and!; try done.
  - intros f Hin%list_elem_of_In. rewrite forallb_forall in Hcf, Hf. auto.
  - destruct (code_block p) as [n l ss]. simpl in *. subst. eauto.
Qed.

Lemma program_functions G :
  (∀ f, f ∈ functions p → check_function (program_signatures p) G f = true ∧ function_ok f = true) →
  ∀ f ps r, program_signatures p !! f = Some (ps, r) →
  ∃ fn, registry (functions p) !! f = Some fn ∧
        ps = parameter_type_list (parameters fn) ∧ r = fn_type fn ∧
        check_function (program_signatures p) G fn = true ∧ function_ok fn = true.
Proof.
  intros Hall f ps r. rewrite registry_signatures at 1. rewrite lookup_fmap.
  intros (fn & Hl & Hsig)%fmap_Some. injection Hsig as -> ->. exists fn. destruct (Hall fn); [by eapply registry_elem|]. done.
Qed.

(** What holds at the end of a run of a checked program. *)
Lemma program_safe fuel source t input :
  safe (visit_AST_PROGRAM fuel p)
    (λ status σ, log_ok (cerr σ) ∧ (status = 0 ↔ cerr σ = []) ∧ (status = 0 ∨ status = 1))
    (new_interpreter source t input).
Proof using shape checked.
  destruct program_checked as (G & Ht & Hd & Hfs & Hb & (bn & Hcb) & Hss).
  destruct (declare_block_ok _ _ _ _ frame_ok_empty Ht Hd) as (g1 & g2 & E1 & E2 & Hg).
  unfold visit_AST_PROGRAM. apply wp_bind. unfold initializeDeclarations, initializeDeclarationsInto.
  apply wp_bind, wp_gets. simpl. rewrite E1, E2. apply wp_modify, wp_bind, wp_gets, wp_bind, wp_modify, wp_bind.
  set (σ := set_function_sources _ _). set (Fs := registry (functions p)).
  assert (inv G Fs [] [] σ) as Hi.
  { split; try done; try by constructor. apply stack_ok_nil. exists g2. auto. }
  destruct (accept_safe _ G Fs (program_functions G Hfs) fuel) as (_ & _ & Hbody).
  rewrite Hcb. eapply wp_mono; [by eapply Hbody|].
  intros [] σ1 (L' & _ & [Hi1 _ _ _ Hok]). apply wp_bind, wp_gets. change (id σ1) with σ1.
  assert (negb (runtime_failed σ1) && bool_decide (flow σ1 ≠ FlowNormal) = false) as ->.
  { destruct (runtime_failed σ1) eqn:Hf; [done|]. simpl. apply bool_decide_eq_false_2. intros Hne. apply Hne.
    destruct (Hok eq_refl) as (_ & Hfl & _). unfold flow_ok in Hfl. simpl in Hfl.
    by destruct (flow σ1). }
  apply wp_bind, wp_ret, wp_bind, wp_gets, wp_ret. split_and!; [apply Hi1| |].
  - pose proof (inv_failed _ _ _ _ _ Hi1) as Hf. destruct (runtime_failed σ1).
    + split; [done|]. intros He. by destruct (proj1 Hf eq_refl).
    + split; [|done]. intros _. destruct (cerr σ1); [done|].
      discriminate (proj2 Hf ltac:(done)).
  - destruct (runtime_failed σ1); auto.
Qed.
End Program.
