(* ===== verification/Termination.v ===== *)
(** Fuel and termination of the interpreter.

    The fuel of the model is only a bound: more fuel never changes a result
    ([extends]).  A program without counted and conditional loops always ends,
    because recursion is cut at [kMaxCallDepth] and backward jumps at
    [kMaxGotoTransfers]: [halts] says that some fuel is enough. *)
From S2P Require Import Prelude CxxInt CxxString CxxFloat Ast AiTypes Diagnostics Interpreter InterpreterFacts.
Open Scope string_scope.
Open Scope Z_scope.

(** * More fuel gives the same result *)

(** [m'] returns what [m] returns, wherever [m] has enough fuel. *)
Definition extends {A} (m m' : Interp A) : Prop := ∀ σ, m σ ≠ OutOfFuel → m' σ = m σ.

Lemma extends_refl {A} (m : Interp A) : extends m m.
Proof. done. Qed.

Lemma extends_out_of_fuel {A} (m : Interp A) : extends out_of_fuel m.
Proof. by intros σ []. Qed.

Lemma extends_bind {A B} (m m' : Interp A) (k k' : A → Interp B) :
  extends m m' → (∀ a, extends (k a) (k' a)) → extends (m ≫= k) (m' ≫= k').
Proof.
  unfold extends, mbind, SM_bind. intros Hm Hk σ. specialize (Hm σ). destruct (m σ) as [[a σ']| |]; intros Hne;
    rewrite ?Hm by done; [by apply Hk|done|done].
Qed.

Lemma extends_unless_failed k k' : extends k k' → extends (unless_failed k) (unless_failed k').
Proof. intros Hk. apply extends_bind; [apply extends_refl|]. intros []; [apply extends_refl|done]. Qed.

Create HintDb fuel discriminated.
#[export] Hint Constants Opaque : fuel.
#[export] Hint Resolve extends_refl : fuel.

(** Follows the structure of two methods that differ in their fuel. *)
Ltac ext :=
  repeat first
    [ progress cbv zeta
    | lazymatch goal with
      | |- extends (mbind _ _) (mbind _ _) => apply extends_bind; [|intros ?]
      | |- extends (unless_failed _) (unless_failed _) => apply extends_unless_failed
      | |- extends out_of_fuel _ => apply extends_out_of_fuel
      end
    | solve [eauto 3 with fuel nocore]
    | lazymatch goal with
      | |- extends (match ?x with _ => _ end) (match ?x with _ => _ end) => destruct x
      end ].

Section Extends.
Context `{AIRuntimeInterface}.
Context (ae ae' : AST_EXPRESSION_RULE → Interp unit) (as_ as' : AST_STATEMENT_RULE → Interp unit) (n n' : nat).
Hypothesis more_expressions : ∀ e, extends (ae e) (ae' e).
Hypothesis more_statements : ∀ s, extends (as_ s) (as' s).
Hypothesis more_fuel : (n ≤ n')%nat.

Lemma extends_evaluate e : extends (evaluate ae e) (evaluate ae' e).
Proof using more_expressions. unfold evaluate. ext. Qed.
#[local] Hint Resolve extends_evaluate more_statements more_expressions : fuel.

Lemma extends_arguments es : extends (evaluate_arguments ae es) (evaluate_arguments ae' es).
Proof using more_expressions. induction es as [|e es IH]; simpl; ext. Qed.
#[local] Hint Resolve extends_arguments : fuel.

Lemma extends_invoke c x vs r : extends (invokeFunction as_ c x vs r) (invokeFunction as' c x vs r).
Proof using more_statements. unfold invokeFunction. ext. Qed.
#[local] Hint Resolve extends_invoke : fuel.

Lemma extends_visit_expression e : extends (visit_expression ae as_ e) (visit_expression ae' as' e).
Proof using more_expressions more_statements.
  destruct e; simpl; unfold visit_AST_ARRAY_VARIABLE, visit_AST_UNARY_EXPRESSION_RULE,
    visit_AST_BINARY_EXPRESSION_RULE, visit_AST_FUNCTION_CALL_EXPRESSION; ext.
Qed.

Lemma extends_block_loop labels ss k : ∀ k' pc, (k ≤ k')%nat →
  extends (block_loop as_ k labels ss pc) (block_loop as' k' labels ss pc).
Proof using more_statements.
  induction k as [|k IH]; intros k' pc Hk; [apply extends_out_of_fuel|].
  destruct k' as [|k']; [by apply Nat.nle_succ_0 in Hk|]. apply le_S_n in Hk. specialize (λ pc, IH k' pc Hk). simpl. ext.
Qed.

Lemma extends_for_loop m v step to b k : ∀ k', (k ≤ k')%nat →
  extends (for_loop ae as_ k m v step to b) (for_loop ae' as' k' m v step to b).
Proof using more_expressions more_statements.
  induction k as [|k IH]; intros k' Hk; [apply extends_out_of_fuel|].
  destruct k' as [|k']; [by apply Nat.nle_succ_0 in Hk|]. apply le_S_n in Hk. specialize (IH k' Hk). simpl. unfold accept_block. ext.
Qed.

Lemma extends_while_loop c b k : ∀ k', (k ≤ k')%nat →
  extends (while_loop ae as_ k c b) (while_loop ae' as' k' c b).
Proof using more_expressions more_statements.
  induction k as [|k IH]; intros k' Hk; [apply extends_out_of_fuel|].
  destruct k' as [|k']; [by apply Nat.nle_succ_0 in Hk|]. apply le_S_n in Hk. specialize (IH k' Hk). simpl. unfold accept_block. ext.
Qed.

Lemma extends_read m vs : extends (visit_AST_READ_RULE ae m vs) (visit_AST_READ_RULE ae' m vs).
Proof using more_expressions. induction vs as [|v vs IH]; simpl; ext. Qed.

Lemma extends_print ps : ∀ first, extends (visit_AST_PRINT_RULE ae first ps) (visit_AST_PRINT_RULE ae' first ps).
Proof using more_expressions. induction ps as [|p ps IH]; intros first; simpl; ext. Qed.
#[local] Hint Resolve extends_block_loop extends_for_loop extends_while_loop extends_read extends_print : fuel.

Lemma extends_visit_statement s : extends (visit_statement ae as_ n s) (visit_statement ae' as' n' s).
Proof using more_expressions more_statements more_fuel.
  destruct s; simpl; unfold visit_AST_EXPRESSION_STATEMENT_RULE, visit_AST_FUNCTION_CALL_RULE,
    visit_AST_RETURN_STATEMENT, visit_AST_ASSIGNMENT_RULE, visit_AST_STATEMENTS_BLOCK, visit_AST_IF_STATEMENT,
    visit_AST_IF_ELSE_STATEMENT, visit_AST_FOR_LOOP_STATEMENT_RULE, visit_AST_GOTO_STATEMENT_RULE,
    visit_AST_GREENAI_REPORT_RULE, accept_block; ext.
Qed.
End Extends.

Section Fuel.
Context `{AIRuntimeInterface}.

Lemma accept_extends n : ∀ n', (n ≤ n')%nat →
  (∀ e, extends (accept_expression n e) (accept_expression n' e)) ∧
  (∀ s, extends (accept_statement n s) (accept_statement n' s)).
Proof.
  induction n as [|n IH]; intros n' Hn; [split; intros; apply extends_out_of_fuel|].
  destruct n' as [|n']; [lia|]. apply le_S_n in Hn. destruct (IH n' Hn) as [He Hs].
  split; intros; [by apply extends_visit_expression|by apply extends_visit_statement].
Qed.

Lemma program_extends n n' p :
  (n ≤ n')%nat → extends (visit_AST_PROGRAM n p) (visit_AST_PROGRAM n' p).
Proof.
  intros Hn. pose proof (proj2 (accept_extends n n' Hn)). unfold visit_AST_PROGRAM. ext.
Qed.
End Fuel.

(** * What every visit keeps *)

(** The call depth, the registry of functions, the current source and the
    number of frames are as before; the number of jumps can only grow. *)
Definition steady : relation Interpreter := λ σ σ',
  call_depth σ' = call_depth σ ∧ functions_ σ' = functions_ σ ∧ goto_transfers σ ≤ goto_transfers σ' ∧
  active_source σ' = active_source σ ∧ (frames σ ≠ [] → length (frames σ') = length (frames σ)).

Lemma same_length_nonempty {A} (l l' : list A) : length l' = length l → l ≠ [] → l' ≠ [].
Proof. by destruct l, l'. Qed.

#[export] Instance steady_preorder : PreOrder steady.
Proof.
  split; [by intros σ|]. intros σ1 σ2 σ3 (H1 & H2 & H3 & H4 & H5) (H6 & H7 & H8 & H9 & H10).
  split_and!; [congruence..|lia|congruence|]. intros Hne. rewrite H10, H5; [done..|].
  by eapply same_length_nonempty; [apply H5|].
Qed.

Definition Keeps {A} (m : Interp A) : Prop := ∀ σ a σ', m σ = Done (a, σ') → steady σ σ'.

Lemma keeps_ret {A} (a : A) : Keeps (mret a).
Proof. intros σ b σ' [= _ <-]. reflexivity. Qed.

Lemma keeps_gets {A} (f : Interpreter → A) : Keeps (gets f).
Proof. intros σ b σ' [= _ <-]. reflexivity. Qed.

Lemma keeps_modify f : (∀ σ, steady σ (f σ)) → Keeps (modify f).
Proof. intros Hf σ b σ' [= _ <-]. apply Hf. Qed.

Lemma keeps_undefined {A} r : Keeps (undefined (A := A) r).
Proof. by intros σ b σ'. Qed.

Lemma keeps_out_of_fuel {A} : Keeps (out_of_fuel (A := A)).
Proof. by intros σ b σ'. Qed.

Lemma keeps_bind {A B} (m : Interp A) (k : A → Interp B) : Keeps m → (∀ a, Keeps (k a)) → Keeps (m ≫= k).
Proof.
  unfold Keeps, mbind, SM_bind. intros Hm Hk σ b σ'. destruct (m σ) as [[a σ1]| |] eqn:E; [|done..].
  intros Hb. etransitivity; [by eapply Hm|by eapply Hk].
Qed.

Lemma bind_gets {A B} (f : Interpreter → A) (k : A → Interp B) σ : (gets f ≫= k) σ = k (f σ) σ.
Proof. done. Qed.

Lemma keeps_runtimeError n c t : Keeps (runtimeError n c t).
Proof. by apply keeps_modify. Qed.

Lemma keeps_print_items l : Keeps (print_items l).
Proof. by apply keeps_modify. Qed.

Lemma keeps_set_value v : Keeps (set_value v).
Proof. by apply keeps_modify. Qed.

Create HintDb keeps discriminated.
#[export] Hint Constants Opaque : keeps.
#[export] Hint Resolve keeps_ret keeps_gets keeps_undefined keeps_out_of_fuel keeps_runtimeError keeps_print_items
  keeps_set_value : keeps.

Ltac keeps :=
  repeat first
    [ progress cbv zeta
    | lazymatch goal with
      | |- Keeps (mbind _ _) => apply keeps_bind; [|intros ?]
      | |- Keeps (modify _) => apply keeps_modify; intros ?; by split_and!
      | |- Keeps (match _ with _ => _ end) => case_match
      | |- Keeps (unless_failed _) => unfold unless_failed
      end
    | solve [eauto 3 with keeps nocore] ].

Lemma keeps_declarations d : Keeps (initializeDeclarations d).
Proof.
  unfold initializeDeclarations. apply keeps_bind; [keeps|intros fs]. generalize (default empty_frame (head fs)).
  intros f. unfold initializeDeclarationsInto.
  assert (∀ f, Keeps (modify (write_top f))) as Hw.
  { intros f'. apply keeps_modify. intros σ. split_and!; try done. simpl. by destruct (frames σ). }
  repeat case_match; repeat (apply keeps_bind; [|intros ?]); first [apply Hw|keeps].
Qed.

Lemma keeps_store b v : Keeps (store b v).
Proof.
  unfold store. intros σ a σ'. rewrite bind_gets. unfold id.
  destruct (if b then _ else _) as [fs|] eqn:Hw; [|by intros [= _ <-]].
  intros [= _ <-]. split_and!; try done. intros _. simpl.
  destruct b; [by eapply writeArray_length|by eapply writeScalar_length].
Qed.

Lemma keeps_binary_int n op x y : Keeps (binary_int n op x y).
Proof. unfold binary_int. keeps. Qed.

Lemma keeps_binary_float n op x y : Keeps (binary_float n op x y).
Proof. unfold binary_float. keeps. Qed.

Lemma keeps_extract v : Keeps (extract v).
Proof. unfold extract. keeps. Qed.

Lemma keeps_after_body : Keeps after_body.
Proof. unfold after_body. keeps. Qed.

Lemma keeps_store_loop_variable n v z : Keeps (store_loop_variable n v z).
Proof. pose proof keeps_store. unfold store_loop_variable. keeps. Qed.
#[export] Hint Resolve keeps_declarations keeps_store keeps_binary_int keeps_binary_float keeps_extract
  keeps_after_body keeps_store_loop_variable : keeps.

(** The jump of a block counts itself. *)
Lemma keeps_jump σ (k : Interp unit) : Keeps k → ∀ b σ',
  (modify (set_goto_transfers (goto_transfers σ + 1));; k) σ = Done (b, σ') → steady σ σ'.
Proof.
  intros Hk b σ' Hr. apply Hk in Hr as (H1 & H2 & H3 & H4 & H5). simpl in *. split_and!; [done..|lia|done|done].
Qed.

Lemma leave_function_fields caller σ :
  call_depth (leave_function caller σ) = call_depth σ - 1 ∧
  functions_ (leave_function caller σ) = functions_ σ ∧
  goto_transfers (leave_function caller σ) = goto_transfers σ ∧
  active_source (leave_function caller σ) = active_source caller ∧
  frames (leave_function caller σ) = tail (frames σ).
Proof. split_and!; reflexivity. Qed.

Lemma enter_function_fields f frame σ :
  call_depth (enter_function f frame σ) = call_depth σ + 1 ∧
  functions_ (enter_function f frame σ) = functions_ σ ∧
  goto_transfers (enter_function f frame σ) = goto_transfers σ ∧
  frames (enter_function f frame σ) = frame :: frames σ.
Proof. unfold enter_function. destruct (_ !! fn_node f); split_and!; reflexivity. Qed.

Lemma leave_function_steady f frame caller σ :
  steady (enter_function f frame caller) σ → steady caller (leave_function caller σ).
Proof.
  intros (H1 & H2 & H3 & _ & H5). destruct (enter_function_fields f frame caller) as (E1 & E2 & E3 & E4).
  destruct (leave_function_fields caller σ) as (F1 & F2 & F3 & F4 & F5).
  split_and!; [lia|congruence|lia|done|]. intros _. rewrite F5. rewrite E4 in H5. specialize (H5 ltac:(done)).
  destruct (frames σ); simpl in *; lia.
Qed.

(** The body of a function, between the entry and the return. *)
Definition run_body (as_ : AST_STATEMENT_RULE → Interp unit) (f : AST_FUNCTION_RULE) (name : string) : Interp FlowSignal :=
  as_ (AST_BLOCK_STATEMENT (block_statement f));;
  fl ← gets flow;
  (match fl with
   | FlowBreak | FlowContinue | FlowGoto =>
       runtimeError (fn_node f) Codes.RuntimeInvalidState
         ("control-flow signal escaped function `" +:+ name +:+ "`")
   | _ => mret tt
   end);;
  failed ← gets runtime_failed;
  (if negb failed && bool_decide (fn_type f ≠ TVoid) && bool_decide (fl ≠ FlowReturn) then
     runtimeError (fn_node f) Codes.RuntimeInvalidState
       ("non-void function completed without a return value: `" +:+ name +:+ "`")
   else mret tt);;
  mret fl.

(** A call of a registered function with the right arguments. *)
Definition call_body (as_ : AST_STATEMENT_RULE → Interp unit) (f : AST_FUNCTION_RULE) (name : string) (locals : gmap string RuntimeValue)
    (caller : Interpreter) : Interp (Z * RuntimeValue) :=
  modify (enter_function f {| scalars := locals; arrays := ∅ |});;
  fl ← run_body as_ f name;
  return_to_caller f fl caller.

(** A guard that refuses the call. *)
Ltac by_guard :=
  left; do 2 eexists; intros ?; rewrite bind_gets; unfold id;
  repeat match goal with H : ?x = _ |- context [?x] => rewrite H end; reflexivity.

(** [invokeFunction] either reports an error or runs the body. *)
Lemma invoke_cases c name vs r σ :
  (∃ code message, ∀ as_, invokeFunction as_ c name vs r σ = (runtimeError c code message;; mret (1, r)) σ) ∨
  (∃ f locals, functions_ σ !! name = Some f ∧ call_depth σ < kMaxCallDepth ∧
     ∀ as_, invokeFunction as_ c name vs r σ = call_body as_ f name locals σ σ).
Proof.
  unfold invokeFunction.
  destruct (functions_ σ !! name) as [f|] eqn:Hf; [|by_guard].
  destruct (negb (bool_decide (array_ints (parameters f) = []))) eqn:H1; [by_guard|].
  destruct (negb (bool_decide (length (single_ints (parameters f)) = length vs))) eqn:H2; [by_guard|].
  destruct (kMaxCallDepth <=? call_depth σ) eqn:H3; [by_guard|].
  destruct (bind_parameters (typed_scalars (parameters f)) vs ∅) as [locals|] eqn:H4; [|by_guard].
  right. exists f, locals. split_and!; [done|by apply Z.leb_gt|]. intros as_.
  rewrite bind_gets. unfold id. rewrite Hf, H1, H2, H3, H4.
  unfold call_body, run_body, mbind, SM_bind. simpl. destruct (as_ _ _) as [[[] σ1]| |]; [|done..].
  destruct (flow σ1); simpl; try done;
    match goal with |- context [(if ?b then ?x else ?y) σ1] => by destruct ((if b then x else y) σ1) as [[]| |] end.
Qed.

Section Keeps.
Context `{AIRuntimeInterface}.
Context (ae : AST_EXPRESSION_RULE → Interp unit) (as_ : AST_STATEMENT_RULE → Interp unit) (n : nat).
Hypothesis keeps_expressions : ∀ e, Keeps (ae e).
Hypothesis keeps_statements : ∀ s, Keeps (as_ s).
#[local] Hint Resolve keeps_expressions keeps_statements : keeps.

Lemma keeps_evaluate e : Keeps (evaluate ae e).
Proof using keeps_expressions. unfold evaluate. keeps. Qed.
#[local] Hint Resolve keeps_evaluate : keeps.

Lemma keeps_arguments es : Keeps (evaluate_arguments ae es).
Proof using keeps_expressions. induction es as [|e es IH]; simpl; keeps. Qed.
#[local] Hint Resolve keeps_arguments : keeps.

Lemma keeps_run_body f name : Keeps (run_body as_ f name).
Proof using keeps_statements. unfold run_body. keeps. Qed.

Lemma keeps_call_body f name locals σ r σ' : call_body as_ f name locals σ σ = Done (r, σ') → steady σ σ'.
Proof using keeps_statements.
  unfold call_body, mbind, SM_bind. simpl. destruct (run_body as_ f name _) as [[fl σ1]| |] eqn:E; [|done..].
  apply keeps_run_body in E. unfold return_to_caller, mbind, SM_bind. simpl. intros [= _ <-].
  by eapply leave_function_steady.
Qed.

Lemma keeps_invoke c name vs r : Keeps (invokeFunction as_ c name vs r).
Proof using keeps_statements.
  intros σ a σ'. destruct (invoke_cases c name vs r σ) as [(code & message & ->)|(f & locals & _ & _ & ->)].
  - revert σ a σ'. change (Keeps (runtimeError c code message;; mret (1, r))). keeps.
  - apply keeps_call_body.
Qed.
#[local] Hint Resolve keeps_invoke : keeps.

Lemma keeps_visit_expression e : Keeps (visit_expression ae as_ e).
Proof using keeps_expressions keeps_statements.
  destruct e; simpl; unfold visit_AST_SIMPLE_VARIABLE, visit_AST_ARRAY_VARIABLE, visit_AST_UNARY_EXPRESSION_RULE,
    visit_AST_BINARY_EXPRESSION_RULE, visit_AST_FUNCTION_CALL_EXPRESSION; keeps.
Qed.

Lemma keeps_block_loop labels ss k : ∀ pc, Keeps (block_loop as_ k labels ss pc).
Proof using keeps_statements.
  induction k as [|k IH]; intros pc; simpl; [keeps|].
  apply keeps_bind; [keeps|intros s]. destruct (ss !! pc); [|keeps]. destruct (runtime_failed s); [keeps|].
  destruct (negb _); [keeps|]. apply keeps_bind; [keeps|intros _].
  apply keeps_bind; [keeps|intros []]; [keeps|]. intros σ b σ'. change ((gets id ≫= ?k) σ) with (k σ σ). cbv beta.
  destruct (flow σ); try by intros [= _ <-].
  - apply IH.
  - destruct (labels !! goto_target σ); [|by apply keeps_runtimeError]. apply keeps_jump. keeps.
Qed.

Lemma keeps_for_loop m v step to b k : Keeps (for_loop ae as_ k m v step to b).
Proof using keeps_expressions keeps_statements. induction k as [|k IH]; simpl; unfold accept_block; keeps. Qed.

Lemma keeps_while_loop c b k : Keeps (while_loop ae as_ k c b).
Proof using keeps_expressions keeps_statements. induction k as [|k IH]; simpl; unfold accept_block; keeps. Qed.

Lemma keeps_read m vs : Keeps (visit_AST_READ_RULE ae m vs).
Proof using keeps_expressions. induction vs as [|v vs IH]; simpl; keeps. Qed.

Lemma keeps_print ps : ∀ first, Keeps (visit_AST_PRINT_RULE ae first ps).
Proof using keeps_expressions. induction ps as [|p ps IH]; intros first; simpl; keeps. Qed.
#[local] Hint Resolve keeps_block_loop keeps_for_loop keeps_while_loop keeps_read keeps_print : keeps.

(** A block takes back the frame it pushes. *)
Lemma keeps_block b : Keeps (visit_AST_STATEMENTS_BLOCK as_ n b).
Proof using keeps_statements.
  unfold visit_AST_STATEMENTS_BLOCK. destruct (lexical_scope b).
  2:{ pose proof (keeps_block_loop (collect_labels 0 (statements b) ∅) (statements b) n 0). keeps. }
  intros σ a σ'. unfold push_frame, pop_frame. unfold mbind at 1, SM_bind at 1. simpl.
  unfold mbind, SM_bind. destruct (block_loop as_ n _ _ 0 _) as [[[] σ1]| |] eqn:E; [|done..].
  intros [= _ <-]. apply keeps_block_loop in E as (H1 & H2 & H3 & H4 & H5). simpl in *.
  split_and!; try done. intros _. simpl. specialize (H5 ltac:(done)). destruct (frames σ1); simpl in *; lia.
Qed.
#[local] Hint Resolve keeps_block : keeps.

Lemma keeps_visit_statement s : Keeps (visit_statement ae as_ n s).
Proof using keeps_expressions keeps_statements.
  destruct s; simpl; unfold visit_AST_EXPRESSION_STATEMENT_RULE, visit_AST_FUNCTION_CALL_RULE,
    visit_AST_RETURN_STATEMENT, visit_AST_ASSIGNMENT_RULE, visit_AST_IF_STATEMENT,
    visit_AST_IF_ELSE_STATEMENT, visit_AST_FOR_LOOP_STATEMENT_RULE, visit_AST_GOTO_STATEMENT_RULE,
    visit_AST_GREENAI_REPORT_RULE, int_quotient, visit_AST_AI_INFER_RULE, visit_AST_MODEL_DECLARATION,
    visit_AST_TENSOR_DECLARATION, visit_AST_GREENAI_CONTRACT, visit_AST_GREENAI_MEASUREMENT,
    visit_AST_INFER_STATEMENT, accept_block; keeps.
Qed.
End Keeps.

Lemma accept_keeps `{AIRuntimeInterface} n :
  (∀ e, Keeps (accept_expression n e)) ∧ (∀ s, Keeps (accept_statement n s)).
Proof.
  induction n as [|n [He Hs]]; [split; intros; apply keeps_out_of_fuel|].
  split; intros; [by apply keeps_visit_expression|by apply keeps_visit_statement].
Qed.

(** * Programs without loops end *)

Fixpoint statement_loop_free (s : AST_STATEMENT_RULE) : bool :=
  match s with
  | AST_FOR_LOOP_STATEMENT_RULE _ _ _ _ _ _ | AST_WHILE_LOOP_STATEMENT_RULE _ _ _ => false
  | AST_BLOCK_STATEMENT b => block_loop_free b
  | AST_IF_STATEMENT _ _ b => block_loop_free b
  | AST_IF_ELSE_STATEMENT _ _ b1 b2 => block_loop_free b1 && block_loop_free b2
  | _ => true
  end
with block_loop_free (b : AST_STATEMENTS_BLOCK) : bool :=
  match b with Block _ _ ss => forallb statement_loop_free ss end.

Definition program_loop_free (p : AST_PROGRAM) : bool :=
  forallb (λ f, block_loop_free (block_statement f)) (functions p) && block_loop_free (code_block p).

(** From some fuel on, [m] returns one and the same result from [σ]. *)
Definition halts {A} (m : nat → Interp A) (σ : Interpreter) : Prop :=
  ∃ N r, r ≠ OutOfFuel ∧ ∀ n, (N ≤ n)%nat → m n σ = r.

(** Computations that use no fuel. *)
Definition Total {A} (m : Interp A) : Prop := ∀ σ, m σ ≠ OutOfFuel.

Lemma halts_total {A} (m : Interp A) σ : m σ ≠ OutOfFuel → halts (λ _, m) σ.
Proof. intros Hm. by exists 0%nat, (m σ). Qed.

Lemma halts_bind {A B} (m : nat → Interp A) (k : nat → A → Interp B) σ :
  halts m σ → (∀ n a σ', m n σ = Done (a, σ') → halts (λ n, k n a) σ') →
  halts (λ n, m n ≫= k n) σ.
Proof.
  intros (N & r & Hr & Hm) Hk. unfold mbind, SM_bind.
  destruct r as [[a σ']|e|]; [|by exists N, (Undefined e); split; [|intros n Hn; rewrite Hm]|done].
  destruct (Hk N a σ') as (N' & r' & Hr' & Hk'); [by apply Hm|].
  exists (N `max` N')%nat, r'. split; [done|]. intros n Hn. rewrite Hm by lia. apply Hk'. lia.
Qed.

(** A visit that starts one level down. *)
Lemma halts_succ {A} (m : nat → Interp A) σ :
  halts (λ n, m (S n)) σ → halts m σ.
Proof.
  intros (N & r & Hr & Hm). exists (S N), r. split; [done|]. intros [|n] Hn; [lia|]. apply Hm. lia.
Qed.

(** At most [d] more calls can be active, and no function has a loop. *)
Definition bounded (d : nat) (σ : Interpreter) : Prop :=
  kMaxCallDepth - call_depth σ ≤ Z.of_nat d ∧
  ∀ x f, functions_ σ !! x = Some f → block_loop_free (block_statement f) = true.

Lemma bounded_steady d σ σ' : steady σ σ' → bounded d σ → bounded d σ'.
Proof. intros (H1 & H2 & _) [H3 H4]. split; by rewrite ?H1, ?H2. Qed.

Definition runs (d : nat) {A} (m : nat → Interp A) : Prop := ∀ σ, bounded d σ → halts m σ.

Lemma runs_succ d {A} (m : nat → Interp A) : runs d (λ n, m (S n)) → runs d m.
Proof. intros Hm σ Hb. by apply halts_succ, Hm. Qed.

Lemma runs_total d {A} (m : Interp A) : Total m → runs d (λ _, m).
Proof. intros Hm σ _. by apply halts_total. Qed.

Lemma runs_bind d {A B} (m : nat → Interp A) (k : nat → A → Interp B) :
  runs d m → (∀ n, Keeps (m n)) → (∀ a, runs d (λ n, k n a)) → runs d (λ n, m n ≫= k n).
Proof.
  intros Hm Hkeep Hk σ Hb. apply halts_bind; [by apply Hm|]. intros n a σ' Hr. apply Hk.
  eapply bounded_steady; [by eapply Hkeep|done].
Qed.

Lemma total_ret {A} (a : A) : Total (mret a).
Proof. done. Qed.
Lemma total_gets {A} (f : Interpreter → A) : Total (gets f).
Proof. done. Qed.
Lemma total_modify f : Total (modify f).
Proof. done. Qed.
Lemma total_undefined {A} r : Total (undefined (A := A) r).
Proof. done. Qed.
Lemma total_bind {A B} (m : Interp A) (k : A → Interp B) : Total m → (∀ a, Total (k a)) → Total (m ≫= k).
Proof.
  unfold Total, mbind, SM_bind. intros Hm Hk σ. specialize (Hm σ). destruct (m σ) as [[a σ']| |]; [apply Hk|done..].
Qed.

Ltac total :=
  repeat first
    [ progress cbv zeta
    | lazymatch goal with
      | |- Total (mbind _ _) => apply total_bind; [|intros ?]
      | |- Total (match _ with _ => _ end) => case_match
      end
    | first [apply total_ret | apply total_gets | apply total_modify | apply total_undefined] ].

Create HintDb runs discriminated.
#[export] Hint Constants Opaque : runs.

(** Follows a method whose calls all end. *)
Ltac runs :=
  repeat first
    [ progress cbv zeta
    | solve [eauto 3 with runs nocore]
    | lazymatch goal with
      | |- runs _ (λ _, mbind _ _) => apply runs_bind; [|intros; solve [keeps]|intros ?]
      | |- runs _ (λ _, unless_failed _) => unfold unless_failed
      | |- runs _ (λ _, match ?x with _ => _ end) => destruct x
      end
    | solve [apply runs_total; total] ].

Lemma total_declarations d : Total (initializeDeclarations d).
Proof. unfold initializeDeclarations, initializeDeclarationsInto, runtimeError. total. Qed.

Lemma runs_declarations d decl : runs d (λ _, initializeDeclarations decl).
Proof. apply runs_total, total_declarations. Qed.

Lemma runs_store d b v : runs d (λ _, store b v).
Proof. apply runs_total. unfold store. total. Qed.

Lemma runs_extract d v : runs d (λ _, extract v).
Proof. apply runs_total. unfold extract. total. Qed.
#[export] Hint Resolve runs_declarations runs_store runs_extract : runs.

Section Halting.
Context `{AIRuntimeInterface}.

Abbreviation expression_runs d e := (runs d (λ n, accept_expression n e)).
Abbreviation statement_runs d s := (runs d (λ n, accept_statement n s)).

Lemma keeps_accept_expression n e : Keeps (accept_expression n e).
Proof. apply accept_keeps. Qed.
Lemma keeps_accept_statement n s : Keeps (accept_statement n s).
Proof. apply accept_keeps. Qed.
Lemma keeps_accept_evaluate n e : Keeps (evaluate (accept_expression n) e).
Proof. apply keeps_evaluate, accept_keeps. Qed.
Lemma keeps_accept_arguments n es : Keeps (evaluate_arguments (accept_expression n) es).
Proof. apply keeps_arguments, accept_keeps. Qed.
Lemma keeps_accept_invoke n c x vs r : Keeps (invokeFunction (accept_statement n) c x vs r).
Proof. apply keeps_invoke, accept_keeps. Qed.
Lemma keeps_accept_loop n k labels ss pc : Keeps (block_loop (accept_statement n) k labels ss pc).
Proof. apply keeps_block_loop, accept_keeps. Qed.
#[local] Hint Resolve keeps_accept_expression keeps_accept_statement keeps_accept_evaluate keeps_accept_arguments
  keeps_accept_invoke keeps_accept_loop : keeps.

Section Depth.
Context (d : nat).
(** Calls end: their bodies run one level deeper. *)
Hypothesis bodies : ∀ d', (d' < d)%nat → ∀ b, block_loop_free b = true → statement_runs d' (AST_BLOCK_STATEMENT b).

Lemma runs_call_body f name locals σ :
  block_loop_free (block_statement f) = true → bounded d σ → call_depth σ < kMaxCallDepth →
  halts (λ n, call_body (accept_statement n) f name locals σ) σ.
Proof using bodies.
  intros Hf [Hd Hfs] Hlt. assert (runs (d - 1) (λ n, run_body (accept_statement n) f name)) as Hbody.
  { assert (statement_runs (d - 1) (AST_BLOCK_STATEMENT (block_statement f))) as Hb.
    { apply bodies; [|done]. destruct d; [|lia]. exfalso. lia. }
    unfold run_body. runs. }
  unfold call_body. apply halts_bind; [by apply halts_total|]. intros _ [] σ1 [= <-].
  apply halts_bind; [apply Hbody|].
  - destruct (enter_function_fields f {| scalars := locals; arrays := ∅ |} σ) as (E1 & E2 & _ & _).
    split; rewrite ?E1, ?E2; [lia|done].
  - intros n fl σ2 _. by apply halts_total.
Qed.

Lemma runs_invoke c name vs r : runs d (λ n, invokeFunction (accept_statement n) c name vs r).
Proof using bodies.
  intros σ Hb. destruct (invoke_cases c name vs r σ) as [(code & message & Hr)|(f & locals & Hf & Hlt & Hr)].
  - exists 0%nat. eexists. split; [|intros n _; apply Hr]. done.
  - destruct (runs_call_body f name locals σ) as (N & res & Hres & Hn); [by eapply (proj2 Hb)|done..|].
    exists N, res. split; [done|]. intros n Hle. rewrite Hr. by apply Hn.
Qed.
#[local] Hint Resolve runs_invoke : runs.

Lemma runs_evaluate e : expression_runs d e → runs d (λ n, evaluate (accept_expression n) e).
Proof using. intros He. unfold evaluate. runs. Qed.
#[local] Hint Resolve runs_evaluate : runs.

Lemma runs_arguments es :
  Forall (λ e, expression_runs d e) es → runs d (λ n, evaluate_arguments (accept_expression n) es).
Proof using. induction 1 as [|e es He Hes IH]; simpl; runs. Qed.
#[local] Hint Resolve runs_arguments : runs.

Lemma runs_expression e : expression_runs d e.
Proof using bodies.
  induction e using expression_induction; apply runs_succ; simpl;
    unfold visit_AST_SIMPLE_VARIABLE, visit_AST_ARRAY_VARIABLE, visit_AST_UNARY_EXPRESSION_RULE,
      visit_AST_BINARY_EXPRESSION_RULE, visit_AST_FUNCTION_CALL_EXPRESSION, set_value, runtimeError, binary_float,
      binary_int, set_value, runtimeError; runs.
Qed.
#[local] Hint Resolve runs_expression : runs.

Lemma halts_later {A} (m : nat → Interp A) g σ : (∀ n, n ≤ g n)%nat → halts m σ → halts (λ n, m (g n)) σ.
Proof using.
  intros Hg (N & r & Hr & Hm). exists N, r. split; [done|]. intros n Hn. apply Hm. specialize (Hg n). lia.
Qed.

Lemma halts_gets {A B} (f : Interpreter → A) (k : nat → A → Interp B) σ :
  halts (λ n, k n (f σ)) σ → halts (λ n, gets f ≫= k n) σ.
Proof using. intros Hk. apply halts_bind; [by apply halts_total|]. by intros _ a σ' [= <- <-]. Qed.

Lemma halts_modify {B} f (k : nat → unit → Interp B) σ :
  halts (λ n, k n tt) (f σ) → halts (λ n, modify f ≫= k n) σ.
Proof using. intros Hk. apply halts_bind; [by apply halts_total|]. by intros _ a σ' [= <- <-]. Qed.

(** A block ends after at most [j] more jumps, with at most [m] statements
    left before the next one. *)
Lemma halts_block_loop labels ss (j : nat) : Forall (λ s, statement_runs d s) ss →
  ∀ m pc g σ, bounded d σ → kMaxGotoTransfers - goto_transfers σ ≤ Z.of_nat j → (length ss ≤ pc + m)%nat →
  (∀ n, n ≤ g n)%nat → halts (λ n, block_loop (accept_statement (g n)) n labels ss pc) σ.
Proof using.
  intros Hss. induction j as [j IHj] using lt_wf_ind. intros m.
  induction m as [|m IHm]; intros pc g σ Hb Hj Hm Hg; apply halts_succ; simpl; apply halts_gets.
  { rewrite lookup_ge_None_2 by lia. by apply halts_total. }
  destruct (ss !! pc) as [s|] eqn:Hs; [|by apply halts_total].
  destruct (runtime_failed (id σ)); [by apply halts_total|].
  destruct (negb _); [by apply halts_total|].
  assert (∀ n, n ≤ g (S n))%nat as Hg' by (intros n; specialize (Hg (S n)); lia).
  apply halts_bind.
  { apply (halts_later (λ n, accept_statement n s) (λ n, g (S n))); [done|].
    rewrite Forall_lookup in Hss. by eapply Hss. }
  intros n [] σ1 Hr%keeps_accept_statement. pose proof (bounded_steady d σ σ1 Hr Hb) as Hb1.
  destruct Hr as (_ & _ & Hgt & _). apply halts_gets. destruct (runtime_failed σ1); [by apply halts_total|].
  apply halts_gets. unfold id. destruct (flow σ1); try by apply halts_total.
  - apply (IHm (S pc) (λ n, g (S n))); [done|lia|lia|done].
  - destruct (labels !! goto_target σ1) as [target|]; [|by apply halts_total]. apply halts_modify.
    destruct (kMaxGotoTransfers <? goto_transfers σ1 + 1) eqn:Hmax; [by apply halts_total|].
    apply Z.ltb_ge in Hmax. do 2 apply halts_modify.
    apply (IHj (j - 1)%nat ltac:(lia) (length ss) (S target) (λ n, g (S n))); simpl; [done|lia|lia|done].
Qed.

Lemma runs_block_loop labels ss :
  Forall (λ s, statement_runs d s) ss → runs d (λ n, block_loop (accept_statement n) n labels ss 0).
Proof using.
  intros Hss σ Hb. apply (halts_block_loop labels ss (Z.to_nat (kMaxGotoTransfers - goto_transfers σ)) Hss
                            (length ss) 0 (λ n, n)); [done|lia|lia|done].
Qed.
#[local] Hint Resolve runs_block_loop : runs.

Lemma runs_read m vs : runs d (λ n, visit_AST_READ_RULE (accept_expression n) m vs).
Proof using bodies. induction vs as [|v vs IH]; simpl; unfold runtimeError; runs. Qed.

Lemma runs_print ps : ∀ first, runs d (λ n, visit_AST_PRINT_RULE (accept_expression n) first ps).
Proof using bodies. induction ps as [|p ps IH]; intros first; simpl; unfold print_items; runs. Qed.

Lemma runs_all_arguments es : runs d (λ n, evaluate_arguments (accept_expression n) es).
Proof using bodies. apply runs_arguments, Forall_true, runs_expression. Qed.
#[local] Hint Resolve runs_read runs_print runs_all_arguments : runs.

Lemma runs_statements :
  (∀ s, statement_loop_free s = true → statement_runs d s) ∧
  (∀ b, block_loop_free b = true → statement_runs d (AST_BLOCK_STATEMENT b)).
Proof using bodies.
  apply statement_block_induction.
  - intros s Hat _. apply runs_succ.
    destruct s; try done; simpl;
      unfold visit_AST_EXPRESSION_STATEMENT_RULE, visit_AST_FUNCTION_CALL_RULE,
      visit_AST_RETURN_STATEMENT, visit_AST_ASSIGNMENT_RULE, visit_AST_GOTO_STATEMENT_RULE,
      visit_AST_GREENAI_REPORT_RULE, int_quotient, visit_AST_AI_INFER_RULE, visit_AST_MODEL_DECLARATION,
      visit_AST_TENSOR_DECLARATION, visit_AST_GREENAI_CONTRACT, visit_AST_GREENAI_MEASUREMENT,
      visit_AST_INFER_STATEMENT, runtimeError, print_items; runs.
  - intros b Hb Hf. by apply Hb.
  - intros n c b Hbl Hf. specialize (Hbl Hf). apply runs_succ.
    simpl. unfold visit_AST_IF_STATEMENT, accept_block. runs.
  - intros n c b1 b2 Hb1 Hb2 [Hf1 Hf2]%andb_true_iff. specialize (Hb1 Hf1). specialize (Hb2 Hf2).
    apply runs_succ.
    simpl. unfold visit_AST_IF_ELSE_STATEMENT, accept_block. runs.
  - done.
  - done.
  - intros n l ss Hss Hf. apply runs_succ.
    simpl in *. assert (Forall (λ s, statement_runs d s) ss) as Hall.
    { apply Forall_forall. intros s Hs. rewrite Forall_forall in Hss. apply Hss; [done|].
      rewrite forallb_forall in Hf. by apply Hf, list_elem_of_In. }
    pose proof (runs_block_loop (collect_labels 0 ss ∅) ss Hall) as Hloop.
    unfold visit_AST_STATEMENTS_BLOCK, push_frame, pop_frame. simpl. destruct l; [|runs].
    intros σ Hb. apply halts_modify, halts_bind; [by apply Hloop|]. intros. by apply halts_total.
Qed.
End Depth.

Lemma bodies_run d : ∀ b, block_loop_free b = true → statement_runs d (AST_BLOCK_STATEMENT b).
Proof. induction d as [d IH] using lt_wf_ind. by apply runs_statements. Qed.

Lemma program_halts p source t input :
  program_loop_free p = true → halts (λ n, visit_AST_PROGRAM n p) (new_interpreter source t input).
Proof.
  intros [Hfs Hb]%andb_true_iff. unfold visit_AST_PROGRAM. apply halts_bind.
  { apply halts_total, total_declarations. }
  intros _ [] σ1 (Hd & Hf & _)%keeps_declarations. apply halts_gets, halts_modify.
  set (σ2 := set_function_sources _ _). assert (bounded (Z.to_nat kMaxCallDepth) σ2) as Hb2.
  { split; simpl in *; [rewrite Hd; simpl; unfold kMaxCallDepth; lia|]. rewrite Hf. simpl. intros x f Hx.
    apply registry_elem in Hx. rewrite forallb_forall in Hfs. by apply Hfs, list_elem_of_In. }
  apply halts_bind; [by eapply bodies_run|]. intros _ [] σ3 _. apply halts_gets.
  apply halts_total. unfold runtimeError. by destruct (_ && _).
Qed.
End Halting.
