(* ===== verification/Soundness.v ===== *)
(** The main theorems about executable programs: what semantic analysis
    guarantees about a run of the interpreter, and the programs that show where
    the guarantee stops. *)
From S2P Require Import Prelude CxxInt CxxString CxxFloat TypeSystem Ast AiTypes Diagnostics.
From S2P Require Import AnalyzerState C3EcoSemantics SemanticAnalyzer Checker AnalyzerProgram AnalyzerComplete Interpreter TypeSafety Termination.
Open Scope string_scope.
Open Scope Z_scope.

(** * Sample programs *)

(** A runtime without any backend, as a build without the optional libraries. *)
Definition no_backend : AIRuntimeInterface := {|
  air_infer _ _ := no_inference;
  air_load_and_run _ _ _ := inl "no_backend";
|}.

Definition ints (n : N) (xs : list string) : AST_DATA_DECLARATION_BLOCK :=
  setType TInt (fold_right push_back_scalar (empty_decl_block n) xs).

Definition int_array (n : N) (x : string) (k : Z) : AST_DATA_DECLARATION_BLOCK :=
  setType TInt (push_back_array x k (empty_decl_block n)).

Definition lit (z : Z) : AST_EXPRESSION_RULE := AST_LITERAL 1 z.
Definition var (x : string) : AST_EXPRESSION_RULE := AST_SIMPLE_VARIABLE 2 x.
Definition bin (l : AST_EXPRESSION_RULE) (op : binary_op) (r : AST_EXPRESSION_RULE) : AST_EXPRESSION_RULE :=
  AST_BINARY_EXPRESSION_RULE 3 l r op.
Definition call (f : string) (args : list AST_EXPRESSION_RULE) : AST_EXPRESSION_RULE :=
  AST_FUNCTION_CALL_EXPRESSION 4 f args.

(** The factorial, by recursion. *)
Definition factorial : AST_FUNCTION_RULE :=
  {| fn_node := 10; function_name := "fact"; fn_type := TInt; parameters := ints 11 ["k"];
     block_statement := Block 12 false
       [AST_IF_ELSE_STATEMENT 13 (bin (var "k") LESS (lit 2))
          (Block 14 true [AST_RETURN_STATEMENT 15 (Some (lit 1))])
          (Block 16 true [AST_RETURN_STATEMENT 17 (Some (bin (var "k") MULTIPLY (call "fact" [bin (var "k") MINUS (lit 1)])))])] |}.

(** [v[2] = fact(5)], then counting [n] down to 3 with jumps, then [print v[2], n]. *)
Definition sample_program : AST_PROGRAM :=
  {| prog_node := 20; decl_block := push_back_block (int_array 22 "v" 4) (ints 21 ["n"]);
     functions := [factorial];
     code_block := Block 23 false
       [AST_ASSIGNMENT_RULE 24 (V_ARRAY 25 "v" (lit 2)) (call "fact" [lit 5]);
        AST_ASSIGNMENT_RULE 26 (V_SIMPLE 27 "n") (lit 7);
        AST_LABEL_RULE 28 "again";
        AST_ASSIGNMENT_RULE 29 (V_SIMPLE 30 "n") (bin (var "n") MINUS (lit 1));
        AST_GOTO_STATEMENT_RULE 31 (Some (bin (var "n") GREATER (lit 3))) "again";
        AST_PRINT_RULE 32 [PrintExpression (AST_ARRAY_VARIABLE 33 "v" (lit 2)); PrintExpression (var "n")]] |}.


(** * Semantic analysis implements the reference checker *)

(** C2.  A program that semantic analysis accepts (exit status 0 of its visit)
    passes the reference checker, provided its tree has the shape the grammar
    builds ([program_ok]) and no local or parameter reuses the name of a global
    ([locals_apart]): global, parameter and local declarations, every expression
    and statement, the labels and jumps of every block, the signatures of calls
    and the definite return of every function are checked. *)
Theorem semantic_analysis_refines_checker t p :
  accepted t p = true → program_ok p = true → locals_apart p = true → check_program p = true.
Proof. apply accepted_checks. Qed.

Lemma semantic_analysis_refines_checker_witness :
  accepted ∅ sample_program = true ∧ program_ok sample_program = true ∧ locals_apart sample_program = true ∧
  check_program sample_program = true.
Proof.
  split; [vm_compute; reflexivity|]. split; [vm_compute; reflexivity|]. split; [vm_compute; reflexivity|].
  apply (semantic_analysis_refines_checker ∅ sample_program); vm_compute; reflexivity.
Defined.

(** C3.  Semantic analysis decides the type system on the executable core.  Take a
    program whose tree has the shape the grammar builds ([program_ok]), in which
    no local or parameter reuses the name of a global ([locals_apart]) and which
    has no model, tensor, contract, measurement, inference or C3-ECO statement and
    only array sizes within [int] ([core_program]).  It is accepted exactly when it passes the reference
    checker and has no label twice in a block ([program_distinct]): of these
    programs the analyser rejects no well-typed one and accepts no other.  And
    acceptance is silent: the diagnostics of an accepted program of this kind are
    empty, without a warning. *)
Theorem analysis_decides_type_system t p :
  program_ok p = true → locals_apart p = true → core_program p = true →
  (accepted t p = true ↔ check_program p && program_distinct p = true) ∧
  (accepted t p = true → diagnostics (SemanticAnalyzer.visit_AST_PROGRAM p (new_analyzer t)).2 = empty_diagnostics).
Proof.
  intros Ho Ha Hc. assert (accepted t p = true → check_program p = true ∧ program_distinct p = true) as Hto.
  { intros Hacc. split; [by eapply accepted_checks|by eapply accepted_distinct]. }
  assert (check_program p = true ∧ program_distinct p = true →
          accepted t p = true ∧ diagnostics (SemanticAnalyzer.visit_AST_PROGRAM p (new_analyzer t)).2 = empty_diagnostics) as Hfrom.
  { intros [Hk Hd]. destruct (checked_accepted t p Ho Hc Hk Hd) as (a & Hrun & Hdiag). unfold accepted. by rewrite Hrun. }
  rewrite andb_true_iff. split; [split; [exact Hto|]|]; naive_solver.
Qed.

Lemma analysis_decides_type_system_witness :
  program_ok sample_program = true ∧ locals_apart sample_program = true ∧ core_program sample_program = true ∧
  accepted ∅ sample_program = true ∧
  diagnostics (SemanticAnalyzer.visit_AST_PROGRAM sample_program (new_analyzer ∅)).2 = empty_diagnostics.
Proof.
  assert (program_ok sample_program = true) as Ho by (vm_compute; reflexivity).
  assert (locals_apart sample_program = true) as Hl by (vm_compute; reflexivity).
  assert (core_program sample_program = true) as Hc by (vm_compute; reflexivity).
  assert (check_program sample_program && program_distinct sample_program = true) as Hk by (vm_compute; reflexivity).
  split; [exact Ho|]. split; [exact Hl|]. split; [exact Hc|].
  destruct (analysis_decides_type_system ∅ sample_program Ho Hl Hc) as [Hiff Hsilent].
  pose proof (proj2 Hiff Hk) as Hacc. split; [exact Hacc|exact (Hsilent Hacc)].
Defined.

(** * Accepted programs run safely *)


(** The errors and the output of a run. *)
Definition observed {A} (r : outcome (A * Interpreter)) : option (A * list (string * string) * list out_item) :=
  match r with
  | Done (a, σ) => Some (a, map (λ e, (re_code e, re_message e)) (cerr σ), cout σ)
  | _ => None
  end.


(** * Termination *)

(** A program without counted and conditional loops always ends, whatever
    its functions and jumps: there is an amount of fuel from which on the model
    returns one and the same result.  Recursion is cut by the limit on the call
    depth and repeated jumps by the budget of jumps. *)
Theorem loop_free_programs_end `{AIRuntimeInterface} p source t input :
  program_loop_free p = true →
  ∃ enough result, result ≠ OutOfFuel ∧
    ∀ fuel, (enough ≤ fuel)%nat → visit_AST_PROGRAM fuel p (new_interpreter source t input) = result.
Proof. apply program_halts. Qed.

Lemma loop_free_programs_end_witness :
  program_loop_free sample_program = true ∧
  (∃ enough result, result ≠ OutOfFuel ∧
    ∀ fuel, (enough ≤ fuel)%nat →
    visit_AST_PROGRAM (H := no_backend) fuel sample_program (new_interpreter "main.sh" ∅ "") = result) ∧
  observed (visit_AST_PROGRAM (H := no_backend) 100 sample_program (new_interpreter "main.sh" ∅ "")) =
    Some (0, [], [OutInt 120; OutText " "; OutInt 3; OutEndl]).
Proof.
  split; [reflexivity|]. split; [|vm_compute; reflexivity].
  apply (loop_free_programs_end (H := no_backend) sample_program "main.sh" ∅ ""). reflexivity.
Defined.



(** The fuel of the model never decides a result: once a run ends, every
    larger amount of fuel gives exactly the same outcome, state and output. *)
Theorem fuel_does_not_matter `{AIRuntimeInterface} n n' p σ :
  (n ≤ n')%nat → visit_AST_PROGRAM n p σ ≠ OutOfFuel → visit_AST_PROGRAM n' p σ = visit_AST_PROGRAM n p σ.
Proof. intros Hn. by apply program_extends. Qed.

Lemma fuel_does_not_matter_witness :
  let σ := new_interpreter "main.sh" ∅ "" in
  visit_AST_PROGRAM (H := no_backend) 100 sample_program σ = visit_AST_PROGRAM (H := no_backend) 40 sample_program σ.
Proof.
  intros σ. apply (fuel_does_not_matter (H := no_backend) 40 100 sample_program σ); [lia|].
  vm_compute. discriminate.
Defined.

(** C5.  Calls and blocks are balanced.  However a statement ends (normally, by
    a jump, a return, or after a runtime error), it leaves as many frames as it
    found, the same call depth, the same current source and the same functions,
    and the count of jumps has not gone down. *)
Theorem statements_are_balanced `{AIRuntimeInterface} fuel s σ σ' :
  accept_statement fuel s σ = Done (tt, σ') → frames σ ≠ [] →
  length (frames σ') = length (frames σ) ∧ call_depth σ' = call_depth σ ∧
  active_source σ' = active_source σ ∧ functions_ σ' = functions_ σ ∧ goto_transfers σ ≤ goto_transfers σ'.
Proof.
  intros Hr Hne. destruct (proj2 (accept_keeps fuel) s σ tt σ' Hr) as (H1 & H2 & H3 & H4 & H5). auto.
Qed.

Lemma statements_are_balanced_witness :
  let σ := set_functions_ {["fact" := factorial]} (new_interpreter "main.sh" ∅ "") in
  let s := AST_EXPRESSION_STATEMENT_RULE 1 (call "fact" [lit 5]) in
  match accept_statement (H := no_backend) 60 s σ with
  | Done (_, σ') => int_value (current_value σ') = 120 ∧ length (frames σ') = 1%nat ∧ call_depth σ' = 0
  | _ => False
  end.
Proof.
  intros σ s. destruct (accept_statement (H := no_backend) 60 s σ) as [[[] σ']| |] eqn:Hr;
    [|vm_compute in Hr; discriminate Hr..].
  destruct (statements_are_balanced (H := no_backend) 60 s σ σ' Hr) as (Hl & Hd & _); [discriminate|].
  split; [|split; [exact Hl|exact Hd]]. vm_compute in Hr. injection Hr as <-. reflexivity.
Defined.

(** * Where the guarantee stops *)

Definition read_global : AST_FUNCTION_RULE :=
  {| fn_node := 40; function_name := "f"; fn_type := TInt; parameters := empty_decl_block 41;
     block_statement := Block 42 false [AST_RETURN_STATEMENT 43 (Some (var "x"))] |}.

(** [int x, y; function int f() { return x; }], and the call [y = f()] inside
    a block that declares [float x]. *)
Definition hiding_program : AST_PROGRAM :=
  {| prog_node := 50; decl_block := ints 51 ["x"; "y"]; functions := [read_global];
     code_block := Block 52 false
       [AST_BLOCK_STATEMENT (Block 53 true
          [AST_DECLARATION_STATEMENT (setType TFloat (push_back_scalar "x" (empty_decl_block 54)));
           AST_ASSIGNMENT_RULE 55 (V_SIMPLE 56 "y") (call "f" [])])] |}.

(** Name lookup at run time follows the calls, not the text: a local of a
    caller hides the global of the same name from the callee.  Semantic
    analysis types the callee's [x] as the global [int], the run reads the
    caller's [float], and the accepted program fails with an error about an
    undeclared target that the analysis excludes.  The documentation of the
    language describes lexical scoping. *)
Theorem hiding_a_global_breaks_safety fuel :
  accepted ∅ hiding_program = true ∧ program_ok hiding_program = true ∧ locals_apart hiding_program = false ∧
  observed (visit_AST_PROGRAM (H := no_backend) (fuel + 20) hiding_program (new_interpreter "main.sh" ∅ "")) =
    Some (1, [(Codes.RuntimeInvalidState, "assignment target is not declared: `y`")], []).
Proof.
  split; [vm_compute; reflexivity|]. split; [vm_compute; reflexivity|]. split; [vm_compute; reflexivity|].
  rewrite (program_extends (H := no_backend) 20 (fuel + 20) hiding_program ltac:(lia)) by (vm_compute; discriminate).
  vm_compute. reflexivity.
Qed.

Definition spinning : AST_FUNCTION_RULE :=
  {| fn_node := 60; function_name := "spin"; fn_type := TVoid; parameters := empty_decl_block 61;
     block_statement := Block 62 false [AST_LABEL_RULE 63 "top"; AST_GOTO_STATEMENT_RULE 64 None "top"] |}.

(** A function whose jumps exhaust the budget is reported twice: the
    budget error first, and then, because the signal of the last jump is still
    pending, that a control-flow signal escaped the function.  The run starts
    from a state in which the budget of jumps has been used up. *)
Theorem exhausted_jumps_are_reported_twice fuel :
  let σ := set_goto_transfers kMaxGotoTransfers
             (set_functions_ {["spin" := spinning]} (new_interpreter "main.sh" ∅ "")) in
  observed (accept_statement (H := no_backend) (fuel + 20) (AST_FUNCTION_CALL_RULE 65 "spin" []) σ) =
    Some (tt, [(Codes.RuntimeInvalidState, "maximum deterministic goto transfer budget exceeded");
               (Codes.RuntimeInvalidState, "control-flow signal escaped function `spin`")], []).
Proof.
  intros σ. destruct (accept_extends (H := no_backend) 20 (fuel + 20) ltac:(lia)) as [_ Hs].
  rewrite (Hs (AST_FUNCTION_CALL_RULE 65 "spin" [])) by (vm_compute; discriminate). vm_compute. reflexivity.
Qed.

Definition neg (e : AST_EXPRESSION_RULE) : AST_EXPRESSION_RULE := AST_UNARY_EXPRESSION_RULE 5 e UMINUS.

(** [greenai report] of -2147483647 - 1 inferences at 1 watt for -1 seconds. *)
Definition report_program : AST_PROGRAM :=
  {| prog_node := 70; decl_block := empty_decl_block 71; functions := [];
     code_block := Block 72 false
       [AST_GREENAI_REPORT_RULE 73 "w" (bin (neg (lit INT32_MAX)) MINUS (lit 1)) (lit 1) (neg (lit 1))] |}.

(** The interpreter guards the division of two integers everywhere but in
    the energy report: an accepted program whose report divides the smallest
    integer by -1 has undefined behaviour (a signed overflow). *)
Theorem greenai_report_can_overflow fuel :
  accepted ∅ report_program = true ∧ program_ok report_program = true ∧ locals_apart report_program = true ∧
  visit_AST_PROGRAM (H := no_backend) (fuel + 20) report_program (new_interpreter "main.sh" ∅ "") =
    Undefined "signed overflow in a division".
Proof.
  split; [vm_compute; reflexivity|]. split; [vm_compute; reflexivity|]. split; [vm_compute; reflexivity|].
  rewrite (program_extends (H := no_backend) 20 (fuel + 20) report_program ltac:(lia)) by (vm_compute; discriminate).
  vm_compute. reflexivity.
Qed.
