(* ===== verification/Serving.v ===== *)
(** Component: the serving runtime (serving/ServingRuntime.h and .cpp).

    The runtime is a bounded scheduler: callers submit, cancel and wait for
    requests, worker threads run them, and the host drains and shuts it down.
    Its state is shared behind one mutex, so a run of the runtime is a sequence
    of critical sections, each of which is one computation below.

    The request states are shared objects: the queue, the table of requests,
    the workers and the waiting callers hold pointers to them.  [heap] is that
    store and a pointer is its address.  Times of the steady clock are numbers
    of nanoseconds and durations of the interface are milliseconds, as in the
    code; every reading of the clock is an argument.  The request handler is
    code of the host: what it returns or throws is an argument of the section
    that follows the call.

    A reference into a [std::deque] is invalid after the element it denotes is
    erased; the model makes the use of one undefined. *)
From S2P Require Import Prelude CxxInt CxxString.
Open Scope string_scope.
Open Scope Z_scope.

(** * Interface types *)

Inductive AdmissionStatus :=
| Accepted | RejectedNotReady | RejectedCapacity | RejectedQuota | RejectedIsolation
| RejectedDeadline | RejectedInvalid | RejectedDuplicate.

Inductive TerminalStatus := Succeeded | HandlerError | Cancelled | DeadlineExceeded | Shutdown.

Inductive LookupStatus := Ready | Timeout | NotFound.

#[export] Instance AdmissionStatus_eq_dec : EqDecision AdmissionStatus.
Proof. solve_decision. Defined.
#[export] Instance TerminalStatus_eq_dec : EqDecision TerminalStatus.
Proof. solve_decision. Defined.
#[export] Instance LookupStatus_eq_dec : EqDecision LookupStatus.
Proof. solve_decision. Defined.

Definition admissionStatusName (status : AdmissionStatus) : string :=
  match status with
  | Accepted => "accepted"
  | RejectedNotReady => "rejected_not_ready"
  | RejectedCapacity => "rejected_capacity"
  | RejectedQuota => "rejected_quota"
  | RejectedIsolation => "rejected_isolation"
  | RejectedDeadline => "rejected_deadline"
  | RejectedInvalid => "rejected_invalid"
  | RejectedDuplicate => "rejected_duplicate"
  end.

Definition terminalStatusName (status : TerminalStatus) : string :=
  match status with
  | Succeeded => "succeeded"
  | HandlerError => "handler_error"
  | Cancelled => "cancelled"
  | DeadlineExceeded => "deadline_exceeded"
  | Shutdown => "shutdown"
  end.

Record RuntimeLimits := {
  tenant_scope : string;
  worker_threads : Z;
  queue_capacity : Z;
  max_in_flight : Z;
  completed_result_capacity : Z;
  max_request_bytes : Z;
  max_response_bytes : Z;
  max_in_flight_request_bytes : Z;
  max_retained_result_bytes : Z;
  max_deadline : Z;
}.

Record Request := { request_id : string; tenant_id : string; payload : string; timeout : Z }.

Record Admission := { ad_status : AdmissionStatus; ad_reason : string }.

Record RequestResult := {
  r_status : TerminalStatus; r_output : string; r_detail : string; queue_time_us : Z; service_time_us : Z;
}.

Definition no_result : RequestResult :=
  {| r_status := HandlerError; r_output := ""; r_detail := ""; queue_time_us := 0; service_time_us := 0 |}.

Record ResultLookup := { lk_status : LookupStatus; lk_result : RequestResult }.

Record HandlerResult := { h_success : bool; h_output : string; h_detail : string }.

Definition succeeded_with (value : string) : HandlerResult :=
  {| h_success := true; h_output := value; h_detail := "" |}.
Definition failed_with (reason : string) : HandlerResult :=
  {| h_success := false; h_output := ""; h_detail := reason |}.

Record RuntimeHealth := {
  hl_live : bool; hl_ready : bool; hl_accepting : bool; hl_draining : bool; hl_saturated : bool;
  hl_active : Z; hl_queued : Z; hl_in_flight : Z;
}.

(** The counters are [uint64] and wrap. *)
Record RuntimeMetrics := { submitted : Z; accepted : Z; rejected_not_ready : Z; rejected_capacity : Z; rejected_quota
     : Z; rejected_isolation : Z; rejected_deadline : Z; rejected_invalid : Z; rejected_duplicate : Z; succeeded : Z;
     handler_error : Z; cancelled : Z; deadline_exceeded : Z; shutdown_count : Z; result_evictions : Z;
     saturation_events : Z; m_active : Z; m_queued : Z; m_in_flight : Z; m_retained_results : Z;
     m_in_flight_request_bytes : Z; m_retained_result_bytes : Z; }.
Definition zero_metrics : RuntimeMetrics :=
  {| submitted := 0; accepted := 0; rejected_not_ready := 0; rejected_capacity := 0; rejected_quota := 0;
     rejected_isolation := 0; rejected_deadline := 0; rejected_invalid := 0; rejected_duplicate := 0; succeeded := 0;
     handler_error := 0; cancelled := 0; deadline_exceeded := 0; shutdown_count := 0; result_evictions := 0;
     saturation_events := 0; m_active := 0; m_queued := 0; m_in_flight := 0; m_retained_results := 0;
     m_in_flight_request_bytes := 0; m_retained_result_bytes := 0 |}.
Definition bump_submitted (m : RuntimeMetrics) : RuntimeMetrics :=
  {| submitted := u64 (submitted m + 1); accepted := accepted m; rejected_not_ready := rejected_not_ready m;
     rejected_capacity := rejected_capacity m; rejected_quota := rejected_quota m; rejected_isolation :=
     rejected_isolation m; rejected_deadline := rejected_deadline m; rejected_invalid := rejected_invalid m;
     rejected_duplicate := rejected_duplicate m; succeeded := succeeded m; handler_error := handler_error m; cancelled
     := cancelled m; deadline_exceeded := deadline_exceeded m; shutdown_count := shutdown_count m; result_evictions :=
     result_evictions m; saturation_events := saturation_events m; m_active := m_active m; m_queued := m_queued m;
     m_in_flight := m_in_flight m; m_retained_results := m_retained_results m; m_in_flight_request_bytes :=
     m_in_flight_request_bytes m; m_retained_result_bytes := m_retained_result_bytes m |}.
Definition bump_accepted (m : RuntimeMetrics) : RuntimeMetrics :=
  {| submitted := submitted m; accepted := u64 (accepted m + 1); rejected_not_ready := rejected_not_ready m;
     rejected_capacity := rejected_capacity m; rejected_quota := rejected_quota m; rejected_isolation :=
     rejected_isolation m; rejected_deadline := rejected_deadline m; rejected_invalid := rejected_invalid m;
     rejected_duplicate := rejected_duplicate m; succeeded := succeeded m; handler_error := handler_error m; cancelled
     := cancelled m; deadline_exceeded := deadline_exceeded m; shutdown_count := shutdown_count m; result_evictions :=
     result_evictions m; saturation_events := saturation_events m; m_active := m_active m; m_queued := m_queued m;
     m_in_flight := m_in_flight m; m_retained_results := m_retained_results m; m_in_flight_request_bytes :=
     m_in_flight_request_bytes m; m_retained_result_bytes := m_retained_result_bytes m |}.
Definition bump_rejected_not_ready (m : RuntimeMetrics) : RuntimeMetrics :=
  {| submitted := submitted m; accepted := accepted m; rejected_not_ready := u64 (rejected_not_ready m + 1);
     rejected_capacity := rejected_capacity m; rejected_quota := rejected_quota m; rejected_isolation :=
     rejected_isolation m; rejected_deadline := rejected_deadline m; rejected_invalid := rejected_invalid m;
     rejected_duplicate := rejected_duplicate m; succeeded := succeeded m; handler_error := handler_error m; cancelled
     := cancelled m; deadline_exceeded := deadline_exceeded m; shutdown_count := shutdown_count m; result_evictions :=
     result_evictions m; saturation_events := saturation_events m; m_active := m_active m; m_queued := m_queued m;
     m_in_flight := m_in_flight m; m_retained_results := m_retained_results m; m_in_flight_request_bytes :=
     m_in_flight_request_bytes m; m_retained_result_bytes := m_retained_result_bytes m |}.
Definition bump_rejected_capacity (m : RuntimeMetrics) : RuntimeMetrics :=
  {| submitted := submitted m; accepted := accepted m; rejected_not_ready := rejected_not_ready m; rejected_capacity
     := u64 (rejected_capacity m + 1); rejected_quota := rejected_quota m; rejected_isolation := rejected_isolation m;
     rejected_deadline := rejected_deadline m; rejected_invalid := rejected_invalid m; rejected_duplicate :=
     rejected_duplicate m; succeeded := succeeded m; handler_error := handler_error m; cancelled := cancelled m;
     deadline_exceeded := deadline_exceeded m; shutdown_count := shutdown_count m; result_evictions :=
     result_evictions m; saturation_events := saturation_events m; m_active := m_active m; m_queued := m_queued m;
     m_in_flight := m_in_flight m; m_retained_results := m_retained_results m; m_in_flight_request_bytes :=
     m_in_flight_request_bytes m; m_retained_result_bytes := m_retained_result_bytes m |}.
Definition bump_rejected_quota (m : RuntimeMetrics) : RuntimeMetrics :=
  {| submitted := submitted m; accepted := accepted m; rejected_not_ready := rejected_not_ready m; rejected_capacity
     := rejected_capacity m; rejected_quota := u64 (rejected_quota m + 1); rejected_isolation := rejected_isolation m;
     rejected_deadline := rejected_deadline m; rejected_invalid := rejected_invalid m; rejected_duplicate :=
     rejected_duplicate m; succeeded := succeeded m; handler_error := handler_error m; cancelled := cancelled m;
     deadline_exceeded := deadline_exceeded m; shutdown_count := shutdown_count m; result_evictions :=
     result_evictions m; saturation_events := saturation_events m; m_active := m_active m; m_queued := m_queued m;
     m_in_flight := m_in_flight m; m_retained_results := m_retained_results m; m_in_flight_request_bytes :=
     m_in_flight_request_bytes m; m_retained_result_bytes := m_retained_result_bytes m |}.
Definition bump_rejected_isolation (m : RuntimeMetrics) : RuntimeMetrics :=
  {| submitted := submitted m; accepted := accepted m; rejected_not_ready := rejected_not_ready m; rejected_capacity
     := rejected_capacity m; rejected_quota := rejected_quota m; rejected_isolation := u64 (rejected_isolation m + 1);
     rejected_deadline := rejected_deadline m; rejected_invalid := rejected_invalid m; rejected_duplicate :=
     rejected_duplicate m; succeeded := succeeded m; handler_error := handler_error m; cancelled := cancelled m;
     deadline_exceeded := deadline_exceeded m; shutdown_count := shutdown_count m; result_evictions :=
     result_evictions m; saturation_events := saturation_events m; m_active := m_active m; m_queued := m_queued m;
     m_in_flight := m_in_flight m; m_retained_results := m_retained_results m; m_in_flight_request_bytes :=
     m_in_flight_request_bytes m; m_retained_result_bytes := m_retained_result_bytes m |}.
Definition bump_rejected_deadline (m : RuntimeMetrics) : RuntimeMetrics :=
  {| submitted := submitted m; accepted := accepted m; rejected_not_ready := rejected_not_ready m; rejected_capacity
     := rejected_capacity m; rejected_quota := rejected_quota m; rejected_isolation := rejected_isolation m;
     rejected_deadline := u64 (rejected_deadline m + 1); rejected_invalid := rejected_invalid m; rejected_duplicate :=
     rejected_duplicate m; succeeded := succeeded m; handler_error := handler_error m; cancelled := cancelled m;
     deadline_exceeded := deadline_exceeded m; shutdown_count := shutdown_count m; result_evictions :=
     result_evictions m; saturation_events := saturation_events m; m_active := m_active m; m_queued := m_queued m;
     m_in_flight := m_in_flight m; m_retained_results := m_retained_results m; m_in_flight_request_bytes :=
     m_in_flight_request_bytes m; m_retained_result_bytes := m_retained_result_bytes m |}.
Definition bump_rejected_invalid (m : RuntimeMetrics) : RuntimeMetrics :=
  {| submitted := submitted m; accepted := accepted m; rejected_not_ready := rejected_not_ready m; rejected_capacity
     := rejected_capacity m; rejected_quota := rejected_quota m; rejected_isolation := rejected_isolation m;
     rejected_deadline := rejected_deadline m; rejected_invalid := u64 (rejected_invalid m + 1); rejected_duplicate :=
     rejected_duplicate m; succeeded := succeeded m; handler_error := handler_error m; cancelled := cancelled m;
     deadline_exceeded := deadline_exceeded m; shutdown_count := shutdown_count m; result_evictions :=
     result_evictions m; saturation_events := saturation_events m; m_active := m_active m; m_queued := m_queued m;
     m_in_flight := m_in_flight m; m_retained_results := m_retained_results m; m_in_flight_request_bytes :=
     m_in_flight_request_bytes m; m_retained_result_bytes := m_retained_result_bytes m |}.
Definition bump_rejected_duplicate (m : RuntimeMetrics) : RuntimeMetrics :=
  {| submitted := submitted m; accepted := accepted m; rejected_not_ready := rejected_not_ready m; rejected_capacity
     := rejected_capacity m; rejected_quota := rejected_quota m; rejected_isolation := rejected_isolation m;
     rejected_deadline := rejected_deadline m; rejected_invalid := rejected_invalid m; rejected_duplicate := u64
     (rejected_duplicate m + 1); succeeded := succeeded m; handler_error := handler_error m; cancelled := cancelled m;
     deadline_exceeded := deadline_exceeded m; shutdown_count := shutdown_count m; result_evictions :=
     result_evictions m; saturation_events := saturation_events m; m_active := m_active m; m_queued := m_queued m;
     m_in_flight := m_in_flight m; m_retained_results := m_retained_results m; m_in_flight_request_bytes :=
     m_in_flight_request_bytes m; m_retained_result_bytes := m_retained_result_bytes m |}.
Definition bump_succeeded (m : RuntimeMetrics) : RuntimeMetrics :=
  {| submitted := submitted m; accepted := accepted m; rejected_not_ready := rejected_not_ready m; rejected_capacity
     := rejected_capacity m; rejected_quota := rejected_quota m; rejected_isolation := rejected_isolation m;
     rejected_deadline := rejected_deadline m; rejected_invalid := rejected_invalid m; rejected_duplicate :=
     rejected_duplicate m; succeeded := u64 (succeeded m + 1); handler_error := handler_error m; cancelled :=
     cancelled m; deadline_exceeded := deadline_exceeded m; shutdown_count := shutdown_count m; result_evictions :=
     result_evictions m; saturation_events := saturation_events m; m_active := m_active m; m_queued := m_queued m;
     m_in_flight := m_in_flight m; m_retained_results := m_retained_results m; m_in_flight_request_bytes :=
     m_in_flight_request_bytes m; m_retained_result_bytes := m_retained_result_bytes m |}.
Definition bump_handler_error (m : RuntimeMetrics) : RuntimeMetrics :=
  {| submitted := submitted m; accepted := accepted m; rejected_not_ready := rejected_not_ready m; rejected_capacity
     := rejected_capacity m; rejected_quota := rejected_quota m; rejected_isolation := rejected_isolation m;
     rejected_deadline := rejected_deadline m; rejected_invalid := rejected_invalid m; rejected_duplicate :=
     rejected_duplicate m; succeeded := succeeded m; handler_error := u64 (handler_error m + 1); cancelled :=
     cancelled m; deadline_exceeded := deadline_exceeded m; shutdown_count := shutdown_count m; result_evictions :=
     result_evictions m; saturation_events := saturation_events m; m_active := m_active m; m_queued := m_queued m;
     m_in_flight := m_in_flight m; m_retained_results := m_retained_results m; m_in_flight_request_bytes :=
     m_in_flight_request_bytes m; m_retained_result_bytes := m_retained_result_bytes m |}.
Definition bump_cancelled (m : RuntimeMetrics) : RuntimeMetrics :=
  {| submitted := submitted m; accepted := accepted m; rejected_not_ready := rejected_not_ready m; rejected_capacity
     := rejected_capacity m; rejected_quota := rejected_quota m; rejected_isolation := rejected_isolation m;
     rejected_deadline := rejected_deadline m; rejected_invalid := rejected_invalid m; rejected_duplicate :=
     rejected_duplicate m; succeeded := succeeded m; handler_error := handler_error m; cancelled := u64 (cancelled m +
     1); deadline_exceeded := deadline_exceeded m; shutdown_count := shutdown_count m; result_evictions :=
     result_evictions m; saturation_events := saturation_events m; m_active := m_active m; m_queued := m_queued m;
     m_in_flight := m_in_flight m; m_retained_results := m_retained_results m; m_in_flight_request_bytes :=
     m_in_flight_request_bytes m; m_retained_result_bytes := m_retained_result_bytes m |}.
Definition bump_deadline_exceeded (m : RuntimeMetrics) : RuntimeMetrics :=
  {| submitted := submitted m; accepted := accepted m; rejected_not_ready := rejected_not_ready m; rejected_capacity
     := rejected_capacity m; rejected_quota := rejected_quota m; rejected_isolation := rejected_isolation m;
     rejected_deadline := rejected_deadline m; rejected_invalid := rejected_invalid m; rejected_duplicate :=
     rejected_duplicate m; succeeded := succeeded m; handler_error := handler_error m; cancelled := cancelled m;
     deadline_exceeded := u64 (deadline_exceeded m + 1); shutdown_count := shutdown_count m; result_evictions :=
     result_evictions m; saturation_events := saturation_events m; m_active := m_active m; m_queued := m_queued m;
     m_in_flight := m_in_flight m; m_retained_results := m_retained_results m; m_in_flight_request_bytes :=
     m_in_flight_request_bytes m; m_retained_result_bytes := m_retained_result_bytes m |}.
Definition bump_shutdown_count (m : RuntimeMetrics) : RuntimeMetrics :=
  {| submitted := submitted m; accepted := accepted m; rejected_not_ready := rejected_not_ready m; rejected_capacity
     := rejected_capacity m; rejected_quota := rejected_quota m; rejected_isolation := rejected_isolation m;
     rejected_deadline := rejected_deadline m; rejected_invalid := rejected_invalid m; rejected_duplicate :=
     rejected_duplicate m; succeeded := succeeded m; handler_error := handler_error m; cancelled := cancelled m;
     deadline_exceeded := deadline_exceeded m; shutdown_count := u64 (shutdown_count m + 1); result_evictions :=
     result_evictions m; saturation_events := saturation_events m; m_active := m_active m; m_queued := m_queued m;
     m_in_flight := m_in_flight m; m_retained_results := m_retained_results m; m_in_flight_request_bytes :=
     m_in_flight_request_bytes m; m_retained_result_bytes := m_retained_result_bytes m |}.
Definition bump_result_evictions (m : RuntimeMetrics) : RuntimeMetrics :=
  {| submitted := submitted m; accepted := accepted m; rejected_not_ready := rejected_not_ready m; rejected_capacity
     := rejected_capacity m; rejected_quota := rejected_quota m; rejected_isolation := rejected_isolation m;
     rejected_deadline := rejected_deadline m; rejected_invalid := rejected_invalid m; rejected_duplicate :=
     rejected_duplicate m; succeeded := succeeded m; handler_error := handler_error m; cancelled := cancelled m;
     deadline_exceeded := deadline_exceeded m; shutdown_count := shutdown_count m; result_evictions := u64
     (result_evictions m + 1); saturation_events := saturation_events m; m_active := m_active m; m_queued := m_queued
     m; m_in_flight := m_in_flight m; m_retained_results := m_retained_results m; m_in_flight_request_bytes :=
     m_in_flight_request_bytes m; m_retained_result_bytes := m_retained_result_bytes m |}.
Definition bump_saturation_events (m : RuntimeMetrics) : RuntimeMetrics :=
  {| submitted := submitted m; accepted := accepted m; rejected_not_ready := rejected_not_ready m; rejected_capacity
     := rejected_capacity m; rejected_quota := rejected_quota m; rejected_isolation := rejected_isolation m;
     rejected_deadline := rejected_deadline m; rejected_invalid := rejected_invalid m; rejected_duplicate :=
     rejected_duplicate m; succeeded := succeeded m; handler_error := handler_error m; cancelled := cancelled m;
     deadline_exceeded := deadline_exceeded m; shutdown_count := shutdown_count m; result_evictions :=
     result_evictions m; saturation_events := u64 (saturation_events m + 1); m_active := m_active m; m_queued :=
     m_queued m; m_in_flight := m_in_flight m; m_retained_results := m_retained_results m; m_in_flight_request_bytes
     := m_in_flight_request_bytes m; m_retained_result_bytes := m_retained_result_bytes m |}.

(** * Limits *)

Definition kMaxWorkers : Z := 64.
Definition kMaxQueueCapacity : Z := 65536.
Definition kMaxResultCapacity : Z := 65536.
Definition kMaxBodyBytes : Z := 16 * 1024 * 1024.
Definition kMaxAggregateBodyBytes : Z := 1024 * 1024 * 1024.
Definition kMaxIdentityBytes : Z := 64.
(** one hour in milliseconds *)
Definition kMaxSupportedDeadline : Z := 3600 * 1000.

Definition identity_char (c : ascii) : bool :=
  islower c || isupper c || isdigit c || (c =? ".")%char || (c =? "_")%char || (c =? "-")%char.

Definition validIdentity (value : string) : bool :=
  if is_empty value || (kMaxIdentityBytes <? str_size value) then false
  else string_forallb identity_char value.

(** [start] and [finish] in nanoseconds; the result is truncated to microseconds. *)
Definition elapsedMicros (start finish : Z) : Z :=
  if finish <=? start then 0
  else let value := Z.quot (finish - start) 1000 in if value <? 0 then 0 else value.

Definition exceedsCombinedLimit (first second : string) (limit : Z) : bool :=
  (limit <? str_size first) || (u64 (limit - str_size first) <? str_size second).

(** The text of the exception thrown, if any. *)
Definition validateLimits (l : RuntimeLimits) : option string :=
  if negb (validIdentity (tenant_scope l)) then Some "tenant_scope must be a bounded portable identifier"
  else if (worker_threads l =? 0) || (kMaxWorkers <? worker_threads l) then
    Some "worker_threads must be in the range 1..64"
  else if (queue_capacity l =? 0) || (kMaxQueueCapacity <? queue_capacity l) then
    Some "queue_capacity must be in the range 1..65536"
  else if (max_in_flight l =? 0) || (u64 (queue_capacity l + worker_threads l) <? max_in_flight l) then
    Some "max_in_flight must fit the configured workers and queue"
  else if (completed_result_capacity l =? 0) || (kMaxResultCapacity <? completed_result_capacity l) then
    Some "completed_result_capacity must be in the range 1..65536"
  else if (max_request_bytes l =? 0) || (kMaxBodyBytes <? max_request_bytes l) ||
          (max_response_bytes l =? 0) || (kMaxBodyBytes <? max_response_bytes l) then
    Some "request and response limits must be in the range 1..16 MiB"
  else if (max_in_flight_request_bytes l <? max_request_bytes l) ||
          (kMaxAggregateBodyBytes <? max_in_flight_request_bytes l) ||
          (max_retained_result_bytes l <? max_response_bytes l) ||
          (kMaxAggregateBodyBytes <? max_retained_result_bytes l) then
    Some "aggregate request and result limits must contain one body and not exceed 1 GiB"
  else if (max_deadline l <=? 0) || (kMaxSupportedDeadline <? max_deadline l) then
    Some "max_deadline must be in the range 1ms..1h"
  else None.

(** * State *)

Record RequestState := { request : Request; submitted_at : Z; deadline : Z; started_at : Z; stop_requested : bool;
     started : bool; done : bool; result : RequestResult; }.

Definition set_request (v : Request) (s : RequestState) : RequestState :=
  {| request := v; submitted_at := submitted_at s; deadline := deadline s; started_at := started_at s; stop_requested
     := stop_requested s; started := started s; done := done s; result := result s |}.
Definition set_submitted_at (v : Z) (s : RequestState) : RequestState :=
  {| request := request s; submitted_at := v; deadline := deadline s; started_at := started_at s; stop_requested :=
     stop_requested s; started := started s; done := done s; result := result s |}.
Definition set_deadline (v : Z) (s : RequestState) : RequestState :=
  {| request := request s; submitted_at := submitted_at s; deadline := v; started_at := started_at s; stop_requested
     := stop_requested s; started := started s; done := done s; result := result s |}.
Definition set_started_at (v : Z) (s : RequestState) : RequestState :=
  {| request := request s; submitted_at := submitted_at s; deadline := deadline s; started_at := v; stop_requested :=
     stop_requested s; started := started s; done := done s; result := result s |}.
Definition set_stop_requested (v : bool) (s : RequestState) : RequestState :=
  {| request := request s; submitted_at := submitted_at s; deadline := deadline s; started_at := started_at s;
     stop_requested := v; started := started s; done := done s; result := result s |}.
Definition set_started (v : bool) (s : RequestState) : RequestState :=
  {| request := request s; submitted_at := submitted_at s; deadline := deadline s; started_at := started_at s;
     stop_requested := stop_requested s; started := v; done := done s; result := result s |}.
Definition set_done (v : bool) (s : RequestState) : RequestState :=
  {| request := request s; submitted_at := submitted_at s; deadline := deadline s; started_at := started_at s;
     stop_requested := stop_requested s; started := started s; done := v; result := result s |}.
Definition set_result (v : RequestResult) (s : RequestState) : RequestState :=
  {| request := request s; submitted_at := submitted_at s; deadline := deadline s; started_at := started_at s;
     stop_requested := stop_requested s; started := started s; done := done s; result := v |}.

Record ServingRuntimeImpl := { heap : gmap N RequestState; next : N; queue : list N; requests : gmap string N;
     completed_order : list string; counters : RuntimeMetrics; live : bool; accepting : bool; draining : bool;
     stopping : bool; joined : bool; active : Z; in_flight : Z; in_flight_request_bytes : Z; retained_result_bytes :
     Z; }.

Definition set_heap (v : gmap N RequestState) (s : ServingRuntimeImpl) : ServingRuntimeImpl :=
  {| heap := v; next := next s; queue := queue s; requests := requests s; completed_order := completed_order s;
     counters := counters s; live := live s; accepting := accepting s; draining := draining s; stopping := stopping s;
     joined := joined s; active := active s; in_flight := in_flight s; in_flight_request_bytes :=
     in_flight_request_bytes s; retained_result_bytes := retained_result_bytes s |}.
Definition set_next (v : N) (s : ServingRuntimeImpl) : ServingRuntimeImpl :=
  {| heap := heap s; next := v; queue := queue s; requests := requests s; completed_order := completed_order s;
     counters := counters s; live := live s; accepting := accepting s; draining := draining s; stopping := stopping s;
     joined := joined s; active := active s; in_flight := in_flight s; in_flight_request_bytes :=
     in_flight_request_bytes s; retained_result_bytes := retained_result_bytes s |}.
Definition set_queue (v : list N) (s : ServingRuntimeImpl) : ServingRuntimeImpl :=
  {| heap := heap s; next := next s; queue := v; requests := requests s; completed_order := completed_order s;
     counters := counters s; live := live s; accepting := accepting s; draining := draining s; stopping := stopping s;
     joined := joined s; active := active s; in_flight := in_flight s; in_flight_request_bytes :=
     in_flight_request_bytes s; retained_result_bytes := retained_result_bytes s |}.
Definition set_requests (v : gmap string N) (s : ServingRuntimeImpl) : ServingRuntimeImpl :=
  {| heap := heap s; next := next s; queue := queue s; requests := v; completed_order := completed_order s; counters
     := counters s; live := live s; accepting := accepting s; draining := draining s; stopping := stopping s; joined
     := joined s; active := active s; in_flight := in_flight s; in_flight_request_bytes := in_flight_request_bytes s;
     retained_result_bytes := retained_result_bytes s |}.
Definition set_completed_order (v : list string) (s : ServingRuntimeImpl) : ServingRuntimeImpl :=
  {| heap := heap s; next := next s; queue := queue s; requests := requests s; completed_order := v; counters :=
     counters s; live := live s; accepting := accepting s; draining := draining s; stopping := stopping s; joined :=
     joined s; active := active s; in_flight := in_flight s; in_flight_request_bytes := in_flight_request_bytes s;
     retained_result_bytes := retained_result_bytes s |}.
Definition set_counters (v : RuntimeMetrics) (s : ServingRuntimeImpl) : ServingRuntimeImpl :=
  {| heap := heap s; next := next s; queue := queue s; requests := requests s; completed_order := completed_order s;
     counters := v; live := live s; accepting := accepting s; draining := draining s; stopping := stopping s; joined
     := joined s; active := active s; in_flight := in_flight s; in_flight_request_bytes := in_flight_request_bytes s;
     retained_result_bytes := retained_result_bytes s |}.
Definition set_live (v : bool) (s : ServingRuntimeImpl) : ServingRuntimeImpl :=
  {| heap := heap s; next := next s; queue := queue s; requests := requests s; completed_order := completed_order s;
     counters := counters s; live := v; accepting := accepting s; draining := draining s; stopping := stopping s;
     joined := joined s; active := active s; in_flight := in_flight s; in_flight_request_bytes :=
     in_flight_request_bytes s; retained_result_bytes := retained_result_bytes s |}.
Definition set_accepting (v : bool) (s : ServingRuntimeImpl) : ServingRuntimeImpl :=
  {| heap := heap s; next := next s; queue := queue s; requests := requests s; completed_order := completed_order s;
     counters := counters s; live := live s; accepting := v; draining := draining s; stopping := stopping s; joined :=
     joined s; active := active s; in_flight := in_flight s; in_flight_request_bytes := in_flight_request_bytes s;
     retained_result_bytes := retained_result_bytes s |}.
Definition set_draining (v : bool) (s : ServingRuntimeImpl) : ServingRuntimeImpl :=
  {| heap := heap s; next := next s; queue := queue s; requests := requests s; completed_order := completed_order s;
     counters := counters s; live := live s; accepting := accepting s; draining := v; stopping := stopping s; joined
     := joined s; active := active s; in_flight := in_flight s; in_flight_request_bytes := in_flight_request_bytes s;
     retained_result_bytes := retained_result_bytes s |}.
Definition set_stopping (v : bool) (s : ServingRuntimeImpl) : ServingRuntimeImpl :=
  {| heap := heap s; next := next s; queue := queue s; requests := requests s; completed_order := completed_order s;
     counters := counters s; live := live s; accepting := accepting s; draining := draining s; stopping := v; joined
     := joined s; active := active s; in_flight := in_flight s; in_flight_request_bytes := in_flight_request_bytes s;
     retained_result_bytes := retained_result_bytes s |}.
Definition set_joined (v : bool) (s : ServingRuntimeImpl) : ServingRuntimeImpl :=
  {| heap := heap s; next := next s; queue := queue s; requests := requests s; completed_order := completed_order s;
     counters := counters s; live := live s; accepting := accepting s; draining := draining s; stopping := stopping s;
     joined := v; active := active s; in_flight := in_flight s; in_flight_request_bytes := in_flight_request_bytes s;
     retained_result_bytes := retained_result_bytes s |}.
Definition set_active (v : Z) (s : ServingRuntimeImpl) : ServingRuntimeImpl :=
  {| heap := heap s; next := next s; queue := queue s; requests := requests s; completed_order := completed_order s;
     counters := counters s; live := live s; accepting := accepting s; draining := draining s; stopping := stopping s;
     joined := joined s; active := v; in_flight := in_flight s; in_flight_request_bytes := in_flight_request_bytes s;
     retained_result_bytes := retained_result_bytes s |}.
Definition set_in_flight (v : Z) (s : ServingRuntimeImpl) : ServingRuntimeImpl :=
  {| heap := heap s; next := next s; queue := queue s; requests := requests s; completed_order := completed_order s;
     counters := counters s; live := live s; accepting := accepting s; draining := draining s; stopping := stopping s;
     joined := joined s; active := active s; in_flight := v; in_flight_request_bytes := in_flight_request_bytes s;
     retained_result_bytes := retained_result_bytes s |}.
Definition set_in_flight_request_bytes (v : Z) (s : ServingRuntimeImpl) : ServingRuntimeImpl :=
  {| heap := heap s; next := next s; queue := queue s; requests := requests s; completed_order := completed_order s;
     counters := counters s; live := live s; accepting := accepting s; draining := draining s; stopping := stopping s;
     joined := joined s; active := active s; in_flight := in_flight s; in_flight_request_bytes := v;
     retained_result_bytes := retained_result_bytes s |}.
Definition set_retained_result_bytes (v : Z) (s : ServingRuntimeImpl) : ServingRuntimeImpl :=
  {| heap := heap s; next := next s; queue := queue s; requests := requests s; completed_order := completed_order s;
     counters := counters s; live := live s; accepting := accepting s; draining := draining s; stopping := stopping s;
     joined := joined s; active := active s; in_flight := in_flight s; in_flight_request_bytes :=
     in_flight_request_bytes s; retained_result_bytes := v |}.

Abbreviation RT := (SM ServingRuntimeImpl).

(** The object behind a pointer. *)
Definition load (a : N) : RT RequestState := λ s,
  match heap s !! a with
  | Some st => Done (st, s)
  | None => Undefined "dangling request state"
  end.

Definition write (a : N) (st : RequestState) : RT unit := modify (λ s, set_heap (<[a := st]> (heap s)) s).

(** The fields of a new runtime; its threads are those of [config]. *)
Definition new_impl : ServingRuntimeImpl :=
  {| heap := ∅; next := 0%N; queue := []; requests := ∅; completed_order := []; counters := zero_metrics;
     live := true; accepting := true; draining := false; stopping := false; joined := false;
     active := 0; in_flight := 0; in_flight_request_bytes := 0; retained_result_bytes := 0 |}.

(** The constructor: the exception it throws, or the new runtime. *)
Definition new_runtime (l : RuntimeLimits) (has_handler : bool) : string + ServingRuntimeImpl :=
  match validateLimits l with
  | Some message => inl message
  | None => if has_handler then inr new_impl else inl "serving request handler is required"
  end.

(** What the handler sees of its request through the token. *)
Definition deadlineExceeded (st : RequestState) (now : Z) : bool := deadline st <=? now.
Definition stopRequested (st : RequestState) (now : Z) : bool := stop_requested st || deadlineExceeded st now.

(** * The sections under the lock *)

Section Runtime.
Context (limits : RuntimeLimits).

Definition record_terminal (status : TerminalStatus) (m : RuntimeMetrics) : RuntimeMetrics :=
  match status with
  | Succeeded => bump_succeeded m
  | HandlerError => bump_handler_error m
  | Cancelled => bump_cancelled m
  | DeadlineExceeded => bump_deadline_exceeded m
  | Shutdown => bump_shutdown_count m
  end.

Definition recordTerminalLocked (status : TerminalStatus) : RT unit :=
  modify (λ s, set_counters (record_terminal status (counters s)) s).

Definition resultBytes (r : RequestResult) : Z := u64 (str_size (r_output r) + str_size (r_detail r)).

(** [value >= amount ? value - amount : 0] *)
Definition drop_bytes (value amount : Z) : Z := if amount <=? value then value - amount else 0.

(** One turn of the eviction loop on the oldest identifier. *)
Definition evict (oldest : string) : RT unit :=
  found ← gets (λ s, requests s !! oldest);
  match found with
  | None => mret tt
  | Some a =>
      st ← load a;
      if done st then
        modify (λ s, set_retained_result_bytes (drop_bytes (retained_result_bytes s) (resultBytes (result st))) s);;
        modify (λ s, set_requests (delete oldest (requests s)) s);;
        modify (λ s, set_counters (bump_result_evictions (counters s)) s)
      else mret tt
  end.

(** The loop runs over the identifiers in [order]; [front] of an empty queue
    is undefined. *)
Fixpoint evict_loop (order : list string) : RT unit :=
  bytes ← gets retained_result_bytes;
  if (completed_result_capacity limits <? Z.of_nat (length order)) || (max_retained_result_bytes limits <? bytes) then
    match order with
    | [] => undefined "front of an empty deque"
    | oldest :: rest =>
        modify (set_completed_order rest);;
        evict oldest;;
        evict_loop rest
    end
  else mret tt.

Definition retainCompletedLocked (a : N) : RT unit :=
  st ← load a;
  modify (λ s, set_completed_order (completed_order s ++ [request_id (request st)])%list s);;
  modify (λ s, set_retained_result_bytes (u64 (retained_result_bytes s + resultBytes (result st))) s);;
  order ← gets completed_order;
  evict_loop order.

(** The state after the swap of its payload with an empty string. *)
Definition completed (status : TerminalStatus) (output detail : string) (at_ : Z) (st : RequestState) : RequestState :=
  let service_start := if started st then started_at st else at_ in
  {| request := {| request_id := request_id (request st); tenant_id := tenant_id (request st);
                   payload := ""; timeout := timeout (request st) |};
     submitted_at := submitted_at st; deadline := deadline st; started_at := started_at st;
     stop_requested := stop_requested st; started := started st; done := true;
     result := {| r_status := status; r_output := output; r_detail := detail;
                  queue_time_us := elapsedMicros (submitted_at st) service_start;
                  service_time_us := elapsedMicros service_start at_ |} |}.

Definition completeLocked (a : N) (status : TerminalStatus) (output detail : string) (at_ : Z) : RT unit :=
  st ← load a;
  if done st then mret tt
  else
    write a (completed status output detail at_ st);;
    modify (λ s, if started st && (0 <? active s) then set_active (active s - 1) s else s);;
    modify (λ s, if 0 <? in_flight s then set_in_flight (in_flight s - 1) s else s);;
    modify (λ s, set_in_flight_request_bytes
                   (drop_bytes (in_flight_request_bytes s) (str_size (payload (request st)))) s);;
    recordTerminalLocked status;;
    retainCompletedLocked a.

(** [state] is a reference to an element of the queue: it is dead when
    [completeLocked] receives it, because [queue.erase] came first. *)
Fixpoint expire_loop (now : Z) (states : list N) : RT unit :=
  match states with
  | [] => mret tt
  | a :: rest =>
      st ← load a;
      if (deadline st <=? now) || stop_requested st then undefined "reference to an erased deque element"
      else expire_loop now rest
  end.

Definition expireQueuedLocked (now : Z) : RT unit :=
  states ← gets queue;
  expire_loop now states.

(** ** The worker *)

(** What a worker does after a section: go on with the loop, call the handler
    on a request, or end its thread. *)
Inductive worker_next := Continue | Run (a : N) | Exit.

Record take_times := { t_expire : Z; t_cancel : Z; t_check : Z; t_late : Z; t_start : Z }.

(** The section up to the call of the handler; the condition of the wait holds. *)
Definition worker_take (t : take_times) : RT worker_next :=
  s ← gets id;
  if stopping s && bool_decide (queue s = []) then mret Exit
  else
    expireQueuedLocked (t_expire t);;
    states ← gets queue;
    match states with
    | [] => mret (if stopping s then Exit else Continue)
    | a :: rest =>
        modify (set_queue rest);;
        st ← load a;
        if stop_requested st then
          completeLocked a Cancelled "" "cancelled_before_execution" (t_cancel t);;
          mret Continue
        else if deadline st <=? t_check t then
          completeLocked a DeadlineExceeded "" "deadline_exceeded_before_execution" (t_late t);;
          mret Continue
        else
          write a (set_started_at (t_start t) (set_started true st));;
          modify (λ s, set_active (u64 (active s + 1)) s);;
          mret (Run a)
    end.

(** What the call of the handler ends with. *)
Inductive handler_outcome := Returned (r : HandlerResult) | Threw (what : string) | ThrewUnknown.

Definition handler_result (o : handler_outcome) : HandlerResult :=
  match o with
  | Returned r => r
  | Threw what => failed_with ("handler_exception:" +:+ what)
  | ThrewUnknown => failed_with "handler_exception:unknown"
  end.

Definition handler_threw (o : handler_outcome) : bool :=
  match o with Returned _ => false | _ => true end.

(** The section after the call. *)
Definition worker_finish (a : N) (o : handler_outcome) (completed_at : Z) : RT unit :=
  st ← load a;
  let r := handler_result o in
  if stop_requested st then completeLocked a Cancelled "" "cancelled_during_execution" completed_at
  else if deadline st <=? completed_at then
    completeLocked a DeadlineExceeded "" "deadline_exceeded_during_execution" completed_at
  else if exceedsCombinedLimit (h_output r) (h_detail r) (max_response_bytes limits) then
    completeLocked a HandlerError "" "response_quota_exceeded" completed_at
  else if handler_threw o || negb (h_success r) then
    completeLocked a HandlerError "" (if is_empty (h_detail r) then "handler_error" else h_detail r) completed_at
  else completeLocked a Succeeded (h_output r) (h_detail r) completed_at.

(** ** The calls of the host *)

Definition reject_counters (status : AdmissionStatus) (m : RuntimeMetrics) : RuntimeMetrics :=
  match status with
  | RejectedNotReady => bump_rejected_not_ready m
  | RejectedCapacity => bump_saturation_events (bump_rejected_capacity m)
  | RejectedQuota => bump_saturation_events (bump_rejected_quota m)
  | RejectedIsolation => bump_rejected_isolation m
  | RejectedDeadline => bump_rejected_deadline m
  | RejectedInvalid => bump_rejected_invalid m
  | RejectedDuplicate => bump_rejected_duplicate m
  | Accepted => m
  end.

Definition reject (status : AdmissionStatus) (reason : string) : RT Admission :=
  modify (λ s, set_counters (reject_counters status (counters s)) s);;
  mret {| ad_status := status; ad_reason := reason |}.

(** The checks of [submit] in their order. *)
Definition admission_check (r : Request) (s : ServingRuntimeImpl) : option (AdmissionStatus * string) :=
  if negb (accepting s) || stopping s then Some (RejectedNotReady, "runtime_not_accepting")
  else if negb (validIdentity (request_id r)) || negb (validIdentity (tenant_id r)) then
    Some (RejectedInvalid, "invalid_request_identity")
  else if negb (String.eqb (tenant_id r) (tenant_scope limits)) then Some (RejectedIsolation, "tenant_scope_mismatch")
  else if max_request_bytes limits <? str_size (payload r) then Some (RejectedQuota, "request_byte_quota_exceeded")
  else if (timeout r <=? 0) || (max_deadline limits <? timeout r) then
    Some (RejectedDeadline, "invalid_request_deadline")
  else if bool_decide (is_Some (requests s !! request_id r)) then Some (RejectedDuplicate, "duplicate_request_id")
  else if queue_capacity limits <=? Z.of_nat (length (queue s)) then
    Some (RejectedCapacity, "queue_capacity_exceeded")
  else if max_in_flight limits <=? in_flight s then Some (RejectedQuota, "in_flight_quota_exceeded")
  else if u64 (max_in_flight_request_bytes limits - in_flight_request_bytes s) <? str_size (payload r) then
    Some (RejectedQuota, "in_flight_request_byte_quota_exceeded")
  else None.

Definition new_request (r : Request) (now : Z) : RequestState :=
  {| request := r; submitted_at := now; deadline := now + timeout r * 1000000; started_at := 0;
     stop_requested := false; started := false; done := false; result := no_result |}.

Definition submit (r : Request) (now : Z) : RT Admission :=
  modify (λ s, set_counters (bump_submitted (counters s)) s);;
  expireQueuedLocked now;;
  check ← gets (admission_check r);
  match check with
  | Some (status, reason) => reject status reason
  | None =>
      a ← gets next;
      modify (λ s, set_next (a + 1)%N s);;
      write a (new_request r now);;
      modify (λ s, set_requests (<[request_id r := a]> (requests s)) s);;
      modify (λ s, set_queue (queue s ++ [a])%list s);;
      modify (λ s, set_in_flight (u64 (in_flight s + 1)) s);;
      modify (λ s, set_in_flight_request_bytes (u64 (in_flight_request_bytes s + str_size (payload r))) s);;
      modify (λ s, set_counters (bump_accepted (counters s)) s);;
      mret {| ad_status := Accepted; ad_reason := "accepted" |}
  end.

(** [queue.erase(find(queue, state))] *)
Fixpoint erase_first {A} `{EqDecision A} (x : A) (l : list A) : list A :=
  match l with
  | [] => []
  | y :: r => if bool_decide (y = x) then r else y :: erase_first x r
  end.

Definition cancel (tenant id : string) (now : Z) : RT bool :=
  if negb (String.eqb tenant (tenant_scope limits)) then mret false
  else
    found ← gets (λ s, requests s !! id);
    match found with
    | None => mret false
    | Some a =>
        st ← load a;
        if done st then mret false
        else
          write a (set_stop_requested true st);;
          queued ← gets (λ s, bool_decide (a ∈ queue s));
          (if (queued : bool) then
             modify (λ s, set_queue (erase_first a (queue s)) s);;
             completeLocked a Cancelled "" "cancelled_while_queued" now
           else mret tt);;
          mret true
    end.

(** The end of [wait] once the state it holds is done. *)
Definition wait_finish (id : string) (a : N) : RT ResultLookup :=
  st ← load a;
  modify (λ s, if bool_decide (requests s !! id = Some a) then set_requests (delete id (requests s)) s else s);;
  modify (λ s,
    if bool_decide (id ∈ completed_order s) then
      set_completed_order (erase_first id (completed_order s))
        (set_retained_result_bytes (drop_bytes (retained_result_bytes s) (resultBytes (result st))) s)
    else s);;
  mret {| lk_status := Ready; lk_result := result st |}.

(** [wait] up to the wait on the condition variable: the result, or the state
    the caller blocks on. *)
Definition wait_begin (tenant id : string) (max_wait : Z) : RT (ResultLookup + N) :=
  if max_wait <? 0 then mret (inl {| lk_status := Timeout; lk_result := no_result |})
  else if negb (String.eqb tenant (tenant_scope limits)) then
    mret (inl {| lk_status := NotFound; lk_result := no_result |})
  else
    found ← gets (λ s, requests s !! id);
    match found with
    | None => mret (inl {| lk_status := NotFound; lk_result := no_result |})
    | Some a =>
        st ← load a;
        if done st then r ← wait_finish id a; mret (inl r) else mret (inr a)
    end.

(** What a blocked caller does when it holds the lock again. *)
Definition wait_resume (id : string) (a : N) (timed_out : bool) : RT (option ResultLookup) :=
  st ← load a;
  if done st then r ← wait_finish id a; mret (Some r)
  else if timed_out then mret (Some {| lk_status := Timeout; lk_result := no_result |})
  else mret None.

Definition beginDrain : RT bool :=
  s ← gets id;
  if stopping s || negb (live s) then mret false
  else
    modify (λ s, set_draining true (set_accepting false s));;
    mret (accepting s).

(** Requests that are not done get the stop flag. *)
Definition stop_pending (s : ServingRuntimeImpl) : gmap N RequestState :=
  map_fold (λ _ a h,
    match h !! a with
    | Some st => if done st then h else <[a := set_stop_requested true st]> h
    | None => h
    end) (heap s) (requests s).

Fixpoint complete_queue (states : list N) (detail : string) (now : Z) : RT unit :=
  match states with
  | [] => mret tt
  | a :: rest =>
      modify (set_queue rest);;
      completeLocked a Shutdown "" detail now;;
      complete_queue rest detail now
  end.

Definition abandon_pending (detail : string) (now : Z) : RT unit :=
  modify (λ s, set_heap (stop_pending s) s);;
  states ← gets queue;
  complete_queue states detail now.

(** [shutdown] up to its wait; [Some] is the value returned at once. *)
Definition shutdown_begin : RT (option bool) :=
  j ← gets joined;
  if (j : bool) then mret (Some true)
  else
    modify (λ s, set_draining true (set_accepting false s));;
    mret None.

(** After the wait: [graceful] when nothing is in flight. *)
Definition shutdown_stop (now : Z) : RT bool :=
  graceful ← gets (λ s, in_flight s =? 0);
  (if (graceful : bool) then mret tt else abandon_pending "grace_period_exhausted" now);;
  modify (set_stopping true);;
  mret graceful.

(** After the workers have been joined. *)
Definition shutdown_join : RT unit := modify (λ s, set_live false (set_joined true s)).

(** The destructor before it joins the workers; [false] when there is nothing to do. *)
Definition destroy_begin (now : Z) : RT bool :=
  j ← gets joined;
  if (j : bool) then mret false
  else
    modify (λ s, set_stopping true (set_draining true (set_accepting false s)));;
    abandon_pending "runtime_destructor_shutdown" now;;
    mret true.

(** ** Observation *)

Definition healthLocked (s : ServingRuntimeImpl) : RuntimeHealth :=
  let acc := accepting s && negb (stopping s) in
  let saturated := (queue_capacity limits <=? Z.of_nat (length (queue s))) || (max_in_flight limits <=? in_flight s) in
  {| hl_live := live s; hl_ready := live s && acc && negb saturated; hl_accepting := acc; hl_draining := draining s;
     hl_saturated := saturated; hl_active := active s; hl_queued := Z.of_nat (length (queue s));
     hl_in_flight := in_flight s |}.
End Runtime.

Definition metricsLocked (s : ServingRuntimeImpl) : RuntimeMetrics :=
  let m := counters s in
  {| submitted := submitted m; accepted := accepted m; rejected_not_ready := rejected_not_ready m; rejected_capacity :=
     rejected_capacity m; rejected_quota := rejected_quota m; rejected_isolation := rejected_isolation m;
     rejected_deadline := rejected_deadline m; rejected_invalid := rejected_invalid m; rejected_duplicate :=
     rejected_duplicate m; succeeded := succeeded m; handler_error := handler_error m; cancelled := cancelled m;
     deadline_exceeded := deadline_exceeded m; shutdown_count := shutdown_count m; result_evictions :=
     result_evictions m; saturation_events := saturation_events m;
     m_active := active s; m_queued := Z.of_nat (length (queue s)); m_in_flight := in_flight s;
     m_retained_results := Z.of_nat (length (completed_order s));
     m_in_flight_request_bytes := in_flight_request_bytes s; m_retained_result_bytes := retained_result_bytes s |}.

Definition kServingRuntimeContract : string := "shorthand.serving.runtime.v1".

Definition quoted (s : string) : string := String chr_quote (s +:+ String chr_quote EmptyString).
Definition bool_text (b : bool) : string := if b then "true" else "false".

Definition healthJson (v : RuntimeHealth) : string :=
  "{" +:+ quoted "schema" +:+ ":" +:+ quoted "shorthand.serving.health.v1" +:+ "," +:+
  quoted "contract" +:+ ":" +:+ quoted kServingRuntimeContract +:+ "," +:+
  quoted "live" +:+ ":" +:+ bool_text (hl_live v) +:+ "," +:+
  quoted "ready" +:+ ":" +:+ bool_text (hl_ready v) +:+ "," +:+
  quoted "accepting" +:+ ":" +:+ bool_text (hl_accepting v) +:+ "," +:+
  quoted "draining" +:+ ":" +:+ bool_text (hl_draining v) +:+ "," +:+
  quoted "saturated" +:+ ":" +:+ bool_text (hl_saturated v) +:+ "," +:+
  quoted "active" +:+ ":" +:+ pretty (hl_active v) +:+ "," +:+
  quoted "queued" +:+ ":" +:+ pretty (hl_queued v) +:+ "," +:+
  quoted "in_flight" +:+ ":" +:+ pretty (hl_in_flight v) +:+ "}".

Definition text_line (l : string) : string := l +:+ String chr_newline EmptyString.
Definition metric_line (name : string) (value : Z) : string := text_line (name +:+ " " +:+ pretty value).

Definition prometheusMetrics (v : RuntimeMetrics) : string :=
  text_line "# HELP shorthand_serving_requests_total Submission attempts at the serving runtime." +:+
  text_line "# TYPE shorthand_serving_requests_total counter" +:+
  metric_line "shorthand_serving_requests_total" (submitted v) +:+
  metric_line "shorthand_serving_requests_accepted_total" (accepted v) +:+
  metric_line "shorthand_serving_rejected_not_ready_total" (rejected_not_ready v) +:+
  metric_line "shorthand_serving_rejected_capacity_total" (rejected_capacity v) +:+
  metric_line "shorthand_serving_rejected_quota_total" (rejected_quota v) +:+
  metric_line "shorthand_serving_rejected_isolation_total" (rejected_isolation v) +:+
  metric_line "shorthand_serving_rejected_deadline_total" (rejected_deadline v) +:+
  metric_line "shorthand_serving_rejected_invalid_total" (rejected_invalid v) +:+
  metric_line "shorthand_serving_rejected_duplicate_total" (rejected_duplicate v) +:+
  metric_line "shorthand_serving_succeeded_total" (succeeded v) +:+
  metric_line "shorthand_serving_handler_error_total" (handler_error v) +:+
  metric_line "shorthand_serving_cancelled_total" (cancelled v) +:+
  metric_line "shorthand_serving_deadline_exceeded_total" (deadline_exceeded v) +:+
  metric_line "shorthand_serving_shutdown_total" (shutdown_count v) +:+
  metric_line "shorthand_serving_result_evictions_total" (result_evictions v) +:+
  metric_line "shorthand_serving_saturation_events_total" (saturation_events v) +:+
  text_line "# TYPE shorthand_serving_active gauge" +:+
  metric_line "shorthand_serving_active" (m_active v) +:+
  metric_line "shorthand_serving_queued" (m_queued v) +:+
  metric_line "shorthand_serving_in_flight" (m_in_flight v) +:+
  metric_line "shorthand_serving_retained_results" (m_retained_results v) +:+
  metric_line "shorthand_serving_in_flight_request_bytes" (m_in_flight_request_bytes v) +:+
  metric_line "shorthand_serving_retained_result_bytes" (m_retained_result_bytes v).

(** * Runs

    A run interleaves the sections of the callers, the workers and the thread
    that shuts the runtime down.  An action that its thread cannot take now
    (waiting for the condition, or for another thread) changes nothing. *)

Inductive worker := Idle | Running (a : N) | Ended.

(** A caller inside [shutdown] or the destructor, which [shutdown_mutex]
    lets in one at a time. *)
Inductive closing := Draining | Joining (graceful : bool) | Destroying.

Record config := {
  impl : ServingRuntimeImpl; workers : list worker; waiters : list (string * N); closer : option closing;
}.

Inductive action :=
| Submit (r : Request) (now : Z)
| Cancel (tenant id : string) (now : Z)
| WaitBegin (tenant id : string) (max_wait : Z)
| WaitResume (i : nat) (timed_out : bool)
| Drain
| ShutdownBegin
| ShutdownStop (timed_out : bool) (now : Z)
| DestroyBegin (now : Z)
| Join
| WorkerTake (i : nat) (t : take_times)
| WorkerFinish (i : nat) (o : handler_outcome) (now : Z).

(** What a call returns to its caller in a section. *)
Inductive reply := NoReply | AdmissionReply (r : Admission) | BoolReply (b : bool) | LookupReply (r : ResultLookup).

Definition on_impl {A} (m : RT A) : SM config A := λ c,
  match m (impl c) with
  | Done (a, s) => Done (a, {| impl := s; workers := workers c; waiters := waiters c; closer := closer c |})
  | Undefined r => Undefined r
  | OutOfFuel => OutOfFuel
  end.

Definition set_worker (i : nat) (w : worker) : SM config unit :=
  modify (λ c, {| impl := impl c; workers := <[i := w]> (workers c); waiters := waiters c; closer := closer c |}).
Definition set_waiters (f : list (string * N) → list (string * N)) : SM config unit :=
  modify (λ c, {| impl := impl c; workers := workers c; waiters := f (waiters c); closer := closer c |}).
Definition set_closer (v : option closing) : SM config unit :=
  modify (λ c, {| impl := impl c; workers := workers c; waiters := waiters c; closer := v |}).

Definition ended (w : worker) : bool := match w with Ended => true | _ => false end.

Definition perform (limits : RuntimeLimits) (act : action) : SM config reply :=
  c ← gets id;
  match act with
  | Submit r now => r ← on_impl (submit limits r now); mret (AdmissionReply r)
  | Cancel tenant id now => r ← on_impl (cancel limits tenant id now); mret (BoolReply r)
  | WaitBegin tenant id max_wait =>
      r ← on_impl (wait_begin limits tenant id max_wait);
      match r with
      | inl l => mret (LookupReply l)
      | inr a => set_waiters (λ ws, ws ++ [(id, a)])%list;; mret NoReply
      end
  | WaitResume i timed_out =>
      match waiters c !! i with
      | None => mret NoReply
      | Some (id, a) =>
          r ← on_impl (wait_resume id a timed_out);
          match r with
          | None => mret NoReply
          | Some l => set_waiters (delete i);; mret (LookupReply l)
          end
      end
  | Drain => r ← on_impl beginDrain; mret (BoolReply r)
  | ShutdownBegin =>
      match closer c with
      | Some _ => mret NoReply
      | None =>
          r ← on_impl shutdown_begin;
          match r with
          | Some b => mret (BoolReply b)
          | None => set_closer (Some Draining);; mret NoReply
          end
      end
  | ShutdownStop timed_out now =>
      match closer c with
      | Some Draining =>
          if timed_out || (in_flight (impl c) =? 0) then
            graceful ← on_impl (shutdown_stop limits now);
            set_closer (Some (Joining graceful));;
            mret NoReply
          else mret NoReply
      | _ => mret NoReply
      end
  | DestroyBegin now =>
      match closer c with
      | Some _ => mret NoReply
      | None =>
          r ← on_impl (destroy_begin limits now);
          (if (r : bool) then set_closer (Some Destroying) else mret tt);;
          mret NoReply
      end
  | Join =>
      if forallb ended (workers c) then
        match closer c with
        | Some (Joining graceful) => on_impl shutdown_join;; set_closer None;; mret (BoolReply graceful)
        | Some Destroying => on_impl shutdown_join;; set_closer None;; mret NoReply
        | _ => mret NoReply
        end
      else mret NoReply
  | WorkerTake i t =>
      match workers c !! i with
      | Some Idle =>
          if stopping (impl c) || negb (bool_decide (queue (impl c) = [])) then
            n ← on_impl (worker_take limits t);
            (match n with
             | Continue => mret tt
             | Run a => set_worker i (Running a)
             | Exit => set_worker i Ended
             end);;
            mret NoReply
          else mret NoReply
      | _ => mret NoReply
      end
  | WorkerFinish i o now =>
      match workers c !! i with
      | Some (Running a) =>
          on_impl (worker_finish limits a o now);;
          set_worker i Idle;;
          mret NoReply
      | _ => mret NoReply
      end
  end.

(** A runtime that has just been constructed, with its threads. *)
Definition initial (limits : RuntimeLimits) : config :=
  {| impl := new_impl; workers := replicate (Z.to_nat (worker_threads limits)) Idle; waiters := []; closer := None |}.

Fixpoint run (limits : RuntimeLimits) (acts : list action) : SM config (list reply) :=
  match acts with
  | [] => mret []
  | act :: rest => r ← perform limits act; rs ← run limits rest; mret (r :: rs)
  end.
