(* ===== verification/ServingFacts.v ===== *)
(** What the serving runtime promises: it stays inside its limits however its
    threads interleave, every accepted request ends in exactly one terminal
    status, and nothing is left in flight after a shutdown. *)
From S2P Require Import Prelude CxxInt CxxString Serving.
Open Scope string_scope.
Open Scope Z_scope.

(** * Running sections *)

Section sections.
Context {S : Type}.

Lemma run_modify {B} (f : S → S) (k : unit → SM S B) s : (modify f ≫= k) s = k tt (f s).
Proof. done. Qed.
Lemma run_gets {A B} (f : S → A) (k : A → SM S B) s : (gets f ≫= k) s = k (f s) s.
Proof. done. Qed.
Lemma run_ret {A B} (a : A) (k : A → SM S B) s : (mret a ≫= k) s = k a s.
Proof. done. Qed.
Lemma run_done {A B} (m : SM S A) (k : A → SM S B) s a s' : m s = Done (a, s') → (m ≫= k) s = k a s'.
Proof. intros E. unfold mbind, SM_bind. by rewrite E. Qed.
Lemma run_undefined {A B} (m : SM S A) (k : A → SM S B) s r : m s = Undefined r → (m ≫= k) s = Undefined r.
Proof. intros E. unfold mbind, SM_bind. by rewrite E. Qed.
Lemma run_bind_inv {A B} (m : SM S A) (k : A → SM S B) s b s' :
  (m ≫= k) s = Done (b, s') → ∃ a t, m s = Done (a, t) ∧ k a t = Done (b, s').
Proof. unfold mbind, SM_bind. destruct (m s) as [[a t]| |]; [eauto|done..]. Qed.
End sections.

Lemma run_load {B} a (k : RequestState → RT B) s st : heap s !! a = Some st → (load a ≫= k) s = k st s.
Proof. intros E. unfold mbind, SM_bind, load. by rewrite E. Qed.
Lemma run_write {B} a st (k : unit → RT B) s : (write a st ≫= k) s = k tt (set_heap (<[a := st]> (heap s)) s).
Proof. done. Qed.

Lemma u64_shift z : ∃ k, u64 z = z + k * 2 ^ 64.
Proof. exists (- (z / 2 ^ 64)). width. Qed.

(** * The invariant *)

(** The states of the requests that are not finished: [Q] in the queue and
    [R] with a worker. *)
Definition pending (s : ServingRuntimeImpl) (started_ : bool) (a : N) : Prop :=
  ∃ st, heap s !! a = Some st ∧ done st = false ∧ started st = started_.

Definition payload_at (h : gmap N RequestState) (a : N) : Z :=
  match h !! a with Some st => str_size (payload (request st)) | None => 0 end.

Definition payloads (h : gmap N RequestState) (L : list N) : Z :=
  foldr (λ a n, payload_at h a + n) 0 L.

Definition terminals (m : RuntimeMetrics) : Z :=
  succeeded m + handler_error m + cancelled m + deadline_exceeded m + shutdown_count m.

Definition refusals (m : RuntimeMetrics) : Z :=
  rejected_not_ready m + rejected_capacity m + rejected_quota m + rejected_isolation m + rejected_deadline m +
  rejected_invalid m + rejected_duplicate m.

Definition congruent (x y : Z) : Prop := ∃ k, x = y + k * 2 ^ 64.

(** The fields of the limits that have type [size_t]. *)
Definition sizes (l : RuntimeLimits) : Prop :=
  Forall is_size [worker_threads l; queue_capacity l; max_in_flight l; completed_result_capacity l; max_request_bytes l;
    max_response_bytes l; max_in_flight_request_bytes l; max_retained_result_bytes l].

(** What the constructor has checked. *)
Record usable (l : RuntimeLimits) : Prop := {
  us_workers : 1 ≤ worker_threads l ≤ 64;
  us_queue : 1 ≤ queue_capacity l ≤ 65536;
  us_flight : 1 ≤ max_in_flight l ≤ queue_capacity l + worker_threads l;
  us_results : 1 ≤ completed_result_capacity l ≤ 65536;
  us_request : 1 ≤ max_request_bytes l ≤ max_in_flight_request_bytes l;
  us_response : 1 ≤ max_response_bytes l ≤ max_retained_result_bytes l;
  us_aggregate : max_in_flight_request_bytes l ≤ 2 ^ 30 ∧ max_retained_result_bytes l ≤ 2 ^ 30;
}.

Lemma validated_usable l : sizes l → validateLimits l = None → usable l.
Proof.
  unfold sizes. rewrite !Forall_cons. intros (Hw & Hq & Hf & Hc & Hrq & Hrs & Hfb & Hrb & _) Hv.
  unfold validateLimits, kMaxWorkers, kMaxQueueCapacity, kMaxResultCapacity, kMaxBodyBytes, kMaxAggregateBodyBytes in Hv.
  repeat match type of Hv with
  | (if ?b then _ else _) = None => destruct b eqn:?; [done|]
  end.
  repeat match goal with
  | H : (_ || _) = false |- _ => apply orb_false_iff in H as [? ?]
  | H : (_ =? _) = false |- _ => apply Z.eqb_neq in H
  | H : (_ <? _) = false |- _ => apply Z.ltb_ge in H
  | H : (_ <=? _) = false |- _ => apply Z.leb_gt in H
  end.
  rewrite u64_id in * by (unfold is_size in *; unfold_ranges; lia). change (2 ^ 30) with 1073741824.
  unfold is_size in *. split; change (2 ^ 30) with 1073741824; lia.
Qed.

Section Facts.
Context (limits : RuntimeLimits) (lim : usable limits).

Record accounts (Q R : list N) (s : ServingRuntimeImpl) : Prop := {
  ac_nodup : NoDup (Q ++ R);
  ac_queued : ∀ a, a ∈ Q → pending s false a;
  ac_running : ∀ a, a ∈ R → pending s true a;
  ac_pending : ∀ a st, heap s !! a = Some st → done st = false → a ∈ (Q ++ R)%list;
  ac_in_flight : in_flight s = Z.of_nat (length Q + length R);
  ac_active : active s = Z.of_nat (length R);
  ac_bytes : in_flight_request_bytes s = payloads (heap s) (Q ++ R);
  ac_registered : ∀ a st, heap s !! a = Some st → done st = false → requests s !! request_id (request st) = Some a;
  ac_requests : ∀ id a, requests s !! id = Some a → ∃ st, heap s !! a = Some st ∧ request_id (request st) = id;
  ac_fresh : ∀ a st, heap s !! a = Some st → (a < next s)%N;
  ac_tenant : ∀ a st, heap s !! a = Some st → tenant_id (request st) = tenant_scope limits;
  ac_order : NoDup (completed_order s);
  ac_retained : ∀ id, id ∈ completed_order s →
    ∃ a st, requests s !! id = Some a ∧ heap s !! a = Some st ∧ done st = true;
  ac_count : congruent (accepted (counters s)) (terminals (counters s) + in_flight s);
  ac_flight_limit : in_flight s ≤ max_in_flight limits;
  ac_bytes_limit : in_flight_request_bytes s ≤ max_in_flight_request_bytes limits;
}.

(** The results kept for callers that have not asked for them yet. *)
Definition kept (s : ServingRuntimeImpl) : Prop :=
  Z.of_nat (length (completed_order s)) ≤ completed_result_capacity limits ∧
  0 ≤ retained_result_bytes s ≤ max_retained_result_bytes limits.

(** The fields that only the calls of the host change. *)
Definition same_mode (s s' : ServingRuntimeImpl) : Prop :=
  live s' = live s ∧ accepting s' = accepting s ∧ draining s' = draining s ∧
  stopping s' = stopping s ∧ joined s' = joined s.

Definition same_flags (s s' : ServingRuntimeImpl) : Prop :=
  same_mode s s' ∧ submitted (counters s') = submitted (counters s) ∧
  accepted (counters s') = accepted (counters s) ∧ refusals (counters s') = refusals (counters s).

(** The fields that finishing a request leaves alone. *)
Definition same_frame (s s' : ServingRuntimeImpl) : Prop :=
  queue s' = queue s ∧ next s' = next s ∧ same_flags s s'.

(** A state of [s] is still there in [s'], with its result when it has one. *)
Definition grows (s s' : ServingRuntimeImpl) : Prop :=
  ∀ a st, heap s !! a = Some st → ∃ st', heap s' !! a = Some st' ∧
    request_id (request st') = request_id (request st) ∧ tenant_id (request st') = tenant_id (request st) ∧
    (done st = true → st' = st).

#[local] Instance same_flags_refl : Reflexive same_flags.
Proof. by intros s. Qed.
#[local] Instance same_flags_trans : Transitive same_flags.
Proof. intros s t u. unfold same_flags, same_mode. intuition congruence. Qed.
#[local] Instance same_frame_refl : Reflexive same_frame.
Proof. by intros s. Qed.
#[local] Instance grows_refl : Reflexive grows.
Proof. intros s a st H. eauto. Qed.
#[local] Instance grows_trans : Transitive grows.
Proof.
  intros s t u H1 H2 a st Ha. destruct (H1 a st Ha) as (st1 & Ha1 & Hi1 & Ht1 & Hd1).
  destruct (H2 a st1 Ha1) as (st2 & Ha2 & Hi2 & Ht2 & Hd2). exists st2. split_and!; try congruence.
  intros Hd. specialize (Hd1 Hd) as ->. auto.
Qed.

Lemma payloads_insert h a st L : a ∉ L → payloads (<[a := st]> h) L = payloads h L.
Proof.
  induction L as [|b L IH]; [done|]. rewrite not_elem_of_cons. intros [Hne Hni]. simpl.
  rewrite IH by done. unfold payload_at. by rewrite lookup_insert_ne.
Qed.

Lemma payloads_same h h' L : (∀ a, a ∈ L → payload_at h a = payload_at h' a) → payloads h L = payloads h' L.
Proof.
  induction L as [|b L IH]; [done|]. intros H. simpl. rewrite (H b) by set_solver. rewrite IH; [done|].
  intros a Ha. apply H. set_solver.
Qed.

Lemma payloads_nonneg h L : 0 ≤ payloads h L.
Proof.
  induction L as [|a L IH]; simpl; [done|]. unfold payload_at. destruct (h !! a); unfold str_size; lia.
Qed.

Lemma payloads_perm h L L' : L ≡ₚ L' → payloads h L = payloads h L'.
Proof. induction 1; simpl; lia. Qed.

Lemma accounts_perm Q Q' R R' s : Q ≡ₚ Q' → R ≡ₚ R' → accounts Q R s → accounts Q' R' s.
Proof.
  intros HQ HR []. assert ((Q ++ R)%list ≡ₚ Q' ++ R') as HP by by rewrite HQ, HR.
  split; auto.
  - by rewrite <- HP.
  - intros a. rewrite <- HQ. auto.
  - intros a. rewrite <- HR. auto.
  - intros a st. rewrite <- HP. eauto.
  - by rewrite <- HQ, <- HR.
  - by rewrite <- HR.
  - rewrite ac_bytes0. by apply payloads_perm.
Qed.

(** ** Eviction *)

(** The bytes retained exceed the limit by no more than the newest result. *)
Definition slack (order : list string) (s : ServingRuntimeImpl) : Prop :=
  retained_result_bytes s ≤ max_retained_result_bytes limits ∨
  ∃ pre id a st, order = (pre ++ [id])%list ∧ requests s !! id = Some a ∧ heap s !! a = Some st ∧
    retained_result_bytes s ≤ max_retained_result_bytes limits + resultBytes (result st).

Lemma resultBytes_nonneg r : 0 ≤ resultBytes r.
Proof. unfold resultBytes. width. Qed.

Lemma drop_bytes_range v b : 0 ≤ v → 0 ≤ b → 0 ≤ drop_bytes v b ≤ v.
Proof. intros. unfold drop_bytes. destruct (Z.leb_spec b v); lia. Qed.

(** The state after one turn of the loop. *)
Definition evicted (oldest : string) (rest : list string) (st : RequestState) (s : ServingRuntimeImpl)
    : ServingRuntimeImpl :=
  let s := set_completed_order rest s in
  let s := set_retained_result_bytes (drop_bytes (retained_result_bytes s) (resultBytes (result st))) s in
  let s := set_requests (delete oldest (requests s)) s in
  set_counters (bump_result_evictions (counters s)) s.

Lemma evict_step oldest rest s a st : requests s !! oldest = Some a → heap s !! a = Some st → done st = true →
  evict oldest (set_completed_order rest s) = Done (tt, evicted oldest rest st s).
Proof.
  intros Hr Hh Hd. unfold evict. rewrite run_gets. cbn [requests set_completed_order]. rewrite Hr.
  rewrite (run_load _ _ _ st) by done. by rewrite Hd.
Qed.

Lemma evicted_accounts Q R oldest rest s a st :
  completed_order s = oldest :: rest → accounts Q R s →
  requests s !! oldest = Some a → heap s !! a = Some st → done st = true →
  accounts Q R (evicted oldest rest st s).
Proof.
  intros Ho [] Hr Hh Hd. rewrite Ho in *. apply NoDup_cons in ac_order0 as [Hnot Hnd].
  split; try assumption; cbn [evicted requests completed_order heap set_requests set_counters set_completed_order set_retained_result_bytes].
  - intros b stb Hb Hdb. rewrite lookup_delete_ne; [by apply ac_registered0|].
    intros Heq. pose proof (ac_registered0 b stb Hb Hdb) as Hreg. rewrite <- Heq, Hr in Hreg. congruence.
  - intros id b. rewrite lookup_delete_Some. intros [_ Hb]. auto.
  - intros id Hin. destruct (ac_retained0 id) as (b & stb & Hb & Hhb & Hdb); [set_solver|].
    exists b, stb. rewrite lookup_delete_ne by (intros ->; done). auto.
Qed.

Lemma evict_loop_ok Q R order s :
  completed_order s = order → accounts Q R s →
  0 ≤ retained_result_bytes s → slack order s →
  ∃ s', evict_loop limits order s = Done (tt, s') ∧ accounts Q R s' ∧ kept s' ∧ same_frame s s' ∧ heap s' = heap s.
Proof.
  pose proof (us_results _ lim) as Hcap. pose proof (us_response _ lim) as Hmax.
  revert s. induction order as [|oldest rest IH]; intros s Ho Hac Hge Hs; cbn [evict_loop]; rewrite run_gets.
  - destruct Hs as [Hs|([|] & id & a & st & He & _)]; [|done..].
    destruct (Z.ltb_spec (completed_result_capacity limits) (Z.of_nat (@length string []))); [simpl in *; lia|].
    destruct (Z.ltb_spec (max_retained_result_bytes limits) (retained_result_bytes s)); [lia|].
    exists s. split_and!; try done. unfold kept. rewrite Ho. simpl. lia.
  - destruct (_ || _) eqn:Hcond.
    + destruct (ac_retained _ _ _ Hac oldest) as (a & st & Hr & Hh & Hd); [rewrite Ho; set_solver|].
      rewrite run_modify, (run_done _ _ _ _ _ (evict_step oldest rest s a st Hr Hh Hd)).
      pose proof (resultBytes_nonneg (result st)) as Hb.
      pose proof (drop_bytes_range (retained_result_bytes s) _ Hge Hb) as Hdrop.
      destruct (IH (evicted oldest rest st s)) as (s' & He & Hac' & Hk & Hf & Hheap); [done|by eapply evicted_accounts|apply Hdrop| |].
      * destruct Hs as [Hs|(pre & id & b & stb & Hpre & Hrb & Hhb & Hs)]; [left; unfold evicted; cbn -[drop_bytes resultBytes]; lia|].
        destruct pre as [|p pre]; injection Hpre as -> ->.
        -- simplify_map_eq. left. unfold evicted; cbn -[drop_bytes resultBytes]. unfold drop_bytes. case_match; lia.
        -- right. exists pre, id, b, stb. unfold evicted; cbn -[drop_bytes resultBytes].
           rewrite lookup_delete_ne; [split_and!; try done; lia|]. intros ->.
           pose proof (ac_order _ _ _ Hac) as Hnd. rewrite Ho in Hnd. apply NoDup_cons in Hnd as [Hnd _]. set_solver.
      * exists s'. split_and!; done.
    + apply orb_false_iff in Hcond as [?%Z.ltb_ge ?%Z.ltb_ge]. exists s. unfold kept. rewrite Ho.
      split_and!; done.
Qed.

(** ** Finishing a request *)

(** The state when the eviction loop starts. *)
Definition finished (a : N) (st st' : RequestState) (status : TerminalStatus) (s : ServingRuntimeImpl)
    : ServingRuntimeImpl :=
  let s := set_heap (<[a := st']> (heap s)) s in
  let s := if started st && (0 <? active s) then set_active (active s - 1) s else s in
  let s := if 0 <? in_flight s then set_in_flight (in_flight s - 1) s else s in
  let s := set_in_flight_request_bytes (drop_bytes (in_flight_request_bytes s) (str_size (payload (request st)))) s in
  let s := set_counters (record_terminal status (counters s)) s in
  let s := set_completed_order (completed_order s ++ [request_id (request st)])%list s in
  set_retained_result_bytes (u64 (retained_result_bytes s + resultBytes (result st'))) s.

Lemma complete_unfold a status output detail at_ s st :
  heap s !! a = Some st → done st = false →
  completeLocked limits a status output detail at_ s =
  let st' := completed status output detail at_ st in
  evict_loop limits (completed_order s ++ [request_id (request st)]) (finished a st st' status s).
Proof.
  intros Hh Hd. unfold completeLocked, finished, recordTerminalLocked, retainCompletedLocked.
  rewrite (run_load _ _ _ st) by done. rewrite Hd, run_write, run_modify. cbn [active set_heap].
  destruct (started st && (0 <? active s)); rewrite run_modify; cbn [in_flight set_heap set_active];
    destruct (0 <? in_flight s); rewrite !run_modify;
    rewrite (run_load _ _ _ (completed status output detail at_ st)) by apply lookup_insert_eq; done.
Qed.

(** The fields of the state, without the tests that always succeed. *)
Lemma finished_fields a st st' status s :
  (started st = true → 0 < active s) → 0 < in_flight s →
  let t := finished a st st' status s in
  heap t = <[a := st']> (heap s) ∧ active t = active s - (if started st then 1 else 0) ∧ in_flight t = in_flight s - 1 ∧
  in_flight_request_bytes t = drop_bytes (in_flight_request_bytes s) (str_size (payload (request st))) ∧
  counters t = record_terminal status (counters s) ∧
  completed_order t = (completed_order s ++ [request_id (request st)])%list ∧
  retained_result_bytes t = u64 (retained_result_bytes s + resultBytes (result st')) ∧
  requests t = requests s ∧ next t = next s ∧ same_frame s t.
Proof.
  intros Ha Hf. unfold finished.
  assert (started st && (0 <? active s) = started st) as Hs.
  { destruct (started st); [|done]. apply Z.ltb_lt. auto. }
  apply Z.ltb_lt in Hf. cbn [active set_heap]. rewrite Hs.
  destruct (started st); cbn [in_flight set_heap set_active]; rewrite Hf; unfold same_frame, same_flags, same_mode;
    destruct status; cbn -[drop_bytes resultBytes u64]; split_and!; try done; lia.
Qed.

Lemma record_terminal_count status m :
  congruent (terminals (record_terminal status m)) (terminals m + 1) ∧ accepted (record_terminal status m) = accepted m.
Proof.
  split; [|by destruct status].
  unfold congruent, terminals. destruct status; cbn -[u64 Z.pow];
    match goal with |- context [u64 ?z] => destruct (u64_shift z) as [k ->]; exists k; lia end.
Qed.

Definition queued_before (st : RequestState) (a : N) (Q : list N) : list N := if started st then Q else a :: Q.
Definition running_before (st : RequestState) (a : N) (R : list N) : list N := if started st then a :: R else R.

Lemma before_perm st a Q R : (queued_before st a Q ++ running_before st a R)%list ≡ₚ a :: Q ++ R.
Proof. unfold queued_before, running_before. destruct (started st); [|done]. by rewrite Permutation_middle. Qed.

Lemma before_length st a Q R :
  Z.of_nat (length (queued_before st a Q) + length (running_before st a R)) = Z.of_nat (length Q + length R) + 1 ∧
  Z.of_nat (length (running_before st a R)) = Z.of_nat (length R) + (if started st then 1 else 0).
Proof. unfold queued_before, running_before. destruct (started st); simpl; lia. Qed.

Lemma finished_accounts Q R a st status output detail at_ s :
  heap s !! a = Some st → done st = false →
  accounts (queued_before st a Q) (running_before st a R) s →
  accounts Q R (finished a st (completed status output detail at_ st) status s).
Proof.
  intros Hh Hd Hac. pose proof (before_perm st a Q R) as Hp. destruct (before_length st a Q R) as [Hlen Hrun].
  assert (0 < in_flight s) as Hpos by (rewrite (ac_in_flight _ _ _ Hac); lia).
  destruct (finished_fields a st (completed status output detail at_ st) status s) as
    (Eh & Ea & Ef & Eb & Ec & Eo & _ & Er & En & _); [|done|].
  { intros Hst. rewrite (ac_active _ _ _ Hac). unfold running_before. rewrite Hst. simpl. lia. }
  destruct Hac. rewrite Hp in ac_nodup0. apply NoDup_cons in ac_nodup0 as [Hnot Hnd].
  assert (∀ b, b ∈ Q ∨ b ∈ R → b ≠ a) as Hne by set_solver.
  destruct (record_terminal_count status (counters s)) as [[k Hk] Hk'].
  assert (in_flight_request_bytes s = str_size (payload (request st)) + payloads (heap s) (Q ++ R)) as Hbytes.
  { rewrite ac_bytes0, (payloads_perm _ _ _ Hp). simpl. unfold payload_at at 1. by rewrite Hh. }
  pose proof (payloads_nonneg (heap s) (Q ++ R)) as Hnn. assert (0 ≤ str_size (payload (request st))) by (unfold str_size; lia).
  split; rewrite ?Eh, ?Ea, ?Ef, ?Eb, ?Ec, ?Eo, ?Er, ?En; try assumption.
  - intros b Hb. destruct (ac_queued0 b) as (stb & Hhb & Hdb); [unfold queued_before; destruct (started st); set_solver|].
    exists stb. rewrite Eh, lookup_insert_ne by (apply not_eq_sym, Hne; auto). done.
  - intros b Hb. destruct (ac_running0 b) as (stb & Hhb & Hdb); [unfold running_before; destruct (started st); set_solver|].
    exists stb. rewrite Eh, lookup_insert_ne by (apply not_eq_sym, Hne; auto). done.
  - intros b stb. rewrite lookup_insert_Some. intros [[<- <-]|[Hba Hhb]] Hdb; [done|].
    pose proof (ac_pending0 b stb Hhb Hdb) as Hin. rewrite Hp in Hin. set_solver.
  - lia.
  - lia.
  - rewrite payloads_insert by done. unfold drop_bytes. destruct (Z.leb_spec (str_size (payload (request st))) (in_flight_request_bytes s)); lia.
  - intros b stb. rewrite lookup_insert_Some. intros [[<- <-]|[Hba Hhb]] Hdb; [done|eauto].
  - intros id b Hb. destruct (ac_requests0 id b Hb) as (stb & Hhb & Hid). destruct (decide (a = b)) as [->|Hab].
    + rewrite lookup_insert_eq. simplify_eq. eauto.
    + rewrite lookup_insert_ne by done. eauto.
  - intros b stb. rewrite lookup_insert_Some. intros [[<- _]|[_ Hhb]]; eauto.
  - intros b stb. rewrite lookup_insert_Some. intros [[<- <-]|[_ Hhb]]; [exact (ac_tenant0 a st Hh)|eauto].
  - apply NoDup_app. split_and!; [done| |apply NoDup_singleton]. intros id Hin Hid%list_elem_of_singleton. subst id.
    destruct (ac_retained0 _ Hin) as (b & stb & Hb & Hhb & Hdb). rewrite (ac_registered0 a st Hh Hd) in Hb. congruence.
  - intros id [Hin|Hid%list_elem_of_singleton]%elem_of_app.
    + destruct (ac_retained0 _ Hin) as (b & stb & Hb & Hhb & Hdb). exists b, stb.
      rewrite lookup_insert_ne by congruence. auto.
    + subst id. exists a. eexists. rewrite lookup_insert_eq. auto.
  - unfold congruent in *. destruct ac_count0 as [k0 Hk0]. rewrite Hk', Hk0. exists (k0 - k). lia.
  - lia.
  - pose proof (drop_bytes_range (in_flight_request_bytes s) (str_size (payload (request st)))). lia.
Qed.

Lemma completed_grows a st status output detail at_ s s' :
  heap s !! a = Some st → done st = false → heap s' = <[a := completed status output detail at_ st]> (heap s) → grows s s'.
Proof.
  intros Hh Hd E b stb Hb. rewrite E. destruct (decide (a = b)) as [<-|Hne].
  - simplify_eq. rewrite lookup_insert_eq. eexists. split_and!; try done. by rewrite Hd.
  - rewrite lookup_insert_ne by done. eauto.
Qed.

(** Finishing a request always returns: it takes the request out of the
    pending ones and keeps the results inside their limits. *)
Lemma complete_ok Q R a st status output detail at_ s :
  heap s !! a = Some st → done st = false → str_size output + str_size detail ≤ 2 ^ 31 →
  accounts (queued_before st a Q) (running_before st a R) s → kept s →
  ∃ s', completeLocked limits a status output detail at_ s = Done (tt, s') ∧ accounts Q R s' ∧ kept s' ∧
    same_frame s s' ∧ grows s s' ∧ heap s' = <[a := completed status output detail at_ st]> (heap s).
Proof.
  intros Hh Hd Hsmall Hac [Hcap Hret]. rewrite (complete_unfold _ _ _ _ _ _ st) by done. cbn zeta.
  pose proof (before_length st a Q R) as [Hlen Hrun].
  assert (0 < in_flight s) as Hpos by (rewrite (ac_in_flight _ _ _ Hac); lia).
  destruct (finished_fields a st (completed status output detail at_ st) status s) as
    (Eh & _ & _ & _ & _ & Eo & Er & Eq & _ & Hfr); [|done|].
  { intros Hst. rewrite (ac_active _ _ _ Hac). unfold running_before. rewrite Hst. simpl. lia. }
  set (t := finished a st _ status s) in *.
  pose proof (resultBytes_nonneg (result (completed status output detail at_ st))) as Hb.
  assert (0 ≤ retained_result_bytes t ≤ max_retained_result_bytes limits + resultBytes (result (completed status output detail at_ st))) as Hbytes.
  { pose proof (us_aggregate _ lim) as [_ Hagg]. rewrite Er.
    assert (resultBytes (result (completed status output detail at_ st)) ≤ 2 ^ 31) as Hle.
    { unfold resultBytes. cbn [result completed r_output r_detail]. unfold str_size in *. rewrite u64_id; unfold_ranges; lia. }
    rewrite u64_id; [lia|]. change (2 ^ 30) with 1073741824 in Hagg. unfold_ranges. lia. }
  destruct (evict_loop_ok Q R (completed_order s ++ [request_id (request st)])%list t) as (s' & He & Hac' & Hk & Hf & Hh').
  - done.
  - by apply finished_accounts.
  - apply Hbytes.
  - right. exists (completed_order s), (request_id (request st)), a. eexists. rewrite Eh, Eq, lookup_insert_eq.
    split_and!; [done|by apply (ac_registered _ _ _ Hac)|done|apply Hbytes].
  - assert (heap s' = <[a := completed status output detail at_ st]> (heap s)) as E by by rewrite Hh'.
    assert (same_frame s s') as Hframe.
    { destruct Hfr as (Hq & Hn & Hfl), Hf as (Hq' & Hn' & Hfl').
      split; [congruence|]. split; [congruence|]. by etrans. }
    exists s'. split; [exact He|]. split; [done|]. split; [done|]. split; [done|].
    split; [by eapply completed_grows|done].
Qed.
(** ** Stop flags *)

(** [h'] is [h] with the stop flag of some unfinished requests set. *)
Definition stopped (h h' : gmap N RequestState) : Prop :=
  ∀ a, match h !! a, h' !! a with
       | Some st, Some st' => st' = st ∨ (done st = false ∧ st' = set_stop_requested true st)
       | None, None => True
       | _, _ => False
       end.

Lemma stopped_refl h : stopped h h.
Proof. intros a. destruct (h !! a); auto. Qed.

Lemma stopped_insert h h' a st : stopped h h' → h' !! a = Some st → done st = false →
  stopped h (<[a := set_stop_requested true st]> h').
Proof.
  intros Hs Ha Hd b. specialize (Hs b). destruct (decide (a = b)) as [<-|Hne]; [|by rewrite lookup_insert_ne].
  rewrite lookup_insert_eq. rewrite Ha in Hs. destruct (h !! a) as [st0|]; [|done].
  destruct Hs as [->|[Hd0 ->]]; auto.
Qed.

Lemma stop_pending_stopped s : stopped (heap s) (stop_pending s).
Proof.
  unfold stop_pending. apply (map_fold_weak_ind (λ h _, stopped (heap s) h)); [apply stopped_refl|].
  intros id a m h _ Hs. destruct (h !! a) as [st|] eqn:Ha; [|done]. destruct (done st) eqn:Hd; [done|].
  by apply stopped_insert.
Qed.

(** What a stopped state shares with the old one. *)
Lemma stopped_inv h h' a st' : stopped h h' → h' !! a = Some st' →
  ∃ st, h !! a = Some st ∧ request st' = request st ∧ done st' = done st ∧ started st' = started st ∧
    (done st = true → st' = st).
Proof.
  intros Hs Ha. specialize (Hs a). rewrite Ha in Hs. destruct (h !! a) as [st|]; [|done].
  exists st. destruct Hs as [->|[Hd ->]]; [auto|]. split_and!; auto. by rewrite Hd.
Qed.

Lemma stopped_fwd h h' a st : stopped h h' → h !! a = Some st →
  ∃ st', h' !! a = Some st' ∧ request st' = request st ∧ done st' = done st ∧ started st' = started st ∧
    (done st = true → st' = st).
Proof.
  intros Hs Ha. specialize (Hs a). rewrite Ha in Hs. destruct (h' !! a) as [st'|]; [|done].
  exists st'. destruct Hs as [->|[Hd ->]]; [auto|]. split_and!; auto. by rewrite Hd.
Qed.

Lemma stopped_accounts Q R s h' : stopped (heap s) h' → accounts Q R s → accounts Q R (set_heap h' s).
Proof.
  intros Hs []. split; cbn [heap requests set_heap next]; try assumption.
  - intros a (st & Ha & Hd & Hst)%ac_queued0. destruct (stopped_fwd _ _ _ _ Hs Ha) as (st' & ? & ? & ? & ? & _).
    exists st'. split_and!; [done|congruence..].
  - intros a (st & Ha & Hd & Hst)%ac_running0. destruct (stopped_fwd _ _ _ _ Hs Ha) as (st' & ? & ? & ? & ? & _).
    exists st'. split_and!; [done|congruence..].
  - intros a st' Ha Hd. destruct (stopped_inv _ _ _ _ Hs Ha) as (st & Ha' & _ & Hd' & _). apply (ac_pending0 a st); congruence.
  - etrans; [exact ac_bytes0|]. apply payloads_same. intros a _. unfold payload_at. specialize (Hs a).
    destruct (heap s !! a), (h' !! a); try done. by destruct Hs as [->|[_ ->]].
  - intros a st' Ha Hd. destruct (stopped_inv _ _ _ _ Hs Ha) as (st & Ha' & -> & Hd' & _). apply (ac_registered0 a st); congruence.
  - intros id a (st & Ha & Hid)%ac_requests0. destruct (stopped_fwd _ _ _ _ Hs Ha) as (st' & ? & E & _).
    exists st'. by rewrite E.
  - intros a st' Ha. destruct (stopped_inv _ _ _ _ Hs Ha) as (st & Ha' & _). eauto.
  - intros a st' Ha. destruct (stopped_inv _ _ _ _ Hs Ha) as (st & Ha' & -> & _). eauto.
  - intros id (a & st & Hr & Ha & Hd)%ac_retained0. destruct (stopped_fwd _ _ _ _ Hs Ha) as (st' & ? & _ & E & _).
    exists a, st'. split_and!; [done..|congruence].
Qed.

Lemma stopped_grows s h' : stopped (heap s) h' → grows s (set_heap h' s).
Proof.
  intros Hs a st Ha. destruct (stopped_fwd _ _ _ _ Hs Ha) as (st' & ? & E & _ & _ & Hd). exists st'. by rewrite E.
Qed.

(** ** Sections *)

Definition erased_reference : string := "reference to an erased deque element".

(** A section returns with [P], unless it uses the dead reference. *)
Definition section_ok {A} (m : RT A) (s : ServingRuntimeImpl) (P : A → ServingRuntimeImpl → Prop) : Prop :=
  match m s with
  | Done (a, s') => P a s'
  | Undefined r => r = erased_reference
  | OutOfFuel => False
  end.

Lemma section_done {A} (m : RT A) s a s' (P : A → ServingRuntimeImpl → Prop) :
  m s = Done (a, s') → P a s' → section_ok m s P.
Proof. intros E HP. unfold section_ok. by rewrite E. Qed.

Lemma section_ret {A} (a : A) s (P : A → ServingRuntimeImpl → Prop) : P a s → section_ok (mret a) s P.
Proof. done. Qed.
Lemma section_gets {A B} (f : ServingRuntimeImpl → A) (k : A → RT B) s P :
  section_ok (k (f s)) s P → section_ok (gets f ≫= k) s P.
Proof. done. Qed.
Lemma section_modify {B} (f : ServingRuntimeImpl → ServingRuntimeImpl) (k : unit → RT B) s P :
  section_ok (k tt) (f s) P → section_ok (modify f ≫= k) s P.
Proof. done. Qed.
Lemma section_step {A B} (m : RT A) (k : A → RT B) s a s' P :
  m s = Done (a, s') → section_ok (k a) s' P → section_ok (m ≫= k) s P.
Proof. intros E. unfold section_ok. by rewrite (run_done _ _ _ _ _ E). Qed.
Lemma section_load {B} a st (k : RequestState → RT B) s P :
  heap s !! a = Some st → section_ok (k st) s P → section_ok (load a ≫= k) s P.
Proof. intros E. unfold section_ok. by rewrite (run_load _ _ _ _ E). Qed.

Lemma expire_cases now L s : (∀ a, a ∈ L → is_Some (heap s !! a)) →
  expire_loop now L s = Done (tt, s) ∨ expire_loop now L s = Undefined erased_reference.
Proof.
  induction L as [|a L IH]; intros Hin; cbn [expire_loop]; [auto|].
  destruct (Hin a) as [st Ha]; [set_solver|]. rewrite (run_load _ _ _ st) by done.
  destruct (_ || _); [auto|]. apply IH. set_solver.
Qed.

Lemma section_expire {A} now (k : unit → RT A) Q R s P : accounts Q R s → queue s = Q →
  section_ok (k tt) s P → section_ok (expireQueuedLocked now ≫= k) s P.
Proof.
  intros Hac Hq Hk. unfold section_ok, expireQueuedLocked, mbind, SM_bind, gets. rewrite Hq.
  destruct (expire_cases now Q s) as [E|E]; [|by rewrite E..].
  intros a (st & Ha & _)%(ac_queued _ _ _ Hac). eauto.
Qed.
Lemma flight_small Q R s : accounts Q R s → 0 ≤ in_flight s ≤ 65600 ∧ 0 ≤ active s ≤ in_flight s.
Proof.
  intros []. pose proof (us_flight _ lim). pose proof (us_queue _ lim). pose proof (us_workers _ lim). lia.
Qed.

(** A queued request is handed to a worker. *)
Definition handed (a : N) (st : RequestState) (at_ : Z) (s : ServingRuntimeImpl) : ServingRuntimeImpl :=
  let s := set_heap (<[a := set_started_at at_ (set_started true st)]> (heap s)) s in
  set_active (u64 (active s + 1)) s.

Lemma handed_accounts Q R a st at_ s : accounts (a :: Q) R s → heap s !! a = Some st →
  accounts Q (a :: R) (handed a st at_ s).
Proof.
  intros Hac Hh. pose proof (flight_small _ _ _ Hac) as [? ?]. destruct Hac.
  destruct (ac_queued0 a) as (st0 & Hh0 & Hd & Hst); [set_solver|]. rewrite Hh in Hh0. injection Hh0 as <-.
  assert ((Q ++ a :: R)%list ≡ₚ (a :: Q) ++ R) as Hp by by rewrite <- Permutation_middle.
  assert (∀ b, b ∈ Q ∨ b ∈ R → a ≠ b) as Hne.
  { apply NoDup_cons in ac_nodup0 as [Hnot _]. set_solver. }
  unfold handed. split; cbn [heap set_heap requests next set_active completed_order active counters in_flight]; try assumption.
  - by rewrite Hp.
  - intros b Hb. destruct (ac_queued0 b) as (stb & Hb' & ?); [set_solver|]. exists stb. cbn [heap set_heap set_active].
    rewrite lookup_insert_ne by auto. done.
  - intros b [->|Hb]%elem_of_cons; [eexists; cbn [heap set_heap set_active]; by rewrite lookup_insert_eq|].
    destruct (ac_running0 b Hb) as (stb & Hb' & ?). exists stb. cbn [heap set_heap set_active].
    rewrite lookup_insert_ne by auto. done.
  - intros b stb. rewrite Hp, lookup_insert_Some. intros [[<- _]|[_ Hb]] Hdb; [set_solver|eauto].
  - simpl in *. lia.
  - rewrite u64_id by (unfold_ranges; lia). simpl. lia.
  - etrans; [exact ac_bytes0|]. rewrite (payloads_perm _ _ _ Hp). apply payloads_same. intros b _. unfold payload_at.
    destruct (decide (a = b)) as [<-|Hab]; [by rewrite lookup_insert_eq, Hh|by rewrite lookup_insert_ne].
  - intros b stb. rewrite lookup_insert_Some. intros [[<- <-]|[_ Hb]] Hdb; [exact (ac_registered0 a st Hh Hd)|eauto].
  - intros id b (stb & Hb & Hid)%ac_requests0. destruct (decide (a = b)) as [<-|Hab].
    + rewrite lookup_insert_eq. simplify_eq. eauto.
    + rewrite lookup_insert_ne by done. eauto.
  - intros b stb. rewrite lookup_insert_Some. intros [[<- _]|[_ Hb]]; eauto.
  - intros b stb. rewrite lookup_insert_Some. intros [[<- <-]|[_ Hb]]; [exact (ac_tenant0 a st Hh)|eauto].
  - intros id (b & stb & Hr & Hb & Hdb)%ac_retained0. exists b, stb. rewrite lookup_insert_ne by congruence. auto.
Qed.

Lemma handed_grows a st at_ s : heap s !! a = Some st → done st = false → grows s (handed a st at_ s).
Proof.
  intros Hh Hd b stb Hb. unfold handed. cbn [heap set_heap set_active]. destruct (decide (a = b)) as [<-|Hab].
  - rewrite lookup_insert_eq. simplify_eq. eexists. split_and!; try done. by rewrite Hd.
  - rewrite lookup_insert_ne by done. eauto.
Qed.

Lemma set_queue_accounts Q R q s : accounts Q R s → accounts Q R (set_queue q s).
Proof. by intros []. Qed.

(** Where a worker goes after a section, and what it leaves. *)
Definition taken (R : list N) (s : ServingRuntimeImpl) (n : worker_next) (s' : ServingRuntimeImpl) : Prop :=
  kept s' ∧ same_flags s s' ∧ grows s s' ∧ (length (queue s') ≤ length (queue s))%nat ∧
  match n with
  | Continue => accounts (queue s') R s'
  | Run a => accounts (queue s') (a :: R) s'
  | Exit => accounts (queue s') R s' ∧ stopping s = true
  end.

Lemma finish_queued R a st rest status detail at_ s :
  accounts (a :: rest) R s → queue s = a :: rest → kept s → heap s !! a = Some st → str_size detail ≤ 2 ^ 31 →
  ∃ s', completeLocked limits a status "" detail at_ (set_queue rest s) = Done (tt, s') ∧ accounts rest R s' ∧ kept s' ∧
    queue s' = rest ∧ same_flags s s' ∧ grows s s'.
Proof.
  intros Hac Hq Hk Hh Hsmall. destruct (ac_queued _ _ _ Hac a) as (st0 & Hh0 & Hd & Hst); [set_solver|].
  rewrite Hh in Hh0. injection Hh0 as <-.
  destruct (complete_ok rest R a st status "" detail at_ (set_queue rest s)) as (s' & E & Hac' & Hk' & (Hq' & _ & Hf) & Hg & _);
    try done.
  - unfold queued_before, running_before. rewrite Hst. by apply set_queue_accounts.
  - eauto 10.
Qed.

Lemma worker_take_ok R t s : accounts (queue s) R s → kept s → section_ok (worker_take limits t) s (taken R s).
Proof.
  intros Hac Hk. unfold worker_take. apply section_gets.
  destruct (stopping (id s) && bool_decide (queue (id s) = [])) eqn:Hexit.
  { apply andb_true_iff in Hexit as [Hst _]. apply section_ret. split_and!; try done; apply reflexivity. }
  eapply section_expire; [done..|]. apply section_gets. destruct (queue s) as [|a rest] eqn:Hq.
  - apply section_ret. unfold taken. rewrite Hq. split_and!; try done; [reflexivity..|].
    by destruct (stopping (id s)) eqn:Hst.
  - destruct (ac_queued _ _ _ Hac a) as (st & Hh & Hd & Hst); [set_solver|].
    apply section_modify. apply (section_load a st); [done|].
    destruct (stop_requested st).
    { destruct (finish_queued R a st rest Cancelled "cancelled_before_execution" (t_cancel t) s) as
        (s' & E & Hac' & Hk' & Hq' & Hf & Hg); try done.
      eapply section_step; [exact E|]. apply section_ret. unfold taken. rewrite Hq, Hq'. split_and!; try done. simpl. lia. }
    destruct (deadline st <=? t_check t).
    { destruct (finish_queued R a st rest DeadlineExceeded "deadline_exceeded_before_execution" (t_late t) s) as
        (s' & E & Hac' & Hk' & Hq' & Hf & Hg); try done.
      eapply section_step; [exact E|]. apply section_ret. unfold taken. rewrite Hq, Hq'. split_and!; try done. simpl. lia. }
    apply section_modify, section_modify, section_ret.
    change (taken R s (Run a) (handed a st (t_start t) (set_queue rest s))).
    split_and!; try done; [by apply (handed_grows a st (t_start t) (set_queue rest s))|rewrite Hq; simpl; lia|].
    apply handed_accounts; [|done]. by apply set_queue_accounts.
Qed.
Lemma exceeds_false out det : exceedsCombinedLimit out det (max_response_bytes limits) = false →
  str_size out + str_size det ≤ 2 ^ 31.
Proof.
  pose proof (us_response _ lim) as Hr. pose proof (us_aggregate _ lim) as [_ Ha]. change (2 ^ 30) with 1073741824 in Ha.
  unfold exceedsCombinedLimit. intros [?%Z.ltb_ge Hu%Z.ltb_ge]%orb_false_iff.
  assert (0 ≤ str_size out) by (unfold str_size; lia). rewrite u64_id in Hu by (unfold_ranges; lia).
  change (2 ^ 31) with 2147483648. lia.
Qed.

Lemma worker_finish_ok Q R a o at_ s : accounts Q (a :: R) s → kept s →
  ∃ s', worker_finish limits a o at_ s = Done (tt, s') ∧ accounts Q R s' ∧ kept s' ∧ same_frame s s' ∧ grows s s'.
Proof.
  intros Hac Hk. destruct (ac_running _ _ _ Hac a) as (st & Hh & Hd & Hst); [set_solver|].
  unfold worker_finish. rewrite (run_load _ _ _ st) by done. cbn zeta.
  assert (∀ status out det, str_size out + str_size det ≤ 2 ^ 31 →
    ∃ s', completeLocked limits a status out det at_ s = Done (tt, s') ∧ accounts Q R s' ∧ kept s' ∧ same_frame s s' ∧ grows s s') as Hfin.
  { intros status out det Hsmall. destruct (complete_ok Q R a st status out det at_ s) as (s' & ? & ? & ? & ? & ? & _); eauto 10.
    unfold queued_before, running_before. by rewrite Hst. }
  destruct (stop_requested st); [by apply Hfin|]. destruct (_ <=? _); [by apply Hfin|].
  destruct (exceedsCombinedLimit _ _ _) eqn:He; [by apply Hfin|]. apply exceeds_false in He.
  destruct (_ || _); [|by apply Hfin]. apply Hfin. destruct (is_empty _); [done|].
  unfold str_size in *. simpl. lia.
Qed.

(** ** Admission *)

(** The state after a request is accepted. *)
Definition admitted (r : Request) (now : Z) (s : ServingRuntimeImpl) : ServingRuntimeImpl :=
  let a := next s in
  let s := set_next (a + 1)%N s in
  let s := set_heap (<[a := new_request r now]> (heap s)) s in
  let s := set_requests (<[request_id r := a]> (requests s)) s in
  let s := set_queue (queue s ++ [a])%list s in
  let s := set_in_flight (u64 (in_flight s + 1)) s in
  let s := set_in_flight_request_bytes (u64 (in_flight_request_bytes s + str_size (payload r))) s in
  set_counters (bump_accepted (counters s)) s.

(** What the checks of [submit] establish. *)
Lemma admission_facts Q R r s : accounts Q R s → admission_check limits r s = None →
  accepting s = true ∧ stopping s = false ∧ tenant_id r = tenant_scope limits ∧ requests s !! request_id r = None ∧
  Z.of_nat (length (queue s)) < queue_capacity limits ∧ in_flight s < max_in_flight limits ∧
  in_flight_request_bytes s + str_size (payload r) ≤ max_in_flight_request_bytes limits.
Proof.
  intros Hac Hc. unfold admission_check in Hc.
  repeat match type of Hc with (if ?b then _ else _) = None => destruct b eqn:?; [done|] end.
  repeat match goal with
  | H : (_ || _) = false |- _ => apply orb_false_iff in H as [? ?]
  | H : negb _ = false |- _ => apply negb_false_iff in H
  | H : (_ <? _) = false |- _ => apply Z.ltb_ge in H
  | H : (_ <=? _) = false |- _ => apply Z.leb_gt in H
  | H : bool_decide _ = false |- _ => apply bool_decide_eq_false in H
  | H : String.eqb _ _ = true |- _ => apply String.eqb_eq in H
  end.
  pose proof (us_aggregate _ lim) as [Ha _]. change (2 ^ 30) with 1073741824 in Ha.
  pose proof (ac_bytes _ _ _ Hac) as Hb. pose proof (payloads_nonneg (heap s) (Q ++ R)).
  pose proof (ac_bytes_limit _ _ _ Hac). rewrite u64_id in * by (unfold_ranges; lia).
  split_and!; try done; try lia. by apply eq_None_not_Some.
Qed.

Lemma admitted_accounts Q R r now s : accounts Q R s → admission_check limits r s = None →
  accounts (Q ++ [next s]) R (admitted r now s).
Proof.
  intros Hac Hc. destruct (admission_facts _ _ _ _ Hac Hc) as (_ & _ & Ht & Hnone & _ & Hlt & Hbytes).
  pose proof (flight_small _ _ _ Hac) as [? _]. pose proof (us_aggregate _ lim) as [Ha _]. change (2 ^ 30) with 1073741824 in Ha.
  destruct Hac. pose proof (payloads_nonneg (heap s) (Q ++ R)) as Hnn.
  assert (0 ≤ str_size (payload r)) by (unfold str_size; lia).
  assert (heap s !! next s = None) as Hfree.
  { destruct (heap s !! next s) as [st|] eqn:E; [|done]. apply ac_fresh0 in E. lia. }
  assert (∀ b, b ∈ Q ∨ b ∈ R → next s ≠ b) as Hne.
  { intros b [(st & Hb & _)%ac_queued0|(st & Hb & _)%ac_running0] E; subst b; congruence. }
  assert (((Q ++ [next s]) ++ R)%list ≡ₚ next s :: Q ++ R) as Hp by (rewrite <- app_assoc; symmetry; apply Permutation_middle).
  unfold admitted. split; cbn -[u64]; try assumption.
  - rewrite Hp. apply NoDup_cons. split; [|done]. intros [Hin|Hin]%elem_of_app; eapply Hne; eauto.
  - intros b [Hb|Hb%list_elem_of_singleton]%elem_of_app.
    + destruct (ac_queued0 b Hb) as (stb & ? & ?). exists stb. cbn. rewrite lookup_insert_ne by auto. done.
    + subst b. eexists. cbn. by rewrite lookup_insert_eq.
  - intros b Hb. destruct (ac_running0 b Hb) as (stb & ? & ?). exists stb. cbn. rewrite lookup_insert_ne by auto. done.
  - intros b stb. rewrite Hp, lookup_insert_Some. intros [[<- _]|[_ Hb]] Hd; [set_solver|]. apply elem_of_cons. eauto.
  - rewrite u64_id by (unfold_ranges; lia). rewrite length_app. simpl. lia.
  - rewrite u64_id by (unfold_ranges; lia). rewrite (payloads_perm _ _ _ Hp). simpl. unfold payload_at at 1.
    rewrite lookup_insert_eq. rewrite payloads_insert; [cbn; lia|]. intros [Hin|Hin]%elem_of_app; eapply Hne; eauto.
  - intros b stb. rewrite lookup_insert_Some. intros [[<- <-]|[_ Hb]] Hd; [by rewrite lookup_insert_eq|].
    pose proof (ac_registered0 b stb Hb Hd) as Hreg. rewrite lookup_insert_ne; [done|]. intros E. rewrite E in Hnone. congruence.
  - intros id b. rewrite lookup_insert_Some. intros [[<- <-]|[_ (stb & Hb & Hid)%ac_requests0]].
    + rewrite lookup_insert_eq. eauto.
    + rewrite lookup_insert_ne by (intros <-; congruence). eauto.
  - intros b stb. rewrite lookup_insert_Some. intros [[<- _]|[_ Hb%ac_fresh0]]; lia.
  - intros b stb. rewrite lookup_insert_Some. intros [[<- <-]|[_ Hb]]; [done|eauto].
  - intros id (b & stb & Hr & Hb & Hd)%ac_retained0. exists b, stb.
    rewrite !lookup_insert_ne by (intros <-; congruence). auto.
  - destruct ac_count0 as [k Hk]. unfold terminals in *. cbn -[u64 Z.pow] in *. destruct (u64_shift (accepted (counters s) + 1)) as [k' ->].
    rewrite u64_id by (unfold_ranges; lia). exists (k + k'). lia.
  - rewrite u64_id by (unfold_ranges; lia). lia.
  - rewrite u64_id by (unfold_ranges; lia). lia.
Qed.
(** What every section of a caller leaves, [R] being with the workers. *)
Record served (R : list N) (s s' : ServingRuntimeImpl) : Prop := {
  sv_accounts : accounts (queue s') R s';
  sv_kept : kept s';
  sv_mode : same_mode s s';
  sv_grows : grows s s';
}.

(** The counters of submissions still add up. *)
Definition tallied (m : RuntimeMetrics) : Prop := congruent (submitted m) (accepted m + refusals m).

Lemma tallied_same s s' : same_flags s s' → tallied (counters s) → tallied (counters s').
Proof. unfold tallied. intros (_ & -> & -> & ->). done. Qed.

Lemma reject_tallied status m : status ≠ Accepted → tallied m → tallied (reject_counters status (bump_submitted m)).
Proof.
  unfold tallied, refusals. intros Hs [k Hk]. destruct status; try done; unfold congruent; cbn -[u64 Z.pow] in *;
    destruct (u64_shift (submitted m + 1)) as [k1 ->];
    match goal with |- context [u64 ?z] => destruct (u64_shift z) as [k2 ->] end; exists (k + k1 - k2); lia.
Qed.

Lemma admit_tallied m : tallied m → tallied (bump_accepted (bump_submitted m)).
Proof.
  unfold tallied, refusals, congruent. intros [k Hk]. cbn -[u64 Z.pow] in *.
  destruct (u64_shift (submitted m + 1)) as [k1 ->], (u64_shift (accepted m + 1)) as [k2 ->]. exists (k + k1 - k2). lia.
Qed.

Lemma counters_accounts Q R m s : accepted m = accepted (counters s) → terminals m = terminals (counters s) →
  accounts Q R s → accounts Q R (set_counters m s).
Proof. intros Ea Et []. split; try assumption. cbn [counters set_counters]. by rewrite Ea, Et. Qed.

Lemma admission_status r s status reason : admission_check limits r s = Some (status, reason) → status ≠ Accepted.
Proof.
  unfold admission_check. intros Hc ->.
  repeat match type of Hc with (if ?b then _ else _) = _ => destruct b; [discriminate Hc|] end. discriminate Hc.
Qed.

Lemma submit_ok R r now s : accounts (queue s) R s → kept s → tallied (counters s) →
  Z.of_nat (length (queue s)) ≤ queue_capacity limits →
  section_ok (submit limits r now) s (λ ad s',
    served R s s' ∧ tallied (counters s') ∧ Z.of_nat (length (queue s')) ≤ queue_capacity limits ∧
    if bool_decide (ad_status ad = Accepted) then accepting s = true ∧ stopping s = false else queue s' = queue s).
Proof.
  intros Hac Hk Ht Hq. unfold submit. apply section_modify.
  set (s1 := set_counters (bump_submitted (counters s)) s).
  assert (accounts (queue s1) R s1) as Hac1 by by apply counters_accounts.
  eapply section_expire; [done..|]. apply section_gets. destruct (admission_check limits r s1) as [[status reason]|] eqn:Hc.
  - pose proof (admission_status _ _ _ _ Hc) as Hne.
    apply section_modify, section_ret. cbn [ad_status]. rewrite bool_decide_false by done. split_and!; try done.
    + split; [|done|done|exact (grows_refl s)]. apply counters_accounts; [by destruct status..|done].
    + by apply reject_tallied.
  - destruct (admission_facts _ _ _ _ Hac1 Hc) as (Ha & Hs & _ & _ & Hlen & _).
    pose proof (admitted_accounts _ _ r now s1 Hac1 Hc) as Hac2.
    apply section_gets. do 7 apply section_modify. apply section_ret. cbn [ad_status]. rewrite bool_decide_true by done.
    change (served R s (admitted r now s1) ∧ tallied (counters (admitted r now s1)) ∧
            Z.of_nat (length (queue (admitted r now s1))) ≤ queue_capacity limits ∧ accepting s = true ∧ stopping s = false).
    split_and!; try done.
    + split; try done. intros b stb Hb. assert (next s ≠ b) as Hne.
      { intros <-. apply (ac_fresh _ _ _ Hac) in Hb. lia. }
      exists stb. unfold admitted. cbn. rewrite lookup_insert_ne by done. auto.
    + by apply admit_tallied.
    + unfold admitted. cbn -[Z.of_nat] in *. rewrite length_app. simpl. lia.
Qed.

(** ** Cancelling and waiting *)

Lemma erase_first_perm {A} `{EqDecision A} (x : A) l : x ∈ l → l ≡ₚ x :: erase_first x l.
Proof.
  induction l as [|y l IH]; [set_solver|]. cbn [erase_first]. case_bool_decide as E; [by subst|].
  rewrite elem_of_cons. intros [->|Hin]; [done|]. rewrite (IH Hin) at 1. apply Permutation_swap.
Qed.

Lemma cancel_ok R tenant id now s : accounts (queue s) R s → kept s →
  section_ok (cancel limits tenant id now) s (λ _ s',
    served R s s' ∧ same_flags s s' ∧ (length (queue s') ≤ length (queue s))%nat).
Proof.
  intros Hac Hk. assert (served R s s ∧ same_flags s s ∧ (length (queue s) ≤ length (queue s))%nat) as Hsame.
  { split; [split; try done; reflexivity|]. split; [reflexivity|lia]. }
  unfold cancel. destruct (negb _); [done|]. apply section_gets. destruct (requests s !! id) as [a|] eqn:Hr; [|done].
  destruct (ac_requests _ _ _ Hac _ _ Hr) as (st & Hh & Hid). apply (section_load a st); [done|].
  destruct (done st) eqn:Hd; [done|]. apply section_modify. 
  set (s1 := set_heap (<[a := set_stop_requested true st]> (heap s)) s).
  assert (stopped (heap s) (heap s1)) as Hstop by (by apply stopped_insert; [apply stopped_refl|..]).
  pose proof (stopped_accounts _ _ s _ Hstop Hac) as Hac1. pose proof (stopped_grows s _ Hstop) as Hg1.
  change (set_heap (heap s1) s) with s1 in Hac1, Hg1.
  apply section_gets. change (queue s1) with (queue s) in *. case_bool_decide as Hin; last first.
  { apply section_ret. split; [by split|]. split; [done|]. change (queue s1) with (queue s). lia. }
  destruct (ac_queued _ _ _ Hac a Hin) as (st0 & Hh0 & _ & Hst). rewrite Hh in Hh0. injection Hh0 as <-.
  destruct (complete_ok (erase_first a (queue s)) R a (set_stop_requested true st) Cancelled "" "cancelled_while_queued" now
    (set_queue (erase_first a (queue s)) s1)) as (s' & E & Hac' & Hk' & (Hq' & _ & Hf) & Hg & _); try done.
  { apply lookup_insert_eq. }
  { unfold queued_before, running_before. cbn [started set_stop_requested]. rewrite Hst. apply set_queue_accounts.
    eapply accounts_perm; [by apply erase_first_perm|reflexivity|done]. }
  eapply section_step; [rewrite run_modify; exact E|]. apply section_ret. cbn [queue set_queue] in Hq'. split_and!; try done.
  - split; [by rewrite Hq'|done|by destruct Hf|by etrans].
  - rewrite Hq'. rewrite (erase_first_perm a (queue s)) at 2 by done. simpl. lia.
Qed.

(** The state after a caller takes a result. *)
Definition unlisted (id : string) (st : RequestState) (s : ServingRuntimeImpl) : ServingRuntimeImpl :=
  if bool_decide (id ∈ completed_order s) then
    set_completed_order (erase_first id (completed_order s))
      (set_retained_result_bytes (drop_bytes (retained_result_bytes s) (resultBytes (result st))) s)
  else s.

Definition consumed (id : string) (a : N) (st : RequestState) (s : ServingRuntimeImpl) : ServingRuntimeImpl :=
  let t := unlisted id st s in
  if bool_decide (requests s !! id = Some a) then set_requests (delete id (requests t)) t else t.

Lemma wait_finish_run id a st s : heap s !! a = Some st →
  wait_finish id a s = Done ({| lk_status := Ready; lk_result := result st |}, consumed id a st s).
Proof.
  intros Hh. unfold wait_finish, consumed, unlisted. rewrite (run_load _ _ _ st) by done. rewrite !run_modify.
  destruct (bool_decide (requests s !! id = Some a)); cbn [completed_order set_requests];
    by destruct (bool_decide (id ∈ completed_order s)).
Qed.

Lemma erase_first_nodup {A} `{EqDecision A} (x : A) l : NoDup l → NoDup (erase_first x l) ∧ x ∉ erase_first x l.
Proof.
  intros Hnd. destruct (decide (x ∈ l)) as [Hin|Hout].
  - rewrite (erase_first_perm x l Hin) in Hnd. apply NoDup_cons in Hnd as [? ?]. auto.
  - assert (erase_first x l = l) as ->; [|auto]. clear Hnd. induction l as [|y l IH]; [done|]. cbn [erase_first].
    apply not_elem_of_cons in Hout as [? ?]. rewrite bool_decide_false by done. by rewrite IH.
Qed.

Lemma unlisted_ok Q R id st s : accounts Q R s → kept s →
  accounts Q R (unlisted id st s) ∧ kept (unlisted id st s) ∧ id ∉ completed_order (unlisted id st s).
Proof.
  intros Hac Hk. unfold unlisted. case_bool_decide as Hin; [|done].
  destruct (erase_first_nodup id (completed_order s) (ac_order _ _ _ Hac)) as [Hnd Hnot].
  pose proof (erase_first_perm id _ Hin) as Hp. split_and!; [| |done].
  - destruct Hac. split; try assumption. cbn [completed_order set_completed_order set_retained_result_bytes]. intros id' Hin'.
    apply ac_retained0. rewrite Hp. set_solver.
  - destruct Hk as [Hcap Hret]. rewrite Hp in Hcap. cbn [length] in Hcap.
    pose proof (drop_bytes_range (retained_result_bytes s) (resultBytes (result st)) ltac:(lia) (resultBytes_nonneg _)).
    split; cbn -[drop_bytes resultBytes Z.of_nat]; lia.
Qed.

Lemma consumed_ok Q R id a st s : accounts Q R s → kept s → heap s !! a = Some st → done st = true →
  accounts Q R (consumed id a st s) ∧ kept (consumed id a st s) ∧ same_frame s (consumed id a st s) ∧
  heap (consumed id a st s) = heap s.
Proof.
  intros Hac Hk Hh Hd. destruct (unlisted_ok Q R id st s Hac Hk) as (Hac1 & Hk1 & Hnot).
  assert (same_frame s (unlisted id st s) ∧ heap (unlisted id st s) = heap s ∧ requests (unlisted id st s) = requests s)
    as (Hf & Eh & Er) by (unfold unlisted; by case_bool_decide).
  unfold consumed. cbn zeta. case_bool_decide as Hreq; [|done]. split_and!; try done.
  destruct Hac1. split; cbn [requests set_requests heap completed_order]; try assumption.
  - intros b stb Hb Hdb. rewrite lookup_delete_ne; [by apply ac_registered0|]. intros E.
    pose proof (ac_registered0 b stb Hb Hdb) as Hreg. rewrite <- E, Er in Hreg. congruence.
  - intros id' b. rewrite lookup_delete_Some. intros [_ ?]. auto.
  - intros id' Hin. destruct (ac_retained0 _ Hin) as (b & stb & Hb & ? & ?). exists b, stb.
    rewrite lookup_delete_ne by (intros <-; done). done.
Qed.

Lemma consumed_served R id a st s : accounts (queue s) R s → kept s → heap s !! a = Some st → done st = true →
  served R s (consumed id a st s) ∧ same_flags s (consumed id a st s) ∧ queue (consumed id a st s) = queue s.
Proof.
  intros Hac Hk Hh Hd. destruct (consumed_ok (queue s) R id a st s Hac Hk Hh Hd) as (Hac' & Hk' & (Hq & _ & Hf) & Eh).
  split_and!; try done. split; [by rewrite Hq|done|by destruct Hf|].
  intros b stb Hb. exists stb. by rewrite Eh.
Qed.

(** A caller that does not finish leaves the state alone; one that does gets
    the result of a finished request with its identifier. *)
Definition looked_up (R : list N) (s : ServingRuntimeImpl) (s' : ServingRuntimeImpl) : Prop :=
  served R s s' ∧ same_flags s s' ∧ queue s' = queue s.

Lemma looked_up_refl R s : accounts (queue s) R s → kept s → looked_up R s s.
Proof. intros. split; [by split; try done; reflexivity|]. split; [reflexivity|done]. Qed.

Lemma wait_begin_ok R tenant id max_wait s : accounts (queue s) R s → kept s →
  section_ok (wait_begin limits tenant id max_wait) s (λ r s', looked_up R s s' ∧
    match r with
    | inr a => ∃ st, heap s !! a = Some st ∧ request_id (request st) = id
    | inl l => lk_status l = Ready → tenant = tenant_scope limits ∧ ∃ a st,
        heap s !! a = Some st ∧ done st = true ∧ request_id (request st) = id ∧ lk_result l = result st
    end).
Proof.
  intros Hac Hk. pose proof (looked_up_refl R s Hac Hk) as Hsame. unfold wait_begin.
  destruct (max_wait <? 0); [by apply section_ret|].
  destruct (String.eqb tenant (tenant_scope limits)) eqn:Et; [|by apply section_ret]. apply String.eqb_eq in Et.
  apply section_gets. destruct (requests s !! id) as [a|] eqn:Hr; [|by apply section_ret].
  destruct (ac_requests _ _ _ Hac _ _ Hr) as (st & Hh & Hid). apply (section_load a st); [done|].
  destruct (done st) eqn:Hd; [|apply section_ret; eauto].
  eapply section_step; [by apply wait_finish_run|]. apply section_ret.
  split; [by apply consumed_served|]. intros _. split; [done|]. exists a, st. auto.
Qed.

Lemma wait_resume_ok R id a timed_out s : accounts (queue s) R s → kept s → is_Some (heap s !! a) →
  section_ok (wait_resume id a timed_out) s (λ r s', looked_up R s s' ∧
    match r with
    | Some l => lk_status l = Ready → ∃ st, heap s !! a = Some st ∧ done st = true ∧ lk_result l = result st
    | None => True
    end).
Proof.
  intros Hac Hk [st Hh]. pose proof (looked_up_refl R s Hac Hk) as Hsame. unfold wait_resume.
  apply (section_load a st); [done|]. destruct (done st) eqn:Hd; [|by destruct timed_out; apply section_ret].
  eapply section_step; [by apply wait_finish_run|]. apply section_ret.
  split; [by apply consumed_served|]. eauto.
Qed.

(** ** Closing *)

Lemma complete_queue_ok R detail now states s : str_size detail ≤ 2 ^ 31 →
  accounts states R s → kept s → queue s = states →
  ∃ s', complete_queue limits states detail now s = Done (tt, s') ∧ accounts [] R s' ∧ kept s' ∧ queue s' = [] ∧
    same_flags s s' ∧ grows s s'.
Proof.
  intros Hsmall. revert s. induction states as [|a rest IH]; intros s Hac Hk Hq; cbn [complete_queue].
  - exists s. split_and!; try done.
  - destruct (ac_queued _ _ _ Hac a) as (st & Hh & _); [set_solver|].
    destruct (finish_queued R a st rest Shutdown detail now s Hac Hq Hk Hh Hsmall) as (s1 & E & Hac1 & Hk1 & Hq1 & Hf1 & Hg1).
    destruct (IH s1 Hac1 Hk1 Hq1) as (s' & E' & Hac' & Hk' & Hq' & Hf' & Hg'). exists s'.
    rewrite run_modify, (run_done _ _ _ _ _ E). split_and!; try done; by etrans.
Qed.

Lemma abandon_ok R detail now s : str_size detail ≤ 2 ^ 31 → accounts (queue s) R s → kept s →
  ∃ s', abandon_pending limits detail now s = Done (tt, s') ∧ accounts [] R s' ∧ kept s' ∧ queue s' = [] ∧
    same_flags s s' ∧ grows s s'.
Proof.
  intros Hsmall Hac Hk. unfold abandon_pending. rewrite run_modify, run_gets.
  pose proof (stop_pending_stopped s) as Hs. pose proof (stopped_accounts _ _ s _ Hs Hac) as Hac1.
  destruct (complete_queue_ok R detail now (queue s) (set_heap (stop_pending s) s)) as (s' & E & ? & ? & ? & ? & Hg); try done.
  exists s'. split_and!; try done. etrans; [by apply stopped_grows|done].
Qed.
End Facts.
