(* ===== verification/ServingSafety.v ===== *)
(** The theorems about runs of the serving runtime: every interleaving of its
    callers, workers and closing thread. *)
From S2P Require Import Prelude CxxInt CxxString Serving ServingFacts.
Open Scope string_scope.
Open Scope Z_scope.

(** * Workers *)

Definition held (w : worker) : list N := match w with Running a => [a] | _ => [] end.

Definition running (ws : list worker) : list N := ws ≫= held.

Lemma running_split ws i w : ws !! i = Some w →
  ∃ rest, running ws ≡ₚ held w ++ rest ∧ ∀ w', running (<[i := w']> ws) ≡ₚ held w' ++ rest.
Proof.
  intros Hi. pose proof (lookup_lt_Some _ _ _ Hi) as Hlt.
  exists (running (take i ws) ++ running (drop (S i) ws))%list. unfold running. split.
  - rewrite <- (take_drop_middle ws i w Hi) at 1. rewrite bind_app. cbn [mbind list_bind]. rewrite Permutation_app_swap_app. done.
  - intros w'. rewrite insert_take_drop by done. rewrite bind_app. cbn [mbind list_bind]. rewrite Permutation_app_swap_app. done.
Qed.

Lemma ended_running ws : forallb ended ws = true → running ws = [].
Proof. induction ws as [|[] ws IH]; simpl; auto; done. Qed.

Lemma running_length ws : (length (running ws) ≤ length ws)%nat.
Proof. induction ws as [|[] ws IH]; simpl; lia. Qed.

Section Runs.
Context (limits : RuntimeLimits) (lim : usable limits).

(** * The invariant of a run *)

Record inv (c : config) : Prop := {
  i_accounts : accounts limits (queue (impl c)) (running (workers c)) (impl c);
  i_kept : kept limits (impl c);
  i_tallied : tallied (counters (impl c));
  i_queue : Z.of_nat (length (queue (impl c))) ≤ queue_capacity limits;
  i_workers : Z.of_nat (length (workers c)) = worker_threads limits;
  i_stop : stopping (impl c) = true → queue (impl c) = [] ∧ accepting (impl c) = false;
  i_closer : match closer c with
             | Some Draining => accepting (impl c) = false ∧ stopping (impl c) = false
             | Some _ => stopping (impl c) = true
             | None => stopping (impl c) = true → joined (impl c) = true
             end;
  i_joined : joined (impl c) = true → stopping (impl c) = true ∧ forallb ended (workers c) = true;
  i_live : live (impl c) = negb (joined (impl c));
  i_waiters : ∀ id a, (id, a) ∈ waiters c → ∃ st, heap (impl c) !! a = Some st ∧ request_id (request st) = id;
}.

(** ** Computations on configurations *)

Definition conf_ok {A} (m : SM config A) (c : config) (P : A → config → Prop) : Prop :=
  match m c with
  | Done (a, c') => P a c'
  | Undefined r => r = erased_reference
  | OutOfFuel => False
  end.

Definition with_impl (s : ServingRuntimeImpl) (c : config) : config :=
  {| impl := s; workers := workers c; waiters := waiters c; closer := closer c |}.

Lemma conf_ret {A} (a : A) c (P : A → config → Prop) : P a c → conf_ok (mret a) c P.
Proof. done. Qed.

Lemma conf_bind {A B} (m : SM config A) (k : A → SM config B) c P :
  conf_ok m c (λ a c', conf_ok (k a) c' P) → conf_ok (m ≫= k) c P.
Proof. unfold conf_ok, mbind, SM_bind. by destruct (m c) as [[a c']| |]. Qed.

Lemma conf_modify {B} (f : config → config) (k : unit → SM config B) c P :
  conf_ok (k tt) (f c) P → conf_ok (modify f ≫= k) c P.
Proof. done. Qed.

Lemma conf_on_impl {A} (m : RT A) c P : section_ok m (impl c) (λ a s', P a (with_impl s' c)) → conf_ok (on_impl m) c P.
Proof. unfold conf_ok, section_ok, on_impl. by destruct (m (impl c)) as [[a s']| |]. Qed.

Lemma conf_impl_bind {A B} (m : RT A) (k : A → SM config B) c P :
  section_ok m (impl c) (λ a s', conf_ok (k a) (with_impl s' c) P) → conf_ok (on_impl m ≫= k) c P.
Proof. intros H. by apply conf_bind, conf_on_impl. Qed.

Lemma section_mono {A} (m : RT A) s (P P' : A → ServingRuntimeImpl → Prop) :
  section_ok m s P → (∀ a s', P a s' → P' a s') → section_ok m s P'.
Proof. unfold section_ok. destruct (m s) as [[a s']| |]; auto. Qed.

Lemma section_last f s (P : unit → ServingRuntimeImpl → Prop) : P tt (f s) → section_ok (modify f) s P.
Proof. done. Qed.

(** ** What a section of a caller does to the invariant *)

Lemma waiters_grow c s' : grows (impl c) s' →
  (∀ id a, (id, a) ∈ waiters c → ∃ st, heap (impl c) !! a = Some st ∧ request_id (request st) = id) →
  ∀ id a, (id, a) ∈ waiters c → ∃ st, heap s' !! a = Some st ∧ request_id (request st) = id.
Proof.
  intros Hg Hw id a Hin. destruct (Hw id a Hin) as (st & Hh & Hid). destruct (Hg a st Hh) as (st' & Hh' & E & _).
  exists st'. by rewrite E.
Qed.

(** The queue is not filled once the runtime stops. *)
Lemma inv_served c s' : inv c → served limits (running (workers c)) (impl c) s' → tallied (counters s') →
  Z.of_nat (length (queue s')) ≤ queue_capacity limits → (stopping (impl c) = true → queue s' = []) →
  inv (with_impl s' c).
Proof.
  intros [] [Hac Hk (El & Ea & Ed & Es & Ej) Hg] Ht Hq Hstop.
  split; cbn [impl workers waiters closer with_impl]; try done.
  - rewrite Es, Ea. intros Hst. split; [auto|]. by apply i_stop0.
  - by rewrite Ea, Es, Ej.
  - rewrite Ej, Es. done.
  - congruence.
  - by apply waiters_grow.
Qed.

Lemma inv_looked_up c s' : inv c → looked_up limits (running (workers c)) (impl c) s' → inv (with_impl s' c).
Proof.
  intros Hi (Hs & Hf & Hq). apply inv_served; try done.
  - eapply tallied_same; [done|apply (i_tallied _ Hi)].
  - rewrite Hq. apply (i_queue _ Hi).
  - rewrite Hq. intros Hst. by apply (i_stop _ Hi).
Qed.
(** A caller only ever receives the result of a finished request. *)
Definition answered (c : config) (r : reply) : Prop :=
  match r with
  | AdmissionReply ad => ad_status ad = Accepted → accepting (impl c) = true
  | LookupReply l => lk_status l = Ready → ∃ a st, heap (impl c) !! a = Some st ∧ done st = true ∧ lk_result l = result st
  | _ => True
  end.

Definition stepped (c : config) (r : reply) (c' : config) : Prop :=
  inv c' ∧ grows (impl c) (impl c') ∧ answered c r.

Lemma stays c : inv c → stepped c NoReply c.
Proof. intros Hi. split_and!; try done. apply grows_refl. Qed.

(** ** The actions *)

Lemma perform_submit c r now : inv c → conf_ok (perform limits (Submit r now)) c (stepped c).
Proof.
  intros Hi. apply conf_impl_bind. eapply section_mono; [apply submit_ok; try apply Hi; done|].
  intros ad s' (Hs & Ht & Hq & Had). apply conf_ret. split_and!; [|apply Hs|].
  - apply inv_served; try done. intros Hst. case_bool_decide; [destruct Had; congruence|].
    rewrite Had. by apply (i_stop _ Hi).
  - intros E. cbn [answered] in *. rewrite bool_decide_true in Had by done. apply Had.
Qed.

Lemma perform_cancel c tenant id now : inv c → conf_ok (perform limits (Cancel tenant id now)) c (stepped c).
Proof.
  intros Hi. apply conf_impl_bind. eapply section_mono; [apply cancel_ok; try apply Hi; done|].
  intros b s' (Hs & Hf & Hq). apply conf_ret. split_and!; [|apply Hs|done]. pose proof (i_queue _ Hi).
  apply inv_served; try done; [eapply tallied_same; [done|apply Hi]|lia|].
  intros Hst. destruct (i_stop _ Hi Hst) as [E _]. rewrite E in Hq. simpl in Hq. destruct (queue s'); [done|simpl in Hq; lia].
Qed.

Lemma perform_wait_begin c tenant id max_wait : inv c → conf_ok (perform limits (WaitBegin tenant id max_wait)) c (stepped c).
Proof.
  intros Hi. apply conf_impl_bind. eapply section_mono; [apply wait_begin_ok; try apply Hi; done|].
  intros [l|a] s' (Hl & Hr); [|apply conf_modify]; apply conf_ret; pose proof (inv_looked_up _ _ Hi Hl) as Hi'; (split_and!; [|apply Hl|try done]).
  - done.
  - intros Hready. destruct (Hr Hready) as (_ & a & st & Hh & Hd & _ & E). eauto.
  - destruct Hi'. split; try done. cbn [waiters impl with_impl] in *. intros id' a' [Hin|Hin]%elem_of_app; [eauto|].
    apply list_elem_of_singleton in Hin as [= -> ->]. destruct Hr as (st & Hh & Hid).
    destruct Hl as [[_ _ _ Hg] _]. destruct (Hg a st Hh) as (st' & Hh' & E & _). exists st'. by rewrite E.
Qed.

Lemma perform_wait_resume c i timed_out : inv c → conf_ok (perform limits (WaitResume i timed_out)) c (stepped c).
Proof.
  intros Hi. apply conf_bind. change (conf_ok (match waiters c !! i with
    | None => mret NoReply
    | Some (id, a) => r ← on_impl (wait_resume id a timed_out);
        match r with None => mret NoReply | Some l => set_waiters (delete i);; mret (LookupReply l) end
    end) c (stepped c)).
  destruct (waiters c !! i) as [[id a]|] eqn:Hw; [|by apply conf_ret, stays].
  destruct (i_waiters _ Hi id a) as (st & Hh & _); [by eapply list_elem_of_lookup_2|].
  apply conf_impl_bind. eapply section_mono; [apply wait_resume_ok; try apply Hi; eauto|].
  intros [l|] s' (Hl & Hr); [apply conf_modify|]; apply conf_ret; pose proof (inv_looked_up _ _ Hi Hl) as Hi'; (split_and!; [|apply Hl|try done]).
  - destruct Hi'. split; try done. cbn [waiters impl with_impl] in *. intros id' a' Hin. apply i_waiters0.
    by eapply list_elem_of_delete_inv.
  - intros Hready. destruct (Hr Hready) as (st' & ? & ? & ?). eauto.
  - done.
Qed.
(** The accounts do not look at the mode of the runtime. *)
Lemma drained_accounts Q R s : accounts limits Q R s → accounts limits Q R (set_draining true (set_accepting false s)).
Proof. by intros []. Qed.
Lemma stopping_accounts Q R s : accounts limits Q R s → accounts limits Q R (set_stopping true s).
Proof. by intros []. Qed.
Lemma joined_accounts Q R s : accounts limits Q R s → accounts limits Q R (set_live false (set_joined true s)).
Proof. by intros []. Qed.

Lemma inv_drained c : inv c → inv (with_impl (set_draining true (set_accepting false (impl c))) c).
Proof.
  intros []. split; cbn [impl with_impl workers waiters closer]; try done.
  - by apply drained_accounts.
  - intros Hst. split; [by apply i_stop0|done].
  - destruct (closer c) as [[]|]; try done. by destruct i_closer0.
Qed.

Lemma perform_drain c : inv c → conf_ok (perform limits Drain) c (stepped c).
Proof.
  intros Hi. apply conf_impl_bind. unfold beginDrain. apply section_gets.
  destruct (_ || _); [apply section_ret, conf_ret; split_and!; [by destruct c|apply grows_refl|done]|].
  apply section_modify, section_ret, conf_ret. split_and!; [by apply inv_drained|apply (grows_refl (impl c))|done].
Qed.

Lemma perform_shutdown_begin c : inv c → conf_ok (perform limits ShutdownBegin) c (stepped c).
Proof.
  intros Hi. apply conf_bind. change (conf_ok (match closer c with
    | Some _ => mret NoReply
    | None => r ← on_impl shutdown_begin;
        match r with Some b => mret (BoolReply b) | None => set_closer (Some Draining);; mret NoReply end
    end) c (stepped c)).
  destruct (closer c) eqn:Hc; [by apply conf_ret, stays|].
  apply conf_impl_bind. unfold shutdown_begin. apply section_gets.
  destruct (joined (impl c)) eqn:Hj; [apply section_ret, conf_ret; split_and!; [by destruct c|apply grows_refl|done]|].
  apply section_modify, section_ret, conf_modify, conf_ret.
  split_and!; [|apply (grows_refl (impl c))|done]. pose proof (i_closer _ Hi) as Hcl. rewrite Hc, Hj in Hcl.
  destruct (inv_drained c Hi). split; try done. cbn. split; [done|]. by destruct (stopping (impl c)); [discriminate Hcl|].
Qed.

(** The runtime stops with an empty queue. *)
Lemma inv_stopped c s' cl : inv c → accounts limits [] (running (workers c)) s' → kept limits s' → queue s' = [] →
  accepting s' = false → stopping s' = true → joined s' = joined (impl c) → live s' = live (impl c) →
  tallied (counters s') → grows (impl c) s' →
  match cl with Some Draining | None => False | _ => True end →
  inv {| impl := s'; workers := workers c; waiters := waiters c; closer := cl |}.
Proof.
  intros [] Hac Hk Hq Ha Hs Hj Hl Ht Hg Hcl. pose proof (us_queue _ lim).
  split; cbn [impl workers waiters closer]; try done.
  - by rewrite Hq.
  - rewrite Hq. simpl. lia.
  - by destruct cl as [[]|].
  - rewrite Hj. intros Hjo. split; [done|]. by apply i_joined0.
  - congruence.
  - by apply waiters_grow.
Qed.

Lemma shutdown_stop_ok c now : inv c → accepting (impl c) = false →
  ∃ graceful s', shutdown_stop limits now (impl c) = Done (graceful, s') ∧
    accounts limits [] (running (workers c)) s' ∧ kept limits s' ∧ queue s' = [] ∧ accepting s' = false ∧
    stopping s' = true ∧ joined s' = joined (impl c) ∧ live s' = live (impl c) ∧ tallied (counters s') ∧ grows (impl c) s'.
Proof.
  intros Hi Ha. unfold shutdown_stop. rewrite run_gets. destruct (Z.eqb_spec (in_flight (impl c)) 0) as [E|E].
  - assert (queue (impl c) = []) as Hq.
    { pose proof (ac_in_flight _ _ _ _ (i_accounts _ Hi)). destruct (queue (impl c)); [done|simpl in *; lia]. }
    exists true, (set_stopping true (impl c)). split; [done|]. destruct Hi. rewrite Hq in i_accounts0.
    split_and!; try done; [by apply stopping_accounts|apply (grows_refl (impl c))].
  - destruct (abandon_ok limits lim (running (workers c)) "grace_period_exhausted" now (impl c)) as
      (s1 & E1 & Hac & Hk & Hq & Hf & Hg); try apply Hi; [done|].
    exists false, (set_stopping true s1). split; [by rewrite (run_done _ _ _ _ _ E1)|].
    pose proof (tallied_same _ _ Hf (i_tallied _ Hi)). destruct Hf as ((El & Ea & _ & _ & Ej) & _).
    split_and!; try done; [by apply stopping_accounts|cbn; congruence].
Qed.

Lemma perform_shutdown_stop c timed_out now : inv c → conf_ok (perform limits (ShutdownStop timed_out now)) c (stepped c).
Proof.
  intros Hi. apply conf_bind. change (conf_ok (match closer c with
    | Some Draining => if timed_out || (in_flight (impl c) =? 0) then
        graceful ← on_impl (shutdown_stop limits now); set_closer (Some (Joining graceful));; mret NoReply
        else mret NoReply
    | _ => mret NoReply end) c (stepped c)).
  pose proof (i_closer _ Hi) as Hcl. destruct (closer c) as [[]|]; try by apply conf_ret, stays.
  destruct Hcl as [Hcl _]. destruct (_ || _); [|by apply conf_ret, stays].
  destruct (shutdown_stop_ok c now Hi Hcl) as (g & s' & E & ? & ? & ? & ? & ? & ? & ? & ? & ?).
  apply conf_impl_bind. eapply section_done; [exact E|]. apply conf_modify, conf_ret. split_and!; [|done|done].
  by apply (inv_stopped c).
Qed.

Lemma perform_destroy_begin c now : inv c → conf_ok (perform limits (DestroyBegin now)) c (stepped c).
Proof.
  intros Hi. apply conf_bind. change (conf_ok (match closer c with
    | Some _ => mret NoReply
    | None => r ← on_impl (destroy_begin limits now);
        (if (r : bool) then set_closer (Some Destroying) else mret tt);; mret NoReply end) c (stepped c)).
  destruct (closer c) eqn:Hc; [by apply conf_ret, stays|].
  apply conf_impl_bind. unfold destroy_begin. apply section_gets.
  destruct (joined (impl c)) eqn:Hj; [apply section_ret, conf_ret; split_and!; [by destruct c|apply grows_refl|done]|].
  apply section_modify. set (s0 := set_stopping true _).
  assert (accounts limits (queue s0) (running (workers c)) s0) as Hac0
    by (apply stopping_accounts, drained_accounts, Hi).
  destruct (abandon_ok limits lim (running (workers c)) "runtime_destructor_shutdown" now s0) as
    (s1 & E1 & Hac & Hk & Hq & Hf & Hg); try done; [apply Hi|].
  eapply section_step; [exact E1|]. apply section_ret, conf_modify, conf_ret.
  pose proof (tallied_same _ _ Hf (i_tallied _ Hi)). destruct Hf as ((El & Ea & _ & Es & Ej) & _).
  split_and!; [|done|done]. by apply (inv_stopped c).
Qed.

Lemma perform_join c : inv c → conf_ok (perform limits Join) c (stepped c).
Proof.
  intros Hi. apply conf_bind. change (conf_ok (if forallb ended (workers c) then match closer c with
    | Some (Joining graceful) => on_impl shutdown_join;; set_closer None;; mret (BoolReply graceful)
    | Some Destroying => on_impl shutdown_join;; set_closer None;; mret NoReply
    | _ => mret NoReply end else mret NoReply) c (stepped c)).
  destruct (forallb ended (workers c)) eqn:He; [|by apply conf_ret, stays].
  pose proof (i_closer _ Hi) as Hcl.
  assert (stopping (impl c) = true → inv {| impl := set_live false (set_joined true (impl c)); workers := workers c;
                                            waiters := waiters c; closer := None |}) as Hinv.
  { intros Hst. destruct Hi. split; try done. by apply joined_accounts. }
  destruct (closer c) as [[|g|]|]; try (by apply conf_ret, stays);
    (apply conf_impl_bind, section_last, conf_modify, conf_ret; split_and!; [by apply Hinv|apply (grows_refl (impl c))|done]).
Qed.
Lemma inv_workers c s' i w w' : inv c → workers c !! i = Some w →
  accounts limits (queue s') (running (<[i := w']> (workers c))) s' → kept limits s' → same_flags (impl c) s' →
  grows (impl c) s' → (length (queue s') ≤ length (queue (impl c)))%nat →
  (joined (impl c) = true → ended w' = true) →
  inv {| impl := s'; workers := <[i := w']> (workers c); waiters := waiters c; closer := closer c |}.
Proof.
  intros [] Hw Hac Hk Hf Hg Hq Hend. pose proof (tallied_same _ _ Hf i_tallied0) as Ht.
  destruct Hf as ((El & Ea & Ed & Es & Ej) & _). split; cbn [impl workers waiters closer]; try done.
  - lia.
  - by rewrite length_insert.
  - rewrite Es, Ea. intros [Hq0 ?]%i_stop0. rewrite Hq0 in Hq. simpl in Hq. split; [|done].
    destruct (queue s'); [done|simpl in Hq; lia].
  - by rewrite Ea, Es, Ej.
  - rewrite Ej, Es. intros Hj. destruct (i_joined0 Hj) as [Hst He]. split; [done|].
    apply forallb_forall. intros x Hx. apply list_elem_of_In in Hx. rewrite forallb_forall in He.
    apply list_elem_of_lookup in Hx as [j Hj']. apply list_lookup_insert_Some in Hj' as [(-> & <- & _)|[_ Hj']]; [auto|].
    apply He, list_elem_of_In. by eapply list_elem_of_lookup_2.
  - congruence.
  - by apply waiters_grow.
Qed.

(** A worker that has not ended shows that the runtime is not joined. *)
Lemma not_joined c i w : inv c → workers c !! i = Some w → ended w = false → joined (impl c) = false.
Proof.
  intros Hi Hw He. destruct (joined (impl c)) eqn:Hj; [|done]. destruct (i_joined _ Hi Hj) as [_ Hall].
  rewrite forallb_forall in Hall. specialize (Hall w). rewrite <- list_elem_of_In in Hall.
  rewrite Hall in He; [done|]. by eapply list_elem_of_lookup_2.
Qed.

Lemma perform_worker_take c i t : inv c → conf_ok (perform limits (WorkerTake i t)) c (stepped c).
Proof.
  intros Hi. apply conf_bind. change (conf_ok (match workers c !! i with
    | Some Idle => if stopping (impl c) || negb (bool_decide (queue (impl c) = [])) then
        n ← on_impl (worker_take limits t);
        (match n with Continue => mret tt | Run a => set_worker i (Running a) | Exit => set_worker i Ended end);;
        mret NoReply else mret NoReply
    | _ => mret NoReply end) c (stepped c)).
  destruct (workers c !! i) as [[| |]|] eqn:Hw; try by apply conf_ret, stays.
  destruct (_ || _); [|by apply conf_ret, stays]. pose proof (not_joined c i Idle Hi Hw eq_refl) as Hj.
  destruct (running_split _ _ _ Hw) as (rest & Hrun & Hnew). cbn [held app] in Hrun.
  apply conf_impl_bind. eapply section_mono; [apply worker_take_ok; try apply Hi; done|].
  intros n s' (Hk & Hf & Hg & Hq & Hn). destruct n as [|a|].
  - apply conf_bind, conf_ret, conf_ret. split_and!; [|done|done].
    rewrite <- (list_insert_id (workers c) i Idle Hw) in Hn. destruct (inv_workers c s' i Idle Idle) as []; try done.
    { by rewrite Hj. }
    rewrite (list_insert_id (workers c) i Idle Hw) in *. by split.
  - apply conf_modify, conf_ret. split_and!; [|done|done]. apply (inv_workers c s' i Idle (Running a)); try done; [|by rewrite Hj].
    eapply accounts_perm; [reflexivity| |exact Hn]. by rewrite Hnew, Hrun.
  - apply conf_modify, conf_ret. split_and!; [|done|done]. apply (inv_workers c s' i Idle Ended); try done.
    eapply accounts_perm; [reflexivity| |apply Hn]. by rewrite Hnew, Hrun.
Qed.

Lemma perform_worker_finish c i o now : inv c → conf_ok (perform limits (WorkerFinish i o now)) c (stepped c).
Proof.
  intros Hi. apply conf_bind. change (conf_ok (match workers c !! i with
    | Some (Running a) => on_impl (worker_finish limits a o now);; set_worker i Idle;; mret NoReply
    | _ => mret NoReply end) c (stepped c)).
  destruct (workers c !! i) as [[|a|]|] eqn:Hw; try by apply conf_ret, stays.
  pose proof (not_joined c i _ Hi Hw eq_refl) as Hj. destruct (running_split _ _ _ Hw) as (rest & Hrun & Hnew).
  destruct (worker_finish_ok limits lim (queue (impl c)) rest a o now (impl c)) as (s' & E & Hac & Hk & (Hq & _ & Hf) & Hg).
  { eapply accounts_perm; [reflexivity|exact Hrun|apply Hi]. }
  { apply Hi. }
  apply conf_impl_bind. eapply section_done; [exact E|]. apply conf_modify, conf_ret. split_and!; [|done|done].
  apply (inv_workers c s' i (Running a) Idle); try done; [|by rewrite Hq|by rewrite Hj].
  rewrite Hq. eapply accounts_perm; [reflexivity| |exact Hac]. by rewrite Hnew.
Qed.

Lemma perform_ok c act : inv c → conf_ok (perform limits act) c (stepped c).
Proof.
  destruct act; auto using perform_submit, perform_cancel, perform_wait_begin, perform_wait_resume, perform_drain,
    perform_shutdown_begin, perform_shutdown_stop, perform_destroy_begin, perform_join, perform_worker_take,
    perform_worker_finish.
Qed.
(** ** Runs *)

Lemma inv_initial : inv (initial limits).
Proof.
  assert (running (replicate (Z.to_nat (worker_threads limits)) Idle) = []) as Hr by (induction (Z.to_nat _); simpl; auto).
  pose proof (us_queue _ lim). pose proof (us_flight _ lim). pose proof (us_workers _ lim).
  pose proof (us_request _ lim). pose proof (us_response _ lim). pose proof (us_results _ lim).
  split; unfold initial; cbn [impl workers waiters closer]; rewrite ?Hr; try done.
  - split; cbn; try done; try (by intros; simplify_map_eq); try lia; try set_solver; try apply NoDup_nil_2. by exists 0.
  - split; cbn; lia.
  - by exists 0.
  - cbn. lia.
  - rewrite length_replicate. lia.
  - intros id a Hin. set_solver.
Qed.

Definition ran (c : config) (r : outcome (list reply * config)) : Prop :=
  match r with
  | Done (_, c') => inv c' ∧ grows (impl c) (impl c')
  | Undefined reason => reason = erased_reference
  | OutOfFuel => False
  end.

Lemma run_ok acts c : inv c → ran c (run limits acts c).
Proof.
  revert c. induction acts as [|act acts IH]; intros c Hi; cbn [run]; [split; [done|apply grows_refl]|].
  unfold mbind, SM_bind. pose proof (perform_ok c act Hi) as Hp. unfold conf_ok in Hp.
  destruct (perform limits act c) as [[r c1]| |]; [|done..]. destruct Hp as (Hi1 & Hg1 & _).
  specialize (IH c1 Hi1). destruct (run limits acts c1) as [[rs c2]| |]; [|done..].
  destruct IH as [Hi2 Hg2]. split; [done|]. by eapply grows_trans.
Qed.

Lemma run_app acts acts' c : run limits (acts ++ acts') c =
  (rs ← run limits acts; rs' ← run limits acts'; mret (rs ++ rs')%list) c.
Proof.
  revert c. induction acts as [|act acts IH]; intros c; cbn [run app]; unfold mbind, SM_bind, mret, SM_ret.
  - by destruct (run limits acts' c) as [[? ?]| |].
  - destruct (perform limits act c) as [[r c1]| |]; [|done..]. rewrite IH. unfold mbind, SM_bind, mret, SM_ret.
    destruct (run limits acts c1) as [[rs c2]| |]; [|done..]. by destruct (run limits acts' c2) as [[rs' c3]| |].
Qed.

(** ** Ending the workers *)

Lemma take_exit c t : stopping (impl c) = true → queue (impl c) = [] → worker_take limits t (impl c) = Done (Exit, impl c).
Proof. intros Hs Hq. unfold worker_take. rewrite run_gets. unfold id. rewrite Hs, bool_decide_true by done. done. Qed.

Definition at_once : take_times := {| t_expire := 0; t_cancel := 0; t_check := 0; t_late := 0; t_start := 0 |}.

Definition with_worker (i : nat) (w : worker) (s : ServingRuntimeImpl) (c : config) : config :=
  {| impl := s; workers := <[i := w]> (workers c); waiters := waiters c; closer := closer c |}.

Lemma idle_ends c i : inv c → stopping (impl c) = true → workers c !! i = Some Idle →
  perform limits (WorkerTake i at_once) c = Done (NoReply, with_worker i Ended (impl c) c).
Proof.
  intros Hi Hs Hw. destruct (i_stop _ Hi Hs) as [Hq _]. unfold perform. rewrite run_gets. unfold id. rewrite Hw, Hs.
  cbn [orb]. rewrite (run_done _ _ _ Exit (with_impl (impl c) c)); [done|].
  unfold on_impl. by rewrite (take_exit c at_once Hs Hq).
Qed.

Lemma running_ends c i a : inv c → workers c !! i = Some (Running a) →
  ∃ s', perform limits (WorkerFinish i ThrewUnknown 0) c = Done (NoReply, with_worker i Idle s' c) ∧
    stopping s' = stopping (impl c).
Proof.
  intros Hi Hw. destruct (running_split _ _ _ Hw) as (rest & Hrun & _).
  destruct (worker_finish_ok limits lim (queue (impl c)) rest a ThrewUnknown 0 (impl c)) as (s' & E & _ & _ & (_ & _ & Hf) & _).
  { eapply accounts_perm; [reflexivity|exact Hrun|apply Hi]. }
  { apply Hi. }
  exists s'. split; [|apply Hf]. unfold perform. rewrite run_gets. unfold id. rewrite Hw.
  rewrite (run_done _ _ _ tt (with_impl s' c)); [done|]. unfold on_impl. by rewrite E.
Qed.

(** The actions that end a worker, whatever it is doing. *)
Definition end_worker (w : worker) (i : nat) : list action :=
  match w with
  | Ended => []
  | Idle => [WorkerTake i at_once]
  | Running _ => [WorkerFinish i ThrewUnknown 0; WorkerTake i at_once]
  end.

Lemma end_worker_ok c i w : inv c → stopping (impl c) = true → workers c !! i = Some w →
  ∃ rs c', run limits (end_worker w i) c = Done (rs, c') ∧ inv c' ∧ stopping (impl c') = true ∧ closer c' = closer c ∧
    workers c' = <[i := Ended]> (workers c).
Proof.
  intros Hi Hs Hw. destruct w as [|a|]; cbn [end_worker run].
  - pose proof (idle_ends c i Hi Hs Hw) as E. pose proof (perform_ok c (WorkerTake i at_once) Hi) as Hp.
    unfold conf_ok in Hp. rewrite E in Hp. destruct Hp as (Hi' & _). eexists _, _. unfold mbind, SM_bind. rewrite E. done.
  - destruct (running_ends c i a Hi Hw) as (s' & E & Es). pose proof (perform_ok c (WorkerFinish i ThrewUnknown 0) Hi) as Hp.
    unfold conf_ok in Hp. rewrite E in Hp. destruct Hp as (Hi' & _).
    assert (workers (with_worker i Idle s' c) !! i = Some Idle) as Hw'.
    { apply list_lookup_insert_eq. by eapply lookup_lt_Some. }
    pose proof (idle_ends _ i Hi' ltac:(cbn; congruence) Hw') as E'.
    pose proof (perform_ok _ (WorkerTake i at_once) Hi') as Hp'. unfold conf_ok in Hp'. rewrite E' in Hp'. destruct Hp' as (Hi'' & _).
    eexists _, _. unfold mbind, SM_bind. rewrite E, E'. split; [done|]. split; [done|]. split; [cbn; congruence|].
    split; [done|]. cbn. apply list_insert_insert_eq.
  - exists [], c. split_and!; try done. by rewrite list_insert_id.
Qed.

Lemma end_workers_ok n c : inv c → stopping (impl c) = true → (n ≤ length (workers c))%nat →
  (∀ j w, workers c !! j = Some w → (n ≤ j)%nat → ended w = true) →
  ∃ acts rs c', run limits acts c = Done (rs, c') ∧ inv c' ∧ closer c' = closer c ∧ forallb ended (workers c') = true.
Proof.
  revert c. induction n as [|n IH]; intros c Hi Hs Hn Hrest.
  - exists [], [], c. split_and!; try done. apply forallb_forall. intros w Hw.
    apply list_elem_of_In, list_elem_of_lookup in Hw as [j Hj]. apply (Hrest j w Hj). lia.
  - destruct (lookup_lt_is_Some_2 (workers c) n) as [w Hw]; [lia|].
    destruct (end_worker_ok c n w Hi Hs Hw) as (rs & c1 & E & Hi1 & Hs1 & Hc1 & Hw1).
    destruct (IH c1 Hi1 Hs1) as (acts & rs' & c2 & E2 & Hi2 & Hc2 & He2).
    { rewrite Hw1, length_insert. lia. }
    { rewrite Hw1. intros j w' [(-> & <- & _)|[Hne Hj]]%list_lookup_insert_Some ?; [done|]. apply (Hrest j); [done|lia]. }
    exists (end_worker w n ++ acts)%list, (rs ++ rs')%list, c2. rewrite run_app. unfold mbind, SM_bind. rewrite E, E2.
    split_and!; try done. congruence.
Qed.

(** A runtime that is stopping can be joined. *)
Lemma stopping_joins c : inv c → stopping (impl c) = true → closer c ≠ None →
  ∃ acts rs c', run limits acts c = Done (rs, c') ∧ joined (impl c') = true.
Proof.
  intros Hi Hs Hc. destruct (end_workers_ok (length (workers c)) c Hi Hs (le_n _)) as (acts & rs & c1 & E & Hi1 & Hc1 & He).
  { intros j w Hj Hle. apply lookup_lt_Some in Hj. lia. }
  exists (acts ++ [Join])%list. rewrite run_app. unfold mbind, SM_bind. rewrite E. cbn [run].
  pose proof (i_closer _ Hi) as Hcl. rewrite <- Hc1 in *. unfold perform, mbind, SM_bind, gets. unfold id. rewrite He.
  destruct (closer c1) as [[|g|]|]; [destruct Hcl; congruence|eexists _, _; done..|done].
Qed.

Lemma run_one act c r c' : perform limits act c = Done (r, c') → run limits [act] c = Done ([r], c').
Proof. intros E. cbn [run]. unfold mbind, SM_bind. by rewrite E. Qed.

Lemma draining_joins c : inv c → closer c = Some Draining →
  ∃ acts rs c', run limits acts c = Done (rs, c') ∧ joined (impl c') = true.
Proof.
  intros Hi Hc. pose proof (i_closer _ Hi) as Hcl. rewrite Hc in Hcl. destruct Hcl as [Ha _].
  destruct (shutdown_stop_ok c 0 Hi Ha) as (g & s' & E & ? & ? & ? & ? & Hs & ? & ? & ? & ?).
  set (c1 := {| impl := s'; workers := workers c; waiters := waiters c; closer := Some (Joining g) |}).
  assert (perform limits (ShutdownStop true 0) c = Done (NoReply, c1)) as E1.
  { unfold perform. rewrite run_gets. unfold id. rewrite Hc. cbn [orb].
    rewrite (run_done _ _ _ g (with_impl s' c)); [done|]. unfold on_impl. by rewrite E. }
  destruct (stopping_joins c1) as (acts & rs & c2 & E2 & Hj); [by apply (inv_stopped c)|done|done|].
  eexists ([ShutdownStop true 0] ++ acts)%list, _, c2. rewrite run_app. unfold mbind, SM_bind.
  rewrite (run_one _ _ _ _ E1), E2. done.
Qed.

Lemma any_joins c : inv c → ∃ acts rs c', run limits acts c = Done (rs, c') ∧ joined (impl c') = true.
Proof.
  intros Hi. pose proof (i_closer _ Hi) as Hcl. destruct (closer c) as [[| |]|] eqn:Hc.
  - by apply draining_joins.
  - apply stopping_joins; congruence.
  - apply stopping_joins; congruence.
  - destruct (joined (impl c)) eqn:Hj; [by exists [], [], c|].
    set (c1 := {| impl := set_draining true (set_accepting false (impl c)); workers := workers c; waiters := waiters c;
                  closer := Some Draining |}).
    assert (perform limits ShutdownBegin c = Done (NoReply, c1)) as E1.
    { unfold perform, mbind, SM_bind, gets, id. rewrite Hc. unfold on_impl, shutdown_begin, mbind, SM_bind, gets. by rewrite Hj. }
    pose proof (perform_ok c ShutdownBegin Hi) as Hp. unfold conf_ok in Hp. rewrite E1 in Hp.
    destruct (draining_joins c1) as (acts & rs & c2 & E2 & Hj2); [by destruct Hp|done|].
    eexists ([ShutdownBegin] ++ acts)%list, _, c2. rewrite run_app. unfold mbind, SM_bind.
    rewrite (run_one _ _ _ _ E1), E2. done.
Qed.
End Runs.

(** * Properties *)

(** A run of a new runtime. *)
Definition reaches (limits : RuntimeLimits) (acts : list action) (c : config) : Prop :=
  ∃ rs, run limits acts (initial limits) = Done (rs, c).

Lemma reached_inv limits acts c : sizes limits → validateLimits limits = None → reaches limits acts c → inv limits c.
Proof.
  intros Hs Hv [rs E]. pose proof (validated_usable _ Hs Hv) as lim.
  pose proof (run_ok limits lim acts _ (inv_initial limits lim)) as Hr. rewrite E in Hr. apply Hr.
Qed.

(** C6.  The serving runtime stays within its limits.  However the calls of the
    host, the workers and a shutdown interleave, the queue, the requests in
    flight, their bytes, the running handlers, the retained results and their
    bytes never exceed the configured limits, what is in flight is exactly what
    is queued or running, and the only undefined behaviour any run can have is
    the use of a reference into the queue after its element was erased. *)
Theorem serving_stays_within_limits limits acts :
  sizes limits → validateLimits limits = None →
  match run limits acts (initial limits) with
  | Done (_, c) =>
      let s := impl c in
      Z.of_nat (length (queue s)) ≤ queue_capacity limits ∧
      0 ≤ active s ≤ worker_threads limits ∧
      in_flight s = Z.of_nat (length (queue s)) + active s ∧
      in_flight s ≤ max_in_flight limits ∧
      in_flight_request_bytes s = payloads (heap s) (queue s ++ running (workers c)) ∧
      in_flight_request_bytes s ≤ max_in_flight_request_bytes limits ∧
      Z.of_nat (length (completed_order s)) ≤ completed_result_capacity limits ∧
      0 ≤ retained_result_bytes s ≤ max_retained_result_bytes limits
  | Undefined reason => reason = erased_reference
  | OutOfFuel => False
  end.
Proof.
  intros Hs Hv. pose proof (validated_usable _ Hs Hv) as lim.
  pose proof (run_ok limits lim acts _ (inv_initial limits lim)) as Hr.
  destruct (run limits acts (initial limits)) as [[rs c]| |]; [|done..]. destruct Hr as [[[] [] ? ? Hw] _].
  pose proof (running_length (workers c)). cbn zeta. split_and!; try done; lia.
Qed.

(** C7.  Every request is accounted for.  In every state a run reaches, the
    submissions are the accepted requests plus the refusals of each kind, and
    the accepted requests are those that ended with a terminal status plus those
    still in flight: none is lost and none ends twice.  The counters are 64 bits
    wide, so the equations hold modulo 2^64. *)
Theorem serving_accounts_for_every_request limits acts c :
  sizes limits → validateLimits limits = None → reaches limits acts c →
  let m := metricsLocked (impl c) in
  submitted m mod 2 ^ 64 = (accepted m + refusals m) mod 2 ^ 64 ∧
  accepted m mod 2 ^ 64 = (terminals m + m_in_flight m) mod 2 ^ 64.
Proof.
  intros Hs Hv Hr. destruct (reached_inv _ _ _ Hs Hv Hr) as [[] ? [k Hk]]. destruct ac_count as [k' Hk']. cbn zeta.
  unfold terminals, refusals in *. cbn -[Z.pow Z.modulo].
  rewrite Hk, Hk'. by rewrite !Z.mod_add by done.
Qed.

(** C10.  Results are final.  Once a request has ended, no later action of any
    thread changes its state, its status or its output, and whenever a call to
    [wait] answers that a result is ready, the result is that of a request that
    had ended before the call was answered. *)
Theorem serving_results_are_final limits acts c act :
  sizes limits → validateLimits limits = None → reaches limits acts c →
  match perform limits act c with
  | Done (r, c') =>
      (∀ a st, heap (impl c) !! a = Some st → done st = true → heap (impl c') !! a = Some st) ∧
      (∀ l, r = LookupReply l → lk_status l = Ready →
       ∃ a st, heap (impl c) !! a = Some st ∧ done st = true ∧ lk_result l = result st)
  | Undefined reason => reason = erased_reference
  | OutOfFuel => False
  end.
Proof.
  intros Hs Hv Hr. pose proof (validated_usable _ Hs Hv) as lim.
  pose proof (perform_ok limits lim c act (reached_inv _ _ _ Hs Hv Hr)) as Hp. unfold conf_ok in Hp.
  destruct (perform limits act c) as [[r c']| |]; [|done..]. destruct Hp as (_ & Hg & Ha). split.
  - intros a st Hh Hd. destruct (Hg a st Hh) as (st' & Hh' & _ & _ & E). by rewrite (E Hd) in Hh'.
  - intros l -> Hready. by apply Ha.
Qed.

(** C8.  A shutdown leaves nothing behind.  When a run has joined its workers,
    the queue is empty, nothing is in flight, every request ever accepted has a
    terminal status, and every later submission is refused. *)
Theorem serving_shutdown_is_complete limits acts c r now :
  sizes limits → validateLimits limits = None → reaches limits acts c → joined (impl c) = true →
  queue (impl c) = [] ∧ in_flight (impl c) = 0 ∧ in_flight_request_bytes (impl c) = 0 ∧
  (∀ a st, heap (impl c) !! a = Some st → done st = true) ∧
  ∃ c', perform limits (Submit r now) c =
    Done (AdmissionReply {| ad_status := RejectedNotReady; ad_reason := "runtime_not_accepting" |}, c').
Proof.
  intros Hs Hv Hr Hj. destruct (reached_inv _ _ _ Hs Hv Hr) as [[] ? ? ? ? Hstop ? Hjoin].
  destruct (Hjoin Hj) as [Hst Hend]. destruct (Hstop Hst) as [Hq Ha]. pose proof (ended_running _ Hend) as Hrun.
  rewrite Hq, Hrun in *. split_and!; try done.
  - intros a st Hh. destruct (done st) eqn:Hd; [done|]. specialize (ac_pending a st Hh Hd). set_solver.
  - eexists. unfold perform, mbind, SM_bind, gets, on_impl, submit, expireQueuedLocked, mbind, SM_bind, modify, gets.
    cbn -[admission_check]. rewrite Hq. cbn -[admission_check]. unfold admission_check. cbn [accepting stopping set_counters].
    rewrite Ha. done.
Qed.

(** C9.  A runtime can always be shut down: from every state a run reaches there
    are actions of the host and of the workers after which all threads are
    joined.  No state is stuck, whatever was queued or running. *)
Theorem serving_can_always_shut_down limits acts c :
  sizes limits → validateLimits limits = None → reaches limits acts c →
  ∃ acts' rs c', run limits acts' c = Done (rs, c') ∧ joined (impl c') = true.
Proof.
  intros Hs Hv Hr. pose proof (validated_usable _ Hs Hv) as lim. apply any_joins; [done|]. by eapply reached_inv.
Qed.

Lemma expire_undefined now a st q s : (∀ b, b ∈ q → is_Some (heap s !! b)) → a ∈ q → heap s !! a = Some st →
  deadline st ≤ now → expire_loop now q s = Undefined erased_reference.
Proof.
  intros Hall Hin Hh Hd. induction q as [|b q IH]; [set_solver|]. cbn [expire_loop].
  destruct (Hall b) as [stb Hb]; [set_solver|]. rewrite (run_load _ _ _ stb) by done.
  apply elem_of_cons in Hin as [->|Hin].
  - rewrite Hh in Hb. injection Hb as ->. apply Z.leb_le in Hd. by rewrite Hd.
  - destruct (_ || _); [done|]. apply IH; [set_solver|done].
Qed.

(** C37.  A queued request whose deadline has passed makes the next submission
    and the next section of a worker undefined: [expireQueuedLocked] erases the
    element of the queue and then finishes the request through the reference to
    that element. *)
Theorem expired_queue_entry_is_undefined limits acts c a st r now t :
  sizes limits → validateLimits limits = None → reaches limits acts c →
  a ∈ queue (impl c) → heap (impl c) !! a = Some st → deadline st ≤ now → t_expire t = now →
  perform limits (Submit r now) c = Undefined erased_reference ∧
  worker_take limits t (impl c) = Undefined erased_reference.
Proof.
  intros Hs Hv Hr Hin Hh Hd Ht. destruct (reached_inv _ _ _ Hs Hv Hr) as [[]].
  assert (∀ b, b ∈ queue (impl c) → is_Some (heap (impl c) !! b)) as Hall.
  { intros b (stb & Hb & _)%ac_queued. eauto. }
  split.
  - unfold perform. rewrite run_gets. apply run_undefined. unfold on_impl, submit. rewrite run_modify.
    rewrite (run_undefined (expireQueuedLocked now) _ _ erased_reference); [done|].
    unfold expireQueuedLocked. rewrite run_gets. by apply (expire_undefined now a st).
  - assert (queue (impl c) ≠ []) as Hne by (intros E; rewrite E in Hin; set_solver).
    unfold worker_take. rewrite run_gets. unfold id. rewrite bool_decide_false, andb_false_r by done.
    apply run_undefined. unfold expireQueuedLocked. rewrite run_gets, Ht. by apply (expire_undefined now a st).
Qed.

(** * Sample runs *)

Definition sample_limits : RuntimeLimits :=
  {| tenant_scope := "tenant-a"; worker_threads := 1; queue_capacity := 2; max_in_flight := 2;
     completed_result_capacity := 2; max_request_bytes := 8; max_response_bytes := 8;
     max_in_flight_request_bytes := 8; max_retained_result_bytes := 8; max_deadline := 1000 |}.

(** A request for one millisecond. *)
Definition sample_request (id : string) : Request :=
  {| request_id := id; tenant_id := "tenant-a"; payload := "abc"; timeout := 1 |}.

Definition at_time (t : Z) : take_times :=
  {| t_expire := t; t_cancel := t; t_check := t; t_late := t; t_start := t |}.

Lemma sample_sizes : sizes sample_limits.
Proof. unfold sizes, is_size, SIZE_MAX. repeat constructor; done. Qed.

(** Two requests: one runs and answers, the other is cancelled in the queue. *)
Definition sample_run : list action :=
  [Submit (sample_request "x") 0; Submit (sample_request "y") 5; WorkerTake 0 (at_time 10); WaitBegin "tenant-a" "x" 1;
   Cancel "tenant-a" "y" 11; WorkerFinish 0 (Returned (succeeded_with "ok")) 12].

Definition sample_state : config :=
  match run sample_limits sample_run (initial sample_limits) with Done (_, c) => c | _ => initial sample_limits end.

Lemma sample_reached : reaches sample_limits sample_run sample_state.
Proof. unfold reaches, sample_state. destruct (run _ _ _) as [[rs c]| |] eqn:E; [eauto|vm_compute in E; discriminate E..]. Qed.

Lemma serving_stays_within_limits_witness :
  match run sample_limits sample_run (initial sample_limits) with
  | Done (_, c) => completed_order (impl c) = ["x"] ∧ in_flight (impl c) ≤ 2
  | _ => False
  end.
Proof.
  pose proof (serving_stays_within_limits sample_limits sample_run sample_sizes eq_refl) as H.
  destruct (run sample_limits sample_run (initial sample_limits)) as [[rs c]| |] eqn:E; [|vm_compute in E; discriminate E..].
  split; [|apply H]. vm_compute in E. injection E as _ <-. reflexivity.
Defined.

Lemma serving_accounts_for_every_request_witness :
  let m := metricsLocked (impl sample_state) in
  (accepted m, terminals m, m_in_flight m) = (2, 2, 0) ∧ accepted m mod 2 ^ 64 = (terminals m + m_in_flight m) mod 2 ^ 64.
Proof.
  split; [vm_compute; reflexivity|].
  apply (serving_accounts_for_every_request sample_limits sample_run sample_state sample_sizes eq_refl sample_reached).
Defined.

Lemma serving_results_are_final_witness :
  match perform sample_limits (WaitResume 0 false) sample_state with
  | Done (LookupReply l, c') => r_output (lk_result l) = "ok" ∧
      ∀ a st, heap (impl sample_state) !! a = Some st → done st = true → heap (impl c') !! a = Some st
  | _ => False
  end.
Proof.
  pose proof (serving_results_are_final sample_limits sample_run sample_state (WaitResume 0 false)
    sample_sizes eq_refl sample_reached) as H.
  destruct (perform sample_limits (WaitResume 0 false) sample_state) as [[r c']| |] eqn:E; [|vm_compute in E; discriminate E..].
  destruct r as [| | |l]; try (vm_compute in E; discriminate E). split; [|apply H].
  vm_compute in E. injection E as <- _. reflexivity.
Defined.

(** The sample run followed by a shutdown. *)
Definition closed_run : list action :=
  (sample_run ++ [ShutdownBegin; ShutdownStop false 20; WorkerTake 0 (at_time 21); Join])%list.

Definition closed_state : config :=
  match run sample_limits closed_run (initial sample_limits) with Done (_, c) => c | _ => initial sample_limits end.

Lemma closed_reached : reaches sample_limits closed_run closed_state.
Proof. unfold reaches, closed_state. destruct (run _ _ _) as [[rs c]| |] eqn:E; [eauto|vm_compute in E; discriminate E..]. Qed.

Lemma serving_shutdown_is_complete_witness :
  joined (impl closed_state) = true ∧ in_flight (impl closed_state) = 0 ∧
  ∀ a st, heap (impl closed_state) !! a = Some st → done st = true.
Proof.
  assert (joined (impl closed_state) = true) as Hj by (vm_compute; reflexivity). split; [exact Hj|].
  destruct (serving_shutdown_is_complete sample_limits closed_run closed_state (sample_request "z") 30
    sample_sizes eq_refl closed_reached Hj) as (_ & H1 & _ & H2 & _). split; [exact H1|exact H2].
Defined.

Lemma serving_can_always_shut_down_witness :
  ∃ acts' rs c', run sample_limits acts' sample_state = Done (rs, c') ∧ joined (impl c') = true.
Proof.
  apply (serving_can_always_shut_down sample_limits sample_run sample_state sample_sizes eq_refl sample_reached).
Defined.

(** One request in the queue and no worker that has taken it. *)
Definition waiting_run : list action := [Submit (sample_request "x") 0].

Definition waiting_state : config :=
  match run sample_limits waiting_run (initial sample_limits) with Done (_, c) => c | _ => initial sample_limits end.

Lemma waiting_reached : reaches sample_limits waiting_run waiting_state.
Proof. unfold reaches, waiting_state. destruct (run _ _ _) as [[rs c]| |] eqn:E; [eauto|vm_compute in E; discriminate E..]. Qed.

Lemma expired_queue_entry_is_undefined_witness :
  queue (impl waiting_state) = [0%N] ∧
  perform sample_limits (Submit (sample_request "y") 2000000) waiting_state = Undefined erased_reference.
Proof.
  split; [vm_compute; reflexivity|].
  apply (expired_queue_entry_is_undefined sample_limits waiting_run waiting_state 0%N (new_request (sample_request "x") 0)
    (sample_request "y") 2000000 (at_time 2000000) sample_sizes eq_refl waiting_reached);
    [vm_compute; constructor | vm_compute; reflexivity | vm_compute; discriminate | reflexivity].
Defined.

(** Two callers wait for the first request [x]; one takes its result; [x] is
    submitted again and ends; then the other caller wakes up. *)
Definition two_waiters : list action :=
  [Submit (sample_request "x") 0; WaitBegin "tenant-a" "x" 5; WaitBegin "tenant-a" "x" 5; WorkerTake 0 (at_time 1);
   WorkerFinish 0 (Returned (succeeded_with "")) 2; WaitResume 0 false;
   Submit (sample_request "x") 3; WorkerTake 0 (at_time 4); WorkerFinish 0 (Returned (succeeded_with "12345678")) 5;
   WaitResume 0 false].

(** A caller that wakes up late takes the place of a newer request with the
    same identifier: it removes the newer request from the list of retained
    results and gives back the bytes of its own result instead of the newer
    one's.  After this run no result is listed, yet the runtime counts its whole
    budget of result bytes as retained, and from then on every new result is
    evicted at once: a request that succeeds cannot be looked up. *)
Theorem late_waiter_leaks_result_bytes :
  ∃ rs c, run sample_limits two_waiters (initial sample_limits) = Done (rs, c) ∧
    completed_order (impl c) = [] ∧ in_flight (impl c) = 0 ∧
    retained_result_bytes (impl c) = max_retained_result_bytes sample_limits ∧
    ∃ rs' c', run sample_limits
        [Submit (sample_request "y") 6; WorkerTake 0 (at_time 7); WorkerFinish 0 (Returned (succeeded_with "ok")) 8;
         WaitBegin "tenant-a" "y" 5] c = Done (rs', c') ∧
      succeeded (counters (impl c')) = 3 ∧ last rs' = Some (LookupReply {| lk_status := NotFound; lk_result := no_result |}).
Proof.
  eexists _, _. split; [vm_compute; reflexivity|]. split; [reflexivity|]. split; [reflexivity|]. split; [reflexivity|].
  eexists _, _. split; [vm_compute; reflexivity|]. split; reflexivity.
Qed.
