(* ===== verification/ModuleResolver.v ===== *)
(** Component: packages and modules (module/ModuleResolver.h and .cpp).

    The resolver reads the manifest of a package and of its vendored
    dependencies, maps module names to files, orders the modules of a program by
    their imports, and writes and checks the lock file.

    The file system is the argument [fs]: what its queries answer for a path
    ([None] for an error), and the text of a file ([None] when it does not
    open).  A [bool] function with [code] and [message] out-parameters returns a
    sum: the pair of code and message on the left, or its result. *)
From stdpp Require Import sorting.
From S2P Require Import Prelude CxxInt CxxString CxxPath Sha256 Ast Diagnostics.
Open Scope string_scope.
Open Scope Z_scope.

(** * Data *)

Record ModuleUnitDescriptor := { module_name : string; source_path : string; imports : list string }.

Record PackageDependency := {
  dep_package_name : string; dep_version : string; relative_root : string; manifest_sha256 : string;
  dep_license_spdx : string;
}.

Record PackageManifest := { manifest_path : string; package_root : string; format : string; package_name : string;
     version : string; license_spdx : string; module_paths : gmap string string; module_packages : gmap string string;
     dependencies : gmap string PackageDependency; }.

Definition set_manifest_path (v : string) (s : PackageManifest) : PackageManifest :=
  {| manifest_path := v; package_root := package_root s; format := format s; package_name := package_name s; version
     := version s; license_spdx := license_spdx s; module_paths := module_paths s; module_packages := module_packages
     s; dependencies := dependencies s |}.
Definition set_package_root (v : string) (s : PackageManifest) : PackageManifest :=
  {| manifest_path := manifest_path s; package_root := v; format := format s; package_name := package_name s; version
     := version s; license_spdx := license_spdx s; module_paths := module_paths s; module_packages := module_packages
     s; dependencies := dependencies s |}.
Definition set_format (v : string) (s : PackageManifest) : PackageManifest :=
  {| manifest_path := manifest_path s; package_root := package_root s; format := v; package_name := package_name s;
     version := version s; license_spdx := license_spdx s; module_paths := module_paths s; module_packages :=
     module_packages s; dependencies := dependencies s |}.
Definition set_package_name (v : string) (s : PackageManifest) : PackageManifest :=
  {| manifest_path := manifest_path s; package_root := package_root s; format := format s; package_name := v; version
     := version s; license_spdx := license_spdx s; module_paths := module_paths s; module_packages := module_packages
     s; dependencies := dependencies s |}.
Definition set_version (v : string) (s : PackageManifest) : PackageManifest :=
  {| manifest_path := manifest_path s; package_root := package_root s; format := format s; package_name :=
     package_name s; version := v; license_spdx := license_spdx s; module_paths := module_paths s; module_packages :=
     module_packages s; dependencies := dependencies s |}.
Definition set_license_spdx (v : string) (s : PackageManifest) : PackageManifest :=
  {| manifest_path := manifest_path s; package_root := package_root s; format := format s; package_name :=
     package_name s; version := version s; license_spdx := v; module_paths := module_paths s; module_packages :=
     module_packages s; dependencies := dependencies s |}.
Definition set_module_paths (v : gmap string string) (s : PackageManifest) : PackageManifest :=
  {| manifest_path := manifest_path s; package_root := package_root s; format := format s; package_name :=
     package_name s; version := version s; license_spdx := license_spdx s; module_paths := v; module_packages :=
     module_packages s; dependencies := dependencies s |}.
Definition set_module_packages (v : gmap string string) (s : PackageManifest) : PackageManifest :=
  {| manifest_path := manifest_path s; package_root := package_root s; format := format s; package_name :=
     package_name s; version := version s; license_spdx := license_spdx s; module_paths := module_paths s;
     module_packages := v; dependencies := dependencies s |}.
Definition set_dependencies (v : gmap string PackageDependency) (s : PackageManifest) : PackageManifest :=
  {| manifest_path := manifest_path s; package_root := package_root s; format := format s; package_name :=
     package_name s; version := version s; license_spdx := license_spdx s; module_paths := module_paths s;
     module_packages := module_packages s; dependencies := v |}.

Definition empty_manifest : PackageManifest :=
  {| manifest_path := ""; package_root := ""; format := ""; package_name := ""; version := ""; license_spdx := "";
     module_paths := ∅; module_packages := ∅; dependencies := ∅ |}.

Definition kMaximumManifestBytes : Z := 1024 * 1024.
Definition kMaximumManifestLineBytes : Z := 16 * 1024.
Definition kMaximumManifestLines : Z := 4096.

(** * Texts *)

Definition trim (value : string) : string := drop_while_end isspace (drop_while isspace value).

(** The words [in >> value] reads from a line. *)
Fixpoint words_from (current : string) (line : string) : list string :=
  match line with
  | EmptyString => if is_empty current then [] else [current]
  | String c r =>
      if isspace c then (if is_empty current then words_from "" r else current :: words_from "" r)
      else words_from (current +:+ String c "") r
  end.

Definition words (line : string) : list string := words_from "" line.

Definition first_ok (c : ascii) : bool := isalpha c || (c =? "_")%char.
Definition segment_char (c : ascii) : bool := isalnum c || (c =? "_")%char.

Definition validIdentifierSegment (segment : string) : bool :=
  match segment with
  | EmptyString => false
  | String first _ => first_ok first && string_forallb segment_char segment
  end.

(** The loop visits the parts between the dots. *)
Definition validModuleName (value : string) : bool :=
  if is_empty value || bool_decide (front value = Some "."%char) || bool_decide (back value = Some "."%char) then false
  else forallb validIdentifierSegment (split_at "." value).

Definition startsWithPackage (module_name package_name : string) : bool :=
  if String.eqb module_name package_name then true
  else (str_size package_name <? str_size module_name) && String.prefix package_name module_name &&
       bool_decide (String.get (String.length package_name) module_name = Some "."%char).

Definition relativePathIsSafe (path : string) : bool :=
  if is_empty path || is_absolute path then false
  else if existsb (String.eqb "..") (path_elements path) then false
  else String.eqb (name_extension (filename (lexically_normal path))) ".short".

Definition relativeDirectoryIsSafe (path : string) : bool :=
  if is_empty path || is_absolute path || String.eqb path "." then false
  else negb (existsb (String.eqb "..") (path_elements path)).

Definition split (value : string) (delimiter : ascii) : list string := split_at delimiter value.

Definition semver_char (c : ascii) : bool := isdigit c || isupper c || islower c || (c =? "-")%char.

Definition validSemverIdentifier (value : string) (prerelease : bool) : bool :=
  if is_empty value then false
  else if negb (string_forallb semver_char value) then false
  else negb prerelease || negb (string_forallb isdigit value) || (str_size value =? 1) ||
       negb (bool_decide (front value = Some "0"%char)).

Definition validCoreNumber (value : string) : bool :=
  if is_empty value || ((1 <? str_size value) && bool_decide (front value = Some "0"%char)) then false
  else string_forallb isdigit value.

Definition validExactVersion (value : string) : bool :=
  if is_empty value || (128 <? str_size value) then false
  else
    let build := after_char "+" value in
    if match build with Some rest => bool_decide (is_Some (after_char "+" rest)) | None => false end then false
    else
      let core_and_prerelease := before_char "+" value in
      if match build with
         | Some b => negb (forallb (λ i, validSemverIdentifier i false) (split b "."))
         | None => false
         end then false
      else
        let core := before_char "-" core_and_prerelease in
        if match after_char "-" core_and_prerelease with
           | Some pre => negb (forallb (λ i, validSemverIdentifier i true) (split pre "."))
           | None => false
           end then false
        else
          match split core "." with
          | [major; minor; patch] => validCoreNumber major && validCoreNumber minor && validCoreNumber patch
          | _ => false
          end.

Definition allowed_licenses : list string :=
  ["Apache-2.0"; "Apache-2.0 WITH LLVM-exception"; "BSD-2-Clause"; "BSD-3-Clause"; "BSL-1.0"; "CC0-1.0";
   "ISC"; "MIT"; "MPL-2.0"; "Unicode-3.0"; "Zlib"].

Definition allowedRedistributedLicense (value : string) : bool := existsb (String.eqb value) allowed_licenses.

(** The words from [begin] on, one space between them. *)
Definition licenseField (parts : list string) (begin : nat) : string :=
  foldl (λ value part, (if is_empty value then value else value +:+ " ") +:+ part) "" (drop begin parts).

Definition lower_hex (c : ascii) : bool := isdigit c || between 97 102 c.

Definition validSha256 (value : string) : bool :=
  if negb (str_size value =? 71) || negb (String.prefix "sha256:" value) then false
  else string_forallb lower_hex (String.substring 7 64 value).

Definition hex_upper (n : N) : ascii := default "0"%char (String.get (N.to_nat n) "0123456789ABCDEF").

Definition chr_backslash : ascii := "092"%char.
Definition chr_return : ascii := "013"%char.
Definition chr_tab : ascii := "009"%char.

Definition escape_char (c : ascii) : string :=
  if (c =? chr_backslash)%char then String chr_backslash (String chr_backslash "")
  else if (c =? chr_quote)%char then String chr_backslash (String chr_quote "")
  else if (c =? chr_newline)%char then String chr_backslash "n"
  else if (c =? chr_return)%char then String chr_backslash "r"
  else if (c =? chr_tab)%char then String chr_backslash "t"
  else if (code c <? 32)%N then
    String chr_backslash ("u00" +:+ String (hex_upper (N.land (N.shiftr (code c) 4) 15))
                                       (String (hex_upper (N.land (code c) 15)) ""))
  else String c "".

Fixpoint jsonEscape (value : string) : string :=
  match value with
  | EmptyString => EmptyString
  | String c r => escape_char c +:+ jsonEscape r
  end.

(** * The file system *)

Record FileSystem := {
  weakly_canonical : string → option string;
  exists_ : string → bool;
  is_regular_file : string → bool;
  file_size : string → option Z;
  relative : string → string → option string;
  read : string → option string;
}.

(** An error of the resolver. *)
Abbreviation failure := (string * string)%type.

Definition fail {A} (code message : string) : failure + A := inl (code, message).

Fixpoint bytes_of (s : string) : list Z :=
  match s with
  | EmptyString => []
  | String c r => Z.of_N (code c) :: bytes_of r
  end.

(** The reads of a file through a buffer of 8192 bytes. *)
Fixpoint chunks (fuel : nat) (bytes : list Z) : list (list Z) :=
  match fuel, bytes with
  | S fuel, _ :: _ => take (Z.to_nat 8192) bytes :: chunks fuel (drop (Z.to_nat 8192) bytes)
  | _, _ => []
  end.

Definition reads_of (content : string) : list (list Z) :=
  let bytes := bytes_of content in chunks (length bytes) bytes.

Definition fnv_step (hash byte : Z) : Z := u64 (Z.lxor hash byte * 1099511628211).

(** [std::hex << std::setw(16) << std::setfill('0')] *)
Definition hex16 (v : Z) : string :=
  fold_right (λ i s, String (hex_digit (Z.land (Z.shiftr v (60 - Z.of_nat i * 4)) 15)) s) EmptyString (seq 0 16).

Section Resolver.
Context (fs : FileSystem).

Definition pathWithinRoot (root candidate : string) : bool :=
  match relative fs candidate root with
  | None => false
  | Some rel =>
      if is_empty rel then String.eqb candidate root
      else if is_absolute rel then false
      else negb (existsb (String.eqb "..") (path_elements rel))
  end.

(** The empty string when there is an error. *)
Definition canonicalString (path : string) : option string := weakly_canonical fs path.

(** [ec || canonical.empty() || !pathWithinRoot(root, canonical)] fails. *)
Definition canonical_within (root path : string) : option string :=
  match canonicalString path with
  | Some canonical => if is_empty canonical || negb (pathWithinRoot root canonical) then None else Some canonical
  | None => None
  end.

Definition manifestSizeIsSafe (path : string) : bool :=
  match file_size fs path with
  | Some bytes => bytes <=? kMaximumManifestBytes
  | None => false
  end.

Definition legacyFingerprintFile (path : string) : option string :=
  match read fs path with
  | None => None
  | Some content =>
      Some ("fnv1a64:" +:+ hex16 (foldl fnv_step 14695981039346656037 (concat (reads_of content))))
  end.

Definition cryptographicFingerprintFile (path : string) : option string :=
  match read fs path with
  | None => None
  | Some content =>
      match sha256File true (reads_of content) false with
      | Some digest => Some ("sha256:" +:+ digest)
      | None => None
      end
  end.

Definition relativeToRoot (m : PackageManifest) (source_path : string) : string :=
  default "" (relative fs source_path (package_root m)).

(** * Reading the manifest *)

(** The locals of [loadForEntry]. *)
Record loader := { ld_manifest : PackageManifest; format_seen : bool; package_seen : bool; version_seen : bool;
     license_seen : bool; path_to_module : gmap string string; }.

Definition set_ld_manifest (v : PackageManifest) (s : loader) : loader :=
  {| ld_manifest := v; format_seen := format_seen s; package_seen := package_seen s; version_seen := version_seen s;
     license_seen := license_seen s; path_to_module := path_to_module s |}.
Definition set_format_seen (v : bool) (s : loader) : loader :=
  {| ld_manifest := ld_manifest s; format_seen := v; package_seen := package_seen s; version_seen := version_seen s;
     license_seen := license_seen s; path_to_module := path_to_module s |}.
Definition set_package_seen (v : bool) (s : loader) : loader :=
  {| ld_manifest := ld_manifest s; format_seen := format_seen s; package_seen := v; version_seen := version_seen s;
     license_seen := license_seen s; path_to_module := path_to_module s |}.
Definition set_version_seen (v : bool) (s : loader) : loader :=
  {| ld_manifest := ld_manifest s; format_seen := format_seen s; package_seen := package_seen s; version_seen := v;
     license_seen := license_seen s; path_to_module := path_to_module s |}.
Definition set_license_seen (v : bool) (s : loader) : loader :=
  {| ld_manifest := ld_manifest s; format_seen := format_seen s; package_seen := package_seen s; version_seen :=
     version_seen s; license_seen := v; path_to_module := path_to_module s |}.
Definition set_path_to_module (v : gmap string string) (s : loader) : loader :=
  {| ld_manifest := ld_manifest s; format_seen := format_seen s; package_seen := package_seen s; version_seen :=
     version_seen s; license_seen := license_seen s; path_to_module := v |}.

(** A line without its comment and its outer spaces. *)
Definition record_text (raw : string) : string := trim (before_char "#" raw).

Definition on_manifest (f : PackageManifest → PackageManifest) (l : loader) : loader :=
  set_ld_manifest (f (ld_manifest l)) l.

Definition at_line (n : Z) : string := " at line " +:+ pretty n.

Definition load_format (n : Z) (value : string) (l : loader) : failure + loader :=
  if format_seen l || negb (existsb (String.eqb value) ["shorthand.package.v1"; "shorthand.package.v2"]) then
    fail Codes.ModuleManifestInvalid ("invalid or duplicate manifest format" +:+ at_line n)
  else inr (on_manifest (set_format value) (set_format_seen true l)).

Definition load_package (n : Z) (value : string) (l : loader) : failure + loader :=
  if package_seen l || negb (validModuleName value) then
    fail Codes.ModuleManifestInvalid ("invalid or duplicate package declaration" +:+ at_line n)
  else inr (set_package_seen true (on_manifest (set_package_name value) l)).

Definition is_v2 (m : PackageManifest) : bool := String.eqb (format m) "shorthand.package.v2".

Definition load_version (n : Z) (value : string) (l : loader) : failure + loader :=
  if negb (is_v2 (ld_manifest l)) || version_seen l || negb (validExactVersion value) then
    fail Codes.ModuleVersionPolicy ("package v2 requires one exact semantic version" +:+ at_line n)
  else inr (set_version_seen true (on_manifest (set_version value) l)).

Definition load_license (n : Z) (parts : list string) (l : loader) : failure + loader :=
  let license := licenseField parts 1 in
  if negb (is_v2 (ld_manifest l)) || license_seen l || negb (allowedRedistributedLicense license) then
    fail Codes.ModuleLicensePolicy ("package license is missing, duplicate, or not allowlisted" +:+ at_line n)
  else inr (set_license_seen true (on_manifest (set_license_spdx license) l)).

Definition load_module (n : Z) (name path : string) (l : loader) : failure + loader :=
  let m := ld_manifest l in
  if negb (validModuleName name) then
    fail Codes.ModuleManifestInvalid ("invalid module identity in manifest" +:+ at_line n)
  else if negb (relativePathIsSafe path) then
    fail Codes.ModulePathEscape ("unsafe module path in manifest" +:+ at_line n +:+ ": " +:+ path)
  else if bool_decide (is_Some (module_paths m !! name)) then
    fail Codes.ModuleAmbiguousMapping ("module appears more than once in manifest: " +:+ name)
  else
    match canonical_within (package_root m) (path_join (package_root m) path) with
    | None => fail Codes.ModulePathEscape ("module path escapes package root: " +:+ path)
    | Some canonical =>
        match path_to_module l !! canonical with
        | Some other =>
            fail Codes.ModuleAmbiguousMapping
              ("multiple modules map to the same source path: " +:+ name +:+ " and " +:+ other)
        | None =>
            let m := set_module_paths (<[name := path]> (module_paths m)) m in
            let m := set_module_packages (<[name := package_name m]> (module_packages m)) m in
            inr (set_path_to_module (<[canonical := name]> (path_to_module l)) (set_ld_manifest m l))
        end
    end.

(** [parts[i]], [parts.size() == n && parts[0] == k] and
    [!parts.empty() && parts[0] == k] *)
Definition part (parts : list string) (i : nat) : string := default "" (parts !! i).

Definition record_of (n : nat) (k : string) (parts : list string) : bool :=
  Nat.eqb (length parts) n && String.eqb (part parts 0) k.

Definition starts_with (k : string) (parts : list string) : bool :=
  negb (Nat.eqb (length parts) 0) && String.eqb (part parts 0) k.

Definition load_dependency (n : Z) (parts : list string) (l : loader) : failure + loader :=
  let part := part parts in
  if bool_decide (length parts < 6)%nat || negb (is_v2 (ld_manifest l)) || negb (validModuleName (part 1%nat)) ||
     negb (relativeDirectoryIsSafe (part 3%nat)) || negb (validSha256 (part 4%nat)) then
    fail Codes.ModuleDependencyIntegrity ("invalid exact vendored dependency" +:+ at_line n)
  else if negb (validExactVersion (part 2%nat)) then
    fail Codes.ModuleVersionPolicy ("dependency requires an exact semantic version" +:+ at_line n)
  else
    let license := licenseField parts 5 in
    if negb (allowedRedistributedLicense license) then
      fail Codes.ModuleLicensePolicy ("dependency license is not allowlisted" +:+ at_line n)
    else if bool_decide (is_Some (dependencies (ld_manifest l) !! part 1%nat)) then
      fail Codes.ModuleDependencyIntegrity ("duplicate dependency package" +:+ at_line n +:+ ": " +:+ part 1%nat)
    else
      let d := {| dep_package_name := part 1%nat; dep_version := part 2%nat;
                  relative_root := lexically_normal (part 3%nat); manifest_sha256 := part 4%nat;
                  dep_license_spdx := license |} in
      inr (on_manifest (λ m, set_dependencies (<[part 1%nat := d]> (dependencies m)) m) l).

(** One record of the manifest. *)
Definition load_record (n : Z) (parts : list string) (l : loader) : failure + loader :=
  if record_of 2 "format" parts then load_format n (part parts 1) l
  else if record_of 2 "package" parts then load_package n (part parts 1) l
  else if record_of 2 "version" parts then load_version n (part parts 1) l
  else if starts_with "license" parts then load_license n parts l
  else if record_of 3 "module" parts then load_module n (part parts 1) (part parts 2) l
  else if starts_with "dependency" parts then load_dependency n parts l
  else fail Codes.ModuleManifestInvalid ("invalid shorthand.package record" +:+ at_line n).

Fixpoint load_lines (n : Z) (lines : list string) (l : loader) : failure + loader :=
  match lines with
  | [] => inr l
  | raw :: rest =>
      let n := n + 1 in
      if (kMaximumManifestLines <? n) || (kMaximumManifestLineBytes <? str_size raw) then
        fail Codes.ModuleManifestInvalid "package manifest exceeds record or line resource limits"
      else
        let text := record_text raw in
        if is_empty text then load_lines n rest l
        else match load_record n (words text) l with
             | inl e => inl e
             | inr l' => load_lines n rest l'
             end
  end.

(** The checks on the whole manifest. *)
Definition check_complete (l : loader) : option failure :=
  let m := ld_manifest l in
  if negb (format_seen l) || negb (package_seen l) || bool_decide (module_paths m = ∅) then
    Some (Codes.ModuleManifestInvalid, "manifest requires format, package, and at least one module record")
  else if is_v2 m && (negb (version_seen l) || negb (license_seen l)) then
    Some (Codes.ModuleManifestInvalid, "shorthand.package.v2 requires exact version and allowlisted license records")
  else if String.eqb (format m) "shorthand.package.v1" &&
          (negb (bool_decide (dependencies m = ∅)) || version_seen l || license_seen l) then
    Some (Codes.ModuleManifestInvalid, "shorthand.package.v1 cannot declare v2 metadata or dependencies")
  else None.

Fixpoint own_modules (modules : list (string * string)) (m : PackageManifest) : failure + PackageManifest :=
  match modules with
  | [] => inr m
  | (name, _) :: rest =>
      if negb (startsWithPackage name (package_name m)) then
        fail Codes.ModulePackageMismatch ("module is outside declared package namespace: " +:+ name)
      else own_modules rest (set_module_packages (<[name := package_name m]> (module_packages m)) m)
  end.

(** ** Vendored dependencies *)

(** The locals of the loop over the lines of a dependency's manifest. *)
Record dependency_text := {
  dt_format : string; dt_name : string; dt_version : string; dt_license : string; dt_modules : gmap string string;
}.

Definition empty_dependency : dependency_text :=
  {| dt_format := ""; dt_name := ""; dt_version := ""; dt_license := ""; dt_modules := ∅ |}.

Definition dependency_record (package : string) (n : Z) (parts : list string) (d : dependency_text)
    : failure + dependency_text :=
  let value := part parts 1 in
  if record_of 2 "format" parts && is_empty (dt_format d) then
    inr {| dt_format := value; dt_name := dt_name d; dt_version := dt_version d; dt_license := dt_license d;
           dt_modules := dt_modules d |}
  else if record_of 2 "package" parts && is_empty (dt_name d) && validModuleName value then
    inr {| dt_format := dt_format d; dt_name := value; dt_version := dt_version d; dt_license := dt_license d;
           dt_modules := dt_modules d |}
  else if record_of 2 "version" parts && is_empty (dt_version d) && validExactVersion value then
    inr {| dt_format := dt_format d; dt_name := dt_name d; dt_version := value; dt_license := dt_license d;
           dt_modules := dt_modules d |}
  else if starts_with "license" parts && is_empty (dt_license d) &&
          allowedRedistributedLicense (licenseField parts 1) then
    inr {| dt_format := dt_format d; dt_name := dt_name d; dt_version := dt_version d;
           dt_license := licenseField parts 1; dt_modules := dt_modules d |}
  else if record_of 3 "module" parts && validModuleName value && relativePathIsSafe (part parts 2) then
    if bool_decide (is_Some (dt_modules d !! value)) then
      fail Codes.ModuleAmbiguousMapping ("duplicate module in dependency manifest: " +:+ value)
    else inr {| dt_format := dt_format d; dt_name := dt_name d; dt_version := dt_version d;
                dt_license := dt_license d; dt_modules := <[value := part parts 2]> (dt_modules d) |}
  else fail Codes.ModuleDependencyIntegrity ("invalid or nested dependency record in " +:+ package +:+ at_line n).

Fixpoint dependency_lines (package : string) (n : Z) (lines : list string) (d : dependency_text)
    : failure + dependency_text :=
  match lines with
  | [] => inr d
  | raw :: rest =>
      let n := n + 1 in
      if (kMaximumManifestLines <? n) || (kMaximumManifestLineBytes <? str_size raw) then
        fail Codes.ModuleDependencyIntegrity
          ("vendored dependency manifest exceeds record or line resource limits: " +:+ package)
      else
        let text := record_text raw in
        if is_empty text then dependency_lines package n rest d
        else match dependency_record package n (words text) d with
             | inl e => inl e
             | inr d' => dependency_lines package n rest d'
             end
  end.

(** A module of a dependency joins the modules of the package. *)
Definition dependency_module (package root : string) (entry : string * string) (l : loader) : failure + loader :=
  let '(name, path) := entry in
  let m := ld_manifest l in
  if negb (startsWithPackage name package) then
    fail Codes.ModulePackageMismatch ("dependency module is outside its declared namespace: " +:+ name)
  else
    let candidate := path_join root path in
    match canonical_within root candidate with
    | None => fail Codes.ModulePathEscape ("dependency module path escapes vendored root: " +:+ name)
    | Some canonical =>
        if bool_decide (is_Some (module_paths m !! name)) || bool_decide (is_Some (path_to_module l !! canonical)) then
          fail Codes.ModuleAmbiguousMapping ("dependency module mapping collides with package graph: " +:+ name)
        else
          match relative fs candidate (package_root m) with
          | Some rel =>
              if negb (relativePathIsSafe rel) then
                fail Codes.ModulePathEscape ("cannot express dependency module beneath package root: " +:+ name)
              else
                let m := set_module_paths (<[name := rel]> (module_paths m)) m in
                let m := set_module_packages (<[name := package]> (module_packages m)) m in
                inr (set_path_to_module (<[canonical := name]> (path_to_module l)) (set_ld_manifest m l))
          | None => fail Codes.ModulePathEscape ("cannot express dependency module beneath package root: " +:+ name)
          end
    end.

Fixpoint dependency_modules (package root : string) (entries : list (string * string)) (l : loader) : failure + loader :=
  match entries with
  | [] => inr l
  | e :: rest =>
      match dependency_module package root e l with
      | inl f => inl f
      | inr l' => dependency_modules package root rest l'
      end
  end.

Definition identity_matches (d : PackageDependency) (t : dependency_text) : bool :=
  String.eqb (dt_format t) "shorthand.package.v2" && String.eqb (dt_name t) (dep_package_name d) &&
  String.eqb (dt_version t) (dep_version d) && String.eqb (dt_license t) (dep_license_spdx d) &&
  negb (bool_decide (dt_modules t = ∅)).

Definition load_one_dependency (d : PackageDependency) (l : loader) : failure + loader :=
  let m := ld_manifest l in
  let package := dep_package_name d in
  match canonical_within (package_root m) (path_join (package_root m) (relative_root d)) with
  | None => fail Codes.ModulePathEscape ("vendored dependency path escapes package root: " +:+ package)
  | Some root =>
      let manifest := path_join root "shorthand.package" in
      if negb (is_regular_file fs manifest) then
        fail Codes.ModuleDependencyIntegrity ("vendored dependency manifest is unavailable offline: " +:+ package)
      else if negb (manifestSizeIsSafe manifest) then
        fail Codes.ModuleDependencyIntegrity
          ("vendored dependency manifest exceeds the 1 MiB resource limit: " +:+ package)
      else if negb (bool_decide (cryptographicFingerprintFile manifest = Some (manifest_sha256 d))) then
        fail Codes.ModuleDependencyIntegrity ("vendored dependency manifest SHA-256 mismatch: " +:+ package)
      else
        match read fs manifest with
        | None => fail Codes.ModuleDependencyIntegrity ("cannot read vendored dependency manifest: " +:+ package)
        | Some content =>
            match dependency_lines package 0 (getline_split chr_newline content) empty_dependency with
            | inl e => inl e
            | inr t =>
                if negb (identity_matches d t) then
                  fail Codes.ModuleDependencyIntegrity
                    ("vendored dependency identity, version, license, or format does not match its exact declaration: " +:+
                     package)
                else dependency_modules package root (items (dt_modules t)) l
            end
        end
  end.

Fixpoint load_dependencies (ds : list (string * PackageDependency)) (l : loader) : failure + loader :=
  match ds with
  | [] => inr l
  | (_, d) :: rest =>
      match load_one_dependency d l with
      | inl e => inl e
      | inr l' => load_dependencies rest l'
      end
  end.

(** ** The whole call *)

(** The climb from the directory of the entry to the root. *)
Fixpoint find_manifest (fuel : nat) (current : string) : outcome (option string) :=
  match fuel with
  | O => OutOfFuel
  | S fuel =>
      if is_empty current then Done None
      else
        let candidate := path_join current "shorthand.package" in
        if exists_ fs candidate then Done (Some candidate)
        else
          let parent := parent_path current in
          if String.eqb parent current then Done None else find_manifest fuel parent
  end.

Definition new_loader (path : string) : loader :=
  {| ld_manifest := set_package_root (parent_path path) (set_manifest_path path empty_manifest);
     format_seen := false; package_seen := false; version_seen := false; license_seen := false; path_to_module := ∅ |}.

(** From the text of the manifest to the manifest. *)
Definition load_text (path content : string) : failure + PackageManifest :=
  match load_lines 0 (getline_split chr_newline content) (new_loader path) with
  | inl e => inl e
  | inr l =>
      match check_complete l with
      | Some e => inl e
      | None =>
          match own_modules (items (module_paths (ld_manifest l))) (ld_manifest l) with
          | inl e => inl e
          | inr m =>
              match load_dependencies (items (dependencies m)) (set_ld_manifest m l) with
              | inl e => inl e
              | inr l' => inr (ld_manifest l')
              end
          end
      end
  end.

Definition loadForEntry (entry_source : string) : outcome (failure + PackageManifest) :=
  match weakly_canonical fs entry_source with
  | None => Done (fail Codes.ModuleManifestInvalid ("cannot canonicalize entry source: " +:+ entry_source))
  | Some entry =>
      if is_empty entry then
        Done (fail Codes.ModuleManifestInvalid ("cannot canonicalize entry source: " +:+ entry_source))
      else
        let current := parent_path entry in
        match find_manifest (S (String.length current)) current with
        | Undefined r => Undefined r
        | OutOfFuel => OutOfFuel
        | Done None =>
            Done (fail Codes.ModuleManifestNotFound ("no shorthand.package found for module entry: " +:+ entry_source))
        | Done (Some found) =>
            Done
              match canonicalString found with
              | None => fail Codes.ModuleManifestInvalid "cannot canonicalize package manifest"
              | Some path =>
                  if is_empty path then fail Codes.ModuleManifestInvalid "cannot canonicalize package manifest"
                  else if negb (manifestSizeIsSafe path) then
                    fail Codes.ModuleManifestInvalid "package manifest exceeds the 1 MiB resource limit"
                  else
                    match read fs path with
                    | None => fail Codes.ModuleManifestInvalid ("cannot read package manifest: " +:+ path)
                    | Some content => load_text path content
                    end
              end
        end
  end.

(** * Using the manifest *)

Definition resolveModule (m : PackageManifest) (name : string) : failure + string :=
  match module_paths m !! name with
  | None => fail Codes.ModuleNotFound ("module is not declared in shorthand.package: " +:+ name)
  | Some path =>
      match canonical_within (package_root m) (path_join (package_root m) path) with
      | None => fail Codes.ModulePathEscape ("resolved module path escapes package root: " +:+ name)
      | Some canonical =>
          if negb (is_regular_file fs canonical) then
            fail Codes.ModuleNotFound ("resolved module file does not exist: " +:+ canonical)
          else inr canonical
      end
  end.

Definition validateUnitIdentity (m : PackageManifest) (unit : ModuleUnitDescriptor) (declared_package : string)
    : option failure :=
  let name := module_name unit in
  if is_empty name then
    Some (Codes.ModuleIdentityMismatch,
          "resolved package source is missing a module declaration: " +:+ source_path unit)
  else if match module_packages m !! name with
          | None => true
          | Some owner => is_empty declared_package || negb (String.eqb declared_package owner)
          end then
    Some (Codes.ModulePackageMismatch,
          "source package declaration does not match shorthand.package for module " +:+ name)
  else
    match resolveModule m name with
    | inl e => Some e
    | inr expected =>
        if bool_decide (canonicalString (source_path unit) = Some expected) then None
        else Some (Codes.ModuleIdentityMismatch, "module declaration and manifest path disagree for " +:+ name)
    end.

(** * The lock file *)

Definition lockfilePath (m : PackageManifest) : string := path_join (package_root m) "shorthand.lock".

Definition newline : string := String chr_newline EmptyString.

Definition dependency_line (d : PackageDependency) : string :=
  "dependency " +:+ dep_package_name d +:+ " " +:+ dep_version d +:+ " " +:+ relative_root d +:+ " " +:+
  manifest_sha256 d +:+ " " +:+ dep_license_spdx d +:+ newline.

Definition fingerprint (m : PackageManifest) (path : string) : option string :=
  if is_v2 m then cryptographicFingerprintFile path else legacyFingerprintFile path.

Fixpoint module_lines (m : PackageManifest) (units : list (string * ModuleUnitDescriptor)) : failure + string :=
  match units with
  | [] => inr ""
  | (name, unit) :: rest =>
      let rel := relativeToRoot m (source_path unit) in
      if is_empty rel then
        fail Codes.ModulePathEscape ("cannot express module path relative to package root: " +:+ name)
      else
        match fingerprint m (source_path unit) with
        | None => fail Codes.ModuleNotFound ("cannot fingerprint module source: " +:+ source_path unit)
        | Some f =>
            match module_lines m rest with
            | inl e => inl e
            | inr text => inr ("module " +:+ name +:+ " " +:+ rel +:+ " " +:+ f +:+ newline +:+ text)
            end
        end
  end.

Definition lock_header (m : PackageManifest) (entry_module : string) : string :=
  "format " +:+ (if is_v2 m then "shorthand.lock.v2" else "shorthand.lock.v1") +:+ newline +:+
  "package " +:+ package_name m +:+ (if is_v2 m then " " +:+ version m +:+ " " +:+ license_spdx m else "") +:+ newline +:+
  (if is_v2 m then foldr (λ d t, dependency_line d.2 +:+ t) "" (items (dependencies m)) else "") +:+
  "entry " +:+ entry_module +:+ newline.

Definition expectedLockfile (m : PackageManifest) (units : gmap string ModuleUnitDescriptor) (entry_module : string)
    : failure + string :=
  match module_lines m (items units) with
  | inl e => inl e
  | inr text => inr (lock_header m entry_module +:+ text)
  end.

Definition verifyLockfile (m : PackageManifest) (units : gmap string ModuleUnitDescriptor) (entry_module : string)
    : option failure :=
  match expectedLockfile m units entry_module with
  | inl e => Some e
  | inr expected =>
      match read fs (lockfilePath m) with
      | None => Some (Codes.ModuleLockfileMismatch, "missing shorthand.lock; run `short_hand <entry.short> lock`")
      | Some actual =>
          if String.eqb actual expected then None
          else Some (Codes.ModuleLockfileMismatch,
                     "shorthand.lock is stale or does not match the resolved module graph")
      end
  end.
End Resolver.

(** The file system after a file has got new content, or is gone. *)
Definition with_file (path : string) (content : option string) (fs : FileSystem) : FileSystem :=
  {| weakly_canonical := weakly_canonical fs; exists_ := exists_ fs; is_regular_file := is_regular_file fs;
     file_size := file_size fs; relative := relative fs;
     read := λ p, if String.eqb p path then content else read fs p |}.

(** How the operations of [writeLockfile] on the file system go: whether the
    temporary file opens, what it holds in the end when that is not the whole
    text (the last bytes leave the buffer when the stream is closed), whether
    the stream is good before that, and whether the old lock file is removed, the
    temporary file is renamed, and it is removed after an error. *)
Record write_outcome := {
  opens : bool; cut : option string; stream_good : bool; removes : bool; renames : bool; cleans : bool;
}.

Definition if_done (ok : bool) (f : FileSystem → FileSystem) (fs : FileSystem) : FileSystem := if ok then f fs else fs.

Definition writeLockfile (o : write_outcome) (m : PackageManifest) (units : gmap string ModuleUnitDescriptor)
    (entry_module : string) (fs : FileSystem) : option failure * FileSystem :=
  match expectedLockfile fs m units entry_module with
  | inl e => (Some e, fs)
  | inr expected =>
      let target := lockfilePath m in
      let temp := target +:+ ".tmp" in
      let written := default expected (cut o) in
      if negb (opens o) then (Some (Codes.ModuleLockfileMismatch, "cannot create lockfile: " +:+ target), fs)
      else
        let fs := with_file temp (Some written) fs in
        if negb (stream_good o) then
          (Some (Codes.ModuleLockfileMismatch, "failed writing lockfile: " +:+ target), fs)
        else
          let fs := if_done (removes o) (with_file target None) fs in
          if renames o then (None, with_file temp None (with_file target (Some written) fs))
          else (Some (Codes.ModuleLockfileMismatch, "cannot publish lockfile: " +:+ target),
                if_done (cleans o) (with_file temp None) fs)
  end.

(** * Reports *)

Definition json_string (s : string) : string := String chr_quote (jsonEscape s +:+ String chr_quote EmptyString).
Definition json_key (k : string) : string := String chr_quote (k +:+ String chr_quote ":").
Definition json_field (k v : string) : string := json_key k +:+ json_string v.

Definition comma_separated (parts : list string) : string := join_with "," parts.

Definition dependency_json (d : PackageDependency) : string :=
  "{" +:+ json_field "package" (dep_package_name d) +:+ "," +:+ json_field "version" (dep_version d) +:+ "," +:+
  json_field "license" (dep_license_spdx d) +:+ "," +:+ json_field "manifest_sha256" (manifest_sha256 d) +:+ "}".

Definition module_json (u : string * ModuleUnitDescriptor) : string :=
  "{" +:+ json_field "name" u.1 +:+ "," +:+ json_field "source_path" (source_path u.2) +:+ "," +:+
  json_key "imports" +:+ "[" +:+ comma_separated (map json_string (imports u.2)) +:+ "]}".

Definition writeGraphJson (m : PackageManifest) (units : gmap string ModuleUnitDescriptor)
    (ordered_modules : list string) (entry_module lock_status : string) : string :=
  "{" +:+ json_key "schema" +:+
  json_string (if is_v2 m then "shorthand.module.graph.v2" else "shorthand.module.graph.v1") +:+ "," +:+
  json_field "package" (package_name m) +:+ "," +:+ json_field "version" (version m) +:+ "," +:+
  json_field "license" (license_spdx m) +:+ "," +:+ json_field "manifest" (manifest_path m) +:+ "," +:+
  json_field "entry" entry_module +:+ "," +:+ json_field "lock_status" lock_status +:+ "," +:+
  json_key "offline_only" +:+ (if is_v2 m then "true" else "false") +:+ "," +:+
  json_key "dependencies" +:+ "[" +:+
  comma_separated (map (λ d, dependency_json d.2) (items (dependencies m))) +:+ "]," +:+
  json_key "modules" +:+ "[" +:+ comma_separated (map module_json (items units)) +:+ "]," +:+
  json_key "order" +:+ "[" +:+ comma_separated (map json_string ordered_modules) +:+ "]}".

Definition sbom_dependency (index : nat) (d : PackageDependency) : string :=
  ",{" +:+ json_field "name" (dep_package_name d) +:+ "," +:+
  json_key "SPDXID" +:+ String chr_quote ("SPDXRef-Dependency-" +:+ pretty index +:+ String chr_quote "") +:+ "," +:+
  json_field "versionInfo" (dep_version d) +:+ "," +:+ json_field "downloadLocation" "NONE" +:+ "," +:+
  json_key "filesAnalyzed" +:+ "false," +:+ json_field "licenseConcluded" (dep_license_spdx d) +:+ "," +:+
  json_field "licenseDeclared" (dep_license_spdx d) +:+ "," +:+ json_field "copyrightText" "NOASSERTION" +:+ "," +:+
  json_key "externalRefs" +:+ "[{" +:+ json_field "referenceCategory" "OTHER" +:+ "," +:+
  json_field "referenceType" "shorthand-manifest-sha256" +:+ "," +:+
  json_field "referenceLocator" (manifest_sha256 d) +:+ "}]}".

Definition sbom_relationship (index : nat) : string :=
  ",{" +:+ json_field "spdxElementId" "SPDXRef-RootPackage" +:+ "," +:+
  json_field "relationshipType" "DEPENDS_ON" +:+ "," +:+
  json_key "relatedSpdxElement" +:+ String chr_quote ("SPDXRef-Dependency-" +:+ pretty index +:+ String chr_quote "") +:+ "}".

Definition writePackageSbom (m : PackageManifest) (created_timestamp : string) : string :=
  let ds := items (dependencies m) in
  "{" +:+ json_field "spdxVersion" "SPDX-2.3" +:+ "," +:+ json_field "dataLicense" "CC0-1.0" +:+ "," +:+
  json_field "SPDXID" "SPDXRef-DOCUMENT" +:+ "," +:+
  json_key "name" +:+ String chr_quote ("ShortHand offline package " +:+ jsonEscape (package_name m) +:+ String chr_quote "") +:+ "," +:+
  json_key "documentNamespace" +:+ String chr_quote ("urn:shorthand:package:" +:+ jsonEscape (package_name m) +:+ ":" +:+
    jsonEscape (version m) +:+ String chr_quote "") +:+ "," +:+
  json_key "creationInfo" +:+ "{" +:+ json_field "created" created_timestamp +:+ "," +:+
  json_key "creators" +:+ "[" +:+ json_string "Tool: ShortHand-package-sbom-1.0.0" +:+ "]}," +:+
  json_key "packages" +:+ "[{" +:+ json_field "name" (package_name m) +:+ "," +:+
  json_field "SPDXID" "SPDXRef-RootPackage" +:+ "," +:+ json_field "versionInfo" (version m) +:+ "," +:+
  json_field "downloadLocation" "NOASSERTION" +:+ "," +:+ json_key "filesAnalyzed" +:+ "false," +:+
  json_field "licenseConcluded" (license_spdx m) +:+ "," +:+ json_field "licenseDeclared" (license_spdx m) +:+ "," +:+
  json_field "copyrightText" "NOASSERTION" +:+ "}" +:+
  foldr String.append "" (imap (λ i d, sbom_dependency i d.2) ds) +:+
  "]," +:+ json_key "relationships" +:+ "[{" +:+ json_field "spdxElementId" "SPDXRef-DOCUMENT" +:+ "," +:+
  json_field "relationshipType" "DESCRIBES" +:+ "," +:+ json_field "relatedSpdxElement" "SPDXRef-RootPackage" +:+ "}" +:+
  foldr String.append "" (map sbom_relationship (seq 0 (length ds))) +:+ "]}".
