(* ===== verification/ModuleOrder.v ===== *)
(** The order of the modules of a program by their imports
    ([ModuleResolver::topologicalOrder] of module/ModuleResolver.cpp), and its
    correctness: a depth-first search with three colours. *)
From S2P Require Import Prelude CxxInt CxxString CxxPath Ast Diagnostics ModuleResolver.
Open Scope string_scope.
Open Scope Z_scope.

(** * The search *)

(** The locals of the call: the colours (0 for a module not seen, 1 for one on
    the stack, 2 for one that is done), the stack and the modules done. *)
Record search := { state : gmap string Z; stack : list string; ordered_modules : list string }.

Definition state_of (d : search) (name : string) : Z := default 0 (state d !! name).

(** The text of the cycle: the stack from [name] on. *)
Fixpoint cycle_text (emit : bool) (name : string) (items : list string) : string :=
  match items with
  | [] => name
  | item :: rest =>
      let emit := emit || String.eqb item name in
      (if emit then item +:+ " -> " else "") +:+ cycle_text emit name rest
  end.

Definition enter (name : string) (d : search) : search :=
  {| state := <[name := 1]> (state d); stack := (stack d ++ [name])%list; ordered_modules := ordered_modules d |}.

Definition leave (name : string) (d : search) : search :=
  {| state := <[name := 2]> (state d); stack := removelast (stack d);
     ordered_modules := (ordered_modules d ++ [name])%list |}.

(** [None] when all calls return [true], otherwise the first error. *)
Fixpoint visit_all (visit : string → SM search (option failure)) (names : list string) : SM search (option failure) :=
  match names with
  | [] => mret None
  | name :: rest =>
      r ← visit name;
      match r with
      | Some e => mret (Some e)
      | None => visit_all visit rest
      end
  end.

Section Search.
Context (units : gmap string ModuleUnitDescriptor).

Fixpoint visit (fuel : nat) (name : string) : SM search (option failure) :=
  match fuel with
  | O => out_of_fuel
  | S fuel =>
      d ← gets id;
      if state_of d name =? 2 then mret None
      else if state_of d name =? 1 then
        mret (Some (Codes.ModuleImportCycle, "module import cycle: " +:+ cycle_text false name (stack d)))
      else
        match units !! name with
        | None => mret (Some (Codes.ModuleNotFound, "resolved graph is missing imported module: " +:+ name))
        | Some unit =>
            modify (enter name);;
            r ← visit_all (visit fuel) (sort_strings (imports unit));
            match r with
            | Some e => mret (Some e)
            | None => modify (leave name);; mret None
            end
        end
  end.

Definition new_search : search := {| state := ∅; stack := []; ordered_modules := [] |}.

(** The result of the call and [ordered_modules] as it leaves it.  A call for
    each module that is not seen yet is the deepest the recursion goes. *)
Definition topologicalOrder (entry_module : string) : outcome (option failure * list string) :=
  if bool_decide (units !! entry_module = None) then
    Done (Some (Codes.ModuleIdentityMismatch, "entry module is absent from resolved graph: " +:+ entry_module), [])
  else
    match visit (S (S (size units))) entry_module new_search with
    | Done (r, d) => Done (r, ordered_modules d)
    | Undefined r => Undefined r
    | OutOfFuel => OutOfFuel
    end.
End Search.

(** * Correctness *)

(** [before l x y]: [y] stands somewhere before [x] in [l]. *)
Definition before {A} (l : list A) (x y : A) : Prop := ∃ l1 l2, l = (l1 ++ x :: l2)%list ∧ y ∈ l1.

Lemma before_app {A} (l k : list A) x y : before l x y → before (l ++ k) x y.
Proof. intros (l1 & l2 & -> & ?). exists l1, (l2 ++ k)%list. by rewrite <- app_assoc. Qed.

Section Correct.
Context (units : gmap string ModuleUnitDescriptor) (entry : string).

(** The import relation of the resolved graph. *)
Definition edge (x y : string) : Prop := ∃ unit, units !! x = Some unit ∧ y ∈ imports unit.

Definition reachable (x : string) : Prop := rtc edge entry x.

(** What the colours, the stack and the order say at every point of the run. *)
Record search_inv (d : search) : Prop := {
  inv_values : ∀ x c, state d !! x = Some c → c = 1 ∨ c = 2;
  inv_stack : ∀ x, state d !! x = Some 1 ↔ x ∈ stack d;
  inv_done : ∀ x, state d !! x = Some 2 ↔ x ∈ ordered_modules d;
  inv_nodup : NoDup (ordered_modules d);
  inv_known : ∀ x, x ∈ ordered_modules d → reachable x ∧ is_Some (units !! x);
  inv_before : ∀ x y, x ∈ ordered_modules d → edge x y → before (ordered_modules d) x y }.

(** What an error message is evidence of. *)
Definition blame (e : failure) : Prop :=
  (e.1 = Codes.ModuleImportCycle ∧ ∃ x, reachable x ∧ tc edge x x) ∨
  (e.1 = Codes.ModuleNotFound ∧ ∃ x, reachable x ∧ units !! x = None).

Definition unseen (d : search) : gset string := dom units ∖ dom (state d).

(** A call on [name] may follow from [d]: [name] is reachable and everything on
    the stack leads to it. *)
Definition may_visit (d : search) (name : string) : Prop :=
  reachable name ∧ ∀ x, x ∈ stack d → tc edge x name.

(** [d'] is a later state of the same frame. *)
Record extends_search (d d' : search) : Prop := {
  ext_stack : stack d' = stack d;
  ext_order : ∃ l, ordered_modules d' = (ordered_modules d ++ l)%list;
  ext_dom : dom (state d) ⊆ dom (state d') }.

Lemma extends_search_trans d1 d2 d3 :
  extends_search d1 d2 → extends_search d2 d3 → extends_search d1 d3.
Proof.
  intros [S1 [l1 O1] D1] [S2 [l2 O2] D2]. split; [congruence| |set_solver].
  exists (l1 ++ l2)%list. by rewrite O2, O1, app_assoc.
Qed.

Definition returns {A} (r : outcome (A * search)) (Q : A → search → Prop) : Prop :=
  match r with Done (a, d) => Q a d | _ => False end.

Lemma returns_bind {A B} (m : SM search A) (k : A → SM search B) d (P : A → search → Prop) (Q : B → search → Prop) :
  returns (m d) P → (∀ a d', P a d' → returns (k a d') Q) → returns ((m ≫= k) d) Q.
Proof. unfold mbind, SM_bind. destruct (m d) as [[a d']| |]; simpl; [intros HP HQ; by apply HQ|done|done]. Qed.

(** What a call leaves behind. *)
Definition visited (names : list string) (d : search) (r : option failure) (d' : search) : Prop :=
  match r with
  | Some e => blame e
  | None => search_inv d' ∧ extends_search d d' ∧ ∀ x, x ∈ names → x ∈ ordered_modules d'
  end.

Lemma unseen_shrinks d d' : dom (state d) ⊆ dom (state d') → (size (unseen d') ≤ size (unseen d))%nat.
Proof. intros ?. apply subseteq_size. unfold unseen. set_solver. Qed.

Lemma visit_all_correct (visit : string → SM search (option failure)) bound names d :
  (∀ name d, search_inv d → may_visit d name → (size (unseen d) < bound)%nat →
     returns (visit name d) (visited [name] d)) →
  search_inv d → (∀ x, x ∈ names → may_visit d x) → (size (unseen d) < bound)%nat →
  returns (visit_all visit names d) (visited names d).
Proof.
  intros IH. revert d. induction names as [|name rest IHn]; intros d I M F; simpl.
  { split_and!; [done|split; [done|by exists []; rewrite app_nil_r|set_solver]|]. intros x Hx. by inversion Hx. }
  eapply returns_bind; [apply IH; [done|apply M; left|done]|].
  intros [e|] d'; simpl; [done|]. intros (I' & X & V).
  assert (returns (visit_all visit rest d') (visited rest d')) as R.
  { apply IHn; [done| |].
    - intros x Hx. destruct (M x (list_elem_of_further _ _ _ Hx)) as [? T]. split; [done|].
      by rewrite (ext_stack _ _ X).
    - eapply Nat.le_lt_trans; [by apply unseen_shrinks, (ext_dom _ _ X)|done]. }
  unfold returns in *. destruct (visit_all visit rest d') as [[[e|] d'']| |]; [done| |done|done].
  destruct R as (I'' & X' & V'). split_and!; [done|by eapply extends_search_trans|].
  intros x [->|Hx]%elem_of_cons; [|by apply V'].
  destruct (ext_order _ _ X') as [l ->]. apply elem_of_app. left. apply V. by left.
Qed.

(** The colour of a module that is neither done nor on the stack. *)
Lemma state_unseen d name : search_inv d → state_of d name ≠ 2 → state_of d name ≠ 1 → state d !! name = None.
Proof.
  intros I. unfold state_of. destruct (state d !! name) as [c|] eqn:E; simpl; [|done].
  by destruct (inv_values _ I _ _ E) as [->| ->].
Qed.

Lemma state_of_lookup d name c : c ≠ 0 → state_of d name = c → state d !! name = Some c.
Proof. unfold state_of. destruct (state d !! name); simpl; congruence. Qed.

Lemma enter_inv name d : search_inv d → state d !! name = None → search_inv (enter name d).
Proof.
  intros [V S D N K B] E. split; simpl; try done.
  - intros x c. rewrite lookup_insert. case_decide; [intros [= <-]; auto|apply V].
  - intros x. rewrite elem_of_app, list_elem_of_singleton, <- S, lookup_insert. case_decide; naive_solver.
  - intros x. rewrite lookup_insert, <- D. case_decide; naive_solver.
Qed.

Lemma leave_inv name d unit s :
  search_inv d → reachable name → units !! name = Some unit → stack d = (s ++ [name])%list → name ∉ s →
  (∀ y, y ∈ imports unit → y ∈ ordered_modules d) → search_inv (leave name d).
Proof.
  intros [V S D N K B] R U E Ns I.
  assert (name ∉ ordered_modules d) as No.
  { rewrite <- D. assert (state d !! name = Some 1) as ->; [|congruence].
    apply S. rewrite E. apply elem_of_app. right. by left. }
  split; simpl.
  - intros x c. rewrite lookup_insert. case_decide; [intros [= <-]; auto|apply V].
  - intros x. rewrite lookup_insert, E, removelast_last. specialize (S x).
    rewrite E, elem_of_app, list_elem_of_singleton in S. case_decide; naive_solver.
  - intros x. rewrite elem_of_app, list_elem_of_singleton, <- D, lookup_insert. case_decide; naive_solver.
  - apply NoDup_app. split_and!; [done| |apply NoDup_singleton].
    intros x Hx ->%list_elem_of_singleton. done.
  - intros x [Hx| ->%list_elem_of_singleton]%elem_of_app; [by apply K|]. eauto.
  - intros x y [Hx| ->%list_elem_of_singleton]%elem_of_app Hxy; [by apply before_app, B|].
    destruct Hxy as (u & Hu & Hy). exists (ordered_modules d), []. split; [done|]. apply I. congruence.
Qed.

Lemma may_visit_import d name unit y :
  may_visit d name → units !! name = Some unit → y ∈ imports unit → may_visit (enter name d) y.
Proof.
  intros [R T] U Y. assert (edge name y) as Ed by by exists unit. split.
  - by eapply rtc_r.
  - intros x. simpl. intros [Hx| ->%list_elem_of_singleton]%elem_of_app; [by eapply tc_r, Ed; auto|by apply tc_once].
Qed.

Lemma enter_unseen name d : is_Some (units !! name) → state d !! name = None →
  (size (unseen (enter name d)) < size (unseen d))%nat.
Proof.
  intros U E. apply subset_size. unfold unseen; simpl. apply not_elem_of_dom in E. apply elem_of_dom in U.
  rewrite dom_insert_L. set_solver.
Qed.

Lemma visit_correct fuel name d :
  search_inv d → may_visit d name → (size (unseen d) < fuel)%nat →
  returns (visit units fuel name d) (λ r d', visited [name] d r d' ∧
    (r = None → state d !! name = None → last (ordered_modules d') = Some name)).
Proof.
  revert name d. induction fuel as [|fuel IH]; intros name d I M F; [lia|]. simpl.
  unfold mbind at 1, SM_bind at 1, gets, id.
  destruct (Z.eqb_spec (state_of d name) 2) as [E2|E2].
  { apply state_of_lookup in E2; [|done]. split; [|congruence]. split_and!; [done|split; [done|by exists []; rewrite app_nil_r|set_solver]|].
    intros x ->%list_elem_of_singleton. by apply (inv_done _ I). }
  destruct (Z.eqb_spec (state_of d name) 1) as [E1|E1].
  { apply state_of_lookup in E1; [|done]. split; [|done]. left. split; [done|]. exists name.
    split; [apply M|]. apply M. by apply (inv_stack _ I). }
  pose proof (state_unseen _ _ I E2 E1) as E0. destruct (units !! name) as [unit|] eqn:U.
  2: { split; [|done]. right. split; [done|]. exists name. split; [apply M|done]. }
  eapply (returns_bind _ _ _ (λ _ d', d' = enter name d)); [done|]. intros _ d' ->.
  eapply returns_bind.
  { apply (visit_all_correct _ fuel).
    - intros n0 d0 I0 M0 F0. generalize (IH n0 d0 I0 M0 F0). unfold returns.
      destruct (visit units fuel n0 d0) as [[r d'] | |]; [by intros [? _]|done|done].
    - by apply enter_inv.
    - intros x Hx. exact (may_visit_import _ _ _ _ M U (proj1 (sort_strings_elem _ _) Hx)).
    - pose proof (enter_unseen name d (mk_is_Some _ _ U) E0). lia. }
  intros [e|] d'; simpl; [done|]. intros (I' & X & V). split; [|intros _ _; apply last_snoc].
  destruct (ext_order _ _ X) as [l O]. pose proof (ext_stack _ _ X) as Es. simpl in *.
  split_and!.
  - eapply (leave_inv _ _ unit); [done|apply M|done|exact Es| |].
    + rewrite <- (inv_stack _ I). congruence.
    + intros y Hy. by apply V, sort_strings_elem.
  - split; simpl; [by rewrite Es, removelast_last| |].
    + exists (l ++ [name])%list. by rewrite O, app_assoc.
    + pose proof (ext_dom _ _ X) as D. simpl in D. rewrite dom_insert_L in D |- *. set_solver.
  - intros x ->%list_elem_of_singleton. apply elem_of_app. right. by left.
Qed.

Lemma new_search_unseen : (size (unseen new_search) < S (S (size units)))%nat.
Proof. unfold unseen. simpl. rewrite dom_empty_L, difference_empty_L, size_dom. lia. Qed.

Lemma new_search_inv : search_inv new_search.
Proof.
  split; simpl; [| | |constructor| |]; intros x; rewrite ?lookup_empty, ?elem_of_nil; try done.
  - intros y. by rewrite elem_of_nil.
Qed.

(** A closed set of modules holds everything reachable from one of its own. *)
Lemma reachable_ordered d : search_inv d → entry ∈ ordered_modules d → ∀ x, reachable x → x ∈ ordered_modules d.
Proof.
  intros I E x. unfold reachable. revert x. apply rtc_ind_r; [done|]. intros x y _ Hxy IH.
  destruct (inv_before _ I _ _ IH Hxy) as (l1 & l2 & -> & ?). apply elem_of_app. by left.
Qed.
End Correct.

(** What the order promises for [entry]: each module that [entry] reaches, once,
    after everything it imports, [entry] last. *)
Definition is_import_order (units : gmap string ModuleUnitDescriptor) (entry : string) (l : list string) : Prop :=
  NoDup l ∧ (∀ x, x ∈ l ↔ reachable units entry x) ∧ (∀ x, x ∈ l → is_Some (units !! x)) ∧
  (∀ x y, x ∈ l → edge units x y → before l x y) ∧ last l = Some entry.

(** C17.  [topologicalOrder] always returns.  When it reports success, the list
    holds exactly the modules reachable from the entry module through imports,
    each once, every module after all modules it imports and the entry module
    last; when it fails, the code names the true reason: the entry module is
    not in the graph, a reachable module lies on an import cycle, or a
    reachable module is missing from the graph. *)
Theorem topologicalOrder_exact units entry :
  match topologicalOrder units entry with
  | Done (None, l) => is_import_order units entry l
  | Done (Some (code, _), _) =>
      (code = Codes.ModuleIdentityMismatch ∧ units !! entry = None) ∨
      (code = Codes.ModuleImportCycle ∧ ∃ x, reachable units entry x ∧ tc (edge units) x x) ∨
      (code = Codes.ModuleNotFound ∧ ∃ x, reachable units entry x ∧ units !! x = None)
  | Undefined _ | OutOfFuel => False
  end.
Proof.
  unfold topologicalOrder. case_bool_decide as E; [by left|].
  assert (may_visit units entry new_search entry) as M.
  { split; [apply rtc_refl|]. intros x. simpl. by intros ?%elem_of_nil. }
  generalize (visit_correct units entry (S (S (size units))) entry new_search
    (new_search_inv units entry) M (new_search_unseen units)).
  destruct (visit _ _ _ _) as [[[[code m]|] d]| |]; simpl; [|intros [(I & _ & V) La]|done|done].
  { intros [B _]. by right. }
  split_and!; [apply I| | |apply I|by apply La].
  - intros x. split; [intros Hx; apply (inv_known _ _ _ I _ Hx)|].
    apply (reachable_ordered units entry d I). apply V. by left.
  - intros x Hx. apply (inv_known _ _ _ I _ Hx).
Qed.

(** The order on a diamond of imports, and the reports of a cycle and of a
    missing module. *)
Example topologicalOrder_runs :
  let unit l := {| module_name := ""; source_path := ""; imports := l |} in
  let units (m : list string) : gmap string ModuleUnitDescriptor :=
    {[ "app" := unit ["b"; "a"]; "a" := unit ["c"]; "b" := unit ["c"]; "c" := unit m ]} in
  topologicalOrder (units []) "app" = Done (None, ["c"; "a"; "b"; "app"]) ∧
  topologicalOrder (units ["b"]) "app" = Done (Some (Codes.ModuleImportCycle, "module import cycle: c -> b -> c"), []) ∧
  topologicalOrder (units ["z"]) "b" =
    Done (Some (Codes.ModuleNotFound, "resolved graph is missing imported module: z"), []).
Proof. by vm_compute. Qed.
