(* ===== verification/ModuleFacts.v ===== *)
(** What a package that [loadForEntry] accepts satisfies (module/ModuleResolver.cpp):
    an invariant of the loader that every record of the manifest, every module
    and every vendored dependency keeps. *)
From S2P Require Import Prelude CxxInt CxxString CxxPath Sha256 Ast Diagnostics ModuleResolver.
Open Scope string_scope.
Open Scope Z_scope.

(** * The specification *)

Section Package.
Context (fs : FileSystem).

(** A dependency as a manifest may declare it. *)
Record dependency_declared (package : string) (d : PackageDependency) : Prop := {
  declared_name : dep_package_name d = package;
  declared_identity : validModuleName package = true;
  declared_version : validExactVersion (dep_version d) = true;
  declared_digest : validSha256 (manifest_sha256 d) = true;
  declared_license : allowedRedistributedLicense (dep_license_spdx d) = true }.

(** [root] holds the vendored package: it lies in the package and its manifest
    has the digest the declaration pins. *)
Record dependency_pinned (m : PackageManifest) (d : PackageDependency) (root : string) : Prop := {
  pinned_root : canonical_within fs (package_root m) (path_join (package_root m) (relative_root d)) = Some root;
  pinned_regular : is_regular_file fs (path_join root "shorthand.package") = true;
  pinned_digest :
    cryptographicFingerprintFile fs (path_join root "shorthand.package") = Some (manifest_sha256 d) }.

(** Where the source [c] of a module with the path [path] is: in the package
    itself, or in a vendored dependency whose digest was checked. *)
Inductive module_source (m : PackageManifest) (name path c : string) : string → Prop :=
| source_own :
    canonical_within fs (package_root m) (path_join (package_root m) path) = Some c →
    module_source m name path c (package_name m)
| source_vendored d root inner :
    dependencies m !! dep_package_name d = Some d → dependency_pinned m d root →
    canonical_within fs root (path_join root inner) = Some c →
    relative fs (path_join root inner) (package_root m) = Some path →
    module_source m name path c (dep_package_name d).

(** A module of an accepted package; [owners] maps source files to modules. *)
Definition module_ok (m : PackageManifest) (owners : gmap string string) (name path : string) : Prop :=
  validModuleName name = true ∧ relativePathIsSafe path = true ∧
  ∃ package c, module_packages m !! name = Some package ∧ startsWithPackage name package = true ∧
    owners !! c = Some name ∧ module_source m name path c package.

Record package_ok (m : PackageManifest) : Prop := {
  ok_package : validModuleName (package_name m) = true;
  ok_format :
    (format m = "shorthand.package.v1" ∧ version m = "" ∧ license_spdx m = "" ∧ dependencies m = ∅) ∨
    (format m = "shorthand.package.v2" ∧ validExactVersion (version m) = true ∧
     allowedRedistributedLicense (license_spdx m) = true);
  ok_nonempty : module_paths m ≠ ∅;
  ok_modules : ∃ owners, ∀ name path, module_paths m !! name = Some path → module_ok m owners name path;
  ok_packages : dom (module_packages m) = dom (module_paths m);
  ok_dependencies : ∀ package d, dependencies m !! package = Some d →
    dependency_declared package d ∧ ∃ root, dependency_pinned m d root }.

(** * The records of the manifest *)

Record loader_ok (root : string) (l : loader) : Prop := {
  l_root : package_root (ld_manifest l) = root;
  l_format : if format_seen l
             then format (ld_manifest l) = "shorthand.package.v1" ∨ format (ld_manifest l) = "shorthand.package.v2"
             else format (ld_manifest l) = "";
  l_package : package_seen l = true → validModuleName (package_name (ld_manifest l)) = true;
  l_version : if version_seen l then validExactVersion (version (ld_manifest l)) = true
              else version (ld_manifest l) = "";
  l_license : if license_seen l then allowedRedistributedLicense (license_spdx (ld_manifest l)) = true
              else license_spdx (ld_manifest l) = "";
  l_modules : ∀ name path, module_paths (ld_manifest l) !! name = Some path →
    validModuleName name = true ∧ relativePathIsSafe path = true ∧
    ∃ c, path_to_module l !! c = Some name ∧
         canonical_within fs root (path_join root path) = Some c;
  l_packages : dom (module_packages (ld_manifest l)) = dom (module_paths (ld_manifest l));
  l_dependencies : ∀ package d, dependencies (ld_manifest l) !! package = Some d → dependency_declared package d }.

Lemma new_loader_ok path : loader_ok (parent_path path) (new_loader path).
Proof. split; simpl; try done; intros ??; by rewrite lookup_empty. Qed.

(** A record that ends with an error says nothing; otherwise the tests before
    the update are facts. *)
Ltac record_step := unfold fail in *; repeat case_match; try discriminate; simplify_eq; simpl in *.

Ltac bools := repeat match goal with
  | H : (_ || _)%bool = false |- _ => apply orb_false_iff in H as [? H]
  | H : (_ && _)%bool = true |- _ => apply andb_true_iff in H as [? H]
  | H : negb _ = false |- _ => apply negb_false_iff in H
  | H : negb _ = true |- _ => apply negb_true_iff in H
  | H : bool_decide _ = false |- _ => apply bool_decide_eq_false in H
  | H : bool_decide _ = true |- _ => apply bool_decide_eq_true in H
  | H : String.eqb _ _ = true |- _ => apply String.eqb_eq in H
  | H : String.eqb _ _ = false |- _ => apply String.eqb_neq in H
  end.

Lemma load_module_ok root n name path l l' :
  loader_ok root l → load_module fs n name path l = inr l' → loader_ok root l'.
Proof.
  intros I H. unfold load_module in H. record_step. bools. destruct I as [R F P V L M K D].
  split; simpl; try done.
  - intros x p. rewrite lookup_insert. case_decide; [intros [= <-]|intros Hp].
    + subst. split_and!; [done..|]. eexists. by rewrite lookup_insert_eq.
    + destruct (M _ _ Hp) as (? & ? & c & ? & ?). split_and!; [done..|]. exists c. split; [|done].
      rewrite lookup_insert_ne; [done|]. congruence.
  - by rewrite !dom_insert_L, K.
Qed.

Lemma load_dependency_ok root n parts l l' :
  loader_ok root l → load_dependency n parts l = inr l' → loader_ok root l'.
Proof.
  intros I H. unfold load_dependency in H. record_step. bools. destruct I as [R F P V L M K D].
  split; simpl; try done.
  intros p d. rewrite lookup_insert. case_decide; [intros [= <-]; by subst|apply D].
Qed.

Lemma load_record_ok root n parts l l' :
  loader_ok root l → load_record fs n parts l = inr l' → loader_ok root l'.
Proof.
  intros I H. unfold load_record in H.
  repeat case_match; try discriminate; eauto using load_module_ok, load_dependency_ok;
    unfold load_format, load_package, load_version, load_license in H; record_step; bools;
    destruct I as [R F P V L M K D]; split; simpl; try done.
  match goal with H : (_ || _)%bool = true |- _ => rewrite orb_false_r, orb_true_iff, !String.eqb_eq in H end. done.
Qed.

Lemma load_lines_ok root lines n l l' :
  loader_ok root l → load_lines fs n lines l = inr l' → loader_ok root l'.
Proof.
  revert n l. induction lines as [|raw rest IH]; intros n l I; cbn [load_lines]; [by intros [= <-]|].
  case_match; [done|]. case_match; [by apply IH|]. case_match; [done|].
  apply IH. by eapply load_record_ok.
Qed.

Lemma own_modules_spec modules m m' :
  own_modules modules m = inr m' →
  (∃ packages, m' = set_module_packages packages m ∧
     ∀ name, packages !! name =
       if decide (name ∈ modules.*1) then Some (package_name m) else module_packages m !! name) ∧
  (∀ name, name ∈ modules.*1 → startsWithPackage name (package_name m) = true).
Proof.
  revert m. induction modules as [|[name path] rest IH]; intros m; simpl.
  - intros [= <-]. split; [|by intros ? ?%elem_of_nil]. exists (module_packages m). by destruct m.
  - destruct (startsWithPackage name (package_name m)) eqn:E; simpl; [|done].
    intros ((packages & -> & P) & S)%IH. simpl in *. split.
    + exists packages. split; [done|]. intros x. rewrite P, lookup_insert.
      repeat case_decide; set_solver.
    + intros x [->|Hx]%elem_of_cons; auto.
Qed.

(** * The vendored dependencies *)

Record graph_ok (l : loader) : Prop := {
  g_modules : ∀ name path, module_paths (ld_manifest l) !! name = Some path →
    module_ok (ld_manifest l) (path_to_module l) name path;
  g_packages : dom (module_packages (ld_manifest l)) = dom (module_paths (ld_manifest l)) }.

(** [m'] is [m] with more modules. *)
Definition more_modules (m m' : PackageManifest) : Prop :=
  module_paths m ⊆ module_paths m' ∧
  m' = set_module_packages (module_packages m') (set_module_paths (module_paths m') m).

Lemma more_modules_refl m : more_modules m m.
Proof. split; [done|by destruct m]. Qed.

Lemma more_modules_trans m1 m2 m3 : more_modules m1 m2 → more_modules m2 m3 → more_modules m1 m3.
Proof.
  intros [S1 E1] [S2 E2]. split; [by etrans|]. rewrite E2, E1. done.
Qed.

Lemma pinned_more m m' d root : more_modules m m' → dependency_pinned m d root → dependency_pinned m' d root.
Proof. intros [_ ->] [? ? ?]. by split. Qed.

Lemma source_more m m' name path c package :
  more_modules m m' → module_source m name path c package → module_source m' name path c package.
Proof.
  intros M [H|d root inner D P C R].
  - destruct M as [_ ->]. exact (source_own (set_module_packages _ (set_module_paths _ m)) name path c H).
  - apply (source_vendored m' name path c d root inner); [|by eapply pinned_more|done|]; by destruct M as [_ ->].
Qed.

Lemma dependency_module_ok d root entry l l' :
  graph_ok l → dependencies (ld_manifest l) !! dep_package_name d = Some d → dependency_pinned (ld_manifest l) d root →
  validModuleName entry.1 = true →
  dependency_module fs (dep_package_name d) root entry l = inr l' →
  graph_ok l' ∧ more_modules (ld_manifest l) (ld_manifest l').
Proof.
  destruct entry as [name path]. intros [G K] D P N H. unfold dependency_module in H. record_step. bools.
  apply eq_None_not_Some in H.
  set (m' := set_module_packages _ _). assert (more_modules (ld_manifest l) m') as M.
  { split; simpl; [by apply insert_subseteq|by destruct (ld_manifest l)]. }
  split; [|done]. split; simpl.
  - intros x p. rewrite lookup_insert. case_decide; [intros [= <-]; subst x|intros Hp].
    + split_and!; [done..|]. eexists _, _. simpl. rewrite !lookup_insert_eq. split_and!; [done..|].
      apply (source_more (ld_manifest l)); [done|]. by eapply source_vendored.
    + destruct (G _ _ Hp) as (? & ? & package & c & Hpk & ? & Hc & ?). split_and!; [done..|].
      exists package, c. simpl. rewrite lookup_insert_ne by done. split_and!; [done|done| |by apply (source_more (ld_manifest l))].
      rewrite lookup_insert_ne; [done|]. intros <-. naive_solver.
  - by rewrite !dom_insert_L, K.
Qed.

Lemma dependency_modules_ok d root entries l l' :
  graph_ok l → dependencies (ld_manifest l) !! dep_package_name d = Some d → dependency_pinned (ld_manifest l) d root →
  (∀ e, e ∈ entries → validModuleName e.1 = true) →
  dependency_modules fs (dep_package_name d) root entries l = inr l' →
  graph_ok l' ∧ more_modules (ld_manifest l) (ld_manifest l').
Proof.
  revert l. induction entries as [|e rest IH]; intros l G D P N; simpl.
  { intros [= <-]. eauto using more_modules_refl. }
  destruct (dependency_module _ _ _ e l) as [|l1] eqn:E; [done|]. intros H.
  destruct (dependency_module_ok d root e l l1) as [G1 M1]; [done..|apply N; by left|done|].
  destruct (IH l1) as [G2 M2]; [done| |by eapply pinned_more| |done|eauto using more_modules_trans].
  - by destruct M1 as [_ ->].
  - intros x Hx. apply N. by right.
Qed.

(** The modules a dependency's manifest lists have valid names. *)
Lemma dependency_lines_names package lines n t t' :
  (∀ name path, dt_modules t !! name = Some path → validModuleName name = true) →
  dependency_lines package n lines t = inr t' →
  ∀ name path, dt_modules t' !! name = Some path → validModuleName name = true.
Proof.
  revert n t. induction lines as [|raw rest IH]; intros n t I; cbn [dependency_lines]; [by intros [= <-]|].
  case_match; [done|]. case_match; [by apply IH|]. case_match eqn:E; [done|].
  apply IH. unfold dependency_record in E. record_step; try done. bools.
  intros name path. rewrite lookup_insert. case_decide; [by subst|apply I].
Qed.

Lemma load_one_dependency_ok d l l' :
  graph_ok l → dependencies (ld_manifest l) !! dep_package_name d = Some d →
  load_one_dependency fs d l = inr l' →
  graph_ok l' ∧ more_modules (ld_manifest l) (ld_manifest l') ∧ ∃ root, dependency_pinned (ld_manifest l) d root.
Proof.
  intros G D H. unfold load_one_dependency in H. unfold fail in H. repeat case_match; try discriminate. bools.
  assert (dependency_pinned (ld_manifest l) d s) as P by by split.
  apply (dependency_modules_ok d s) in H as [G' M]; [by eauto|done|done|done|].
  intros [name path] E%items_elem. eapply dependency_lines_names; [|done|done].
  intros ??. simpl. by rewrite lookup_empty.
Qed.

Lemma load_dependencies_ok ds l l' :
  graph_ok l → (∀ e, e ∈ ds → dependencies (ld_manifest l) !! dep_package_name e.2 = Some e.2) →
  load_dependencies fs ds l = inr l' →
  graph_ok l' ∧ more_modules (ld_manifest l) (ld_manifest l') ∧
  ∀ e, e ∈ ds → ∃ root, dependency_pinned (ld_manifest l') e.2 root.
Proof.
  revert l. induction ds as [|[k d] rest IH]; intros l G D; simpl.
  { intros [= <-]. split_and!; [done|apply more_modules_refl|]. by intros ? ?%elem_of_nil. }
  destruct (load_one_dependency fs d l) as [|l1] eqn:E; [done|]. intros H.
  destruct (load_one_dependency_ok d l l1) as (G1 & M1 & root & P); [done|apply (D (k, d)); by left|done|].
  destruct (IH l1) as (G2 & M2 & P2); [done| |done|].
  { intros e He. destruct M1 as [_ ->]. apply D. by right. }
  assert (more_modules (ld_manifest l) (ld_manifest l')) as M by exact (more_modules_trans _ _ _ M1 M2).
  split_and!; [done|done|]. intros e [->|He]%elem_of_cons; [|by apply P2].
  exists root. exact (pinned_more _ _ _ _ M P).
Qed.

(** * The whole call *)

Lemma own_modules_ok root l m :
  loader_ok root l → own_modules (items (module_paths (ld_manifest l))) (ld_manifest l) = inr m →
  graph_ok (set_ld_manifest m l) ∧ ∃ packages, m = set_module_packages packages (ld_manifest l).
Proof.
  intros I H. apply own_modules_spec in H as ((packages & -> & P) & S). split; [|by exists packages].
  assert (∀ name, name ∈ (items (module_paths (ld_manifest l))).*1 ↔ is_Some (module_paths (ld_manifest l) !! name)) as K.
  { intros name. rewrite list_elem_of_fmap. split.
    - intros ([x p] & -> & Hx%items_elem). by exists p.
    - intros [p Hp]. exists (name, p). by rewrite items_elem. }
  split; simpl.
  - intros name path Hp. destruct (l_modules _ _ I _ _ Hp) as (? & ? & c & ? & ?).
    assert (name ∈ (items (module_paths (ld_manifest l))).*1) as E by by apply K.
    split_and!; [done..|]. exists (package_name (ld_manifest l)), c. simpl. rewrite P, decide_True by done.
    split_and!; [done|by apply S|done|]. pose proof (l_root _ _ I) as R.
    refine (source_own (set_module_packages packages (ld_manifest l)) name path c _). simpl. by rewrite R.
  - apply set_eq. intros name. pose proof (l_packages _ _ I) as D. rewrite set_eq in D. specialize (D name).
    rewrite !elem_of_dom in *. rewrite P. case_decide as E; [|done]. apply K in E. naive_solver.
Qed.

Lemma check_complete_ok root l :
  loader_ok root l → check_complete l = None →
  let m := ld_manifest l in
  validModuleName (package_name m) = true ∧ module_paths m ≠ ∅ ∧
  ((format m = "shorthand.package.v1" ∧ version m = "" ∧ license_spdx m = "" ∧ dependencies m = ∅) ∨
   (format m = "shorthand.package.v2" ∧ validExactVersion (version m) = true ∧
    allowedRedistributedLicense (license_spdx m) = true)).
Proof.
  intros [_ F P V L _ _ _] C. unfold check_complete, is_v2 in C. simpl in C. case_match eqn:E1; [done|]. bools.
  match goal with H : format_seen l = true |- _ => rewrite H in F end. split_and!; [by apply P|done|].
  destruct F as [F|F]; rewrite F in *; simpl in *; [left|right]; destruct (version_seen l), (license_seen l); simpl in *;
    rewrite ?orb_true_r, ?orb_false_r in C; simpl in C; try done.
  case_bool_decide; done.
Qed.

Lemma load_text_ok path content m : load_text fs path content = inr m → package_ok m.
Proof.
  unfold load_text. destruct (load_lines _ _ _ _) as [|l] eqn:E; [done|].
  apply (load_lines_ok (parent_path path)) in E; [|apply new_loader_ok].
  destruct (check_complete l) eqn:C; [done|]. destruct (own_modules _ _) as [|m1] eqn:O; [done|].
  destruct (own_modules_ok _ _ _ E O) as (G & packages & ->).
  destruct (load_dependencies _ _ _) as [|l'] eqn:L; [done|]. intros [= <-].
  pose proof (l_dependencies _ _ E) as D. destruct (check_complete_ok _ _ E C) as (Pk & Ne & Fm).
  apply load_dependencies_ok in L as (G' & [S M] & P); [|done|].
  2: { intros [p d] He%items_elem. simpl in *. by rewrite (declared_name _ _ (D _ _ He)). }
  destruct G' as [Gm Gp]. simpl in *. split; [by rewrite M|by rewrite M| |by exists (path_to_module l')|done|].
  - intros Em. rewrite Em in S. apply Ne, map_empty. intros i. apply (lookup_weaken_None _ _ i) in S; [done|].
    apply lookup_empty.
  - intros p d He. assert (dependencies (ld_manifest l) !! p = Some d) as Hd by by rewrite M in He.
    split; [by apply D|]. apply (P (p, d)). by apply items_elem.
Qed.

(** The climb gets to shorter paths until it stops. *)
Lemma find_manifest_total fuel current :
  (String.length current < fuel)%nat → ∃ r, find_manifest fs fuel current = Done r.
Proof.
  revert current. induction fuel as [|fuel IH]; intros current F; [lia|]. simpl.
  case_match; [by eexists|]. case_match; [by eexists|]. case_match eqn:E; [by eexists|].
  apply String.eqb_neq in E. apply IH. destruct (parent_path_shorter current); [done|lia].
Qed.
End Package.

(** C18.  [loadForEntry] always returns, and a package it accepts is sound: the
    package name, every module name and every declared version, license and
    digest are valid; version 1 manifests carry no version, license or
    dependencies and version 2 manifests carry a valid version and an allowed
    license; every module lies in the name space of the package that owns it,
    has a safe relative path and a canonical source inside its root, no two
    modules share a source file, and every vendored dependency lies inside the
    package and its manifest has the pinned SHA-256 digest. *)
Theorem loadForEntry_sound fs entry_source :
  match loadForEntry fs entry_source with
  | Done (inr m) => package_ok fs m
  | Done (inl _) => True
  | Undefined _ | OutOfFuel => False
  end.
Proof.
  unfold loadForEntry. destruct (weakly_canonical fs entry_source) as [s|]; [|done]. destruct (is_empty s); [done|].
  destruct (find_manifest_total fs (S (String.length (parent_path s))) (parent_path s)) as [[found|] ->]; [lia| |done].
  destruct (canonicalString fs found) as [path|]; [|done]. destruct (is_empty path); [done|].
  destruct (manifestSizeIsSafe fs path); [|done]. simpl. destruct (read fs path) as [content|]; [|done].
  destruct (load_text fs path content) as [[]|m] eqn:E; [done|]. by eapply load_text_ok.
Qed.

(** * A package on a disk *)

(** A file system without links that holds these files. *)
Definition disk (files : gmap string string) : FileSystem :=
  {| weakly_canonical := λ p, Some (lexically_normal p);
     exists_ := λ p, bool_decide (is_Some (files !! p)); is_regular_file := λ p, bool_decide (is_Some (files !! p));
     file_size := λ p, str_size <$> files !! p;
     relative := λ p root,
       if String.prefix (root +:+ "/") p
       then Some (String.substring (String.length root + 1) (String.length p - String.length root - 1) p) else None;
     read := λ p, files !! p |}.

Definition lines_of (l : list string) : string := foldr (λ s t, s +:+ String chr_newline t) "" l.

Definition vendored_manifest : string :=
  lines_of ["format shorthand.package.v2"; "package lib"; "version 2.1.0"; "license MIT"; "module lib.text text.short"].

Definition sample_files : gmap string string :=
  {[ "/p/shorthand.package" := lines_of
       ["format shorthand.package.v2 # the format"; "package app"; "version 1.0.0-rc.1"; "license Apache-2.0";
        ""; "module app.main src/main.short";
        "dependency lib 2.1.0 vendor/lib sha256:d49750a14c4f704c073695632bf65697fe9146f601047fa3c173ad7b766d015d MIT"];
     "/p/src/main.short" := "module app.main"; "/p/vendor/lib/shorthand.package" := vendored_manifest;
     "/p/vendor/lib/text.short" := "module lib.text" ]}.

(** A package with a vendored dependency is accepted. *)
Example loadForEntry_accepts :
  match loadForEntry (disk sample_files) "/p/src/main.short" with
  | Done (inr m) =>
      items (module_paths m) = [("app.main", "src/main.short"); ("lib.text", "vendor/lib/text.short")] ∧
      items (module_packages m) = [("app.main", "app"); ("lib.text", "lib")]
  | _ => False
  end.
Proof. vm_compute. split; reflexivity. Qed.
