(* ===== verification/ModuleLock.v ===== *)
(** The lock file (module/ModuleResolver.cpp): a lock file that was written is
    accepted, and the text of a lock file determines the package, the
    dependencies, the entry, the modules and the digests of their sources.
    Also the escaping of the JSON reports. *)
From S2P Require Import Prelude CxxInt CxxString CxxPath Sha256 Ast Diagnostics ModuleResolver ModuleFacts.
Open Scope string_scope.
Open Scope Z_scope.

(** * Lines and words *)

Definition line_char (c : ascii) : bool := negb (c =? chr_newline)%char.
Definition word_char (c : ascii) : bool := negb (c =? chr_newline)%char && negb (c =? " ")%char.

(** A text on one line, and one that is also without spaces. *)
Definition line_safe (s : string) : bool := string_forallb line_char s.
Definition plain (s : string) : bool := string_forallb word_char s.

Lemma string_forallb_app p s t : string_forallb p (s +:+ t) = string_forallb p s && string_forallb p t.
Proof. induction s as [|c r IH]; [done|]. cbn. by rewrite <- andb_assoc, <- IH. Qed.

Lemma string_forallb_impl (p q : ascii → bool) s :
  (∀ c, p c = true → q c = true) → string_forallb p s = true → string_forallb q s = true.
Proof. intros H. induction s as [|c r IH]; simpl; [done|]. rewrite !andb_true_iff. naive_solver. Qed.

Lemma plain_line s : plain s = true → line_safe s = true.
Proof. apply string_forallb_impl. intros c. unfold word_char, line_char. by intros [? ?]%andb_true_iff. Qed.

(** A separator that does not occur in the first part splits one way only. *)
Lemma split_first p sep a b a' b' :
  p sep = false → string_forallb p a = true → string_forallb p a' = true →
  a +:+ String sep b = a' +:+ String sep b' → a = a' ∧ b = b'.
Proof.
  intros Hs. revert a'. induction a as [|c r IH]; intros [|c' r'] Ha Ha' E; cbn in *;
    rewrite ?andb_true_iff in *; simplify_eq.
  - done.
  - destruct Ha'. congruence.
  - destruct Ha. congruence.
  - destruct (IH r') as [-> ->]; naive_solver.
Qed.

(** Nor does one that does not occur in the last part. *)
Lemma split_last p sep a b a' b' :
  p sep = false → string_forallb p b = true → string_forallb p b' = true →
  a +:+ String sep b = a' +:+ String sep b' → a = a' ∧ b = b'.
Proof.
  intros Hs. revert a'. induction a as [|c r IH]; intros [|c' r'] Hb Hb' E; cbn in *; simplify_eq.
  - done.
  - rewrite string_forallb_app in Hb. cbn in Hb. rewrite Hs, andb_false_r in Hb. done.
  - rewrite string_forallb_app in Hb'. cbn in Hb'. rewrite Hs, andb_false_r in Hb'. done.
  - destruct (IH r') as [-> ->]; auto.
Qed.

(** The text of a list of lines. *)
Definition unlines (l : list string) : string := foldr (λ s t, s +:+ String chr_newline t) "" l.

Lemma unlines_inj l l' :
  forallb line_safe l = true → forallb line_safe l' = true → unlines l = unlines l' → l = l'.
Proof.
  revert l'. induction l as [|s l IH]; intros [|s' l'] Hl Hl' E; cbn in *; rewrite ?andb_true_iff in *.
  - done.
  - by destruct s'.
  - by destruct s.
  - destruct (split_first line_char chr_newline s (unlines l) s' (unlines l')) as [-> ?]; naive_solver.
Qed.

Lemma string_app_assoc (a b c : string) : (a +:+ b) +:+ c = a +:+ (b +:+ c).
Proof.
  induction a as [|x r IH]; [done|].
  change (String x ((r +:+ b) +:+ c) = String x (r +:+ (b +:+ c))). by rewrite IH.
Qed.

Lemma string_cons_app c (s t : string) : String c s +:+ t = String c (s +:+ t).
Proof. done. Qed.

Lemma string_nil_app (t : string) : "" +:+ t = t.
Proof. done. Qed.

(** Texts with the appends to the right and the literals spelled out. *)
Ltac string_norm := repeat (rewrite string_app_assoc || rewrite string_cons_app || rewrite string_nil_app).

Lemma string_app_inv (a b c : string) : a +:+ b = a +:+ c → b = c.
Proof. induction a as [|x r IH]; [done|]. cbn. intros [= ?]. auto. Qed.

Lemma unlines_cons s l : unlines (s :: l) = s +:+ String chr_newline (unlines l).
Proof. done. Qed.

Lemma unlines_app l k : unlines (l ++ k)%list = unlines l +:+ unlines k.
Proof. induction l as [|s l IH]; [done|]. simpl. rewrite IH, string_app_assoc. done. Qed.

(** * The lock file as lines *)

Section Lines.
Context (fs : FileSystem) (m : PackageManifest).

Definition dependency_fields (d : PackageDependency) : string :=
  "dependency " +:+ dep_package_name d +:+ String " " (dep_version d +:+ String " " (relative_root d +:+
  String " " (manifest_sha256 d +:+ String " " (dep_license_spdx d)))).

(** What the lock file says of a module. *)
Record locked := { lk_name : string; lk_relative : string; lk_digest : string }.

Definition locked_line (k : locked) : string :=
  "module " +:+ lk_name k +:+ String " " (lk_relative k +:+ String " " (lk_digest k)).

Definition lock_entry (u : string * ModuleUnitDescriptor) : locked :=
  {| lk_name := u.1; lk_relative := relativeToRoot fs m (source_path u.2);
     lk_digest := default "" (fingerprint fs m (source_path u.2)) |}.

Definition package_line : string :=
  "package " +:+ package_name m +:+ (if is_v2 m then String " " (version m +:+ String " " (license_spdx m)) else "").

Definition format_line : string := "format " +:+ (if is_v2 m then "shorthand.lock.v2" else "shorthand.lock.v1").

Definition dependency_texts : list string :=
  if is_v2 m then map (λ d, dependency_fields d.2) (items (dependencies m)) else [].

Definition lock_lines (units : gmap string ModuleUnitDescriptor) (entry_module : string) : list string :=
  (format_line :: package_line :: dependency_texts ++ ("entry " +:+ entry_module) ::
   map (λ u, locked_line (lock_entry u)) (items units))%list.

Lemma module_lines_unlines us text :
  module_lines fs m us = inr text →
  text = unlines (map (λ u, locked_line (lock_entry u)) us) ∧
  ∀ u, u ∈ us → is_Some (fingerprint fs m (source_path u.2)).
Proof.
  revert text. induction us as [|[name u] us IH]; intros text; simpl.
  { intros [= <-]. split; [done|]. by intros ? ?%elem_of_nil. }
  case_match; [done|]. case_match eqn:F; [|done]. case_match; [done|]. intros [= <-].
  destruct (IH _ eq_refl) as [-> A]. split.
  - unfold locked_line, lock_entry; simpl. rewrite F. unfold newline. by string_norm.
  - intros x [->|Hx]%elem_of_cons; [simpl; rewrite F; by eexists|auto].
Qed.

Lemma expectedLockfile_unlines units entry_module text :
  expectedLockfile fs m units entry_module = inr text →
  text = unlines (lock_lines units entry_module) ∧
  ∀ name u, units !! name = Some u → is_Some (fingerprint fs m (source_path u)).
Proof.
  unfold expectedLockfile. case_match eqn:E; [done|]. intros [= <-].
  apply module_lines_unlines in E as [-> A]. split; [|intros name u Hu; apply (A (name, u)); by apply items_elem].
  unfold lock_lines, lock_header, newline. rewrite !unlines_cons, unlines_app, unlines_cons.
  unfold format_line, package_line, dependency_texts.
  assert (∀ ds, foldr (λ d t, dependency_line d.2 +:+ t) "" ds =
                unlines (map (λ d : string * PackageDependency, dependency_fields d.2) ds)) as D.
  { induction ds as [|d ds IH]; [done|]. cbn [foldr map]. rewrite unlines_cons, IH. unfold dependency_line, dependency_fields, newline.
    by string_norm. }
  rewrite D. destruct (is_v2 m); by string_norm.
Qed.
End Lines.

(** * The text determines the graph *)

Lemma list_split_first {A} (p : A → bool) (d d' : list A) e e' k k' :
  forallb p d = true → forallb p d' = true → p e = false → p e' = false →
  (d ++ e :: k)%list = (d' ++ e' :: k')%list → d = d' ∧ e = e' ∧ k = k'.
Proof.
  intros Hd Hd' He He'. revert d' Hd'. induction d as [|x d IH]; intros [|x' d'] Hd' E; simpl in *;
    rewrite ?andb_true_iff in *; simplify_eq; [done|destruct Hd'; congruence|destruct Hd; congruence|].
  destruct (IH (proj2 Hd) d') as (-> & -> & ->); naive_solver.
Qed.

Lemma map_inj_on {A B} (f : A → B) (P : A → Prop) l l' :
  (∀ x y, P x → P y → f x = f y → x = y) → Forall P l → Forall P l' → map f l = map f l' → l = l'.
Proof.
  intros I Hl. revert l'. induction Hl as [|x l Hx Hl IH]; intros l' Hl' E; destruct Hl' as [|y l' Hy Hl']; simpl in *;
    simplify_eq; [done|]. f_equal; [by apply I|by apply IH].
Qed.

Record dependency_plain (d : PackageDependency) : Prop := {
  dp_name : plain (dep_package_name d) = true; dp_version : plain (dep_version d) = true;
  dp_root : plain (relative_root d) = true; dp_digest : plain (manifest_sha256 d) = true;
  dp_license : line_safe (dep_license_spdx d) = true }.

Lemma dependency_fields_inj d d' :
  dependency_plain d → dependency_plain d' → dependency_fields d = dependency_fields d' → d = d'.
Proof.
  intros [N V R S L] [N' V' R' S' L'] E. apply string_app_inv in E.
  apply (split_first word_char) in E as [? E]; [|done..]. apply (split_first word_char) in E as [? E]; [|done..].
  apply (split_first word_char) in E as [? E]; [|done..]. apply (split_first word_char) in E as [? E]; [|done..].
  destruct d, d'; simpl in *; by subst.
Qed.

Record locked_plain (k : locked) : Prop := {
  kp_name : plain (lk_name k) = true; kp_digest : plain (lk_digest k) = true;
  kp_relative : line_safe (lk_relative k) = true }.

Lemma locked_line_inj k k' : locked_plain k → locked_plain k' → locked_line k = locked_line k' → k = k'.
Proof.
  intros [N D _] [N' D' _] E. apply string_app_inv in E. apply (split_first word_char) in E as [? E]; [|done..].
  apply (split_last word_char) in E as [? ?]; [|done..]. destruct k, k'; simpl in *; by subst.
Qed.

(** ** Digests are words *)

Lemma hex_digit_word d : word_char (hex_digit d) = true.
Proof.
  unfold hex_digit. generalize (Z.to_nat d) as n. intros n. do 16 (destruct n as [|n]; [done|]). done.
Qed.

Lemma hex16_plain v : plain (hex16 v) = true.
Proof. unfold hex16, plain. cbn [seq fold_right string_forallb]. by rewrite !hex_digit_word. Qed.

Lemma hex_state_plain s : plain (hex_state s) = true.
Proof.
  unfold plain. induction s as [|w s IH]; [done|]. cbn [hex_state fold_right]. rewrite string_forallb_app.
  apply andb_true_iff. split; [|done]. unfold hex_word. cbn [seq fold_right string_forallb]. by rewrite !hex_digit_word.
Qed.

Lemma fingerprint_plain fs m path f : fingerprint fs m path = Some f → plain f = true.
Proof.
  unfold fingerprint, cryptographicFingerprintFile, legacyFingerprintFile, plain.
  repeat case_match; try done; intros [= <-]; rewrite string_forallb_app; [|apply hex16_plain].
  unfold sha256File in *. repeat case_match; try done. unfold finish in *. case_match; try done. simplify_eq.
  apply hex_state_plain.
Qed.

(** What keeps the fields of a lock file apart: names, versions and digests are
    words, and no text has a line break. *)
Record lockable (fs : FileSystem) (m : PackageManifest) (units : gmap string ModuleUnitDescriptor)
    (entry_module : string) : Prop := {
  lock_package : plain (package_name m) = true;
  lock_version : plain (version m) = true;
  lock_license : line_safe (license_spdx m) = true;
  lock_entry_module : plain entry_module = true;
  lock_dependencies : ∀ p d, dependencies m !! p = Some d → dependency_plain d;
  lock_units : ∀ name u, units !! name = Some u →
    plain name = true ∧ line_safe (relativeToRoot fs m (source_path u)) = true }.

Lemma line_safe_app a b : line_safe (a +:+ b) = line_safe a && line_safe b.
Proof. apply string_forallb_app. Qed.

Lemma line_safe_space s : line_safe (String " " s) = line_safe s.
Proof. done. Qed.

Create HintDb lines.
#[local] Hint Rewrite line_safe_app line_safe_space andb_true_iff : lines.
#[local] Hint Resolve plain_line : lines.

Lemma locked_line_safe k : locked_plain k → line_safe (locked_line k) = true.
Proof. intros [? ? ?]. unfold locked_line. autorewrite with lines. auto with lines. Qed.

Lemma dependency_fields_safe d : dependency_plain d → line_safe (dependency_fields d) = true.
Proof. intros [? ? ? ? ?]. unfold dependency_fields. autorewrite with lines. auto 10 with lines. Qed.

Section Determines.
Context (fs : FileSystem) (m : PackageManifest) (units : gmap string ModuleUnitDescriptor) (entry_module : string).
Context (L : lockable fs m units entry_module).
Context (F : ∀ name u, units !! name = Some u → is_Some (fingerprint fs m (source_path u))).

Lemma lock_entries_plain : Forall locked_plain (map (lock_entry fs m) (items units)).
Proof.
  apply Forall_map, Forall_forall. intros [name u] Hu%items_elem.
  destruct (lock_units _ _ _ _ L _ _ Hu), (F _ _ Hu) as [f Hf]. split; simpl; [done| |done].
  rewrite Hf. by eapply fingerprint_plain.
Qed.

Lemma dependencies_plain : Forall dependency_plain (map snd (items (dependencies m))).
Proof. apply Forall_map, Forall_forall. intros [p d] Hd%items_elem. by eapply lock_dependencies. Qed.

Lemma lock_lines_safe : forallb line_safe (lock_lines fs m units entry_module) = true.
Proof.
  destruct L as [P V I E _ _]. unfold lock_lines. cbn [forallb]. rewrite forallb_app. cbn [forallb].
  rewrite !andb_true_iff. split_and!.
  - unfold format_line. by destruct (is_v2 m).
  - unfold package_line. destruct (is_v2 m); autorewrite with lines; auto 10 with lines.
  - unfold dependency_texts. destruct (is_v2 m); [|done]. rewrite forallb_forall. intros s Hs.
    apply in_map_iff in Hs as (d & <- & Hd%list_elem_of_In). apply dependency_fields_safe.
    pose proof dependencies_plain as D. rewrite Forall_map, Forall_forall in D. by apply D.
  - autorewrite with lines. auto with lines.
  - rewrite forallb_forall. intros s Hs. apply in_map_iff in Hs as (u & <- & Hu%list_elem_of_In).
    apply locked_line_safe. pose proof lock_entries_plain as D. rewrite Forall_map, Forall_forall in D. by apply D.
Qed.
End Determines.

(** What two lock files with the same text agree on. *)
Record same_lock (fs : FileSystem) (m : PackageManifest) (units : gmap string ModuleUnitDescriptor) (entry : string)
    (fs' : FileSystem) (m' : PackageManifest) (units' : gmap string ModuleUnitDescriptor) (entry' : string) : Prop := {
  same_format : is_v2 m = is_v2 m';
  same_package : package_name m = package_name m';
  same_version : is_v2 m = true → version m = version m' ∧ license_spdx m = license_spdx m' ∧
    map snd (items (dependencies m)) = map snd (items (dependencies m'));
  same_entry : entry = entry';
  same_units : map (lock_entry fs m) (items units) = map (lock_entry fs' m') (items units') }.

Lemma package_line_inj m m' :
  is_v2 m = is_v2 m' → plain (package_name m) = true → plain (package_name m') = true →
  plain (version m) = true → plain (version m') = true → package_line m = package_line m' →
  package_name m = package_name m' ∧ (is_v2 m = true → version m = version m' ∧ license_spdx m = license_spdx m').
Proof.
  intros E P P' V V' H. apply string_app_inv in H. rewrite <- E in H. destruct (is_v2 m).
  - apply (split_first word_char) in H as [? H]; [|done..]. by apply (split_first word_char) in H as [? H]; [|done..].
  - split; [|done]. revert H. generalize (package_name m) (package_name m'). induction s as [|c s IH]; intros [|c' s'] H; cbn in *; try done.
    simplify_eq. f_equal. auto.
Qed.

Lemma format_line_inj m m' : format_line m = format_line m' → is_v2 m = is_v2 m'.
Proof. unfold format_line. by destruct (is_v2 m), (is_v2 m'). Qed.

Lemma dependency_texts_prefix m : forallb (String.prefix "d") (dependency_texts m) = true.
Proof. unfold dependency_texts. destruct (is_v2 m); [|done]. induction (items (dependencies m)); [done|]. done. Qed.

Lemma lock_lines_inj fs m units entry fs' m' units' entry' :
  lockable fs m units entry → lockable fs' m' units' entry' →
  Forall locked_plain (map (lock_entry fs m) (items units)) →
  Forall locked_plain (map (lock_entry fs' m') (items units')) →
  lock_lines fs m units entry = lock_lines fs' m' units' entry' →
  same_lock fs m units entry fs' m' units' entry'.
Proof.
  intros L L' K K' E. unfold lock_lines in E. apply (inj2 cons) in E as [Ef%format_line_inj E].
  apply (inj2 cons) in E as [Ep E].
  apply package_line_inj in Ep as [? Ev]; [|apply L || apply L' || done..].
  apply (list_split_first (String.prefix "d")) in E as (Ed & Ee & Em);
    [|apply dependency_texts_prefix..|done|done].
  split; [done|done| |by apply string_app_inv in Ee|].
  - intros V. destruct (Ev V) as [-> ->]. split_and!; [done..|]. unfold dependency_texts in Ed. rewrite <- Ef, V in Ed.
    apply (map_inj_on dependency_fields dependency_plain);
      [apply dependency_fields_inj|by eapply dependencies_plain..|]. by rewrite !map_map.
  - apply (map_inj_on locked_line locked_plain); [apply locked_line_inj|done|done|]. by rewrite !map_map.
Qed.

Lemma same_units_lookup fs m units entry fs' m' units' entry' name u :
  same_lock fs m units entry fs' m' units' entry' →
  (∀ name u, units' !! name = Some u → is_Some (fingerprint fs' m' (source_path u))) →
  units !! name = Some u → is_Some (fingerprint fs m (source_path u)) →
  ∃ u', units' !! name = Some u' ∧ relativeToRoot fs m (source_path u) = relativeToRoot fs' m' (source_path u') ∧
        fingerprint fs m (source_path u) = fingerprint fs' m' (source_path u').
Proof.
  intros [_ _ _ _ S] F' Hu [f Hf].
  assert (lock_entry fs m (name, u) ∈ map (lock_entry fs' m') (items units')) as E.
  { rewrite <- S. apply list_elem_of_fmap. exists (name, u). by rewrite items_elem. }
  apply list_elem_of_fmap in E as ([name' u'] & E & Hu'%items_elem). unfold lock_entry in E. simpl in E. simplify_eq.
  exists u'. destruct (F' _ _ Hu') as [f' Hf']. split_and!; [done..|]. rewrite Hf, Hf' in *. simpl in *. by subst.
Qed.

Lemma verify_expected fs m units entry :
  verifyLockfile fs m units entry = None ↔
  ∃ text, expectedLockfile fs m units entry = inr text ∧ read fs (lockfilePath m) = Some text.
Proof.
  unfold verifyLockfile. split.
  - repeat case_match; try done. rewrite String.eqb_eq in *. naive_solver.
  - intros (text & -> & ->). by rewrite String.eqb_refl.
Qed.

(** C19.  A lock file pins the graph.  Take two resolved graphs, on any two states
    of the file system, whose texts fit the format ([lockable]: the names of the
    package, the entry and the modules, versions and what is listed of
    dependencies have no space and no line break, and licenses and relative paths
    no line break).  When [verifyLockfile] accepts the same text for both,
    they have the same version of the lock format, package name and entry, in
    version 2 of the format also the same package version, license and
    dependencies with their digests, and in every version exactly the same
    modules, each with the same relative path and the same fingerprint of its
    source. *)
Theorem lockfile_pins_graph fs m units entry fs' m' units' entry' :
  lockable fs m units entry → lockable fs' m' units' entry' →
  verifyLockfile fs m units entry = None → verifyLockfile fs' m' units' entry' = None →
  read fs (lockfilePath m) = read fs' (lockfilePath m') →
  same_lock fs m units entry fs' m' units' entry' ∧
  ∀ name u, units !! name = Some u → ∃ u', units' !! name = Some u' ∧
    relativeToRoot fs m (source_path u) = relativeToRoot fs' m' (source_path u') ∧
    fingerprint fs m (source_path u) = fingerprint fs' m' (source_path u').
Proof.
  intros L L' (t & E & R)%verify_expected (t' & E' & R')%verify_expected Rr.
  assert (t' = t) as -> by congruence.
  apply expectedLockfile_unlines in E as [E F]. apply expectedLockfile_unlines in E' as [E' F'].
  assert (same_lock fs m units entry fs' m' units' entry') as S.
  { apply lock_lines_inj; [done..|by eapply lock_entries_plain|by eapply lock_entries_plain|].
    apply unlines_inj; [by apply lock_lines_safe..|congruence]. }
  split; [done|]. intros name u Hu. by eapply same_units_lookup; eauto.
Qed.

(** * Writing and checking *)

Lemma read_other path content fs p : p ≠ path → read (with_file path content fs) p = read fs p.
Proof. intros H. simpl. destruct (String.eqb_spec p path); [done|done]. Qed.

Lemma read_same path content fs : read (with_file path content fs) path = content.
Proof. simpl. by rewrite String.eqb_refl. Qed.

(** The expected text depends on the sources only. *)
Lemma expectedLockfile_sources fs fs' m units entry :
  relative fs = relative fs' →
  (∀ name u, units !! name = Some u → read fs (source_path u) = read fs' (source_path u)) →
  expectedLockfile fs m units entry = expectedLockfile fs' m units entry.
Proof.
  intros R S. unfold expectedLockfile.
  assert (∀ us, (∀ u, u ∈ us → u ∈ items units) → module_lines fs m us = module_lines fs' m us) as ->; [|done|done].
  induction us as [|[name u] us IH]; intros Hs; [done|]. cbn [module_lines]. unfold relativeToRoot.
  rewrite R, IH by (intros; apply Hs; by right).
  assert (fingerprint fs m (source_path u) = fingerprint fs' m (source_path u)) as ->; [|done].
  unfold fingerprint, cryptographicFingerprintFile, legacyFingerprintFile.
  by rewrite (S name u) by (apply items_elem, Hs; by left).
Qed.

Lemma temp_not_target (p : string) : p ≠ p +:+ ".tmp".
Proof. intros H. apply (f_equal String.length) in H. rewrite string_app_length in H. simpl in H. lia. Qed.

(** C20.  The round trip of the lock file: after a [writeLockfile] that reports
    success, [verifyLockfile] for the same graph reports success, and when the
    disk holds only a part of the text it does so only if that part is the
    whole; no temporary file is left and no other file has changed. *)
Theorem lockfile_roundtrip o m units entry fs fs' :
  (∀ name u, units !! name = Some u →
     source_path u ≠ lockfilePath m ∧ source_path u ≠ lockfilePath m +:+ ".tmp") →
  writeLockfile o m units entry fs = (None, fs') →
  match cut o with
  | None => verifyLockfile fs' m units entry = None
  | Some part => verifyLockfile fs' m units entry = None ↔ expectedLockfile fs m units entry = inr part
  end ∧
  read fs' (lockfilePath m +:+ ".tmp") = None ∧
  (∀ p, p ≠ lockfilePath m → p ≠ lockfilePath m +:+ ".tmp" → read fs' p = read fs p).
Proof.
  intros S W. unfold writeLockfile in W. destruct (expectedLockfile fs m units entry) as [|expected] eqn:E; [done|].
  destruct (opens o); [|done]. destruct (stream_good o); [|done]. destruct (renames o); [|done]. simpl in W.
  assert (∀ p, p ≠ lockfilePath m → p ≠ lockfilePath m +:+ ".tmp" → read fs' p = read fs p) as O.
  { clear E. intros p H1 H2. injection W as <-. rewrite !read_other by done. destruct (removes o); cbn [if_done]; by rewrite !read_other by done. }
  assert (expectedLockfile fs' m units entry = inr expected) as E'.
  { rewrite <- E. apply expectedLockfile_sources.
    - injection W as <-. by destruct (removes o).
    - intros name u Hu. destruct (S _ _ Hu). by apply O. }
  assert (read fs' (lockfilePath m) = Some (default expected (cut o))) as T.
  { injection W as <-. rewrite read_other by apply temp_not_target. apply read_same. }
  split_and!; [|injection W as <-; apply read_same|done].
  destruct (cut o) as [part|]; simpl in T; rewrite verify_expected, E', T; naive_solver.
Qed.

(** ** A concrete package *)

Definition sample_manifest : PackageManifest :=
  {| manifest_path := "/p/shorthand.package"; package_root := "/p"; format := "shorthand.package.v2";
     package_name := "app"; version := "1.0.0"; license_spdx := "MIT"; module_paths := {["app.main" := "src/main.short"]};
     module_packages := {["app.main" := "app"]}; dependencies := ∅ |}.

Definition sample_units : gmap string ModuleUnitDescriptor :=
  {["app.main" := {| module_name := "app.main"; source_path := "/p/src/main.short"; imports := [] |}]}.

Definition all_well : write_outcome :=
  {| opens := true; cut := None; stream_good := true; removes := true; renames := true; cleans := true |}.

Definition sample_locked : FileSystem :=
  (writeLockfile all_well sample_manifest sample_units "app.main" (disk sample_files)).2.

Lemma lockfile_roundtrip_witness :
  writeLockfile all_well sample_manifest sample_units "app.main" (disk sample_files) = (None, sample_locked) ∧
  verifyLockfile sample_locked sample_manifest sample_units "app.main" = None.
Proof.
  assert (writeLockfile all_well sample_manifest sample_units "app.main" (disk sample_files) = (None, sample_locked)) as W.
  { unfold sample_locked. destruct (writeLockfile _ _ _ _ _) as [[]] eqn:E; [|done].
    apply (f_equal fst) in E. vm_compute in E. discriminate. }
  split; [exact W|]. apply (lockfile_roundtrip all_well sample_manifest sample_units "app.main" (disk sample_files)); [|exact W].
  unfold sample_units; intros name u [<- <-]%lookup_singleton_Some. split; apply String.eqb_neq; reflexivity.
Defined.

Lemma lockfile_pins_graph_witness :
  verifyLockfile sample_locked sample_manifest sample_units "app.main" = None ∧
  same_lock sample_locked sample_manifest sample_units "app.main" sample_locked sample_manifest sample_units "app.main".
Proof.
  assert (verifyLockfile sample_locked sample_manifest sample_units "app.main" = None) as V by (vm_compute; reflexivity).
  assert (lockable sample_locked sample_manifest sample_units "app.main") as L.
  { split; try reflexivity.
    - intros p d. simpl. by rewrite lookup_empty.
    - unfold sample_units; intros name u [<- <-]%lookup_singleton_Some. split; vm_compute; reflexivity. }
  split; [exact V|].
  apply (lockfile_pins_graph _ _ _ _ _ _ _ _ L L V V eq_refl).
Defined.

(** A failing rename, after the old lock file is gone, leaves the package
    without a lock file: the old text is lost. *)
Theorem failed_publish_loses_lockfile o m units entry fs text :
  expectedLockfile fs m units entry = inr text →
  opens o = true → stream_good o = true → removes o = true → renames o = false →
  (writeLockfile o m units entry fs).1 ≠ None ∧ read (writeLockfile o m units entry fs).2 (lockfilePath m) = None.
Proof.
  intros E O G R N. unfold writeLockfile. rewrite E, O, G, R, N. simpl. split; [done|].
  destruct (cleans o); simpl; rewrite String.eqb_refl; [|done].
  destruct (String.eqb_spec (lockfilePath m) (lockfilePath m +:+ ".tmp")); done.
Qed.

Lemma failed_publish_loses_lockfile_witness :
  let o := {| opens := true; cut := None; stream_good := true; removes := true; renames := false; cleans := true |} in
  verifyLockfile sample_locked sample_manifest sample_units "app.main" = None ∧
  read (writeLockfile o sample_manifest sample_units "app.main" sample_locked).2 (lockfilePath sample_manifest) = None.
Proof.
  intros o. assert (verifyLockfile sample_locked sample_manifest sample_units "app.main" = None) as V by (vm_compute; reflexivity).
  split; [exact V|]. destruct (proj1 (verify_expected _ _ _ _) V) as (text & E & _).
  apply (failed_publish_loses_lockfile o sample_manifest sample_units "app.main" sample_locked text E); reflexivity.
Defined.

(** * The strings of the reports *)

Definition hex_value_upper (c : ascii) : option N :=
  if between 48 57 c then Some (code c - 48)%N else if between 65 70 c then Some (code c - 55)%N else None.

(** A reader of JSON strings, after the opening quote: the string, and the text
    after the closing quote.  Control characters must be escaped. *)
Fixpoint read_json_string (s : string) : option (string * string) :=
  match s with
  | EmptyString => None
  | String c r =>
      let cons (d : ascii) (x : option (string * string)) :=
        match x with Some (v, rest) => Some (String d v, rest) | None => None end in
      if (c =? chr_quote)%char then Some ("", r)
      else if (code c <? 32)%N then None
      else if (c =? chr_backslash)%char then
        match r with
        | String "u" (String "0" (String "0" (String h (String l r)))) =>
            match hex_value_upper h, hex_value_upper l with
            | Some h, Some l => cons (ascii_of_N (h * 16 + l)) (read_json_string r)
            | _, _ => None
            end
        | String "n" r => cons chr_newline (read_json_string r)
        | String "r" r => cons chr_return (read_json_string r)
        | String "t" r => cons chr_tab (read_json_string r)
        | String e r => if (e =? chr_quote)%char || (e =? chr_backslash)%char then cons e (read_json_string r) else None
        | EmptyString => None
        end
      else cons c (read_json_string r)
  end.

Lemma read_escaped c t :
  read_json_string (escape_char c +:+ t) =
  match read_json_string t with Some (v, rest) => Some (String c v, rest) | None => None end.
Proof. destruct c as [[] [] [] [] [] [] [] []]; reflexivity. Qed.

(** The reports quote any text so that a JSON reader gets it back: reading
    the string literal of a text, control characters and quotes included, gives
    that text and stops exactly at the closing quote. *)
Theorem jsonEscape_roundtrip value rest :
  read_json_string (jsonEscape value +:+ String chr_quote rest) = Some (value, rest).
Proof.
  induction value as [|c r IH]; [done|]. cbn [jsonEscape]. by rewrite string_app_assoc, read_escaped, IH.
Qed.
