(* ===== verification/SemanticIR.v ===== *)
(** Component: the semantic IR and its verifier (mlir/include/ShortHand/SemanticIR.h
    and mlir/lib/SemanticVerifier.cpp).

    The IR is the tree that the compiler hands to the MLIR lowering; the verifier
    checks names, types, scopes, labels and resource limits of a whole program
    before anything is lowered.  [Module sir] holds the data.  The verifier is
    the record [Verifier] and its methods are computations of the state monad:
    [std::map::at] on a missing key and [back] of an empty vector are undefined.
    The vectors used as stacks keep the back at the head of the list, and a
    pointer to a function or composite of the program is that value. *)
From S2P Require Import Prelude CxxInt CxxString CxxFloat.
Open Scope string_scope.
Open Scope Z_scope.

(** * The IR *)

Module sir.

Record SourceLocation := { file : string; line : Z; column : Z }.
Record SourceRange := { begin : SourceLocation; end_ : SourceLocation }.

Inductive ElementType := ElementUnknown | Float32 | Float16 | BFloat16 | Int8 | Int4 | Int32.
Inductive ModelFormat := FormatUnknown | Onnx | TensorRTEngine | TorchScript | OpenVINOIR | GGUF.
Inductive BackendKind :=
| Fallback | OnnxRuntimeCPU | OnnxRuntimeCUDA | OnnxRuntimeTensorRT | TensorRT | OpenVINO | LibTorch | LlamaCpp.

#[export] Instance ElementType_eq_dec : EqDecision ElementType.
Proof. solve_decision. Defined.
#[export] Instance ModelFormat_eq_dec : EqDecision ModelFormat.
Proof. solve_decision. Defined.

Record TensorShape := { dims : list Z }.

Definition isStatic (s : TensorShape) : bool :=
  negb (bool_decide (dims s = [])) && forallb (λ d, 0 <? d) (dims s).

(** The product, 0 when it does not fit. *)
Fixpoint product_checked (total : Z) (ds : list Z) : Z :=
  match ds with
  | [] => total
  | d :: rest => if INT64_MAX / d <? total then 0 else product_checked (total * d) rest
  end.

Definition elementCount (s : TensorShape) : Z := if isStatic s then product_checked 1 (dims s) else 0.

Record TensorOp := {
  t_name : string; t_range : SourceRange; element_type : ElementType; shape : TensorShape; values : list double;
}.

Record ModelOp := {
  m_name : string; m_range : SourceRange; format : ModelFormat; path : string; task : string;
  m_quality_guardrail : string; precision : ElementType; input_shape : TensorShape; output_shape : TensorShape;
  backend_preference : list BackendKind;
}.

Record InferOp := {
  i_range : SourceRange; model_name : string; input_tensor_name : string; output_tensor_name : string;
}.

Record GreenAIContractOp := {
  c_name : string; c_range : SourceRange; functional_unit : string; success_criteria : string;
  boundary : list string; measurement_quality : string; data_quality : string; carbon_factor : double;
  claims_mode : string; c_quality_guardrail : string; energy_budget_j : double; carbon_budget_gco2e : double;
}.

Record GreenAIMeasurementOp := {
  gm_range : SourceRange; workload : string; backend : string; inferences_ : Z; watts : double; seconds : double;
}.

Inductive ScalarType := S_Void | S_Int32 | S_Bool | S_Float64 | S_String | S_Composite.
#[export] Instance ScalarType_eq_dec : EqDecision ScalarType.
Proof. solve_decision. Defined.

Inductive CompositeKind := C_Record | C_Enum | C_Option | C_Result | C_Slice.
#[export] Instance CompositeKind_eq_dec : EqDecision CompositeKind.
Proof. solve_decision. Defined.

Record Composite := { co_kind : CompositeKind; co_name : string; co_fields : list ScalarType; co_names : list string }.

Record Variable_ := {
  v_name : string; v_type : ScalarType; v_extent : Z; v_range : SourceRange; v_composite : string;
}.

Inductive ExpressionKind :=
| E_Integer | E_Boolean | E_Float | E_String | E_Variable | E_Index | E_Binary | E_Unary | E_Call
| E_Construct | E_Project | E_Slice | E_SliceIndex | E_TensorIndex.
#[export] Instance ExpressionKind_eq_dec : EqDecision ExpressionKind.
Proof. solve_decision. Defined.

Inductive Expression := MkExpression {
  e_kind : ExpressionKind; e_type : ScalarType; e_name : string; e_integer : Z; e_decimal : double;
  e_opcode : Z; e_operands : list Expression; e_range : SourceRange; e_composite : string }.

Inductive StatementKind :=
| St_Block | St_Declare | St_Assign | St_Expression | St_If | St_While | St_For | St_Break | St_Continue
| St_Return | St_Goto | St_Label | St_Read | St_Print | St_Model | St_Tensor | St_Infer | St_Contract
| St_Measurement | St_LegacyInfer | St_GreenReport | St_Evidence | St_Update.
#[export] Instance StatementKind_eq_dec : EqDecision StatementKind.
Proof. solve_decision. Defined.

Inductive Statement := MkStatement {
  s_kind : StatementKind; s_name : string; s_strings : list string; s_expressions : list Expression;
  s_variables : list Variable_; s_body : list Statement; s_alternative : list Statement;
  s_declaration : nat; s_lexical_scope : bool; s_range : SourceRange }.

Record Function_ := {
  f_name : string; f_result : ScalarType; f_parameters : list Variable_; f_body : Statement; f_range : SourceRange;
  f_result_composite : string;
}.

Record ProgramIR := {
  composites : list Composite; models : list ModelOp; tensors : list TensorOp; inferences : list InferOp;
  contracts : list GreenAIContractOp; measurements : list GreenAIMeasurementOp; globals : list Variable_;
  functions : list Function_; body : Statement;
}.

End sir.
Import sir.

(** * The verifier *)

Record Verifier := {
  error : string; globals_ : gmap string Variable_; functions_ : gmap string Function_; scopes : list (gmap string Variable_); labels : list (gset string); composites_ : gmap string Composite; result : ScalarType; resultComposite : string; loops : Z; depth : Z; nodes : Z;
}.

Definition set_error (v : string) (s : Verifier) : Verifier :=
  {| error := v; globals_ := globals_ s; functions_ := functions_ s; scopes := scopes s; labels := labels s; composites_ := composites_ s; result := result s; resultComposite := resultComposite s; loops := loops s; depth := depth s; nodes := nodes s |}.
Definition set_globals_ (v : gmap string Variable_) (s : Verifier) : Verifier :=
  {| error := error s; globals_ := v; functions_ := functions_ s; scopes := scopes s; labels := labels s; composites_ := composites_ s; result := result s; resultComposite := resultComposite s; loops := loops s; depth := depth s; nodes := nodes s |}.
Definition set_functions_ (v : gmap string Function_) (s : Verifier) : Verifier :=
  {| error := error s; globals_ := globals_ s; functions_ := v; scopes := scopes s; labels := labels s; composites_ := composites_ s; result := result s; resultComposite := resultComposite s; loops := loops s; depth := depth s; nodes := nodes s |}.
Definition set_scopes (v : list (gmap string Variable_)) (s : Verifier) : Verifier :=
  {| error := error s; globals_ := globals_ s; functions_ := functions_ s; scopes := v; labels := labels s; composites_ := composites_ s; result := result s; resultComposite := resultComposite s; loops := loops s; depth := depth s; nodes := nodes s |}.
Definition set_labels (v : list (gset string)) (s : Verifier) : Verifier :=
  {| error := error s; globals_ := globals_ s; functions_ := functions_ s; scopes := scopes s; labels := v; composites_ := composites_ s; result := result s; resultComposite := resultComposite s; loops := loops s; depth := depth s; nodes := nodes s |}.
Definition set_composites_ (v : gmap string Composite) (s : Verifier) : Verifier :=
  {| error := error s; globals_ := globals_ s; functions_ := functions_ s; scopes := scopes s; labels := labels s; composites_ := v; result := result s; resultComposite := resultComposite s; loops := loops s; depth := depth s; nodes := nodes s |}.
Definition set_result (v : ScalarType) (s : Verifier) : Verifier :=
  {| error := error s; globals_ := globals_ s; functions_ := functions_ s; scopes := scopes s; labels := labels s; composites_ := composites_ s; result := v; resultComposite := resultComposite s; loops := loops s; depth := depth s; nodes := nodes s |}.
Definition set_resultComposite (v : string) (s : Verifier) : Verifier :=
  {| error := error s; globals_ := globals_ s; functions_ := functions_ s; scopes := scopes s; labels := labels s; composites_ := composites_ s; result := result s; resultComposite := v; loops := loops s; depth := depth s; nodes := nodes s |}.
Definition set_loops (v : Z) (s : Verifier) : Verifier :=
  {| error := error s; globals_ := globals_ s; functions_ := functions_ s; scopes := scopes s; labels := labels s; composites_ := composites_ s; result := result s; resultComposite := resultComposite s; loops := v; depth := depth s; nodes := nodes s |}.
Definition set_depth (v : Z) (s : Verifier) : Verifier :=
  {| error := error s; globals_ := globals_ s; functions_ := functions_ s; scopes := scopes s; labels := labels s; composites_ := composites_ s; result := result s; resultComposite := resultComposite s; loops := loops s; depth := v; nodes := nodes s |}.
Definition set_nodes (v : Z) (s : Verifier) : Verifier :=
  {| error := error s; globals_ := globals_ s; functions_ := functions_ s; scopes := scopes s; labels := labels s; composites_ := composites_ s; result := result s; resultComposite := resultComposite s; loops := loops s; depth := depth s; nodes := v |}.

Definition new_verifier : Verifier :=
  {| error := ""; globals_ := ∅; functions_ := ∅; scopes := []; labels := []; composites_ := ∅; result := S_Int32;
     resultComposite := ""; loops := 0; depth := 0; nodes := 0 |}.

Abbreviation VM := (SM Verifier).

(** The first error stays. *)
Definition fail (text : string) : VM bool :=
  modify (λ v, if is_empty (error v) then set_error text v else v);; mret false.

(** [ok || fail(text)] *)
Definition require (ok : bool) (text : string) : VM bool := if ok then mret true else fail text.

(** [if (!m) return false; k] and [m && k] *)
Definition and_then (m k : VM bool) : VM bool := b ← m; if (b : bool) then k else mret false.

(** [m || fail(text)], and [if (!m) return fail(text)] *)
Definition or_fail (m : VM bool) (text : string) : VM bool := b ← m; if (b : bool) then mret true else fail text.

(** [for (x : xs) if (!f(x)) return false;] *)
Definition all_ok {A} (f : A → VM bool) : list A → VM bool :=
  fix go l := match l with [] => mret true | x :: rest => and_then (f x) (go rest) end.

Definition lower_or_upper (c : ascii) : bool := between 97 122 c || between 65 90 c.

Fixpoint identifier_chars (first : bool) (s : string) : bool :=
  match s with
  | EmptyString => true
  | String c r =>
      ((c =? "_")%char || lower_or_upper c || (negb first && between 48 57 c)) && identifier_chars false r
  end.

Definition identifier (s : string) : bool :=
  negb (is_empty s) && negb (String.prefix "__sh_" s) && negb (String.prefix "short_" s) && identifier_chars true s.

Definition scalar (t : ScalarType) : bool :=
  match t with S_Int32 | S_Bool | S_Float64 | S_String => true | _ => false end.
Definition numeric (t : ScalarType) : bool := match t with S_Int32 | S_Float64 => true | _ => false end.
Definition condition (t : ScalarType) : bool := match t with S_Bool | S_Int32 => true | _ => false end.
Definition element (t : ElementType) : bool := negb (bool_decide (t = ElementUnknown)).

Definition valueType (t : ScalarType) (id : string) (v : Verifier) : bool :=
  match t with S_Composite => bool_decide (is_Some (composites_ v !! id)) | _ => scalar t && is_empty id end.

Definition same (a b : Expression) : bool :=
  bool_decide (e_type a = e_type b) && String.eqb (e_composite a) (e_composite b).

Definition fields (c : Composite) : list ScalarType :=
  match co_kind c with C_Enum | C_Option | C_Result => S_Int32 :: co_fields c | _ => co_fields c end.

Definition valid_variable (x : Variable_) (v : Verifier) : bool :=
  identifier (v_name x) && valueType (v_type x) (v_composite x) v && (0 <=? v_extent x) && (v_extent x <=? 65536) &&
  negb ((0 <? v_extent x) && (bool_decide (v_type x = S_String) || bool_decide (v_type x = S_Composite))).

Definition variable (x : Variable_) : VM bool :=
  ok ← gets (valid_variable x); require ok ("invalid variable type, name or extent: " +:+ v_name x).

Fixpoint lookup_scopes (name : string) (ss : list (gmap string Variable_)) : option Variable_ :=
  match ss with
  | [] => None
  | s :: rest => match s !! name with Some x => Some x | None => lookup_scopes name rest end
  end.

Definition lookup_ (name : string) (v : Verifier) : option Variable_ :=
  match lookup_scopes name (scopes v) with Some x => Some x | None => globals_ v !! name end.

Definition composite_at (id : string) : VM Composite :=
  c ← gets (λ v, composites_ v !! id);
  match c with Some c => mret c | None => undefined "std::map::at: missing composite" end.

Definition field_at (c : Composite) (i : nat) : VM ScalarType :=
  match co_fields c !! i with Some t => mret t | None => undefined "field index out of range" end.

(** [operands[i].type], which the tests before it make defined. *)
Definition operand_type (e : Expression) (i : nat) : option ScalarType := e_type <$> e_operands e !! i.
Definition operand_is (e : Expression) (i : nat) (t : ScalarType) : bool := bool_decide (operand_type e i = Some t).

Definition binary_ok (opcode : Z) (a t : ScalarType) : bool :=
  if (1 <=? opcode) && (opcode <=? 4) then numeric a && bool_decide (t = a)
  else if opcode =? 5 then bool_decide (a = S_Int32) && bool_decide (t = a)
  else if (6 <=? opcode) && (opcode <=? 9) then numeric a && bool_decide (t = S_Bool)
  else if (opcode =? 10) || (opcode =? 11) then scalar a && bool_decide (t = S_Bool)
  else if (opcode =? 12) || (opcode =? 13) then condition a && bool_decide (t = S_Bool)
  else false.

(** [false] at the first argument whose type or composite differs. *)
Fixpoint arguments_match (args : list Expression) (ps : list Variable_) : bool :=
  match args, ps with
  | [], _ => true
  | a :: args, p :: ps =>
      bool_decide (e_type a = v_type p) && String.eqb (e_composite a) (v_composite p) && arguments_match args ps
  | _ :: _, [] => false
  end.

Fixpoint no_nul (s : string) : bool :=
  match s with EmptyString => true | String c r => negb (c =? chr_nul)%char && no_nul r end.

(** The first tensor of that name. *)
Definition find_tensor (p : ProgramIR) (name : string) : option TensorOp :=
  list_find (λ t, t_name t = name) (tensors p) ≫= λ r, Some r.2.

Section Verify.
Context (p : ProgramIR).

(** [exprImpl] after the operands. *)
Definition check_kind (e : Expression) : VM bool :=
  v ← gets id;
  let arity n := Nat.eqb (length (e_operands e)) n in
  let typed t := bool_decide (e_type e = t) in
  match e_kind e with
  | E_Integer => require (typed S_Int32 && arity 0%nat) "invalid integer expression"
  | E_Boolean =>
      require (typed S_Bool && ((e_integer e =? 0) || (e_integer e =? 1)) && arity 0%nat) "invalid bool expression"
  | E_Float => require (typed S_Float64 && isfinite (e_decimal e) && arity 0%nat) "invalid float expression"
  | E_String => require (typed S_String && arity 0%nat && no_nul (e_name e)) "invalid string expression"
  | E_Variable | E_Index =>
      let index := bool_decide (e_kind e = E_Index) in
      require
        match lookup_ (e_name e) v with
        | Some x =>
            typed (v_type x) && String.eqb (v_composite x) (e_composite e) && Bool.eqb (0 <? v_extent x) index &&
            arity (if index then 1%nat else 0%nat) && (negb index || operand_is e 0 S_Int32)
        | None => false
        end ("unresolved or mistyped variable: " +:+ e_name e)
  | E_Unary =>
      require (arity 1%nat && (e_opcode e =? 1) && operand_is e 0 (e_type e) && numeric (e_type e))
        "invalid unary expression"
  | E_Binary =>
      match e_operands e with
      | [l; r] =>
          if negb (bool_decide (e_type l = e_type r)) then fail "binary operands require exact types"
          else require (binary_ok (e_opcode e) (e_type l) (e_type e)) "unsupported binary operation/type"
      | _ => fail "binary expression requires two operands"
      end
  | E_Call =>
      match functions_ v !! e_name e with
      | Some f =>
          if negb (typed (f_result f)) || negb (String.eqb (f_result_composite f) (e_composite e)) ||
             negb (Nat.eqb (length (f_parameters f)) (length (e_operands e)))
          then fail ("unresolved/mistyped call: " +:+ e_name e)
          else require (arguments_match (e_operands e) (f_parameters f)) "call argument type mismatch"
      | None => fail ("unresolved/mistyped call: " +:+ e_name e)
      end
  | E_Construct =>
      if negb (typed S_Composite) then fail "constructor requires composite type"
      else
        c ← composite_at (e_composite e);
        if bool_decide (co_kind c = C_Slice) then fail "slice requires an array owner"
        else if negb (Nat.eqb (length (fields c)) (length (e_operands e))) then fail "constructor arity mismatch"
        else require (bool_decide (fields c = map e_type (e_operands e))) "constructor field type mismatch"
  | E_Project =>
      match e_operands e with
      | [a] =>
          if bool_decide (e_type a = S_Composite) then
            c ← composite_at (e_composite a);
            require
              (negb (bool_decide (co_kind c = C_Slice)) && (0 <=? e_integer e) &&
               bool_decide (fields c !! Z.to_nat (e_integer e) = Some (e_type e))) "projection index/type mismatch"
          else fail "projection requires a composite value"
      | _ => fail "projection requires a composite value"
      end
  | E_Slice =>
      let owner := "slice requires an unshadowed global array with program lifetime" in
      if negb (typed S_Composite) then fail owner
      else
        c ← composite_at (e_composite e);
        match globals_ v !! e_name e with
        | Some x =>
            if negb (bool_decide (co_kind c = C_Slice)) || (v_extent x <=? 0) ||
               bool_decide (is_Some (lookup_scopes (e_name e) (scopes v))) || negb (arity 2%nat)
            then fail owner
            else
              t ← field_at c 0;
              require (bool_decide (v_type x = t) && operand_is e 0 S_Int32 && operand_is e 1 S_Int32)
                "slice element/range type mismatch"
        | None => fail owner
        end
  | E_SliceIndex =>
      match lookup_ (e_name e) v with
      | Some x =>
          if bool_decide (v_type x = S_Composite) then
            c ← composite_at (v_composite x);
            if negb (bool_decide (co_kind c = C_Slice)) then fail "slice index type mismatch"
            else
              t ← field_at c 0;
              require (typed t && arity 1%nat && operand_is e 0 S_Int32) "slice index type mismatch"
          else fail "slice indexing requires a slice variable"
      | None => fail "slice indexing requires a slice variable"
      end
  | E_TensorIndex =>
      match find_tensor p (e_name e) with
      | Some t =>
          require (bool_decide (element_type t = Float32) && typed S_Float64 && arity 1%nat && operand_is e 0 S_Int32)
            "tensor access requires f32 tensor, int32 index and float64 result"
      | None => fail "unknown tensor"
      end
  end.

Definition leave_node : VM unit := modify (λ v, set_depth (u32 (depth v - 1)) v).

(** The counting around [exprImpl] and [stmtImpl]; the second test runs only
    when the first is false. *)
Definition counted (m : VM bool) : VM bool :=
  modify (λ v, set_nodes (nodes v + 1) v);;
  v ← gets id;
  let deep := if 100000 <? nodes v then true else 256 <=? depth v in
  (if 100000 <? nodes v then mret tt else modify (λ v, set_depth (u32 (depth v + 1)) v));;
  if (deep : bool) then leave_node;; fail "SemanticIR work/depth limit exceeded"
  else ok ← m; leave_node;; mret ok.

Definition lvalue_kind (e : Expression) : bool :=
  match e_kind e with E_Variable | E_Index => true | _ => false end.

Fixpoint expr (e : Expression) (lvalue : bool) {struct e} : VM bool :=
  counted (
    v ← gets id;
    if negb (bool_decide (e_type e = S_Void)) && negb (valueType (e_type e) (e_composite e) v)
    then fail "invalid expression type identity"
    else if lvalue && negb (lvalue_kind e) then fail "assignment/input requires a variable"
    else and_then (all_ok (λ a, expr a false) (e_operands e)) (check_kind e)).

(** ** Statements *)

Definition count (s : Statement) (n : nat) : VM bool :=
  require (Nat.eqb (length (s_expressions s)) n) "statement operand count mismatch".

Definition push_scope (v : Verifier) : Verifier := set_scopes (∅ :: scopes v) v.
Definition pop_scope (v : Verifier) : Verifier := set_scopes (tail (scopes v)) v.
Definition push_labels (v : Verifier) : Verifier := set_labels (∅ :: labels v) v.
Definition pop_labels (v : Verifier) : Verifier := set_labels (tail (labels v)) v.

(** [labels.back().insert(name).second] *)
Definition insert_label (name : string) : VM bool :=
  ls ← gets labels;
  match ls with
  | l :: rest => if bool_decide (name ∈ l) then mret false else modify (set_labels (({[name]} ∪ l) :: rest));; mret true
  | [] => undefined "back of an empty vector"
  end.

(** The labels of a block are known before its statements are visited. *)
Definition block_label (child : Statement) : VM bool :=
  match s_kind child with
  | St_Label =>
      or_fail (and_then (mret (identifier (s_name child))) (insert_label (s_name child))) "invalid or duplicate label"
  | _ => mret true
  end.

(** [scopes.back().emplace(v.name, v).second] *)
Definition emplace_scope (x : Variable_) : VM bool :=
  ss ← gets scopes;
  match ss with
  | s :: rest =>
      if bool_decide (is_Some (s !! v_name x)) then mret false
      else modify (set_scopes (<[v_name x := x]> s :: rest));; mret true
  | [] => undefined "back of an empty vector"
  end.

Definition declare_local (x : Variable_) : VM bool :=
  or_fail (and_then (variable x) (emplace_scope x)) "duplicate/invalid local variable".

Definition label_known (name : string) (v : Verifier) : bool :=
  match labels v with l :: _ => bool_decide (name ∈ l) | [] => false end.

(** A statement with no statement inside. *)
Definition simple_statement (s : Statement) : VM bool :=
  v ← gets id;
  match s_kind s with
  | St_Declare => and_then (count s 0) (all_ok declare_local (s_variables s))
  | St_Assign =>
      or_fail
        (and_then (count s 2)
           match s_expressions s with
           | [a; b] => and_then (expr a true) (mret (same a b))
           | _ => mret false
           end) "assignment type mismatch"
  | St_Update =>
      let failed := "update requires a record variable" in
      and_then
        (or_fail
           (and_then (count s 2)
              match s_expressions s with
              | [a; b] => and_then (mret (bool_decide (e_type a = S_Composite))) (expr a true)
              | _ => mret false
              end) failed)
        match s_expressions s with
        | [a; b] =>
            c ← composite_at (e_composite a);
            require (bool_decide (co_kind c = C_Record) &&
                     bool_decide (co_fields c !! s_declaration s = Some (e_type b))) "record update type mismatch"
        | _ => mret false
        end
  | St_Expression => count s 1
  | St_Read =>
      and_then
        (all_ok (λ e, or_fail (and_then (expr e true) (mret (numeric (e_type e)))) "unsupported read target")
           (s_expressions s))
        (require (negb (bool_decide (length (s_expressions s) = 0%nat))) "empty read")
  | St_Print =>
      and_then (all_ok (λ e, require (scalar (e_type e)) "cannot print void") (s_expressions s))
        (require (negb (bool_decide (length (s_expressions s) = 0%nat))) "empty print")
  | St_Break | St_Continue => or_fail (and_then (count s 0) (mret (0 <? loops v))) "loop control outside loop"
  | St_Return =>
      let void := bool_decide (result v = S_Void) in
      or_fail
        (and_then (count s (if void then 0%nat else 1%nat))
           (mret (void ||
                  match s_expressions s with
                  | e :: _ => bool_decide (e_type e = result v) && String.eqb (e_composite e) (resultComposite v)
                  | [] => false
                  end))) "return type mismatch"
  | St_Goto =>
      require
        (match s_expressions s with [] => true | [e] => condition (e_type e) | _ => false end &&
         label_known (s_name s) v) "unresolved goto"
  | St_Label => or_fail (and_then (count s 0) (mret (label_known (s_name s) v))) "unresolved label"
  | St_Model =>
      or_fail (and_then (count s 0) (mret (Nat.ltb (s_declaration s) (length (models p))))) "invalid model declaration index"
  | St_Tensor =>
      or_fail (and_then (count s 0) (mret (Nat.ltb (s_declaration s) (length (tensors p)))))
        "invalid tensor declaration index"
  | St_Infer =>
      or_fail (and_then (count s 0) (mret (Nat.ltb (s_declaration s) (length (inferences p))))) "invalid inference index"
  | St_Contract =>
      or_fail (and_then (count s 0) (mret (Nat.ltb (s_declaration s) (length (contracts p))))) "invalid contract index"
  | St_Measurement =>
      or_fail (and_then (count s 0) (mret (Nat.ltb (s_declaration s) (length (measurements p)))))
        "invalid measurement index"
  | St_LegacyInfer =>
      or_fail (and_then (count s 0) (mret (Nat.eqb (length (s_strings s)) 3))) "invalid legacy inference"
  | St_GreenReport =>
      and_then (count s 3)
        (all_ok (λ e, require (bool_decide (e_type e = S_Int32)) "legacy GreenAI quantities require int32")
           (s_expressions s))
  | St_Evidence => count s 0
  | _ => fail "unknown statement kind"
  end.

(** The tests of [If], [While] and [For] before their bodies. *)
Definition control_head (s : Statement) : VM bool :=
  match s_kind s with
  | St_For =>
      and_then (count s 4)
        (and_then match s_expressions s with e :: _ => expr e true | [] => mret false end
           (all_ok (λ e, require (bool_decide (e_type e = S_Int32)) "for operands require int32") (s_expressions s)))
  | _ =>
      or_fail
        (and_then (count s 1)
           (mret match s_expressions s with e :: _ => condition (e_type e) | [] => false end)) "invalid control condition"
  end.

Definition is_loop (s : Statement) : bool := match s_kind s with St_For | St_While => true | _ => false end.

Definition add_loops (n : Z) (v : Verifier) : Verifier := set_loops (u32 (loops v + n)) v.

Definition when (b : bool) (f : Verifier → Verifier) : VM unit := modify (λ v, if b then f v else v).

Fixpoint stmt (s : Statement) : VM bool :=
  counted (
    and_then (all_ok (λ e, expr e false) (s_expressions s))
      match s_kind s with
      | St_Block =>
          and_then (count s 0) (
            when (s_lexical_scope s) push_scope;; modify push_labels;;
            and_then (all_ok block_label (s_body s)) (
              and_then (all_ok stmt (s_body s)) (
                modify pop_labels;; when (s_lexical_scope s) pop_scope;; mret true)))
      | St_If | St_While | St_For =>
          and_then (control_head s) (
            when (is_loop s) (add_loops 1);;
            and_then (all_ok stmt (s_body s)) (
              when (is_loop s) (add_loops (-1));;
              all_ok stmt (s_alternative s)))
      | _ => simple_statement s
      end).

(** ** The program *)

(** [names.insert(name).second] on a local set. *)
Fixpoint distinct (valid : string → bool) (seen : gset string) (names : list string) : bool :=
  match names with
  | [] => true
  | n :: rest => valid n && negb (bool_decide (n ∈ seen)) && distinct valid ({[n]} ∪ seen) rest
  end.

Definition composite_arity_ok (c : Composite) : option string :=
  match co_kind c with
  | C_Record => if bool_decide (co_fields c = []) then Some "empty record" else None
  | C_Enum => if negb (bool_decide (co_fields c = [])) || bool_decide (co_names c = []) then Some "invalid enum" else None
  | C_Option | C_Slice => if Nat.eqb (length (co_fields c)) 1 then None else Some "invalid payload arity"
  | C_Result => if Nat.eqb (length (co_fields c)) 2 then None else Some "invalid result arity"
  end.

Definition check_composite (c : Composite) : VM bool :=
  known ← gets composites_;
  if negb (identifier (co_name c)) || bool_decide (is_Some (known !! co_name c)) then
    fail "invalid/duplicate composite identity"
  else
    modify (λ v, set_composites_ (<[co_name c := c]> (composites_ v)) v);;
    if Nat.ltb 256 (length (co_fields c)) || Nat.ltb 256 (length (co_names c)) then fail "composite size limit exceeded"
    else match composite_arity_ok c with
    | Some text => fail text
    | None =>
        if negb (bool_decide (co_kind c = C_Enum)) && negb (Nat.eqb (length (co_fields c)) (length (co_names c))) then
          fail "field names/types differ"
        else if negb (forallb (λ t, scalar t && (negb (bool_decide (co_kind c = C_Slice)) || numeric t)) (co_fields c)) then
          fail "unsupported composite payload type"
        else require (distinct identifier ∅ (co_names c)) "invalid/duplicate composite field or variant"
    end.

Definition reserved : list string := ["main"; "printf"; "scanf"; "strcmp"; "write"; "exit"; "malloc"; "free"].
Definition is_reserved (name : string) : bool := existsb (String.eqb name) reserved.

Definition check_global (x : Variable_) : VM bool :=
  or_fail
    (and_then (variable x) (
       v ← gets id;
       if is_reserved (v_name x) || bool_decide (is_Some (globals_ v !! v_name x)) then mret false
       else modify (λ v, set_globals_ (<[v_name x := x]> (globals_ v)) v);; mret true))
    "invalid/duplicate/reserved global".

Definition declare_function (f : Function_) : VM bool :=
  v ← gets id;
  let failed := "invalid/duplicate/reserved function" in
  if negb (identifier (f_name f)) || is_reserved (f_name f) || bool_decide (is_Some (globals_ v !! f_name f)) ||
     bool_decide (is_Some (functions_ v !! f_name f))
  then fail failed
  else
    modify (λ v, set_functions_ (<[f_name f := f]> (functions_ v)) v);;
    require
      (valueType (f_result f) (f_result_composite f) v ||
       (bool_decide (f_result f = S_Void) && is_empty (f_result_composite f))) failed.

Definition tensorShape (s : TensorShape) : bool := isStatic s && (0 <? elementCount s) && (elementCount s <=? 65536).

(** Every [BackendKind] is in the range that [backend] tests. *)
Definition model_ok (m : ModelOp) : bool :=
  tensorShape (input_shape m) && tensorShape (output_shape m) && element (precision m) &&
  negb (bool_decide (format m = FormatUnknown)) && negb (Nat.eqb (length (backend_preference m)) 0).

Definition tensor_ok (t : TensorOp) : bool :=
  tensorShape (shape t) && element (element_type t) &&
  (Nat.eqb (length (values t)) 0 || (Z.of_nat (length (values t)) =? elementCount (shape t))).

(** The largest finite values of [float] and of bfloat16, exactly. *)
Definition float_max : double := double_of_Z (16777215 * 2 ^ 104).
Definition bfloat16_max : double := double_of_Z (255 * 2 ^ 120).

Definition element_limit (t : ElementType) : option double :=
  match t with
  | Float32 => Some float_max
  | Float16 => Some (double_of_Z 65504)
  | BFloat16 => Some bfloat16_max
  | Int4 => Some (double_of_Z 8)
  | Int8 => Some (double_of_Z 128)
  | Int32 => Some (double_of_Z 2147483648)
  | ElementUnknown => None
  end.

Definition integer_element (t : ElementType) : bool := match t with Int4 | Int8 | Int32 => true | _ => false end.

(** [std::trunc(v) == v] for a finite [v] *)
Definition is_integral (d : double) : bool := deqb (double_of_Z (dtrunc d)) d.

Definition check_value (t : ElementType) (d : double) : VM bool :=
  if negb (isfinite d) then fail "non-finite tensor initializer"
  else match element_limit t with
  | None => fail "unknown tensor element type"
  | Some limit =>
      require
        (negb (dltb d (dneg limit) || dltb limit d || (integer_element t && (dleb limit d || negb (is_integral d)))))
        "tensor initializer is outside its exact element domain"
  end.

(** The loops over models, tensors and contracts keep the set of names. *)
Fixpoint check_models (seen : gset string) (ms : list ModelOp) : VM bool :=
  match ms with
  | [] => mret true
  | m :: rest =>
      and_then
        (require (identifier (m_name m) && negb (bool_decide (m_name m ∈ seen)) && model_ok m)
           "invalid model signature or duplicate model (maximum 65536 tensor elements)")
        (check_models ({[m_name m]} ∪ seen) rest)
  end.

Fixpoint check_tensors (seen : gset string) (ts : list TensorOp) : VM bool :=
  match ts with
  | [] => mret true
  | t :: rest =>
      and_then
        (require (identifier (t_name t) && negb (bool_decide (t_name t ∈ seen)) && tensor_ok t)
           "invalid tensor shape/initializer or duplicate tensor (maximum 65536 elements)")
        (and_then (all_ok (check_value (element_type t)) (values t)) (check_tensors ({[t_name t]} ∪ seen) rest))
  end.

Definition check_inference (i : InferOp) : VM bool :=
  require
    (existsb (String.eqb (model_name i)) (map m_name (models p)) &&
     existsb (String.eqb (input_tensor_name i)) (map t_name (tensors p)) &&
     existsb (String.eqb (output_tensor_name i)) (map t_name (tensors p))) "unresolved inference reference".

Definition check_measurement (m : GreenAIMeasurementOp) : VM bool :=
  require (existsb (String.eqb (workload m)) (map c_name (contracts p))) "unresolved measurement contract".

Definition check_parameter (x : Variable_) : VM bool :=
  or_fail (and_then (variable x) (and_then (mret (v_extent x =? 0)) (emplace_scope x))) "invalid parameter".

Definition check_function (f : Function_) : VM bool :=
  modify (λ v, set_resultComposite (f_result_composite f) (set_result (f_result f) (push_scope v)));;
  and_then (all_ok check_parameter (f_parameters f)) (and_then (stmt (f_body f)) (modify pop_scope;; mret true)).

Definition run : VM bool :=
  and_then (all_ok check_composite (composites p)) (
  and_then (all_ok check_global (globals p)) (
  and_then (all_ok declare_function (functions p)) (
  and_then (check_models ∅ (models p)) (
  and_then (check_tensors ∅ (tensors p)) (
  and_then (require (distinct identifier ∅ (map c_name (contracts p))) "duplicate/invalid contract") (
  and_then (all_ok check_inference (inferences p)) (
  and_then (all_ok check_measurement (measurements p)) (
  and_then (all_ok check_function (functions p)) (
    modify (λ v, set_resultComposite "" (set_result S_Int32 (push_scope v)));;
    stmt (body p)))))))))).
End Verify.

(** The result and the text left in [error]. *)
Definition verifySemanticIR (program : ProgramIR) : outcome (bool * string) :=
  match run program new_verifier with
  | Done (ok, v) => Done (ok, error v)
  | Undefined r => Undefined r
  | OutOfFuel => OutOfFuel
  end.
