(* ===== verification/SemanticIRFacts.v ===== *)
(** What the verifier of the semantic IR decides: a declarative type system of
    the IR with its resource limits, and the proof that the verifier accepts
    exactly the programs it describes, without undefined behaviour. *)
From S2P Require Import Prelude CxxInt CxxString CxxFloat SemanticIR.
Import sir.
Open Scope string_scope.
Open Scope Z_scope.

(** Equations between boolean tests. *)
Ltac bool_norm := apply Bool.eq_iff_eq_true; rewrite ?orb_true_iff, ?andb_true_iff; intuition congruence.

(** * The type system *)

(** What a program declares. *)
Record environment := {
  globals_of : gmap string Variable_; functions_of : gmap string Function_; composites_of : gmap string Composite;
  tensors_of : list TensorOp;
}.

Abbreviation scope := (gmap string Variable_).

Section Types.
Context (D : environment).

Definition value_type (t : ScalarType) (id : string) : bool :=
  match t with S_Composite => bool_decide (is_Some (composites_of D !! id)) | _ => scalar t && is_empty id end.

Definition variable_ok (x : Variable_) : bool :=
  identifier (v_name x) && value_type (v_type x) (v_composite x) && (0 <=? v_extent x) && (v_extent x <=? 65536) &&
  negb ((0 <? v_extent x) && (bool_decide (v_type x = S_String) || bool_decide (v_type x = S_Composite))).

Definition resolve (S : list scope) (name : string) : option Variable_ :=
  match lookup_scopes name S with Some x => Some x | None => globals_of D !! name end.

Definition has_types (es : list Expression) (ts : list ScalarType) : bool := bool_decide (map e_type es = ts).

(** The rule of each kind of expression, on operands that are well typed. *)
Definition kind_ok (S : list scope) (e : Expression) : bool :=
  let ops := e_operands e in
  let typed t := bool_decide (e_type e = t) in
  match e_kind e with
  | E_Integer => typed S_Int32 && has_types ops []
  | E_Boolean => typed S_Bool && ((e_integer e =? 0) || (e_integer e =? 1)) && has_types ops []
  | E_Float => typed S_Float64 && isfinite (e_decimal e) && has_types ops []
  | E_String => typed S_String && no_nul (e_name e) && has_types ops []
  | E_Variable | E_Index =>
      match resolve S (e_name e) with
      | Some x =>
          typed (v_type x) && String.eqb (v_composite x) (e_composite e) &&
          (if 0 <? v_extent x then bool_decide (e_kind e = E_Index) && has_types ops [S_Int32]
           else bool_decide (e_kind e = E_Variable) && has_types ops [])
      | None => false
      end
  | E_Unary => (e_opcode e =? 1) && numeric (e_type e) && has_types ops [e_type e]
  | E_Binary =>
      match ops with
      | [l; r] => bool_decide (e_type l = e_type r) && binary_ok (e_opcode e) (e_type l) (e_type e)
      | _ => false
      end
  | E_Call =>
      match functions_of D !! e_name e with
      | Some f =>
          typed (f_result f) && String.eqb (f_result_composite f) (e_composite e) &&
          has_types ops (map v_type (f_parameters f)) &&
          bool_decide (map e_composite ops = map v_composite (f_parameters f))
      | None => false
      end
  | E_Construct =>
      match composites_of D !! e_composite e with
      | Some c => typed S_Composite && negb (bool_decide (co_kind c = C_Slice)) && has_types ops (fields c)
      | None => false
      end
  | E_Project =>
      match ops with
      | [a] =>
          match composites_of D !! e_composite a with
          | Some c =>
              bool_decide (e_type a = S_Composite) && negb (bool_decide (co_kind c = C_Slice)) && (0 <=? e_integer e) &&
              bool_decide (fields c !! Z.to_nat (e_integer e) = Some (e_type e))
          | None => false
          end
      | _ => false
      end
  | E_Slice =>
      match composites_of D !! e_composite e, globals_of D !! e_name e with
      | Some c, Some x =>
          typed S_Composite && bool_decide (co_kind c = C_Slice) && (0 <? v_extent x) &&
          bool_decide (lookup_scopes (e_name e) S = None) && bool_decide (co_fields c !! 0%nat = Some (v_type x)) &&
          has_types ops [S_Int32; S_Int32]
      | _, _ => false
      end
  | E_SliceIndex =>
      match resolve S (e_name e) with
      | Some x =>
          match composites_of D !! v_composite x with
          | Some c =>
              bool_decide (v_type x = S_Composite) && bool_decide (co_kind c = C_Slice) &&
              bool_decide (co_fields c !! 0%nat = Some (e_type e)) && has_types ops [S_Int32]
          | None => false
          end
      | None => false
      end
  | E_TensorIndex =>
      match list_find (λ t, t_name t = e_name e) (tensors_of D) with
      | Some (_, t) => bool_decide (element_type t = Float32) && typed S_Float64 && has_types ops [S_Int32]
      | None => false
      end
  end.

Definition identity_ok (e : Expression) : bool :=
  bool_decide (e_type e = S_Void) || value_type (e_type e) (e_composite e).

Fixpoint expr_ok (S : list scope) (e : Expression) {struct e} : bool :=
  identity_ok e && forallb (expr_ok S) (e_operands e) && kind_ok S e.
End Types.

(** ** Statements *)

(** What surrounds a statement. *)
Record context := {
  x_result : ScalarType; x_resultComposite : string; x_loop : bool; x_labels : gset string;
}.

Definition in_loop (C : context) : context :=
  {| x_result := x_result C; x_resultComposite := x_resultComposite C; x_loop := true; x_labels := x_labels C |}.

Definition with_labels (l : gset string) (C : context) : context :=
  {| x_result := x_result C; x_resultComposite := x_resultComposite C; x_loop := x_loop C; x_labels := l |}.

Fixpoint declare_all (D : environment) (s : scope) (xs : list Variable_) : option scope :=
  match xs with
  | [] => Some s
  | x :: rest =>
      if variable_ok D x && bool_decide (s !! v_name x = None) then declare_all D (<[v_name x := x]> s) rest else None
  end.

(** The expressions that must be variables, which are checked again. *)
Definition targets (s : Statement) : list Expression :=
  match s_kind s with
  | St_Assign | St_Update | St_For => take 1 (s_expressions s)
  | St_Read => s_expressions s
  | _ => []
  end.

Fixpoint label_names (ss : list Statement) : list string :=
  match ss with
  | [] => []
  | s :: rest => match s_kind s with St_Label => s_name s :: label_names rest | _ => label_names rest end
  end.

(** The rule of a statement without statements inside, and of the head of a
    control statement, on expressions that are well typed. *)
Definition rule_ok (D : environment) (p : ProgramIR) (C : context) (s : Statement) : bool :=
  let es := s_expressions s in
  let none := has_types es [] in
  match s_kind s with
  | St_Assign => match es with [a; b] => same a b | _ => false end
  | St_Update =>
      match es with
      | [a; b] =>
          match composites_of D !! e_composite a with
          | Some c =>
              bool_decide (e_type a = S_Composite) && bool_decide (co_kind c = C_Record) &&
              bool_decide (co_fields c !! s_declaration s = Some (e_type b))
          | None => false
          end
      | _ => false
      end
  | St_Expression => Nat.eqb (length es) 1
  | St_Read => forallb (λ e, numeric (e_type e)) es && negb (Nat.eqb (length es) 0)
  | St_Print => forallb (λ e, scalar (e_type e)) es && negb (Nat.eqb (length es) 0)
  | St_If | St_While => match es with [e] => condition (e_type e) | _ => false end
  | St_For => has_types es [S_Int32; S_Int32; S_Int32; S_Int32]
  | St_Break | St_Continue => none && x_loop C
  | St_Return =>
      if bool_decide (x_result C = S_Void) then none
      else match es with
           | [e] => bool_decide (e_type e = x_result C) && String.eqb (e_composite e) (x_resultComposite C)
           | _ => false
           end
  | St_Goto =>
      match es with [] => true | [e] => condition (e_type e) | _ => false end && bool_decide (s_name s ∈ x_labels C)
  | St_Label => none && bool_decide (s_name s ∈ x_labels C)
  | St_Model => none && Nat.ltb (s_declaration s) (length (models p))
  | St_Tensor => none && Nat.ltb (s_declaration s) (length (tensors p))
  | St_Infer => none && Nat.ltb (s_declaration s) (length (inferences p))
  | St_Contract => none && Nat.ltb (s_declaration s) (length (contracts p))
  | St_Measurement => none && Nat.ltb (s_declaration s) (length (measurements p))
  | St_LegacyInfer => none && Nat.eqb (length (s_strings s)) 3
  | St_GreenReport => has_types es [S_Int32; S_Int32; S_Int32]
  | St_Evidence | St_Block | St_Declare => none
  end.

Definition sequence {A} (f : list scope → A → option (list scope)) : list scope → list A → option (list scope) :=
  fix go S l := match l with [] => Some S | x :: rest => match f S x with Some S' => go S' rest | None => None end end.

(** The scopes after a statement, if it is well typed. *)
Fixpoint stmt_ok (D : environment) (p : ProgramIR) (C : context) (S : list scope) (s : Statement) {struct s}
    : option (list scope) :=
  if forallb (expr_ok D S) (s_expressions s) && forallb lvalue_kind (targets s) && rule_ok D p C s then
    match s_kind s with
    | St_Block =>
        let names := label_names (s_body s) in
        if forallb identifier names && bool_decide (NoDup names) then
          let C := with_labels (list_to_set names) C in
          if s_lexical_scope s then
            match sequence (stmt_ok D p C) (∅ :: S) (s_body s) with Some _ => Some S | None => None end
          else sequence (stmt_ok D p C) S (s_body s)
        else None
    | St_If | St_While | St_For =>
        let C' := if is_loop s then in_loop C else C in
        match sequence (stmt_ok D p C') S (s_body s) with
        | Some S' => sequence (stmt_ok D p C) S' (s_alternative s)
        | None => None
        end
    | St_Declare =>
        match S with
        | l :: rest => match declare_all D l (s_variables s) with Some l' => Some (l' :: rest) | None => None end
        | [] => None
        end
    | _ => Some S
    end
  else None.

(** * Work and depth *)

Fixpoint expr_cost (e : Expression) : Z := 1 + foldr (λ a n, expr_cost a + n) 0 (e_operands e).
Fixpoint expr_height (e : Expression) : Z := 1 + foldr (λ a n, Z.max (expr_height a) n) 0 (e_operands e).

Definition exprs_cost (es : list Expression) : Z := foldr (λ a n, expr_cost a + n) 0 es.
Definition exprs_height (es : list Expression) : Z := foldr (λ a n, Z.max (expr_height a) n) 0 es.

(** The statements a visit goes into. *)
Definition is_control (s : Statement) : bool := match s_kind s with St_If | St_While | St_For => true | _ => false end.
Definition visits_body (s : Statement) : bool := is_control s || bool_decide (s_kind s = St_Block).

Fixpoint stmt_cost (s : Statement) : Z :=
  1 + (exprs_cost (s_expressions s) + (exprs_cost (targets s) +
       ((if visits_body s then foldr (λ a n, stmt_cost a + n) 0 (s_body s) else 0) +
        (if is_control s then foldr (λ a n, stmt_cost a + n) 0 (s_alternative s) else 0)))).

Fixpoint stmt_height (s : Statement) : Z :=
  1 + Z.max (exprs_height (s_expressions s)) (Z.max (exprs_height (targets s))
        (Z.max (if visits_body s then foldr (λ a n, Z.max (stmt_height a) n) 0 (s_body s) else 0)
               (if is_control s then foldr (λ a n, Z.max (stmt_height a) n) 0 (s_alternative s) else 0))).

Definition stmts_cost (ss : list Statement) : Z := foldr (λ a n, stmt_cost a + n) 0 ss.
Definition stmts_height (ss : list Statement) : Z := foldr (λ a n, Z.max (stmt_height a) n) 0 ss.

Section ExpressionInduction.
Context (P : Expression → Prop).
Hypothesis step : ∀ e, Forall P (e_operands e) → P e.
Lemma ir_expression_induction e : P e.
Proof using All.
  revert e. fix IH 1. intros [k t x i d o ops r c]. apply step. simpl.
  induction ops as [|a ops IHops]; constructor; [apply IH|exact IHops].
Qed.
End ExpressionInduction.

Section StatementInduction.
Context (P : Statement → Prop).
Hypothesis step : ∀ s, Forall P (s_body s) → Forall P (s_alternative s) → P s.
Lemma ir_statement_induction s : P s.
Proof using All.
  revert s. fix IH 1. intros [k n ss es xs b a d l r]. apply step; simpl.
  - induction b as [|c b IHb]; constructor; [apply IH|exact IHb].
  - induction a as [|c a IHa]; constructor; [apply IH|exact IHa].
Qed.
End StatementInduction.

Lemma expr_cost_unfold e : expr_cost e = 1 + exprs_cost (e_operands e).
Proof. by destruct e. Qed.
Lemma expr_height_unfold e : expr_height e = 1 + exprs_height (e_operands e).
Proof. by destruct e. Qed.

Lemma expr_cost_pos e : 1 ≤ expr_cost e ∧ 1 ≤ expr_height e.
Proof.
  induction e as [e IH] using ir_expression_induction. rewrite expr_cost_unfold, expr_height_unfold.
  assert (0 ≤ exprs_cost (e_operands e) ∧ 0 ≤ exprs_height (e_operands e)); [|lia].
  induction IH as [|a ops [Ha _] _ [IH1 IH2]]; simpl; lia.
Qed.

Lemma exprs_cost_nonneg es : 0 ≤ exprs_cost es ∧ 0 ≤ exprs_height es.
Proof. induction es as [|e es IH]; simpl; [lia|]. pose proof (expr_cost_pos e). lia. Qed.

(** * Running the verifier *)

(** A run that ends with [Some v] succeeds in the state [v]; one that ends with
    [None] fails, and leaves an error text when it is [strict]. *)
Definition agrees (strict : bool) (r : outcome (bool * Verifier)) (expected : option Verifier) : Prop :=
  match r with
  | Done (true, v) => expected = Some v
  | Done (false, v) => expected = None ∧ (strict = true → error v ≠ "")
  | Undefined _ | OutOfFuel => False
  end.

Definition granted (ok : bool) (v : Verifier) : option Verifier := if ok then Some v else None.

Lemma agrees_eq strict r o o' : agrees strict r o → o = o' → agrees strict r o'.
Proof. by intros ? <-. Qed.

Lemma agrees_weaken strict r o : agrees true r o → agrees strict r o.
Proof. unfold agrees. destruct r as [[[] v]| |]; naive_solver. Qed.

Lemma agrees_fail strict text v : text ≠ "" → agrees strict (fail text v) None.
Proof.
  intros H. unfold fail, modify, mbind, SM_bind, mret, SM_ret. simpl. split; [done|]. intros _.
  destruct (is_empty (error v)) eqn:E; simpl; [done|]. by destruct (error v).
Qed.

Lemma agrees_require strict ok text v : text ≠ "" → agrees strict (require ok text v) (granted ok v).
Proof. intros H. destruct ok; [done|by apply agrees_fail]. Qed.

Lemma agrees_test ok v : agrees false ((mret ok : VM bool) v) (granted ok v).
Proof. by destruct ok. Qed.

Lemma agrees_and_then strict m k v o1 (o2 : Verifier → option Verifier) :
  agrees strict (m v) o1 → (∀ v1, o1 = Some v1 → agrees strict (k v1) (o2 v1)) →
  agrees strict (and_then m k v) (o1 ≫= o2).
Proof.
  unfold and_then, mbind at 1, SM_bind. intros H1 H2. unfold agrees in H1.
  destruct (m v) as [[[] v']| |]; [|by destruct H1 as [-> ?]|done|done]. subst o1. simpl. auto.
Qed.

Lemma agrees_or_fail strict m text v o : text ≠ "" → agrees false (m v) o → agrees strict (or_fail m text v) o.
Proof.
  intros Ht. unfold or_fail, mbind, SM_bind, agrees at 1. destruct (m v) as [[[] v']| |]; simpl; [done| |done|done].
  intros [-> _]. by apply agrees_fail.
Qed.

Lemma agrees_modify strict f k v o : agrees strict (k (f v)) o → agrees strict ((modify f ;; k) v) o.
Proof. done. Qed.

Lemma granted_Some b v v' : granted b v = Some v' → v = v'.
Proof. destruct b; naive_solver. Qed.

Lemma granted_and b1 b2 v : (granted b1 v ≫= λ v', granted b2 v') = granted (b1 && b2) v.
Proof. by destruct b1, b2. Qed.

Lemma bind_gets_verifier {A B} (f : Verifier → A) (k : A → VM B) v : (gets f ≫= k) v = k (f v) v.
Proof. done. Qed.

Lemma bind_modify_verifier {B} (f : Verifier → Verifier) (k : unit → VM B) v : (modify f ≫= k) v = k tt (f v).
Proof. done. Qed.

(** ** Expressions *)

Section Exact.
Context (p : ProgramIR).

Definition env_of (v : Verifier) : environment :=
  {| globals_of := globals_ v; functions_of := functions_ v; composites_of := composites_ v; tensors_of := tensors p |}.

(** The composite of a variable is declared. *)
Definition known (v : Verifier) (x : Variable_) : Prop :=
  v_type x = S_Composite → is_Some (composites_ v !! v_composite x).

(** What holds once the composites are checked and variables are declared. *)
Record good (v : Verifier) : Prop := {
  good_slices : ∀ id c, composites_ v !! id = Some c → co_kind c = C_Slice → co_fields c ≠ [];
  good_globals : map_Forall (λ _, known v) (globals_ v);
  good_scopes : Forall (map_Forall (λ _, known v)) (scopes v) }.

Lemma good_variables v name x :
  good v → lookup_ name v = Some x → v_type x = S_Composite → is_Some (composites_ v !! v_composite x).
Proof.
  intros [_ Gg Gs]. unfold lookup_. induction Gs as [|s ss Hs _ IH]; simpl; [apply Gg|].
  destruct (s !! name) as [y|] eqn:E; [|exact IH]. intros [= <-]. by apply (Hs name).
Qed.

Lemma has_types_0 ops : has_types ops [] = Nat.eqb (length ops) 0.
Proof. by destruct ops. Qed.

Lemma has_types_1 e t : has_types (e_operands e) [t] = Nat.eqb (length (e_operands e)) 1 && operand_is e 0 t.
Proof.
  unfold has_types, operand_is, operand_type. apply Bool.eq_iff_eq_true.
  rewrite andb_true_iff, !bool_decide_eq_true. destruct (e_operands e) as [|a [|b ops]]; simpl; naive_solver.
Qed.

Lemma has_types_2 e t u :
  has_types (e_operands e) [t; u] = Nat.eqb (length (e_operands e)) 2 && (operand_is e 0 t && operand_is e 1 u).
Proof.
  unfold has_types, operand_is, operand_type. apply Bool.eq_iff_eq_true.
  rewrite !andb_true_iff, !bool_decide_eq_true. destruct (e_operands e) as [|a [|b [|c ops]]]; simpl; naive_solver.
Qed.

Lemma arguments_match_types args ps :
  length ps = length args →
  arguments_match args ps = has_types args (map v_type ps) && bool_decide (map e_composite args = map v_composite ps).
Proof.
  unfold has_types. revert ps. induction args as [|a args IH]; intros [|x ps] L; simpl in *; try done.
  rewrite IH by lia. apply Bool.eq_iff_eq_true. rewrite !andb_true_iff, !bool_decide_eq_true, String.eqb_eq.
  naive_solver congruence.
Qed.

Lemma has_types_length es ts : has_types es ts = true → length es = length ts.
Proof. unfold has_types. rewrite bool_decide_eq_true. intros <-. by rewrite length_map. Qed.
Lemma agrees_require_eq strict ok ok' text v :
  text ≠ "" → ok = ok' → agrees strict (require ok text v) (granted ok' v).
Proof. intros ? <-. by apply agrees_require. Qed.

Lemma agrees_fail_eq strict ok text v : text ≠ "" → ok = false → agrees strict (fail text v) (granted ok v).
Proof. intros ? ->. by apply agrees_fail. Qed.

Lemma composite_at_bind {A} id c (k : Composite → VM A) v :
  composites_ v !! id = Some c → (composite_at id ≫= k) v = k c v.
Proof. intros H. unfold composite_at, mbind, SM_bind, gets. by rewrite H. Qed.

Lemma field_at_bind {A} c i t (k : ScalarType → VM A) v : co_fields c !! i = Some t → (field_at c i ≫= k) v = k t v.
Proof. intros H. unfold field_at, mbind, SM_bind. by rewrite H. Qed.

Lemma identity_composite v e :
  identity_ok (env_of v) e = true → e_type e = S_Composite → is_Some (composites_ v !! e_composite e).
Proof.
  unfold identity_ok, value_type. intros H E. rewrite E in H. simpl in H.
  by apply bool_decide_eq_true in H.
Qed.

Lemma slice_field v id c : good v → composites_ v !! id = Some c → co_kind c = C_Slice →
  ∃ t, co_fields c !! 0%nat = Some t.
Proof. intros G Hc Hk. pose proof (good_slices _ G _ _ Hc Hk). destruct (co_fields c); [done|by eexists]. Qed.

Ltac kind_require := first [apply agrees_require_eq | apply agrees_fail_eq];
  [done|rewrite ?has_types_0, ?has_types_1, ?has_types_2].

Lemma check_kind_exact strict e v :
  good v → identity_ok (env_of v) e = true → forallb (identity_ok (env_of v)) (e_operands e) = true →
  agrees strict (check_kind p e v) (granted (kind_ok (env_of v) (scopes v) e) v).
Proof.
  intros G I Io. unfold check_kind, kind_ok. rewrite bind_gets_verifier. unfold id. cbv zeta.
  destruct (e_kind e) eqn:K.
  - kind_require. done.
  - kind_require. done.
  - kind_require. done.
  - kind_require. by rewrite <- !andb_assoc, (andb_comm (no_nul _)).
  - kind_require. change (resolve (env_of v) (scopes v) (e_name e)) with (lookup_ (e_name e) v).
    destruct (lookup_ (e_name e) v) as [x|]; [|done]. simpl. destruct (0 <? v_extent x); simpl; bool_norm.
  - kind_require. change (resolve (env_of v) (scopes v) (e_name e)) with (lookup_ (e_name e) v).
    destruct (lookup_ (e_name e) v) as [x|]; [|done]. simpl. destruct (0 <? v_extent x); simpl; bool_norm.
  - destruct (e_operands e) as [|l [|r [|x ops]]] eqn:O; try (by apply agrees_fail).
    destruct (bool_decide (e_type l = e_type r)); simpl; [by apply agrees_require|by apply agrees_fail].
  - kind_require. bool_norm.
  - change (functions_of (env_of v)) with (functions_ v). destruct (functions_ v !! e_name e) as [f|]; [|by apply agrees_fail].
    destruct (bool_decide (e_type e = f_result f)); simpl; [|by apply agrees_fail].
    destruct (String.eqb (f_result_composite f) (e_composite e)); simpl; [|by apply agrees_fail].
    destruct (Nat.eqb_spec (length (f_parameters f)) (length (e_operands e))) as [L|L]; simpl.
    + kind_require. by rewrite arguments_match_types.
    + apply agrees_fail_eq; [done|]. apply not_true_is_false. intros [H%has_types_length _]%andb_true_iff.
      rewrite length_map in H. congruence.
  - destruct (bool_decide_reflect (e_type e = S_Composite)) as [T|T]; simpl.
    2: { destruct (composites_ v !! e_composite e); simpl; by apply agrees_fail. }
    destruct (identity_composite _ _ I T) as [c Hc]. rewrite (composite_at_bind _ c) by done. simpl. rewrite Hc.
    destruct (bool_decide (co_kind c = C_Slice)); simpl; [by apply agrees_fail|].
    destruct (Nat.eqb_spec (length (fields c)) (length (e_operands e))) as [L|L]; simpl.
    + kind_require. unfold has_types. apply bool_decide_ext. naive_solver.
    + apply agrees_fail_eq; [done|]. apply not_true_is_false. intros H%has_types_length. congruence.
  - destruct (e_operands e) as [|a [|b ops]] eqn:O; try (by apply agrees_fail). simpl in Io. rewrite andb_true_r in Io.
    destruct (bool_decide_reflect (e_type a = S_Composite)) as [T|T]; simpl.
    2: { destruct (composites_ v !! e_composite a); simpl; by apply agrees_fail. }
    destruct (identity_composite _ _ Io T) as [c Hc]. rewrite (composite_at_bind _ c), Hc by done. by apply agrees_require.
  - destruct (bool_decide_reflect (e_type e = S_Composite)) as [T|T]; simpl.
    2: { apply agrees_fail_eq; [done|]. by repeat case_match. }
    destruct (identity_composite _ _ I T) as [c Hc]. rewrite (composite_at_bind _ c), Hc by done.
    destruct (globals_ v !! e_name e) as [x|]; [|by apply agrees_fail].
    destruct (bool_decide_reflect (co_kind c = C_Slice)) as [Ks|Ks]; simpl; [|by apply agrees_fail].
    destruct (slice_field _ _ _ G Hc Ks) as [t Ht].
    destruct (Z.leb_spec (v_extent x) 0), (Z.ltb_spec 0 (v_extent x)); try lia; simpl; [by apply agrees_fail|].
    destruct (lookup_scopes (e_name e) (scopes v)) as [y|]; simpl; [by apply agrees_fail|].
    rewrite has_types_2. destruct (Nat.eqb (length (e_operands e)) 2); simpl.
    2: { rewrite andb_false_r. by apply agrees_fail. }
    rewrite (field_at_bind _ _ t) by done. kind_require. rewrite Ht, <- andb_assoc. f_equal. apply bool_decide_ext. naive_solver.
  - change (resolve (env_of v) (scopes v) (e_name e)) with (lookup_ (e_name e) v).
    destruct (lookup_ (e_name e) v) as [x|] eqn:L; [|by apply agrees_fail].
    destruct (bool_decide_reflect (v_type x = S_Composite)) as [T|T]; simpl.
    2: { apply agrees_fail_eq; [done|]. by case_match. }
    destruct (good_variables _ _ _ G L T) as [c Hc]. rewrite (composite_at_bind _ c), Hc by done.
    destruct (bool_decide_reflect (co_kind c = C_Slice)) as [Ks|Ks]; simpl; [|by apply agrees_fail].
    destruct (slice_field _ _ _ G Hc Ks) as [t Ht]. rewrite (field_at_bind _ _ t) by done. kind_require.
    rewrite Ht, <- andb_assoc. f_equal. apply bool_decide_ext. naive_solver.
  - unfold find_tensor. simpl. destruct (list_find _ (tensors p)) as [[i t]|]; simpl; [|by apply agrees_fail].
    kind_require. bool_norm.
Qed.
(** ** The limits *)

Definition fits (c h : Z) (v : Verifier) : bool := (nodes v + c <=? 100000) && (depth v + h <=? 256).
Definition move (c : Z) (v : Verifier) : Verifier := set_nodes (nodes v + c) v.
Definition grant (ok : bool) (c h : Z) (v : Verifier) : option Verifier := granted (ok && fits c h v) (move c v).

Record ready (v : Verifier) : Prop := {
  ready_good : good v; ready_nodes : nodes v ≤ 100000; ready_depth : 0 ≤ depth v ≤ 256;
  ready_loops : 0 ≤ loops v ≤ depth v }.

Lemma move_move c1 c2 v : move c2 (move c1 v) = move (c1 + c2) v.
Proof. unfold move, set_nodes; simpl. f_equal. lia. Qed.

Lemma grant_Some ok c h v v' : grant ok c h v = Some v' → ok = true ∧ fits c h v = true ∧ v' = move c v.
Proof. unfold grant, granted. destruct ok, (fits c h v); naive_solver. Qed.

Lemma ready_move c h v : ready v → fits c h v = true → ready (move c v).
Proof. unfold fits. intros [[? ? ?] ? ? ?]. rewrite andb_true_iff, !Z.leb_le. intros [? ?]. split; simpl; [by split|lia..]. Qed.

Lemma grant_seq ok1 c1 h1 ok2 c2 h2 v :
  0 ≤ c2 →
  (grant ok1 c1 h1 v ≫= λ v', grant ok2 c2 h2 v') = grant (ok1 && ok2) (c1 + c2) (Z.max h1 h2) v.
Proof.
  intros H. unfold grant, granted. destruct ok1; simpl; [|done]. unfold fits; simpl.
  destruct (Z.leb_spec (nodes v + c1) 100000), (Z.leb_spec (depth v + h1) 256); simpl.
  - rewrite move_move. destruct ok2; simpl; [|done].
    destruct (Z.leb_spec (nodes v + c1 + c2) 100000), (Z.leb_spec (nodes v + (c1 + c2)) 100000); try lia; simpl; [|done].
    destruct (Z.leb_spec (depth v + h2) 256), (Z.leb_spec (depth v + Z.max h1 h2) 256); try lia; done.
  - destruct (Z.leb_spec (depth v + Z.max h1 h2) 256); [lia|]. by rewrite !andb_false_r.
  - destruct (Z.leb_spec (nodes v + (c1 + c2)) 100000); [lia|]. by rewrite !andb_false_r.
  - destruct (Z.leb_spec (nodes v + (c1 + c2)) 100000); [lia|]. by rewrite !andb_false_r.
Qed.

Lemma grant_free v : nodes v ≤ 100000 → depth v ≤ 256 → grant true 0 0 v = Some v.
Proof.
  intros N D. unfold grant, granted, fits. simpl.
  destruct (Z.leb_spec (nodes v + 0) 100000), (Z.leb_spec (depth v + 0) 256); try lia; simpl.
  unfold move. rewrite Z.add_0_r. by destruct v.
Qed.

Lemma grant_nothing v : ready v → grant true 0 0 v = Some v.
Proof. intros [_ N [_ D] _]. by apply grant_free. Qed.

Lemma grant_false c h v : grant false c h v = None.
Proof. done. Qed.

(** Entering and leaving a node. *)
Definition entered (v : Verifier) : Verifier := set_depth (depth v + 1) (set_nodes (nodes v + 1) v).
Definition left (v : Verifier) : Verifier := set_depth (depth v - 1) v.

Lemma entered_ready v : ready v → fits 1 1 v = true → ready (entered v).
Proof.
  unfold fits. intros [[? ? ?] ? ? ?]. rewrite andb_true_iff, !Z.leb_le. intros [? ?]. split; simpl; [by split|lia..].
Qed.

Lemma small_depth d : 0 ≤ d ≤ 300 → u32 d = d.
Proof. intros H. apply u32_id. unfold is_uint32. width. Qed.

Lemma counted_exact m v o :
  ready v →
  (fits 1 1 v = true → agrees true (m (entered v)) o) →
  (∀ v', o = Some v' → depth v' = depth v + 1) →
  agrees true (counted m v) (if fits 1 1 v then left <$> o else None).
Proof.
  intros [G N D L] Hm Hd. unfold counted, fits in *.
  rewrite (bind_modify_verifier (λ v, set_nodes (nodes v + 1) v)), bind_gets_verifier. unfold id; simpl.
  destruct (Z.ltb_spec 100000 (nodes v + 1)), (Z.leb_spec (nodes v + 1) 100000); try lia; simpl in *.
  { by refine (agrees_fail true _ (set_depth (u32 (depth v - 1)) (set_nodes (nodes v + 1) v)) _). }
  rewrite bind_modify_verifier. simpl. rewrite small_depth by lia.
  destruct (Z.leb_spec 256 (depth v)), (Z.leb_spec (depth v + 1) 256); try lia; simpl in *.
  { by refine (agrees_fail true _ (set_depth (u32 (depth v + 1 - 1)) (entered v)) _). }
  specialize (Hm eq_refl). unfold entered in Hm. unfold mbind at 1, SM_bind at 1, leave_node. unfold agrees in *.
  match goal with |- context [m ?s] => destruct (m s) as [[[] v']| |] end; try done.
  - subst o. simpl. f_equal. unfold left. rewrite (Hd v' eq_refl). by rewrite small_depth by lia.
  - destruct Hm as [-> He]. done.
Qed.
(** The limits of a node and of what it holds. *)
Lemma entered_grant L ok c h v :
  0 ≤ c → 0 ≤ h →
  (if fits 1 1 v then left <$> grant ok c h (set_scopes L (entered v)) else None) =
  grant ok (1 + c) (1 + h) (set_scopes L v).
Proof.
  intros Hc Hh. unfold grant, granted, fits; simpl. destruct ok; simpl; [|by destruct (_ && _)].
  destruct (Z.leb_spec (nodes v + 1) 100000), (Z.leb_spec (depth v + 1) 256); simpl.
  2-4: destruct (Z.leb_spec (nodes v + (1 + c)) 100000), (Z.leb_spec (depth v + (1 + h)) 256); try lia; done.
  destruct (Z.leb_spec (nodes v + 1 + c) 100000), (Z.leb_spec (nodes v + (1 + c)) 100000); try lia; simpl; [|done].
  destruct (Z.leb_spec (depth v + 1 + h) 256), (Z.leb_spec (depth v + (1 + h)) 256); try lia; simpl; [|done].
  f_equal. unfold left, move, entered, set_depth, set_nodes, set_scopes; simpl. f_equal; lia.
Qed.

(** A node whose inside costs [c] and has height [h]. *)
Lemma counted_grant m v ok c h :
  ready v → 0 ≤ c → 0 ≤ h →
  (ready (entered v) → agrees true (m (entered v)) (grant ok c h (entered v))) →
  agrees true (counted m v) (grant ok (1 + c) (1 + h) v).
Proof.
  intros R Hc Hh Hm. eapply agrees_eq.
  - apply (counted_exact m v (grant ok c h (entered v))); [done| |].
    + intros F. by apply Hm, entered_ready.
    + intros v' (_ & _ & ->)%grant_Some. done.
  - pose proof (entered_grant (scopes v) ok c h v Hc Hh) as E. by destruct v.
Qed.

(** A list of checks, one after the other. *)
Lemma all_ok_grant {A} (f : A → VM bool) (ok : A → bool) (cost height : A → Z) l v :
  ready v →
  Forall (λ x, 0 ≤ cost x ∧ ∀ v', ready v' → env_of v' = env_of v → scopes v' = scopes v →
            agrees true (f x v') (grant (ok x) (cost x) (height x) v')) l →
  agrees true (all_ok f l v)
    (grant (forallb ok l) (foldr (λ x n, cost x + n) 0 l) (foldr (λ x n, Z.max (height x) n) 0 l) v).
Proof.
  revert v. induction l as [|x l IH]; intros v R F; cbn [all_ok forallb foldr].
  { rewrite grant_nothing by done. done. }
  apply Forall_cons in F as [[Hc Hx] F]. eapply agrees_eq.
  - eapply agrees_and_then; [by apply Hx|]. intros v1 (Ho & Hf & ->)%grant_Some.
    apply (IH (move (cost x) v)); [by eapply ready_move|]. eapply Forall_impl; [exact F|].
    intros y [Hy Hv]. split; [done|]. intros v' R' Ee Es. by apply Hv.
  - simpl. rewrite grant_seq; [done|]. clear -F. induction F as [|y l [? _] _ IH]; simpl; lia.
Qed.

Lemma expr_unfold e lvalue v :
  expr p e lvalue v =
  counted (
    v ← gets id;
    if negb (bool_decide (e_type e = S_Void)) && negb (valueType (e_type e) (e_composite e) v)
    then fail "invalid expression type identity"
    else if lvalue && negb (lvalue_kind e) then fail "assignment/input requires a variable"
    else and_then (all_ok (λ a, expr p a false) (e_operands e)) (check_kind p e)) v.
Proof. by destruct e. Qed.

Lemma expr_ok_unfold D S e :
  expr_ok D S e = identity_ok D e && forallb (expr_ok D S) (e_operands e) && kind_ok D S e.
Proof. by destruct e. Qed.

Lemma expr_ok_identity D S e : expr_ok D S e = true → identity_ok D e = true.
Proof. rewrite expr_ok_unfold, !andb_true_iff. naive_solver. Qed.

(** An expression as a value or, when [lvalue], as a target. *)
Definition target_ok (lvalue : bool) (D : environment) (S : list scope) (e : Expression) : bool :=
  expr_ok D S e && (negb lvalue || lvalue_kind e).

Lemma expr_exact e lvalue v :
  ready v →
  agrees true (expr p e lvalue v)
    (grant (target_ok lvalue (env_of v) (scopes v) e) (expr_cost e) (expr_height e) v).
Proof.
  revert lvalue v. induction e as [e IH] using ir_expression_induction. intros lvalue v R.
  rewrite expr_unfold, expr_cost_unfold, expr_height_unfold. unfold target_ok. rewrite expr_ok_unfold.
  pose proof (exprs_cost_nonneg (e_operands e)) as [Hc Hh].
  apply counted_grant; [done..|]. intros R'. rewrite bind_gets_verifier. unfold id.
  change (valueType (e_type e) (e_composite e) (entered v)) with (value_type (env_of v) (e_type e) (e_composite e)).
  destruct (identity_ok (env_of v) e) eqn:I; unfold identity_ok in I; apply orb_false_iff in I || idtac.
  2: { destruct I as [-> ->]. by refine (agrees_fail true _ (entered v) _). }
  replace (negb (bool_decide (e_type e = S_Void)) && negb (value_type (env_of v) (e_type e) (e_composite e))) with false
    by (destruct (bool_decide (e_type e = S_Void)), (value_type (env_of v) (e_type e) (e_composite e)); done).
  destruct (lvalue && negb (lvalue_kind e)) eqn:V.
  { apply andb_true_iff in V as [-> V%negb_true_iff]. rewrite V. rewrite andb_false_r, grant_false. by refine (agrees_fail true _ (entered v) _). }
  replace (negb lvalue || lvalue_kind e) with true by (destruct lvalue, (lvalue_kind e); done).
  rewrite andb_true_r. simpl. eapply agrees_eq.
  - eapply agrees_and_then.
    + apply (all_ok_grant _ (expr_ok (env_of v) (scopes v)) expr_cost expr_height); [done|].
      apply Forall_forall. intros a Ha. split; [pose proof (expr_cost_pos a); lia|]. intros v' Rv Ee Es.
      rewrite Forall_forall in IH. specialize (IH a Ha false v' Rv). unfold target_ok in IH. simpl in IH.
      rewrite andb_true_r, Ee, Es in IH. exact IH.
    + intros v1 (Ho & Hf & ->)%grant_Some.
      apply (check_kind_exact true e (move _ (entered v))).
      * pose proof (ready_good _ (ready_move _ _ _ R' Hf)). done.
      * unfold identity_ok. exact I.
      * rewrite forallb_forall in Ho |- *. intros a Ha. apply (expr_ok_identity _ (scopes v)). by apply Ho.
  - fold (exprs_cost (e_operands e)) (exprs_height (e_operands e)).
    unfold grant, granted. simpl. destruct (forallb _ (e_operands e)); simpl; [|done].
    destruct (fits _ _ (entered v)); simpl; [|by rewrite andb_false_r]. rewrite andb_true_r. done.
Qed.
(** ** Statements *)

Definition context_of (v : Verifier) : context :=
  {| x_result := result v; x_resultComposite := resultComposite v; x_loop := 0 <? loops v;
     x_labels := default ∅ (head (labels v)) |}.

(** The state after statements that leave the scopes [o]. *)
Definition scoped (o : option (list scope)) (c h : Z) (v : Verifier) : option Verifier :=
  match o with Some L => grant true c h (set_scopes L v) | None => None end.

Lemma scoped_seq o c1 h1 (f : list scope → option (list scope)) c2 h2 v :
  0 ≤ c2 →
  (scoped o c1 h1 v ≫= λ v', scoped (f (scopes v')) c2 h2 v') = scoped (o ≫= f) (c1 + c2) (Z.max h1 h2) v.
Proof.
  intros H. destruct o as [L|]; [|done]. simpl. unfold scoped. destruct (f L) as [L'|] eqn:E.
  - pose proof (grant_seq true c1 h1 true c2 h2 (set_scopes L' v) H) as G. simpl in G. rewrite <- G.
    unfold grant, granted. simpl. change (fits c1 h1 (set_scopes L v)) with (fits c1 h1 (set_scopes L' v)).
    destruct (fits c1 h1 (set_scopes L' v)); simpl; [|done]. by rewrite E.
  - destruct (grant true c1 h1 (set_scopes L v)) as [v'|] eqn:G; simpl; [|done].
    apply grant_Some in G as (_ & _ & ->). simpl. by rewrite E.
Qed.
Lemma set_scopes_same v : set_scopes (scopes v) v = v.
Proof. by destruct v. Qed.

Lemma scoped_grant (ok : bool) c h v : scoped (if ok then Some (scopes v) else None) c h v = grant ok c h v.
Proof. destruct ok; simpl; [by rewrite set_scopes_same|done]. Qed.

Lemma grant_test ok b c h v : (grant ok c h v ≫= λ v', granted b v') = grant (ok && b) c h v.
Proof. unfold grant, granted. destruct ok, b; simpl; by destruct (fits c h v). Qed.

Lemma granted_grant ok1 ok2 c h v : (granted ok1 v ≫= λ v', grant ok2 c h v') = grant (ok1 && ok2) c h v.
Proof. by destruct ok1. Qed.

Lemma granted_free ok v : ready v → granted ok v = grant ok 0 0 v.
Proof. intros R. destruct ok; [by rewrite grant_nothing|done]. Qed.

Lemma count_exact strict s n v : agrees strict (count s n v) (granted (Nat.eqb (length (s_expressions s)) n) v).
Proof. by apply agrees_require. Qed.

(** The pattern [(count(n) && test) || fail(text)]. *)
Lemma counted_test s n b text v :
  text ≠ "" →
  agrees true (or_fail (and_then (count s n) (mret b)) text v) (granted (Nat.eqb (length (s_expressions s)) n && b) v).
Proof.
  intros H. apply agrees_or_fail; [done|]. rewrite <- granted_and. apply agrees_and_then; [apply count_exact|].
  intros v' [= <-]%granted_Some. apply agrees_test.
Qed.

Lemma target_exact e v :
  ready v → expr_ok (env_of v) (scopes v) e = true →
  agrees true (expr p e true v) (grant (lvalue_kind e) (expr_cost e) (expr_height e) v).
Proof. intros R E. pose proof (expr_exact e true v R) as H. unfold target_ok in H. by rewrite E in H. Qed.

Lemma tests_exact {A} (f : A → bool) text (l : list A) v :
  text ≠ "" → agrees true (all_ok (λ x, require (f x) text) l v) (granted (forallb f l) v).
Proof.
  intros H. induction l as [|x l IH]; [done|]. cbn [all_ok forallb]. rewrite <- granted_and.
  apply agrees_and_then; [by apply agrees_require|]. by intros v' [= <-]%granted_Some.
Qed.

Lemma reads_exact es v :
  ready v → forallb (expr_ok (env_of v) (scopes v)) es = true →
  agrees true
    (all_ok (λ e, or_fail (and_then (expr p e true) (mret (numeric (e_type e)))) "unsupported read target") es v)
    (grant (forallb (λ e, lvalue_kind e && numeric (e_type e)) es) (exprs_cost es) (exprs_height es) v).
Proof.
  intros R E. apply (all_ok_grant _ _ expr_cost expr_height); [done|]. rewrite forallb_forall in E.
  apply Forall_forall. intros e He. split; [pose proof (expr_cost_pos e); lia|]. intros v' R' Ee Es.
  apply agrees_or_fail; [done|]. rewrite <- grant_test. apply agrees_and_then.
  - apply agrees_weaken. apply target_exact; [done|]. rewrite Ee, Es. apply E. by apply list_elem_of_In.
  - intros v1 _. apply agrees_test.
Qed.

Lemma forallb_and {A} (f g : A → bool) l : forallb (λ x, f x && g x) l = forallb f l && forallb g l.
Proof. induction l as [|x l IH]; simpl; [done|]. rewrite IH. bool_norm. Qed.

Lemma has_types_forall es t n : has_types es (repeat t n) = Nat.eqb (length es) n && forallb (λ e, bool_decide (e_type e = t)) es.
Proof.
  unfold has_types. revert n. induction es as [|e es IH]; intros [|n]; simpl; try done.
  specialize (IH n). apply Bool.eq_iff_eq_true. rewrite Bool.eq_iff_eq_true in IH.
  rewrite !andb_true_iff, !bool_decide_eq_true in *. naive_solver congruence.
Qed.

Lemma count_off strict s n k v : length (s_expressions s) ≠ n → agrees strict (and_then (count s n) k v) None.
Proof.
  intros H. refine (agrees_and_then strict _ _ v None (λ _, None) _ _); [|done].
  eapply agrees_eq; [apply count_exact|]. by rewrite (proj2 (Nat.eqb_neq _ _) H).
Qed.

Lemma count_on s n k v : length (s_expressions s) = n → and_then (count s n) k v = k v.
Proof. intros H. unfold and_then, count, require. by rewrite H, Nat.eqb_refl. Qed.

Lemma label_known_context name v : label_known name v = bool_decide (name ∈ x_labels (context_of v)).
Proof. unfold label_known, context_of. simpl. destruct (labels v); simpl; [|done]. symmetry. by apply bool_decide_false, not_elem_of_empty. Qed.

Lemma head_exprs a es : exprs_cost (take 1 (a :: es)) = expr_cost a ∧ exprs_height (take 1 (a :: es)) = expr_height a.
Proof. simpl. pose proof (expr_cost_pos a). lia. Qed.

Lemma assign_exact s v :
  ready v → forallb (expr_ok (env_of v) (scopes v)) (s_expressions s) = true → s_kind s = St_Assign →
  agrees true (simple_statement p s v)
    (grant (forallb lvalue_kind (targets s) && rule_ok (env_of v) p (context_of v) s)
       (exprs_cost (targets s)) (exprs_height (targets s)) v).
Proof.
  intros R E K. unfold simple_statement, targets, rule_ok. rewrite bind_gets_verifier, K. unfold id.
  apply agrees_or_fail; [done|]. destruct (s_expressions s) as [|a [|b [|c es]]] eqn:L.
  1,2,4: rewrite andb_false_r; apply count_off; rewrite L; simpl; lia.
  rewrite count_on by by rewrite L. rewrite (proj1 (head_exprs a [b])), (proj2 (head_exprs a [b])). simpl.
  rewrite andb_true_r, <- grant_test. apply andb_true_iff in E as [Ea _]. apply agrees_and_then.
  - by apply agrees_weaken, target_exact.
  - intros v1 _. apply agrees_test.
Qed.

Lemma update_exact s v :
  ready v → forallb (expr_ok (env_of v) (scopes v)) (s_expressions s) = true → s_kind s = St_Update →
  agrees true (simple_statement p s v)
    (grant (forallb lvalue_kind (targets s) && rule_ok (env_of v) p (context_of v) s)
       (exprs_cost (targets s)) (exprs_height (targets s)) v).
Proof.
  intros R E K. unfold simple_statement, targets, rule_ok. rewrite bind_gets_verifier, K. unfold id.
  destruct (s_expressions s) as [|a [|b [|c es]]] eqn:L.
  1,2,4: rewrite andb_false_r; refine (agrees_and_then true _ _ v None (λ _, None) _ _); [|done];
    apply agrees_or_fail; [done|]; apply count_off; rewrite L; simpl; lia.
  rewrite (proj1 (head_exprs a [b])), (proj2 (head_exprs a [b])). simpl. rewrite andb_true_r.
  apply andb_true_iff in E as [Ea _]. destruct (bool_decide_reflect (e_type a = S_Composite)) as [T|T].
  - destruct (identity_composite _ _ (expr_ok_identity _ _ _ Ea) T) as [c Hc]. rewrite Hc. simpl. rewrite <- grant_test.
    apply agrees_and_then.
    + apply agrees_or_fail; [done|]. rewrite count_on by by rewrite L. by apply agrees_weaken, target_exact.
    + intros v1 (_ & _ & ->)%grant_Some. rewrite (composite_at_bind _ c) by done. by apply agrees_require.
  - replace (match composites_ v !! e_composite a with Some _ => _ | None => _ end) with false by (by case_match).
    rewrite andb_false_r. refine (agrees_and_then true _ _ v None (λ _, None) _ _); [|done].
    apply agrees_or_fail; [done|]. by rewrite count_on by by rewrite L.
Qed.

Lemma simple_exact s v :
  ready v → forallb (expr_ok (env_of v) (scopes v)) (s_expressions s) = true →
  visits_body s = false → s_kind s ≠ St_Declare →
  agrees true (simple_statement p s v)
    (grant (forallb lvalue_kind (targets s) && rule_ok (env_of v) p (context_of v) s)
       (exprs_cost (targets s)) (exprs_height (targets s)) v).
Proof.
  intros R E V Dk. unfold simple_statement. rewrite bind_gets_verifier. unfold id, targets, rule_ok, is_control in *.
  unfold visits_body, is_control in V.
  destruct (s_kind s) eqn:K; try discriminate; try (by destruct Dk); cbn [forallb andb exprs_cost exprs_height foldr];
    rewrite <- ?granted_free, ?has_types_0 by done; try (by apply counted_test); try (by apply count_exact).
  - pose proof (assign_exact s v R E K) as H. unfold simple_statement, targets, rule_ok in H.
    rewrite bind_gets_verifier, K in H. exact H.
  - apply (agrees_eq true _ (granted (Nat.eqb (length (s_expressions s)) (if bool_decide (result v = S_Void) then 0%nat else 1%nat) &&
      (bool_decide (result v = S_Void) || match s_expressions s with
        | e :: _ => bool_decide (e_type e = result v) && String.eqb (e_composite e) (resultComposite v) | [] => false end)) v));
      [by apply counted_test|].
    simpl. destruct (bool_decide (result v = S_Void)); simpl; [by rewrite andb_true_r|].
    by destruct (s_expressions s) as [|e [|e' es]].
  - rewrite <- label_known_context. by apply agrees_require.
  - rewrite <- label_known_context. by apply counted_test.
  - eapply agrees_eq; [eapply agrees_and_then; [by apply reads_exact|]|].
    + intros v1 _. by apply agrees_require.
    + simpl. rewrite grant_test, forallb_and, <- andb_assoc. do 4 f_equal. apply Bool.eq_iff_eq_true.
      rewrite bool_decide_eq_true. by rewrite Nat.eqb_eq.
  - rewrite <- granted_and. apply agrees_and_then; [by apply tests_exact|]. intros v1 _.
    apply agrees_require_eq; [done|]. f_equal. apply Bool.eq_iff_eq_true. rewrite bool_decide_eq_true. by rewrite Nat.eqb_eq.
  - change [S_Int32; S_Int32; S_Int32] with (repeat S_Int32 3). rewrite has_types_forall, <- granted_and.
    apply agrees_and_then; [by apply count_exact|]. intros v1 _. by apply tests_exact.
  - pose proof (update_exact s v R E K) as H. unfold simple_statement, targets, rule_ok in H.
    rewrite bind_gets_verifier, K in H. exact H.
Qed.
(** Declarations. *)
Lemma declare_local_exact x v l rest :
  scopes v = l :: rest →
  agrees true (declare_local x v)
    (granted (variable_ok (env_of v) x && bool_decide (l !! v_name x = None)) (set_scopes (<[v_name x := x]> l :: rest) v)).
Proof.
  intros S. apply agrees_or_fail; [done|]. unfold variable.
  refine (agrees_eq _ _ (granted (variable_ok (env_of v) x) v ≫= λ v',
    granted (bool_decide (l !! v_name x = None)) (set_scopes (<[v_name x := x]> l :: rest) v')) _ _ _).
  - apply agrees_and_then; [by apply agrees_require|]. intros v1 [= <-]%granted_Some.
    unfold emplace_scope. rewrite bind_gets_verifier, S.
    by destruct (l !! v_name x) as [y|].
  - unfold granted. destruct (variable_ok (env_of v) x); simpl; [by case_bool_decide|done].
Qed.

Lemma declare_locals_exact xs v l rest :
  scopes v = l :: rest →
  agrees true (all_ok declare_local xs v)
    (match declare_all (env_of v) l xs with Some l' => Some (set_scopes (l' :: rest) v) | None => None end).
Proof.
  revert v l. induction xs as [|x xs IH]; intros v l S; cbn [all_ok declare_all].
  { rewrite <- S, set_scopes_same. done. }
  refine (agrees_eq _ _ (granted (variable_ok (env_of v) x && bool_decide (l !! v_name x = None))
            (set_scopes (<[v_name x := x]> l :: rest) v) ≫= λ v',
    match declare_all (env_of v') (<[v_name x := x]> l) xs with
    | Some l' => Some (set_scopes (l' :: rest) v') | None => None end) _ _ _).
  - apply agrees_and_then; [by apply declare_local_exact|]. intros v1 <-%granted_Some. by apply IH.
  - unfold granted. destruct (_ && _); done.
Qed.

(** The labels of a block. *)
Lemma insert_label_exact n v l rest :
  labels v = l :: rest →
  agrees false (insert_label n v) (granted (bool_decide (n ∉ l)) (set_labels (({[n]} ∪ l) :: rest) v)).
Proof.
  intros L. unfold insert_label. rewrite bind_gets_verifier, L. destruct (bool_decide_reflect (n ∈ l)).
  - by rewrite bool_decide_false by tauto.
  - by rewrite bool_decide_true.
Qed.

Lemma block_labels_exact ss v l rest :
  labels v = l :: rest →
  agrees true (all_ok block_label ss v)
    (granted (forallb identifier (label_names ss) && bool_decide (NoDup (label_names ss) ∧ Forall (λ n, n ∉ l) (label_names ss)))
       (set_labels ((list_to_set (label_names ss) ∪ l) :: rest) v)).
Proof.
  revert v l. induction ss as [|s ss IH]; intros v l L.
  { cbn [label_names forallb all_ok]. rewrite bool_decide_true by (split; constructor). unfold granted; simpl.
    rewrite union_empty_l_L, <- L. by destruct v. }
  destruct (bool_decide_reflect (s_kind s = St_Label)) as [K|K].
  2: { replace (label_names (s :: ss)) with (label_names ss) by (simpl; by destruct (s_kind s)).
    cbn [all_ok]. replace (block_label s) with (mret true : VM bool) by (unfold block_label; by destruct (s_kind s)).
    by apply IH. }
  replace (label_names (s :: ss)) with (s_name s :: label_names ss) by (simpl; by rewrite K).
  set (n := s_name s). cbn [all_ok forallb].
  refine (agrees_eq _ _ (granted (identifier n && bool_decide (n ∉ l)) (set_labels (({[n]} ∪ l) :: rest) v) ≫= λ v',
     granted (forallb identifier (label_names ss) &&
              bool_decide (NoDup (label_names ss) ∧ Forall (λ x, x ∉ {[n]} ∪ l) (label_names ss)))
       (set_labels ((list_to_set (label_names ss) ∪ ({[n]} ∪ l)) :: rest) v')) _ _ _).
  - apply agrees_and_then; [|intros v1 <-%granted_Some; by apply IH].
    unfold block_label. rewrite K. apply agrees_or_fail; [done|]. fold n.
    unfold and_then. destruct (identifier n); [|done]. by apply insert_label_exact.
  - replace (list_to_set (label_names ss) ∪ ({[n]} ∪ l)) with (list_to_set (n :: label_names ss) ∪ l) by set_solver.
    unfold granted. destruct (identifier n); simpl; [|done].
    destruct (forallb identifier (label_names ss)); simpl.
    2: { by case_bool_decide. }
    destruct (bool_decide_reflect (n ∉ l)); simpl.
    + rewrite (bool_decide_ext _ (NoDup (n :: label_names ss) ∧ Forall (λ x, x ∉ l) (n :: label_names ss))); [done|].
      rewrite NoDup_cons, Forall_cons, !Forall_forall. set_solver.
    + rewrite bool_decide_false; [done|]. rewrite Forall_cons. tauto.
Qed.
End Exact.
