(* ===== verification/SemanticIRExact.v ===== *)
(** The verifier of the semantic IR on statements and whole programs: it
    accepts exactly the well-typed programs within its limits. *)
From S2P Require Import Prelude CxxInt CxxString CxxFloat SemanticIR SemanticIRFacts.
Import sir.
Open Scope string_scope.
Open Scope Z_scope.

(** * Scopes *)

Section Frame.
Context (D : environment) (p : ProgramIR).

Definition known_in (x : Variable_) : Prop := v_type x = S_Composite → is_Some (composites_of D !! v_composite x).
Definition known_scopes (L : list scope) : Prop := Forall (map_Forall (λ _, known_in)) L.

(** A statement changes the innermost scope only. *)
Record framed (L L' : list scope) : Prop := {
  framed_tail : tail L' = tail L; framed_nonempty : L' ≠ []; framed_known : known_scopes L' }.

Definition frames (f : list scope → Statement → option (list scope)) (s : Statement) : Prop :=
  ∀ L L', f L s = Some L' → L ≠ [] → known_scopes L → framed L L'.

Lemma framed_trans L1 L2 L3 : framed L1 L2 → framed L2 L3 → framed L1 L3.
Proof. intros [? ? ?] [? ? ?]. split; [congruence|done|done]. Qed.

Lemma sequence_frames f ss L L' :
  Forall (frames f) ss → sequence f L ss = Some L' → L ≠ [] → known_scopes L → framed L L'.
Proof.
  intros H. revert L. induction H as [|s ss Hs _ IH]; intros L; simpl.
  { intros [= <-] ? ?. done. }
  destruct (f L s) as [L1|] eqn:E; [|done]. intros E' N K. pose proof (Hs _ _ E N K) as F1.
  eapply framed_trans; [exact F1|]. apply IH; [done|apply F1|apply F1].
Qed.

Lemma declare_all_known_in l xs l' :
  declare_all D l xs = Some l' → map_Forall (λ _, known_in) l → map_Forall (λ _, known_in) l'.
Proof.
  revert l. induction xs as [|x xs IH]; intros l; simpl; [by intros [= <-]|].
  destruct (variable_ok D x) eqn:V; simpl; [|done]. case_bool_decide; [|done]. intros E M.
  apply (IH _ E). apply map_Forall_insert_2; [|done]. unfold variable_ok, value_type in V. intros T.
  rewrite !andb_true_iff, T in V. destruct V as [[[[_ V] _] _] _]. by apply bool_decide_eq_true in V.
Qed.

Lemma stmt_ok_frames s C : frames (stmt_ok D p C) s.
Proof.
  revert C. induction s as [s IHb IHa] using ir_statement_induction. intros C L L' E N K.
  assert (∀ C', Forall (frames (stmt_ok D p C')) (s_body s)) as Fb by (intros; eapply Forall_impl; [exact IHb|eauto]).
  assert (∀ C', Forall (frames (stmt_ok D p C')) (s_alternative s)) as Fa by (intros; eapply Forall_impl; [exact IHa|eauto]).
  destruct s as [k n ss es xs b a d lx r]; cbn [stmt_ok s_kind s_body s_alternative s_lexical_scope s_variables] in *.
  case_match; [|done].
  assert (∀ C', match sequence (stmt_ok D p C') L b with
    | Some S' => sequence (stmt_ok D p C) S' a | None => None end = Some L' → framed L L') as Control.
  { intros C' H'. destruct (sequence (stmt_ok D p C') L b) as [L1|] eqn:E1; [|done].
    pose proof (sequence_frames _ _ _ _ (Fb C') E1 N K) as F1.
    eapply framed_trans; [exact F1|]. apply (sequence_frames _ _ _ _ (Fa C) H'); apply F1. }
  destruct k; try (injection E as <-; done); try (by eapply Control).
  - case_match; [|done]. destruct lx.
    + case_match; [|done]. by injection E as <-.
    + by apply (sequence_frames _ _ _ _ (Fb _) E).
  - destruct L as [|l rest]; [done|]. case_match eqn:Dl; [|done]. injection E as <-.
    apply Forall_cons in K as [Kl Kr]. split; simpl; [done|done|]. constructor; [|done]. by eapply declare_all_known_in.
Qed.
End Frame.

(** * Statements *)

Section Statements.
Context (p : ProgramIR).

Lemma stmt_cost_nonneg s : 1 ≤ stmt_cost s ∧ 1 ≤ stmt_height s.
Proof.
  induction s as [s IHb IHa] using ir_statement_induction.
  assert (∀ ss, Forall (λ s, 1 ≤ stmt_cost s ∧ 1 ≤ stmt_height s) ss → 0 ≤ stmts_cost ss ∧ 0 ≤ stmts_height ss) as F.
  { induction 1; simpl; lia. }
  pose proof (exprs_cost_nonneg (s_expressions s)). pose proof (exprs_cost_nonneg (targets s)).
  apply F in IHb, IHa. unfold stmts_cost, stmts_height in *.
  destruct s as [k n ss es xs b a d lx r]; cbn [stmt_cost stmt_height s_body s_alternative] in *.
  destruct (visits_body _), (is_control _); simpl in *; lia.
Qed.

Lemma stmts_cost_nonneg ss : 0 ≤ stmts_cost ss ∧ 0 ≤ stmts_height ss.
Proof. induction ss as [|s ss IH]; simpl; [lia|]. pose proof (stmt_cost_nonneg s). lia. Qed.

Lemma stmt_cost_unfold s :
  stmt_cost s = 1 + (exprs_cost (s_expressions s) + (exprs_cost (targets s) +
    ((if visits_body s then stmts_cost (s_body s) else 0) + (if is_control s then stmts_cost (s_alternative s) else 0)))).
Proof. by destruct s. Qed.

Lemma stmt_height_unfold s :
  stmt_height s = 1 + Z.max (exprs_height (s_expressions s)) (Z.max (exprs_height (targets s))
    (Z.max (if visits_body s then stmts_height (s_body s) else 0)
           (if is_control s then stmts_height (s_alternative s) else 0))).
Proof. by destruct s. Qed.

(** A statement is checked exactly from every state in which a run can be. *)
Definition exact_at (s : Statement) : Prop :=
  ∀ v, ready v → scopes v ≠ [] →
    agrees true (stmt p s v)
      (scoped (stmt_ok (env_of p v) p (context_of v) (scopes v) s) (stmt_cost s) (stmt_height s) v).

Lemma ready_scoped o c h v v' :
  ready v → (∀ L, o = Some L → framed (env_of p v) (scopes v) L) → scoped o c h v = Some v' →
  ready v' ∧ scopes v' ≠ [] ∧ ∃ L, o = Some L ∧ v' = move c (set_scopes L v).
Proof.
  intros [[Gs Gg Gc] N Dp Lp] F. destruct o as [L|]; [|done]. simpl. intros (_ & Hf & ->)%grant_Some.
  destruct (F L eq_refl) as [_ Ne Kn]. split_and!; [|done|by exists L].
  apply (ready_move _ h); [|done]. split; [split|..]; done.
Qed.

Lemma stmts_exact ss v :
  Forall exact_at ss → ready v → scopes v ≠ [] →
  agrees true (all_ok (stmt p) ss v)
    (scoped (sequence (stmt_ok (env_of p v) p (context_of v)) (scopes v) ss) (stmts_cost ss) (stmts_height ss) v).
Proof.
  intros H. revert v. induction H as [|s ss Hs Hss IH]; intros v R N; cbn [all_ok sequence].
  { simpl. rewrite set_scopes_same, grant_nothing by done. done. }
  refine (agrees_eq _ _ (scoped (stmt_ok (env_of p v) p (context_of v) (scopes v) s) (stmt_cost s) (stmt_height s) v ≫=
    λ v', scoped (sequence (stmt_ok (env_of p v) p (context_of v)) (scopes v') ss) (stmts_cost ss) (stmts_height ss) v') _ _ _).
  - apply agrees_and_then; [by apply Hs|]. intros v1 E. apply ready_scoped in E as (R1 & N1 & L & _ & ->); [by apply (IH _ R1)|done|].
    intros L E'. eapply stmt_ok_frames; [exact E'|done|]. apply R.
  - rewrite (scoped_seq _ _ _ (λ L, sequence (stmt_ok (env_of p v) p (context_of v)) L ss)) by apply stmts_cost_nonneg.
    done.
Qed.

Lemma control_head_exact s v :
  ready v → forallb (expr_ok (env_of p v) (scopes v)) (s_expressions s) = true → is_control s = true →
  agrees true (control_head p s v)
    (grant (forallb lvalue_kind (targets s) && rule_ok (env_of p v) p (context_of v) s)
       (exprs_cost (targets s)) (exprs_height (targets s)) v).
Proof.
  intros R E V. unfold control_head, targets, rule_ok. unfold is_control in V. destruct (s_kind s) eqn:K; try discriminate.
  1,2: cbn [forallb andb exprs_cost exprs_height foldr]; rewrite <- granted_free by done;
    eapply agrees_eq; [by apply counted_test|]; by destruct (s_expressions s) as [|e [|e' es]].
  destruct (decide (length (s_expressions s) = 4%nat)) as [L|L].
  2: { replace (has_types _ _) with false; [rewrite andb_false_r; by apply count_off|].
    symmetry. apply not_true_is_false. intros H%has_types_length. done. }
  rewrite count_on by done. destruct (s_expressions s) as [|a es] eqn:Es; [done|].
  rewrite (proj1 (head_exprs a es)), (proj2 (head_exprs a es)). cbn [forallb take].
  rewrite andb_true_r. apply andb_true_iff in E as [Ea _].
  change [S_Int32; S_Int32; S_Int32; S_Int32] with (repeat S_Int32 4). rewrite has_types_forall, L.
  change (Nat.eqb 4 4) with true. rewrite andb_true_l, <- grant_test.
  apply agrees_and_then; [by apply target_exact|]. intros v1 _. by apply tests_exact.
Qed.

Lemma stmt_unfold s v :
  stmt p s v =
  counted (
    and_then (all_ok (λ e, expr p e false) (s_expressions s))
      match s_kind s with
      | St_Block =>
          and_then (count s 0) (
            when (s_lexical_scope s) push_scope;; modify push_labels;;
            and_then (all_ok block_label (s_body s)) (
              and_then (all_ok (stmt p) (s_body s)) (
                modify pop_labels;; when (s_lexical_scope s) pop_scope;; mret true)))
      | St_If | St_While | St_For =>
          and_then (control_head p s) (
            when (is_loop s) (add_loops 1);;
            and_then (all_ok (stmt p) (s_body s)) (
              when (is_loop s) (add_loops (-1));;
              all_ok (stmt p) (s_alternative s)))
      | _ => simple_statement p s
      end) v.
Proof. by destruct s. Qed.

(** What a statement needs after its expressions. *)
Definition inner_ok (D : environment) (C : context) (L : list scope) (s : Statement) : option (list scope) :=
  if forallb lvalue_kind (targets s) && rule_ok D p C s then
    match s_kind s with
    | St_Block =>
        let names := label_names (s_body s) in
        if forallb identifier names && bool_decide (NoDup names) then
          let C := with_labels (list_to_set names) C in
          if s_lexical_scope s then
            match sequence (stmt_ok D p C) (∅ :: L) (s_body s) with Some _ => Some L | None => None end
          else sequence (stmt_ok D p C) L (s_body s)
        else None
    | St_If | St_While | St_For =>
        match sequence (stmt_ok D p (if is_loop s then in_loop C else C)) L (s_body s) with
        | Some L' => sequence (stmt_ok D p C) L' (s_alternative s)
        | None => None
        end
    | St_Declare =>
        match L with
        | l :: rest => match declare_all D l (s_variables s) with Some l' => Some (l' :: rest) | None => None end
        | [] => None
        end
    | _ => Some L
    end
  else None.

Lemma stmt_ok_unfold D C L s :
  stmt_ok D p C L s = if forallb (expr_ok D L) (s_expressions s) then inner_ok D C L s else None.
Proof.
  destruct s; unfold inner_ok; cbn -[targets rule_ok label_names]. rewrite <- andb_assoc.
  by destruct (forallb (expr_ok D L) _).
Qed.

(** The cost of what a statement needs after its expressions. *)
Definition inner_cost (s : Statement) : Z :=
  exprs_cost (targets s) +
    ((if visits_body s then stmts_cost (s_body s) else 0) + (if is_control s then stmts_cost (s_alternative s) else 0)).
Definition inner_height (s : Statement) : Z :=
  Z.max (exprs_height (targets s))
    (Z.max (if visits_body s then stmts_height (s_body s) else 0)
           (if is_control s then stmts_height (s_alternative s) else 0)).

Lemma inner_cost_nonneg s : 0 ≤ inner_cost s ∧ 0 ≤ inner_height s.
Proof.
  unfold inner_cost, inner_height. pose proof (exprs_cost_nonneg (targets s)). pose proof (stmts_cost_nonneg (s_body s)).
  pose proof (stmts_cost_nonneg (s_alternative s)). destruct (visits_body s), (is_control s); lia.
Qed.

(** A node whose inside leaves the scopes [o]. *)
Lemma counted_scoped m v o c h :
  ready v → 0 ≤ c → 0 ≤ h →
  (ready (entered v) → loops (entered v) < depth (entered v) → agrees true (m (entered v)) (scoped o c h (entered v))) →
  agrees true (counted m v) (scoped o (1 + c) (1 + h) v).
Proof.
  intros R Hc Hh Hm. destruct o as [L|].
  - simpl. eapply agrees_eq; [apply (counted_exact m v (scoped (Some L) c h (entered v))); [done| |]|].
    + intros F. apply Hm; [by apply entered_ready|]. simpl. destruct R as [_ _ ? ?]. lia.
    + intros v' (_ & _ & ->)%grant_Some. done.
    + simpl. rewrite <- entered_grant by done. done.
  - simpl. eapply agrees_eq; [apply (counted_exact m v None); [done| |done]|by destruct (fits 1 1 v)].
    intros F. apply Hm; [by apply entered_ready|]. simpl. destruct R as [_ _ ? ?]. lia.
Qed.

Lemma exprs_exact es v :
  ready v →
  agrees true (all_ok (λ e, expr p e false) es v)
    (grant (forallb (expr_ok (env_of p v) (scopes v)) es) (exprs_cost es) (exprs_height es) v).
Proof.
  intros R. apply (all_ok_grant p _ _ expr_cost expr_height); [done|]. apply Forall_forall. intros e _.
  split; [pose proof (expr_cost_pos e); lia|]. intros v' R' Ee Es. pose proof (expr_exact p e false v' R') as H.
  unfold target_ok in H. simpl in H. by rewrite andb_true_r, Ee, Es in H.
Qed.

Lemma simple_inner s v :
  ready v → scopes v ≠ [] → forallb (expr_ok (env_of p v) (scopes v)) (s_expressions s) = true →
  visits_body s = false →
  agrees true (simple_statement p s v)
    (scoped (inner_ok (env_of p v) (context_of v) (scopes v) s) (inner_cost s) (inner_height s) v).
Proof.
  intros R N E V. unfold inner_cost, inner_height. rewrite V.
  assert (is_control s = false) as -> by (unfold visits_body in V; by apply orb_false_iff in V as [-> _]).
  pose proof (exprs_cost_nonneg (targets s)) as [_ H]. rewrite Z.max_l, !Z.add_0_r by lia.
  destruct (decide (s_kind s = St_Declare)) as [K|K].
  - unfold simple_statement, inner_ok, targets, rule_ok. rewrite bind_gets_verifier, K. cbn [forallb andb exprs_cost exprs_height foldr].
    rewrite has_types_0. destruct (Nat.eqb_spec (length (s_expressions s)) 0) as [L|L].
    2: { by apply count_off. }
    rewrite count_on by done. destruct (scopes v) as [|l rest] eqn:S; [done|].
    eapply agrees_eq; [by apply (declare_locals_exact p)|].
    destruct (declare_all (env_of p v) l (s_variables s)); [|done]. unfold scoped.
    rewrite grant_free; [done|apply R|apply R].
  - eapply agrees_eq; [by apply simple_exact|]. unfold inner_ok.
    rewrite <- scoped_grant. f_equal. destruct (forallb lvalue_kind (targets s) && _); [|done].
    unfold visits_body, is_control in V. by destruct (s_kind s).
Qed.

(** Inside a block. *)
Definition in_block (lexical : bool) (v : Verifier) : Verifier :=
  push_labels (if lexical then push_scope v else v).

Lemma in_block_ready lexical v : ready v → ready (in_block lexical v).
Proof.
  intros [[? ? Gs] ? ? ?]. destruct lexical; (split; [split|..]); simpl; try done.
  constructor; [apply map_Forall_empty|done].
Qed.

Definition after_block (lexical : bool) (v : Verifier) : Verifier :=
  if lexical then pop_scope (pop_labels v) else pop_labels v.

Lemma scoped_block lexical l o c h v :
  (∀ L, o = Some L → lexical = true → tail L = scopes v) →
  (scoped o c h (set_labels (l :: labels v) (in_block lexical v)) ≫= λ v', Some (after_block lexical v')) =
  scoped (if lexical then match o with Some _ => Some (scopes v) | None => None end else o) c h v.
Proof.
  intros T. destruct o as [L|]; [|by destruct lexical]. unfold scoped, grant, granted, fits.
  destruct lexical; simpl; destruct (_ && _); simpl; try done. f_equal.
  unfold pop_scope, pop_labels, move, set_scopes, set_labels, set_nodes; simpl. by rewrite (T L).
Qed.

Lemma block_inner s v :
  Forall exact_at (s_body s) → ready v → scopes v ≠ [] → s_kind s = St_Block →
  agrees true
    (and_then (count s 0) (
       when (s_lexical_scope s) push_scope;; modify push_labels;;
       and_then (all_ok block_label (s_body s)) (
         and_then (all_ok (stmt p) (s_body s)) (
           modify pop_labels;; when (s_lexical_scope s) pop_scope;; mret true))) v)
    (scoped (inner_ok (env_of p v) (context_of v) (scopes v) s) (inner_cost s) (inner_height s) v).
Proof.
  intros IH R N K. unfold inner_ok, inner_cost, inner_height, visits_body, is_control, targets, rule_ok. rewrite K.
  cbn [forallb andb orb exprs_cost exprs_height foldr]. rewrite has_types_0.
  destruct (Nat.eqb_spec (length (s_expressions s)) 0) as [L|L]; [|by apply count_off].
  rewrite count_on by done. unfold when. rewrite !bind_modify_verifier. fold (in_block (s_lexical_scope s) v).
  set (names := label_names (s_body s)). set (lex := s_lexical_scope s). clearbody lex.
  set (v2 := set_labels (list_to_set names :: labels v) (in_block lex v)).
  assert (ready v2) as R2 by (destruct (in_block_ready lex v R) as [[? ? ?] ? ? ?]; by split).
  assert (scopes v2 ≠ []) as N2 by by destruct lex.
  assert (context_of v2 = with_labels (list_to_set names) (context_of v)) as C2 by by destruct lex.
  assert (env_of p v2 = env_of p v) as D2 by by destruct lex.
  pose proof (stmts_exact (s_body s) v2 IH R2 N2) as X. rewrite C2, D2 in X.
  rewrite Z.add_0_r, Z.add_0_l, Z.max_r by (pose proof (stmts_cost_nonneg (s_body s)); lia).
  rewrite Z.max_l by apply stmts_cost_nonneg. rewrite (bool_decide_true (St_Block = St_Block)) by done.
  refine (agrees_eq _ _ (granted (forallb identifier names && bool_decide (NoDup names)) v2 ≫= λ v',
    scoped (sequence (stmt_ok (env_of p v) p (with_labels (list_to_set names) (context_of v))) (scopes v2) (s_body s))
      (stmts_cost (s_body s)) (stmts_height (s_body s)) v2 ≫= λ v'', Some (after_block lex v'')) _ _ _).
  - apply agrees_and_then.
    + eapply agrees_eq; [by apply (block_labels_exact (s_body s) _ ∅ (labels v)); destruct lex|]. fold names.
      rewrite union_empty_r_L. unfold v2. f_equal. f_equal. apply bool_decide_ext. rewrite Forall_forall. set_solver.
    + intros v1 <-%granted_Some. apply agrees_and_then; [exact X|]. intros v3 _. by destruct lex.
  - assert (scopes v2 = if lex then ∅ :: scopes v else scopes v) as -> by by destruct lex.
    destruct (forallb identifier names && bool_decide (NoDup names)); [|done]. cbn [granted mbind option_bind].
    unfold v2. rewrite scoped_block; [by destruct lex|].
    intros L' E ->. refine (framed_tail _ _ _ (sequence_frames (env_of p v) _ _ _ _ _ E _ _)); [|done|].
    + apply Forall_forall. intros c _. apply stmt_ok_frames.
    + constructor; [apply map_Forall_empty|]. apply R.
Qed.

(** Inside a loop. *)
Lemma loop_ready v : ready v → loops v < depth v → ready (add_loops 1 v) ∧ loops (add_loops 1 v) = loops v + 1.
Proof.
  intros [[? ? ?] ? ? ?] Lt. assert (u32 (loops v + 1) = loops v + 1) as E by (apply small_depth; lia).
  split; [split; [split|..]|]; simpl; rewrite ?E; try done; lia.
Qed.

Lemma scoped_loops o c h v :
  ready v → loops v < depth v →
  (scoped o c h (add_loops 1 v) ≫= λ v', Some (add_loops (-1) v')) = scoped o c h v.
Proof.
  intros [_ _ ? ?] Lt. destruct o as [L|]; [|done]. simpl. unfold grant, granted, fits. simpl.
  destruct (_ && _); simpl; [|done]. f_equal. unfold add_loops, move, set_nodes, set_scopes, set_loops; simpl.
  rewrite (small_depth (loops v + 1)) by lia. by rewrite (small_depth (loops v + 1 + -1)), <- Z.add_assoc, Z.add_0_r by lia.
Qed.

(** The body of a control statement, with the count of loops up and down. *)
Lemma loop_body_exact (loop : bool) ss k v (o : Verifier → option Verifier) :
  Forall exact_at ss → ready v → scopes v ≠ [] → loops v < depth v →
  let body := scoped (sequence (stmt_ok (env_of p v) p (if loop then in_loop (context_of v) else context_of v)) (scopes v) ss)
                (stmts_cost ss) (stmts_height ss) v in
  (∀ v', body = Some v' → agrees true (k v') (o v')) →
  agrees true
    (and_then (all_ok (stmt p) ss) (modify (λ v, if loop then add_loops (-1) v else v);; k)
       (if loop then add_loops 1 v else v)) (body ≫= o).
Proof.
  intros Hs R N Lt body Hk. destruct loop.
  - destruct (loop_ready v R Lt) as [R1 E1]. pose proof (stmts_exact ss (add_loops 1 v) Hs R1 N) as X.
    replace (context_of (add_loops 1 v)) with (in_loop (context_of v)) in X.
    2: { unfold in_loop, context_of. rewrite E1. simpl. f_equal. symmetry. apply Z.ltb_lt. destruct R as [_ _ _ ?]. lia. }
    unfold body in *. rewrite <- scoped_loops in * by done.
    refine (agrees_eq _ _ (_ ≫= λ v', o (add_loops (-1) v')) _ _ _).
    + apply agrees_and_then; [exact X|]. intros v1 E. rewrite bind_modify_verifier. apply Hk.
      change (env_of p (add_loops 1 v)) with (env_of p v) in E. change (scopes (add_loops 1 v)) with (scopes v) in E.
      by rewrite E.
    + simpl. by destruct (scoped _ _ _ (add_loops 1 v)).
  - apply agrees_and_then; [by apply stmts_exact|]. intros v1 E. rewrite bind_modify_verifier. by apply Hk.
Qed.

Lemma control_inner s v :
  Forall exact_at (s_body s) → Forall exact_at (s_alternative s) → ready v → scopes v ≠ [] →
  loops v < depth v → is_control s = true →
  forallb (expr_ok (env_of p v) (scopes v)) (s_expressions s) = true →
  agrees true
    (and_then (control_head p s) (
       when (is_loop s) (add_loops 1);;
       and_then (all_ok (stmt p) (s_body s)) (
         when (is_loop s) (add_loops (-1));;
         all_ok (stmt p) (s_alternative s))) v)
    (scoped (inner_ok (env_of p v) (context_of v) (scopes v) s) (inner_cost s) (inner_height s) v).
Proof.
  intros Hb Ha R N Lt Ct E.
  assert (inner_ok (env_of p v) (context_of v) (scopes v) s =
    if forallb lvalue_kind (targets s) && rule_ok (env_of p v) p (context_of v) s then
      sequence (stmt_ok (env_of p v) p (if is_loop s then in_loop (context_of v) else context_of v)) (scopes v) (s_body s) ≫=
      λ L', sequence (stmt_ok (env_of p v) p (context_of v)) L' (s_alternative s)
    else None) as ->.
  { unfold inner_ok. destruct (_ && _); [|done]. unfold is_control in Ct. by destruct (s_kind s). }
  unfold inner_cost, inner_height, visits_body. rewrite Ct. cbn [orb].
  set (ok := forallb lvalue_kind (targets s) && rule_ok (env_of p v) p (context_of v) s).
  set (C' := if is_loop s then in_loop (context_of v) else context_of v).
  refine (agrees_eq _ _ (grant ok (exprs_cost (targets s)) (exprs_height (targets s)) v ≫= λ v1,
    scoped (sequence (stmt_ok (env_of p v) p C') (scopes v1) (s_body s)) (stmts_cost (s_body s)) (stmts_height (s_body s)) v1 ≫=
    λ v2, scoped (sequence (stmt_ok (env_of p v) p (context_of v)) (scopes v2) (s_alternative s))
      (stmts_cost (s_alternative s)) (stmts_height (s_alternative s)) v2) _ _ _).
  - apply agrees_and_then; [by apply control_head_exact|]. intros v1 (_ & Hf & ->)%grant_Some.
    pose proof (ready_move _ _ _ R Hf) as R1. unfold when. rewrite bind_modify_verifier.
    set (v1 := move (exprs_cost (targets s)) v) in *.
    refine (loop_body_exact (is_loop s) (s_body s) _ v1 (λ v2, scoped
      (sequence (stmt_ok (env_of p v) p (context_of v)) (scopes v2) (s_alternative s))
      (stmts_cost (s_alternative s)) (stmts_height (s_alternative s)) v2) Hb R1 N Lt _).
    { intros v3 (R3 & N3 & L & _ & ->)%(ready_scoped _ _ _ v1); [|done|].
      2: { intros L EL. eapply sequence_frames; [|exact EL|done|apply R1]. apply Forall_forall. intros c _. apply stmt_ok_frames. }
      by apply (stmts_exact (s_alternative s) (move (stmts_cost (s_body s)) (set_scopes L v1))). }
  - destruct ok; [|done]. rewrite <- (scoped_grant true).
    refine (eq_trans _ (scoped_seq (Some (scopes v)) _ _ (λ L, sequence (stmt_ok (env_of p v) p C') L (s_body s) ≫=
      λ L', sequence (stmt_ok (env_of p v) p (context_of v)) L' (s_alternative s)) _ _ v _));
      [|pose proof (stmts_cost_nonneg (s_body s)); pose proof (stmts_cost_nonneg (s_alternative s)); lia].
    destruct (scoped (Some (scopes v)) _ _ v) as [v1|]; [|done].
    refine (scoped_seq _ _ _ (λ L', sequence (stmt_ok (env_of p v) p (context_of v)) L' (s_alternative s)) _ _ v1 _).
    apply stmts_cost_nonneg.
Qed.

Lemma stmt_exact s : exact_at s.
Proof.
  induction s as [s IHb IHa] using ir_statement_induction. intros v R N.
  rewrite stmt_unfold, stmt_cost_unfold, stmt_height_unfold, stmt_ok_unfold.
  fold (inner_cost s) (inner_height s).
  set (E := forallb (expr_ok (env_of p v) (scopes v)) (s_expressions s)).
  set (m := and_then _ _).
  assert (ready (entered v) → loops (entered v) < depth (entered v) →
    agrees true (m (entered v))
      (scoped (if E then inner_ok (env_of p v) (context_of v) (scopes v) s else None)
         (exprs_cost (s_expressions s) + inner_cost s) (Z.max (exprs_height (s_expressions s)) (inner_height s)) (entered v))) as Hm.
  { intros R' Lt.
    refine (agrees_eq _ _ (grant E (exprs_cost (s_expressions s)) (exprs_height (s_expressions s)) (entered v) ≫= λ v1,
      scoped (inner_ok (env_of p v) (context_of v) (scopes v1) s) (inner_cost s) (inner_height s) v1) _ _ _).
    - apply agrees_and_then; [by apply exprs_exact|]. intros v1 (Ho & Hf & ->)%grant_Some.
      pose proof (ready_move _ _ _ R' Hf) as R1. set (v1 := move (exprs_cost (s_expressions s)) (entered v)) in *.
      destruct (s_kind s) eqn:K; try (by apply (simple_inner s v1); unfold visits_body, is_control; rewrite ?K).
      + by apply (block_inner s v1).
      + by apply (control_inner s v1); unfold is_control; rewrite ?K.
      + by apply (control_inner s v1); unfold is_control; rewrite ?K.
      + by apply (control_inner s v1); unfold is_control; rewrite ?K.
    - destruct E; [|done]. rewrite <- (scoped_grant true).
      rewrite (scoped_seq _ _ _ (λ L, inner_ok (env_of p v) (context_of v) L s)) by apply inner_cost_nonneg. done. }
  pose proof (exprs_cost_nonneg (s_expressions s)). pose proof (inner_cost_nonneg s).
  apply counted_scoped; [done|lia|lia|exact Hm].
Qed.
End Statements.
