(* ===== verification/SemanticIRProgram.v ===== *)
(** The verifier of the semantic IR on whole programs: the declarations, the
    functions and the body, and the main theorem that it decides well-typedness
    within its limits. *)
From S2P Require Import Prelude CxxInt CxxString CxxFloat SemanticIR SemanticIRFacts SemanticIRExact.
Import sir.
Open Scope string_scope.
Open Scope Z_scope.

(** * Well-typed programs *)

(** A table of declarations; the names are distinct, so the order is no matter. *)
Definition index_from {A} (key : A → string) (m : gmap string A) (xs : list A) : gmap string A :=
  foldl (λ m x, <[key x := x]> m) m xs.
Definition index {A} (key : A → string) (xs : list A) : gmap string A := index_from key ∅ xs.

Definition distinct_names (names : list string) : bool := forallb identifier names && bool_decide (NoDup names).

Definition composite_ok (c : Composite) : bool :=
  identifier (co_name c) && (Nat.leb (length (co_fields c)) 256) && (Nat.leb (length (co_names c)) 256) &&
  bool_decide (composite_arity_ok c = None) &&
  (bool_decide (co_kind c = C_Enum) || Nat.eqb (length (co_fields c)) (length (co_names c))) &&
  forallb (λ t, scalar t && (negb (bool_decide (co_kind c = C_Slice)) || numeric t)) (co_fields c) &&
  distinct_names (co_names c).

Definition environment_of (p : ProgramIR) : environment :=
  {| globals_of := index v_name (globals p); functions_of := index f_name (functions p);
     composites_of := index co_name (composites p); tensors_of := tensors p |}.

Section Programs.
Context (p : ProgramIR).
Let D := environment_of p.

Definition global_ok (x : Variable_) : bool := variable_ok D x && negb (is_reserved (v_name x)).

Definition result_ok (f : Function_) : bool :=
  value_type D (f_result f) (f_result_composite f) ||
  (bool_decide (f_result f = S_Void) && is_empty (f_result_composite f)).

Definition head_ok (f : Function_) : bool :=
  identifier (f_name f) && negb (is_reserved (f_name f)) && bool_decide (globals_of D !! f_name f = None) && result_ok f.

Definition value_ok (t : ElementType) (d : double) : bool :=
  isfinite d &&
  match element_limit t with
  | Some limit =>
      negb (dltb d (dneg limit) || dltb limit d || (integer_element t && (dleb limit d || negb (is_integral d))))
  | None => false
  end.

Definition named (name : string) (names : list string) : bool := existsb (String.eqb name) names.

Definition declarations_ok : bool :=
  forallb composite_ok (composites p) && bool_decide (NoDup (map co_name (composites p))) &&
  forallb global_ok (globals p) && bool_decide (NoDup (map v_name (globals p))) &&
  forallb head_ok (functions p) && bool_decide (NoDup (map f_name (functions p))) &&
  forallb model_ok (models p) && distinct_names (map m_name (models p)) &&
  forallb (λ t, tensor_ok t && forallb (value_ok (element_type t)) (values t)) (tensors p) &&
  distinct_names (map t_name (tensors p)) && distinct_names (map c_name (contracts p)) &&
  forallb (λ i, named (model_name i) (map m_name (models p)) && named (input_tensor_name i) (map t_name (tensors p)) &&
                named (output_tensor_name i) (map t_name (tensors p))) (inferences p) &&
  forallb (λ m, named (workload m) (map c_name (contracts p))) (measurements p).

(** The context at the top of a function and of the body. *)
Definition top_context (t : ScalarType) (c : string) : context :=
  {| x_result := t; x_resultComposite := c; x_loop := false; x_labels := ∅ |}.

Definition function_ok (f : Function_) : bool :=
  forallb (λ x, v_extent x =? 0) (f_parameters f) &&
  match declare_all D ∅ (f_parameters f) with
  | Some l => bool_decide (stmt_ok D p (top_context (f_result f) (f_result_composite f)) [l] (f_body f) ≠ None)
  | None => false
  end.

Definition program_ok : bool :=
  declarations_ok && forallb function_ok (functions p) &&
  bool_decide (stmt_ok D p (top_context S_Int32 "") [∅] (body p) ≠ None).

(** The work and the depth of the whole program. *)
Definition program_cost : Z := stmts_cost (map f_body (functions p)) + stmt_cost (body p).
Definition program_height : Z := Z.max (stmts_height (map f_body (functions p))) (stmt_height (body p)).

Definition within_limits : bool := (program_cost <=? 100000) && (program_height <=? 256).
End Programs.

(** * Tables *)

Section Tables.
Context {A : Type} (key : A → string) (ok : A → bool).
Context (get : Verifier → gmap string A) (set : gmap string A → Verifier → Verifier).
Hypothesis get_set : ∀ m v, get (set m v) = m.
Hypothesis set_set : ∀ m m' v, set m (set m' v) = set m v.
Hypothesis set_get : ∀ v, set (get v) v = v.

Lemma index_exact f xs v :
  (∀ m x, agrees true (f x (set m v))
            (granted (ok x && bool_decide (m !! key x = None)) (set (<[key x := x]> m) v))) →
  agrees true (all_ok f xs v)
    (granted (forallb ok xs && bool_decide (NoDup (map key xs) ∧ Forall (λ x, get v !! key x = None) xs))
       (set (index_from key (get v) xs) v)).
Proof using get_set set_set set_get.
  intros Hf. cut (∀ m, agrees true (all_ok f xs (set m v))
    (granted (forallb ok xs && bool_decide (NoDup (map key xs) ∧ Forall (λ x, m !! key x = None) xs))
       (set (index_from key m xs) v))).
  { intros H. specialize (H (get v)). by rewrite set_get in H. }
  induction xs as [|x xs IH]; intros m; cbn [all_ok map forallb index_from foldl].
  { by rewrite bool_decide_true by (split; constructor). }
  refine (agrees_eq _ _ (granted (ok x && bool_decide (m !! key x = None)) (set (<[key x := x]> m) v) ≫= λ _,
    granted (forallb ok xs && bool_decide (NoDup (map key xs) ∧ Forall (λ y, <[key x := x]> m !! key y = None) xs))
      (set (index_from key (<[key x := x]> m) xs) v)) _ _ _).
  - apply agrees_and_then; [apply Hf|]. intros v1 <-%granted_Some. apply IH.
  - fold (index_from key (<[key x := x]> m) xs). unfold granted.
    destruct (ok x); simpl; [|done]. destruct (bool_decide_reflect (m !! key x = None)) as [E|E]; simpl.
    2: { rewrite (bool_decide_false (NoDup _ ∧ _)); [by rewrite andb_false_r|]. rewrite Forall_cons. tauto. }
    destruct (forallb ok xs); simpl; [|done].
    rewrite (bool_decide_ext _ (NoDup (key x :: map key xs) ∧ Forall (λ y, m !! key y = None) (x :: xs))); [done|].
    rewrite NoDup_cons, Forall_cons, list_elem_of_fmap, !Forall_forall. setoid_rewrite lookup_insert_None. naive_solver.
Qed.
End Tables.

(** * Declarations *)

#[local] Arguments agrees : simpl never.

(** A test that fails with a message. *)
Ltac refused := by refine (agrees_fail _ _ _ _).

Definition fresh_names (seen : gset string) (names : list string) : bool :=
  forallb identifier names && bool_decide (NoDup names ∧ Forall (λ n, n ∉ seen) names).

Lemma fresh_names_cons seen n names :
  fresh_names seen (n :: names) = identifier n && bool_decide (n ∉ seen) && fresh_names ({[n]} ∪ seen) names.
Proof.
  unfold fresh_names. simpl. apply Bool.eq_iff_eq_true. rewrite !andb_true_iff, !bool_decide_eq_true.
  rewrite NoDup_cons, Forall_cons, !Forall_forall. set_solver.
Qed.

Lemma fresh_names_empty names : fresh_names ∅ names = distinct_names names.
Proof. unfold fresh_names, distinct_names. f_equal. apply bool_decide_ext. rewrite Forall_forall. set_solver. Qed.

Lemma distinct_exact seen names : distinct identifier seen names = fresh_names seen names.
Proof.
  revert seen. induction names as [|n names IH]; intros seen; simpl.
  { unfold fresh_names. by rewrite bool_decide_true by (split; constructor). }
  rewrite IH, fresh_names_cons. f_equal. f_equal. rewrite <- bool_decide_not. done.
Qed.

Lemma check_composite_exact c m v :
  agrees true (check_composite c (set_composites_ m v))
    (granted (composite_ok c && bool_decide (m !! co_name c = None)) (set_composites_ (<[co_name c := c]> m) v)).
Proof.
  unfold check_composite. rewrite bind_gets_verifier.
  change (composites_ (set_composites_ m v)) with m. unfold composite_ok.
  destruct (identifier (co_name c)); simpl; [|refused].
  destruct (m !! co_name c) as [c'|]; simpl; [rewrite andb_false_r; refused|]. rewrite andb_true_r.
  destruct (Nat.ltb_spec 256 (length (co_fields c))), (Nat.leb_spec (length (co_fields c)) 256); try lia; simpl;
    [refused|].
  destruct (Nat.ltb_spec 256 (length (co_names c))), (Nat.leb_spec (length (co_names c)) 256); try lia; simpl;
    [refused|].
  destruct (composite_arity_ok c) as [text|] eqn:T; simpl.
  { refine (agrees_fail true _ _ _). unfold composite_arity_ok in T. repeat case_match; by simplify_eq. }
  destruct (bool_decide (co_kind c = C_Enum) || _) eqn:E; simpl.
  2: { apply orb_false_iff in E as [-> ->]. refused. }
  replace (negb (bool_decide (co_kind c = C_Enum)) && negb (Nat.eqb (length (co_fields c)) (length (co_names c)))) with false
    by (destruct (bool_decide (co_kind c = C_Enum)), (Nat.eqb (length (co_fields c)) (length (co_names c))); done).
  destruct (forallb _ (co_fields c)); simpl; [|refused].
  rewrite distinct_exact, fresh_names_empty. by refine (agrees_require true _ _ _ _).
Qed.

Section Declarations.
Context (p : ProgramIR).

(** The states between the loops of [run]. *)
Definition state1 : Verifier := set_composites_ (index co_name (composites p)) new_verifier.
Definition state2 : Verifier := set_globals_ (index v_name (globals p)) state1.
Definition state3 : Verifier := set_functions_ (index f_name (functions p)) state2.

Lemma check_global_exact x m :
  agrees true (check_global x (set_globals_ m state1))
    (granted (global_ok p x && bool_decide (m !! v_name x = None)) (set_globals_ (<[v_name x := x]> m) state1)).
Proof.
  apply agrees_or_fail; [done|]. unfold global_ok.
  refine (agrees_eq _ _ (granted (variable_ok (environment_of p) x) (set_globals_ m state1) ≫= λ v',
    granted (negb (is_reserved (v_name x)) && bool_decide (m !! v_name x = None)) (set_globals_ (<[v_name x := x]> m) state1)) _ _ _).
  - apply agrees_and_then; [by apply (agrees_require false)|]. intros v1 <-%granted_Some. rewrite bind_gets_verifier.
    change (globals_ (id (set_globals_ m state1))) with m.
    destruct (is_reserved (v_name x)); [done|]. by destruct (m !! v_name x).
  - rewrite <- andb_assoc. by destruct (variable_ok (environment_of p) x).
Qed.

Lemma declare_function_exact f m :
  agrees true (declare_function f (set_functions_ m state2))
    (granted (head_ok p f && bool_decide (m !! f_name f = None)) (set_functions_ (<[f_name f := f]> m) state2)).
Proof.
  unfold declare_function. rewrite bind_gets_verifier. unfold id, head_ok.
  change (functions_ (set_functions_ m state2)) with m.
  change (globals_ (set_functions_ m state2)) with (globals_of (environment_of p)).
  destruct (identifier (f_name f)); simpl; [|refused].
  destruct (is_reserved (f_name f)); simpl; [refused|].
  destruct (index v_name (globals p) !! f_name f); simpl; [refused|].
  destruct (m !! f_name f); simpl; [rewrite andb_false_r; refused|]. rewrite andb_true_r.
  by refine (agrees_require true (result_ok p f) _ _ _).
Qed.

Lemma check_models_exact seen ms v :
  agrees true (check_models seen ms v) (granted (forallb model_ok ms && fresh_names seen (map m_name ms)) v).
Proof.
  revert seen. induction ms as [|m ms IH]; intros seen; cbn [check_models map forallb].
  { unfold fresh_names. by rewrite bool_decide_true by (split; constructor). }
  eapply agrees_eq; [eapply agrees_and_then; [by apply agrees_require|]; intros v1 <-%granted_Some; apply IH|].
  cbn beta. rewrite granted_and, fresh_names_cons, bool_decide_not. f_equal. bool_norm.
Qed.

Lemma check_values_exact t ds v : agrees true (all_ok (check_value t) ds v) (granted (forallb (value_ok t) ds) v).
Proof.
  induction ds as [|d ds IH]; [done|]. cbn [all_ok forallb]. rewrite <- granted_and.
  apply agrees_and_then; [|by intros v1 <-%granted_Some]. unfold check_value, value_ok.
  destruct (isfinite d); simpl; [|refused]. destruct (element_limit t); [by apply agrees_require|refused].
Qed.

Lemma check_tensors_exact seen ts v :
  agrees true (check_tensors seen ts v)
    (granted (forallb (λ t, tensor_ok t && forallb (value_ok (element_type t)) (values t)) ts &&
              fresh_names seen (map t_name ts)) v).
Proof.
  revert seen. induction ts as [|t ts IH]; intros seen; cbn [check_tensors map forallb].
  { unfold fresh_names. by rewrite bool_decide_true by (split; constructor). }
  refine (agrees_eq _ _ (granted (identifier (t_name t) && negb (bool_decide (t_name t ∈ seen)) && tensor_ok t) v ≫= λ v1,
    granted (forallb (value_ok (element_type t)) (values t)) v1 ≫= λ v2,
    granted (forallb (λ t, tensor_ok t && forallb (value_ok (element_type t)) (values t)) ts &&
             fresh_names ({[t_name t]} ∪ seen) (map t_name ts)) v2) _ _ _).
  - apply agrees_and_then; [by apply agrees_require|]. intros v1 <-%granted_Some.
    apply agrees_and_then; [apply check_values_exact|]. intros v1 <-%granted_Some. apply IH.
  - rewrite fresh_names_cons, bool_decide_not. unfold granted. by repeat (destruct (identifier _) || destruct (bool_decide _) ||
      destruct (tensor_ok _) || destruct (forallb _ _) || destruct (fresh_names _ _); simpl).
Qed.
End Declarations.

(** * Functions and the body *)

Lemma index_from_elem {A} (key : A → string) m xs k x :
  index_from key m xs !! k = Some x → m !! k = Some x ∨ x ∈ xs.
Proof.
  unfold index_from. revert m. induction xs as [|y xs IH]; intros m; simpl; [by left|].
  intros H. destruct (IH _ H) as [E|E]; [|right; by right]. rewrite lookup_insert in E. case_decide; [|by left].
  right. simplify_eq. by left.
Qed.

Lemma index_elem {A} (key : A → string) xs k x : index key xs !! k = Some x → x ∈ xs.
Proof. intros [H|H]%index_from_elem; [by rewrite lookup_empty in H|done]. Qed.

Section Bodies.
Context (p : ProgramIR).
Context (Hc : forallb composite_ok (composites p) = true) (Hg : forallb (global_ok p) (globals p) = true).

(** The state between two functions. *)
Definition between_functions (n : Z) (t : ScalarType) (c : string) : Verifier :=
  set_nodes n (set_resultComposite c (set_result t (state3 p))).

Lemma top_ready v L :
  composites_ v = index co_name (composites p) → globals_ v = index v_name (globals p) →
  nodes v ≤ 100000 → depth v = 0 → loops v = 0 → scopes v = L → known_scopes (environment_of p) L → ready v.
Proof using Hc Hg.
  intros Ec Eg N Dp Lp Es K. split; [split|done|lia|lia].
  - rewrite Ec. intros id c H%index_elem S E. rewrite forallb_forall in Hc. apply list_elem_of_In, Hc in H.
    unfold composite_ok, composite_arity_ok in H. rewrite S, E in H. simpl in H. by rewrite !andb_false_r in H.
  - rewrite Eg. intros k x H%index_elem T. rewrite forallb_forall in Hg. apply list_elem_of_In, Hg in H.
    unfold global_ok, variable_ok, value_type in H. rewrite T, !andb_true_iff in H. destruct H as [[[[[_ H] _] _] _] _].
    apply bool_decide_eq_true in H. by rewrite Ec.
  - rewrite Es. eapply Forall_impl; [exact K|]. intros s Hs k x Hx T. rewrite Ec. by apply (Hs k x).
Qed.

Lemma check_parameters_exact xs v l rest :
  scopes v = l :: rest → composites_ v = index co_name (composites p) →
  agrees true (all_ok check_parameter xs v)
    (if forallb (λ x, v_extent x =? 0) xs
     then match declare_all (environment_of p) l xs with Some l' => Some (set_scopes (l' :: rest) v) | None => None end
     else None).
Proof.
  revert v l. induction xs as [|x xs IH]; intros v l S K; cbn [all_ok declare_all forallb].
  { rewrite <- S, set_scopes_same. done. }
  assert (valid_variable x v = variable_ok (environment_of p) x) as V.
  { unfold valid_variable, variable_ok, valueType, value_type. by rewrite K. }
  refine (agrees_eq _ _ (granted (variable_ok (environment_of p) x && (v_extent x =? 0) && bool_decide (l !! v_name x = None))
            (set_scopes (<[v_name x := x]> l :: rest) v) ≫= λ v',
    if forallb (λ x, v_extent x =? 0) xs
    then match declare_all (environment_of p) (<[v_name x := x]> l) xs with
         | Some l' => Some (set_scopes (l' :: rest) v') | None => None end
    else None) _ _ _).
  - apply agrees_and_then; [|intros v1 <-%granted_Some; by apply IH].
    apply agrees_or_fail; [done|]. unfold variable, and_then, mbind, SM_bind, gets. rewrite V.
    destruct (variable_ok (environment_of p) x); simpl; [|by apply agrees_fail].
    destruct (v_extent x =? 0); simpl; [|done]. unfold emplace_scope. rewrite bind_gets_verifier, S.
    by destruct (l !! v_name x).
  - unfold granted. destruct (variable_ok (environment_of p) x), (v_extent x =? 0), (bool_decide (l !! v_name x = None)); simpl; try done;
      by destruct (forallb _ xs).
Qed.

Lemma check_function_exact f n t c :
  n ≤ 100000 →
  agrees true (check_function p f (between_functions n t c))
    (grant (function_ok p f) (stmt_cost (f_body f)) (stmt_height (f_body f))
       (between_functions n (f_result f) (f_result_composite f))).
Proof using Hc Hg.
  intros N. unfold check_function. rewrite bind_modify_verifier.
  set (w := between_functions n (f_result f) (f_result_composite f)).
  set (v := set_resultComposite _ _). unfold function_ok.
  assert (v = set_scopes [∅] w) as Ev by done. clearbody v. subst v.
  refine (agrees_eq _ _ ((if forallb (λ x, v_extent x =? 0) (f_parameters f)
     then match declare_all (environment_of p) ∅ (f_parameters f) with
          | Some l' => Some (set_scopes [l'] w) | None => None end else None) ≫= λ v1,
    scoped (stmt_ok (environment_of p) p (top_context (f_result f) (f_result_composite f)) (scopes v1) (f_body f))
      (stmt_cost (f_body f)) (stmt_height (f_body f)) v1 ≫= λ v2, Some (pop_scope v2)) _ _ _).
  - apply agrees_and_then.
    { eapply agrees_eq; [by apply (check_parameters_exact _ _ ∅ [])|]. by destruct (forallb _ _), (declare_all _ _ _). }
    intros v1 E. destruct (forallb _ (f_parameters f)); [|done]. destruct (declare_all _ _ _) as [l|] eqn:Dl; [|done].
    injection E as <-. apply agrees_and_then; [|done]. apply (stmt_exact p (f_body f)); [|done].
    apply (top_ready _ [l]); try done. constructor; [|constructor]. eapply declare_all_known_in; [exact Dl|apply map_Forall_empty].
  - destruct (forallb _ (f_parameters f)); [|done]. destruct (declare_all _ _ _) as [l|] eqn:Dl; [|done]. simpl.
    destruct (stmt_ok _ _ _ [l] (f_body f)) as [L|] eqn:E; simpl; [|done].
    assert (tail L = []) as T.
    { refine (framed_tail _ _ _ (stmt_ok_frames (environment_of p) p (f_body f) _ _ _ E _ _)); [done|].
      constructor; [|constructor]. eapply declare_all_known_in; [exact Dl|apply map_Forall_empty]. }
    unfold grant, granted, fits. simpl. destruct (_ && _); simpl; [|done]. f_equal.
    unfold pop_scope, move, set_scopes, set_nodes; simpl. by rewrite T.
Qed.

Lemma check_functions_exact fs n t c :
  n ≤ 100000 →
  ∃ t' c', agrees true (all_ok (check_function p) fs (between_functions n t c))
    (grant (forallb (function_ok p) fs) (stmts_cost (map f_body fs)) (stmts_height (map f_body fs))
       (between_functions n t' c')).
Proof using Hc Hg.
  revert n t c. induction fs as [|f fs IH]; intros n t c N.
  { exists t, c. simpl. rewrite grant_free; [done|done|done]. }
  destruct (decide (n + stmt_cost (f_body f) ≤ 100000)) as [Le|Gt].
  - destruct (IH (n + stmt_cost (f_body f)) (f_result f) (f_result_composite f) Le) as (t' & c' & H). exists t', c'.
    refine (agrees_eq _ _ (grant (function_ok p f) (stmt_cost (f_body f)) (stmt_height (f_body f))
        (between_functions n (f_result f) (f_result_composite f)) ≫= λ v1,
      grant (forallb (function_ok p) fs) (stmts_cost (map f_body fs)) (stmts_height (map f_body fs))
        (between_functions (n + stmt_cost (f_body f)) t' c')) _ _ _).
    + apply agrees_and_then; [by apply check_function_exact|]. intros v1 (_ & _ & ->)%grant_Some. exact H.
    + refine (eq_trans _ (grant_seq (function_ok p f) _ _ (forallb (function_ok p) fs) _ _ _ _));
        [|apply stmts_cost_nonneg]. unfold grant, granted, fits. simpl.
      by destruct (function_ok p f), (n + stmt_cost (f_body f) <=? 100000), (0 + stmt_height (f_body f) <=? 256).
  - exists t, c.
    assert (∀ t c, fits (stmt_cost (f_body f)) (stmt_height (f_body f)) (between_functions n t c) = false) as F1.
    { intros t1 c1. unfold fits. simpl. by destruct (Z.leb_spec (n + stmt_cost (f_body f)) 100000). }
    assert (fits (stmts_cost (map f_body (f :: fs))) (stmts_height (map f_body (f :: fs))) (between_functions n t c) = false) as F2.
    { unfold fits. simpl. pose proof (stmts_cost_nonneg (map f_body fs)) as [? _]. unfold stmts_cost in *.
      destruct (Z.leb_spec (n + (stmt_cost (f_body f) + foldr (λ a n, stmt_cost a + n) 0 (map f_body fs))) 100000); [lia|done]. }
    unfold grant. rewrite F2, andb_false_r. cbn [granted all_ok].
    refine (agrees_and_then true _ _ _ None (λ _, None) _ _); [|done].
    eapply agrees_eq; [by apply check_function_exact|]. unfold grant. by rewrite F1, andb_false_r.
Qed.
End Bodies.

(** * The main theorem *)

(** A run that accepts exactly when [ok], without an error text. *)
Definition accepts (r : outcome (bool * Verifier)) (ok : bool) : Prop :=
  match r with
  | Done (b, v) => b = ok ∧ (error v = "" ↔ ok = true)
  | Undefined _ | OutOfFuel => False
  end.

Lemma accepts_agrees r o ok :
  agrees true r o → (∀ v, o = Some v → error v = "" ∧ ok = true) → (o = None → ok = false) → accepts r ok.
Proof.
  unfold agrees, accepts. destruct r as [[[] v]| |]; [| |done|done].
  - intros -> H _. destruct (H v eq_refl) as [-> ->]. done.
  - intros [-> He] _ H. rewrite (H eq_refl). naive_solver.
Qed.

(** A check that passes when [b] and goes on from [v1]. *)
Lemma accepts_step m k v b v1 ok :
  agrees true (m v) (granted b v1) → (b = true → accepts (k v1) ok) → accepts (and_then m k v) (b && ok).
Proof.
  unfold and_then, mbind, SM_bind, agrees, accepts. destruct (m v) as [[[] v']| |]; [| |done|done]; destruct b; simpl; try naive_solver.
Qed.

Lemma nodup_fresh {A} (key : A → string) (m : gmap string A) xs :
  m = ∅ → bool_decide (NoDup (map key xs) ∧ Forall (λ x, m !! key x = None) xs) = bool_decide (NoDup (map key xs)).
Proof. intros ->. apply bool_decide_ext. rewrite Forall_forall. setoid_rewrite lookup_empty. naive_solver. Qed.

Lemma composites_exact p :
  agrees true (all_ok check_composite (composites p) new_verifier)
    (granted (forallb composite_ok (composites p) && bool_decide (NoDup (map co_name (composites p)))) (state1 p)).
Proof.
  rewrite <- (nodup_fresh co_name (composites_ new_verifier)) by done.
  apply (index_exact co_name composite_ok composites_ set_composites_); [done|done|by intros []|].
  intros m c. apply check_composite_exact.
Qed.

Lemma globals_exact p :
  agrees true (all_ok check_global (globals p) (state1 p))
    (granted (forallb (global_ok p) (globals p) && bool_decide (NoDup (map v_name (globals p)))) (state2 p)).
Proof.
  rewrite <- (nodup_fresh v_name (globals_ (state1 p))) by done.
  apply (index_exact v_name (global_ok p) globals_ set_globals_); [done|done|by intros []|].
  intros m x. apply check_global_exact.
Qed.

Lemma heads_exact p :
  agrees true (all_ok declare_function (functions p) (state2 p))
    (granted (forallb (head_ok p) (functions p) && bool_decide (NoDup (map f_name (functions p)))) (state3 p)).
Proof.
  rewrite <- (nodup_fresh f_name (functions_ (state2 p))) by done.
  apply (index_exact f_name (head_ok p) functions_ set_functions_); [done|done|by intros []|].
  intros m f. apply declare_function_exact.
Qed.

(** The functions and the body, after the declarations. *)
Lemma bodies_exact p :
  forallb composite_ok (composites p) = true → forallb (global_ok p) (globals p) = true →
  accepts
    (and_then (all_ok (check_function p) (functions p))
       (modify (λ v, set_resultComposite "" (set_result S_Int32 (push_scope v)));; stmt p (body p)) (state3 p))
    (forallb (function_ok p) (functions p) &&
     bool_decide (stmt_ok (environment_of p) p (top_context S_Int32 "") [∅] (body p) ≠ None) && within_limits p).
Proof.
  intros Hc Hg. destruct (check_functions_exact p Hc Hg (functions p) 0 S_Int32 "") as (t & c & F); [lia|].
  set (fs := map f_body (functions p)) in *. set (B := forallb (function_ok p) (functions p)) in *.
  set (o := stmt_ok (environment_of p) p (top_context S_Int32 "") [∅] (body p)).
  refine (accepts_agrees _ (grant B (stmts_cost fs) (stmts_height fs) (between_functions p 0 t c) ≫= λ v1,
    scoped o (stmt_cost (body p)) (stmt_height (body p)) (set_scopes [∅] (between_functions p (nodes v1) S_Int32 ""))) _ _ _ _).
  - apply agrees_and_then; [exact F|].
    intros v1 (_ & Hf & ->)%grant_Some. rewrite bind_modify_verifier. apply (stmt_exact p (body p)); [|done].
    apply (top_ready p Hc Hg _ [∅]); try done.
    + unfold fits in Hf. apply andb_true_iff in Hf as [Hn%Z.leb_le _]. exact Hn.
    + constructor; [apply map_Forall_empty|constructor].
  - intros v E. destruct (grant B _ _ _) as [v1|] eqn:G; [|done]. apply grant_Some in G as (-> & Hf & ->). simpl in E.
    destruct o as [L|]; [|done]. apply grant_Some in E as (_ & Hb & ->). split; [done|].
    unfold fits, within_limits, program_cost, program_height in *. simpl in *. fold fs.
    rewrite !andb_true_iff, !Z.leb_le in *. lia.
  - intros E. apply not_true_is_false. rewrite !andb_true_iff, bool_decide_eq_true.
    unfold within_limits, program_cost, program_height. fold fs. rewrite andb_true_iff, !Z.leb_le. intros [[-> No] W].
    pose proof (stmt_cost_nonneg (body p)). unfold grant, fits, granted in E. simpl in E.
    destruct (Z.leb_spec (0 + stmts_cost fs) 100000), (Z.leb_spec (0 + stmts_height fs) 256); try lia. simpl in E.
    destruct o as [L|]; [|done]. unfold scoped, grant, fits, granted in E. simpl in E.
    destruct (Z.leb_spec (0 + stmts_cost fs + stmt_cost (body p)) 100000), (Z.leb_spec (0 + stmt_height (body p)) 256);
      try lia. done.
Qed.

Lemma run_exact p : accepts (run p new_verifier) (program_ok p && within_limits p).
Proof.
  assert (program_ok p && within_limits p =
    (forallb composite_ok (composites p) && bool_decide (NoDup (map co_name (composites p)))) &&
    ((forallb (global_ok p) (globals p) && bool_decide (NoDup (map v_name (globals p)))) &&
    ((forallb (head_ok p) (functions p) && bool_decide (NoDup (map f_name (functions p)))) &&
    ((forallb model_ok (models p) && distinct_names (map m_name (models p))) &&
    ((forallb (λ t, tensor_ok t && forallb (value_ok (element_type t)) (values t)) (tensors p) &&
      distinct_names (map t_name (tensors p))) &&
    (distinct_names (map c_name (contracts p)) &&
    (forallb (λ i, named (model_name i) (map m_name (models p)) && named (input_tensor_name i) (map t_name (tensors p)) &&
                   named (output_tensor_name i) (map t_name (tensors p))) (inferences p) &&
    (forallb (λ m, named (workload m) (map c_name (contracts p))) (measurements p) &&
    (forallb (function_ok p) (functions p) &&
     bool_decide (stmt_ok (environment_of p) p (top_context S_Int32 "") [∅] (body p) ≠ None) && within_limits p))))))))) as ->.
  { unfold program_ok, declarations_ok. by rewrite <- !andb_assoc. }
  unfold run. eapply accepts_step; [apply composites_exact|]. intros [Hc _]%andb_true_iff.
  eapply accepts_step; [apply globals_exact|]. intros [Hg _]%andb_true_iff.
  eapply accepts_step; [apply heads_exact|]. intros _.
  eapply accepts_step; [rewrite <- fresh_names_empty; apply check_models_exact|]. intros _.
  eapply accepts_step; [rewrite <- fresh_names_empty; apply check_tensors_exact|]. intros _.
  eapply accepts_step; [rewrite <- fresh_names_empty, <- distinct_exact; by apply agrees_require|]. intros _.
  eapply accepts_step; [by apply tests_exact|]. intros _.
  eapply accepts_step; [by apply tests_exact|]. intros _.
  by apply bodies_exact.
Qed.

(** C22.  The verifier of the semantic IR decides: on every program it returns
    without undefined behaviour, it accepts exactly the programs that are well
    typed (tables, types, scopes, labels, loops and returns) and need at most
    100000 visits and a nesting of 256, and it leaves an error text exactly
    when it refuses. *)
Theorem verifySemanticIR_exact p :
  ∃ error, verifySemanticIR p = Done (program_ok p && within_limits p, error) ∧
           (error = "" ↔ program_ok p && within_limits p = true).
Proof.
  pose proof (run_exact p) as H. unfold verifySemanticIR, accepts in *.
  destruct (run p new_verifier) as [[b v]| |]; [|done|done]. destruct H as [-> H]. by exists (error v).
Qed.
