(* ===== verification/SemanticIRBuilder.v ===== *)
(** Component: the builder of the semantic IR (semantic_ir/SemanticIRBuilder.h
    and .cpp): it turns the checked trees of a program and its libraries into
    one [ProgramIR].

    The object is the record [Builder]; its methods are computations of the
    state monad.  The stack of scopes keeps the back of the vector at the head
    of the list; [back] of an empty vector is undefined. *)
From S2P Require Import Prelude CxxInt CxxString CxxFloat.
From S2P Require Import SemanticIR Ast Diagnostics.
Open Scope string_scope.
Open Scope Z_scope.

(** * Conversions *)

Definition scalar (type : ShortType) : sir.ScalarType :=
  match type with
  | TInt => sir.S_Int32
  | TBoolean => sir.S_Bool
  | TFloat => sir.S_Float64
  | TString => sir.S_String
  | TVoid => sir.S_Void
  end.

Definition unquote (s : string) : string :=
  if (2 <=? str_size s) && bool_decide (front s = Some chr_quote) && bool_decide (back s = Some chr_quote)
  then String.substring 1 (String.length s - 2) s else s.

(** [std::from_chars] on the whole item with a positive result: digits only. *)
Definition positive_int64 (item : string) : option Z :=
  if negb (is_empty item) && string_forallb isdigit item then
    let n := foldl (λ acc c, 10 * acc + digit_value c) 0 (list_ascii_of_string item) in
    if (0 <? n) && (n <=? INT64_MAX) then Some n else None
  else None.

Fixpoint shape_items (items : list string) (dims : list Z) : list Z :=
  match items with
  | [] => dims
  | item :: rest => match positive_int64 item with Some n => shape_items rest (dims ++ [n])%list | None => [] end
  end.

Definition shape (text : string) : sir.TensorShape := {| sir.dims := shape_items (getline_split "," text) [] |}.

Definition one_of (s : string) (names : list string) : bool := existsb (String.eqb s) names.

Definition element (s : string) : sir.ElementType :=
  if one_of s ["float"; "float32"; "f32"; "fp32"] then sir.Float32
  else if one_of s ["float16"; "f16"; "fp16"] then sir.Float16
  else if one_of s ["bfloat16"; "bf16"] then sir.BFloat16
  else if one_of s ["int8"; "i8"] then sir.Int8
  else if one_of s ["int4"; "i4"] then sir.Int4
  else if one_of s ["int32"; "i32"] then sir.Int32
  else sir.ElementUnknown.

Definition format (s : string) : sir.ModelFormat :=
  if String.eqb s "onnx" then sir.Onnx
  else if one_of s ["tensorrt"; "tensorrt_engine"] then sir.TensorRTEngine
  else if String.eqb s "torchscript" then sir.TorchScript
  else if one_of s ["openvino"; "openvino_ir"] then sir.OpenVINOIR
  else if String.eqb s "gguf" then sir.GGUF
  else sir.FormatUnknown.

Definition backend (s : string) : option sir.BackendKind :=
  if String.eqb s "fallback" then Some sir.Fallback
  else if String.eqb s "onnxruntime_cpu" then Some sir.OnnxRuntimeCPU
  else if String.eqb s "onnxruntime_cuda" then Some sir.OnnxRuntimeCUDA
  else if String.eqb s "onnxruntime_tensorrt" then Some sir.OnnxRuntimeTensorRT
  else if String.eqb s "tensorrt" then Some sir.TensorRT
  else if String.eqb s "openvino" then Some sir.OpenVINO
  else if String.eqb s "libtorch" then Some sir.LibTorch
  else if String.eqb s "llamacpp" then Some sir.LlamaCpp
  else None.

Definition guardrail (g : QualityGuardrail) : string :=
  unquote (qg_metric g) +:+ " " +:+ qg_op g +:+ " " +:+ format_g 17 (qg_threshold g).

Definition guardrail_text (g : option QualityGuardrail) : string :=
  match g with Some g => guardrail g | None => "" end.

Definition opcode (op : binary_op) : Z :=
  match op with
  | B_ERROR => 0 | PLUS => 1 | MINUS => 2 | MULTIPLY => 3 | DIVIDE => 4 | MODULO => 5 | LESS => 6 | GREATER => 7
  | LESS_OR_EQUAL => 8 | GREATER_OR_EQUAL => 9 | EQUAL => 10 | NOT_EQUAL => 11 | OR => 12 | AND => 13
  end.

Definition unary_opcode (op : unary_op) : Z := match op with U_ERROR => 0 | UMINUS => 1 end.

(** * The object *)

Record Builder := {
  result_ : sir.ProgramIR; file_ : string; error_ : string; globals_ : gmap string sir.ScalarType;
  returns_ : gmap string sir.ScalarType; scopes_ : list (gmap string sir.ScalarType);
}.

Definition set_result_ (x : sir.ProgramIR) (b : Builder) : Builder :=
  {| result_ := x; file_ := file_ b; error_ := error_ b; globals_ := globals_ b; returns_ := returns_ b; scopes_ := scopes_ b |}.
Definition set_file_ (x : string) (b : Builder) : Builder :=
  {| result_ := result_ b; file_ := x; error_ := error_ b; globals_ := globals_ b; returns_ := returns_ b; scopes_ := scopes_ b |}.
Definition set_error_ (x : string) (b : Builder) : Builder :=
  {| result_ := result_ b; file_ := file_ b; error_ := x; globals_ := globals_ b; returns_ := returns_ b; scopes_ := scopes_ b |}.
Definition set_globals_ (x : gmap string sir.ScalarType) (b : Builder) : Builder :=
  {| result_ := result_ b; file_ := file_ b; error_ := error_ b; globals_ := x; returns_ := returns_ b; scopes_ := scopes_ b |}.
Definition set_returns_ (x : gmap string sir.ScalarType) (b : Builder) : Builder :=
  {| result_ := result_ b; file_ := file_ b; error_ := error_ b; globals_ := globals_ b; returns_ := x; scopes_ := scopes_ b |}.
Definition set_scopes_ (x : list (gmap string sir.ScalarType)) (b : Builder) : Builder :=
  {| result_ := result_ b; file_ := file_ b; error_ := error_ b; globals_ := globals_ b; returns_ := returns_ b; scopes_ := x |}.

Definition no_location : sir.SourceLocation := {| sir.file := ""; sir.line := 0; sir.column := 0 |}.
Definition no_source : sir.SourceRange := {| sir.begin := no_location; sir.end_ := no_location |}.

(** [Expr e;] and [Stmt s;] *)
Definition new_expression (r : sir.SourceRange) : sir.Expression :=
  sir.MkExpression sir.E_Integer sir.S_Int32 "" 0 dzero 0 [] r "".
Definition new_statement (r : sir.SourceRange) : sir.Statement :=
  sir.MkStatement sir.St_Block "" [] [] [] [] [] 0 false r.

Definition empty_program : sir.ProgramIR :=
  {| sir.composites := []; sir.models := []; sir.tensors := []; sir.inferences := []; sir.contracts := [];
     sir.measurements := []; sir.globals := []; sir.functions := []; sir.body := new_statement no_source |}.

Definition new_builder : Builder :=
  {| result_ := empty_program; file_ := ""; error_ := ""; globals_ := ∅; returns_ := ∅; scopes_ := [] |}.

Abbreviation BM := (SM Builder).

Definition report (text : string) : BM unit := modify (set_error_ text).

(** The tables of the program grow at the back. *)
Definition push_model (m : sir.ModelOp) (p : sir.ProgramIR) : sir.ProgramIR :=
  {| sir.composites := sir.composites p; sir.models := (sir.models p ++ [m])%list; sir.tensors := sir.tensors p;
     sir.inferences := sir.inferences p; sir.contracts := sir.contracts p; sir.measurements := sir.measurements p;
     sir.globals := sir.globals p; sir.functions := sir.functions p; sir.body := sir.body p |}.
Definition push_tensor (t : sir.TensorOp) (p : sir.ProgramIR) : sir.ProgramIR :=
  {| sir.composites := sir.composites p; sir.models := sir.models p; sir.tensors := (sir.tensors p ++ [t])%list;
     sir.inferences := sir.inferences p; sir.contracts := sir.contracts p; sir.measurements := sir.measurements p;
     sir.globals := sir.globals p; sir.functions := sir.functions p; sir.body := sir.body p |}.
Definition push_inference (i : sir.InferOp) (p : sir.ProgramIR) : sir.ProgramIR :=
  {| sir.composites := sir.composites p; sir.models := sir.models p; sir.tensors := sir.tensors p;
     sir.inferences := (sir.inferences p ++ [i])%list; sir.contracts := sir.contracts p;
     sir.measurements := sir.measurements p; sir.globals := sir.globals p; sir.functions := sir.functions p;
     sir.body := sir.body p |}.
Definition push_contract (c : sir.GreenAIContractOp) (p : sir.ProgramIR) : sir.ProgramIR :=
  {| sir.composites := sir.composites p; sir.models := sir.models p; sir.tensors := sir.tensors p;
     sir.inferences := sir.inferences p; sir.contracts := (sir.contracts p ++ [c])%list;
     sir.measurements := sir.measurements p; sir.globals := sir.globals p; sir.functions := sir.functions p;
     sir.body := sir.body p |}.
Definition push_measurement (m : sir.GreenAIMeasurementOp) (p : sir.ProgramIR) : sir.ProgramIR :=
  {| sir.composites := sir.composites p; sir.models := sir.models p; sir.tensors := sir.tensors p;
     sir.inferences := sir.inferences p; sir.contracts := sir.contracts p;
     sir.measurements := (sir.measurements p ++ [m])%list; sir.globals := sir.globals p;
     sir.functions := sir.functions p; sir.body := sir.body p |}.
Definition push_globals (xs : list sir.Variable_) (p : sir.ProgramIR) : sir.ProgramIR :=
  {| sir.composites := sir.composites p; sir.models := sir.models p; sir.tensors := sir.tensors p;
     sir.inferences := sir.inferences p; sir.contracts := sir.contracts p; sir.measurements := sir.measurements p;
     sir.globals := (sir.globals p ++ xs)%list; sir.functions := sir.functions p; sir.body := sir.body p |}.
Definition push_function (f : sir.Function_) (p : sir.ProgramIR) : sir.ProgramIR :=
  {| sir.composites := sir.composites p; sir.models := sir.models p; sir.tensors := sir.tensors p;
     sir.inferences := sir.inferences p; sir.contracts := sir.contracts p; sir.measurements := sir.measurements p;
     sir.globals := sir.globals p; sir.functions := (sir.functions p ++ [f])%list; sir.body := sir.body p |}.
Definition set_body (s : sir.Statement) (ms : list sir.ModelOp) (p : sir.ProgramIR) : sir.ProgramIR :=
  {| sir.composites := sir.composites p; sir.models := ms; sir.tensors := sir.tensors p;
     sir.inferences := sir.inferences p; sir.contracts := sir.contracts p; sir.measurements := sir.measurements p;
     sir.globals := sir.globals p; sir.functions := sir.functions p; sir.body := s |}.

Definition on_program (f : sir.ProgramIR → sir.ProgramIR) : BM unit := modify (λ b, set_result_ (f (result_ b)) b).

Section Build.
Context (ranges : range_table).

Definition position_in (file : string) (p : SourcePosition) : sir.SourceLocation :=
  {| sir.file := file; sir.line := line p; sir.column := column p |}.

Definition range_of (n : N) (b : Builder) : sir.SourceRange :=
  let r := shorthand_get_ast_source_range (Some n) ranges in
  {| sir.begin := position_in (file_ b) (begin_ r); sir.end_ := position_in (file_ b) (end_ r) |}.

(** ** Declarations *)

Definition declarations (d : AST_DATA_DECLARATION_BLOCK) (b : Builder) : list sir.Variable_ :=
  let r := range_of (decl_node d) b in
  (map (λ v, {| sir.v_name := ts_name v; sir.v_type := scalar (ts_type v); sir.v_extent := 0; sir.v_range := r;
                sir.v_composite := "" |}) (typed_scalars d) ++
   map (λ v, {| sir.v_name := ta_name v; sir.v_type := scalar (ta_type v); sir.v_extent := ta_size v; sir.v_range := r;
                sir.v_composite := "" |}) (typed_arrays d))%list.

(** [map[v.name] = v.type] for every variable. *)
Definition note_types (xs : list sir.Variable_) (m : gmap string sir.ScalarType) : gmap string sir.ScalarType :=
  foldl (λ m x, <[sir.v_name x := sir.v_type x]> m) m xs.

Definition signatures (p : AST_PROGRAM) : BM unit :=
  modify (λ b, set_globals_ (note_types (declarations (decl_block p) b) (globals_ b)) b);;
  modify (λ b, set_returns_ (foldl (λ m f, <[function_name f := scalar (fn_type f)]> m) (returns_ b) (functions p)) b).

Fixpoint lookup_type (name : string) (ss : list (gmap string sir.ScalarType)) : option sir.ScalarType :=
  match ss with
  | [] => None
  | s :: rest => match s !! name with Some t => Some t | None => lookup_type name rest end
  end.

Definition variableType (name : string) : BM sir.ScalarType :=
  b ← gets id;
  match lookup_type name (scopes_ b) with
  | Some t => mret t
  | None =>
      match globals_ b !! name with
      | Some t => mret t
      | None => report ("unresolved variable in SemanticIR: " +:+ name);; mret sir.S_Void
      end
  end.

(** The type of a call: [Int32], the default, when the function is unknown. *)
Definition returnType (name : string) : BM sir.ScalarType :=
  b ← gets id;
  match returns_ b !! name with
  | Some t => mret t
  | None => report ("unresolved function in SemanticIR: " +:+ name);; mret sir.S_Int32
  end.

(** ** Expressions *)

Definition collect {A B} (f : A → BM B) : list A → BM (list B) :=
  fix go l := match l with [] => mret [] | x :: rest => y ← f x; ys ← go rest; mret (y :: ys) end.

Fixpoint expression (e : AST_EXPRESSION_RULE) : BM sir.Expression :=
  r ← gets (range_of (expression_node e));
  match e with
  | AST_LITERAL _ z => mret (sir.MkExpression sir.E_Integer sir.S_Int32 "" z dzero 0 [] r "")
  | AST_BOOL_LITERAL _ v => mret (sir.MkExpression sir.E_Boolean sir.S_Bool "" (if v then 1 else 0) dzero 0 [] r "")
  | AST_FLOAT_LITERAL _ v => mret (sir.MkExpression sir.E_Float sir.S_Float64 "" 0 v 0 [] r "")
  | AST_STRING_LITERAL _ s => mret (sir.MkExpression sir.E_String sir.S_String (unquote s) 0 dzero 0 [] r "")
  | AST_SIMPLE_VARIABLE _ x => t ← variableType x; mret (sir.MkExpression sir.E_Variable t x 0 dzero 0 [] r "")
  | AST_ARRAY_VARIABLE _ x i =>
      t ← variableType x; a ← expression i; mret (sir.MkExpression sir.E_Index t x 0 dzero 0 [a] r "")
  | AST_BINARY_EXPRESSION_RULE _ x y op =>
      a ← expression x; b ← expression y;
      mret (sir.MkExpression sir.E_Binary (if 6 <=? opcode op then sir.S_Bool else sir.e_type a) "" 0 dzero
              (opcode op) [a; b] r "")
  | AST_UNARY_EXPRESSION_RULE _ x op =>
      a ← expression x; mret (sir.MkExpression sir.E_Unary (sir.e_type a) "" 0 dzero (unary_opcode op) [a] r "")
  | AST_FUNCTION_CALL_EXPRESSION _ f args =>
      t ← returnType f; xs ← collect expression args; mret (sir.MkExpression sir.E_Call t f 0 dzero 0 xs r "")
  end.

Definition target (v : AST_VARIABLE_RULE) : BM sir.Expression := expression (var_expression v).

Definition printed (i : AST_PRINTABLE_ITEM) : BM sir.Expression :=
  match i with
  | PrintExpression e => expression e
  | PrintString n s => expression (AST_STRING_LITERAL n s)
  end.

(** ** Statements *)

(** A statement of a kind with its name, texts, expressions and table index. *)
Definition simple (kind : sir.StatementKind) (name : string) (strings : list string) (es : list sir.Expression)
    (declaration : nat) (r : sir.SourceRange) : sir.Statement :=
  sir.MkStatement kind name strings es [] [] [] declaration false r.

Definition control (kind : sir.StatementKind) (es : list sir.Expression) (body alternative : list sir.Statement)
    (r : sir.SourceRange) : sir.Statement :=
  sir.MkStatement kind "" [] es [] body alternative 0 false r.

Definition push_scope (b : Builder) : Builder := set_scopes_ (∅ :: scopes_ b) b.
Definition pop_scope (b : Builder) : Builder := set_scopes_ (tail (scopes_ b)) b.

Definition on_scope (xs : list sir.Variable_) : BM unit :=
  ss ← gets scopes_;
  match xs, ss with
  | [], _ => mret tt
  | _, s :: rest => modify (set_scopes_ (note_types xs s :: rest))
  | _, [] => undefined "back of an empty vector"
  end.

(** The backends that are known; the last unknown one is reported. *)
Fixpoint backends (names : list string) : BM (list sir.BackendKind) :=
  match names with
  | [] => mret []
  | n :: rest =>
      match backend n with
      | Some k => ks ← backends rest; mret (k :: ks)
      | None => report ("unknown SemanticIR backend: " +:+ n);; backends rest
      end
  end.

Definition model_declaration (r : sir.SourceRange) (d : ModelDeclarationData) : BM sir.Statement :=
  index ← gets (λ b, length (sir.models (result_ b)));
  ks ← backends (md_backend_preference d);
  on_program (push_model
    {| sir.m_name := md_name d; sir.m_range := r; sir.format := format (md_format d); sir.path := unquote (md_path d);
       sir.task := unquote (md_task d); sir.m_quality_guardrail := guardrail_text (md_quality_guardrail d);
       sir.precision := element (md_precision d); sir.input_shape := shape (md_input_shape d);
       sir.output_shape := shape (md_output_shape d); sir.backend_preference := ks |});;
  mret (simple sir.St_Model "" [] [] index r).

Definition tensor_declaration (r : sir.SourceRange) (d : TensorDeclarationData) : BM sir.Statement :=
  index ← gets (λ b, length (sir.tensors (result_ b)));
  on_program (push_tensor
    {| sir.t_name := td_name d; sir.t_range := r; sir.element_type := element (td_element_type d);
       sir.shape := shape (td_shape_csv d); sir.values := [] |});;
  mret (simple sir.St_Tensor "" [] [] index r).

Definition infer_statement (r : sir.SourceRange) (model input output : string) : BM sir.Statement :=
  index ← gets (λ b, length (sir.inferences (result_ b)));
  on_program (push_inference
    {| sir.i_range := r; sir.model_name := model; sir.input_tensor_name := input; sir.output_tensor_name := output |});;
  mret (simple sir.St_Infer "" [] [] index r).

Definition contract_declaration (r : sir.SourceRange) (d : GreenAIContractData) : BM sir.Statement :=
  index ← gets (λ b, length (sir.contracts (result_ b)));
  on_program (push_contract
    {| sir.c_name := gc_name d; sir.c_range := r; sir.functional_unit := unquote (gc_functional_unit d);
       sir.success_criteria := unquote (gc_success_criteria d); sir.boundary := gc_boundary d;
       sir.measurement_quality := gc_measurement_quality d; sir.data_quality := gc_data_quality d;
       sir.carbon_factor := gc_carbon_factor d; sir.claims_mode := gc_claims_mode d;
       sir.c_quality_guardrail := guardrail_text (gc_quality_guardrail d);
       sir.energy_budget_j := gc_energy_budget_j d; sir.carbon_budget_gco2e := gc_carbon_budget_gco2e d |});;
  mret (simple sir.St_Contract "" [] [] index r).

Definition measurement_declaration (r : sir.SourceRange) (d : GreenAIMeasurementData) : BM sir.Statement :=
  index ← gets (λ b, length (sir.measurements (result_ b)));
  on_program (push_measurement
    {| sir.gm_range := r; sir.workload := gm_workload d; sir.backend := gm_backend d; sir.inferences_ := gm_inferences d;
       sir.watts := gm_watts d; sir.seconds := gm_seconds d |});;
  mret (simple sir.St_Measurement "" [] [] index r).

Definition evidence_strings (d : C3EcoDeclarationData) : list string :=
  (c3EcoDeclarationKindName (cd_kind d) ::
   concat (map (λ f, cf_name f :: map (λ v, c3EcoValueKindName (cv_kind v) +:+ ":" +:+ cv_text v) (cf_values f))
     (cd_fields d)))%list.

Fixpoint statement (s : AST_STATEMENT_RULE) : BM sir.Statement :=
  r ← gets (range_of (statement_node s));
  match s with
  | AST_BLOCK_STATEMENT b => block b
  | AST_DECLARATION_STATEMENT d =>
      xs ← gets (declarations d);
      on_scope xs;;
      mret (sir.MkStatement sir.St_Declare "" [] [] xs [] [] 0 false r)
  | AST_ASSIGNMENT_RULE _ v e =>
      a ← target v; b ← expression e; mret (simple sir.St_Assign "" [] [a; b] 0 r)
  | AST_EXPRESSION_STATEMENT_RULE _ e => a ← expression e; mret (simple sir.St_Expression "" [] [a] 0 r)
  | AST_FUNCTION_CALL_RULE _ f vs =>
      t ← returnType f;
      xs ← collect target vs;
      mret (simple sir.St_Expression "" [] [sir.MkExpression sir.E_Call t f 0 dzero 0 xs r ""] 0 r)
  | AST_IF_STATEMENT _ c b => a ← expression c; x ← block b; mret (control sir.St_If [a] [x] [] r)
  | AST_IF_ELSE_STATEMENT _ c b1 b2 =>
      a ← expression c; x ← block b1; y ← block b2; mret (control sir.St_If [a] [x] [y] r)
  | AST_WHILE_LOOP_STATEMENT_RULE _ c b => a ← expression c; x ← block b; mret (control sir.St_While [a] [x] [] r)
  | AST_FOR_LOOP_STATEMENT_RULE _ v from step to b =>
      x ← target v; f ← expression from; st ← expression step; t ← expression to; y ← block b;
      mret (control sir.St_For [x; f; st; t] [y] [] r)
  | AST_BREAK _ => mret (simple sir.St_Break "" [] [] 0 r)
  | AST_CONTINUE _ => mret (simple sir.St_Continue "" [] [] 0 r)
  | AST_RETURN_STATEMENT _ (Some e) => a ← expression e; mret (simple sir.St_Return "" [] [a] 0 r)
  | AST_RETURN_STATEMENT _ None => mret (simple sir.St_Return "" [] [] 0 r)
  | AST_LABEL_RULE _ l => mret (simple sir.St_Label l [] [] 0 r)
  | AST_GOTO_STATEMENT_RULE _ (Some c) l => a ← expression c; mret (simple sir.St_Goto l [] [a] 0 r)
  | AST_GOTO_STATEMENT_RULE _ None l => mret (simple sir.St_Goto l [] [] 0 r)
  | AST_READ_RULE _ vs => xs ← collect target vs; mret (simple sir.St_Read "" [] xs 0 r)
  | AST_PRINT_RULE _ ps => xs ← collect printed ps; mret (simple sir.St_Print "" [] xs 0 r)
  | AST_MODEL_DECLARATION _ d => model_declaration r d
  | AST_TENSOR_DECLARATION _ d => tensor_declaration r d
  | AST_INFER_STATEMENT _ m i o => infer_statement r m i o
  | AST_GREENAI_CONTRACT _ d => contract_declaration r d
  | AST_GREENAI_MEASUREMENT _ d => measurement_declaration r d
  | AST_AI_INFER_RULE _ m s i => mret (simple sir.St_LegacyInfer "" [unquote m; unquote s; unquote i] [] 0 r)
  | AST_GREENAI_REPORT_RULE _ w i p t =>
      a ← expression i; b ← expression p; c ← expression t; mret (simple sir.St_GreenReport w [] [a; b; c] 0 r)
  | AST_C3ECO_DECLARATION _ d => mret (simple sir.St_Evidence (cd_name d) (evidence_strings d) [] 0 r)
  end
with block (b : AST_STATEMENTS_BLOCK) : BM sir.Statement :=
  match b with
  | Block n lexical ss =>
      r ← gets (range_of n);
      modify (λ b, if lexical then push_scope b else b);;
      xs ← collect statement ss;
      modify (λ b, if lexical then pop_scope b else b);;
      mret (sir.MkStatement sir.St_Block "" [] [] [] xs [] 0 lexical r)
  end.

(** ** Programs *)

Definition function (f : AST_FUNCTION_RULE) : BM unit :=
  params ← gets (declarations (parameters f));
  r ← gets (range_of (fn_node f));
  modify (λ b, set_scopes_ (note_types params ∅ :: scopes_ b) b);;
  s ← block (block_statement f);
  modify pop_scope;;
  on_program (push_function
    {| sir.f_name := function_name f; sir.f_result := scalar (fn_type f); sir.f_parameters := params; sir.f_body := s;
       sir.f_range := r; sir.f_result_composite := "" |}).

Definition build_functions (p : AST_PROGRAM) : BM unit :=
  xs ← gets (declarations (decl_block p));
  on_program (push_globals xs);;
  collect function (functions p);;
  mret tt.

(** A compact model gets its shapes from the tensors of its uses. *)
Definition complete_shape (current : sir.TensorShape) (tensor : sir.TensorOp) (name : string) : sir.TensorShape :=
  if bool_decide (sir.dims current = []) && String.eqb (sir.t_name tensor) name then sir.shape tensor else current.

Definition complete_from (tensors : list sir.TensorOp) (m : sir.ModelOp) (i : sir.InferOp) : sir.ModelOp :=
  if String.eqb (sir.model_name i) (sir.m_name m) then
    foldl (λ m t,
      {| sir.m_name := sir.m_name m; sir.m_range := sir.m_range m; sir.format := sir.format m; sir.path := sir.path m;
         sir.task := sir.task m; sir.m_quality_guardrail := sir.m_quality_guardrail m; sir.precision := sir.precision m;
         sir.input_shape := complete_shape (sir.input_shape m) t (sir.input_tensor_name i);
         sir.output_shape := complete_shape (sir.output_shape m) t (sir.output_tensor_name i);
         sir.backend_preference := sir.backend_preference m |}) m tensors
  else m.

Definition complete_model (p : sir.ProgramIR) (m : sir.ModelOp) : sir.ModelOp :=
  foldl (complete_from (sir.tensors p)) m (sir.inferences p).

Definition build_bodies (libraries : list (AST_PROGRAM * string)) (entry : AST_PROGRAM) (file : string)
    : BM (string + sir.ProgramIR) :=
  collect (λ u : AST_PROGRAM * string, modify (set_file_ u.2);; build_functions u.1) libraries;;
  modify (set_file_ file);;
  build_functions entry;;
  modify push_scope;;
  s ← block (code_block entry);
  modify pop_scope;;
  on_program (λ p, set_body s (map (complete_model p) (sir.models p)) p);;
  b ← gets id;
  mret (if is_empty (error_ b) then inr (result_ b) else inl (error_ b)).

(** The program, or the error text. *)
Definition build (libraries : list (AST_PROGRAM * string)) (entry : AST_PROGRAM) (file : string)
    : outcome (string + sir.ProgramIR) :=
  let m :=
    collect (λ u : AST_PROGRAM * string, signatures u.1) libraries;;
    signatures entry;;
    b ← gets id;
    if is_empty (error_ b) then build_bodies libraries entry file else mret (inl (error_ b)) in
  match m new_builder with
  | Done (r, _) => Done r
  | Undefined r => Undefined r
  | OutOfFuel => OutOfFuel
  end.
End Build.
