(* ===== verification/SemanticIRSound.v ===== *)
(** From checked trees to the semantic IR: the builder never meets undefined
    behaviour or an unresolved name on a program that the reference checker
    accepts, and the IR it builds is well typed, except for the restrictions of
    [supported], which the IR adds to the source language. *)
From S2P Require Import Prelude CxxInt CxxString CxxFloat TypeSystem Ast AiTypes Diagnostics.
From S2P Require Import AnalyzerState SemanticAnalyzer Checker CheckerFacts.
From S2P Require Import SemanticIR SemanticIRFacts SemanticIRExact SemanticIRProgram SemanticIRBuilder.
Import sir.
Open Scope string_scope.
Open Scope Z_scope.

(** * The restrictions of the IR

    What the verifier asks of a program beyond the rules of the source
    language. *)

Fixpoint expr_plain (e : Expression) : bool :=
  match e_kind e with
  | E_Float => isfinite (e_decimal e)
  | E_String => no_nul (e_name e)
  | _ => true
  end && forallb expr_plain (e_operands e).

Definition variable_plain (x : Variable_) : bool := identifier (v_name x) && (v_extent x <=? 65536).

Fixpoint stmt_plain (s : Statement) : bool :=
  forallb expr_plain (s_expressions s) &&
  match s_kind s with
  | St_Declare => forallb variable_plain (s_variables s)
  | St_Read => forallb (λ e, SemanticIR.numeric (e_type e)) (s_expressions s) && negb (Nat.eqb (length (s_expressions s)) 0)
  | St_Print => negb (Nat.eqb (length (s_expressions s)) 0)
  | St_Block => distinct_names (label_names (s_body s)) && forallb stmt_plain (s_body s)
  | St_If | St_While | St_For => forallb stmt_plain (s_body s) && forallb stmt_plain (s_alternative s)
  | _ => true
  end.

(** The restrictions of a statement apart from its expressions. *)
Definition own_plain (s : Statement) : bool :=
  match s_kind s with
  | St_Declare => forallb variable_plain (s_variables s)
  | St_Read => forallb (λ e, SemanticIR.numeric (e_type e)) (s_expressions s) && negb (Nat.eqb (length (s_expressions s)) 0)
  | St_Print => negb (Nat.eqb (length (s_expressions s)) 0)
  | St_Block => distinct_names (label_names (s_body s)) && forallb stmt_plain (s_body s)
  | St_If | St_While | St_For => forallb stmt_plain (s_body s) && forallb stmt_plain (s_alternative s)
  | _ => true
  end.

Lemma stmt_plain_unfold s : stmt_plain s = forallb expr_plain (s_expressions s) && own_plain s.
Proof. by destruct s. Qed.

Lemma expr_plain_unfold e :
  expr_plain e =
  match e_kind e with E_Float => isfinite (e_decimal e) | E_String => no_nul (e_name e) | _ => true end &&
  forallb expr_plain (e_operands e).
Proof. by destruct e. Qed.

(** ** What the builder must know: the names of the backends *)

Fixpoint backends_known (s : AST_STATEMENT_RULE) : bool :=
  match s with
  | AST_MODEL_DECLARATION _ d => forallb (λ n, bool_decide (is_Some (SemanticIRBuilder.backend n))) (md_backend_preference d)
  | AST_BLOCK_STATEMENT b | AST_IF_STATEMENT _ _ b | AST_FOR_LOOP_STATEMENT_RULE _ _ _ _ _ b
  | AST_WHILE_LOOP_STATEMENT_RULE _ _ b => block_backends_known b
  | AST_IF_ELSE_STATEMENT _ _ b1 b2 => block_backends_known b1 && block_backends_known b2
  | _ => true
  end
with block_backends_known (b : AST_STATEMENTS_BLOCK) : bool :=
  match b with Block _ _ ss => forallb backends_known ss end.

(** * Running the builder *)

(** The tables of AI declarations only grow while statements are built, and
    nothing else of the program changes. *)
Definition sizes (q : ProgramIR) : list nat :=
  [length (models q); length (tensors q); length (inferences q); length (contracts q); length (measurements q)].

Record grown (q q' : ProgramIR) : Prop := {
  grown_sizes : Forall2 le (sizes q) (sizes q');
  grown_composites : composites q' = composites q;
  grown_globals : sir.globals q' = sir.globals q;
  grown_functions : sir.functions q' = sir.functions q;
}.

#[export] Instance grown_preorder : PreOrder grown.
Proof.
  split.
  - intros q. by split.
  - intros q1 q2 q3 [H1 H2 H3 H4] [H1' H2' H3' H4']. split; [by etrans|congruence..].
Qed.

(** * Scopes *)

(** A variable of the IR is the variable of the checker. *)
Definition sees (v : VariableInfo) (y : Variable_) : Prop :=
  v_type y = scalar (vi_type v) ∧ v_composite y = "" ∧ (0 <? v_extent y) = is_array v.

Definition matches (l : Checker.scope) (s : SemanticIRFacts.scope) : Prop :=
  ∀ x, option_Forall2 sees (l !! x) (s !! x).

(** The types the builder records. *)
Definition types (l : Checker.scope) : gmap string ScalarType := (λ v, scalar (vi_type v)) <$> l.

Lemma matches_empty : matches ∅ ∅.
Proof. intros x. rewrite !lookup_empty. constructor. Qed.

Lemma matches_insert l s x v y : matches l s → sees v y → matches (<[x := v]> l) (<[x := y]> s).
Proof.
  intros Hm Hv z. destruct (decide (x = z)) as [->|Hne].
  - rewrite !lookup_insert_eq. by constructor.
  - by rewrite !lookup_insert_ne.
Qed.

Lemma matches_lookup l s x v : matches l s → l !! x = Some v → ∃ y, s !! x = Some y ∧ sees v y.
Proof. intros Hm Hx. specialize (Hm x). rewrite Hx in Hm. inversion Hm; eauto. Qed.

Lemma matches_None l s x : matches l s → l !! x = None → s !! x = None.
Proof. intros Hm Hx. specialize (Hm x). rewrite Hx in Hm. by inversion Hm. Qed.

Lemma lookup_matches L S x :
  Forall2 matches L S → option_Forall2 sees (AnalyzerState.lookup_scopes x L) (SemanticIR.lookup_scopes x S).
Proof.
  induction 1 as [|l s L S Hl _ IH]; simpl; [constructor|].
  specialize (Hl x). by destruct Hl; [constructor|].
Qed.

Lemma lookup_types L x : lookup_type x (map types L) = (λ v, scalar (vi_type v)) <$> AnalyzerState.lookup_scopes x L.
Proof. induction L as [|l L IH]; simpl; [done|]. unfold types at 1. rewrite lookup_fmap. by destruct (l !! x). Qed.

Section Lowering.
Context (F : Checker.signatures) (G : Checker.scope) (D : environment) (p : ProgramIR) (ranges : range_table).
(** The scope around the logic block, which holds nothing. *)
Context (X : list Checker.scope) (HX : Forall (λ l, l = ∅) X).
Hypothesis globals_match : matches G (globals_of D).
Hypothesis functions_match : ∀ f ps r, F !! f = Some (ps, r) →
  ∃ fn, functions_of D !! f = Some fn ∧ f_result fn = scalar r ∧ f_result_composite fn = "" ∧
        map v_type (f_parameters fn) = map scalar ps ∧ map v_composite (f_parameters fn) = map (λ _, "") ps.

(** The state of the builder where the checker has the scopes [L]. *)
Record tracks (L : list Checker.scope) (S : list SemanticIRFacts.scope) (b : Builder) : Prop := {
  tracks_scopes : Forall2 matches (L ++ X) S;
  tracks_types : scopes_ b = map types (L ++ X);
  tracks_globals : SemanticIRBuilder.globals_ b = types G;
  tracks_returns : returns_ b = (λ r : list ShortType * ShortType, scalar r.2) <$> F;
  tracks_error : error_ b = "";
}.

Lemma resolved L S x v :
  Forall2 matches (L ++ X) S → lookup_variable G L x = Some v → ∃ y, resolve D S x = Some y ∧ sees v y.
Proof using HX globals_match.
  intros HS. pose proof (lookup_matches _ _ x HS) as Hx. rewrite lookup_scopes_app in Hx by done.
  unfold lookup_variable, resolve. destruct Hx as [v' y Hy|].
  - intros [= <-]. eauto.
  - by apply matches_lookup.
Qed.

Lemma variableType_lowers L S b x v :
  tracks L S b → lookup_variable G L x = Some v → variableType x b = Done (scalar (vi_type v), b).
Proof using HX.
  intros [_ Ht Hg _ _] Hx. unfold variableType, lookup_variable in *. rewrite (bind_done _ _ _ b b) by done.
  rewrite Ht, lookup_types, lookup_scopes_app by done. rewrite Hg. unfold types. rewrite lookup_fmap.
  destruct (AnalyzerState.lookup_scopes x L); simplify_eq/=; [done|]. by rewrite Hx.
Qed.

Lemma returnType_lowers L S b f ps r :
  tracks L S b → F !! f = Some (ps, r) → returnType f b = Done (scalar r, b).
Proof.
  intros [_ _ _ Hr _] Hf. unfold returnType. rewrite (bind_done _ _ _ b b) by done. by rewrite Hr, lookup_fmap, Hf.
Qed.
(** ** Expressions *)

#[local] Arguments resolve : simpl never.
#[local] Arguments has_types : simpl never.

(** The expression [e'] is what [e] of type [t] lowers to. *)
Record lowered (S : list SemanticIRFacts.scope) (e : AST_EXPRESSION_RULE) (t : ShortType) (e' : Expression) : Prop := {
  lowered_type : e_type e' = scalar t;
  lowered_composite : e_composite e' = "";
  lowered_ok : expr_ok D S e' = expr_plain e';
  lowered_kind : lvalue_kind e' = match e with AST_SIMPLE_VARIABLE _ _ | AST_ARRAY_VARIABLE _ _ _ => true | _ => false end;
}.

Definition lowers (e : AST_EXPRESSION_RULE) : Prop := ∀ L S b t,
  Checker.expression_ok e = true → type_of F G L e = Some t → tracks L S b →
  ∃ e', expression ranges e b = Done (e', b) ∧ lowered S e t e'.

Lemma scalar_value t : value_type D (scalar t) "" = negb (bool_decide (t = TVoid)).
Proof. by destruct t. Qed.

Lemma identity_lowered e' t : e_type e' = scalar t → e_composite e' = "" → identity_ok D e' = true.
Proof. intros Ht Hc. unfold identity_ok. rewrite Ht, Hc, scalar_value. by destruct t. Qed.

(** An expression is well typed up to its operands when its own rule holds. *)
Lemma lowered_intro S e t e' :
  e_type e' = scalar t → e_composite e' = "" →
  forallb (expr_ok D S) (e_operands e') = forallb expr_plain (e_operands e') →
  kind_ok D S e' = (match e_kind e' with E_Float => isfinite (e_decimal e') | E_String => no_nul (e_name e') | _ => true end) →
  lvalue_kind e' = match e with AST_SIMPLE_VARIABLE _ _ | AST_ARRAY_VARIABLE _ _ _ => true | _ => false end →
  lowered S e t e'.
Proof.
  intros Ht Hc Ho Hk Hl. split; [done..| |done].
  rewrite expr_ok_unfold, (identity_lowered _ _ Ht Hc), Ho, Hk, expr_plain_unfold. apply andb_comm.
Qed.

Lemma collect_lowers L S b args : Forall lowers args → tracks L S b → forallb Checker.expression_ok args = true →
  ∀ ps, Checker.arguments_match (type_of F G L) ps args = true →
  ∃ es, collect (expression ranges) args b = Done (es, b) ∧ Forall2 (λ a e', ∃ t, lowered S a t e') args es ∧
        map e_type es = map scalar ps ∧ map e_composite es = map (λ _, "") ps.
Proof.
  intros Ha Hb. induction Ha as [|a args Ha _ IH]; intros Ho [|q ps] Hm; try done; simpl in *.
  - by exists [].
  - apply andb_true_iff in Ho as [Ho1 Ho2]. destruct (type_of F G L a) as [t|] eqn:Ht; [|done].
    apply andb_true_iff in Hm as [[_ Hq]%andb_true_iff Hm]. apply bool_decide_eq_true in Hq as ->.
    destruct (Ha _ _ _ _ Ho1 Ht Hb) as (e' & He & Hl). destruct (IH Ho2 _ Hm) as (es & Hes & HF & Ht' & Hc').
    exists (e' :: es). rewrite (bind_done _ _ _ _ _ He), (bind_done _ _ _ _ _ Hes).
    split_and!; [done|constructor; eauto| |]; simpl; rewrite ?Ht', ?Hc', ?(lowered_type _ _ _ _ Hl), ?(lowered_composite _ _ _ _ Hl); done.
Qed.

Lemma lowered_all S args es : Forall2 (λ a e', ∃ t, lowered S a t e') args es →
  forallb (expr_ok D S) es = forallb expr_plain es.
Proof. induction 1 as [|a e args es [t H] _ IH]; simpl; [done|]. by rewrite (lowered_ok _ _ _ _ H), IH. Qed.

Lemma binary_ok_lowered op t r : op_type op t = Some r → t ≠ TVoid →
  binary_ok (opcode op) (scalar t) (scalar r) = true ∧ scalar r = (if 6 <=? opcode op then S_Bool else scalar t).
Proof. intros H Hv. destruct op, t; vm_compute in H; (discriminate H || injection H as <-); done. Qed.

Lemma expression_lowers e : lowers e.
Proof using HX globals_match functions_match.
  induction e as [n z|n v|n v|n s|n x|n x i IH|n e op IH|n e1 e2 op IH1 IH2|n f args IH] using expression_induction;
    intros L S b t Ho Ht Hb; simpl in Ho; cbn [type_of] in Ht; cbn [expression]; rewrite (bind_done _ _ _ _ _ eq_refl).
  1-4: simplify_eq; eexists; (split; [reflexivity|]); apply lowered_intro; try done.
  - by destruct v.
  - apply andb_true_r.
  - apply andb_true_r.
  - destruct (lookup_variable G L x) as [v|] eqn:Hx; [|done]. destruct (is_array v) eqn:Ha; [done|]. simplify_eq.
    rewrite (bind_done _ _ _ _ _ (variableType_lowers _ _ _ _ _ Hb Hx)). eexists; split; [reflexivity|].
    destruct (resolved _ _ _ _ (tracks_scopes _ _ _ Hb) Hx) as (y & Hy & H1 & H2 & H3).
    apply lowered_intro; try done. unfold kind_ok. simpl. rewrite Hy, H1, H2, H3, Ha. by rewrite bool_decide_eq_true_2.
  - destruct (lookup_variable G L x) as [v|] eqn:Hx; [|done]. destruct (is_array v) eqn:Ha; [|done]. simpl in Ht.
    case_bool_decide as Hi; [|done]. simplify_eq.
    rewrite (bind_done _ _ _ _ _ (variableType_lowers _ _ _ _ _ Hb Hx)).
    destruct (IH _ _ _ _ Ho Hi Hb) as (i' & Hi' & Hl). rewrite (bind_done _ _ _ _ _ Hi'). eexists; split; [reflexivity|].
    destruct (resolved _ _ _ _ (tracks_scopes _ _ _ Hb) Hx) as (y & Hy & H1 & H2 & H3).
    apply lowered_intro; try done; simpl; [by rewrite (lowered_ok _ _ _ _ Hl)|].
    unfold kind_ok. simpl. rewrite Hy, H1, H2, H3, Ha. unfold has_types. simpl. by rewrite (lowered_type _ _ _ _ Hl), bool_decide_eq_true_2.
  - apply andb_true_iff in Ho as [Hop Ho]. apply bool_decide_eq_true in Hop as ->.
    destruct (type_of F G L e) as [t'|] eqn:He; [|done]. destruct (SemanticAnalyzer.numeric t') eqn:Hn; [|done]. simplify_eq.
    destruct (IH _ _ _ _ Ho He Hb) as (e' & He' & Hl). rewrite (bind_done _ _ _ _ _ He'). eexists; split; [reflexivity|].
    apply lowered_intro; try done; simpl; [apply Hl|by rewrite (lowered_ok _ _ _ _ Hl)|].
    unfold kind_ok, has_types. simpl. rewrite (lowered_type _ _ _ _ Hl), bool_decide_eq_true_2 by done. by destruct t.
  - apply andb_true_iff in Ho as [Ho1 Ho2]. destruct (type_of F G L e1) as [t1|] eqn:H1; [|done].
    destruct (type_of F G L e2) as [t2|] eqn:H2; [|done].
    destruct (bool_decide (t1 = TVoid)) eqn:Hv; [done|]. apply bool_decide_eq_false in Hv.
    case_bool_decide as Heq; [|done]. subst t2. simpl in Ht.
    destruct (IH1 _ _ _ _ Ho1 H1 Hb) as (a & Ha & Hla). destruct (IH2 _ _ _ _ Ho2 H2 Hb) as (c & Hc & Hlc).
    rewrite (bind_done _ _ _ _ _ Ha), (bind_done _ _ _ _ _ Hc). eexists; split; [reflexivity|].
    destruct (binary_ok_lowered _ _ _ Ht Hv) as [Hok Hr].
    apply lowered_intro; simpl; rewrite ?(lowered_ok _ _ _ _ Hla), ?(lowered_ok _ _ _ _ Hlc), ?(lowered_type _ _ _ _ Hla); try done.
    unfold kind_ok. simpl. by rewrite (lowered_type _ _ _ _ Hla), (lowered_type _ _ _ _ Hlc), bool_decide_eq_true_2, <- Hr.
  - destruct (F !! f) as [[ps r]|] eqn:Hf; [|done].
    destruct (Checker.arguments_match (type_of F G L) ps args) eqn:Hm; [|done]. simplify_eq.
    rewrite (bind_done _ _ _ _ _ (returnType_lowers _ _ _ _ _ _ Hb Hf)).
    destruct (collect_lowers _ _ _ _ IH Hb Ho _ Hm) as (es & Hes & HF & Hts & Hcs).
    rewrite (bind_done _ _ _ _ _ Hes). eexists; split; [reflexivity|].
    destruct (functions_match _ _ _ Hf) as (fn & Hfn & E1 & E2 & E3 & E4).
    apply lowered_intro; try done; simpl; [by apply (lowered_all _ args)|].
    unfold kind_ok, has_types. simpl. rewrite Hfn, E1, E2, E3, E4, Hts, Hcs. by rewrite !bool_decide_eq_true_2.
Qed.
(** ** Statements without statements inside *)

(** The context of the IR is the one of the checker. *)
Record agree (C : Checker.context) (C' : context) : Prop := {
  agree_return : ∀ t, c_return C = Some t → x_result C' = scalar t ∧ x_resultComposite C' = "";
  agree_loop : c_loop C = true → x_loop C' = true;
  agree_labels : ∀ l, l ∈ c_labels C → l ∈ x_labels C';
}.

Definition label_of (s : Statement) : option string := match s_kind s with St_Label => Some (s_name s) | _ => None end.

(** The statement [s'] is what [s] lowers to, from the scopes [S] to [S']. *)
Definition lowers_to (C' : context) (S S' : list SemanticIRFacts.scope) (q : ProgramIR) (s : AST_STATEMENT_RULE)
    (s' : Statement) : Prop :=
  label_of s' = as_label s ∧
  (Forall2 le (sizes q) (sizes p) → stmt_ok D p C' S s' = if stmt_plain s' then Some S' else None).

Definition statement_lowers (s : AST_STATEMENT_RULE) : Prop := ∀ C C' L L' S b,
  Checker.statement_ok s = true → backends_known s = true → Checker.check_statement F G C L s = Some L' →
  agree C C' → (∀ l, as_label s = Some l → l ∈ x_labels C') → tracks L S b →
  ∃ s' b' S', statement ranges s b = Done (s', b') ∧ tracks L' S' b' ∧ grown (result_ b) (result_ b') ∧
              lowers_to C' S S' (result_ b') s s'.

Definition is_simple (k : StatementKind) : bool :=
  match k with St_Block | St_If | St_While | St_For | St_Declare => false | _ => true end.

Lemma simple_rule C' S s' :
  is_simple (s_kind s') = true → forallb (expr_ok D S) (s_expressions s') = forallb expr_plain (s_expressions s') →
  forallb lvalue_kind (targets s') = true → rule_ok D p C' s' = own_plain s' →
  stmt_ok D p C' S s' = if stmt_plain s' then Some S else None.
Proof.
  intros Hk He Ht Hr. rewrite stmt_ok_unfold, stmt_plain_unfold, He. unfold inner_ok. rewrite Ht, Hr. simpl.
  destruct (forallb expr_plain _); [|done]. destruct (own_plain s'); [|done]. by destruct (s_kind s').
Qed.

(** A statement that leaves the scopes and the tables alone. *)
Lemma lowers_here L S b (C' : context) s s' (m : BM Statement) :
  tracks L S b → m b = Done (s', b) → label_of s' = as_label s →
  stmt_ok D p C' S s' = (if stmt_plain s' then Some S else None) →
  ∃ s' b' S', m b = Done (s', b') ∧ tracks L S' b' ∧ grown (result_ b) (result_ b') ∧
              lowers_to C' S S' (result_ b') s s'.
Proof. intros Hb Hm Hl Hs. exists s', b, S. split; [done|]. split; [done|]. split; [reflexivity|]. by split. Qed.

Lemma collect_forall {A} (g : A → BM Expression) (Q : A → Expression → Prop) b xs :
  Forall (λ x, ∃ e, g x b = Done (e, b) ∧ Q x e) xs → ∃ es, collect g xs b = Done (es, b) ∧ Forall2 Q xs es.
Proof.
  induction 1 as [|x xs (e & He & Hq) _ (es & Hes & HQ)]; [by exists []|].
  exists (e :: es). simpl. rewrite (bind_done _ _ _ _ _ He), (bind_done _ _ _ _ _ Hes). eauto.
Qed.

Lemma collect_map {A B} (g : B → BM Expression) (f : A → B) xs b : collect (λ x, g (f x)) xs b = collect g (map f xs) b.
Proof.
  revert b. induction xs as [|x xs IH]; intros b; simpl; [done|].
  unfold mbind, SM_bind. destruct (g (f x) b) as [[e b']| |]; [|done..]. by rewrite IH.
Qed.
Lemma variable_kind v : match var_expression v with
                         | AST_SIMPLE_VARIABLE _ _ | AST_ARRAY_VARIABLE _ _ _ => true | _ => false end = true.
Proof. by destruct v. Qed.

(** A target lowers to a variable. *)
Lemma target_lowers L S b v t :
  Checker.variable_ok v = true → type_of F G L (var_expression v) = Some t → tracks L S b →
  ∃ e, target ranges v b = Done (e, b) ∧ lowered S (var_expression v) t e ∧ lvalue_kind e = true.
Proof using HX globals_match functions_match.
  intros Ho Ht Hb. destruct (expression_lowers _ _ _ _ _ Ho Ht Hb) as (e & He & Hl).
  exists e. split; [done|]. split; [done|]. rewrite (lowered_kind _ _ _ _ Hl). apply variable_kind.
Qed.

Lemma lowered_condition S e t e' : lowered S e t e' → t = TBoolean ∨ t = TInt → condition (e_type e') = true.
Proof. intros [Ht _ _ _] H. rewrite Ht. by destruct H as [->| ->]. Qed.

Lemma condition_typed L e : condition_ok F G L e = true → ∃ t, type_of F G L e = Some t ∧ (t = TBoolean ∨ t = TInt).
Proof. unfold condition_ok, has_type. rewrite orb_true_iff, !bool_decide_eq_true. naive_solver. Qed.

(** Runs the builder on a statement whose parts are known to lower. *)
Ltac build :=
  simpl statement; rewrite (bind_done _ _ _ _ _ eq_refl);
  repeat match goal with
  | H : _ ?b = Done _ |- (_ ≫= _) ?b = _ => rewrite (bind_done _ _ _ _ _ H)
  end; reflexivity.

Ltac lower Hb := eapply (lowers_here _ _ _ _ _ _ _ Hb); [build|done|apply simple_rule; [done|..]].

Ltac keeps Hc := cbn [Checker.check_statement] in Hc; unfold keep in Hc;
  match type of Hc with (if ?c then _ else _) = _ => let H := fresh "Hk" in destruct c eqn:H; [injection Hc as <-|done] end.

(** Rewrites with what is known of lowered expressions. *)
Ltac lowered_facts := cbn; repeat match goal with H : lowered _ _ _ _ |- _ =>
    rewrite ?(lowered_ok _ _ _ _ H), ?(lowered_type _ _ _ _ H), ?(lowered_composite _ _ _ _ H); clear H end.

(** *** Statements made of expressions *)

Lemma assignment_lowers n v e : statement_lowers (AST_ASSIGNMENT_RULE n v e).
Proof using HX globals_match functions_match.
  intros C C' L L' S b Ho _ Hc _ _ Hb. simpl in Ho. apply andb_true_iff in Ho as [Ho1 Ho2]. keeps Hc.
  unfold assignable in Hk. destruct (type_of F G L (var_expression v)) as [t|] eqn:Ht; [|done].
  apply andb_true_iff in Hk as [_ Ha]. apply bool_decide_eq_true in Ha.
  destruct (target_lowers _ _ _ _ _ Ho1 Ht Hb) as (a & Hea & Hla & Hka).
  destruct (expression_lowers _ _ _ _ _ Ho2 Ha Hb) as (c & Hec & Hlc).
  lower Hb.
  - by lowered_facts.
  - cbn. by rewrite Hka.
  - unfold rule_ok, same. lowered_facts. by rewrite bool_decide_eq_true_2.
Qed.

Lemma expression_statement_lowers n e : statement_lowers (AST_EXPRESSION_STATEMENT_RULE n e).
Proof using HX globals_match functions_match.
  intros C C' L L' S b Ho _ Hc _ _ Hb. simpl in Ho. keeps Hc. apply bool_decide_eq_true in Hk.
  destruct (type_of F G L e) as [t|] eqn:Ht; [|done].
  destruct (expression_lowers _ _ _ _ _ Ho Ht Hb) as (a & Hea & Hla). lower Hb; [by lowered_facts|done..].
Qed.

Lemma call_lowers n f vs : statement_lowers (AST_FUNCTION_CALL_RULE n f vs).
Proof using HX globals_match functions_match.
  intros C C' L L' S b Ho _ Hc _ _ Hb. simpl in Ho. keeps Hc. unfold call_ok in Hk.
  destruct (F !! f) as [[ps r]|] eqn:Hf; [|done].
  destruct (collect_lowers L S b (map var_expression vs)) with (ps := ps) as (es & Hes & HF & Hts & Hcs); [|done| |done|].
  { apply Forall_forall. intros. apply expression_lowers. }
  { rewrite <- Ho. clear. by induction vs as [|v vs IH]; simpl; [|rewrite IH]. }
  rewrite <- collect_map in Hes. pose proof (returnType_lowers _ _ _ _ _ _ Hb Hf) as Hr.
  destruct (functions_match _ _ _ Hf) as (fn & Hfn & E1 & E2 & E3 & E4).
  lower Hb; [|done..]. cbn [s_expressions simple forallb]. f_equal.
  rewrite expr_ok_unfold, expr_plain_unfold, (identity_lowered _ r) by done. cbn [e_operands e_kind].
  rewrite (lowered_all _ _ _ HF). unfold kind_ok, has_types. cbn. rewrite Hfn, E1, E2, E3, E4, Hts, Hcs.
  rewrite !bool_decide_eq_true_2 by done. by rewrite andb_true_r.
Qed.

Lemma jump_lowers s : (∃ n, s = AST_BREAK n) ∨ (∃ n, s = AST_CONTINUE n) → statement_lowers s.
Proof using HX.
  intros Hs C C' L L' S b Ho _ Hc Ha _ Hb. destruct Hs as [[n ->]|[n ->]]; keeps Hc;
    (lower Hb; [done|done|]; unfold rule_ok; cbn; by rewrite (agree_loop _ _ Ha)).
Qed.

Lemma return_lowers n e : statement_lowers (AST_RETURN_STATEMENT n e).
Proof using HX globals_match functions_match.
  intros C C' L L' S b Ho _ Hc Ha _ Hb. simpl in Ho. keeps Hc. unfold return_ok in Hk.
  destruct (c_return C) as [t|] eqn:Ht; [|done]. destruct (agree_return _ _ Ha _ Ht) as [Hr Hrc].
  destruct e as [e|].
  - apply andb_true_iff in Hk as [Hv He]. apply bool_decide_eq_true in He.
    destruct (expression_lowers _ _ _ _ _ Ho He Hb) as (a & Hea & Hla). lower Hb; [by lowered_facts|done|].
    unfold rule_ok. lowered_facts. rewrite Hr, Hrc. rewrite (bool_decide_eq_true_2 (scalar t = scalar t)) by done. by destruct t.
  - apply bool_decide_eq_true in Hk as ->. lower Hb; [done..|]. unfold rule_ok. cbn. by rewrite Hr.
Qed.

Lemma goto_lowers n c l : statement_lowers (AST_GOTO_STATEMENT_RULE n c l).
Proof using HX globals_match functions_match.
  intros C C' L L' S b Ho _ Hc Ha _ Hb. simpl in Ho. keeps Hc. apply andb_true_iff in Hk as [Hl Hk].
  apply bool_decide_eq_true, (agree_labels _ _ Ha) in Hl.
  destruct c as [c|].
  - apply condition_typed in Hk as (t & Ht & Hct). destruct (expression_lowers _ _ _ _ _ Ho Ht Hb) as (a & Hea & Hla).
    lower Hb; [by lowered_facts|done|]. unfold rule_ok. cbn. rewrite (lowered_condition _ _ _ _ Hla Hct).
    by rewrite bool_decide_eq_true_2.
  - lower Hb; [done..|]. unfold rule_ok. cbn. by rewrite bool_decide_eq_true_2.
Qed.

Lemma label_lowers n l : statement_lowers (AST_LABEL_RULE n l).
Proof using HX.
  intros C C' L L' S b _ _ Hc _ Hl Hb. injection Hc as <-. lower Hb; [done..|]. unfold rule_ok. cbn.
  rewrite bool_decide_eq_true_2; [done|]. by apply Hl.
Qed.
Lemma read_lowers n vs : statement_lowers (AST_READ_RULE n vs).
Proof using HX globals_match functions_match.
  intros C C' L L' S b Ho _ Hc _ _ Hb. simpl in Ho. keeps Hc.
  destruct (collect_forall (target ranges)
    (λ v e, expr_ok D S e = expr_plain e ∧ lvalue_kind e = true) b vs) as (es & Hes & HF).
  { apply Forall_forall. intros v Hv%list_elem_of_In. rewrite forallb_forall in Ho, Hk. specialize (Ho v Hv).
    specialize (Hk v Hv). unfold readable in Hk. destruct (type_of F G L (var_expression v)) as [t|] eqn:Ht; [|done].
    destruct (target_lowers _ _ _ _ _ Ho Ht Hb) as (e & He & Hl & Hv'). exists e. split; [done|]. split; [apply Hl|done]. }
  lower Hb; cbn [s_expressions simple targets s_kind]; [..|done]; clear -HF;
    by induction HF as [|v e vs es [H1 H2] _ IH]; simpl; rewrite ?H1, ?H2, ?IH.
Qed.

Lemma printed_lowers L S b i : Checker.printable_ok i = true → printable F G L i = true → tracks L S b →
  ∃ e, printed ranges i b = Done (e, b) ∧ expr_ok D S e = expr_plain e ∧ SemanticIR.scalar (e_type e) = true.
Proof using HX globals_match functions_match.
  intros Ho Hp Hb. destruct i as [m s|e]; simpl in *.
  - destruct (expression_lowers (AST_STRING_LITERAL m s) L S b TString eq_refl eq_refl Hb) as (a & Ha & Hl).
    exists a. split; [done|]. split; [apply Hl|]. by rewrite (lowered_type _ _ _ _ Hl).
  - destruct (type_of F G L e) as [t|] eqn:Ht; [|done]. destruct (expression_lowers _ _ _ _ _ Ho Ht Hb) as (a & Ha & Hl).
    exists a. split; [done|]. split; [apply Hl|]. rewrite (lowered_type _ _ _ _ Hl). by destruct t.
Qed.

Lemma print_lowers n ps : statement_lowers (AST_PRINT_RULE n ps).
Proof using HX globals_match functions_match.
  intros C C' L L' S b Ho _ Hc _ _ Hb. simpl in Ho. keeps Hc.
  destruct (collect_forall (printed ranges)
    (λ _ e, expr_ok D S e = expr_plain e ∧ SemanticIR.scalar (e_type e) = true) b ps) as (es & Hes & HF).
  { apply Forall_forall. intros i Hi%list_elem_of_In. rewrite forallb_forall in Ho, Hk.
    by apply (printed_lowers L); [apply Ho|apply Hk|]. }
  lower Hb; cbn [s_expressions simple]; [|done|].
  - clear -HF. by induction HF as [|v e vs es [H1 H2] _ IH]; simpl; rewrite ?H1, ?IH.
  - unfold rule_ok, own_plain. cbn [s_expressions simple s_kind].
    replace (forallb (λ e, SemanticIR.scalar (e_type e)) es) with true; [done|]. symmetry.
    clear -HF. by induction HF as [|v e vs es [H1 H2] _ IH]; simpl; rewrite ?H2, ?IH.
Qed.

Lemma report_lowers n w i q t : statement_lowers (AST_GREENAI_REPORT_RULE n w i q t).
Proof using HX globals_match functions_match.
  intros C C' L L' S b Ho _ Hc _ _ Hb. simpl in Ho. keeps Hc. unfold has_type in Hk.
  rewrite !andb_true_iff, ?bool_decide_eq_true in *. destruct Ho as [[Ho1 Ho2] Ho3], Hk as [[Hi Hq] Ht].
  destruct (expression_lowers _ _ _ _ _ Ho1 Hi Hb) as (a & Ha & Hla).
  destruct (expression_lowers _ _ _ _ _ Ho2 Hq Hb) as (c & Hc' & Hlc).
  destruct (expression_lowers _ _ _ _ _ Ho3 Ht Hb) as (d & Hd & Hld).
  lower Hb; [by lowered_facts|done|]. unfold rule_ok, has_types. by lowered_facts.
Qed.

(** *** AI declarations *)

Lemma tracks_result L S b q : tracks L S b → tracks L S (set_result_ q b).
Proof. by intros [H1 H2 H3 H4 H5]. Qed.

(** A declaration that appends one row to a table. *)
Lemma row_lowers (C' : context) L S b s (m : BM Statement) kind strs index q :
  tracks L S b →
  (let s' := simple kind "" strs [] index (range_of ranges (statement_node s) b) in
   m b = Done (s', set_result_ q b) ∧ is_simple kind = true ∧ label_of s' = as_label s ∧ targets s' = [] ∧
   own_plain s' = true ∧ (Forall2 le (sizes q) (sizes p) → rule_ok D p C' s' = true)) →
  grown (result_ b) q →
  ∃ s' b' S', m b = Done (s', b') ∧ tracks L S' b' ∧ grown (result_ b) (result_ b') ∧ lowers_to C' S S' (result_ b') s s'.
Proof.
  intros Hb (Hm & Hk & Hl & Ht & Ho & Hr) Hg. eexists _, _, S. split; [exact Hm|].
  split; [by apply tracks_result|]. split; [done|]. split; [done|]. intros Hs.
  apply simple_rule; [done|done|by rewrite Ht|]. by rewrite Ho, Hr.
Qed.
Lemma backends_lower names b : forallb (λ n, bool_decide (is_Some (SemanticIRBuilder.backend n))) names = true →
  ∃ ks, backends names b = Done (ks, b).
Proof.
  induction names as [|n names IH]; simpl; [by exists []|]. rewrite andb_true_iff, bool_decide_eq_true.
  intros [[k Hk] Hn]. destruct (IH Hn) as [ks Hks]. exists (k :: ks). by rewrite Hk, (bind_done _ _ _ _ _ Hks).
Qed.

Ltac row Hb build := eapply (row_lowers _ _ _ _ _ _ _ _ _ _ Hb);
  [ split_and!; [build|done..|];
    intros Hs; unfold sizes in Hs; rewrite !Forall2_cons in Hs;
    cbn [models tensors inferences contracts measurements push_model push_tensor push_inference push_contract
         push_measurement] in Hs;
    rewrite length_app in Hs; cbn [length] in Hs; apply Nat.ltb_lt; cbn [simple s_declaration]; lia
  | split; [|done..]; unfold sizes;
    cbn [models tensors inferences contracts measurements push_model push_tensor push_inference push_contract
         push_measurement]; rewrite length_app; rewrite !Forall2_cons; split_and!; lia || constructor ].

Lemma model_lowers n d : statement_lowers (AST_MODEL_DECLARATION n d).
Proof using HX.
  intros C C' L L' S b _ Hk Hc _ _ Hb. injection Hc as <-. simpl in Hk. destruct (backends_lower _ b Hk) as [ks Hks].
  row Hb ltac:(cbn [statement]; unfold model_declaration; do 2 rewrite (bind_done _ _ _ _ _ eq_refl);
    rewrite (bind_done _ _ _ _ _ Hks); reflexivity).
Qed.

Definition is_row (s : AST_STATEMENT_RULE) : bool :=
  match s with
  | AST_TENSOR_DECLARATION _ _ | AST_INFER_STATEMENT _ _ _ _ | AST_GREENAI_CONTRACT _ _ | AST_GREENAI_MEASUREMENT _ _ => true
  | _ => false
  end.

Lemma rows_lower s : is_row s = true → statement_lowers s.
Proof using HX.
  intros Hrow C C' L L' S b _ _ Hc _ _ Hb. destruct s; try done; injection Hc as <-; row Hb ltac:(cbn [statement]; reflexivity).
Qed.

Definition is_text (s : AST_STATEMENT_RULE) : bool :=
  match s with AST_AI_INFER_RULE _ _ _ _ | AST_C3ECO_DECLARATION _ _ => true | _ => false end.

Lemma texts_lower s : is_text s = true → statement_lowers s.
Proof using HX.
  intros Hs C C' L L' S b _ _ Hc _ _ Hb. destruct s; try done; injection Hc as <-; by lower Hb.
Qed.
(** *** Declarations *)

(** The variable of an entry. *)
Definition entry_variable (e : string * VariableInfo) (x : Variable_) : Prop :=
  v_name x = e.1 ∧ sees e.2 x ∧ variable_ok D x = variable_plain x.

Lemma declarations_entries d b :
  declaration_types_ok d = true → Forall2 entry_variable (declared_entries d) (declarations ranges d b).
Proof.
  intros [Hs Ha]%andb_true_iff. unfold declared_entries, declarations. rewrite forallb_forall in Hs, Ha.
  apply Forall2_app; apply Forall2_fmap_2, Forall_Forall2_diag, Forall_forall; intros e He%list_elem_of_In.
  - specialize (Hs e He). split; [done|]. split; [done|]. unfold variable_ok, variable_plain. cbn.
    replace (value_type D (scalar (ts_type e)) "") with true by (by destruct (ts_type e)). by rewrite !andb_true_r.
  - specialize (Ha e He). apply andb_true_iff in Ha as [[Ht Hn]%andb_true_iff Hz].
    split; [done|]. split; [done|]. unfold variable_ok, variable_plain. cbn [v_type v_extent v_name v_composite].
    rewrite Hz. apply Z.ltb_lt in Hz. replace (0 <=? ta_size e) with true by (symmetry; apply Z.leb_le; lia).
    destruct (ta_type e); try done; cbn; by rewrite !andb_true_r.
Qed.

Lemma entries_lower es xs l l' s :
  Forall2 entry_variable es xs → matches l s → declare_entries es l = Some l' →
  note_types xs (types l) = types l' ∧ matches l' (index_from v_name s xs) ∧
  declare_all D s xs = if forallb variable_plain xs then Some (index_from v_name s xs) else None.
Proof.
  intros He. revert l s. induction He as [|[x v] y es xs (Hn & Hv & Hok) He IH]; intros l s Hm Hd; simpl in *.
  - by simplify_eq.
  - destruct (l !! x) eqn:Hx; [done|]. subst x.
    destruct (IH (<[v_name y := v]> l) (<[v_name y := y]> s)) as (H1 & H2 & H3); [by apply matches_insert|done|].
    split; [|split; [done|]].
    + rewrite <- H1. unfold note_types, types. rewrite fmap_insert. by destruct Hv as [-> _].
    + rewrite Hok, (bool_decide_eq_true_2 (s !! v_name y = None)) by (by eapply matches_None).
      rewrite andb_true_r. by destruct (variable_plain y).
Qed.

Lemma declaration_lowers d : statement_lowers (AST_DECLARATION_STATEMENT d).
Proof using HX.
  intros C C' L L' S b _ _ Hc _ _ Hb. cbn [Checker.check_statement] in Hc. unfold check_declaration in Hc.
  destruct L as [|l rest]; [done|]. destruct (declaration_types_ok d && avoids_globals G d) eqn:Hd; [|done].
  apply andb_true_iff in Hd as [Hd _]. destruct (declare_entries (declared_entries d) l) as [l'|] eqn:He; [|done]. simplify_eq.
  pose proof (declarations_entries d b Hd) as HF. destruct Hb as [HS Ht Hg Hr Herr].
  destruct S as [|s S]; [by apply Forall2_cons_nil_inv in HS|]. apply Forall2_cons in HS as [Hs HS].
  destruct (entries_lower _ _ _ _ _ HF Hs He) as (H1 & H2 & H3).
  set (xs := declarations ranges d b) in *.
  eexists _, (set_scopes_ (types l' :: map types (rest ++ X)) b), (index_from v_name s xs :: S).
  split; [|split; [|split; [done|]]].
  - cbn [statement]. do 2 rewrite (bind_done _ _ _ _ _ eq_refl). fold xs.
    rewrite (bind_done _ _ b tt (set_scopes_ (types l' :: map types (rest ++ X)) b)); [reflexivity|].
    unfold on_scope. rewrite (bind_done _ _ _ _ _ eq_refl), Ht. simpl. rewrite H1.
    destruct xs; [|done]. rewrite <- H1. unfold note_types. simpl. unfold set_scopes_. destruct b; simpl in *. by rewrite Ht.
  - split; [|done..]. simpl. by constructor.
  - split; [done|]. intros _. rewrite stmt_ok_unfold, stmt_plain_unfold. unfold inner_ok. cbn [s_expressions s_kind targets s_variables forallb].
    unfold own_plain. cbn [s_kind s_variables]. simpl. rewrite H3. by destruct (forallb variable_plain xs).
Qed.
(** ** Blocks *)

Definition labels_of (ss : list AST_STATEMENT_RULE) : gset string := list_to_set (omap as_label ss).

Lemma labels_of_elem ss s l : s ∈ ss → as_label s = Some l → l ∈ labels_of ss.
Proof. intros Hs Hl. apply elem_of_list_to_set, list_elem_of_omap. eauto. Qed.

Lemma block_labels_elem ss l : l ∈ dom (block_labels ss) → l ∈ labels_of ss.
Proof.
  intros [t Ht]%elem_of_dom. apply block_labels_lookup in Ht as [n Hn].
  by apply (labels_of_elem _ (AST_LABEL_RULE n l)); [eapply list_elem_of_lookup_2|].
Qed.

Lemma statements_lower ss : Forall statement_lowers ss → ∀ C C' L L' S b,
  forallb Checker.statement_ok ss = true → forallb backends_known ss = true →
  check_statements (Checker.check_statement F G C) L ss = Some L' → agree C C' →
  (∀ s l, s ∈ ss → as_label s = Some l → l ∈ x_labels C') → tracks L S b →
  ∃ ss' b' S', collect (statement ranges) ss b = Done (ss', b') ∧ tracks L' S' b' ∧ grown (result_ b) (result_ b') ∧
    label_names ss' = omap as_label ss ∧
    (Forall2 le (sizes (result_ b')) (sizes p) →
     sequence (stmt_ok D p C') S ss' = if forallb stmt_plain ss' then Some S' else None).
Proof.
  intros Hss C C'. induction Hss as [|s ss Hs _ IH]; intros L L' S b Ho Hk Hc Ha Hl Hb; simpl in Ho, Hk, Hc.
  - simplify_eq. by exists [], b, S.
  - apply andb_true_iff in Ho as [Ho1 Ho2], Hk as [Hk1 Hk2].
    destruct (Checker.check_statement F G C L s) as [L1|] eqn:Hc1; [|done].
    destruct (Hs C C' L L1 S b) as (s' & b1 & S1 & Hr & Hb1 & Hg1 & Hl1 & Hok1); [done..| |done|].
    { intros l. apply Hl. apply list_elem_of_here. }
    destruct (IH L1 L' S1 b1) as (ss' & b2 & S2 & Hr2 & Hb2 & Hg2 & Hl2 & Hok2); [done..| |done|].
    { intros s0 l Hs0. apply Hl. by apply list_elem_of_further. }
    exists (s' :: ss'), b2, S2. split; [|split; [done|split; [by etrans|split]]].
    + simpl. by rewrite (bind_done _ _ _ _ _ Hr), (bind_done _ _ _ _ _ Hr2).
    + cbn [label_names]. rewrite Hl2. csimpl. rewrite <- Hl1. unfold label_of. by destruct (s_kind s').
    + intros Hq. cbn [sequence forallb]. rewrite Hok1 by (etrans; [apply Hg2|done]). destruct (stmt_plain s'); [|done].
      exact (Hok2 Hq).
Qed.

(** A list of statements as a block, lexical or not. *)
Lemma body_lowers n (lexical : bool) ss C C' (L L' : list Checker.scope) S b :
  Forall statement_lowers ss → forallb Checker.statement_ok ss = true → forallb backends_known ss = true →
  check_statements (Checker.check_statement F G C) (if lexical then ∅ :: L else L) ss = Some L' →
  c_labels C = dom (block_labels ss) → agree C (with_labels (c_labels C) C') → tracks L S b →
  ∃ s' b' S', block ranges (Block n lexical ss) b = Done (s', b') ∧ tracks (if lexical then L else L') S' b' ∧
    grown (result_ b) (result_ b') ∧ label_of s' = None ∧ (lexical = true → S' = S) ∧
    (Forall2 le (sizes (result_ b')) (sizes p) → stmt_ok D p C' S s' = if stmt_plain s' then Some S' else None).
Proof.
  intros Hss Ho Hk Hc Hlab Ha Hb.
  set (S0 := if lexical then (∅ : SemanticIRFacts.scope) :: S else S). set (b0 := if lexical then push_scope b else b).
  assert (tracks (if lexical then ∅ :: L else L) S0 b0) as Hb0.
  { destruct Hb as [H1 H2 H3 H4 H5]. destruct lexical; split; try done; simpl.
    - constructor; [apply matches_empty|done].
    - by rewrite H2. }
  destruct (statements_lower ss Hss C (with_labels (labels_of ss) C') (if lexical then ∅ :: L else L) L' S0 b0) as (ss' & b1 & S1 & Hr & Hb1 & Hg & Hl & Hok);
    [done..| | |done|].
  { destruct Ha as [A1 A2 A3]. split; [done..|]. intros l Hl. rewrite Hlab in Hl. by apply block_labels_elem. }
  { intros s l Hs. by apply labels_of_elem. }
  exists (MkStatement St_Block "" [] [] [] ss' [] 0 lexical (range_of ranges n b)),
    (if lexical then pop_scope b1 else b1), (if lexical then S else S1).
  split; [|split; [|split; [|split; [done|split]]]].
  - cbn [block]. do 2 rewrite (bind_done _ _ _ _ _ eq_refl). fold b0. rewrite (bind_done _ _ _ _ _ Hr). by destruct lexical.
  - destruct lexical; [|done]. destruct Hb as [H1 H2 H3 H4 H5], Hb1 as [B1 B2 B3 B4 B5]. split; try done.
    simpl. rewrite B2. destruct (check_statements_tail _ _ _ _ _ _ Hc) as [Hlen Ht]. destruct L'; simplify_eq/=. done.
  - by destruct lexical.
  - by intros ->.
  - intros Hq. rewrite stmt_ok_unfold, stmt_plain_unfold. unfold inner_ok, own_plain. cbn [s_expressions s_kind targets s_body s_lexical_scope forallb].
    rewrite Hl. fold (distinct_names (omap as_label ss)). simpl. destruct (distinct_names (omap as_label ss)); [|done].
    fold (labels_of ss). assert (Forall2 le (sizes (result_ b1)) (sizes p)) as Hq' by (by destruct lexical).
    specialize (Hok Hq'). unfold S0 in Hok. destruct lexical; rewrite Hok; by destruct (forallb stmt_plain ss').
Qed.
(** A block of the source, in the scopes around it. *)
Definition block_lowers (bl : AST_STATEMENTS_BLOCK) : Prop := ∀ C C' L S b,
  block_ok bl = true → block_backends_known bl = true → Checker.check_block F G C L bl = true →
  agree C C' → tracks L S b →
  ∃ s' b', block ranges bl b = Done (s', b') ∧ tracks L S b' ∧ grown (result_ b) (result_ b') ∧ label_of s' = None ∧
    (Forall2 le (sizes (result_ b')) (sizes p) → stmt_ok D p C' S s' = if stmt_plain s' then Some S else None).

Lemma block_from_statements n l ss : Forall statement_lowers ss → block_lowers (Block n l ss).
Proof.
  intros Hss C C' L S b Ho Hk Hc Ha Hb. simpl in Ho, Hk.
  change (l && jumps_ok ss 0 ss &&
          match check_statements (Checker.check_statement F G (block_context C ss)) (∅ :: L) ss with
          | Some _ => true | None => false end = true) in Hc.
  apply andb_true_iff in Ho as [-> Ho]. apply andb_true_iff in Hc as [_ Hc].
  destruct (check_statements (Checker.check_statement F G (block_context C ss)) (∅ :: L) ss) as [L'|] eqn:Hss'; [|done].
  destruct (body_lowers n true ss (block_context C ss) C' L L' S b) as (s' & b' & S' & Hr & Hb' & Hg & Hl & HS & Hok);
    [done..| |done|].
  { destruct Ha as [A1 A2 A3]. by split. }
  rewrite (HS eq_refl) in *. eauto 10.
Qed.

Lemma agree_in_loop C C' : agree C C' → agree (Checker.in_loop C) (in_loop C').
Proof. intros [A1 A2 A3]. by split. Qed.

(** The rule of a control statement around the blocks that it runs. *)
Lemma control_rule C' S kind es body alternative r :
  is_control (control kind es body alternative r) = true →
  forallb (expr_ok D S) es = forallb expr_plain es →
  forallb lvalue_kind (targets (control kind es body alternative r)) = true →
  rule_ok D p C' (control kind es body alternative r) = true →
  sequence (stmt_ok D p (if is_loop (control kind es body alternative r) then in_loop C' else C')) S body =
    (if forallb stmt_plain body then Some S else None) →
  sequence (stmt_ok D p C') S alternative = (if forallb stmt_plain alternative then Some S else None) →
  stmt_ok D p C' S (control kind es body alternative r) =
    if stmt_plain (control kind es body alternative r) then Some S else None.
Proof.
  intros Hk He Ht Hr Hb Ha. rewrite stmt_ok_unfold, stmt_plain_unfold. unfold inner_ok. rewrite Ht, Hr.
  cbn [s_expressions control]. rewrite He. destruct (forallb expr_plain es); [|done]. cbn [andb].
  assert (∀ o : option (list SemanticIRFacts.scope), o = (if forallb stmt_plain body then Some S else None) →
    match o with Some S' => sequence (stmt_ok D p C') S' alternative | None => None end =
    if forallb stmt_plain body && forallb stmt_plain alternative then Some S else None) as Hboth.
  { intros o ->. destruct (forallb stmt_plain body); [by rewrite Ha|done]. }
  unfold own_plain, control in *. cbn [s_kind s_body s_alternative] in *.
  destruct kind; try done; by apply Hboth.
Qed.

Lemma sequence_one (f : list SemanticIRFacts.scope → Statement → option (list SemanticIRFacts.scope)) S s :
  f S s = (if stmt_plain s then Some S else None) →
  sequence f S [s] = if forallb stmt_plain [s] then Some S else None.
Proof. intros H. cbn. rewrite H. by destruct (stmt_plain s). Qed.

Lemma if_lowers n c bl : block_lowers bl → statement_lowers (AST_IF_STATEMENT n c bl).
Proof using HX globals_match functions_match.
  intros IH C C' L L' S b Ho Hkn Hc Ha _ Hb. simpl in Ho, Hkn. apply andb_true_iff in Ho as [Ho1 Ho2]. keeps Hc.
  apply andb_true_iff in Hk as [(t & Ht & Hct)%condition_typed Hk].
  destruct (expression_lowers _ _ _ _ _ Ho1 Ht Hb) as (a & Hea & Hla).
  destruct (IH C C' L S b Ho2 Hkn Hk Ha Hb) as (s' & b' & Hs' & Hb' & Hg & Hl & Hok).
  eexists _, b', S. split; [build|]. split; [done|]. split; [done|]. split; [done|]. intros Hq.
  apply control_rule; [done|by lowered_facts|done| |by apply sequence_one, Hok|done].
  unfold rule_ok. cbn. by rewrite (lowered_condition _ _ _ _ Hla Hct).
Qed.

Lemma if_else_lowers n c b1 b2 : block_lowers b1 → block_lowers b2 → statement_lowers (AST_IF_ELSE_STATEMENT n c b1 b2).
Proof using HX globals_match functions_match.
  intros IH1 IH2 C C' L L' S b Ho Hkn Hc Ha _ Hb. simpl in Ho, Hkn. apply andb_true_iff in Ho as [[Ho1 Ho2]%andb_true_iff Ho3].
  apply andb_true_iff in Hkn as [Hkn1 Hkn2]. keeps Hc.
  apply andb_true_iff in Hk as [[(t & Ht & Hct)%condition_typed Hk1]%andb_true_iff Hk2].
  destruct (expression_lowers _ _ _ _ _ Ho1 Ht Hb) as (a & Hea & Hla).
  destruct (IH1 C C' L S b Ho2 Hkn1 Hk1 Ha Hb) as (s1 & c1 & Hs1 & Hb1 & Hg1 & Hl1 & Hok1).
  destruct (IH2 C C' L S c1 Ho3 Hkn2 Hk2 Ha Hb1) as (s2 & c2 & Hs2 & Hb2 & Hg2 & Hl2 & Hok2).
  eexists _, c2, S. split; [build|]. split; [done|]. split; [by etrans|]. split; [done|]. intros Hq.
  apply control_rule; [done|by lowered_facts|done| | |by apply sequence_one, Hok2].
  - unfold rule_ok. cbn. by rewrite (lowered_condition _ _ _ _ Hla Hct).
  - apply sequence_one, Hok1. etrans; [apply Hg2|done].
Qed.

Lemma while_lowers n c bl : block_lowers bl → statement_lowers (AST_WHILE_LOOP_STATEMENT_RULE n c bl).
Proof using HX globals_match functions_match.
  intros IH C C' L L' S b Ho Hkn Hc Ha _ Hb. simpl in Ho, Hkn. apply andb_true_iff in Ho as [Ho1 Ho2]. keeps Hc.
  apply andb_true_iff in Hk as [(t & Ht & Hct)%condition_typed Hk].
  destruct (expression_lowers _ _ _ _ _ Ho1 Ht Hb) as (a & Hea & Hla).
  destruct (IH _ _ L S b Ho2 Hkn Hk (agree_in_loop _ _ Ha) Hb) as (s' & b' & Hs' & Hb' & Hg & Hl & Hok).
  eexists _, b', S. split; [build|]. split; [done|]. split; [done|]. split; [done|]. intros Hq.
  apply control_rule; [done|by lowered_facts|done| |by apply sequence_one, Hok|done].
  unfold rule_ok. cbn. by rewrite (lowered_condition _ _ _ _ Hla Hct).
Qed.

Lemma for_lowers n v from step to bl : block_lowers bl → statement_lowers (AST_FOR_LOOP_STATEMENT_RULE n v from step to bl).
Proof using HX globals_match functions_match.
  intros IH C C' L L' S b Ho Hkn Hc Ha _ Hb. simpl in Ho, Hkn. keeps Hc. unfold counted_ok, has_type in Hk.
  rewrite !andb_true_iff, ?bool_decide_eq_true in *. destruct Ho as [[[[Ho1 Ho2] Ho3] Ho4] Ho5], Hk as [[[[H1 H2] H3] H4] Hk].
  destruct (target_lowers _ _ _ _ _ Ho1 H1 Hb) as (a1 & He1 & Hl1 & Hv).
  destruct (expression_lowers _ _ _ _ _ Ho2 H2 Hb) as (a2 & He2 & Hl2).
  destruct (expression_lowers _ _ _ _ _ Ho3 H3 Hb) as (a3 & He3 & Hl3).
  destruct (expression_lowers _ _ _ _ _ Ho4 H4 Hb) as (a4 & He4 & Hl4).
  destruct (IH _ _ L S b Ho5 Hkn Hk (agree_in_loop _ _ Ha) Hb) as (s' & b' & Hs' & Hb' & Hg & Hl & Hok).
  eexists _, b', S. split; [build|]. split; [done|]. split; [done|]. split; [done|]. intros Hq.
  apply control_rule; [done|by lowered_facts|cbn; by rewrite Hv| |by apply sequence_one, Hok|done].
  unfold rule_ok, has_types. by lowered_facts.
Qed.

Lemma all_lower : (∀ s, statement_lowers s) ∧ (∀ bl, block_lowers bl).
Proof using HX globals_match functions_match.
  apply statement_block_induction.
  - intros s Hs. destruct s; try discriminate Hs;
      first [apply declaration_lowers | apply expression_statement_lowers | apply call_lowers | apply return_lowers
            | apply assignment_lowers | apply goto_lowers | apply read_lowers | apply print_lowers | apply label_lowers
            | apply report_lowers | apply model_lowers | by apply rows_lower | by apply texts_lower | apply jump_lowers; eauto].
  - intros bl IH C C' L L' S b Ho Hkn Hc Ha _ Hb. simpl in Ho, Hkn. keeps Hc.
    destruct (IH C C' L S b Ho Hkn Hk Ha Hb) as (s' & b' & Hs' & Hb' & Hg & Hl & Hok).
    exists s', b', S. split; [|split; [done|split; [done|by split]]]. simpl statement. by rewrite (bind_done _ _ _ _ _ eq_refl).
  - intros. by apply if_lowers.
  - intros. by apply if_else_lowers.
  - intros. by apply for_lowers.
  - intros. by apply while_lowers.
  - intros. by apply block_from_statements.
Qed.
End Lowering.
