(* ===== verification/SemanticIRLowering.v ===== *)
(** Whole programs through the builder and the verifier of the semantic IR: an
    accepted program builds, and the verifier accepts what was built exactly
    when it meets the restrictions of the IR. *)
From S2P Require Import Prelude CxxInt CxxString CxxFloat TypeSystem Ast AiTypes Diagnostics.
From S2P Require Import AnalyzerState C3EcoSemantics SemanticAnalyzer Checker CheckerFacts AnalyzerProgram.
From S2P Require Import SemanticIR SemanticIRFacts SemanticIRExact SemanticIRProgram SemanticIRBuilder SemanticIRSound.
Import sir.
Open Scope string_scope.
Open Scope Z_scope.

(** * The restrictions of a whole program *)

(** The tables of AI declarations. *)
Definition tables_ok (p : ProgramIR) : bool :=
  forallb model_ok (models p) && distinct_names (map m_name (models p)) &&
  forallb (λ t, tensor_ok t && forallb (value_ok (element_type t)) (values t)) (tensors p) &&
  distinct_names (map t_name (tensors p)) && distinct_names (map c_name (contracts p)) &&
  forallb (λ i, named (model_name i) (map m_name (models p)) && named (input_tensor_name i) (map t_name (tensors p)) &&
                named (output_tensor_name i) (map t_name (tensors p))) (inferences p) &&
  forallb (λ m, named (workload m) (map c_name (contracts p))) (measurements p).

(** Identifiers that are not reserved, arrays of at most 65536 elements, finite
    numbers, strings without a zero byte, numeric input, distinct labels and
    well-formed tables. *)
Definition supported (p : ProgramIR) : bool :=
  forallb (λ x, variable_plain x && negb (is_reserved (v_name x))) (sir.globals p) &&
  forallb (λ f, identifier (f_name f) && negb (is_reserved (f_name f)) && negb (named (f_name f) (map v_name (sir.globals p))))
    (sir.functions p) &&
  tables_ok p &&
  forallb (λ f, forallb variable_plain (f_parameters f) && stmt_plain (f_body f)) (sir.functions p) &&
  stmt_plain (body p).

Definition program_backends_known (p : AST_PROGRAM) : bool :=
  forallb (λ f, block_backends_known (block_statement f)) (Ast.functions p) && block_backends_known (code_block p).

(** * Signatures *)

(** A function of the IR with the signature of the source. *)
Definition signature_of (f : AST_FUNCTION_RULE) (f' : Function_) : Prop :=
  f_name f' = function_name f ∧ f_result f' = scalar (fn_type f) ∧ f_result_composite f' = "" ∧
  map v_type (f_parameters f') = map scalar (parameter_type_list (parameters f)) ∧
  map v_composite (f_parameters f') = map (λ _, "") (parameter_type_list (parameters f)).

Definition implements (ps : list ShortType) (r : ShortType) (fn : Function_) : Prop :=
  f_result fn = scalar r ∧ f_result_composite fn = "" ∧ map v_type (f_parameters fn) = map scalar ps ∧
  map v_composite (f_parameters fn) = map (λ _, "") ps.

Lemma signatures_match fs fs' : Forall2 signature_of fs fs' → ∀ f ps r,
  foldl add_signature ∅ fs !! f = Some (ps, r) → ∃ fn, index f_name fs' !! f = Some fn ∧ implements ps r fn.
Proof.
  intros HF. unfold index, index_from.
  assert (∀ (m : Checker.signatures) (m' : gmap string Function_),
    (∀ f ps r, m !! f = Some (ps, r) → ∃ fn, m' !! f = Some fn ∧ implements ps r fn) →
    ∀ f ps r, foldl add_signature m fs !! f = Some (ps, r) →
    ∃ fn, foldl (λ m x, <[f_name x := x]> m) m' fs' !! f = Some fn ∧ implements ps r fn) as H.
  { induction HF as [|g g' fs fs' (E1 & E2 & E3 & E4 & E5) _ IH]; intros m m' Hm; simpl; [done|].
    apply IH. intros f ps r. unfold add_signature. rewrite E1. destruct (decide (function_name g = f)) as [->|Hne].
    - rewrite !lookup_insert_eq. intros [= <- <-]. exists g'. by repeat split.
    - rewrite !lookup_insert_ne by done. apply Hm. }
  apply H. by intros f ps r ?%lookup_empty_Some.
Qed.

Abbreviation result_types := (fmap (λ r : list ShortType * ShortType, scalar r.2)).

Lemma returns_signatures fs (m : Checker.signatures) :
  foldl (λ m f, <[function_name f := scalar (fn_type f)]> m) (result_types m) fs = result_types (foldl add_signature m fs).
Proof.
  revert m. induction fs as [|f fs IH]; intros m; simpl; [done|]. rewrite <- IH. unfold add_signature. by rewrite fmap_insert.
Qed.

Lemma declarations_signature ranges d b :
  map v_type (declarations ranges d b) = map scalar (parameter_type_list d) ∧
  map v_composite (declarations ranges d b) = map (λ _, "") (parameter_type_list d).
Proof. unfold declarations, parameter_type_list. by rewrite !map_app, !map_map. Qed.

(** * Functions *)

Section Functions.
Context (F : Checker.signatures) (G : Checker.scope) (D : environment) (p : ProgramIR) (ranges : range_table).
Hypothesis globals_match : matches G (globals_of D).
Hypothesis functions_match : ∀ f ps r, F !! f = Some (ps, r) → ∃ fn, functions_of D !! f = Some fn ∧ implements ps r fn.

(** Between functions no scope is open. *)
Abbreviation idle b := (tracks F G [] [] [] b).

(** The rule of a function decides its restrictions. *)
Definition function_exact (f' : Function_) : Prop :=
  forallb (λ x, v_extent x =? 0) (f_parameters f') &&
  match declare_all D ∅ (f_parameters f') with
  | Some l => bool_decide (stmt_ok D p (top_context (f_result f') (f_result_composite f')) [l] (f_body f') ≠ None)
  | None => false
  end = forallb variable_plain (f_parameters f') && stmt_plain (f_body f').

Lemma function_lowers f b :
  Checker.function_ok f = true → block_backends_known (block_statement f) = true →
  Checker.check_function F G f = true → idle b →
  ∃ f' q b', function ranges f b = Done (tt, b') ∧ idle b' ∧ result_ b' = push_function f' q ∧ grown (result_ b) q ∧
    signature_of f f' ∧
    (Forall2 le (sizes q) (sizes p) → function_exact f').
Proof using globals_match functions_match.
  intros Ho Hk Hc Hb. unfold Checker.function_ok in Ho. unfold Checker.check_function in Hc.
  apply andb_true_iff in Ho as [[[_ Hlex]%andb_true_iff _]%andb_true_iff Hss].
  apply andb_true_iff in Hc as [[[[Ht _]%andb_true_iff Harr]%andb_true_iff Hc]%andb_true_iff _].
  apply bool_decide_eq_true in Harr.
  destruct (declare_entries (declared_entries (parameters f)) ∅) as [l|] eqn:Hl; [|done].
  destruct (entries_lower D _ _ _ _ _ (declarations_entries D ranges (parameters f) b Ht) matches_empty Hl) as (H1 & H2 & H3).
  set (params := declarations ranges (parameters f) b) in *.
  destruct (block_statement f) as [n lexical ss] eqn:Hbl. simpl in Hlex, Hss, Hk, Hc. destruct lexical; [done|].
  unfold check_body in Hc. apply andb_true_iff in Hc as [_ Hc]. apply bool_decide_eq_true in Hc.
  match type of Hc with check_statements (_ _ _ ?K) _ _ ≠ _ => set (C := K) in * end.
  destruct (check_statements (Checker.check_statement F G C) [l] ss) as [L'|] eqn:Hss'; [|done].
  set (b1 := set_scopes_ (note_types params ∅ :: scopes_ b) b).
  destruct (body_lowers F G D p ranges [] n false ss C (top_context (scalar (fn_type f)) "") [l] L' [index_from v_name ∅ params] b1)
    as (s' & b2 & S' & Hr & Hb2 & Hg & _ & _ & Hok); [|done|done|done|done| | |].
  { apply Forall_forall. intros s _. by apply all_lower. }
  { split; [|done|done]. intros t [= <-]. done. }
  { destruct Hb as [B1 B2 B3 B4 B5]. split; try done; [by repeat constructor|]. simpl. rewrite B2. simpl. f_equal.
    rewrite <- H1. unfold types. by rewrite fmap_empty. }
  exists {| f_name := function_name f; f_result := scalar (fn_type f); f_parameters := params; f_body := s';
            f_range := range_of ranges (fn_node f) b; f_result_composite := "" |}, (result_ b2).
  eexists. split; [|split; [|split; [|split; [done|split]]]].
  - unfold function. do 3 rewrite (bind_done _ _ _ _ _ eq_refl). fold params. fold b1. rewrite Hbl, (bind_done _ _ _ _ _ Hr).
    reflexivity.
  - destruct Hb2 as [B1 B2 B3 B4 B5]. split; try done. simpl. rewrite B2.
    destruct (check_statements_tail _ _ _ _ _ _ Hss') as [Hlen _]. destruct L' as [|? [|]]; simplify_eq/=; done.
  - done.
  - split; [done|]. split; [done|]. split; [done|]. apply declarations_signature.
  - intros Hq. unfold function_exact. cbn [f_parameters f_result f_result_composite f_body].
    replace (forallb (λ x, v_extent x =? 0) params) with true.
    + rewrite H3. destruct (forallb variable_plain params); [|done]. rewrite (Hok Hq). by destruct (stmt_plain s').
    + unfold params, declarations. rewrite Harr. simpl. rewrite app_nil_r. clear.
      induction (typed_scalars (parameters f)) as [|e es IH]; simpl; [done|exact IH].
Qed.

Lemma functions_lower fs b :
  forallb Checker.function_ok fs = true → forallb (λ f, block_backends_known (block_statement f)) fs = true →
  forallb (Checker.check_function F G) fs = true → idle b →
  ∃ us fs' b', collect (function ranges) fs b = Done (us, b') ∧ idle b' ∧ Forall2 signature_of fs fs' ∧
    sir.functions (result_ b') = (sir.functions (result_ b) ++ fs')%list ∧
    sir.globals (result_ b') = sir.globals (result_ b) ∧ composites (result_ b') = composites (result_ b) ∧
    Forall2 le (sizes (result_ b)) (sizes (result_ b')) ∧
    (Forall2 le (sizes (result_ b')) (sizes p) → Forall function_exact fs').
Proof using globals_match functions_match.
  revert b. induction fs as [|f fs IH]; intros b Ho Hk Hc Hb; simpl in Ho, Hk, Hc.
  - exists [], [], b. rewrite app_nil_r. split; [done|]. split; [done|]. by split_and!.
  - apply andb_true_iff in Ho as [Ho1 Ho2], Hk as [Hk1 Hk2], Hc as [Hc1 Hc2].
    destruct (function_lowers f b Ho1 Hk1 Hc1 Hb) as (f' & q & b1 & Hr & Hb1 & Hq & Hg & Hs & He).
    destruct (IH b1 Ho2 Hk2 Hc2 Hb1) as (us & fs' & b2 & Hr2 & Hb2 & Hs2 & Hf2 & Hg2 & Hc2' & Hz2 & He2).
    rewrite Hq in *. destruct Hg as [G1 G2 G3 G4]. exists (tt :: us), (f' :: fs'), b2.
    split; [by simpl; rewrite (bind_done _ _ _ _ _ Hr), (bind_done _ _ _ _ _ Hr2)|].
    split; [done|]. split; [by constructor|]. split; [|split; [|split; [|split]]].
    + rewrite Hf2. simpl. by rewrite G4, <- app_assoc.
    + rewrite Hg2. exact G3.
    + rewrite Hc2'. exact G2.
    + etrans; [exact G1|exact Hz2].
    + intros Hp. constructor; [|by apply He2]. apply He. etrans; [exact Hz2|done].
Qed.
End Functions.

(** * Programs *)

(** The globals of the program as the builder sees them. *)
Definition global_variables (ranges : range_table) (p : AST_PROGRAM) (file : string) : list Variable_ :=
  declarations ranges (decl_block p) (set_file_ file new_builder).

Section Build.
Context (p : AST_PROGRAM) (ranges : range_table) (file : string) (G : Checker.scope) (D : environment) (q : ProgramIR).
Hypothesis shape_ok : Checker.program_ok p = true.
Hypothesis checked : check_program p = true.
Hypothesis backends_ok : program_backends_known p = true.
Hypothesis globals_declared : declare_entries (declared_entries (decl_block p)) ∅ = Some G.
Hypothesis globals_match : matches G (globals_of D).
Hypothesis functions_match : ∀ f ps r,
  program_signatures p !! f = Some (ps, r) → ∃ fn, functions_of D !! f = Some fn ∧ implements ps r fn.

(** The builder after the signatures of the program. *)
Definition declared_builder : Builder :=
  set_file_ file (set_returns_ (result_types (program_signatures p)) (set_globals_ (types G) new_builder)).

Lemma signatures_lower :
  signatures ranges p new_builder =
  Done (tt, set_returns_ (result_types (program_signatures p)) (set_globals_ (types G) new_builder)).
Proof using D checked globals_declared.
  unfold check_program in checked. apply andb_true_iff in checked as [Ht _].
  destruct (entries_lower D _ _ _ _ _ (declarations_entries D ranges (decl_block p) new_builder Ht) matches_empty globals_declared)
    as (H1 & _ & _).
  unfold types in H1 at 1. rewrite fmap_empty in H1.
  assert (foldl (λ m f, <[function_name f := scalar (fn_type f)]> m) ∅ (Ast.functions p) =
          result_types (program_signatures p)) as H2.
  { etrans; [|apply (returns_signatures (Ast.functions p) ∅)]. by rewrite fmap_empty. }
  unfold signatures. rewrite (bind_done _ _ _ _ _ eq_refl). unfold modify. cbn. by rewrite H1, H2.
Qed.
(** The builder where the functions and the logic block are built. *)
Definition started_builder : Builder :=
  set_result_ (push_globals (global_variables ranges p file) empty_program) declared_builder.

Lemma started_idle : tracks (program_signatures p) G [] [] [] started_builder.
Proof. by split. Qed.

Lemma code_block_lowers b :
  tracks (program_signatures p) G [] [] [] b →
  ∃ s' b', block ranges (code_block p) (push_scope b) = Done (s', b') ∧ error_ b' = "" ∧ grown (result_ b) (result_ b') ∧
    (Forall2 le (sizes (result_ b')) (sizes q) →
     bool_decide (stmt_ok D q (top_context S_Int32 "") [∅] s' ≠ None) = stmt_plain s').
Proof using shape_ok checked backends_ok globals_declared globals_match functions_match.
  intros Hb. unfold Checker.program_ok in shape_ok. rewrite !andb_true_iff in shape_ok.
  destruct shape_ok as [[[[_ _] Hlex] Hss] _]. unfold program_backends_known in backends_ok.
  apply andb_true_iff in backends_ok as [_ Hk]. unfold check_program in checked. rewrite globals_declared in checked.
  rewrite !andb_true_iff in checked. destruct checked as [_ [_ Hc]].
  destruct (code_block p) as [n lexical ss]. simpl in *. destruct lexical; [done|].
  unfold check_body in Hc. apply andb_true_iff in Hc as [_ Hc]. apply bool_decide_eq_true in Hc.
  match type of Hc with check_statements (_ _ _ ?K) _ _ ≠ _ => set (C := K) in * end.
  destruct (check_statements (Checker.check_statement (program_signatures p) G C) [] ss) as [L'|] eqn:Hss'; [|done].
  destruct (body_lowers (program_signatures p) G D q ranges [∅] n false ss C (top_context S_Int32 "") [] L' [∅] (push_scope b))
    as (s' & b' & S' & Hr & Hb' & Hg & _ & _ & Hok); [|done|done|done|done| | |].
  { apply Forall_forall. intros s _. apply all_lower; [by constructor|done|done]. }
  { by split. }
  { destruct Hb as [B1 B2 B3 B4 B5]. split; try done; simpl.
    - constructor; [apply matches_empty|done].
    - rewrite B2. unfold types. by rewrite fmap_empty. }
  exists s', b'. split; [done|]. split; [apply Hb'|]. split; [done|]. intros Hq. rewrite (Hok Hq). by destruct (stmt_plain s').
Qed.

Lemma program_lowers :
  ∃ ir, build ranges [] p file = Done (inr ir) ∧ sir.globals ir = global_variables ranges p file ∧ composites ir = [] ∧
    Forall2 signature_of (Ast.functions p) (sir.functions ir) ∧
    (Forall2 le (sizes ir) (sizes q) → Forall (function_exact D q) (sir.functions ir) ∧
     bool_decide (stmt_ok D q (top_context S_Int32 "") [∅] (body ir) ≠ None) = stmt_plain (body ir)).
Proof using shape_ok checked backends_ok globals_declared globals_match functions_match.
  pose proof shape_ok as Hshape. pose proof checked as Hck. pose proof backends_ok as Hbk.
  unfold Checker.program_ok in Hshape. rewrite !andb_true_iff in Hshape. destruct Hshape as [[[[_ Hfo] _] _] _].
  apply andb_true_iff in Hbk as [Hbk _]. unfold check_program in Hck. rewrite globals_declared, !andb_true_iff in Hck.
  destruct Hck as [_ [[_ Hcf] _]].
  destruct (functions_lower (program_signatures p) G D q ranges globals_match functions_match _ _ Hfo Hbk Hcf started_idle)
    as (us & fs' & b1 & Hr1 & Hb1 & Hs1 & Hf1 & Hg1 & Hc1 & Hz1 & He1).
  destruct (code_block_lowers b1 Hb1) as (s' & b2 & Hr2 & Herr & [G1 G2 G3 G4] & Hok).
  assert (build_functions ranges p declared_builder = Done (tt, b1)) as Hfs.
  { unfold build_functions. do 2 rewrite (bind_done _ _ _ _ _ eq_refl). by rewrite (bind_done _ _ _ _ _ Hr1). }
  eexists. split.
  { unfold build. rewrite (bind_done _ _ new_builder _ _ eq_refl), (bind_done _ _ _ _ _ signatures_lower), (bind_done _ _ _ _ _ eq_refl).
    cbn [id is_empty error_ set_returns_ set_globals_ new_builder]. unfold build_bodies.
    do 2 rewrite (bind_done _ _ _ _ _ eq_refl). fold declared_builder.
    rewrite (bind_done _ _ _ _ _ Hfs), (bind_done _ _ _ _ _ eq_refl), (bind_done _ _ _ _ _ Hr2).
    do 3 rewrite (bind_done _ _ _ _ _ eq_refl). cbn. by rewrite Herr. }
  cbn. rewrite G4, Hf1, G3, Hg1, G2, Hc1. split; [done|]. split; [done|]. split; [done|]. intros Hz.
  assert (Forall2 le (sizes (result_ b2)) (sizes q)) as Hz'.
  { unfold sizes in Hz at 1. cbn in Hz. by rewrite length_map in Hz. }
  split; [|by apply Hok]. apply He1. etrans; [exact G1|done].
Qed.
End Build.

(** ** Declarations *)

(** The function with its signature and no body, enough to type calls. *)
Definition signature_only (ranges : range_table) (f : AST_FUNCTION_RULE) : Function_ :=
  {| f_name := function_name f; f_result := scalar (fn_type f); f_parameters := declarations ranges (parameters f) new_builder;
     f_body := new_statement no_source; f_range := no_source; f_result_composite := "" |}.

Lemma signatures_only ranges fs : Forall2 signature_of fs (map (signature_only ranges) fs).
Proof.
  induction fs as [|f fs IH]; constructor; [|done]. do 3 (split; [done|]). apply declarations_signature.
Qed.

Lemma index_from_None {A} (key : A → string) m (xs : list A) k :
  index_from key m xs !! k = None ↔ m !! k = None ∧ k ∉ map key xs.
Proof.
  unfold index_from. revert m. induction xs as [|x xs IH]; intros m; simpl; [set_solver|].
  rewrite IH, lookup_insert_None, not_elem_of_cons. naive_solver.
Qed.

Lemma named_elem k names : named k names = bool_decide (k ∈ names).
Proof.
  unfold named. apply Bool.eq_iff_eq_true. rewrite existsb_exists, bool_decide_eq_true.
  setoid_rewrite String.eqb_eq. setoid_rewrite <- list_elem_of_In. naive_solver.
Qed.

Lemma declare_entries_nodup es l l' : declare_entries es l = Some l' →
  NoDup (map fst es) ∧ ∀ x, x ∈ map fst es → l !! x = None.
Proof.
  revert l. induction es as [|[x v] es IH]; intros l Hd; simpl in *; [split; [constructor|set_solver]|].
  destruct (l !! x) eqn:Hx; [done|]. destruct (IH _ Hd) as [Hn Hf]. split.
  - constructor; [|done]. intros Hin. specialize (Hf x Hin). by rewrite lookup_insert_eq in Hf.
  - intros y [->|Hy]%elem_of_cons; [done|]. specialize (Hf y Hy). rewrite lookup_insert_None in Hf. naive_solver.
Qed.

Lemma entry_names D es xs : Forall2 (entry_variable D) es xs → map v_name xs = map fst es.
Proof. induction 1 as [|e x es xs (Hn & _) _ IH]; simpl; [done|]. by rewrite IH, Hn. Qed.

Lemma head_lowered ir f f' : signature_of f f' →
  head_ok ir f' = identifier (f_name f') && negb (is_reserved (f_name f')) && negb (named (f_name f') (map v_name (sir.globals ir))).
Proof.
  intros (E1 & E2 & E3 & _). unfold head_ok, result_ok. rewrite E2, E3, scalar_value, named_elem. cbn [globals_of environment_of].
  replace (bool_decide (index v_name (sir.globals ir) !! f_name f' = None))
    with (negb (bool_decide (f_name f' ∈ map v_name (sir.globals ir)))).
  - replace (negb (bool_decide (fn_type f = TVoid)) || _) with true by (by destruct (fn_type f)). by rewrite andb_true_r.
  - rewrite <- bool_decide_not. apply bool_decide_ext. unfold index. rewrite index_from_None, lookup_empty. naive_solver.
Qed.

Lemma globals_lowered D xs es : Forall2 (entry_variable D) es xs →
  forallb (λ x, SemanticIRFacts.variable_ok D x && negb (is_reserved (v_name x))) xs =
  forallb (λ x, variable_plain x && negb (is_reserved (v_name x))) xs.
Proof. induction 1 as [|e x es xs (_ & _ & H) _ IH]; simpl; [done|]. by rewrite H, IH. Qed.

(** The declarations of a program that was built. *)
Lemma declarations_lowered ranges p file G ir :
  declaration_types_ok (decl_block p) = true → declare_entries (declared_entries (decl_block p)) ∅ = Some G →
  NoDup (map function_name (Ast.functions p)) → sir.globals ir = global_variables ranges p file → composites ir = [] →
  Forall2 signature_of (Ast.functions p) (sir.functions ir) →
  declarations_ok ir =
  forallb (λ x, variable_plain x && negb (is_reserved (v_name x))) (sir.globals ir) &&
  forallb (λ f, identifier (f_name f) && negb (is_reserved (f_name f)) && negb (named (f_name f) (map v_name (sir.globals ir))))
    (sir.functions ir) && tables_ok ir.
Proof.
  intros Ht HG Hn Hg Hc Hs.
  pose proof (declarations_entries (environment_of ir) ranges (decl_block p) (set_file_ file new_builder) Ht) as He.
  fold (global_variables ranges p file) in He. rewrite <- Hg in He.
  unfold declarations_ok, tables_ok, global_ok. rewrite Hc. cbn [forallb map].
  rewrite (globals_lowered _ _ _ He).
  rewrite (bool_decide_eq_true_2 (NoDup (map v_name (sir.globals ir))))
    by (rewrite (entry_names _ _ _ He); by apply (declare_entries_nodup _ _ _ HG)).
  replace (map f_name (sir.functions ir)) with (map function_name (Ast.functions p)).
  2:{ clear -Hs. induction Hs as [|f f' fs fs' (E & _) _ IH]; simpl; [done|]. by rewrite IH, E. }
  rewrite (bool_decide_eq_true_2 (NoDup (map function_name _))) by done.
  replace (forallb (head_ok ir) (sir.functions ir)) with
    (forallb (λ f, identifier (f_name f) && negb (is_reserved (f_name f)) && negb (named (f_name f) (map v_name (sir.globals ir))))
      (sir.functions ir)).
  - rewrite !andb_true_r, <- !andb_assoc. done.
  - clear -Hs. induction Hs as [|f f' fs fs' Hf _ IH]; simpl; [done|]. by rewrite (head_lowered ir f f' Hf), IH.
Qed.

(** A checked program builds, and its IR is well typed exactly when it is
    supported. *)
Lemma checked_programs_build ranges p file :
  Checker.program_ok p = true → check_program p = true → program_backends_known p = true →
  ∃ ir, build ranges [] p file = Done (inr ir) ∧ program_ok ir = supported ir.
Proof.
  intros Ho Hc Hk. pose proof Hc as Hc'. unfold check_program in Hc'. apply andb_true_iff in Hc' as [Ht Hc'].
  destruct (declare_entries (declared_entries (decl_block p)) ∅) as [G|] eqn:HG; [|done].
  apply andb_true_iff in Hc' as [[Hn _]%andb_true_iff _]. apply bool_decide_eq_true in Hn.
  assert (∀ D : environment, matches G (index v_name (global_variables ranges p file))) as HM.
  { intros D. by apply (entries_lower D _ _ _ _ _ (declarations_entries D ranges (decl_block p) _ Ht) matches_empty HG). }
  set (D0 := {| globals_of := index v_name (global_variables ranges p file); composites_of := ∅; tensors_of := [];
                functions_of := index f_name (map (signature_only ranges) (Ast.functions p)) |}).
  destruct (program_lowers p ranges file G D0 empty_program Ho Hc Hk HG) as (ir & Hb & Hg & Hco & Hs & _);
    [exact (HM D0)|apply signatures_match, signatures_only|].
  destruct (program_lowers p ranges file G (environment_of ir) ir Ho Hc Hk HG) as (ir' & Hb' & _ & _ & _ & Hok).
  { simpl. rewrite Hg. exact (HM D0). }
  { by apply signatures_match. }
  rewrite Hb in Hb'. injection Hb' as <-. exists ir. split; [done|]. destruct Hok as [Hf Hbody]; [reflexivity|].
  unfold program_ok, supported. rewrite (declarations_lowered ranges p file G ir) by done. rewrite Hbody.
  f_equal. f_equal. clear -Hf. induction Hf as [|f fs Hf _ IH]; simpl; [done|]. rewrite IH. f_equal. exact Hf.
Qed.

(** * The theorem *)

(** C21.  The front end and the semantic IR fit together.  Take a program that
    semantic analysis accepts, whose tree has the shape the grammar builds
    ([program_ok]), in which no local or parameter reuses the name of a global
    ([locals_apart]) and whose model declarations name only known backends
    ([program_backends_known]), alone, without library units.  It is built
    without undefined behaviour and without an unresolved name, and the verifier
    returns, and accepts the IR exactly when the IR meets the restrictions of
    [supported] (identifiers that are not reserved, arrays of at most 65536
    elements, finite numbers, strings without a zero byte, numeric input, distinct
    labels, well-formed AI tables) and the limits on work and depth
    ([within_limits]).  So no type, scope, call, return, loop or jump of such a
    program is a reason to refuse it. *)
Theorem accepted_programs_lower t p ranges file :
  accepted t p = true → Checker.program_ok p = true → locals_apart p = true → program_backends_known p = true →
  ∃ ir error, build ranges [] p file = Done (inr ir) ∧
    verifySemanticIR ir = Done (supported ir && within_limits ir, error) ∧
    (error = "" ↔ supported ir && within_limits ir = true).
Proof.
  intros Ha Ho Hl Hk. destruct (checked_programs_build ranges p file Ho (accepted_checks _ _ Ha Ho Hl) Hk) as (ir & Hb & Hok).
  exists ir. pose proof (run_exact ir) as Hrun. rewrite Hok in Hrun. unfold verifySemanticIR, accepts in *.
  destruct (run ir new_verifier) as [[b v]| |]; [|done|done]. destruct Hrun as [-> H]. by exists (error v).
Qed.

(** [int n; bool b; function twice(k) { return k * 2; } n = twice(3); print n; read b;] *)
Definition twice : AST_FUNCTION_RULE :=
  {| fn_node := 10; function_name := "twice"; fn_type := TInt;
     parameters := setType TInt (push_back_scalar "k" (empty_decl_block 11));
     block_statement := Block 12 false
       [AST_RETURN_STATEMENT 13 (Some (AST_BINARY_EXPRESSION_RULE 14 (AST_SIMPLE_VARIABLE 15 "k") (AST_LITERAL 16 2) MULTIPLY))] |}.

Definition small_program (last : list AST_STATEMENT_RULE) : AST_PROGRAM :=
  {| prog_node := 20;
     decl_block := push_back_block (setType TBoolean (push_back_scalar "b" (empty_decl_block 22)))
                     (setType TInt (push_back_scalar "n" (empty_decl_block 21)));
     Ast.functions := [twice];
     code_block := Block 23 false
       ([AST_ASSIGNMENT_RULE 24 (V_SIMPLE 25 "n") (AST_FUNCTION_CALL_EXPRESSION 26 "twice" [AST_LITERAL 27 3]);
         AST_PRINT_RULE 28 [PrintExpression (AST_SIMPLE_VARIABLE 29 "n")]] ++ last)%list |}.

Lemma accepted_programs_lower_witness :
  accepted ∅ (small_program []) = true ∧ Checker.program_ok (small_program []) = true ∧
  locals_apart (small_program []) = true ∧ program_backends_known (small_program []) = true ∧
  ∃ ir error, build ∅ [] (small_program []) "main.sh" = Done (inr ir) ∧
    verifySemanticIR ir = Done (supported ir && within_limits ir, error) ∧
    (error = "" ↔ supported ir && within_limits ir = true).
Proof.
  do 4 (split; [vm_compute; reflexivity|]).
  apply (accepted_programs_lower ∅ (small_program []) ∅ "main.sh"); vm_compute; reflexivity.
Defined.

(** The verdict of the verifier on the IR of a program. *)
Definition verdict (p : AST_PROGRAM) : outcome (bool * string) :=
  match build ∅ [] p "main.sh" with
  | Done (inr ir) => verifySemanticIR ir
  | Done (inl e) => Done (false, e)
  | Undefined r => Undefined r
  | OutOfFuel => OutOfFuel
  end.

Example small_program_lowers : verdict (small_program []) = Done (true, "").
Proof. vm_compute. reflexivity. Qed.

(** Semantic analysis accepts input into a boolean; the verifier refuses it. *)
Example boolean_input_is_refused :
  accepted ∅ (small_program [AST_READ_RULE 30 [V_SIMPLE 31 "b"]]) = true ∧
  verdict (small_program [AST_READ_RULE 30 [V_SIMPLE 31 "b"]]) = Done (false, "unsupported read target").
Proof. vm_compute. done. Qed.
