(* ===== verification/OnnxEnvelopeFacts.v ===== *)
(** The envelope check decides a grammar: it accepts exactly the encodings of
    protobuf messages whose fields are in the closed set, it never reads outside
    the snapshot, and it always ends. *)
From Stdlib Require Import Strings.Byte.
From S2P Require Import Prelude CxxInt OnnxEnvelope.
Open Scope Z_scope.

(** * The grammar *)

(** The value of a field by wire type. *)
Inductive wire :=
| WVarint (v : Z)
| WFixed64 (bs : list byte)
| WFixed32 (bs : list byte)
| WData (bs : list byte)
| WMessage (fs : list (Z * wire)).

(** Seven bits per byte, least significant first; all bytes but the last have
    their high bit. *)
Fixpoint varint_value (bs : list byte) : Z :=
  match bs with [] => 0 | c :: rest => byte_value c mod 128 + 128 * varint_value rest end.

Fixpoint continued (bs : list byte) : bool :=
  match bs with
  | [] => false
  | c :: rest => if 128 <=? byte_value c then continued rest else bool_decide (rest = [])
  end.

Definition varint (bs : list byte) (v : Z) : Prop :=
  continued bs = true ∧ (length bs ≤ 10)%nat ∧ varint_value bs = v ∧ v < 2 ^ 64.

Definition wire_type (w : wire) : Z :=
  match w with WVarint _ => 0 | WFixed64 _ => 1 | WFixed32 _ => 5 | WData _ | WMessage _ => 2 end.

(** The bytes of a sequence of fields. *)
Inductive encodes : list (Z * wire) → list byte → Prop :=
| encodes_nil : encodes [] []
| encodes_cons n w fs key bs rest :
    varint key (8 * n + wire_type w) → payload w bs → encodes fs rest →
    encodes ((n, w) :: fs) (key ++ bs ++ rest)
with payload : wire → list byte → Prop :=
| payload_varint v bs : varint bs v → payload (WVarint v) bs
| payload_fixed64 bs : length bs = 8%nat → payload (WFixed64 bs) bs
| payload_fixed32 bs : length bs = 4%nat → payload (WFixed32 bs) bs
| payload_data size bs : varint size (Z.of_nat (length bs)) → payload (WData bs) (size ++ bs)
| payload_message size fs bs :
    varint size (Z.of_nat (length bs)) → encodes fs bs → payload (WMessage fs) (size ++ bs).

(** The counters after a sequence of fields. *)
Definition tally_field (kind : Kind) (n : counts) (field : Z) : counts :=
  let n := count_nested kind field n in
  let n := if is_ir kind field then count_ir n else n in
  if is_version kind field then count_version n else n.

Definition tally (kind : Kind) (n : counts) (fs : list (Z * wire)) : counts :=
  foldl (λ n f, tally_field kind n f.1) n fs.

(** The closed set: which fields a message may hold and with which values. *)
Fixpoint field_ok (kind : Kind) (depth : Z) (field : Z) (w : wire) : bool :=
  (0 <? field) && (field <=? 536870911) && allowed kind field &&
  match nested kind field, w with
  | Some k, WMessage fs =>
      (depth + 1 <=? 64) && forallb (λ f, field_ok k (depth + 1) f.1 f.2) fs && complete k (tally k no_counts fs)
  | Some _, _ => false
  | None, WMessage _ => false
  | None, WVarint v =>
      negb (is_domain kind field) && (negb (is_ir kind field) || ((8 <=? v) && (v <=? 10))) &&
      (negb (is_version kind field) || (v =? 13)) && (negb (is_location kind field) || (v =? 0))
  | None, WData bs =>
      negb (is_ir kind field || is_version kind field || is_location kind field) &&
      (negb (is_domain kind field) || bool_decide (bs = []))
  | None, (WFixed64 _ | WFixed32 _) =>
      negb (is_domain kind field || is_ir kind field || is_version kind field || is_location kind field)
  end.

Definition fields_ok (kind : Kind) (depth : Z) (fs : list (Z * wire)) : bool :=
  forallb (λ f, field_ok kind depth f.1 f.2) fs.

(** The number of fields, nested ones included. *)
Fixpoint wire_fields (w : wire) : Z :=
  match w with WMessage fs => foldr (λ f n, 1 + wire_fields f.2 + n) 0 fs | _ => 0 end.
Definition total_fields (fs : list (Z * wire)) : Z := foldr (λ f n, 1 + wire_fields f.2 + n) 0 fs.

(** * Bytes and windows *)

Lemma byte_value_range c : 0 ≤ byte_value c < 256.
Proof. unfold byte_value. pose proof (Byte.to_N_bounded c). lia. Qed.

Lemma byte_low c : Z.land (byte_value c) 127 = byte_value c mod 128.
Proof. change 127 with (Z.ones 7). by rewrite Z.land_ones. Qed.

Lemma byte_high c : (Z.land (byte_value c) 128 =? 0) = negb (128 <=? byte_value c).
Proof. by destruct c. Qed.

Lemma varint_value_nonneg bs : 0 ≤ varint_value bs.
Proof. induction bs as [|c bs IH]; simpl; [done|]. pose proof (Z.mod_pos_bound (byte_value c) 128). lia. Qed.

(** The code is prefix free. *)
Lemma continued_prefix bs1 bs2 r1 r2 :
  continued bs1 = true → continued bs2 = true → bs1 ++ r1 = bs2 ++ r2 → bs1 = bs2 ∧ r1 = r2.
Proof.
  revert bs2. induction bs1 as [|c bs1 IH]; intros [|d bs2] H1 H2 E; try done. simpl in *.
  injection E as -> E.
  destruct (128 <=? byte_value d).
  - by destruct (IH _ H1 H2 E) as [-> ->].
  - apply bool_decide_eq_true in H1 as ->, H2 as ->. done.
Qed.

Lemma varint_prefix k1 k2 v1 v2 r1 r2 :
  varint k1 v1 → varint k2 v2 → k1 ++ r1 = k2 ++ r2 → k1 = k2 ∧ v1 = v2 ∧ r1 = r2.
Proof. intros (C1 & _ & V1 & _) (C2 & _ & V2 & _) E. destruct (continued_prefix _ _ _ _ C1 C2 E) as [-> ->]. split_and!; congruence. Qed.

Lemma varint_nonempty k v : varint k v → k ≠ [].
Proof. intros (C & _) ->. done. Qed.

Section Windows.
Context (bytes : list byte).

(** The bytes from the position of [e] to [end_]. *)
Definition window (e : Envelope) (end_ : Z) : list byte := take (Z.to_nat (end_ - pos e)) (drop (Z.to_nat (pos e)) bytes).

Definition inside (e : Envelope) (end_ : Z) : Prop :=
  0 ≤ pos e ≤ end_ ∧ end_ ≤ Z.of_nat (length bytes) ∧ Z.of_nat (length bytes) < 2 ^ 64.

Definition advance (k : list byte) (e : Envelope) : Envelope :=
  {| pos := pos e + Z.of_nat (length k); fields := fields e |}.

Lemma advance_cons c k e : advance (c :: k) e = advance k (advance [c] e).
Proof. unfold advance. cbn [pos fields]. f_equal. simpl length. lia. Qed.

Lemma window_length e end_ : inside e end_ → Z.of_nat (length (window e end_)) = end_ - pos e.
Proof. intros (? & ? & _). unfold window. rewrite length_take, length_drop. lia. Qed.

Lemma window_app e end_ k r : inside e end_ → window e end_ = k ++ r →
  inside (advance k e) end_ ∧ window (advance k e) end_ = r ∧
  inside e (pos e + Z.of_nat (length k)) ∧ window e (pos e + Z.of_nat (length k)) = k.
Proof.
  intros Hi Hw. pose proof (window_length e end_ Hi) as Hl. rewrite Hw, length_app in Hl. destruct Hi as (H1 & H2 & H3).
  unfold window in *. simpl. split; [split; simpl; lia|]. split; [|split; [split; lia|]].
  - replace (Z.to_nat (pos e + Z.of_nat (length k))) with (Z.to_nat (pos e) + length k)%nat by lia.
    replace (Z.to_nat (end_ - (pos e + Z.of_nat (length k)))) with (Z.to_nat (end_ - pos e) - length k)%nat by lia.
    rewrite <- drop_drop, <- skipn_firstn_comm, Hw. by rewrite drop_app_length.
  - replace (Z.to_nat (pos e + Z.of_nat (length k) - pos e)) with (length k) by lia.
    replace (length k) with (length k `min` Z.to_nat (end_ - pos e))%nat by lia.
    rewrite <- take_take, Hw. by rewrite take_app_length.
Qed.

Lemma window_nil e end_ : inside e end_ → (window e end_ = [] ↔ pos e = end_).
Proof.
  intros Hi. pose proof (window_length e end_ Hi) as Hl. split.
  - intros Hw. rewrite Hw in Hl. simpl in Hl. lia.
  - intros He. rewrite He, Z.sub_diag in Hl. destruct (window e end_); [done|simpl in Hl; lia].
Qed.

Lemma window_cons e end_ c r : inside e end_ → window e end_ = c :: r → bytes !! Z.to_nat (pos e) = Some c ∧ pos e < end_.
Proof.
  intros Hi Hw. pose proof (window_length e end_ Hi) as Hl. rewrite Hw in Hl. simpl in Hl. split; [|lia].
  assert (window e end_ !! 0%nat = Some c) as H by (by rewrite Hw). unfold window in H.
  rewrite lookup_take_lt, lookup_drop in H by lia. by rewrite Nat.add_0_r in H.
Qed.
(** ** Reading integers *)

Lemma lor_add value c shift : 0 ≤ shift → 0 ≤ value < 2 ^ shift → 0 ≤ c →
  Z.lor value (Z.shiftl c shift) = value + 2 ^ shift * c.
Proof.
  intros Hs Hv Hc. rewrite Z.shiftl_mul_pow2 by done. rewrite <- Z.add_nocarry_lor.
  - lia.
  - apply Z.bits_inj_0. intros i. rewrite Z.land_spec. destruct (decide (i < shift)) as [Hi|Hi].
    + rewrite (Z.mul_pow2_bits_low c shift i) by lia. apply andb_false_r.
    + destruct (decide (value = 0)) as [->|Hne]; [by rewrite Z.bits_0|].
      rewrite (Z.bits_above_log2 value i); [done|lia|]. apply Z.log2_lt_pow2; [lia|].
      apply Z.lt_le_trans with (2 ^ shift); [lia|]. apply Z.pow_le_mono_r; lia.
Qed.

(** What reading an integer gives: the first continued sequence of bytes, or a
    failure when there is none of at most [n] bytes and 64 bits. *)
Definition reads (n : nat) (shift value : Z) (end_ : Z) (e : Envelope) (r : outcome (option (Z * Envelope))) : Prop :=
  (∃ k rest, window e end_ = k ++ rest ∧ continued k = true ∧ (length k ≤ n)%nat ∧
     value + 2 ^ shift * varint_value k < 2 ^ 64 ∧ r = Done (Some (value + 2 ^ shift * varint_value k, advance k e))) ∨
  (r = Done None ∧ ∀ k rest, window e end_ = k ++ rest → continued k = true → (length k ≤ n)%nat →
     2 ^ 64 ≤ value + 2 ^ shift * varint_value k).

Lemma integer_loop_exact n end_ : ∀ e shift value,
  inside e end_ → (n ≤ 10)%nat → shift = 70 - 7 * Z.of_nat n → 0 ≤ value < 2 ^ shift →
  reads n shift value end_ e (integer_loop bytes n end_ shift value e).
Proof.
  induction n as [|n IH]; intros e shift value Hi Hn Hs Hv.
  { right. split; [done|]. intros [|c k] rest Hw Hc Hl; [done|simpl in Hl; lia]. }
  destruct (window e end_) as [|c w] eqn:Hw.
  { apply (window_nil _ _ Hi) in Hw as Hp. right. split.
    - simpl. unfold mbind, EM_bind, position, refuse. by rewrite (proj2 (Z.leb_le end_ (pos e))) by lia.
    - intros [|d k] rest Hk Hc; [done|]. by rewrite Hw in Hk. }
  destruct (window_cons _ _ _ _ Hi Hw) as [Hc Hlt].
  destruct (window_app e end_ [c] w Hi Hw) as (Hi' & Hw' & _).
  pose proof (byte_value_range c) as Hb.
  assert (integer_loop bytes (S n) end_ shift value e =
    if (shift =? 63) && (1 <? byte_value c) then Done None
    else if negb (128 <=? byte_value c)
         then Done (Some (value + 2 ^ shift * (byte_value c mod 128), advance [c] e))
         else integer_loop bytes n end_ (shift + 7) (value + 2 ^ shift * (byte_value c mod 128)) (advance [c] e)) as ->.
  { simpl integer_loop. unfold mbind, EM_bind, position, refuse, next_byte. rewrite (proj2 (Z.leb_gt end_ (pos e))) by lia.
    simpl. rewrite Hc. destruct ((shift =? 63) && (1 <? byte_value c)); [done|]. simpl.
    rewrite byte_high, byte_low, lor_add by (try lia; apply Z.mod_pos_bound; lia).
    by destruct (128 <=? byte_value c). }
  assert (0 ≤ byte_value c mod 128 < 128) as Hm by (by apply Z.mod_pos_bound).
  assert (0 < 2 ^ shift) as Hp by (apply Z.pow_pos_nonneg; lia).
  destruct ((shift =? 63) && (1 <? byte_value c)) eqn:Hlast.
  { apply andb_true_iff in Hlast as [H63%Z.eqb_eq H1%Z.ltb_lt]. right. split; [done|].
    intros [|d k] rest Hk Hco Hl; [done|]. rewrite Hw in Hk. injection Hk as <- Hk. simpl in Hl, Hco |- *.
    destruct k; [|simpl in Hl; lia]. simpl in *. destruct (128 <=? byte_value c) eqn:H128; [done|].
    apply Z.leb_gt in H128. rewrite Z.mod_small by lia. rewrite H63 in *.
    change (2 ^ 64) with 18446744073709551616. change (2 ^ 63) with 9223372036854775808 in *. lia. }
  assert (128 <= byte_value c ∨ value + 2 ^ shift * (byte_value c mod 128) < 2 ^ 64) as Hfit.
  { destruct (decide (128 ≤ byte_value c)); [by left|right]. rewrite Z.mod_small by lia.
    destruct (decide (n = 0%nat)) as [->|Hn0].
    - apply andb_false_iff in Hlast as [Hlast|Hlast%Z.ltb_ge]; [by apply Z.eqb_neq in Hlast; lia|].
      replace shift with 63 in * by lia. change (2 ^ 64) with 18446744073709551616.
      change (2 ^ 63) with 9223372036854775808 in *. lia.
    - assert (2 ^ shift ≤ 2 ^ 56) by (apply Z.pow_le_mono_r; lia).
      change (2 ^ 64) with (256 * 2 ^ 56). nia. }
  destruct (128 <=? byte_value c) eqn:H128; simpl.
  - apply Z.leb_le in H128. assert (n ≠ 0%nat) as Hn0.
    { intros ->. apply andb_false_iff in Hlast as [Hlast%Z.eqb_neq|Hlast%Z.ltb_ge]; lia. }
    assert (2 ^ (shift + 7) = 2 ^ shift * 128) as Hpow by (rewrite Z.pow_add_r by lia; done).
    destruct (IH (advance [c] e) (shift + 7) (value + 2 ^ shift * (byte_value c mod 128)) Hi') as [(k & rest & Hk & Hco & Hl & Hv' & Hr)|[Hr Hno]];
      [lia|lia|rewrite Hpow; nia| |].
    + left. exists (c :: k), rest. rewrite Hk in Hw'. subst w. cbn [varint_value continued length app]. rewrite (proj2 (Z.leb_le _ _)) by lia.
      replace (value + 2 ^ shift * (byte_value c mod 128 + 128 * varint_value k))
        with (value + 2 ^ shift * (byte_value c mod 128) + 2 ^ (shift + 7) * varint_value k) by (rewrite Hpow; ring).
      split_and!; [done|done|lia|done|]. by rewrite Hr, (advance_cons c k).
    + right. split; [done|]. intros [|d k] rest Hk Hco Hl; [done|]. rewrite Hw in Hk. injection Hk as <- Hk.
      simpl in Hco, Hl. rewrite (proj2 (Z.leb_le _ _)) in Hco by lia.
      specialize (Hno k rest). rewrite Hw' in Hno. specialize (Hno Hk Hco). rewrite Hpow in Hno. cbn [varint_value].
      etrans; [apply Hno; lia|]. lia.
  - left. exists [c], w. simpl. rewrite H128. apply Z.leb_gt in H128. destruct Hfit as [|Hfit]; [lia|].
    rewrite Z.add_0_r. split_and!; [done|done|lia|done|done].
Qed.

Lemma integer_exact end_ e : inside e end_ →
  (∃ k rest v, window e end_ = k ++ rest ∧ varint k v ∧ integer bytes end_ e = Done (Some (v, advance k e))) ∨
  (integer bytes end_ e = Done None ∧ ∀ k rest v, window e end_ = k ++ rest → ¬ varint k v).
Proof.
  intros Hi. unfold integer. destruct (integer_loop_exact 10 end_ e 0 0 Hi) as [(k & rest & Hw & Hc & Hl & Hv & Hr)|[Hr Hno]]; [lia..| |].
  - left. exists k, rest, (varint_value k). rewrite Hr. change (2 ^ 0) with 1 in *. rewrite Z.mul_1_l, Z.add_0_l in *. by repeat split.
  - right. split; [done|]. intros k rest v Hw (Hc & Hl & Hv & Hlt). specialize (Hno k rest Hw Hc Hl). change (2 ^ 0) with 1 in Hno. lia.
Qed.

(** Completeness of reading: the integer that is there. *)
Lemma integer_read end_ e k rest v : inside e end_ → window e end_ = k ++ rest → varint k v →
  integer bytes end_ e = Done (Some (v, advance k e)).
Proof.
  intros Hi Hw Hk. destruct (integer_exact end_ e Hi) as [(k' & rest' & v' & Hw' & Hk' & Hr)|[_ Hno]].
  - rewrite Hw in Hw'. by destruct (varint_prefix _ _ _ _ _ _ Hk Hk' Hw') as (-> & -> & _).
  - by destruct (Hno k rest v).
Qed.
(** * Soundness

    [ewp m Q e]: [m] returns from [e], and unless it throws, [Q] holds. *)
Definition ewp {A} (m : EM A) (Q : A → Envelope → Prop) (e : Envelope) : Prop :=
  match m e with
  | Done (Some (a, e')) => Q a e'
  | Done None => True
  | _ => False
  end.

Lemma ewp_bind {A B} (m : EM A) (k : A → EM B) Q e : ewp m (λ a, ewp (k a) Q) e → ewp (m ≫= k) Q e.
Proof. unfold ewp, mbind, EM_bind. by destruct (m e) as [[[a e']|]| |]. Qed.

Lemma ewp_mono {A} (m : EM A) (Q R : A → Envelope → Prop) e : ewp m Q e → (∀ a e', Q a e' → R a e') → ewp m R e.
Proof. unfold ewp. destruct (m e) as [[[a e']|]| |]; auto. Qed.

Lemma ewp_refuse (b : bool) (Q : unit → Envelope → Prop) e : (b = false → Q tt e) → ewp (refuse b) Q e.
Proof. destruct b; [done|]. intros H. by apply H. Qed.

Lemma ewp_position (Q : Z → Envelope → Prop) e : Q (pos e) e → ewp position Q e.
Proof. done. Qed.

Lemma ewp_integer end_ (Q : Z → Envelope → Prop) e : inside e end_ →
  (∀ k rest v, window e end_ = k ++ rest → varint k v → Q v (advance k e)) → ewp (integer bytes end_) Q e.
Proof.
  intros Hi HQ. unfold ewp. destruct (integer_exact end_ e Hi) as [(k & rest & v & Hw & Hk & ->)|[-> _]]; [eauto|done].
Qed.

Ltac estep := apply ewp_bind; first [apply ewp_refuse; intros ? | idtac].

Lemma scalar_sound kind field end_ n e : inside e end_ →
  ewp (scalar_field bytes kind field end_ n) (λ n' e', ∃ k rest v,
    window e end_ = k ++ rest ∧ varint k v ∧ e' = advance k e ∧
    (negb (is_ir kind field) || ((8 <=? v) && (v <=? 10))) && (negb (is_version kind field) || (v =? 13)) &&
      (negb (is_location kind field) || (v =? 0)) = true ∧
    (is_ir kind field = true → irs n' = 1) ∧ (is_version kind field = true → versions n' = 1) ∧
    n' = (if is_version kind field then count_version (if is_ir kind field then count_ir n else n)
          else if is_ir kind field then count_ir n else n)) e.
Proof.
  intros Hi. unfold scalar_field. estep. apply ewp_integer; [done|]. intros k rest v Hw Hk.
  estep. estep. estep. simpl. exists k, rest, v. split; [done|]. split; [done|]. split; [done|].
  destruct kind; simpl in *; try destruct (field =? _); simpl in *;
    repeat match goal with
    | H : _ || _ = false |- _ => apply orb_false_iff in H as [? ?]
    | H : negb _ = false |- _ => apply negb_false_iff in H
    end; rewrite ?Z.ltb_ge, ?Z.eqb_eq in *; rewrite ?andb_true_r; split_and!; try done;
    rewrite ?andb_true_iff, ?Z.leb_le, ?Z.eqb_eq; lia.
Qed.

Lemma inside_u64 e end_ : inside e end_ → u64 (end_ - pos e) = end_ - pos e.
Proof. intros (? & ? & ?). apply Z.mod_small. lia. Qed.

Lemma window_split e end_ size : inside e end_ → 0 ≤ size ≤ end_ - pos e →
  ∃ bs rest, window e end_ = bs ++ rest ∧ Z.of_nat (length bs) = size.
Proof.
  intros Hi Hs. exists (take (Z.to_nat size) (window e end_)), (drop (Z.to_nat size) (window e end_)).
  pose proof (window_length e end_ Hi). rewrite take_drop, length_take. split; [done|lia].
Qed.

Lemma fixed_sound size end_ n e : inside e end_ → 0 ≤ size →
  ewp (fixed_field size end_ n) (λ n' e', n' = n ∧ ∃ bs rest,
    window e end_ = bs ++ rest ∧ Z.of_nat (length bs) = size ∧ e' = advance bs e) e.
Proof.
  intros Hi Hs. unfold fixed_field. estep. simpl. estep. rewrite inside_u64 in * by done.
  match goal with H : (_ <? _) = false |- _ => apply Z.ltb_ge in H end. simpl. split; [done|].
  destruct (window_split e end_ size Hi) as (bs & rest & Hw & Hl); [lia|].
  exists bs, rest. split; [done|]. split; [done|]. unfold advance. by rewrite Hl.
Qed.

(** What a walk of a nested message has checked. *)
Definition walked (kind : Kind) (depth end_ : Z) (n : counts) (e e' : Envelope) : Prop :=
  ∃ fs, encodes fs (window e end_) ∧ fields_ok kind depth fs = true ∧ complete kind (tally kind n fs) = true ∧
    e' = {| pos := end_; fields := fields e + total_fields fs |} ∧ fields e' ≤ 1000000.

Section Field.
Context (W : Kind → Z → EM unit) (depth : Z) (size : nat).
Hypothesis nested_sound : ∀ k limit e, inside e limit → (length (window e limit) < size)%nat → fields e ≤ 1000000 →
  ewp (W k limit) (λ _ e', depth + 1 ≤ 64 ∧ walked k (depth + 1) limit no_counts e e') e.

Lemma data_sound kind field end_ n e : inside e end_ → (length (window e end_) ≤ size)%nat → fields e ≤ 1000000 →
  allowed kind field = true → 0 < field ≤ 536870911 → is_ir kind field || is_version kind field || is_location kind field = false →
  ewp (data_field bytes W kind field end_ n) (λ n' e', n' = n ∧ ∃ w bs rest,
    wire_type w = 2 ∧ window e end_ = bs ++ rest ∧ payload w bs ∧ field_ok kind depth field w = true ∧
    e' = {| pos := pos e + Z.of_nat (length bs); fields := fields e + wire_fields w |} ∧ fields e' ≤ 1000000) e.
Proof using nested_sound.
  intros Hi Hlen Hf Hall Hfield Hscalar. unfold data_field. estep. apply ewp_integer; [done|]. intros k rest v Hw Hk.
  destruct (window_app e end_ k rest Hi Hw) as (Hi1 & Hw1 & _).
  estep. simpl. estep. change (pos e + Z.of_nat (length k)) with (pos (advance k e)) in *.
  match goal with H : (_ <? _) = false |- _ => rewrite inside_u64 in H by done; apply Z.ltb_ge in H as Hsize end.
  estep. rename select (is_domain _ _ && _ = false) into Hdom.
  assert (0 ≤ v) as Hv0 by (destruct Hk as (_ & _ & <- & _); apply varint_value_nonneg).
  destruct (window_split _ end_ v Hi1) as (bs & rest' & Hbs & Hl); [lia|].
  destruct (window_app _ end_ bs rest' Hi1 Hbs) as (Hi2 & Hw2 & Hi3 & Hw3). rewrite Hl in *.
  assert (varint k (Z.of_nat (length bs))) as Hk' by (by rewrite Hl).
  assert (window e end_ = (k ++ bs) ++ rest') as Hsplit by (rewrite Hw, <- Hw1, Hbs, app_assoc; done).
  assert (Z.of_nat (length (k ++ bs)) = Z.of_nat (length k) + v) as Hlkb by (rewrite length_app; lia).
  destruct (nested kind field) as [k'|] eqn:Hn.
  - estep. eapply ewp_mono.
    { apply (nested_sound k' _ _ Hi3); [|done]. rewrite Hw3. rewrite Hsplit, !length_app in Hlen.
      pose proof (varint_nonempty _ _ Hk). destruct k; [done|simpl in Hlen; lia]. }
    intros [] e' [Hd (fs & Hen & Hok & Hcomp & -> & Hle)]. estep. simpl. estep. simpl. split; [done|].
    exists (WMessage fs), (k ++ bs), rest'. rewrite Hw3 in Hen. split; [done|]. split; [done|]. split; [by constructor|].
    split; [|split; [|done]].
    + simpl. rewrite Hall, Hn. unfold fields_ok in Hok. rewrite Hok, Hcomp.
      rewrite (proj2 (Z.ltb_lt 0 field)), (proj2 (Z.leb_le field _)), (proj2 (Z.leb_le (depth + 1) 64)) by lia. done.
    + f_equal. rewrite Hlkb. simpl. lia.
  - estep. simpl. estep. simpl. estep. simpl. split; [done|]. exists (WData bs), (k ++ bs), rest'.
    split; [done|]. split; [done|]. split; [by constructor|]. split; [|split].
    + simpl. rewrite Hall, Hn, Hscalar. rewrite (proj2 (Z.ltb_lt 0 field)), (proj2 (Z.leb_le field _)) by lia. simpl.
      destruct (is_domain kind field); [|done]. simpl in *. apply negb_false_iff, Z.eqb_eq in Hdom.
      apply bool_decide_eq_true_2. destruct bs; [done|simpl in Hl; lia].
    + f_equal; simpl; lia.
    + done.
Qed.
Lemma key_parts v : v = 8 * Z.shiftr v 3 + Z.land v 7.
Proof.
  rewrite Z.shiftr_div_pow2 by done. change 7 with (Z.ones 3). rewrite Z.land_ones by done.
  change (2 ^ 3) with 8. apply Z.div_mod. done.
Qed.

Lemma field_sound kind end_ n e : inside e end_ → (length (window e end_) ≤ size)%nat →
  ewp (walk_field bytes W kind end_ n) (λ n' e', ∃ num w key bs rest,
    window e end_ = key ++ bs ++ rest ∧ varint key (8 * num + wire_type w) ∧ payload w bs ∧
    field_ok kind depth num w = true ∧ n' = tally_field kind n num ∧
    e' = {| pos := pos e + Z.of_nat (length (key ++ bs)); fields := fields e + 1 + wire_fields w |} ∧
    fields e' ≤ 1000000) e.
Proof using nested_sound.
  intros Hi Hlen. unfold walk_field. estep. simpl. set (e0 := {| pos := pos e; fields := fields e + 1 |}).
  estep. rename select (_ = false) into Hcount. apply Z.ltb_ge in Hcount.
  estep. apply ewp_integer; [exact Hi|]. intros key rest v Hw Hkey. assert (window e end_ = key ++ rest) as Hwe by exact Hw.
  destruct (window_app e0 end_ key rest Hi Hw) as (Hi1 & Hw1 & _).
  assert (length (window (advance key e0) end_) ≤ size)%nat as Hlen1.
  { rewrite Hw1. rewrite Hwe, length_app in Hlen. lia. }
  pose proof (key_parts v) as Hv. set (num := Z.shiftr v 3) in *. set (wt := Z.land v 7) in *.
  estep. rename select (_ = false) into Hnum. apply orb_false_iff in Hnum as [Hn0%Z.eqb_neq Hn1%Z.ltb_ge].
  assert (0 < num) as Hpos.
  { assert (0 ≤ num); [|lia]. apply Z.shiftr_nonneg. destruct Hkey as (_ & _ & <- & _). apply varint_value_nonneg. }
  estep. rename select (_ = false) into Hall. apply negb_false_iff in Hall.
  estep. rename select (_ = false) into Hmsg. estep. rename select (_ = false) into Hsc.
  assert (∀ w bs n' e', wire_type w = wt → rest = bs ++ drop (length bs) rest → payload w bs → field_ok kind depth num w = true →
    n' = tally_field kind n num →
    e' = {| pos := pos (advance key e0) + Z.of_nat (length bs); fields := fields e0 + wire_fields w |} → fields e' ≤ 1000000 →
    ∃ num w key bs rest, window e end_ = key ++ bs ++ rest ∧ varint key (8 * num + wire_type w) ∧ payload w bs ∧
      field_ok kind depth num w = true ∧ n' = tally_field kind n num ∧
      e' = {| pos := pos e + Z.of_nat (length (key ++ bs)); fields := fields e + 1 + wire_fields w |} ∧ fields e' ≤ 1000000) as Hend.
  { intros w bs n' e' Hwt Hrest Hp Hok -> -> Hle. exists num, w, key, bs, (drop (length bs) rest).
    rewrite <- Hrest, Hwt, <- Hv. split; [done|]. split; [done|]. split; [done|]. split; [done|]. split; [done|].
    split; [|done]. f_equal; simpl; rewrite ?length_app; lia. }
  assert (∀ bs r, window (advance key e0) end_ = bs ++ r → rest = bs ++ drop (length bs) rest) as Hdrop.
  { intros bs r Hbs. rewrite Hw1 in Hbs. by rewrite Hbs, drop_app_length. }
  assert (wt ≠ 0 → is_ir kind num || is_version kind num || is_location kind num = false) as Hns.
  { intros Hne. apply Z.eqb_neq in Hne. rewrite Hne in Hsc. by rewrite andb_true_r in Hsc. }
  assert (wt ≠ 2 → nested kind num = None ∧ is_domain kind num = false) as Hnd.
  { intros Hne. apply Z.eqb_neq in Hne. rewrite Hne, andb_true_r in Hmsg. apply orb_false_iff in Hmsg as [Hmsg ?].
    split; [|done]. by destruct (nested kind num). }
  assert ((0 <? num) && (num <=? 536870911) && allowed kind num = true) as Hbase.
  { rewrite Hall, (proj2 (Z.ltb_lt 0 num)), (proj2 (Z.leb_le num _)) by lia. done. }
  assert (is_ir kind num || is_version kind num || is_location kind num = false →
    count_nested kind num n = tally_field kind n num) as Htally.
  { unfold tally_field. intros [[-> ->]%orb_false_iff _]%orb_false_iff. done. }
  destruct (wt =? 0) eqn:E0; [|destruct (wt =? 1) eqn:E1; [|destruct (wt =? 5) eqn:E5; [|destruct (wt =? 2) eqn:E2; [|done]]]];
    repeat match goal with H : (wt =? _) = true |- _ => apply Z.eqb_eq in H | H : (wt =? _) = false |- _ => apply Z.eqb_neq in H end.
  - eapply ewp_mono; [by apply scalar_sound|]. intros n' e' (k & r & x & Hk & Hx & -> & Hok & _ & _ & ->).
    destruct (Hnd ltac:(lia)) as [Hn Hd].
    apply (Hend (WVarint x) k); [done|by eapply Hdrop|exact (payload_varint x k Hx)| |done|unfold advance, e0; cbn [pos fields wire_fields]; f_equal; lia|done].
    simpl. rewrite Hbase, Hn, Hd. exact Hok.
  - eapply ewp_mono; [by apply fixed_sound|]. intros n' e' [-> (bs & r & Hbs & Hl & ->)].
    destruct (Hnd ltac:(lia)) as [Hn Hd]. specialize (Hns ltac:(lia)).
    apply (Hend (WFixed64 bs) bs); [done|by eapply Hdrop|constructor; lia| |by apply Htally|unfold advance, e0; cbn [pos fields wire_fields]; f_equal; lia|done].
    simpl. rewrite Hbase, Hn, Hd. simpl. by rewrite Hns.
  - eapply ewp_mono; [by apply fixed_sound|]. intros n' e' [-> (bs & r & Hbs & Hl & ->)].
    destruct (Hnd ltac:(lia)) as [Hn Hd]. specialize (Hns ltac:(lia)).
    apply (Hend (WFixed32 bs) bs); [done|by eapply Hdrop|constructor; lia| |by apply Htally|unfold advance, e0; cbn [pos fields wire_fields]; f_equal; lia|done].
    simpl. rewrite Hbase, Hn, Hd. simpl. by rewrite Hns.
  - specialize (Hns ltac:(lia)). eapply ewp_mono; [by apply data_sound|].
    intros n' e' [-> (w & bs & r & Hw2 & Hbs & Hp & Hok & -> & Hle)].
    apply (Hend w bs); [lia|by eapply Hdrop|done|done|by apply Htally|done|done].
Qed.
End Field.
(** The loop ends with the encoding of fields in the closed set. *)
Lemma loop_sound fuel : ∀ kind end_ depth n e,
  inside e end_ → (length (window e end_) < fuel)%nat → fields e ≤ 1000000 →
  ewp (walk_loop bytes fuel kind end_ depth n) (λ _ e', walked kind depth end_ n e e') e.
Proof.
  induction fuel as [|fuel IH]; intros kind end_ depth n e Hi Hlen Hf; [lia|]. cbn [walk_loop]. apply ewp_bind, ewp_position.
  destruct (pos e <? end_) eqn:Hp.
  - estep. eapply ewp_mono.
    { apply (field_sound _ depth fuel); [|done|lia]. intros k limit e1 Hi1 Hl1 Hf1. estep.
      eapply ewp_mono; [by apply IH|]. intros [] e2 Hw. split; [|done].
      rename select (_ = false) into Hd. apply Z.ltb_ge in Hd. lia. }
    intros n' e1 (num & w & key & bs & rest & Hw & Hk & Hb & Hok & -> & -> & Hle).
    rewrite app_assoc in Hw. destruct (window_app e end_ (key ++ bs) rest Hi Hw) as (Hi1 & Hw1 & _).
    set (e1 := {| pos := pos e + Z.of_nat (length (key ++ bs)); fields := fields e + 1 + wire_fields w |}) in *.
    change (inside e1 end_) in Hi1. change (window e1 end_ = rest) in Hw1.
    eapply ewp_mono.
    { apply IH; [done| |done]. rewrite Hw1. rewrite Hw, !length_app in Hlen.
      pose proof (varint_nonempty _ _ Hk). destruct key; [done|]. simpl in Hlen. lia. }
    intros [] e2 (fs & Hen & Hfs & Hc & -> & Hle2). exists ((num, w) :: fs). rewrite Hw, <- app_assoc.
    split; [constructor; [done|done|by rewrite <- Hw1]|]. split; [unfold fields_ok in *; simpl; by rewrite Hok|].
    split; [done|]. split; [|done]. f_equal. unfold total_fields. simpl. lia.
  - apply Z.ltb_ge in Hp. apply ewp_refuse. intros Hc%negb_false_iff.
    assert (pos e = end_) as He by (destruct Hi; lia). exists [].
    rewrite (proj2 (window_nil e end_ Hi) He). split; [constructor|]. split; [done|]. split; [done|].
    split; [|done]. unfold total_fields. simpl. rewrite Z.add_0_r, <- He. by destruct e.
Qed.

(** * Completeness *)

(** A run that returns its value. *)
Lemma run_refuse (b : bool) (e : Envelope) {A} (k : EM A) : b = false → (refuse b ;; k) e = k e.
Proof. by intros ->. Qed.

Lemma run_position {A} (k : Z → EM A) e : (position ≫= k) e = k (pos e) e.
Proof. done. Qed.

Lemma run_count {A} (k : Z → EM A) e : (count_field ≫= k) e = k (fields e + 1) {| pos := pos e; fields := fields e + 1 |}.
Proof. done. Qed.

Lemma run_integer {A} end_ e k rest v (f : Z → EM A) : inside e end_ → window e end_ = k ++ rest → varint k v →
  (integer bytes end_ ≫= f) e = f v (advance k e).
Proof. intros Hi Hw Hk. unfold mbind, EM_bind. by rewrite (integer_read _ _ _ _ _ Hi Hw Hk). Qed.

(** The counters never pass one in a message that is complete. *)
Definition few (kind : Kind) (n : counts) : bool :=
  match kind with Model => irs n <=? 1 | Opset => versions n <=? 1 | _ => true end.

Lemma tally_field_grows kind n field :
  irs n ≤ irs (tally_field kind n field) ∧ versions n ≤ versions (tally_field kind n field).
Proof. unfold tally_field. destruct kind; simpl; try destruct (field =? _); simpl; try destruct (field =? 1); simpl; lia. Qed.

Lemma tally_grows kind fs : ∀ n, irs n ≤ irs (tally kind n fs) ∧ versions n ≤ versions (tally kind n fs).
Proof.
  unfold tally. induction fs as [|f fs IH]; intros n; simpl; [lia|].
  destruct (IH (tally_field kind n f.1)), (tally_field_grows kind n f.1). lia.
Qed.

Lemma complete_few kind n fs : complete kind (tally kind n fs) = true → few kind n = true.
Proof.
  destruct (tally_grows kind fs n). destruct kind; simpl; try done; rewrite ?andb_true_iff, ?Z.eqb_eq, ?Z.leb_le; lia.
Qed.
Lemma wire_type_range w : 0 ≤ wire_type w < 8.
Proof. destruct w; simpl; lia. Qed.

Lemma key_split num w : Z.shiftr (8 * num + wire_type w) 3 = num ∧ Z.land (8 * num + wire_type w) 7 = wire_type w.
Proof.
  pose proof (wire_type_range w) as Hw. rewrite Z.shiftr_div_pow2 by done. change 7 with (Z.ones 3).
  rewrite Z.land_ones by done. change (2 ^ 3) with 8. rewrite Z.mul_comm.
  rewrite Z.div_add_l, Z.div_small by lia. split; [lia|].
  rewrite Z.add_comm, Z.mod_add by lia. by apply Z.mod_small.
Qed.

Lemma nested_not_domain kind field k : nested kind field = Some k → is_domain kind field = false.
Proof.
  destruct kind; simpl; try done. destruct (field =? 5) eqn:E; [|done]. apply Z.eqb_eq in E as ->. done.
Qed.

Lemma window_fits e end_ bs rest : inside e end_ → window e end_ = bs ++ rest →
  (u64 (end_ - pos e) <? Z.of_nat (length bs)) = false.
Proof.
  intros Hi Hw. rewrite inside_u64 by done. apply Z.ltb_ge. rewrite <- (window_length _ _ Hi), Hw, length_app. lia.
Qed.

Section FieldComplete.
Context (W : Kind → Z → EM unit) (depth : Z) (size : nat).
Hypothesis nested_complete : ∀ k limit e fs, inside e limit → (length (window e limit) < size)%nat →
  encodes fs (window e limit) → depth + 1 ≤ 64 → fields_ok k (depth + 1) fs = true →
  complete k (tally k no_counts fs) = true → fields e + total_fields fs ≤ 1000000 →
  W k limit e = Done (Some (tt, {| pos := limit; fields := fields e + total_fields fs |})).

Lemma scalar_complete kind field end_ n e k rest v :
  inside e end_ → window e end_ = k ++ rest → varint k v →
  (negb (is_ir kind field) || ((8 <=? v) && (v <=? 10))) && (negb (is_version kind field) || (v =? 13)) &&
    (negb (is_location kind field) || (v =? 0)) = true →
  (is_ir kind field = true → irs n = 0) → (is_version kind field = true → versions n = 0) →
  scalar_field bytes kind field end_ n e =
  Done (Some (if is_version kind field then count_version (if is_ir kind field then count_ir n else n)
              else if is_ir kind field then count_ir n else n, advance k e)).
Proof.
  intros Hi Hw Hk Hok Hir Hve. unfold scalar_field. rewrite (run_integer _ _ _ _ _ _ Hi Hw Hk). rewrite !run_refuse.
  - done.
  - destruct (is_location kind field); [|done]. simpl in *. rewrite andb_true_iff in Hok. destruct Hok as [_ ->]. done.
  - destruct (is_version kind field) eqn:E; [|done]. simpl in *. rewrite !andb_true_iff in Hok. destruct Hok as [[_ ->] _].
    destruct kind; try done. simpl. by rewrite (Hve eq_refl).
  - destruct (is_ir kind field) eqn:E; [|done]. simpl in *. rewrite !andb_true_iff, !Z.leb_le in Hok.
    rewrite (Hir eq_refl). simpl. rewrite orb_false_iff, !Z.ltb_ge. lia.
Qed.

Lemma fixed_complete bs end_ n e rest : inside e end_ → window e end_ = bs ++ rest →
  fixed_field (Z.of_nat (length bs)) end_ n e = Done (Some (n, advance bs e)).
Proof.
  intros Hi Hw. unfold fixed_field. rewrite run_position, run_refuse by (by eapply window_fits). done.
Qed.

Lemma data_complete kind field end_ n e w bs rest :
  inside e end_ → (length (window e end_) ≤ size)%nat → window e end_ = bs ++ rest → payload w bs → wire_type w = 2 →
  field_ok kind depth field w = true → fields e + wire_fields w ≤ 1000000 →
  data_field bytes W kind field end_ n e =
  Done (Some (n, {| pos := pos e + Z.of_nat (length bs); fields := fields e + wire_fields w |})).
Proof using nested_complete.
  intros Hi Hlen Hw Hp Ht Hok Hf. unfold data_field.
  assert (∃ k body, bs = k ++ body ∧ varint k (Z.of_nat (length body)) ∧
    ((w = WData body) ∨ ∃ fs, w = WMessage fs ∧ encodes fs body)) as (k & body & -> & Hk & Hwb).
  { destruct Hp; try done; eauto 10. }
  rewrite <- app_assoc in Hw. rewrite (run_integer _ _ _ _ _ _ Hi Hw Hk).
  destruct (window_app _ _ _ _ Hi Hw) as (Hi1 & Hw1 & _).
  destruct (window_app _ _ _ _ Hi1 Hw1) as (Hi2 & Hw2 & Hi3 & Hw3).
  rewrite run_position, run_refuse by (by eapply window_fits).
  assert (pos (advance k e) + Z.of_nat (length body) = pos e + Z.of_nat (length (k ++ body))) as Hpos
    by (simpl; rewrite length_app; lia).
  destruct Hwb as [->|(fs & -> & Hen)].
  - simpl in Hok. rewrite !andb_true_iff in Hok. destruct Hok as [_ Hok]. destruct (nested kind field) eqn:Hn; [done|].
    apply andb_true_iff in Hok as [_ Hd]. rewrite run_refuse.
    + unfold mbind at 1, EM_bind at 1. cbn [seek]. rewrite run_position. cbn [pos]. rewrite run_refuse by (by rewrite Z.eqb_refl).
      rewrite Hpos. simpl. by rewrite Z.add_0_r.
    + destruct (is_domain kind field); [|done]. simpl in *. apply bool_decide_eq_true in Hd as ->. done.
  - simpl in Hok. rewrite !andb_true_iff in Hok. destruct Hok as [_ Hok].
    destruct (nested kind field) as [k'|] eqn:Hn; [|by destruct (is_domain _ _)].
    rewrite !andb_true_iff in Hok. destruct Hok as [[Hd%Z.leb_le Hfs] Hc].
    rewrite run_refuse by (by rewrite (nested_not_domain _ _ _ Hn)).
    unfold mbind at 1, EM_bind at 1. rewrite <- Hw3 in Hen.
    rewrite (nested_complete k' _ _ fs Hi3); [|rewrite Hw3|done|done|done|done|done].
    + rewrite run_position. cbn [pos]. rewrite run_refuse by (by rewrite Z.eqb_refl). by rewrite Hpos.
    + rewrite Hw, !length_app in Hlen. pose proof (varint_nonempty _ _ Hk). destruct k; [done|simpl in Hlen; lia].
Qed.
Lemma message_kinds kind field w : field_ok kind depth field w = true →
  (bool_decide (is_Some (nested kind field)) || is_domain kind field) && negb (wire_type w =? 2) = false ∧
  (is_ir kind field || is_version kind field || is_location kind field) && negb (wire_type w =? 0) = false.
Proof.
  intros Hok. destruct w; simpl in Hok |- *; rewrite !andb_true_iff in Hok; destruct Hok as [_ Hok];
    destruct (nested kind field) as [k|] eqn:Hn; try done; simpl;
    rewrite ?andb_false_r, ?andb_true_r; try done.
  - rewrite !andb_true_iff, negb_true_iff in Hok. naive_solver.
  - apply negb_true_iff in Hok. rewrite !orb_false_iff in *. naive_solver.
  - apply negb_true_iff in Hok. rewrite !orb_false_iff in *. naive_solver.
  - apply andb_true_iff in Hok as [Hok _]. by apply negb_true_iff in Hok.
  - split; [done|]. destruct kind; simpl in Hn |- *; try done; destruct (field =? 1) eqn:E; try done.
    apply Z.eqb_eq in E as ->. done.
Qed.

Lemma field_base kind field w : field_ok kind depth field w = true →
  (field =? 0) || (536870911 <? field) = false ∧ allowed kind field = true.
Proof.
  intros Hok. destruct w; simpl in Hok; rewrite !andb_true_iff in Hok; destruct Hok as [[[H1%Z.ltb_lt H2%Z.leb_le] H3] _];
    (split; [|done]); rewrite orb_false_iff, Z.eqb_neq, Z.ltb_ge; lia.
Qed.

Lemma field_complete kind end_ n e num w key bs rest :
  inside e end_ → (length (window e end_) ≤ size)%nat → window e end_ = key ++ bs ++ rest →
  varint key (8 * num + wire_type w) → payload w bs → field_ok kind depth num w = true →
  few kind (tally_field kind n num) = true → 0 ≤ irs n → 0 ≤ versions n → fields e + 1 + wire_fields w ≤ 1000000 →
  0 ≤ wire_fields w →
  walk_field bytes W kind end_ n e =
  Done (Some (tally_field kind n num,
    {| pos := pos e + Z.of_nat (length (key ++ bs)); fields := fields e + 1 + wire_fields w |})).
Proof using nested_complete.
  intros Hi Hlen Hw Hkey Hp Hok Hfew Hn1 Hn2 Hf Hwf. unfold walk_field.
  rewrite run_count. set (e0 := {| pos := pos e; fields := fields e + 1 |}).
  assert (window e0 end_ = key ++ bs ++ rest) as Hw0 by exact Hw.
  rewrite run_refuse by (apply Z.ltb_ge; lia). rewrite (run_integer _ e0 _ _ _ _ Hi Hw0 Hkey). cbn zeta.
  destruct (key_split num w) as [-> ->]. destruct (field_base _ _ _ Hok) as [Hb Hall]. rewrite run_refuse by done.
  rewrite run_refuse by (by rewrite Hall). destruct (message_kinds _ _ _ Hok) as [Hm1 Hm2]. rewrite !run_refuse by done.
  destruct (window_app e0 _ _ _ Hi Hw0) as (Hi1 & Hw1 & _).
  assert (length (window (advance key e0) end_) ≤ size)%nat as Hlen1.
  { rewrite Hw1. rewrite Hw, length_app in Hlen. lia. }
  assert (∀ e', e' = {| pos := pos (advance key e0) + Z.of_nat (length bs); fields := fields e + 1 + wire_fields w |} →
    e' = {| pos := pos e + Z.of_nat (length (key ++ bs)); fields := fields e + 1 + wire_fields w |}) as He.
  { intros e' ->. f_equal. simpl. rewrite length_app. lia. }
  assert (wire_type w ≠ 0 → count_nested kind num n = tally_field kind n num) as Htally.
  { intros Hne%Z.eqb_neq. rewrite Hne, andb_true_r in Hm2. unfold tally_field.
    apply orb_false_iff in Hm2 as [[-> ->]%orb_false_iff _]. done. }
  destruct Hp as [v bs Hv|bs Hl|bs Hl|k bs Hk|k fs bs Hk Hen]; cbn [wire_type Z.eqb Pos.eqb] in *.
  - rewrite (scalar_complete kind num end_ _ _ bs rest v Hi1 Hw1 Hv).
    + rewrite (He (advance bs (advance key e0))); [done|]. unfold advance. cbn [pos fields wire_fields]. f_equal. simpl. lia.
    + simpl in Hok. destruct (nested kind num); [by rewrite andb_false_r in Hok|]. rewrite !andb_true_iff in *. tauto.
    + intros Hir. unfold tally_field in Hfew. destruct kind; try done. simpl in *. rewrite Hir in Hfew. simpl in *.
      destruct (num =? 7), (num =? 8); simpl in *; apply Z.leb_le in Hfew; lia.
    + intros Hve. unfold tally_field in Hfew. destruct kind; try done. simpl in *. rewrite Hve in Hfew. simpl in *.
      apply Z.leb_le in Hfew. lia.
  - replace 8 with (Z.of_nat (length bs)) by (by rewrite Hl). rewrite (fixed_complete bs end_ _ _ rest Hi1 Hw1), Htally by done.
    rewrite (He (advance bs (advance key e0))); [done|]. unfold advance. cbn [pos fields wire_fields]. f_equal. simpl. lia.
  - replace 4 with (Z.of_nat (length bs)) by (by rewrite Hl). rewrite (fixed_complete bs end_ _ _ rest Hi1 Hw1), Htally by done.
    rewrite (He (advance bs (advance key e0))); [done|]. unfold advance. cbn [pos fields wire_fields]. f_equal. simpl. lia.
  - rewrite (data_complete kind num end_ _ _ (WData bs) (k ++ bs) rest Hi1 Hlen1 Hw1), Htally; try done.
    + do 3 f_equal. by apply He.
    + by constructor.
  - rewrite (data_complete kind num end_ _ _ (WMessage fs) (k ++ bs) rest Hi1 Hlen1 Hw1), Htally; try done.
    + do 3 f_equal. by apply He.
    + by constructor.
Qed.
End FieldComplete.

Lemma wire_fields_nonneg w : 0 ≤ wire_fields w.
Proof.
  revert w. fix IH 1. intros [v|bs|bs|bs|fs]; simpl; try lia.
  induction fs as [|[num w] fs IHfs]; simpl; [lia|]. pose proof (IH w). lia.
Qed.

Lemma total_fields_nonneg fs : 0 ≤ total_fields fs.
Proof. apply (wire_fields_nonneg (WMessage fs)). Qed.

Lemma loop_complete fuel : ∀ kind end_ depth n e fs,
  inside e end_ → (length (window e end_) < fuel)%nat → encodes fs (window e end_) → fields_ok kind depth fs = true →
  complete kind (tally kind n fs) = true → 0 ≤ irs n → 0 ≤ versions n → fields e + total_fields fs ≤ 1000000 →
  walk_loop bytes fuel kind end_ depth n e = Done (Some (tt, {| pos := end_; fields := fields e + total_fields fs |})).
Proof.
  induction fuel as [|fuel IH]; intros kind end_ depth n e fs Hi Hlen Hen Hok Hc Hn1 Hn2 Hf; [lia|].
  cbn [walk_loop]. rewrite run_position. inversion Hen as [Hfs Hw|num w fs' key bs rest Hk Hp Hen' Hfs Hw]; subst fs.
  - symmetry in Hw. apply (window_nil _ _ Hi) in Hw as He. rewrite (proj2 (Z.ltb_ge _ _)) by lia.
    simpl in Hc. unfold tally in Hc. simpl in Hc. rewrite Hc. cbn. unfold mret, EM_ret. do 3 f_equal. destruct e. simpl in *. f_equal; lia.
  - symmetry in Hw. unfold fields_ok in Hok. simpl in Hok. apply andb_true_iff in Hok as [Hok1 Hok2].
    pose proof (varint_nonempty _ _ Hk) as Hne.
    assert (pos e < end_) as Hlt.
    { pose proof (window_length _ _ Hi) as Hl. rewrite Hw in Hl. destruct key; [done|]. simpl in Hl. lia. }
    rewrite (proj2 (Z.ltb_lt _ _)) by done. unfold total_fields in Hf. simpl in Hf. fold (total_fields fs') in Hf.
    pose proof (total_fields_nonneg fs'). pose proof (wire_fields_nonneg w). unfold tally in Hc. simpl in Hc.
    fold (tally kind (tally_field kind n num) fs') in Hc.
    unfold mbind, EM_bind at 1.
    rewrite (field_complete _ depth fuel) with (num := num) (w := w) (key := key) (bs := bs) (rest := rest); try done; try lia.
    + rewrite app_assoc in Hw. destruct (window_app _ _ _ _ Hi Hw) as (Hi1 & Hw1 & _).
      set (e1 := {| pos := pos e + Z.of_nat (length (key ++ bs)); fields := fields e + 1 + wire_fields w |}).
      change (inside e1 end_) in Hi1. change (window e1 end_ = rest) in Hw1.
      destruct (tally_field_grows kind n num).
      rewrite (IH kind end_ depth _ e1 fs' Hi1); try done; try lia; rewrite ?Hw1; try done.
      * do 3 f_equal. unfold e1. cbn [fields]. change (total_fields ((num, w) :: fs')) with (1 + wire_fields w + total_fields fs'). f_equal. lia.
      * rewrite Hw, !length_app in Hlen. destruct key; [done|]. simpl in Hlen. lia.
      * unfold e1. cbn [fields]. lia.
    + intros k limit e1 fs1 Hi1 Hl1 Hen1 Hd Hok' Hc' Hf'. rewrite run_refuse by (apply Z.ltb_ge; lia). by apply IH.
    + by eapply complete_few.
Qed.
End Windows.

Lemma validate_exact bytes :
  Z.of_nat (length bytes) < 2 ^ 64 →
  ∃ ok, validate bytes = Done ok ∧
    (ok = true ↔ ∃ fs, encodes fs bytes ∧ fields_ok Model 0 fs = true ∧ complete Model (tally Model no_counts fs) = true ∧
                       total_fields fs ≤ 1000000).
Proof.
  intros Hlen. set (e := {| pos := 0; fields := 0 |}). set (end_ := Z.of_nat (length bytes)).
  assert (inside bytes e end_) as Hi by (unfold inside, e, end_; simpl; lia).
  assert (window bytes e end_ = bytes) as Hw.
  { unfold window, e, end_. simpl. rewrite Z.sub_0_r, Nat2Z.id, drop_0. apply firstn_all. }
  pose proof (loop_sound bytes (S (length bytes)) Model end_ 0 no_counts e Hi) as Hs.
  rewrite Hw in Hs. specialize (Hs ltac:(lia) ltac:(done)). unfold validate, walk. rewrite run_refuse by done. fold e end_.
  unfold ewp in Hs. destruct (walk_loop bytes (S (length bytes)) Model end_ 0 no_counts e) as [[[[] e']|]| |] eqn:Hr; try done.
  - exists true. split; [done|]. split; [|done]. intros _. destruct Hs as (fs & Hen & Hok & Hc & -> & Hle). rewrite Hw in Hen.
    exists fs. split_and!; [done|done|done|]. simpl in Hle. lia.
  - exists false. split; [done|]. split; [done|]. intros (fs & Hen & Hok & Hc & Hf).
    rewrite (loop_complete bytes _ Model end_ 0 no_counts e fs) in Hr; rewrite ?Hw; try done. lia.
Qed.

(** * The theorem *)

(** C24.  The envelope check is exact and safe: on every snapshot it returns,
    without reading outside the bytes, and it accepts exactly the byte strings
    that encode a protobuf message in the closed set, at most 64 messages deep
    and of at most 1000000 fields: one IR version from 8 to 10, one graph, one
    import of operator set 13 of the standard domain, and no tensor anywhere
    whose data lies outside the message. *)
Theorem envelope_exact bytes :
  Z.of_nat (length bytes) < 2 ^ 64 →
  ∃ ok, validate bytes = Done ok ∧
    (ok = true ↔ ∃ fs, encodes fs bytes ∧ fields_ok Model 0 fs = true ∧ complete Model (tally Model no_counts fs) = true ∧
                       total_fields fs ≤ 1000000).
Proof. apply validate_exact. Qed.

Lemma envelope_exact_witness :
  Z.of_nat (length [x08; x08; x3a; x00; x42; x02; x10; x0d]%byte) < 2 ^ 64 ∧
  ∃ ok, validate [x08; x08; x3a; x00; x42; x02; x10; x0d]%byte = Done ok ∧
    (ok = true ↔ ∃ fs, encodes fs [x08; x08; x3a; x00; x42; x02; x10; x0d]%byte ∧ fields_ok Model 0 fs = true ∧
                       complete Model (tally Model no_counts fs) = true ∧ total_fields fs ≤ 1000000).
Proof.
  split; [vm_compute; reflexivity|]. apply (envelope_exact [x08; x08; x3a; x00; x42; x02; x10; x0d]%byte). vm_compute. reflexivity.
Defined.
