(* ===== verification/ImmutableModel.v ===== *)
(** Component: the thread-safe facade of the native runtime library
    (runtime/RuntimeThreadSafeFacade.cpp, ImmutableModelInternal.h): the
    immutable model slot with its generation handles, and the entry points that
    run under the one mutex.

    A call holds the mutex from its first access to the shared state to its last,
    so a schedule of several threads is a sequence of calls, each made by some
    thread.  The caller's floats lie in one block of memory and are passed by
    address, so that input and output may overlap; null is address 0. *)
From Stdlib Require Import SpecFloat Init.Byte.
From S2P Require Import Prelude CxxInt CxxString CxxFloat Sha256 AiTypes JsonText HardwareRouting AiBackends AiRuntime NativeRuntime OnnxEnvelope.
Open Scope string_scope.
Open Scope Z_scope.

(** * The caller's memory *)

Record Memory := { mem_base : Z; mem_cells : list spec_float }.

(** The index of the cell at an address. *)
Definition cell_index (m : Memory) (address : Z) : option nat :=
  let offset := address - mem_base m in
  if (0 <=? offset) && (offset mod 4 =? 0) && (offset / 4 <=? Z.of_nat (length (mem_cells m)))
  then Some (Z.to_nat (offset / 4)) else None.

(** What can be read from an address on. *)
Definition cells_at (m : Memory) (address : Z) : list spec_float :=
  match cell_index m address with Some i => drop i (mem_cells m) | None => [] end.

(** [std::memcpy] to an address; [None] outside the block. *)
Definition write_cells (m : Memory) (address : Z) (values : list spec_float) : option Memory :=
  match cell_index m address with
  | Some i =>
      if (i + length values <=? length (mem_cells m))%nat
      then Some {| mem_base := mem_base m;
                   mem_cells := take i (mem_cells m) ++ values ++ drop (i + length values) (mem_cells m) |}%list
      else None
  | None => None
  end.

(** * Contracts *)

(** The loop of [immutableShape]. *)
Fixpoint shape_count (dims : list Z) (count : Z) : option Z :=
  match dims with
  | [] => Some count
  | dim :: dims =>
      if (dim <=? 0) || (65536 / count <? u64 dim) then None else shape_count dims (u64 (count * u64 dim))
  end.

Definition immutableShape (spec : TensorSpec) : bool :=
  if negb (bool_decide (element_type spec = Float32)) || dynamic spec || bool_decide (shape spec = []) ||
     (8 <? Z.of_nat (length (shape spec))) then false
  else match shape_count (shape spec) 1 with
       | Some count => count =? element_count spec
       | None => false
       end.

Definition immutableRange (pointer count : Z) : bool :=
  negb (pointer =? 0) && (pointer mod 4 =? 0) && negb (count =? 0) && (count <=? 65536) &&
  (count * 4 <=? UINT64_MAX - pointer).

Definition immutableFailure (status : InferenceStatus) (why : string) : InferenceResult := with_status status why no_inference.

Definition lower_hex (c : ascii) : bool := existsb (Ascii.eqb c) (list_ascii_of_string "0123456789abcdef").

Definition with_path (path : string) (m : ModelSpec) : ModelSpec := {|
  ms_name := ms_name m; ms_path := path; ms_format := ms_format m; ms_task := ms_task m; ms_precision := ms_precision m;
  ms_input := ms_input m; ms_output := ms_output m; ms_backend_preference := ms_backend_preference m;
  ms_compact := ms_compact m; ms_allow_fallback := ms_allow_fallback m; ms_quality_metric := ms_quality_metric m;
  ms_quality_op := ms_quality_op m; ms_quality_threshold := ms_quality_threshold m |}.

Record Handle := { handle_generation : Z }.
Definition no_handle : Handle := {| handle_generation := 0 |}.
#[export] Instance Handle_eq_dec : EqDecision Handle.
Proof. solve_decision. Defined.

Record Binding := { bound_handle : Handle; bound_error : string }.

Section Immutable.
Context `{Platform} `{OrtApi} (immutable_enabled : bool).

(** * The slot *)

Record ImmutableSlot := {
  sl_configuration : InferenceConfiguration;
  sl_model : ModelSpec;
  sl_runtime : AIRuntime;
  sl_session : PreparedInference;
  sl_scratch : list spec_float;
  sl_digest : string;
  sl_generation : Z;
}.

Record Immutable := { immutable_slot : option ImmutableSlot; immutable_generation : Z }.
Definition no_immutable : Immutable := {| immutable_slot := None; immutable_generation := 0 |}.

Definition set_slot (slot : option ImmutableSlot) (s : Immutable) : Immutable :=
  {| immutable_slot := slot; immutable_generation := immutable_generation s |}.

Definition IM : Type → Type := SM Immutable.

Definition refused_binding (why : string) : Binding := {| bound_handle := no_handle; bound_error := why |}.

Definition immutable_contract (model : ModelSpec) : bool :=
  bool_decide (ms_format model = Onnx) && bool_decide (ms_precision model = "float32") && negb (ms_allow_fallback model) &&
  bool_decide (ms_backend_preference model = [OnnxRuntimeCPU]) &&
  immutableShape (ms_input model) && immutableShape (ms_output model).

(** [crypto::sha256] of the snapshot *)
Definition snapshot_digest (snapshot : list byte) : string := sha256 (map byte_value snapshot).

Definition immutable_configuration (snapshot : list byte) : InferenceConfiguration :=
  {| threads := threads default_configuration; maximum_tensor_elements := 65536; model_bytes := snapshot |}.

Definition immutable_path (digest : string) : string := "immutable-sha256:" +:+ digest.

(** The body of [bind] once the bytes are copied. *)
Definition bind_snapshot (w : World) (model : ModelSpec) (snapshot : list byte) (digest : string) : IM Binding := λ s,
  let refused why := Done (refused_binding why, s) in
  if negb (bool_decide (snapshot_digest snapshot = digest)) then refused "immutable_sha256_mismatch"
  else match validate snapshot with
  | Undefined e => Undefined e
  | OutOfFuel => OutOfFuel
  | Done false => refused "unsupported_immutable_onnx_envelope"
  | Done true =>
      let owned := with_path (immutable_path digest) model in
      match prepare w owned (immutable_configuration snapshot) (new_runtime w) with
      | (inl error, _) => refused error
      | (inr session, runtime) =>
          let g := immutable_generation s + 1 in
          Done ({| bound_handle := {| handle_generation := g |}; bound_error := "" |},
                {| immutable_slot := Some {|
                     sl_configuration := immutable_configuration snapshot; sl_model := owned; sl_runtime := runtime;
                     sl_session := session;
                     sl_scratch := repeat (S754_zero false) (Z.to_nat (element_count (ms_output model)));
                     sl_digest := digest; sl_generation := g |};
                   immutable_generation := g |})
      end
  end.

(** [bytes] is what can be read behind the pointer, [None] for null. *)
Definition bind (w : World) (model : ModelSpec) (bytes : option (list byte)) (size : Z) (digest : string) : IM Binding := λ s,
  let refused why := Done (refused_binding why, s) in
  if negb immutable_enabled then refused "immutable_onnxruntime_unavailable"
  else match bytes with
  | None => refused "invalid_immutable_snapshot_or_digest"
  | Some readable =>
      if (size =? 0) || (16 * 1024 * 1024 <? size) || negb (Nat.eqb (String.length digest) 64) ||
         negb (forallb lower_hex (list_ascii_of_string digest))
      then refused "invalid_immutable_snapshot_or_digest"
      else if negb (immutable_contract model) then refused "immutable_requires_concrete_fp32_cpu_contract"
      else if immutable_generation s =? UINT64_MAX then refused "immutable_generation_exhausted"
      else if Z.of_nat (length readable) <? size then Undefined "snapshot read past its memory"
      else bind_snapshot w model (take (Z.to_nat size) readable) digest s
  end.

(** The guard of [infer] and [release]. *)
Definition live_slot (handle : Handle) (s : Immutable) : option ImmutableSlot :=
  if handle_generation handle =? 0 then None
  else match immutable_slot s with
       | Some slot => if handle_generation handle =? sl_generation slot then Some slot else None
       | None => None
       end.

Definition slot_buffer (slot : ImmutableSlot) (mem : Memory) (input input_count : Z) : TensorBuffer :=
  bindExternalF32 (Some (cells_at mem input)) input_count
    {| spec := ms_input (sl_model slot); f32_data := []; i8_data := []; external_f32_data := None;
       external_f32_count := 0; external_f32_bound := false |}.

Definition slot_evidence (generation : Z) (digest : string) : string :=
  dq "{'schema':'shorthand.immutable_model.v1','generation':" +:+ pretty generation +:+
  dq ",'sha256':'" +:+ digest +:+ dq "'}".

Definition after_run (runtime : AIRuntime) (scratch : list spec_float) (slot : ImmutableSlot) : ImmutableSlot := {|
  sl_configuration := sl_configuration slot; sl_model := sl_model slot; sl_runtime := runtime; sl_session := sl_session slot;
  sl_scratch := scratch; sl_digest := sl_digest slot; sl_generation := sl_generation slot |}.

Definition slot_infer (w : World) (slot : ImmutableSlot) (mem : Memory) (input input_count output output_count : Z)
    : IM (InferenceResult * Memory) := λ s,
  if negb (input_count =? element_count (ms_input (sl_model slot))) ||
     negb (output_count =? element_count (ms_output (sl_model slot))) ||
     negb (immutableRange input input_count) || negb (immutableRange output output_count)
  then Done (immutableFailure InvalidInput "invalid_immutable_io", mem, s)
  else
    match inferPreparedCPUInto w (sl_model slot) (slot_buffer slot mem input input_count) (sl_session slot)
            (Some (sl_scratch slot)) output_count (refreshPolicyFromEnvironment w (sl_runtime slot)) with
    | Undefined e => Undefined e
    | OutOfFuel => OutOfFuel
    | Done (result, written, runtime) =>
        let scratch := default [] written in
        let s := set_slot (Some (after_run runtime scratch slot)) s in
        if negb (bool_decide (ir_status result = Success)) then Done (result, mem, s)
        else if negb (output_elements result =? output_count) || negb (forallb isfinite scratch)
        then Done (immutableFailure RuntimeError "invalid_immutable_output", mem, s)
        else match write_cells mem output (take (Z.to_nat output_count) scratch) with
             | Some mem => Done (with_evidence (slot_evidence (sl_generation slot) (sl_digest slot)) result, mem, s)
             | None => Undefined "output written past its memory"
             end
    end.

Definition infer (w : World) (handle : Handle) (mem : Memory) (input input_count output output_count : Z)
    : IM (InferenceResult * Memory) := λ s,
  if negb immutable_enabled then Done (immutableFailure BackendUnavailable "immutable_onnxruntime_unavailable", mem, s)
  else match live_slot handle s with
  | None => Done (immutableFailure InvalidInput "stale_immutable_handle", mem, s)
  | Some slot => slot_infer w slot mem input input_count output output_count s
  end.

Definition release (handle : Handle) : IM bool := λ s,
  if negb immutable_enabled then Done (false, s)
  else match live_slot handle s with
  | None => Done (false, s)
  | Some _ => Done (true, set_slot None s)
  end.
End Immutable.
