(* ===== verification/Facade.v ===== *)
(** Component: the entry points of the thread-safe facade
    (runtime/RuntimeThreadSafeFacade.cpp).  Each takes the mutex and calls the
    native runtime library or the immutable model slot; a text is copied into a
    string that belongs to the calling thread and to the entry point. *)
From Stdlib Require Import SpecFloat Init.Byte.
From S2P Require Import Prelude CxxInt CxxString CxxFloat AiTypes HardwareRouting AiBackends AiRuntime NativeRuntime NativeRuntimeFacts ImmutableModel.
Open Scope string_scope.
Open Scope Z_scope.

(** The entry points that return a number, and those that return a text. *)
Inductive Counter :=
| ModelCount | TensorCount | ContractCount | MeasurementCount | InferCount | InferSuccessCount | InferNotExecutedCount
| InferBackendUnavailableCount | InferInvalidInputCount | LastInferStatus.
Inductive Report := LastBackend | LastReason | LastTelemetry | BridgeRequest | Observability | Prometheus | OtlpSpans.

#[export] Instance Report_eq_dec : EqDecision Report.
Proof. solve_decision. Defined.
#[export] Instance Report_countable : Countable Report.
Proof.
  refine (inj_countable'
    (λ r, match r with
          | LastBackend => 0 | LastReason => 1 | LastTelemetry => 2 | BridgeRequest => 3 | Observability => 4
          | Prometheus => 5 | OtlpSpans => 6 end : Z)
    (λ z, match z with
          | 0 => LastBackend | 1 => LastReason | 2 => LastTelemetry | 3 => BridgeRequest | 4 => Observability
          | 5 => Prometheus | _ => OtlpSpans end) _).
  by intros [].
Defined.

Definition Thread : Type := Z.

Section Facade.
Context `{Platform} `{OrtApi} (bridge_enabled immutable_enabled : bool).

Record Facade := { native : Native; immutable : Immutable; snapshots : gmap (Thread * Report) string }.
Definition new_facade : Facade := {| native := new_native; immutable := no_immutable; snapshots := ∅ |}.

Definition FM : Type → Type := SM Facade.

Definition set_native (n : Native) (f : Facade) : Facade :=
  {| native := n; immutable := immutable f; snapshots := snapshots f |}.
Definition set_immutable (i : Immutable) (f : Facade) : Facade :=
  {| native := native f; immutable := i; snapshots := snapshots f |}.
Definition set_snapshot (k : Thread * Report) (text : string) (f : Facade) : Facade :=
  {| native := native f; immutable := immutable f; snapshots := <[k := text]> (snapshots f) |}.

(** A call into the native runtime library. *)
Definition in_native {A} (m : NM A) : FM A := λ f,
  match m (native f) with
  | Done (a, n) => Done (a, set_native n f)
  | Undefined e => Undefined e
  | OutOfFuel => OutOfFuel
  end.

Definition in_immutable {A} (m : IM A) : FM A := λ f,
  match m (immutable f) with
  | Done (a, i) => Done (a, set_immutable i f)
  | Undefined e => Undefined e
  | OutOfFuel => OutOfFuel
  end.

Definition lockedInt {A} (m : NM A) : FM A := in_native m.

Definition lockedSnapshot (thread : Thread) (report : Report) (m : NM string) : FM string :=
  value ← in_native m; _ ← modify (set_snapshot (thread, report) value); mret value.

Definition facade_reset : FM Z :=
  (if immutable_enabled then modify (λ f, set_immutable (set_slot None (immutable f)) f) else mret tt) ;;
  lockedInt (short_runtime_reset bridge_enabled).

Definition counter (c : Counter) : NM Z :=
  match c with
  | ModelCount => short_runtime_model_count
  | TensorCount => short_runtime_tensor_count
  | ContractCount => short_runtime_contract_count
  | MeasurementCount => short_runtime_measurement_count
  | InferCount => short_runtime_infer_count
  | InferSuccessCount => short_runtime_infer_success_count
  | InferNotExecutedCount => short_runtime_infer_not_executed_count
  | InferBackendUnavailableCount => short_runtime_infer_backend_unavailable_count
  | InferInvalidInputCount => short_runtime_infer_invalid_input_count
  | LastInferStatus => short_runtime_last_infer_status
  end.

Definition report (r : Report) : NM string :=
  match r with
  | LastBackend => short_runtime_last_infer_backend
  | LastReason => short_runtime_last_infer_reason
  | LastTelemetry => short_runtime_last_infer_telemetry_json
  | BridgeRequest => short_runtime_infer_bridge_request_json
  | Observability => short_runtime_observability_json
  | Prometheus => short_runtime_prometheus_metrics
  | OtlpSpans => short_runtime_otlp_spans_json
  end.

(** * Calls *)

Inductive FacadeCall :=
| FReset
| FCount (c : Counter)
| FReport (r : Report)
| FRegisterModel (name format path task precision input_shape output_shape backend_preference : option string)
| FRegisterTensor (name element_type shape rank total_elements : option string)
| FRegisterContract (a1 a2 a3 a4 a5 a6 a7 a8 : option string)
| FRecordMeasurement (a1 a2 a3 a4 a5 : option string)
| FInfer (model input output : option string)
| FInferF32 (c : F32Call)
| FInferLegacy (path shape input : option string)
| FBind (model : ModelSpec) (bytes : option (list byte)) (size : Z) (digest : string)
| FInferImmutable (handle : Handle) (mem : Memory) (input input_count output output_count : Z)
| FRelease (handle : Handle).

Inductive FacadeAnswer :=
| FStatus (z : Z) | FReturn (r : InferReturn) | FText (t : string) | FBound (b : Binding)
| FResult (r : InferenceResult) (mem : Memory) | FReleased (b : bool).

Definition answered {A} (f : A → FacadeAnswer) (m : FM A) : FM FacadeAnswer := x ← m; mret (f x).

Definition facade_call (w : World) (thread : Thread) (c : FacadeCall) : FM FacadeAnswer :=
  match c with
  | FReset => answered FStatus facade_reset
  | FCount c => answered FStatus (lockedInt (counter c))
  | FReport r => answered FText (lockedSnapshot thread r (report r))
  | FRegisterModel a1 a2 a3 a4 a5 a6 a7 a8 =>
      answered FStatus (lockedInt (short_ai_register_model bridge_enabled a1 a2 a3 a4 a5 a6 a7 a8))
  | FRegisterTensor a1 a2 a3 a4 a5 => answered FStatus (lockedInt (short_ai_register_tensor bridge_enabled a1 a2 a3 a4 a5))
  | FRegisterContract a1 a2 a3 a4 a5 a6 a7 a8 =>
      answered FStatus (lockedInt (short_greenai_register_contract a1 a2 a3 a4 a5 a6 a7 a8))
  | FRecordMeasurement a1 a2 a3 a4 a5 => answered FStatus (lockedInt (short_greenai_record_measurement a1 a2 a3 a4 a5))
  | FInfer m i o => answered FStatus (lockedInt (short_ai_infer m i o))
  | FInferF32 c => answered FReturn (lockedInt (infer_f32 bridge_enabled w c))
  | FInferLegacy p x i => answered FStatus (lockedInt (short_ai_infer_legacy p x i))
  | FBind m bytes size digest => answered FBound (in_immutable (bind immutable_enabled w m bytes size digest))
  | FInferImmutable h mem i ic o oc =>
      answered (λ x, FResult x.1 x.2) (in_immutable (infer immutable_enabled w h mem i ic o oc))
  | FRelease h => answered FReleased (in_immutable (release immutable_enabled h))
  end.

(** A call made by a thread at some moment. *)
Record Event := { ev_world : World; ev_thread : Thread; ev_call : FacadeCall }.

(** A schedule: the calls in the order in which they take the mutex. *)
Fixpoint schedule (h : list Event) : FM (list FacadeAnswer) :=
  match h with
  | [] => mret []
  | e :: h => a ← facade_call (ev_world e) (ev_thread e) (ev_call e); l ← schedule h; mret (a :: l)
  end.
End Facade.
