(* ===== verification/ImmutableFacts.v ===== *)
(** Lemmas about the immutable model slot: the caller's memory, contracts and
    digests, one step of each operation, what a schedule of calls leaves in the
    slot, and the specification of inference through a live handle. *)
From Stdlib Require Import SpecFloat Init.Byte.
From S2P Require Import Prelude CxxInt CxxString CxxFloat Sha256 AiTypes JsonText HardwareRouting AiBackends AiRuntime HardwareRoutingFacts AiRuntimeFacts NativeRuntime NativeRuntimeFacts OnnxEnvelope OnnxEnvelopeFacts ImmutableModel Facade.
Open Scope string_scope.
Open Scope Z_scope.

(** * The caller's memory *)

(** The cells of [m] from [address] on, [n] of them, are in the block. *)
Definition in_block (m : Memory) (address : Z) (n : nat) (i : nat) : Prop :=
  cell_index m address = Some i ∧ (i + n ≤ length (mem_cells m))%nat.

Lemma write_cells_spec m address values m' :
  write_cells m address values = Some m' ↔
  ∃ i, in_block m address (length values) i ∧ mem_base m' = mem_base m ∧
       mem_cells m' = (take i (mem_cells m) ++ values ++ drop (i + length values) (mem_cells m))%list.
Proof.
  unfold write_cells, in_block. destruct (cell_index m address) as [i|]; [|by split; [|intros (? & [? _] & _)]].
  destruct (Nat.leb_spec (i + length values) (length (mem_cells m))) as [Hle|Hlt]; split.
  - intros [= <-]. by exists i.
  - intros (j & [[= <-] _] & Hb & Hc). f_equal. destruct m'; simpl in *. by subst.
  - done.
  - intros (j & [[= <-] Hj] & _). lia.
Qed.

(** A write changes the cells it covers and no others. *)
Lemma write_cells_lookup m address values m' i j :
  write_cells m address values = Some m' → cell_index m address = Some i →
  mem_cells m' !! j =
  if decide (i ≤ j < i + length values)%nat then values !! (j - i)%nat else mem_cells m !! j.
Proof.
  rewrite write_cells_spec. intros (k & [Hk Hle] & _ & ->) Hi. rewrite Hk in Hi. injection Hi as ->.
  case_decide as Hj.
  - rewrite lookup_app_r by (rewrite length_take; lia). rewrite length_take, Nat.min_l by lia. rewrite lookup_app_l by lia. done.
  - destruct (decide (j < i)%nat).
    + rewrite lookup_app_l by (rewrite length_take; lia). by rewrite lookup_take_lt.
    + rewrite lookup_app_r by (rewrite length_take; lia). rewrite length_take, Nat.min_l by lia. rewrite lookup_app_r by lia.
      rewrite lookup_drop. f_equal. lia.
Qed.

(** * Contracts *)

Lemma shape_count_exact dims count :
  0 < count ≤ 65536 → Forall (λ d, d < 2 ^ 63) dims →
  ∀ n, shape_count dims count = Some n ↔ Forall (λ d, 0 < d) dims ∧ n = count * fold_right Z.mul 1 dims ∧ n ≤ 65536.
Proof.
  revert count. induction dims as [|d dims IH]; intros count Hc Hd n; simpl.
  { split; [intros [= <-]; split; [done|lia]|]. intros (_ & -> & _). f_equal. lia. }
  apply Forall_cons in Hd as [Hd Hds]. destruct (Z.leb_spec d 0) as [Hneg|Hpos]; simpl.
  { split; [done|]. intros ([? _]%Forall_cons & _). lia. }
  rewrite (u64_id d) by width. destruct (Z.ltb_spec (65536 / count) d) as [Hbig|Hsmall].
  - split; [done|]. intros ([_ Hp]%Forall_cons & -> & Hn).
    assert (0 < fold_right Z.mul 1 dims) as Hprod by (clear -Hp; induction Hp; simpl; nia).
    assert (65536 < count * d) by (pose proof (Z.mul_succ_div_gt 65536 count ltac:(lia)); nia).
    nia.
  - assert (count * d ≤ 65536) by (pose proof (Z.mul_div_le 65536 count ltac:(lia)); nia).
    rewrite (u64_id (count * d)) by (clear -Hc Hpos H; split; [nia|width]). rewrite (IH (count * d)) by (done || nia).
    rewrite Forall_cons. split.
    + intros (Hp & -> & Hn). split_and!; [lia|done|lia|done].
    + intros ([_ Hp] & -> & Hn). split_and!; [done|lia|done].
Qed.

(** A tensor the slot accepts. *)
Definition concrete_float32 (t : TensorSpec) : Prop :=
  element_type t = Float32 ∧ dynamic t = false ∧ (1 ≤ length (shape t) ≤ 8)%nat ∧ Forall (λ d, 0 < d) (shape t) ∧
  element_count t = fold_right Z.mul 1 (shape t) ∧ element_count t ≤ 65536.

Lemma immutableShape_exact t :
  Forall (λ d, d < 2 ^ 63) (shape t) → immutableShape t = true ↔ concrete_float32 t.
Proof.
  intros Hd. unfold immutableShape, concrete_float32. case_bool_decide as He; simpl; [|naive_solver].
  destruct (dynamic t); simpl; [naive_solver|]. case_bool_decide as Hs; simpl.
  { rewrite Hs. simpl. split; [done|]. intros (_ & _ & ? & _). lia. }
  assert (0 < length (shape t))%nat by (destruct (shape t); simpl; [done|lia]).
  destruct (Z.ltb_spec 8 (Z.of_nat (length (shape t)))) as [Hl|Hl]; simpl; [split; [done|]; intros (_ & _ & ? & _); lia|].
  pose proof (shape_count_exact (shape t) 1 ltac:(lia) Hd) as Hc. destruct (shape_count (shape t) 1) as [n|].
  - destruct (proj1 (Hc n) eq_refl) as (Hp & Hn & Hle). rewrite Z.eqb_eq. split.
    + intros <-. split_and!; try done; lia.
    + intros (_ & _ & _ & _ & -> & _). lia.
  - split; [done|]. intros (_ & _ & _ & Hp & Hn & Hle). assert (None = Some (element_count t)); [|done].
    apply Hc. split_and!; [done|lia|done].
Qed.

(** * Digests *)

Definition all_hex (s : string) : Prop := forallb lower_hex (list_ascii_of_string s) = true.

Lemma all_hex_app s t : all_hex s → all_hex t → all_hex (s +:+ t).
Proof.
  unfold all_hex. intros Hs Ht. induction s as [|c s IH]; [done|]. simpl in *. apply andb_true_iff in Hs as [-> Hs]. by apply IH.
Qed.

Lemma hex_digit_lower w k : lower_hex (hex_digit (Z.land (Z.shiftr w k) 15)) = true.
Proof.
  assert (forallb (λ d, lower_hex (hex_digit d)) (seqZ 0 16) = true) as Hall by (vm_compute; reflexivity).
  rewrite forallb_forall in Hall. apply Hall, list_elem_of_In, elem_of_seqZ. change 15 with (Z.ones 4).
  rewrite Z.land_ones by lia. pose proof (Z.mod_pos_bound (Z.shiftr w k) (2 ^ 4)). lia.
Qed.

Lemma hex_state_text ws :
  String.length (hex_state ws) = (8 * length ws)%nat ∧ all_hex (hex_state ws).
Proof.
  induction ws as [|w ws [IHl IHh]]; [done|]. simpl hex_state. split.
  - rewrite string_app_length, IHl. unfold hex_word. simpl. lia.
  - apply all_hex_app; [|done]. unfold all_hex, hex_word. cbn [seq fold_right list_ascii_of_string forallb].
    by rewrite !hex_digit_lower.
Qed.

(** The syntactic check of [bind] refuses no digest. *)
Lemma digest_text m : String.length (digest m) = 64%nat ∧ all_hex (digest m).
Proof.
  unfold digest. destruct (hex_state_text (absorb (length (pad m) / 64) initial_state (pad m)).1) as [Hl Hh].
  split; [|done]. by rewrite Hl, length_absorb.
Qed.

Section Slot.
Context `{Platform} `{OrtApi} (immutable_enabled : bool).

(** * Bindings *)

(** What a successful [bind] was given, and the handle it returned. *)
Record Issue := { is_handle : Handle; is_model : ModelSpec; is_snapshot : list byte; is_digest : string }.

Definition owned (i : Issue) : ModelSpec := with_path (immutable_path (is_digest i)) (is_model i).

(** The session the snapshot gives.  No file is opened, so the moment does not
    matter. *)
Definition issue_session (w : World) (i : Issue) : string + PreparedInference :=
  backend_prepare OnnxRuntimeBackend w (restrict (owned i) OnnxRuntimeCPU false) (immutable_configuration (is_snapshot i)).

Lemma issue_session_depends w w' i : is_snapshot i ≠ [] → issue_session w i = issue_session w' i.
Proof.
  intros Hb. unfold issue_session, backend_prepare. destruct has_onnxruntime; [|done]. unfold new_prepared_session. simpl.
  by rewrite (bool_decide_false (is_snapshot i = [])).
Qed.

Lemma routeForModel_registry w m r : registry (routeForModel w m r).2 = registry r.
Proof.
  assert (registry (refresh_inventory w r) = registry r) as E.
  { unfold refresh_inventory. destruct (generationToken w (hardware_probe_ r)) as [t p]. by case_match. }
  unfold routeForModel. cbv zeta. destruct (route_cache_ _); [case_match|]; simpl; done.
Qed.

Lemma select_kind want m registry b : select_backend want m registry = Some b → kind b = want.
Proof.
  induction registry as [|c registry IH]; simpl; [done|]. case_bool_decide as Hk; simpl; [|done].
  repeat (case_match; [done|]). by intros [= <-].
Qed.

Lemma select_restricted m k b : select registered_backends (restrict m k false) = Some b → kind b = k.
Proof.
  unfold select. cbn [restrict ms_backend_preference ms_allow_fallback andb]. rewrite bool_decide_false by done.
  cbn [select_preferred]. destruct (select_backend k _ registered_backends) as [c|] eqn:E; [|done].
  intros [= <-]. by apply select_kind in E.
Qed.

(** A prepared session is one of ONNX Runtime on the processor. *)
Lemma prepare_spec w m c r session r' :
  registry r = registered_backends → prepare w m c r = (inr session, r') →
  r' = (routeForModel w m r).2 ∧ backend_prepare OnnxRuntimeBackend w (restrict m OnnxRuntimeCPU false) c = inr session.
Proof.
  intros Hr. unfold prepare. pose proof (routeForModel_registry w m r) as Hreg.
  destruct (routeForModel w m r) as [resolved r1]. cbn [snd] in *. rewrite Hreg, Hr.
  destruct (negb (selected (route resolved))); [done|].
  destruct (select registered_backends _) as [b|] eqn:E; [|done]. apply select_restricted in E. intros [= Hb <-]. split; [done|].
  destruct b; try done; cbn [kind] in E; by rewrite <- E in Hb.
Qed.

(** The fields of a slot that never change. *)
Definition slot_is (i : Issue) (slot : ImmutableSlot) : Prop :=
  sl_model slot = owned i ∧ sl_generation slot = handle_generation (is_handle i) ∧ sl_digest slot = is_digest i ∧
  is_snapshot i ≠ [] ∧ (∀ w, issue_session w i = inr (sl_session slot)).

(** What [bind] has checked. *)
Definition issue_ok (i : Issue) : Prop :=
  (1 ≤ Z.of_nat (length (is_snapshot i)) ≤ 16 * 1024 * 1024) ∧ is_digest i = snapshot_digest (is_snapshot i) ∧
  validate (is_snapshot i) = Done true ∧ immutable_contract (is_model i) = true.

Definition issue_at (g : Z) (model : ModelSpec) (bytes : option (list byte)) (size : Z) (digest : string) : Issue := {|
  is_handle := {| handle_generation := g |}; is_model := model; is_snapshot := take (Z.to_nat size) (default [] bytes);
  is_digest := digest |}.

(** A [bind] that returns has refused and changed nothing, or has replaced the
    slot under the next generation. *)
Lemma bind_step w model bytes size digest s b s' :
  0 ≤ size → bind immutable_enabled w model bytes size digest s = Done (b, s') →
  (bound_handle b = no_handle ∧ s' = s) ∨
  (immutable_enabled = true ∧ immutable_generation s ≠ UINT64_MAX ∧
   let g := immutable_generation s + 1 in
   let i := issue_at g model bytes size digest in
   b = {| bound_handle := is_handle i; bound_error := "" |} ∧ issue_ok i ∧
   ∃ slot, s' = {| immutable_slot := Some slot; immutable_generation := g |} ∧ slot_is i slot ∧
     sl_runtime slot = (routeForModel w (owned i) (new_runtime w)).2 ∧
     length (sl_scratch slot) = Z.to_nat (element_count (ms_output model))).
Proof.
  intros Hsize. unfold bind. destruct immutable_enabled; [|intros [= <- <-]; by left]. cbn [negb].
  destruct bytes as [readable|]; [|intros [= <- <-]; by left].
  destruct ((size =? 0) || _ || _ || _) eqn:Hsz; [intros [= <- <-]; by left|].
  destruct (negb (immutable_contract model)) eqn:Hc; [intros [= <- <-]; by left|]. apply negb_false_iff in Hc.
  destruct (Z.eqb_spec (immutable_generation s) UINT64_MAX) as [Hg|Hg]; [intros [= <- <-]; by left|].
  destruct (Z.ltb_spec (Z.of_nat (length readable)) size) as [Hr|Hr]; [done|]. unfold bind_snapshot.
  set (snapshot := take (Z.to_nat size) readable). case_bool_decide as Hd; cbn [negb]; [|intros [= <- <-]; by left].
  apply orb_false_iff in Hsz as [Hsz _]. apply orb_false_iff in Hsz as [Hsz _].
  apply orb_false_iff in Hsz as [Hz%Z.eqb_neq Hm%Z.ltb_ge].
  assert (Z.of_nat (length snapshot) = size) as Hlen by (unfold snapshot; rewrite length_take; lia).
  destruct (validate snapshot) as [[]| |] eqn:Hv; [|intros [= <- <-]; by left|done|done].
  destruct (prepare w _ _ _) as [[error|session] r] eqn:Hp; [intros [= <- <-]; by left|]. intros [= <- <-]. right.
  set (i := issue_at (immutable_generation s + 1) model (Some readable) size digest). split; [done|]. split; [done|]. cbv zeta.
  apply prepare_spec in Hp as [-> Hp]; [|done].
  split; [done|]. split; [split_and!; [simpl; fold snapshot; lia|simpl; fold snapshot; lia|done|done|done]|].
  eexists. split; [done|]. split_and!; [|done|apply repeat_length].
  split_and!; [done..| |]; [intros Hn; simpl in Hn; fold snapshot in Hn; rewrite Hn in Hlen; simpl in Hlen; lia|].
  intros w'. rewrite (issue_session_depends w' w); [done|]. intros Hn. simpl in Hn. fold snapshot in Hn. rewrite Hn in Hlen. simpl in Hlen. lia.
Qed.

(** * Inference and release *)

Lemma runInto_scratch `{!OrtLaws} w p input scratch n res written :
  0 ≤ n → runInto w p input (Some scratch) n = Done (res, written) → ∃ out, written = Some out ∧ length out = length scratch.
Proof.
  intros Hn. unfold runInto, runIntoImpl. destruct (negb _); [intros [= _ <-]; by exists scratch|].
  destruct (check_prepared_input _ _ _) as [[why|values]|]; [intros [= _ <-]; by exists scratch| |done].
  destruct (Z.ltb_spec (Z.of_nat (length scratch)) n) as [Hl|Hl]; [done|].
  pose proof (into_length (session_ p) (in_name_ p) values (shape (in_ p)) (out_name_ p) (take (Z.to_nat n) scratch) (shape (out_ p))) as Hlen.
  destruct (ort_run_into _ _ _ _ _ _ _) as [[e|v] out]; cbn [fst snd] in *; rewrite length_take in Hlen.
  - intros [= _ <-]. eexists. split; [done|]. rewrite length_app, length_drop. lia.
  - intros E. assert (written = Some (out ++ drop (Z.to_nat n) scratch)%list) as -> by (repeat case_match; congruence).
    eexists. split; [done|]. rewrite length_app, length_drop. lia.
Qed.

(** The runtime and the scratch buffer after an inference. *)
Definition ran (w : World) (slot slot' : ImmutableSlot) : Prop := ∃ scratch,
  slot' = after_run (routeForModel w (sl_model slot) (refreshPolicyFromEnvironment w (sl_runtime slot))).2 scratch slot ∧
  (OrtLaws → length scratch = length (sl_scratch slot)).

Lemma slot_infer_step w slot mem i ic o oc s x s' :
  0 ≤ oc → slot_infer w slot mem i ic o oc s = Done (x, s') →
  s' = s ∨ ∃ slot', ran w slot slot' ∧ s' = set_slot (Some slot') s.
Proof.
  intros Hoc. unfold slot_infer. destruct (_ || _ || _ || _); [intros [= _ <-]; by left|]. unfold inferPreparedCPUInto, ran.
  set (buffer := slot_buffer _ _ _ _). set (r := refreshPolicyFromEnvironment w (sl_runtime slot)).
  destruct (routeForModel w (sl_model slot) r) as [resolved r'] eqn:Er.
  destruct (negb (selected _) || _).
  { cbn. intros E. right. eexists. split; [exists (sl_scratch slot); split; [done|done]|]. by case_match; simplify_eq. }
  destruct (negb (validateInputMatchesShape buffer)).
  { cbn. intros E. right. eexists. split; [exists (sl_scratch slot); split; [done|done]|]. by case_match; simplify_eq. }
  destruct (runInto w (sl_session slot) buffer (Some (sl_scratch slot)) oc) as [[res written]| |] eqn:Erun; [|done|done].
  intros E. right. exists (after_run r' (default [] written) slot). split.
  - exists (default [] written). split; [done|]. intros Hl. by destruct (runInto_scratch _ _ _ _ _ _ _ Hoc Erun) as (out & -> & ?).
  - repeat case_match; congruence.
Qed.

Lemma infer_step w h mem i ic o oc s x s' :
  0 ≤ oc → infer immutable_enabled w h mem i ic o oc s = Done (x, s') →
  s' = s ∨ ∃ slot slot', immutable_slot s = Some slot ∧ ran w slot slot' ∧ s' = set_slot (Some slot') s.
Proof.
  intros Hoc. unfold infer, live_slot. destruct immutable_enabled; [|intros [= _ <-]; by left]. cbn [negb].
  destruct (handle_generation h =? 0); [intros [= _ <-]; by left|]. destruct (immutable_slot s) as [slot|]; [|intros [= _ <-]; by left].
  destruct (_ =? _); [|intros [= _ <-]; by left]. intros [?|(slot' & ? & ?)]%slot_infer_step; [by left| |done].
  right. by exists slot, slot'.
Qed.

(** * Schedules *)

Definition issue_of (c : FacadeCall) (a : FacadeAnswer) : option Issue :=
  match c, a with
  | FBind model bytes size digest, FBound b =>
      let g := handle_generation (bound_handle b) in
      if g =? 0 then None else Some (issue_at g model bytes size digest)
  | _, _ => None
  end.

(** The binding that is current after a call, from the calls and the answers
    alone. *)
Definition current (l : option Issue) (c : FacadeCall) (a : FacadeAnswer) : option Issue :=
  match c, a with
  | FReset, _ => None
  | FRelease _, FReleased true => None
  | _, _ => match issue_of c a with Some i => Some i | None => l end
  end.

Definition issues (h : list Event) (answers : list FacadeAnswer) : list Issue :=
  omap (λ x, issue_of (ev_call x.1) x.2) (zip h answers).
Definition live (h : list Event) (answers : list FacadeAnswer) (l : option Issue) : option Issue :=
  foldl (λ l x, current l (ev_call x.1) x.2) l (zip h answers).

(** Sizes and counts are unsigned. *)
Definition unsigned_call (c : FacadeCall) : Prop :=
  match c with
  | FBind _ _ size _ => 0 ≤ size
  | FInferImmutable _ _ _ _ _ oc => 0 ≤ oc
  | _ => True
  end.

Section Tracking.
Context (bridge_enabled : bool) (P : Issue → ImmutableSlot → Prop) (Q : World → Prop).
Hypothesis P_new : ∀ w i slot, Q w → sl_runtime slot = (routeForModel w (owned i) (new_runtime w)).2 →
  length (sl_scratch slot) = Z.to_nat (element_count (ms_output (is_model i))) → P i slot.
Hypothesis P_run : ∀ w i slot slot', Q w → ran w slot slot' → P i slot → P i slot'.

(** The state of the slot, given what is current and how many handles there are. *)
Definition tracks (n : Z) (l : option Issue) (s : Immutable) : Prop :=
  0 ≤ n ≤ UINT64_MAX ∧ immutable_generation s = n ∧ (immutable_enabled = false → immutable_slot s = None) ∧
  match l, immutable_slot s with
  | None, None => True
  | Some i, Some slot => slot_is i slot ∧ issue_ok i ∧ 0 < handle_generation (is_handle i) ≤ n ∧ P i slot
  | _, _ => False
  end.

Lemma in_native_keeps {A} (m : NM A) f a f' :
  in_native m f = Done (a, f') → immutable f' = immutable f ∧ snapshots f' = snapshots f.
Proof. unfold in_native. destruct (m (native f)) as [[x n]| |]; [|done|done]. by intros [= _ <-]. Qed.

Lemma answered_inv {A} (g : A → FacadeAnswer) (m : FM A) f a f' :
  answered g m f = Done (a, f') → ∃ x, m f = Done (x, f') ∧ a = g x.
Proof. unfold answered, mbind, SM_bind. destruct (m f) as [[x f1]| |]; [|done|done]. intros [= <- <-]. by exists x. Qed.

Lemma in_immutable_inv {A} (m : IM A) f a f' :
  in_immutable m f = Done (a, f') → ∃ i, m (immutable f) = Done (a, i) ∧ f' = set_immutable i f.
Proof. unfold in_immutable. destruct (m (immutable f)) as [[x i]| |]; [|done|done]. intros [= <- <-]. by exists i. Qed.

Lemma snapshot_keeps t r m f a f' : lockedSnapshot t r m f = Done (a, f') → immutable f' = immutable f.
Proof.
  unfold lockedSnapshot, mbind, SM_bind. destruct (in_native m f) as [[x f1]| |] eqn:E; [|done|done].
  intros [= _ <-]. by apply in_native_keeps in E as [? _].
Qed.

Lemma tracks_run w n l s slot slot' :
  Q w → tracks n l s → immutable_slot s = Some slot → ran w slot slot' → tracks n l (set_slot (Some slot') s).
Proof.
  intros HQ (H1 & H2 & H3 & H4) Hs Hr. rewrite Hs in H4. split_and!; [lia|lia|done|intros Hd; by rewrite H3 in Hs|].
  destruct l as [i|]; [|done]. destruct H4 as ((A1 & A2 & A3 & A4 & A5) & Hok & Hg & HP). cbn [immutable_slot set_slot].
  assert (slot_is i slot') by (destruct Hr as (scratch & -> & _); by split_and!). split_and!; try done; [lia|lia|].
  by eapply P_run.
Qed.

Lemma tracks_reset n l s :
  tracks n l s → tracks n None (if immutable_enabled then set_slot None s else s).
Proof.
  intros (H1 & H2 & H3 & H4). destruct immutable_enabled; [by split_and!; try lia|]. unfold tracks. rewrite (H3 eq_refl). split_and!; done || lia.
Qed.

Lemma tracks_call w t c f a f' n l :
  Q w → unsigned_call c → facade_call bridge_enabled immutable_enabled w t c f = Done (a, f') → tracks n l (immutable f) →
  tracks (n + if issue_of c a then 1 else 0) (current l c a) (immutable f') ∧
  (∀ i, issue_of c a = Some i → handle_generation (is_handle i) = n + 1).
Proof.
  intros HQ Hc E Ht. destruct c; apply answered_inv in E as (x & E & ->); cbn [issue_of current];
    try (apply in_native_keeps in E as [-> _]; rewrite Z.add_0_r; done).
  - rewrite Z.add_0_r. split; [|done]. unfold facade_reset, mbind, SM_bind in E. apply tracks_reset in Ht.
    destruct immutable_enabled; apply in_native_keeps in E as [-> _]; exact Ht.
  - apply snapshot_keeps in E as ->. by rewrite Z.add_0_r.
  - apply in_immutable_inv in E as (s' & E & ->). cbn [immutable set_immutable].
    destruct Ht as (H1 & H2 & H3 & H4).
    apply bind_step in E as [[-> ->]|(He & Hmax & -> & Hok & slot & -> & Hslot & Hrt & Hscr)]; [|cbn; rewrite H2|done].
    { simpl. rewrite Z.add_0_r. by split. }
    destruct (Z.eqb_spec (n + 1) 0); [lia|]. rewrite H2 in *. split; [|by intros i [= <-]].
    split_and!; [lia|lia|done|congruence|]. cbn [immutable_slot is_handle handle_generation issue_at].
    split_and!; [done|done..|lia|lia|by eapply P_new].
  - apply in_immutable_inv in E as (s' & E & ->). cbn [immutable set_immutable]. rewrite Z.add_0_r. split; [|done].
    apply infer_step in E as [->|(slot & slot' & Hs & Hr & ->)]; [done| |done]. by eapply tracks_run.
  - apply in_immutable_inv in E as (s' & E & ->). cbn [immutable set_immutable]. rewrite Z.add_0_r. split; [|done].
    unfold release in E. destruct immutable_enabled eqn:He; cbn [negb] in E; [|by injection E as <- <-].
    destruct (live_slot handle (immutable f)); injection E as <- <-; [|done]. apply tracks_reset in Ht. by rewrite He in Ht.
Qed.

Lemma tracks_schedule h f answers f' n l :
  Forall (λ e, Q (ev_world e) ∧ unsigned_call (ev_call e)) h →
  schedule bridge_enabled immutable_enabled h f = Done (answers, f') → tracks n l (immutable f) →
  tracks (n + Z.of_nat (length (issues h answers))) (live h answers l) (immutable f') ∧
  map (λ i, handle_generation (is_handle i)) (issues h answers) = seqZ (n + 1) (Z.of_nat (length (issues h answers))).
Proof.
  intros Hh. revert f answers n l. induction Hh as [|e h [HQ Hu] Hh IH]; intros f answers n l E Ht.
  { injection E as <- <-. simpl. by rewrite Z.add_0_r. }
  cbn [schedule] in E. unfold mbind at 1, SM_bind at 1 in E.
  destruct (facade_call _ _ (ev_world e) (ev_thread e) (ev_call e) f) as [[a f1]| |] eqn:E1; [|done|done].
  unfold mbind, SM_bind in E. destruct (schedule _ _ h f1) as [[l1 f2]| |] eqn:E2; [|done|done]. injection E as <- <-.
  destruct (tracks_call _ _ _ _ _ _ _ _ HQ Hu E1 Ht) as [Ht1 Hi]. destruct (IH _ _ _ _ E2 Ht1) as [Ht2 Hg].
  unfold issues, live in *. cbn [zip zip_with omap list_omap fst snd foldl]. destruct (issue_of (ev_call e) a) as [i|] eqn:Ei.
  - cbn [length map]. rewrite Nat2Z.inj_succ, seqZ_cons, Z.pred_succ by lia. split.
    + by replace (n + Z.succ _) with (n + 1 + Z.of_nat (length (omap (λ x : Event * FacadeAnswer, issue_of (ev_call x.1) x.2) (zip h l1)))) by lia.
    + rewrite Hg, (Hi i eq_refl). done.
  - rewrite Z.add_0_r in *. done.
Qed.
End Tracking.

(** * Inference through a live handle *)

(** The specification, without a slot: the route of the moment, the session the
    snapshot gives, a zeroed scratch buffer, and the copy to the caller. *)
Definition immutable_spec (w : World) (i : Issue) (mem : Memory) (input input_count output output_count : Z)
    : outcome (InferenceResult * Memory) :=
  let n := output_count in
  let rt := route_now w (owned i) in
  let buffer := {| spec := ms_input (is_model i); f32_data := []; i8_data := [];
                   external_f32_data := Some (cells_at mem input); external_f32_count := input_count;
                   external_f32_bound := true |} in
  if negb (input_count =? element_count (ms_input (is_model i))) || negb (n =? element_count (ms_output (is_model i))) ||
     negb (immutableRange input input_count) || negb (immutableRange output n)
  then Done (immutableFailure InvalidInput "invalid_immutable_io", mem)
  else if negb (selected rt) || negb (bool_decide (route_backend rt = OnnxRuntimeCPU))
  then Done (attachHardwareEvidence (unavailableResult (route_reason rt)) rt, mem)
  else if negb (validateInputMatchesShape buffer)
  then Done (attachHardwareEvidence (with_status InvalidInput "input_shape_mismatch" no_inference) rt, mem)
  else match issue_session w i with
  | inl e => Undefined e
  | inr session =>
      match runInto w session buffer (Some (repeat (S754_zero false) (Z.to_nat n))) n with
      | Undefined e => Undefined e
      | OutOfFuel => OutOfFuel
      | Done (r, written) =>
          let values := default [] written in
          if negb (bool_decide (ir_status r = Success)) then Done (attachHardwareEvidence r rt, mem)
          else if negb (output_elements r =? n) || negb (forallb isfinite values)
          then Done (immutableFailure RuntimeError "invalid_immutable_output", mem)
          else match write_cells mem output values with
               | Some mem => Done (with_evidence (slot_evidence (handle_generation (is_handle i)) (is_digest i))
                                     (attachHardwareEvidence r rt), mem)
               | None => Undefined "output written past its memory"
               end
      end
  end.

Definition said {A B S} (o : outcome (A * B * S)) : outcome (A * B) :=
  match o with
  | Done (x, _) => Done x
  | Undefined e => Undefined e
  | OutOfFuel => OutOfFuel
  end.

(** What lets the specification forget the slot. *)
Definition warm (memory : string) (override : bool) (i : Issue) (slot : ImmutableSlot) : Prop :=
  runtime_ok memory override (sl_runtime slot) ∧
  length (sl_scratch slot) = Z.to_nat (element_count (ms_output (is_model i))).

Lemma warm_infers `{!OrtLaws} memory override w i slot mem input ic output oc s :
  slot_is i slot → warm memory override i slot → at_conditions memory override w → 0 ≤ oc →
  said (slot_infer w slot mem input ic output oc s) = immutable_spec w i mem input ic output oc.
Proof.
  intros (Hm & Hg & Hd & _ & Hs) [Hrt Hl] Hw Hoc. unfold slot_infer, immutable_spec, slot_buffer, bindExternalF32. rewrite Hm.
  change (ms_input (owned i)) with (ms_input (is_model i)). change (ms_output (owned i)) with (ms_output (is_model i)).
  cbn [spec i8_data]. set (buffer := Build_TensorBuffer _ _ _ _ _ _). destruct (_ || _ || _ || _) eqn:Eio; [done|].
  apply orb_false_iff in Eio as [Eio _]. apply orb_false_iff in Eio as [Eio _].
  apply orb_false_iff in Eio as [_ Eo%negb_false_iff%Z.eqb_eq].
  destruct (refresh_policy_ok memory override w (sl_runtime slot) Hrt) as [Hok Hpol].
  destruct (routeForModel_ok memory override w _ (owned i) Hok Hw Hpol) as [_ Hroute].
  unfold inferPreparedCPUInto. destruct (routeForModel w (owned i) _) as [resolved r']. cbn [fst snd] in Hroute. rewrite Hroute.
  set (rt := route_now w (owned i)). destruct (negb (selected rt) || _); [done|].
  destruct (negb (validateInputMatchesShape buffer)); [done|]. rewrite Hs.
  pose proof (runInto_destination w (sl_session slot) buffer (sl_scratch slot) (repeat (S754_zero false) (Z.to_nat oc)) oc) as Hsame.
  specialize (Hsame ltac:(rewrite Hl, <- Eo; lia) ltac:(rewrite repeat_length; lia)).
  destruct (runInto w (sl_session slot) buffer (Some (sl_scratch slot)) oc) as [[r1 o1]| |] eqn:E1;
  destruct (runInto w (sl_session slot) buffer (Some (repeat _ _)) oc) as [[r2 o2]| |] eqn:E2; try done;
    [|destruct o1; done..|by rewrite Hsame].
  destruct (runInto_scratch _ _ _ _ _ _ _ Hoc E1) as (m1 & -> & L1). destruct (runInto_scratch _ _ _ _ _ _ _ Hoc E2) as (m2 & -> & L2).
  destruct Hsame as [-> Hsame]. cbn [default]. change (ir_status (attachHardwareEvidence r2 rt)) with (ir_status r2).
  change (output_elements (attachHardwareEvidence r2 rt)) with (output_elements r2).
  case_bool_decide as Hst; cbn [negb]; [|done]. destruct (Hsame Hst) as [Ht _].
  rewrite repeat_length in L2. rewrite Hl, <- Eo in L1. rewrite !firstn_all2 in Ht by lia. subst m2.
  destruct (_ || _); [done|]. cbn [id]. rewrite firstn_all2 by lia. destruct (write_cells mem output m1); [|done]. simpl. by rewrite Hg, Hd.
Qed.

Lemma tracks_new P : tracks P 0 None no_immutable.
Proof. split_and!; done. Qed.
End Slot.
