(* ===== verification/FacadeFacts.v ===== *)
(** The theorems about the facade: a report a thread holds stays as it is; the
    handles of the immutable slot name one binding each, inference through them
    is transactional and, while the memory size of the host and the qualification
    override stay the same, independent of history, and binding is exact.  A
    small example applies each theorem. *)
From Stdlib Require Import SpecFloat Init.Byte.
From S2P Require Import Prelude CxxInt CxxString CxxFloat Sha256 AiTypes JsonText HardwareRouting AiBackends AiRuntime HardwareRoutingFacts AiRuntimeFacts NativeRuntime NativeRuntimeFacts OnnxEnvelope OnnxEnvelopeFacts ImmutableModel Facade ImmutableFacts.
Open Scope string_scope.
Open Scope Z_scope.

Section Reports.
Context `{Platform} `{OrtApi} (bridge_enabled immutable_enabled : bool).

Lemma schedule_app h1 h2 f answers f' :
  schedule bridge_enabled immutable_enabled (h1 ++ h2) f = Done (answers, f') →
  ∃ a1 a2 f1, schedule bridge_enabled immutable_enabled h1 f = Done (a1, f1) ∧
    schedule bridge_enabled immutable_enabled h2 f1 = Done (a2, f') ∧ answers = (a1 ++ a2)%list ∧ length a1 = length h1.
Proof.
  revert f answers. induction h1 as [|e h1 IH]; intros f answers E; [by exists [], answers, f|].
  cbn [schedule app] in *. unfold mbind, SM_bind in *.
  destruct (facade_call _ _ (ev_world e) (ev_thread e) (ev_call e) f) as [[a f1]| |]; [|done|done].
  destruct (schedule _ _ (h1 ++ h2) f1) as [[l f2]| |] eqn:E2; [|done|done]. injection E as <- <-.
  destruct (IH _ _ E2) as (a1 & a2 & f3 & E1 & E3 & -> & Hl). rewrite E1. exists (a :: a1), a2, f3. split_and!; try done. simpl. lia.
Qed.

(** A call writes one string at most: that of its thread and its report. *)
Lemma call_snapshots w t c f a f' k :
  facade_call bridge_enabled immutable_enabled w t c f = Done (a, f') → (∀ r, c = FReport r → (t, r) ≠ k) →
  snapshots f' !! k = snapshots f !! k.
Proof.
  intros E Hk. destruct c; apply answered_inv in E as (x & E & _);
    try (apply in_native_keeps in E as [_ ->]; done); try (apply in_immutable_inv in E as (s & _ & ->); done).
  - unfold facade_reset, mbind, SM_bind in E. destruct immutable_enabled; by apply in_native_keeps in E as [_ ->].
  - unfold lockedSnapshot, mbind, SM_bind in E. destruct (in_native (report r) f) as [[v f1]| |] eqn:E1; [|done|done].
    injection E as _ <-. apply in_native_keeps in E1 as [_ <-]. cbn. rewrite lookup_insert_ne by (by apply Hk). done.
Qed.

Lemma schedule_snapshots h f answers f' t r :
  Forall (λ e, ev_thread e = t → ev_call e ≠ FReport r) h →
  schedule bridge_enabled immutable_enabled h f = Done (answers, f') → snapshots f' !! (t, r) = snapshots f !! (t, r).
Proof.
  intros Hh. revert f answers. induction Hh as [|e h He Hh IH]; intros f answers E; [by injection E as _ <-|].
  cbn [schedule] in E. unfold mbind, SM_bind in E.
  destruct (facade_call _ _ (ev_world e) (ev_thread e) (ev_call e) f) as [[a f1]| |] eqn:E1; [|done|done].
  destruct (schedule _ _ h f1) as [[l f2]| |] eqn:E2; [|done|done]. injection E as _ <-. rewrite (IH _ _ E2).
  eapply call_snapshots; [exact E1|]. intros r' Hr [= Ht ->]. by apply (He Ht).
Qed.

(** A report stays as it was handed out.  In every schedule, the string behind
    the pointer a thread got for a report holds the text that the call answered,
    whatever the other threads do afterwards, resets included, and whatever other
    reports the thread itself asks for, until it asks for the same report again. *)
Theorem held_report_is_stable h1 w t r h2 f answers f' :
  schedule bridge_enabled immutable_enabled (h1 ++ {| ev_world := w; ev_thread := t; ev_call := FReport r |} :: h2) f = Done (answers, f') →
  Forall (λ e, ev_thread e = t → ev_call e ≠ FReport r) h2 →
  ∃ text, answers !! length h1 = Some (FText text) ∧ snapshots f' !! (t, r) = Some text.
Proof.
  intros E Hh. apply schedule_app in E as (a1 & a2 & f1 & _ & E & -> & Hl). cbn [schedule ev_world ev_thread ev_call] in E.
  unfold mbind at 1, SM_bind at 1 in E. destruct (facade_call _ _ w t (FReport r) f1) as [[a f2]| |] eqn:E1; [|done|done].
  unfold mbind, SM_bind in E. destruct (schedule _ _ h2 f2) as [[l f3]| |] eqn:E2; [|done|done]. injection E as <- <-.
  apply answered_inv in E1 as (text & E1 & ->). exists text. rewrite list_lookup_middle by done. split; [done|].
  rewrite (schedule_snapshots _ _ _ _ _ _ Hh E2). unfold lockedSnapshot, mbind, SM_bind in E1.
  destruct (in_native (report r) f1) as [[v f4]| |]; [|done|done]. injection E1 as <- <-. apply lookup_insert_eq.
Qed.
End Reports.

(** * The immutable slot *)

Section Theorems.
Context `{Platform} `{OrtApi} (bridge_enabled : bool).

(** What a schedule says about the current binding. *)
Lemma schedule_tracks h answers f :
  Forall (λ e, unsigned_call (ev_call e)) h → schedule bridge_enabled true h new_facade = Done (answers, f) →
  tracks true (λ _ _, True) (Z.of_nat (length (issues h answers))) (live h answers None) (immutable f) ∧
  map (λ i, handle_generation (is_handle i)) (issues h answers) = seqZ 1 (Z.of_nat (length (issues h answers))).
Proof.
  intros Hh E. apply (tracks_schedule true bridge_enabled (λ _ _, True) (λ _, True) ltac:(done) ltac:(done) h new_facade answers f 0 None).
  - eapply Forall_impl; [exact Hh|]. by intros e ?.
  - done.
  - apply tracks_new.
Qed.

Lemma tracked_slot P n l s hd :
  tracks true P n l s →
  live_slot hd s = (if bool_decide (is_handle <$> l = Some hd) then immutable_slot s else None).
Proof.
  intros (_ & _ & _ & Hl). unfold live_slot. destruct l as [i|], (immutable_slot s) as [slot|]; try done.
  - destruct Hl as ((_ & Hg & _) & _ & Hpos & _). simpl. case_bool_decide as Hi; [injection Hi as <-|].
    + rewrite (proj2 (Z.eqb_neq _ _)) by lia. by rewrite Hg, Z.eqb_refl.
    + destruct (_ =? 0); [done|]. rewrite (proj2 (Z.eqb_neq _ _)); [done|]. intros Hn. apply Hi. f_equal.
      destruct (is_handle i), hd; simpl in *. congruence.
  - rewrite bool_decide_false by done. by case_match.
Qed.

(** C13.  Handles name one binding each.  Over every schedule of calls, the handles
    that [bind] has returned are 1, 2, 3 and so on, never one twice and never past
    64 bits; the binding that is current is the last one no release or reset has
    ended, and its bytes have the digest that was asked for, passed the envelope
    check and satisfy the declared contract.  A handle can be released exactly if
    it is the current one; an inference through any other handle, the zero handle
    included, is refused without touching the caller's memory or the slot. *)
Theorem handles_name_one_binding h answers f :
  Forall (λ e, unsigned_call (ev_call e)) h → schedule bridge_enabled true h new_facade = Done (answers, f) →
  let l := live h answers None in
  map (λ i, handle_generation (is_handle i)) (issues h answers) = seqZ 1 (Z.of_nat (length (issues h answers))) ∧
  Z.of_nat (length (issues h answers)) ≤ UINT64_MAX ∧
  (∀ i, l = Some i → issue_ok i) ∧
  (∀ hd, release true hd (immutable f) =
         Done (bool_decide (is_handle <$> l = Some hd),
               if bool_decide (is_handle <$> l = Some hd) then set_slot None (immutable f) else immutable f)) ∧
  (∀ hd w mem i ic o oc, is_handle <$> l ≠ Some hd →
     infer true w hd mem i ic o oc (immutable f) =
     Done (immutableFailure InvalidInput "stale_immutable_handle", mem, immutable f)).
Proof.
  intros Hh E. destruct (schedule_tracks h answers f Hh E) as [Ht Hg]. cbv zeta.
  pose proof (λ hd, tracked_slot _ _ _ _ hd Ht) as Hs. destruct Ht as (Hn & Hgen & Hd & Hl).
  split_and!; [done|lia| | |].
  - intros i Hi. rewrite Hi in Hl. destruct (immutable_slot (immutable f)) as [slot|]; [|done]. by destruct Hl as (_ & ? & _).
  - intros hd. unfold release. cbn [negb]. rewrite (Hs hd). case_bool_decide as Hc; [|done].
    destruct (live h answers None), (immutable_slot (immutable f)); done.
  - intros hd w mem i ic o oc Hne. unfold infer. cbn [negb]. by rewrite (Hs hd), bool_decide_false.
Qed.

Lemma reached_infers `{!OrtLaws} memory override h answers f i w mem input ic output oc :
  Forall (λ e, at_conditions memory override (ev_world e) ∧ unsigned_call (ev_call e)) h →
  schedule bridge_enabled true h new_facade = Done (answers, f) → live h answers None = Some i →
  at_conditions memory override w → 0 ≤ oc →
  said (infer true w (is_handle i) mem input ic output oc (immutable f)) = immutable_spec w i mem input ic output oc.
Proof.
  intros Hh E Hi Hw Hoc.
  assert (tracks true (warm memory override) (0 + Z.of_nat (length (issues h answers))) (live h answers None) (immutable f)) as Ht.
  { eapply (tracks_schedule true bridge_enabled (warm memory override) (at_conditions memory override)); [| |done|done|apply tracks_new].
    - intros w' i' slot Hw' Hr Hl. split; [|done]. rewrite Hr. apply routeForModel_ok; [apply new_runtime_ok|done|done].
    - intros w' i' slot slot' Hw' (scratch & -> & Hl) [Hr Hl']. split; [|by cbn; rewrite Hl].
      destruct (refresh_policy_ok memory override w' (sl_runtime slot) Hr) as [Hok Hpol]. by apply routeForModel_ok. }
  pose proof (tracked_slot _ _ _ _ (is_handle i) Ht) as Hs. rewrite Hi in *. simpl in Hs. rewrite bool_decide_true in Hs by done.
  destruct Ht as (_ & _ & _ & Hl). unfold infer. cbn [negb]. rewrite Hs.
  destruct (immutable_slot (immutable f)) as [slot|]; [|done]. destruct Hl as (Hsl & _ & _ & Hwarm). by eapply warm_infers.
Qed.

(** C14.  Inference through the current handle depends on the bound bytes and the
    moment only, while the memory size of the host and the qualification override
    stay the same.  After any schedule of calls by any threads under one memory
    size and one value of the override ([at_conditions] of every event and of the
    call; sizes and counts are unsigned, and ONNX Runtime keeps [OrtLaws]), it
    answers as a specification without a slot: the route of the moment, the
    session the bound bytes give, a zeroed scratch buffer, and on success the copy
    to the caller, whose input and output may overlap.  No earlier inference,
    refused binding, report or other change of the environment matters.  When the
    override is withdrawn the slot keeps its route
    ([withdrawn_override_keeps_the_slot]). *)
Theorem immutable_inference_refines `{!OrtLaws} memory override h answers f i w mem input ic output oc :
  Forall (λ e, at_conditions memory override (ev_world e) ∧ unsigned_call (ev_call e)) h →
  schedule bridge_enabled true h new_facade = Done (answers, f) → live h answers None = Some i →
  at_conditions memory override w → 0 ≤ oc →
  said (infer true w (is_handle i) mem input ic output oc (immutable f)) = immutable_spec w i mem input ic output oc.
Proof. apply reached_infers. Qed.

(** What an inference through the slot does to the caller's memory. *)
Definition roomy (i : Issue) (slot : ImmutableSlot) : Prop :=
  length (sl_scratch slot) = Z.to_nat (element_count (ms_output (is_model i))).

Lemma slot_infer_transactional `{!OrtLaws} w i slot mem input ic output oc s r mem' s' :
  slot_is i slot → roomy i slot → 0 ≤ oc → slot_infer w slot mem input ic output oc s = Done (r, mem', s') →
  (ir_status r = Success ∧ oc = element_count (ms_output (is_model i)) ∧ ∃ values,
     length values = Z.to_nat oc ∧ forallb isfinite values = true ∧ write_cells mem output values = Some mem') ∨
  (ir_status r ≠ Success ∧ mem' = mem).
Proof.
  intros (Hm & _) Hl Hoc. unfold slot_infer, inferPreparedCPUInto. rewrite Hm. change (ms_output (owned i)) with (ms_output (is_model i)).
  destruct (_ || _ || _ || _) eqn:Eio; [intros [= <- <- _]; by right|].
  apply orb_false_iff in Eio as [Eio _]. apply orb_false_iff in Eio as [Eio _]. apply orb_false_iff in Eio as [_ Eo%negb_false_iff%Z.eqb_eq].
  destruct (routeForModel w _ _) as [resolved r1]. destruct (negb (selected _) || _); [intros [= <- <- _]; by right|].
  destruct (negb (validateInputMatchesShape _)); [intros [= <- <- _]; by right|].
  destruct (runInto _ _ _ _ _) as [[res written]| |] eqn:Er; [|done|done].
  destruct (runInto_scratch _ _ _ _ _ _ _ Hoc Er) as (out & -> & Hlen). unfold roomy in Hl. rewrite Hl, <-Eo in Hlen. cbn [default id].
  case_bool_decide as Hs; cbn [negb]; [|intros [= <- <- _]; by right].
  destruct (negb (output_elements _ =? oc) || negb (forallb isfinite out)) eqn:Ef; [intros [= <- <- _]; by right|].
  apply orb_false_iff in Ef as [_ Ef%negb_false_iff]. rewrite firstn_all2 by lia.
  destruct (write_cells mem output out) as [m|] eqn:Ew; [|done]. intros [= <- <- _]. left. split_and!; [done|done|]. by exists out.
Qed.

(** C15.  Immutable inference is transactional.  After any schedule of calls by any
    threads with unsigned sizes and counts, whatever the hosts were like (the
    engine keeps its documented laws): when an inference reports success, its
    handle is the current one, exactly the cells of the output range changed, as
    many as the bound output has, and they hold finite numbers; with any other
    result the caller's memory is as it was, also where input and output overlap. *)
Theorem immutable_inference_is_transactional `{!OrtLaws} h answers f w hd mem input ic output oc r mem' s' :
  Forall (λ e, unsigned_call (ev_call e)) h →
  schedule bridge_enabled true h new_facade = Done (answers, f) → 0 ≤ oc →
  infer true w hd mem input ic output oc (immutable f) = Done (r, mem', s') →
  (ir_status r = Success ∧ ∃ i first values,
     live h answers None = Some i ∧ is_handle i = hd ∧ oc = element_count (ms_output (is_model i)) ∧
     cell_index mem output = Some first ∧ length values = Z.to_nat oc ∧ forallb isfinite values = true ∧
     ∀ j, mem_cells mem' !! j = if decide (first ≤ j < first + Z.to_nat oc)%nat then values !! (j - first)%nat else mem_cells mem !! j) ∨
  (ir_status r ≠ Success ∧ mem' = mem).
Proof.
  intros Hh E Hoc Ei.
  assert (tracks true roomy (0 + Z.of_nat (length (issues h answers))) (live h answers None) (immutable f)) as Ht.
  { eapply (tracks_schedule true bridge_enabled roomy (λ _, True)); [done| |by eapply Forall_impl; [exact Hh|intros e ?; split]|done|apply tracks_new].
    intros w' i' slot slot' _ (scratch & -> & Hl) Hr. unfold roomy in *. simpl. by rewrite Hl. }
  unfold infer in Ei. cbn [negb] in Ei. rewrite (tracked_slot _ _ _ _ hd Ht) in Ei.
  case_bool_decide as Hl; [|injection Ei as <- <- _; by right]. apply fmap_Some in Hl as (i & Hi & ->).
  destruct Ht as (_ & _ & _ & Ht). rewrite Hi in Ht. destruct (immutable_slot (immutable f)) as [slot|]; [|done].
  destruct Ht as (Hsl & _ & _ & Hroom).
  destruct (slot_infer_transactional _ _ _ _ _ _ _ _ _ _ _ _ Hsl Hroom Hoc Ei) as [(A1 & A2 & values & A3 & A4 & A5)|?]; [left|by right].
  split; [done|]. destruct (cell_index mem output) as [first|] eqn:Ec; [|unfold write_cells in A5; by rewrite Ec in A5].
  exists i, first, values. split_and!; try done. intros j. rewrite (write_cells_lookup _ _ _ _ _ _ A5 Ec). by rewrite A3.
Qed.

(** * What can be bound *)

Definition int64_shapes (m : ModelSpec) : Prop :=
  Forall (λ d, d < 2 ^ 63) (shape (ms_input m)) ∧ Forall (λ d, d < 2 ^ 63) (shape (ms_output m)).

(** A self-contained ONNX model on the processor, with concrete tensors. *)
Definition bindable (m : ModelSpec) : Prop :=
  ms_format m = Onnx ∧ ms_precision m = "float32" ∧ ms_allow_fallback m = false ∧ ms_backend_preference m = [OnnxRuntimeCPU] ∧
  concrete_float32 (ms_input m) ∧ concrete_float32 (ms_output m).

Lemma immutable_contract_exact m : int64_shapes m → immutable_contract m = true ↔ bindable m.
Proof.
  intros [Hi Ho]. unfold immutable_contract, bindable.
  rewrite !andb_true_iff, !bool_decide_eq_true, negb_true_iff, (immutableShape_exact _ Hi), (immutableShape_exact _ Ho). tauto.
Qed.

(** The bytes are a model of the closed set. *)
Definition closed_model (bytes : list byte) : Prop :=
  ∃ fs, encodes fs bytes ∧ fields_ok Model 0 fs = true ∧ complete Model (tally Model no_counts fs) = true ∧ total_fields fs ≤ 1000000.

Definition prepares (w : World) (m : ModelSpec) (snapshot : list byte) (d : string) : Prop :=
  ∃ session r, prepare w (with_path (immutable_path d) m) (immutable_configuration snapshot) (new_runtime w) = (inr session, r).

(** The conditions under which [bind] returns a handle. *)
Definition accepted (w : World) (m : ModelSpec) (snapshot : list byte) (d : string) (s : Immutable) : Prop :=
  1 ≤ Z.of_nat (length snapshot) ≤ 16 * 1024 * 1024 ∧ d = digest (map byte_value snapshot) ∧ bindable m ∧
  closed_model snapshot ∧ immutable_generation s ≠ UINT64_MAX ∧ prepares w m snapshot d.

(** Once the guards have passed, the digest, the envelope and the session decide. *)
Lemma bind_snapshot_exact w m snapshot d s :
  1 ≤ Z.of_nat (length snapshot) ≤ 16 * 1024 * 1024 → 0 ≤ immutable_generation s →
  ∃ b s', bind_snapshot w m snapshot d s = Done (b, s') ∧
    (bound_handle b ≠ no_handle ↔ d = digest (map byte_value snapshot) ∧ closed_model snapshot ∧ prepares w m snapshot d).
Proof.
  intros Hlen Hg. unfold bind_snapshot.
  assert (snapshot_digest snapshot = digest (map byte_value snapshot)) as ->.
  { apply sha256_short. rewrite length_map. unfold UINT64_MAX. width. }
  destruct (validate_exact snapshot) as (ok & Hv & Hok); [lia|]. rewrite Hv. fold (closed_model snapshot) in Hok.
  case_bool_decide as Hd; cbn [negb]; [|eexists _, _; split; [done|]; split; [done|]; intros (? & _); congruence].
  destruct ok; [|eexists _, _; split; [done|]; split; [done|]; intros (_ & ?%Hok & _); done].
  unfold prepares. destruct (prepare w _ _ _) as [[e|session] r]; eexists _, _; (split; [done|]).
  - split; [done|]. by intros (_ & _ & ? & ? & ?).
  - split; [|intros _; intros [=]; lia]. intros _. split_and!; [done|by apply Hok|by eexists _, _].
Qed.

(** C16.  Binding is exact.  On readable bytes [bind] returns, and it returns a handle
    exactly if the bytes are at least one and at most 16 MiB, their SHA-256 digest
    is the one asked for, they encode a model of the closed set, the declaration is
    a concrete float32 contract on the processor with 1 to 8 positive dimensions
    and at most 65536 elements per tensor, the generations are not exhausted and
    a session can be prepared from the bytes.  The handle is then the next
    generation; otherwise nothing changes. *)
Theorem bind_accepts_exactly w m readable size d s :
  int64_shapes m → 0 ≤ size ≤ Z.of_nat (length readable) → 0 ≤ immutable_generation s ≤ UINT64_MAX →
  ∃ b s', bind true w m (Some readable) size d s = Done (b, s') ∧
    (bound_handle b ≠ no_handle ↔ accepted w m (take (Z.to_nat size) readable) d s) ∧
    (bound_handle b = no_handle → s' = s) ∧
    (bound_handle b ≠ no_handle →
     handle_generation (bound_handle b) = immutable_generation s + 1 ∧ immutable_generation s' = immutable_generation s + 1).
Proof.
  intros Hshape Hsize Hg. set (snapshot := take (Z.to_nat size) readable).
  assert (Z.of_nat (length snapshot) = size) as Hlen by (unfold snapshot; rewrite length_take; lia).
  assert (∀ b s', bind true w m (Some readable) size d s = Done (b, s') →
            (bound_handle b = no_handle → s' = s) ∧
            (bound_handle b ≠ no_handle → handle_generation (bound_handle b) = immutable_generation s + 1 ∧
                                          immutable_generation s' = immutable_generation s + 1)) as Hstep.
  { intros b s' [[Hb ->]|(_ & _ & -> & _ & slot & -> & _)]%bind_step; [|split; [intros [=]; lia|done]|lia]. by split. }
  assert (∀ why, bind true w m (Some readable) size d s = Done (refused_binding why, s) → ¬ accepted w m snapshot d s →
    ∃ b s', bind true w m (Some readable) size d s = Done (b, s') ∧ (bound_handle b ≠ no_handle ↔ accepted w m snapshot d s)) as Href.
  { intros why E Hn. eexists _, _. split; [exact E|]. by split. }
  cut (∃ b s', bind true w m (Some readable) size d s = Done (b, s') ∧ (bound_handle b ≠ no_handle ↔ accepted w m snapshot d s)).
  { intros (b & s' & E & Hb). exists b, s'. split_and!; [done|done|by apply Hstep|by apply Hstep]. }
  clear Hstep. unfold bind in *. cbn [negb] in *. destruct ((size =? 0) || _ || _ || _) eqn:Eg.
  { eapply Href; [done|]. intros (Hl & Hd & _). rewrite Hd in Eg. destruct (digest_text (map byte_value snapshot)) as [Ht Hh].
    unfold all_hex in Hh. rewrite Ht, Hh in Eg. apply orb_true_iff in Eg as [Eg|]; [|done]. apply orb_true_iff in Eg as [Eg|]; [|done].
    apply orb_true_iff in Eg as [?%Z.eqb_eq|?%Z.ltb_lt]; lia. }
  apply orb_false_iff in Eg as [Eg _]. apply orb_false_iff in Eg as [Eg _]. apply orb_false_iff in Eg as [Ez%Z.eqb_neq Em%Z.ltb_ge].
  pose proof (immutable_contract_exact m Hshape) as Hc. destruct (immutable_contract m); cbn [negb] in *.
  2: { eapply Href; [done|]. intros (_ & _ & Hbind & _). by apply Hc in Hbind. }
  destruct (Z.eqb_spec (immutable_generation s) UINT64_MAX) as [Hx|Hx]; [eapply Href; [done|]; by intros (_ & _ & _ & _ & ? & _)|].
  rewrite (proj2 (Z.ltb_ge _ _)) by lia. destruct (bind_snapshot_exact w m snapshot d s) as (b & s' & E & Hb); [lia|lia|].
  exists b, s'. split; [done|]. rewrite Hb. unfold accepted. assert (bindable m) by by apply Hc.
  split; [intros (? & ? & ?); split_and!; done || lia|]. by intros (_ & ? & _ & ? & _ & ?).
Qed.
End Theorems.

(** * An example *)

(** The smallest model of the closed set, its digest, and a contract for it. *)
Definition small_bytes : list byte := [x08; x08; x3a; x00; x42; x02; x10; x0d].
Definition small_digest : string := "d7c61fae2fe2a30da93fe09ed572178b97711faf654679e8a57c8d6fae42a099".
Definition small_model : ModelSpec := {|
  ms_name := "m"; ms_path := "missing.onnx"; ms_format := Onnx; ms_task := ""; ms_precision := "float32";
  ms_input := one_tensor "x"; ms_output := one_tensor "y"; ms_backend_preference := [OnnxRuntimeCPU];
  ms_compact := false; ms_allow_fallback := false; ms_quality_metric := ""; ms_quality_op := "";
  ms_quality_threshold := dzero |}.

(** Two cells; the inference reads the first and writes the first. *)
Definition small_memory : Memory := {| mem_base := 4096; mem_cells := [float_one; float_one] |}.
Definition small_bind : FacadeCall := FBind small_model (Some small_bytes) 8 small_digest.
Definition small_infer (g : Z) : FacadeCall := FInferImmutable {| handle_generation := g |} small_memory 4096 1 4096 1.
Definition at_time (unqualified : bool) (t : Thread) (c : FacadeCall) : Event :=
  {| ev_world := toy_world [] unqualified; ev_thread := t; ev_call := c |}.

Definition small_events : list Event :=
  [at_time false 1 small_bind; at_time false 1 (FReport LastBackend); at_time false 2 (small_infer 1);
   at_time false 2 small_bind; at_time false 1 (small_infer 1); at_time false 2 FReset; at_time false 1 small_bind].

#[local] Notation run_small build h :=
  (schedule (H := build) (H0 := toy_ort) true true h (new_facade (H0 := toy_ort))).

(** The second inference uses a handle that the second binding has replaced. *)
Example small_schedule_runs :
  match run_small linux_build small_events with
  | Done ([FBound b1; FText t; FResult r1 m1; FBound b2; FResult r2 m2; FStatus _; FBound b3], _) =>
      (map (λ b, handle_generation (bound_handle b)) [b1; b2; b3], t, (ir_status r1, mem_cells m1), (reason r2, mem_cells m2))
  | _ => ([], "", (NotExecuted, []), ("", []))
  end =
  ([1; 2; 3], "none", (Success, [float_two; float_one]), ("stale_immutable_handle", [float_one; float_one])).
Proof. vm_compute. reflexivity. Qed.

(** The override is withdrawn after the first inference; the warm slot goes on
    executing, although its route would be refused now. *)
Example withdrawn_override_keeps_the_slot :
  match run_small other_build [at_time true 1 small_bind; at_time false 1 (small_infer 1)] with
  | Done ([FBound b; FResult r _], _) => (handle_generation (bound_handle b), ir_status r)
  | _ => (0, NotExecuted)
  end = (1, Success) ∧
  selected (route_now (H := other_build) (toy_world [] false) small_model) = false.
Proof. split; vm_compute; reflexivity. Qed.

Lemma small_unsigned : Forall (λ e, unsigned_call (ev_call e)) small_events.
Proof. repeat constructor; simpl; lia. Qed.

Lemma small_conditions :
  Forall (λ e, at_conditions "MemTotal: 2048 kB" false (ev_world e) ∧ unsigned_call (ev_call e)) small_events.
Proof. repeat constructor; simpl; lia. Qed.

Lemma handles_name_one_binding_witness :
  ∃ answers f, run_small linux_build small_events = Done (answers, f) ∧
    map (λ i, handle_generation (is_handle i)) (issues small_events answers) =
    seqZ 1 (Z.of_nat (length (issues small_events answers))).
Proof.
  assert (returned (run_small linux_build small_events) = true) as D by (vm_compute; reflexivity).
  destruct (run_small linux_build small_events) as [[answers f]| |] eqn:E; [|discriminate D|discriminate D].
  exists answers, f. split; [reflexivity|].
  exact (proj1 (handles_name_one_binding (H := linux_build) (H0 := toy_ort) true small_events answers f small_unsigned E)).
Defined.

Definition live_small (answers : list FacadeAnswer) : bool := bool_decide (is_Some (live small_events answers None)).

Lemma immutable_inference_refines_witness :
  ∃ answers f i, run_small linux_build small_events = Done (answers, f) ∧ live small_events answers None = Some i ∧
    said (infer (H := linux_build) (H0 := toy_ort) true (toy_world [] false) (is_handle i) small_memory 4096 1 4096 1 (immutable f)) =
    immutable_spec (H := linux_build) (H0 := toy_ort) (toy_world [] false) i small_memory 4096 1 4096 1.
Proof.
  assert (match run_small linux_build small_events with Done (a, _) => live_small a | _ => false end = true) as D
    by (vm_compute; reflexivity).
  destruct (run_small linux_build small_events) as [[answers f]| |] eqn:E; [|discriminate D|discriminate D].
  unfold live_small in D. destruct (live small_events answers None) as [i|] eqn:Ei; [|discriminate D].
  exists answers, f, i. split; [reflexivity|]. split; [exact Ei|].
  refine (immutable_inference_refines (H := linux_build) (H0 := toy_ort) true (H1 := toy_laws) "MemTotal: 2048 kB" false
            small_events answers f i (toy_world [] false) small_memory 4096 1 4096 1 small_conditions E Ei _ _).
  - split; vm_compute; reflexivity.
  - lia.
Defined.

(** The override is withdrawn between the binding and the inference. *)
Definition withdrawn_events : list Event := [at_time true 1 small_bind; at_time true 2 (small_infer 1)].

Lemma immutable_inference_is_transactional_witness :
  ∃ answers f r mem s, run_small other_build withdrawn_events = Done (answers, f) ∧
    infer (H := other_build) (H0 := toy_ort) true (toy_world [] false) {| handle_generation := 1 |} small_memory 4096 1 4096 1
      (immutable f) = Done (r, mem, s) ∧ ir_status r = Success ∧
    ∃ first values, cell_index small_memory 4096 = Some first ∧ length values = 1%nat ∧ forallb isfinite values = true ∧
      ∀ j, mem_cells mem !! j = if decide (first ≤ j < first + 1)%nat then values !! (j - first)%nat else mem_cells small_memory !! j.
Proof.
  assert (match run_small other_build withdrawn_events with
          | Done (_, f) =>
              match infer (H := other_build) (H0 := toy_ort) true (toy_world [] false) {| handle_generation := 1 |} small_memory 4096 1 4096 1
                      (immutable f) with
              | Done (r, _, _) => ir_status r = Success
              | _ => False
              end
          | _ => False
          end) as D by (vm_compute; reflexivity).
  destruct (run_small other_build withdrawn_events) as [[answers f]| |] eqn:E; [|destruct D..].
  destruct (infer (H := other_build) (H0 := toy_ort) true (toy_world [] false) {| handle_generation := 1 |} small_memory 4096 1 4096 1 (immutable f))
    as [[[r mem] s]| |] eqn:Er; [|destruct D..].
  exists answers, f, r, mem, s. split; [reflexivity|]. split; [exact Er|]. split; [exact D|].
  assert (Forall (λ e, unsigned_call (ev_call e)) withdrawn_events) as Hu by (repeat constructor; simpl; lia).
  destruct (immutable_inference_is_transactional (H := other_build) (H0 := toy_ort) true (H1 := toy_laws)
            withdrawn_events answers f (toy_world [] false) {| handle_generation := 1 |} small_memory 4096 1 4096 1 r mem s Hu E)
    as [(_ & i & first & values & _ & _ & _ & Hc & Hl & Hf & Hj)|[Hs _]]; [lia|exact Er| |destruct (Hs D)].
  exists first, values. split; [exact Hc|]. split; [exact Hl|]. split; [exact Hf|exact Hj].
Defined.

Lemma bind_accepts_exactly_witness :
  ∃ b s, bind (H := linux_build) (H0 := toy_ort) true (toy_world [] false) small_model (Some small_bytes) 8 small_digest
           (no_immutable (H0 := toy_ort)) = Done (b, s) ∧
    (bound_handle b ≠ no_handle ↔
     accepted (H := linux_build) (H0 := toy_ort) (toy_world [] false) small_model (take 8 small_bytes) small_digest no_immutable).
Proof.
  destruct (bind_accepts_exactly (H := linux_build) (H0 := toy_ort) (toy_world [] false) small_model small_bytes 8 small_digest no_immutable)
    as (b & s & E & Hb & _); [split; repeat constructor|simpl; lia|simpl; unfold UINT64_MAX; lia|].
  exists b, s. split; [exact E|exact Hb].
Defined.

Lemma held_report_is_stable_witness :
  ∃ answers f text, run_small linux_build small_events = Done (answers, f) ∧
    answers !! 1%nat = Some (FText text) ∧ snapshots f !! (1, LastBackend) = Some text.
Proof.
  assert (returned (run_small linux_build small_events) = true) as D by (vm_compute; reflexivity).
  destruct (run_small linux_build small_events) as [[answers f]| |] eqn:E; [|discriminate D|discriminate D].
  destruct (held_report_is_stable (H := linux_build) (H0 := toy_ort) true true [at_time false 1 small_bind] (toy_world [] false) 1 LastBackend
              (drop 2 small_events) _ answers f E) as (text & Ha & Hs); [repeat constructor; simpl; intros; discriminate|].
  exists answers, f, text. split; [reflexivity|]. split; [exact Ha|exact Hs].
Defined.
