(* ===== verification/EnterpriseLanguage.v ===== *)
(** Component: validation of enterprise sources
    (enterprise/EnterpriseLanguage.h and .cpp): composite type declarations and
    ownership operations, one per line, checked with the descriptors and the
    ownership tracker of the production type system.

    A function with [code], [message] and [line] out-parameters returns a sum:
    the failure on the left, or its result.  What the file system answers about
    the source and the limits of the parser are arguments. *)
From stdpp Require Import sorting.
From S2P Require Import Prelude CxxInt CxxString CxxPath TypeSystem ParserGuard JsonText.
Import TypeSystem.Descriptors(TypeKind(..), Field, TypeDescriptor).
Open Scope string_scope.
Open Scope Z_scope.

Definition kContractVersion : string := "shorthand.enterprise_language.v1".

(** * Texts *)

Definition trim (value : string) : string := drop_while_end isspace (drop_while isspace value).

(** The text before the first [#] or [//]. *)
Fixpoint before_comment (value : string) : string :=
  match value with
  | EmptyString => EmptyString
  | String c rest =>
      if (c =? "#")%char then EmptyString
      else if (c =? "/")%char && bool_decide (front rest = Some "/"%char) then EmptyString
      else String c (before_comment rest)
  end.

Definition withoutComment (value : string) : string := trim (before_comment value).

Definition is_punctuation (c : ascii) : bool := existsb (Ascii.eqb c) [";"; "{"; "}"; "<"; ">"; ","]%char.

(** The words [in >> word] reads. *)
Fixpoint words_from (current : string) (line : string) : list string :=
  match line with
  | EmptyString => if is_empty current then [] else [current]
  | String c rest =>
      if isspace c then (if is_empty current then words_from "" rest else current :: words_from "" rest)
      else words_from (current +:+ String c "") rest
  end.

Definition words (value : string) : list string :=
  words_from "" (string_map (λ c, if is_punctuation c then " "%char else c) value).

Definition validIdentifier (value : string) : bool :=
  match value with
  | EmptyString => false
  | String first _ => (isalpha first || (first =? "_")%char) && string_forallb (λ c, isalnum c || (c =? "_")%char) value
  end.

(** The loop visits the parts between the dots. *)
Definition validNamespace (value : string) : bool :=
  if is_empty value || bool_decide (front value = Some "."%char) || bool_decide (back value = Some "."%char) then false
  else forallb validIdentifier (split_at "." value).

Definition scalarKind (name : string) : option TypeKind :=
  if String.eqb name "bool" then Some KBool
  else if String.eqb name "int32" then Some KInt32
  else if String.eqb name "float64" then Some KFloat64
  else if String.eqb name "string" then Some KString
  else None.

Definition diagnosticCode (diagnostic fallback : string) : string :=
  if (7 <=? str_size diagnostic) && String.prefix "SHD" diagnostic then String.substring 0 7 diagnostic else fallback.

Definition ends_with (text : string) (c : ascii) : bool := bool_decide (back text = Some c).

(** * State *)

Record ValidationSummary := {
  namespace_name : string; canonical_types : list string; ownership_values : Z; ownership_operations : Z;
}.

Record Borrow := { owner : string; mutable_borrow : bool }.
#[export] Instance Borrow_eq_dec : EqDecision Borrow.
Proof. solve_decision. Defined.

(** The declaration being read: [in_record] and [in_enum] with the variables
    that belong to them. *)
Inductive Active := NoActive | ActiveRecord (name : string) (fields : list Field) | ActiveEnum (name : string) (variants : list string).

(** The local variables of [validateSourceFile]. *)
Record Session := {
  contract_seen : bool; namespace_seen : bool; active : Active; namespace_ : string;
  types : gmap string TypeDescriptor; value_types : gmap string string; borrows : gmap string Borrow;
  ownership : Ownership.OwnershipTracker; operations : Z;
}.

Definition new_session : Session := {|
  contract_seen := false; namespace_seen := false; active := NoActive; namespace_ := "";
  types := ∅; value_types := ∅; borrows := ∅; ownership := ∅; operations := 0 |}.

Definition with_contract (s : Session) : Session := {|
  contract_seen := true; namespace_seen := namespace_seen s; active := active s; namespace_ := namespace_ s;
  types := types s; value_types := value_types s; borrows := borrows s; ownership := ownership s; operations := operations s |}.
Definition with_namespace (n : string) (s : Session) : Session := {|
  contract_seen := contract_seen s; namespace_seen := true; active := active s; namespace_ := n;
  types := types s; value_types := value_types s; borrows := borrows s; ownership := ownership s; operations := operations s |}.
Definition with_active (a : Active) (s : Session) : Session := {|
  contract_seen := contract_seen s; namespace_seen := namespace_seen s; active := a; namespace_ := namespace_ s;
  types := types s; value_types := value_types s; borrows := borrows s; ownership := ownership s; operations := operations s |}.
Definition with_type (name : string) (d : TypeDescriptor) (s : Session) : Session := {|
  contract_seen := contract_seen s; namespace_seen := namespace_seen s; active := active s; namespace_ := namespace_ s;
  types := <[name := d]> (types s); value_types := value_types s; borrows := borrows s; ownership := ownership s;
  operations := operations s |}.

(** The effect of an accepted operation: [++summary.ownership_operations]. *)
Definition with_operation (vt : gmap string string) (bs : gmap string Borrow) (o : Ownership.OwnershipTracker) (s : Session)
    : Session := {|
  contract_seen := contract_seen s; namespace_seen := namespace_seen s; active := active s; namespace_ := namespace_ s;
  types := types s; value_types := vt; borrows := bs; ownership := o; operations := u64 (operations s + 1) |}.

(** Code and message of a failure. *)
Definition Refusal : Type := string * string.
Definition malformed (message : string) : Refusal := ("SHD3024", message).
Definition duplicate (message : string) : Refusal := ("SHD3025", message).
Definition forbidden (diagnostic : string) : Refusal := ("SHD3016", diagnostic).

Definition declared {A} (name : string) (m : gmap string A) : bool := bool_decide (is_Some (m !! name)).

(** * Declarations of types *)

Definition register_type (name : string) (d : TypeDescriptor) (s : Session) : Refusal + Session :=
  if negb (validIdentifier name) then inl (malformed ("invalid enterprise type name `" +:+ name +:+ "`"))
  else if declared name (types s) then inl (duplicate ("duplicate enterprise type `" +:+ name +:+ "`"))
  else let '(valid, diagnostic) := Descriptors.validate d in
       if negb valid then inl (diagnosticCode diagnostic "SHD3024", diagnostic)
       else inr (with_type name d s).

Definition record_line (name : string) (fields : list Field) (text : string) (s : Session) : Refusal + Session :=
  if String.eqb text "};" then
    match register_type name (Descriptors.record (namespace_ s +:+ "." +:+ name) fields) s with
    | inl e => inl e
    | inr s => inr (with_active NoActive s)
    end
  else match words text with
  | [kind; field] =>
      if negb (ends_with text ";") then inl (malformed "record field must be `<scalar> <name>;`")
      else match scalarKind kind with
      | Some k =>
          if validIdentifier field
          then inr (with_active (ActiveRecord name (fields ++ [{| Descriptors.field_name := field; Descriptors.field_kind := k |}])) s)
          else inl (malformed "record fields require bool, int32, float64, or string and a valid name")
      | None => inl (malformed "record fields require bool, int32, float64, or string and a valid name")
      end
  | _ => inl (malformed "record field must be `<scalar> <name>;`")
  end.

Definition enum_line (name : string) (variants : list string) (text : string) (s : Session) : Refusal + Session :=
  if String.eqb text "};" then
    match register_type name (Descriptors.enumeration (namespace_ s +:+ "." +:+ name) variants) s with
    | inl e => inl e
    | inr s => inr (with_active NoActive s)
    end
  else match words text with
  | [variant] =>
      if negb (ends_with text ";") || negb (validIdentifier variant) then inl (malformed "enum variant must be `<name>;`")
      else inr (with_active (ActiveEnum name (variants ++ [variant])) s)
  | _ => inl (malformed "enum variant must be `<name>;`")
  end.

Definition payload_line (is_slice : bool) (parts : list string) (text : string) (s : Session) : Refusal + Session :=
  match parts with
  | [_; name; payload] =>
      if negb (ends_with text ";") then inl (malformed "slice/option declaration requires a name and scalar payload")
      else match scalarKind payload with
      | Some k => register_type name (if is_slice then Descriptors.slice k else Descriptors.option_ k) s
      | None => inl (malformed "slice/option payload must be scalar")
      end
  | _ => inl (malformed "slice/option declaration requires a name and scalar payload")
  end.

Definition result_line (parts : list string) (text : string) (s : Session) : Refusal + Session :=
  match parts with
  | [_; name; ok; error] =>
      if negb (ends_with text ";") then inl (malformed "result declaration requires a name, ok scalar, and error scalar")
      else match scalarKind ok, scalarKind error with
      | Some k, Some e => register_type name (Descriptors.result_ k e) s
      | _, _ => inl (malformed "result payloads must be scalar")
      end
  | _ => inl (malformed "result declaration requires a name, ok scalar, and error scalar")
  end.

(** * Ownership operations *)

(** [declareValue] and [initialize] of a new value. *)
Definition new_value (name : string) (o : Ownership.OwnershipTracker) : Ownership.op_result :=
  let '(r, diagnostic, o) := Ownership.declareValue name o in
  if r then Ownership.initialize name o else (r, diagnostic, o).

Definition owned_line (parts : list string) (text : string) (s : Session) : Refusal + Session :=
  match parts with
  | [_; type; name] =>
      if negb (ends_with text ";") || negb (declared type (types s)) || negb (validIdentifier name)
      then inl (malformed "owned declaration requires a declared enterprise type and value name")
      else if declared name (value_types s) || declared name (borrows s)
      then inl (duplicate ("duplicate ownership value `" +:+ name +:+ "`"))
      else let '(r, diagnostic, o) := new_value name (ownership s) in
           if negb r then inl (forbidden diagnostic)
           else inr (with_operation (<[name := type]> (value_types s)) (borrows s) o s)
  | _ => inl (malformed "owned declaration requires a declared enterprise type and value name")
  end.

Definition move_line (parts : list string) (text : string) (s : Session) : Refusal + Session :=
  match parts with
  | [_; from; to; name] =>
      match value_types s !! from with
      | None => inl (malformed "move must be `move <owner> to <new_owner>;`")
      | Some type =>
          if negb (String.eqb to "to") || negb (ends_with text ";") || negb (validIdentifier name)
          then inl (malformed "move must be `move <owner> to <new_owner>;`")
          else if declared name (value_types s) || declared name (borrows s)
          then inl (duplicate ("duplicate ownership value `" +:+ name +:+ "`"))
          else
            let '(r, diagnostic, o) := Ownership.moveValue from (ownership s) in
            let '(r, diagnostic, o) := if r then new_value name o else (r, diagnostic, o) in
            if negb r then inl (forbidden diagnostic)
            else inr (with_operation (<[name := type]> (value_types s)) (borrows s) o s)
      end
  | _ => inl (malformed "move must be `move <owner> to <new_owner>;`")
  end.

Definition borrow_mode (word : string) : option bool :=
  if String.eqb word "shared" then Some false else if String.eqb word "mutable" then Some true else None.

Definition borrow_line (parts : list string) (text : string) (s : Session) : Refusal + Session :=
  match parts with
  | [_; mode; from; as_; view] =>
      match borrow_mode mode with
      | None => inl (malformed "borrow must be `borrow shared|mutable <owner> as <view>;`")
      | Some mutable =>
          if negb (String.eqb as_ "as") || negb (ends_with text ";") || negb (declared from (value_types s)) ||
             negb (validIdentifier view)
          then inl (malformed "borrow must be `borrow shared|mutable <owner> as <view>;`")
          else if declared view (borrows s) || declared view (value_types s)
          then inl (duplicate ("duplicate ownership identity `" +:+ view +:+ "`"))
          else
            let '(r, diagnostic, o) := (if mutable : bool then Ownership.borrowMutable else Ownership.borrowShared) from (ownership s) in
            if negb r then inl (forbidden diagnostic)
            else inr (with_operation (value_types s) (<[view := {| owner := from; mutable_borrow := mutable |}]> (borrows s)) o s)
      end
  | _ => inl (malformed "borrow must be `borrow shared|mutable <owner> as <view>;`")
  end.

Definition release_line (parts : list string) (text : string) (s : Session) : Refusal + Session :=
  match parts with
  | [_; view] =>
      match borrows s !! view with
      | Some borrow =>
          if negb (ends_with text ";") then inl (forbidden "release references an unknown borrow")
          else
            let '(r, diagnostic, o) :=
              (if mutable_borrow borrow then Ownership.releaseMutable else Ownership.releaseShared) (owner borrow) (ownership s) in
            if negb r then inl (forbidden diagnostic)
            else inr (with_operation (value_types s) (delete view (borrows s)) o s)
      | None => inl (forbidden "release references an unknown borrow")
      end
  | _ => inl (forbidden "release references an unknown borrow")
  end.

Definition access_line (reading : bool) (parts : list string) (text : string) (s : Session) : Refusal + Session :=
  match parts with
  | [_; name] =>
      if negb (ends_with text ";") || negb (declared name (value_types s))
      then inl (malformed "read/assign requires a declared ownership value")
      else
        let '(r, diagnostic, o) := (if reading then Ownership.read else Ownership.assign) name (ownership s) in
        if negb r then inl (forbidden diagnostic)
        else inr (with_operation (value_types s) (borrows s) o s)
  | _ => inl (malformed "read/assign requires a declared ownership value")
  end.

(** * Lines *)

Definition open_line (is_record : bool) (parts : list string) (text : string) (s : Session) : Refusal + Session :=
  let why := if is_record then "record declaration must be `record <name> {`" else "enum declaration must be `enum <name> {`" in
  match parts with
  | [_; name] =>
      if negb (ends_with text "{") || negb (validIdentifier name) then inl (malformed why)
      else inr (with_active (if is_record then ActiveRecord name [] else ActiveEnum name []) s)
  | _ => inl (malformed why)
  end.

(** A line after the contract and the name space, outside a composite. *)
Definition declaration_line (parts : list string) (text : string) (s : Session) : Refusal + Session :=
  let keyword := default "" (head parts) in
  let keyed k := String.eqb keyword k in
  if keyed "record" then open_line true parts text s
  else if keyed "enum" then open_line false parts text s
  else if keyed "slice" || keyed "option" then payload_line (keyed "slice") parts text s
  else if keyed "result" then result_line parts text s
  else if keyed "owned" then owned_line parts text s
  else if keyed "move" then move_line parts text s
  else if keyed "borrow" then borrow_line parts text s
  else if keyed "release" then release_line parts text s
  else if keyed "read" || keyed "assign" then access_line (keyed "read") parts text s
  else inl (malformed "unsupported enterprise declaration or ownership operation").

Definition contract_line (parts : list string) (text : string) (s : Session) : Refusal + Session :=
  match parts with
  | [language; version] =>
      if negb (String.eqb language "language") || negb (String.eqb version kContractVersion) || negb (ends_with text ";")
      then inl (malformed "first declaration must be `language shorthand.enterprise_language.v1;`")
      else inr (with_contract s)
  | _ => inl (malformed "first declaration must be `language shorthand.enterprise_language.v1;`")
  end.

Definition namespace_line (parts : list string) (text : string) (s : Session) : Refusal + Session :=
  match parts with
  | [keyword; name] =>
      if negb (String.eqb keyword "namespace") || negb (validNamespace name) || negb (ends_with text ";")
      then inl (malformed "second declaration must be a valid namespace")
      else inr (with_namespace name s)
  | _ => inl (malformed "second declaration must be a valid namespace")
  end.

(** The body of the loop once the text of the line is known not to be empty. *)
Definition text_line (text : string) (s : Session) : Refusal + Session :=
  match active s with
  | ActiveRecord name fields => record_line name fields text s
  | ActiveEnum name variants => enum_line name variants text s
  | NoActive =>
      let parts := words text in
      if bool_decide (parts = []) then inl (malformed "unsupported enterprise punctuation")
      else if negb (contract_seen s) then contract_line parts text s
      else if negb (namespace_seen s) then namespace_line parts text s
      else declaration_line parts text s
  end.

(** * The source *)

Record Failure := { code : string; message : string; line : Z }.
Definition failure (current_line : Z) (r : Refusal) : Failure := {| code := r.1; message := r.2; line := current_line |}.

(** The loop over the lines; the last number of the result counts them. *)
Fixpoint lines_loop (limits : ParserLimits) (raws : list string) (current_line statement_lines : Z) (s : Session)
    : Failure + (Session * Z) :=
  match raws with
  | [] => inr (s, current_line)
  | raw :: raws =>
      let current_line := current_line + 1 in
      if max_token_bytes limits <? str_size raw
      then inl (failure current_line ("SHD2005", "enterprise source line exceeds the token-size limit"))
      else
        let text := withoutComment raw in
        if is_empty text then lines_loop limits raws current_line statement_lines s
        else
          let statement_lines := statement_lines + 1 in
          if max_scanner_matches limits <? statement_lines
          then inl (failure current_line ("SHD2006", "enterprise source exceeds the statement-work limit"))
          else match text_line text s with
               | inl r => inl (failure current_line r)
               | inr s => lines_loop limits raws current_line statement_lines s
               end
  end.

Definition finish_source (s : Session) (current_line : Z) : Failure + ValidationSummary :=
  if negb (contract_seen s) || negb (namespace_seen s) then
    inl (failure (if current_line =? 0 then 1 else current_line)
           (malformed "enterprise source is missing its contract or namespace declaration"))
  else match active s with
  | NoActive =>
      if negb (bool_decide (borrows s = ∅))
      then inl (failure current_line (forbidden "all borrows must be released before end of source"))
      else if bool_decide (types s = ∅)
      then inl (failure current_line (malformed "enterprise source must declare at least one composite type"))
      else inr {|
        namespace_name := namespace_ s;
        canonical_types := sort_strings (map (λ e, namespace_ s +:+ "::" +:+ e.1 +:+ "=" +:+ Descriptors.canonicalName e.2) (items (types s)));
        ownership_values := Z.of_nat (size (value_types s)); ownership_operations := operations s |}
  | _ => inl (failure current_line (malformed "unterminated composite declaration"))
  end.

(** What the file system says about the source. *)
Record SourceFile := { regular : bool; file_size : option Z; content : option string }.

Definition validateSourceFile (limits : ParserLimits) (file : SourceFile) : Failure + ValidationSummary :=
  if negb (regular file) then inl (failure 1 (malformed "enterprise source must be a readable regular file"))
  else match file_size file with
  | None => inl (failure 1 (malformed "cannot inspect enterprise source size"))
  | Some size =>
      if max_source_bytes limits <? size then inl (failure 1 ("SHD2004", "enterprise source exceeds the source-size limit"))
      else match content file with
      | None => inl (failure 1 (malformed "cannot read enterprise source"))
      | Some text =>
          match lines_loop limits (getline_split chr_newline text) 0 0 new_session with
          | inl e => inl e
          | inr (s, current_line) => finish_source s current_line
          end
      end
  end.

Definition escape_char (c : ascii) : string :=
  if (c =? chr_quote)%char || (c =? chr_bslash)%char then String chr_bslash (String c "")
  else if (c =? chr_newline)%char then String chr_bslash "n"
  else if (c =? "013")%char then String chr_bslash "r"
  else if (c =? "009")%char then String chr_bslash "t"
  else String c "".

Fixpoint jsonEscape (value : string) : string :=
  match value with
  | EmptyString => ""
  | String c rest => escape_char c +:+ jsonEscape rest
  end.

Definition writeSummaryJson (summary : ValidationSummary) : string :=
  dq "{'schema':'" +:+ kContractVersion +:+ dq "','namespace':'" +:+ jsonEscape (namespace_name summary) +:+
  dq "','types':[" +:+
  join_with "," (map (λ t, dq "'" +:+ jsonEscape t +:+ dq "'") (canonical_types summary)) +:+
  dq "],'ownership_values':" +:+ pretty (ownership_values summary) +:+
  dq ",'ownership_operations':" +:+ pretty (ownership_operations summary) +:+ dq ",'production_claim':false}".

(** A source with a record, a moved value and a borrow. *)
Example small_source_is_accepted :
  validateSourceFile {| max_source_bytes := MaxSourceBytes; max_scanner_matches := MaxScannerMatches; max_token_bytes := MaxTokenBytes;
                        max_nesting_depth := MaxNestingDepth |}
    {| regular := true; file_size := Some 200; content := Some (join_with (String chr_newline "")
         ["language shorthand.enterprise_language.v1;  # contract"; "namespace billing.core;"; "record Invoice {"; "  int32 id;";
          "  string label;"; "};"; ""; "owned Invoice first;"; "borrow shared first as view;"; "release view;";
          "move first to second; // done"]) |} =
  inr {| namespace_name := "billing.core"; canonical_types := ["billing.core::Invoice=record<billing.core.Invoice>"];
         ownership_values := 2; ownership_operations := 4 |}.
Proof. vm_compute. reflexivity. Qed.
