(* ===== verification/EnterpriseFacts.v ===== *)
(** Validation of enterprise sources is exact: a source is accepted if and only
    if its lines are written in the grammar below and its operations are legal
    under rules that speak of values and the views on them, without counters. *)
From stdpp Require Import sorting.
From S2P Require Import Prelude CxxInt CxxString CxxPath TypeSystem ParserGuard JsonText EnterpriseLanguage.
Import TypeSystem.Descriptors(TypeKind(..), Field, TypeDescriptor).
Open Scope string_scope.
Open Scope Z_scope.

(** * The grammar *)

Inductive Item :=
| IType (name : string) (d : TypeDescriptor)
| IOwned (type name : string)
| IMove (from to : string)
| IBorrow (mutable : bool) (from view : string)
| IRelease (view : string)
| IAccess (reading : bool) (name : string).

(** The declarations and operations of one line. *)
Inductive one_line (parts : list string) : Item → Prop :=
| line_slice name payload k : parts = ["slice"; name; payload] → scalarKind payload = Some k →
    one_line parts (IType name (Descriptors.slice k))
| line_option name payload k : parts = ["option"; name; payload] → scalarKind payload = Some k →
    one_line parts (IType name (Descriptors.option_ k))
| line_result name ok error k e : parts = ["result"; name; ok; error] → scalarKind ok = Some k → scalarKind error = Some e →
    one_line parts (IType name (Descriptors.result_ k e))
| line_owned type name : parts = ["owned"; type; name] → validIdentifier name = true → one_line parts (IOwned type name)
| line_move from to : parts = ["move"; from; "to"; to] → validIdentifier to = true → one_line parts (IMove from to)
| line_shared from view : parts = ["borrow"; "shared"; from; "as"; view] → validIdentifier view = true →
    one_line parts (IBorrow false from view)
| line_mutable from view : parts = ["borrow"; "mutable"; from; "as"; view] → validIdentifier view = true →
    one_line parts (IBorrow true from view)
| line_release view : parts = ["release"; view] → one_line parts (IRelease view)
| line_read name : parts = ["read"; name] → one_line parts (IAccess true name)
| line_assign name : parts = ["assign"; name] → one_line parts (IAccess false name).

Definition field_line (text : string) (f : Field) : Prop :=
  ∃ kind, words text = [kind; Descriptors.field_name f] ∧ scalarKind kind = Some (Descriptors.field_kind f) ∧
          validIdentifier (Descriptors.field_name f) = true ∧ ends_with text ";" = true.
Definition variant_line (text variant : string) : Prop :=
  words text = [variant] ∧ validIdentifier variant = true ∧ ends_with text ";" = true.
Definition opening (keyword text name : string) : Prop :=
  words text = [keyword; name] ∧ validIdentifier name = true ∧ ends_with text "{" = true.

(** The lines after the name space, from inside or outside a composite on. *)
Inductive written (ns : string) : Active → list string → list Item → Prop :=
| written_end : written ns NoActive [] []
| written_line text texts item items :
    one_line (words text) item → ends_with text ";" = true → written ns NoActive texts items →
    written ns NoActive (text :: texts) (item :: items)
| written_record text name texts items :
    opening "record" text name → written ns (ActiveRecord name []) texts items → written ns NoActive (text :: texts) items
| written_field name fs text f texts items :
    text ≠ "};" → field_line text f → written ns (ActiveRecord name (fs ++ [f])) texts items →
    written ns (ActiveRecord name fs) (text :: texts) items
| written_record_end name fs texts items :
    written ns NoActive texts items →
    written ns (ActiveRecord name fs) ("};" :: texts) (IType name (Descriptors.record (ns +:+ "." +:+ name) fs) :: items)
| written_enum text name texts items :
    opening "enum" text name → written ns (ActiveEnum name []) texts items → written ns NoActive (text :: texts) items
| written_variant name vs text v texts items :
    text ≠ "};" → variant_line text v → written ns (ActiveEnum name (vs ++ [v])) texts items →
    written ns (ActiveEnum name vs) (text :: texts) items
| written_enum_end name vs texts items :
    written ns NoActive texts items →
    written ns (ActiveEnum name vs) ("};" :: texts) (IType name (Descriptors.enumeration (ns +:+ "." +:+ name) vs) :: items).

(** * The rules *)

(** The types, the values with the names of their types, the values that have
    been moved out, the views, and the number of operations. *)
Record Ledger := {
  l_types : gmap string TypeDescriptor; l_values : gmap string string; l_moved : gset string;
  l_views : gmap string Borrow; l_count : Z;
}.
Definition no_ledger : Ledger := {| l_types := ∅; l_values := ∅; l_moved := ∅; l_views := ∅; l_count := 0 |}.

(** The views on a value. *)
Definition views_on (name : string) (views : gmap string Borrow) : gmap string Borrow := filter (λ kv, owner kv.2 = name) views.
Definition unborrowed (l : Ledger) (name : string) : Prop := views_on name (l_views l) = ∅.
Definition unlent (l : Ledger) (name : string) : Prop := map_Forall (λ _ b, mutable_borrow b = false) (views_on name (l_views l)).
Definition usable (l : Ledger) (name : string) : Prop := is_Some (l_values l !! name) ∧ name ∉ l_moved l.
Definition unused (l : Ledger) (name : string) : Prop := l_values l !! name = None ∧ l_views l !! name = None.

(** Composites have members, and these have different names. *)
Definition well_formed (d : TypeDescriptor) : Prop :=
  match Descriptors.kind d with
  | KRecord => Descriptors.fields d ≠ [] ∧ NoDup (map Descriptors.field_name (Descriptors.fields d))
  | KEnum => Descriptors.variants d ≠ [] ∧ NoDup (Descriptors.variants d)
  | _ => True
  end.

Inductive legal (l : Ledger) : Item → Ledger → Prop :=
| legal_type name d :
    validIdentifier name = true → l_types l !! name = None → well_formed d →
    legal l (IType name d) {| l_types := <[name := d]> (l_types l); l_values := l_values l; l_moved := l_moved l;
                              l_views := l_views l; l_count := l_count l |}
| legal_owned type name :
    is_Some (l_types l !! type) → unused l name →
    legal l (IOwned type name) {| l_types := l_types l; l_values := <[name := type]> (l_values l); l_moved := l_moved l;
                                  l_views := l_views l; l_count := l_count l + 1 |}
| legal_move from to type :
    l_values l !! from = Some type → from ∉ l_moved l → unborrowed l from → unused l to →
    legal l (IMove from to) {| l_types := l_types l; l_values := <[to := type]> (l_values l); l_moved := {[from]} ∪ l_moved l;
                               l_views := l_views l; l_count := l_count l + 1 |}
| legal_borrow (mutable : bool) from view :
    usable l from → (if mutable then unborrowed l from else unlent l from) → unused l view →
    legal l (IBorrow mutable from view) {| l_types := l_types l; l_values := l_values l; l_moved := l_moved l;
       l_views := <[view := {| owner := from; mutable_borrow := mutable |}]> (l_views l); l_count := l_count l + 1 |}
| legal_release view :
    is_Some (l_views l !! view) →
    legal l (IRelease view) {| l_types := l_types l; l_values := l_values l; l_moved := l_moved l;
                               l_views := delete view (l_views l); l_count := l_count l + 1 |}
| legal_read name :
    usable l name → unlent l name →
    legal l (IAccess true name) {| l_types := l_types l; l_values := l_values l; l_moved := l_moved l;
                                   l_views := l_views l; l_count := l_count l + 1 |}
| legal_assign name :
    is_Some (l_values l !! name) → unborrowed l name →
    legal l (IAccess false name) {| l_types := l_types l; l_values := l_values l; l_moved := l_moved l ∖ {[name]};
                                    l_views := l_views l; l_count := l_count l + 1 |}.

Inductive legal_all : Ledger → list Item → Ledger → Prop :=
| legal_nil l : legal_all l [] l
| legal_cons l i l1 is_ l2 : legal l i l1 → legal_all l1 is_ l2 → legal_all l (i :: is_) l2.

(** * The tracker and the ledger *)

(** What the tracker holds for a declared value. *)
Definition snapshot_of (l : Ledger) (name : string) : Ownership.OwnershipSnapshot :=
  let views := views_on name (l_views l) in
  if decide (name ∈ l_moved l) then {| Ownership.state := Ownership.Moved; Ownership.shared_borrows := 0 |}
  else if decide (views = ∅) then {| Ownership.state := Ownership.Owned; Ownership.shared_borrows := 0 |}
  else if decide (map_Forall (λ _ b, mutable_borrow b = false) views)
       then {| Ownership.state := Ownership.SharedBorrowed; Ownership.shared_borrows := Z.of_nat (size views) |}
       else {| Ownership.state := Ownership.MutablyBorrowed; Ownership.shared_borrows := 0 |}.

(** A value that has been moved has no views, and a mutable view is alone. *)
Record ledger_ok (k : Z) (l : Ledger) : Prop := {
  ok_names : l_values l !! "" = None;
  ok_moved : ∀ name, name ∈ l_moved l → unborrowed l name;
  ok_alone : ∀ name, unlent l name ∨ size (views_on name (l_views l)) = 1%nat;
  ok_owner : map_Forall (λ _ b, is_Some (l_values l !! owner b)) (l_views l);
  ok_size : Z.of_nat (size (l_views l)) ≤ k;
  ok_count : 0 ≤ l_count l ≤ k;
  ok_new : ∀ name, name ∈ l_moved l → is_Some (l_values l !! name);
}.

Definition tracker_is (l : Ledger) (o : Ownership.OwnershipTracker) : Prop :=
  ∀ name, o !! name = (λ _, snapshot_of l name) <$> l_values l !! name.

Record follows (l : Ledger) (s : Session) : Prop := {
  fo_types : types s = l_types l;
  fo_values : value_types s = l_values l;
  fo_views : borrows s = l_views l;
  fo_tracker : tracker_is l (ownership s);
  fo_count : operations s = l_count l;
}.

(** ** Views *)

Lemma views_insert n view b vs :
  vs !! view = None → views_on n (<[view := b]> vs) = if decide (owner b = n) then <[view := b]> (views_on n vs) else views_on n vs.
Proof.
  intros Hv. unfold views_on. case_decide as Ho.
  - by rewrite map_filter_insert_True.
  - by rewrite map_filter_insert_False, delete_id.
Qed.

Lemma views_delete n view vs : views_on n (delete view vs) = delete view (views_on n vs).
Proof. unfold views_on. by rewrite map_filter_delete. Qed.

Lemma views_lookup n vs view b : views_on n vs !! view = Some b ↔ vs !! view = Some b ∧ owner b = n.
Proof. unfold views_on. by rewrite map_lookup_filter_Some. Qed.

Lemma views_size n vs : (size (views_on n vs) ≤ size vs)%nat.
Proof. unfold views_on. apply map_size_filter. Qed.

Lemma unborrowed_unlent l n : unborrowed l n → unlent l n.
Proof. unfold unborrowed, unlent. intros ->. apply map_Forall_empty. Qed.

Lemma snapshot_cases l n :
  (n ∈ l_moved l ∧ snapshot_of l n = {| Ownership.state := Ownership.Moved; Ownership.shared_borrows := 0 |}) ∨
  (n ∉ l_moved l ∧ unborrowed l n ∧ snapshot_of l n = {| Ownership.state := Ownership.Owned; Ownership.shared_borrows := 0 |}) ∨
  (n ∉ l_moved l ∧ ¬ unborrowed l n ∧ unlent l n ∧
   snapshot_of l n = {| Ownership.state := Ownership.SharedBorrowed; Ownership.shared_borrows := Z.of_nat (size (views_on n (l_views l))) |}) ∨
  (n ∉ l_moved l ∧ ¬ unlent l n ∧ snapshot_of l n = {| Ownership.state := Ownership.MutablyBorrowed; Ownership.shared_borrows := 0 |}).
Proof.
  unfold snapshot_of. pose proof (unborrowed_unlent l n) as Hu. unfold unborrowed, unlent in *. cbv zeta. repeat case_decide; auto 10.
Qed.

Lemma positive_views l n : ¬ unborrowed l n → 0 < Z.of_nat (size (views_on n (l_views l))).
Proof. unfold unborrowed. rewrite <- map_size_empty_iff. lia. Qed.

(** What a value looks like depends on whether it has been moved and on its views. *)
Lemma snapshot_depends l l' n :
  (n ∈ l_moved l ↔ n ∈ l_moved l') → views_on n (l_views l) = views_on n (l_views l') → snapshot_of l n = snapshot_of l' n.
Proof. intros Hm Hv. unfold snapshot_of. rewrite Hv. by rewrite (decide_ext _ _ _ _ Hm). Qed.

(** ** One operation of the tracker *)

Lemma tracker_declared l o n t : tracker_is l o → l_values l !! n = Some t → o !! n = Some (snapshot_of l n).
Proof. intros Ho Hn. by rewrite Ho, Hn. Qed.

(** The tracker after a change of one value. *)
Lemma tracker_changed l l' o n x :
  tracker_is l o → x = snapshot_of l' n → is_Some (l_values l' !! n) →
  (∀ m, m ≠ n → l_values l' !! m = l_values l !! m ∧ snapshot_of l' m = snapshot_of l m) →
  tracker_is l' (<[n := x]> o).
Proof.
  intros Ho -> [t Hn] Hm m. destruct (decide (m = n)) as [->|Hne].
  - by rewrite lookup_insert_eq, Hn.
  - rewrite lookup_insert_ne by done. destruct (Hm m Hne) as [-> ->]. apply Ho.
Qed.

Ltac use_tracker Ho Hn :=
  unfold Ownership.with_value; rewrite (tracker_declared _ _ _ _ Ho Hn);
  match type of Hn with l_values ?l !! ?n = _ => destruct (snapshot_cases l n) as [(? & ->)|[(? & ? & ->)|[(? & ? & ? & ->)|(? & ? & ->)]]] end;
  cbn [Ownership.state Ownership.shared_borrows].

(** ** Legal operations, by the tracker *)

Lemma new_value_exact l o n t :
  tracker_is l o → l_values l !! n = None → n ∉ l_moved l → unborrowed l n → n ≠ "" →
  ∃ o', new_value n o = (true, "", o') ∧
    tracker_is {| l_types := l_types l; l_values := <[n := t]> (l_values l); l_moved := l_moved l; l_views := l_views l;
                  l_count := l_count l + 1 |} o'.
Proof.
  intros Ho Hn Hm Hu Hne. unfold new_value, Ownership.declareValue. assert (is_empty n = false) as -> by by destruct n.
  assert (o !! n = None) as -> by (by rewrite Ho, Hn). unfold Ownership.initialize, Ownership.with_value. rewrite lookup_insert_eq.
  cbn. eexists. split; [reflexivity|]. rewrite insert_insert_eq. eapply (tracker_changed l); [done| |cbn; rewrite lookup_insert_eq; by eexists|].
  - unfold snapshot_of. cbn. rewrite decide_False by done. by rewrite decide_True.
  - intros m Hmn. cbn. by rewrite lookup_insert_ne.
Qed.

Definition moved_out (n : string) (l : Ledger) : Ledger := {|
  l_types := l_types l; l_values := l_values l; l_moved := {[n]} ∪ l_moved l; l_views := l_views l; l_count := l_count l |}.
Definition lend (view : string) (b : Borrow) (l : Ledger) : Ledger := {|
  l_types := l_types l; l_values := l_values l; l_moved := l_moved l; l_views := <[view := b]> (l_views l); l_count := l_count l + 1 |}.
Definition give_back (view : string) (l : Ledger) : Ledger := {|
  l_types := l_types l; l_values := l_values l; l_moved := l_moved l; l_views := delete view (l_views l); l_count := l_count l + 1 |}.
Definition touched (l : Ledger) : Ledger := {|
  l_types := l_types l; l_values := l_values l; l_moved := l_moved l; l_views := l_views l; l_count := l_count l + 1 |}.
Definition revived (n : string) (l : Ledger) : Ledger := {|
  l_types := l_types l; l_values := l_values l; l_moved := l_moved l ∖ {[n]}; l_views := l_views l; l_count := l_count l + 1 |}.

Lemma tracker_same l l' o :
  tracker_is l o → l_values l' = l_values l → (∀ m, snapshot_of l' m = snapshot_of l m) → tracker_is l' o.
Proof. intros Ho Hv Hs n. rewrite Hv, Hs. apply Ho. Qed.

Lemma move_exact l o n t :
  tracker_is l o → l_values l !! n = Some t →
  ∃ r d o', Ownership.moveValue n o = (r, d, o') ∧ (r = true ↔ n ∉ l_moved l ∧ unborrowed l n) ∧
    (r = true → tracker_is (moved_out n l) o').
Proof.
  intros Ho Hn. unfold Ownership.moveValue. use_tracker Ho Hn; eexists _, _, _; (split; [reflexivity|]); cbn.
  - split; [|done]. split; [done|]. by intros [].
  - split; [done|]. intros _. apply (tracker_changed l); [done| |by exists t|].
    + unfold snapshot_of. cbn. by rewrite decide_True by set_solver.
    + intros m Hm. split; [done|]. apply snapshot_depends; [|done]. cbn. set_solver.
  - split; [|done]. split; [done|]. by intros [].
  - split; [|done]. split; [done|]. intros [_ Hu]. by apply unborrowed_unlent in Hu.
Qed.

Lemma access_exact l o n t (reading : bool) :
  (∀ m, m ∈ l_moved l → unborrowed l m) → tracker_is l o → l_values l !! n = Some t →
  ∃ r d o', (if reading then Ownership.read else Ownership.assign) n o = (r, d, o') ∧
    (r = true ↔ if reading then n ∉ l_moved l ∧ unlent l n else unborrowed l n) ∧
    (r = true → tracker_is (if reading then touched l else revived n l) o').
Proof.
  intros Hmv Ho Hn. destruct reading.
  - unfold Ownership.read. use_tracker Ho Hn; eexists _, _, _; (split; [reflexivity|]); cbn.
    + split; [|done]. split; [done|]. by intros [].
    + split; [split; [intros _; split; [done|by apply unborrowed_unlent]|done]|]. intros _. by apply (tracker_same l).
    + split; [done|]. intros _. by apply (tracker_same l).
    + split; [|done]. split; [done|]. by intros [].
  - assert (unborrowed l n → tracker_is (revived n l)
              (<[n := {| Ownership.state := Ownership.Owned; Ownership.shared_borrows := 0 |}]> o)) as Hc.
    { intros Hu. apply (tracker_changed l); [done| |by exists t|].
      - unfold snapshot_of. cbn. rewrite decide_False by set_solver. by rewrite decide_True.
      - intros m Hm. split; [done|]. apply snapshot_depends; [|done]. cbn. set_solver. }
    unfold Ownership.assign. use_tracker Ho Hn; eexists _, _, _; (split; [reflexivity|]); cbn.
    + split; [split; [intros _; by apply Hmv|done]|]. intros _. by apply Hc, Hmv.
    + split; [done|]. intros _. by apply Hc.
    + split; [|done]. by split.
    + split; [|done]. split; [done|]. intros Hu. by apply unborrowed_unlent in Hu.
Qed.

Lemma views_forall_insert n view b vs :
  vs !! view = None → map_Forall (λ _ b, mutable_borrow b = false) (views_on n (<[view := b]> vs)) ↔
  (owner b = n → mutable_borrow b = false) ∧ map_Forall (λ _ b, mutable_borrow b = false) (views_on n vs).
Proof.
  intros Hv. rewrite views_insert by done. assert (views_on n vs !! view = None).
  { destruct (views_on n vs !! view) eqn:E; [|done]. apply views_lookup in E as [E _]. congruence. }
  case_decide; [|naive_solver]. rewrite map_Forall_insert by done. naive_solver.
Qed.

Lemma lend_tracker l o from view (m : bool) x :
  tracker_is l o → is_Some (l_values l !! from) → from ∉ l_moved l → l_views l !! view = None →
  (if m then unborrowed l from else unlent l from) →
  x = (if m then {| Ownership.state := Ownership.MutablyBorrowed; Ownership.shared_borrows := 0 |}
       else {| Ownership.state := Ownership.SharedBorrowed;
               Ownership.shared_borrows := Z.of_nat (size (views_on from (l_views l))) + 1 |}) →
  tracker_is (lend view {| owner := from; mutable_borrow := m |} l) (<[from := x]> o).
Proof.
  intros Ho Hf Hm Hv Hu ->. apply (tracker_changed l); [done| |done|].
  - unfold snapshot_of. cbn [l_moved l_views lend]. rewrite decide_False by done.
    rewrite (decide_ext _ _ _ _ (views_forall_insert from view _ _ Hv)). cbn [owner mutable_borrow].
    assert (∀ b, owner b = from → views_on from (<[view := b]> (l_views l)) = <[view := b]> (views_on from (l_views l))) as E
      by (intros b Hb; rewrite views_insert by done; by rewrite decide_True).
    rewrite E by done. rewrite decide_False by apply insert_non_empty. destruct m.
    + rewrite decide_False; [done|]. intros [Hc _]. by specialize (Hc eq_refl).
    + rewrite decide_True by done. f_equal. rewrite map_size_insert_None; [lia|].
      destruct (views_on from (l_views l) !! view) eqn:El; [|done]. apply views_lookup in El as [El _]. congruence.
  - intros n Hn. split; [done|]. apply snapshot_depends; [done|]. cbn. rewrite views_insert by done. by rewrite decide_False.
Qed.

Lemma borrow_exact k l o from t view (m : bool) :
  ledger_ok k l → k < SIZE_MAX → tracker_is l o → l_values l !! from = Some t → l_views l !! view = None →
  ∃ r d o', (if m then Ownership.borrowMutable else Ownership.borrowShared) from o = (r, d, o') ∧
    (r = true ↔ from ∉ l_moved l ∧ if m then unborrowed l from else unlent l from) ∧
    (r = true → tracker_is (lend view {| owner := from; mutable_borrow := m |} l) o').
Proof.
  intros Hok Hk Ho Hn Hv. assert (is_Some (l_values l !! from)) as Hf by by exists t. pose proof (ok_size _ _ Hok) as Hsz. pose proof (views_size from (l_views l)) as Hvs.
  destruct m; unfold Ownership.borrowMutable, Ownership.borrowShared; use_tracker Ho Hn; eexists _, _, _; (split; [reflexivity|]); cbn;
    try (split; [|done]; split; [done|]; by intros []).
  - split; [done|]. intros _. by apply lend_tracker.
  - split; [|done]. split; [done|]. intros [_ Hu]. by apply unborrowed_unlent in Hu.
  - split; [split; [intros _; split; [done|by apply unborrowed_unlent]|done]|]. intros _.
    apply lend_tracker; [done|done|done|done|by apply unborrowed_unlent|]. unfold unborrowed in *. by rewrite H0, map_size_empty.
  - split; [done|]. intros _. rewrite u64_id by (unfold SIZE_MAX in *; width). by apply lend_tracker.
Qed.

(** A view is of the kind its owner's state says. *)
Lemma view_kind k l view b :
  ledger_ok k l → l_views l !! view = Some b →
  owner b ∉ l_moved l ∧ ¬ unborrowed l (owner b) ∧ (unlent l (owner b) ↔ mutable_borrow b = false) ∧
  (mutable_borrow b = true → delete view (views_on (owner b) (l_views l)) = ∅).
Proof.
  intros Hok Hv. assert (views_on (owner b) (l_views l) !! view = Some b) as Hl by by apply views_lookup.
  assert (¬ unborrowed l (owner b)) as Hu by (unfold unborrowed; intros E; by rewrite E in Hl).
  assert (size (views_on (owner b) (l_views l)) = 1%nat → delete view (views_on (owner b) (l_views l)) = ∅) as H1.
  { intros Hs. apply map_size_empty_inv. rewrite map_size_delete_Some by done. lia. }
  split_and!; [intros Hm; by apply Hu, (ok_moved _ _ Hok)|done| |].
  - split; [by intros Hf; apply (Hf view)|]. intros Hb. destruct (ok_alone _ _ Hok (owner b)) as [|Hs]; [done|].
    intros i c Hc. destruct (decide (i = view)) as [->|Hne]; [congruence|]. specialize (H1 Hs).
    assert (delete view (views_on (owner b) (l_views l)) !! i = Some c) as Hd by by rewrite lookup_delete_ne.
    by rewrite H1 in Hd.
  - intros Hb. destruct (ok_alone _ _ Hok (owner b)) as [Hf|Hs]; [|by apply H1]. specialize (Hf view b Hl). simpl in Hf. congruence.
Qed.

Lemma release_exact k l o view b :
  ledger_ok k l → k ≤ SIZE_MAX → tracker_is l o → l_views l !! view = Some b →
  ∃ o', (if mutable_borrow b then Ownership.releaseMutable else Ownership.releaseShared) (owner b) o = (true, "", o') ∧
    tracker_is (give_back view l) o'.
Proof.
  intros Hok Hk Ho Hv. destruct (view_kind k l view b Hok Hv) as (Hm & Hu & Hkind & Hdel).
  destruct (ok_owner _ _ Hok view b Hv) as [t Hn]. assert (views_on (owner b) (l_views l) !! view = Some b) as Hl by by apply views_lookup.
  assert (∀ x, x = snapshot_of (give_back view l) (owner b) → tracker_is (give_back view l) (<[owner b := x]> o)) as Hc.
  { intros x Hx. apply (tracker_changed l); [done|done|by exists t|]. intros m Hne. split; [done|]. apply snapshot_depends; [done|].
    cbn. rewrite views_delete, delete_id; [done|]. destruct (views_on m (l_views l) !! view) eqn:E; [|done].
    apply views_lookup in E as [E <-]. congruence. }
  assert (snapshot_of (give_back view l) (owner b) =
    if decide (delete view (views_on (owner b) (l_views l)) = ∅) then {| Ownership.state := Ownership.Owned; Ownership.shared_borrows := 0 |}
    else if decide (map_Forall (λ _ b, mutable_borrow b = false) (delete view (views_on (owner b) (l_views l))))
         then {| Ownership.state := Ownership.SharedBorrowed; Ownership.shared_borrows := Z.of_nat (size (delete view (views_on (owner b) (l_views l)))) |}
         else {| Ownership.state := Ownership.MutablyBorrowed; Ownership.shared_borrows := 0 |}) as Hs.
  { unfold snapshot_of. cbn [l_moved l_views give_back]. by rewrite decide_False, views_delete. }
  destruct (mutable_borrow b) eqn:Hb.
  - unfold Ownership.releaseMutable. use_tracker Ho Hn; [done|done|by apply Hkind in H1|]. cbn. eexists. split; [reflexivity|].
    apply Hc. rewrite Hs. by rewrite decide_True by auto.
  - unfold Ownership.releaseShared. use_tracker Ho Hn; [done|done| |destruct H0; by apply Hkind]. cbn.
    pose proof (positive_views l (owner b) Hu) as Hpos. rewrite (proj2 (Z.eqb_neq _ _)) by lia.
    pose proof (ok_size _ _ Hok) as Hsz. pose proof (views_size (owner b) (l_views l)) as Hvs.
    rewrite u64_id by width. eexists. split; [reflexivity|]. apply Hc. rewrite Hs.
    assert (size (delete view (views_on (owner b) (l_views l))) = pred (size (views_on (owner b) (l_views l)))) as Hd by (by apply map_size_delete_Some; exists b).
    destruct (Z.eqb_spec (Z.of_nat (size (views_on (owner b) (l_views l))) - 1) 0) as [E|E].
    + rewrite decide_True by (apply map_size_empty_inv; lia). f_equal. lia.
    + rewrite decide_False by (intros Hd'; rewrite Hd', map_size_empty in Hd; lia).
      rewrite decide_True by (by apply map_Forall_delete). f_equal. lia.
Qed.

(** ** Legal items keep the ledger in order *)

Definition item_ok (i : Item) : Prop :=
  match i with IOwned _ n | IMove _ n => validIdentifier n = true | _ => True end.

Lemma identifier_nonempty n : validIdentifier n = true → n ≠ "".
Proof. by destruct n. Qed.

Lemma fresh_value k l n : ledger_ok k l → l_values l !! n = None → n ∉ l_moved l ∧ unborrowed l n.
Proof.
  intros Hok Hn. split; [intros Hm; destruct (ok_new _ _ Hok n Hm); congruence|]. unfold unborrowed. apply map_empty. intros v.
  destruct (views_on n (l_views l) !! v) as [b|] eqn:E; [|done]. apply views_lookup in E as [E <-].
  destruct (ok_owner _ _ Hok v b E). congruence.
Qed.

Lemma legal_ok k l i l' : ledger_ok k l → legal l i l' → item_ok i → ledger_ok (k + 1) l'.
Proof.
  intros Hok Hl Hi. destruct Hok as [H1 H2 H3 H4 H5 H6 H7] eqn:E. clear E.
  assert (∀ n t, map_Forall (λ _ b, is_Some (<[n := t]> (l_values l) !! owner b)) (l_views l)) as Hgrow.
  { intros n t v b Hb. destruct (decide (owner b = n)) as [->|]; [rewrite lookup_insert_eq; by eexists|].
    rewrite lookup_insert_ne by done. by eapply H4. }
  assert (∀ n t m, is_Some (l_values l !! m) → is_Some (<[n := t]> (l_values l) !! m)) as Hgrow2.
  { intros n t m Hm. destruct (decide (m = n)) as [->|]; [rewrite lookup_insert_eq; by eexists|]. by rewrite lookup_insert_ne. }
  destruct Hl as [n d Hn Ht Hw|type n Ht Hu|from to type Hf Hm Hb Hu|mutable from view Hus Hb [_ Hv]|view Hv|n Hus Hn|n Hn Hb];
    split; cbn; try done; try lia; unfold unborrowed, unlent in *; cbn in *; try done.
  - rewrite lookup_insert_ne by (by apply identifier_nonempty). done.
  - auto.
  - rewrite lookup_insert_ne by (by apply identifier_nonempty). done.
  - intros n [->%elem_of_singleton|Hn]%elem_of_union; auto.
  - intros n [->%elem_of_singleton|Hn]%elem_of_union; apply Hgrow2; [by exists type|auto].
  - intros n Hn. rewrite views_insert by done. rewrite decide_False; [auto|]. cbn. intros ->. by destruct Hus.
  - intros n. rewrite views_forall_insert by done. rewrite views_insert by done. cbn. case_decide as Hd; [subst n|].
    + destruct mutable; [right|left; split; [done|by apply Hb]]. rewrite Hb, map_size_insert_None by done. by rewrite map_size_empty.
    + destruct (H3 n); [left; by split|by right].
  - intros v b. rewrite lookup_insert_Some. intros [[<- <-]|[_ Hb']]; [apply Hus|by eapply H4].
  - rewrite map_size_insert_None by done. lia.
  - intros n Hn. rewrite views_delete, H2 by done. apply delete_empty.
  - intros n. rewrite views_delete. destruct (H3 n) as [Hf|Hs]; [left; by apply map_Forall_delete|].
    destruct (views_on n (l_views l) !! view) as [b|] eqn:Eb; [|right; by rewrite delete_id].
    left. assert (delete view (views_on n (l_views l)) = ∅) as ->; [|apply map_Forall_empty].
    apply map_size_empty_inv. rewrite map_size_delete_Some by by exists b. lia.
  - by apply map_Forall_delete.
  - rewrite map_size_delete_Some by done. lia.
  - intros m Hm. apply H2. set_solver.
  - intros m Hm. apply H7. set_solver.
Qed.

(** ** Descriptors *)

Definition field_ok (f : Field) : Prop :=
  Descriptors.field_name f ≠ "" ∧ Descriptors.validPayload (Descriptors.field_kind f) = true.

(** What the grammar guarantees of a descriptor. *)
Definition descriptor_ok (d : TypeDescriptor) : Prop :=
  match Descriptors.kind d with
  | KRecord => Descriptors.name d ≠ "" ∧ Forall field_ok (Descriptors.fields d)
  | KEnum => Descriptors.name d ≠ "" ∧ Forall (λ v, v ≠ "") (Descriptors.variants d)
  | KSlice | KOption => Descriptors.validPayload (Descriptors.element d) = true
  | KResult => Descriptors.validPayload (Descriptors.ok d) = true ∧ Descriptors.validPayload (Descriptors.error d) = true
  | _ => False
  end.

Lemma scalarKind_payload n k : scalarKind n = Some k → Descriptors.validPayload k = true.
Proof. unfold scalarKind. repeat (case_match; [by intros [= <-]|]). done. Qed.

Lemma nonempty_false n : n ≠ "" → is_empty n = false.
Proof. by destruct n. Qed.

Lemma validate_fields_exact names fs :
  Forall field_ok fs →
  (Descriptors.validate_fields names fs).1 = true ↔
  NoDup (map Descriptors.field_name fs) ∧ (∀ f, f ∈ fs → Descriptors.field_name f ∉ names).
Proof.
  intros Hf. revert names. induction Hf as [|f fs [Hn Hp] Hf IH]; intros names; simpl.
  { split; [intros _; split; [constructor|by intros ? ?%not_elem_of_nil]|done]. }
  rewrite nonempty_false by done. case_bool_decide as Hin; simpl.
  - split; [done|]. intros [_ H]. by destruct (H f); [left|].
  - rewrite Hp. simpl. rewrite IH, NoDup_cons. split.
    + intros [Hd Hall]. split.
      * split; [|done]. intros (g & Hg & Hin')%list_elem_of_fmap. apply (Hall g); [done|]. rewrite <- Hg. set_solver.
      * intros g [->|Hg]%elem_of_cons; [done|]. specialize (Hall g Hg). set_solver.
    + intros [[Hnd Hd] Hall]. split; [done|]. intros g Hg [E%elem_of_singleton|Hi]%elem_of_union.
      * apply Hnd. rewrite <- E. by apply list_elem_of_fmap_2.
      * apply (Hall g); [by right|done].
Qed.

Lemma validate_variants_exact names vs :
  Forall (λ v, v ≠ "") vs →
  (Descriptors.validate_variants names vs).1 = true ↔ NoDup vs ∧ (∀ v, v ∈ vs → v ∉ names).
Proof.
  intros Hv. revert names. induction Hv as [|v vs Hn Hv IH]; intros names; simpl.
  { split; [intros _; split; [constructor|by intros ? ?%not_elem_of_nil]|done]. }
  rewrite nonempty_false by done. case_bool_decide as Hin; simpl.
  - split; [done|]. intros [_ H]. by destruct (H v); [left|].
  - rewrite IH, NoDup_cons. set_solver.
Qed.

#[local] Arguments Descriptors.validate_fields : simpl never.
#[local] Arguments Descriptors.validate_variants : simpl never.

Lemma validate_well_formed d : descriptor_ok d → (Descriptors.validate d).1 = true ↔ well_formed d.
Proof.
  unfold descriptor_ok, well_formed, Descriptors.validate. destruct d as [kind name element extent fields variants ok error].
  simpl. destruct kind; simpl; try done.
  - intros ->. done.
  - intros [Hn Hf]. rewrite nonempty_false by done. destruct fields as [|f fs]; [naive_solver|].
    cbv beta iota. rewrite validate_fields_exact by done. set_solver.
  - intros [Hn Hf]. rewrite nonempty_false by done. destruct variants as [|v vs]; [naive_solver|].
    cbv beta iota. rewrite validate_variants_exact by done. set_solver.
  - intros ->. done.
  - intros [-> ->]. done.
Qed.

(** * One line *)

(** What the lines after the name space leave alone. *)
Definition frame (s s' : Session) : Prop :=
  contract_seen s' = contract_seen s ∧ namespace_seen s' = namespace_seen s ∧ namespace_ s' = namespace_ s.

(** A line function does what an item says, under a syntactic condition. *)
Definition does (l : Ledger) (s : Session) (o : Refusal + Session) (syntax : Prop) (i : Item) : Prop :=
  (∀ s', o = inr s' → syntax ∧ ∃ l', legal l i l' ∧ follows l' s' ∧ frame s s' ∧ active s' = active s) ∧
  (syntax → ∀ l', legal l i l' → ∃ s', o = inr s' ∧ follows l' s' ∧ frame s s' ∧ active s' = active s).

Lemma declared_iff {A} n (m : gmap string A) : declared n m = true ↔ is_Some (m !! n).
Proof. unfold declared. apply bool_decide_eq_true. Qed.

Lemma declared_not {A} n (m : gmap string A) : declared n m = false ↔ m !! n = None.
Proof. unfold declared. rewrite bool_decide_eq_false. symmetry. apply eq_None_not_Some. Qed.

Lemma does_refused l s (syntax : Prop) i r : ¬ (syntax ∧ ∃ l', legal l i l') → does l s (inl r) syntax i.
Proof. intros H. split; [done|]. intros Hs l' Hl. destruct H. split; [done|]. by exists l'. Qed.

Section Lines.
Context (k : Z) (l : Ledger) (s : Session).
Hypothesis Hok : ledger_ok k l.
Hypothesis Hk : k < SIZE_MAX.
Hypothesis Hs : follows l s.

(** An accepted operation: the new ledger is the only legal one. *)
Lemma does_operation (syntax : Prop) i l' vt bs o :
  syntax → legal l i l' → (∀ l2, legal l i l2 → l2 = l') → vt = l_values l' → bs = l_views l' → tracker_is l' o →
  l_types l' = l_types l → l_count l' = l_count l + 1 →
  does l s (inr (with_operation vt bs o s)) syntax i.
Proof.
  intros Hsyn Hl Hdet -> -> Ho Ht Hc. assert (follows l' (with_operation (l_values l') (l_views l') o s)) as Hf.
  { destruct Hs as [F1 F2 F3 F4 F5]. split; cbn; [by rewrite Ht|done|done|done|]. rewrite Hc, F5, u64_id; [done|].
    pose proof (ok_count _ _ Hok). width. }
  split; [intros s' [= <-]; split; [done|]; by exists l'|]. intros _ l2 Hl2. rewrite (Hdet _ Hl2). by eexists.
Qed.

Lemma register_does n d (syntax : Prop) :
  descriptor_ok d → syntax → does l s (register_type n d s) syntax (IType n d).
Proof.
  intros Hd Hsyn. unfold register_type. destruct (validIdentifier n) eqn:Hn; cbn [negb].
  2: { apply does_refused. intros (_ & l' & Hl). inversion Hl. congruence. }
  rewrite (fo_types _ _ Hs). destruct (declared n (l_types l)) eqn:Ht.
  { apply declared_iff in Ht as [x Ht]. apply does_refused. intros (_ & l' & Hl). inversion Hl. congruence. }
  apply declared_not in Ht. pose proof (validate_well_formed d Hd) as Hv. destruct (Descriptors.validate d) as [[] diag]; cbn [fst negb] in *.
  2: { apply does_refused. intros (_ & l' & Hl). inversion Hl as [? ? _ _ Hw| | | | | |]. by apply Hv in Hw. }
  set (l1 := {| l_types := <[n := d]> (l_types l); l_values := l_values l; l_moved := l_moved l; l_views := l_views l; l_count := l_count l |}).
  assert (follows l1 (with_type n d s)) as Hf by (destruct Hs as [F1 F2 F3 F4 F5]; split; cbn; try done; by rewrite F1).
  split; [intros s' [= <-]; split; [done|]; exists l1; split_and!; try done; constructor; [done|done|by apply Hv]|].
  intros _ l2 Hl2. inversion Hl2; subst. by eexists.
Qed.

Lemma new_value_does n t l0 o (H0 : tracker_is l0 o) :
  ledger_ok k l0 → l_values l0 !! n = None → n ≠ "" →
  ∃ o', new_value n o = (true, "", o') ∧
    tracker_is {| l_types := l_types l0; l_values := <[n := t]> (l_values l0); l_moved := l_moved l0; l_views := l_views l0;
                  l_count := l_count l0 + 1 |} o'.
Proof. intros Hok0 Hn Hne. destruct (fresh_value k l0 n Hok0 Hn). by apply new_value_exact. Qed.

Lemma owned_does kw t n text :
  does l s (owned_line [kw; t; n] text s) (ends_with text ";" = true ∧ validIdentifier n = true) (IOwned t n).
Proof.
  unfold owned_line. rewrite (fo_types _ _ Hs), (fo_values _ _ Hs), (fo_views _ _ Hs).
  destruct (ends_with text ";") eqn:He; [|apply does_refused; by intros ([] & _)]. cbn [negb orb].
  destruct (declared t (l_types l)) eqn:Ht; cbn [negb orb].
  2: { apply declared_not in Ht. apply does_refused. intros (_ & l' & Hl). inversion Hl as [|? ? [? E]| | | | |]. congruence. }
  destruct (validIdentifier n) eqn:Hn; [|apply does_refused; by intros ([] & _)]. cbn [negb].
  destruct (declared n (l_values l) || declared n (l_views l)) eqn:Hu.
  { apply does_refused. intros (_ & l' & Hl). inversion Hl as [|? ? _ [Hv Hw]| | | | |].
    apply orb_true_iff in Hu as [[? E]%declared_iff|[? E]%declared_iff]; congruence. }
  apply orb_false_iff in Hu as [Hv%declared_not Hw%declared_not]. apply declared_iff in Ht.
  destruct (new_value_does n t l (ownership s) (fo_tracker _ _ Hs) Hok Hv (identifier_nonempty _ Hn)) as (o' & -> & Ho). cbn [negb].
  eapply does_operation; [done|by constructor| |reflexivity..|exact Ho|done|done]. intros l2 Hl2. by inversion Hl2.
Qed.

Lemma move_does kw from to_ n text :
  does l s (move_line [kw; from; to_; n] text s) (to_ = "to" ∧ ends_with text ";" = true ∧ validIdentifier n = true) (IMove from n).
Proof.
  unfold move_line. rewrite (fo_values _ _ Hs), (fo_views _ _ Hs). destruct (l_values l !! from) as [t|] eqn:Hf.
  2: { apply does_refused. intros (_ & l' & Hl). inversion Hl. congruence. }
  destruct (String.eqb_spec to_ "to") as [->|Hto]; [|apply does_refused; by intros ([] & _)]. cbn [negb orb].
  destruct (ends_with text ";") eqn:He; [|apply does_refused; naive_solver]. cbn [negb orb].
  destruct (validIdentifier n) eqn:Hn; [|apply does_refused; naive_solver]. cbn [negb].
  destruct (declared n (l_values l) || declared n (l_views l)) eqn:Hu.
  { apply does_refused. intros (_ & l' & Hl). inversion Hl as [| |? ? ? _ _ _ [Hv Hw]| | | |].
    apply orb_true_iff in Hu as [[? E]%declared_iff|[? E]%declared_iff]; congruence. }
  apply orb_false_iff in Hu as [Hv%declared_not Hw%declared_not].
  destruct (move_exact l (ownership s) from t (fo_tracker _ _ Hs) Hf) as (r & d & o' & -> & Hr & Ho). destruct r.
  2: { cbn [negb]. apply does_refused. intros (_ & l' & Hl). inversion Hl; subst. assert (false = true) by (by apply Hr). done. }
  destruct (proj1 Hr eq_refl) as [Hm Hb]. specialize (Ho eq_refl).
  assert (ledger_ok k (moved_out from l)) as Hok'.
  { destruct Hok as [H1 H2 H3 H4 H5 H6 H7]. split; cbn; try done.
    - intros m [->%elem_of_singleton|?]%elem_of_union; [done|by apply H2].
    - intros m [->%elem_of_singleton|?]%elem_of_union; [by exists t|by apply H7]. }
  destruct (new_value_does n t (moved_out from l) o' Ho Hok' Hv (identifier_nonempty _ Hn)) as (o2 & -> & Ho2). cbn [negb].
  eapply does_operation; [done|by econstructor| |reflexivity..|exact Ho2|done|done].
  intros l2 Hl2. inversion Hl2; subst. by simplify_eq.
Qed.

Lemma borrow_does kw mode from as_ view text (m : bool) :
  borrow_mode mode = Some m →
  does l s (borrow_line [kw; mode; from; as_; view] text s)
    (as_ = "as" ∧ ends_with text ";" = true ∧ validIdentifier view = true) (IBorrow m from view).
Proof.
  intros Hm. unfold borrow_line. rewrite Hm, (fo_values _ _ Hs), (fo_views _ _ Hs).
  destruct (String.eqb_spec as_ "as") as [->|Has]; [|apply does_refused; by intros ([] & _)]. cbn [negb orb].
  destruct (ends_with text ";") eqn:He; [|apply does_refused; naive_solver]. cbn [negb orb].
  destruct (declared from (l_values l)) eqn:Hf; cbn [negb orb].
  2: { apply declared_not in Hf. apply does_refused. intros (_ & l' & Hl). inversion Hl as [| | |? ? ? [[? E] _]| | |]. congruence. }
  destruct (validIdentifier view) eqn:Hn; [|apply does_refused; naive_solver]. cbn [negb].
  destruct (declared view (l_views l) || declared view (l_values l)) eqn:Hu.
  { apply does_refused. intros (_ & l' & Hl). inversion Hl as [| | |? ? ? _ _ [Hv Hw]| | |].
    apply orb_true_iff in Hu as [[? E]%declared_iff|[? E]%declared_iff]; congruence. }
  apply orb_false_iff in Hu as [Hw%declared_not Hv%declared_not]. apply declared_iff in Hf as [t Hf].
  destruct (borrow_exact k l (ownership s) from t view m Hok Hk (fo_tracker _ _ Hs) Hf Hw) as (r & d & o' & -> & Hr & Ho). destruct r; cbn [negb].
  2: { apply does_refused. intros (_ & l' & Hl). inversion Hl as [| | |? ? ? [_ Hum] Hb _| | |].
       assert (false = true) by (by apply Hr). done. }
  destruct (proj1 Hr eq_refl) as [Hmv Hb].
  eapply (does_operation _ _ (lend view {| owner := from; mutable_borrow := m |} l)); [done| | |reflexivity..|by apply Ho|done|done].
  - constructor; [split; [by exists t|done]|done|done].
  - intros l2 Hl2. by inversion Hl2.
Qed.

Lemma release_does kw view text :
  does l s (release_line [kw; view] text s) (ends_with text ";" = true) (IRelease view).
Proof.
  unfold release_line. rewrite (fo_views _ _ Hs). destruct (l_views l !! view) as [b|] eqn:Hv.
  2: { apply does_refused. intros (_ & l' & Hl). inversion Hl as [| | | |? [? E]| |]. congruence. }
  destruct (ends_with text ";") eqn:He; [|apply does_refused; naive_solver]. cbn [negb].
  destruct (release_exact k l (ownership s) view b Hok ltac:(lia) (fo_tracker _ _ Hs) Hv) as (o' & -> & Ho). cbn [negb].
  eapply (does_operation _ _ (give_back view l)); [done|constructor; by exists b| |by rewrite (fo_values _ _ Hs)|done|exact Ho|done|done].
  intros l2 Hl2. by inversion Hl2.
Qed.

Lemma access_does (reading : bool) kw n text :
  does l s (access_line reading [kw; n] text s) (ends_with text ";" = true) (IAccess reading n).
Proof.
  unfold access_line. rewrite (fo_values _ _ Hs). destruct (ends_with text ";") eqn:He; [|apply does_refused; naive_solver]. cbn [negb orb].
  destruct (declared n (l_values l)) eqn:Hn; cbn [negb].
  2: { apply declared_not in Hn. apply does_refused. intros (_ & l' & Hl).
       inversion Hl as [| | | | |? [[? E] _]|? [? E]]; congruence. }
  apply declared_iff in Hn as [t Hn].
  destruct (access_exact l (ownership s) n t reading (ok_moved _ _ Hok) (fo_tracker _ _ Hs) Hn) as (r & d & o' & -> & Hr & Ho). destruct r; cbn [negb].
  2: { apply does_refused. intros (_ & l' & Hl). assert (false = true); [|done]. apply Hr.
       inversion Hl as [| | | | |? [_ ?] ?|? _ ?]; by subst. }
  specialize (Ho eq_refl). pose proof (proj1 Hr eq_refl) as H1.
  eapply (does_operation _ _ (if reading then touched l else revived n l)); [done| | |by destruct reading|by rewrite (fo_views _ _ Hs); destruct reading|exact Ho|by destruct reading|by destruct reading].
  - destruct reading; [destruct H1; constructor; [split; [by exists t|done]|done]|constructor; [by exists t|done]].
  - intros l2 Hl2. by inversion Hl2.
Qed.

(** The item of a line and its effect. *)
Definition item_line (text : string) (s' : Session) : Prop := ∃ i l',
  one_line (words text) i ∧ ends_with text ";" = true ∧ legal l i l' ∧ follows l' s' ∧ frame s s' ∧ active s' = active s.

Lemma does_sound o (syntax : Prop) i text s' :
  does l s o syntax i → (syntax → one_line (words text) i ∧ ends_with text ";" = true) → o = inr s' → item_line text s'.
Proof. intros [Hd _] Hsyn E. destruct (Hd s' E) as [Hp (l' & ? & ? & ? & ?)]. destruct (Hsyn Hp). exists i, l'. by split_and!. Qed.

Lemma opened_line (is_record : bool) text parts s' :
  head parts = Some (if is_record then "record" else "enum") → words text = parts → open_line is_record parts text s = inr s' →
  ∃ n, opening (if is_record then "record" else "enum") text n ∧
       s' = with_active (if is_record then ActiveRecord n [] else ActiveEnum n []) s.
Proof.
  intros Hh Hw. destruct parts as [|kw [|n [|? ?]]]; try done. injection Hh as ->. unfold open_line, opening. rewrite Hw.
  destruct (ends_with text "{"); [|done]. destruct (validIdentifier n) eqn:Hn; [|done]. intros [= <-]. exists n. by split_and!.
Qed.

Lemma declaration_sound text s' :
  words text ≠ [] → declaration_line (words text) text s = inr s' →
  (∃ n, opening "record" text n ∧ s' = with_active (ActiveRecord n []) s) ∨
  (∃ n, opening "enum" text n ∧ s' = with_active (ActiveEnum n []) s) ∨ item_line text s'.
Proof.
  intros Hne. remember (words text) as parts eqn:Hw. destruct parts as [|kw rest]; [done|]. unfold declaration_line. cbn [head default id].
  destruct (String.eqb_spec kw "record") as [->|_]; [intros E; left; by apply (opened_line true) in E|].
  destruct (String.eqb_spec kw "enum") as [->|_]; [intros E; right; left; by apply (opened_line false) in E|].
  intros E. right. right. revert E.
  destruct (String.eqb_spec kw "slice") as [->|_]; cbn [orb].
  { unfold payload_line. destruct rest as [|n [|p [|? ?]]]; try done. destruct (ends_with text ";") eqn:He; [|done]. cbn [negb].
    destruct (scalarKind p) as [x|] eqn:Hp; [|done]. apply (does_sound _ True (IType n (Descriptors.slice x))).
    - apply register_does; [|done]. by apply scalarKind_payload in Hp.
    - intros _. split; [|done]. rewrite <- Hw. by econstructor. }
  destruct (String.eqb_spec kw "option") as [->|_].
  { unfold payload_line. destruct rest as [|n [|p [|? ?]]]; try done. destruct (ends_with text ";") eqn:He; [|done]. cbn [negb].
    destruct (scalarKind p) as [x|] eqn:Hp; [|done]. apply (does_sound _ True (IType n (Descriptors.option_ x))).
    - apply register_does; [|done]. by apply scalarKind_payload in Hp.
    - intros _. split; [|done]. rewrite <- Hw. by eapply line_option. }
  destruct (String.eqb_spec kw "result") as [->|_].
  { unfold result_line. destruct rest as [|n [|p [|q [|? ?]]]]; try done. destruct (ends_with text ";") eqn:He; [|done]. cbn [negb].
    destruct (scalarKind p) as [x|] eqn:Hp; [|done]. destruct (scalarKind q) as [y|] eqn:Hq; [|done].
    apply (does_sound _ True (IType n (Descriptors.result_ x y))).
    - apply register_does; [|done]. apply scalarKind_payload in Hp, Hq. by split.
    - intros _. split; [|done]. rewrite <- Hw. by econstructor. }
  destruct (String.eqb_spec kw "owned") as [->|_].
  { destruct rest as [|t [|n [|? ?]]]; try done. eapply does_sound; [apply owned_does|]. intros [? ?]. rewrite <- Hw. split; [by econstructor|done]. }
  destruct (String.eqb_spec kw "move") as [->|_].
  { destruct rest as [|f [|t [|n [|? ?]]]]; try done. eapply does_sound; [apply move_does|]. intros (-> & ? & ?). rewrite <- Hw.
    split; [by econstructor|done]. }
  destruct (String.eqb_spec kw "borrow") as [->|_].
  { destruct rest as [|m [|f [|a [|v [|? ?]]]]]; try done. destruct (borrow_mode m) as [b|] eqn:Hb; [|unfold borrow_line; by rewrite Hb].
    eapply does_sound; [by apply borrow_does|]. intros (-> & ? & ?). rewrite <- Hw. split; [|done]. unfold borrow_mode in Hb.
    destruct (String.eqb_spec m "shared") as [->|_]; [injection Hb as <-; by econstructor|].
    destruct (String.eqb_spec m "mutable") as [->|_]; [injection Hb as <-; by econstructor|done]. }
  destruct (String.eqb_spec kw "release") as [->|_].
  { destruct rest as [|v [|? ?]]; try done. eapply does_sound; [apply release_does|]. intros ?. rewrite <- Hw. split; [by econstructor|done]. }
  destruct (String.eqb_spec kw "read") as [->|_]; cbn [orb].
  { destruct rest as [|v [|? ?]]; try done. eapply does_sound; [apply access_does|]. intros ?. rewrite <- Hw. split; [by econstructor|done]. }
  destruct (String.eqb_spec kw "assign") as [->|_]; [|done].
  destruct rest as [|v [|? ?]]; try done. eapply does_sound; [apply access_does|]. intros ?. rewrite <- Hw. split; [by eapply line_assign|done].
Qed.

Lemma declaration_complete text i l' :
  one_line (words text) i → ends_with text ";" = true → legal l i l' →
  ∃ s', declaration_line (words text) text s = inr s' ∧ follows l' s' ∧ frame s s' ∧ active s' = active s.
Proof.
  intros Ho He Hl. destruct Ho as [n p x -> Hp|n p x -> Hp|n p q x y -> Hp Hq|t n -> Hn|f n -> Hn|f v -> Hn|f v -> Hn|v ->|n ->|n ->].
  - change (declaration_line _ text s) with (payload_line true ["slice"; n; p] text s). unfold payload_line. rewrite He, Hp.
    apply scalarKind_payload in Hp. by apply (register_does n (Descriptors.slice x) True Hp I).
  - change (declaration_line _ text s) with (payload_line false ["option"; n; p] text s). unfold payload_line. rewrite He, Hp.
    apply scalarKind_payload in Hp. by apply (register_does n (Descriptors.option_ x) True Hp I).
  - change (declaration_line _ text s) with (result_line ["result"; n; p; q] text s). unfold result_line. rewrite He, Hp, Hq.
    apply scalarKind_payload in Hp, Hq. by apply (register_does n (Descriptors.result_ x y) True (conj Hp Hq) I).
  - by apply (owned_does "owned" t n text).
  - by apply (move_does "move" f "to" n text).
  - by apply (borrow_does "borrow" "shared" f "as" v text false).
  - by apply (borrow_does "borrow" "mutable" f "as" v text true).
  - by apply (release_does "release" v text).
  - by apply (access_does true "read" n text).
  - by apply (access_does false "assign" n text).
Qed.
End Lines.

(** * All lines *)

Fixpoint texts_run (texts : list string) (s : Session) : option Session :=
  match texts with
  | [] => Some s
  | text :: texts => match text_line text s with inr s => texts_run texts s | inl _ => None end
  end.

Definition active_ok (a : Active) : Prop :=
  match a with
  | NoActive => True
  | ActiveRecord n fs => validIdentifier n = true ∧ Forall field_ok fs
  | ActiveEnum n vs => validIdentifier n = true ∧ Forall (λ v, v ≠ "") vs
  end.

(** The contract and the name space have been read. *)
Definition ready (ns : string) (s : Session) : Prop :=
  contract_seen s = true ∧ namespace_seen s = true ∧ namespace_ s = ns.

Lemma frame_ready ns s s' : frame s s' → ready ns s → ready ns s'.
Proof. intros (E1 & E2 & E3) (R1 & R2 & R3). unfold ready. by rewrite E1, E2, E3. Qed.

Lemma follows_active l a s : follows l s → follows l (with_active a s).
Proof. by intros [F1 F2 F3 F4 F5]. Qed.

Lemma qualified_nonempty (ns n : string) : ns +:+ "." +:+ n ≠ "".
Proof. by destruct ns. Qed.

Lemma one_line_ok parts i : one_line parts i → item_ok i ∧ parts ≠ [].
Proof. by intros []; subst. Qed.

Section Run.
Context (ns : string).

(** Closing a composite is the declaration of a type. *)
Lemma close_line k l s n d s' :
  ledger_ok k l → follows l s → descriptor_ok d →
  match register_type n d s with inl e => inl e | inr s => inr (with_active NoActive s) end = inr s' →
  ∃ l', legal l (IType n d) l' ∧ follows l' s' ∧ frame s s' ∧ active s' = NoActive.
Proof.
  intros Hok Hs Hd. destruct (register_does l s Hs n d True Hd I) as [Hsound _].
  destruct (register_type n d s) as [e|s1] eqn:E; [done|]. intros [= <-].
  destruct (Hsound s1 eq_refl) as (_ & l' & Hl & Hf & Hfr & _). exists l'. by split_and!; [|apply follows_active|..].
Qed.

Lemma field_line_ok text f : field_line text f → field_ok f.
Proof. intros (kind & _ & Hk & Hv & _). split; [by apply identifier_nonempty|by eapply scalarKind_payload]. Qed.

Lemma texts_sound texts k l s s' :
  ledger_ok k l → follows l s → ready ns s → active_ok (active s) → k + Z.of_nat (length texts) ≤ SIZE_MAX →
  texts_run texts s = Some s' → active s' = NoActive →
  ∃ items l', written ns (active s) texts items ∧ legal_all l items l' ∧ follows l' s' ∧ ready ns s'.
Proof.
  revert k l s. induction texts as [|text texts IH]; intros k l s Hok Hs Hr Ha Hlen E Hend.
  { injection E as <-. rewrite Hend. exists [], l. split_and!; try done; constructor. }
  cbn [length] in Hlen. cbn [texts_run] in E. destruct (text_line text s) as [|s1] eqn:E1; [done|]. pose proof Hr as (Rc & Rn & Rs).
  assert (∀ l1, follows l1 s1 → ledger_ok (k + 1) l1 → frame s s1 → active_ok (active s1) →
    ∃ items l', written ns (active s1) texts items ∧ legal_all l1 items l' ∧ follows l' s' ∧ ready ns s') as Hnext.
  { intros l1 F1 O1 Fr A1. eapply IH; try done; [by eapply frame_ready|lia]. }
  assert (ledger_ok (k + 1) l) as Hok1 by (destruct Hok; split; try done; lia).
  unfold text_line in E1. destruct (active s) as [|n fs|n vs] eqn:Eact.
  - case_bool_decide as Hw; [done|]. rewrite Rc, Rn in E1. cbn [negb] in E1.
    destruct (declaration_sound k l s Hok ltac:(lia) Hs text s1 Hw E1) as [(n & Ho & ->)|[(n & Ho & ->)|(i & l1 & Hi & He & Hl & F1 & Fr & Ea)]].
    + destruct (Hnext l) as (items & l' & Hwr & ?); [by apply follows_active|done|done|by split; [apply Ho|]|].
      exists items, l'. split; [by eapply written_record|done].
    + destruct (Hnext l) as (items & l' & Hwr & ?); [by apply follows_active|done|done|by split; [apply Ho|]|].
      exists items, l'. split; [by eapply written_enum|done].
    + destruct (one_line_ok _ _ Hi) as [Hio _]. destruct (Hnext l1) as (items & l' & Hwr & Hall & ?);
        [done|by eapply legal_ok|done|by rewrite Ea, Eact|].
      rewrite Ea, Eact in Hwr. exists (i :: items), l'. split_and!; [by apply written_line|by econstructor|apply H..].
  - destruct Ha as [Hn Hfs]. unfold record_line in E1. destruct (String.eqb_spec text "};") as [->|Hne].
    + rewrite Rs in E1. apply (close_line k l s n) in E1 as (l1 & Hl & F1 & Fr & Ea); [|done|done|].
      2: { split; [apply qualified_nonempty|done]. }
      destruct (Hnext l1) as (items & l' & Hwr & Hall & ?); [done|by eapply legal_ok|done|by rewrite Ea|].
      rewrite Ea in Hwr. eexists (_ :: items), l'. split_and!; [by apply written_record_end|by econstructor|apply H..].
    + destruct (words text) as [|kd [|f [|? ?]]] eqn:Hw; try done. destruct (ends_with text ";") eqn:He; [|done]. cbn [negb] in E1.
      destruct (scalarKind kd) as [x|] eqn:Hx; [|done]. destruct (validIdentifier f) eqn:Hf; [|done]. injection E1 as <-.
      assert (field_line text {| Descriptors.field_name := f; Descriptors.field_kind := x |}) as Hfl by (exists kd; by split_and!).
      destruct (Hnext l) as (items & l' & Hwr & ?); [by apply follows_active|done|done| |].
      { split; [done|]. apply Forall_app. split; [done|]. constructor; [by eapply field_line_ok|done]. }
      exists items, l'. split; [by eapply written_field|done].
  - destruct Ha as [Hn Hvs]. unfold enum_line in E1. destruct (String.eqb_spec text "};") as [->|Hne].
    + rewrite Rs in E1. apply (close_line k l s n) in E1 as (l1 & Hl & F1 & Fr & Ea); [|done|done|].
      2: { split; [apply qualified_nonempty|done]. }
      destruct (Hnext l1) as (items & l' & Hwr & Hall & ?); [done|by eapply legal_ok|done|by rewrite Ea|].
      rewrite Ea in Hwr. eexists (_ :: items), l'. split_and!; [by apply written_enum_end|by econstructor|apply H..].
    + destruct (words text) as [|v [|? ?]] eqn:Hw; try done. destruct (ends_with text ";") eqn:He; [|done]. cbn [negb orb] in E1.
      destruct (validIdentifier v) eqn:Hv; [|done]. injection E1 as <-.
      destruct (Hnext l) as (items & l' & Hwr & ?); [by apply follows_active|done|done| |].
      { split; [done|]. apply Forall_app. split; [done|]. constructor; [by apply identifier_nonempty|done]. }
      exists items, l'. split; [by eapply written_variant|done].
Qed.

Lemma close_complete k l s n d l' :
  ledger_ok k l → follows l s → descriptor_ok d → legal l (IType n d) l' →
  ∃ s', match register_type n d s with inl e => inl e | inr s => inr (with_active NoActive s) end = inr s' ∧
    follows l' s' ∧ frame s s' ∧ active s' = NoActive.
Proof.
  intros Hok Hs Hd Hl. destruct (register_does l s Hs n d True Hd I) as [_ Hc]. destruct (Hc I l' Hl) as (s1 & -> & Hf & Hfr & _).
  eexists. split; [done|]. split_and!; [by apply follows_active|done|done].
Qed.

Lemma texts_complete a texts items k l s l' :
  written ns a texts items → active s = a → ledger_ok k l → follows l s → ready ns s → active_ok a →
  k + Z.of_nat (length texts) ≤ SIZE_MAX → legal_all l items l' →
  ∃ s', texts_run texts s = Some s' ∧ active s' = NoActive ∧ follows l' s' ∧ ready ns s'.
Proof.
  intros Hw. revert k l s. induction Hw as [|text texts i items Hi He Hw IH|text n texts items Ho Hw IH|n fs text f texts items Hne Hf Hw IH
    |n fs texts items Hw IH|text n texts items Ho Hw IH|n vs text v texts items Hne Hv Hw IH|n vs texts items Hw IH];
    intros k l s Ea Hok Hs Hr Ha Hlen Hl; cbn [length] in Hlen; cbn [texts_run]; pose proof Hr as (Rc & Rn & Rs);
    (assert (ledger_ok (k + 1) l) as Hok1 by (destruct Hok; split; try done; lia)); unfold text_line; rewrite ?Ea.
  - inversion Hl; subst. by exists s.
  - inversion Hl as [|? ? l1 ? ? Hl1 Hl2]; subst. destruct (one_line_ok _ _ Hi) as [Hio Hne]. rewrite bool_decide_false, Rc, Rn by done. cbn [negb].
    destruct (declaration_complete k l s Hok ltac:(lia) Hs text i l1 Hi He Hl1) as (s1 & -> & F1 & Fr & Ea1).
    eapply (IH (k + 1) l1); [congruence|by eapply legal_ok|done|by eapply frame_ready|done|lia|done].
  - destruct Ho as (Hwd & Hn & He). rewrite Hwd, Rc, Rn. rewrite bool_decide_false by done. cbn [negb].
    change (declaration_line _ text s) with (open_line true ["record"; n] text s). unfold open_line. rewrite He, Hn. cbn [negb orb].
    eapply (IH (k + 1) l); [done|done|by apply follows_active|done|done|lia|done].
  - destruct Hf as (kd & Hwd & Hk & Hn & He). unfold record_line. destruct (String.eqb_spec text "};") as [|_]; [done|].
    rewrite Hwd, He, Hk, Hn. cbn [negb]. destruct f as [fn fk]. simpl in *.
    eapply (IH (k + 1) l); [done|done|by apply follows_active|done| |lia|done]. destruct Ha as [Hn' Hfs]. split; [done|].
    apply Forall_app. split; [done|]. constructor; [|done]. split; [by apply identifier_nonempty|by eapply scalarKind_payload].
  - inversion Hl as [|? ? l1 ? ? Hl1 Hl2]; subst. destruct Ha as [Hn Hfs]. unfold record_line. cbn [String.eqb Ascii.eqb Bool.eqb].
    destruct (close_complete k l s n (Descriptors.record (namespace_ s +:+ "." +:+ n) fs) l1 Hok Hs) as (s1 & -> & F1 & Fr & Ea1);
      [split; [apply qualified_nonempty|done]|done|].
    eapply (IH (k + 1) l1); [done|by eapply legal_ok|done|by eapply frame_ready|done|lia|done].
  - destruct Ho as (Hwd & Hn & He). rewrite Hwd, Rc, Rn. rewrite bool_decide_false by done. cbn [negb].
    change (declaration_line _ text s) with (open_line false ["enum"; n] text s). unfold open_line. rewrite He, Hn. cbn [negb orb].
    eapply (IH (k + 1) l); [done|done|by apply follows_active|done|done|lia|done].
  - destruct Hv as (Hwd & Hv & He). unfold enum_line. destruct (String.eqb_spec text "};") as [|_]; [done|].
    rewrite Hwd, He, Hv. cbn [negb orb].
    eapply (IH (k + 1) l); [done|done|by apply follows_active|done| |lia|done]. destruct Ha as [Hn' Hvs]. split; [done|].
    apply Forall_app. split; [done|]. constructor; [by apply identifier_nonempty|done].
  - inversion Hl as [|? ? l1 ? ? Hl1 Hl2]; subst. destruct Ha as [Hn Hvs]. unfold enum_line. cbn [String.eqb Ascii.eqb Bool.eqb].
    destruct (close_complete k l s n (Descriptors.enumeration (namespace_ s +:+ "." +:+ n) vs) l1 Hok Hs) as (s1 & -> & F1 & Fr & Ea1);
      [split; [apply qualified_nonempty|done]|done|].
    eapply (IH (k + 1) l1); [done|by eapply legal_ok|done|by eapply frame_ready|done|lia|done].
Qed.
End Run.

(** * The source *)

(** What is left of the lines without comments and blanks. *)
Definition texts_of (raws : list string) : list string := filter (λ t, is_empty t = false) (map withoutComment raws).

Lemma lines_loop_exact limits raws n m s s' n' :
  m ≤ max_scanner_matches limits →
  lines_loop limits raws n m s = inr (s', n') ↔
  Forall (λ raw, str_size raw ≤ max_token_bytes limits) raws ∧
  m + Z.of_nat (length (texts_of raws)) ≤ max_scanner_matches limits ∧
  texts_run (texts_of raws) s = Some s' ∧ n' = n + Z.of_nat (length raws).
Proof.
  revert n m s. induction raws as [|raw raws IH]; intros n m s Hm.
  { cbn. split; [intros [= -> ->]; split_and!; try done; lia|]. intros (_ & _ & [= ->] & ->). do 2 f_equal. lia. }
  cbn [lines_loop]. rewrite Forall_cons. unfold texts_of. cbn [map]. rewrite filter_cons. fold (texts_of raws).
  destruct (Z.ltb_spec (max_token_bytes limits) (str_size raw)) as [Ht|Ht]; [split; [done|]; intros ([? _] & _); lia|].
  destruct (is_empty (withoutComment raw)) eqn:He.
  - rewrite decide_False by done. rewrite IH by done. cbn [length]. split; intros (? & ? & ? & ->); split_and!; naive_solver lia.
  - rewrite decide_True by done. cbn [length texts_run].
    destruct (Z.ltb_spec (max_scanner_matches limits) (m + 1)) as [Hl|Hl]; [split; [done|]; intros (_ & ? & _); lia|].
    destruct (text_line (withoutComment raw) s) as [r|s1]; [split; [done|]; by intros (_ & _ & ? & _)|].
    rewrite IH by lia. split; intros (? & ? & ? & ->); split_and!; naive_solver lia.
Qed.

Definition contract_text (text : string) : Prop := words text = ["language"; kContractVersion] ∧ ends_with text ";" = true.
Definition namespace_text (text ns : string) : Prop :=
  words text = ["namespace"; ns] ∧ validNamespace ns = true ∧ ends_with text ";" = true.

Definition summary_of (ns : string) (l : Ledger) : ValidationSummary := {|
  namespace_name := ns;
  canonical_types := sort_strings (map (λ e, ns +:+ "::" +:+ e.1 +:+ "=" +:+ Descriptors.canonicalName e.2) (items (l_types l)));
  ownership_values := Z.of_nat (size (l_values l)); ownership_operations := l_count l |}.

(** The lines of an accepted source. *)
Definition accepted_texts (texts : list string) (summary : ValidationSummary) : Prop :=
  ∃ t1 t2 rest ns items l, texts = t1 :: t2 :: rest ∧ contract_text t1 ∧ namespace_text t2 ns ∧
    written ns NoActive rest items ∧ legal_all no_ledger items l ∧ l_views l = ∅ ∧ l_types l ≠ ∅ ∧ summary = summary_of ns l.

Lemma no_ledger_ok : ledger_ok 0 no_ledger.
Proof. split; try done. intros n. by left. Qed.

Definition opened_session (ns : string) : Session := with_namespace ns (with_contract new_session).

Lemma opened_follows ns : follows no_ledger (opened_session ns) ∧ ready ns (opened_session ns).
Proof. by repeat split. Qed.

Lemma contract_line_exact text s s' :
  contract_line (words text) text s = inr s' ↔ contract_text text ∧ s' = with_contract s.
Proof.
  unfold contract_line, contract_text. split.
  - destruct (words text) as [|a [|b [|? ?]]]; try done. destruct (String.eqb_spec a "language") as [->|]; [|done].
    destruct (String.eqb_spec b kContractVersion) as [->|]; [|done]. destruct (ends_with text ";"); [|done]. by intros [= <-].
  - intros [[-> ->] ->]. done.
Qed.

Lemma namespace_line_exact text s s' :
  namespace_line (words text) text s = inr s' ↔ ∃ ns, namespace_text text ns ∧ s' = with_namespace ns s.
Proof.
  unfold namespace_line, namespace_text. split.
  - destruct (words text) as [|a [|b [|? ?]]]; try done. destruct (String.eqb_spec a "namespace") as [->|]; [|done].
    destruct (validNamespace b) eqn:Hb; [|done]. destruct (ends_with text ";"); [|done]. intros [= <-]. exists b. by split_and!.
  - intros (ns & (-> & -> & ->) & ->). done.
Qed.

Lemma finish_ready ns l s n summary :
  follows l s → ready ns s →
  finish_source s n = inr summary ↔ active s = NoActive ∧ l_views l = ∅ ∧ l_types l ≠ ∅ ∧ summary = summary_of ns l.
Proof.
  intros [F1 F2 F3 F4 F5] (Rc & Rn & Rs). unfold finish_source. rewrite Rc, Rn, F1, F2, F3, F5, Rs. cbn [negb orb].
  destruct (active s); [|by split; [|intros (? & _)]..].
  case_bool_decide as Hv; cbn [negb]; [|split; [done|naive_solver]].
  case_bool_decide as Ht; [split; [done|naive_solver]|]. split; [intros [= <-]|intros (_ & _ & _ & ->)]; done.
Qed.

(** The texts, from the beginning to the summary. *)
Lemma texts_accepted texts n summary :
  Z.of_nat (length texts) ≤ SIZE_MAX →
  (∃ s, texts_run texts new_session = Some s ∧ finish_source s n = inr summary) ↔ accepted_texts texts summary.
Proof.
  intros Hlen. split.
  - intros (s & E & Hf). destruct texts as [|t1 texts]; [by injection E as <-|]. cbn [texts_run text_line active new_session] in E.
    unfold text_line in E. cbn [active new_session contract_seen negb] in E. case_bool_decide as Hw; [done|].
    destruct (contract_line (words t1) t1 new_session) as [|s1] eqn:E1; [done|]. apply contract_line_exact in E1 as [H1 ->].
    destruct texts as [|t2 texts]; [by injection E as <-|]. cbn [texts_run] in E. unfold text_line in E.
    cbn [active with_contract new_session contract_seen namespace_seen negb] in E. case_bool_decide as Hw2; [done|].
    destruct (namespace_line (words t2) t2 (with_contract new_session)) as [|s2] eqn:E2; [done|].
    apply namespace_line_exact in E2 as (ns & H2 & ->). fold (opened_session ns) in E. destruct (opened_follows ns) as [Hs Hr].
    assert (active s = NoActive) as Ha.
    { unfold finish_source in Hf. destruct (_ || _); [done|]. by destruct (active s). }
    cbn [length] in Hlen. destruct (texts_sound ns texts 0 no_ledger (opened_session ns) s no_ledger_ok Hs Hr I) as (is_ & l & Hwr & Hl & Hfo & Hre);
      [lia|done|done|]. apply (finish_ready ns l) in Hf as (_ & ? & ? & ->); [|done|done].
    exists t1, t2, texts, ns, is_, l. by split_and!.
  - intros (t1 & t2 & rest & ns & is_ & l & -> & H1 & H2 & Hwr & Hl & Hv & Ht & ->). destruct (opened_follows ns) as [Hs Hr].
    cbn [length] in Hlen. destruct (texts_complete ns NoActive rest is_ 0 no_ledger (opened_session ns) l Hwr eq_refl no_ledger_ok Hs Hr I)
      as (s & E & Ha & Hfo & Hre); [lia|done|]. exists s. split; [|by apply (finish_ready ns l)].
    cbn [texts_run]. unfold text_line. cbn [active new_session contract_seen negb].
    rewrite bool_decide_false by (destruct H1 as [-> _]; done). rewrite (proj2 (contract_line_exact _ _ _) (conj H1 eq_refl)).
    cbn [active with_contract new_session contract_seen namespace_seen negb].
    rewrite bool_decide_false by (destruct H2 as [-> _]; done).
    rewrite (proj2 (namespace_line_exact _ _ _) (ex_intro _ ns (conj H2 eq_refl))). exact E.
Qed.

(** The file can be read and is within the limits, and its lines are accepted. *)
Definition acceptable (limits : ParserLimits) (file : SourceFile) (summary : ValidationSummary) : Prop :=
  ∃ size text, regular file = true ∧ file_size file = Some size ∧ size ≤ max_source_bytes limits ∧ content file = Some text ∧
    let raws := getline_split chr_newline text in
    Forall (λ raw, str_size raw ≤ max_token_bytes limits) raws ∧
    Z.of_nat (length (texts_of raws)) ≤ max_scanner_matches limits ∧ accepted_texts (texts_of raws) summary.

(** C33.  Validation is exact.  A source is accepted with a summary exactly if it is
    a readable regular file within the limits whose first two lines are the
    contract and a name space, whose other lines are written in the grammar of
    items, whose items are legal under rules about values and views (a moved
    value is not used, a mutable view excludes every other use, names are not
    declared twice, composites have members with different names), which leaves
    no view open and declares a type; the summary then lists the types and counts
    the values and operations. *)
Theorem enterprise_validation_exact limits file summary :
  0 ≤ max_scanner_matches limits ≤ SIZE_MAX →
  validateSourceFile limits file = inr summary ↔ acceptable limits file summary.
Proof.
  intros Hm. unfold validateSourceFile, acceptable. destruct (regular file); cbn [negb]; [|naive_solver].
  destruct (file_size file) as [size|]; [|naive_solver].
  destruct (Z.ltb_spec (max_source_bytes limits) size) as [Hs|Hs]; [split; [done|]; intros (z & t & _ & [= <-] & ? & _); lia|].
  destruct (content file) as [text|]; [|naive_solver]. set (raws := getline_split chr_newline text). split.
  - destruct (lines_loop limits raws 0 0 new_session) as [|[s n]] eqn:E; [done|]. intros Hf.
    apply lines_loop_exact in E as (Hb & Hc & Hr & ->); [|lia]. exists size, text. do 4 (split; [done|]). cbv zeta. fold raws.
    split; [done|]. split; [lia|].
    eapply texts_accepted; [lia|]. by exists s.
  - intros (z & t & _ & [= <-] & _ & [= <-] & Hb & Hc & Ha). fold raws in Hb, Hc, Ha.
    apply (texts_accepted _ (0 + Z.of_nat (length raws))) in Ha as (s & Hr & Hf); [|lia].
    rewrite (proj2 (lines_loop_exact limits raws 0 0 new_session s (0 + Z.of_nat (length raws)) ltac:(lia))); [done|]. split_and!; [done|lia|done|done].
Qed.

(** * Refusals *)

Definition coded (c : string) : Prop := String.prefix "SHD" c = true.

Lemma prefix_take p s n : (String.length p ≤ n)%nat → String.prefix p s = true → String.prefix p (String.substring 0 n s) = true.
Proof.
  revert s n. induction p as [|c p IH]; intros s n Hl Hp; [by destruct (String.substring 0 n s)|].
  destruct s as [|d s], n as [|n]; simpl in *; try done; [lia|]. destruct (ascii_dec c d); [|done]. apply IH; [lia|done].
Qed.

Lemma register_coded n d s r : register_type n d s = inl r → coded r.1.
Proof.
  unfold register_type. destruct (negb _); [by intros [= <-]|]. destruct (declared _ _); [by intros [= <-]|].
  destruct (Descriptors.validate d) as [valid diag]. destruct (negb valid); [|done]. intros [= <-]. unfold diagnosticCode. cbn [fst].
  destruct ((7 <=? str_size diag) && String.prefix "SHD" diag) eqn:E; [|done]. apply andb_true_iff in E as [_ E].
  apply prefix_take; [simpl; lia|done].
Qed.

(** The refusals of a line function are written out or come from [register_type]. *)
Ltac coded_line :=
  intros E; repeat match type of E with context [match ?x with _ => _ end] => destruct x eqn:? end;
  simplify_eq; try done; eauto using register_coded.

Lemma composite_line_coded a text s r :
  match a with
  | ActiveRecord n fs => record_line n fs text s
  | ActiveEnum n vs => enum_line n vs text s
  | NoActive => inr s
  end = inl r → coded r.1.
Proof.
  destruct a as [|n fs|n vs]; [done| |]; [unfold record_line|unfold enum_line]; destruct (text =? "};")%string; coded_line.
Qed.

Lemma declaration_coded parts text s r : declaration_line parts text s = inl r → coded r.1.
Proof.
  unfold declaration_line, open_line, payload_line, result_line. cbv zeta.
  repeat match goal with |- (if ?b then _ else _) = _ → _ => destruct b end; try done.
  all: unfold owned_line, move_line, borrow_line, release_line, access_line; coded_line.
Qed.

Lemma text_line_coded text s r : text_line text s = inl r → coded r.1.
Proof.
  unfold text_line. pose proof (composite_line_coded (active s) text s r) as Hc. destruct (active s); [|done..]. cbv zeta.
  destruct (bool_decide _); [by intros [= <-]|]. destruct (negb (contract_seen s)); [unfold contract_line; coded_line|].
  destruct (negb (namespace_seen s)); [unfold namespace_line; coded_line|]. apply declaration_coded.
Qed.

Lemma lines_loop_refuses limits raws n m s e :
  0 ≤ n → lines_loop limits raws n m s = inl e → coded (code e) ∧ n + 1 ≤ line e ≤ n + Z.of_nat (length raws).
Proof.
  revert n m s. induction raws as [|raw raws IH]; intros n m s Hn; [done|]. cbn [lines_loop length].
  destruct (_ <? _); [intros [= <-]; split; [done|simpl; lia]|].
  destruct (is_empty _); [intros [? ?]%IH; [split; [done|lia]|lia]|].
  destruct (_ <? _); [intros [= <-]; split; [done|simpl; lia]|].
  destruct (text_line (withoutComment raw) s) as [r|s1] eqn:E; [intros [= <-]; split; [by eapply text_line_coded|simpl; lia]|].
  intros [? ?]%IH; [split; [done|lia]|lia].
Qed.

Lemma lines_loop_counts limits raws n m s s' n' : lines_loop limits raws n m s = inr (s', n') → n' = n + Z.of_nat (length raws).
Proof.
  revert n m s. induction raws as [|raw raws IH]; intros n m s; [intros [= _ <-]; simpl; lia|]. cbn [lines_loop length].
  destruct (_ <? _); [done|]. destruct (is_empty _); [intros ->%IH; lia|]. destruct (_ <? _); [done|].
  destruct (text_line _ s); [done|]. intros ->%IH. lia.
Qed.

(** A refusal is located: it carries an SHD code and the number of a line of
    the source, or line 1 when the source has none or cannot be read. *)
Theorem enterprise_refusals_are_located limits file e :
  validateSourceFile limits file = inl e →
  coded (code e) ∧ 1 ≤ line e ≤ Z.max 1 (Z.of_nat (length (getline_split chr_newline (default "" (content file))))).
Proof.
  unfold validateSourceFile. destruct (negb (regular file)); [intros [= <-]; split; [done|simpl; lia]|].
  destruct (file_size file) as [size|]; [|intros [= <-]; split; [done|simpl; lia]].
  destruct (_ <? _); [intros [= <-]; split; [done|simpl; lia]|].
  destruct (content file) as [text|]; [|intros [= <-]; split; [done|simpl; lia]]. cbn [default id].
  destruct (lines_loop limits _ 0 0 new_session) as [e'|[s n]] eqn:E.
  - intros [= <-]. apply lines_loop_refuses in E as [? ?]; [|done]. split; [done|lia].
  - pose proof (lines_loop_counts _ _ _ _ _ _ _ E) as Hn. unfold finish_source.
    destruct (negb (contract_seen s) || negb (namespace_seen s)) eqn:Es.
    { intros [= <-]. split; [done|]. simpl. destruct (Z.eqb_spec n 0); lia. }
    assert (1 ≤ n) as Hpos.
    { destruct (getline_split chr_newline text); [|simpl in *; lia]. injection E as <- _. done. }
    destruct (active s); [|intros [= <-]; split; [done|simpl; lia]..].
    destruct (bool_decide (borrows s = ∅)); [|intros [= <-]; split; [done|simpl; lia]]. cbn [negb].
    destruct (bool_decide (types s = ∅)); [intros [= <-]; split; [done|simpl; lia]|done].
Qed.

(** * Witnesses *)

Definition default_limits : ParserLimits :=
  {| max_source_bytes := MaxSourceBytes; max_scanner_matches := MaxScannerMatches; max_token_bytes := MaxTokenBytes;
     max_nesting_depth := MaxNestingDepth |}.
Definition source_of (lines : list string) : SourceFile :=
  {| regular := true; file_size := Some 200; content := Some (join_with (String chr_newline "") lines) |}.
Definition moved_twice : SourceFile := source_of
  ["language shorthand.enterprise_language.v1;"; "namespace a;"; "option Maybe<int32>;"; "owned Maybe x;"; "move x to y;"; "move x to z;"].

Definition moved_once : SourceFile := source_of
  ["language shorthand.enterprise_language.v1;"; "namespace a;"; "option Maybe<int32>;"; "owned Maybe x;"; "borrow shared x as v;";
   "release v;"; "move x to y;"].

Lemma enterprise_validation_exact_witness :
  acceptable default_limits moved_once
    {| namespace_name := "a"; canonical_types := ["a::Maybe=option<int32>"]; ownership_values := 2; ownership_operations := 4 |} ∧
  ¬ acceptable default_limits moved_twice
    {| namespace_name := "a"; canonical_types := ["a::Maybe=option<int32>"]; ownership_values := 2; ownership_operations := 2 |}.
Proof.
  assert (0 ≤ max_scanner_matches default_limits ≤ SIZE_MAX) as Hl by (split; vm_compute; discriminate). split.
  - apply (enterprise_validation_exact default_limits moved_once _ Hl). vm_compute. reflexivity.
  - intros H. apply (enterprise_validation_exact default_limits moved_twice _ Hl) in H. vm_compute in H. discriminate H.
Defined.

Lemma enterprise_refusals_are_located_witness :
  ∃ e, validateSourceFile default_limits moved_twice = inl e ∧ code e = "SHD3016" ∧ 1 ≤ line e ≤ 6.
Proof.
  eexists. split; [vm_compute; reflexivity|]. split; [reflexivity|].
  exact (proj2 (enterprise_refusals_are_located default_limits moved_twice _ ltac:(vm_compute; reflexivity))).
Defined.
