(* ===== verification/EnterpriseValues.v ===== *)
(** Component: executable enterprise sources (enterprise/EnterpriseValues.h and
    .cpp): a recursive-descent parser that reads typed values, moves, borrows and
    views, checks them with the ownership tracker and lowers them to the semantic
    IR as it goes.

    A method that returns [bool] is a computation of [Try]: [None] is the result
    [false], after which the state is kept, and an out-parameter is the value of
    [Some].  A method that returns its value goes on after an error, as [name]
    does.  [tokens[at]] past the end and [map::at] on a missing key are undefined.
    The recursion over nested expressions takes fuel, one unit per nesting level;
    the loops over tokens take one unit per turn. *)
From S2P Require Import Prelude CxxInt CxxString CxxFloat CxxPath TypeSystem ParserGuard AiTypes SemanticIR SemanticIRBuilder.
Import TypeSystem.Descriptors(TypeKind(..), Field, TypeDescriptor).
Open Scope string_scope.
Open Scope Z_scope.
#[local] Existing Instances sir.CompositeKind_eq_dec sir.ScalarType_eq_dec sir.ExpressionKind_eq_dec.

(** * Tokens *)

Record Token := { text : string; token_line : Z; quoted : bool }.

Definition letter (c : ascii) : bool := between 97 122 c || between 65 90 c || (c =? "_")%char.
Definition digit (c : ascii) : bool := between 48 57 c.

Definition identifier (s : string) : bool :=
  match s with
  | EmptyString => false
  | String first _ => letter first && string_forallb (λ c, letter c || digit c) s
  end.

Definition scalar (s : string) : sir.ScalarType :=
  if String.eqb s "int32" then sir.S_Int32
  else if String.eqb s "bool" then sir.S_Bool
  else if String.eqb s "float64" then sir.S_Float64
  else if String.eqb s "string" then sir.S_String
  else sir.S_Void.

Definition kind (t : sir.ScalarType) : TypeKind :=
  match t with
  | sir.S_Int32 => KInt32
  | sir.S_Bool => KBool
  | sir.S_Float64 => KFloat64
  | sir.S_String => KString
  | _ => KVoid
  end.

Record Borrow := { owner : string; mut : bool; view : bool }.

(** The characters up to the first one that [p] does not hold of, and the rest. *)
Fixpoint span (p : ascii → bool) (s : string) : string * string :=
  match s with
  | EmptyString => ("", "")
  | String c r => if p c then let '(a, b) := span p r in (String c a, b) else ("", s)
  end.

(** The characters of a string literal after its opening quote: the text and
    the rest after the closing quote, or the diagnostic. *)
Fixpoint string_literal (s : string) : string + string * string :=
  match s with
  | EmptyString => inl "unterminated string"
  | String c r =>
      if (c =? chr_quote)%char then inr ("", r)
      else if (c =? "\")%char && negb (is_empty r) then
        match r with
        | EmptyString => inl "unterminated string"
        | String e r =>
            if negb ((e =? "n") || (e =? "t") || (e =? chr_quote) || (e =? "\"))%char then inl "unsupported string escape"
            else
              let ch := if (e =? "n")%char then chr_newline else if (e =? "t")%char then "009"%char else e in
              match string_literal r with
              | inl why => inl why
              | inr (a, rest) => inr (String ch a, rest)
              end
        end
      else if (c =? chr_newline)%char || (c =? "013")%char then inl "unterminated string"
      else if (c =? chr_nul)%char then inl "embedded NUL"
      else match string_literal r with
           | inl why => inl why
           | inr (a, rest) => inr (String c a, rest)
           end
  end.

Definition number_char (c : ascii) : bool :=
  digit c || (c =? ".")%char || (c =? "e")%char || (c =? "E")%char || (c =? "+")%char || (c =? "-")%char.

(** The token that starts at the first character, and the rest. *)
Definition next_token (c : ascii) (r : string) (line : Z) : string + Token * string :=
  if (c =? chr_quote)%char then
    match string_literal r with
    | inl why => inl why
    | inr (a, rest) => inr ({| text := a; token_line := line; quoted := true |}, rest)
    end
  else if letter c then
    let '(a, rest) := span (λ c, letter c || digit c) r in
    inr ({| text := String c a; token_line := line; quoted := false |}, rest)
  else if digit c || (c =? "-")%char then
    let '(a, rest) := span number_char r in
    inr ({| text := String c a; token_line := line; quoted := false |}, rest)
  else inr ({| text := String c ""; token_line := line; quoted := false |}, r).

(** The loop over the source: the tokens, the last of them empty, or the
    diagnostic and its line. *)
Fixpoint scan (limits : ParserLimits) (fuel : nat) (source : string) (line : Z) (tokens : list Token) : outcome (string * Z + list Token) :=
  match fuel with
  | O => OutOfFuel
  | S fuel =>
      match source with
      | EmptyString => Done (inr (tokens ++ [{| text := ""; token_line := line; quoted := false |}])%list)
      | String c r =>
          if (c =? chr_newline)%char then scan limits fuel r (u32 (line + 1)) tokens
          else if (c =? " ")%char || (c =? "009")%char || (c =? "013")%char then scan limits fuel r line tokens
          else if (c =? "#")%char || ((c =? "/")%char && bool_decide (front r = Some "/"%char)) then
            scan limits fuel (drop_while (λ c, negb (c =? chr_newline)%char) r) line tokens
          else match next_token c r line with
          | inl why => Done (inl (why, line))
          | inr (token, rest) =>
              if (max_token_bytes limits <? str_size (text token)) || (100000 <=? Z.of_nat (length tokens)) then
                Done (inl ("token/work limit exceeded", line))
              else scan limits fuel rest line (tokens ++ [token])%list
          end
      end
  end.

(** * The parser *)

Record Parser := {
  path : string; p : sir.ProgramIR; error : string; failureLine : Z; tokens : list Token; at_ : nat; depth : Z;
  composites : gmap string sir.Composite; values : gmap string sir.Variable_; borrows : gmap string Borrow;
  ownership : Ownership.OwnershipTracker;
}.

Definition set_p (v : sir.ProgramIR) (s : Parser) : Parser :=
  {| path := path s; p := v; error := error s; failureLine := failureLine s; tokens := tokens s; at_ := at_ s; depth := depth s;
     composites := composites s; values := values s; borrows := borrows s; ownership := ownership s |}.
Definition set_failure (why : string) (line : Z) (s : Parser) : Parser :=
  {| path := path s; p := p s; error := why; failureLine := line; tokens := tokens s; at_ := at_ s; depth := depth s;
     composites := composites s; values := values s; borrows := borrows s; ownership := ownership s |}.
Definition set_at (v : nat) (s : Parser) : Parser :=
  {| path := path s; p := p s; error := error s; failureLine := failureLine s; tokens := tokens s; at_ := v; depth := depth s;
     composites := composites s; values := values s; borrows := borrows s; ownership := ownership s |}.
Definition set_depth (v : Z) (s : Parser) : Parser :=
  {| path := path s; p := p s; error := error s; failureLine := failureLine s; tokens := tokens s; at_ := at_ s; depth := v;
     composites := composites s; values := values s; borrows := borrows s; ownership := ownership s |}.
Definition set_composites (v : gmap string sir.Composite) (s : Parser) : Parser :=
  {| path := path s; p := p s; error := error s; failureLine := failureLine s; tokens := tokens s; at_ := at_ s; depth := depth s;
     composites := v; values := values s; borrows := borrows s; ownership := ownership s |}.
Definition set_values (v : gmap string sir.Variable_) (s : Parser) : Parser :=
  {| path := path s; p := p s; error := error s; failureLine := failureLine s; tokens := tokens s; at_ := at_ s; depth := depth s;
     composites := composites s; values := v; borrows := borrows s; ownership := ownership s |}.
Definition set_borrows (v : gmap string Borrow) (s : Parser) : Parser :=
  {| path := path s; p := p s; error := error s; failureLine := failureLine s; tokens := tokens s; at_ := at_ s; depth := depth s;
     composites := composites s; values := values s; borrows := v; ownership := ownership s |}.
Definition set_ownership (v : Ownership.OwnershipTracker) (s : Parser) : Parser :=
  {| path := path s; p := p s; error := error s; failureLine := failureLine s; tokens := tokens s; at_ := at_ s; depth := depth s;
     composites := composites s; values := values s; borrows := borrows s; ownership := v |}.

(** A parser on the tokens of a source. *)
Definition new_parser (path : string) (tokens : list Token) : Parser := {|
  path := path; p := empty_program; error := ""; failureLine := 1; tokens := tokens; at_ := 0; depth := 0;
  composites := ∅; values := ∅; borrows := ∅; ownership := ∅ |}.

(** ** Methods that can return [false] *)

Definition Try (A : Type) : Type := SM Parser (option A).

Global Instance Try_ret : MRet Try := λ A a s, Done (Some a, s).
Global Instance Try_bind : MBind Try := λ A B k m s,
  match m s with
  | Done (Some a, s') => k a s'
  | Done (None, s') => Done (None, s')
  | Undefined r => Undefined r
  | OutOfFuel => OutOfFuel
  end.

Definition read_ {A} (f : Parser → A) : Try A := λ s, Done (Some (f s), s).
Definition write_ (f : Parser → Parser) : Try unit := λ s, Done (Some tt, f s).
Definition refuse {A} : Try A := λ s, Done (None, s).
Definition no_fuel {A} : Try A := λ _, OutOfFuel.

(** [tokens[at]] *)
Definition peek : Try Token := λ s,
  match tokens s !! at_ s with Some t => Done (Some t, s) | None => Undefined "tokens[at]" end.

(** The first error stays. *)
Definition note (message : string) : Try unit :=
  e ← read_ error;
  if is_empty e then t ← peek; write_ (set_failure message (token_line t)) else mret tt.

Definition fail {A} (message : string) : Try A := note message;; refuse.

(** [if (b) return fail(message);] and [b || fail(message)] *)
Definition fail_if (b : bool) (message : string) : Try unit := if b then fail message else mret tt.

Definition advance : Try unit := write_ (λ s, set_at (at_ s + 1) s).

Definition take (word : string) : Try bool :=
  t ← peek;
  if negb (String.eqb (text t) word) || quoted t then mret false else advance;; mret true.

Definition expect (word : string) : Try unit :=
  b ← take word;
  if (b : bool) then mret tt else fail ("expected `" +:+ word +:+ "`").

(** [name] reports an error and returns the empty string. *)
Definition name : Try string :=
  t ← peek;
  if negb (identifier (text t)) || quoted t then note "expected an identifier";; mret ""
  else advance;; mret (text t).

Definition location (path : string) (line : Z) : sir.SourceLocation := {| sir.file := path; sir.line := s32 line; sir.column := 1 |}.

Definition range : Try sir.SourceRange :=
  file ← read_ path;
  t ← peek;
  mret {| sir.begin := location file (token_line t); sir.end_ := location file (token_line t) |}.

Definition isKnown (r : sir.SourceRange) : bool :=
  negb (is_empty (sir.file (sir.begin r))) && (0 <? sir.line (sir.begin r)) && (0 <? sir.column (sir.begin r)).

(** An operation of the ownership tracker: its result, and its diagnostic. *)
Definition owning (op : Ownership.OwnershipTracker → Ownership.op_result) : Try (bool * string) :=
  o ← read_ ownership;
  let '(b, why, o') := op o in
  write_ (set_ownership o');; mret (b, why).

(** [if (!ownership.op(why)) return fail(why);] *)
Definition owned_or_fail (op : Ownership.OwnershipTracker → Ownership.op_result) : Try unit :=
  '(b, why) ← owning op;
  fail_if (negb b) why.

(** [composites.at(n)] and [values.at(n)] *)
Definition composite_at (n : string) : Try sir.Composite := λ s,
  match composites s !! n with Some c => Done (Some c, s) | None => Undefined "composites.at" end.
Definition value_at (n : string) : Try sir.Variable_ := λ s,
  match values s !! n with Some v => Done (Some v, s) | None => Undefined "values.at" end.

(** ** Expressions *)

Definition integer (n : Z) : sir.Expression :=
  sir.MkExpression sir.E_Integer sir.S_Int32 "" n dzero 0 [] no_source "".

Definition zero (t : sir.ScalarType) : sir.Expression :=
  let k := match t with
           | sir.S_Float64 => sir.E_Float | sir.S_String => sir.E_String | sir.S_Bool => sir.E_Boolean | _ => sir.E_Integer
           end in
  sir.MkExpression k t "" 0 dzero 0 [] no_source "".

Definition with_range (r : sir.SourceRange) (e : sir.Expression) : sir.Expression :=
  sir.MkExpression (sir.e_kind e) (sir.e_type e) (sir.e_name e) (sir.e_integer e) (sir.e_decimal e) (sir.e_opcode e)
    (sir.e_operands e) r (sir.e_composite e).

(** A node of the given kind and type over the operands. *)
Definition node (k : sir.ExpressionKind) (t : sir.ScalarType) (n : string) (i : Z) (es : list sir.Expression) (composite : string)
    : sir.Expression :=
  sir.MkExpression k t n i dzero 0 es no_source composite.

(** Reads or writes a name: the value itself, or the owner a borrow names. *)
Definition reference (n : string) (write : bool) : Try sir.Expression :=
  bs ← read_ borrows;
  owner ← match bs !! n with
          | Some b =>
              if view b then
                (owned_or_fail ((if write then Ownership.assign else Ownership.read) n);; mret n)
              else (fail_if (write && negb (mut b)) "shared borrow is immutable";; mret (owner b))
          | None => (owned_or_fail ((if write then Ownership.assign else Ownership.read) n);; mret n)
          end;
  vs ← read_ values;
  match vs !! owner with
  | None => fail ("unknown value: " +:+ owner)
  | Some v => mret (node sir.E_Variable (sir.v_type v) owner 0 [] (sir.v_composite v))
  end.

(** The value [std::from_chars] reads into an [int32_t], if it reads all of the text. *)
Definition from_chars (s : string) : option Z :=
  let '(neg, digits) := match s with String "-" r => (true, r) | _ => (false, s) end in
  let '(v, n, rest) := scan_digits 0 0 digits in
  let v := if neg then - v else v in
  if (n =? 0) || negb (is_empty rest) then None
  else if (INT32_MIN <=? v) && (v <=? INT32_MAX) then Some v else None.

Definition has_fraction (s : string) : bool :=
  negb (string_forallb (λ c, negb ((c =? ".") || (c =? "e") || (c =? "E"))%char) s).

Definition number (literal : string) : Try sir.Expression :=
  if has_fraction literal then
    match strtod literal with
    | Some r =>
        if negb (sd_erange r) && is_empty (sd_rest r) && isfinite (sd_value r) then
          mret (sir.MkExpression sir.E_Float sir.S_Float64 "" 0 (sd_value r) 0 [] no_source "")
        else fail "invalid float64 literal"
    | None => fail "invalid float64 literal"
    end
  else match from_chars literal with
  | Some i => mret (integer i)
  | None => fail "invalid int32 literal"
  end.

Fixpoint index_of (x : string) (names : list string) (i : nat) : option nat :=
  match names with
  | [] => None
  | n :: rest => if String.eqb n x then Some i else index_of x rest (S i)
  end.

(** The position of the last of equal names. *)
Fixpoint last_index_of (x : string) (names : list string) (i : nat) (found : option nat) : option nat :=
  match names with
  | [] => found
  | n :: rest => last_index_of x rest (S i) (if String.eqb n x then Some i else found)
  end.

(** [v[i]] and [v[i] = x] of a vector. *)
Definition element {A} (xs : list A) (i : nat) : Try A :=
  match xs !! i with Some x => mret x | None => λ _, Undefined "vector index" end.
Definition with_element {A} (xs : list A) (i : nat) (x : A) : Try (list A) :=
  if decide (i < length xs)%nat then mret (<[i := x]> xs) else λ _, Undefined "vector index".

Section Expressions.
Context (expression : Try sir.Expression).

(** The fields of a record, from the [i]-th on. *)
Fixpoint construct_fields (fields : list sir.ScalarType) (i : nat) : Try (list sir.Expression) :=
  match fields with
  | [] => mret []
  | _ :: rest =>
      (if decide (i = 0%nat) then mret tt else expect ",");;
      e ← expression;
      es ← construct_fields rest (S i);
      mret (e :: es)
  end.

Definition variant_tag (c : sir.Composite) (variant : string) : Z :=
  if bool_decide (sir.co_kind c = sir.C_Option) then
    (if String.eqb variant "some" then 1 else if String.eqb variant "none" then 0 else -1)
  else (if String.eqb variant "ok" then 0 else if String.eqb variant "error" then 1 else -1).

Definition construct (n : string) (c : sir.Composite) : Try sir.Expression :=
  let made es := node sir.E_Construct sir.S_Composite "" 0 es n in
  match sir.co_kind c with
  | sir.C_Slice => fail "slices require view and an array owner"
  | sir.C_Enum =>
      expect ".";;
      variant ← name;
      match index_of variant (sir.co_names c) 0 with
      | Some i => mret (made [integer (Z.of_nat i)])
      | None => fail "unknown enum variant"
      end
  | sir.C_Option | sir.C_Result =>
      expect ".";;
      variant ← name;
      let tag := variant_tag c variant in
      fail_if (tag <? 0) "unknown option/result variant";;
      let operands := integer tag :: map zero (sir.co_fields c) in
      if bool_decide (sir.co_kind c = sir.C_Option) && (tag =? 0) then mret (made operands)
      else
        expect "(";;
        payload ← expression;
        expect ")";;
        es ← with_element operands (if bool_decide (sir.co_kind c = sir.C_Option) then 1%nat else Z.to_nat (tag + 1)) payload;
        mret (made es)
  | sir.C_Record =>
      expect "(";;
      es ← construct_fields (sir.co_fields c) 0;
      expect ")";;
      mret (made es)
  end.

(** [.field] after a value. *)
Definition projection (e : sir.Expression) : Try sir.Expression :=
  field ← name;
  fail_if (negb (bool_decide (sir.e_type e = sir.S_Composite))) "projection requires composite";;
  c ← composite_at (sir.e_composite e);
  let k := sir.co_kind c in
  let project i t := node sir.E_Project t "" i [e] "" in
  if negb (bool_decide (k = sir.C_Record)) && negb (bool_decide (k = sir.C_Slice)) && String.eqb field "tag" then
    mret (project 0 sir.S_Int32)
  else if negb (bool_decide (k = sir.C_Enum)) && negb (bool_decide (k = sir.C_Slice)) then
    match last_index_of field (sir.co_names c) 0 None with
    | Some i =>
        t ← element (sir.co_fields c) i;
        mret (project (Z.of_nat i + (if bool_decide (k = sir.C_Record) then 0 else 1)) t)
    | None => fail "unknown composite field"
    end
  else fail "unknown composite field".

(** [[index]] after a value. *)
Definition indexing (e : sir.Expression) : Try sir.Expression :=
  index ← expression;
  expect "]";;
  if bool_decide (sir.e_type e = sir.S_Composite) then
    c ← composite_at (sir.e_composite e);
    fail_if (negb (bool_decide (sir.co_kind c = sir.C_Slice))) "indexing requires array/slice";;
    t ← element (sir.co_fields c) 0;
    mret (node sir.E_SliceIndex t (sir.e_name e) 0 [index] "")
  else mret (node sir.E_Index (sir.e_type e) (sir.e_name e) 0 [index] (sir.e_composite e)).

(** A name that is not a type. *)
Definition value_expression (n : string) : Try sir.Expression :=
  e ← reference n false;
  dot ← take ".";
  if (dot : bool) then projection e
  else
    bracket ← take "[";
    if (bracket : bool) then indexing e
    else
      v ← value_at (sir.e_name e);
      fail_if (0 <? sir.v_extent v) "array requires an index";;
      mret e.

Definition starts_number (s : string) : bool :=
  match s with String c _ => digit c || (c =? "-")%char | EmptyString => false end.

Definition boolean (b : bool) : sir.Expression := node sir.E_Boolean sir.S_Bool "" (if b then 1 else 0) [] "".

Definition expressionImpl : Try sir.Expression :=
  t ← peek;
  if quoted t then advance;; mret (node sir.E_String sir.S_String (text t) 0 [] "")
  else
    yes ← take "true";
    if (yes : bool) then mret (boolean true)
    else
      no ← take "false";
      if (no : bool) then mret (boolean false)
      else if starts_number (text t) then advance;; number (text t)
      else
        n ← name;
        if is_empty n then refuse
        else
          cs ← read_ composites;
          match cs !! n with
          | Some c => construct n c
          | None => value_expression n
          end.
End Expressions.

(** [m] and then [--depth], whatever [m] returns. *)
Definition leaving {A} (m : Try A) : Try A := λ s,
  match m s with
  | Done (r, s') => Done (r, set_depth (u32 (depth s' - 1)) s')
  | Undefined r => Undefined r
  | OutOfFuel => OutOfFuel
  end.

Fixpoint expression (fuel : nat) : Try sir.Expression :=
  match fuel with
  | O => no_fuel
  | S fuel =>
      write_ (λ s, set_depth (u32 (depth s + 1)) s);;
      d ← read_ depth;
      if 128 <? d then leaving (mret tt);; fail "expression depth limit exceeded"
      else
        source ← range;
        e ← leaving (expressionImpl (expression fuel));
        mret (if isKnown (sir.e_range e) then e else with_range source e)
  end.

(** The nesting limit leaves at most 128 levels. *)
Definition parse_expression : Try sir.Expression := expression 129.

(** ** Declarations *)

(** [append(s)] and [p.globals.push_back(v)], [p.composites.push_back(c)]. *)
Definition append (st : sir.Statement) : Try unit :=
  write_ (λ s, let q := p s in
    set_p {| sir.composites := sir.composites q; sir.models := sir.models q; sir.tensors := sir.tensors q;
             sir.inferences := sir.inferences q; sir.contracts := sir.contracts q; sir.measurements := sir.measurements q;
             sir.globals := sir.globals q; sir.functions := sir.functions q;
             sir.body := let b := sir.body q in
               sir.MkStatement (sir.s_kind b) (sir.s_name b) (sir.s_strings b) (sir.s_expressions b) (sir.s_variables b)
                 (sir.s_body b ++ [st])%list (sir.s_alternative b) (sir.s_declaration b) (sir.s_lexical_scope b) (sir.s_range b) |} s).
Definition push_global (v : sir.Variable_) : Try unit :=
  write_ (λ s, let q := p s in
    set_p {| sir.composites := sir.composites q; sir.models := sir.models q; sir.tensors := sir.tensors q;
             sir.inferences := sir.inferences q; sir.contracts := sir.contracts q; sir.measurements := sir.measurements q;
             sir.globals := (sir.globals q ++ [v])%list; sir.functions := sir.functions q; sir.body := sir.body q |} s).
Definition push_composite (c : sir.Composite) : Try unit :=
  write_ (λ s, let q := p s in
    set_p {| sir.composites := (sir.composites q ++ [c])%list; sir.models := sir.models q; sir.tensors := sir.tensors q;
             sir.inferences := sir.inferences q; sir.contracts := sir.contracts q; sir.measurements := sir.measurements q;
             sir.globals := sir.globals q; sir.functions := sir.functions q; sir.body := sir.body q |} s).

Definition statement_of (k : sir.StatementKind) (es : list sir.Expression) (declaration : nat) (r : sir.SourceRange) : sir.Statement :=
  sir.MkStatement k "" [] es [] [] [] declaration false r.

(** The members between the braces; [fields] and [names] are those read before. *)
Fixpoint members (fuel : nat) (record : bool) (fields : list sir.ScalarType) (names : list string)
    : Try (list sir.ScalarType * list string) :=
  match fuel with
  | O => no_fuel
  | S fuel =>
      closed ← take "}";
      if (closed : bool) then mret (fields, names)
      else
        fail_if (256 <=? Z.of_nat (length names)) "field limit exceeded";;
        t ← (if record then
               n ← name;
               fail_if (bool_decide (scalar n = sir.S_Void)) "record requires scalar fields";;
               mret (scalar n)
             else mret sir.S_Void);
        field ← name;
        if is_empty field then refuse
        else
          expect ";";;
          members fuel record (if record then (fields ++ [t])%list else fields) (names ++ [field])%list
  end.

(** A scalar type in angle brackets. *)
Definition payload_type (message : string) : Try sir.ScalarType :=
  n ← name;
  fail_if (bool_decide (scalar n = sir.S_Void)) message;;
  mret (scalar n).

(** The fields, names and descriptor of a composite after its name. *)
Definition composite_body (k : sir.CompositeKind) (n : string) : Try (list sir.ScalarType * list string * TypeDescriptor) :=
  match k with
  | sir.C_Record =>
      expect "{";;
      '(fields, names) ← members 257 true [] [];
      mret (fields, names, Descriptors.record n
              (zip_with (λ f t, {| Descriptors.field_name := f; Descriptors.field_kind := kind t |}) names fields))
  | sir.C_Enum =>
      expect "{";;
      '(fields, names) ← members 257 false [] [];
      mret (fields, names, Descriptors.enumeration n names)
  | _ =>
      expect "<";;
      first ← payload_type "payload requires scalar";
      r ← match k with
          | sir.C_Result =>
              expect ",";;
              second ← payload_type "error requires scalar";
              mret ([first; second], ["ok"; "error"], Descriptors.result_ (kind first) (kind second))
          | sir.C_Option => mret ([first], ["value"], Descriptors.option_ (kind first))
          | _ => mret ([first], ["element"], Descriptors.slice (kind first))
          end;
      expect ">";;
      mret r
  end.

Definition declaration (k : sir.CompositeKind) : Try unit :=
  n ← name;
  cs ← read_ composites;
  fail_if (is_empty n || bool_decide (is_Some (cs !! n))) "duplicate/invalid type";;
  '(fields, names, descriptor) ← composite_body k n;
  let '(valid, why) := Descriptors.validate descriptor in
  fail_if (negb valid) why;;
  expect ";";;
  let c := {| sir.co_kind := k; sir.co_name := n; sir.co_fields := fields; sir.co_names := names |} in
  write_ (λ s, set_composites (<[n := c]> (composites s)) s);;
  push_composite c.

Definition declared (n : string) : Try bool := read_ (λ s, bool_decide (is_Some (values s !! n)) || bool_decide (is_Some (borrows s !! n))).

(** A new value: declared and initialised in the tracker, and a global. *)
Definition new_global (v : sir.Variable_) : Try unit :=
  owned_or_fail (Ownership.declareValue (sir.v_name v));;
  owned_or_fail (Ownership.initialize (sir.v_name v));;
  write_ (λ s, set_values (<[sir.v_name v := v]> (values s)) s);;
  push_global v.

Definition addValue (v : sir.Variable_) (init : sir.Expression) : Try unit :=
  d ← declared (sir.v_name v);
  fail_if d "duplicate value/borrow";;
  new_global v;;
  append (statement_of sir.St_Assign
            [node sir.E_Variable (sir.v_type v) (sir.v_name v) 0 [] (sir.v_composite v); init] 0 no_source).

(** ** Statements *)

Definition scalar_variable (n : string) (t : sir.ScalarType) (composite : string) (r : sir.SourceRange) : sir.Variable_ :=
  {| sir.v_name := n; sir.v_type := t; sir.v_extent := 0; sir.v_range := r; sir.v_composite := composite |}.

Definition owned_statement (loc : sir.SourceRange) : Try unit :=
  tn ← name;
  '(t, composite) ←
    (if bool_decide (scalar tn = sir.S_Void) then
       cs ← read_ composites;
       match cs !! tn with
       | None => fail "unknown type"
       | Some c =>
           fail_if (bool_decide (sir.co_kind c = sir.C_Slice)) "slices require view";;
           mret (sir.S_Composite, tn)
       end
     else mret (scalar tn, ""));
  n ← name;
  if is_empty n then refuse
  else
    expect "=";;
    init ← parse_expression;
    expect ";";;
    fail_if (bool_decide (sir.e_type init = sir.S_Composite) && negb (bool_decide (sir.e_kind init = sir.E_Construct)))
      "owned composite requires constructor or move";;
    addValue (scalar_variable n t composite loc) init.

(** The initial elements of an array, from the [i]-th on. *)
Fixpoint array_elements (v : sir.Variable_) (count : nat) (i : Z) : Try unit :=
  match count with
  | O => mret tt
  | S count =>
      (if i =? 0 then mret tt else expect ",");;
      init ← parse_expression;
      append (statement_of sir.St_Assign [node sir.E_Index (sir.v_type v) (sir.v_name v) 0 [integer i] ""; init] 0 no_source);;
      array_elements v count (i + 1)
  end.

Definition array_statement (loc : sir.SourceRange) : Try unit :=
  tn ← name;
  n ← name;
  expect "[";;
  extent ← parse_expression;
  expect "]";;
  fail_if (negb (bool_decide (sir.e_kind extent = sir.E_Integer)) || (sir.e_integer extent <=? 0) || (65536 <? sir.e_integer extent))
    "array requires positive extent up to 65536";;
  let t := scalar tn in
  fail_if (negb (bool_decide (t = sir.S_Int32)) && negb (bool_decide (t = sir.S_Float64)) && negb (bool_decide (t = sir.S_Bool)))
    "array requires numeric/bool elements";;
  expect "=";;
  expect "[";;
  d ← declared n;
  fail_if d "invalid array declaration";;
  let v := {| sir.v_name := n; sir.v_type := t; sir.v_extent := sir.e_integer extent; sir.v_range := loc; sir.v_composite := "" |} in
  new_global v;;
  array_elements v (Z.to_nat (sir.v_extent v)) 0;;
  expect "]";;
  expect ";".

Definition view_statement (loc : sir.SourceRange) : Try unit :=
  tn ← name;
  cs ← read_ composites;
  match cs !! tn with
  | None => fail "view requires slice type"
  | Some c =>
      fail_if (negb (bool_decide (sir.co_kind c = sir.C_Slice))) "view requires slice type";;
      n ← name;
      expect "=";;
      from ← name;
      expect "[";;
      offset ← parse_expression;
      expect ",";;
      length ← parse_expression;
      expect "]";;
      expect ";";;
      owned_or_fail (Ownership.borrowShared from);;
      addValue (scalar_variable n sir.S_Composite tn loc)
        (with_range loc (node sir.E_Slice sir.S_Composite from 0 [offset; length] tn));;
      write_ (λ s, set_borrows (<[n := {| owner := from; mut := false; view := true |}]> (borrows s)) s)
  end.

(** The expressions of a [print], separated by commas. *)
Fixpoint printed (fuel : nat) : Try (list sir.Expression) :=
  match fuel with
  | O => no_fuel
  | S fuel =>
      e ← parse_expression;
      more ← take ",";
      if (more : bool) then es ← printed fuel; mret (e :: es) else mret [e]
  end.

Definition print_statement (loc : sir.SourceRange) : Try unit :=
  n ← read_ (λ s, length (tokens s));
  es ← printed n;
  expect ";";;
  append (statement_of sir.St_Print es 0 loc).

(** The target of a [set] after its name, and the kind and field of the statement. *)
Definition set_target (target : sir.Expression) : Try (sir.StatementKind * nat * sir.Expression) :=
  dot ← take ".";
  if (dot : bool) then
    field ← name;
    fail_if (negb (bool_decide (sir.e_type target = sir.S_Composite))) "field update requires record";;
    c ← composite_at (sir.e_composite target);
    match last_index_of field (sir.co_names c) 0 None with
    | Some i =>
        fail_if (negb (bool_decide (sir.co_kind c = sir.C_Record))) "unknown record field";;
        mret (sir.St_Update, i, target)
    | None => fail "unknown record field"
    end
  else
    bracket ← take "[";
    if (bracket : bool) then
      index ← parse_expression;
      expect "]";;
      mret (sir.St_Assign, 0%nat,
            with_range (sir.e_range target)
              (node sir.E_Index (sir.e_type target) (sir.e_name target) 0 [index] (sir.e_composite target)))
    else
      fail_if (bool_decide (sir.e_type target = sir.S_Composite)) "use move or field update";;
      mret (sir.St_Assign, 0%nat, target).

Definition set_statement (loc : sir.SourceRange) : Try unit :=
  n ← name;
  target ← reference n true;
  '(k, i, target) ← set_target (with_range loc target);
  expect "=";;
  value ← parse_expression;
  expect ";";;
  append (statement_of k [target; value] i loc).

Definition move_statement (loc : sir.SourceRange) : Try unit :=
  from ← name;
  init ← reference from false;
  expect "to";;
  bs ← read_ borrows;
  fail_if (bool_decide (is_Some (bs !! from))) "release view before moving";;
  v ← value_at from;
  n ← name;
  expect ";";;
  owned_or_fail (Ownership.moveValue from);;
  addValue {| sir.v_name := n; sir.v_type := sir.v_type v; sir.v_extent := sir.v_extent v; sir.v_range := loc;
              sir.v_composite := sir.v_composite v |} init.

Definition borrow_statement : Try unit :=
  mut ← take "mutable";
  (if (mut : bool) then mret tt else expect "shared");;
  from ← name;
  expect "as";;
  handle ← name;
  expect ";";;
  d ← declared handle;
  fail_if d "duplicate borrow";;
  owned_or_fail ((if mut then Ownership.borrowMutable else Ownership.borrowShared) from);;
  write_ (λ s, set_borrows (<[handle := {| owner := from; mut := mut; view := false |}]> (borrows s)) s).

Definition release_statement : Try unit :=
  handle ← name;
  expect ";";;
  bs ← read_ borrows;
  match bs !! handle with
  | None => fail "unknown/released borrow"
  | Some b =>
      owned_or_fail ((if mut b then Ownership.releaseMutable else Ownership.releaseShared) (owner b));;
      (if view b then owned_or_fail (Ownership.moveValue handle) else mret tt);;
      write_ (λ s, set_borrows (delete handle (borrows s)) s)
  end.

(** The keywords and what follows them, in the order they are tried. *)
Definition keywords (loc : sir.SourceRange) : list (string * Try unit) :=
  [("record", declaration sir.C_Record); ("enum", declaration sir.C_Enum); ("option", declaration sir.C_Option);
   ("result", declaration sir.C_Result); ("slice", declaration sir.C_Slice); ("owned", owned_statement loc);
   ("array", array_statement loc); ("view", view_statement loc); ("print", print_statement loc); ("set", set_statement loc);
   ("move", move_statement loc); ("borrow", borrow_statement); ("release", release_statement)].

Fixpoint dispatch (ks : list (string * Try unit)) : Try unit :=
  match ks with
  | [] => fail "unknown enterprise value statement"
  | (word, m) :: rest => b ← take word; if (b : bool) then m else dispatch rest
  end.

Definition statement : Try unit := loc ← range; dispatch (keywords loc).

(** ** Programs *)

Fixpoint dotted (fuel : nat) : Try unit :=
  match fuel with
  | O => no_fuel
  | S fuel =>
      dot ← take ".";
      if (dot : bool) then n ← name; if is_empty n then refuse else dotted fuel else mret tt
  end.

Fixpoint statements (fuel : nat) : Try unit :=
  match fuel with
  | O => no_fuel
  | S fuel => t ← peek; if is_empty (text t) then mret tt else statement;; statements fuel
  end.

(** [run] after [tokenize]. *)
Definition run : Try bool :=
  expect "language";; expect "shorthand";; expect ".";; expect "enterprise_language";; expect ".";; expect "v2";; expect ";";;
  expect "namespace";;
  n ← name;
  if is_empty n then refuse
  else
    fuel ← read_ (λ s, length (tokens s));
    dotted fuel;;
    expect ";";;
    statements fuel;;
    bs ← read_ borrows;
    if decide (bs = ∅) then e ← read_ error; mret (is_empty e) else fail "all borrows/views must be released".

(** The program, or the diagnostic and its line.  [source] is what reading the
    file gives. *)
Definition lowerValueSource (limits : ParserLimits) (file : string) (source : option string) : outcome (string * Z + sir.ProgramIR) :=
  match source with
  | None => Done (inl ("unreadable or oversized source", 1))
  | Some source =>
      if max_source_bytes limits <? str_size source then Done (inl ("unreadable or oversized source", 1))
      else match scan limits (S (String.length source)) source 1 [] with
      | Done (inl failure) => Done (inl failure)
      | Done (inr tokens) =>
          match run (new_parser file tokens) with
          | Done (Some true, s) => Done (inr (p s))
          | Done (_, s) => Done (inl (error s, failureLine s))
          | Undefined r => Undefined r
          | OutOfFuel => OutOfFuel
          end
      | Undefined r => Undefined r
      | OutOfFuel => OutOfFuel
      end
  end.

(** The first line with text that is not a comment names the language. *)
Fixpoint first_line_is_v2 (lines : list string) : bool :=
  match lines with
  | [] => false
  | line :: rest =>
      let shown := drop_while (λ c, (c =? " ")%char || (c =? "009")%char || (c =? "013")%char) line in
      if is_empty shown || bool_decide (front shown = Some "#"%char) || String.prefix "//" shown then first_line_is_v2 rest
      else contains "shorthand.enterprise_language.v2" line
  end.

Definition isValueSource (source : option string) : bool :=
  match source with
  | None => false
  | Some source => first_line_is_v2 (getline_split chr_newline source)
  end.
