(* ===== verification/EnterpriseValuesFacts.v ===== *)
(** Executable enterprise sources: parsing always ends without reading outside
    its tables, and a refusal carries a diagnostic. *)
From S2P Require Import Prelude CxxInt CxxString CxxFloat CxxPath TypeSystem ParserGuard AiTypes SemanticIR SemanticIRBuilder.
From S2P Require Import EnterpriseValues.
Import TypeSystem.Descriptors(TypeKind(..), Field, TypeDescriptor).
Open Scope string_scope.
Open Scope Z_scope.
#[local] Existing Instances sir.CompositeKind_eq_dec sir.ScalarType_eq_dec sir.ExpressionKind_eq_dec.

(** * Total correctness of [Try]

    [tri m Q s]: from [s], [m] returns; a value comes with a state that satisfies
    [Q], and a failure leaves a diagnostic. *)
Definition tri {A} (m : Try A) (Q : A → Parser → Prop) (s : Parser) : Prop :=
  match m s with
  | Done (Some a, s') => Q a s'
  | Done (None, s') => error s' ≠ ""
  | _ => False
  end.

Lemma tri_ret {A} (a : A) (Q : A → Parser → Prop) s : Q a s → tri (mret a) Q s.
Proof. done. Qed.

Lemma tri_bind {A B} (m : Try A) (k : A → Try B) (Q : B → Parser → Prop) s :
  tri m (λ a s', tri (k a) Q s') s → tri (m ≫= k) Q s.
Proof. unfold tri, mbind, Try_bind. by destruct (m s) as [[[a|] s']| |]. Qed.

Lemma tri_mono {A} (m : Try A) (Q R : A → Parser → Prop) s : tri m Q s → (∀ a s', Q a s' → R a s') → tri m R s.
Proof. unfold tri. destruct (m s) as [[[a|] s']| |]; auto. Qed.

Lemma tri_read {A} (f : Parser → A) (Q : A → Parser → Prop) s : Q (f s) s → tri (read_ f) Q s.
Proof. done. Qed.

Lemma tri_write f (Q : unit → Parser → Prop) s : Q tt (f s) → tri (write_ f) Q s.
Proof. done. Qed.

Lemma tri_refuse {A} (Q : A → Parser → Prop) s : error s ≠ "" → tri refuse Q s.
Proof. done. Qed.

(** * The cursor *)

Definition composite_ok (c : sir.Composite) : Prop :=
  match sir.co_kind c with
  | sir.C_Record => length (sir.co_names c) = length (sir.co_fields c)
  | sir.C_Enum => True
  | sir.C_Option => sir.co_names c = ["value"] ∧ length (sir.co_fields c) = 1%nat
  | sir.C_Result => sir.co_names c = ["ok"; "error"] ∧ length (sir.co_fields c) = 2%nat
  | sir.C_Slice => length (sir.co_fields c) = 1%nat
  end.

Record shape (s : Parser) : Prop := {
  sh_last : ∃ ts e, tokens s = (ts ++ [e])%list ∧ text e = "" ∧ quoted e = false;
  sh_count : Z.of_nat (length (tokens s)) ≤ 100001;
  sh_inside : (at_ s < length (tokens s))%nat;
  sh_depth : 0 ≤ depth s ≤ 128;
  sh_composites : map_Forall (λ _ c, composite_ok c) (composites s);
  sh_values : map_Forall (λ _ v, sir.v_type v = sir.S_Composite → is_Some (composites s !! sir.v_composite v)) (values s);
}.

(** [s] is [s0] further on in the tokens, with the same tables. *)
Record later (s0 s : Parser) : Prop := {
  la_tokens : tokens s = tokens s0; la_depth : depth s = depth s0; la_composites : composites s = composites s0;
  la_values : values s = values s0; la_borrows : borrows s = borrows s0; la_from : (at_ s0 ≤ at_ s)%nat;
  la_inside : (at_ s < length (tokens s0))%nat;
}.

Lemma later_refl s : shape s → later s s.
Proof. intros H. split; try done. apply H. Qed.

Lemma later_trans s0 s1 s2 : later s0 s1 → later s1 s2 → later s0 s2.
Proof. intros [] []. split; try congruence; try lia. Qed.

Lemma later_shape s0 s : shape s0 → later s0 s → shape s.
Proof.
  intros [H1 H2 H3 H4 H5 H6] []. split; rewrite ?la_tokens0, ?la_depth0, ?la_composites0, ?la_values0; done.
Qed.

Section Cursor.
Context (s0 : Parser) (Hshape : shape s0).

Lemma current s : later s0 s → ∃ t, tokens s !! at_ s = Some t.
Proof using Hshape. intros Hl. apply lookup_lt_is_Some. rewrite (la_tokens _ _ Hl). apply Hl. Qed.

Lemma tri_peek s (Q : Token → Parser → Prop) :
  later s0 s → (∀ t, tokens s !! at_ s = Some t → Q t s) → tri peek Q s.
Proof using Hshape. intros Hl HQ. destruct (current s Hl) as [t Ht]. unfold tri, peek. rewrite Ht. auto. Qed.

(** A token with text is not the last one. *)
Lemma not_last s t : later s0 s → tokens s !! at_ s = Some t → text t ≠ "" ∨ quoted t = true → (S (at_ s) < length (tokens s0))%nat.
Proof using Hshape.
  intros Hl Ht Hn. rewrite (la_tokens _ _ Hl) in Ht. destruct (sh_last _ Hshape) as (ts & e & Hts & He1 & He2).
  rewrite Hts in *. rewrite length_app. simpl. apply lookup_app_Some in Ht as [Ht|[Hge Ht]].
  - apply lookup_lt_Some in Ht. lia.
  - apply list_lookup_singleton_Some in Ht as [_ <-]. destruct Hn; congruence.
Qed.

Lemma later_advance s t : later s0 s → tokens s !! at_ s = Some t → text t ≠ "" ∨ quoted t = true → later s0 (set_at (at_ s + 1) s).
Proof using Hshape.
  intros Hl Ht Hn. pose proof (not_last s t Hl Ht Hn) as Hlt. destruct Hl. split; try done; simpl; lia.
Qed.

Lemma later_failure s why line : later s0 s → later s0 (set_failure why line s).
Proof using. by intros []. Qed.

Lemma tri_note s message (Q : unit → Parser → Prop) :
  later s0 s → message ≠ "" → (∀ s', later s0 s' → at_ s' = at_ s → error s' ≠ "" → Q tt s') → tri (note message) Q s.
Proof using Hshape.
  intros Hl Hm HQ. unfold note. apply tri_bind, tri_read. destruct (is_empty (error s)) eqn:He.
  - apply tri_bind. eapply tri_peek; [done|]. intros t Ht. apply tri_write, HQ; [by apply later_failure|done|done].
  - apply tri_ret, HQ; [done..|]. by destruct (error s).
Qed.

Lemma tri_fail {A} s message (Q : A → Parser → Prop) : later s0 s → message ≠ "" → tri (fail message) Q s.
Proof using Hshape. intros Hl Hm. unfold fail. apply tri_bind. eapply tri_note; [done..|]. intros s' _ _ He. by apply tri_refuse. Qed.

Lemma tri_fail_if s (b : bool) message (Q : unit → Parser → Prop) :
  later s0 s → (b = true → message ≠ "") → (b = false → Q tt s) → tri (fail_if b message) Q s.
Proof using Hshape. intros Hl Hm HQ. destruct b; [by apply tri_fail; auto|by apply tri_ret; auto]. Qed.

Lemma tri_take s word (Q : bool → Parser → Prop) :
  later s0 s → word ≠ "" →
  Q false s → (∀ s', later s0 s' → (at_ s < at_ s')%nat → error s' = error s → Q true s') → tri (take word) Q s.
Proof using Hshape.
  intros Hl Hw HQ1 HQ2. unfold take. apply tri_bind. eapply tri_peek; [done|]. intros t Ht.
  destruct (negb (text t =? word)%string || quoted t) eqn:Hb; [by apply tri_ret|].
  apply orb_false_iff in Hb as [Hb%negb_false_iff%String.eqb_eq _].
  apply tri_bind, tri_write, tri_ret. apply HQ2; [|simpl; lia|done]. eapply later_advance; [done..|]. left. congruence.
Qed.

Lemma tri_expect s word (Q : unit → Parser → Prop) :
  later s0 s → word ≠ "" → (∀ s', later s0 s' → (at_ s < at_ s')%nat → error s' = error s → Q tt s') → tri (expect word) Q s.
Proof using Hshape.
  intros Hl Hw HQ. unfold expect. apply tri_bind. eapply tri_take; [done..| |].
  - eapply tri_fail; [done|]. by destruct word.
  - intros s' Hl' Hat He. by apply tri_ret, HQ.
Qed.

Lemma tri_name s (Q : string → Parser → Prop) :
  later s0 s →
  (∀ n s', later s0 s' → n ≠ "" → (at_ s < at_ s')%nat → error s' = error s → Q n s') →
  (∀ s', later s0 s' → at_ s' = at_ s → error s' ≠ "" → Q "" s') → tri name Q s.
Proof using Hshape.
  intros Hl HQ1 HQ2. unfold name. apply tri_bind. eapply tri_peek; [done|]. intros t Ht.
  destruct (negb (identifier (text t)) || quoted t) eqn:Hb.
  - apply tri_bind. eapply tri_note; [done..|]. intros s' Hl' Hat He. by apply tri_ret, HQ2.
  - apply orb_false_iff in Hb as [Hb%negb_false_iff _]. assert (text t ≠ "") as Hne by by destruct (text t).
    apply tri_bind, tri_write, tri_ret, HQ1; [|done|simpl; lia|done]. eapply later_advance; eauto.
Qed.

(** A name whose text does not matter. *)
Lemma tri_any_name s (Q : string → Parser → Prop) :
  later s0 s → (∀ n s', later s0 s' → (at_ s ≤ at_ s')%nat → Q n s') → tri name Q s.
Proof using Hshape. intros Hl HQ. eapply tri_name; [done| |]; intros; apply HQ; auto; lia. Qed.

Lemma tri_range s (Q : sir.SourceRange → Parser → Prop) : later s0 s → (∀ r, Q r s) → tri range Q s.
Proof using Hshape. intros Hl HQ. unfold range. apply tri_bind, tri_read, tri_bind. eapply tri_peek; [done|]. intros t _. by apply tri_ret. Qed.

Lemma tri_composite_at s n c (Q : sir.Composite → Parser → Prop) :
  composites s !! n = Some c → Q c s → tri (composite_at n) Q s.
Proof using. intros Hc HQ. unfold tri, composite_at. by rewrite Hc. Qed.

Lemma tri_value_at s n v (Q : sir.Variable_ → Parser → Prop) : values s !! n = Some v → Q v s → tri (value_at n) Q s.
Proof using. intros Hv HQ. unfold tri, value_at. by rewrite Hv. Qed.

Lemma tri_element {A} (xs : list A) i s (Q : A → Parser → Prop) :
  (i < length xs)%nat → (∀ x, xs !! i = Some x → Q x s) → tri (element xs i) Q s.
Proof using. intros [x Hx]%lookup_lt_is_Some HQ. unfold element. rewrite Hx. by apply tri_ret, HQ. Qed.

(** An operation of the tracker whose refusals say why. *)
Lemma tri_owned s op (Q : unit → Parser → Prop) :
  later s0 s → (∀ o why o', op o = (false, why, o') → why ≠ "") → (∀ s', later s0 s' → at_ s' = at_ s → Q tt s') →
  tri (owned_or_fail op) Q s.
Proof using Hshape.
  intros Hl Hop HQ. unfold owned_or_fail, owning. apply tri_bind, tri_bind, tri_read.
  destruct (op (ownership s)) as [[b why] o'] eqn:E. apply tri_bind, tri_write, tri_ret.
  assert (later s0 (set_ownership o' s)) as Hl' by (destruct Hl; by split).
  destruct b; simpl; [by apply tri_ret, HQ|]. eapply tri_fail; [done|]. by eapply Hop.
Qed.

Lemma tri_append s st (Q : unit → Parser → Prop) :
  later s0 s → (∀ s', later s0 s' → at_ s' = at_ s → Q tt s') → tri (append st) Q s.
Proof using. intros Hl HQ. apply tri_write, HQ; [destruct Hl; by split|done]. Qed.
End Cursor.

Lemma tri_fail_here {A} s message (Q : A → Parser → Prop) : shape s → message ≠ "" → tri (fail message) Q s.
Proof. intros Hs Hm. eapply tri_fail; [done|by apply later_refl|done]. Qed.

(** A refusal of the tracker says why. *)
Lemma refusals_say_why n :
  Forall (λ op : Ownership.OwnershipTracker → Ownership.op_result, ∀ o why o', op o = (false, why, o') → why ≠ "")
    [Ownership.declareValue n; Ownership.initialize n; Ownership.read n; Ownership.moveValue n; Ownership.assign n;
     Ownership.borrowShared n; Ownership.borrowMutable n; Ownership.releaseShared n; Ownership.releaseMutable n].
Proof.
  repeat constructor; intros o why o'; unfold Ownership.declareValue, Ownership.initialize, Ownership.read, Ownership.moveValue,
    Ownership.assign, Ownership.borrowShared, Ownership.borrowMutable, Ownership.releaseShared, Ownership.releaseMutable,
    Ownership.with_value; repeat case_match; intros; simplify_eq; done.
Qed.

Ltac says_why := match goal with |- ∀ o why o', ?op o = _ → _ =>
  match op with context [_ ?n] => pose proof (refusals_say_why n) as Hwhy; rewrite !Forall_cons in Hwhy; destruct_and! Hwhy; assumption end end.

(** * Expressions *)

Section Expressions.
Context (s0 : Parser) (Hshape : shape s0).

(** An expression that [reference] makes. *)
Definition refers (e : sir.Expression) : Prop :=
  ∃ v, values s0 !! sir.e_name e = Some v ∧ sir.e_type e = sir.v_type v ∧ sir.e_composite e = sir.v_composite v.

Lemma tri_reference s n w (Q : sir.Expression → Parser → Prop) :
  later s0 s →
  (∀ e s', later s0 s' → at_ s' = at_ s → refers e → (borrows s0 !! n = None → sir.e_name e = n) → Q e s') →
  tri (reference n w) Q s.
Proof using Hshape.
  intros Hl HQ. unfold reference. apply tri_bind, tri_read, tri_bind.
  assert (∀ m s', later s0 s' → at_ s' = at_ s → (borrows s0 !! n = None → m = n) →
    tri (vs ← read_ values;
         match vs !! m with
         | None => fail ("unknown value: " +:+ m)
         | Some v => mret (node sir.E_Variable (sir.v_type v) m 0 [] (sir.v_composite v))
         end) Q s') as Hrest.
  { intros m s' Hl' Hat Hn. apply tri_bind, tri_read. rewrite (la_values _ _ Hl').
    destruct (values s0 !! m) as [v|] eqn:Hv; [|by eapply tri_fail]. apply tri_ret, HQ; [done..| |done]. by exists v. }
  assert (tri (owned_or_fail ((if w then Ownership.assign else Ownership.read) n);; mret n) (λ m s', tri (vs ← read_ values;
         match vs !! m with
         | None => fail ("unknown value: " +:+ m)
         | Some v => mret (node sir.E_Variable (sir.v_type v) m 0 [] (sir.v_composite v))
         end) Q s') s) as Htracked.
  { apply tri_bind. eapply tri_owned; [done..|destruct w; says_why|]. intros s' Hl' Hat. by apply tri_ret, Hrest. }
  rewrite (la_borrows _ _ Hl). destruct (borrows s0 !! n) as [b|]; [|exact Htracked]. destruct (view b); [exact Htracked|].
  apply tri_bind. eapply tri_fail_if; [done..|]. intros _. by apply tri_ret, Hrest.
Qed.

(** A parser of one expression. *)
Definition expression_ok (ex : Try sir.Expression) : Prop := ∀ s (Q : sir.Expression → Parser → Prop),
  later s0 s → (∀ e s', later s0 s' → (at_ s < at_ s')%nat → Q e s') → tri ex Q s.

Lemma tri_number s literal (Q : sir.Expression → Parser → Prop) : later s0 s → (∀ e, Q e s) → tri (number literal) Q s.
Proof using Hshape.
  intros Hl HQ. unfold number. destruct (has_fraction literal).
  - destruct (strtod literal) as [r|]; [|by eapply tri_fail].
    destruct (negb (sd_erange r) && is_empty (sd_rest r) && isfinite (sd_value r)); [|by eapply tri_fail]. by apply tri_ret.
  - destruct (from_chars literal); [|by eapply tri_fail]. by apply tri_ret.
Qed.

Section Nested.
Context (ex : Try sir.Expression) (Hex : expression_ok ex).

Lemma tri_construct_fields fields : ∀ i s (Q : list sir.Expression → Parser → Prop),
  later s0 s → (∀ es s', later s0 s' → (at_ s ≤ at_ s')%nat → Q es s') → tri (construct_fields ex fields i) Q s.
Proof using Hshape Hex.
  induction fields as [|f fields IH]; intros i s Q Hl HQ; simpl; [by apply tri_ret, HQ|].
  assert (∀ s', later s0 s' → (at_ s ≤ at_ s')%nat →
    tri (e ← ex; es ← construct_fields ex fields (S i); mret (e :: es)) Q s') as Hrest.
  { intros s1 Hl1 H1. apply tri_bind, Hex; [done|]. intros e s2 Hl2 H2. apply tri_bind, IH; [done|].
    intros es s3 Hl3 H3. apply tri_ret, HQ; [done|lia]. }
  apply tri_bind. case_decide; [by apply tri_ret, Hrest|]. eapply tri_expect; [done..|]. intros. apply Hrest; [done|lia].
Qed.

Lemma tri_with_element (es : list sir.Expression) i x s (Q : list sir.Expression → Parser → Prop) :
  (i < length es)%nat → Q (<[i := x]> es) s → tri (with_element es i x) Q s.
Proof using. intros Hi HQ. unfold with_element. by rewrite decide_True. Qed.

Lemma tri_construct s n c (Q : sir.Expression → Parser → Prop) :
  later s0 s → composite_ok c → (∀ e s', later s0 s' → (at_ s ≤ at_ s')%nat → Q e s') → tri (construct ex n c) Q s.
Proof using Hshape Hex.
  intros Hl Hc HQ. unfold construct, composite_ok in *.
  assert (∀ tag, length (integer tag :: map zero (sir.co_fields c)) = S (length (sir.co_fields c))) as Hlen
    by (intros tag; by simpl; rewrite length_map).
  assert (∀ variant, variant_tag c variant ≤ 1) as Htag1 by (intros v; unfold variant_tag; repeat case_match; lia).
  assert (sir.co_kind c = sir.C_Option ∨ sir.co_kind c = sir.C_Result → tri (expect ".";; variant ← name;
    let tag := variant_tag c variant in
    fail_if (tag <? 0) "unknown option/result variant";;
    let operands := integer tag :: map zero (sir.co_fields c) in
    if bool_decide (sir.co_kind c = sir.C_Option) && (tag =? 0) then mret (node sir.E_Construct sir.S_Composite "" 0 operands n)
    else
      expect "(";;
      payload ← ex;
      expect ")";;
      es ← with_element operands (if bool_decide (sir.co_kind c = sir.C_Option) then 1%nat else Z.to_nat (tag + 1)) payload;
      mret (node sir.E_Construct sir.S_Composite "" 0 es n)) Q s) as Htagged.
  { intros Hk. apply tri_bind. eapply tri_expect; [done..|]. intros s1 Hl1 H1 _. apply tri_bind. eapply tri_any_name; [done..|].
    intros v s2 Hl2 H2. specialize (Htag1 v). cbv zeta. apply tri_bind. eapply tri_fail_if; [done..|]. intros Htag%Z.ltb_ge.
    destruct (_ && _); [apply tri_ret, HQ; [done|lia]|].
    apply tri_bind. eapply tri_expect; [done..|]. intros s3 Hl3 H3 _. apply tri_bind, Hex; [done|]. intros e s4 Hl4 H4.
    apply tri_bind. eapply tri_expect; [done..|]. intros s5 Hl5 H5 _. apply tri_bind, tri_with_element; [|apply tri_ret, HQ; [done|lia]].
    rewrite Hlen. destruct Hk as [Hk|Hk]; rewrite Hk in *; destruct Hc as [_ ->];
      [rewrite bool_decide_eq_true_2 by done|rewrite bool_decide_eq_false_2 by done]; lia. }
  destruct (sir.co_kind c) eqn:Hk; try (by apply Htagged; auto); [| |by eapply tri_fail].
  - apply tri_bind. eapply tri_expect; [done..|]. intros s1 Hl1 H1 _. apply tri_bind, tri_construct_fields; [done|].
    intros es s2 Hl2 H2. apply tri_bind. eapply tri_expect; [done..|]. intros s3 Hl3 H3 _. apply tri_ret, HQ; [done|lia].
  - apply tri_bind. eapply tri_expect; [done..|]. intros s1 Hl1 H1 _.
    apply tri_bind. eapply tri_any_name; [done..|]. intros v s2 Hl2 H2.
    destruct (index_of v _ 0); [|by eapply tri_fail]. apply tri_ret, HQ; [done|lia].
Qed.

Lemma last_index_bound x names : ∀ i found k,
  (∀ j, found = Some j → (j < i)%nat) → last_index_of x names i found = Some k → (k < i + length names)%nat.
Proof using.
  clear. induction names as [|n names IH]; intros i found k Hf; simpl; [intros ->; specialize (Hf k eq_refl); lia|].
  intros Hk%IH; [lia|]. intros j. destruct (n =? x)%string; [intros [= <-]; lia|]. intros Hj. specialize (Hf j Hj). lia.
Qed.

(** The composite of a value that has one. *)
Lemma composite_known s e : later s0 s → refers e → sir.e_type e = sir.S_Composite →
  ∃ c, composites s !! sir.e_composite e = Some c ∧ composite_ok c.
Proof using Hshape.
  intros Hl (v & Hv & Ht & Hc) He. rewrite (la_composites _ _ Hl), Hc.
  destruct (sh_values _ Hshape _ _ Hv) as [c Hcs]; [congruence|]. exists c. split; [done|]. by eapply (sh_composites _ Hshape).
Qed.

Lemma tri_projection s e (Q : sir.Expression → Parser → Prop) :
  later s0 s → refers e → (∀ e' s', later s0 s' → (at_ s ≤ at_ s')%nat → Q e' s') → tri (projection e) Q s.
Proof using Hshape.
  intros Hl He HQ. unfold projection. apply tri_bind. eapply tri_any_name; [done..|]. intros field s1 Hl1 H1.
  apply tri_bind. eapply tri_fail_if; [done..|]. intros Ht%negb_false_iff%bool_decide_eq_true.
  destruct (composite_known s1 e Hl1 He Ht) as (c & Hcs & Hc). apply tri_bind. eapply tri_composite_at; [done|].
  destruct (_ && _ && _); [by apply tri_ret, HQ|].
  destruct (negb _ && negb _) eqn:Hk; [|by eapply tri_fail].
  destruct (last_index_of field (sir.co_names c) 0 None) as [i|] eqn:Hi; [|by eapply tri_fail].
  apply last_index_bound in Hi; [|done]. apply tri_bind, tri_element; [|intros t _; by apply tri_ret, HQ].
  unfold composite_ok in Hc. destruct (sir.co_kind c); try (by simpl in Hk); simpl in Hi; try lia.
  - destruct Hc as [Hn Hf]. rewrite Hn in Hi. simpl in Hi. lia.
  - destruct Hc as [Hn Hf]. rewrite Hn in Hi. simpl in Hi. lia.
Qed.

Lemma tri_indexing s e (Q : sir.Expression → Parser → Prop) :
  later s0 s → refers e → (∀ e' s', later s0 s' → (at_ s ≤ at_ s')%nat → Q e' s') → tri (indexing ex e) Q s.
Proof using Hshape Hex.
  intros Hl He HQ. unfold indexing. apply tri_bind, Hex; [done|]. intros index s1 Hl1 H1.
  apply tri_bind. eapply tri_expect; [done..|]. intros s2 Hl2 H2 _.
  case_bool_decide as Ht; [|apply tri_ret, HQ; [done|lia]].
  destruct (composite_known s2 e Hl2 He Ht) as (c & Hcs & Hc). apply tri_bind. eapply tri_composite_at; [done|].
  apply tri_bind. eapply tri_fail_if; [done..|]. intros Hk%negb_false_iff%bool_decide_eq_true.
  unfold composite_ok in Hc. rewrite Hk in Hc. apply tri_bind, tri_element; [lia|]. intros t _. apply tri_ret, HQ; [done|lia].
Qed.

Lemma tri_value s n (Q : sir.Expression → Parser → Prop) :
  later s0 s → (∀ e s', later s0 s' → (at_ s ≤ at_ s')%nat → Q e s') → tri (value_expression ex n) Q s.
Proof using Hshape Hex.
  intros Hl HQ. unfold value_expression. apply tri_bind. eapply tri_reference; [done..|]. intros e s1 Hl1 Hat1 He _.
  apply tri_bind. eapply tri_take; [done..| |].
  - apply tri_bind. eapply tri_take; [done..| |].
    + destruct He as (v & Hv & _). apply tri_bind. eapply tri_value_at; [by rewrite (la_values _ _ Hl1)|].
      apply tri_bind. eapply tri_fail_if; [done..|]. intros _. apply tri_ret, HQ; [done|lia].
    + intros s2 Hl2 H2 _. apply tri_indexing; [done..|]. intros; apply HQ; [done|lia].
  - intros s2 Hl2 H2 _. apply tri_projection; [done..|]. intros; apply HQ; [done|lia].
Qed.

Lemma tri_expressionImpl : expression_ok (expressionImpl ex).
Proof using Hshape Hex.
  intros s Q Hl HQ. unfold expressionImpl. apply tri_bind. eapply tri_peek; [done..|]. intros t Ht.
  destruct (quoted t) eqn:Hq.
  { apply tri_bind, tri_write, tri_ret, HQ; [|simpl; lia]. eapply later_advance; eauto. }
  apply tri_bind. eapply tri_take; [done..| |].
  2:{ intros s1 Hl1 H1 _. apply tri_ret, HQ; [done|lia]. }
  apply tri_bind. eapply tri_take; [done..| |].
  2:{ intros s1 Hl1 H1 _. apply tri_ret, HQ; [done|lia]. }
  destruct (starts_number (text t)) eqn:Hd.
  { assert (text t ≠ "") as Hne by by destruct (text t). apply tri_bind, tri_write.
    eapply tri_number; [eapply later_advance; eauto|]. intros e. apply HQ; [eapply later_advance; eauto|simpl; lia]. }
  apply tri_bind. eapply tri_name; [done..| |].
  - intros n s1 Hl1 Hne H1 _. destruct (is_empty n) eqn:Hn; [by destruct n|]. apply tri_bind, tri_read.
    rewrite (la_composites _ _ Hl1). destruct (composites s0 !! n) as [c|] eqn:Hc.
    + apply tri_construct; [done|by eapply (sh_composites _ Hshape)|]. intros; apply HQ; [done|lia].
    + apply tri_value; [done|]. intros; apply HQ; [done|lia].
  - intros s1 Hl1 _ He. by apply tri_refuse.
Qed.
End Nested.
End Expressions.

Lemma tri_leaving {A} (m : Try A) (Q : A → Parser → Prop) s :
  tri m (λ a s', Q a (set_depth (u32 (depth s' - 1)) s')) s → tri (leaving m) Q s.
Proof. unfold tri, leaving. by destruct (m s) as [[[a|] s']| |]. Qed.

Lemma u32_small z : 0 ≤ z ≤ 1000 → u32 z = z.
Proof. intros Hz. apply u32_id. unfold is_uint32. change UINT32_MAX with 4294967295. lia. Qed.

(** The nesting limit bounds the recursion. *)
Lemma expression_total fuel : ∀ s0, shape s0 → 129 ≤ Z.of_nat fuel + depth s0 → expression_ok s0 (expression fuel).
Proof.
  induction fuel as [|fuel IH]; intros s0 Hs0 Hf s Q Hl HQ; [pose proof (sh_depth _ Hs0); lia|].
  cbn [expression]. pose proof (sh_depth _ Hs0) as Hd. pose proof (la_depth _ _ Hl) as Hds.
  apply tri_bind, tri_write, tri_bind, tri_read. cbn [depth set_depth]. rewrite Hds, u32_small by lia.
  set (s1 := set_depth (depth s0 + 1) s).
  assert (∀ s', later s1 s' → later s0 (set_depth (u32 (depth s' - 1)) s')) as Hback.
  { intros s' Hl'. destruct Hl, Hl'. subst s1. simpl in *. split; simpl; try congruence; [|lia].
    rewrite la_depth1, Z.add_simpl_r. by apply u32_small; lia. }
  destruct (Z.ltb_spec 128 (depth s0 + 1)) as [Hgt|Hle].
  { apply tri_bind, tri_leaving, tri_ret. eapply tri_fail; [exact Hs0| |done].
    destruct Hl. split; simpl; try done. rewrite Z.add_simpl_r. by apply u32_small; lia. }
  assert (shape s1) as Hs1.
  { pose proof (later_shape _ _ Hs0 Hl) as []. split; try done. simpl. lia. }
  assert (expression_ok s1 (expression fuel)) as Hex by (apply IH; [done..|simpl; lia]).
  apply tri_bind. eapply tri_range; [exact Hs1|by apply later_refl|]. intros r.
  apply tri_bind, tri_leaving. eapply tri_expressionImpl; [exact Hs1|exact Hex|by apply later_refl|].
  intros e s' Hl' Hat. apply tri_ret, HQ; [by apply Hback|simpl in *; lia].
Qed.

(** * Types *)

Lemma validate_says_why d why : Descriptors.validate d = (false, why) → why ≠ "".
Proof.
  assert (∀ fs names w, Descriptors.validate_fields names fs = (false, w) → w ≠ "") as Hf.
  { induction fs as [|f fs IH]; intros names w; simpl; [done|]. repeat case_match; [by intros [= <-]..|apply IH]. }
  assert (∀ vs names w, Descriptors.validate_variants names vs = (false, w) → w ≠ "") as Hvs.
  { induction vs as [|x vs IH]; intros names w; simpl; [done|]. case_match; [by intros [= <-]|apply IH]. }
  assert (∀ n b r z w, Descriptors.checkedArrayBytes n b = (r, z, w) → r = false → w ≠ "") as Hc.
  { intros n b r z w. unfold Descriptors.checkedArrayBytes. repeat case_match; by intros [= <- <- <-]. }
  unfold Descriptors.validate, Descriptors.fail. intros H.
  repeat case_match; simplify_eq; eauto; by intros ->.
Qed.

Section Statements.
Context (s0 : Parser) (Hs0 : shape s0).

Lemma tri_parse s (Q : sir.Expression → Parser → Prop) :
  later s0 s → (∀ e s', later s0 s' → (at_ s < at_ s')%nat → Q e s') → tri parse_expression Q s.
Proof using Hs0. apply expression_total; [done|]. pose proof (sh_depth _ Hs0). lia. Qed.

Lemma tri_members fuel record : ∀ fields names s (Q : list sir.ScalarType * list string → Parser → Prop),
  later s0 s → (length names ≤ 256)%nat → (257 ≤ fuel + length names)%nat → (record = true → length names = length fields) →
  (∀ fields' names' s', later s0 s' → (at_ s ≤ at_ s')%nat → (record = true → length names' = length fields') → Q (fields', names') s') →
  tri (members fuel record fields names) Q s.
Proof using Hs0.
  induction fuel as [|fuel IH]; intros fields names s Q Hl Hn Hf Hr HQ; [lia|]. cbn [members].
  apply tri_bind. eapply tri_take; [done..| |].
  2:{ intros s1 Hl1 H1 _. apply tri_ret, HQ; [done|lia|done]. }
  apply tri_bind. eapply tri_fail_if; [done..|]. intros Hlt%Z.leb_gt.
  apply tri_bind.
  assert (∀ t s1, later s0 s1 → (at_ s ≤ at_ s1)%nat → tri (field ← name;
    if is_empty field then refuse
    else expect ";";; members fuel record (if record then (fields ++ [t])%list else fields) (names ++ [field])%list) Q s1) as Hrest.
  { intros t s1 Hl1 H1. apply tri_bind. eapply tri_name; [done..| |].
    - intros field s2 Hl2 Hne H2 _. destruct (is_empty field) eqn:He; [by destruct field|].
      apply tri_bind. eapply tri_expect; [done..|]. intros s3 Hl3 H3 _.
      apply IH; [done|rewrite length_app; simpl; lia|rewrite length_app; simpl; lia| |].
      + intros ->. rewrite !length_app. simpl. by rewrite Hr.
      + intros; apply HQ; [done|lia|done].
    - intros s2 Hl2 _ He. by apply tri_refuse. }
  destruct record.
  - apply tri_bind. eapply tri_any_name; [done..|]. intros n s1 Hl1 H1.
    apply tri_bind. eapply tri_fail_if; [done..|]. intros _. by apply tri_ret, Hrest.
  - apply tri_ret, (Hrest sir.S_Void); [done|lia].
Qed.

Lemma tri_payload_type s message (Q : sir.ScalarType → Parser → Prop) :
  later s0 s → message ≠ "" → (∀ t s', later s0 s' → (at_ s ≤ at_ s')%nat → Q t s') → tri (payload_type message) Q s.
Proof using Hs0.
  intros Hl Hm HQ. unfold payload_type. apply tri_bind. eapply tri_any_name; [done..|]. intros n s1 Hl1 H1.
  apply tri_bind. eapply tri_fail_if; [done..|]. intros _. by apply tri_ret, HQ.
Qed.

Lemma tri_composite_body k n s (Q : list sir.ScalarType * list string * TypeDescriptor → Parser → Prop) :
  later s0 s →
  (∀ fields names d s', later s0 s' → (at_ s ≤ at_ s')%nat →
     composite_ok {| sir.co_kind := k; sir.co_name := n; sir.co_fields := fields; sir.co_names := names |} → Q (fields, names, d) s') →
  tri (composite_body k n) Q s.
Proof using Hs0.
  intros Hl HQ. unfold composite_body.
  assert (∀ r s', later s0 s' → (at_ s ≤ at_ s')%nat → composite_ok {| sir.co_kind := k; sir.co_name := n; sir.co_fields := r.1.1; sir.co_names := r.1.2 |} →
            tri (expect ">";; mret r) Q s') as Hclose.
  { intros [[fields names] d] s1 Hl1 H1 Hc. apply tri_bind. eapply tri_expect; [done..|]. intros s2 Hl2 H2 _. apply tri_ret, HQ; [done|lia|done]. }
  destruct k.
  - apply tri_bind. eapply tri_expect; [done..|]. intros s1 Hl1 H1 _. apply tri_bind, tri_members; [done|simpl; lia..|done|].
    intros fields names s2 Hl2 H2 Hr. apply tri_ret, HQ; [done|lia|]. by apply Hr.
  - apply tri_bind. eapply tri_expect; [done..|]. intros s1 Hl1 H1 _. apply tri_bind, tri_members; [done|simpl; lia..|done|].
    intros fields names s2 Hl2 H2 Hr. apply tri_ret, HQ; [done|lia|done].
  - apply tri_bind. eapply tri_expect; [done..|]. intros s1 Hl1 H1 _. apply tri_bind, tri_payload_type; [done..|].
    intros t s2 Hl2 H2. apply tri_bind, tri_ret, Hclose; [done|lia|done].
  - apply tri_bind. eapply tri_expect; [done..|]. intros s1 Hl1 H1 _. apply tri_bind, tri_payload_type; [done..|].
    intros t s2 Hl2 H2. apply tri_bind, tri_bind. eapply tri_expect; [done..|]. intros s3 Hl3 H3 _.
    apply tri_bind, tri_payload_type; [done..|]. intros u s4 Hl4 H4. apply tri_ret, Hclose; [done|lia|done].
  - apply tri_bind. eapply tri_expect; [done..|]. intros s1 Hl1 H1 _. apply tri_bind, tri_payload_type; [done..|].
    intros t s2 Hl2 H2. apply tri_bind, tri_ret, Hclose; [done|lia|done].
Qed.

(** ** Every statement returns *)

(** A statement of the source has been read. *)
Definition advanced (s : Parser) : Prop := shape s ∧ tokens s = tokens s0 ∧ (at_ s0 < at_ s)%nat.

Lemma advanced_later s : later s0 s → (at_ s0 < at_ s)%nat → advanced s.
Proof using Hs0. intros Hl Hat. split; [by eapply later_shape|]. split; [apply Hl|done]. Qed.

Definition known_type (s : Parser) (v : sir.Variable_) : Prop :=
  sir.v_type v = sir.S_Composite → is_Some (composites s !! sir.v_composite v).

Lemma tri_new_global s v (Q : unit → Parser → Prop) :
  later s0 s → known_type s v →
  (∀ s', shape s' → tokens s' = tokens s → at_ s' = at_ s → Q tt s') → tri (new_global v) Q s.
Proof using Hs0.
  intros Hl Hk HQ. unfold new_global. apply tri_bind. eapply tri_owned; [exact Hs0|done|says_why|]. intros s1 Hl1 H1.
  apply tri_bind. eapply tri_owned; [exact Hs0|done|says_why|]. intros s2 Hl2 H2. apply tri_bind, tri_write, tri_write.
  pose proof (later_shape _ _ Hs0 Hl2) as [E1 E2 E3 E4 E5 E6].
  apply HQ; [|simpl; by rewrite (la_tokens _ _ Hl2), (la_tokens _ _ Hl)|simpl; lia].
  split; try done. simpl. apply map_Forall_insert_2; [|done]. unfold known_type in Hk.
  by rewrite (la_composites _ _ Hl2), <-(la_composites _ _ Hl).
Qed.

Lemma tri_addValue s v init : later s0 s → (at_ s0 < at_ s)%nat → known_type s v → tri (addValue v init) (λ _, advanced) s.
Proof using Hs0.
  intros Hl Hat Hk. unfold addValue, declared. apply tri_bind, tri_read, tri_bind. eapply tri_fail_if; [exact Hs0|done..|]. intros _.
  apply tri_bind. eapply tri_new_global; [done..|]. intros s1 Hs1 Htk H1. apply tri_write. unfold advanced. simpl.
  rewrite Htk, (la_tokens _ _ Hl). split; [by destruct Hs1|]. split; [done|lia].
Qed.

Lemma tri_declaration k s : later s0 s → (at_ s0 < at_ s)%nat → tri (declaration k) (λ _, advanced) s.
Proof using Hs0.
  intros Hl Hat. unfold declaration. apply tri_bind. eapply tri_any_name; [exact Hs0|done|]. intros n s1 Hl1 H1.
  apply tri_bind, tri_read, tri_bind. eapply tri_fail_if; [exact Hs0|done..|]. intros _.
  apply tri_bind. eapply tri_composite_body; [done|]. intros fields names d s2 Hl2 H2 Hc.
  destruct (Descriptors.validate d) as [valid why] eqn:Hd. apply tri_bind. eapply tri_fail_if; [exact Hs0|done| |].
  { intros Hf. apply negb_true_iff in Hf as ->. by eapply validate_says_why. }
  intros _. apply tri_bind. eapply tri_expect; [exact Hs0|done..|]. intros s3 Hl3 H3 _.
  apply tri_bind, tri_write, tri_write. split; [|split; [simpl; apply Hl3|simpl; lia]].
  pose proof (later_shape _ _ Hs0 Hl3) as [E1 E2 E3 E4 E5 E6]. split; try done; simpl.
  - by apply map_Forall_insert_2.
  - intros m v Hm Ht'. specialize (E6 m v Hm Ht'). destruct (decide (sir.v_composite v = n)) as [->|]; [by rewrite lookup_insert_eq|].
    by rewrite lookup_insert_ne.
Qed.

Lemma tri_printed fuel : ∀ s (Q : list sir.Expression → Parser → Prop),
  later s0 s → (length (tokens s0) ≤ fuel + at_ s)%nat →
  (∀ es s', later s0 s' → (at_ s ≤ at_ s')%nat → Q es s') → tri (printed fuel) Q s.
Proof using Hs0.
  induction fuel as [|fuel IH]; intros s Q Hl Hf HQ; [pose proof (la_inside _ _ Hl); lia|]. cbn [printed].
  apply tri_bind, tri_parse; [done|]. intros e s1 Hl1 H1. apply tri_bind. eapply tri_take; [exact Hs0|done..| |].
  - apply tri_ret, HQ; [done|lia].
  - intros s2 Hl2 H2 _. apply tri_bind, IH; [done|lia|]. intros es s3 Hl3 H3. apply tri_ret, HQ; [done|lia].
Qed.

Lemma tri_print_statement loc s : later s0 s → (at_ s0 < at_ s)%nat → tri (print_statement loc) (λ _, advanced) s.
Proof using Hs0.
  intros Hl Hat. unfold print_statement. apply tri_bind, tri_read.
  rewrite (la_tokens _ _ Hl). apply tri_bind, tri_printed; [done|lia|]. intros es s1 Hl1 H1.
  apply tri_bind. eapply tri_expect; [exact Hs0|done..|]. intros s2 Hl2 H2 _.
  eapply tri_append; [done|]. intros s3 Hl3 H3. apply advanced_later; [done|lia].
Qed.

Lemma tri_owned_statement loc s : later s0 s → (at_ s0 < at_ s)%nat → tri (owned_statement loc) (λ _, advanced) s.
Proof using Hs0.
  intros Hl Hat. unfold owned_statement. apply tri_bind. eapply tri_any_name; [exact Hs0|done|]. intros tn s1 Hl1 H1.
  assert (∀ t composite s2, later s0 s2 → (at_ s1 ≤ at_ s2)%nat → (t = sir.S_Composite → is_Some (composites s0 !! composite)) →
    tri (n ← name;
         if is_empty n then refuse
         else
           expect "=";;
           init ← parse_expression;
           expect ";";;
           fail_if (bool_decide (sir.e_type init = sir.S_Composite) && negb (bool_decide (sir.e_kind init = sir.E_Construct)))
             "owned composite requires constructor or move";;
           addValue (scalar_variable n t composite loc) init) (λ _, advanced) s2) as Hrest.
  { intros t composite s2 Hl2 H2 Hk. apply tri_bind. eapply tri_name; [exact Hs0|done| |].
    2:{ intros s3 Hl3 _ He. by apply tri_refuse. }
    intros n s3 Hl3 Hne H3 _. destruct (is_empty n) eqn:He; [by destruct n|].
    apply tri_bind. eapply tri_expect; [exact Hs0|done..|]. intros s4 Hl4 H4 _.
    apply tri_bind, tri_parse; [done|]. intros e s5 Hl5 H5.
    apply tri_bind. eapply tri_expect; [exact Hs0|done..|]. intros s6 Hl6 H6 _.
    apply tri_bind. eapply tri_fail_if; [exact Hs0|done..|]. intros _.
    apply tri_addValue; [done|lia|]. unfold known_type. simpl. by rewrite (la_composites _ _ Hl6). }
  apply tri_bind. case_bool_decide as Hvoid.
  2:{ apply tri_ret, Hrest; [done|lia|]. unfold scalar. repeat case_match; done. }
  apply tri_bind, tri_read. rewrite (la_composites _ _ Hl1). destruct (composites s0 !! tn) as [c|] eqn:Hc; [|by eapply tri_fail; [exact Hs0|..]].
  apply tri_bind. eapply tri_fail_if; [exact Hs0|done..|]. intros _. apply tri_ret, Hrest; [done|lia|]. by exists c.
Qed.

(** A change of the borrows. *)
Lemma advanced_borrows s bs : later s0 s → (at_ s0 < at_ s)%nat → advanced (set_borrows bs s).
Proof using Hs0. intros Hl Hat. destruct (advanced_later s Hl Hat) as (Hs & Htk & Ha). split; [by destruct Hs|done]. Qed.

Lemma tri_borrow_statement s : later s0 s → (at_ s0 < at_ s)%nat → tri borrow_statement (λ _, advanced) s.
Proof using Hs0.
  intros Hl Hat. unfold borrow_statement.
  assert (∀ (m : bool) s1, later s0 s1 → (at_ s0 < at_ s1)%nat → tri (
    from ← name; expect "as";; handle ← name; expect ";";; d ← declared handle; fail_if d "duplicate borrow";;
    owned_or_fail ((if m then Ownership.borrowMutable else Ownership.borrowShared) from);;
    write_ (λ s, set_borrows (<[handle := {| owner := from; mut := m; view := false |}]> (borrows s)) s)) (λ _, advanced) s1) as Hrest.
  { intros m s1 Hl1 H1. apply tri_bind. eapply tri_any_name; [exact Hs0|done|]. intros from s2 Hl2 H2.
    apply tri_bind. eapply tri_expect; [exact Hs0|done..|]. intros s3 Hl3 H3 _.
    apply tri_bind. eapply tri_any_name; [exact Hs0|done|]. intros handle s4 Hl4 H4.
    apply tri_bind. eapply tri_expect; [exact Hs0|done..|]. intros s5 Hl5 H5 _.
    unfold declared. apply tri_bind, tri_read, tri_bind. eapply tri_fail_if; [exact Hs0|done..|]. intros _.
    apply tri_bind. eapply tri_owned; [exact Hs0|done|destruct m; says_why|]. intros s6 Hl6 H6.
    apply tri_write, advanced_borrows; [done|lia]. }
  apply tri_bind. eapply tri_take; [exact Hs0|done..| |].
  - apply tri_bind. eapply tri_expect; [exact Hs0|done..|]. intros s1 Hl1 H1 _. apply (Hrest false); [done|lia].
  - intros s1 Hl1 H1 _. apply tri_bind, tri_ret, (Hrest true); [done|lia].
Qed.

Lemma tri_release_statement s : later s0 s → (at_ s0 < at_ s)%nat → tri release_statement (λ _, advanced) s.
Proof using Hs0.
  intros Hl Hat. unfold release_statement. apply tri_bind. eapply tri_any_name; [exact Hs0|done|]. intros handle s1 Hl1 H1.
  apply tri_bind. eapply tri_expect; [exact Hs0|done..|]. intros s2 Hl2 H2 _. apply tri_bind, tri_read.
  destruct (borrows s2 !! handle) as [b|]; [|by eapply tri_fail; [exact Hs0|..]].
  apply tri_bind. eapply tri_owned; [exact Hs0|done|destruct (mut b); says_why|]. intros s3 Hl3 H3.
  apply tri_bind. destruct (view b).
  - eapply tri_owned; [exact Hs0|done|says_why|]. intros s4 Hl4 H4. apply tri_write, advanced_borrows; [done|lia].
  - apply tri_ret, tri_write, advanced_borrows; [done|lia].
Qed.

Lemma tri_view_statement loc s : later s0 s → (at_ s0 < at_ s)%nat → tri (view_statement loc) (λ _, advanced) s.
Proof using Hs0.
  intros Hl Hat. unfold view_statement. apply tri_bind. eapply tri_any_name; [exact Hs0|done|]. intros tn s1 Hl1 H1.
  apply tri_bind, tri_read. rewrite (la_composites _ _ Hl1). destruct (composites s0 !! tn) as [c|] eqn:Hc; [|by eapply tri_fail; [exact Hs0|..]].
  apply tri_bind. eapply tri_fail_if; [exact Hs0|done..|]. intros _.
  apply tri_bind. eapply tri_any_name; [exact Hs0|done|]. intros n s2 Hl2 H2.
  apply tri_bind. eapply tri_expect; [exact Hs0|done..|]. intros s3 Hl3 H3 _.
  apply tri_bind. eapply tri_any_name; [exact Hs0|done|]. intros from s4 Hl4 H4.
  apply tri_bind. eapply tri_expect; [exact Hs0|done..|]. intros s5 Hl5 H5 _.
  apply tri_bind, tri_parse; [done|]. intros offset s6 Hl6 H6.
  apply tri_bind. eapply tri_expect; [exact Hs0|done..|]. intros s7 Hl7 H7 _.
  apply tri_bind, tri_parse; [done|]. intros len s8 Hl8 H8.
  apply tri_bind. eapply tri_expect; [exact Hs0|done..|]. intros s9 Hl9 H9 _.
  apply tri_bind. eapply tri_expect; [exact Hs0|done..|]. intros s10 Hl10 H10 _.
  apply tri_bind. eapply tri_owned; [exact Hs0|done|says_why|]. intros s11 Hl11 H11.
  apply tri_bind. eapply tri_mono; [apply tri_addValue; [done|lia|]|].
  - unfold known_type. simpl. rewrite (la_composites _ _ Hl11), Hc. by eexists.
  - intros _ s12 (Hs & Htk & Ha). apply tri_write. split; [by destruct Hs|done].
Qed.

Lemma tri_move_statement loc s : later s0 s → (at_ s0 < at_ s)%nat → tri (move_statement loc) (λ _, advanced) s.
Proof using Hs0.
  intros Hl Hat. unfold move_statement. apply tri_bind. eapply tri_any_name; [exact Hs0|done|]. intros from s1 Hl1 H1.
  apply tri_bind. eapply tri_reference; [exact Hs0|done|]. intros init s2 Hl2 H2 (v & Hval & _) Hname.
  apply tri_bind. eapply tri_expect; [exact Hs0|done..|]. intros s3 Hl3 H3 _.
  apply tri_bind, tri_read, tri_bind. eapply tri_fail_if; [exact Hs0|done..|]. rewrite (la_borrows _ _ Hl3).
  intros Hnb%bool_decide_eq_false%eq_None_not_Some. rewrite (Hname Hnb) in Hval.
  apply tri_bind. eapply tri_value_at; [by rewrite (la_values _ _ Hl3)|].
  apply tri_bind. eapply tri_any_name; [exact Hs0|done|]. intros n s4 Hl4 H4.
  apply tri_bind. eapply tri_expect; [exact Hs0|done..|]. intros s5 Hl5 H5 _.
  apply tri_bind. eapply tri_owned; [exact Hs0|done|says_why|]. intros s6 Hl6 H6. apply tri_addValue; [done|lia|].
  unfold known_type. simpl. rewrite (la_composites _ _ Hl6). exact (sh_values _ Hs0 _ _ Hval).
Qed.

Lemma tri_set_target s target (Q : sir.StatementKind * nat * sir.Expression → Parser → Prop) :
  later s0 s → (sir.e_type target = sir.S_Composite → is_Some (composites s0 !! sir.e_composite target)) →
  (∀ r s', later s0 s' → (at_ s ≤ at_ s')%nat → Q r s') → tri (set_target target) Q s.
Proof using Hs0.
  intros Hl Hk HQ. unfold set_target. apply tri_bind. eapply tri_take; [exact Hs0|done..| |].
  - apply tri_bind. eapply tri_take; [exact Hs0|done..| |].
    + apply tri_bind. eapply tri_fail_if; [exact Hs0|done..|]. intros _. by apply tri_ret, HQ.
    + intros s1 Hl1 H1 _. apply tri_bind, tri_parse; [done|]. intros index s2 Hl2 H2.
      apply tri_bind. eapply tri_expect; [exact Hs0|done..|]. intros s3 Hl3 H3 _. apply tri_ret, HQ; [done|lia].
  - intros s1 Hl1 H1 _. apply tri_bind. eapply tri_any_name; [exact Hs0|done|]. intros field s2 Hl2 H2.
    apply tri_bind. eapply tri_fail_if; [exact Hs0|done..|]. intros Ht%negb_false_iff%bool_decide_eq_true.
    destruct (Hk Ht) as [c Hc]. apply tri_bind. eapply tri_composite_at; [by rewrite (la_composites _ _ Hl2)|].
    destruct (last_index_of _ _ _ _) as [i|]; [|by eapply tri_fail; [exact Hs0|..]].
    apply tri_bind. eapply tri_fail_if; [exact Hs0|done..|]. intros _. apply tri_ret, HQ; [done|lia].
Qed.

Lemma tri_set_statement loc s : later s0 s → (at_ s0 < at_ s)%nat → tri (set_statement loc) (λ _, advanced) s.
Proof using Hs0.
  intros Hl Hat. unfold set_statement. apply tri_bind. eapply tri_any_name; [exact Hs0|done|]. intros n s1 Hl1 H1.
  apply tri_bind. eapply tri_reference; [exact Hs0|done|]. intros target s2 Hl2 H2 (v & Hval & Hty & Hco) _.
  apply tri_bind, tri_set_target; [done| |].
  { destruct target. simpl in *. intros Ht. rewrite Hco. apply (sh_values _ Hs0 _ _ Hval). congruence. }
  intros [[k i] target'] s3 Hl3 H3. apply tri_bind. eapply tri_expect; [exact Hs0|done..|]. intros s4 Hl4 H4 _.
  apply tri_bind, tri_parse; [done|]. intros value s5 Hl5 H5.
  apply tri_bind. eapply tri_expect; [exact Hs0|done..|]. intros s6 Hl6 H6 _.
  eapply tri_append; [done|]. intros s7 Hl7 H7. apply advanced_later; [done|lia].
Qed.
End Statements.

Lemma tri_array_elements s0 (Hs0 : shape s0) v count : ∀ i s (Q : unit → Parser → Prop),
  later s0 s → (∀ s', later s0 s' → (at_ s ≤ at_ s')%nat → Q tt s') → tri (array_elements v count i) Q s.
Proof.
  induction count as [|count IH]; intros i s Q Hl HQ; cbn [array_elements]; [by apply tri_ret, HQ|].
  assert (∀ s1, later s0 s1 → (at_ s ≤ at_ s1)%nat → tri (init ← parse_expression;
    append (statement_of sir.St_Assign [node sir.E_Index (sir.v_type v) (sir.v_name v) 0 [integer i] ""; init] 0 no_source);;
    array_elements v count (i + 1)) Q s1) as Hrest.
  { intros s1 Hl1 H1. apply tri_bind, (tri_parse s0 Hs0); [done|]. intros init s2 Hl2 H2. apply tri_bind. eapply tri_append; [done|].
    intros s3 Hl3 H3. apply IH; [done|]. intros; apply HQ; [done|lia]. }
  apply tri_bind. destruct (i =? 0); [by apply tri_ret, Hrest|].
  eapply tri_expect; [exact Hs0|done..|]. intros s1 Hl1 H1 _. apply Hrest; [done|lia].
Qed.

Lemma tri_array_statement s0 loc s :
  shape s0 → later s0 s → (at_ s0 < at_ s)%nat → tri (array_statement loc) (λ _, advanced s0) s.
Proof.
  intros Hs0 Hl Hat. unfold array_statement.
  apply tri_bind. eapply tri_any_name; [exact Hs0|done|]. intros tn s1 Hl1 H1.
  apply tri_bind. eapply tri_any_name; [exact Hs0|done|]. intros n s2 Hl2 H2.
  apply tri_bind. eapply tri_expect; [exact Hs0|done..|]. intros s3 Hl3 H3 _.
  apply tri_bind, (tri_parse s0 Hs0); [done|]. intros extent s4 Hl4 H4.
  apply tri_bind. eapply tri_expect; [exact Hs0|done..|]. intros s5 Hl5 H5 _.
  apply tri_bind. eapply tri_fail_if; [exact Hs0|done..|]. intros _.
  apply tri_bind. eapply tri_fail_if; [exact Hs0|done..|]. intros _.
  apply tri_bind. eapply tri_expect; [exact Hs0|done..|]. intros s6 Hl6 H6 _.
  apply tri_bind. eapply tri_expect; [exact Hs0|done..|]. intros t Hlt Htt _.
  unfold declared. apply tri_bind, tri_read, tri_bind. eapply tri_fail_if; [exact Hs0|done..|]. intros _.
  apply tri_bind. eapply (tri_new_global s0 Hs0); [done| |].
  { unfold known_type. simpl. unfold scalar. repeat case_match; done. }
  intros s7 Hs7 Htk7 H7. pose proof (la_tokens _ _ Hlt) as Htkt. apply tri_bind. eapply (tri_array_elements s7 Hs7); [by apply later_refl|]. intros s8 Hl8 H8.
  apply tri_bind. eapply tri_expect; [exact Hs7|done..|]. intros s9 Hl9 H9 _.
  eapply tri_expect; [exact Hs7|done..|]. intros s10 Hl10 H10 _. split; [by eapply later_shape|].
  split; [rewrite (la_tokens _ _ Hl10); congruence|lia].
Qed.

(** * The whole source *)

Lemma tri_dispatch s0 ks (Q : unit → Parser → Prop) :
  shape s0 → (∀ word m, (word, m) ∈ ks → word ≠ "" ∧ ∀ s, later s0 s → (at_ s0 < at_ s)%nat → tri m Q s) →
  ∀ s, later s0 s → tri (dispatch ks) Q s.
Proof.
  intros Hs0. induction ks as [|[word m] ks IH]; intros Hks s Hl; simpl; [by eapply tri_fail; [exact Hs0|..]|].
  destruct (Hks word m) as [Hw Hm]; [by left|]. pose proof (la_from _ _ Hl). apply tri_bind. eapply tri_take; [exact Hs0|done..| |].
  - apply IH; [|done]. intros w m' Hin. apply Hks. by right.
  - intros s1 Hl1 H1 _. apply Hm; [done|lia].
Qed.

Lemma tri_statement s : shape s → tri statement (λ _, advanced s) s.
Proof.
  intros Hs. unfold statement. apply tri_bind.
  eapply tri_range; [exact Hs|by apply later_refl|]. intros loc. eapply (tri_dispatch s); [done| |by apply later_refl].
  intros word m Hin. unfold keywords in Hin. rewrite !elem_of_cons in Hin.
  destruct_or! Hin; try (by apply elem_of_nil in Hin); simplify_eq; (split; [done|]); intros;
    eauto using tri_declaration, tri_owned_statement, tri_array_statement, tri_view_statement, tri_print_statement,
      tri_set_statement, tri_move_statement, tri_borrow_statement, tri_release_statement.
Qed.

Lemma tri_statements fuel : ∀ s, shape s → (length (tokens s) ≤ fuel + at_ s)%nat →
  tri (statements fuel) (λ _, shape) s.
Proof.
  induction fuel as [|fuel IH]; intros s Hs Hf; [pose proof (sh_inside _ Hs); lia|]. cbn [statements].
  apply tri_bind. eapply tri_peek; [exact Hs|by apply later_refl|]. intros t _.
  destruct (is_empty (text t)); [by apply tri_ret|]. apply tri_bind. eapply tri_mono; [by apply tri_statement|].
  intros [] s1 (Hi & Htk & Ha). apply IH; [done|]. rewrite Htk. lia.
Qed.

Lemma tri_dotted s0 fuel : ∀ s (Q : unit → Parser → Prop), shape s0 → later s0 s → (length (tokens s0) ≤ fuel + at_ s)%nat →
  (∀ s', later s0 s' → Q tt s') → tri (dotted fuel) Q s.
Proof.
  induction fuel as [|fuel IH]; intros s Q Hs0 Hl Hf HQ; [pose proof (la_inside _ _ Hl); lia|]. cbn [dotted].
  apply tri_bind. eapply tri_take; [exact Hs0|done..|by apply tri_ret, HQ|]. intros s1 Hl1 H1 _.
  apply tri_bind. eapply tri_name; [exact Hs0|done| |].
  - intros n s2 Hl2 Hne H2 _. destruct (is_empty n) eqn:He; [by destruct n|]. apply IH; [done..|lia|done].
  - intros s2 Hl2 _ He. by apply tri_refuse.
Qed.

(** A run that says no has noted why. *)
Lemma tri_run s : shape s → tri run (λ yes s', yes = false → error s' ≠ "") s.
Proof.
  intros Hs. unfold run.
  apply tri_bind. eapply tri_expect; [exact Hs|by apply later_refl|done|]. intros s1 Hl1 _ _.
  do 7 (apply tri_bind; eapply tri_expect; [exact Hs|done..|]; intros ? ? _ _).
  apply tri_bind. eapply tri_name; [exact Hs|done| |].
  2:{ intros s2 Hl2 _ He. by apply tri_refuse. }
  intros n s2 Hl2 Hne _ _. destruct (is_empty n) eqn:He; [by destruct n|]. apply tri_bind, tri_read.
  rewrite (la_tokens _ _ Hl2). apply tri_bind. eapply tri_dotted; [exact Hs|done|lia|]. intros s3 Hl3.
  apply tri_bind. eapply tri_expect; [exact Hs|done..|]. intros s4 Hl4 _ _.
  apply tri_bind. eapply tri_mono; [apply tri_statements; [by eapply later_shape|rewrite (la_tokens _ _ Hl4); lia]|]. intros [] s5 Hs5.
  apply tri_bind, tri_read. case_decide as Hb; [|by apply tri_fail_here].
  apply tri_bind, tri_read, tri_ret. by destruct (error s5).
Qed.

(** ** The scanner *)

Lemma span_shorter q s : (String.length (span q s).2 ≤ String.length s)%nat.
Proof. induction s as [|c s IH]; simpl; [done|]. destruct (q c); [|done]. destruct (span q s). simpl in *. lia. Qed.

Lemma literal_shorter s a rest : string_literal s = inr (a, rest) → (String.length rest ≤ String.length s)%nat.
Proof.
  assert (∀ n s a rest, (String.length s ≤ n)%nat → string_literal s = inr (a, rest) → (String.length rest ≤ String.length s)%nat) as H;
    [|by apply (H (String.length s))].
  clear. induction n as [|n IH]; intros s a rest Hn; destruct s as [|c s]; simpl in *; try done; [lia|].
  destruct (c =? chr_quote)%char; [intros [= _ <-]; lia|].
  destruct ((c =? "\")%char && negb (is_empty s)).
  - destruct s as [|e s]; [done|]. simpl in *. destruct (negb _); [done|].
    destruct (string_literal s) as [?|[b r]] eqn:Hr; [done|]. intros [= _ <-]. apply IH in Hr; lia.
  - destruct (_ || _); [done|]. destruct (c =? chr_nul)%char; [done|].
    destruct (string_literal s) as [?|[b r]] eqn:Hr; [done|]. intros [= _ <-]. apply IH in Hr; lia.
Qed.

Lemma literal_says_why s why : string_literal s = inl why → why ≠ "".
Proof.
  assert (∀ n s why, (String.length s ≤ n)%nat → string_literal s = inl why → why ≠ "") as H; [|by apply (H (String.length s))].
  clear. induction n as [|n IH]; intros s why Hn; destruct s as [|c s]; simpl in *; try (by intros [= <-]); [lia|].
  destruct (c =? chr_quote)%char; [done|]. destruct ((c =? "\")%char && negb (is_empty s)).
  - destruct s as [|e s]; [by intros [= <-]|]. simpl in *. destruct (negb _); [by intros [= <-]|].
    destruct (string_literal s) as [w|[b r]] eqn:Hr; [|done]. intros [= <-]. eapply IH; [|exact Hr]. lia.
  - destruct (_ || _); [by intros [= <-]|]. destruct (c =? chr_nul)%char; [by intros [= <-]|].
    destruct (string_literal s) as [w|[b r]] eqn:Hr; [|done]. intros [= <-]. eapply IH; [|exact Hr]. lia.
Qed.

Lemma drop_while_shorter q s : (String.length (drop_while q s) ≤ String.length s)%nat.
Proof. induction s as [|c s IH]; simpl; [done|]. destruct (q c); simpl; lia. Qed.

Definition scanned (tokens : list Token) : Prop :=
  (∃ ts e, tokens = (ts ++ [e])%list ∧ text e = "" ∧ quoted e = false) ∧ Z.of_nat (length tokens) ≤ 100001.

Lemma scan_total limits fuel : ∀ source line ts, (String.length source < fuel)%nat → Z.of_nat (length ts) ≤ 100000 →
  match scan limits fuel source line ts with
  | Done (inl (why, _)) => why ≠ ""
  | Done (inr tokens) => scanned tokens
  | _ => False
  end.
Proof.
  induction fuel as [|fuel IH]; intros source line ts Hf Hts; [lia|]. cbn [scan].
  destruct source as [|c r].
  { split; [by eexists _, _|]. rewrite length_app. simpl. lia. }
  simpl in Hf. destruct (c =? chr_newline)%char; [apply IH; [lia|done]|].
  destruct (_ || _); [apply IH; [lia|done]|].
  destruct (_ || _). { apply IH; [|done]. pose proof (drop_while_shorter (λ c, negb (c =? chr_newline)%char) r). lia. }
  assert (∀ t rest, (String.length rest ≤ String.length r)%nat →
    match (if (max_token_bytes limits <? str_size (text t)) || (100000 <=? Z.of_nat (length ts)) then
             Done (inl ("token/work limit exceeded", line))
           else scan limits fuel rest line (ts ++ [t])%list) with
    | Done (inl (why, _)) => why ≠ ""
    | Done (inr tokens) => scanned tokens
    | _ => False
    end) as Hpush.
  { intros t rest Hr. destruct (_ <? _); [done|]. destruct (Z.leb_spec 100000 (Z.of_nat (length ts))); [done|]. simpl.
    apply IH; [lia|]. rewrite length_app. simpl. lia. }
  unfold next_token. destruct (c =? chr_quote)%char.
  { destruct (string_literal r) as [why|[a rest]] eqn:Hlit; [by eapply literal_says_why|]. apply Hpush. by eapply literal_shorter. }
  destruct (letter c).
  { pose proof (span_shorter (λ c, letter c || digit c) r). destruct (span _ r) as [a rest]. by apply Hpush. }
  destruct (_ || _); [|by apply Hpush].
  pose proof (span_shorter number_char r). destruct (span _ r) as [a rest]. by apply Hpush.
Qed.

Lemma new_parser_shape file tokens : scanned tokens → shape (new_parser file tokens).
Proof.
  intros [Hlast Hcount]. split; try done; simpl. destruct Hlast as (ts & e & -> & _). rewrite length_app. simpl. lia.
Qed.

(** C35.  Lowering a value source always ends with an answer.  Whatever the bytes
    of the file and the limits, the scanner and the parser return: no token is
    read past the end, no table is asked for a missing key, no vector is indexed
    out of range, and the bounds on nesting, members and turns of the loops are
    enough.  The answer is a program, or a refusal with a diagnostic that is not
    empty. *)
Theorem value_source_lowering_ends limits file source :
  ∃ answer, lowerValueSource limits file source = Done answer ∧
    match answer with inl (why, _) => why ≠ "" | inr _ => True end.
Proof.
  unfold lowerValueSource. destruct source as [source|]; [|by eexists].
  destruct (_ <? _); [by eexists|].
  pose proof (scan_total limits (S (String.length source)) source 1 [] ltac:(lia) ltac:(simpl; lia)) as Hscan.
  destruct (scan _ _ _ _ _) as [[[why line]|tokens]| |]; [by eexists| |done..].
  pose proof (tri_run _ (new_parser_shape file tokens Hscan)) as Hrun. unfold tri in Hrun.
  destruct (run _) as [[[[]|] s]| |]; try done; eexists; (split; [done|]); by try apply Hrun.
Qed.

