(* ===== verification/EnterpriseValuesLedger.v ===== *)
(** The ledger of the values of an executable enterprise source: what an expression
    reads, the operations on values, moves and borrows, and that the tracker of
    the parser does on them what the ledger says. *)
From S2P Require Import Prelude CxxInt CxxString CxxFloat CxxPath TypeSystem ParserGuard AiTypes SemanticIR SemanticIRBuilder.
From S2P Require Import EnterpriseLanguage EnterpriseFacts EnterpriseValues EnterpriseValuesFacts.
Open Scope string_scope.
Open Scope Z_scope.

(** * What expressions and statements read and write *)

Definition names_a_value (k : sir.ExpressionKind) : bool :=
  match k with sir.E_Variable | sir.E_Index | sir.E_Slice | sir.E_SliceIndex => true | _ => false end.

(** The values an expression reads. *)
Fixpoint reads (e : sir.Expression) : list string :=
  match e with
  | sir.MkExpression k _ n _ _ _ es _ _ => ((if names_a_value k then [n] else []) ++ flat_map reads es)%list
  end.

Lemma reads_range r e : reads (with_range r e) = reads e.
Proof. by destruct e. Qed.

(** What a statement reads, and what it writes. *)
Definition writes_first (st : sir.Statement) : bool :=
  match sir.s_kind st with sir.St_Assign | sir.St_Update => true | _ => false end.

Definition reads_of (st : sir.Statement) : list string :=
  if writes_first st then
    match sir.s_expressions st with
    | [] => []
    | target :: es => (flat_map reads (sir.e_operands target) ++ flat_map reads es)%list
    end
  else flat_map reads (sir.s_expressions st).

Definition targets_of (st : sir.Statement) : list string :=
  if writes_first st then match sir.s_expressions st with [] => [] | target :: _ => [sir.e_name target] end else [].

Definition body_of (q : sir.ProgramIR) : list sir.Statement := sir.s_body (sir.body q).
Definition global_names (q : sir.ProgramIR) : list string := map sir.v_name (sir.globals q).

Definition assignment (v : sir.Variable_) (init : sir.Expression) : sir.Statement :=
  statement_of sir.St_Assign [node sir.E_Variable (sir.v_type v) (sir.v_name v) 0 [] (sir.v_composite v); init] 0 no_source.

Lemma reads_of_assignment v init : reads_of (assignment v init) = reads init.
Proof. apply app_nil_r. Qed.

(** * The ledger of the values

    The specification is the ledger of EnterpriseFacts: the values, those that
    have been moved out, and the borrows with the values they are on.  It has no
    counters and no states. *)
Abbreviation Loan := EnterpriseLanguage.Borrow.

Definition forget (b : EnterpriseValues.Borrow) : Loan := {| EnterpriseLanguage.owner := owner b; mutable_borrow := mut b |}.

Definition created (n t : string) (l : Ledger) : Ledger := {|
  l_types := l_types l; l_values := <[n := t]> (l_values l); l_moved := l_moved l; l_views := l_views l; l_count := l_count l |}.
Definition lent (handle : string) (b : Loan) (l : Ledger) : Ledger := {|
  l_types := l_types l; l_values := l_values l; l_moved := l_moved l; l_views := <[handle := b]> (l_views l); l_count := l_count l |}.
Definition returned (handle : string) (l : Ledger) : Ledger := {|
  l_types := l_types l; l_values := l_values l; l_moved := l_moved l; l_views := delete handle (l_views l); l_count := l_count l |}.
Definition rewritten (n : string) (l : Ledger) : Ledger := {|
  l_types := l_types l; l_values := l_values l; l_moved := l_moved l ∖ {[n]}; l_views := l_views l; l_count := l_count l |}.

(** What may happen to the values between two statements. *)
Inductive operation (l : Ledger) : Ledger → Prop :=
| op_create n t : l_values l !! n = None → n ≠ "" → operation l (created n t l)
| op_move n : usable l n → unborrowed l n → operation l (moved_out n l)
| op_borrow (m : bool) from handle :
    usable l from → (if m then unborrowed l from else unlent l from) → l_views l !! handle = None →
    operation l (lent handle {| EnterpriseLanguage.owner := from; mutable_borrow := m |} l)
| op_release handle : is_Some (l_views l !! handle) → operation l (returned handle l)
| op_write n : is_Some (l_values l !! n) → unborrowed l n → operation l (rewritten n l).

(** The ledgers that operations lead to. *)
Definition well_kept (l : Ledger) : Prop := l_count l = 0 ∧ ledger_ok (Z.of_nat (size (l_views l))) l.

Lemma no_ledger_kept : well_kept no_ledger.
Proof. split; [done|]. exact no_ledger_ok. Qed.

Lemma values_grow (m : gmap string string) n t k : is_Some (m !! k) → is_Some (<[n := t]> m !! k).
Proof. intros Hk. destruct (decide (k = n)) as [->|]; [rewrite lookup_insert_eq; by eexists|]. by rewrite lookup_insert_ne. Qed.

Lemma operation_kept l l' : well_kept l → operation l l' → well_kept l'.
Proof.
  intros [Hz Hok] Ho. pose proof Hok as [H1 H2 H3 H4 H5 H6 H7]. split; [by destruct Ho|].
  destruct Ho as [n t Hn Hne|n [Hv Hm] Hu|m from handle [Hv Hm] Hu Hh|handle [b Hb]|n Hn Hu];
    split; cbn; rewrite ?Hz; try done; try lia; unfold unborrowed, unlent in *; cbn in *; try done.
  - by rewrite lookup_insert_ne.
  - intros h b Hb. by apply values_grow, (H4 h).
  - intros k Hk. by apply values_grow, H7.
  - intros k [->%elem_of_singleton|Hk]%elem_of_union; auto.
  - intros k [->%elem_of_singleton|Hk]%elem_of_union; auto.
  - intros k Hk. rewrite views_insert by done. cbn. rewrite decide_False; [auto|]. by intros ->.
  - intros k. rewrite views_forall_insert by done. rewrite views_insert by done. cbn. case_decide as Hd; [subst k|].
    + destruct m; [right|left; split; [done|by apply Hu]]. rewrite Hu, map_size_insert_None by done. by rewrite map_size_empty.
    + destruct (H3 k); [left; by split|by right].
  - intros h b. rewrite lookup_insert_Some. intros [[<- <-]|[_ Hb]]; [done|by eapply H4].
  - intros k Hk. rewrite views_delete, H2 by done. apply delete_empty.
  - intros k. rewrite views_delete. destruct (H3 k) as [Hf|Hs]; [left; by apply map_Forall_delete|].
    destruct (views_on k (l_views l) !! handle) as [c|] eqn:Ec; [|right; by rewrite delete_id].
    left. assert (delete handle (views_on k (l_views l)) = ∅) as ->; [|apply map_Forall_empty].
    apply map_size_empty_inv. rewrite map_size_delete_Some by by exists c. lia.
  - by apply map_Forall_delete.
  - intros k Hk. apply H2. set_solver.
  - intros k Hk. apply H7. set_solver.
Qed.

(** ** The tracker *)

(** A value that is initialised and has not been moved. *)
Definition live (o : Ownership.OwnershipTracker) (n : string) : Prop :=
  ∃ x, o !! n = Some x ∧ Ownership.state x ≠ Ownership.Uninitialized ∧ Ownership.state x ≠ Ownership.Moved.

Lemma read_live n o b why o' :
  Ownership.read n o = (b, why, o') → o' = o ∧ (if (b : bool) then live o n else why ≠ "").
Proof.
  unfold Ownership.read, live. destruct (o !! n) as [x|] eqn:Hx; [|by intros [= <- <- <-]].
  destruct (Ownership.state x) eqn:Hst; intros [= <- <- <-]; (split; [done|]); try done; exists x; by rewrite Hst.
Qed.

Ltac refusal n := pose proof (refusals_say_why n) as Hwhy; rewrite !Forall_cons in Hwhy; destruct_and! Hwhy; eauto.

Section Outcomes.
Context (l : Ledger) (o : Ownership.OwnershipTracker) (Htr : tracker_is l o) (Hkept : well_kept l).

Lemma undeclared_none n : l_values l !! n = None → o !! n = None.
Proof using Htr. intros Hn. by rewrite Htr, Hn. Qed.

Lemma live_usable n : live o n → usable l n.
Proof using Htr.
  intros (x & Hx & _ & Hm). rewrite Htr in Hx. destruct (l_values l !! n) as [t|] eqn:Hn; [|done]. simpl in Hx. injection Hx as <-.
  split; [by exists t|]. intros Hin. by destruct (snapshot_cases l n) as [(_ & E)|[(? & _)|[(? & _)|(? & _)]]]; [rewrite E in Hm| | |].
Qed.

Lemma usable_live n : usable l n → live o n.
Proof using Htr.
  intros [[t Hn] Hm]. exists (snapshot_of l n). split; [by rewrite Htr, Hn|].
  destruct (snapshot_cases l n) as [(? & _)|[(_ & _ & ->)|[(_ & _ & _ & ->)|(_ & _ & ->)]]]; done.
Qed.

Lemma move_outcome n b why o' :
  Ownership.moveValue n o = (b, why, o') →
  if (b : bool) then usable l n ∧ unborrowed l n ∧ tracker_is (moved_out n l) o' else why ≠ "".
Proof using Htr.
  intros H. destruct b; [|refusal n].
  destruct (l_values l !! n) as [t|] eqn:Hn.
  - destruct (move_exact l o n t Htr Hn) as (r & d & o2 & Hrun & Hr & Ht). rewrite Hrun in H. injection H as -> -> ->.
    destruct (proj1 Hr eq_refl). split_and!; [by split; [exists t|]|done|by apply Ht].
  - unfold Ownership.moveValue, Ownership.with_value in H. by rewrite undeclared_none in H.
Qed.

Lemma write_outcome n b why o' :
  Ownership.assign n o = (b, why, o') →
  if (b : bool) then is_Some (l_values l !! n) ∧ unborrowed l n ∧ tracker_is (rewritten n l) o' else why ≠ "".
Proof using Htr Hkept.
  intros H. destruct b; [|refusal n].
  destruct (l_values l !! n) as [t|] eqn:Hn.
  - destruct (access_exact l o n t false (ok_moved _ _ (proj2 Hkept)) Htr Hn) as (r & d & o2 & Hrun & Hr & Ht). rewrite Hrun in H.
    injection H as -> -> ->. split_and!; [by exists t|by apply Hr|exact (Ht eq_refl)].
  - unfold Ownership.assign, Ownership.with_value in H. by rewrite undeclared_none in H.
Qed.

Lemma borrow_outcome (m : bool) n handle b why o' :
  Z.of_nat (size (l_views l)) < SIZE_MAX → l_views l !! handle = None →
  (if m then Ownership.borrowMutable else Ownership.borrowShared) n o = (b, why, o') →
  if (b : bool) then usable l n ∧ (if m then unborrowed l n else unlent l n) ∧
    tracker_is (lent handle {| EnterpriseLanguage.owner := n; mutable_borrow := m |} l) o' else why ≠ "".
Proof using Htr Hkept.
  intros Hsz Hh H. destruct b; [|destruct m; refusal n].
  destruct (l_values l !! n) as [t|] eqn:Hn.
  - destruct (borrow_exact _ l o n t handle m (proj2 Hkept) Hsz Htr Hn Hh) as (r & d & o2 & Hrun & Hr & Ht). rewrite Hrun in H.
    injection H as -> -> ->. destruct (proj1 Hr eq_refl). split_and!; [by split; [exists t|]|done|exact (Ht eq_refl)].
  - destruct m; unfold Ownership.borrowMutable, Ownership.borrowShared, Ownership.with_value in H; by rewrite undeclared_none in H.
Qed.

Lemma release_outcome handle x b why o' :
  Z.of_nat (size (l_views l)) < SIZE_MAX → l_views l !! handle = Some x →
  (if mutable_borrow x then Ownership.releaseMutable else Ownership.releaseShared) (EnterpriseLanguage.owner x) o = (b, why, o') →
  if (b : bool) then tracker_is (returned handle l) o' else why ≠ "".
Proof using Htr Hkept.
  intros Hsz Hh H. destruct (release_exact _ l o handle x (proj2 Hkept) ltac:(lia) Htr Hh) as (o2 & Hrun & Ht).
  rewrite Hrun in H. injection H as <- <- <-. exact Ht.
Qed.

(** Two calls: the value is declared, then initialised. *)
Lemma declare_outcome n t b1 why1 o1 :
  Ownership.declareValue n o = (b1, why1, o1) →
  if (b1 : bool) then l_values l !! n = None ∧ n ≠ "" ∧
    ∃ o2, Ownership.initialize n o1 = (true, "", o2) ∧ tracker_is (created n t l) o2 else why1 ≠ "".
Proof using Htr Hkept.
  intros H. destruct b1; [|refusal n].
  assert (n ≠ "") as Hne by (intros ->; unfold Ownership.declareValue in H; by destruct (o !! "")).
  destruct (l_values l !! n) as [u|] eqn:Hn.
  { unfold Ownership.declareValue in H. rewrite (tracker_declared _ _ _ _ Htr Hn) in H. by destruct (is_empty n). }
  destruct (fresh_value _ _ _ (proj2 Hkept) Hn) as [Hm Hu].
  destruct (new_value_exact l o n t Htr Hn Hm Hu Hne) as (o2 & Hrun & Ht). unfold new_value in Hrun. rewrite H in Hrun.
  split_and!; [done..|]. exists o2. split; [exact Hrun|exact Ht].
Qed.
End Outcomes.
