(* ===== verification/EnterpriseValuesRules.v ===== *)
(** The ownership rules of executable enterprise sources.

    The specification reads the statements of a source from its tokens alone: what
    each declares, moves, borrows, releases, reads and writes ([items_of]).  The rules
    ([step]) say when such a statement is allowed on a ledger of values, moves and
    borrows, what the ledger is afterwards, and which values the lowered statements
    read and write.  An accepted source obeys them, statement by statement. *)
From S2P Require Import Prelude CxxInt CxxString CxxFloat CxxPath TypeSystem ParserGuard AiTypes SemanticIR SemanticIRBuilder.
From S2P Require Import EnterpriseLanguage EnterpriseFacts EnterpriseValues EnterpriseValuesFacts EnterpriseValuesLedger.
Import TypeSystem.Descriptors(TypeKind(..), Field, TypeDescriptor).
Open Scope string_scope.
Open Scope Z_scope.
#[local] Existing Instances sir.CompositeKind_eq_dec sir.ScalarType_eq_dec sir.ExpressionKind_eq_dec.

(** * The statements of a source *)

Definition is_word (w : string) (t : Token) : bool := String.eqb (text t) w && negb (quoted t).

(** The names that tokens mention: identifiers that are not the name of a field
    or variant after a dot. *)
Fixpoint mentions (after_dot : bool) (ts : list Token) : list string :=
  match ts with
  | [] => []
  | t :: ts =>
      ((if negb (quoted t) && identifier (text t) && negb after_dot && negb (bool_decide (text t ∈ ["true"; "false"])) then [text t] else [])
       ++ mentions (is_word "." t) ts)%list
  end.

Inductive Item :=
| Declares (type : string)
| Owns (type name : string) (names : list string)
| Fills (name : string) (names : list string)
| Views (type handle from : string) (names : list string)
| Prints (names : list string)
| Sets (name : string) (names : list string)
| Moves (from to : string)
| Borrows (mutable : bool) (from handle : string)
| Releases (handle : string).

(** The statement that tokens up to a semicolon are. *)
Definition item_of (ts : list Token) : option Item :=
  match ts with
  | [] => None
  | k :: ts =>
      if quoted k then None
      else if bool_decide (text k ∈ ["record"; "enum"; "option"; "result"; "slice"]) then
        match ts with t :: _ => Some (Declares (text t)) | _ => None end
      else if String.eqb (text k) "owned" then
        match ts with t :: n :: rest => Some (Owns (text t) (text n) (mentions false rest)) | _ => None end
      else if String.eqb (text k) "array" then
        match ts with _ :: n :: rest => Some (Fills (text n) (mentions false rest)) | _ => None end
      else if String.eqb (text k) "view" then
        match ts with t :: n :: _ :: from :: rest => Some (Views (text t) (text n) (text from) (mentions false rest)) | _ => None end
      else if String.eqb (text k) "print" then Some (Prints (mentions false ts))
      else if String.eqb (text k) "set" then
        match ts with n :: rest => Some (Sets (text n) (mentions false rest)) | _ => None end
      else if String.eqb (text k) "move" then
        match ts with from :: _ :: to :: _ => Some (Moves (text from) (text to)) | _ => None end
      else if String.eqb (text k) "borrow" then
        match ts with m :: from :: _ :: handle :: _ => Some (Borrows (String.eqb (text m) "mutable") (text from) (text handle)) | _ => None end
      else if String.eqb (text k) "release" then
        match ts with handle :: _ => Some (Releases (text handle)) | _ => None end
      else None
  end.

(** The tokens up to the first semicolon outside braces, and those after it. *)
Fixpoint up_to_semicolon (depth : nat) (ts : list Token) : list Token * list Token :=
  match ts with
  | [] => ([], [])
  | t :: ts =>
      if is_word ";" t && (depth =? 0)%nat then ([], ts)
      else
        let depth := if is_word "{" t then S depth else if is_word "}" t then pred depth else depth in
        let '(a, b) := up_to_semicolon depth ts in (t :: a, b)
  end.

(** The statements up to a token without text. *)
Fixpoint statements_in (fuel : nat) (ts : list Token) : list (option Item) :=
  match fuel, ts with
  | S fuel, t :: _ =>
      if is_empty (text t) then []
      else let '(a, b) := up_to_semicolon 0 ts in item_of a :: statements_in fuel b
  | _, _ => []
  end.

(** The statements after the language and the namespace. *)
Definition items_of (ts : list Token) : list (option Item) :=
  let '(_, ts) := up_to_semicolon 0 ts in
  let '(_, ts) := up_to_semicolon 0 ts in
  statements_in (length ts) ts.

(** The values a statement creates. *)
Definition creates (i : Item) : list string :=
  match i with
  | Owns _ n _ | Fills n _ | Views _ n _ _ | Moves _ n => [n]
  | _ => []
  end.

(** * The rules *)

(** Of the names an expression mentions those that are not types. *)
Definition values_in (types : gset string) (names : list string) : list string := filter (λ n, n ∉ types) names.

(** A value can be read while it is there and not lent to a writer; a borrow can
    be read until it is released, and stands for the value it is on. *)
Definition readable (l : Ledger) (n : string) : Prop :=
  match l_values l !! n with
  | Some _ => n ∉ l_moved l ∧ unlent l n
  | None => is_Some (l_views l !! n)
  end.

Definition stands_for (l : Ledger) (n : string) : string :=
  match l_values l !! n with
  | Some _ => n
  | None => match l_views l !! n with Some b => EnterpriseLanguage.owner b | None => n end
  end.

(** What lowered statements read and write. *)
Definition footprint : Type := list string * list string.

Section Step.
Context (types : gset string) (l : Ledger).

Definition all_readable (l : Ledger) (names : list string) : Prop := Forall (readable l) (values_in types names).
Definition read_values (l : Ledger) (names : list string) : list string := map (stands_for l) (values_in types names).

(** A statement that is allowed: the types and the ledger after it, and what its
    lowered statements read and write. *)
Inductive step : Item → gset string → Ledger → list footprint → Prop :=
| step_declares t :
    t ∉ types → step (Declares t) ({[t]} ∪ types) l []
| step_owns t n names type :
    all_readable l names → unused l n → n ≠ "" →
    step (Owns t n names) types (created n type l) [(read_values l names, [n])]
| step_fills n names fs :
    unused l n → n ≠ "" → all_readable (created n "" l) names →
    concat (map fst fs) = read_values (created n "" l) names → Forall (λ f, f.2 = [n]) fs →
    step (Fills n names) types (created n "" l) fs
| step_views t n from names :
    all_readable l names → usable l from → unlent l from → unused l n → n ≠ "" →
    step (Views t n from names) types (created n t (lent n {| EnterpriseLanguage.owner := from; mutable_borrow := false |} l))
      [(from :: read_values l names, [n])]
| step_prints names :
    all_readable l names → step (Prints names) types l [(read_values l names, [])]
| step_sets_value n names :
    is_Some (l_values l !! n) → unborrowed l n → all_readable (rewritten n l) names →
    step (Sets n names) types (rewritten n l) [(read_values (rewritten n l) names, [n])]
| step_sets_borrowed n names b :
    l_values l !! n = None → l_views l !! n = Some b → mutable_borrow b = true → all_readable l names →
    step (Sets n names) types l [(read_values l names, [EnterpriseLanguage.owner b])]
| step_moves from to type :
    l_values l !! from = Some type → from ∉ l_moved l → unborrowed l from → l_views l !! from = None → unused l to → to ≠ "" →
    step (Moves from to) types (created to type (moved_out from l)) [([from], [to])]
| step_borrows (m : bool) from handle :
    usable l from → (if m then unborrowed l from else unlent l from) → unused l handle →
    step (Borrows m from handle) types (lent handle {| EnterpriseLanguage.owner := from; mutable_borrow := m |} l) []
| step_releases handle :
    is_Some (l_views l !! handle) → l_values l !! handle = None →
    step (Releases handle) types (returned handle l) []
| step_releases_view handle :
    is_Some (l_views l !! handle) → usable (returned handle l) handle → unborrowed (returned handle l) handle →
    step (Releases handle) types (moved_out handle (returned handle l)) [].
End Step.

(** Statements in their order. *)
Inductive obeys : gset string → Ledger → list (option Item) → list footprint → Ledger → Prop :=
| obeys_nothing types l : obeys types l [] [] l
| obeys_more types l i types1 l1 fs items gs l2 :
    step types l i types1 l1 fs → obeys types1 l1 items gs l2 → obeys types l (Some i :: items) (fs ++ gs)%list l2.

(** * Runs that end without a diagnostic *)

(** [suc m Q s]: when [m] returns a value and no diagnostic is noted, [Q] holds. *)
Definition suc {A} (m : Try A) (Q : A → Parser → Prop) (s : Parser) : Prop :=
  ∀ a s', m s = Done (Some a, s') → error s' = "" → Q a s'.

(** A diagnostic that was noted stays. *)
Definition sticky {A} (m : Try A) : Prop := ∀ s a s', m s = Done (Some a, s') → error s' = "" → error s = "".

Create HintDb sticky.

Lemma sticky_ret {A} (a : A) : sticky (mret a).
Proof. by intros s x s' [= <- <-]. Qed.
Lemma sticky_bind {A B} (m : Try A) (k : A → Try B) : sticky m → (∀ a, sticky (k a)) → sticky (m ≫= k).
Proof.
  intros Hm Hk s b s2. unfold mbind, Try_bind. destruct (m s) as [[[a|] s1]| |] eqn:E; try done. intros E2 He.
  eapply Hm; [exact E|]. by eapply Hk.
Qed.
Lemma sticky_read {A} (f : Parser → A) : sticky (read_ f).
Proof. by intros s x s' [= <- <-]. Qed.
Lemma sticky_write f : (∀ s, error (f s) = error s) → sticky (write_ f).
Proof. intros Hf s x s' [= <- <-]. by rewrite Hf. Qed.
Lemma sticky_refuse {A} : sticky (A := A) refuse.
Proof. by intros s x s'. Qed.
Lemma sticky_no_fuel {A} : sticky (A := A) no_fuel.
Proof. by intros s x s'. Qed.
Lemma sticky_undefined {A} r : sticky (A := A) (λ _, Undefined r).
Proof. by intros s x s'. Qed.
Lemma sticky_peek : sticky peek.
Proof. intros s t s'. unfold peek. case_match; [|done]. by intros [= <- <-]. Qed.
Lemma sticky_note why : sticky (note why).
Proof.
  intros s [] s'. unfold note, mbind, Try_bind, read_. destruct (is_empty (error s)) eqn:E; [|by intros [= <-]].
  by destruct (error s).
Qed.
Lemma sticky_composite n : sticky (composite_at n).
Proof. intros s t s'. unfold composite_at. case_match; [|done]. by intros [= <- <-]. Qed.
Lemma sticky_value n : sticky (value_at n).
Proof. intros s t s'. unfold value_at. case_match; [|done]. by intros [= <- <-]. Qed.
Lemma sticky_leaving {A} (m : Try A) : sticky m → sticky (leaving m).
Proof. intros Hm s a s'. unfold leaving. destruct (m s) as [[r s1]| |] eqn:E; try done. intros [= -> <-]. intros He. exact (Hm _ _ _ E He). Qed.
#[export] Hint Resolve sticky_ret sticky_read sticky_refuse sticky_no_fuel sticky_undefined sticky_peek sticky_note sticky_composite
  sticky_value sticky_leaving : sticky.

Ltac sticky :=
  repeat first [done | solve [eauto 4 with sticky] | apply sticky_bind; [|intros] | apply sticky_write; by intros
               | progress cbv zeta | case_match].

Lemma sticky_fail {A} why : sticky (A := A) (fail why).
Proof. unfold fail. sticky. Qed.
Lemma sticky_fail_if b why : sticky (fail_if b why).
Proof. unfold fail_if. destruct b; [apply sticky_fail|apply sticky_ret]. Qed.
#[export] Hint Resolve sticky_fail sticky_fail_if : sticky.
Lemma sticky_advance : sticky advance.
Proof. unfold advance. sticky. Qed.
#[export] Hint Resolve sticky_advance : sticky.
Lemma sticky_take w : sticky (take w).
Proof. unfold take. sticky. Qed.
#[export] Hint Resolve sticky_take : sticky.
Lemma sticky_expect w : sticky (expect w).
Proof. unfold expect. sticky. Qed.
Lemma sticky_name : sticky name.
Proof. unfold name. sticky. Qed.
Lemma sticky_range : sticky range.
Proof. unfold range. sticky. Qed.
Lemma sticky_owned op : sticky (owned_or_fail op).
Proof. unfold owned_or_fail, owning. sticky. Qed.
Lemma sticky_append st : sticky (append st).
Proof. unfold append. sticky. Qed.
#[export] Hint Resolve sticky_expect sticky_name sticky_range sticky_owned sticky_append : sticky.
Lemma sticky_reference n w : sticky (reference n w).
Proof. unfold reference. sticky. Qed.
Lemma sticky_number literal : sticky (number literal).
Proof. unfold number. sticky. Qed.
Lemma sticky_element {A} (xs : list A) i : sticky (element xs i).
Proof. unfold element. sticky. Qed.
Lemma sticky_with_element {A} (xs : list A) i x : sticky (with_element xs i x).
Proof. unfold with_element. sticky. Qed.
#[export] Hint Resolve sticky_reference sticky_number sticky_element sticky_with_element : sticky.

Section Sticky.
Context (ex : Try sir.Expression) (Hex : sticky ex).
Lemma sticky_construct_fields fields : ∀ i, sticky (construct_fields ex fields i).
Proof using Hex. induction fields; intros i; simpl; sticky. Qed.
Hint Resolve sticky_construct_fields : sticky.
Lemma sticky_construct n c : sticky (construct ex n c).
Proof using Hex. unfold construct. sticky. Qed.
Lemma sticky_projection e : sticky (projection e).
Proof using. unfold projection. sticky. Qed.
Lemma sticky_indexing e : sticky (indexing ex e).
Proof using Hex. unfold indexing. sticky. Qed.
Hint Resolve sticky_construct sticky_projection sticky_indexing : sticky.
Lemma sticky_value_expression n : sticky (value_expression ex n).
Proof using Hex. unfold value_expression. sticky. Qed.
Hint Resolve sticky_value_expression : sticky.
Lemma sticky_expressionImpl : sticky (expressionImpl ex).
Proof using Hex. unfold expressionImpl. sticky. Qed.
End Sticky.
#[export] Hint Resolve sticky_expressionImpl sticky_projection sticky_construct sticky_indexing sticky_value_expression sticky_construct_fields : sticky.

Lemma sticky_expression fuel : sticky (expression fuel).
Proof. induction fuel; cbn [expression]; sticky. Qed.
Lemma sticky_parse : sticky parse_expression.
Proof. apply sticky_expression. Qed.
#[export] Hint Resolve sticky_expression sticky_parse : sticky.

Lemma sticky_members fuel record : ∀ fields names, sticky (members fuel record fields names).
Proof. induction fuel; intros; cbn [members]; sticky. Qed.
Lemma sticky_payload_type why : sticky (payload_type why).
Proof. unfold payload_type. sticky. Qed.
#[export] Hint Resolve sticky_members sticky_payload_type : sticky.
Lemma sticky_composite_body k n : sticky (composite_body k n).
Proof. unfold composite_body. sticky. Qed.
#[export] Hint Resolve sticky_composite_body : sticky.
Lemma sticky_declaration k : sticky (declaration k).
Proof. unfold declaration, push_composite. sticky. Qed.
Lemma sticky_new_global v : sticky (new_global v).
Proof. unfold new_global, push_global. sticky. Qed.
#[export] Hint Resolve sticky_declaration sticky_new_global : sticky.
Lemma sticky_addValue v init : sticky (addValue v init).
Proof. unfold addValue, declared. sticky. Qed.
#[export] Hint Resolve sticky_addValue : sticky.
Lemma sticky_owned_statement loc : sticky (owned_statement loc).
Proof. unfold owned_statement. sticky. Qed.
Lemma sticky_array_elements v count : ∀ i, sticky (array_elements v count i).
Proof. induction count; intros; cbn [array_elements]; sticky. Qed.
#[export] Hint Resolve sticky_owned_statement sticky_array_elements : sticky.
Lemma sticky_array_statement loc : sticky (array_statement loc).
Proof. unfold array_statement, declared. sticky. Qed.
Lemma sticky_view_statement loc : sticky (view_statement loc).
Proof. unfold view_statement. sticky. Qed.
Lemma sticky_printed fuel : sticky (printed fuel).
Proof. induction fuel; cbn [printed]; sticky. Qed.
#[export] Hint Resolve sticky_array_statement sticky_view_statement sticky_printed : sticky.
Lemma sticky_print_statement loc : sticky (print_statement loc).
Proof. unfold print_statement. sticky. Qed.
Lemma sticky_set_target target : sticky (set_target target).
Proof. unfold set_target. sticky. Qed.
#[export] Hint Resolve sticky_print_statement sticky_set_target : sticky.
Lemma sticky_set_statement loc : sticky (set_statement loc).
Proof. unfold set_statement. sticky. Qed.
Lemma sticky_move_statement loc : sticky (move_statement loc).
Proof. unfold move_statement. sticky. Qed.
Lemma sticky_borrow_statement : sticky borrow_statement.
Proof. unfold borrow_statement, declared. sticky. Qed.
Lemma sticky_release_statement : sticky release_statement.
Proof. unfold release_statement. sticky. Qed.
#[export] Hint Resolve sticky_set_statement sticky_move_statement sticky_borrow_statement sticky_release_statement : sticky.
Lemma sticky_dispatch ks : (∀ w m, (w, m) ∈ ks → sticky m) → sticky (dispatch ks).
Proof.
  induction ks as [|[w m] ks IH]; intros Hks; simpl; [sticky|]. apply sticky_bind; [sticky|]. intros [].
  - apply (Hks w). by left.
  - apply IH. intros w' m' H. apply (Hks w'). by right.
Qed.
Lemma sticky_statement : sticky statement.
Proof.
  unfold statement. apply sticky_bind; [sticky|]. intros loc. apply sticky_dispatch. intros w m Hin.
  unfold keywords in Hin. rewrite !elem_of_cons in Hin.
  destruct_or! Hin; try (by apply elem_of_nil in Hin); simplify_eq; eauto 2 with sticky.
Qed.
Lemma sticky_statements fuel : sticky (statements fuel).
Proof. pose proof sticky_statement. induction fuel; cbn [statements]; sticky. Qed.
Lemma sticky_dotted fuel : sticky (dotted fuel).
Proof. induction fuel; cbn [dotted]; sticky. Qed.
#[export] Hint Resolve sticky_statement sticky_statements sticky_dotted : sticky.

(** ** Reading ahead *)

Lemma suc_ret {A} (a : A) (Q : A → Parser → Prop) s : Q a s → suc (mret a) Q s.
Proof. by intros HQ x s' [= <- <-] _. Qed.
Lemma suc_bind {A B} (m : Try A) (k : A → Try B) (Q : B → Parser → Prop) s :
  (∀ a, sticky (k a)) → suc m (λ a s', suc (k a) Q s') s → suc (m ≫= k) Q s.
Proof.
  intros Hk Hm b s2. unfold mbind, Try_bind. destruct (m s) as [[[a|] s1]| |] eqn:E; try done. intros E2 He.
  eapply Hm; [exact E| |exact E2|done]. by eapply Hk.
Qed.
Lemma suc_mono {A} (m : Try A) (Q R : A → Parser → Prop) s : suc m Q s → (∀ a s', Q a s' → R a s') → suc m R s.
Proof. intros Hm H a s' E He. by apply H, Hm. Qed.
Lemma suc_read {A} (f : Parser → A) (Q : A → Parser → Prop) s : Q (f s) s → suc (read_ f) Q s.
Proof. by intros HQ x s' [= <- <-] _. Qed.
Lemma suc_write f (Q : unit → Parser → Prop) s : Q tt (f s) → suc (write_ f) Q s.
Proof. by intros HQ x s' [= <- <-] _. Qed.
Lemma suc_refuse {A} (Q : A → Parser → Prop) s : suc refuse Q s.
Proof. done. Qed.
Lemma suc_fail {A} why (Q : A → Parser → Prop) s : suc (fail why) Q s.
Proof.
  intros a s'. unfold fail, mbind, Try_bind. by destruct (note why s) as [[[[]|] s1]| |].
Qed.
Lemma suc_fail_if b why (Q : unit → Parser → Prop) s : (b = false → Q tt s) → suc (fail_if b why) Q s.
Proof. destruct b; intros HQ; [apply suc_fail|by apply suc_ret, HQ]. Qed.

(** Equal concatenations of tokens. *)
Ltac reassoc := simpl; repeat (rewrite <-app_assoc; simpl); done.

Ltac next := apply suc_bind; [intros; sticky|].

(** The tokens that have not been read. *)
Definition rest (s : Parser) : list Token := drop (at_ s) (tokens s).

(** [s'] is [s] after reading the tokens [ts]. *)
Record eats (ts : list Token) (s s' : Parser) : Prop := {
  eat_rest : rest s = (ts ++ rest s')%list; eat_at : at_ s' = (at_ s + length ts)%nat;
  eat_p : p s' = p s; eat_tokens : tokens s' = tokens s; eat_composites : composites s' = composites s;
  eat_values : values s' = values s; eat_borrows : borrows s' = borrows s; eat_ownership : ownership s' = ownership s;
}.

Lemma eats_nothing s : eats [] s s.
Proof. split; try done; simpl; lia. Qed.
Lemma eats_app a b s s1 s2 : eats a s s1 → eats b s1 s2 → eats (a ++ b) s s2.
Proof.
  intros [] []. split; try congruence.
  - by rewrite eat_rest0, eat_rest1, app_assoc.
  - rewrite length_app. lia.
Qed.

Lemma rest_here s t : tokens s !! at_ s = Some t → rest s = t :: rest (set_at (at_ s + 1) s).
Proof. intros H. unfold rest. simpl. rewrite Nat.add_1_r. by apply drop_S. Qed.
Lemma eats_one s t : tokens s !! at_ s = Some t → eats [t] s (set_at (at_ s + 1) s).
Proof. intros H. split; try done. by apply rest_here. Qed.

Lemma suc_peek (Q : Token → Parser → Prop) s : (∀ t, tokens s !! at_ s = Some t → Q t s) → suc peek Q s.
Proof. intros HQ t s'. unfold peek. destruct (tokens s !! at_ s) as [t'|]; [|done]. intros [= <- <-] _. by apply HQ. Qed.

Lemma suc_take w (Q : bool → Parser → Prop) s :
  Q false s → (∀ t s', is_word w t = true → eats [t] s s' → Q true s') → suc (take w) Q s.
Proof.
  intros H1 H2. unfold take. next. apply suc_peek. intros t Ht. destruct (_ || _) eqn:E; [by apply suc_ret|].
  next. apply suc_write, suc_ret. apply (H2 t); [|by apply eats_one].
  apply orb_false_iff in E as [E%negb_false_iff Eq]. unfold is_word. by rewrite E, Eq.
Qed.

Lemma suc_expect w (Q : unit → Parser → Prop) s :
  (∀ t s', is_word w t = true → eats [t] s s' → Q tt s') → suc (expect w) Q s.
Proof.
  intros H. unfold expect. next. apply suc_take; [apply suc_fail|]. intros t s' Ht Hs. apply suc_ret. by eapply H.
Qed.

(** A token that is a name. *)
Definition is_name (t : Token) : Prop := identifier (text t) = true ∧ quoted t = false.

Lemma suc_note why (Q : unit → Parser → Prop) s : why ≠ "" → suc (note why) Q s.
Proof.
  intros Hw a s'. unfold note, mbind, Try_bind, read_. destruct (is_empty (error s)) eqn:E.
  - unfold peek. destruct (tokens s !! at_ s); [|done]. intros [= <- <-]. simpl. done.
  - intros [= <- <-] He. by rewrite He in E.
Qed.

Lemma suc_name (Q : string → Parser → Prop) s :
  (∀ t s', is_name t → eats [t] s s' → Q (text t) s') → suc name Q s.
Proof.
  intros HQ. unfold name. next. apply suc_peek. intros t Ht. destruct (_ || _) eqn:E; [next; by apply suc_note|].
  apply orb_false_iff in E as [E%negb_false_iff Eq]. next. apply suc_write, suc_ret. apply (HQ t); [done|by apply eats_one].
Qed.

Lemma name_nonempty t : is_name t → text t ≠ "".
Proof. intros [H _]. by destruct (text t). Qed.

(** [composites.at(n)], [values.at(n)] and vectors. *)
Lemma suc_composite n (Q : sir.Composite → Parser → Prop) s : (∀ c, composites s !! n = Some c → Q c s) → suc (composite_at n) Q s.
Proof. intros HQ c s'. unfold composite_at. destruct (composites s !! n); [|done]. intros [= <- <-] _. by apply HQ. Qed.
Lemma suc_value n (Q : sir.Variable_ → Parser → Prop) s : (∀ v, values s !! n = Some v → Q v s) → suc (value_at n) Q s.
Proof. intros HQ c s'. unfold value_at. destruct (values s !! n); [|done]. intros [= <- <-] _. by apply HQ. Qed.
Lemma suc_element {A} (xs : list A) i (Q : A → Parser → Prop) s : (∀ x, xs !! i = Some x → Q x s) → suc (element xs i) Q s.
Proof. intros HQ. unfold element. destruct (xs !! i); [by apply suc_ret, HQ|done]. Qed.

(** An operation of the tracker that agrees. *)
Lemma suc_owned op (Q : unit → Parser → Prop) s :
  (∀ why o', op (ownership s) = (true, why, o') → Q tt (set_ownership o' s)) → suc (owned_or_fail op) Q s.
Proof.
  intros HQ. unfold owned_or_fail, owning. next. next. apply suc_read. destruct (op (ownership s)) as [[b why] o'].
  next. apply suc_write, suc_ret, suc_fail_if. intros Hb%negb_false_iff. simpl in Hb. subst b. by eapply HQ.
Qed.

(** * Expressions *)

(** A token that an expression can hold. *)
Definition inner (t : Token) : Prop := is_word ";" t = false ∧ is_word "{" t = false ∧ is_word "}" t = false.

Definition ends_in_dot (ts : list Token) : bool := match last ts with Some t => is_word "." t | None => false end.

Lemma mentions_app ts us d : ends_in_dot ts = false → (ts = [] → d = false) → mentions d (ts ++ us) = (mentions d ts ++ mentions false us)%list.
Proof.
  revert d. induction ts as [|t ts IH]; intros d Hd H0; simpl; [by rewrite H0|]. rewrite <-app_assoc. f_equal.
  destruct ts as [|u ts]; [unfold ends_in_dot in Hd; simpl in Hd; by rewrite Hd|]. apply IH; [|done].
  unfold ends_in_dot in *. done.
Qed.

Lemma ends_in_dot_app ts us : ends_in_dot ts = false → ends_in_dot us = false → ends_in_dot (ts ++ us) = false.
Proof. unfold ends_in_dot. rewrite last_app. by destruct (last us). Qed.

Section Expressions.
Context (s0 : Parser) (types : gset string) (l : Ledger) (Htypes : types = dom (composites s0)).

(** The tokens [ts] are those of expressions [es]: every value they mention can be
    read, and the expressions read those values and no others. *)
Record fits (ts : list Token) (es : list sir.Expression) : Prop := {
  fit_inner : Forall inner ts; fit_dot : ends_in_dot ts = false;
  fit_readable : Forall (readable l) (values_in types (mentions false ts));
  fit_reads : flat_map reads es = read_values types l (mentions false ts);
}.

Lemma fits_app ts us es fs : fits ts es → fits us fs → fits (ts ++ us) (es ++ fs).
Proof using.
  intros [A1 A2 A3 A4] [B1 B2 B3 B4]. unfold read_values, values_in in *. split.
  - by apply Forall_app.
  - by apply ends_in_dot_app.
  - rewrite mentions_app by done. unfold values_in. by rewrite filter_app, Forall_app.
  - rewrite mentions_app by done. unfold read_values, values_in. by rewrite flat_map_app, filter_app, map_app, A4, B4.
Qed.

Lemma fits_change ts es fs : fits ts es → flat_map reads fs = flat_map reads es → fits ts fs.
Proof using. intros [] H. split; try done. by rewrite H. Qed.

(** Tokens that mention no value. *)
Lemma fits_silent ts es :
  Forall inner ts → ends_in_dot ts = false → values_in types (mentions false ts) = [] → flat_map reads es = [] → fits ts es.
Proof using. intros H1 H2 H3 H4. unfold read_values. split; [done..|by rewrite H3|]. unfold read_values. by rewrite H3. Qed.

Lemma word_text w t : is_word w t = true → text t = w ∧ quoted t = false.
Proof using. unfold is_word. rewrite andb_true_iff, negb_true_iff, String.eqb_eq. tauto. Qed.

Lemma word_is w t : text t = w → quoted t = false → ∀ v, is_word v t = String.eqb w v.
Proof using. intros <- H v. unfold is_word. by rewrite H, andb_true_r. Qed.

(** Punctuation between expressions. *)
Lemma fits_word w t : is_word w t = true → identifier w = false → w ≠ ";" → w ≠ "{" → w ≠ "}" → w ≠ "." → fits [t] [].
Proof using.
  intros [Ht Hq]%word_text Hi H1 H2 H3 H4. apply fits_silent; [|..|done].
  - constructor; [|constructor]. unfold inner. rewrite !(word_is w t Ht Hq). by repeat split; apply String.eqb_neq.
  - unfold ends_in_dot. simpl. rewrite (word_is w t Ht Hq). by apply String.eqb_neq.
  - unfold values_in. simpl. by rewrite Ht, Hi, andb_false_r.
Qed.

Lemma quoted_no_word t : quoted t = true → ∀ v, is_word v t = false.
Proof using. intros H v. unfold is_word. by rewrite H, andb_false_r. Qed.

Lemma fits_quoted t e : quoted t = true → reads e = [] → fits [t] [e].
Proof using.
  intros Hq He. apply fits_silent; simpl; [| | |by rewrite He].
  - constructor; [|constructor]. unfold inner. by rewrite !quoted_no_word.
  - unfold ends_in_dot. simpl. by apply quoted_no_word.
  - by rewrite Hq.
Qed.

(** A name after a dot. *)
Lemma name_inner t : is_name t → inner t ∧ is_word "." t = false.
Proof using.
  intros [Hi Hq]. assert (∀ v, identifier v = false → is_word v t = false) as H.
  { intros v Hv. rewrite (word_is (text t) t eq_refl Hq). apply String.eqb_neq. by intros <-; rewrite Hi in Hv. }
  unfold inner. by rewrite !H.
Qed.

Lemma fits_member d t : is_word "." d = true → is_name t → fits [d; t] [].
Proof using.
  intros Hd Ht. destruct (name_inner t Ht) as [Hin Hdot]. pose proof (word_text _ _ Hd) as [Hdt Hdq]. apply fits_silent; [| | |done].
  - constructor; [unfold inner; by rewrite !(word_is _ d Hdt Hdq)|by constructor].
  - done.
  - unfold values_in. cbn [mentions]. rewrite Hd, Hdt, Hdq. cbn [negb]. by rewrite !andb_false_r.
Qed.

Lemma fits_type t c : is_name t → composites s0 !! text t = Some c → fits [t] [].
Proof using Htypes.
  intros Ht Hc. destruct (name_inner t Ht) as [Hin Hdot]. apply fits_silent; [by constructor|done| |done].
  unfold values_in. simpl. rewrite app_nil_r. destruct (_ && _); [|done]. rewrite filter_cons_False; [done|].
  intros H. apply H. rewrite Htypes. by eapply elem_of_dom_2.
Qed.

(** The state of the parser and the ledger. *)
Context (Hvalues : l_values l = sir.v_composite <$> values s0) (Hviews : l_views l = forget <$> borrows s0)
  (Htracker : tracker_is l (ownership s0))
  (Hkinds : ∀ h b, borrows s0 !! h = Some b → (view b = true ↔ is_Some (values s0 !! h))).

(** A name that is read. *)
Lemma read_allowed n why o' :
  Ownership.read n (ownership s0) = (true, why, o') → is_Some (l_values l !! n) ∧ readable l n ∧ o' = ownership s0.
Proof using Htracker.
  intros H. pose proof (read_live _ _ _ _ _ H) as [-> (x & Hx & _)].
  pose proof Hx as Hx'. rewrite Htracker in Hx. destruct (l_values l !! n) as [t|] eqn:Hn; [|done]. simpl in Hx. injection Hx as <-.
  split; [by eexists|]. split; [|done]. unfold readable. rewrite Hn. unfold Ownership.read in H. rewrite Hx' in H.
  unfold snapshot_of in H. destruct (decide (n ∈ l_moved l)); [done|]. split; [done|]. unfold unlent.
  destruct (decide (views_on n (l_views l) = ∅)) as [->|]; [apply map_Forall_empty|].
  by destruct (decide (map_Forall _ (views_on n (l_views l)))).
Qed.

(** [e] is the value that the name [n] stands for. *)
Definition names (n : string) (e : sir.Expression) : Prop :=
  readable l n ∧ sir.e_name e = stands_for l n ∧ reads e = [stands_for l n] ∧ sir.e_kind e = sir.E_Variable.

Lemma suc_reference n (Q : sir.Expression → Parser → Prop) s ts :
  eats ts s0 s → (∀ e s', eats ts s0 s' → at_ s' = at_ s → rest s' = rest s → names n e →
     (borrows s0 !! n = None → sir.e_name e = n) → Q e s') → suc (reference n false) Q s.
Proof using Hvalues Hviews Htracker Hkinds.
  intros Hs HQ. unfold reference. next. apply suc_read. rewrite (eat_borrows _ _ _ Hs). next.
  assert (∀ m s', eats ts s0 s' → at_ s' = at_ s → rest s' = rest s → readable l n → m = stands_for l n → (borrows s0 !! n = None → m = n) →
    suc (vs ← read_ values; match vs !! m with
         | None => fail ("unknown value: " +:+ m)
         | Some v => mret (node sir.E_Variable (sir.v_type v) m 0 [] (sir.v_composite v))
         end) Q s') as Hrest.
  { intros m s' Hs' Ha Hr Hread -> Hm. next. apply suc_read. destruct (values s' !! stands_for l n) as [v|]; [|apply suc_fail].
    by apply suc_ret, HQ. }
  assert (suc (owned_or_fail (Ownership.read n);; mret n) (λ m s', suc (vs ← read_ values; match vs !! m with
         | None => fail ("unknown value: " +:+ m)
         | Some v => mret (node sir.E_Variable (sir.v_type v) m 0 [] (sir.v_composite v))
         end) Q s') s) as Hread.
  { next. apply suc_owned. intros why o'. rewrite (eat_ownership _ _ _ Hs). intros (Hv & Hr & ->)%read_allowed. apply suc_ret, Hrest; try done.
    - destruct Hs. by split.
    - unfold stands_for. destruct Hv as [t Ht]. by rewrite Ht. }
  destruct (borrows s0 !! n) as [b|] eqn:Hb; [|exact Hread]. destruct (view b) eqn:Hvb; [exact Hread|].
  assert (l_values l !! n = None) as Hn.
  { rewrite Hvalues, lookup_fmap. destruct (values s0 !! n) eqn:E; [|done]. destruct (Hkinds n b Hb) as [_ H]. rewrite H in Hvb by by eexists. done. }
  assert (l_views l !! n = Some (forget b)) as Hl by by rewrite Hviews, lookup_fmap, Hb.
  next. apply suc_fail_if. intros _. apply suc_ret, Hrest; try done.
  - unfold readable. rewrite Hn, Hl. by eexists.
  - unfold stands_for. by rewrite Hn, Hl.
Qed.

(** A parser of an expression: the tokens it reads are those of its result. *)
Definition reads_expression (ex : Try sir.Expression) : Prop := ∀ s ts, eats ts s0 s →
  suc ex (λ e s', ∃ us, eats us s s' ∧ fits us [e] ∧ (sir.e_kind e = sir.E_Integer → reads e = [])) s.

Section Nested.
Context (ex : Try sir.Expression) (Hsticky : sticky ex) (Hex : reads_expression ex).

Lemma suc_nested s ts (Q : sir.Expression → Parser → Prop) :
  eats ts s0 s → (∀ e us s', eats us s s' → fits us [e] → Q e s') → suc ex Q s.
Proof using Hex. intros Hs HQ. eapply suc_mono; [by eapply Hex|]. intros e s' (us & H1 & H2 & _). by eapply HQ. Qed.

Lemma suc_construct_fields fields : ∀ i s ts,
  eats ts s0 s → suc (construct_fields ex fields i) (λ es s', ∃ us, eats us s s' ∧ fits us es) s.
Proof using Hex Hsticky.
  induction fields as [|f fields IH]; intros i s ts Hs; simpl.
  { apply suc_ret. exists []. split; [apply eats_nothing|by apply fits_silent]. }
  assert (∀ us s1, eats us s s1 → fits us [] → suc (e ← ex; es ← construct_fields ex fields (S i); mret (e :: es))
            (λ es s', ∃ us, eats us s s' ∧ fits us es) s1) as Hrest.
  { intros us s1 H1 F1. pose proof (eats_app _ _ _ _ _ Hs H1) as Hs1. next. eapply suc_nested; [exact Hs1|]. intros e vs s2 H2 F2.
    next. eapply suc_mono; [eapply IH; exact (eats_app _ _ _ _ _ Hs1 H2)|]. intros es s3 (ws & H3 & F3). apply suc_ret.
    exists ((us ++ vs) ++ ws)%list. split; [by do 2 (eapply eats_app; [|done])|].
    exact (fits_app _ _ _ _ (fits_app _ _ _ _ F1 F2) F3). }
  next. case_decide; [apply suc_ret; eapply Hrest; [apply eats_nothing|by apply fits_silent]|].
  apply suc_expect. intros t s1 Ht H1. eapply Hrest; [exact H1|by eapply fits_word].
Qed.

Lemma flat_map_insert (es : list sir.Expression) i e :
  Forall (λ x, reads x = []) es → (i < length es)%nat → flat_map reads (<[i := e]> es) = reads e.
Proof using.
  intros H. revert i. induction H as [|x es Hx Hes IH]; intros i Hi; simpl in *; [lia|]. destruct i as [|i]; simpl.
  - assert (flat_map reads es = []) as ->; [|apply app_nil_r]. clear -Hes. by induction Hes as [|y es Hy _ IH]; [|simpl; rewrite Hy].
  - rewrite Hx. apply IH. lia.
Qed.

(** A constructed value reads what its operands read. *)
Definition is_made (n : string) (es : list sir.Expression) : sir.Expression := node sir.E_Construct sir.S_Composite "" 0 es n.

Lemma reads_made n es : reads (is_made n es) = flat_map reads es.
Proof using. done. Qed.

Lemma fits_made n us es : fits us es → fits us [is_made n es].
Proof using. intros H. eapply fits_change; [exact H|]. simpl. by rewrite app_nil_r. Qed.

(** The tokens of a result, after others of the same expression. *)
Lemma result s us vs s1 s2 es fs (e : sir.Expression) :
  eats us s s1 → fits us es → eats vs s1 s2 → fits vs fs → reads e = flat_map reads (es ++ fs) → sir.e_kind e ≠ sir.E_Integer →
  ∃ ws, eats ws s s2 ∧ fits ws [e] ∧ (sir.e_kind e = sir.E_Integer → reads e = []).
Proof using.
  intros H1 F1 H2 F2 He Hk. exists (us ++ vs)%list. split; [by eapply eats_app|]. split; [|done].
  eapply fits_change; [exact (fits_app _ _ _ _ F1 F2)|]. simpl. by rewrite app_nil_r.
Qed.

Lemma suc_construct n c s ts :
  eats ts s0 s → suc (construct ex n c) (λ e s', ∃ us, eats us s s' ∧ fits us [e] ∧ (sir.e_kind e = sir.E_Integer → reads e = [])) s.
Proof using Hex Hsticky.
  intros Hs. assert (∀ us es s', eats us s s' → fits us es → ∃ us, eats us s s' ∧ fits us [is_made n es] ∧ (sir.e_kind (is_made n es) = sir.E_Integer → reads (is_made n es) = [])) as Hmade.
  { intros us es s' H F. exists us. split; [done|]. split; [by apply fits_made|done]. }
  assert (∀ tag, Forall (λ x, reads x = []) (integer tag :: map zero (sir.co_fields c))) as Hops.
  { intros tag. constructor; [done|]. apply Forall_forall. intros x (t & -> & _)%list_elem_of_fmap. by destruct t. }
  assert (∀ tag, flat_map reads (integer tag :: map zero (sir.co_fields c)) = []) as Hnone.
  { intros tag. specialize (Hops tag). clear -Hops. by induction Hops as [|y es Hy _ IH]; [|simpl; rewrite Hy]. }
  assert (sir.co_kind c = sir.C_Option ∨ sir.co_kind c = sir.C_Result → suc (expect ".";; variant ← name;
    let tag := variant_tag c variant in
    fail_if (tag <? 0) "unknown option/result variant";;
    let operands := integer tag :: map zero (sir.co_fields c) in
    if bool_decide (sir.co_kind c = sir.C_Option) && (tag =? 0) then mret (is_made n operands)
    else
      expect "(";;
      payload ← ex;
      expect ")";;
      es ← with_element operands (if bool_decide (sir.co_kind c = sir.C_Option) then 1%nat else Z.to_nat (tag + 1)) payload;
      mret (is_made n es)) (λ e s', ∃ us, eats us s s' ∧ fits us [e] ∧ (sir.e_kind e = sir.E_Integer → reads e = [])) s) as Htagged.
  { intros _. next. apply suc_expect. intros t1 s1 Ht1 H1. next. apply suc_name. intros t2 s2 Ht2 H2.
    pose proof (eats_app _ _ _ _ _ H1 H2) as H12. pose proof (fits_member _ _ Ht1 Ht2) as F12.
    cbv zeta. next. apply suc_fail_if. intros _. destruct (_ && _).
    { apply suc_ret. eapply (Hmade [t1; t2]); [exact H12|]. by eapply fits_change; [exact F12|rewrite Hnone]. }
    next. apply suc_expect. intros t3 s3 Ht3 H3. next. pose proof (eats_app _ _ _ _ _ H12 H3) as H13.
    eapply suc_nested; [exact (eats_app _ _ _ _ _ Hs H13)|]. intros payload us s4 H4 F4.
    next. apply suc_expect. intros t5 s5 Ht5 H5. next. unfold with_element. case_decide as Hlt; [|done]. apply suc_ret, suc_ret.
    eapply (Hmade ((([t1; t2] ++ [t3]) ++ us) ++ [t5])%list).
    - exact (eats_app _ _ _ _ _ (eats_app _ _ _ _ _ H13 H4) H5).
    - eapply (fits_change _ ((([] ++ []) ++ [payload]) ++ [])%list); [|by rewrite flat_map_insert; simpl; rewrite ?app_nil_r].
      repeat apply fits_app; [exact F12|by eapply fits_word|done|by eapply fits_word]. }
  unfold construct. destruct (sir.co_kind c) eqn:Hk.
  - next. apply suc_expect. intros t1 s1 Ht1 H1. next. eapply suc_mono; [eapply suc_construct_fields; exact (eats_app _ _ _ _ _ Hs H1)|].
    intros es s2 (us & H2 & F2). next. apply suc_expect. intros t3 s3 Ht3 H3. apply suc_ret.
    apply (Hmade (([t1] ++ us) ++ [t3])%list); [by do 2 (eapply eats_app; [|done])|].
    rewrite <-(app_nil_r es). apply (fits_app ([t1] ++ us) [t3] es []); [|by eapply fits_word].
    apply (fits_app [t1] us [] es); [by eapply fits_word|done].
  - next. apply suc_expect. intros t1 s1 Ht1 H1. next. apply suc_name. intros t2 s2 Ht2 H2.
    destruct (index_of _ _ _) as [i|]; [|apply suc_fail]. apply suc_ret. apply (Hmade [t1; t2]); [exact (eats_app [t1] [t2] _ _ _ H1 H2)|].
    eapply fits_change; [by eapply fits_member|done].
  - by apply Htagged; left.
  - by apply Htagged; right.
  - apply suc_fail.
Qed.

Lemma suc_projection n e s (Q : sir.Expression → Parser → Prop) d :
  names n e → is_word "." d = true →
  (∀ e' t s', is_name t → eats [t] s s' → reads e' = reads e → sir.e_kind e' ≠ sir.E_Integer → Q e' s') → suc (projection e) Q s.
Proof using.
  intros He Hd HQ. unfold projection. next. apply suc_name. intros t s1 Ht H1. next. apply suc_fail_if. intros _.
  next. apply suc_composite. intros c _. cbv zeta.
  assert (∀ i t', Q (node sir.E_Project t' "" i [e] "") s1) as Hp by (intros; eapply HQ; [done..|simpl; by rewrite app_nil_r|done]).
  destruct (_ && _ && _); [by apply suc_ret|]. destruct (_ && _); [|apply suc_fail].
  destruct (last_index_of _ _ _ _) as [i|]; [|apply suc_fail]. next. apply suc_element. intros t' _. by apply suc_ret.
Qed.

Lemma suc_indexing n e s ts (Q : sir.Expression → Parser → Prop) :
  names n e → eats ts s0 s →
  (∀ e' index us t s', is_word "]" t = true → eats (us ++ [t]) s s' → fits us [index] → reads e' = (reads e ++ reads index)%list →
     sir.e_kind e' ≠ sir.E_Integer → Q e' s') → suc (indexing ex e) Q s.
Proof using Hex Hsticky.
  intros (_ & Hn & Hr & _) Hs HQ. unfold indexing. next. eapply suc_nested; [exact Hs|]. intros index us s1 H1 F1.
  next. apply suc_expect. intros t s2 Ht H2. pose proof (eats_app _ _ _ _ _ H1 H2) as H12.
  assert (reads e = [sir.e_name e]) as Hre by by rewrite Hr, Hn.
  destruct (bool_decide _).
  - next. apply suc_composite. intros c _. next. apply suc_fail_if. intros _. next. apply suc_element. intros t' _. apply suc_ret.
    eapply HQ; [exact Ht|exact H12|exact F1| |done]. rewrite Hre. simpl. by rewrite app_nil_r.
  - apply suc_ret. eapply HQ; [exact Ht|exact H12|exact F1| |done]. rewrite Hre. simpl. by rewrite app_nil_r.
Qed.

(** The token that names a value. *)
Lemma fits_value t e : is_name t → text t ∉ ["true"; "false"] → composites s0 !! text t = None → names (text t) e → fits [t] [e].
Proof using Htypes.
  intros Ht Hb Hc (Hread & _ & Hr & _). pose proof Ht as [Hi Hq]. destruct (name_inner t Ht) as [Hin Hdot].
  assert (values_in types (mentions false [t]) = [text t]) as Hv.
  { cbn [mentions]. rewrite Hi, Hq, bool_decide_eq_false_2 by done. unfold values_in.
    change (filter (λ n, n ∉ types) [text t] = [text t]). rewrite filter_cons_True; [done|].
    rewrite Htypes. by apply not_elem_of_dom. }
  split; [by constructor|done| |].
  - rewrite Hv. by constructor.
  - unfold read_values. rewrite Hv. simpl. by rewrite Hr.
Qed.

Lemma suc_value_expression t s s1 ts :
  eats ts s0 s → eats [t] s s1 → is_name t → text t ∉ ["true"; "false"] → composites s0 !! text t = None →
  suc (value_expression ex (text t)) (λ e s', ∃ us, eats us s s' ∧ fits us [e] ∧ (sir.e_kind e = sir.E_Integer → reads e = [])) s1.
Proof using Htypes Hvalues Hviews Htracker Hkinds Hex Hsticky.
  intros Hs H1 Ht Hb Hc. pose proof (eats_app _ _ _ _ _ Hs H1) as Hs1. unfold value_expression. next.
  eapply suc_reference; [exact Hs1|]. intros e s2 Hs2 Ha2 Hr2 He _. pose proof (fits_value t e Ht Hb Hc He) as F1.
  assert (eats [t] s s2) as H2.
  { destruct H1, Hs1, Hs2. split; try congruence. }
  next. apply suc_take.
  - next. apply suc_take.
    + next. apply suc_value. intros v _. next. apply suc_fail_if. intros _. apply suc_ret. exists [t]. split; [done|]. split; [done|].
      destruct He as (_ & _ & _ & Hk). by rewrite Hk.
    + intros b s3 Hbr H3. eapply suc_indexing; [exact He|exact (eats_app _ _ _ _ _ Hs2 H3)|]. intros e' index us c s4 Hcl H4 F4 Hre Hk.
      eapply (result s [t] ([b] ++ (us ++ [c])) s2 s4 [e] ([] ++ ([index] ++ [])) e'); [done|done|by eapply eats_app| | |done].
      * apply fits_app; [by eapply fits_word|]. apply fits_app; [done|by eapply fits_word].
      * rewrite Hre. simpl. by rewrite app_nil_r.
  - intros d s3 Hd H3. eapply suc_projection; [exact He|exact Hd|]. intros e' f s4 Hf H4 Hre Hk.
    eapply (result s [t] ([d] ++ [f]) s2 s4 [e] [] e'); [done|done|by eapply eats_app|by apply fits_member| |done].
    rewrite Hre. simpl. by rewrite app_nil_r.
Qed.

Lemma digit_not_letter c : digit c || (c =? "-")%char = true → letter c = false.
Proof using. destruct c as [b0 b1 b2 b3 b4 b5 b6 b7]. by destruct b0, b1, b2, b3, b4, b5, b6, b7. Qed.

(** A literal that is not a name. *)
Lemma fits_number t e : quoted t = false → starts_number (text t) = true → reads e = [] → fits [t] [e].
Proof using.
  intros Hq Hn He. destruct (text t) as [|c r] eqn:Ht; [done|]. simpl in Hn. pose proof (digit_not_letter c Hn) as Hl.
  assert (∀ v, starts_number v = false → is_word v t = false) as Hw.
  { intros v Hv. rewrite (word_is _ t Ht Hq). apply String.eqb_neq. intros <-. simpl in Hv. congruence. }
  apply fits_silent; simpl; [| | |by rewrite He].
  - constructor; [|constructor]. unfold inner. by rewrite !Hw.
  - unfold ends_in_dot. simpl. by apply Hw.
  - rewrite Ht. simpl. by rewrite Hl, andb_false_r.
Qed.

Lemma suc_number literal (Q : sir.Expression → Parser → Prop) s :
  (∀ e, reads e = [] → Q e s) → suc (number literal) Q s.
Proof using.
  intros HQ. unfold number. destruct (has_fraction literal).
  - destruct (strtod literal); [|apply suc_fail]. destruct (_ && _); [|apply suc_fail]. by apply suc_ret, HQ.
  - destruct (from_chars literal); [|apply suc_fail]. by apply suc_ret, HQ.
Qed.

Lemma suc_expressionImpl : reads_expression (expressionImpl ex).
Proof using Htypes Hvalues Hviews Htracker Hkinds Hex Hsticky.
  intros s ts Hs. unfold expressionImpl. next. apply suc_peek. intros t Ht. pose proof (eats_one _ _ Ht) as H1.
  destruct (quoted t) eqn:Hq.
  { next. apply suc_write, suc_ret. exists [t]. split; [done|]. split; [by apply fits_quoted|done]. }
  assert (∀ w u s1, is_word w u = true → w ∈ ["true"; "false"] → eats [u] s s1 → ∀ b,
    ∃ us, eats us s s1 ∧ fits us [boolean b] ∧ (sir.e_kind (boolean b) = sir.E_Integer → reads (boolean b) = [])) as Hbool.
  { intros w u s1 Hu Hw H b. exists [u]. split; [done|]. split; [|done]. apply word_text in Hu as [Hu Huq].
    apply fits_silent; simpl; [| | |done].
    - constructor; [|constructor]. unfold inner. rewrite !(word_is _ u Hu Huq). set_unfold in Hw. by destruct Hw as [->|[->|[]]].
    - unfold ends_in_dot. simpl. rewrite (word_is _ u Hu Huq). set_unfold in Hw. by destruct Hw as [->|[->|[]]].
    - rewrite Hu, bool_decide_eq_true_2 by done. by rewrite andb_false_r. }
  next. unfold take at 1. next. apply suc_peek. intros t' Ht'. rewrite Ht in Ht'. injection Ht' as <-. rewrite Hq, orb_false_r.
  destruct (text t =? "true")%string eqn:Etrue; cbn [negb].
  { next. apply suc_write, suc_ret, suc_ret. apply (Hbool "true" t); [|set_solver|done]. unfold is_word. by rewrite Etrue, Hq. }
  apply suc_ret. next. unfold take at 1. next. apply suc_peek. intros t' Ht'. rewrite Ht in Ht'. injection Ht' as <-. rewrite Hq, orb_false_r.
  destruct (text t =? "false")%string eqn:Efalse; cbn [negb].
  { next. apply suc_write, suc_ret, suc_ret. apply (Hbool "false" t); [|set_solver|done]. unfold is_word. by rewrite Efalse, Hq. }
  apply suc_ret. destruct (starts_number (text t)) eqn:Hnum.
  { next. apply suc_write, suc_number. intros e He. exists [t]. split; [done|]. split; [by apply fits_number|done]. }
  next. unfold name. next. apply suc_peek. intros t' Ht'. rewrite Ht in Ht'. injection Ht' as <-.
  destruct (_ || _) eqn:Eid; [next; by apply suc_note|]. apply orb_false_iff in Eid as [Eid%negb_false_iff _].
  assert (is_name t) as Hname by done. next. apply suc_write, suc_ret.
  destruct (is_empty (text t)) eqn:Ee; [apply suc_refuse|]. next. apply suc_read.
  rewrite (eat_composites _ _ _ H1), (eat_composites _ _ _ Hs). destruct (composites s0 !! text t) as [c|] eqn:Hc.
  - eapply suc_mono; [eapply suc_construct; exact (eats_app _ _ _ _ _ Hs H1)|]. intros e s2 (us & H2 & F2 & Hk).
    exists ([t] ++ us)%list. split; [by eapply eats_app|]. split; [|done]. apply (fits_app [t] us [] [e]); [by eapply fits_type|done].
  - eapply suc_value_expression; [exact Hs|exact H1|done| |done]. apply String.eqb_neq in Etrue, Efalse. set_solver.
Qed.
End Nested.

Lemma suc_leaving {A} (m : Try A) (Q : A → Parser → Prop) s :
  suc m (λ a s', Q a (set_depth (u32 (depth s' - 1)) s')) s → suc (leaving m) Q s.
Proof using.
  intros Hm a s'. unfold leaving. destruct (m s) as [[r s1]| |] eqn:E; try done. intros [= -> <-] He. exact (Hm _ _ E He).
Qed.
End Expressions.

Lemma suc_range (Q : sir.SourceRange → Parser → Prop) s : (∀ r, Q r s) → suc range Q s.
Proof. intros HQ. unfold range. next. apply suc_read. next. apply suc_peek. intros t _. by apply suc_ret. Qed.

(** The depth plays no part. *)
Lemma eats_depth ts s s' d e : eats ts s s' → eats ts (set_depth d s) (set_depth e s').
Proof. by intros []. Qed.

Lemma expression_reads fuel : ∀ s0 types l, types = dom (composites s0) →
  l_values l = sir.v_composite <$> values s0 → l_views l = forget <$> borrows s0 → tracker_is l (ownership s0) →
  (∀ h b, borrows s0 !! h = Some b → (view b = true ↔ is_Some (values s0 !! h))) → reads_expression s0 types l (expression fuel).
Proof.
  induction fuel as [|fuel IH]; intros s0 types l H0 H1 H2 H3 H4 s ts Hs; cbn [expression]; [done|].
  next. apply suc_write. next. apply suc_read.
  destruct (128 <? _); [next; apply suc_leaving, suc_ret, suc_fail|].
  next. apply suc_range. intros r. next. apply suc_leaving.
  eapply suc_mono; [eapply suc_expressionImpl; [exact H0|exact H1|exact H2|exact H3|exact H4|sticky|by apply IH|]|].
  { instantiate (1 := ts). destruct Hs. by split. }
  intros e s' (us & H & F & Hk). apply suc_ret. exists us. split; [destruct H; by split|].
  destruct (isKnown _); [done|]. rewrite reads_range. split; [|by destruct e].
  eapply fits_change; [exact F|]. by destruct e.
Qed.

(** * Statements *)

(** The tables of the parser are those of the ledger, but for its borrows. *)
Record core (types : gset string) (l : Ledger) (s : Parser) : Prop := {
  co_kept : well_kept l; co_tracker : tracker_is l (ownership s); co_values : l_values l = sir.v_composite <$> values s;
  co_types : types = dom (composites s); co_bound : (size (l_views l) ≤ at_ s)%nat;
  co_end : (at_ s ≤ length (tokens s))%nat; co_count : Z.of_nat (length (tokens s)) ≤ 100001;
}.

Definition handles (l : Ledger) (s : Parser) : Prop :=
  l_views l = forget <$> borrows s ∧ ∀ h b, borrows s !! h = Some b → (view b = true ↔ is_Some (values s !! h)).

Definition agrees (types : gset string) (l : Ledger) (s : Parser) : Prop := core types l s ∧ handles l s.

Lemma eats_end ts s s' : eats ts s s' → (at_ s ≤ length (tokens s))%nat → (at_ s' ≤ length (tokens s'))%nat.
Proof.
  intros [Hr Ha _ Ht _ _ _ _] He. apply (f_equal length) in Hr. unfold rest in Hr. rewrite length_app, !length_drop in Hr.
  rewrite Ht in *. lia.
Qed.

Lemma core_eats types l ts s s' : core types l s → eats ts s s' → core types l s'.
Proof.
  intros [] H. pose proof (eats_end _ _ _ H co_end0). destruct H. split; try congruence; [by rewrite eat_ownership0|rewrite eat_at0; lia].
Qed.

Lemma agrees_eats types l ts s s' : agrees types l s → eats ts s s' → agrees types l s'.
Proof.
  intros [Hc [Hv Hk]] H. split; [by eapply core_eats|]. destruct H. split; [congruence|].
  intros h b. rewrite eat_borrows0, eat_values0. apply Hk.
Qed.

Lemma core_small types l s : core types l s → Z.of_nat (size (l_views l)) < SIZE_MAX.
Proof. intros []. change SIZE_MAX with 18446744073709551615. lia. Qed.

Lemma suc_parse types l s ts s1 (Q : sir.Expression → Parser → Prop) :
  agrees types l s → eats ts s s1 →
  (∀ e us s2, eats us s1 s2 → fits types l us [e] → (sir.e_kind e = sir.E_Integer → reads e = []) → Q e s2) →
  suc parse_expression Q s1.
Proof.
  intros [[] [Hv Hk]] Hs HQ. eapply suc_mono; [by eapply (expression_reads 129 s types l)|]. intros e s2 (us & H & F & Hi). by eapply HQ.
Qed.

(** What a statement reads and writes. *)
Definition footprint_of (st : sir.Statement) : footprint := (reads_of st, targets_of st).
Definition footprints (s : Parser) : list footprint := map footprint_of (body_of (p s)).

(** The part of a source before a semicolon. *)
Definition closed (a : list Token) : Prop := ∀ c us, is_word ";" c = true → up_to_semicolon 0 (a ++ c :: us) = (a, us).

Lemma closed_inner a : Forall inner a → closed a.
Proof.
  intros Ha c us Hc. induction Ha as [|t a (H1 & H2 & H3) Ha IH]; simpl; [by rewrite Hc|].
  rewrite H1, H2, H3. simpl. by rewrite IH.
Qed.

(** From [s] to [s'] one statement has been read and lowered, and it obeys the rules. *)
Definition obeyed (types : gset string) (l : Ledger) (s s' : Parser) : Prop :=
  ∃ a c i types' l' fs, rest s = (a ++ c :: rest s')%list ∧ is_word ";" c = true ∧ closed a ∧ item_of a = Some i ∧
    step types l i types' l' fs ∧ agrees types' l' s' ∧ footprints s' = (footprints s ++ fs)%list ∧
    global_names (p s') = (global_names (p s) ++ creates i)%list.

(** ** New values *)

Record created_value (types : gset string) (l : Ledger) (v : sir.Variable_) (fs : list footprint) (s s' : Parser) : Prop := {
  cv_core : core types (created (sir.v_name v) (sir.v_composite v) l) s'; cv_values : values s' = <[sir.v_name v := v]> (values s);
  cv_borrows : borrows s' = borrows s; cv_tokens : tokens s' = tokens s; cv_at : at_ s' = at_ s;
  cv_footprints : footprints s' = (footprints s ++ fs)%list; cv_globals : global_names (p s') = (global_names (p s) ++ [sir.v_name v])%list;
  cv_fresh : l_values l !! sir.v_name v = None; cv_name : sir.v_name v ≠ "";
}.

Lemma suc_new_global types l s v (Q : unit → Parser → Prop) :
  core types l s → (∀ s', created_value types l v [] s s' → Q tt s') → suc (new_global v) Q s.
Proof.
  intros Hc HQ. pose proof Hc as []. unfold new_global. next. apply suc_owned. intros why o1 Hop.
  destruct (declare_outcome l (ownership s) co_tracker0 co_kept0 _ (sir.v_composite v) _ _ _ Hop) as (Hn & Hne & o2 & Hinit & Htr).
  next. apply suc_owned. cbn [ownership set_ownership]. rewrite Hinit. intros why2 o3 [= <- <-].
  next. apply suc_write. unfold push_global. apply suc_write, HQ.
  assert (values s !! sir.v_name v = None) as Hvn.
  { rewrite co_values0, lookup_fmap in Hn. by destruct (values s !! sir.v_name v). }
  split; try done; simpl.
  - split; try done; simpl; [eapply operation_kept; [done|by apply op_create]|by rewrite co_values0, fmap_insert].
  - unfold footprints, body_of. simpl. by rewrite app_nil_r.
  - unfold global_names. simpl. by rewrite map_app.
Qed.

Lemma suc_append st (Q : unit → Parser → Prop) s :
  (∀ s', footprints s' = (footprints s ++ [footprint_of st])%list → global_names (p s') = global_names (p s) → tokens s' = tokens s →
     at_ s' = at_ s → (∀ types l, agrees types l s → agrees types l s') → (∀ types l, core types l s → core types l s') →
     values s' = values s → borrows s' = borrows s → Q tt s') → suc (append st) Q s.
Proof.
  intros HQ. unfold append. apply suc_write, HQ; try done.
  - unfold footprints, body_of. simpl. by rewrite map_app.
  - by intros types l [[] ?].
  - by intros types l [].
Qed.

Lemma suc_addValue types l s v init (Q : unit → Parser → Prop) :
  core types l s →
  (∀ s', created_value types l v [(reads init, [sir.v_name v])] s s' → borrows s !! sir.v_name v = None → Q tt s') →
  suc (addValue v init) Q s.
Proof.
  intros Hc HQ. unfold addValue, declared. next. apply suc_read. next. apply suc_fail_if. intros [_ Hb%bool_decide_eq_false]%orb_false_iff.
  assert (borrows s !! sir.v_name v = None) as Hbn by by apply eq_None_not_Some.
  next. eapply suc_new_global; [done|]. intros s1 []. apply suc_append. intros s2 A1 A2 A3 A4 A5 A6 A7 A8. apply HQ; [|done].
  split; try congruence; [by apply A6|]. rewrite A1, cv_footprints0, app_nil_r. f_equal. unfold footprint_of.
  fold (assignment v init). rewrite reads_of_assignment. done.
Qed.

(** The handles after a value has been added. *)
Lemma handles_created types l v fs s s' :
  handles l s → created_value types l v fs s s' → borrows s !! sir.v_name v = None → handles (created (sir.v_name v) (sir.v_composite v) l) s'.
Proof.
  intros [Hv Hk] [] Hn. split; [simpl; congruence|]. intros h b. rewrite cv_borrows0, cv_values0. intros Hb.
  rewrite lookup_insert_ne; [by apply Hk|]. intros <-. by rewrite Hn in Hb.
Qed.

Lemma unused_borrows l s n : handles l s → borrows s !! n = None → l_values l !! n = None → unused l n.
Proof. intros [Hv _] Hn Hl. split; [done|]. by rewrite Hv, lookup_fmap, Hn. Qed.

Lemma rest_same s s' : tokens s' = tokens s → at_ s' = at_ s → rest s' = rest s.
Proof. unfold rest. by intros -> ->. Qed.

Lemma word_name w t : is_word w t = true → identifier w = true → is_name t.
Proof. intros [H Hq]%word_text Hi. unfold is_name. by rewrite H. Qed.

Lemma name_in t : is_name t → inner t.
Proof. apply name_inner. Qed.

Lemma eats_footprints ts s s' : eats ts s s' → footprints s' = footprints s ∧ global_names (p s') = global_names (p s).
Proof. intros []. unfold footprints. by rewrite eat_p0. Qed.

Section Rules.
Context (types : gset string) (l : Ledger) (s : Parser) (Hs : agrees types l s).

Lemma fits_one e ts : fits types l ts [e] → reads e = read_values types l (mentions false ts).
Proof using. intros [_ _ _ H]. simpl in H. by rewrite app_nil_r in H. Qed.

Lemma rule_owned loc k s1 :
  is_word "owned" k = true → eats [k] s s1 → suc (owned_statement loc) (λ _ s', obeyed types l s s') s1.
Proof using Hs.
  intros Hk H1. unfold owned_statement. next. apply suc_name. intros t s2 Ht H2. pose proof (eats_app _ _ _ _ _ H1 H2) as H12.
  assert (∀ ty composite, suc (n ← name;
         if is_empty n then refuse
         else
           expect "=";;
           init ← parse_expression;
           expect ";";;
           fail_if (bool_decide (sir.e_type init = sir.S_Composite) && negb (bool_decide (sir.e_kind init = sir.E_Construct)))
             "owned composite requires constructor or move";;
           addValue (scalar_variable n ty composite loc) init) (λ _ s', obeyed types l s s') s2) as Hrest.
  { intros ty composite. next. apply suc_name. intros n s3 Hn H3. pose proof (eats_app _ _ _ _ _ H12 H3) as H13.
    destruct (is_empty _); [apply suc_refuse|]. next. apply suc_expect. intros q s4 Hq H4. pose proof (eats_app _ _ _ _ _ H13 H4) as H14.
    next. eapply suc_parse; [exact Hs|exact H14|]. intros init us s5 H5 F5 _. pose proof (eats_app _ _ _ _ _ H14 H5) as H15.
    next. apply suc_expect. intros c s6 Hc H6. pose proof (eats_app _ _ _ _ _ H15 H6) as H16.
    next. apply suc_fail_if. intros _. pose proof (agrees_eats _ _ _ _ _ Hs H16) as [Hcore Hhand].
    eapply suc_addValue; [exact Hcore|]. intros s' Hcv Hfree. pose proof Hcv as []. cbn [sir.v_name scalar_variable sir.v_composite] in *.
    assert (fits types l (q :: us) [init]) as F. { apply (fits_app _ _ [q] us [] [init]); [by eapply fits_word|done]. }
    exists ([k; t; n] ++ (q :: us))%list, c, (Owns (text t) (text n) (mentions false (q :: us))), types, (created (text n) composite l), [(reads init, [text n])].
    destruct (eats_footprints _ _ _ H16) as [Hf Hg]. split_and!.
    - rewrite (eat_rest _ _ _ H16), (rest_same s6 s' cv_tokens0 cv_at0). by rewrite <-!app_assoc.
    - done.
    - apply closed_inner, Forall_app. split; [|by apply F]. pose proof (word_name _ _ Hk eq_refl). repeat (constructor; [by apply name_in|]). constructor.
    - apply word_text in Hk as [Hkt Hkq]. simpl. by rewrite Hkq, Hkt.
    - rewrite (fits_one _ _ F). constructor; [by apply F|by eapply unused_borrows|done].
    - split; [done|]. by eapply handles_created.
    - by rewrite cv_footprints0, Hf.
    - by rewrite cv_globals0, Hg. }
  next. case_bool_decide; [|apply suc_ret, Hrest]. next. apply suc_read. destruct (composites s2 !! text t); [|apply suc_fail].
  next. apply suc_fail_if. intros _. apply suc_ret, Hrest.
Qed.

(** The expressions of [print]. *)
Lemma suc_printed fuel : ∀ ts s1 (Q : list sir.Expression → Parser → Prop),
  eats ts s s1 → (∀ es us s2, eats us s1 s2 → fits types l us es → Q es s2) → suc (printed fuel) Q s1.
Proof using Hs.
  induction fuel as [|fuel IH]; intros ts s1 Q H1 HQ; cbn [printed]; [done|].
  next. eapply suc_parse; [exact Hs|exact H1|]. intros e us s2 H2 F2 _. next. apply suc_take; [by apply suc_ret; eapply HQ|].
  intros t s3 Ht H3. next. pose proof (eats_app _ _ _ _ _ H2 H3) as H23. eapply IH; [exact (eats_app _ _ _ _ _ H1 H23)|].
  intros es vs s4 H4 F4. apply suc_ret. eapply (HQ _ ((us ++ [t]) ++ vs)%list); [by eapply eats_app|].
  apply (fits_app _ _ (us ++ [t]) vs [e] es); [|done]. apply (fits_app _ _ us [t] [e] []); [done|by eapply fits_word].
Qed.

Lemma rule_print loc k s1 :
  is_word "print" k = true → eats [k] s s1 → suc (print_statement loc) (λ _ s', obeyed types l s s') s1.
Proof using Hs.
  intros Hk H1. unfold print_statement. next. apply suc_read. next. eapply suc_printed; [exact H1|]. intros es us s2 H2 F2.
  next. apply suc_expect. intros c s3 Hc H3. pose proof (eats_app _ _ _ _ _ (eats_app _ _ _ _ _ H1 H2) H3) as H13.
  apply suc_append. intros s' A1 A2 A3 A4 A5 _ _ _. destruct (eats_footprints _ _ _ H13) as [Hf Hg].
  exists (k :: us), c, (Prints (mentions false us)), types, l, [(flat_map reads es, [])]. split_and!.
  - rewrite (eat_rest _ _ _ H13), (rest_same s3 s' A3 A4). by rewrite <-!app_assoc.
  - done.
  - apply closed_inner. constructor; [by eapply name_in, word_name|by apply F2].
  - apply word_text in Hk as [Hkt Hkq]. simpl. by rewrite Hkq, Hkt.
  - rewrite (fit_reads _ _ _ _ F2). constructor. by apply F2.
  - by eapply A5, agrees_eats.
  - by rewrite A1, Hf.
  - rewrite A2, Hg. by rewrite app_nil_r.
Qed.

Lemma rule_borrow k s1 :
  is_word "borrow" k = true → eats [k] s s1 → suc borrow_statement (λ _ s', obeyed types l s s') s1.
Proof using Hs.
  intros Hk H1. unfold borrow_statement.
  assert (∀ (m : bool) w s2, eats [k; w] s s2 → is_name w → (text w =? "mutable")%string = m → suc (
    from ← name; expect "as";; handle ← name; expect ";";; d ← declared handle; fail_if d "duplicate borrow";;
    owned_or_fail ((if m then Ownership.borrowMutable else Ownership.borrowShared) from);;
    write_ (λ s, set_borrows (<[handle := {| owner := from; mut := m; view := false |}]> (borrows s)) s)) (λ _ s', obeyed types l s s') s2) as Hrest.
  { intros m w s2 H2 Hw Hm. next. apply suc_name. intros from s3 Hfrom H3. pose proof (eats_app _ _ _ _ _ H2 H3) as H03.
    next. apply suc_expect. intros as_ s4 Has H4. pose proof (eats_app _ _ _ _ _ H03 H4) as H04.
    next. apply suc_name. intros h s5 Hh H5. pose proof (eats_app _ _ _ _ _ H04 H5) as H05.
    next. apply suc_expect. intros c s6 Hc H6. pose proof (eats_app _ _ _ _ _ H05 H6) as H06.
    unfold declared. next. apply suc_read. next. apply suc_fail_if. intros [Hfv%bool_decide_eq_false Hfb%bool_decide_eq_false]%orb_false_iff.
    apply eq_None_not_Some in Hfv, Hfb. pose proof (agrees_eats _ _ _ _ _ Hs H06) as [Hcore Hhand]. pose proof Hcore as [].
    next. apply suc_owned. intros why o' Hop.
    assert (l_values l !! text h = None) as Hlv by by rewrite co_values0, lookup_fmap, Hfv.
    pose proof (unused_borrows _ _ _ Hhand Hfb Hlv) as Hun.
    destruct (borrow_outcome l (ownership s6) co_tracker0 co_kept0 m (text from) (text h) true why o' (core_small _ _ _ Hcore) (proj2 Hun) Hop) as (Hu & Hr & Htr).
    apply suc_write. destruct (eats_footprints _ _ _ H06) as [Hf Hg].
    exists [k; w; from; as_; h], c, (Borrows m (text from) (text h)), types,
      (lent (text h) {| EnterpriseLanguage.owner := text from; mutable_borrow := m |} l), []. split_and!.
    - exact (eat_rest _ _ _ H06).
    - done.
    - apply closed_inner. pose proof (word_name _ _ Hk eq_refl). pose proof (word_name _ _ Has eq_refl).
      repeat (constructor; [by apply name_in|]). constructor.
    - apply word_text in Hk as [Hkt Hkq]. simpl. by rewrite Hkq, Hkt, <-Hm.
    - by constructor.
    - split.
      + split; try done; simpl.
        * eapply operation_kept; [done|]. apply op_borrow; [done|done|apply Hun].
        * rewrite map_size_insert_None by apply Hun. pose proof (co_bound _ _ _ (proj1 Hs)). rewrite (eat_at _ _ _ H06). simpl. lia.
      + destruct Hhand as [Hv Hkinds]. split; simpl; [by rewrite fmap_insert, Hv|]. intros x b. rewrite lookup_insert_Some.
        intros [[<- <-]|[_ Hb]]; [|by apply Hkinds]. simpl. rewrite Hfv. split; [done|by intros []].
    - rewrite app_nil_r. exact Hf.
    - rewrite app_nil_r. exact Hg. }
  next. apply suc_take.
  - next. apply suc_expect. intros w s2 Hw H2. apply (Hrest false w); [by eapply (eats_app [k] [w])|by eapply word_name|].
    apply word_text in Hw as [-> _]. done.
  - intros w s2 Hw H2. next. apply suc_ret. apply (Hrest true w); [by eapply (eats_app [k] [w])|by eapply word_name|].
    apply word_text in Hw as [-> _]. done.
Qed.

Lemma rule_release k s1 :
  is_word "release" k = true → eats [k] s s1 → suc release_statement (λ _ s', obeyed types l s s') s1.
Proof using Hs.
  intros Hk H1. unfold release_statement. next. apply suc_name. intros h s2 Hh H2.
  next. apply suc_expect. intros c s3 Hc H3. pose proof (eats_app _ _ _ _ _ (eats_app _ _ _ _ _ H1 H2) H3) as H03.
  next. apply suc_read. pose proof (agrees_eats _ _ _ _ _ Hs H03) as [Hcore [Hv Hkinds]]. pose proof Hcore as [].
  destruct (borrows s3 !! text h) as [b|] eqn:Hb; [|apply suc_fail].
  assert (l_views l !! text h = Some (forget b)) as Hvb by by rewrite Hv, lookup_fmap, Hb.
  next. apply suc_owned. intros why o' Hop.
  pose proof (release_outcome l (ownership s3) co_tracker0 co_kept0 (text h) (forget b) true why o' (core_small _ _ _ Hcore) Hvb Hop) as Htr.
  assert (operation l (returned (text h) l)) as Hret by (apply op_release; by eexists).
  assert (size (l_views (returned (text h) l)) ≤ at_ s3)%nat as Hsz by (simpl; rewrite map_size_delete_Some by done; lia).
  destruct (eats_footprints _ _ _ H03) as [Hf Hg].
  assert (∀ l' s4, step types l (Releases (text h)) types l' [] → core types l' s4 → l_views l' = delete (text h) (l_views l) →
    rest s4 = rest s3 → p s4 = p s3 → values s4 = values s3 → borrows s4 = borrows s3 →
    obeyed types l s (set_borrows (delete (text h) (borrows s4)) s4)) as Hend.
  { intros l' s4 Hstep Hc4 Hv4 Hr4 Hp4 Hval4 Hb4. exists [k; h], c, (Releases (text h)), types, l', []. split_and!.
    - rewrite (eat_rest _ _ _ H03). unfold rest in *. simpl. by rewrite Hr4.
    - done.
    - apply closed_inner. pose proof (word_name _ _ Hk eq_refl). repeat (constructor; [by apply name_in|]). constructor.
    - apply word_text in Hk as [Hkt Hkq]. simpl. by rewrite Hkq, Hkt.
    - done.
    - split; [by destruct Hc4|]. split; simpl; [by rewrite fmap_delete, Hb4, Hv4, Hv|]. intros x y.
      rewrite lookup_delete_Some, Hval4, Hb4. intros [_ Hx]. by apply Hkinds.
    - rewrite app_nil_r. unfold footprints in *. simpl. by rewrite Hp4.
    - rewrite app_nil_r. simpl. by rewrite Hp4. }
  pose proof (Hkinds _ _ Hb) as Hview. next. destruct (view b).
  - apply suc_owned. intros why2 o2 Hop2. cbn [ownership set_ownership] in Hop2. apply suc_write.
    destruct (move_outcome (returned (text h) l) o' Htr (text h) true why2 o2 Hop2) as (Hu & Hub & Htr2).
    apply (Hend (moved_out (text h) (returned (text h) l))); try done.
    + constructor; [by eexists|done|done].
    + assert (operation (returned (text h) l) (moved_out (text h) (returned (text h) l))) as Hmv by by apply op_move.
      split; try done; simpl. eapply operation_kept; [|exact Hmv]. by eapply operation_kept.
  - apply suc_ret, suc_write. apply (Hend (returned (text h) l)); try done.
    + constructor; [by eexists|]. rewrite co_values0, lookup_fmap. destruct (values s3 !! text h); [|done].
      destruct Hview as [_ Hview]. by discriminate Hview.
    + split; try done; simpl. by eapply operation_kept.
Qed.

Lemma rule_view loc k s1 :
  is_word "view" k = true → eats [k] s s1 → suc (view_statement loc) (λ _ s', obeyed types l s s') s1.
Proof using Hs.
  intros Hk H1. unfold view_statement. next. apply suc_name. intros t s2 Ht H2. pose proof (eats_app _ _ _ _ _ H1 H2) as H02.
  next. apply suc_read. destruct (composites s2 !! text t) as [cc|]; [|apply suc_fail]. next. apply suc_fail_if. intros _.
  next. apply suc_name. intros n s3 Hn H3. pose proof (eats_app _ _ _ _ _ H02 H3) as H03.
  next. apply suc_expect. intros q s4 Hq H4. pose proof (eats_app _ _ _ _ _ H03 H4) as H04.
  next. apply suc_name. intros from s5 Hfrom H5. pose proof (eats_app _ _ _ _ _ H04 H5) as H05.
  next. apply suc_expect. intros b s6 Hb H6. pose proof (eats_app _ _ _ _ _ H05 H6) as H06.
  next. eapply suc_parse; [exact Hs|exact H06|]. intros offset us s7 H7 F7 _. pose proof (eats_app _ _ _ _ _ H06 H7) as H07.
  next. apply suc_expect. intros m s8 Hm H8. pose proof (eats_app _ _ _ _ _ H07 H8) as H08.
  next. eapply suc_parse; [exact Hs|exact H08|]. intros len vs s9 H9 F9 _. pose proof (eats_app _ _ _ _ _ H08 H9) as H09.
  next. apply suc_expect. intros e s10 He H10. pose proof (eats_app _ _ _ _ _ H09 H10) as H010.
  next. apply suc_expect. intros c s11 Hc H11. pose proof (eats_app _ _ _ _ _ H010 H11) as H011.
  pose proof (agrees_eats _ _ _ _ _ Hs H011) as [Hcore Hhand]. pose proof Hcore as [].
  assert (fits types l (b :: us ++ m :: vs ++ [e]) [offset; len]) as F.
  { apply (fits_app _ _ [b] _ [] [offset; len]); [by eapply fits_word|]. apply (fits_app _ _ us _ [offset] [len]); [done|].
    apply (fits_app _ _ [m] _ [] [len]); [by eapply fits_word|]. apply (fits_app _ _ vs _ [len] []); [done|by eapply fits_word]. }
  next. apply suc_owned. intros why o' Hop. destruct (borrows s11 !! text n) as [bb|] eqn:Hbn.
  { next. unfold addValue, declared. next. apply suc_read. next. simpl. rewrite Hbn, (bool_decide_eq_true_2 (is_Some (Some bb))) by by eexists.
    rewrite orb_true_r. apply suc_fail. }
  assert (l_views l !! text n = None) as Hvn by by rewrite (proj1 Hhand), lookup_fmap, Hbn.
  destruct (borrow_outcome l (ownership s11) co_tracker0 co_kept0 false (text from) (text n) true why o' (core_small _ _ _ Hcore) Hvn Hop) as (Hu & Hr & Htr).
  set (l1 := lent (text n) {| EnterpriseLanguage.owner := text from; mutable_borrow := false |} l) in *.
  assert (core types l1 (set_ownership o' s11)) as Hcore1.
  { split; try done; simpl; [eapply operation_kept; [done|by apply (op_borrow l false)]|].
    rewrite map_size_insert_None by done. pose proof (co_bound _ _ _ (proj1 Hs)). rewrite (eat_at _ _ _ H011), !length_app. simpl. lia. }
  next. eapply suc_addValue; [exact Hcore1|]. intros s' Hcv _. pose proof Hcv as []. apply suc_write. destruct (eats_footprints _ _ _ H011) as [Hf Hg].
  cbn [sir.v_name scalar_variable sir.v_composite] in *.
  exists ([k; t; n; q; from] ++ (b :: us ++ m :: vs ++ [e]))%list, c,
    (Views (text t) (text n) (text from) (mentions false (b :: us ++ m :: vs ++ [e]))), types, (created (text n) (text t) l1),
    [(text from :: flat_map reads [offset; len], [text n])]. split_and!.
  - rewrite (eat_rest _ _ _ H011), (rest_same s11 (set_borrows (<[text n:={| owner := text from; mut := false; view := true |}]> (borrows s')) s') cv_tokens0 cv_at0).
    reassoc.
  - done.
  - apply closed_inner, Forall_app. split; [|by apply F]. pose proof (word_name _ _ Hk eq_refl).
    pose proof (fit_inner _ _ _ _ (fits_word types l "=" q Hq eq_refl ltac:(done) ltac:(done) ltac:(done) ltac:(done))) as Hin. inv Hin.
    repeat (constructor; [first [done|by apply name_in]|]). constructor.
  - apply word_text in Hk as [Hkt Hkq]. simpl. by rewrite Hkq, Hkt.
  - rewrite (fit_reads _ _ _ _ F). constructor; [by apply F|done|done|by split|done].
  - split; [by destruct cv_core0|]. split; simpl.
    + by rewrite cv_borrows0, fmap_insert, (proj1 Hhand).
    + intros x y. rewrite cv_borrows0, cv_values0. rewrite lookup_insert_Some. intros [[<- <-]|[Hne Hx]].
      * simpl. rewrite lookup_insert_eq. split; [by eexists|done].
      * rewrite lookup_insert_ne by done. by apply (proj2 Hhand).
  - unfold footprints in *. simpl in *. rewrite cv_footprints0, Hf. done.
  - simpl in *. by rewrite cv_globals0, Hg.
Qed.

Lemma rule_move loc k s1 :
  is_word "move" k = true → eats [k] s s1 → suc (move_statement loc) (λ _ s', obeyed types l s s') s1.
Proof using Hs.
  intros Hk H1. unfold move_statement. next. apply suc_name. intros from s2 Hfrom H2. pose proof (eats_app _ _ _ _ _ H1 H2) as H02.
  pose proof Hs as [Hc0 [Hv0 Hk0]]. next.
  eapply (suc_reference s l); [apply Hc0|exact Hv0|apply Hc0|exact Hk0|exact H02|]. intros init s3 H03 _ _ (_ & _ & Hreads & _) Hname.
  next. apply suc_expect. intros w s4 Hw H4. pose proof (eats_app _ _ _ _ _ H03 H4) as H04.
  next. apply suc_read. next. apply suc_fail_if. rewrite (eat_borrows _ _ _ H04). intros Hnb%bool_decide_eq_false%eq_None_not_Some.
  next. apply suc_value. intros v Hval. next. apply suc_name. intros n s5 Hn H5. pose proof (eats_app _ _ _ _ _ H04 H5) as H05.
  next. apply suc_expect. intros c s6 Hc H6. pose proof (eats_app _ _ _ _ _ H05 H6) as H06.
  pose proof (agrees_eats _ _ _ _ _ Hs H06) as [Hcore Hhand]. pose proof Hcore as [].
  next. apply suc_owned. intros why o' Hop.
  destruct (move_outcome l (ownership s6) co_tracker0 (text from) true why o' Hop) as (Hu & Hub & Htr).
  assert (core types (moved_out (text from) l) (set_ownership o' s6)) as Hcore1.
  { split; try done; simpl. eapply operation_kept; [done|by apply op_move]. }
  eapply suc_addValue; [exact Hcore1|]. intros s' Hcv Hfree. pose proof Hcv as []. cbn [sir.v_name sir.v_composite] in *.
  assert (l_values l !! text from = Some (sir.v_composite v)) as Hlv.
  { rewrite (co_values _ _ _ Hc0), lookup_fmap, <-(eat_values _ _ _ H04), Hval. done. }
  destruct (eats_footprints _ _ _ H06) as [Hf Hg].
  exists [k; from; w; n], c, (Moves (text from) (text n)), types, (created (text n) (sir.v_composite v) (moved_out (text from) l)), [([text from], [text n])].
  split_and!.
  - rewrite (eat_rest _ _ _ H06), (rest_same s6 s' cv_tokens0 cv_at0). done.
  - done.
  - apply closed_inner. pose proof (word_name _ _ Hk eq_refl). pose proof (word_name _ _ Hw eq_refl).
    repeat (constructor; [by apply name_in|]). constructor.
  - apply word_text in Hk as [Hkt Hkq]. simpl. by rewrite Hkq, Hkt.
  - eapply (step_moves types l); [exact Hlv|apply Hu|done| | |done].
    + by rewrite Hv0, lookup_fmap, Hnb.
    + eapply unused_borrows; [exact Hhand|exact Hfree|exact cv_fresh0].
  - split; [done|]. eapply (handles_created types (moved_out (text from) l)); [|exact Hcv|exact Hfree]. exact Hhand.
  - rewrite cv_footprints0. unfold footprints in *. simpl. rewrite Hf, Hreads. unfold stands_for. by rewrite Hlv.
  - rewrite cv_globals0. simpl. by rewrite Hg.
Qed.

(** ** Assignments *)

(** Writing the name [n]: the ledger after it, and the value that is written. *)
Definition written (n : string) (l' : Ledger) (target : string) : Prop :=
  (is_Some (l_values l !! n) ∧ unborrowed l n ∧ l' = rewritten n l ∧ target = n) ∨
  (l_values l !! n = None ∧ ∃ b, l_views l !! n = Some b ∧ mutable_borrow b = true ∧ l' = l ∧ target = EnterpriseLanguage.owner b).

Lemma step_sets n l' target names :
  written n l' target → all_readable types l' names → step types l (Sets n names) types l' [(read_values types l' names, [target])].
Proof using.
  intros [(H1 & H2 & -> & ->)|(H1 & b & H2 & H3 & -> & ->)] Hr; [by constructor|by econstructor].
Qed.

Lemma suc_write_reference n ts s1 (Q : sir.Expression → Parser → Prop) :
  eats ts s s1 →
  (∀ e l' s2, written n l' (sir.e_name e) → sir.e_operands e = [] → agrees types l' s2 → rest s2 = rest s1 → p s2 = p s → Q e s2) →
  suc (reference n true) Q s1.
Proof using Hs.
  intros H1 HQ. pose proof (agrees_eats _ _ _ _ _ Hs H1) as Hs1. pose proof Hs1 as [Hcore [Hv Hkinds]]. pose proof Hcore as [].
  unfold reference. next. apply suc_read. next.
  assert (∀ m l' s2, written n l' m → agrees types l' s2 → rest s2 = rest s1 → p s2 = p s →
    suc (vs ← read_ values; match vs !! m with
         | None => fail ("unknown value: " +:+ m)
         | Some v => mret (node sir.E_Variable (sir.v_type v) m 0 [] (sir.v_composite v))
         end) Q s2) as Hrest.
  { intros m l' s2 Hw Ha Hr Hp. next. apply suc_read. destruct (values s2 !! m); [|apply suc_fail]. by eapply suc_ret, HQ. }
  assert (suc (owned_or_fail (Ownership.assign n);; mret n) (λ m s', suc (vs ← read_ values; match vs !! m with
         | None => fail ("unknown value: " +:+ m)
         | Some v => mret (node sir.E_Variable (sir.v_type v) m 0 [] (sir.v_composite v))
         end) Q s') s1) as Hassign.
  { next. apply suc_owned. intros why o' Hop.
    destruct (write_outcome l (ownership s1) co_tracker0 co_kept0 n true why o' Hop) as (Hn & Hu & Htr).
    apply suc_ret, (Hrest n (rewritten n l)); [by left| |done|apply H1]. split; [|done].
    split; try done; simpl. eapply operation_kept; [done|by apply op_write]. }
  destruct (borrows s1 !! n) as [b|] eqn:Hb; [|exact Hassign]. destruct (view b) eqn:Hvb; [exact Hassign|].
  next. apply suc_fail_if. simpl. intros Hm%negb_false_iff. apply suc_ret, (Hrest (owner b) l); [|done|done|apply H1].
  right. split.
  - rewrite co_values0, lookup_fmap. destruct (values s1 !! n) eqn:E; [|done]. destruct (Hkinds n b Hb) as [_ H]. rewrite H in Hvb by by eexists. done.
  - exists (forget b). rewrite Hv, lookup_fmap, Hb. done.
Qed.
End Rules.

Lemma suc_set_target types l s target s1 ts (Q : sir.StatementKind * nat * sir.Expression → Parser → Prop) :
  agrees types l s → eats ts s s1 → sir.e_operands target = [] →
  (∀ k i target' us es s2, eats us s1 s2 → fits types l us es → flat_map reads (sir.e_operands target') = flat_map reads es →
     sir.e_name target' = sir.e_name target → k = sir.St_Assign ∨ k = sir.St_Update → Q (k, i, target') s2) →
  suc (set_target target) Q s1.
Proof.
  intros Hs H1 Hops HQ. unfold set_target. next. apply suc_take.
  - next. apply suc_take.
    + next. apply suc_fail_if. intros _. apply suc_ret. eapply (HQ _ _ _ [] []); [apply eats_nothing|by apply fits_silent|by rewrite Hops|done|by left].
    + intros b s2 Hb H2. next. eapply suc_parse; [exact Hs|exact (eats_app _ _ _ _ _ H1 H2)|]. intros index us s3 H3 F3 _.
      next. apply suc_expect. intros c s4 Hc H4. apply suc_ret.
      eapply (HQ _ _ _ (([b] ++ us) ++ [c])%list (([] ++ [index]) ++ [])%list); [by do 2 (eapply eats_app; [|done])| |done|done|by left].
      repeat apply fits_app; [by eapply fits_word|done|by eapply fits_word].
  - intros d s2 Hd H2. next. apply suc_name. intros f s3 Hf H3. next. apply suc_fail_if. intros _. next. apply suc_composite. intros c _.
    destruct (last_index_of _ _ _ _); [|apply suc_fail]. next. apply suc_fail_if. intros _. apply suc_ret.
    eapply (HQ _ _ _ ([d] ++ [f])%list []); [by eapply eats_app|by apply fits_member|by rewrite Hops|done|by right].
Qed.

Lemma rule_set types l s loc k s1 :
  agrees types l s → is_word "set" k = true → eats [k] s s1 → suc (set_statement loc) (λ _ s', obeyed types l s s') s1.
Proof.
  intros Hs Hk H1. unfold set_statement. next. apply suc_name. intros n s2 Hn H2. pose proof (eats_app _ _ _ _ _ H1 H2) as H02.
  next. eapply (suc_write_reference types l s Hs); [exact H02|]. intros target l' s3 Hw Hops Hs3 Hr3 Hp3. next.
  eapply (suc_set_target types l' s3); [done|apply eats_nothing|done|]. intros kd i target' us es s4 H4 F4 Hreads Hname Hkind.
  next. apply suc_expect. intros q s5 Hq H5. pose proof (eats_app _ _ _ _ _ H4 H5) as H35.
  next. eapply suc_parse; [exact Hs3|exact H35|]. intros value vs s6 H6 F6 _. pose proof (eats_app _ _ _ _ _ H35 H6) as H36.
  next. apply suc_expect. intros c s7 Hc H7. pose proof (eats_app _ _ _ _ _ H36 H7) as H37.
  apply suc_append. intros s' A1 A2 A3 A4 A5 _ _ _.
  assert (fits types l' (us ++ q :: vs) (es ++ [value])) as F.
  { apply fits_app; [done|]. apply (fits_app _ _ [q] vs [] [value]); [by eapply fits_word|done]. }
  destruct (eats_footprints _ _ _ H37) as [Hf Hg].
  exists ([k; n] ++ (us ++ q :: vs))%list, c, (Sets (text n) (mentions false (us ++ q :: vs))), types, l', [(flat_map reads (es ++ [value]), [sir.e_name target])].
  split_and!.
  - rewrite (eat_rest _ _ _ H02), <-Hr3, (eat_rest _ _ _ H37), (rest_same s7 s' A3 A4). reassoc.
  - done.
  - apply closed_inner, Forall_app. split; [|by apply F]. pose proof (word_name _ _ Hk eq_refl). repeat (constructor; [by apply name_in|]). constructor.
  - apply word_text in Hk as [Hkt Hkq]. simpl. by rewrite Hkq, Hkt.
  - rewrite (fit_reads _ _ _ _ F). apply step_sets; [exact Hw|by apply F].
  - by eapply A5, agrees_eats.
  - rewrite A1, Hf. unfold footprints. rewrite Hp3. do 2 f_equal. unfold footprint_of, reads_of, targets_of.
    assert (writes_first (statement_of kd [target'; value] i loc) = true) as -> by (by destruct Hkind as [->| ->]). simpl.
    by rewrite Hreads, Hname, flat_map_app.
  - rewrite A2, Hg, Hp3. by rewrite app_nil_r.
Qed.

(** ** Arrays *)

Lemma fits_unread types l l' us es : fits types l us es → flat_map reads es = [] → fits types l' us [].
Proof.
  intros [A1 A2 A3 A4] He. rewrite He in A4. unfold read_values in A4. apply fits_silent; try done.
  by destruct (values_in types (mentions false us)).
Qed.

Lemma suc_array_elements types l v : ∀ count i s,
  agrees types l s →
  suc (array_elements v count i) (λ _ s', ∃ us es fs, rest s = (us ++ rest s')%list ∧ fits types l us es ∧ agrees types l s' ∧
    footprints s' = (footprints s ++ fs)%list ∧ concat (map fst fs) = flat_map reads es ∧ Forall (λ f, f.2 = [sir.v_name v]) fs ∧
    global_names (p s') = global_names (p s)) s.
Proof.
  induction count as [|count IH]; intros i s Hs; cbn [array_elements].
  { apply suc_ret. exists [], [], []. rewrite app_nil_r. split_and!; try done; by apply fits_silent. }
  assert (∀ ts s1, eats ts s s1 → fits types l ts [] → suc (init ← parse_expression;
      append (statement_of sir.St_Assign [node sir.E_Index (sir.v_type v) (sir.v_name v) 0 [integer i] ""; init] 0 no_source);;
      array_elements v count (i + 1)) (λ _ s', ∃ us es fs, rest s = (us ++ rest s')%list ∧ fits types l us es ∧ agrees types l s' ∧
    footprints s' = (footprints s ++ fs)%list ∧ concat (map fst fs) = flat_map reads es ∧ Forall (λ f, f.2 = [sir.v_name v]) fs ∧
    global_names (p s') = global_names (p s)) s1) as Hrest.
  { intros ts s1 H1 F1. next. eapply suc_parse; [exact Hs|exact H1|]. intros init us s2 H2 F2 _. pose proof (eats_app _ _ _ _ _ H1 H2) as H12.
    next. apply suc_append. intros s3 A1 A2 A3 A4 A5 _ _ _. eapply suc_mono; [apply IH; by eapply A5, agrees_eats|].
    intros _ s4 (vs & es & fs & B1 & B2 & B3 & B4 & B5 & B6 & B7). destruct (eats_footprints _ _ _ H12) as [Hf Hg].
    exists ((ts ++ us) ++ vs)%list, (([] ++ [init]) ++ es)%list, ((reads init, [sir.v_name v]) :: fs). split_and!.
    - rewrite (eat_rest _ _ _ H12), <-(rest_same s2 s3 A3 A4), B1. by rewrite <-!app_assoc.
    - repeat apply fits_app; done.
    - done.
    - rewrite B4, A1, Hf, <-app_assoc. unfold footprint_of, reads_of. simpl. by rewrite app_nil_r.
    - simpl. by rewrite B5.
    - by constructor.
    - by rewrite B7, A2, Hg. }
  next. destruct (i =? 0); [apply suc_ret; eapply Hrest; [apply eats_nothing|by apply fits_silent]|].
  apply suc_expect. intros t s1 Ht H1. eapply Hrest; [exact H1|by eapply fits_word].
Qed.

Lemma rule_array types l s loc k s1 :
  agrees types l s → is_word "array" k = true → eats [k] s s1 → suc (array_statement loc) (λ _ s', obeyed types l s s') s1.
Proof.
  intros Hs Hk H1. unfold array_statement. next. apply suc_name. intros t s2 Ht H2. pose proof (eats_app _ _ _ _ _ H1 H2) as H02.
  next. apply suc_name. intros n s3 Hn H3. pose proof (eats_app _ _ _ _ _ H02 H3) as H03.
  next. apply suc_expect. intros b s4 Hb H4. pose proof (eats_app _ _ _ _ _ H03 H4) as H04.
  next. eapply suc_parse; [exact Hs|exact H04|]. intros extent us s5 H5 F5 Hint. pose proof (eats_app _ _ _ _ _ H04 H5) as H05.
  next. apply suc_expect. intros e s6 He H6. pose proof (eats_app _ _ _ _ _ H05 H6) as H06.
  next. apply suc_fail_if. intros [[Hkind%negb_false_iff%bool_decide_eq_true _]%orb_false_iff _]%orb_false_iff. specialize (Hint Hkind).
  cbv zeta. next. apply suc_fail_if. intros _.
  next. apply suc_expect. intros q s7 Hq H7. pose proof (eats_app _ _ _ _ _ H06 H7) as H07.
  next. apply suc_expect. intros m s8 Hm H8. pose proof (eats_app _ _ _ _ _ H07 H8) as H08.
  unfold declared. next. apply suc_read. next. apply suc_fail_if. intros [_ Hnb%bool_decide_eq_false%eq_None_not_Some]%orb_false_iff.
  pose proof (agrees_eats _ _ _ _ _ Hs H08) as [Hcore Hhand]. next. eapply suc_new_global; [exact Hcore|]. intros s9 Hcv. pose proof Hcv as [].
  cbn [sir.v_name sir.v_composite] in *. set (l' := created (text n) "" l) in *.
  assert (agrees types l' s9) as Hs9 by (split; [done|by eapply (handles_created types l)]).
  next. eapply suc_mono; [by apply suc_array_elements|]. intros _ s10 (vs & es & fs & B1 & B2 & B3 & B4 & B5 & B6 & B7). cbn [sir.v_name] in *.
  next. apply suc_expect. intros z s11 Hz H11. apply suc_expect. intros c s12 Hc H12. pose proof (eats_app _ _ _ _ _ H11 H12) as H1012.
  set (tail := (b :: us ++ [e; q; m] ++ vs ++ [z])%list).
  assert (fits types l' tail es) as F.
  { subst tail. apply (fits_app _ _ [b] _ [] es); [by eapply fits_word|]. apply (fits_app _ _ us _ [] es); [eapply fits_unread; [exact F5|simpl; by rewrite Hint]|].
    apply (fits_app _ _ [e; q; m] _ [] es).
    - apply (fits_app _ _ [e] [q; m] [] []); [by eapply fits_word|]. apply (fits_app _ _ [q] [m] [] []); by eapply fits_word.
    - rewrite <-(app_nil_r es). apply fits_app; [done|by eapply fits_word]. }
  destruct (eats_footprints _ _ _ H08) as [Hf Hg], (eats_footprints _ _ _ H1012) as [Hf2 Hg2].
  exists ([k; t; n] ++ tail)%list, c, (Fills (text n) (mentions false tail)), types, l', fs. split_and!.
  - rewrite (eat_rest _ _ _ H08), <-(rest_same s8 s9 cv_tokens0 cv_at0), B1, (eat_rest _ _ _ H1012). subst tail.
    reassoc.
  - done.
  - apply closed_inner, Forall_app. split; [|by apply F]. pose proof (word_name _ _ Hk eq_refl). repeat (constructor; [by apply name_in|]). constructor.
  - apply word_text in Hk as [Hkt Hkq]. simpl. by rewrite Hkq, Hkt.
  - constructor; [by eapply unused_borrows|done|by apply F|by rewrite B5, (fit_reads _ _ _ _ F)|done].
  - by eapply agrees_eats.
  - by rewrite Hf2, B4, cv_footprints0, Hf, app_nil_r.
  - by rewrite Hg2, B7, cv_globals0, Hg.
Qed.

(** ** Types *)

(** Tokens whose braces are closed and whose semicolons are inside braces. *)
Definition wrapped (ts : list Token) : Prop :=
  ∀ us, up_to_semicolon 0 (ts ++ us) = let '(a, b) := up_to_semicolon 0 us in (ts ++ a, b)%list.

Lemma wrapped_inner ts : Forall inner ts → wrapped ts.
Proof.
  intros H us. induction H as [|t ts (H1 & H2 & H3) H IH]; simpl; [by destruct (up_to_semicolon 0 us)|].
  rewrite H1, H2, H3. simpl. rewrite IH. by destruct (up_to_semicolon 0 us).
Qed.

Lemma wrapped_app ts us : wrapped ts → wrapped us → wrapped (ts ++ us).
Proof. intros H1 H2 vs. rewrite <-app_assoc, H1, H2. destruct (up_to_semicolon 0 vs). by rewrite app_assoc. Qed.

Lemma wrapped_closed a : wrapped a → closed a.
Proof. intros H c us Hc. rewrite H. simpl. rewrite Hc. simpl. by rewrite app_nil_r. Qed.

Definition unbraced (t : Token) : Prop := is_word "{" t = false ∧ is_word "}" t = false.

Lemma wrapped_braces b ms e : is_word "{" b = true → Forall unbraced ms → is_word "}" e = true → wrapped (b :: ms ++ [e]).
Proof.
  intros Hb Hms He us. pose proof (word_text _ _ Hb) as [Hbt Hbq]. pose proof (word_text _ _ He) as [Het Heq].
  assert (up_to_semicolon 1 ((ms ++ [e]) ++ us) = let '(x, y) := up_to_semicolon 0 us in ((ms ++ [e]) ++ x, y)%list) as H.
  { induction Hms as [|t ms [H1 H2] _ IH].
    - simpl. rewrite !(word_is _ e Het Heq). simpl. by destruct (up_to_semicolon 0 us).
    - simpl. rewrite H1, H2, andb_false_r, IH. by destruct (up_to_semicolon 0 us). }
  simpl. rewrite !(word_is _ b Hbt Hbq). simpl. rewrite H. by destruct (up_to_semicolon 0 us).
Qed.

Lemma inner_unbraced t : inner t → unbraced t.
Proof. by intros (_ & H1 & H2). Qed.

Lemma semicolon_unbraced t : is_word ";" t = true → unbraced t.
Proof. intros [Ht Hq]%word_text. unfold unbraced. by rewrite !(word_is _ t Ht Hq). Qed.

Lemma suc_members fuel record : ∀ fields names s,
  suc (members fuel record fields names) (λ _ s', ∃ ms e, eats (ms ++ [e]) s s' ∧ Forall unbraced ms ∧ is_word "}" e = true) s.
Proof.
  induction fuel as [|fuel IH]; intros fields names s; cbn [members]; [done|].
  next. apply suc_take; [|intros e s1 He H1; apply suc_ret; by exists [], e].
  next. apply suc_fail_if. intros _.
  assert (∀ us t s1, eats us s s1 → Forall unbraced us → suc (field ← name;
    if is_empty field then refuse
    else expect ";";; members fuel record (if record then (fields ++ [t])%list else fields) (names ++ [field])%list)
    (λ _ s', ∃ ms e, eats (ms ++ [e]) s s' ∧ Forall unbraced ms ∧ is_word "}" e = true) s1) as Hrest.
  { intros us t s1 H1 F1. next. apply suc_name. intros f s2 Hf H2. destruct (is_empty _); [apply suc_refuse|].
    next. apply suc_expect. intros c s3 Hc H3. eapply suc_mono; [apply IH|]. intros _ s4 (ms & e & H4 & F4 & He).
    exists (((us ++ [f]) ++ [c]) ++ ms)%list, e. split_and!; [|rewrite !Forall_app; split_and!|done].
    - rewrite <-app_assoc. by do 3 (eapply eats_app; [|done]).
    - done.
    - constructor; [by apply inner_unbraced, name_in|constructor].
    - constructor; [by apply semicolon_unbraced|constructor].
    - done. }
  next. destruct record.
  - next. apply suc_name. intros n s1 Hn H1. next. apply suc_fail_if. intros _. apply suc_ret, (Hrest [n]); [done|].
    constructor; [by apply inner_unbraced, name_in|constructor].
  - apply suc_ret, (Hrest [] sir.S_Void); [apply eats_nothing|done].
Qed.

Lemma suc_payload_type why (Q : sir.ScalarType → Parser → Prop) s :
  (∀ t ty s', is_name t → eats [t] s s' → Q ty s') → suc (payload_type why) Q s.
Proof. intros HQ. unfold payload_type. next. apply suc_name. intros t s1 Ht H1. next. apply suc_fail_if. intros _. by eapply suc_ret, HQ. Qed.

Lemma word_inner w t : is_word w t = true → w ≠ ";" → w ≠ "{" → w ≠ "}" → inner t.
Proof. intros [Ht Hq]%word_text H1 H2 H3. unfold inner. rewrite !(word_is w t Ht Hq). by rewrite !String.eqb_neq. Qed.

Lemma suc_composite_body k n s :
  suc (composite_body k n) (λ _ s', ∃ us, eats us s s' ∧ wrapped us) s.
Proof.
  assert (∀ record b s1, is_word "{" b = true → eats [b] s s1 →
    suc (members 257 record [] []) (λ _ s', ∃ us, eats us s s' ∧ wrapped us) s1) as Hbraces.
  { intros record b s1 Hb H1. eapply suc_mono; [apply suc_members|]. intros _ s2 (ms & e & H2 & F2 & He).
    exists ([b] ++ ms ++ [e])%list. split; [by eapply eats_app|]. by apply wrapped_braces. }
  unfold composite_body. destruct k.
  1-2: next; apply suc_expect; intros b s1 Hb H1; next; (eapply suc_mono; [by eapply Hbraces|]);
    intros [fields names] s2 H2; by apply suc_ret.
  all: next; apply suc_expect; intros b s1 Hb H1; next; apply suc_payload_type; intros t ty s2 Ht H2; pose proof (eats_app _ _ _ _ _ H1 H2) as H02.
  all: pose proof (word_inner _ _ Hb ltac:(done) ltac:(done) ltac:(done)); pose proof (name_in _ Ht).
  2:{ next. next. apply suc_expect. intros m s3 Hm H3. next. apply suc_payload_type. intros u ty2 s4 Hu H4. apply suc_ret.
      next. apply suc_expect. intros e s5 He H5. apply suc_ret. exists ((([b] ++ [t]) ++ [m] ++ [u]) ++ [e])%list.
      split; [eapply eats_app; [eapply eats_app; [exact H02|by eapply eats_app]|done]|]. apply wrapped_inner.
      pose proof (word_inner _ _ Hm ltac:(done) ltac:(done) ltac:(done)). pose proof (word_inner _ _ He ltac:(done) ltac:(done) ltac:(done)).
      pose proof (name_in _ Hu). by repeat (constructor; [done|]). }
  all: next; apply suc_ret; next; apply suc_expect; intros e s3 He H3; apply suc_ret; exists (([b] ++ [t]) ++ [e])%list;
    (split; [by eapply eats_app|]); apply wrapped_inner; pose proof (word_inner _ _ He ltac:(done) ltac:(done) ltac:(done));
    by repeat (constructor; [done|]).
Qed.

Lemma rule_declaration types l s kd k w s1 :
  agrees types l s → is_word w k = true → w ∈ ["record"; "enum"; "option"; "result"; "slice"] → eats [k] s s1 →
  suc (declaration kd) (λ _ s', obeyed types l s s') s1.
Proof.
  intros Hs Hk Hw H1. unfold declaration. next. apply suc_name. intros n s2 Hn H2. pose proof (eats_app _ _ _ _ _ H1 H2) as H02.
  next. apply suc_read. next. apply suc_fail_if. intros [_ Hfresh%bool_decide_eq_false%eq_None_not_Some]%orb_false_iff.
  next. eapply suc_mono; [apply suc_composite_body|]. intros [[fields names] d] s3 (us & H3 & F3). pose proof (eats_app _ _ _ _ _ H02 H3) as H03.
  destruct (Descriptors.validate d) as [valid why]. next. apply suc_fail_if. intros _.
  next. apply suc_expect. intros c s4 Hc H4. pose proof (eats_app _ _ _ _ _ H03 H4) as H04. next. apply suc_write. unfold push_composite. apply suc_write.
  pose proof (agrees_eats _ _ _ _ _ Hs H04) as [Hcore Hhand]. pose proof Hcore as []. destruct (eats_footprints _ _ _ H04) as [Hf Hg].
  exists ([k; n] ++ us)%list, c, (Declares (text n)), ({[text n]} ∪ types), l, []. split_and!.
  - rewrite (eat_rest _ _ _ H04). reassoc.
  - done.
  - apply wrapped_closed, wrapped_app; [|done]. apply wrapped_inner. constructor; [|constructor; [by apply name_in|constructor]].
    eapply word_inner; [exact Hk|..]; set_solver.
  - apply word_text in Hk as [Hkt Hkq]. simpl. rewrite Hkq, Hkt. by rewrite bool_decide_eq_true_2.
  - constructor. rewrite (co_types _ _ _ (proj1 Hs)), <-(eat_composites _ _ _ H02). by apply not_elem_of_dom.
  - split; [|done]. split; try done; simpl. by rewrite dom_insert_L, co_types0.
  - rewrite app_nil_r. exact Hf.
  - rewrite app_nil_r. exact Hg.
Qed.

(** * The whole source *)

Lemma suc_dispatch ks (Q : unit → Parser → Prop) s :
  (∀ w m, (w, m) ∈ ks → sticky m ∧ ∀ k s1, is_word w k = true → eats [k] s s1 → suc m Q s1) → suc (dispatch ks) Q s.
Proof.
  induction ks as [|[w m] ks IH]; intros Hks; simpl; [apply suc_fail|].
  apply suc_bind.
  { intros []; [by apply (Hks w); left|]. apply sticky_dispatch. intros w' m' H. by eapply (Hks w'); right. }
  apply suc_take; [|intros k s1 Hk H1; eapply Hks; [by left|done..]]. apply IH. intros w' m' H. apply Hks. by right.
Qed.

Lemma rule_statement types l s : agrees types l s → suc statement (λ _ s', obeyed types l s s') s.
Proof.
  intros Hs. unfold statement. apply suc_bind.
  { intros loc. apply sticky_dispatch. intros w m Hin. unfold keywords in Hin. rewrite !elem_of_cons in Hin.
    destruct_or! Hin; try (by apply elem_of_nil in Hin); simplify_eq; eauto 2 with sticky. }
  apply suc_range. intros loc. apply suc_dispatch. intros w m Hin. unfold keywords in Hin. rewrite !elem_of_cons in Hin.
  destruct_or! Hin; try (by apply elem_of_nil in Hin); simplify_eq; (split; [eauto 2 with sticky|]); intros k s1 Hk H1.
  1-5: eapply rule_declaration; [done|exact Hk|set_solver|done].
  all: eauto using rule_owned, rule_array, rule_view, rule_print, rule_set, rule_move, rule_borrow, rule_release.
Qed.

Lemma rule_statements fuel : ∀ types l s, agrees types l s →
  suc (statements fuel) (λ _ s', ∃ items fs l' types', obeys types l items fs l' ∧ agrees types' l' s' ∧
    (∀ n, (length (rest s) ≤ n)%nat → statements_in n (rest s) = items) ∧
    footprints s' = (footprints s ++ fs)%list ∧ global_names (p s') = (global_names (p s) ++ flat_map creates (omap id items))%list) s.
Proof.
  induction fuel as [|fuel IH]; intros types l s Hs; cbn [statements]; [done|]. next. apply suc_peek. intros t Ht.
  pose proof (rest_here _ _ Ht) as Hr. destruct (is_empty (text t)) eqn:Ee.
  - apply suc_ret. exists [], [], l, types. rewrite !app_nil_r. split_and!; try done; [constructor|]. intros n Hn. rewrite Hr in *.
    destruct n as [|n]; [simpl in Hn; lia|]. simpl. by rewrite Ee.
  - next. eapply suc_mono; [by apply rule_statement|]. intros _ s1 (a & c & i & types1 & l1 & fs & B1 & Hc & Hcl & Hi & Hstep & Hs1 & B2 & B3).
    eapply suc_mono; [by apply IH|]. intros _ s2 (items & gs & l2 & types2 & C1 & C2 & C3 & C4 & C5).
    exists (Some i :: items), (fs ++ gs)%list, l2, types2. split_and!.
    + by eapply obeys_more.
    + done.
    + intros n Hn. rewrite B1 in Hn. rewrite length_app in Hn. simpl in Hn. destruct n as [|n]; [lia|].
      pose proof Hr as Hr'. rewrite Hr. cbn [statements_in]. rewrite Ee, <-Hr', B1, (Hcl c (rest s1) Hc), Hi. f_equal. apply C3. lia.
    + by rewrite C4, B2, app_assoc.
    + rewrite C5, B3. simpl. by rewrite app_assoc.
Qed.

Lemma suc_dotted fuel : ∀ s (Q : unit → Parser → Prop),
  (∀ us s', eats us s s' → Forall inner us → Q tt s') → suc (dotted fuel) Q s.
Proof.
  induction fuel as [|fuel IH]; intros s Q HQ; cbn [dotted]; [done|]. next. apply suc_take.
  - apply suc_ret, (HQ []); [apply eats_nothing|done].
  - intros d s1 Hd H1. next. apply suc_name. intros n s2 Hn H2. destruct (is_empty _); [apply suc_refuse|]. apply IH.
    intros us s3 H3 F3. apply (HQ (([d] ++ [n]) ++ us)%list); [eapply eats_app; [by eapply eats_app|done]|].
    constructor; [by eapply word_inner|]. constructor; [by apply name_in|done].
Qed.

(** What an accepted run says of its tokens. *)
Lemma rule_run s : agrees ∅ no_ledger s → at_ s = 0%nat → footprints s = [] → global_names (p s) = [] →
  suc run (λ yes s', yes = true → ∃ l, obeys ∅ no_ledger (items_of (tokens s)) (footprints s') l ∧ l_views l = ∅ ∧
    global_names (p s') = flat_map creates (omap id (items_of (tokens s)))) s.
Proof.
  intros Hs Hat Hfp Hgl. unfold run.
  next. apply suc_expect. intros t1 s1 H1 E1. next. apply suc_expect. intros t2 s2 H2 E2. next. apply suc_expect. intros t3 s3 H3 E3.
  next. apply suc_expect. intros t4 s4 H4 E4. next. apply suc_expect. intros t5 s5 H5 E5. next. apply suc_expect. intros t6 s6 H6 E6.
  next. apply suc_expect. intros c1 s7 Hc1 E7. next. apply suc_expect. intros t8 s8 H8 E8. next. apply suc_name. intros n s9 H9 E9.
  destruct (is_empty _); [apply suc_refuse|]. next. apply suc_read. next. apply suc_dotted. intros us s10 E10 F10.
  next. apply suc_expect. intros c2 s11 Hc2 E11.
  assert (eats ([t1; t2; t3; t4; t5; t6] ++ [c1] ++ ([t8; n] ++ us) ++ [c2]) s s11) as E.
  { exact (eats_app _ _ _ _ _ (eats_app _ _ _ _ _ (eats_app _ _ _ _ _ (eats_app _ _ _ _ _ (eats_app _ _ _ _ _ (eats_app _ _ _ _ _ (eats_app _ _ _ _ _ (eats_app _ _ _ _ _ (eats_app _ _ _ _ _ (eats_app _ _ _ _ _ E1 E2) E3) E4) E5) E6) E7) E8) E9) E10) E11). }
  next. eapply suc_mono; [eapply rule_statements, agrees_eats; [exact Hs|exact E]|].
  intros _ s12 (items & fs & l & types & C1 & C2 & C3 & C4 & C5). next. apply suc_read. case_decide as Hb; [|apply suc_fail].
  next. apply suc_read, suc_ret. intros _. exists l. destruct (eats_footprints _ _ _ E) as [Hf Hg].
  assert (items_of (tokens s) = items) as ->.
  { unfold items_of. replace (tokens s) with ([t1; t2; t3; t4; t5; t6] ++ c1 :: (([t8; n] ++ us) ++ c2 :: rest s11))%list.
    2:{ trans (rest s); [|unfold rest; by rewrite Hat]. rewrite (eat_rest _ _ _ E). reassoc. }
    assert (Forall inner [t1; t2; t3; t4; t5; t6]) as F1 by (repeat (constructor; [eapply word_inner; [eassumption|done..]|]); constructor).
    assert (Forall inner ([t8; n] ++ us)) as F2 by (constructor; [eapply word_inner; [eassumption|done..]|constructor; [by apply name_in|done]]).
    rewrite (closed_inner _ F1 c1 _ Hc1), (closed_inner _ F2 c2 _ Hc2). by apply C3. }
  split_and!.
  - by rewrite C4, Hf, Hfp.
  - destruct C2 as [_ [-> _]]. by rewrite Hb, fmap_empty.
  - by rewrite C5, Hg, Hgl.
Qed.

(** A run that says yes has noted nothing. *)
Lemma bound {A B} (m : Try A) (k : A → Try B) s b s2 :
  (m ≫= k) s = Done (Some b, s2) → ∃ a s1, m s = Done (Some a, s1) ∧ k a s1 = Done (Some b, s2).
Proof. unfold mbind, Try_bind. destruct (m s) as [[[a|] s1]| |]; try done. eauto. Qed.

Lemma run_is_clean s s' : run s = Done (Some true, s') → error s' = "".
Proof.
  unfold run. intros H. do 9 (apply bound in H as (? & ? & _ & H)). case_match; [done|].
  do 5 (apply bound in H as (? & ? & _ & H)). case_decide; [|apply bound in H as (? & ? & _ & H); done].
  apply bound in H as (e & s1 & [= <- <-] & H). injection H as H <-. by destruct (error _).
Qed.

Lemma new_parser_agrees file ts : scanned ts → agrees ∅ no_ledger (new_parser file ts).
Proof.
  intros [_ Hc]. split; split; simpl; try done; try lia.
  exact no_ledger_kept.
Qed.

(** ** Names are created once *)

Lemma step_creates types l i types' l' fs :
  step types l i types' l' fs →
  (∀ n, is_Some (l_values l !! n) → is_Some (l_values l' !! n)) ∧ NoDup (creates i) ∧
  ∀ n, n ∈ creates i → l_values l !! n = None ∧ is_Some (l_values l' !! n).
Proof.
  assert (∀ n t, unused l n → (∀ k, is_Some (l_values l !! k) → is_Some (<[n := t]> (l_values l) !! k)) ∧ NoDup [n] ∧
    ∀ k, k ∈ [n] → l_values l !! k = None ∧ is_Some (<[n := t]> (l_values l) !! k)) as Hnew.
  { intros n t [Hn _]. split; [by intros; apply values_grow|]. split; [apply NoDup_singleton|].
    intros k ->%list_elem_of_singleton. split; [done|]. rewrite lookup_insert_eq. by eexists. }
  assert (∀ m : gmap string string, (∀ n, is_Some (m !! n) → is_Some (m !! n)) ∧ NoDup (A := string) [] ∧
    ∀ n, n ∈ [] → m !! n = None ∧ is_Some (m !! n)) as Hsame.
  { intros m. split; [done|]. split; [constructor|]. by intros n Hn%elem_of_nil. }
  intros []; simpl; eauto.
Qed.

Lemma obeys_creates types l items fs l' :
  obeys types l items fs l' →
  NoDup (flat_map creates (omap id items)) ∧ ∀ n, n ∈ flat_map creates (omap id items) → l_values l !! n = None.
Proof.
  induction 1 as [|types l i types1 l1 fs items gs l2 Hstep _ [Hd Hn]]; simpl; [split; [constructor|by intros n ?%elem_of_nil]|].
  destruct (step_creates _ _ _ _ _ _ Hstep) as (Hk & Hdi & Hi). split.
  - apply NoDup_app. split; [done|]. split; [|done]. intros n Hc Hc'. destruct (Hi n Hc) as [_ [t Ht]]. by rewrite (Hn n Hc') in Ht.
  - intros n [Hc|Hc]%elem_of_app; [by apply Hi|]. apply eq_None_not_Some. intros [t Ht]%Hk. by rewrite (Hn n Hc) in Ht.
Qed.

(** C34.  An accepted value source obeys the ownership rules, statement by
    statement.  Its statements ([items_of]) are read from its tokens alone, up to
    the end of the file or an empty string literal.  From an empty ledger of
    values, moves and borrows, each statement is one that the rules ([step]) allow
    on the ledger that the statements before it left: it reads only values that
    exist, were not moved out since they were last written and are not lent to a
    writer, or borrows that have not been released; it writes a value that nobody
    has borrowed or, through a borrow for writing, the value that is lent; it
    moves out of a value that was not moved and is not borrowed into a new name;
    it borrows a value that was not moved, for writing when nobody has borrowed
    it and for reading when no writer has; it creates values under names that
    neither a value nor a borrow has; it releases a borrow that there is, and a
    view with it.  (A write, also of one field, makes a moved value readable
    again.)  The lowered statements read and write exactly the
    values that the source statements mention, borrows standing for the values
    they are on; no borrow is left at the end; and the globals are the values the
    statements create, in their order and with different names. *)
Theorem value_sources_obey_ownership limits file source program :
  lowerValueSource limits file (Some source) = Done (inr program) →
  ∃ tokens l,
    scan limits (S (String.length source)) source 1 [] = Done (inr tokens) ∧
    obeys ∅ no_ledger (items_of tokens) (map footprint_of (body_of program)) l ∧ l_views l = ∅ ∧
    global_names program = flat_map creates (omap id (items_of tokens)) ∧ NoDup (global_names program).
Proof.
  unfold lowerValueSource. destruct (_ <? _); [done|].
  pose proof (scan_total limits (S (String.length source)) source 1 [] ltac:(lia) ltac:(simpl; lia)) as Hscan.
  destruct (scan _ _ _ _ _) as [[[why line]|tokens]| |]; [done| |done..].
  destruct (run _) as [[[[]|] s]| |] eqn:Hrun; try done. intros [= <-].
  destruct (rule_run _ (new_parser_agrees file _ Hscan) eq_refl eq_refl eq_refl _ _ Hrun (run_is_clean _ _ Hrun) eq_refl) as (l & Ho & Hv & Hg).
  exists tokens, l. split_and!; [done..|]. rewrite Hg. by apply obeys_creates in Ho as [? _].
Qed.

(** * Sources *)

Definition production_limits : ParserLimits := {|
  max_source_bytes := MaxSourceBytes; max_scanner_matches := MaxScannerMatches; max_token_bytes := MaxTokenBytes;
  max_nesting_depth := MaxNestingDepth |}.

Definition literal (s : string) : string := String chr_quote s +:+ String chr_quote "".

(** The source with the given lines after the preamble. *)
Definition source_with (lines : list string) : option string :=
  Some (join_with (String chr_newline "")
          (["language shorthand.enterprise_language.v2;"; "namespace test.values; # comment"] ++ lines)%list).

Abbreviation lowered lines := (lowerValueSource production_limits "a.short" (source_with lines)).

(** Values of every type, borrows, a move and a view. *)
Definition values_source : list string :=
  ["record Evidence { float64 energy_j; bool quality_passed; string id; };"; "enum State { success; failed; };";
   "option MaybeScore<float64>;"; "result Prediction<float64,string>;"; "slice Scores<float64>;";
   "owned Evidence pending = Evidence(12.5, true, " +:+ literal "inference #42 // measured" +:+ ");";
   "borrow shared pending as audit;"; "print audit.energy_j, audit.id;"; "release audit;"; "move pending to verified;";
   "borrow mutable verified as writer;"; "set writer.energy_j = 10.25;"; "release writer;"; "owned State status = State.success;";
   "owned MaybeScore score = MaybeScore.some(0.95);"; "owned Prediction failure = Prediction.error(" +:+ literal "none" +:+ ");";
   "print status.tag, score.value, failure.error;"; "array float64 inputs[3] = [2.0, 4.0, 6.0];"; "view Scores selected = inputs[1, 2];";
   "print selected[0];"; "release selected;"; "set inputs[1] = 5.0;"].

(** What the lowering refuses, with the diagnostic. *)
Example refused_sources :
  map (λ lines, match lowered ("record R { int32 value; }; owned R a = R(1);" :: lines) with Done (inl (why, line)) => (why, line) | _ => ("", 0) end)
    [["move a to b;"; "print a.value;"]; ["borrow shared a as r;"; "move a to b;"]; ["borrow shared a as r;"; "set r.value = 2;"];
     ["borrow mutable a as w;"; "print a.value;"]; ["owned R b = a;"]; ["borrow shared a as r;"]; ["print a.missing;"]; ["print R(1"]] =
  [("SHD3016 use after move of value `a`", 5); ("SHD3016 move requires an owned value with no active borrow", 5);
   ("shared borrow is immutable", 5); ("SHD3016 owner read is forbidden during a mutable borrow of `a`", 5);
   ("owned composite requires constructor or move", 4); ("all borrows/views must be released", 4);
   ("unknown composite field", 4); ("expected `)`", 4)].
Proof. vm_compute. reflexivity. Qed.

Lemma value_sources_obey_ownership_witness :
  ∃ source program, source_with values_source = Some source ∧ lowered values_source = Done (inr program) ∧
    length (body_of program) = 14%nat ∧
    ∃ tokens l,
      scan production_limits (S (String.length source)) source 1 [] = Done (inr tokens) ∧
      obeys ∅ no_ledger (items_of tokens) (map footprint_of (body_of program)) l ∧ l_views l = ∅ ∧
      global_names program = flat_map creates (omap id (items_of tokens)) ∧ NoDup (global_names program).
Proof.
  assert (match lowered values_source with Done (inr program) => length (body_of program) = 14%nat | _ => False end) as Hrun
    by (vm_compute; reflexivity).
  destruct (source_with values_source) as [source|] eqn:Hs; [|discriminate Hs].
  destruct (lowerValueSource production_limits "a.short" (Some source)) as [[e|program]|r|] eqn:H; [destruct Hrun| |destruct Hrun..].
  exists source, program. split; [reflexivity|]. split; [reflexivity|]. split; [exact Hrun|].
  exact (value_sources_obey_ownership production_limits "a.short" source program H).
Defined.

(** Two sources are accepted although their contract forbids them.  Updating
    one field of a record that has been moved out makes the whole record readable
    again, so a field that was moved is printed, and the IR verifier agrees.  And
    an empty string literal where a statement should start ends the program: the
    rest of the file is never parsed, whatever it says. *)
Example sources_accepted_against_the_contract :
  (∃ program,
     lowered ["record R { int32 x; int32 y; };"; "owned R a = R(1, 2);"; "move a to b;"; "set a.x = 5;"; "print a.y;"] =
       Done (inr program) ∧
     verifySemanticIR program = Done (true, "") ∧ reads_of <$> last (body_of program) = Some ["a"]) ∧
  (∃ program,
     lowered ["owned int32 x = 1;"; literal "" +:+ " nothing here is parsed: print missing; owned owned"] = Done (inr program) ∧
     verifySemanticIR program = Done (true, "") ∧ length (body_of program) = 1%nat ∧ global_names program = ["x"]).
Proof. split; (eexists; split; [vm_compute; reflexivity|]); repeat split; vm_compute; reflexivity. Qed.
