(* ===== verification/FloatOrder.v ===== *)
(** The order of IEEE values that are not NaN: the comparison of [spec_float] is
    the lexicographic order of a rank. *)
From Stdlib Require Import SpecFloat.
From S2P Require Import Prelude CxxFloat.
Open Scope Z_scope.

Definition not_nan (d : double) : bool := match d with S754_nan => false | _ => true end.

(** Class, exponent and mantissa, negated below zero. *)
Definition rank (d : double) : Z * Z * Z :=
  match d with
  | S754_zero _ => (0, 0, 0)
  | S754_infinity s => (if s then -2 else 2, 0, 0)
  | S754_finite s m e => if s then (-1, - e, Z.neg m) else (1, e, Z.pos m)
  | S754_nan => (3, 0, 0)
  end.

Definition rank_lt (a b : Z * Z * Z) : Prop :=
  a.1.1 < b.1.1 ∨ (a.1.1 = b.1.1 ∧ (a.1.2 < b.1.2 ∨ (a.1.2 = b.1.2 ∧ a.2 < b.2))).

Lemma rank_lt_trans a b c : rank_lt a b → rank_lt b c → rank_lt a c.
Proof. unfold rank_lt. lia. Qed.

Lemma rank_lt_irrefl a : ¬ rank_lt a a.
Proof. unfold rank_lt. lia. Qed.

Lemma rank_lt_total a b : rank_lt a b ∨ a = b ∨ rank_lt b a.
Proof. destruct a as [[a1 a2] a3], b as [[b1 b2] b3]. unfold rank_lt. cbn. 
  destruct (Z.lt_total a1 b1) as [|[->|]], (Z.lt_total a2 b2) as [|[->|]], (Z.lt_total a3 b3) as [|[->|]]; auto with lia. Qed.

Lemma compare_rank x y : not_nan x = true → not_nan y = true →
  match SFcompare x y with
  | Some Lt => rank_lt (rank x) (rank y)
  | Some Eq => rank x = rank y
  | Some Gt => rank_lt (rank y) (rank x)
  | None => False
  end.
Proof.
  destruct x as [sx|sx| |sx mx ex], y as [sy|sy| |sy my ey]; try done; intros _ _; cbn;
    repeat match goal with s : bool |- _ => destruct s end; unfold rank_lt; cbn; try lia; try done.
  - change (ex ?= ey) with (Z.compare ex ey). destruct (Z.compare_spec ex ey); [|lia..]. subst.
    change (Pos.compare_cont Eq mx my) with (Pos.compare mx my).
    destruct (Pos.compare_spec mx my); cbn; [by subst|lia..].
  - change (ex ?= ey) with (Z.compare ex ey). destruct (Z.compare_spec ex ey); [|lia..]. subst.
    change (Pos.compare_cont Eq mx my) with (Pos.compare mx my).
    destruct (Pos.compare_spec mx my); [by subst|lia..].
Qed.

Lemma dltb_rank x y : not_nan x = true → not_nan y = true → dltb x y = true ↔ rank_lt (rank x) (rank y).
Proof.
  intros Hx Hy. pose proof (compare_rank x y Hx Hy) as H. unfold dltb, SFltb.
  destruct (SFcompare x y) as [[]|]; try done; split; intros H'; try done.
  - rewrite H in H'. by destruct (rank_lt_irrefl _ H').
  - by destruct (rank_lt_irrefl _ (rank_lt_trans _ _ _ H H')).
Qed.

Lemma dleb_negb_dltb x y : not_nan x = true → not_nan y = true → dleb x y = negb (dltb y x).
Proof.
  intros Hx Hy. pose proof (compare_rank x y Hx Hy) as H. pose proof (compare_rank y x Hy Hx) as H'.
  unfold dleb, SFleb, dltb, SFltb.
  destruct (SFcompare x y) as [[]|], (SFcompare y x) as [[]|]; try done; exfalso.
  - rewrite H in H'. by apply rank_lt_irrefl in H'.
  - exact (rank_lt_irrefl _ (rank_lt_trans _ _ _ H H')).
  - rewrite H' in H. by apply rank_lt_irrefl in H.
  - exact (rank_lt_irrefl _ (rank_lt_trans _ _ _ H H')).
Qed.

Lemma isfinite_not_nan d : isfinite d = true → not_nan d = true.
Proof. by destruct d. Qed.

Lemma deqb_refl d : not_nan d = true → deqb d d = true.
Proof.
  intros Hd. pose proof (compare_rank d d Hd Hd) as H. unfold deqb, SFeqb.
  destruct (SFcompare d d) as [[]|]; try done; by apply rank_lt_irrefl in H.
Qed.
