(* ===== verification/Energy.v ===== *)
(** Component: energy measurements (ai_runtime/energy/EnergyMeasurement.h and
    .cpp): counters that wrap, normalisation per functional unit, and the test
    whether a measurement may support a claim.

    The clocks are arguments; a [steady_clock] time point is its count of
    nanoseconds.  A function that throws is an [Ex]. *)
From Stdlib Require Import SpecFloat.
From S2P Require Import Prelude CxxInt CxxString CxxFloat C3EcoSemantics C3EcoFacts.
Open Scope string_scope.
Open Scope Z_scope.

(** * Data *)

Inductive EvidenceClass := Unavailable | Measured | SyntheticTest | Estimate.
#[export] Instance EvidenceClass_eq_dec : EqDecision EvidenceClass.
Proof. solve_decision. Defined.

Record Instrument := {
  instrument_id : string; calibration_id : string; calibration_date : string; validation_ref : string;
  boundary : string; isolation : string; uncertainty_percent : option double; maximum_power_w : double;
}.

Record DomainReading := {
  domain_id : string; domain_name : string; counter_uj : Z; range_uj : option Z; contributes : bool;
}.

Record EnergySample := {
  s_available : bool; s_reason : string; unix_seconds : double; monotonic : Z; s_domains : list DomainReading;
}.

Record DomainMeasurement := { dm_start : DomainReading; dm_end : DomainReading; dm_joules : double }.

Record EnergyMeasurement := {
  available : bool; evidence_class : EvidenceClass; source_kind : string; reason : string; instrument : Instrument;
  start_unix_seconds : double; end_unix_seconds : double; elapsed_seconds : double;
  joules : double; average_watts : double; joules_per_fu : double; functional_units : Z;
  sample_count : Z; maximum_sample_gap_seconds : double;
  source_sample_count : Z; maximum_source_gap_seconds : double; trace_sha256 : string;
  domains : list DomainMeasurement; power_samples : list (double * double);
}.

Definition default_instrument : Instrument := {|
  instrument_id := ""; calibration_id := ""; calibration_date := ""; validation_ref := "";
  boundary := "cpu_packages"; isolation := "concurrent workload state unknown";
  uncertainty_percent := None; maximum_power_w := dzero |}.

Definition new_sample : EnergySample := {|
  s_available := false; s_reason := "telemetry_unavailable"; unix_seconds := dzero; monotonic := 0; s_domains := [] |}.

(** [EnergyMeasurement m;] *)
Definition new_measurement : EnergyMeasurement := {|
  available := false; evidence_class := Unavailable; source_kind := "unavailable"; reason := "telemetry_unavailable";
  instrument := default_instrument; start_unix_seconds := dzero; end_unix_seconds := dzero; elapsed_seconds := dzero;
  joules := dzero; average_watts := dzero; joules_per_fu := dzero; functional_units := 0;
  sample_count := 0; maximum_sample_gap_seconds := dzero; source_sample_count := 0; maximum_source_gap_seconds := dzero;
  trace_sha256 := ""; domains := []; power_samples := [] |}.

(** The assignments the functions below make. *)
Definition with_energy (j watts per_fu : double) (count : Z) (m : EnergyMeasurement) : EnergyMeasurement := {|
  available := available m; evidence_class := evidence_class m; source_kind := source_kind m; reason := reason m;
  instrument := instrument m; start_unix_seconds := start_unix_seconds m; end_unix_seconds := end_unix_seconds m;
  elapsed_seconds := elapsed_seconds m; joules := j; average_watts := watts; joules_per_fu := per_fu;
  functional_units := count; sample_count := sample_count m; maximum_sample_gap_seconds := maximum_sample_gap_seconds m;
  source_sample_count := source_sample_count m; maximum_source_gap_seconds := maximum_source_gap_seconds m;
  trace_sha256 := trace_sha256 m; domains := domains m; power_samples := power_samples m |}.

Definition with_status (a : bool) (c : EvidenceClass) (why : string) (ds : list DomainMeasurement) (m : EnergyMeasurement)
    : EnergyMeasurement := {|
  available := a; evidence_class := c; source_kind := source_kind m; reason := why;
  instrument := instrument m; start_unix_seconds := start_unix_seconds m; end_unix_seconds := end_unix_seconds m;
  elapsed_seconds := elapsed_seconds m; joules := joules m; average_watts := average_watts m; joules_per_fu := joules_per_fu m;
  functional_units := functional_units m; sample_count := sample_count m;
  maximum_sample_gap_seconds := maximum_sample_gap_seconds m; source_sample_count := source_sample_count m;
  maximum_source_gap_seconds := maximum_source_gap_seconds m; trace_sha256 := trace_sha256 m; domains := ds;
  power_samples := power_samples m |}.

(** * Counters *)

(** The differences and the sum are those of [uint64_t]. *)
Definition counterDelta (start end_ : Z) (range : option Z) : Ex Z :=
  throw_if (match range with Some r => (r =? 0) || (r <=? start) || (r <=? end_) | None => false end) "counter_out_of_range";;
  if start <=? end_ then mret (u64 (end_ - start))
  else match range with
       | None => throw "counter_wrap_without_range"
       | Some r => mret (u64 (u64 (r - start) + end_))
       end.

(** The measurement as [normalize] leaves it, and what it throws. *)
Definition normalize (m : EnergyMeasurement) (count : Z) : EnergyMeasurement * Ex unit :=
  if (count =? 0) || (2 ^ 53 <? count) then (m, throw "invalid_functional_units")
  else if negb (isfinite (elapsed_seconds m)) || dleb (elapsed_seconds m) dzero || negb (isfinite (joules m)) ||
          dltb (joules m) dzero
  then (m, throw "invalid_energy_or_elapsed_time")
  else
    let m := with_energy (joules m) (ddiv (joules m) (elapsed_seconds m)) (ddiv (joules m) (double_of_Z count)) count m in
    (m, throw_if (negb (isfinite (average_watts m)) || negb (isfinite (joules_per_fu m))) "energy_normalization_overflow").

(** * Dates *)

Definition days_of_months : list Z := [0; 31; 28; 31; 30; 31; 30; 31; 31; 30; 31; 30; 31].

(** [std::stoi] on the digits of the text is [atoi]. *)
Definition validDate (s : string) : bool :=
  if negb (str_size s =? 10) || negb (bool_decide (String.get 4 s = Some "-"%char)) ||
     negb (bool_decide (String.get 7 s = Some "-"%char)) then false
  else if negb (date_digits 0 s) then false
  else
    let y := atoi (String.substring 0 4 s) in
    let m := atoi (String.substring 5 2 s) in
    let d := atoi (String.substring 8 2 s) in
    (2000 <=? y) && (y <=? 2100) && (1 <=? m) && (m <=? 12) && (1 <=? d) &&
    (d <=? default 0 (days_of_months !! Z.to_nat m) +
           (if (m =? 2) && (Z.rem y 4 =? 0) && (negb (Z.rem y 100 =? 0) || (Z.rem y 400 =? 0)) then 1 else 0)).

(** The fields of [std::tm] that are printed; [tm_year] is the full year. *)
Record tm := { tm_date : date; tm_hour : Z; tm_min : Z; tm_sec : Z }.

Definition year_days (y : Z) : Z := if c3EcoLeapYear y then 366 else 365.

(** The year of the day that is [day] days after the first of January of [y]. *)
Fixpoint year_of (fuel : nat) (y day : Z) : Z * Z :=
  match fuel with
  | O => (y, day)
  | S fuel => if day <? year_days y then (y, day) else year_of fuel (y + 1) (day - year_days y)
  end.

Definition month_lengths (y : Z) : list Z :=
  [31; if c3EcoLeapYear y then 29 else 28; 31; 30; 31; 30; 31; 31; 30; 31; 30; 31].

Fixpoint month_of (lengths : list Z) (m day : Z) : Z * Z :=
  match lengths with
  | [] => (m, day)
  | len :: rest => if day <? len then (m, day) else month_of rest (m + 1) (day - len)
  end.

(** [gmtime_r] of a time that is not negative: the Gregorian calendar.  From the
    epoch to a day there are no more years than days. *)
Definition gmtime (time : Z) : tm :=
  let days := time / 86400 in
  let seconds := time mod 86400 in
  let '(y, day) := year_of (S (Z.to_nat (days / 365))) 1970 days in
  let '(m, day) := month_of (month_lengths y) 1 day in
  {| tm_date := {| d_year := y; d_month := m; d_day := day + 1 |};
     tm_hour := seconds / 3600; tm_min := seconds / 60 mod 60; tm_sec := seconds mod 60 |}.

Definition isoTimestamp (v : double) : Ex string :=
  throw_if (negb (isfinite v) || dltb v (double_of_Z 946684800) || dltb (double_of_Z 4102444800) v) "timestamp_out_of_range";;
  let utc := gmtime (dtrunc v) in
  mret (date_text (tm_date utc) +:+ "T" +:+ padded 2 (tm_hour utc) +:+ ":" +:+ padded 2 (tm_min utc) +:+ ":" +:+
        padded 2 (tm_sec utc) +:+ "Z").

(** * Claims *)

Definition claim_source (kind : string) : bool :=
  String.eqb kind "rapl" || String.eqb kind "physical_meter" || String.eqb kind "accelerator_counter".

Definition uncertainty_declared (i : Instrument) : bool :=
  match uncertainty_percent i with
  | None => false
  | Some u => isfinite u && negb (dltb u dzero) && negb (dltb (double_of_Z 100) u)
  end.

Definition claimEligible (m : EnergyMeasurement) : bool :=
  let i := instrument m in
  if negb (available m) || negb (bool_decide (evidence_class m = Measured)) || negb (claim_source (source_kind m)) ||
     negb (isfinite (joules m)) || dleb (joules m) dzero || negb (isfinite (elapsed_seconds m)) ||
     dleb (elapsed_seconds m) dzero || (functional_units m =? 0) || (2 ^ 53 <? functional_units m) ||
     negb (isfinite (joules_per_fu m)) || dleb (joules_per_fu m) dzero ||
     negb (deqb (joules_per_fu m) (ddiv (joules m) (double_of_Z (functional_units m)))) ||
     negb (isfinite (average_watts m)) || negb (deqb (average_watts m) (ddiv (joules m) (elapsed_seconds m))) ||
     negb (isfinite (start_unix_seconds m)) || negb (isfinite (end_unix_seconds m)) ||
     dleb (end_unix_seconds m) (start_unix_seconds m) || negb (uncertainty_declared i) ||
     is_empty (instrument_id i) || is_empty (calibration_id i) || is_empty (validation_ref i) ||
     is_empty (boundary i) || is_empty (isolation i) || negb (validDate (calibration_date i)) then false
  else match isoTimestamp (start_unix_seconds m) with
       | inl _ => false
       | inr text => String.leb (calibration_date i) (String.substring 0 10 text)
       end.

Definition evidenceClassName (v : EvidenceClass) : string :=
  match v with
  | Measured => "measured"
  | SyntheticTest => "synthetic_test"
  | Estimate => "estimate"
  | Unavailable => "unavailable"
  end.

(** * The collector of a host without telemetry *)

(** [duration<double>(later - earlier).count()]: the difference in nanoseconds,
    as a double, divided by a thousand million. *)
Definition seconds_between (earlier later : Z) : double := ddiv (double_of_Z (later - earlier)) (double_of_Z 1000000000).

Definition unavailable_begin (now : double) (clock : Z) : EnergySample := {|
  s_available := false; s_reason := "telemetry_unavailable"; unix_seconds := now; monotonic := clock; s_domains := [] |}.

Definition unavailable_end (s : EnergySample) (count : Z) (now : double) (clock : Z) : Ex EnergyMeasurement :=
  throw_if (count =? 0) "invalid_functional_units";;
  mret {|
    available := false; evidence_class := Unavailable; source_kind := "unavailable"; reason := "telemetry_unavailable";
    instrument := default_instrument; start_unix_seconds := unix_seconds s; end_unix_seconds := now;
    elapsed_seconds := seconds_between (monotonic s) clock; joules := dzero; average_watts := dzero; joules_per_fu := dzero;
    functional_units := count; sample_count := 0; maximum_sample_gap_seconds := dzero; source_sample_count := 0;
    maximum_source_gap_seconds := dzero; trace_sha256 := ""; domains := []; power_samples := [] |}.

Example timestamps :
  map (λ z, isoTimestamp (double_of_Z z)) [946684800; 951827696; 1709208000; 4102444800] =
  [inr "2000-01-01T00:00:00Z"; inr "2000-02-29T12:34:56Z"; inr "2024-02-29T12:00:00Z"; inr "2100-01-01T00:00:00Z"].
Proof. vm_compute. reflexivity. Qed.
