(* ===== verification/EnergyCollectors.v ===== *)
(** Component: the collectors of energy measurements
    (ai_runtime/energy/PowercapEnergyCollector.cpp and ExternalMeterCollector.cpp).

    The power-cap tree, the meter file and the clocks are arguments.  [long double]
    is the class [LongDouble] of formats: the width is the implementation's choice.
    A computation that can be undefined or run out of fuel, and can throw, is an
    [outcome] of an [Ex]. *)
From Stdlib Require Import SpecFloat.
From stdpp Require Import sorting.
From S2P Require Import Prelude CxxInt CxxString CxxFloat CxxPath Sha256 ModuleResolver Energy.
Open Scope string_scope.
Open Scope Z_scope.

(** * The floating-point format [long double] *)

Class LongDouble := { ld_prec : Z; ld_emax : Z }.

(** The extended format of x86. *)
Definition x87 : LongDouble := {| ld_prec := 64; ld_emax := 16384 |}.

(** The conversion of a value to a format. *)
Definition convert (prec emax : Z) (d : spec_float) : spec_float :=
  match d with
  | S754_finite s m e => binary_round prec emax s m e
  | _ => d
  end.

Definition double_of_ld (d : spec_float) : double := convert 53 1024 d.
Definition float_max (a b : double) : double := if dltb a b then b else a.

Section LongArithmetic.
Context `{LongDouble}.

Definition ld_of_double (d : double) : spec_float := convert ld_prec ld_emax d.
Definition ld_of_Z (z : Z) : spec_float := binary_normalize ld_prec ld_emax z 0 false.
Definition ld_add : spec_float → spec_float → spec_float := SFadd ld_prec ld_emax.
Definition ld_sub : spec_float → spec_float → spec_float := SFsub ld_prec ld_emax.
Definition ld_mul : spec_float → spec_float → spec_float := SFmul ld_prec ld_emax.
Definition ld_div : spec_float → spec_float → spec_float := SFdiv ld_prec ld_emax.

End LongArithmetic.

(** * The power-cap tree *)

(** What reading an attribute file finds; [Bytes] holds at most the 513 bytes of
    the buffer. *)
Inductive Attribute := AttributeSymlink | AttributeUnreadable | AttributeBad | Bytes (text : string).

(** The answers of the file system; [statfs_sysfs] is [None] where the platform
    is not Linux.  [directory] lists the paths in a directory and says which of
    them are directories. *)
Record PowercapTree := {
  root_is_directory : bool; statfs_sysfs : option bool; canonical : string → Ex string; exists_path : string → bool;
  attribute : string → Attribute; directory : string → Ex (list (string * bool));
}.

Record PowercapEnergyCollector := { root_ : string; instrument_ : Instrument; evidence_class_ : EvidenceClass }.

Definition measured_collector (i : Instrument) : PowercapEnergyCollector :=
  {| root_ := "/sys/class/powercap"; instrument_ := i; evidence_class_ := Measured |}.
Definition forTesting (p : string) (i : Instrument) : PowercapEnergyCollector :=
  {| root_ := p; instrument_ := i; evidence_class_ := SyntheticTest |}.

Fixpoint starts_with_elements (a b : list string) : bool :=
  match b, a with
  | [], _ => true
  | _ :: _, [] => false
  | y :: b, x :: a => String.eqb x y && starts_with_elements a b
  end.

Definition below (p root : string) : bool := starts_with_elements (path_elements p) (path_elements root).

Definition is_line_end (c : ascii) : bool := (c =? chr_newline)%char || (c =? "013")%char.
Definition is_control (c : ascii) : bool := (CxxString.code c <? 32)%N || (CxxString.code c =? 127)%N.

Definition readSmall (fs : PowercapTree) (p : string) : Ex string :=
  match attribute fs p with
  | AttributeSymlink => throw "powercap_attribute_symlink"
  | AttributeUnreadable => throw "powercap_read_failed"
  | AttributeBad => throw "malformed_powercap_data"
  | Bytes text =>
      throw_if (512 <? str_size text) "malformed_powercap_data";;
      let s := drop_while_end is_line_end text in
      throw_if (is_empty s || negb (string_forallb (λ c, negb (is_control c)) s)) "malformed_powercap_data";;
      mret s
  end.

(** [from_chars] of an unsigned integer: digits only, and a value of the type. *)
Definition readCounter (fs : PowercapTree) (p : string) : Ex Z :=
  s ← readSmall fs p;
  let '(v, n, rest) := scan_digits 0 0 s in
  throw_if ((n =? 0) || (SIZE_MAX <? v) || negb (is_empty rest)) "malformed_powercap_counter";;
  mret v.

(** The reading of a directory that holds a counter. *)
Definition read_domain (fs : PowercapTree) (p : string) : Ex DomainReading :=
  name ← (if exists_path fs (path_join p "name") then readSmall fs (path_join p "name") else mret (filename p));
  counter ← readCounter fs (path_join p "energy_uj");
  range ← (if exists_path fs (path_join p "max_energy_range_uj")
           then v ← readCounter fs (path_join p "max_energy_range_uj"); mret (Some v) else mret None);
  counterDelta counter counter range;;
  mret {| domain_id := p; domain_name := name; counter_uj := counter; range_uj := range;
          contributes := String.prefix "package-" name |}.

Definition children (entries : list (string * bool)) : list string :=
  map fst (filter (λ e : string * bool, contains "rapl" (filename e.1) && e.2 = true) entries).

(** One turn of the loop of [readDomains] with the path at the back of [pending]:
    the new vector, the visited set and the domains.  The back of the vector is the
    head of the list. *)
Definition visit_path (fs : PowercapTree) (root allowed path : string) (pending : list string) (visited : gset string)
    (out : list DomainReading) : Ex (list string * gset string * list DomainReading) :=
  p ← canonical fs path;
  throw_if (negb (String.eqb p root) && negb (below p allowed)) "powercap_path_escape";;
  if decide (p ∈ visited) then mret (pending, visited, out)
  else
    let visited := {[p]} ∪ visited in
    throw_if (512 <? Z.of_nat (size visited)) "too_many_powercap_domains";;
    out ← (if exists_path fs (path_join p "energy_uj") then d ← read_domain fs p; mret (out ++ [d])%list else mret out);
    entries ← directory fs p;
    mret (rev (children entries) ++ pending, visited, out)%list.

Fixpoint walk_tree (fuel : nat) (fs : PowercapTree) (root allowed : string) (pending : list string) (visited : gset string)
    (out : list DomainReading) : outcome (Ex (list DomainReading)) :=
  match pending with
  | [] => Done (mret out)
  | path :: pending =>
      match fuel with
      | O => OutOfFuel
      | S fuel =>
          match visit_path fs root allowed path pending visited out with
          | inl why => Done (throw why)
          | inr (pending, visited, out) => walk_tree fuel fs root allowed pending visited out
          end
      end
  end.

Definition id_le (a b : DomainReading) : Prop := String.leb (domain_id a) (domain_id b) = true.
#[export] Instance id_le_dec a b : Decision (id_le a b).
Proof. unfold id_le. apply _. Defined.

Fixpoint package_names (packages : gset string) (out : list DomainReading) : Ex (gset string) :=
  match out with
  | [] => mret packages
  | d :: out =>
      if contributes d then
        throw_if (bool_decide (domain_name d ∈ packages)) "overlapping_package_domains";;
        package_names ({[domain_name d]} ∪ packages) out
      else package_names packages out
  end.

Definition check_packages (out : list DomainReading) : Ex (list DomainReading) :=
  let out := merge_sort id_le out in
  packages ← package_names ∅ out;
  throw_if (bool_decide (packages = ∅)) "no_cpu_package_energy_domains";;
  mret out.

Definition check_root (c : PowercapEnergyCollector) (fs : PowercapTree) : Ex string :=
  throw_if (negb (root_is_directory fs)) "powercap_unavailable";;
  (if decide (evidence_class_ c = Measured) then
     match statfs_sysfs fs with
     | None => throw "powercap_unsupported_platform"
     | Some ok => throw_if (negb ok) "powercap_not_sysfs"
     end
   else mret tt);;
  canonical fs (root_ c).

Definition readDomains (fuel : nat) (c : PowercapEnergyCollector) (fs : PowercapTree) : outcome (Ex (list DomainReading)) :=
  match check_root c fs with
  | inl why => Done (throw why)
  | inr root =>
      let allowed := if decide (evidence_class_ c = Measured) then "/sys/devices" else root in
      match walk_tree fuel fs root allowed [root_ c] ∅ [] with
      | Done r => Done (r ≫= check_packages)
      | Undefined why => Undefined why
      | OutOfFuel => OutOfFuel
      end
  end.

(** [begin], from the clocks and the result of [readDomains]. *)
Definition powercap_begin (now : double) (clock : Z) (read : Ex (list DomainReading)) : EnergySample :=
  match read with
  | inr ds => {| s_available := true; s_reason := "counter_sampled"; unix_seconds := now; monotonic := clock; s_domains := ds |}
  | inl why => {| s_available := false; s_reason := why; unix_seconds := now; monotonic := clock; s_domains := [] |}
  end.

(** * The measurement of two samples of counters *)

Definition same_domain (x y : DomainReading) : bool :=
  String.eqb (domain_id x) (domain_id y) && String.eqb (domain_name x) (domain_name y) &&
  bool_decide (range_uj x = range_uj y) && Bool.eqb (contributes x) (contributes y).

Definition joules_of (uj : Z) : double := ddiv (double_of_Z uj) (double_of_Z 1000000).

(** The window may hold a whole turn of the counter, or its power is unbounded. *)
Definition wrap_unqualified (i : Instrument) (elapsed : double) (range : option Z) : bool :=
  match range with
  | None => true
  | Some r => negb (isfinite (maximum_power_w i)) || dleb (maximum_power_w i) dzero ||
              dleb (joules_of r) (dmul elapsed (maximum_power_w i))
  end.

Definition measure_domain (c : PowercapEnergyCollector) (elapsed : double) (x y : DomainReading) (total : double)
    : Ex (double * DomainMeasurement) :=
  throw_if (negb (same_domain x y)) "powercap_domains_changed";;
  delta ← counterDelta (counter_uj x) (counter_uj y) (range_uj x);
  let j := joules_of delta in
  let bound := dmul elapsed (maximum_power_w (instrument_ c)) in
  total ← (if contributes x then
             throw_if (bool_decide (evidence_class_ c = Measured) && wrap_unqualified (instrument_ c) elapsed (range_uj x))
               "counter_wrap_interval_unqualified";;
             throw_if (dltb dzero (maximum_power_w (instrument_ c)) && dltb bound j) "counter_delta_exceeds_validated_power_bound";;
             mret (dadd total j)
           else mret total);
  mret (total, {| dm_start := x; dm_end := y; dm_joules := j |}).

Fixpoint measure_domains (c : PowercapEnergyCollector) (elapsed : double) (a b : list DomainReading) (total : double)
    (ds : list DomainMeasurement) : Ex (double * list DomainMeasurement) :=
  match a, b with
  | x :: a, y :: b =>
      r ← measure_domain c elapsed x y total;
      measure_domains c elapsed a b r.1 (ds ++ [r.2])%list
  | _, _ => mret (total, ds)
  end.

(** The measurement before the domains are compared. *)
Definition powercap_window (c : PowercapEnergyCollector) (a b : EnergySample) (count : Z) : EnergyMeasurement :=
  let elapsed := seconds_between (monotonic a) (monotonic b) in {|
    available := false; evidence_class := Unavailable; source_kind := "rapl";
    reason := if s_available a then s_reason b else s_reason a; instrument := instrument_ c;
    start_unix_seconds := unix_seconds a; end_unix_seconds := unix_seconds b; elapsed_seconds := elapsed;
    joules := dzero; average_watts := dzero; joules_per_fu := dzero; functional_units := count; sample_count := 2;
    maximum_sample_gap_seconds := elapsed; source_sample_count := 0; maximum_source_gap_seconds := dzero;
    trace_sha256 := ""; domains := []; power_samples := [] |}.

(** [end]; [b] is the sample that its call of [begin] takes. *)
Definition powercap_end (c : PowercapEnergyCollector) (a b : EnergySample) (count : Z) : Ex EnergyMeasurement :=
  throw_if (count =? 0) "invalid_functional_units";;
  let m := powercap_window c a b count in
  let failed why (m : EnergyMeasurement) := with_status false Unavailable why [] (with_energy dzero dzero dzero count m) in
  if negb (s_available a) || negb (s_available b) then mret m
  else
    match
      throw_if (negb (length (s_domains a) =? length (s_domains b))%nat) "powercap_domains_changed";;
      measure_domains c (elapsed_seconds m) (s_domains a) (s_domains b) dzero []
    with
    | inl why => mret (failed why m)
    | inr (total, ds) =>
        let m := with_status false Unavailable (reason m) ds (with_energy total dzero dzero count m) in
        match normalize m count with
        | (m, inl why) => mret (failed why m)
        | (m, inr _) => mret (with_status true (evidence_class_ c) "package_energy_not_process_attributed" (domains m) m)
        end
    end.

(** * Physical meters *)

Definition PowerSample : Type := double * double.

Section Meter.
Context `{LongDouble}.

(** The loop over the samples: the largest gap and the integral. *)
Fixpoint integrate_loop (prev : option PowerSample) (s : list PowerSample) (gap : double) (sum : spec_float)
    : Ex (double * spec_float) :=
  match s with
  | [] => mret (gap, sum)
  | (time, watts) :: rest =>
      throw_if (negb (isfinite time) || negb (isfinite watts) || dltb watts dzero) "invalid_meter_sample";;
      isoTimestamp time;;
      match prev with
      | None => integrate_loop (Some (time, watts)) rest gap sum
      | Some (time0, watts0) =>
          let dt := dsub time time0 in
          throw_if (dleb dt dzero || negb (isfinite dt)) "nonmonotonic_meter_timestamps";;
          let area := ld_mul (ld_mul (ld_add (ld_of_double watts) (ld_of_double watts0)) (ld_of_double (decimal "0.5")))
                             (ld_of_double dt) in
          integrate_loop (Some (time, watts)) rest (float_max gap dt) (ld_add sum area)
      end
  end.

Definition integratePowerSamples (s : list PowerSample) (count : Z) (i : Instrument) (c : EvidenceClass) : Ex EnergyMeasurement :=
  let n := Z.of_nat (length s) in
  throw_if ((n <? 2) || (1000000 <? n)) "invalid_meter_sample_count";;
  let start := fst (default (dzero, dzero) (head s)) in
  let end_ := fst (default (dzero, dzero) (last s)) in
  r ← integrate_loop None s dzero dzero;
  let '(gap, sum) := r in
  let m := {|
    available := false; evidence_class := c; source_kind := "physical_meter"; reason := "telemetry_unavailable"; instrument := i;
    start_unix_seconds := start; end_unix_seconds := end_; elapsed_seconds := dsub end_ start;
    joules := double_of_ld sum; average_watts := dzero; joules_per_fu := dzero; functional_units := 0; sample_count := n;
    maximum_sample_gap_seconds := gap; source_sample_count := n; maximum_source_gap_seconds := gap;
    trace_sha256 := ""; domains := []; power_samples := s |} in
  let '(m, r) := normalize m count in
  r;;
  mret (with_status true (evidence_class m) "imported_trace_requires_external_provenance_validation" (domains m) m).

(** [lower_bound] on the times with the element before it. *)
Fixpoint lower_bound (prev : option PowerSample) (s : list PowerSample) (t : double) : option PowerSample * option PowerSample :=
  match s with
  | [] => (prev, None)
  | p :: rest => if dltb p.1 t then lower_bound (Some p) rest t else (prev, Some p)
  end.

(** [None] where the iterator is not that of an element. *)
Definition interpolate (samples : list PowerSample) (t : double) : option PowerSample :=
  match lower_bound None samples t with
  | (_, None) => None
  | (lo, Some hi) =>
      if deqb hi.1 t then Some hi
      else lo ← lo;
        let weight := ddiv (dsub t lo.1) (dsub hi.1 lo.1) in
        Some (t, dadd (dmul lo.2 (dsub (double_of_Z 1) weight)) (dmul hi.2 weight))
  end.

Definition inside_window (start end_ : double) (s : PowerSample) : bool := dltb start s.1 && dltb s.1 end_.
Definition in_closed_window (start end_ : double) (s : PowerSample) : bool := dleb start s.1 && dleb s.1 end_.

(** The largest gap between neighbours that meets the window. *)
Fixpoint source_gap (start end_ : double) (prev : PowerSample) (s : list PowerSample) (gap : double) : double :=
  match s with
  | [] => gap
  | p :: rest =>
      source_gap start end_ p rest
        (if dltb prev.1 end_ && dltb start p.1 then float_max gap (dsub p.1 prev.1) else gap)
  end.

Definition with_sources (samples : list PowerSample) (start end_ : double) (m : EnergyMeasurement) : EnergyMeasurement := {|
  available := available m; evidence_class := evidence_class m; source_kind := source_kind m;
  reason := "physical_meter_execution_window_interpolated_no_idle_subtraction"; instrument := instrument m;
  start_unix_seconds := start_unix_seconds m; end_unix_seconds := end_unix_seconds m; elapsed_seconds := elapsed_seconds m;
  joules := joules m; average_watts := average_watts m; joules_per_fu := joules_per_fu m;
  functional_units := functional_units m; sample_count := sample_count m;
  maximum_sample_gap_seconds := maximum_sample_gap_seconds m;
  source_sample_count := Z.of_nat (length (filter (λ s, in_closed_window start end_ s = true) samples));
  maximum_source_gap_seconds := match samples with [] => dzero | p :: rest => source_gap start end_ p rest dzero end;
  trace_sha256 := trace_sha256 m; domains := domains m; power_samples := power_samples m |}.

Definition integrateMeterWindow (samples : list PowerSample) (start end_ : double) (count : Z) (i : Instrument)
    : outcome (Ex EnergyMeasurement) :=
  match integratePowerSamples samples count i Measured with
  | inl why => Done (throw why)
  | inr _ =>
      let front := fst (default (dzero, dzero) (head samples)) in
      let back := fst (default (dzero, dzero) (last samples)) in
      if negb (isfinite start) || negb (isfinite end_) || dleb end_ start || dltb start front || dltb back end_
      then Done (throw "meter_trace_does_not_bracket_execution_window")
      else match interpolate samples start, interpolate samples end_ with
      | Some first, Some final =>
          let clipped := (first :: filter (λ s, inside_window start end_ s = true) samples ++ [final])%list in
          Done (m ← integratePowerSamples clipped count i Measured; mret (with_sources samples start end_ m))
      | _, _ => Undefined "interpolation outside the trace"
      end
  end.

(** * The trace file *)

Definition is_hex (c : ascii) : bool := isdigit c || between 97 102 (tolower c).
Definition hex_digit (c : ascii) : Z := if isdigit c then digit_value c else Z.of_N (CxxString.code (tolower c)) - 87.

Fixpoint scan_hex (acc n : Z) (s : string) : Z * Z * string :=
  match s with
  | String c r => if is_hex c then scan_hex (16 * acc + hex_digit c) (n + 1) r else (acc, n, s)
  | EmptyString => (acc, n, s)
  end.

(** The exponent [p[+-]digits]; absent when no digit follows. *)
Definition scan_binary_exponent (s : string) : Z * string :=
  match s with
  | String c r =>
      if (tolower c =? "p")%char then
        let '(neg, r1) := take_sign r in
        let '(v, n, r2) := scan_digits 0 0 r1 in
        if n =? 0 then (0, s) else (if neg then - v else v, r2)
      else (0, s)
  | EmptyString => (0, s)
  end.

(** The rounded value of [m * 2 ^ e] is out of range: it overflows, or is
    subnormal and not exact. *)
Definition hex_erange (m e : Z) (v : double) : bool :=
  negb (m =? 0) &&
  match v with
  | S754_finite _ d f =>
      let lo := Z.min e f in
      (Z.pos d <? 2 ^ 52) && negb (m * 2 ^ (e - lo) =? Z.pos d * 2 ^ (f - lo))
  | _ => true
  end.

(** The text after [0x], when it is a hexadecimal number. *)
Definition scan_hexadecimal (neg : bool) (s : string) : option strtod_result :=
  let '(ip, ni, s2) := scan_hex 0 0 s in
  let '(m, nf, s3) :=
    match s2 with
    | String "." r => let '(fp, n, r2) := scan_hex ip 0 r in if ni + n =? 0 then (ip, 0, s2) else (fp, n, r2)
    | _ => (ip, 0, s2)
    end in
  if ni + nf =? 0 then None
  else
    let '(ex, s4) := scan_binary_exponent s3 in
    let e := ex - 4 * nf in
    let v := match m with Zpos p => binary_round 53 1024 neg p e | _ => S754_zero neg end in
    Some {| sd_value := v; sd_rest := s4; sd_erange := hex_erange m e v |}.

Definition lower_prefix (p s : string) : bool := String.prefix p (string_map tolower s).

(** [strtod] with the other forms of the standard: hexadecimal numbers, and
    [inf] and [nan], which [None] stands for: what follows them does not matter to
    the caller. *)
Definition strtod_all (s : string) : option (option strtod_result) :=
  let '(neg, s1) := take_sign (drop_while isspace s) in
  if lower_prefix "inf" s1 || lower_prefix "nan" s1 then Some None
  else
    match (if lower_prefix "0x" s1 then scan_hexadecimal neg (String.substring 2 (String.length s1) s1) else None) with
    | Some r => Some (Some r)
    | None => Some <$> strtod s
    end.

(** The function [parse] of a row: [std::stod], then the whole text and a finite value. *)
Definition parse_number (s : string) : Ex double :=
  match strtod_all s with
  | None => throw "stod"
  | Some None => throw "invalid_meter_number"
  | Some (Some r) =>
      throw_if (sd_erange r) "stod";;
      throw_if (negb (is_empty (sd_rest r)) || negb (isfinite (sd_value r))) "invalid_meter_number";;
      mret (sd_value r)
  end.

Fixpoint parse_rows (lines : list string) (samples : list PowerSample) : Ex (list PowerSample) :=
  match lines with
  | [] => mret samples
  | line :: lines =>
      throw_if ((256 <? str_size line) || (1000000 <=? Z.of_nat (length samples))) "meter_input_limit";;
      match after_char "," line with
      | None => throw "invalid_meter_row"
      | Some rest =>
          throw_if (bool_decide (is_Some (after_char "," rest))) "invalid_meter_row";;
          time ← parse_number (before_char "," line);
          watts ← parse_number rest;
          parse_rows lines (samples ++ [(time, watts)])%list
      end
  end.

(** The answers of the file system about the trace: [safe] holds of a regular
    file that is no link, [status_size] is its size then, [bytes_read] what the reads
    return, and [bad] whether they fail. *)
Record MeterFile := { safe : bool; status_size : Z; bytes_read : string; bad : bool }.

Definition meter_limit : Z := 32 * 1024 * 1024.

Definition with_trace (digest : string) (m : EnergyMeasurement) : EnergyMeasurement := {|
  available := available m; evidence_class := evidence_class m; source_kind := source_kind m; reason := reason m;
  instrument := instrument m; start_unix_seconds := start_unix_seconds m; end_unix_seconds := end_unix_seconds m;
  elapsed_seconds := elapsed_seconds m; joules := joules m; average_watts := average_watts m; joules_per_fu := joules_per_fu m;
  functional_units := functional_units m; sample_count := sample_count m;
  maximum_sample_gap_seconds := maximum_sample_gap_seconds m; source_sample_count := source_sample_count m;
  maximum_source_gap_seconds := maximum_source_gap_seconds m; trace_sha256 := digest; domains := domains m;
  power_samples := power_samples m |}.

Definition importPhysicalMeter (file : MeterFile) (count : Z) (i : Instrument) : Ex EnergyMeasurement :=
  throw_if (negb (safe file) || (meter_limit <? status_size file)) "unsafe_meter_file";;
  throw_if (meter_limit <? str_size (bytes_read file)) "meter_input_limit";;
  throw_if (bad file) "meter_read_failure";;
  match getline_split chr_newline (bytes_read file) with
  | [] => throw "invalid_meter_header"
  | header :: rows =>
      throw_if (negb (String.eqb header "unix_time_s,power_w")) "invalid_meter_header";;
      samples ← parse_rows rows [];
      m ← integratePowerSamples samples count i Measured;
      mret (with_trace (sha256 (bytes_of (bytes_read file))) m)
  end.

(** The loop that imports the trace again while it does not reach the end of the
    window; [later] are the imports that the deadline leaves time for. *)
Fixpoint wait_for_trace (end_ : double) (trace : EnergyMeasurement) (later : list (Ex EnergyMeasurement)) : Ex EnergyMeasurement :=
  if dltb (end_unix_seconds trace) end_ then
    match later with
    | [] => mret trace
    | next :: later => trace ← next; wait_for_trace end_ trace later
    end
  else mret trace.

Definition dabs (d : double) : double := SFabs d.

Definition meter_begin (now : double) (clock : Z) : EnergySample := {|
  s_available := true; s_reason := "telemetry_unavailable"; unix_seconds := now; monotonic := clock; s_domains := [] |}.

(** The measurement that [PhysicalMeterCollector::end] starts from. *)
Definition meter_window (i : Instrument) (s : EnergySample) (count : Z) (end_ elapsed : double) (why : string) : EnergyMeasurement := {|
  available := false; evidence_class := Unavailable; source_kind := "unavailable"; reason := why; instrument := i;
  start_unix_seconds := unix_seconds s; end_unix_seconds := end_; elapsed_seconds := elapsed; joules := dzero;
  average_watts := dzero; joules_per_fu := dzero; functional_units := count; sample_count := 0;
  maximum_sample_gap_seconds := dzero; source_sample_count := 0; maximum_source_gap_seconds := dzero; trace_sha256 := "";
  domains := []; power_samples := [] |}.

(** [PhysicalMeterCollector::end] at the time [end_]: [first] and [later] are the
    successive results of importing the file. *)
Definition meter_end (i : Instrument) (s : EnergySample) (count : Z) (end_ : double) (clock : Z) (first : Ex EnergyMeasurement)
    (later : list (Ex EnergyMeasurement)) : outcome EnergyMeasurement :=
  let elapsed := seconds_between (monotonic s) clock in
  let failed why := meter_window i s count end_ elapsed why in
  if dltb (decimal "0.01") (dabs (dsub (dsub end_ (unix_seconds s)) elapsed)) then Done (failed "meter_clock_discontinuity")
  else
    match first ≫= (λ trace, wait_for_trace end_ trace later) with
    | inl why => Done (failed why)
    | inr trace =>
        match integrateMeterWindow (power_samples trace) (unix_seconds s) end_ count i with
        | Done (inr m) => Done (with_trace (trace_sha256 trace) m)
        | Done (inl why) => Done (failed why)
        | Undefined why => Undefined why
        | OutOfFuel => OutOfFuel
        end
    end.

End Meter.
