(* ===== verification/EnergyFacts.v ===== *)
(** What energy measurements promise: counters that wrap are read exactly, a
    power-cap measurement is complete or empty, the walk of the power-cap tree
    ends, and a claim rests on an instrument calibrated before the measurement. *)
From Stdlib Require Import SpecFloat.
From stdpp Require Import sorting.
From S2P Require Import Prelude CxxInt CxxString CxxFloat FloatOrder CxxPath C3EcoSemantics C3EcoFacts Energy EnergyCollectors.
Open Scope string_scope.
Open Scope Z_scope.

(** Arithmetic with quotients and remainders by constants. *)
Ltac div_lia := intros; Z.to_euclidean_division_equations; lia.

(** * Counters *)

(** A counter with the range [r] goes from [start] to the remainder of [start]
    plus what was used, and the difference is what was used as long as that is less
    than a whole turn. *)
Definition turned (start used : Z) (range : option Z) : Z :=
  match range with Some r => (start + used) mod r | None => start + used end.

Lemma counterDelta_sound start end_ range d : is_size start → is_size end_ → (∀ r, range = Some r → is_size r) →
  counterDelta start end_ range = inr d →
  is_size d ∧ end_ = turned start d range ∧ (∀ r, range = Some r → d < r).
Proof.
  intros Hs He Hr. unfold counterDelta. rewrite throw_if_inr. intros [Hok Hd]. destruct (Z.leb_spec start end_).
  - injection Hd as <-. rewrite u64_id by width. split; [width|]. destruct range as [r|]; cbn; [|split; [lia|done]].
    apply orb_false_iff in Hok as [[? ?%Z.leb_gt]%orb_false_iff ?%Z.leb_gt].
    split; [rewrite Z.mod_small; unfold is_size in *; lia|]. intros ? [= <-]. unfold is_size in *; lia.
  - destruct range as [r|]; [|done]. injection Hd as <-. specialize (Hr r eq_refl).
    apply orb_false_iff in Hok as [[? ?%Z.leb_gt]%orb_false_iff ?%Z.leb_gt].
    rewrite (u64_id (r - start)) by width. rewrite u64_id by width. split; [width|]. cbn. split.
    + replace (start + (r - start + end_)) with (end_ + 1 * r) by lia. rewrite Z.mod_add by lia. rewrite Z.mod_small; unfold is_size in *; lia.
    + intros ? [= <-]. lia.
Qed.

Lemma counterDelta_complete start used range : is_size start → 0 ≤ used → is_size (turned start used range) →
  (∀ r, range = Some r → is_size r ∧ start < r ∧ used < r) →
  counterDelta start (turned start used range) range = inr used.
Proof.
  intros Hs Hu Ht Hr. unfold counterDelta. rewrite throw_if_inr. destruct range as [r|]; cbn [turned] in *.
  - destruct (Hr r eq_refl) as ([_ ?] & ? & ?). destruct Hs as [? _]. pose proof (Z.mod_pos_bound (start + used) r).
    split; [rewrite !orb_false_iff, Z.eqb_neq, !Z.leb_gt; lia|].
    assert ((start + used) mod r = if start + used <? r then start + used else start + used - r) as ->.
    { destruct (Z.ltb_spec (start + used) r); [apply Z.mod_small; lia|].
      replace (start + used) with ((start + used - r) + 1 * r) at 1 by lia. rewrite Z.mod_add by lia. apply Z.mod_small. lia. }
    destruct (Z.ltb_spec (start + used) r).
    + rewrite (proj2 (Z.leb_le _ _)) by lia. rewrite u64_id by width. cbn. f_equal. lia.
    + rewrite (proj2 (Z.leb_gt _ _)) by lia. rewrite (u64_id (r - start)) by width. rewrite u64_id by width. cbn. f_equal. lia.
  - split; [done|]. rewrite (proj2 (Z.leb_le _ _)) by lia. rewrite u64_id by width. cbn. f_equal. lia.
Qed.

(** * Dates *)

Lemma days_of_months_shift m : 1 ≤ m ≤ 12 →
  default 0 (days_of_months !! Z.to_nat m) = default 0 (month_days !! Z.to_nat (m - 1)) ∧
  (m = 2 → default 0 (days_of_months !! Z.to_nat m) = 28).
Proof.
  intros Hm.
  assert (m = 1 ∨ m = 2 ∨ m = 3 ∨ m = 4 ∨ m = 5 ∨ m = 6 ∨ m = 7 ∨ m = 8 ∨ m = 9 ∨ m = 10 ∨ m = 11 ∨ m = 12) as Hcase by lia.
  by destruct Hcase as [->|[->|[->|[->|[->|[->|[->|[->|[->|[->|[->| ->]]]]]]]]]]].
Qed.

Lemma validDate_iso s : validDate s = true → c3EcoIsoDate s = true.
Proof.
  unfold validDate, c3EcoIsoDate. destruct (_ || _ || _); [done|]. destruct (negb (date_digits 0 s)); [done|].
  set (y := atoi _). set (m := atoi (String.substring 5 2 s)). set (d := atoi (String.substring 8 2 s)). unfold c3EcoLeapYear.
  rewrite !andb_true_iff, !Z.leb_le. intros (((((Hy & Hy') & Hm) & Hm') & Hd) & Hl).
  replace ((y <? 2000) || (m <? 1) || (12 <? m) || (d <? 1)) with false
    by (symmetry; rewrite !orb_false_iff, !Z.ltb_ge; lia).
  destruct (days_of_months_shift m) as [Hshift H28]; [lia|]. rewrite Hshift in *. apply Z.leb_le.
  destruct (Z.eqb_spec m 2) as [->|]; cbn [andb] in *; [|lia]. rewrite H28 in * by done. by destruct (_ && _); lia.
Qed.

Lemma validDate_date s : validDate s = true → ∃ d, valid_date d ∧ s = date_text d.
Proof. intros Hs. apply isoDate_sound. by apply validDate_iso. Qed.

(** The number of the first day of a year, counted from 1970. *)
Definition first_day (y : Z) : Z := 365 * (y - 1970) + (y - 1969) / 4 - (y - 1901) / 100 + (y - 1601) / 400.

Lemma div_step n y c : 0 < n → c mod n = 1 mod n → (y + 1 - c) / n = (y - c) / n + (if y mod n =? 0 then 1 else 0).
Proof.
  intros Hn Hc. assert (∃ k, c = 1 + k * n) as [k ->].
  { exists (c / n - 1 / n). pose proof (Z.div_mod c n). pose proof (Z.div_mod 1 n). nia. }
  replace (y + 1 - (1 + k * n)) with (y + (- k) * n) by lia. replace (y - (1 + k * n)) with (y - 1 + (- k) * n) by lia.
  rewrite !Z.div_add by lia. pose proof (Z.div_mod y n). pose proof (Z.mod_pos_bound y n).
  destruct (Z.eqb_spec (y mod n) 0) as [E|E].
  - assert ((y - 1) / n = y / n - 1); [|lia]. symmetry. apply (Z.div_unique _ _ _ (n - 1)); lia.
  - assert ((y - 1) / n = y / n); [|lia]. symmetry. apply (Z.div_unique _ _ _ (y mod n - 1)); lia.
Qed.

Lemma first_day_succ y : 0 ≤ y → first_day (y + 1) = first_day y + year_days y.
Proof.
  intros Hy. unfold first_day, year_days, c3EcoLeapYear. rewrite !Z.rem_mod_nonneg by lia.
  rewrite (div_step 4), (div_step 100), (div_step 400) by (lia || done).
  assert (y mod 100 = 0 → y mod 4 = 0) by div_lia. assert (y mod 400 = 0 → y mod 100 = 0) by div_lia.
  destruct (Z.eqb_spec (y mod 4) 0), (Z.eqb_spec (y mod 100) 0), (Z.eqb_spec (y mod 400) 0); cbn [andb orb negb]; try lia; exfalso; auto.
Qed.

Lemma first_day_mono y z : y ≤ z → first_day y ≤ first_day z.
Proof. unfold first_day. div_lia. Qed.

Lemma year_days_bounds y : 365 ≤ year_days y ≤ 366.
Proof. unfold year_days. destruct (c3EcoLeapYear y); lia. Qed.

Lemma year_of_spec fuel y day : 0 ≤ y → 0 ≤ day < 365 * Z.of_nat fuel →
  let '(y', d) := year_of fuel y day in y ≤ y' ∧ 0 ≤ d < year_days y' ∧ first_day y' + d = first_day y + day.
Proof.
  revert y day. induction fuel as [|fuel IH]; intros y day Hy Hd; [lia|]. cbn [year_of].
  destruct (Z.ltb_spec day (year_days y)); [lia|]. pose proof (year_days_bounds y).
  specialize (IH (y + 1) (day - year_days y)). destruct (year_of _ _ _) as [y' d].
  rewrite first_day_succ in IH by lia. destruct IH as (? & ? & ?); lia.
Qed.

Lemma month_of_spec lengths m day : 0 ≤ day < foldr Z.add 0 lengths →
  let '(m', d) := month_of lengths m day in
  ∃ i len, m' = m + Z.of_nat i ∧ lengths !! i = Some len ∧ 0 ≤ d < len.
Proof.
  revert m day. induction lengths as [|len rest IH]; intros m day Hd; cbn in *; [lia|].
  destruct (Z.ltb_spec day len); [exists O, len; split_and!; [lia|done|lia..]|].
  specialize (IH (m + 1) (day - len)). destruct (month_of _ _ _) as [m' d]. destruct IH as (i & len' & ? & ? & ?); [lia|].
  exists (S i), len'. split_and!; [lia|done|lia..].
Qed.

Lemma month_lengths_year y : foldr Z.add 0 (month_lengths y) = year_days y.
Proof. unfold month_lengths, year_days. by destruct (c3EcoLeapYear y). Qed.

Lemma month_lengths_limit y i len : month_lengths y !! i = Some len →
  1 ≤ 1 + Z.of_nat i ≤ 12 ∧ len = limit_of y (1 + Z.of_nat i).
Proof.
  intros Hi. pose proof (lookup_lt_Some _ _ _ Hi) as Hlt. cbn in Hlt. split; [lia|].
  do 12 (destruct i as [|i]; [cbn in Hi; injection Hi as <-; unfold limit_of; cbn; by destruct (c3EcoLeapYear y)|]). done.
Qed.

(** The times of [isoTimestamp] fall on calendar dates. *)
Lemma gmtime_date time : 946684800 ≤ time ≤ 4102444800 → valid_date (tm_date (gmtime time)).
Proof.
  intros Ht. unfold gmtime. set (days := time / 86400). assert (10957 ≤ days ≤ 47482) as Hdays by (unfold days; div_lia).
  pose proof (year_of_spec (S (Z.to_nat (days / 365))) 1970 days) as Hy.
  destruct (year_of _ _ _) as [y d]. destruct Hy as (Hy & Hd & Hsum); [lia|div_lia|]. change (first_day 1970) with 0 in Hsum.
  assert (2000 ≤ y).
  { destruct (Z.le_gt_cases 2000 y); [done|]. pose proof (first_day_mono (y + 1) 2000). change (first_day 2000) with 10957 in *.
    rewrite first_day_succ in * by lia. lia. }
  assert (y ≤ 2100).
  { destruct (Z.le_gt_cases y 2100); [done|]. pose proof (first_day_mono 2101 y). change (first_day 2101) with 47847 in *. lia. }
  pose proof (month_of_spec (month_lengths y) 1 d) as Hm. rewrite month_lengths_year in Hm.
  destruct (month_of _ _ _) as [m dd]. destruct Hm as (i & len & -> & Hi & Hdd); [lia|].
  apply month_lengths_limit in Hi as [Hr ->]. split; cbn [tm_date d_year d_month d_day]; [lia|].
  eexists. split; [apply limit_exact; [lia|done|reflexivity]|]. lia.
Qed.

(** * Times as doubles *)

Definition valid_double (d : double) : Prop := valid_binary 53 1024 d = true.

Lemma rank_not_lt_lo d M E : valid_double d → isfinite d = true → dltb d (S754_finite false M E) = false →
  ∃ m e, d = S754_finite false m e ∧ (E < e ∨ (e = E ∧ Z.pos M ≤ Z.pos m)).
Proof.
  intros Hv Hf Hlt. assert (¬ rank_lt (rank d) (1, E, Z.pos M)) as Hr.
  { intros Hr. apply (dltb_rank d (S754_finite false M E)) in Hr; [congruence|by apply isfinite_not_nan|done]. }
  unfold rank_lt in Hr. destruct d as [s|s| |[|] m e]; cbn in Hr; try done; try (destruct s; lia); try lia.
  exists m, e. split; [done|]. lia.
Qed.

Lemma rank_not_gt_hi m e M E : dltb (S754_finite false M E) (S754_finite false m e) = false →
  e < E ∨ (e = E ∧ Z.pos m ≤ Z.pos M).
Proof.
  intros Hlt. assert (¬ rank_lt (1, E, Z.pos M) (1, e, Z.pos m)) as Hr.
  { intros Hr. apply (dltb_rank (S754_finite false M E) (S754_finite false m e)) in Hr; [congruence|done..]. }
  unfold rank_lt in Hr. cbn in Hr. lia.
Qed.

(** The whole seconds of a time that [isoTimestamp] accepts are in its range. *)
Lemma timestamp_range v : valid_double v → isfinite v = true → dltb v (double_of_Z 946684800) = false →
  dltb (double_of_Z 4102444800) v = false → 946684800 ≤ dtrunc v ≤ 4102444800.
Proof.
  intros Hv Hf Hlo Hhi.
  change (double_of_Z 946684800) with (S754_finite false 7941367686758400 (-23)) in Hlo.
  change (double_of_Z 4102444800) with (S754_finite false 8603450317209600 (-21)) in Hhi.
  apply rank_not_lt_lo in Hlo as (m & e & -> & Hlo); [|done..]. apply rank_not_gt_hi in Hhi.
  destruct (valid_double_mantissa _ _ _ Hv) as [Hm53 Hm52]. cbn [dtrunc]. rewrite (proj2 (Z.leb_gt 0 e)) by lia.
  assert (2 ^ 52 ≤ Z.pos m) as Hmin by (apply Hm52; lia).
  assert (e = -23 ∨ e = -22 ∨ e = -21) as [-> | [-> | ->]] by lia; cbn [Z.opp]; div_lia.
Qed.

Lemma substring_app s t : String.substring 0 (String.length s) (s +:+ t) = s.
Proof.
  induction s as [|c s IH]; [by destruct t|].
  change (String c (String.substring 0 (String.length s) (s +:+ t)) = String c s). by rewrite IH.
Qed.

Lemma date_text_length d : String.length (date_text d) = 10%nat.
Proof. unfold date_text. by rewrite !string_app_length, !padded_length. Qed.

Lemma isoTimestamp_date v text : valid_double v → isoTimestamp v = inr text →
  valid_date (tm_date (gmtime (dtrunc v))) ∧ String.substring 0 10 text = date_text (tm_date (gmtime (dtrunc v))).
Proof.
  unfold isoTimestamp. rewrite throw_if_inr. intros Hv [[[Hf%negb_false_iff Hlo]%orb_false_iff Hhi]%orb_false_iff [= <-]].
  split; [by apply gmtime_date, timestamp_range|]. by rewrite <- (date_text_length (tm_date (gmtime (dtrunc v)))), substring_app.
Qed.

Lemma string_leb_not_ltb a b : String.leb a b = true → String.ltb b a = false.
Proof. unfold String.leb, String.ltb. rewrite (String.compare_antisym a b). by destruct (String.compare b a). Qed.

(** * Claims *)

(** The instrument was calibrated on a day that is not after that of [time]. *)
Definition calibrated_by (i : Instrument) (time : double) : Prop :=
  ∃ d, valid_date d ∧ calibration_date i = date_text d ∧ ¬ earlier (tm_date (gmtime (dtrunc time))) d.

(** The numbers of a measurement agree with each other. *)
Definition normalized (m : EnergyMeasurement) : Prop :=
  isfinite (elapsed_seconds m) = true ∧ dltb dzero (elapsed_seconds m) = true ∧ isfinite (joules m) = true ∧
  1 ≤ functional_units m ≤ 2 ^ 53 ∧
  isfinite (joules_per_fu m) = true ∧ joules_per_fu m = ddiv (joules m) (double_of_Z (functional_units m)) ∧
  isfinite (average_watts m) = true ∧ average_watts m = ddiv (joules m) (elapsed_seconds m).

(** What a claim needs of the instrument. *)
Definition instrument_declared (i : Instrument) : bool :=
  uncertainty_declared i && negb (is_empty (instrument_id i)) && negb (is_empty (calibration_id i)) &&
  negb (is_empty (validation_ref i)) && negb (is_empty (boundary i)) && negb (is_empty (isolation i)).

Lemma claim_calibrated m : valid_double (start_unix_seconds m) → claimEligible m = true →
  evidence_class m = Measured ∧ instrument_declared (instrument m) = true ∧ calibrated_by (instrument m) (start_unix_seconds m).
Proof.
  intros Hv. unfold claimEligible. set (i := instrument m).
  destruct (bool_decide (evidence_class m = Measured)) eqn:Hc; cbn [negb orb];
    [|rewrite orb_true_r; cbn; by rewrite ?orb_true_l].
  apply bool_decide_eq_true in Hc. unfold instrument_declared.
  destruct (_ || _) eqn:Hb; [done|].
  repeat match goal with H : _ || _ = false |- _ => apply orb_false_iff in H as [? ?] end.
  repeat match goal with H : negb _ = false |- _ => apply negb_false_iff in H end.
  destruct (isoTimestamp (start_unix_seconds m)) as [|text] eqn:Ht; [done|]. intros Hle.
  apply isoTimestamp_date in Ht as [Hd Htext]; [|done]. rewrite Htext in Hle. fold i in Hle.
  split; [done|]. split.
  - repeat match goal with H : _ = false |- _ => rewrite H; clear H | H : uncertainty_declared _ = true |- _ => rewrite H; clear H end. done.
  - match goal with H : validDate _ = true |- _ => apply validDate_date in H as (d & Hvd & Heq) end.
    exists d. split_and!; [done..|]. rewrite Heq in Hle. apply string_leb_not_ltb in Hle. intros He.
    apply text_order in He; [congruence|done..].
Qed.

(** * Power-cap measurements *)

Definition sample_ok (s : EnergySample) : Prop :=
  Forall (λ d, is_size (counter_uj d) ∧ ∀ r, range_uj d = Some r → is_size r) (s_domains s).

(** The energy of a domain is what its counter moved by, and a contributing
    domain cannot have made a whole turn: within the power bound of the instrument
    the window is shorter than a turn, and the energy is within the bound. *)
Definition domain_measured (c : PowercapEnergyCollector) (elapsed : double) (d : DomainMeasurement) : Prop :=
  let x := dm_start d in
  let y := dm_end d in
  let bound := dmul elapsed (maximum_power_w (instrument_ c)) in
  domain_id x = domain_id y ∧ domain_name x = domain_name y ∧ range_uj x = range_uj y ∧ contributes x = contributes y ∧
  (∃ used, 0 ≤ used ∧ counter_uj y = turned (counter_uj x) used (range_uj x) ∧ (∀ r, range_uj x = Some r → used < r) ∧
           dm_joules d = joules_of used) ∧
  (contributes x = true →
     (dltb dzero (maximum_power_w (instrument_ c)) = true → dltb bound (dm_joules d) = false) ∧
     (evidence_class_ c = Measured → ∃ r, range_uj x = Some r ∧ isfinite (maximum_power_w (instrument_ c)) = true ∧
        dleb (maximum_power_w (instrument_ c)) dzero = false ∧ dleb (joules_of r) bound = false)).

Definition contributing (ds : list DomainMeasurement) : list DomainMeasurement :=
  filter (λ d, contributes (dm_start d) = true) ds.

Definition total_joules (start : double) (ds : list DomainMeasurement) : double :=
  foldl (λ total d, dadd total (dm_joules d)) start (contributing ds).

Lemma same_domain_eq x y : same_domain x y = true →
  domain_id x = domain_id y ∧ domain_name x = domain_name y ∧ range_uj x = range_uj y ∧ contributes x = contributes y.
Proof.
  intros [[[?%String.eqb_eq ?%String.eqb_eq]%andb_true_iff ?%bool_decide_eq_true]%andb_true_iff ?%Bool.eqb_prop]%andb_true_iff. done.
Qed.

Lemma measure_domain_spec c elapsed x y total total' d :
  is_size (counter_uj x) → is_size (counter_uj y) → (∀ r, range_uj x = Some r → is_size r) →
  measure_domain c elapsed x y total = inr (total', d) →
  dm_start d = x ∧ dm_end d = y ∧ domain_measured c elapsed d ∧ total' = total_joules total [d].
Proof.
  intros Hx Hy Hr. unfold measure_domain. rewrite throw_if_inr. intros [Hsame%negb_false_iff (used & Hused & Hrest)%Ex_bind_inr].
  apply Ex_bind_inr in Hrest as (t & Ht & [= <- <-]). cbn [dm_start dm_end]. split_and!; [done..| |].
  - apply same_domain_eq in Hsame as (? & ? & ? & ?). apply counterDelta_sound in Hused as ([? _] & ? & ?); [|done..].
    unfold domain_measured. cbn [dm_start dm_end dm_joules]. split_and!; [done..| |]; [eexists; eauto|]. intros Hc. rewrite Hc in Ht.
    apply throw_if_inr in Ht as [Hw [Hb _]%throw_if_inr]. split.
    + intros Hp. by rewrite Hp in Hb.
    + intros Hm. rewrite bool_decide_eq_true_2 in Hw by done. cbn [andb] in Hw. unfold wrap_unqualified in Hw.
      destruct (range_uj x) as [r|]; [|done]. apply orb_false_iff in Hw as [[?%negb_false_iff ?]%orb_false_iff ?].
      exists r. by split_and!.
  - unfold total_joules, contributing. rewrite filter_cons, filter_nil. cbn [dm_start]. destruct (contributes x).
    + apply throw_if_inr in Ht as [_ [_ [= <-]]%throw_if_inr]. done.
    + by injection Ht as <-.
Qed.

Lemma total_joules_app start ds ds' : total_joules start (ds ++ ds') = total_joules (total_joules start ds) ds'.
Proof. unfold total_joules, contributing. by rewrite filter_app, foldl_app. Qed.

Lemma measure_domains_spec c elapsed a b total ds total' ds' :
  Forall (λ d, is_size (counter_uj d) ∧ ∀ r, range_uj d = Some r → is_size r) a →
  Forall (λ d, is_size (counter_uj d) ∧ ∀ r, range_uj d = Some r → is_size r) b → length a = length b →
  measure_domains c elapsed a b total ds = inr (total', ds') →
  ∃ new, ds' = (ds ++ new)%list ∧ map dm_start new = a ∧ map dm_end new = b ∧ Forall (domain_measured c elapsed) new ∧
    total' = total_joules total new.
Proof.
  revert b total ds. induction a as [|x a IH]; intros [|y b] total ds Ha Hb Hlen; try done; cbn [measure_domains].
  - intros [= <- <-]. exists []. by rewrite app_nil_r.
  - apply Forall_cons in Ha as [[Hx Hxr] Ha]. apply Forall_cons in Hb as [[Hy _] Hb]. intros ([t d] & Hd & Hrest)%Ex_bind_inr.
    apply measure_domain_spec in Hd as (Hs & He & Hm & ->); [|done..]. injection Hlen as Hlen.
    apply IH in Hrest as (new & -> & <- & <- & Hall & ->); [|done..]. cbn [fst snd].
    exists ([d] ++ new)%list. rewrite app_assoc, total_joules_app. cbn [map app].
    split_and!; [done| | |by constructor|done]; [by rewrite Hs|by rewrite He].
Qed.

Lemma normalize_success m count m' : 0 ≤ count → normalize m count = (m', inr tt) →
  normalized m' ∧ functional_units m' = count ∧ joules m' = joules m ∧ elapsed_seconds m' = elapsed_seconds m ∧
  m' = with_energy (joules m) (average_watts m') (joules_per_fu m') count m.
Proof.
  intros Hpos. unfold normalize. destruct ((count =? 0) || _) eqn:Hc; [done|]. apply orb_false_iff in Hc as [?%Z.eqb_neq ?%Z.ltb_ge].
  destruct (_ || _) eqn:Hv; [done|]. intros [= <- Hw].
  apply orb_false_iff in Hv as [[[Hfe%negb_false_iff Hle]%orb_false_iff Hfj%negb_false_iff]%orb_false_iff Hneg].
  unfold throw_if in Hw. destruct (_ || _) eqn:Hf in Hw; [done|]. apply orb_false_iff in Hf as [?%negb_false_iff ?%negb_false_iff].
  unfold normalized. split_and!; try done; cbn [with_energy elapsed_seconds joules functional_units]; [|lia..].
  rewrite dleb_negb_dltb in Hle by (done || by apply isfinite_not_nan). by apply negb_false_iff in Hle.
Qed.

(** A measurement without energy. *)
Definition carries_nothing (m : EnergyMeasurement) : Prop :=
  available m = false ∧ evidence_class m = Unavailable ∧ joules m = dzero ∧ average_watts m = dzero ∧ joules_per_fu m = dzero ∧
  domains m = [].

(** A complete measurement of the window between two samples. *)
Definition complete_measurement (c : PowercapEnergyCollector) (a b : EnergySample) (m : EnergyMeasurement) : Prop :=
  available m = true ∧ evidence_class m = evidence_class_ c ∧ normalized m ∧
  map dm_start (domains m) = s_domains a ∧ map dm_end (domains m) = s_domains b ∧
  Forall (domain_measured c (elapsed_seconds m)) (domains m) ∧ joules m = total_joules dzero (domains m).

Lemma normalize_window m count : ∃ j w f n, (normalize m count).1 = with_energy j w f n m.
Proof.
  unfold normalize. destruct (_ || _); [exists (joules m), (average_watts m), (joules_per_fu m), (functional_units m); by destruct m|].
  destruct (_ || _); [exists (joules m), (average_watts m), (joules_per_fu m), (functional_units m); by destruct m|].
  cbn [fst]. eauto.
Qed.

Lemma powercap_end_spec c a b count m : sample_ok a → sample_ok b → 0 ≤ count → powercap_end c a b count = inr m →
  source_kind m = "rapl" ∧ instrument m = instrument_ c ∧ functional_units m = count ∧
  start_unix_seconds m = unix_seconds a ∧ end_unix_seconds m = unix_seconds b ∧
  elapsed_seconds m = seconds_between (monotonic a) (monotonic b) ∧
  (carries_nothing m ∨ complete_measurement c a b m).
Proof.
  intros Ha Hb Hpos. unfold powercap_end. rewrite throw_if_inr. intros [_ Hm].
  destruct (negb (s_available a) || negb (s_available b)); [injection Hm as <-; split_and!; try done; by left|].
  destruct (throw_if _ _ ≫= _) as [why|[total ds]] eqn:Hd; [injection Hm as <-; split_and!; try done; by left|].
  apply throw_if_inr in Hd as [Hlen%negb_false_iff%Nat.eqb_eq Hd].
  apply measure_domains_spec in Hd as (new & -> & Hs & He & Hall & ->); [|done..]. rewrite app_nil_l in Hm.
  set (m0 := with_status _ _ _ _ _) in Hm. destruct (normalize m0 count) as [m' [why|[]]] eqn:Hn.
  - pose proof (normalize_window m0 count) as (j & w & f & n & Heq). rewrite Hn in Heq. cbn [fst] in Heq. subst m'.
    injection Hm as <-. split_and!; try done. by left.
  - injection Hm as <-. apply normalize_success in Hn as (Hnorm & Hu & Hj & Hel & Heq); [|done].
    rewrite Heq in *. split_and!; try done. right. split_and!; try done.
Qed.

(** * Claims on complete measurements *)

Lemma deqb_same d : isfinite d = true → negb (deqb d d) = false.
Proof. intros Hd. by rewrite deqb_refl by by apply isfinite_not_nan. Qed.

Lemma positive_not_le d : isfinite d = true → dleb d dzero = negb (dltb dzero d).
Proof. intros Hd. apply dleb_negb_dltb; [by apply isfinite_not_nan|done]. Qed.

(** A normalised measurement of an admissible source may support a claim exactly
    if it is measured, positive, takes its time forward, and its instrument is
    declared and calibrated before it. *)
Lemma claim_of_normalized m : normalized m → claim_source (source_kind m) = true →
  claimEligible m = true ↔
  available m = true ∧ evidence_class m = Measured ∧ dltb dzero (joules m) = true ∧ dltb dzero (joules_per_fu m) = true ∧
  isfinite (start_unix_seconds m) = true ∧ isfinite (end_unix_seconds m) = true ∧
  dltb (start_unix_seconds m) (end_unix_seconds m) = true ∧ instrument_declared (instrument m) = true ∧
  validDate (calibration_date (instrument m)) = true ∧
  ∃ text, isoTimestamp (start_unix_seconds m) = inr text ∧
    String.leb (calibration_date (instrument m)) (String.substring 0 10 text) = true.
Proof.
  intros (He & Hep & Hj & Hu & Hf & Hfe & Hw & Hwe) Hs. unfold claimEligible, instrument_declared.
  rewrite Hs, He, Hj, Hf, Hw, <- Hfe, <- Hwe, !deqb_same, !positive_not_le, Hep by done. cbn [negb].
  rewrite (proj2 (Z.eqb_neq _ _)), (proj2 (Z.ltb_ge _ _)) by lia.
  assert (∀ (b : bool) (r : Ex string) f, (if b then false else match r with inl _ => false | inr text => f text end) = true ↔
    b = false ∧ ∃ text, r = inr text ∧ f text = true) as Hif by (intros [] [] ?; naive_solver).
  rewrite Hif, !orb_false_iff, !negb_false_iff, bool_decide_eq_true, !andb_true_iff, !negb_true_iff.
  assert (isfinite (start_unix_seconds m) = true → isfinite (end_unix_seconds m) = true →
    dleb (end_unix_seconds m) (start_unix_seconds m) = false ↔ dltb (start_unix_seconds m) (end_unix_seconds m) = true) as Ht.
  { intros ? ?. rewrite dleb_negb_dltb by by apply isfinite_not_nan. apply negb_false_iff. }
  tauto.
Qed.

(** * The walk of the power-cap tree *)

Section Walk.
Context (fs : PowercapTree) (root allowed : string).

(** What the walk keeps: the domains are of distinct visited directories inside
    the tree, and their counters are in range. *)
Definition domain_sane (d : DomainReading) : Prop :=
  (domain_id d = root ∨ below (domain_id d) allowed = true) ∧ is_size (counter_uj d) ∧
  (∀ r, range_uj d = Some r → is_size r ∧ counter_uj d < r) ∧ contributes d = String.prefix "package-" (domain_name d).

Definition walk_invariant (visited : gset string) (out : list DomainReading) : Prop :=
  Z.of_nat (size visited) ≤ 512 ∧ (length out ≤ size visited)%nat ∧ NoDup (map domain_id out) ∧
  Forall (λ d, domain_id d ∈ visited ∧ domain_sane d) out.

Lemma scan_digits_nonneg acc n s : 0 ≤ acc → 0 ≤ (scan_digits acc n s).1.1.
Proof.
  revert acc n. induction s as [|c s IH]; intros acc n Hacc; cbn [scan_digits]; [done|].
  destruct (isdigit c) eqn:Hc; [|done]. apply isdigit_value in Hc. apply IH. lia.
Qed.

Lemma readCounter_size p v : readCounter fs p = inr v → is_size v.
Proof.
  unfold readCounter. intros (s & _ & Hv)%Ex_bind_inr. pose proof (scan_digits_nonneg 0 0 s (Z.le_refl 0)) as Hpos.
  destruct (scan_digits 0 0 s) as [[v' n] rest]. apply throw_if_inr in Hv as [[[_ Hle%Z.ltb_ge]%orb_false_iff _]%orb_false_iff [= <-]].
  cbn in Hpos. by split.
Qed.

Lemma read_domain_sane p d : (p = root ∨ below p allowed = true) → read_domain fs p = inr d → domain_id d = p ∧ domain_sane d.
Proof.
  intros Hp (name & _ & (v & Hv & (range & Hr & (delta & Hdelta & [= <-])%Ex_bind_inr)%Ex_bind_inr)%Ex_bind_inr)%Ex_bind_inr.
  apply readCounter_size in Hv. split; [done|]. split_and!; cbn [domain_id counter_uj range_uj contributes domain_name]; [done..| |done].
  intros r ->. destruct (exists_path _ _); [|done]. apply Ex_bind_inr in Hr as (v' & Hv' & [= <-]). split; [by eapply readCounter_size|].
  apply throw_if_inr in Hdelta as [[[_ ?%Z.leb_gt]%orb_false_iff _]%orb_false_iff _]. lia.
Qed.

Lemma visit_path_step path pending visited out pending' visited' out' :
  visit_path fs root allowed path pending visited out = inr (pending', visited', out') → walk_invariant visited out →
  (pending' = pending ∧ visited' = visited ∧ out' = out) ∨
  (size visited' = S (size visited) ∧ walk_invariant visited' out').
Proof.
  intros Hstep (Hsize & Hlen & Hnd & Hall). apply Ex_bind_inr in Hstep as (p & _ & [Hescape Hstep]%throw_if_inr).
  destruct (decide (p ∈ visited)) as [|Hnew]; [injection Hstep as <- <- <-; by left|]. right.
  apply throw_if_inr in Hstep as [Hlimit%Z.ltb_ge (out1 & Hout & (entries & _ & [= <- <- <-])%Ex_bind_inr)%Ex_bind_inr].
  assert (p = root ∨ below p allowed = true) as Hp.
  { apply andb_false_iff in Hescape as [?%negb_false_iff%String.eqb_eq|?%negb_false_iff]; auto. }
  assert (size ({[p]} ∪ visited) = S (size visited)) as Hsz by (rewrite size_union by set_solver; by rewrite size_singleton).
  split; [done|]. split; [done|]. rewrite Hsz.
  assert (Forall (λ d, domain_id d ∈ {[p]} ∪ visited ∧ domain_sane d) out) as Hall'.
  { eapply Forall_impl; [exact Hall|]. cbn. intros d [? ?]. split; [set_solver|done]. }
  destruct (exists_path _ _); [|injection Hout as <-; split_and!; auto with lia].
  apply Ex_bind_inr in Hout as (d & Hd & [= <-]). apply read_domain_sane in Hd as [Hid Hd]; [|done].
  rewrite length_app, map_app. cbn [length map]. split_and!; [lia| |].
  - apply NoDup_app. split_and!; [done| |apply NoDup_singleton]. intros i Hi. rewrite list_elem_of_singleton. intros ->.
    apply list_elem_of_fmap in Hi as (d' & Heq & Hd'). rewrite Forall_forall in Hall. apply Hall in Hd' as [? _]. congruence.
  - apply Forall_app. split; [done|]. constructor; [|done]. split; [set_solver|done].
Qed.

Lemma walk_tree_ends pending visited out : walk_invariant visited out →
  ∃ fuel r, ∀ more, (fuel ≤ more)%nat → walk_tree more fs root allowed pending visited out = Done r.
Proof.
  remember (512 - size visited)%nat as n eqn:Hn. revert pending visited out Hn.
  induction n as [n IHn] using lt_wf_ind. intros pending. induction pending as [|path pending IHp]; intros visited out Hn Hinv.
  - exists O, (mret out). by intros [|more] _.
  - destruct (visit_path fs root allowed path pending visited out) as [why|[[pending' visited'] out']] eqn:Hstep.
    + exists 1%nat, (throw why). intros [|more] Hm; [lia|]. cbn [walk_tree]. by rewrite Hstep.
    + assert (∃ fuel r, ∀ more, (fuel ≤ more)%nat → walk_tree more fs root allowed pending' visited' out' = Done r) as (fuel & r & Hr).
      { destruct (visit_path_step _ _ _ _ _ _ _ Hstep Hinv) as [(-> & -> & ->)|[Hsz Hinv']]; [by apply IHp|].
        destruct Hinv' as (Hlimit & Hrest). eapply (IHn (512 - size visited')%nat); [lia|done|by split]. }
      exists (S fuel), r. intros [|more] Hm; [lia|]. cbn [walk_tree]. rewrite Hstep. apply Hr. lia.
Qed.

Lemma walk_tree_sound fuel pending visited out ds : walk_invariant visited out →
  walk_tree fuel fs root allowed pending visited out = Done (inr ds) →
  (length ds ≤ 512)%nat ∧ NoDup (map domain_id ds) ∧ Forall domain_sane ds.
Proof.
  revert pending visited out. induction fuel as [|fuel IH]; intros [|path pending] visited out Hinv; cbn [walk_tree]; try done.
  1,2: intros [= <-]; destruct Hinv as (? & ? & ? & Hall); split_and!; [lia|done|eapply Forall_impl; [exact Hall|]; naive_solver].
  destruct (visit_path fs root allowed path pending visited out) as [why|[[pending' visited'] out']] eqn:Hstep; [done|].
  destruct (visit_path_step _ _ _ _ _ _ _ Hstep Hinv) as [(-> & -> & ->)|[_ Hinv']]; by apply IH.
Qed.

End Walk.


#[export] Instance id_le_total : Total id_le.
Proof.
  intros a b. unfold id_le, String.leb. rewrite (String.compare_antisym (domain_id a) (domain_id b)).
  destruct (String.compare (domain_id b) (domain_id a)); cbn; auto.
Qed.

Definition package_list (ds : list DomainReading) : list string := map domain_name (filter (λ d, contributes d = true) ds).

Lemma package_names_spec packages ds packages' : package_names packages ds = inr packages' →
  NoDup (package_list ds) ∧ (∀ n, n ∈ package_list ds → n ∉ packages) ∧ (∀ n, n ∈ packages' → n ∈ packages ∨ n ∈ package_list ds).
Proof.
  unfold package_list. revert packages. induction ds as [|d ds IH]; intros packages; cbn [package_names].
  - intros [= <-]. cbn. split_and!; [constructor|by intros n ?%elem_of_nil|auto].
  - rewrite filter_cons. destruct (contributes d).
    + rewrite decide_True by done. cbn [map]. intros [Hnew%bool_decide_eq_false (Hnd & Hfresh & Hin)%IH]%throw_if_inr. split_and!.
      * constructor; [|done]. intros Hd. apply Hfresh in Hd. set_solver.
      * intros n [->|Hn]%elem_of_cons; [done|]. apply Hfresh in Hn. set_solver.
      * intros n Hn. rewrite elem_of_cons. apply Hin in Hn as [?|?]; set_solver.
    + rewrite decide_False by done. intros (Hnd & Hfresh & Hin)%IH. done.
Qed.

(** What a reading of the tree guarantees: the domains are in the order of their
    paths, each is read once and lies inside the tree, and no package counts twice. *)
Definition sound_reading (c : PowercapEnergyCollector) (fs : PowercapTree) (ds : list DomainReading) : Prop :=
  Sorted id_le ds ∧ NoDup (map domain_id ds) ∧ (length ds ≤ 512)%nat ∧ package_list ds ≠ [] ∧ NoDup (package_list ds) ∧
  ∃ root, canonical fs (root_ c) = inr root ∧
    Forall (domain_sane root (if decide (evidence_class_ c = Measured) then "/sys/devices" else root)) ds.

Lemma walk_starts root allowed : walk_invariant root allowed ∅ [].
Proof. split_and!; [by rewrite size_empty|done|constructor|constructor]. Qed.

Lemma readDomains_ends c fs : ∃ fuel r, ∀ more, (fuel ≤ more)%nat → readDomains more c fs = Done r.
Proof.
  unfold readDomains. destruct (check_root c fs) as [why|root]; [by exists O, (throw why)|].
  set (allowed := if decide _ then _ else _). destruct (walk_tree_ends fs root allowed [root_ c] ∅ [] (walk_starts _ _)) as (fuel & r & Hr).
  exists fuel, (r ≫= check_packages). intros more Hm. by rewrite Hr.
Qed.

Lemma check_packages_sound ds ds' : check_packages ds = inr ds' →
  Sorted id_le ds' ∧ ds' ≡ₚ ds ∧ package_list ds' ≠ [] ∧ NoDup (package_list ds').
Proof.
  intros (packages & Hp & [Hne%bool_decide_eq_false [= <-]]%throw_if_inr)%Ex_bind_inr. apply package_names_spec in Hp as (Hnd & _ & Hin).
  split_and!; [apply Sorted_merge_sort, _|apply merge_sort_Permutation| |done]. intros Hnil. apply Hne. apply leibniz_equiv.
  intros n. split; [|set_solver]. intros [?|Hn]%Hin; [done|]. rewrite Hnil in Hn. by apply elem_of_nil in Hn.
Qed.

Lemma readDomains_sound fuel c fs ds : readDomains fuel c fs = Done (inr ds) → sound_reading c fs ds.
Proof.
  unfold readDomains. destruct (check_root c fs) as [why|root] eqn:Hroot; [done|]. set (allowed := if decide _ then _ else _).
  destruct (walk_tree _ _ _ _ _ _ _) as [[why|ds']| |] eqn:Hw; try done. intros [= Hp]. cbn in Hp.
  apply walk_tree_sound in Hw as (Hlen & Hnd & Hall); [|apply walk_starts].
  apply check_packages_sound in Hp as (Hsort & Hperm & Hne & Hpk). unfold sound_reading. split_and!; try done.
  - by rewrite Hperm.
  - by rewrite Hperm.
  - exists root. split; [|by rewrite Hperm]. unfold check_root in Hroot.
    apply throw_if_inr in Hroot as [_ (? & _ & Hroot)%Ex_bind_inr]. done.
Qed.

Lemma sound_sample c fs ds now clock : sound_reading c fs ds → sample_ok (powercap_begin now clock (inr ds)).
Proof.
  intros (_ & _ & _ & _ & _ & root & _ & Hall). unfold sample_ok. cbn. eapply Forall_impl; [exact Hall|].
  intros d (_ & ? & Hr & _). split; [done|]. intros r Hr'. by apply Hr.
Qed.

(** * The properties *)

(** The instrument of the examples, and a measurement with it of [j] joules over
    ten seconds and five functional units. *)
Definition meter : Instrument := {|
  instrument_id := "meter-1"; calibration_id := "cal-7"; calibration_date := "2023-05-01"; validation_ref := "report-3";
  boundary := "cpu_packages"; isolation := "dedicated host"; uncertainty_percent := Some (double_of_Z 1);
  maximum_power_w := double_of_Z 200 |}.

Definition package (counter : Z) : DomainReading := {|
  domain_id := "/sys/devices/rapl:0"; domain_name := "package-0"; counter_uj := counter; range_uj := Some 262143328850;
  contributes := true |}.

(** Ten seconds in which the counter wraps. *)
Definition sample_before : EnergySample := powercap_begin (double_of_Z 1700000000) 0 (inr [package 262143000000]).
Definition sample_after : EnergySample := powercap_begin (double_of_Z 1700000010) 10000000000 (inr [package 9671150]).

Lemma samples_ok : sample_ok sample_before ∧ sample_ok sample_after.
Proof.
  split; (apply Forall_cons; split; [|apply Forall_nil; done]); (split; [by cbn|]); by intros r [= <-].
Qed.

(** C31.  A power-cap measurement is complete or empty.  What [end] returns names
    the collector's instrument and the window of its two samples; either it carries no
    energy at all, or it lists every domain of both samples with the exact energy its
    counter moved by, wraps included, the total is the sum over the contributing
    domains, and mean power and energy per functional unit are consistent with it.
    Only a complete measurement of the real power-cap tree, with positive energy and
    a declared instrument calibrated no later than the day of the window, can
    support a claim. *)
Theorem powercap_measurement_is_complete_or_empty c a b count m :
  sample_ok a → sample_ok b → 0 ≤ count → valid_double (unix_seconds a) → powercap_end c a b count = inr m →
  (source_kind m = "rapl" ∧ instrument m = instrument_ c ∧ functional_units m = count ∧
   start_unix_seconds m = unix_seconds a ∧ end_unix_seconds m = unix_seconds b ∧
   elapsed_seconds m = seconds_between (monotonic a) (monotonic b) ∧
   (carries_nothing m ∨ complete_measurement c a b m)) ∧
  (claimEligible m = true →
   evidence_class_ c = Measured ∧ complete_measurement c a b m ∧ dltb dzero (joules m) = true ∧
   instrument_declared (instrument_ c) = true ∧ calibrated_by (instrument_ c) (unix_seconds a)).
Proof.
  intros Ha Hb Hpos Hv Hm. pose proof (powercap_end_spec c a b count m Ha Hb Hpos Hm) as Hspec. split; [done|].
  destruct Hspec as (Hs & Hi & _ & Hst & _ & _ & [(Hna & _)|Hc]).
  - unfold claimEligible. by rewrite Hna.
  - intros Hclaim. pose proof (claim_calibrated m) as Hcal. rewrite Hst, Hi in Hcal. destruct (Hcal Hv Hclaim) as (He & Hd & Hby).
    pose proof Hc as (Hav & Hclass & Hnorm & _). assert (claim_source (source_kind m) = true) as Hsource by (by rewrite Hs).
    apply (claim_of_normalized m Hnorm Hsource) in Hclaim as (_ & _ & Hj & _).
    split; [congruence|]. done.
Qed.

Lemma powercap_measurement_is_complete_or_empty_witness :
  match powercap_end (measured_collector meter) sample_before sample_after 5 with
  | inr m => claimEligible m = true ∧ complete_measurement (measured_collector meter) sample_before sample_after m ∧
             map dm_joules (domains m) = [joules_of 10000000]
  | inl _ => False
  end.
Proof.
  assert (match powercap_end (measured_collector meter) sample_before sample_after 5 with
          | inr m => claimEligible m = true ∧ map dm_joules (domains m) = [joules_of 10000000] | inl _ => False end) as Hrun
    by (vm_compute; by split).
  destruct (powercap_end _ _ _ _) as [why|m] eqn:Hm; [done|]. destruct Hrun as [Hclaim Hj]. split; [done|]. split; [|done].
  assert (0 ≤ 5) as Hcount by lia. assert (valid_double (unix_seconds sample_before)) as Hv by reflexivity.
  destruct (powercap_measurement_is_complete_or_empty (measured_collector meter) sample_before sample_after 5 m
    (proj1 samples_ok) (proj2 samples_ok) Hcount Hv Hm) as [_ Hspec].
  apply (Hspec Hclaim).
Defined.

(** C32.  Reading the power-cap tree ends and is sound, whatever the file system
    answers, symbolic links that form cycles included: some number of turns of the
    loop is enough, and a reading that does not throw lists directories inside the tree
    in the order of their paths, each once and at most 512, with counters within their
    ranges, at least one package, and no package twice. *)
Theorem powercap_reading_ends_and_is_sound c fs :
  ∃ fuel r, (∀ more, (fuel ≤ more)%nat → readDomains more c fs = Done r) ∧
            (∀ ds, r = inr ds → sound_reading c fs ds ∧ ∀ now clock, sample_ok (powercap_begin now clock (inr ds))).
Proof.
  destruct (readDomains_ends c fs) as (fuel & r & Hr). exists fuel, r. split; [done|]. intros ds ->.
  assert (sound_reading c fs ds) as Hs by (eapply readDomains_sound, Hr; reflexivity). split; [done|]. intros now clock.
  by eapply sound_sample.
Qed.

(** A tree whose package directory links back to the root. *)
Definition cyclic_tree : PowercapTree := {|
  root_is_directory := true; statfs_sysfs := Some true;
  canonical p := inr (if String.eqb p "/t/rapl:0/rapl" then "/t" else p);
  exists_path p := String.eqb p "/t/rapl:0/energy_uj" || String.eqb p "/t/rapl:0/name";
  attribute p := Bytes (if String.eqb p "/t/rapl:0/name" then "package-0" else "1234");
  directory p := inr (if String.eqb p "/t" then [("/t/rapl:0", true)] else [("/t/rapl:0/rapl", true)]) |}.

Example cyclic_tree_is_read :
  match readDomains 9 (forTesting "/t" default_instrument) cyclic_tree with
  | Done (inr ds) => map domain_id ds = ["/t/rapl:0"]
  | _ => False
  end.
Proof. vm_compute. reflexivity. Qed.
