(* ===== verification/ExecutionPlan.v ===== *)
(** Component: execution plans (ai_runtime/ExecutionPlan.h and .cpp): the limits
    of a qualification protocol, the numerical comparison of a candidate with the
    reference, the statistics of its trials, and the choice of the candidate with
    the least measured energy.

    Indexing outside a vector is undefined; exceptions are those of [Ex]. *)
From Stdlib Require Import SpecFloat.
From stdpp Require Import sorting.
From S2P Require Import Prelude CxxInt CxxString CxxFloat Energy EnergyCollectors.
Open Scope string_scope.
Open Scope Z_scope.

(** * Data *)

Record NumericalValidation := {
  nv_valid : bool; shape_equal : bool; dtype_equal : bool;
  maximum_absolute_error : double; maximum_relative_error : double; quality_score : double;
  nonfinite_values : Z; nv_reason : string;
}.

Record QualificationProtocol := {
  workload : string; functional_unit : string; quality_metric : string; device_policy : string; precision : string;
  math_policy : string; guardrail_evidence_ref : string; profile_sha256 : string;
  batch_size : Z; warmups : Z; repetitions : Z; trials : Z; units_per_trial : Z; maximum_memory_bytes : Z;
  absolute_tolerance : double; relative_tolerance : double; quality_threshold : double;
  maximum_latency_ms : double; maximum_uncertainty_percent : double; require_measured_energy : bool;
}.

Record ExecutionCandidate := {
  c_id : string; c_backend : string; c_device : string; c_device_id : string; c_precision : string; c_math_policy : string;
  model_sha256 : string; model_format : string; backend_version : string; threads : Z; c_batch_size : Z;
  execution_ready : bool;
}.

Record ExecutionTrial := {
  t_success : bool; t_reason : string; latency_ms_per_fu : double; numerical : NumericalValidation; energy : EnergyMeasurement;
}.

Record Distribution := { mean : double; median : double; standard_deviation : double; minimum : double; maximum : double }.
Definition no_distribution : Distribution :=
  {| mean := dzero; median := dzero; standard_deviation := dzero; minimum := dzero; maximum := dzero |}.

Record CandidateQualification := {
  candidate : ExecutionCandidate; c_trials : list ExecutionTrial; phases : list (string * EnergyMeasurement);
  execution_valid : bool; energy_valid : bool; c_reason : string;
  latency_ms : Distribution; c_joules_per_fu : Distribution; expanded_uncertainty_percent : double;
}.

Record EnergyAwareExecutionPlan := {
  candidates : list CandidateQualification; selected_candidate : option nat; selection_reason : string;
  comparative_energy_claim : bool; synthetic_test : bool;
  reduction_percent : double; baseline_joules_per_fu : double; selected_joules_per_fu : double;
}.

(** The assignments of [qualify] and [select]. *)
Definition with_verdict (execution energy_ : bool) (why : string) (c : CandidateQualification) : CandidateQualification := {|
  candidate := candidate c; c_trials := c_trials c; phases := phases c; execution_valid := execution; energy_valid := energy_;
  c_reason := why; latency_ms := latency_ms c; c_joules_per_fu := c_joules_per_fu c;
  expanded_uncertainty_percent := expanded_uncertainty_percent c |}.
Definition with_latency (d : Distribution) (c : CandidateQualification) : CandidateQualification := {|
  candidate := candidate c; c_trials := c_trials c; phases := phases c; execution_valid := execution_valid c;
  energy_valid := energy_valid c; c_reason := c_reason c; latency_ms := d; c_joules_per_fu := c_joules_per_fu c;
  expanded_uncertainty_percent := expanded_uncertainty_percent c |}.
Definition with_joules (d : Distribution) (u : double) (c : CandidateQualification) : CandidateQualification := {|
  candidate := candidate c; c_trials := c_trials c; phases := phases c; execution_valid := execution_valid c;
  energy_valid := energy_valid c; c_reason := c_reason c; latency_ms := latency_ms c; c_joules_per_fu := d;
  expanded_uncertainty_percent := u |}.

(** * The protocol *)

Definition one : double := double_of_Z 1.
Definition hundred : double := double_of_Z 100.

Definition device_policies : list string := ["cpu_first"; "cpu_only"].
Definition quality_metrics : list string :=
  ["output_agreement"; "top1_agreement"; "cosine_similarity"; "detector_tensor_agreement"; "validation_accuracy"].
Definition is_one_of (names : list string) (s : string) : bool := existsb (String.eqb s) names.

Definition bad_text (s : string) : bool := is_empty s || (256 <? str_size s).
Definition bad_count (limit n : Z) : bool := (n =? 0) || (limit <? n).
Definition outside (high d : double) : bool := negb (isfinite d) || dltb d dzero || dltb high d.

Definition validateProtocol (p : QualificationProtocol) : Ex unit :=
  throw_if (bad_text (workload p) || bad_text (functional_unit p) || negb (is_one_of device_policies (device_policy p)) ||
            negb (String.eqb (precision p) "float32") || negb (String.eqb (math_policy p) "preserve_fp32_no_quantization"))
    "invalid_workload_or_precision_contract";;
  throw_if (bad_count 1024 (batch_size p) || bad_count 1000 (warmups p) || bad_count 10000 (repetitions p) ||
            (trials p <? 2) || (100 <? trials p) || bad_count 10000000 (units_per_trial p) ||
            bad_count (8 * 1024 * 1024 * 1024) (maximum_memory_bytes p))
    "qualification_protocol_limit";;
  throw_if (outside (decimal "1e-3") (absolute_tolerance p) || outside (decimal "1e-2") (relative_tolerance p) ||
            outside one (quality_threshold p) || negb (isfinite (maximum_latency_ms p)) || dltb (maximum_latency_ms p) dzero ||
            negb (isfinite (maximum_uncertainty_percent p)) || dleb (maximum_uncertainty_percent p) dzero ||
            dltb hundred (maximum_uncertainty_percent p))
    "invalid_quality_or_sla_contract";;
  throw_if (negb (is_one_of quality_metrics (quality_metric p))) "unsupported_quality_metric".

(** * The numerical comparison

    A [float] is a [spec_float]; its conversion to [double] is exact and leaves
    the value as it is up to the choice of mantissa. *)

Record Sums := {
  sum_close : bool; sum_nonfinite : Z; sum_absolute : double; sum_relative : double; dot : double; rn : double; an : double;
}.

Definition no_sums : Sums := {|
  sum_close := true; sum_nonfinite := 0; sum_absolute := dzero; sum_relative := dzero; dot := dzero; rn := dzero; an := dzero |}.

(** [double(x)] of a [float]. *)
Definition widen (x : spec_float) : double := convert 53 1024 x.

Definition value_close (p : QualificationProtocol) (r a : spec_float) : bool :=
  negb (dltb (dadd (absolute_tolerance p) (dmul (relative_tolerance p) (dabs (widen r)))) (dabs (dsub (widen a) (widen r)))).

Definition compare_value (p : QualificationProtocol) (r a : spec_float) (s : Sums) : Sums :=
  if negb (isfinite r) || negb (isfinite a) then {|
    sum_close := false; sum_nonfinite := u64 (sum_nonfinite s + 1); sum_absolute := sum_absolute s;
    sum_relative := sum_relative s; dot := dot s; rn := rn s; an := an s |}
  else
    let e := dabs (dsub (widen a) (widen r)) in {|
    sum_close := sum_close s && value_close p r a; sum_nonfinite := sum_nonfinite s;
    sum_absolute := float_max (sum_absolute s) e;
    sum_relative := float_max (sum_relative s) (ddiv e (float_max (dabs (widen r)) (decimal "1e-30")));
    dot := dadd (dot s) (dmul (widen r) (widen a)); rn := dadd (rn s) (dmul (widen r) (widen r));
    an := dadd (an s) (dmul (widen a) (widen a)) |}.

Fixpoint compare_values (p : QualificationProtocol) (rs as_ : list spec_float) (s : Sums) : Sums :=
  match rs, as_ with
  | r :: rs, a :: as_ => compare_values p rs as_ (compare_value p r a s)
  | _, _ => s
  end.

(** The index of the first greatest element, as [max_element] finds it. *)
Fixpoint max_from (best : spec_float) (at_ i : nat) (l : list spec_float) : nat :=
  match l with
  | [] => at_
  | x :: l => if SFltb best x then max_from x i (S i) l else max_from best at_ (S i) l
  end.
Definition max_element (l : list spec_float) : nat := match l with [] => O | x :: l => max_from x O 1 l end.

(** The number of rows of width [w] with the same greatest column; an [unsigned]. *)
Fixpoint matching_rows (n w : nat) (r a : list spec_float) (matches : Z) : Z :=
  match n with
  | O => matches
  | S n =>
      let hit := (max_element (take w r) =? max_element (take w a))%nat in
      matching_rows n w (drop w r) (drop w a) (if hit then u32 (matches + 1) else matches)
  end.

Definition clamp (d low high : double) : double := if dltb d low then low else if dltb high d then high else d.
Definition dsqrt (d : double) : double := SFsqrt 53 1024 d.

Definition agreement (close : bool) : double := if close then one else dzero.

Definition cosine (s : Sums) : double :=
  if dltb dzero (rn s) && dltb dzero (an s) then clamp (ddiv (dot s) (dsqrt (dmul (rn s) (an s)))) dzero one
  else if deqb (rn s) (an s) then one else dzero.

Definition validation_of (s : Sums) (valid : bool) (score : double) (why : string) : NumericalValidation := {|
  nv_valid := valid; shape_equal := true; dtype_equal := true; maximum_absolute_error := sum_absolute s;
  maximum_relative_error := sum_relative s; quality_score := score; nonfinite_values := sum_nonfinite s; nv_reason := why |}.

Definition validateNumerical (r a : list spec_float) (rs as_ : list Z) (dtype : string) (p : QualificationProtocol)
    : outcome NumericalValidation :=
  let shapes := bool_decide (rs = as_) && (length r =? length a)%nat && negb (bool_decide (r = [])) in
  let dtypes := String.eqb dtype (precision p) in
  let mismatch := "shape_or_dtype_mismatch" in
  if negb shapes || negb dtypes then
    Done {| nv_valid := false; shape_equal := shapes; dtype_equal := dtypes; maximum_absolute_error := dzero;
            maximum_relative_error := dzero; quality_score := dzero; nonfinite_values := 0; nv_reason := mismatch |}
  else
    let s := compare_values p r a no_sums in
    let finish score :=
      let valid := sum_close s && (sum_nonfinite s =? 0) && dleb (quality_threshold p) score in
      Done (validation_of s valid score
              (if valid then "numerical_and_quality_contract_satisfied" else "numerical_or_quality_contract_failed")) in
    if String.eqb (quality_metric p) "top1_agreement" then
      if batch_size p =? 0 then Undefined "remainder by zero"
      else if negb (Z.of_nat (length r) mod batch_size p =? 0) then Done (validation_of s false (agreement (sum_close s)) mismatch)
      else
        let w := Z.to_nat (Z.of_nat (length r) / batch_size p) in
        finish (ddiv (double_of_Z (matching_rows (Z.to_nat (batch_size p)) w r a 0)) (double_of_Z (batch_size p)))
    else if String.eqb (quality_metric p) "cosine_similarity" then finish (cosine s)
    else finish (agreement (sum_close s)).

(** * Statistics *)

Definition dle (a b : double) : Prop := dleb a b = true.
#[export] Instance dle_dec a b : Decision (dle a b).
Proof. unfold dle. apply _. Defined.

Section Statistics.
Context `{LongDouble}.

Fixpoint add_values (values : list double) (sum : spec_float) : Ex spec_float :=
  match values with
  | [] => mret sum
  | x :: values =>
      throw_if (negb (isfinite x) || dltb x dzero) "invalid_distribution_value";;
      add_values values (ld_add sum (ld_of_double x))
  end.

(** [(static_cast<long double>(x) - mean) * (x - mean)]: the second factor is
    rounded to a double. *)
Definition square_term (m x : double) : spec_float :=
  ld_mul (ld_sub (ld_of_double x) (ld_of_double m)) (ld_of_double (dsub x m)).

Definition variance_sum (m : double) (s : list double) : spec_float :=
  foldl (λ sum x, ld_add sum (square_term m x)) dzero s.

Definition median_of (s : list double) : double :=
  let at_ i := default dzero (s !! i) in
  let n := length s in
  let two := double_of_Z 2 in
  if Nat.odd n then at_ (n / 2)%nat else dadd (ddiv (at_ (n / 2 - 1)%nat) two) (ddiv (at_ (n / 2)%nat) two).

Definition summarize (values : list double) : Ex Distribution :=
  throw_if (bool_decide (values = [])) "empty_distribution";;
  sum ← add_values values dzero;
  let s := merge_sort dle values in
  let n := Z.of_nat (length s) in
  let m := double_of_ld (ld_div sum (ld_of_Z n)) in
  let deviation := if 1 <? n then dsqrt (double_of_ld (ld_div (variance_sum m s) (ld_of_Z (n - 1)))) else dzero in
  throw_if (negb (isfinite m) || negb (isfinite deviation)) "distribution_overflow";;
  mret {| mean := m; median := median_of s; standard_deviation := deviation;
          minimum := default dzero (head s); maximum := default dzero (last s) |}.

(** * Qualification of a candidate *)

Definition measured (m : EnergyMeasurement) (simulation : bool) : bool :=
  if negb simulation then claimEligible m
  else available m && bool_decide (evidence_class m = SyntheticTest) && isfinite (joules_per_fu m) &&
       dltb dzero (joules_per_fu m) &&
       match uncertainty_percent (instrument m) with Some u => isfinite u && dleb dzero u | None => false end.

(** The locals of the loop over the trials. *)
Record Readings := {
  l : list double; e : list double; uncertainty : double; r_boundary : string; r_source : string; r_instrument : string;
}.
Definition no_readings : Readings :=
  {| l := []; e := []; uncertainty := dzero; r_boundary := ""; r_source := ""; r_instrument := "" |}.

Definition trial_failed (p : QualificationProtocol) (t : ExecutionTrial) : bool :=
  let n := numerical t in
  negb (t_success t) || negb (nv_valid n) || negb (shape_equal n) || negb (dtype_equal n) || negb (nonfinite_values n =? 0) ||
  negb (isfinite (quality_score n)) || dltb (quality_score n) (quality_threshold p) ||
  negb (isfinite (latency_ms_per_fu t)) || dleb (latency_ms_per_fu t) dzero ||
  (dltb dzero (maximum_latency_ms p) && dltb (maximum_latency_ms p) (latency_ms_per_fu t)).

(** The measurement of a trial does not count. *)
Definition reading_skipped (p : QualificationProtocol) (simulation : bool) (t : ExecutionTrial) (r : Readings) : bool :=
  let m := energy t in
  negb (measured m simulation) || negb (functional_units m =? units_per_trial p) ||
  (negb (bool_decide (e r = [])) &&
   (negb (String.eqb (r_boundary r) (boundary (instrument m))) || negb (String.eqb (r_source r) (source_kind m)) ||
    negb (String.eqb (r_instrument r) (instrument_id (instrument m))))).

Definition read_trial (p : QualificationProtocol) (simulation : bool) (t : ExecutionTrial) (r : Readings) : Readings :=
  let m := energy t in
  let ls := (l r ++ [latency_ms_per_fu t])%list in
  if reading_skipped p simulation t r then
    {| l := ls; e := e r; uncertainty := uncertainty r; r_boundary := r_boundary r; r_source := r_source r;
       r_instrument := r_instrument r |}
  else
    {| l := ls; e := (e r ++ [joules_per_fu m])%list;
       uncertainty := float_max (uncertainty r) (default dzero (uncertainty_percent (instrument m)));
       r_boundary := boundary (instrument m); r_source := source_kind m; r_instrument := instrument_id (instrument m) |}.

(** [None] where the function returns from the loop. *)
Fixpoint read_trials (p : QualificationProtocol) (simulation : bool) (ts : list ExecutionTrial) (r : Readings) : option Readings :=
  match ts with
  | [] => Some r
  | t :: ts => if trial_failed p t then None else read_trials p simulation ts (read_trial p simulation t r)
  end.

Definition contract_mismatch (c : CandidateQualification) (p : QualificationProtocol) : bool :=
  let x := candidate c in
  negb (execution_ready x) || negb (String.eqb (c_precision x) (precision p)) ||
  negb (String.eqb (c_math_policy x) (math_policy p)) || negb (c_batch_size x =? batch_size p) ||
  negb (Z.of_nat (length (c_trials c)) =? trials p) || (threads x =? 0).

Definition qualify (c : CandidateQualification) (p : QualificationProtocol) (simulation : bool) : Ex CandidateQualification :=
  let c := with_verdict false false "candidate_execution_or_quality_failed" c in
  if contract_mismatch c p then mret c
  else match read_trials p simulation (c_trials c) no_readings with
  | None => mret c
  | Some r =>
      latency ← summarize (l r);
      let c := with_latency latency (with_verdict true false "direct_energy_unavailable_or_unqualified" c) in
      if negb (length (e r) =? length (c_trials c))%nat then mret c
      else
        energies ← summarize (e r);
        let u := dadd (uncertainty r) (ddiv (dmul (double_of_Z 200) (standard_deviation energies)) (mean energies)) in
        let c := with_joules energies u c in
        if negb (isfinite u) || dltb (maximum_uncertainty_percent p) u
        then mret (with_verdict true false "measurement_uncertainty_exceeds_contract" c)
        else if negb simulation && is_empty (guardrail_evidence_ref p)
        then mret (with_verdict true false "guardrail_evidence_missing" c)
        else mret (with_verdict true true (if simulation then "synthetic_test_candidate" else "valid_measured_candidate") c)
  end.

(** * Selection *)

Definition on_cpu (c : CandidateQualification) : bool := String.eqb (c_device (candidate c)) "cpu".

(** The first loop of [select]: qualified candidates and the baseline, which is
    the last valid single-threaded candidate on the processor. *)
Fixpoint qualify_all (p : QualificationProtocol) (simulation : bool) (i : nat) (cs : list CandidateQualification)
    (ids : gset string) (baseline : option nat) : Ex (list CandidateQualification * option nat) :=
  match cs with
  | [] => mret ([], baseline)
  | c :: cs =>
      throw_if (is_empty (c_id (candidate c)) || bool_decide (c_id (candidate c) ∈ ids)) "duplicate_candidate_id";;
      c ← qualify c p simulation;
      let baseline := if on_cpu c && (threads (candidate c) =? 1) && execution_valid c then Some i else baseline in
      r ← qualify_all p simulation (S i) cs ({[c_id (candidate c)]} ∪ ids) baseline;
      mret (c :: r.1, r.2)
  end.

(** [operator<] of tuples: the first components that differ decide. *)
Definition double_then (a b : double) (k : bool) : bool := dltb a b || (negb (dltb b a) && k).
Definition bool_then (a b k : bool) : bool := (negb a && b) || (negb (negb b && a) && k).

Definition key_less (x y : CandidateQualification) : bool :=
  double_then (mean (c_joules_per_fu x)) (mean (c_joules_per_fu y))
    (double_then (expanded_uncertainty_percent x) (expanded_uncertainty_percent y)
       (double_then (mean (latency_ms x)) (mean (latency_ms y))
          (bool_then (negb (on_cpu x)) (negb (on_cpu y)) (String.ltb (c_id (candidate x)) (c_id (candidate y)))))).

(** The measurements of the two candidates cannot be compared. *)
Definition incomparable (c b : CandidateQualification) (m bm : EnergyMeasurement) : bool :=
  negb (String.eqb (model_sha256 (candidate c)) (model_sha256 (candidate b))) ||
  negb (String.eqb (model_format (candidate c)) (model_format (candidate b))) || negb (energy_valid b) ||
  negb (String.eqb (boundary (instrument m)) (boundary (instrument bm))) ||
  negb (String.eqb (source_kind m) (source_kind bm)) ||
  negb (String.eqb (instrument_id (instrument m)) (instrument_id (instrument bm))).

(** One turn of the second loop; [b] and the selected candidate are read from
    the same vector that the turn changes. *)
Definition choose_step (p : QualificationProtocol) (baseline : nat) (i : nat) (cs : list CandidateQualification)
    (selected : option nat) : outcome (list CandidateQualification * option nat) :=
  match cs !! i, cs !! baseline with
  | Some c, Some b =>
      if negb (energy_valid c) || (negb (on_cpu c) && String.eqb (device_policy p) "cpu_only") then Done (cs, selected)
      else match head (c_trials c), head (c_trials b) with
      | Some t, Some bt =>
          if incomparable c b (energy t) (energy bt) then
            Done (<[i := with_verdict (execution_valid c) false "model_or_measurement_boundary_not_comparable" c]> cs, selected)
          else if negb (on_cpu c) && dleb (mean (c_joules_per_fu b)) (mean (c_joules_per_fu c)) then Done (cs, selected)
          else match selected with
          | None => Done (cs, Some i)
          | Some j =>
              match cs !! j with
              | Some s => Done (cs, if key_less c s then Some i else selected)
              | None => Undefined "candidate outside the vector"
              end
          end
      | _, _ => Undefined "front of an empty vector"
      end
  | _, _ => Undefined "candidate outside the vector"
  end.

(** The loop from [i], with [n] turns left. *)
Fixpoint choose_loop (p : QualificationProtocol) (baseline n i : nat) (cs : list CandidateQualification) (selected : option nat)
    : outcome (list CandidateQualification * option nat) :=
  match n with
  | O => Done (cs, selected)
  | S n =>
      match choose_step p baseline i cs selected with
      | Done (cs, selected) => choose_loop p baseline n (S i) cs selected
      | Undefined why => Undefined why
      | OutOfFuel => OutOfFuel
      end
  end.

Definition plan_without_energy (cs : list CandidateQualification) (selected : option nat) (why : string) (simulation : bool)
    : EnergyAwareExecutionPlan := {|
  candidates := cs; selected_candidate := selected; selection_reason := why; comparative_energy_claim := false;
  synthetic_test := simulation; reduction_percent := dzero; baseline_joules_per_fu := dzero; selected_joules_per_fu := dzero |}.

(** The interval of the selected candidate lies below that of the baseline. *)
Definition intervals_apart (s b : CandidateQualification) : bool :=
  dltb (dmul (mean (c_joules_per_fu s)) (dadd one (ddiv (expanded_uncertainty_percent s) hundred)))
       (dmul (mean (c_joules_per_fu b)) (dsub one (ddiv (expanded_uncertainty_percent b) hundred))).

Definition energy_plan (cs : list CandidateQualification) (selected baseline : nat) (simulation : bool)
    : outcome (Ex EnergyAwareExecutionPlan) :=
  match cs !! selected, cs !! baseline with
  | Some s, Some b =>
      let bj := mean (c_joules_per_fu b) in
      let sj := mean (c_joules_per_fu s) in
      Done (throw_if (dleb bj dzero) "invalid_energy_baseline";;
            mret {|
              candidates := cs; selected_candidate := Some selected;
              selection_reason := if simulation then "synthetic_test_minimum_energy"
                                  else "minimum_measured_joules_per_functional_unit";
              comparative_energy_claim := negb simulation && negb (selected =? baseline)%nat && intervals_apart s b;
              synthetic_test := simulation; reduction_percent := dmul (ddiv (dsub bj sj) bj) hundred;
              baseline_joules_per_fu := bj; selected_joules_per_fu := sj |})
  | _, _ => Undefined "candidate outside the vector"
  end.

Definition select (cs : list CandidateQualification) (p : QualificationProtocol) (simulation : bool)
    : outcome (Ex EnergyAwareExecutionPlan) :=
  match validateProtocol p;; throw_if (bool_decide (cs = []) || (16 <? Z.of_nat (length cs))) "invalid_candidate_count";;
        qualify_all p simulation 0 cs ∅ None with
  | inl why => Done (throw why)
  | inr (cs, None) => Done (mret (plan_without_energy cs None "cpu_baseline_failed" simulation))
  | inr (cs, Some baseline) =>
      match choose_loop p baseline (length cs) 0 cs None with
      | Done (cs, Some selected) => energy_plan cs selected baseline simulation
      | Done (cs, None) =>
          Done (mret (if negb (require_measured_energy p)
                      then plan_without_energy cs (Some baseline) "cpu_baseline_without_energy_optimization" simulation
                      else plan_without_energy cs None "required_measured_energy_unavailable" simulation))
      | Undefined why => Undefined why
      | OutOfFuel => OutOfFuel
      end
  end.

Definition selectEnergyPlan (cs : list CandidateQualification) (p : QualificationProtocol) := select cs p false.
Definition simulateEnergyPlan (cs : list CandidateQualification) (p : QualificationProtocol) := select cs p true.

End Statistics.

(** * Threads *)

(** [availableCpuThreads], from what [hardware_concurrency] reports and, on Linux,
    the number of processors of the affinity mask, if the call succeeds. *)
Definition availableCpuThreads (concurrency : Z) (affinity : option Z) : Z :=
  let n := Z.max 1 concurrency in
  let n := match affinity with Some c => if 0 <? c then Z.min n c else n | None => n end in
  Z.min n 256.

Fixpoint requested_threads (cpus : Z) (requested : list Z) (v : gset Z) : Ex (gset Z) :=
  match requested with
  | [] => mret v
  | n :: requested =>
      throw_if ((n =? 0) || (cpus <? n)) "thread_candidate_exceeds_available_cpus";;
      requested_threads cpus requested ({[n]} ∪ v)
  end.

Definition cpuThreadCandidates (cpus : Z) (requested : list Z) : Ex (list Z) :=
  v ← (if bool_decide (requested = [])
       then mret ({[1]} ∪ list_to_set (filter (λ n, n ≤ cpus) [2; 4; 8]) : gset Z)
       else requested_threads cpus requested {[1]});
  throw_if (16 <? Z.of_nat (size v)) "too_many_thread_candidates";;
  mret (merge_sort Z.le (elements v)).

(** The fields that a protocol starts with, with a workload, a guardrail and a
    latency bound. *)
Definition default_protocol (name guardrail : string) : QualificationProtocol := {|
  workload := name; functional_unit := "successful_inference"; quality_metric := "output_agreement";
  device_policy := "cpu_first"; precision := "float32"; math_policy := "preserve_fp32_no_quantization";
  guardrail_evidence_ref := guardrail; profile_sha256 := ""; batch_size := 1; warmups := 2; repetitions := 5; trials := 3;
  units_per_trial := 5; maximum_memory_bytes := 1024 * 1024 * 1024; absolute_tolerance := decimal "1e-5";
  relative_tolerance := decimal "1e-4"; quality_threshold := one; maximum_latency_ms := dzero;
  maximum_uncertainty_percent := double_of_Z 20; require_measured_energy := false |}.
