(* ===== verification/ExecutionPlanFacts.v ===== *)
(** What the selection of an execution plan promises: the plan is the one that a
    declarative reading of the protocol determines, the selected candidate has
    strictly the least key of the eligible ones, and an energy claim rests on
    eligible measurements of every trial. *)
From Stdlib Require Import SpecFloat.
From stdpp Require Import sorting.
From S2P Require Import Prelude CxxInt CxxString CxxFloat FloatOrder C3EcoFacts Energy EnergyCollectors EnergyFacts ExecutionPlan.
Open Scope string_scope.
Open Scope Z_scope.

(** * The order of the keys *)

Definition key_defined (c : CandidateQualification) : Prop :=
  not_nan (mean (c_joules_per_fu c)) = true ∧ not_nan (expanded_uncertainty_percent c) = true ∧
  not_nan (mean (latency_ms c)) = true.

(** A strict total order on what the keys of two candidates distinguish. *)
Definition key_lt (x y : CandidateQualification) : Prop :=
  let lex (a b : Z * Z * Z) (k : Prop) := rank_lt a b ∨ (a = b ∧ k) in
  lex (rank (mean (c_joules_per_fu x))) (rank (mean (c_joules_per_fu y)))
    (lex (rank (expanded_uncertainty_percent x)) (rank (expanded_uncertainty_percent y))
       (lex (rank (mean (latency_ms x))) (rank (mean (latency_ms y)))
          ((on_cpu x = true ∧ on_cpu y = false) ∨
           (on_cpu x = on_cpu y ∧ String.ltb (c_id (candidate x)) (c_id (candidate y)) = true)))).

Lemma double_then_rank a b k (K : Prop) : not_nan a = true → not_nan b = true → (k = true ↔ K) →
  double_then a b k = true ↔ rank_lt (rank a) (rank b) ∨ (rank a = rank b ∧ K).
Proof.
  intros Ha Hb Hk. unfold double_then. rewrite orb_true_iff, andb_true_iff, negb_true_iff, dltb_rank, Hk by done.
  assert (dltb b a = false ↔ ¬ rank_lt (rank b) (rank a)) as -> by (rewrite <- dltb_rank by done; by destruct (dltb b a)).
  destruct (rank_lt_total (rank a) (rank b)) as [H|[H|H]]; [by intuition| |].
  - rewrite H. pose proof (rank_lt_irrefl (rank b)). intuition.
  - split; [intros [?|[? ?]]; [by left|done]|]. intros [?|[He ?]]; [by left|]. rewrite He in H. by apply rank_lt_irrefl in H.
Qed.

Lemma key_less_lt x y : key_defined x → key_defined y → key_less x y = true ↔ key_lt x y.
Proof.
  intros (? & ? & ?) (? & ? & ?). unfold key_less, key_lt. repeat (apply double_then_rank; [done..|]).
  unfold bool_then. destruct (on_cpu x), (on_cpu y); simpl; intuition congruence.
Qed.

Lemma string_ltb_compare a b : String.ltb a b = true ↔ String.compare a b = Lt.
Proof. unfold String.ltb. by destruct (String.compare a b). Qed.

Lemma string_compare_lt_trans a b c : String.compare a b = Lt → String.compare b c = Lt → String.compare a c = Lt.
Proof.
  revert b c. induction a as [|x a IH]; intros [|y b] [|z c]; cbn; try done. unfold Ascii.compare.
  destruct (N.compare_spec (N_of_ascii x) (N_of_ascii y)) as [H1|H1|H1]; [|intros _|done];
  (destruct (N.compare_spec (N_of_ascii y) (N_of_ascii z)) as [H2|H2|H2]; [intros H3|intros H3|done]);
  destruct (N.compare_spec (N_of_ascii x) (N_of_ascii z)) as [H4|H4|H4]; try done; try lia; eauto.
Qed.

Lemma string_ltb_trans a b c : String.ltb a b = true → String.ltb b c = true → String.ltb a c = true.
Proof. rewrite !string_ltb_compare. apply string_compare_lt_trans. Qed.

Lemma string_ltb_irrefl a : String.ltb a a = false.
Proof. unfold String.ltb. pose proof (String.compare_antisym a a). by destruct (String.compare a a). Qed.

Lemma string_ltb_total a b : a ≠ b → String.ltb a b = true ∨ String.ltb b a = true.
Proof.
  intros Hne. unfold String.ltb. rewrite (String.compare_antisym b a).
  destruct (String.compare a b) eqn:E; simpl; auto. by apply String.compare_eq_iff in E.
Qed.

Lemma key_lt_irrefl x : ¬ key_lt x x.
Proof.
  unfold key_lt. rewrite string_ltb_irrefl.
  intros [?%rank_lt_irrefl|[_ [?%rank_lt_irrefl|[_ [?%rank_lt_irrefl|[_ [[? ?]|[_ ?]]]]]]]]; congruence.
Qed.

Lemma key_lt_trans x y z : key_lt x y → key_lt y z → key_lt x z.
Proof.
  unfold key_lt. cbv zeta beta.
  intros [H1|[E1 [H2|[E2 [H3|[E3 H4]]]]]] [K1|[F1 [K2|[F2 [K3|[F3 K4]]]]]];
    repeat match goal with E : rank _ = rank _ |- _ => rewrite <- ?E, ?E in *; clear E end; eauto 12 using rank_lt_trans.
  repeat (right; split; [done|]). destruct H4 as [[? ?]|[-> ?]], K4 as [[? ?]|[? ?]]; try congruence; [left|left|right];
    split; try congruence. by eapply string_ltb_trans.
Qed.

Lemma key_lt_total x y : c_id (candidate x) ≠ c_id (candidate y) → key_lt x y ∨ key_lt y x.
Proof.
  intros Hne. unfold key_lt. cbv zeta beta.
  destruct (rank_lt_total (rank (mean (c_joules_per_fu x))) (rank (mean (c_joules_per_fu y)))) as [?|[->|?]]; [tauto| |tauto].
  destruct (rank_lt_total (rank (expanded_uncertainty_percent x)) (rank (expanded_uncertainty_percent y))) as [?|[->|?]];
    [tauto| |tauto].
  destruct (rank_lt_total (rank (mean (latency_ms x))) (rank (mean (latency_ms y)))) as [?|[->|?]]; [tauto| |tauto].
  destruct (string_ltb_total _ _ Hne); destruct (on_cpu x), (on_cpu y); intuition congruence.
Qed.

(** * The specification *)

(** The measurement of the first trial stands for the candidate. *)
Definition comparable (c b : CandidateQualification) : bool :=
  match head (c_trials c), head (c_trials b) with
  | Some t, Some bt => negb (incomparable c b (energy t) (energy bt))
  | _, _ => false
  end.

Definition permitted (p : QualificationProtocol) (c : CandidateQualification) : bool :=
  on_cpu c || negb (String.eqb (device_policy p) "cpu_only").

(** A candidate whose measurement the baseline's does not match loses it. *)
Definition judge (p : QualificationProtocol) (b c : CandidateQualification) : CandidateQualification :=
  if energy_valid c && permitted p c && negb (comparable c b)
  then with_verdict (execution_valid c) false "model_or_measurement_boundary_not_comparable" c else c.

(** Measured, permitted, comparable with the baseline, and on another device only
    if it saves energy. *)
Definition eligible (p : QualificationProtocol) (b c : CandidateQualification) : Prop :=
  energy_valid c = true ∧ permitted p c = true ∧ comparable c b = true ∧
  (on_cpu c = true ∨ dltb (mean (c_joules_per_fu c)) (mean (c_joules_per_fu b)) = true).

(** [i] has strictly the least key of the eligible candidates. *)
Definition best (p : QualificationProtocol) (b : CandidateQualification) (qs : list CandidateQualification) (i : nat)
    (c : CandidateQualification) : Prop :=
  qs !! i = Some c ∧ eligible p b c ∧
  ∀ j d, qs !! j = Some d → eligible p b d → j ≠ i → key_less c d = true.

Definition can_be_baseline (c : CandidateQualification) : Prop :=
  on_cpu c = true ∧ threads (candidate c) = 1 ∧ execution_valid c = true.

(** The last candidate that can be the baseline. *)
Definition is_baseline (qs : list CandidateQualification) (i : nat) (b : CandidateQualification) : Prop :=
  qs !! i = Some b ∧ can_be_baseline b ∧ ∀ j c, qs !! j = Some c → can_be_baseline c → (j ≤ i)%nat.

Section Spec.
Context `{LongDouble} (p : QualificationProtocol) (simulation : bool).

(** The input is accepted, and [qs] are its qualified candidates. *)
Definition admitted (cs qs : list CandidateQualification) : Prop :=
  validateProtocol p = inr tt ∧ (1 ≤ length cs ≤ 16)%nat ∧ NoDup (map (λ c, c_id (candidate c)) cs) ∧
  Forall (λ c, c_id (candidate c) ≠ "") cs ∧ Forall2 (λ c q, qualify c p simulation = inr q) cs qs.

(** The plan for the qualified candidates [qs]. *)
Inductive planned (qs : list CandidateQualification) : EnergyAwareExecutionPlan → Prop :=
| planned_failed : (∀ j c, qs !! j = Some c → ¬ can_be_baseline c) →
    planned qs (plan_without_energy qs None "cpu_baseline_failed" simulation)
| planned_baseline i b : is_baseline qs i b → (∀ j c, qs !! j = Some c → ¬ eligible p b c) → require_measured_energy p = false →
    planned qs (plan_without_energy (judge p b <$> qs) (Some i) "cpu_baseline_without_energy_optimization" simulation)
| planned_refused i b : is_baseline qs i b → (∀ j c, qs !! j = Some c → ¬ eligible p b c) → require_measured_energy p = true →
    planned qs (plan_without_energy (judge p b <$> qs) None "required_measured_energy_unavailable" simulation)
| planned_energy i b j c plan : is_baseline qs i b → best p b qs j c → energy_plan (judge p b <$> qs) j i simulation = Done (inr plan) →
    planned qs plan.

End Spec.

(** * The first loop *)

(** What a qualified candidate keeps of the candidate, and that the numbers of
    its key are defined. *)
Definition keeps (c q : CandidateQualification) : Prop := candidate q = candidate c ∧ c_trials q = c_trials c ∧ phases q = phases c.

Section Facts.
Context `{LongDouble}.

Lemma summarize_finite values d : summarize values = inr d →
  isfinite (mean d) = true ∧ isfinite (standard_deviation d) = true ∧ values ≠ [].
Proof.
  unfold summarize. intros [Hne (sum & _ & Hd)%Ex_bind_inr]%throw_if_inr. apply throw_if_inr in Hd as [Hf [= <-]].
  cbn [mean standard_deviation].
  apply orb_false_iff in Hf as [?%negb_false_iff ?%negb_false_iff]. apply bool_decide_eq_false in Hne. auto.
Qed.

Lemma qualify_keeps c p simulation q : qualify c p simulation = inr q → keeps c q.
Proof.
  unfold qualify. destruct (contract_mismatch _ _); [by intros [= <-]|]. destruct (read_trials _ _ _ _) as [r|]; [|by intros [= <-]].
  intros (d & _ & Hq)%Ex_bind_inr. destruct (negb _); [by injection Hq as <-|]. apply Ex_bind_inr in Hq as (e' & _ & Hq).
  repeat (destruct (_ || _) in Hq || destruct (_ && _) in Hq); by injection Hq as <-.
Qed.

(** What a measurement was taken with. *)
Definition measured_with (m : EnergyMeasurement) : string * string * string :=
  (boundary (instrument m), source_kind m, instrument_id (instrument m)).
Definition read_with (r : Readings) : string * string * string := (r_boundary r, r_source r, r_instrument r).

(** The measurement of a trial counts. *)
Definition counted (p : QualificationProtocol) (simulation : bool) (t : ExecutionTrial) : Prop :=
  measured (energy t) simulation = true ∧ functional_units (energy t) = units_per_trial p.

Lemma reading_taken p simulation t r : reading_skipped p simulation t r = false →
  counted p simulation t ∧ (e r ≠ [] → measured_with (energy t) = read_with r).
Proof.
  unfold reading_skipped, counted, measured_with, read_with.
  intros [[Hm%negb_false_iff Hu%negb_false_iff%Z.eqb_eq]%orb_false_iff Hi]%orb_false_iff. split; [done|]. intros Hne.
  apply andb_false_iff in Hi as [Hi|Hi]; [apply negb_false_iff, bool_decide_eq_true in Hi; done|].
  apply orb_false_iff in Hi as [[H1 H2]%orb_false_iff H3].
  apply negb_false_iff, String.eqb_eq in H1, H2, H3. congruence.
Qed.

Lemma read_trials_spec p simulation ts r r' : read_trials p simulation ts r = Some r' →
  Forall (λ t, trial_failed p t = false) ts ∧ l r' = (l r ++ map latency_ms_per_fu ts)%list ∧
  (length (e r') ≤ length (e r) + length ts)%nat ∧
  (length (e r') = (length (e r) + length ts)%nat →
     Forall (counted p simulation) ts ∧ e r' = (e r ++ map (λ t, joules_per_fu (energy t)) ts)%list ∧
     Forall (λ t, measured_with (energy t) = read_with r') ts ∧ (e r ≠ [] → read_with r' = read_with r)).
Proof.
  revert r. induction ts as [|t ts IH]; intros r; cbn [read_trials].
  - intros [= <-]. cbn. rewrite !app_nil_r. split_and!; auto with lia.
  - destruct (trial_failed p t) eqn:Hf; [done|]. intros (Hall & Hl & Hle & Hfull)%IH. unfold read_trial in Hl, Hle, Hfull.
    destruct (reading_skipped p simulation t r) eqn:Hs; cbn [l e length map] in *; rewrite <- app_assoc in Hl;
      (split_and!; [by constructor|done| |]).
    + lia.
    + intros Heq. lia.
    + rewrite length_app in Hle. cbn in Hle. lia.
    + rewrite length_app in Hfull. cbn in Hfull. intros Heq. destruct Hfull as (Hc & He & Hw & Hr); [lia|].
      destruct (reading_taken _ _ _ _ Hs) as [Ht Hsame]. rewrite <- app_assoc in He.
      assert (read_with r' = measured_with (energy t)) as Hr' by (by apply Hr; destruct (e r)).
      split_and!; [by constructor|done|by constructor|]. intros Hne. rewrite Hr'. auto.
Qed.

(** What the energy verdict of a qualified candidate rests on. *)
Record measured_candidate (p : QualificationProtocol) (simulation : bool) (q : CandidateQualification) : Prop := {
  mc_contract : contract_mismatch q p = false;
  mc_succeeded : Forall (λ t, trial_failed p t = false) (c_trials q);
  mc_counted : Forall (counted p simulation) (c_trials q);
  mc_instrument : ∃ w, Forall (λ t, measured_with (energy t) = w) (c_trials q);
  mc_latency : summarize (map latency_ms_per_fu (c_trials q)) = inr (latency_ms q);
  mc_joules : summarize (map (λ t, joules_per_fu (energy t)) (c_trials q)) = inr (c_joules_per_fu q);
  mc_uncertainty : isfinite (expanded_uncertainty_percent q) = true ∧
                   dltb (maximum_uncertainty_percent p) (expanded_uncertainty_percent q) = false;
  mc_guardrail : simulation = false → guardrail_evidence_ref p ≠ "";
}.

Lemma qualify_measured c p simulation q : qualify c p simulation = inr q → energy_valid q = true →
  measured_candidate p simulation q.
Proof.
  unfold qualify. destruct (contract_mismatch _ _) eqn:Hc; [by intros [= <-]|].
  destruct (read_trials _ _ _ _) as [r|] eqn:Hr; [|by intros [= <-]]. cbn [c_trials with_verdict] in *.
  intros (d & Hd & Hq)%Ex_bind_inr. destruct (negb (length (e r) =? _)%nat) eqn:Hlen; [by injection Hq as <-|].
  apply negb_false_iff, Nat.eqb_eq in Hlen. cbn [c_trials with_latency with_verdict] in Hlen.
  apply read_trials_spec in Hr as (Hs & Hl & _ & Hfull). destruct (Hfull Hlen) as (Hcount & He & Hw & _).
  cbn [no_readings l e] in Hl, He. rewrite app_nil_l in Hl, He. rewrite Hl in Hd. rewrite He in Hq.
  apply Ex_bind_inr in Hq as (j & Hj & Hq).
  destruct (_ || _) eqn:Hu in Hq; [by injection Hq as <-|]. apply orb_false_iff in Hu as [Hu1%negb_false_iff Hu2].
  destruct (_ && _) eqn:Hg in Hq; [by injection Hq as <-|]. injection Hq as <-. intros _.
  split; cbn; eauto. intros ->. cbn in Hg. destruct (guardrail_evidence_ref p); [done|]. congruence.
Qed.

Lemma measured_key p simulation q : measured_candidate p simulation q → key_defined q.
Proof.
  intros [_ _ _ _ (? & _)%summarize_finite (? & _)%summarize_finite [? _] _]. unfold key_defined. auto using isfinite_not_nan.
Qed.

Lemma qualify_executed c p simulation q : qualify c p simulation = inr q → execution_valid q = true → c_trials q ≠ [].
Proof.
  intros Hq. pose proof (qualify_keeps _ _ _ _ Hq) as (_ & -> & _). revert Hq. unfold qualify.
  destruct (contract_mismatch _ _); [by intros [= <-]|]. destruct (read_trials _ _ _ _) as [r|] eqn:Hr; [|by intros [= <-]].
  intros (d & Hd & _)%Ex_bind_inr _ Hnil. cbn [c_trials with_verdict] in Hr. rewrite Hnil in Hr. injection Hr as <-.
  by apply summarize_finite in Hd as (_ & _ & ?).
Qed.

(** The baseline among the candidates from index [i] on, [found] before them. *)
Fixpoint baseline_from (i : nat) (qs : list CandidateQualification) (found : option nat) : option nat :=
  match qs with
  | [] => found
  | q :: qs => baseline_from (S i) qs (if on_cpu q && (threads (candidate q) =? 1) && execution_valid q then Some i else found)
  end.

Lemma can_be_baseline_bool q : on_cpu q && (threads (candidate q) =? 1) && execution_valid q = true ↔ can_be_baseline q.
Proof. unfold can_be_baseline. rewrite !andb_true_iff, Z.eqb_eq. tauto. Qed.

Lemma baseline_from_spec i qs found :
  match baseline_from i qs found with
  | Some k => (∃ j q, k = (i + j)%nat ∧ qs !! j = Some q ∧ can_be_baseline q ∧
                 ∀ j' q', qs !! j' = Some q' → can_be_baseline q' → (j' ≤ j)%nat) ∨
              (found = Some k ∧ ∀ j q, qs !! j = Some q → ¬ can_be_baseline q)
  | None => found = None ∧ ∀ j q, qs !! j = Some q → ¬ can_be_baseline q
  end.
Proof.
  revert i found. induction qs as [|q qs IH]; intros i found; cbn [baseline_from];
    [destruct found; [right|]; (split; [done|]); by intros ? ? ?|].
  specialize (IH (S i) (if on_cpu q && (threads (candidate q) =? 1) && execution_valid q then Some i else found)).
  pose proof (can_be_baseline_bool q) as Hcan. destruct (_ && _) eqn:E; destruct (baseline_from _ _ _) as [k|].
  - left. destruct IH as [(j & r & -> & Hr & ? & Hlast)|[[= <-] Hno]].
    + exists (S j), r. split_and!; [lia|done..|]. intros [|j'] r' Hr' ?; [lia|]. assert (j' ≤ j)%nat by eauto. lia.
    + exists O, q. split_and!; [lia|done|by apply Hcan|]. intros [|j'] r' Hr' ?; [lia|]. by apply Hno in Hr'.
  - by destruct IH as [? _].
  - destruct IH as [(j & r & -> & Hr & ? & Hlast)|[-> Hno]].
    + left. exists (S j), r. split_and!; [lia|done..|]. intros [|j'] r' Hr' ?; [lia|]. assert (j' ≤ j)%nat by eauto. lia.
    + right. split; [done|]. intros [|j] r Hr; [|by eapply Hno]. injection Hr as <-. intros ?%Hcan. congruence.
  - destruct IH as [-> Hno]. split; [done|]. intros [|j] r Hr; [|by eapply Hno]. injection Hr as <-. intros ?%Hcan. congruence.
Qed.

Lemma baseline_found qs k b : qs !! k = Some b → baseline_from 0 qs None = Some k → is_baseline qs k b.
Proof.
  intros Hb Hk. pose proof (baseline_from_spec 0 qs None) as Hs. rewrite Hk in Hs.
  destruct Hs as [(j & q & -> & Hq & Hcan & Hlast)|[? _]]; [|done]. cbn in Hb. split_and!; [done| |done]. congruence.
Qed.

Lemma is_baseline_unique qs i b j c : is_baseline qs i b → is_baseline qs j c → i = j.
Proof. intros (Hi & Hci & Hli) (Hj & Hcj & Hlj). specialize (Hli j c Hj Hcj). specialize (Hlj i b Hi Hci). lia. Qed.

Lemma is_baseline_from qs k b : is_baseline qs k b → baseline_from 0 qs None = Some k.
Proof.
  intros Hk. pose proof (baseline_from_spec 0 qs None) as Hs. destruct (baseline_from 0 qs None) as [j|].
  - destruct Hs as [(j' & q & -> & Hq & Hcan & Hlast)|[? _]]; [|done]. f_equal.
    by apply (is_baseline_unique qs _ q k b); [split_and!|].
  - destruct Hs as [_ Hno], Hk as (Hb & Hcan & _). by destruct (Hno k b Hb).
Qed.

Lemma qualify_all_spec p simulation cs : ∀ i ids found qs r,
  qualify_all p simulation i cs ids found = inr (qs, r) ↔
  NoDup (map (λ c, c_id (candidate c)) cs) ∧ Forall (λ c, c_id (candidate c) ≠ "" ∧ c_id (candidate c) ∉ ids) cs ∧
  Forall2 (λ c q, qualify c p simulation = inr q) cs qs ∧ r = baseline_from i qs found.
Proof.
  induction cs as [|c cs IH]; intros i ids found qs r; cbn [qualify_all map].
  - split; [by intros [= <- <-]; split_and!; constructor|]. by intros (_ & _ & ->%Forall2_nil_inv_l & ->).
  - rewrite throw_if_inr. split.
    + intros [[Hid Hnew%bool_decide_eq_false]%orb_false_iff (q & Hq & Hrest)%Ex_bind_inr].
      apply Ex_bind_inr in Hrest as ([qs' r'] & (Hnd & Hall & Hqs & ->)%IH & [= <- <-]).
      apply qualify_keeps in Hq as Hk. destruct Hk as (Hcand & _ & _).
      split_and!; [| |by constructor|by cbn]; [constructor; [|done]|].
      * intros (d & Hd1 & Hd2%list_elem_of_In)%list_elem_of_In%in_map_iff.
        rewrite Forall_forall in Hall. apply Hall in Hd2. rewrite Hcand in Hd2. set_solver.
      * constructor; [split; [by destruct (c_id (candidate c))|done]|].
        eapply Forall_impl; [exact Hall|]. cbn. set_solver.
    + intros ([Hnotin Hnd]%NoDup_cons & [[Hne Hnew] Hall]%Forall_cons & Hqs & ->).
      inversion Hqs as [|? q ? qs' Hq Hqs']; subst. apply qualify_keeps in Hq as Hk. destruct Hk as (Hcand & _ & _).
      split; [apply orb_false_iff; split; [by destruct (c_id (candidate c))|by apply bool_decide_eq_false]|].
      apply Ex_bind_inr. exists q. split; [done|]. apply Ex_bind_inr. eexists (qs', _). split; [|done].
      apply IH. split_and!; [done| |done|done]. apply Forall_forall. intros d Hd.
      rewrite Forall_forall in Hall. destruct (Hall d Hd) as [? ?]. split; [done|]. rewrite Hcand.
      rewrite not_elem_of_union, elem_of_singleton. split; [|done]. intros Heq. apply Hnotin. rewrite <- Heq.
      apply list_elem_of_In, (in_map (λ c, c_id (candidate c))). by apply list_elem_of_In.
Qed.

(** * The second loop *)

(** What the first loop leaves. *)
Record qualified_vector (qs : list CandidateQualification) (k : nat) (b : CandidateQualification) : Prop := {
  qv_ids : NoDup (map (λ c, c_id (candidate c)) qs);
  qv_trials : ∀ i c, qs !! i = Some c → energy_valid c = true → c_trials c ≠ [] ∧ key_defined c;
  qv_baseline : qs !! k = Some b;
  qv_baseline_trials : c_trials b ≠ [];
}.

Lemma incomparable_self b m : incomparable b b m m = negb (energy_valid b).
Proof. unfold incomparable. rewrite !String.eqb_refl. cbn. by destruct (energy_valid b). Qed.

Lemma comparable_baseline c b : comparable c b = true → energy_valid b = true.
Proof.
  unfold comparable. destruct (head (c_trials c)) as [t|], (head (c_trials b)) as [bt|]; try done.
  intros Hc%negb_true_iff. unfold incomparable in Hc. by destruct (energy_valid b); [|rewrite !orb_true_r in Hc].
Qed.

Lemma judge_baseline p b : c_trials b ≠ [] → judge p b b = b.
Proof.
  intros Ht. unfold judge, comparable. destruct (c_trials b) as [|t ts]; [done|]. cbn [head]. rewrite incomparable_self.
  by destruct (energy_valid b), (permitted p b).
Qed.

Lemma judge_eligible p b c : eligible p b c → judge p b c = c.
Proof. intros (_ & _ & Hc & _). unfold judge. rewrite Hc. cbn. by rewrite andb_false_r. Qed.

Section Loop.
Context (p : QualificationProtocol) (k : nat) (qs : list CandidateQualification) (b : CandidateQualification).
Context (Hqs : qualified_vector qs k b).

(** The vector after [n] turns. *)
Definition judged (n : nat) : list CandidateQualification := ((judge p b <$> take n qs) ++ drop n qs)%list.

Lemma judged_lookup n i c : qs !! i = Some c → judged n !! i = Some (if decide (i < n)%nat then judge p b c else c).
Proof.
  intros Hi. pose proof (lookup_lt_Some _ _ _ Hi) as Hlt. unfold judged. destruct (decide (i < n)%nat) as [Hn|Hn].
  - rewrite lookup_app_l by (rewrite length_fmap, length_take; lia). rewrite list_lookup_fmap, lookup_take_lt by lia. by rewrite Hi.
  - rewrite lookup_app_r by (rewrite length_fmap, length_take; lia). rewrite length_fmap, length_take, lookup_drop.
    replace (n + (i - n `min` length qs))%nat with i by lia. done.
Qed.

Lemma judged_baseline n : judged n !! k = Some b.
Proof.
  rewrite (judged_lookup n k b) by apply Hqs. destruct (decide _); [|done]. by rewrite judge_baseline by apply Hqs.
Qed.

Lemma judged_step n c : qs !! n = Some c → <[n := judge p b c]> (judged n) = judged (S n).
Proof.
  intros Hn. pose proof (lookup_lt_Some _ _ _ Hn) as Hlt. unfold judged. rewrite (drop_S _ _ _ Hn).
  rewrite (take_S_r _ _ _ Hn), fmap_app, <- app_assoc. cbn.
  replace n with (length (judge p b <$> take n qs) + 0)%nat at 1 by (rewrite length_fmap, length_take; lia).
  by rewrite insert_app_r.
Qed.

Lemma judged_same n c : qs !! n = Some c → judge p b c = c → judged (S n) = judged n.
Proof. intros Hn Hj. rewrite <- (judged_step n c) by done. rewrite Hj. apply list_insert_id. by rewrite (judged_lookup n n c), decide_False by (done || lia). Qed.

(** The candidate selected after [n] turns. *)
Definition chosen (n : nat) (selected : option nat) : Prop :=
  match selected with
  | None => ∀ j d, (j < n)%nat → qs !! j = Some d → ¬ eligible p b d
  | Some i => ∃ c, (i < n)%nat ∧ qs !! i = Some c ∧ eligible p b c ∧
                   ∀ j d, (j < n)%nat → qs !! j = Some d → eligible p b d → j ≠ i → key_less c d = true
  end.

Lemma chosen_skip n c s : qs !! n = Some c → ¬ eligible p b c → chosen n s → chosen (S n) s.
Proof.
  intros Hn Hno. destruct s as [i|]; cbn.
  - intros (d & ? & ? & ? & Hbest). exists d. split_and!; auto with lia. intros j e' Hj Hje He Hne.
    destruct (decide (j = n)) as [->|]; [by simplify_eq|]. apply (Hbest j e'); (done || lia).
  - intros Hnone j d Hj Hd. destruct (decide (j = n)) as [->|]; [by simplify_eq|]. apply (Hnone j d); (done || lia).
Qed.

Lemma eligible_defined i c : qs !! i = Some c → eligible p b c → c_trials c ≠ [] ∧ key_defined c ∧ energy_valid b = true.
Proof.
  intros Hi (He & _ & Hc & _). destruct (qv_trials _ _ _ Hqs i c Hi He) as [? ?]. split_and!; [done..|].
  by apply (comparable_baseline c).
Qed.

Lemma other_ids i j c d : qs !! i = Some c → qs !! j = Some d → i ≠ j → c_id (candidate c) ≠ c_id (candidate d).
Proof.
  intros Hi Hj Hne Heq. apply Hne. eapply (NoDup_lookup (map (λ c, c_id (candidate c)) qs)); [apply Hqs| |].
  - change (map ?f ?l) with (f <$> l). rewrite list_lookup_fmap, Hi. done.
  - change (map ?f ?l) with (f <$> l). rewrite list_lookup_fmap, Hj. cbn. by rewrite Heq.
Qed.

Lemma chosen_new n c s : qs !! n = Some c → eligible p b c → chosen n s →
  chosen (S n) (match s with
                | None => Some n
                | Some i => match qs !! i with Some d => if key_less c d then Some n else s | None => s end
                end).
Proof.
  intros Hn He Hs. destruct (eligible_defined n c Hn He) as (_ & Hkc & _). destruct s as [i|]; cbn in Hs.
  - destruct Hs as (d & Hi & Hd & Hed & Hbest). rewrite Hd. destruct (eligible_defined i d Hd Hed) as (_ & Hkd & _).
    destruct (key_less c d) eqn:Hlt; cbn.
    + exists c. split_and!; auto with lia. intros j e' Hj Hje Hee Hne.
      destruct (eligible_defined j e' Hje Hee) as (_ & Hke & _).
      destruct (decide (j = i)) as [->|Hji]; [by simplify_eq|]. apply key_less_lt in Hlt; [|done..]. apply key_less_lt; [done..|].
      eapply key_lt_trans; [done|]. apply key_less_lt; [done..|]. apply (Hbest j e'); (done || lia).
    + exists d. split_and!; auto with lia. intros j e' Hj Hje Hee Hne. destruct (decide (j = n)) as [->|]; [|apply (Hbest j e'); (done || lia)].
      simplify_eq. destruct (key_lt_total c d) as [H'|H']; [eapply (other_ids n i); eauto with lia| |by apply key_less_lt].
      apply key_less_lt in H'; [congruence|done..].
  - exists c. split_and!; auto with lia. intros j d Hj Hd Hed Hne. exfalso. eapply Hs; [|done..]. lia.
Qed.

Lemma choose_step_spec n c s : qs !! n = Some c → chosen n s →
  ∃ s', choose_step p k n (judged n) s = Done (judged (S n), s') ∧ chosen (S n) s'.
Proof.
  intros Hn Hs. unfold choose_step. rewrite (judged_lookup n n c) by done. rewrite decide_False by lia. rewrite judged_baseline.
  assert (∀ cond, cond = true → (cond = true → ¬ eligible p b c ∧ judge p b c = c) →
     ∃ s', Done (judged n, s) = Done (judged (S n), s') ∧ chosen (S n) s') as Hskip.
  { intros cond Hc Hno. destruct (Hno Hc) as [Hne Hj]. exists s. rewrite (judged_same n c) by done. eauto using chosen_skip. }
  destruct (negb (energy_valid c) || _) eqn:H1.
  { apply (Hskip _ H1). intros Hx. unfold eligible, judge, permitted. destruct (energy_valid c), (on_cpu c), (device_policy p =? "cpu_only")%string; naive_solver. }
  apply orb_false_iff in H1 as [Hv%negb_false_iff Hp].
  assert (permitted p c = true) as Hperm by (unfold permitted; destruct (on_cpu c); [done|]; cbn in *; by rewrite Hp).
  destruct (qv_trials _ _ _ Hqs n c Hn Hv) as [Ht Hkey]. destruct (head (c_trials c)) as [t|] eqn:Hht; [|by destruct (c_trials c)].
  destruct (head (c_trials b)) as [bt|] eqn:Hbt; [|pose proof (qv_baseline_trials _ _ _ Hqs); by destruct (c_trials b)].
  assert (comparable c b = negb (incomparable c b (energy t) (energy bt))) as Hcomp by (unfold comparable; by rewrite Hht, Hbt).
  destruct (incomparable c b (energy t) (energy bt)).
  { exists s. split; [|eapply chosen_skip; [done| |done]; unfold eligible; rewrite Hcomp; naive_solver].
    rewrite <- (judged_step n c) by done. unfold judge. by rewrite Hv, Hperm, Hcomp. }
  destruct (negb (on_cpu c) && dleb _ _) eqn:H2.
  { apply (Hskip _ H2). intros [Hcpu%negb_true_iff Hle]%andb_true_iff. unfold judge. rewrite Hcomp, andb_false_r. split; [|done].
    intros (_ & _ & _ & [?|Hlt]); [congruence|].
    pose proof (comparable_baseline c b Hcomp) as Hvb.
    destruct (qv_trials _ _ _ Hqs k b (qv_baseline _ _ _ Hqs) Hvb) as (_ & ? & _). destruct Hkey as (? & _).
    rewrite dleb_negb_dltb, Hlt in Hle; done. }
  assert (eligible p b c) as He.
  { split_and!; [done..|]. destruct (on_cpu c) eqn:Hcpu; [by left|right]. cbn in H2.
    pose proof (comparable_baseline c b Hcomp) as Hvb.
    destruct (qv_trials _ _ _ Hqs k b (qv_baseline _ _ _ Hqs) Hvb) as (_ & ? & _). destruct Hkey as (? & _).
    rewrite dleb_negb_dltb in H2 by done. by apply negb_false_iff in H2. }
  rewrite (judged_same n c) by (done || by apply judge_eligible).
  pose proof (chosen_new n c s Hn He Hs) as Hnew. destruct s as [j|]; [|eauto].
  cbn in Hs. destruct Hs as (d & Hj & Hd & Hed & _). rewrite (judged_lookup n j d) by done. rewrite decide_True by lia.
  rewrite judge_eligible by done. rewrite Hd in Hnew. eauto.
Qed.

Lemma choose_loop_spec m n s : (n + m = length qs)%nat → chosen n s →
  ∃ s', choose_loop p k m n (judged n) s = Done (judge p b <$> qs, s') ∧ chosen (length qs) s'.
Proof.
  revert n s. induction m as [|m IH]; intros n s Hlen Hs; cbn [choose_loop].
  - exists s. replace n with (length qs) in * by lia. split; [|done]. unfold judged. by rewrite firstn_all, drop_all, app_nil_r.
  - destruct (lookup_lt_is_Some_2 qs n) as [c Hc]; [lia|]. destruct (choose_step_spec n c s Hc Hs) as (s' & -> & Hs').
    apply IH; [lia|done].
Qed.

Lemma chosen_best i : chosen (length qs) (Some i) → ∃ c, best p b qs i c.
Proof.
  intros (c & _ & Hc & He & Hbest). exists c. split_and!; [done..|]. intros j d Hd. eauto using lookup_lt_Some.
Qed.

Lemma best_unique i c j d : best p b qs i c → best p b qs j d → i = j.
Proof.
  intros (Hi & Hei & Hbi) (Hj & Hej & Hbj). destruct (decide (i = j)) as [|Hne]; [done|].
  destruct (eligible_defined i c Hi Hei) as (_ & ? & _). destruct (eligible_defined j d Hj Hej) as (_ & ? & _).
  specialize (Hbi j d Hj Hej (not_eq_sym Hne)). specialize (Hbj i c Hi Hei Hne). apply key_less_lt in Hbi, Hbj; [|done..].
  by destruct (key_lt_irrefl c (key_lt_trans _ _ _ Hbi Hbj)).
Qed.

End Loop.

(** * The plan *)

Section Plan.
Context (p : QualificationProtocol) (simulation : bool).

Definition first_part (cs : list CandidateQualification) : Ex (list CandidateQualification * option nat) :=
  validateProtocol p;; throw_if (bool_decide (cs = []) || (16 <? Z.of_nat (length cs))) "invalid_candidate_count";;
  qualify_all p simulation 0 cs ∅ None.

Lemma first_part_spec cs qs r : first_part cs = inr (qs, r) ↔ admitted p simulation cs qs ∧ r = baseline_from 0 qs None.
Proof.
  assert (bool_decide (cs = []) || (16 <? Z.of_nat (length cs)) = false ↔ (1 ≤ length cs ≤ 16)%nat) as Hlen.
  { rewrite orb_false_iff, bool_decide_eq_false, Z.ltb_ge. destruct cs; cbn; [split; [by intros [? ?]|lia]|]. split; [lia|]. split; [done|lia]. }
  assert (Forall (λ c, c_id (candidate c) ≠ "" ∧ c_id (candidate c) ∉ (∅ : gset string)) cs ↔ Forall (λ c, c_id (candidate c) ≠ "") cs) as Hids.
  { split; intros Hall; (eapply Forall_impl; [exact Hall|]); cbn; [tauto|]. intros c Hc. split; [done|apply not_elem_of_empty]. }
  unfold first_part, admitted. split.
  - intros ([] & Hv & [Hl Hq]%throw_if_inr)%Ex_bind_inr. apply qualify_all_spec in Hq. tauto.
  - intros [(Hv & Hl & Hnd & Hne & Hq) Hr]. apply Ex_bind_inr. exists tt. split; [done|]. apply throw_if_inr.
    split; [tauto|]. apply qualify_all_spec. tauto.
Qed.

Lemma admitted_lookup cs qs i q : admitted p simulation cs qs → qs !! i = Some q →
  ∃ c, cs !! i = Some c ∧ qualify c p simulation = inr q.
Proof. intros (_ & _ & _ & _ & Hall) Hi. destruct (Forall2_lookup_r _ _ _ _ _ Hall Hi) as (c & ? & ?). eauto. Qed.

Lemma admitted_ids cs qs : Forall2 (λ c q, qualify c p simulation = inr q) cs qs →
  map (λ c, c_id (candidate c)) qs = map (λ c, c_id (candidate c)) cs.
Proof. induction 1 as [|c q cs qs (Hc & _ & _)%qualify_keeps _ IH]; [done|]. cbn. by rewrite Hc, IH. Qed.

Lemma admitted_measured cs qs i q : admitted p simulation cs qs → qs !! i = Some q → energy_valid q = true →
  measured_candidate p simulation q ∧ c_trials q ≠ [].
Proof.
  intros Ha Hi He. destruct (admitted_lookup _ _ _ _ Ha Hi) as (c & _ & Hq). pose proof (qualify_measured _ _ _ _ Hq He) as Hm.
  split; [done|]. destruct Hm as [_ _ _ _ (_ & _ & Hne)%summarize_finite _ _ _]. by destruct (c_trials q).
Qed.

Lemma admitted_vector cs qs k b : admitted p simulation cs qs → is_baseline qs k b → qualified_vector qs k b.
Proof.
  intros Ha (Hk & (_ & _ & He) & _). split; [|intros i c Hi Hc|done|].
  - destruct Ha as (_ & _ & Hnd & _ & Hall). by rewrite (admitted_ids cs qs).
  - destruct (admitted_measured _ _ _ _ Ha Hi Hc) as [Hm ?]. eauto using measured_key.
  - destruct (admitted_lookup _ _ _ _ Ha Hk) as (c & _ & Hq). by eapply qualify_executed.
Qed.

(** The second loop, from the start. *)
Lemma choose_all cs qs k b : admitted p simulation cs qs → is_baseline qs k b →
  ∃ s, choose_loop p k (length qs) 0 qs None = Done (judge p b <$> qs, s) ∧ chosen p qs b (length qs) s.
Proof.
  intros Ha Hb. pose proof (choose_loop_spec p k qs b (admitted_vector cs qs k b Ha Hb) (length qs) 0 None) as Hl.
  apply Hl; [lia|]. intros j d. lia.
Qed.

Lemma energy_plan_defined cs qs k b i c : admitted p simulation cs qs → is_baseline qs k b → best p b qs i c →
  ∃ r, energy_plan (judge p b <$> qs) i k simulation = Done r.
Proof.
  intros Ha Hb (Hi & _). destruct Hb as (Hk & _). unfold energy_plan. rewrite !list_lookup_fmap, Hi, Hk. eauto.
Qed.

Lemma baseline_from_is qs k : Some k = baseline_from 0 qs None → ∃ b, is_baseline qs k b.
Proof.
  intros Hk. pose proof (baseline_from_spec 0 qs None) as Hs. rewrite <- Hk in Hs.
  destruct Hs as [(j & q & -> & Hq & Hcan & Hlast)|[? _]]; [|done]. by exists q.
Qed.

Lemma chosen_none qs b : chosen p qs b (length qs) None → ∀ j c, qs !! j = Some c → ¬ eligible p b c.
Proof. cbn. eauto using lookup_lt_Some. Qed.

Lemma select_defined cs : ∃ r, select cs p simulation = Done r.
Proof.
  unfold select. change (validateProtocol p ≫= _) with (first_part cs).
  destruct (first_part cs) as [why|[qs [k|]]] eqn:Hf; [eauto| |eauto]. apply first_part_spec in Hf as [Ha Hk].
  destruct (baseline_from_is qs k Hk) as [b Hb]. destruct (choose_all cs qs k b Ha Hb) as (s & -> & Hs). destruct s as [i|]; [|eauto].
  apply chosen_best in Hs as [c Hc]. by apply (energy_plan_defined cs qs k b i c).
Qed.

Lemma select_planned cs plan : select cs p simulation = Done (inr plan) →
  ∃ qs, admitted p simulation cs qs ∧ planned p simulation qs plan.
Proof.
  unfold select. change (validateProtocol p ≫= _) with (first_part cs).
  destruct (first_part cs) as [why|[qs [k|]]] eqn:Hf; [done| |]; apply first_part_spec in Hf as [Ha Hk].
  - destruct (baseline_from_is qs k Hk) as [b Hb]. destruct (choose_all cs qs k b Ha Hb) as (s & -> & Hs). destruct s as [i|].
    + apply chosen_best in Hs as [c Hc]. intros Hplan. exists qs. split; [done|]. by eapply planned_energy.
    + intros [= <-]. exists qs. split; [done|]. pose proof (chosen_none qs b Hs) as Hno. destruct (require_measured_energy p) eqn:Hr; cbn.
      * exact (planned_refused p simulation qs k b Hb Hno Hr).
      * exact (planned_baseline p simulation qs k b Hb Hno Hr).
  - intros [= <-]. exists qs. split; [done|]. apply planned_failed. intros j c Hc.
    pose proof (baseline_from_spec 0 qs None) as Hs. rewrite <- Hk in Hs.
    destruct Hs as [_ Hno]. by apply (Hno j c).
Qed.

Lemma planned_select cs qs plan : admitted p simulation cs qs → planned p simulation qs plan →
  select cs p simulation = Done (inr plan).
Proof.
  intros Ha Hp. assert (first_part cs = inr (qs, baseline_from 0 qs None)) as Hf by (by apply first_part_spec).
  unfold select. change (validateProtocol p ≫= _) with (first_part cs). rewrite Hf.
  destruct Hp as [Hno|k b Hb Hno Hr|k b Hb Hno Hr|k b i c plan Hb Hc Hplan];
    try (rewrite (is_baseline_from qs k b) by done; destruct (choose_all cs qs k b Ha Hb) as (s & -> & Hs)).
  - pose proof (baseline_from_spec 0 qs None) as Hs. destruct (baseline_from 0 qs None) as [k|]; [|done].
    destruct Hs as [(j & q & _ & Hq & Hcan & _)|[? _]]; [|done]. by destruct (Hno j q).
  - destruct s as [i|]; [|by rewrite Hr]. apply chosen_best in Hs as (c & Hc & He & _). by destruct (Hno i c).
  - destruct s as [i|]; [|by rewrite Hr]. apply chosen_best in Hs as (c & Hc & He & _). by destruct (Hno i c).
  - destruct s as [j|]; [|destruct Hc as (Hc & He & _); destruct (chosen_none qs b Hs i c Hc He)].
    apply chosen_best in Hs as [d Hd]. by rewrite (best_unique p k qs b (admitted_vector cs qs k b Ha Hb) j d i c).
Qed.

End Plan.

(** * The properties *)

(** C29.  The plan is the one the protocol determines.  Selection never reads outside
    its vectors, and it returns a plan exactly if the protocol is valid, the one to
    sixteen candidates have distinct non-empty names and can be qualified, and the
    plan is that of the specification: without a valid single-threaded processor
    baseline nothing is selected; a candidate whose model or instrument does not match
    the baseline's loses its energy verdict; the selected candidate is the one with
    strictly the least key (energy, uncertainty, latency, processor first, name) among
    those that are measured, permitted by the device policy, comparable with the
    baseline, and on another device only if they save energy; without any, the plan
    falls back on the baseline unless the protocol requires measured energy. *)
Theorem selection_is_exact cs p simulation :
  (∃ r, select cs p simulation = Done r) ∧
  ∀ plan, select cs p simulation = Done (inr plan) ↔
          ∃ qs, admitted p simulation cs qs ∧ planned p simulation qs plan.
Proof.
  split; [apply select_defined|]. intros plan. split; [apply select_planned|].
  intros (qs & Ha & Hp). by apply (planned_select p simulation cs qs).
Qed.

(** A trial whose measurement may support a claim. *)
Definition claimable (t : ExecutionTrial) : Prop :=
  t_success t = true ∧ nv_valid (numerical t) = true ∧ claimEligible (energy t) = true ∧
  calibrated_by (instrument (energy t)) (start_unix_seconds (energy t)).

Lemma measured_trials p q : measured_candidate p false q → Forall (λ t, valid_double (start_unix_seconds (energy t))) (c_trials q) →
  Forall claimable (c_trials q).
Proof.
  intros Hm Hv. pose proof (mc_succeeded _ _ _ Hm) as Hs. pose proof (mc_counted _ _ _ Hm) as Hc. rewrite Forall_forall in *.
  intros t Ht. specialize (Hs t Ht). destruct (Hc t Ht) as [Hclaim _]. specialize (Hv t Ht). cbn in Hclaim.
  destruct (claim_calibrated _ Hv Hclaim) as (_ & _ & Hcal). unfold trial_failed in Hs.
  repeat match goal with H : _ || _ = false |- _ => apply orb_false_iff in H as [? ?] end.
  repeat match goal with H : negb _ = false |- _ => apply negb_false_iff in H end. by split_and!.
Qed.

(** The two candidates of a comparative claim. *)
Definition claim_holds (p : QualificationProtocol) (c b : CandidateQualification) : Prop :=
  on_cpu b = true ∧ threads (candidate b) = 1 ∧ intervals_apart c b = true ∧
  model_sha256 (candidate c) = model_sha256 (candidate b) ∧ guardrail_evidence_ref p ≠ "" ∧
  measured_candidate p false c ∧ measured_candidate p false b ∧
  (∃ w, Forall (λ t, measured_with (energy t) = w) (c_trials c ++ c_trials b)) ∧ Forall claimable (c_trials c ++ c_trials b).

Lemma comparable_instrument c b t bt : head (c_trials c) = Some t → head (c_trials b) = Some bt → comparable c b = true →
  model_sha256 (candidate c) = model_sha256 (candidate b) ∧ measured_with (energy t) = measured_with (energy bt).
Proof.
  unfold comparable. intros -> ->. unfold incomparable, measured_with. intros Hc%negb_true_iff.
  repeat match goal with H : _ || _ = false |- _ => apply orb_false_iff in H as [? ?] end.
  repeat match goal with H : negb (String.eqb _ _) = false |- _ => apply negb_false_iff, String.eqb_eq in H end. split; congruence.
Qed.

Lemma eligible_claim p cs qs k b i c : admitted p false cs qs → is_baseline qs k b → qs !! i = Some c → eligible p b c →
  Forall (λ q, Forall (λ t, valid_double (start_unix_seconds (energy t))) (c_trials q)) cs →
  intervals_apart c b = true → claim_holds p c b.
Proof.
  intros Ha (Hk & (Hcpu & Hth & _) & _) Hi (He & _ & Hcomp & _) Hvalid Hapart.
  pose proof (comparable_baseline c b Hcomp) as Hbe.
  destruct (admitted_measured p false cs qs i c Ha Hi He) as [Hmc Hct]. destruct (admitted_measured p false cs qs k b Ha Hk Hbe) as [Hmb Hbt].
  assert (∀ j q, qs !! j = Some q → Forall (λ t, valid_double (start_unix_seconds (energy t))) (c_trials q)) as Hv.
  { intros j q Hq. destruct (admitted_lookup p false cs qs j q Ha Hq) as (q0 & Hq0 & (_ & -> & _)%qualify_keeps).
    rewrite Forall_forall in Hvalid. apply Hvalid. by apply list_elem_of_lookup_2 in Hq0. }
  destruct (mc_instrument _ _ _ Hmc) as [w Hw]. destruct (mc_instrument _ _ _ Hmb) as [wb Hwb].
  destruct (c_trials c) as [|t ts] eqn:Ec; [done|]. destruct (c_trials b) as [|bt bts] eqn:Eb; [done|].
  destruct (comparable_instrument c b t bt) as [Hmodel Hsame]; [by rewrite Ec|by rewrite Eb|done|].
  pose proof (Forall_inv Hw) as Hw0. pose proof (Forall_inv Hwb) as Hwb0. cbn in Hw0, Hwb0.
  unfold claim_holds. rewrite Ec, Eb. split_and!; try done.
  - by apply (mc_guardrail _ _ _ Hmc).
  - exists w. apply Forall_app. split; [done|]. replace w with wb by congruence. done.
  - apply Forall_app. rewrite <- Ec, <- Eb. split; apply (measured_trials p); eauto.
Qed.

(** C30.  A comparative energy claim is justified.  A plan that claims a saving has
    selected a candidate other than the baseline, whose energy interval, widened by
    its expanded uncertainty, lies below the baseline's; both run the same model, the
    protocol names its guardrail evidence, and every trial of both succeeded within the
    numerical contract and was measured with the same instrument over the same
    boundary, as an eligible measurement with an instrument calibrated no later than
    the day of the trial.  A simulated plan never claims. *)
Theorem energy_claims_are_justified cs p plan :
  Forall (λ q, Forall (λ t, valid_double (start_unix_seconds (energy t))) (c_trials q)) cs →
  (selectEnergyPlan cs p = Done (inr plan) → comparative_energy_claim plan = true →
   ∃ i k c b, selected_candidate plan = Some i ∧ i ≠ k ∧ candidates plan !! i = Some c ∧ candidates plan !! k = Some b ∧
              claim_holds p c b) ∧
  (simulateEnergyPlan cs p = Done (inr plan) → comparative_energy_claim plan = false ∧ synthetic_test plan = true).
Proof.
  intros Hvalid. split.
  - intros (qs & Ha & Hp)%select_planned Hclaim. destruct Hp as [| | |k b i c plan Hb (Hi & He & _) Hplan]; try done.
    pose proof Hb as (Hk & (_ & _ & Hbe) & _). unfold energy_plan in Hplan. rewrite !list_lookup_fmap, Hi, Hk in Hplan. cbn in Hplan.
    assert (judge p b b = b) as Hjb.
    { destruct (admitted_lookup p false cs qs k b Ha Hk) as (b0 & _ & Hq). apply judge_baseline. by eapply qualify_executed. }
    rewrite (judge_eligible p b c), Hjb in Hplan by done.
    injection Hplan as [_ [= <-]]%throw_if_inr. cbn [comparative_energy_claim selected_candidate candidates] in *.
    apply andb_true_iff in Hclaim as [Hne%negb_true_iff%Nat.eqb_neq Hapart].
    exists i, k, c, b. rewrite !list_lookup_fmap, Hi, Hk. cbn. rewrite (judge_eligible p b c), Hjb by done.
    split_and!; try done. by apply (eligible_claim p cs qs k b i c).
  - intros (qs & Ha & Hp)%select_planned. destruct Hp as [| | |k b i c plan Hb (Hi & He & _) Hplan]; try done.
    pose proof Hb as (Hk & _). unfold energy_plan in Hplan. rewrite !list_lookup_fmap, Hi, Hk in Hplan. cbn in Hplan.
    by injection Hplan as [_ [= <-]]%throw_if_inr.
Qed.

End Facts.

(** * Examples *)

(** A measurement with the meter of EnergyFacts: [j] joules over ten seconds and
    five functional units. *)
Definition metered (j : Z) : EnergyMeasurement :=
  (normalize {|
    available := true; evidence_class := Measured; source_kind := "rapl"; reason := ""; instrument := meter;
    start_unix_seconds := double_of_Z 1700000000; end_unix_seconds := double_of_Z 1700000010; elapsed_seconds := double_of_Z 10;
    joules := double_of_Z j; average_watts := dzero; joules_per_fu := dzero; functional_units := 0; sample_count := 2;
    maximum_sample_gap_seconds := double_of_Z 10; source_sample_count := 0; maximum_source_gap_seconds := dzero;
    trace_sha256 := ""; domains := []; power_samples := [] |} 5).1.

Definition passed : NumericalValidation := {|
  nv_valid := true; shape_equal := true; dtype_equal := true; maximum_absolute_error := dzero; maximum_relative_error := dzero;
  quality_score := one; nonfinite_values := 0; nv_reason := "" |}.

Definition three_trials (j : Z) : list ExecutionTrial :=
  replicate 3 {| t_success := true; t_reason := ""; latency_ms_per_fu := double_of_Z 2; numerical := passed; energy := metered j |}.

Definition a_candidate (id device : string) (n j : Z) : CandidateQualification := {|
  candidate := {|
    c_id := id; c_backend := "onnxruntime"; c_device := device; c_device_id := device; c_precision := "float32";
    c_math_policy := "preserve_fp32_no_quantization"; model_sha256 := "m"; model_format := "onnx"; backend_version := "1";
    threads := n; c_batch_size := 1; execution_ready := true |};
  c_trials := three_trials j; phases := []; execution_valid := false; energy_valid := false; c_reason := "";
  latency_ms := no_distribution; c_joules_per_fu := no_distribution; expanded_uncertainty_percent := dzero |}.

(** A baseline of 100 joules and candidates of 60 joules and, on a graphics
    processor, 40 joules. *)
Definition three_candidates : list CandidateQualification :=
  [a_candidate "base" "cpu" 1 100; a_candidate "four" "cpu" 4 60; a_candidate "gpu" "gpu" 1 40].

Lemma three_candidates_valid :
  Forall (λ q, Forall (λ t, valid_double (start_unix_seconds (energy t))) (c_trials q)) three_candidates.
Proof. repeat (apply Forall_cons; split); try apply Forall_nil; done || (repeat (apply Forall_cons; split); try apply Forall_nil; done). Qed.

Lemma energy_claims_are_justified_witness :
  match @selectEnergyPlan x87 three_candidates (default_protocol "w" "g") with
  | Done (inr plan) => selected_candidate plan = Some 2%nat ∧
      ∃ i k c b, selected_candidate plan = Some i ∧ i ≠ k ∧ candidates plan !! i = Some c ∧ candidates plan !! k = Some b ∧
              @claim_holds x87 (default_protocol "w" "g") c b
  | _ => False
  end.
Proof.
  assert (match @selectEnergyPlan x87 three_candidates (default_protocol "w" "g") with
          | Done (inr plan) => (bool_decide (selected_candidate plan = Some 2%nat), comparative_energy_claim plan)
          | _ => (false, false) end = (true, true)) as Hrun by (vm_compute; reflexivity).
  destruct (@selectEnergyPlan x87 three_candidates (default_protocol "w" "g")) as [[why|plan]| |] eqn:Hp;
    [discriminate Hrun| |discriminate Hrun..].
  injection Hrun as Hsel%bool_decide_eq_true Hclaim. split; [exact Hsel|].
  destruct (@energy_claims_are_justified x87 three_candidates (default_protocol "w" "g") plan three_candidates_valid) as [Hj _].
  exact (Hj Hp Hclaim).
Defined.

(** Under the policy [cpu_only] the processor candidate is selected instead. *)
Example cpu_only_stays_on_the_processor :
  match @selectEnergyPlan x87 three_candidates
          (let p := default_protocol "w" "g" in {|
            workload := workload p; functional_unit := functional_unit p; quality_metric := quality_metric p;
            device_policy := "cpu_only"; precision := precision p; math_policy := math_policy p;
            guardrail_evidence_ref := guardrail_evidence_ref p; profile_sha256 := ""; batch_size := 1; warmups := 2;
            repetitions := 5; trials := 3; units_per_trial := 5; maximum_memory_bytes := maximum_memory_bytes p;
            absolute_tolerance := absolute_tolerance p; relative_tolerance := relative_tolerance p;
            quality_threshold := quality_threshold p; maximum_latency_ms := dzero;
            maximum_uncertainty_percent := maximum_uncertainty_percent p; require_measured_energy := true |}) with
  | Done (inr plan) => selected_candidate plan = Some 1%nat
  | _ => False
  end.
Proof. vm_compute. reflexivity. Qed.

(** * The numerical comparison *)

(** Both values are finite and the difference is within the tolerance. *)
Definition agrees (p : QualificationProtocol) (r a : spec_float) : Prop :=
  isfinite r = true ∧ isfinite a = true ∧ value_close p r a = true.

Lemma compare_value_close p r a s :
  sum_close (compare_value p r a s) = true ↔ sum_close s = true ∧ agrees p r a.
Proof.
  unfold compare_value, agrees. destruct (isfinite r), (isfinite a); cbn; rewrite ?andb_true_iff; intuition congruence.
Qed.

Lemma compare_values_close p rs as_ s : length rs = length as_ →
  sum_close (compare_values p rs as_ s) = true ↔ sum_close s = true ∧ Forall2 (agrees p) rs as_.
Proof.
  revert as_ s. induction rs as [|r rs IH]; intros [|a as_] s Hlen; try done; cbn [compare_values].
  - intuition constructor.
  - rewrite IH by (injection Hlen; done). rewrite compare_value_close, Forall2_cons. tauto.
Qed.

Lemma compare_values_finite p rs as_ s : Forall2 (agrees p) rs as_ → sum_nonfinite (compare_values p rs as_ s) = sum_nonfinite s.
Proof.
  intros Hall. revert s. induction Hall as [|r a rs as_ (Hr & Ha & _) _ IH]; intros s; cbn [compare_values]; [done|].
  rewrite IH. unfold compare_value. by rewrite Hr, Ha.
Qed.

(** The score of the quality metric on tensors that agree. *)
Definition quality_of (p : QualificationProtocol) (r a : list spec_float) (score : double) : Prop :=
  if String.eqb (quality_metric p) "top1_agreement" then
    Z.of_nat (length r) mod batch_size p = 0 ∧
    score = ddiv (double_of_Z (matching_rows (Z.to_nat (batch_size p)) (Z.to_nat (Z.of_nat (length r) / batch_size p)) r a 0))
                 (double_of_Z (batch_size p))
  else score = if String.eqb (quality_metric p) "cosine_similarity" then cosine (compare_values p r a no_sums) else one.

(** The comparison of a candidate's output with the reference always returns for a
    valid protocol, and it is valid exactly if shape and type agree, every pair of
    values is finite and within the tolerance, and the score of the quality metric
    reaches the threshold. *)
Theorem numerical_validation_is_exact r a rs as_ dtype p : batch_size p ≠ 0 →
  ∃ n, validateNumerical r a rs as_ dtype p = Done n ∧
    (nv_valid n = true ↔
     rs = as_ ∧ length r = length a ∧ r ≠ [] ∧ dtype = precision p ∧ Forall2 (agrees p) r a ∧
     ∃ score, quality_of p r a score ∧ dleb (quality_threshold p) score = true).
Proof.
  intros Hb. unfold validateNumerical.
  destruct (negb (bool_decide (rs = as_) && _ && _) || _) eqn:Hshape.
  { eexists. split; [done|]. cbn [nv_valid]. split; [done|]. intros (-> & Hl & Hne & -> & _). exfalso. revert Hshape.
    rewrite bool_decide_eq_true_2, Hl, Nat.eqb_refl, bool_decide_eq_false_2, String.eqb_refl by done. done. }
  apply orb_false_iff in Hshape as [[[->%bool_decide_eq_true Hl%Nat.eqb_eq]%andb_true_iff Hne]%negb_false_iff%andb_true_iff Hd].
  apply negb_true_iff, bool_decide_eq_false in Hne. apply negb_false_iff, String.eqb_eq in Hd. subst dtype.
  set (s := compare_values p r a no_sums). pose proof (compare_values_close p r a no_sums Hl) as Hclose. fold s in Hclose.
  assert (∀ score, quality_of p r a score ∨ sum_close s = false →
    (∀ score', quality_of p r a score' → sum_close s = true → score' = score) →
    sum_close s && (sum_nonfinite s =? 0) && dleb (quality_threshold p) score = true ↔
    as_ = as_ ∧ length r = length a ∧ r ≠ [] ∧ precision p = precision p ∧ Forall2 (agrees p) r a ∧
    ∃ score, quality_of p r a score ∧ dleb (quality_threshold p) score = true) as Hfinish.
  { intros score Hq Hu. rewrite !andb_true_iff, Z.eqb_eq. split.
    - intros [[Hc _] ?]. split_and!; try done; [by apply Hclose|]. destruct Hq as [Hq|]; [|congruence]. eauto.
    - intros (_ & _ & _ & _ & Hall & score' & Hq' & Ht). assert (sum_close s = true) as Hc by by apply Hclose.
      split; [split; [done|]|]; [by unfold s; rewrite compare_values_finite|]. by rewrite <- (Hu score'). }
  unfold quality_of in *. destruct (String.eqb (quality_metric p) "top1_agreement").
  - rewrite (proj2 (Z.eqb_neq _ _) Hb). destruct (Z.eqb_spec (Z.of_nat (length r) mod batch_size p) 0) as [Hm|Hm]; cbn [negb].
    + eexists. split; [done|]. apply Hfinish; [by left|]. by intros ? [_ ->].
    + eexists. split; [done|]. cbn [nv_valid validation_of]. split; [done|]. by intros (_ & _ & _ & _ & _ & ? & [? _] & _).
  - destruct (String.eqb (quality_metric p) "cosine_similarity").
    + eexists. split; [done|]. apply Hfinish; [by left|]. by intros ? ->.
    + eexists. split; [done|]. apply Hfinish; unfold agreement; destruct (sum_close s); auto; by intros ? ->.
Qed.

(** * Threads *)

Lemma requested_threads_spec cpus requested v v' : requested_threads cpus requested v = inr v' →
  (∀ n, n ∈ v' ↔ n ∈ v ∨ n ∈ requested) ∧ ∀ n, n ∈ requested → n ≠ 0 ∧ n ≤ cpus.
Proof.
  revert v. induction requested as [|n requested IH]; intros v; cbn [requested_threads].
  - intros [= <-]. split; [intros n; rewrite elem_of_nil; tauto|by intros n ?%elem_of_nil].
  - intros [[?%Z.eqb_neq ?%Z.ltb_ge]%orb_false_iff (Hin & Hall)%IH]%throw_if_inr. split.
    + intros m. rewrite Hin, elem_of_cons. set_solver.
    + intros m [->|Hm]%elem_of_cons; [done|]. by apply Hall.
Qed.

(** The thread counts to try are in ascending order without repetition, one among
    them, and are the requested ones, or the powers of two up to eight, that the
    host has; at most sixteen. *)
Theorem thread_candidates_exact cpus requested l : 1 ≤ cpus → Forall (λ n, 0 ≤ n) requested →
  cpuThreadCandidates cpus requested = inr l →
  Sorted Z.le l ∧ NoDup l ∧ (length l ≤ 16)%nat ∧ (∀ n, n ∈ l → 1 ≤ n ≤ cpus) ∧
  ∀ n, n ∈ l ↔ n = 1 ∨ if decide (requested = []) then n ∈ [2; 4; 8] ∧ n ≤ cpus else n ∈ requested.
Proof.
  intros Hc Hpos. unfold cpuThreadCandidates. intros (v & Hv & [Hsize%Z.ltb_ge [= <-]]%throw_if_inr)%Ex_bind_inr.
  assert (∀ n, n ∈ v ↔ n = 1 ∨ if decide (requested = []) then n ∈ [2; 4; 8] ∧ n ≤ cpus else n ∈ requested) as Hin.
  { intros n. destruct (decide (requested = [])) as [->|Hne].
    - injection Hv as <-. rewrite elem_of_union, elem_of_singleton, elem_of_list_to_set, list_elem_of_filter. tauto.
    - rewrite bool_decide_eq_false_2 in Hv by done. apply requested_threads_spec in Hv as [Hv _]. rewrite Hv. set_solver. }
  assert (∀ n, n ∈ merge_sort Z.le (elements v) ↔ n ∈ v) as Hsort by (intros n; by rewrite merge_sort_Permutation, elem_of_elements).
  split_and!.
  - apply Sorted_merge_sort, _.
  - rewrite merge_sort_Permutation. apply NoDup_elements.
  - rewrite merge_sort_Permutation. change (length (elements v)) with (size v). lia.
  - intros n [->|Hn]%Hsort%Hin; [lia|]. destruct (decide (requested = [])) as [Hnil|Hne].
    + destruct Hn as [Hn ?]. rewrite !elem_of_cons, elem_of_nil in Hn. lia.
    + rewrite bool_decide_eq_false_2 in Hv by done. apply requested_threads_spec in Hv as [_ Hv]. rewrite Forall_forall in Hpos.
      specialize (Hpos n Hn). specialize (Hv n Hn). cbn in Hpos. lia.
  - intros n. by rewrite Hsort.
Qed.
