(* ===== verification/SourceTools.v ===== *)
(** Component: the source formatter and linter (tooling/SourceTools.h and .cpp)
    and its command line tool (tooling/SourceToolMain.cpp).

    The brace depth and the comment flag that both keep from line to line are the
    state of [SM]; increasing the depth past the largest [int] is undefined.  A
    loop over lines that appends to a vector takes the vector as an argument. *)
From S2P Require Import Prelude CxxInt CxxString JsonText.
Open Scope string_scope.
Open Scope Z_scope.

(** * Lines *)

Record ScanState := { braceDepth : Z; inBlockComment : bool }.

Definition new_scan : ScanState := {| braceDepth := 0; inBlockComment := false |}.
Definition set_braceDepth (v : Z) (s : ScanState) : ScanState := {| braceDepth := v; inBlockComment := inBlockComment s |}.
Definition set_inBlockComment (v : bool) (s : ScanState) : ScanState := {| braceDepth := braceDepth s; inBlockComment := v |}.

Definition chr_return : ascii := "013"%char.

Fixpoint normalizeNewlines (source : string) : string :=
  match source with
  | EmptyString => ""
  | String c rest =>
      if (c =? chr_return)%char then
        match rest with
        | EmptyString => String chr_newline ""
        | String d rest' =>
            if (d =? chr_newline)%char then String chr_newline (normalizeNewlines rest')
            else String chr_newline (normalizeNewlines rest)
        end
      else String c (normalizeNewlines rest)
  end.

(** The pieces between line ends; a last line that is not ended counts if it
    has a character. *)
Fixpoint pieces (source : string) : list string :=
  match source with
  | EmptyString => []
  | String c rest =>
      if (c =? chr_newline)%char then "" :: pieces rest
      else match pieces rest with
           | [] => [String c ""]
           | line :: lines => String c line :: lines
           end
  end.

Definition splitLines (source : string) : list string := if is_empty source then [""] else pieces source.

Definition horizontal (c : ascii) : bool := (c =? " ")%char || (c =? "009")%char.

Fixpoint leadingWhitespace (line : string) : nat :=
  match line with
  | String c rest => if horizontal c then S (leadingWhitespace rest) else 0
  | EmptyString => 0
  end.

Definition rtrimHorizontal (line : string) : string := drop_while_end horizontal line.

(** [s.substr(n)] *)
Fixpoint substr (n : nat) (s : string) : string :=
  match n, s with
  | S n, String _ rest => substr n rest
  | _, _ => s
  end.

Definition beginsWithClosingBrace (content : string) : bool := bool_decide (front content = Some "}"%char).

(** * Braces and comments *)

(** The characters of a line after those read, with the flags for string literals. *)
Fixpoint scan_from (line : string) (inString escaped : bool) : SM ScanState unit :=
  match line with
  | EmptyString => mret tt
  | String c rest =>
      let next := match front rest with Some n => n | None => chr_nul end in
      let skip := match rest with String _ rest' => scan_from rest' inString escaped | EmptyString => mret tt end in
      comment ← gets inBlockComment;
      if (comment : bool) then
        if (c =? "*")%char && (next =? "/")%char then modify (set_inBlockComment false);; skip
        else scan_from rest inString escaped
      else if inString then
        if escaped then scan_from rest inString false
        else if (c =? "\")%char then scan_from rest inString true
        else if (c =? chr_quote)%char then scan_from rest false escaped
        else scan_from rest inString escaped
      else if (c =? chr_quote)%char then scan_from rest true escaped
      else if (c =? "/")%char && (next =? "/")%char then mret tt
      else if (c =? "#")%char then mret tt
      else if (c =? "/")%char && (next =? "*")%char then modify (set_inBlockComment true);; skip
      else if (c =? "{")%char then
        d ← gets braceDepth;
        if INT32_MAX <=? d then undefined "++state.braceDepth"
        else modify (set_braceDepth (d + 1));; scan_from rest inString escaped
      else if (c =? "}")%char then
        d ← gets braceDepth;
        modify (set_braceDepth (Z.max 0 (d - 1)));; scan_from rest inString escaped
      else scan_from rest inString escaped
  end.

Definition scanCode (line : string) : SM ScanState unit := scan_from line false false.

(** [std::string(n, ' ')] *)
Fixpoint spaces (n : nat) : string := match n with O => "" | S n => String " " (spaces n) end.

(** The indentation of a line with this content. *)
Definition indentation (state : ScanState) (content : string) : string :=
  let targetDepth := braceDepth state in
  let targetDepth := if negb (inBlockComment state) && beginsWithClosingBrace content then Z.max 0 (targetDepth - 1) else targetDepth in
  spaces (Z.to_nat (targetDepth * 4)).

(** * The formatter *)

Fixpoint format_lines (lines formatted : list string) (previousBlank : bool) : SM ScanState (list string) :=
  match lines with
  | [] => mret formatted
  | raw :: lines =>
      let trimmedRight := rtrimHorizontal raw in
      let content := substr (leadingWhitespace trimmedRight) trimmedRight in
      if is_empty content then
        format_lines lines
          (if negb (bool_decide (formatted = [])) && negb previousBlank then formatted ++ [""] else formatted)%list true
      else
        state ← gets id;
        scanCode content;;
        format_lines lines (formatted ++ [indentation state content +:+ content])%list false
  end.

(** [while (!formatted.empty() && formatted.back().empty()) formatted.pop_back();] *)
Fixpoint drop_blank_end (formatted : list string) : list string :=
  match formatted with
  | [] => []
  | line :: lines =>
      match drop_blank_end lines with
      | [] => if is_empty line then [] else [line]
      | lines' => line :: lines'
      end
  end.

Fixpoint unlines (lines : list string) : string :=
  match lines with
  | [] => ""
  | line :: lines => line +:+ String chr_newline (unlines lines)
  end.

Definition formatSource (source : string) : outcome string :=
  match format_lines (splitLines (normalizeNewlines source)) [] false new_scan with
  | Done (formatted, _) => Done (unlines (drop_blank_end formatted))
  | Undefined r => Undefined r
  | OutOfFuel => OutOfFuel
  end.

(** * The linter *)

Record LintDiagnostic := { lint_code : string; message : string; line : Z; column : Z; fixable : bool }.

Definition addDiagnostic (code message : string) (line column : Z) : LintDiagnostic :=
  {| lint_code := code; message := message; line := line; column := column; fixable := true |}.

(** The line of the first carriage return. *)
Fixpoint return_line (source : string) (crLine : Z) : option Z :=
  match source with
  | EmptyString => None
  | String c rest =>
      if (c =? chr_return)%char then Some crLine
      else return_line rest (if (c =? chr_newline)%char then u64 (crLine + 1) else crLine)
  end.

Definition has_tab (prefix : string) : bool := negb (string_forallb (λ c, negb (c =? "009")%char) prefix).

(** The diagnostics of one line about its white space. *)
Definition lint_space (line : string) (lineNumber : Z) : list LintDiagnostic :=
  let prefix := String.substring 0 (leadingWhitespace line) line in
  let trimmedRight := rtrimHorizontal line in
  ((if negb (str_size line =? str_size trimmedRight) then
      [addDiagnostic "SHL002" "trailing whitespace" lineNumber (str_size trimmedRight + 1)] else []) ++
   (if has_tab prefix then
      [addDiagnostic "SHL001" "tab used for indentation; use four spaces per level" lineNumber 1] else []))%list.

(** The loop over the lines: its diagnostics, and whether the last line is blank. *)
Fixpoint lint_lines (lines : list string) (lineNumber : Z) (previousBlank : bool) : SM ScanState (list LintDiagnostic * bool) :=
  match lines with
  | [] => mret ([], previousBlank)
  | line :: lines =>
      let prefixLength := leadingWhitespace line in
      let prefix := String.substring 0 prefixLength line in
      let trimmedRight := rtrimHorizontal line in
      let content := substr (prefixLength `min` String.length trimmedRight) trimmedRight in
      if is_empty content then
        '(rest, blank) ← lint_lines lines (lineNumber + 1) true;
        mret ((lint_space line lineNumber ++
               (if previousBlank then [addDiagnostic "SHL005" "more than one consecutive blank line" lineNumber 1] else []) ++
               rest)%list, blank)
      else
        state ← gets id;
        scanCode content;;
        '(rest, blank) ← lint_lines lines (lineNumber + 1) false;
        mret ((lint_space line lineNumber ++
               (if bool_decide (prefix = indentation state content) then []
                else [addDiagnostic "SHL003" "non-canonical indentation" lineNumber 1]) ++
               rest)%list, blank)
  end.

Definition last_size (lines : list string) : Z := match last lines with Some l => str_size l | None => 0 end.

Definition lintSource (source : string) : outcome (list LintDiagnostic) :=
  let lines := splitLines (normalizeNewlines source) in
  let size := Z.of_nat (length lines) in
  match lint_lines lines 1 false new_scan with
  | Done ((found, previousBlank), _) =>
      Done ((match return_line source 1 with Some l => [addDiagnostic "SHL006" "non-LF line ending" l 1] | None => [] end) ++
            found ++
            (if previousBlank && negb (bool_decide (lines = [])) then
               [addDiagnostic "SHL005" "trailing blank line is not canonical" size 1] else []) ++
            (if is_empty source || negb (bool_decide (back source = Some chr_newline)) then
               [addDiagnostic "SHL004" "source must end with exactly one newline" size
                  (if bool_decide (lines = []) then 1 else last_size lines + 1)] else []))%list
  | Undefined r => Undefined r
  | OutOfFuel => OutOfFuel
  end.

(** * The report *)

Definition hex_digit (n : N) : ascii := ascii_of_N (if (n <? 10)%N then 48 + n else 87 + n).

Definition jsonEscape_char (c : ascii) : string :=
  let short e := String chr_bslash (String e "") in
  if (c =? chr_quote)%char then short chr_quote
  else if (c =? chr_bslash)%char then short chr_bslash
  else if (c =? "008")%char then short "b"%char
  else if (c =? "012")%char then short "f"%char
  else if (c =? chr_newline)%char then short "n"%char
  else if (c =? chr_return)%char then short "r"%char
  else if (c =? "009")%char then short "t"%char
  else if (code c <? 32)%N then
    String chr_bslash ("u00" +:+ String (hex_digit (code c / 16)) (String (hex_digit (code c mod 16)) ""))
  else String c "".

Fixpoint jsonEscape (value : string) : string :=
  match value with
  | EmptyString => ""
  | String c rest => jsonEscape_char c +:+ jsonEscape rest
  end.

Definition diagnostic_json (d : LintDiagnostic) : string :=
  dq "{'code':'" +:+ jsonEscape (lint_code d) +:+ dq "','severity':'warning','line':" +:+ pretty (line d) +:+
  dq ",'column':" +:+ pretty (column d) +:+ dq ",'message':'" +:+ jsonEscape (message d) +:+
  dq "','fixable':" +:+ true_false (fixable d) +:+ "}".

Definition writeDiagnosticsJson (path : string) (diagnostics : list LintDiagnostic) : string :=
  dq "{'schema':'shorthand.lint.v1','path':'" +:+ jsonEscape path +:+ dq "','diagnostics':[" +:+
  String.concat "," (map diagnostic_json diagnostics) +:+ "]}" +:+ endl.

(** * The command line tool *)

(** What a run of the tool does: its exit status, the standard output, and the
    file it writes. *)
Record ToolRun := { exit_status : Z; output : string; written : option (string * string) }.

Definition refused : ToolRun := {| exit_status := 2; output := ""; written := None |}.

(** [read] gives the bytes of a file that can be read, [writable] the paths that
    can be opened for writing. *)
Definition emit (writable : string → bool) (destination : option string) (text : string) (status : Z) : ToolRun :=
  match destination with
  | Some out => if writable out then {| exit_status := status; output := ""; written := Some (out, text) |} else refused
  | None => {| exit_status := status; output := text; written := None |}
  end.

Definition run_tool (read : string → option string) (writable : string → bool) (path mode : string) (destination : option string)
    : outcome ToolRun :=
  if negb (bool_decide (mode ∈ ["format"; "lint"; "fix"])) then Done refused
  else if String.eqb mode "fix" && bool_decide (destination = None) then Done refused
  else match read path with
  | None => Done refused
  | Some source =>
      if String.eqb mode "lint" then
        match lintSource source with
        | Done diagnostics =>
            Done (emit writable destination (writeDiagnosticsJson path diagnostics) (if bool_decide (diagnostics = []) then 0 else 1))
        | Undefined r => Undefined r
        | OutOfFuel => OutOfFuel
        end
      else
        match formatSource source with
        | Done formatted => Done (emit writable destination formatted 0)
        | Undefined r => Undefined r
        | OutOfFuel => OutOfFuel
        end
  end.

(** [main] on the arguments after the name of the program. *)
Definition tool_main (read : string → option string) (writable : string → bool) (arguments : list string) : outcome ToolRun :=
  match arguments with
  | [path; mode] => run_tool read writable path mode None
  | [path; mode; option; out] => if String.eqb option "--output" then run_tool read writable path mode (Some out) else Done refused
  | _ => Done refused
  end.
