(* ===== verification/ScannerText.v ===== *)
(** Component: how the scanner (scanner_parser/scanner.ll) divides a source into
    white space, comments, string literals and other text: the rules that decide
    which characters a token can hold.  A reading is a state machine over the
    characters; the other rules only look at runs of [Char]s between [Gap]s. *)
From S2P Require Import Prelude CxxInt CxxString.
Open Scope Z_scope.

(** Where the scanner stands: in code, after a slash in code, in a comment to
    the end of the line, in a block comment (after one star, after several), in
    a string literal, or after a scanner failure. *)
Inductive Mode := Code | Slash | LineComment | Block | Star | Stars | Literal | Failed.

#[export] Instance Mode_eq_dec : EqDecision Mode.
Proof. solve_decision. Defined.

(** White space, a comment, and a character of a token. *)
Inductive Item := Gap | Comment | Char (c : ascii).

(** The items are kept last first; [gap] says that white space was read since
    the last of them. *)
Record Reading := { mode : Mode; gap : bool; items : list Item }.

Definition start : Reading := {| mode := Code; gap := true; items := [] |}.

Definition scanner_space (c : ascii) : bool :=
  (c =? " ")%char || (c =? "009")%char || (c =? "013")%char || (c =? chr_newline)%char.

(** An item, and then the mode. *)
Definition add (m : Mode) (i : Item) (r : Reading) : Reading :=
  {| mode := m; gap := false; items := i :: (if gap r then Gap :: items r else items r) |}.

Definition set_mode (m : Mode) (r : Reading) : Reading := {| mode := m; gap := gap r; items := items r |}.

Definition space (r : Reading) : Reading := {| mode := Code; gap := true; items := items r |}.

(** A character of code. *)
Definition code_char (c : ascii) (r : Reading) : Reading :=
  if scanner_space c then space r
  else if (c =? chr_quote)%char then add Literal (Char c) r
  else if (c =? "#")%char then add LineComment Comment r
  else if (c =? "/")%char then set_mode Slash r
  else add Code (Char c) r.

(** The rule for block comments does not match one that ends in two stars and a
    slash: the scanner reports it as unterminated. *)
Definition next_char (c : ascii) (r : Reading) : Reading :=
  match mode r with
  | Code => code_char c r
  | Slash =>
      if (c =? "/")%char then add LineComment Comment r
      else if (c =? "*")%char then add Block Comment r
      else code_char c (add Code (Char "/"%char) r)
  | LineComment => if (c =? chr_newline)%char then space r else r
  | Block => if (c =? "*")%char then set_mode Star r else r
  | Star =>
      if (c =? "/")%char then set_mode Code r
      else if (c =? "*")%char then set_mode Stars r else set_mode Block r
  | Stars =>
      if (c =? "/")%char then set_mode Failed r
      else if (c =? "*")%char then r else set_mode Block r
  | Literal => add (if (c =? chr_quote)%char then Code else Literal) (Char c) r
  | Failed => r
  end.

Fixpoint read_text (s : string) (r : Reading) : Reading :=
  match s with
  | EmptyString => r
  | String c rest => read_text rest (next_char c r)
  end.

(** The items of a text, and whether the scanner reads it to the end. *)
Definition finish (r : Reading) : list Item * bool :=
  match mode r with
  | Slash => (rev (items (add Code (Char "/"%char) r)), true)
  | Code | LineComment => (rev (items r), true)
  | _ => (rev (items r), false)
  end.

Definition scanned (source : string) : list Item * bool := finish (read_text source start).
